(* ===== verification/_CoqProject ===== *)
-Q . S2P
Prelude.v
Lib0.v
Rle.v
Object.v
Any.v
StructStore.v
Text.v
TextIndex.v
StringColumn.v
Yata.v
Replicas.v
DeleteSet.v
DeleteSetCodec.v
UpdateCodec.v
Content.v
StructCodec.v
Consume.v
UpdateStream.v
UpdateMerge.v
LazyUpdate.v
EncodedUpdates.v
UpdateVector.v
Pending.v
ApplyUpdate.v
PendingModel.v
Item.v
ItemList.v
ItemSplit.v
TypeRead.v
SearchMarker.v
PositionTree.v
PositionIndex.v
TypeList.v
ListInsert.v
ListDelete.v
MapType.v
Merge.v
Compaction.v
Collect.v
Transact.v
RelativePosition.v
Snapshot.v
StructTree.v
StructTreeOps.v
Registry.v
Hub.v
Awareness.v
Protocol.v
