(* ===== verification/Prelude.v ===== *)
(** * Verification of go-yjs

    go-yjs is a Go implementation of the Yjs CRDT.  A document holds shared
    types (lists, maps, text, XML) as doubly linked lists of items; every
    item has an id (client, clock), and a struct store keeps the items of each
    client in clock order.  Replicas exchange encoded updates (structs plus a
    delete set) and integrate them; concurrent insertions are ordered by the
    YATA rule, so replicas that hold the same items hold the same sequence.
    Around this core the repository has a message protocol, awareness
    (presence), and a backend with a document registry and a publication hub.

    ** How the code is modelled

    Definitions keep the names of the code.  A Go [int] is a [Z] whose 64-bit
    wrap-around is written out where it can occur ([i64], [u64], [u8]); a byte
    is a [Z] with [is_byte]; a Go string is its list of bytes unless its
    contents do not matter.  A function that can fail returns a [result]; one
    that reads from a buffer or works on a document is a [step] on that state,
    and a run-time panic is the error [ErrPanic] (in [Registry], [None]).
    A pointer is a number into a heap kept as a [gmap].  Loops over slices are
    structural; a loop that follows pointers or that is bounded by a number
    read from the input has a fuel argument, and its theorems show that the
    fuel the definition passes is enough.

    ** Files

    - [Prelude]: integers at their width, bit operations, results, readers,
      index lookups, tactics (this file).
    - [Lib0]: variable-length integers, byte arrays, strings
      (internal/lib0/codec.go, crdt/codec_varint.go, encoding.go,
      decoding.go), bounded clock arithmetic (merge.go).
    - [Rle]: the three run-length column codecs of the V2 format
      (rle_codec.go, uint_opt_rle_codec.go, int_diff_opt_rle_codec.go).
    - [Text], [TextIndex]: UTF-8 normalisation, UTF-16 lengths and splits
      (utf8_text.go, utils.go), and the position index of long strings with
      the aliasing of its fragments (content_types.go).
    - [StructStore]: ids, client lists, search, insertion, state vectors
      (id.go, struct_store.go, gc.go, skip.go).
    - [Yata], [Replicas]: the conflict scan of item.go on sequences of
      elements, and a network of replicas over it.
    - [Content], [Item], [ItemList], [ItemSplit]: the nine content kinds, the
      heap of items, splitting, dependency resolution, integration and
      deletion (item.go, struct_store.go, content_types.go, and the parts of
      abstract.go and transaction.go these use).
    - [DeleteSet], [DeleteSetCodec]: delete sets and their two wire formats
      (delete_set.go, the delete-set halves of update_encoder.go and
      update_decoder.go).
    - [Object]: the insertion-ordered object (type_define.go).
    - [Awareness], [Protocol]: presence and the message protocol
      (awareness.go, the package protocol).
    - [Registry], [Hub]: the document registry and the publication hub of the
      package backend.

    ** What is proved

    - Convergence: replicas that hold the same elements hold them in the same
      order, any two replicas agree on the order of what both hold, and finite
      exchange brings them together ([Replicas]).  The element-wise scan is
      connected to the linked lists by refinement: integrating an item into
      the heap is inserting its elements ([ItemList]), also when the stored
      items must first be split where the origins of the incoming item fall
      ([ItemSplit]).
    - Store and delete sets: the search terminates and finds exactly the
      struct of a clock, [addStruct] keeps client lists contiguous, merging
      and sorting delete sets preserves the set of deleted clocks, and the set
      built from a store is the set of its deleted structs.
    - Codecs: every primitive, column and delete set reads back as written,
      with the ranges in which this holds; decoders report errors on the rest.
    - Text: splits at UTF-16 offsets cut the sequence of code units, and the
      indexed split agrees with the scan.
    - Protocol and awareness: frames round trip, malformed frames have no
      effect, awareness converges under any order and duplication.
    - Backend: no interleaving of registry calls panics, leaks or destroys a
      document twice; the hub delivers exactly to the active subscriptions.

    ** Bounds and parameters

    Go's interpolation pivot of [binarySearch] uses float64 division and is
    the argument [interpolate], with the bound IEEE rounding gives it.  The
    fuel of list walks is the number of items in the heap plus one: a walk
    that follows a list visits each item at most once.  Clocks are limited to
    [maxSafeInteger] by the decoders ([toNumber], [addBounded]); the theorems
    about encoded clocks assume that range.

    ** Not modelled

    Derived caches whose contents never change a result (search markers, list
    position index, rendered strings), reflection-driven copying of Go values,
    JSON text, observers of user code, the benchmark, oracle and test-support
    code, and interfaces whose implementations are not in the repository.
*)
From Stdlib Require Export ZArith Lia.
From stdpp Require Export base list list_numbers sorting gmap sets option numbers.

#[export] Set Warnings "-clear-no-such-hyp".
#[global] Open Scope Z_scope.

(** ** Fixed-width integers *)

(** Go's [int] is 64 bits wide on the build target; [Number = int]. *)
Definition maxInt : Z := 2 ^ 63 - 1.
Definition minInt : Z := - 2 ^ 63.
Definition maxInt32 : Z := 2 ^ 31 - 1.

(** Conversions [uint64(x)], [int64(x)] and [byte(x)]. *)
Definition u64 (z : Z) : Z := z mod 2 ^ 64.
Definition i64 (z : Z) : Z := (z + 2 ^ 63) mod 2 ^ 64 - 2 ^ 63.
Definition u8 (z : Z) : Z := z mod 2 ^ 8.

Definition is_u64 (z : Z) : Prop := 0 <= z < 2 ^ 64.
Definition is_i64 (z : Z) : Prop := - 2 ^ 63 <= z < 2 ^ 63.
Definition is_byte (z : Z) : Prop := 0 <= z < 2 ^ 8.

#[global] Instance is_u64_dec z : Decision (is_u64 z).
Proof. unfold is_u64. apply _. Defined.
#[global] Instance is_i64_dec z : Decision (is_i64 z).
Proof. unfold is_i64. apply _. Defined.
#[global] Instance is_byte_dec z : Decision (is_byte z).
Proof. unfold is_byte. apply _. Defined.

Lemma u64_small z : is_u64 z -> u64 z = z.
Proof. intros. unfold u64. by apply Z.mod_small. Qed.
Lemma u64_range z : is_u64 (u64 z).
Proof. unfold u64, is_u64. apply Z.mod_pos_bound. lia. Qed.
Lemma i64_small z : is_i64 z -> i64 z = z.
Proof. unfold is_i64, i64. intros. rewrite Z.mod_small; lia. Qed.
Lemma i64_range z : is_i64 (i64 z).
Proof.
  unfold i64, is_i64. pose proof (Z.mod_pos_bound (z + 2 ^ 63) (2 ^ 64)). lia.
Qed.
Lemma u8_small z : is_byte z -> u8 z = z.
Proof. intros. unfold u8. by apply Z.mod_small. Qed.
Lemma u8_range z : is_byte (u8 z).
Proof. unfold u8, is_byte. apply Z.mod_pos_bound. lia. Qed.

(** Bit operations as arithmetic, on the ranges the codecs use. *)
Lemma land_ones_mod z k : 0 <= k -> Z.land z (2 ^ k - 1) = z mod 2 ^ k.
Proof. intros. rewrite <- Z.land_ones by lia. f_equal. rewrite Z.ones_equiv. lia. Qed.

Lemma land1 z : Z.land z 1 = z mod 2.
Proof. apply (land_ones_mod z 1). lia. Qed.
Lemma land63 z : Z.land z 63 = z mod 64.
Proof. apply (land_ones_mod z 6). lia. Qed.
Lemma land127 z : Z.land z 127 = z mod 128.
Proof. apply (land_ones_mod z 7). lia. Qed.
Lemma land31 z : Z.land z 31 = z mod 32.
Proof. apply (land_ones_mod z 5). lia. Qed.

Lemma land_low_high a b k : 0 <= k -> 0 <= a < 2 ^ k -> Z.land a (b * 2 ^ k) = 0.
Proof.
  intros Hk Ha. apply Z.bits_inj'. intros n Hn. rewrite Z.land_spec, Z.bits_0.
  destruct (decide (n < k)).
  - rewrite (Z.mul_pow2_bits_low b k n) by lia. by rewrite andb_false_r.
  - rewrite <- (Z.mod_small a (2 ^ k)) by lia.
    rewrite Z.mod_pow2_bits_high by lia. done.
Qed.

Lemma lor_low_high a b k : 0 <= k -> 0 <= a < 2 ^ k -> Z.lor a (b * 2 ^ k) = a + b * 2 ^ k.
Proof.
  intros. rewrite <- Z.lxor_lor by by apply land_low_high.
  symmetry. apply Z.add_nocarry_lxor. by apply land_low_high.
Qed.

Lemma lor128 a : 0 <= a < 128 -> Z.lor a 128 = a + 128.
Proof. intros. apply (lor_low_high a 1 7); lia. Qed.
Lemma lor64 a : 0 <= a < 64 -> Z.lor a 64 = a + 64.
Proof. intros. apply (lor_low_high a 1 6); lia. Qed.
Lemma lor128_u8 z : Z.lor (u8 z) 128 = z mod 128 + 128.
Proof.
  unfold u8. pose proof (Z.mod_pos_bound z (2 ^ 8) ltac:(lia)).
  assert (Hb : exists a b, (b = 0 \/ b = 1) /\ 0 <= a < 128 /\ z mod 2 ^ 8 = a + b * 128
     /\ z mod 128 = a).
  { exists (z mod 128), ((z / 128) mod 2).
    pose proof (Z.mod_pos_bound z 128 ltac:(lia)).
    pose proof (Z.mod_pos_bound (z / 128) 2 ltac:(lia)).
    repeat split; try lia.
    change (2 ^ 8) with (128 * 2). rewrite Z.rem_mul_r by lia. lia. }
  destruct Hb as (a & b & Hb & Ha & -> & ->).
  destruct Hb as [-> | ->].
  - rewrite Z.mul_0_l, Z.add_0_r. by apply lor128.
  - change (1 * 128) with 128. rewrite <- lor128 by lia. by rewrite <- Z.lor_assoc.
Qed.

(** Tests of the two flag bits of a byte. *)
Lemma land128_byte b : is_byte b -> Z.land b 128 = if b <? 128 then 0 else 128.
Proof.
  unfold is_byte. intros Hb. destruct (Z.ltb_spec b 128).
  - apply (land_low_high b 1 7); lia.
  - replace b with (b - 128 + 1 * 2 ^ 7) by lia.
    rewrite <- lor_low_high by lia. rewrite Z.land_lor_distr_l.
    change 128 with (1 * 2 ^ 7). by rewrite land_low_high by lia.
Qed.

(** ** Results and byte readers *)

(** The error classes the code distinguishes; the text of an error message is
    not part of the model. *)
Inductive go_error : Type :=
| ErrEOF                (* io.EOF *)
| ErrUnexpectedEOF      (* io.ErrUnexpectedEOF *)
| ErrOverflow           (* "varint overflows a 64-bit integer" *)
| ErrNumberOverflow     (* errNumberOverflow of merge.go *)
| ErrBuffer             (* "buffer is not enough" *)
| ErrRunLength          (* a column run above maxRleRunCount *)
| ErrRange              (* a value outside of a codec's range *)
| ErrBound              (* a declared count above the remaining bytes *)
| ErrDepth              (* nesting depth exceeded *)
| ErrTag                (* unknown tag *)
| ErrNotFound           (* errStructNotFound / "not found" *)
| ErrNoClient           (* "not exist client" *)
| ErrUnexpectedCase     (* "unexpected case" *)
| ErrShortMessage
| ErrInvalidMessageType
| ErrInvalidSyncMessageType
| ErrNilEncoder
| ErrHandler (code : Z) (* an error of a caller-supplied handler *)
| ErrTruncatedAwarenessFrame
| ErrMalformedAwarenessState
| ErrEmptyAwareness
| ErrUnsupportedDataValue
| ErrUnexpectedContent   (* "unexpected content type" *)
| ErrLengthExceeded      (* "length exceeded" *)
| ErrMalformed          (* any other malformed input *)
| ErrPanic.             (* a run-time panic: index out of range, nil dereference *)

#[global] Instance go_error_eq_dec : EqDecision go_error.
Proof. solve_decision. Defined.

Inductive result (A : Type) : Type :=
| Ok (a : A)
| Err (e : go_error).
Arguments Ok {A} a.
Arguments Err {A} e.

#[global] Instance result_eq_dec {A} `{EqDecision A} : EqDecision (result A).
Proof. solve_decision. Defined.

(** A step of a decoder with state [D]: the value read, or the error, and the
    decoder after it. *)
Definition step (D A : Type) : Type := D -> result A * D.

(** A [*bytes.Buffer] being read is the list of the bytes that remain; a read
    returns its result and the bytes that remain after it, on errors too. *)
Definition reader (A : Type) : Type := step (list Z) A.

Definition rret {D A} (a : A) : step D A := fun d => (Ok a, d).
Definition rfail {D A} (e : go_error) : step D A := fun d => (Err e, d).
Definition rbind {D A B} (m : step D A) (k : A -> step D B) : step D B :=
  fun d =>
    match m d with
    | (Ok a, d') => k a d'
    | (Err e, d') => (Err e, d')
    end.

(** Inspecting a result inside a step. *)
Definition rlift {D A} (r : result A) : step D A := fun d => (r, d).

Declare Scope go_scope.
Delimit Scope go_scope with go.
Notation "x <-- m ;;; k" := (rbind m (fun x => k))
  (at level 100, m at next level, right associativity) : go_scope.
#[global] Open Scope go_scope.

(** [buf.ReadByte()]. *)
Definition readByte : reader Z :=
  fun buf => match buf with
             | [] => (Err ErrEOF, [])
             | b :: buf' => (Ok b, buf')
             end.

Definition bytes_ok (l : list Z) : Prop := Forall is_byte l.

Create HintDb go.
#[export] Hint Resolve u64_range i64_range u8_range : go.

(** A reader whose result and remainder are known on an input it shares. *)
Lemma rbind_ok {D A B} (m : step D A) (k : A -> step D B) buf a buf' :
  m buf = (Ok a, buf') -> rbind m k buf = k a buf'.
Proof. intros H. unfold rbind. by rewrite H. Qed.

Lemma rbind_err {D A B} (m : step D A) (k : A -> step D B) buf e buf' :
  m buf = (Err e, buf') -> rbind m k buf = (Err e, buf').
Proof. intros H. unfold rbind. by rewrite H. Qed.

Lemma rbind_inv {D A B} (m : step D A) (k : A -> step D B) buf r rest :
  rbind m k buf = (Ok r, rest) -> exists a mid, m buf = (Ok a, mid) /\ k a mid = (Ok r, rest).
Proof. unfold rbind. destruct (m buf) as [[a|e] mid]; naive_solver. Qed.

(** One step of a read whose first action is known by a lemma. *)
Tactic Notation "rstep" constr(H) "by" tactic3(t) := erewrite rbind_ok; [|apply H; t].

(** A loop [for i := 0; i < n; i++] that reads [n] elements, stopping at the
    first error. *)
Fixpoint rtimes {D A} (n : nat) (m : step D A) : step D (list A) :=
  match n with
  | O => rret []
  | S n' => x <-- m;;; xs <-- rtimes n' m;;; rret (x :: xs)
  end.

Lemma rtimes_cons {D A} (m : step D A) n d x d1 xs d2 :
  m d = (Ok x, d1) -> rtimes n m d1 = (Ok xs, d2) -> rtimes (S n) m d = (Ok (x :: xs), d2).
Proof. intros H1 H2. simpl. unfold rbind, rret. by rewrite H1, H2. Qed.

(** A Go string is its bytes. *)
Abbreviation gostring := (list Z).

(** ** Slices indexed by a Go [int] *)

(** [l[i]]; [None] is the out-of-range panic. *)
Definition zlookup {A} (l : list A) (i : Z) : option A :=
  if i <? 0 then None else l !! Z.to_nat i.

Lemma zlookup_Some {A} (l : list A) i x :
  zlookup l i = Some x -> 0 <= i < Z.of_nat (length l).
Proof.
  unfold zlookup. destruct (Z.ltb_spec i 0); [done|]. intros ?%lookup_lt_Some. lia.
Qed.

Lemma zlookup_is_Some {A} (l : list A) i :
  0 <= i < Z.of_nat (length l) -> exists x, zlookup l i = Some x.
Proof.
  intros Hi. unfold zlookup. destruct (Z.ltb_spec i 0); [lia|].
  apply lookup_lt_is_Some. lia.
Qed.

Lemma zlookup_nat {A} (l : list A) (n : nat) : zlookup l (Z.of_nat n) = l !! n.
Proof. unfold zlookup. destruct (Z.ltb_spec (Z.of_nat n) 0); [lia|]. by rewrite Nat2Z.id. Qed.

Lemma zlookup_elem {A} (l : list A) i x : zlookup l i = Some x -> x ∈ l.
Proof. unfold zlookup. destruct (i <? 0); [done|]. apply list_elem_of_lookup_2. Qed.

(** ** Integer tactics *)
Ltac zquot := intros; Z.quot_rem_to_equations; lia.
Ltac zdiv := Z.div_mod_to_equations; lia.

Lemma elem_snoc {A} (l : list A) a c : a ∈ l ++ [c] <-> a ∈ l \/ a = c.
Proof. rewrite elem_of_app, list_elem_of_singleton. done. Qed.

Lemma mjoin_cons {A} (x : list A) l : mjoin (x :: l) = x ++ mjoin l.
Proof. done. Qed.

Lemma nodup_split {A} (p : A) b b' : forall a a', NoDup (a ++ p :: b) -> a ++ p :: b = a' ++ p :: b' -> a = a' /\ b = b'.
Proof.
  induction a as [|x a IH]; intros a' Hnd E.
  - destruct a' as [|y a']; [by injection E as ->|]. injection E as <- ->. apply list.NoDup_cons in Hnd as [Hn _]. destruct Hn. set_solver.
  - destruct a' as [|y a']; injection E as -> E; [apply list.NoDup_cons in Hnd as [Hn _]; destruct Hn; set_solver|]. apply list.NoDup_cons in Hnd as [_ Hnd]. destruct (IH a' Hnd E) as [-> ->]. done.
Qed.
