(* ===== verification/Lib0.v ===== *)
(** * lib0 byte primitives

    Models [internal/lib0/codec.go], [crdt/codec_varint.go], the integer,
    string and byte-array parts of [crdt/encoding.go] and [crdt/decoding.go],
    [appendVarUint] and [varUintEncodedLen] of [crdt/update_encoder.go], and
    the guarded conversions to [Number] of [crdt/merge.go].

    A write appends to the list of bytes it is given; a read is a [reader]. *)
From S2P Require Import Prelude.

Definition bits6 : Z := 63.
Definition bits7 : Z := 127.
Definition bit7 : Z := 64.
Definition bit8 : Z := 128.

(** ** Conversions to Number *)
Module Num.

Definition maxSafeInteger : Z := 9007199254740991.

(** [uint64(Number(v)) != v] is the width check of the narrowing conversion. *)
Definition toNumber (v : Z) : result Z :=
  if (maxSafeInteger <? v) || negb (u64 (i64 v) =? v) then Err ErrNumberOverflow else Ok (i64 v).

Definition addBounded (a b : Z) : result Z :=
  if i64 (maxInt - a) <? b then Err ErrNumberOverflow else Ok (i64 (a + b)).

Definition addClock (clock delta : Z) : result Z := addBounded clock delta.

Definition addClockSaturating (clock length : Z) : Z :=
  if i64 (maxInt - clock) <? length then maxInt else i64 (clock + length).

Definition nonNegNumber (v : Z) : result Z :=
  if (v <? 0) || (maxSafeInteger <? v) || negb (i64 v =? v) then Err ErrNumberOverflow else Ok (i64 v).

(** A value a guarded conversion can return. *)
Definition is_safe (z : Z) : Prop := 0 <= z <= maxSafeInteger.

Lemma toNumber_ok v n : is_u64 v -> toNumber v = Ok n <-> n = v /\ is_safe v.
Proof.
  intros Hv. unfold toNumber, is_safe, maxSafeInteger, is_u64 in *.
  destruct (Z.ltb_spec 9007199254740991 v); simpl.
  - split; [done | lia].
  - rewrite i64_small by (unfold is_i64; lia). rewrite u64_small by (unfold is_u64; lia).
    rewrite Z.eqb_refl. simpl. split; [intros [= <-]; lia | intros [-> ?]; done].
Qed.

Lemma toNumber_safe v : is_safe v -> toNumber v = Ok v.
Proof.
  intros H. unfold is_safe, maxSafeInteger in H. apply toNumber_ok; [unfold is_u64; lia|].
  split; [done|]. unfold is_safe, maxSafeInteger. lia.
Qed.

Lemma nonNegNumber_ok v n : is_i64 v -> nonNegNumber v = Ok n <-> n = v /\ is_safe v.
Proof.
  intros Hv. unfold nonNegNumber, is_safe, maxSafeInteger in *. rewrite i64_small by done.
  rewrite Z.eqb_refl. destruct (Z.ltb_spec v 0); simpl; [split; [done|lia]|].
  destruct (Z.ltb_spec 9007199254740991 v); simpl; split; try done; try lia.
  - intros [= <-]. lia.
  - intros [-> _]. done.
Qed.

Lemma addBounded_nonneg a b :
  0 <= a <= maxInt -> 0 <= b <= maxInt ->
  addBounded a b = if maxInt <? a + b then Err ErrNumberOverflow else Ok (a + b).
Proof.
  unfold addBounded, maxInt. intros. rewrite i64_small by (unfold is_i64; lia).
  destruct (Z.ltb_spec (2 ^ 63 - 1 - a) b), (Z.ltb_spec (2 ^ 63 - 1) (a + b)); try lia; [done|].
  rewrite i64_small; [done|unfold is_i64; lia].
Qed.

Lemma addClockSaturating_nonneg c l :
  0 <= c <= maxInt -> 0 <= l <= maxInt -> addClockSaturating c l = Z.min maxInt (c + l).
Proof.
  unfold addClockSaturating, maxInt. intros. rewrite i64_small by (unfold is_i64; lia).
  destruct (Z.ltb_spec (2 ^ 63 - 1 - c) l); [lia|].
  rewrite i64_small; [lia|unfold is_i64; lia].
Qed.

Lemma safe_is_u64 v : is_safe v -> is_u64 v.
Proof. unfold is_safe, maxSafeInteger, is_u64. lia. Qed.
#[export] Hint Resolve safe_is_u64 : go.

End Num.
Export Num.

(** ** Unsigned variable-length integers *)
Module VarUint.

(** [encoding/binary.ReadUvarint]: at most [MaxVarintLen64 = 10] bytes, [i]
    counting the bytes read and [s = 7 * i]. *)
Fixpoint readUvarint_loop (n : nat) (i x s : Z) (buf : list Z) : result Z * list Z :=
  match n with
  | O => (Err ErrOverflow, buf)
  | S n' =>
      match buf with
      | [] => (Err (if 0 <? i then ErrUnexpectedEOF else ErrEOF), [])
      | b :: buf' =>
          if b <? 128 then
            if (i =? 9) && (1 <? b) then (Err ErrOverflow, buf')
            else (Ok (Z.lor x (u64 (Z.shiftl b s))), buf')
          else readUvarint_loop n' (i + 1) (Z.lor x (u64 (Z.shiftl (Z.land b 127) s))) (s + 7) buf'
      end
  end.

Definition binaryReadUvarint : reader Z := readUvarint_loop 10 0 0 0.

(** [lib0.ReadVarUint]. *)
Definition ReadVarUint : reader Z := binaryReadUvarint.

(** The loop of [lib0.WriteVarUint]; a uint64 has at most ten 7-bit groups. *)
Fixpoint varUint_loop (n : nat) (dst : list Z) (value : Z) : list Z :=
  match n with
  | O => dst
  | S n' =>
      if 128 <=? value
      then varUint_loop n' (dst ++ [Z.lor (u8 value) 128]) (Z.shiftr value 7)
      else dst ++ [u8 value]
  end.

Definition WriteVarUint (dst : list Z) (value : Z) : list Z := varUint_loop 10 dst value.

(** [appendVarUint] of update_encoder.go: one- and two-byte fast paths. *)
Definition appendVarUint (dst : list Z) (number : Z) : list Z :=
  if number <? bit8 then dst ++ [u8 number]
  else if number <? Z.shiftl 1 14 then dst ++ [Z.lor (u8 number) bit8; u8 (Z.shiftr number 7)]
  else varUint_loop 10 dst number.

Fixpoint varUintEncodedLen_loop (n : nat) (length value : Z) : Z :=
  match n with
  | O => length
  | S n' => if bit8 <=? value then varUintEncodedLen_loop n' (length + 1) (Z.shiftr value 7) else length
  end.

Definition varUintEncodedLen (value : Z) : Z := varUintEncodedLen_loop 10 1 value.

(** [boundExceeded] of decoding.go: the guard in front of every allocation
    whose size comes from the wire; [remaining/minBytesPerElem] is Go's
    truncated division of non-negative numbers. *)
Definition boundExceeded (count remaining minBytesPerElem : Z) : bool :=
  let m := if minBytesPerElem <? 1 then 1 else minBytesPerElem in
  let r := if remaining <? 0 then 0 else remaining in
  Z.quot r m <? count.

(** *** Lemmas *)

(** The bytes of a number, without the destination. *)
Fixpoint uvarint_bytes (n : nat) (v : Z) : list Z :=
  match n with
  | O => []
  | S n' => if 128 <=? v then (v mod 128 + 128) :: uvarint_bytes n' (v / 128) else [v]
  end.

Lemma uvarint_bytes_S n v :
  uvarint_bytes (S n) v = if 128 <=? v then (v mod 128 + 128) :: uvarint_bytes n (v / 128) else [v].
Proof. done. Qed.

Lemma shiftr7 v : Z.shiftr v 7 = v / 128.
Proof. by rewrite Z.shiftr_div_pow2 by lia. Qed.

Lemma varUint_loop_bytes n dst v :
  0 <= v -> varUint_loop n dst v = dst ++ uvarint_bytes n v.
Proof.
  revert dst v. induction n as [|n IH]; intros dst v Hv; simpl; [by rewrite app_nil_r|].
  destruct (Z.leb_spec 128 v).
  - rewrite lor128_u8, shiftr7, IH by (apply Z.div_pos; lia). by rewrite <- (assoc_L (++)).
  - by rewrite u8_small by (unfold is_byte; lia).
Qed.

Lemma WriteVarUint_bytes dst v : 0 <= v -> WriteVarUint dst v = dst ++ uvarint_bytes 10 v.
Proof. apply varUint_loop_bytes. Qed.

Lemma cont_low7 v : (v mod 128 + 128) mod 128 = v mod 128.
Proof. zdiv. Qed.

Lemma shiftl_u64 b s : 0 <= s -> 0 <= b -> b * 2 ^ s < 2 ^ 64 -> u64 (Z.shiftl b s) = b * 2 ^ s.
Proof.
  intros. rewrite Z.shiftl_mul_pow2 by lia. apply u64_small. unfold is_u64.
  assert (0 <= 2 ^ s) by (apply Z.pow_nonneg; lia). nia.
Qed.

Lemma pow7_succ i : 0 <= i -> 2 ^ (7 * (i + 1)) = 128 * 2 ^ (7 * i).
Proof. intros. replace (7 * (i + 1)) with (7 + 7 * i) by lia. by rewrite Z.pow_add_r by lia. Qed.

Lemma readUvarint_loop_bytes n i x v rest :
  (0 < n)%nat -> Z.of_nat n + i = 10 -> 0 <= i -> 0 <= v -> 0 <= x < 2 ^ (7 * i) ->
  x + v * 2 ^ (7 * i) < 2 ^ 64 ->
  readUvarint_loop n i x (7 * i) (uvarint_bytes n v ++ rest) = (Ok (x + v * 2 ^ (7 * i)), rest).
Proof.
  revert i x v. induction n as [|n IH]; intros i x v Hn0 Hn Hi Hv Hx Hb; [lia|].
  assert (H9 : i <= 9) by lia. assert (Hp : 0 < 2 ^ (7 * i)) by (apply Z.pow_pos_nonneg; lia).
  simpl. destruct (Z.leb_spec 128 v) as [Hge|Hlt]; simpl.
  - pose proof (Z.mod_pos_bound v 128 ltac:(lia)).
    destruct (Z.ltb_spec (v mod 128 + 128) 128); [lia|].
    rewrite land127, cont_low7.
    pose proof (Z.div_mod v 128 ltac:(lia)) as Hdm.
    rewrite shiftl_u64 by nia. rewrite lor_low_high by lia.
    replace (7 * i + 7) with (7 * (i + 1)) by lia.
    assert (0 <= v / 128) by (apply Z.div_pos; lia).
    assert (i <> 9).
    { intros ->. change (2 ^ (7 * 9)) with 9223372036854775808 in *. lia. }
    rewrite IH; rewrite ?pow7_succ by lia; try lia; try nia.
    f_equal. f_equal. rewrite Hdm at 3. ring.
  - destruct (Z.ltb_spec v 128); [|lia].
    destruct (Z.eqb_spec i 9) as [->|]; simpl.
    + change (2 ^ (7 * 9)) with 9223372036854775808 in *.
      destruct (Z.ltb_spec 1 v); [lia|].
      change 9223372036854775808 with (2 ^ 63) in *.
      rewrite shiftl_u64 by lia. by rewrite lor_low_high by lia.
    + rewrite shiftl_u64 by nia. by rewrite lor_low_high by lia.
Qed.

(** Reading back what was written, with anything behind it. *)
Lemma uvarint_roundtrip v rest :
  is_u64 v -> binaryReadUvarint (uvarint_bytes 10 v ++ rest) = (Ok v, rest).
Proof.
  intros Hv. unfold is_u64 in Hv. unfold binaryReadUvarint.
  change 0 with (7 * 0) at 3. rewrite readUvarint_loop_bytes by (simpl; lia).
  change (2 ^ (7 * 0)) with 1. by rewrite Z.mul_1_r.
Qed.

Lemma uvarint_bytes_nonempty n v : uvarint_bytes (S n) v <> [].
Proof. simpl. by case_match. Qed.

Lemma uvarint_bytes_ok n v : 0 <= v -> bytes_ok (uvarint_bytes n v).
Proof.
  revert v. induction n; intros v Hv; simpl; [constructor|].
  case_match eqn:E.
  - constructor; [unfold is_byte; pose proof (Z.mod_pos_bound v 128); lia|].
    apply IHn. apply Z.div_pos; lia.
  - apply Z.leb_gt in E. repeat constructor; lia.
Qed.

Lemma uvarint_bytes_fuel n m v :
  0 <= v < 2 ^ (7 * Z.of_nat n) -> (n <= m)%nat -> (0 < n)%nat ->
  uvarint_bytes m v = uvarint_bytes n v.
Proof.
  revert m v. induction n as [|n IH]; intros m v Hv Hm Hn; [lia|].
  destruct m as [|m]; [lia|]. simpl. destruct (Z.leb_spec 128 v); [|done].
  f_equal. destruct n as [|n].
  - change (2 ^ (7 * Z.of_nat 1)) with 128 in Hv. lia.
  - apply IH; [|lia|lia]. split; [apply Z.div_pos; lia|].
    apply Z.div_lt_upper_bound; [lia|].
    replace (7 * Z.of_nat (S (S n))) with (7 + 7 * Z.of_nat (S n)) in Hv by lia.
    rewrite Z.pow_add_r in Hv by lia. lia.
Qed.

Lemma appendVarUint_bytes dst v : 0 <= v -> appendVarUint dst v = dst ++ uvarint_bytes 10 v.
Proof.
  intros Hv. unfold appendVarUint, bit8. change (Z.shiftl 1 14) with 16384.
  destruct (Z.ltb_spec v 128).
  { rewrite u8_small by (unfold is_byte; lia). simpl. destruct (Z.leb_spec 128 v); [lia|done]. }
  destruct (Z.ltb_spec v 16384); [|by rewrite varUint_loop_bytes].
  rewrite lor128_u8, shiftr7. assert (v / 128 < 128) by (apply Z.div_lt_upper_bound; lia).
  assert (0 <= v / 128) by (apply Z.div_pos; lia).
  rewrite u8_small by (unfold is_byte; lia). simpl.
  destruct (Z.leb_spec 128 v); [|lia]. destruct (Z.leb_spec 128 (v / 128)); [lia|done].
Qed.

Lemma varUintEncodedLen_loop_bytes n k v :
  0 <= v < 2 ^ (7 * Z.of_nat (S n)) ->
  varUintEncodedLen_loop (S n) k v = k - 1 + Z.of_nat (length (uvarint_bytes (S n) v)).
Proof.
  revert k v. induction n as [|n IH]; intros k v Hv.
  - change (2 ^ (7 * Z.of_nat 1)) with 128 in Hv. simpl. unfold bit8.
    destruct (Z.leb_spec 128 v); [lia|]. simpl. lia.
  - remember (S n) as m. cbn [varUintEncodedLen_loop uvarint_bytes]. unfold bit8.
    destruct (Z.leb_spec 128 v); [|simpl; lia].
    rewrite shiftr7, IH; [simpl; lia|].
    split; [apply Z.div_pos; lia|]. apply Z.div_lt_upper_bound; [lia|].
    replace (7 * Z.of_nat (S m)) with (7 + 7 * Z.of_nat m) in Hv by lia.
    rewrite Z.pow_add_r in Hv by lia. lia.
Qed.

Lemma readUvarint_loop_range n i x s buf v rest :
  is_u64 x -> readUvarint_loop n i x s buf = (Ok v, rest) -> is_u64 v.
Proof.
  assert (Hlor : forall a b, is_u64 a -> is_u64 b -> is_u64 (Z.lor a b)).
  { unfold is_u64. intros a b Ha Hb. split; [apply Z.lor_nonneg; lia|].
    destruct (decide (Z.lor a b = 0)) as [->|]; [lia|].
    apply Z.log2_lt_pow2; [assert (0 <= Z.lor a b) by (apply Z.lor_nonneg; lia); lia|].
    rewrite Z.log2_lor by lia. apply Z.max_lub_lt.
    - destruct (decide (a = 0)) as [->|]; [simpl; lia|]. apply Z.log2_lt_pow2; lia.
    - destruct (decide (b = 0)) as [->|]; [simpl; lia|]. apply Z.log2_lt_pow2; lia. }
  revert i x s buf. induction n as [|n IH]; intros i x s buf Hx; simpl; [done|].
  destruct buf as [|b buf]; [done|]. destruct (b <? 128).
  - destruct ((i =? 9) && (1 <? b)); [done|]. intros [= <- _]. auto with go.
  - intros H. eapply IH; [|exact H]. auto with go.
Qed.

Lemma binaryReadUvarint_range buf v rest : binaryReadUvarint buf = (Ok v, rest) -> is_u64 v.
Proof. apply readUvarint_loop_range. unfold is_u64. lia. Qed.

(** A successful read consumes at least one byte and leaves a suffix. *)
Lemma readUvarint_loop_suffix n i x s buf v rest :
  readUvarint_loop n i x s buf = (Ok v, rest) -> exists pre, pre <> [] /\ buf = pre ++ rest.
Proof.
  revert i x s buf. induction n as [|n IH]; intros i x s buf; simpl; [done|].
  destruct buf as [|b buf]; [done|]. destruct (b <? 128).
  - destruct ((i =? 9) && (1 <? b)); [done|]. intros [= _ <-]. by exists [b].
  - intros (pre & Hne & ->)%IH. exists (b :: pre). done.
Qed.

End VarUint.
Export VarUint.
#[export] Hint Resolve binaryReadUvarint_range : go.

(** ** Sign-and-magnitude variable-length integers *)
Module VarInt.

(** The continuation loop of [writeVarIntMag], [appendVarIntMag] and
    [writeVarInt]: nothing is written for zero. *)
Fixpoint varIntMag_loop (n : nat) (dst : list Z) (num : Z) : list Z :=
  match n with
  | O => dst
  | S n' =>
      if 0 <? num then
        let b := u8 (Z.land bits7 num) in
        let b := if bits7 <? num then Z.lor b bit8 else b in
        varIntMag_loop n' (dst ++ [b]) (Z.shiftr num 7)
      else dst
  end.

Definition writeVarIntMag (buf : list Z) (num : Z) (negative : bool) : list Z :=
  let first := u8 (Z.land bits6 num) in
  let first := if bits6 <? num then Z.lor first bit8 else first in
  let first := if negative then Z.lor first bit7 else first in
  varIntMag_loop 10 (buf ++ [first]) (Z.shiftr num 6).

Definition writeVarIntSigned (buf : list Z) (num : Z) : list Z :=
  let negative := num <? 0 in
  let num := if negative then i64 (- num) else num in
  writeVarIntMag buf (u64 num) negative.

Definition appendVarIntMag (dst : list Z) (num : Z) (negative : bool) : list Z :=
  let first := u8 (Z.land bits6 num) in
  let first := if negative then Z.lor first bit7 else first in
  if num <=? bits6 then dst ++ [first]
  else
    let first := Z.lor first bit8 in
    if num <? Z.shiftl 1 13 then dst ++ [first; u8 (Z.shiftr num 6)]
    else varIntMag_loop 10 (dst ++ [first; Z.lor (u8 (Z.shiftr num 6)) bit8]) (Z.shiftr num 13).

(** The continuation loop of [readVarIntSigned]: at most nine bytes. *)
Fixpoint readVarIntSigned_loop (n : nat) (num shift : Z) (negative : bool)
    (buf : list Z) : result (Z * bool) * list Z :=
  match n with
  | O => (Err ErrOverflow, buf)
  | S n' =>
      match buf with
      | [] => (Err ErrEOF, [])
      | r :: buf' =>
          let chunk := Z.land r bits7 in
          if (64 <=? shift) || negb (Z.shiftr chunk (64 - shift) =? 0)
          then (Err ErrOverflow, buf')
          else
            let num := u64 (num + u64 (Z.shiftl chunk shift)) in
            let shift := shift + 7 in
            if r <? bit8 then (Ok (num, negative), buf')
            else readVarIntSigned_loop n' num shift negative buf'
      end
  end.

Definition readVarIntSigned : reader (Z * bool) :=
  r <-- readByte;;;
  let num := Z.land r bits6 in
  let negative := 0 <? Z.land r bit7 in
  if Z.land r bit8 =? 0 then rret (num, negative)
  else readVarIntSigned_loop 9 num 6 negative.

(** [writeVarInt] of encoding.go takes a Go [int]. *)
Definition writeVarInt (encoder : list Z) (number : Z) : list Z :=
  let bitSign := if number <? 0 then bit7 else 0 in
  let number := if number <? 0 then i64 (- number) else number in
  let bitNext := if bits6 <? number then bit8 else 0 in
  varIntMag_loop 10
    (encoder ++ [Z.lor (u8 (Z.lor bitNext bitSign)) (u8 (Z.land bits6 number))])
    (Z.shiftr number 6).

(** The continuation loop of [readVarInt] of decoding.go: [i < 10], [s] the
    position of the next seven bits. *)
Fixpoint readVarInt_loop (k : nat) (i n s sign : Z) (buf : list Z) : result Z * list Z :=
  match k with
  | O => (Err ErrOverflow, buf)
  | S k' =>
      match buf with
      | [] => (Err ErrEOF, [])
      | b :: buf' =>
          if b <? bit8 then
            if (i =? 9) && (1 <? b) then (Err ErrOverflow, buf')
            else (Ok (i64 (sign * i64 (Z.lor n (u64 (Z.shiftl b s))))), buf')
          else readVarInt_loop k' (i + 1) (Z.lor n (u64 (Z.shiftl (Z.land b bits7) s))) (s + 7) sign buf'
      end
  end.

Definition readVarInt : reader Z :=
  data <-- readByte;;;
  let number := Z.land data bits6 in
  let sign := if 0 <? Z.land data bit7 then -1 else 1 in
  if Z.land data bit8 =? 0 then rret (sign * number)
  else readVarInt_loop 10 0 number 6 sign.

(** *** Lemmas *)

Lemma shiftr6 v : Z.shiftr v 6 = v / 64.
Proof. by rewrite Z.shiftr_div_pow2 by lia. Qed.

(** The first byte and the continuation bytes. *)
Definition varint_first (num : Z) (negative : bool) : Z :=
  num mod 64 + (if negative then 64 else 0) + (if 63 <? num then 128 else 0).

Definition varint_tail (n : nat) (num : Z) : list Z :=
  if 0 <? num then uvarint_bytes n num else [].

Definition varint_bytes (num : Z) (negative : bool) : list Z :=
  varint_first num negative :: varint_tail 10 (num / 64).

Lemma land_bits7 v : u8 (Z.land bits7 v) = v mod 128.
Proof.
  unfold bits7. rewrite Z.land_comm, land127. apply u8_small.
  pose proof (Z.mod_pos_bound v 128). unfold is_byte. lia.
Qed.
Lemma land_bits6 v : u8 (Z.land bits6 v) = v mod 64.
Proof.
  unfold bits6. rewrite Z.land_comm, land63. apply u8_small.
  pose proof (Z.mod_pos_bound v 64). unfold is_byte. lia.
Qed.

Lemma varIntMag_loop_bytes n dst num :
  0 <= num < 2 ^ (7 * Z.of_nat n) -> varIntMag_loop n dst num = dst ++ varint_tail n num.
Proof.
  revert dst num. induction n as [|n IH]; intros dst num Hn.
  { simpl in *. unfold varint_tail. destruct (Z.ltb_spec 0 num); [lia|]. by rewrite app_nil_r. }
  unfold varint_tail. simpl. destruct (Z.ltb_spec 0 num); [|by rewrite app_nil_r].
  rewrite land_bits7, shiftr7. pose proof (Z.mod_pos_bound num 128 ltac:(lia)).
  replace (7 * Z.of_nat (S n)) with (7 + 7 * Z.of_nat n) in Hn by lia.
  rewrite Z.pow_add_r in Hn by lia.
  rewrite IH by (split; [apply Z.div_pos|apply Z.div_lt_upper_bound]; lia).
  rewrite <- (assoc_L (++)). unfold varint_tail, bits7, bit8. simpl.
  destruct (Z.ltb_spec 127 num), (Z.leb_spec 128 num); try lia.
  - rewrite lor128 by lia. destruct (Z.ltb_spec 0 (num / 128)); [done|].
    assert (1 <= num / 128) by (apply Z.div_le_lower_bound; lia). lia.
  - rewrite (Z.div_small num) by lia. rewrite Z.mod_small by lia. done.
Qed.

Lemma first_byte num (neg next : bool) :
  Z.lor (Z.lor (num mod 64) (if next then 128 else 0)) (if neg then 64 else 0)
  = num mod 64 + (if neg then 64 else 0) + (if next then 128 else 0).
Proof.
  pose proof (Z.mod_pos_bound num 64 ltac:(lia)).
  rewrite <- Z.lor_assoc, (Z.lor_comm (if next then 128 else 0)), Z.lor_assoc.
  assert (Hx : Z.lor (num mod 64) (if neg then 64 else 0) = num mod 64 + (if neg then 64 else 0)).
  { destruct neg; [by apply lor64 | by rewrite Z.lor_0_r, Z.add_0_r]. }
  rewrite Hx. destruct next; [apply lor128; destruct neg; lia | by rewrite Z.lor_0_r, Z.add_0_r].
Qed.

Lemma writeVarIntMag_bytes buf num neg :
  is_u64 num -> writeVarIntMag buf num neg = buf ++ varint_bytes num neg.
Proof.
  unfold is_u64. intros Hn. unfold writeVarIntMag, varint_bytes, varint_first.
  rewrite land_bits6, shiftr6. unfold bits6, bit8, bit7.
  rewrite varIntMag_loop_bytes by (split; [apply Z.div_pos|apply Z.div_lt_upper_bound]; simpl; lia).
  rewrite <- (assoc_L (++)). do 2 f_equal. simpl. f_equal. rewrite <- first_byte.
  destruct neg, (63 <? num); by rewrite ?Z.lor_0_r.
Qed.

Lemma appendVarIntMag_bytes dst num neg :
  is_u64 num -> appendVarIntMag dst num neg = dst ++ varint_bytes num neg.
Proof.
  unfold is_u64. intros Hn. unfold appendVarIntMag, varint_bytes, varint_first.
  rewrite land_bits6. unfold bits6, bit8, bit7. change (Z.shiftl 1 13) with 8192. rewrite shiftr6.
  pose proof (Z.mod_pos_bound num 64 ltac:(lia)).
  assert (Hf : (if neg then Z.lor (num mod 64) 64 else num mod 64) = num mod 64 + (if neg then 64 else 0))
    by (destruct neg; [by apply lor64|by rewrite Z.add_0_r]).
  rewrite Hf. destruct (Z.leb_spec num 63), (Z.ltb_spec 63 num); try lia.
  { rewrite (Z.div_small num) by lia. cbv iota. by rewrite Z.add_0_r. }
  rewrite lor128 by (destruct neg; lia). unfold varint_tail.
  assert (1 <= num / 64) by (apply Z.div_le_lower_bound; lia).
  destruct (Z.ltb_spec 0 (num / 64)); [|lia]. cbv iota. rewrite uvarint_bytes_S.
  destruct (Z.ltb_spec num 8192).
  { assert (num / 64 < 128) by (apply Z.div_lt_upper_bound; lia).
    destruct (Z.leb_spec 128 (num / 64)); [lia|].
    by rewrite u8_small by (unfold is_byte; lia). }
  assert (128 <= num / 64) by (apply Z.div_le_lower_bound; lia).
  destruct (Z.leb_spec 128 (num / 64)); [|lia].
  rewrite lor128_u8. rewrite Z.shiftr_div_pow2 by lia. change (2 ^ 13) with (64 * 128).
  rewrite <- Z.div_div by lia.
  assert (1 <= num / 64 / 128) by (apply Z.div_le_lower_bound; lia).
  assert (num / 64 / 128 < 2 ^ 63).
  { rewrite Z.div_div by lia. apply Z.div_lt_upper_bound; lia. }
  rewrite varIntMag_loop_bytes by (simpl; lia). unfold varint_tail.
  destruct (Z.ltb_spec 0 (num / 64 / 128)); [|lia].
  rewrite (uvarint_bytes_fuel 9 10) by (simpl; lia). by rewrite <- (assoc_L (++)).
Qed.

Lemma readVarIntSigned_loop_bytes n k num v neg rest :
  Z.of_nat n + k = 9 -> 0 <= k -> 0 < v -> 0 <= num < 2 ^ (6 + 7 * k) ->
  num + v * 2 ^ (6 + 7 * k) < 2 ^ 64 ->
  readVarIntSigned_loop n num (6 + 7 * k) neg (uvarint_bytes n v ++ rest)
  = (Ok (num + v * 2 ^ (6 + 7 * k), neg), rest).
Proof.
  revert k num v. induction n as [|n IH]; intros k num v Hn Hk Hv Hnum Hb.
  { replace k with 9 in * by lia. change (2 ^ (6 + 7 * 9)) with 590295810358705651712 in *. lia. }
  set (s := 6 + 7 * k) in *. assert (Hp : 0 < 2 ^ s) by (apply Z.pow_pos_nonneg; lia).
  assert (Hs : s < 64) by (apply (Z.pow_lt_mono_r_iff 2); nia).
  assert (Hstep : forall r, r mod 128 <= v -> (64 <=? s) || negb (Z.shiftr (Z.land r bits7) (64 - s) =? 0) = false).
  { intros r Hr. destruct (Z.leb_spec 64 s); [lia|]. simpl. unfold bits7. rewrite land127.
    pose proof (Z.mod_pos_bound r 128 ltac:(lia)).
    rewrite Z.shiftr_div_pow2 by lia. rewrite Z.div_small; [done|]. split; [lia|].
    apply (Z.mul_lt_mono_pos_r (2 ^ s)); [lia|]. rewrite <- Z.pow_add_r by lia.
    replace (64 - s + s) with 64 by lia. nia. }
  assert (Hval : forall c, 0 <= c <= v -> u64 (num + u64 (Z.shiftl c s)) = num + c * 2 ^ s).
  { intros c Hc. rewrite shiftl_u64 by nia. apply u64_small. unfold is_u64. nia. }
  pose proof (Z.mod_pos_bound v 128 ltac:(lia)) as Hm.
  pose proof (Z.div_mod v 128 ltac:(lia)) as Hdm.
  assert (Hmle : v mod 128 <= v) by (apply Z.mod_le; lia).
  simpl. destruct (Z.leb_spec 128 v) as [Hge|Hlt]; cbn [app readVarIntSigned_loop].
  - rewrite Hstep by (rewrite cont_low7; lia). unfold bits7. rewrite land127, cont_low7, Hval by lia.
    unfold bit8. destruct (Z.ltb_spec (v mod 128 + 128) 128); [lia|].
    assert (1 <= v / 128) by (apply Z.div_le_lower_bound; lia).
    assert (Hs' : 2 ^ (6 + 7 * (k + 1)) = 128 * 2 ^ s)
      by (unfold s; replace (6 + 7 * (k + 1)) with (7 + (6 + 7 * k)) by lia; by rewrite Z.pow_add_r by lia).
    replace (s + 7) with (6 + 7 * (k + 1)) by (unfold s; lia).
    rewrite IH; rewrite ?Hs'; try lia; try nia.
    do 3 f_equal. rewrite Hdm at 3. ring.
  - rewrite Hstep by lia. unfold bits7. rewrite land127, (Z.mod_small v), Hval by lia.
    unfold bit8. destruct (Z.ltb_spec v 128); [done|lia].
Qed.

(** Reading the flags of a first byte. *)
Lemma first_flags num neg :
  0 <= num ->
  let r := varint_first num neg in
  Z.land r 63 = num mod 64 /\ (0 <? Z.land r 64) = neg /\ (Z.land r 128 =? 0) = negb (63 <? num).
Proof.
  intros Hn r. unfold r, varint_first. clear r.
  pose proof (Z.mod_pos_bound num 64 ltac:(lia)).
  set (a := num mod 64) in *.
  assert (Hland : forall m, 0 <= m < 256 ->
     Z.land (a + (if neg then 64 else 0) + (if 63 <? num then 128 else 0)) m
     = Z.lor (Z.land a m) (Z.lor (Z.land (if neg then 64 else 0) m) (Z.land (if 63 <? num then 128 else 0) m))).
  { intros m _. unfold a. rewrite <- (first_byte num neg (63 <? num)).
    rewrite !Z.land_lor_distr_l. rewrite <- Z.lor_assoc.
    f_equal. apply Z.lor_comm. }
  rewrite !Hland by lia. rewrite land63, (Z.mod_small a) by lia.
  assert (Z.land a 64 = 0) as -> by (apply (land_low_high a 1 6); lia).
  assert (Z.land a 128 = 0) as -> by (apply (land_low_high a 1 7); lia).
  split_and!; destruct neg, (63 <? num); simpl; by rewrite ?Z.lor_0_r.
Qed.

Lemma varint_roundtrip num neg rest :
  is_u64 num -> readVarIntSigned (varint_bytes num neg ++ rest) = (Ok (num, neg), rest).
Proof.
  unfold is_u64. intros Hn. destruct (first_flags num neg) as (H1 & H2 & H3); [lia|].
  unfold readVarIntSigned, varint_bytes, bits6, bit7, bit8.
  cbn [app]. unfold rbind at 1. unfold readByte at 1. rewrite H1, H2, H3.
  destruct (Z.ltb_spec 63 num); cbn [negb].
  - unfold varint_tail.
    assert (1 <= num / 64) by (apply Z.div_le_lower_bound; lia).
    assert (num / 64 < 2 ^ 58) by (apply Z.div_lt_upper_bound; lia).
    destruct (Z.ltb_spec 0 (num / 64)); [|lia].
    rewrite (uvarint_bytes_fuel 9 10) by (simpl; lia).
    pose proof (Z.mod_pos_bound num 64 ltac:(lia)). pose proof (Z.div_mod num 64 ltac:(lia)).
    change 6 with (6 + 7 * 0) at 1. rewrite readVarIntSigned_loop_bytes by (simpl; lia).
    change (2 ^ (6 + 7 * 0)) with 64. do 3 f_equal. lia.
  - rewrite (Z.div_small num), (Z.mod_small num) by lia. done.
Qed.

Lemma readVarIntSigned_loop_range n num shift neg buf m b rest :
  readVarIntSigned_loop n num shift neg buf = (Ok (m, b), rest) -> is_u64 m.
Proof.
  revert num shift buf. induction n as [|n IH]; intros num shift buf; simpl; [done|].
  destruct buf as [|r buf]; [done|]. case_match; [done|]. case_match.
  - intros [= <- <- _]. auto with go.
  - apply IH.
Qed.

Lemma readVarIntSigned_range buf m b rest :
  readVarIntSigned buf = (Ok (m, b), rest) -> is_u64 m.
Proof.
  intros (r & mid & _ & H)%rbind_inv. case_match.
  - injection H as <- <- _. unfold bits6, is_u64. rewrite land63.
    pose proof (Z.mod_pos_bound r 64). lia.
  - by eapply readVarIntSigned_loop_range.
Qed.

Lemma readVarInt_loop_bytes n i num v sign rest :
  Z.of_nat n + i = 10 -> 0 <= i -> 0 < v -> 0 <= num < 2 ^ (6 + 7 * i) ->
  num + v * 2 ^ (6 + 7 * i) < 2 ^ 63 ->
  readVarInt_loop n i num (6 + 7 * i) sign (uvarint_bytes n v ++ rest)
  = (Ok (i64 (sign * (num + v * 2 ^ (6 + 7 * i)))), rest).
Proof.
  revert i num v. induction n as [|n IH]; intros i num v Hn Hi Hv Hnum Hb.
  { replace i with 10 in * by lia. change (2 ^ (6 + 7 * 10)) with 75557863725914323419136 in *. lia. }
  assert (Hi9 : i <> 9).
  { intros ->. change (2 ^ (6 + 7 * 9)) with 590295810358705651712 in *. lia. }
  set (s := 6 + 7 * i) in *. assert (Hp : 0 < 2 ^ s) by (apply Z.pow_pos_nonneg; lia).
  pose proof (Z.mod_pos_bound v 128 ltac:(lia)) as Hm.
  pose proof (Z.div_mod v 128 ltac:(lia)) as Hdm.
  simpl. destruct (Z.leb_spec 128 v) as [Hge|Hlt]; cbn [app readVarInt_loop]; unfold bit8.
  - destruct (Z.ltb_spec (v mod 128 + 128) 128); [lia|].
    unfold bits7. rewrite land127, cont_low7.
    assert (1 <= v / 128) by (apply Z.div_le_lower_bound; lia).
    rewrite shiftl_u64 by nia. rewrite lor_low_high by lia.
    assert (Hs' : 2 ^ (6 + 7 * (i + 1)) = 128 * 2 ^ s)
      by (unfold s; replace (6 + 7 * (i + 1)) with (7 + (6 + 7 * i)) by lia; by rewrite Z.pow_add_r by lia).
    replace (s + 7) with (6 + 7 * (i + 1)) by (unfold s; lia).
    rewrite IH; rewrite ?Hs'; try lia; try nia.
    do 4 f_equal. rewrite Hdm at 3. ring.
  - destruct (Z.ltb_spec v 128); [|lia]. destruct (Z.eqb_spec i 9); [lia|]. simpl.
    rewrite shiftl_u64 by nia. rewrite lor_low_high by lia.
    rewrite (i64_small (num + _)); [done|]. unfold is_i64. nia.
Qed.

Lemma writeVarInt_bytes enc n :
  minInt < n <= maxInt -> writeVarInt enc n = enc ++ varint_bytes (Z.abs n) (n <? 0).
Proof.
  unfold minInt, maxInt. intros Hn. unfold writeVarInt.
  assert (Habs : (if n <? 0 then i64 (- n) else n) = Z.abs n).
  { destruct (Z.ltb_spec n 0); [rewrite i64_small by (unfold is_i64; lia)|]; lia. }
  rewrite Habs, land_bits6, shiftr6. unfold varint_bytes, varint_first, bits6, bit8, bit7.
  rewrite varIntMag_loop_bytes by (split; [apply Z.div_pos|apply Z.div_lt_upper_bound]; simpl; lia).
  rewrite <- (assoc_L (++)). do 2 f_equal. simpl. f_equal.
  rewrite <- first_byte.
  assert (Hu : forall a b : bool, u8 (Z.lor (if a then 128 else 0) (if b then 64 else 0))
     = Z.lor (if a then 128 else 0) (if b then 64 else 0)) by by intros [] [].
  rewrite Hu. rewrite Z.lor_comm. by rewrite Z.lor_assoc.
Qed.

Lemma readVarInt_roundtrip (n : Z) (rest : list Z) :
  minInt <= n <= maxInt ->
  readVarInt (writeVarInt [] n ++ rest) = (Ok (if n =? minInt then 0 else n), rest).
Proof.
  intros Hn. destruct (Z.eqb_spec n minInt) as [->|Hne]; [done|].
  unfold minInt, maxInt in *. rewrite writeVarInt_bytes by (unfold minInt, maxInt; lia). simpl app.
  destruct (first_flags (Z.abs n) (n <? 0)) as (H1 & H2 & H3); [lia|].
  unfold readVarInt, varint_bytes, bits6, bit7, bit8.
  cbn [app]. unfold rbind at 1. unfold readByte at 1. rewrite H1, H2, H3.
  assert (Hsgn : (if n <? 0 then -1 else 1) * Z.abs n = n) by (destruct (Z.ltb_spec n 0); lia).
  pose proof (Z.mod_pos_bound (Z.abs n) 64 ltac:(lia)). pose proof (Z.div_mod (Z.abs n) 64 ltac:(lia)).
  destruct (Z.ltb_spec 63 (Z.abs n)); cbn [negb].
  - unfold varint_tail.
    assert (1 <= Z.abs n / 64) by (apply Z.div_le_lower_bound; lia).
    destruct (Z.ltb_spec 0 (Z.abs n / 64)); [|lia].
    change 6 with (6 + 7 * 0) at 1. rewrite readVarInt_loop_bytes by (simpl; lia).
    change (2 ^ (6 + 7 * 0)) with 64.
    replace (Z.abs n mod 64 + Z.abs n / 64 * 64) with (Z.abs n) by lia. rewrite Hsgn.
    rewrite i64_small; [done|]. unfold is_i64. lia.
  - rewrite (Z.div_small (Z.abs n)), (Z.mod_small (Z.abs n)) by lia. unfold rret. by rewrite Hsgn.
Qed.

End VarInt.
Export VarInt.

(** ** Byte arrays, strings and fixed-width integers *)
Module Bytes.

Definition WriteVarUint8Array (dst value : list Z) : list Z :=
  WriteVarUint dst (Z.of_nat (length value)) ++ value.

(** A declared length above what remains drains the buffer and is an error. *)
Definition ReadVarUint8Array : reader (list Z) :=
  size <-- ReadVarUint;;;
  fun buf =>
    if Z.of_nat (length buf) <? size then (Err ErrUnexpectedEOF, [])
    else (Ok (take (Z.to_nat size) buf), drop (Z.to_nat size) buf).

Definition WriteString (dst value : list Z) : list Z :=
  WriteVarUint dst (Z.of_nat (length value)) ++ value.

Definition ReadString : reader (list Z) :=
  size <-- ReadVarUint;;;
  fun buf =>
    if size =? 0 then (Ok [], buf)
    else if Z.of_nat (length buf) <? size then (Err ErrBuffer, buf)
    else (Ok (take (Z.to_nat size) buf), drop (Z.to_nat size) buf).

(** [readVarString] of decoding.go reads the same framing with
    [binary.Read]. *)
Definition readVarString : reader (list Z) :=
  size <-- binaryReadUvarint;;;
  fun buf =>
    if size =? 0 then (Ok [], buf)
    else if Z.of_nat (length buf) <? size then (Err ErrBuffer, buf)
    else (Ok (take (Z.to_nat size) buf), drop (Z.to_nat size) buf).

(** [readFixedWidth]: exactly [n] bytes or an untouched buffer. *)
Definition readFixedWidth (n : nat) : reader (list Z) :=
  fun buf =>
    if (length buf <? n)%nat then (Err ErrUnexpectedEOF, buf) else (Ok (take n buf), drop n buf).

(** [binary.BigEndian.PutUint64] / [Uint64], over [n] bytes. *)
Fixpoint be_put (n : nat) (v : Z) : list Z :=
  match n with
  | O => []
  | S n' => be_put n' (Z.shiftr v 8) ++ [u8 v]
  end.

Definition be_get (l : list Z) : Z := fold_left (fun acc b => Z.lor (Z.shiftl acc 8) b) l 0.

Definition writeInt64 (encoder : list Z) (n : Z) : list Z := encoder ++ be_put 8 (u64 n).

Definition readBigInt64 : reader Z :=
  bs <-- readFixedWidth 8;;; rret (i64 (be_get bs)).

(** *** Lemmas *)

Lemma length_be_put n v : length (be_put n v) = n.
Proof. revert v. induction n; intros; simpl; [done|]. rewrite length_app, IHn. simpl. lia. Qed.

Lemma be_get_app l b : be_get (l ++ [b]) = Z.lor (Z.shiftl (be_get l) 8) b.
Proof. unfold be_get. by rewrite fold_left_app. Qed.

Lemma be_get_put n v : 0 <= v -> be_get (be_put n v) = v mod 2 ^ (8 * Z.of_nat n).
Proof.
  revert v. induction n as [|n IH]; intros v Hv; simpl be_put.
  { simpl. by rewrite Z.mod_1_r. }
  rewrite Z.shiftr_div_pow2 by lia. rewrite be_get_app, IH by (apply Z.div_pos; lia).
  unfold u8. rewrite Z.shiftl_mul_pow2, Z.lor_comm by lia.
  rewrite lor_low_high by (try lia; apply Z.mod_pos_bound; lia).
  replace (8 * Z.of_nat (S n)) with (8 + 8 * Z.of_nat n) by lia.
  rewrite Z.pow_add_r by lia. rewrite Z.rem_mul_r by lia. ring.
Qed.

Lemma readFixedWidth_app n bs rest :
  length bs = n -> readFixedWidth n (bs ++ rest) = (Ok bs, rest).
Proof.
  intros <-. unfold readFixedWidth. rewrite length_app.
  destruct (Nat.ltb_spec (length bs + length rest)%nat (length bs)); [lia|].
  by rewrite take_app_length, drop_app_length.
Qed.

Lemma i64_u64 n : is_i64 n -> i64 (u64 n) = n.
Proof.
  unfold is_i64, i64, u64. intros.
  rewrite Z.add_mod_idemp_l by lia. rewrite Z.mod_small; lia.
Qed.

Lemma bigInt64_roundtrip n rest :
  is_i64 n -> readBigInt64 (writeInt64 [] n ++ rest) = (Ok n, rest).
Proof.
  intros Hn. unfold readBigInt64, writeInt64. simpl app.
  rstep (readFixedWidth_app 8 (be_put 8 (u64 n))) by (apply length_be_put).
  pose proof (u64_range n) as Hu. unfold is_u64 in Hu. rewrite be_get_put by lia.
  change (8 * Z.of_nat 8) with 64. rewrite Z.mod_small by lia.
  unfold rret. by rewrite i64_u64.
Qed.

(** The shape shared by the length-prefixed readers. *)
Lemma sized_split {A} (value rest : list A) :
  take (Z.to_nat (Z.of_nat (length value))) (value ++ rest) = value /\
  drop (Z.to_nat (Z.of_nat (length value))) (value ++ rest) = rest.
Proof. rewrite Nat2Z.id. by rewrite take_app_length, drop_app_length. Qed.

Lemma sized_bound {A} (value rest : list A) :
  (Z.of_nat (length (value ++ rest)) <? Z.of_nat (length value)) = false.
Proof. rewrite length_app. apply Z.ltb_ge. lia. Qed.

(** A write appends to the buffer. *)
Lemma WriteVarUint_app e v : 0 <= v -> WriteVarUint e v = e ++ WriteVarUint [] v.
Proof. intros. by rewrite !WriteVarUint_bytes. Qed.
Lemma WriteString_app e s : WriteString e s = e ++ WriteString [] s.
Proof. unfold WriteString. rewrite WriteVarUint_app by lia. by rewrite <- (assoc_L (++)). Qed.
Lemma WriteVarUint8Array_app e s : WriteVarUint8Array e s = e ++ WriteVarUint8Array [] s.
Proof. unfold WriteVarUint8Array. rewrite WriteVarUint_app by lia. by rewrite <- (assoc_L (++)). Qed.

Lemma uint8Array_roundtrip value rest :
  Z.of_nat (length value) < 2 ^ 64 ->
  ReadVarUint8Array (WriteVarUint8Array [] value ++ rest) = (Ok value, rest).
Proof.
  intros Hl. unfold ReadVarUint8Array, WriteVarUint8Array, ReadVarUint.
  rewrite WriteVarUint_bytes by lia. simpl app. rewrite <- (assoc_L (++)).
  rstep uvarint_roundtrip by (unfold is_u64; lia). rewrite sized_bound.
  by destruct (sized_split value rest) as [-> ->].
Qed.

Lemma string_roundtrip value rest :
  Z.of_nat (length value) < 2 ^ 64 ->
  ReadString (WriteString [] value ++ rest) = (Ok value, rest).
Proof.
  intros Hl. unfold ReadString, WriteString, ReadVarUint.
  rewrite WriteVarUint_bytes by lia. simpl app. rewrite <- (assoc_L (++)).
  rstep uvarint_roundtrip by (unfold is_u64; lia). rewrite sized_bound.
  destruct (sized_split value rest) as [-> ->].
  destruct (Z.eqb_spec (Z.of_nat (length value)) 0); [|done]. destruct value; [done|simpl in *; lia].
Qed.

End Bytes.
Export Bytes.

(** ** Properties *)

(** Every uint64 written by lib0's [WriteVarUint] is read back by
    [ReadVarUint], whatever follows it in the buffer, and exactly its own bytes
    are consumed. *)
Theorem readVarUint_writeVarUint (v : Z) (dst rest : list Z) :
  0 <= v < 2 ^ 64 ->
  exists bs, WriteVarUint dst v = dst ++ bs /\ ReadVarUint (bs ++ rest) = (Ok v, rest).
Proof.
  intros Hv. exists (uvarint_bytes 10 v). split.
  - apply WriteVarUint_bytes. lia.
  - by apply uvarint_roundtrip.
Qed.

Lemma readVarUint_writeVarUint_witness :
  exists bs, WriteVarUint [7] 18446744073709551615 = [7] ++ bs
    /\ ReadVarUint (bs ++ [1; 2]) = (Ok 18446744073709551615, [1; 2]).
Proof. apply (readVarUint_writeVarUint 18446744073709551615 [7] [1; 2]). lia. Defined.

(** The slice-backed fast paths of the V1 and V2 encoders emit exactly the
    bytes of the reference loops: [appendVarUint] those of [WriteVarUint], and
    [appendVarIntMag] those of [writeVarIntMag], for every uint64. *)
Theorem append_fast_paths_agree (v : Z) (dst : list Z) (negative : bool) :
  0 <= v < 2 ^ 64 ->
  appendVarUint dst v = WriteVarUint dst v /\
  appendVarIntMag dst v negative = writeVarIntMag dst v negative.
Proof.
  intros Hv. split.
  - rewrite appendVarUint_bytes, WriteVarUint_bytes by lia. done.
  - rewrite appendVarIntMag_bytes, writeVarIntMag_bytes by done. done.
Qed.

Lemma append_fast_paths_agree_witness :
  appendVarUint [] 16384 = WriteVarUint [] 16384 /\
  appendVarIntMag [] 16384 true = writeVarIntMag [] 16384 true.
Proof. apply (append_fast_paths_agree 16384 [] true). lia. Defined.

(** [readVarIntSigned] recovers the magnitude and the raw sign flag of any
    uint64 written by [writeVarIntMag], negative zero included. *)
Theorem readVarIntSigned_writeVarIntMag (mag : Z) (negative : bool) (dst rest : list Z) :
  0 <= mag < 2 ^ 64 ->
  exists bs, writeVarIntMag dst mag negative = dst ++ bs /\
    readVarIntSigned (bs ++ rest) = (Ok (mag, negative), rest).
Proof.
  intros Hm. exists (varint_bytes mag negative). split.
  - by apply writeVarIntMag_bytes.
  - by apply varint_roundtrip.
Qed.

Lemma readVarIntSigned_writeVarIntMag_witness :
  exists bs, writeVarIntMag [] 0 true = [] ++ bs /\ readVarIntSigned (bs ++ [5]) = (Ok (0, true), [5]).
Proof. apply (readVarIntSigned_writeVarIntMag 0 true [] [5]). lia. Defined.

(** [readVarInt] inverts [writeVarInt] on every [int] except the least
    one; the least [int] is written as a negative zero and read back as 0. *)
Theorem readVarInt_writeVarInt (n : Z) (rest : list Z) :
  minInt <= n <= maxInt ->
  readVarInt (writeVarInt [] n ++ rest) = (Ok (if n =? minInt then 0 else n), rest).
Proof. apply readVarInt_roundtrip. Qed.

Lemma readVarInt_writeVarInt_witness :
  readVarInt (writeVarInt [] (-2147483647) ++ [9]) = (Ok (-2147483647), [9]).
Proof. apply (readVarInt_writeVarInt (-2147483647) [9]). unfold minInt, maxInt. lia. Defined.

(** Length-prefixed byte arrays and strings are read back with exactly
    their bytes consumed, and a declared length above the bytes that remain is
    an error: an array drains the frame, a string leaves it in place. *)
Theorem length_prefixed_roundtrip (value rest : list Z) (size : Z) :
  Z.of_nat (length value) < size < 2 ^ 64 ->
  ReadVarUint8Array (WriteVarUint8Array [] value ++ rest) = (Ok value, rest) /\
  ReadString (WriteString [] value ++ rest) = (Ok value, rest) /\
  ReadVarUint8Array (WriteVarUint [] size ++ value) = (Err ErrUnexpectedEOF, []) /\
  ReadString (WriteVarUint [] size ++ value) = (Err ErrBuffer, value).
Proof.
  intros Hs. split_and!.
  - apply uint8Array_roundtrip. lia.
  - apply string_roundtrip. lia.
  - unfold ReadVarUint8Array, ReadVarUint. rewrite WriteVarUint_bytes by lia. simpl app.
    rstep uvarint_roundtrip by (unfold is_u64; lia).
    destruct (Z.ltb_spec (Z.of_nat (length value)) size); [done|lia].
  - unfold ReadString, ReadVarUint. rewrite WriteVarUint_bytes by lia. simpl app.
    rstep uvarint_roundtrip by (unfold is_u64; lia).
    destruct (Z.eqb_spec size 0); [lia|].
    destruct (Z.ltb_spec (Z.of_nat (length value)) size); [done|lia].
Qed.

Lemma length_prefixed_roundtrip_witness :
  ReadVarUint8Array (WriteVarUint8Array [] [104; 105] ++ [1]) = (Ok [104; 105], [1]) /\
  ReadString (WriteString [] [104; 105] ++ [1]) = (Ok [104; 105], [1]) /\
  ReadVarUint8Array (WriteVarUint [] 300 ++ [104; 105]) = (Err ErrUnexpectedEOF, []) /\
  ReadString (WriteVarUint [] 300 ++ [104; 105]) = (Err ErrBuffer, [104; 105]).
Proof. apply (length_prefixed_roundtrip [104; 105] [1] 300). simpl. lia. Defined.
