(* ===== verification/Rle.v ===== *)
(** * Run-length column codecs

    Models [crdt/rle_codec.go], [crdt/uint_opt_rle_codec.go] and
    [crdt/int_diff_opt_rle_codec.go]: the encoders and decoders of the numeric
    columns of the V2 update format. An encoder is a record threaded through
    its writes; a decoder is a record threaded through its reads. *)
From S2P Require Import Prelude Lib0.

Definition maxRleRunCount : Z := maxInt32.

(** Reading [n] values in a row. *)
Fixpoint readN {D A} (rd : step D A) (n : nat) (d : D) : result (list A) * D :=
  match n with
  | O => (Ok [], d)
  | S n' =>
      match rd d with
      | (Err e, d') => (Err e, d')
      | (Ok a, d') =>
          match readN rd n' d' with
          | (Err e, d'') => (Err e, d'')
          | (Ok l, d'') => (Ok (a :: l), d'')
          end
      end
  end.

Lemma readN_app {D A} (rd : step D A) n m d l d' :
  readN rd n d = (Ok l, d') ->
  readN rd (n + m) d =
    match readN rd m d' with (Ok l', d'') => (Ok (l ++ l'), d'') | (Err e, d'') => (Err e, d'') end.
Proof.
  revert d l. induction n as [|n IH]; intros d l; simpl.
  { intros [= <- ->]. by destruct (readN rd m d') as [[|] ?]. }
  destruct (rd d) as [[a|e] d1]; [|done].
  destruct (readN rd n d1) as [[l1|e] d2] eqn:E; [|done]. intros [= <- <-].
  rewrite (IH _ _ E). by destruct (readN rd m d2) as [[|] ?].
Qed.

(** ** RleEncoder / RleDecoder *)
Module Rle.

Record rleEncoder := mkEnc { e_buf : list Z; e_state : Z; e_count : Z; e_started : bool }.
Record rleDecoder := mkDec { d_buf : list Z; d_state : Z; d_count : Z }.

Definition newRLEEncoder : rleEncoder := mkEnc [] 0 0 false.
Definition newRLEDecoder (data : list Z) : rleDecoder := mkDec data 0 0.

(** The value writer and reader the codec is built with: [writeByte] and
    [readUint8] for every column of the update codec. *)
Definition writeByte (buf : list Z) (number : Z) : list Z := buf ++ [number].
Definition readUint8 : reader Z := readByte.

Definition writeValue (e : rleEncoder) (v : Z) : rleEncoder :=
  if e_started e && (e_state e =? v) then mkEnc (e_buf e) (e_state e) (e_count e + 1) (e_started e)
  else
    let buf := if 0 <? e_count e then WriteVarUint (e_buf e) (e_count e - 1) else e_buf e in
    mkEnc (writeByte buf v) v 1 true.

Definition bytes (e : rleEncoder) : list Z := e_buf e.

Definition remaining (d : rleDecoder) : Z := Z.of_nat (length (d_buf d)).

(** [d.count--] and the value. *)
Definition emit (d : rleDecoder) : result Z * rleDecoder :=
  (Ok (d_state d), mkDec (d_buf d) (d_state d) (i64 (d_count d - 1))).

Definition readValue : step rleDecoder Z := fun d =>
  if d_count d =? 0 then
    match readUint8 (d_buf d) with
    | (Err e, buf) => (Err e, mkDec buf (d_state d) (d_count d))
    | (Ok s, buf) =>
        if (0 <? length buf)%nat then
          match binaryReadUvarint buf with
          | (Err e, buf') => (Err e, mkDec buf' s (d_count d))
          | (Ok n, buf') =>
              if maxRleRunCount <=? n then (Err ErrRunLength, mkDec buf' s (d_count d))
              else emit (mkDec buf' s (n + 1))
          end
        else emit (mkDec buf s (-1))
    end
  else emit d.

Definition encode (xs : list Z) : list Z := bytes (fold_left writeValue xs newRLEEncoder).

(** *** Lemmas *)

(** What remains to be output when the run of [s] has length [c] and its byte
    is already written. *)
Fixpoint out (s c : Z) (xs : list Z) : list Z :=
  match xs with
  | [] => []
  | x :: xs' => if s =? x then out s (c + 1) xs' else uvarint_bytes 10 (c - 1) ++ x :: out x 1 xs'
  end.

Lemma rle_fold_out xs b s c :
  0 < c -> bytes (fold_left writeValue xs (mkEnc b s c true)) = b ++ out s c xs.
Proof.
  revert b s c. induction xs as [|x xs IH]; intros b s c Hc; simpl.
  { by rewrite app_nil_r. }
  unfold writeValue at 2. simpl. destruct (Z.eqb_spec s x) as [->|Hne]; [apply IH; lia|].
  destruct (Z.ltb_spec 0 c); [|lia]. rewrite IH by lia.
  rewrite WriteVarUint_bytes by lia. unfold writeByte. by rewrite <- !(assoc_L (++)).
Qed.

Lemma readN_pending k m b s :
  0 <= m -> Z.of_nat k + m < 2 ^ 31 ->
  readN readValue k (mkDec b s (Z.of_nat k + m)) = (Ok (replicate k s), mkDec b s m).
Proof.
  revert m. induction k as [|k IH]; intros m Hm Hb; [done|].
  simpl readN. unfold readValue at 1. simpl.
  destruct (Z.eqb_spec (Z.of_nat (S k) + m) 0); [lia|]. unfold emit. simpl.
  rewrite i64_small by (unfold is_i64; lia).
  replace (Z.of_nat (S k) + m - 1) with (Z.of_nat k + m) by lia.
  by rewrite IH by lia.
Qed.

Lemma readN_forever k b s c :
  c < 0 -> - 2 ^ 62 < c - Z.of_nat k ->
  readN readValue k (mkDec b s c) = (Ok (replicate k s), mkDec b s (c - Z.of_nat k)).
Proof.
  revert c. induction k as [|k IH]; intros c Hc Hb; simpl readN.
  { simpl. by rewrite Z.sub_0_r. }
  unfold readValue at 1. simpl. destruct (Z.eqb_spec c 0); [lia|]. unfold emit. simpl.
  rewrite i64_small by (unfold is_i64; lia). rewrite IH by lia.
  do 2 f_equal. lia.
Qed.

Lemma decode_out xs s (c : nat) st :
  (0 < c)%nat -> Z.of_nat c + Z.of_nat (length xs) <= maxRleRunCount ->
  exists d, readN readValue (c + length xs) (mkDec (s :: out s (Z.of_nat c) xs) st 0)
    = (Ok (replicate c s ++ xs), d).
Proof.
  revert s c st. induction xs as [|x xs IH]; intros s c st Hc Hb; unfold maxRleRunCount, maxInt32 in *.
  - rewrite Nat.add_0_r, app_nil_r. destruct c as [|c]; [lia|]. cbn [readN].
    unfold readValue at 1. cbn [out d_count d_buf readUint8 readByte Z.eqb length Nat.ltb Nat.leb].
    unfold emit. cbn [d_state d_buf d_count].
    rewrite i64_small by (unfold is_i64; lia).
    rewrite readN_forever by (simpl in Hb; lia). eexists. done.
  - simpl length in *. simpl out. destruct (Z.eqb_spec s x) as [->|Hne].
    + destruct (IH x (S c) st) as [d Hd]; [lia|lia|].
      replace (Z.of_nat c + 1) with (Z.of_nat (S c)) by lia.
      replace (c + S (length xs))%nat with (S c + length xs)%nat by lia.
      exists d. rewrite Hd. f_equal. f_equal.
      rewrite replicate_S_end. by rewrite <- (assoc_L (++)).
    + destruct (IH x 1%nat s) as [d Hd]; [lia|lia|].
      assert (Hrun : readN readValue c (mkDec (s :: uvarint_bytes 10 (Z.of_nat c - 1) ++ x :: out x 1 xs) st 0)
         = (Ok (replicate c s), mkDec (x :: out x 1 xs) s 0)).
      { destruct c as [|c]; [lia|]. cbn [readN]. unfold readValue at 1.
        cbn [d_count d_buf Z.eqb readUint8 readByte].
        destruct (Nat.ltb_spec 0 (length (uvarint_bytes 10 (Z.of_nat (S c) - 1) ++ x :: out x 1 xs)));
          [|rewrite length_app in *; simpl in *; lia].
        rewrite uvarint_roundtrip by (unfold is_u64; lia).
        destruct (Z.leb_spec maxRleRunCount (Z.of_nat (S c) - 1));
          [unfold maxRleRunCount, maxInt32 in *; lia|].
        unfold emit. cbn [d_state d_buf d_count]. rewrite i64_small by (unfold is_i64; lia).
        replace (Z.of_nat (S c) - 1 + 1 - 1) with (Z.of_nat c + 0) by lia.
        by rewrite readN_pending by lia. }
      exists d. rewrite (readN_app _ _ _ _ _ _ Hrun). change (S (length xs)) with (1 + length xs)%nat.
      change (Z.of_nat 1) with 1 in Hd. rewrite Hd. done.
Qed.

Lemma rle_encode_decode xs :
  Z.of_nat (length xs) <= maxRleRunCount ->
  exists d, readN readValue (length xs) (newRLEDecoder (encode xs)) = (Ok xs, d).
Proof.
  destruct xs as [|x xs]; intros Hl; [eexists; done|].
  unfold encode, newRLEEncoder. cbn [fold_left].
  change (writeValue (mkEnc [] 0 0 false) x) with (mkEnc [x] x 1 true).
  rewrite (rle_fold_out xs [x] x 1) by lia.
  apply (decode_out xs x 1 0); [lia|]. simpl length in Hl. lia.
Qed.

End Rle.

(** ** Runs with an explicit count

    [UintOptRle] and [IntDiffOptRle] share the shape "a run is written when it
    ends, with its length"; the run lemmas are proved once against the bytes
    of a finished run and the reader of a run header. *)
Class RunCodec (A : Type) := {
  run_eqb : A -> A -> bool;
  run_bytes : A -> Z -> list Z;
  run_load : list Z -> result (A * Z) * list Z;
  run_ok : A -> Prop;
  run_eqb_eq a b : run_eqb a b = true <-> a = b;
  run_roundtrip a c rest :
    run_ok a -> 1 <= c <= maxRleRunCount -> run_load (run_bytes a c ++ rest) = (Ok (a, c), rest);
}.

Section Runs.
Context {A : Type} `{RunCodec A}.

(** The bytes still to be output when the pending run is [c] times [s]. *)
Fixpoint run_out (s : A) (c : Z) (xs : list A) : list Z :=
  match xs with
  | [] => run_bytes s c
  | x :: xs' => if run_eqb s x then run_out s (c + 1) xs' else run_bytes s c ++ run_out x 1 xs'
  end.

(** A decoder of runs: buffer, current value, how many times it is still due. *)
Definition run_read (d : list Z * option A * Z) : result A * (list Z * option A * Z) :=
  let '(buf, s, c) := d in
  if c =? 0 then
    match run_load buf with
    | (Err e, buf') => (Err e, (buf', s, c))
    | (Ok (a, n), buf') => (Ok a, (buf', Some a, n - 1))
    end
  else match s with Some a => (Ok a, (buf, s, c - 1)) | None => (Err ErrMalformed, d) end.

Lemma run_read_pending (k : nat) m b a :
  0 <= m -> readN run_read k (b, Some a, Z.of_nat k + m) = (Ok (replicate k a), (b, Some a, m)).
Proof.
  revert m. induction k as [|k IH]; intros m Hm; [done|].
  simpl readN. destruct (Z.eqb_spec (Z.of_nat (S k) + m) 0); [lia|].
  replace (Z.of_nat (S k) + m - 1) with (Z.of_nat k + m) by lia. by rewrite IH.
Qed.

Lemma run_read_run (c : nat) a rest s :
  run_ok a -> 1 <= Z.of_nat c <= maxRleRunCount ->
  readN run_read c (run_bytes a (Z.of_nat c) ++ rest, s, 0) = (Ok (replicate c a), (rest, Some a, 0)).
Proof.
  intros Ha Hc. destruct c as [|c]; [lia|]. cbn [readN run_read]. simpl (0 =? 0). cbv iota.
  rewrite run_roundtrip by done. replace (Z.of_nat (S c) - 1) with (Z.of_nat c + 0) by lia.
  by rewrite run_read_pending by lia.
Qed.

Lemma run_decode_out xs a (c : nat) s :
  Forall run_ok xs -> run_ok a -> (0 < c)%nat ->
  Z.of_nat c + Z.of_nat (length xs) <= maxRleRunCount ->
  exists d, readN run_read (c + length xs) (run_out a (Z.of_nat c) xs, s, 0)
    = (Ok (replicate c a ++ xs), d).
Proof.
  intros Hxs. revert a c s. induction Hxs as [|x xs Hx Hxs IH]; intros a c s Ha Hc Hb.
  - rewrite Nat.add_0_r, app_nil_r. simpl run_out. rewrite <- (app_nil_r (run_bytes _ _)).
    rewrite run_read_run by (simpl in *; lia || done). eexists. done.
  - simpl length in *. simpl run_out. destruct (run_eqb a x) eqn:E.
    + apply run_eqb_eq in E as ->. destruct (IH x (S c) s) as [d Hd]; [done|lia|lia|].
      replace (Z.of_nat c + 1) with (Z.of_nat (S c)) by lia.
      replace (c + S (length xs))%nat with (S c + length xs)%nat by lia.
      exists d. rewrite Hd. f_equal. f_equal. rewrite replicate_S_end. by rewrite <- (assoc_L (++)).
    + destruct (IH x 1%nat (Some a)) as [d Hd]; [done|lia|lia|]. change (Z.of_nat 1) with 1 in Hd.
      exists d. erewrite readN_app by (apply run_read_run; [done|lia]).
      change (S (length xs)) with (1 + length xs)%nat. by rewrite Hd.
Qed.

End Runs.

(** Simulation of a decoder by [run_read], enough for successful reads. *)
Lemma readN_sim {D A B} (rd : step D B) (rd' : step (list Z * option A * Z) A)
    (R : D -> list Z * option A * Z -> Prop) (f : list A -> D -> list B) n d t l t' :
  (forall d, f [] d = []) ->
  (forall d t a t1, R d t -> rd' t = (Ok a, t1) ->
     exists b d1, rd d = (Ok b, d1) /\ R d1 t1 /\ forall l, f (a :: l) d = b :: f l d1) ->
  R d t -> readN rd' n t = (Ok l, t') ->
  exists d', readN rd n d = (Ok (f l d), d') /\ R d' t'.
Proof.
  intros Hnil Hstep. revert d t l. induction n as [|n IH]; intros d t l HR; simpl.
  { intros [= <- <-]. rewrite Hnil. by exists d. }
  destruct (rd' t) as [[a|e] t1] eqn:E1; [|done].
  destruct (readN rd' n t1) as [[l1|e] t2] eqn:E2; [|done]. intros [= <- <-].
  destruct (Hstep _ _ _ _ HR E1) as (b & d1 & -> & HR1 & Hf).
  destruct (IH _ _ _ HR1 E2) as (d2 & -> & HR2). rewrite Hf. by exists d2.
Qed.

(** ** UintOptRleEncoder / UintOptRleDecoder *)
Module UintOptRle.

Record uintOptRLEEncoder := mkEnc { e_buf : list Z; e_s : Z; e_count : Z }.
Record uintOptRLEDecoder := mkDec { d_buf : list Z; d_s : Z; d_count : Z }.

Definition newUintOptRLEEncoder : uintOptRLEEncoder := mkEnc [] 0 0.
Definition newUintOptRLEDecoder (data : list Z) : uintOptRLEDecoder := mkDec data 0 0.

Definition flush (e : uintOptRLEEncoder) : uintOptRLEEncoder :=
  if e_count e =? 0 then e
  else if e_count e =? 1 then mkEnc (appendVarIntMag (e_buf e) (e_s e) false) (e_s e) (e_count e)
  else mkEnc (appendVarUint (appendVarIntMag (e_buf e) (e_s e) true) (u64 (e_count e - 2)))
             (e_s e) (e_count e).

Definition writeValue (e : uintOptRLEEncoder) (v : Z) : uintOptRLEEncoder :=
  if (0 <? e_count e) && (e_s e =? v) then mkEnc (e_buf e) (e_s e) (e_count e + 1)
  else mkEnc (e_buf (flush e)) v 1.

Definition bytes (e : uintOptRLEEncoder) : list Z := e_buf (flush e).

Definition remaining (d : uintOptRLEDecoder) : Z := Z.of_nat (length (d_buf d)).

Definition readValue : step uintOptRLEDecoder Z := fun d =>
  if d_count d =? 0 then
    match readVarIntSigned (d_buf d) with
    | (Err e, buf) => (Err e, mkDec buf (d_s d) (d_count d))
    | (Ok (mag, negative), buf) =>
        if negative : bool then
          match binaryReadUvarint buf with
          | (Err e, buf') => (Err e, mkDec buf' mag 1)
          | (Ok n, buf') =>
              if maxRleRunCount - 2 <? n then (Err ErrRunLength, mkDec buf' mag 1)
              else (Ok mag, mkDec buf' mag (n + 2 - 1))
          end
        else (Ok mag, mkDec buf mag (1 - 1))
    end
  else (Ok (d_s d), mkDec (d_buf d) (d_s d) (d_count d - 1)).

Definition encode (xs : list Z) : list Z := bytes (fold_left writeValue xs newUintOptRLEEncoder).

(** *** Lemmas *)

Definition load (buf : list Z) : result (Z * Z) * list Z :=
  match readVarIntSigned buf with
  | (Err e, buf) => (Err e, buf)
  | (Ok (mag, negative), buf) =>
      if negative : bool then
        match binaryReadUvarint buf with
        | (Err e, buf') => (Err e, buf')
        | (Ok n, buf') => if maxRleRunCount - 2 <? n then (Err ErrRunLength, buf') else (Ok (mag, n + 2), buf')
        end
      else (Ok (mag, 1), buf)
  end.

Definition run (s c : Z) : list Z :=
  if c =? 1 then varint_bytes s false else varint_bytes s true ++ uvarint_bytes 10 (c - 2).

Lemma uint_load_run s c rest :
  is_u64 s -> 1 <= c <= maxRleRunCount -> load (run s c ++ rest) = (Ok (s, c), rest).
Proof.
  unfold maxRleRunCount, maxInt32. intros Hs Hc. unfold load, run.
  destruct (Z.eqb_spec c 1) as [->|]; [by rewrite varint_roundtrip|].
  rewrite <- (assoc_L (++)), varint_roundtrip by done.
  rewrite uvarint_roundtrip by (unfold is_u64; lia).
  unfold maxRleRunCount, maxInt32. destruct (Z.ltb_spec (2 ^ 31 - 1 - 2) (c - 2)); [lia|].
  do 3 f_equal. lia.
Qed.

#[export] Program Instance codec : RunCodec Z := {|
  run_eqb := Z.eqb; run_bytes := run; run_load := load; run_ok := is_u64 |}.
Next Obligation. apply Z.eqb_eq. Qed.
Next Obligation. by apply uint_load_run. Qed.

Lemma uint_flush_run b s c :
  is_u64 s -> 1 <= c < 2 ^ 64 -> e_buf (flush (mkEnc b s c)) = b ++ run s c.
Proof.
  intros Hs Hc. unfold flush, run. simpl. destruct (Z.eqb_spec c 0); [lia|].
  destruct (Z.eqb_spec c 1); simpl; [by apply appendVarIntMag_bytes|].
  rewrite u64_small by (unfold is_u64; lia).
  rewrite appendVarUint_bytes, appendVarIntMag_bytes by (done || lia).
  by rewrite <- (assoc_L (++)).
Qed.

Lemma uint_fold_out xs b s c :
  Forall is_u64 xs -> is_u64 s -> 0 < c -> c + Z.of_nat (length xs) < 2 ^ 64 ->
  bytes (fold_left writeValue xs (mkEnc b s c)) = b ++ run_out s c xs.
Proof.
  intros Hxs. revert b s c. induction Hxs as [|x xs Hx Hxs IH]; intros b s c Hs Hc Hl; simpl length in *.
  { simpl. unfold bytes. by rewrite uint_flush_run by (done || lia). }
  cbn [fold_left run_out]. unfold writeValue at 2. simpl run_eqb. cbn [e_count e_s e_buf].
  destruct (Z.ltb_spec 0 c); [|lia]. simpl andb. destruct (Z.eqb_spec s x).
  - apply IH; [done|lia|lia].
  - rewrite IH by (done || lia). rewrite uint_flush_run by (done || lia). by rewrite <- (assoc_L (++)).
Qed.

Definition abs (d : uintOptRLEDecoder) (t : list Z * option Z * Z) : Prop :=
  t = (d_buf d, Some (d_s d), d_count d).

Lemma uint_readValue_sim d t a t1 :
  abs d t -> run_read t = (Ok a, t1) ->
  exists b d1, readValue d = (Ok b, d1) /\ abs d1 t1 /\ forall l : list Z, a :: l = b :: l.
Proof.
  unfold abs. intros ->. unfold run_read, readValue. cbn [d_buf d_s d_count run_load codec].
  destruct (d_count d =? 0).
  - unfold load. destruct (readVarIntSigned (d_buf d)) as [[[mag []]|e] buf]; [| |done].
    + destruct (binaryReadUvarint buf) as [[n|e] buf']; [|done]. destruct (_ <? n); [done|].
      intros [= <- <-]. do 2 eexists. done.
    + intros [= <- <-]. do 2 eexists. done.
  - intros [= <- <-]. do 2 eexists. done.
Qed.

Lemma uint_encode_decode xs :
  Forall is_u64 xs -> Z.of_nat (length xs) <= maxRleRunCount ->
  exists d, readN readValue (length xs) (newUintOptRLEDecoder (encode xs)) = (Ok xs, d).
Proof.
  intros Hxs Hl. destruct Hxs as [|x xs Hx Hxs]; [eexists; done|].
  unfold encode, newUintOptRLEEncoder. cbn [fold_left].
  change (writeValue (mkEnc [] 0 0) x) with (mkEnc [] x 1).
  unfold maxRleRunCount, maxInt32 in *. simpl length in *.
  rewrite uint_fold_out by (done || lia). cbn [app].
  destruct (run_decode_out xs x 1 (Some 0)) as [d Hd];
    [done|done|lia|unfold maxRleRunCount, maxInt32; lia|].
  destruct (readN_sim readValue run_read abs (fun l _ => l) _ (newUintOptRLEDecoder (run_out x 1 xs)) _ _ _
    (fun _ => eq_refl) uint_readValue_sim eq_refl Hd) as (d' & Hd' & _).
  exists d'. exact Hd'.
Qed.

End UintOptRle.

(** ** IntDiffOptRleEncoder / IntDiffOptRleDecoder *)
Module IntDiffOptRle.

Definition maxIntDiffOptRleDiff : Z := Z.shiftl 1 61.

Record intDiffOptRLEEncoder := mkEnc { e_buf : list Z; e_s : Z; e_count : Z; e_diff : Z }.
Record intDiffOptRLEDecoder := mkDec { d_buf : list Z; d_s : Z; d_count : Z; d_diff : Z }.

Definition newIntDiffOptRLEEncoder : intDiffOptRLEEncoder := mkEnc [] 0 0 0.
Definition newIntDiffOptRLEDecoder (data : list Z) : intDiffOptRLEDecoder := mkDec data 0 0 0.

(** The encoding half of [flush]: [diff*2 + hasCount] as a signed varint, then
    [count-2] for a run. *)
Definition append_run (buf : list Z) (diff count : Z) : list Z :=
  let hasCount := if count =? 1 then 0 else 1 in
  let encodedDiff := i64 (i64 (diff * 2) + hasCount) in
  let negative := encodedDiff <? 0 in
  let magnitude := if negative then u64 (i64 (- encodedDiff)) else u64 encodedDiff in
  let buf := appendVarIntMag buf magnitude negative in
  if 1 <? count then appendVarUint buf (u64 (count - 2)) else buf.

Definition flush (e : intDiffOptRLEEncoder) : result intDiffOptRLEEncoder :=
  if e_count e =? 0 then Ok e
  else if (maxIntDiffOptRleDiff <? e_diff e) || (e_diff e <? - maxIntDiffOptRleDiff)
  then Err ErrRange
  else Ok (mkEnc (append_run (e_buf e) (e_diff e) (e_count e)) (e_s e) (e_count e) (e_diff e)).

Definition writeValue (e : intDiffOptRLEEncoder) (v : Z) : result intDiffOptRLEEncoder :=
  if (0 <? e_count e) && (e_diff e =? i64 (v - e_s e))
  then Ok (mkEnc (e_buf e) v (e_count e + 1) (e_diff e))
  else
    match flush e with
    | Err x => Err x
    | Ok e' => Ok (mkEnc (e_buf e') v 1 (i64 (v - e_s e)))
    end.

Definition writeTrusted (e : intDiffOptRLEEncoder) (v : Z) : intDiffOptRLEEncoder :=
  let diff := i64 (v - e_s e) in
  if (0 <? e_count e) && (e_diff e =? diff) then mkEnc (e_buf e) v (e_count e + 1) (e_diff e)
  else
    let buf :=
      if 0 <? e_count e then
        let encodedDiff := i64 (e_diff e * 2) in
        let encodedDiff := if negb (e_count e =? 1) then i64 (encodedDiff + 1) else encodedDiff in
        let negative := encodedDiff <? 0 in
        let magnitude := u64 encodedDiff in
        let magnitude := if negative then u64 (i64 (- encodedDiff)) else magnitude in
        let buf := appendVarIntMag (e_buf e) magnitude negative in
        if 1 <? e_count e then appendVarUint buf (u64 (e_count e - 2)) else buf
      else e_buf e in
    mkEnc buf v 1 diff.

Definition bytes (e : intDiffOptRLEEncoder) : result (list Z) :=
  match flush e with Err x => Err x | Ok e' => Ok (e_buf e') end.

Definition remaining (d : intDiffOptRLEDecoder) : Z := Z.of_nat (length (d_buf d)).

(** The tail of [readValue]: the overflow test of the accumulator, then
    [s += diff; count--]. *)
Definition advance (d : intDiffOptRLEDecoder) : result Z * intDiffOptRLEDecoder :=
  if ((0 <? d_diff d) && (i64 (maxInt - d_diff d) <? d_s d))
     || ((d_diff d <? 0) && (d_s d <? i64 (minInt - d_diff d)))
  then (Err ErrRange, d)
  else
    let s := i64 (d_s d + d_diff d) in
    (Ok s, mkDec (d_buf d) s (d_count d - 1) (d_diff d)).

Definition readValue : step intDiffOptRLEDecoder Z := fun d =>
  if d_count d =? 0 then
    match readVarIntSigned (d_buf d) with
    | (Err e, buf) => (Err e, mkDec buf (d_s d) (d_count d) (d_diff d))
    | (Ok (mag, negative), buf) =>
        if maxInt <? mag then (Err ErrRange, mkDec buf (d_s d) (d_count d) (d_diff d))
        else
          let encodedDiff := i64 mag in
          let encodedDiff := if negative : bool then - encodedDiff else encodedDiff in
          let hasCount := Z.land encodedDiff 1 in
          let diff := Z.shiftr encodedDiff 1 in
          if negb (hasCount =? 0) then
            match binaryReadUvarint buf with
            | (Err e, buf') => (Err e, mkDec buf' (d_s d) 1 diff)
            | (Ok n, buf') =>
                if maxRleRunCount - 2 <? n then (Err ErrRunLength, mkDec buf' (d_s d) 1 diff)
                else advance (mkDec buf' (d_s d) (n + 2) diff)
            end
          else advance (mkDec buf (d_s d) 1 diff)
    end
  else advance d.

Fixpoint writeAll (xs : list Z) (e : intDiffOptRLEEncoder) : result intDiffOptRLEEncoder :=
  match xs with
  | [] => Ok e
  | x :: xs' => match writeValue e x with Err r => Err r | Ok e' => writeAll xs' e' end
  end.

Definition encode (xs : list Z) : result (list Z) :=
  match writeAll xs newIntDiffOptRLEEncoder with Err r => Err r | Ok e => bytes e end.

(** *** Lemmas *)

Definition diff_ok (d : Z) : Prop := - 2 ^ 61 <= d <= 2 ^ 61.
Definition value_ok (v : Z) : Prop := - 2 ^ 60 <= v <= 2 ^ 60.

Definition load (buf : list Z) : result (Z * Z) * list Z :=
  match readVarIntSigned buf with
  | (Err e, buf) => (Err e, buf)
  | (Ok (mag, negative), buf) =>
      if maxInt <? mag then (Err ErrRange, buf)
      else
        let encodedDiff := if negative : bool then - i64 mag else i64 mag in
        if negb (Z.land encodedDiff 1 =? 0) then
          match binaryReadUvarint buf with
          | (Err e, buf') => (Err e, buf')
          | (Ok n, buf') =>
              if maxRleRunCount - 2 <? n then (Err ErrRunLength, buf')
              else (Ok (Z.shiftr encodedDiff 1, n + 2), buf')
          end
        else (Ok (Z.shiftr encodedDiff 1, 1), buf)
  end.

Definition coded (d c : Z) : Z := 2 * d + (if c =? 1 then 0 else 1).

Definition run (d c : Z) : list Z :=
  varint_bytes (Z.abs (coded d c)) (coded d c <? 0) ++
  (if 1 <? c then uvarint_bytes 10 (c - 2) else []).

Lemma coded_parts d c :
  Z.land (coded d c) 1 = (if c =? 1 then 0 else 1) /\ Z.shiftr (coded d c) 1 = d.
Proof.
  unfold coded. rewrite Z.shiftr_div_pow2 by lia. change (2 ^ 1) with 2.
  rewrite land1.
  destruct (c =? 1); split; zdiv.
Qed.

Lemma diff_load_run d c rest :
  diff_ok d -> 1 <= c <= maxRleRunCount -> load (run d c ++ rest) = (Ok (d, c), rest).
Proof.
  unfold diff_ok, maxRleRunCount, maxInt32. intros Hd Hc. unfold load, run.
  assert (Hco : Z.abs (coded d c) < 2 ^ 63) by (unfold coded; destruct (c =? 1); lia).
  rewrite <- (assoc_L (++)), varint_roundtrip by (unfold is_u64; lia).
  unfold maxInt. destruct (Z.ltb_spec (2 ^ 63 - 1) (Z.abs (coded d c))); [lia|].
  rewrite i64_small by (unfold is_i64; lia).
  assert (Hs : (if coded d c <? 0 then - Z.abs (coded d c) else Z.abs (coded d c)) = coded d c)
    by (destruct (Z.ltb_spec (coded d c) 0); lia).
  rewrite Hs. destruct (coded_parts d c) as [-> ->].
  destruct (Z.eqb_spec c 1) as [->|Hc1]; [done|]. change (negb (1 =? 0)) with true. cbv iota.
  destruct (Z.ltb_spec 1 c); [|lia]. rewrite uvarint_roundtrip by (unfold is_u64; lia).
  unfold maxRleRunCount, maxInt32. destruct (Z.ltb_spec (2 ^ 31 - 1 - 2) (c - 2)); [lia|].
  do 3 f_equal. lia.
Qed.

#[export] Program Instance codec : RunCodec Z := {|
  run_eqb := Z.eqb; run_bytes := run; run_load := load; run_ok := diff_ok |}.
Next Obligation. apply Z.eqb_eq. Qed.
Next Obligation. by apply diff_load_run. Qed.

Lemma append_run_run b d c :
  diff_ok d -> 1 <= c < 2 ^ 64 -> append_run b d c = b ++ run d c.
Proof.
  unfold diff_ok. intros Hd Hc. unfold append_run, run.
  rewrite (i64_small (d * 2)) by (unfold is_i64; lia).
  assert (Hco : i64 (d * 2 + (if c =? 1 then 0 else 1)) = coded d c).
  { unfold coded. rewrite i64_small by (unfold is_i64; destruct (c =? 1); lia). lia. }
  rewrite Hco. assert (Hb : Z.abs (coded d c) < 2 ^ 63) by (unfold coded; destruct (c =? 1); lia).
  assert (Hm : (if coded d c <? 0 then u64 (i64 (- coded d c)) else u64 (coded d c)) = Z.abs (coded d c)).
  { destruct (Z.ltb_spec (coded d c) 0).
    - rewrite i64_small by (unfold is_i64; lia). rewrite u64_small by (unfold is_u64; lia). lia.
    - rewrite u64_small by (unfold is_u64; lia). lia. }
  rewrite Hm, appendVarIntMag_bytes by (unfold is_u64; lia).
  destruct (1 <? c) eqn:E; [|by rewrite app_nil_r].
  apply Z.ltb_lt in E. rewrite u64_small by (unfold is_u64; lia).
  rewrite appendVarUint_bytes by lia. by rewrite <- (assoc_L (++)).
Qed.

Lemma diff_flush_run b s c d :
  diff_ok d -> 1 <= c < 2 ^ 64 -> flush (mkEnc b s c d) = Ok (mkEnc (b ++ run d c) s c d).
Proof.
  intros Hd Hc. unfold flush. cbn [e_count e_diff e_buf e_s]. destruct (Z.eqb_spec c 0); [lia|].
  change maxIntDiffOptRleDiff with (2 ^ 61). unfold diff_ok in *.
  destruct (Z.ltb_spec (2 ^ 61) d); [lia|]. destruct (Z.ltb_spec d (- 2 ^ 61)); [lia|]. simpl.
  by rewrite append_run_run.
Qed.

(** The differences of a list of values, from a starting value. *)
Fixpoint diffs (s : Z) (xs : list Z) : list Z :=
  match xs with [] => [] | x :: xs' => (x - s) :: diffs x xs' end.

Fixpoint undiff (s : Z) (ds : list Z) : list Z :=
  match ds with [] => [] | d :: ds' => (s + d) :: undiff (s + d) ds' end.

Lemma undiff_diffs s xs : undiff s (diffs s xs) = xs.
Proof.
  revert s. induction xs as [|x xs IH]; intros s; [done|]. simpl.
  replace (s + (x - s)) with x by lia. by rewrite IH.
Qed.

Lemma length_diffs s xs : length (diffs s xs) = length xs.
Proof. revert s. induction xs; intros; simpl; auto. Qed.

Lemma diffs_ok s xs : value_ok s -> Forall value_ok xs -> Forall diff_ok (diffs s xs).
Proof.
  intros Hs Hxs. revert s Hs. induction Hxs as [|x xs Hx Hxs IH]; intros s Hs; simpl; constructor; auto.
  unfold value_ok, diff_ok in *. lia.
Qed.

Lemma writeAll_out xs b s c d :
  Forall value_ok xs -> value_ok s -> diff_ok d -> 0 < c -> c + Z.of_nat (length xs) < 2 ^ 64 ->
  match writeAll xs (mkEnc b s c d) with Err r => Err r | Ok e => bytes e end
  = Ok (b ++ run_out d c (diffs s xs)).
Proof.
  intros Hxs. revert b s c d.
  induction Hxs as [|x xs Hx Hxs IH]; intros b s c d Hs Hd Hc Hl; simpl length in *.
  { simpl. unfold bytes. by rewrite diff_flush_run by (done || lia). }
  assert (Hdx : diff_ok (x - s)) by (unfold diff_ok, value_ok in *; lia).
  cbn [writeAll diffs run_out]. unfold writeValue. cbn [e_count e_s e_buf e_diff].
  rewrite (i64_small (x - s)) by (unfold is_i64, diff_ok in *; lia).
  destruct (Z.ltb_spec 0 c); [|lia]. cbn [andb run_eqb codec]. destruct (Z.eqb_spec d (x - s)) as [->|].
  - rewrite IH by (done || lia). done.
  - rewrite diff_flush_run by (done || lia). rewrite IH by (done || lia). cbn [e_buf].
    by rewrite <- (assoc_L (++)).
Qed.

Definition abs (d : intDiffOptRLEDecoder) (t : list Z * option Z * Z) : Prop :=
  t = (d_buf d, Some (d_diff d), d_count d).

Lemma advance_ok d :
  is_i64 (d_s d) -> is_i64 (d_s d + d_diff d) -> is_i64 (d_diff d) ->
  advance d = (Ok (d_s d + d_diff d), mkDec (d_buf d) (d_s d + d_diff d) (d_count d - 1) (d_diff d)).
Proof.
  unfold is_i64. intros Hs Hsum Hd. unfold advance, maxInt, minInt.
  rewrite (i64_small (d_s d + d_diff d)) by done.
  destruct (Z.ltb_spec 0 (d_diff d)) as [Hp|Hp]; cbn [andb orb].
  - rewrite i64_small by (unfold is_i64; lia).
    destruct (Z.ltb_spec (2 ^ 63 - 1 - d_diff d) (d_s d)); [lia|].
    destruct (Z.ltb_spec (d_diff d) 0); [lia|done].
  - destruct (Z.ltb_spec (d_diff d) 0); cbn [andb]; [|done].
    rewrite i64_small by (unfold is_i64; lia).
    destruct (Z.ltb_spec (d_s d) (- 2 ^ 63 - d_diff d)); [lia|done].
Qed.

(** A run reader that yields [a] is followed by the decoder when the sum stays
    in range. *)
Lemma diff_readValue_sim d t a t1 :
  abs d t -> run_read t = (Ok a, t1) -> is_i64 (d_s d) -> is_i64 a -> is_i64 (d_s d + a) ->
  exists d1, readValue d = (Ok (d_s d + a), d1) /\ abs d1 t1 /\ d_s d1 = d_s d + a.
Proof.
  unfold abs. intros -> Hr Hs Ha Hsum. unfold run_read, readValue in *. cbn [run_load codec] in Hr.
  destruct (d_count d =? 0).
  - unfold load in Hr. destruct (readVarIntSigned (d_buf d)) as [[[mag neg]|e] buf]; [|done].
    destruct (maxInt <? mag); [done|]. destruct (negb _).
    + destruct (binaryReadUvarint buf) as [[n|e] buf']; [|done]. destruct (_ <? n); [done|].
      injection Hr as <- <-. rewrite advance_ok by done. eexists. done.
    + injection Hr as <- <-. rewrite advance_ok by done. eexists. done.
  - injection Hr as <- <-. rewrite advance_ok by done. eexists. done.
Qed.

Lemma readN_undiff n d t l t' :
  abs d t -> readN run_read n t = (Ok l, t') -> is_i64 (d_s d) ->
  Forall diff_ok l -> Forall value_ok (undiff (d_s d) l) ->
  exists d', readN readValue n d = (Ok (undiff (d_s d) l), d').
Proof.
  revert d t l. induction n as [|n IH]; intros d t l HR; simpl.
  { intros [= <- <-]. eexists. done. }
  destruct (run_read t) as [[a|e] t1] eqn:E1; [|done].
  destruct (readN run_read n t1) as [[l1|e] t2] eqn:E2; [|done]. intros [= <- <-] Hs Hok Hv.
  apply Forall_cons_1 in Hok as [Ha Hok]. simpl in Hv. apply Forall_cons_1 in Hv as [Hv1 Hv].
  assert (is_i64 (d_s d + a)) by (unfold value_ok, is_i64 in *; lia).
  destruct (diff_readValue_sim d t a t1) as (d1 & -> & HR1 & Hs1);
    [done|done|done|unfold diff_ok, is_i64 in *; lia|done|].
  rewrite <- Hs1 in Hv. destruct (IH d1 t1 l1) as [d' Hd']; [done|done|congruence|done|done|].
  rewrite Hd'. rewrite Hs1. eexists. done.
Qed.

Lemma diff_encode_decode xs :
  Forall value_ok xs -> Z.of_nat (length xs) <= maxRleRunCount ->
  exists bs d, encode xs = Ok bs /\
    readN readValue (length xs) (newIntDiffOptRLEDecoder bs) = (Ok xs, d).
Proof.
  intros Hxs Hl. destruct xs as [|x xs]; [do 2 eexists; done|].
  unfold encode, newIntDiffOptRLEEncoder. cbn [writeAll].
  apply Forall_cons_1 in Hxs as [Hx Hxs].
  assert (Hw : writeValue (mkEnc [] 0 0 0) x = Ok (mkEnc [] x 1 x)).
  { unfold writeValue. cbn. rewrite Z.sub_0_r.
    rewrite i64_small by (unfold is_i64, value_ok in *; lia). done. }
  rewrite Hw. unfold maxRleRunCount, maxInt32 in *. simpl length in *.
  assert (diff_ok x) by (unfold diff_ok, value_ok in *; lia).
  rewrite writeAll_out by (done || lia). cbn [app].
  destruct (run_decode_out (diffs x xs) x 1 (Some 0)) as [d Hd];
    [by apply diffs_ok|done|lia|rewrite length_diffs; unfold maxRleRunCount, maxInt32; lia|].
  rewrite length_diffs in Hd. cbn [replicate app] in Hd.
  destruct (readN_undiff _ (newIntDiffOptRLEDecoder (run_out x 1 (diffs x xs))) _ _ _ eq_refl Hd) as [d' Hd'].
  - unfold is_i64. simpl. lia.
  - constructor; [done|]. by apply diffs_ok.
  - simpl undiff. rewrite undiff_diffs. by constructor.
  - simpl undiff in Hd'. rewrite undiff_diffs in Hd'. do 2 eexists. split; [done|exact Hd'].
Qed.

End IntDiffOptRle.

(** ** Properties *)

(** A column of bytes written through [rleEncoder.writeValue] is read back
    value by value by [rleDecoder.readValue], although the last run is written
    without its count. *)
Theorem rle_column_roundtrip (xs : list Z) :
  Z.of_nat (length xs) <= maxRleRunCount ->
  exists d, readN Rle.readValue (length xs)
    (Rle.newRLEDecoder (Rle.bytes (fold_left Rle.writeValue xs Rle.newRLEEncoder))) = (Ok xs, d).
Proof. apply Rle.rle_encode_decode. Qed.

Lemma rle_column_roundtrip_witness :
  exists d, readN Rle.readValue 4
    (Rle.newRLEDecoder (Rle.bytes (fold_left Rle.writeValue [7; 7; 7; 9] Rle.newRLEEncoder)))
    = (Ok [7; 7; 7; 9], d).
Proof. apply (rle_column_roundtrip [7; 7; 7; 9]). vm_compute. discriminate. Defined.

(** A column of uint64 values written through
    [uintOptRLEEncoder.writeValue] is read back value by value; the full range
    up to [2^64 - 1] survives, and so does a run of zeros, which is written as
    a negative zero. *)
Theorem uint_column_roundtrip (xs : list Z) :
  Forall (fun x => 0 <= x < 2 ^ 64) xs -> Z.of_nat (length xs) <= maxRleRunCount ->
  exists d, readN UintOptRle.readValue (length xs)
    (UintOptRle.newUintOptRLEDecoder
       (UintOptRle.bytes (fold_left UintOptRle.writeValue xs UintOptRle.newUintOptRLEEncoder)))
    = (Ok xs, d).
Proof. apply UintOptRle.uint_encode_decode. Qed.

Lemma uint_column_roundtrip_witness :
  exists d, readN UintOptRle.readValue 5
    (UintOptRle.newUintOptRLEDecoder
       (UintOptRle.bytes (fold_left UintOptRle.writeValue [0; 0; 0; 18446744073709551615; 1]
          UintOptRle.newUintOptRLEEncoder))) = (Ok [0; 0; 0; 18446744073709551615; 1], d).
Proof.
  apply (uint_column_roundtrip [0; 0; 0; 18446744073709551615; 1]).
  - repeat (constructor; [lia|]). constructor.
  - vm_compute. discriminate.
Defined.

(** A column of clocks written through [intDiffOptRLEEncoder.writeValue]
    never fails within the range the format supports and is read back value by
    value. *)
Theorem int_diff_column_roundtrip (xs : list Z) :
  Forall (fun x => - 2 ^ 60 <= x <= 2 ^ 60) xs -> Z.of_nat (length xs) <= maxRleRunCount ->
  exists bs d, IntDiffOptRle.encode xs = Ok bs /\
    readN IntDiffOptRle.readValue (length xs) (IntDiffOptRle.newIntDiffOptRLEDecoder bs) = (Ok xs, d).
Proof. apply IntDiffOptRle.diff_encode_decode. Qed.

Lemma int_diff_column_roundtrip_witness :
  exists bs d, IntDiffOptRle.encode [5; 6; 7; 3; -2] = Ok bs /\
    readN IntDiffOptRle.readValue 5 (IntDiffOptRle.newIntDiffOptRLEDecoder bs) = (Ok [5; 6; 7; 3; -2], d).
Proof.
  apply (int_diff_column_roundtrip [5; 6; 7; 3; -2]).
  - repeat (constructor; [lia|]). constructor.
  - vm_compute. discriminate.
Defined.

(** On arbitrary bytes, a value that [intDiffOptRLEDecoder.readValue]
    returns is the exact sum of the previous value and the current diff, within
    int64: the accumulator never wraps. *)
Theorem int_diff_read_exact (d d' : IntDiffOptRle.intDiffOptRLEDecoder) (v : Z) :
  is_i64 (IntDiffOptRle.d_s d) -> is_i64 (IntDiffOptRle.d_diff d) ->
  IntDiffOptRle.readValue d = (Ok v, d') ->
  is_i64 v /\ IntDiffOptRle.d_s d' = v /\ v = IntDiffOptRle.d_s d + IntDiffOptRle.d_diff d' /\
  is_i64 (IntDiffOptRle.d_diff d').
Proof.
  intros Hs Hd.
  assert (Hadv : forall d1 d2, IntDiffOptRle.advance d1 = (Ok v, d2) ->
    IntDiffOptRle.d_s d1 = IntDiffOptRle.d_s d -> is_i64 (IntDiffOptRle.d_diff d1) ->
    is_i64 v /\ IntDiffOptRle.d_s d2 = v /\ v = IntDiffOptRle.d_s d + IntDiffOptRle.d_diff d2 /\
    is_i64 (IntDiffOptRle.d_diff d2)).
  { intros d1 d2 H Hs1 Hd1. unfold IntDiffOptRle.advance, maxInt, minInt in H.
    destruct (_ || _) eqn:E; [done|]. injection H as <- <-. simpl. rewrite Hs1 in *.
    apply orb_false_iff in E as [E1 E2]. unfold is_i64 in *.
    destruct (Z.ltb_spec 0 (IntDiffOptRle.d_diff d1)) as [Hp|Hp];
      destruct (Z.ltb_spec (IntDiffOptRle.d_diff d1) 0) as [Hn|Hn]; simpl in E1, E2; try lia;
      try (rewrite i64_small in E1 by (unfold is_i64; lia); apply Z.ltb_ge in E1);
      try (rewrite i64_small in E2 by (unfold is_i64; lia); apply Z.ltb_ge in E2);
      rewrite i64_small by (unfold is_i64; lia); lia. }
  unfold IntDiffOptRle.readValue. destruct (IntDiffOptRle.d_count d =? 0); [|by intros; eapply Hadv].
  destruct (readVarIntSigned _) as [[[mag neg]|e] buf] eqn:Er; [|done].
  apply readVarIntSigned_range in Er. unfold is_u64 in Er.
  unfold maxInt. destruct (Z.ltb_spec (2 ^ 63 - 1) mag); [done|].
  assert (Hdiff : is_i64 (Z.shiftr (if neg then - i64 mag else i64 mag) 1)).
  { rewrite i64_small by (unfold is_i64; lia). rewrite Z.shiftr_div_pow2 by lia.
    change (2 ^ 1) with 2. unfold is_i64. destruct neg; zdiv. }
  destruct (negb _).
  - destruct (binaryReadUvarint buf) as [[n|e] buf']; [|done]. destruct (_ <? n); [done|].
    intros H'. by eapply Hadv.
  - intros H'. by eapply Hadv.
Qed.

Lemma int_diff_read_exact_witness :
  is_i64 5 /\ 5 = 5 /\ 5 = 0 + 5 /\ is_i64 5.
Proof.
  refine (int_diff_read_exact (IntDiffOptRle.newIntDiffOptRLEDecoder [10])
    (IntDiffOptRle.mkDec [] 5 0 5) 5 _ _ _).
  - unfold is_i64. simpl. lia.
  - unfold is_i64. simpl. lia.
  - vm_compute. reflexivity.
Defined.

(** The full-state encoder's [writeTrusted] has the effect of
    [writeValue] whenever the pending diff is in the encodable range, so both
    produce the same column. *)
Theorem writeTrusted_agrees (e : IntDiffOptRle.intDiffOptRLEEncoder) (v : Z) :
  0 <= IntDiffOptRle.e_count e ->
  - IntDiffOptRle.maxIntDiffOptRleDiff <= IntDiffOptRle.e_diff e <= IntDiffOptRle.maxIntDiffOptRleDiff ->
  IntDiffOptRle.writeValue e v = Ok (IntDiffOptRle.writeTrusted e v).
Proof.
  intros Hc Hd. unfold IntDiffOptRle.writeValue, IntDiffOptRle.writeTrusted.
  destruct (_ && _); [done|]. unfold IntDiffOptRle.flush.
  destruct (Z.ltb_spec 0 (IntDiffOptRle.e_count e)).
  - destruct (Z.eqb_spec (IntDiffOptRle.e_count e) 0); [lia|].
    destruct (Z.ltb_spec IntDiffOptRle.maxIntDiffOptRleDiff (IntDiffOptRle.e_diff e)); [lia|].
    destruct (Z.ltb_spec (IntDiffOptRle.e_diff e) (- IntDiffOptRle.maxIntDiffOptRleDiff)); [lia|].
    cbn [orb IntDiffOptRle.e_buf]. unfold IntDiffOptRle.append_run.
    destruct (IntDiffOptRle.e_count e =? 1); cbn [negb]; [|done].
    rewrite Z.add_0_r, (i64_small (i64 _)) by apply i64_range. done.
  - destruct (Z.eqb_spec (IntDiffOptRle.e_count e) 0); [done|lia].
Qed.

Lemma writeTrusted_agrees_witness :
  IntDiffOptRle.writeValue (IntDiffOptRle.mkEnc [1] 4 3 2) 9
  = Ok (IntDiffOptRle.writeTrusted (IntDiffOptRle.mkEnc [1] 4 3 2) 9).
Proof.
  apply (writeTrusted_agrees (IntDiffOptRle.mkEnc [1] 4 3 2) 9); vm_compute; [discriminate|].
  split; discriminate.
Defined.
