(* ===== verification/Object.v ===== *)
(** * Insertion-ordered objects

    Models [Object] of [crdt/type_define.go], the Go analogue of a JS plain
    object: up to two entries inline, more in a key slice with a map. The
    model keeps both representations and the promotion between them; the
    specification is the insertion-ordered association list [entriesOf], and
    every operation is proved against it. An [Object] is the pointer of the
    code with [None] for the zero value ([IsNil]); sharing of one backing store
    between several handles is not modelled, an operation returns the store
    after it. *)
From S2P Require Import Prelude.

Section Object.
Context {V : Type} (nil : V).

Record objectLargeData := mkLarge { keys : list gostring; m : gmap gostring V }.

(** The inline arrays have two slots; a free slot holds [] and nil. *)
Record objectData := mkData {
  smallKeys : list gostring;
  smallValues : list V;
  smallLen : nat;
  large : option objectLargeData;
}.

Definition Object : Type := option objectData.

Definition emptyData : objectData := mkData [[]; []] [nil; nil] 0 None.
Definition newObject : Object := Some emptyData.

Definition newObjectWithCapacity (capacity : Z) : Object :=
  if capacity <=? 2 then newObject
  else Some (mkData [[]; []] [nil; nil] 0 (Some (mkLarge [] ∅))).

(** The index of [key] among the first [n] inline slots. *)
Fixpoint smallIndex (ks : list gostring) (n : nat) (key : gostring) : option nat :=
  match ks, n with
  | k :: ks', S n' => if decide (k = key) then Some O else S <$> smallIndex ks' n' key
  | _, _ => None
  end.

(** The promotion of [Set]: the inline entries move to the slice and the map
    in insertion order, then the new key. *)
Definition promote (d : objectData) (key : gostring) (value : V) : objectData :=
  let ks := take (smallLen d) (smallKeys d) in
  let mm := fold_left (fun mm '(k, v) => <[k := v]> mm) (zip ks (take (smallLen d) (smallValues d))) ∅ in
  mkData [[]; []] [nil; nil] 0 (Some (mkLarge (ks ++ [key]) (<[key := value]> mm))).

Definition setData (d : objectData) (key : gostring) (value : V) : objectData :=
  match large d with
  | None =>
      match smallIndex (smallKeys d) (smallLen d) key with
      | Some i => mkData (smallKeys d) (<[i := value]> (smallValues d)) (smallLen d) None
      | None =>
          if (smallLen d <? 2)%nat then
            mkData (<[smallLen d := key]> (smallKeys d)) (<[smallLen d := value]> (smallValues d)) (S (smallLen d)) None
          else promote d key value
      end
  | Some l =>
      let ks := match m l !! key with Some _ => keys l | None => keys l ++ [key] end in
      mkData (smallKeys d) (smallValues d) (smallLen d) (Some (mkLarge ks (<[key := value]> (m l))))
  end.

Definition Set_ (o : Object) (key : gostring) (value : V) : Object :=
  Some (setData (default emptyData o) key value).

Definition appendNew (o : Object) (key : gostring) (value : V) : Object :=
  let d := default emptyData o in
  match large d with
  | None =>
      if (smallLen d <? 2)%nat then
        Some (mkData (<[smallLen d := key]> (smallKeys d)) (<[smallLen d := value]> (smallValues d)) (S (smallLen d)) None)
      else Set_ o key value
  | Some l => Some (mkData (smallKeys d) (smallValues d) (smallLen d)
                (Some (mkLarge (keys l ++ [key]) (<[key := value]> (m l)))))
  end.

(** [Get]: the value and its presence. *)
Definition Get (o : Object) (key : gostring) : option V :=
  match o with
  | None => None
  | Some d =>
      match large d with
      | None => i ← smallIndex (smallKeys d) (smallLen d) key; smallValues d !! i
      | Some l => m l !! key
      end
  end.

Definition GetOr (o : Object) (key : gostring) : V :=
  match o with
  | None => nil
  | Some d =>
      match large d with
      | None => default nil (i ← smallIndex (smallKeys d) (smallLen d) key; smallValues d !! i)
      | Some l => default nil (m l !! key)
      end
  end.

Definition Has (o : Object) (key : gostring) : bool :=
  match o with
  | None => false
  | Some d =>
      match large d with
      | None => bool_decide (is_Some (smallIndex (smallKeys d) (smallLen d) key))
      | Some l => bool_decide (is_Some (m l !! key))
      end
  end.

(** Shifting the inline slots behind [i] down by one, up to [last]. *)
Definition shift {A} (free : A) (l : list A) (i last : nat) : list A :=
  <[last := free]> (take i l ++ take (last - i) (drop (S i) l) ++ drop last l).

(** The first occurrence of [key] is cut out of the slice. *)
Fixpoint removeKey (ks : list gostring) (key : gostring) : list gostring :=
  match ks with
  | [] => []
  | k :: ks' => if decide (k = key) then ks' else k :: removeKey ks' key
  end.

Definition deleteData (d : objectData) (key : gostring) : objectData :=
  match large d with
  | None =>
      match smallIndex (smallKeys d) (smallLen d) key with
      | Some i =>
          let last := (smallLen d - 1)%nat in
          mkData (shift [] (smallKeys d) i last) (shift nil (smallValues d) i last) last None
      | None => d
      end
  | Some l =>
      match m l !! key with
      | None => d
      | Some _ => mkData (smallKeys d) (smallValues d) (smallLen d)
                    (Some (mkLarge (removeKey (keys l) key) (delete key (m l))))
      end
  end.

Definition Delete (o : Object) (key : gostring) : Object := (fun d => deleteData d key) <$> o.

Definition Len (o : Object) : Z :=
  match o with
  | None => 0
  | Some d => match large d with None => Z.of_nat (smallLen d) | Some l => Z.of_nat (size (m l)) end
  end.

Definition IsNil (o : Object) : bool := match o with None => true | Some _ => false end.

Definition Keys (o : Object) : list gostring :=
  match o with
  | None => []
  | Some d => match large d with None => take (smallLen d) (smallKeys d) | Some l => keys l end
  end.

(** The pairs that [Range] visits, in order. *)
Definition Range (o : Object) : list (gostring * V) :=
  match o with
  | None => []
  | Some d =>
      match large d with
      | None => zip (take (smallLen d) (smallKeys d)) (take (smallLen d) (smallValues d))
      | Some l => (fun k => (k, default nil (m l !! k))) <$> keys l
      end
  end.

Definition ShallowClone (o : Object) : Object :=
  match o with
  | None => None
  | Some d =>
      match large d with
      | None => Some (mkData (smallKeys d) (smallValues d) (smallLen d) None)
      | Some l => Some (mkData [[]; []] [nil; nil] 0 (Some (mkLarge (keys l) (m l))))
      end
  end.

Definition MakeObject (kv : list (gostring * V)) : Object :=
  fold_left (fun o '(k, v) => Set_ o k v) kv newObject.

(** ** Specification: association lists in insertion order *)
Fixpoint aset (l : list (gostring * V)) (key : gostring) (value : V) : list (gostring * V) :=
  match l with
  | [] => [(key, value)]
  | (k, v) :: l' => if decide (k = key) then (k, value) :: l' else (k, v) :: aset l' key value
  end.

Fixpoint aget (l : list (gostring * V)) (key : gostring) : option V :=
  match l with
  | [] => None
  | (k, v) :: l' => if decide (k = key) then Some v else aget l' key
  end.

Definition adel (l : list (gostring * V)) (key : gostring) : list (gostring * V) := filter (fun p => fst p <> key) l.

(** The representation invariant. *)
Definition wf (o : Object) : Prop :=
  match o with
  | None => True
  | Some d =>
      length (smallKeys d) = 2%nat /\ length (smallValues d) = 2%nat /\
      match large d with
      | None => (smallLen d <= 2)%nat /\ NoDup (take (smallLen d) (smallKeys d))
      | Some l => smallLen d = O /\ NoDup (keys l) /\ forall k, k ∈ keys l <-> is_Some (m l !! k)
      end
  end.


(** *** Lemmas on association lists *)
Lemma aget_None l key : aget l key = None <-> key ∉ l.*1.
Proof.
  induction l as [|[k v] l IH]; simpl; [split; [set_solver|done]|].
  case_decide as Hk; [subst; split; [done|set_solver]|]. rewrite IH. set_solver.
Qed.

Lemma aset_new l key value : key ∉ l.*1 -> aset l key value = l ++ [(key, value)].
Proof.
  induction l as [|[k v] l IH]; simpl; [done|]. intros Hn. rewrite decide_False by set_solver.
  rewrite IH by set_solver. done.
Qed.

Lemma aget_aset l key value k' : aget (aset l key value) k' = if decide (key = k') then Some value else aget l k'.
Proof.
  induction l as [|[k v] l IH]; simpl; [done|].
  destruct (decide (k = key)) as [->|Hk]; simpl; [by case_decide|].
  destruct (decide (k = k')) as [->|Hk']; [by rewrite decide_False by done|]. apply IH.
Qed.

Lemma aset_keys l key value : (aset l key value).*1 = if decide (key ∈ l.*1) then l.*1 else l.*1 ++ [key].
Proof.
  induction l as [|[k v] l IH]; [done|]. cbn [aset].
  destruct (decide (k = key)) as [->|Hk]; rewrite !fmap_cons; cbn [fst].
  - by rewrite decide_True by set_solver.
  - rewrite IH. destruct (decide (key ∈ l.*1)).
    + by rewrite decide_True by set_solver.
    + by rewrite decide_False by set_solver.
Qed.

(** The entries of a large object as a function of its keys. *)
Lemma range_get (mm : gmap gostring V) ks key :
  (forall k, k ∈ ks -> is_Some (mm !! k)) ->
  aget ((fun k => (k, default nil (mm !! k))) <$> ks) key = if decide (key ∈ ks) then mm !! key else None.
Proof.
  intros Hks. induction ks as [|k ks IH]; [done|]. rewrite fmap_cons. simpl.
  destruct (decide (k = key)) as [->|Hk].
  - rewrite decide_True by by left. destruct (Hks key) as [v ->]; [by left|]. done.
  - rewrite IH by (intros; apply Hks; by right). destruct (decide (key ∈ ks)).
    + by rewrite decide_True by by right.
    + rewrite decide_False; [done|]. inversion 1; by simplify_eq.
Qed.

Lemma range_keys (mm : gmap gostring V) ks : ((fun k => (k, default nil (mm !! k))) <$> ks).*1 = ks.
Proof. rewrite <- list_fmap_compose. apply list_fmap_id. Qed.

Lemma range_insert (mm : gmap gostring V) ks key value :
  NoDup ks ->
  (fun k => (k, default nil (<[key := value]> mm !! k))) <$> ks =
  if decide (key ∈ ks) then aset ((fun k => (k, default nil (mm !! k))) <$> ks) key value
  else (fun k => (k, default nil (mm !! k))) <$> ks.
Proof.
  intros Hnd. induction Hnd as [|k ks Hk Hnd IH]; [done|]. rewrite !fmap_cons, IH. cbn [aset].
  destruct (decide (k = key)) as [->|Hne].
  - rewrite lookup_insert_eq, (decide_True (P := key ∈ key :: ks)) by by left.
    by rewrite decide_False by done.
  - rewrite lookup_insert_ne by done. destruct (decide (key ∈ ks)).
    + by rewrite decide_True by by right.
    + rewrite decide_False; [done|]. inversion 1; by simplify_eq.
Qed.

Lemma filter_all {A} (P : A -> Prop) `{forall x, Decision (P x)} l : Forall P l -> filter P l = l.
Proof. induction 1 as [|x l Hx Hl IH]; [done|]. by rewrite filter_cons, decide_True, IH. Qed.

Lemma removeKey_filter ks key : NoDup ks -> removeKey ks key = filter (fun k => k <> key) ks.
Proof.
  induction 1 as [|k ks Hk Hnd IH]; simpl; [done|]. rewrite filter_cons. destruct (decide (k = key)) as [->|Hne].
  - rewrite decide_False by (intros ?; done). clear IH Hnd. induction ks as [|k' ks IH']; [done|].
    rewrite filter_cons, decide_True by set_solver. f_equal. apply IH'. set_solver.
  - by rewrite decide_True, IH.
Qed.

Lemma range_delete (mm : gmap gostring V) ks key :
  (fun k => (k, default nil (delete key mm !! k))) <$> (filter (fun k => k <> key) ks) =
  adel ((fun k => (k, default nil (mm !! k))) <$> ks) key.
Proof.
  unfold adel. induction ks as [|k ks IH]; [done|]. rewrite fmap_cons, !filter_cons. simpl.
  destruct (decide (k = key)) as [->|Hne]; simpl.
  - by rewrite !decide_False by (intros ?; done).
  - rewrite !decide_True by done. rewrite fmap_cons, IH. by rewrite lookup_delete_ne by done.
Qed.

(** *** The operations against the specification *)

(** A small object has one of three shapes. *)
Lemma small_shapes d :
  length (smallKeys d) = 2%nat -> length (smallValues d) = 2%nat -> large d = None -> (smallLen d <= 2)%nat ->
  exists k0 k1 v0 v1 n, d = mkData [k0; k1] [v0; v1] n None /\ (n = 0 \/ n = 1 \/ n = 2)%nat.
Proof.
  destruct d as [ks vs n lg]. simpl. intros Hk Hv -> Hn.
  destruct ks as [|k0 [|k1 [|? ?]]]; simpl in Hk; try lia.
  destruct vs as [|v0 [|v1 [|? ?]]]; simpl in Hv; try lia.
  exists k0, k1, v0, v1, n. split; [done|lia].
Qed.

(** Evaluating a small object: every comparison of keys is decided. *)
Ltac small :=
  repeat (simpl in *; match goal with
    | |- context [decide (?a = ?b)] => destruct (decide (a = b)); subst
    | H : context [decide (?a = ?b)] |- _ => destruct (decide (a = b)); subst
    end); simpl in *; try done.

Lemma NoDup2 (a b : gostring) : NoDup [a; b] -> a <> b.
Proof. intros H ->. apply list.NoDup_cons in H as [H _]. set_solver. Qed.

Lemma object_cases o : wf o ->
  o = None \/
  (exists k0 k1 v0 v1 n, o = Some (mkData [k0; k1] [v0; v1] n None) /\ (n = 0 \/ n = 1 \/ n = 2 /\ k0 <> k1)%nat) \/
  (exists ks vs l, o = Some (mkData ks vs 0 (Some l)) /\ length ks = 2%nat /\ length vs = 2%nat /\
     NoDup (keys l) /\ forall k, k ∈ keys l <-> is_Some (m l !! k)).
Proof.
  destruct o as [d|]; [|by left]. intros (Hk & Hv & Hw). right. destruct (large d) as [l|] eqn:Hl.
  - destruct Hw as (Hn & Hnd & Hm). right. destruct d as [ks vs n lg]. simpl in *. subst. by exists ks, vs, l.
  - destruct Hw as [Hn Hnd]. left. destruct (small_shapes d Hk Hv Hl Hn) as (k0 & k1 & v0 & v1 & n & -> & Hc).
    exists k0, k1, v0, v1, n. split; [done|]. simpl in Hnd. destruct Hc as [->|[-> | ->]]; [by auto..|].
    right. right. split; [done|]. by apply NoDup2.
Qed.

Lemma range_nodup o : wf o -> NoDup (Range o).*1 /\ Keys o = (Range o).*1.
Proof.
  intros [->|[(k0 & k1 & v0 & v1 & n & -> & Hn)|(ks & vs & l & -> & _ & _ & Hnd & Hm)]]%object_cases; simpl.
  - split; [constructor|done].
  - destruct Hn as [->|[->|[-> Hne]]]; simpl; (split; [|done]); [constructor|apply NoDup_singleton|].
    apply list.NoDup_cons. split; [set_solver|apply NoDup_singleton].
  - rewrite range_keys. done.
Qed.

Lemma get_range o key : wf o -> Get o key = aget (Range o) key.
Proof.
  intros [->|[(k0 & k1 & v0 & v1 & n & -> & Hn)|(ks & vs & l & -> & _ & _ & Hnd & Hm)]]%object_cases; simpl.
  - done.
  - destruct Hn as [->|[->|[-> Hne]]]; small.
  - rewrite range_get by (intros; by apply Hm). case_decide as Hin; [done|].
    apply eq_None_not_Some. by rewrite <- Hm.
Qed.

Lemma set_range o key value : wf o -> wf (Set_ o key value) /\ Range (Set_ o key value) = aset (Range o) key value.
Proof.
  intros [->|[(k0 & k1 & v0 & v1 & n & -> & Hn)|(ks & vs & l & -> & Hk & Hv & Hnd & Hm)]]%object_cases.
  - simpl. split_and!; try done; [lia|apply NoDup_singleton].
  - assert (H2 : forall a b : gostring, a <> b -> NoDup [a; b])
      by (intros a b Hab; apply list.NoDup_cons; split; [set_solver|apply NoDup_singleton]).
    destruct Hn as [->|[->|[-> Hne]]]; unfold Set_, setData; simpl.
    + split_and!; try done; [lia|apply NoDup_singleton].
    + small; split_and!; try done; try lia; auto. apply NoDup_singleton.
    + destruct (decide (k0 = key)) as [->|H0]; simpl; [by split_and!; auto|].
      destruct (decide (k1 = key)) as [->|H1]; simpl; [by split_and!; auto|]. split.
      * split_and!; try done.
        -- apply list.NoDup_cons. split; [set_solver|]. auto.
        -- intros k. rewrite !elem_of_cons, !lookup_insert_is_Some, lookup_empty. split.
           ++ intros [->|[->|[->|?]]]; [| |by left|set_solver];
                right; (split; [done|]); [right; split; [done|]; by left|by left].
           ++ intros [<-|[_ [<-|[_ [<-|[_ [? ?]]]]]]]; auto. done.
      * rewrite lookup_insert_ne, lookup_insert_ne, lookup_insert_eq by done.
        rewrite lookup_insert_ne, lookup_insert_eq by done. by rewrite lookup_insert_eq.
  - unfold Set_, setData. simpl. destruct (m l !! key) as [v|] eqn:Hl; simpl.
    + assert (Hin : key ∈ keys l) by (apply Hm; by eexists).
      split.
      * split_and!; try done. intros k. rewrite Hm, lookup_insert_is_Some. split; [|intros [<-|[_ ?]]; eauto].
        intros Hs. destruct (decide (key = k)); auto.
      * by rewrite range_insert, decide_True.
    + assert (Hin : key ∉ keys l) by (rewrite Hm, Hl; by intros [? ?]).
      split.
      * split_and!; try done; [apply list.NoDup_app; split_and!; try done; [set_solver|apply NoDup_singleton]|].
        intros k. rewrite elem_of_app, list_elem_of_singleton, Hm, lookup_insert_is_Some.
        destruct (decide (key = k)) as [->|?]; naive_solver.
      * rewrite fmap_app, range_insert, decide_False by done. simpl. rewrite lookup_insert_eq. simpl.
        rewrite aset_new; [done|]. by rewrite range_keys.
Qed.

Lemma appendNew_range o key value :
  wf o -> key ∉ Keys o -> wf (appendNew o key value) /\ Range (appendNew o key value) = Range o ++ [(key, value)].
Proof.
  intros Hw Hnew. assert (Hs : appendNew o key value = Set_ o key value).
  { pose proof Hw as Hc. apply object_cases in Hc.
    destruct Hc as [->|[(k0 & k1 & v0 & v1 & n & -> & Hn)|(ks & vs & l & -> & _ & _ & Hnd & Hm)]]; [done| |].
    - destruct Hn as [->|[->|[-> Hne]]]; [done| |done]. unfold appendNew, Set_, setData. simpl in *.
      by rewrite decide_False by set_solver.
    - unfold appendNew, Set_, setData. simpl in *. destruct (m l !! key) eqn:E; [|done].
      exfalso. apply Hnew, Hm. by eexists. }
  rewrite Hs. destruct (set_range o key value Hw) as [H1 ->]. split; [done|]. apply aset_new.
  destruct (range_nodup o Hw) as [_ <-]. done.
Qed.

Lemma delete_range o key : wf o -> wf (Delete o key) /\ Range (Delete o key) = adel (Range o) key.
Proof.
  intros [->|[(k0 & k1 & v0 & v1 & n & -> & Hn)|(ks & vs & l & -> & Hk & Hv & Hnd & Hm)]]%object_cases.
  - done.
  - unfold Delete, deleteData, adel. simpl. destruct Hn as [->|[->|[-> Hne]]]; simpl.
    + split_and!; try done; [lia|constructor].
    + rewrite filter_cons, filter_nil. simpl. destruct (decide (k0 = key)) as [->|H0]; simpl.
      * rewrite decide_False by (intros ?; done). split_and!; try done; [lia|constructor].
      * rewrite decide_True by done. split_and!; try done; [lia|apply NoDup_singleton].
    + rewrite !filter_cons, filter_nil. simpl. destruct (decide (k0 = key)) as [->|H0]; simpl.
      * rewrite (decide_False (P := key <> key)) by (intros ?; done). rewrite decide_True by done.
        split_and!; try done; [lia|apply NoDup_singleton].
      * rewrite (decide_True (P := k0 <> key)) by done. destruct (decide (k1 = key)) as [->|H1]; simpl.
        -- rewrite decide_False by (intros ?; done). split_and!; try done; [lia|apply NoDup_singleton].
        -- rewrite decide_True by done. split_and!; try done.
           apply list.NoDup_cons. split; [set_solver|apply NoDup_singleton].
  - unfold Delete, deleteData. simpl. destruct (m l !! key) as [v|] eqn:Hl; simpl.
    + rewrite removeKey_filter by done. split; [|apply range_delete].
      split_and!; try done; [by apply list.NoDup_filter|]. intros k.
      rewrite list_elem_of_filter, Hm, lookup_delete_is_Some. naive_solver.
    + split; [by split_and!|]. rewrite <- range_delete. rewrite filter_all.
      * apply list_fmap_ext. intros i k Hi. rewrite lookup_delete_ne; [done|].
        intros <-. assert (is_Some (m l !! key)) as [? ?] by (apply Hm; by eapply list_elem_of_lookup_2). congruence.
      * apply list.Forall_forall. intros k Hin ->. apply Hm in Hin as [? ?]. congruence.
Qed.

Lemma len_range o : wf o -> Len o = Z.of_nat (length (Range o)).
Proof.
  intros [->|[(k0 & k1 & v0 & v1 & n & -> & Hn)|(ks & vs & l & -> & Hk & Hv & Hnd & Hm)]]%object_cases; simpl.
  - done.
  - by destruct Hn as [->|[->|[-> Hne]]].
  - rewrite length_fmap. f_equal. rewrite <- (size_dom (D := gset gostring)).
    assert (Hp : elements (dom (m l)) ≡ₚ keys l).
    { apply NoDup_Permutation; [apply NoDup_elements|done|]. intros k. rewrite elem_of_elements, elem_of_dom. by rewrite Hm. }
    unfold size, set_size. simpl. by rewrite Hp.
Qed.

End Object.

(** ** Histories of an object *)
Inductive object_op (V : Type) : Type :=
| OpSet (key : gostring) (value : V)
| OpDelete (key : gostring)
| OpShallowClone.
Arguments OpSet {V}.
Arguments OpDelete {V}.
Arguments OpShallowClone {V}.

Definition apply_op {V} (nil : V) (o : Object) (op : object_op V) : Object :=
  match op with
  | OpSet k v => Set_ nil o k v
  | OpDelete k => Delete nil o k
  | OpShallowClone => ShallowClone nil o
  end.

Definition spec_op {V} (l : list (gostring * V)) (op : object_op V) : list (gostring * V) :=
  match op with
  | OpSet k v => aset l k v
  | OpDelete k => adel l k
  | OpShallowClone => l
  end.

Lemma clone_range {V} (nil : V) (o : Object) :
  wf o -> wf (ShallowClone nil o) /\ Range nil (ShallowClone nil o) = Range nil o.
Proof.
  intros Hw. pose proof Hw as Hc. apply object_cases in Hc.
  destruct Hc as [->|[(k0 & k1 & v0 & v1 & n & -> & Hn)|(ks & vs & l & -> & Hk & Hv & Hnd & Hm)]]; try done.
Qed.

Lemma ops_range {V} (nil : V) ops : forall o l,
  wf o -> Range nil o = l ->
  wf (fold_left (apply_op nil) ops o) /\ Range nil (fold_left (apply_op nil) ops o) = fold_left spec_op ops l.
Proof.
  induction ops as [|op ops IH]; intros o l Hw Hl; [done|]. cbn [fold_left].
  apply IH; destruct op; simpl; subst l; by (apply set_range || apply delete_range || apply clone_range).
Qed.

(** A starting object: the zero value, [newObject()] or a sized one. *)
Definition fresh_object {V} (nil : V) (o : Object) : Prop :=
  o = None \/ o = newObject nil \/ exists capacity, o = newObjectWithCapacity nil capacity.

Lemma fresh_range {V} (nil : V) o : fresh_object nil o -> wf o /\ Range nil o = [].
Proof.
  assert (Hn : wf (newObject nil) /\ Range nil (newObject nil) = []) by (simpl; split_and!; try done; try lia; constructor).
  intros [->|[->|[c ->]]]; [done|done|]. unfold newObjectWithCapacity. case_match; [done|].
  simpl. split_and!; try done; [constructor|]. intros k. rewrite lookup_empty. split; [set_solver|by intros [? ?]].
Qed.

(** ** Properties *)

(** C40. [Object] is an insertion-ordered map in both of its representations:
    after any history of [Set], [Delete] and [ShallowClone] on a fresh object
    (inline, promoted or sized), iteration order, keys, lookups and length are
    those of the association list in which [Set] of a present key updates it
    in place, [Set] of a new key appends it, and [Delete] removes it. *)
Theorem object_refines_ordered_map {V : Type} (nil : V) (o : Object) (ops : list (object_op V)) :
  fresh_object nil o ->
  let o' := fold_left (apply_op nil) ops o in
  let l := fold_left spec_op ops [] in
  Range nil o' = l /\ Keys o' = l.*1 /\ NoDup (Keys o') /\ Len o' = Z.of_nat (length l) /\
  forall key, Get o' key = aget l key /\ GetOr nil o' key = default nil (aget l key) /\
    Has o' key = bool_decide (key ∈ l.*1).
Proof.
  intros Hf o' l. destruct (fresh_range nil o Hf) as [Hw Hr].
  destruct (ops_range nil ops o [] Hw Hr) as [Hw' Hr']. fold o' in Hw', Hr'. fold l in Hr'.
  destruct (range_nodup nil o' Hw') as [Hnd Hk]. rewrite Hr' in Hk, Hnd.
  split_and!; [done|done|by rewrite Hk|rewrite (len_range nil) by done; by rewrite Hr'|].
  intros key. assert (Hg : Get o' key = aget l key) by (rewrite <- Hr'; by apply get_range).
  assert (Hgo : GetOr nil o' key = default nil (Get o' key)) by (destruct o' as [d|]; [simpl; by destruct (large d)|done]).
  split_and!; [done|by rewrite Hgo, Hg|].
  assert (Hh : Has o' key = bool_decide (is_Some (Get o' key))).
  { destruct o' as [d|] eqn:Eo; [|done]. simpl. destruct (large d) as [lg|] eqn:El; [done|].
    apply bool_decide_ext. destruct (smallIndex (smallKeys d) (smallLen d) key) as [i|] eqn:Ei; simpl; [|done].
    split; [intros _|by eexists]. apply lookup_lt_is_Some. destruct Hw' as (Hlk & Hlv & _). rewrite Hlv, <- Hlk.
    clear -Ei. revert i Ei. generalize (smallLen d). induction (smallKeys d) as [|k ks IH]; intros n i; [by destruct n|].
    destruct n as [|n]; [done|]. simpl. case_decide; [intros [= <-]; lia|].
    destruct (smallIndex ks n key) as [j|] eqn:Ej; [|done]. intros [= <-]. specialize (IH _ _ Ej). lia. }
  rewrite Hh, Hg. apply bool_decide_ext. pose proof (aget_None l key) as Ha.
  destruct (aget l key); split; intros H; try (by eexists); try (by destruct H).
  - destruct (decide (key ∈ l.*1)) as [|Hn]; [done|]. by apply Ha in Hn.
  - by apply Ha in H.
Qed.

(** Three keys promote the object; deleting the second and setting it again
    moves it to the end. *)
Definition sample_ops : list (object_op Z) :=
  [OpSet [97] 1; OpSet [98] 2; OpSet [99] 3; OpSet [97] 4; OpDelete [98]; OpSet [98] 5].

Lemma object_refines_ordered_map_witness :
  Keys (fold_left (apply_op 0) sample_ops (newObject 0)) = [[97]; [99]; [98]] /\
  Get (fold_left (apply_op 0) sample_ops (newObject 0)) [97] = Some 4.
Proof.
  destruct (object_refines_ordered_map 0 (newObject 0) sample_ops) as (_ & Hk & _ & _ & Hg); [right; left; reflexivity|].
  split; [exact Hk|]. exact (proj1 (Hg [97])).
Defined.
