(* ===== verification/Any.v ===== *)
(** * Data values and their lib0 encoding

    Models the [any] codec of [crdt/encoding.go] and [crdt/decoding.go]: the
    tagged encoding of data values ([writeAny], [readAny]) with its nesting
    limit, and the choice between the three number formats ([writeAnyNumber]).
    A float is its bit pattern; the conversions between the widths round to
    nearest, ties to even, as Go's do. *)
From S2P Require Import Prelude Lib0 Object.

#[local] Set Warnings "-register-all".

(** ** Floating-point numbers *)

(** A finite float is [(-1)^s * m * 2^e]. *)
Inductive floatValue : Type :=
| Finite (s : bool) (m e : Z)
| Inf (s : bool)
| NaN.

(** The value of a bit pattern with [mw] mantissa bits and [ew] exponent bits. *)
Definition decodeFloat (mw ew bits : Z) : floatValue :=
  let mant := bits mod 2 ^ mw in
  let field := (bits / 2 ^ mw) mod 2 ^ ew in
  let s := negb ((bits / 2 ^ (mw + ew)) mod 2 =? 0) in
  let bias := 2 ^ (ew - 1) - 1 in
  if field =? 2 ^ ew - 1 then if mant =? 0 then Inf s else NaN
  else if field =? 0 then Finite s mant (1 - bias - mw)
  else Finite s (mant + 2 ^ mw) (field - bias - mw).

(** [m / 2^k] rounded to nearest, ties to even. *)
Definition roundShift (m k : Z) : Z :=
  let q := m / 2 ^ k in
  let r := m mod 2 ^ k in
  if (2 ^ k <? 2 * r) || ((2 * r =? 2 ^ k) && negb (q mod 2 =? 0)) then q + 1 else q.

(** The pattern of the float nearest to a value. A mantissa that rounds up to
    the next power of two carries into the exponent field. *)
Definition encodeFloat (mw ew : Z) (v : floatValue) : Z :=
  let sign (s : bool) := if s then 2 ^ (mw + ew) else 0 in
  let bias := 2 ^ (ew - 1) - 1 in
  let emin := 1 - bias - mw in
  match v with
  | NaN => (2 ^ ew - 1) * 2 ^ mw + 2 ^ (mw - 1)
  | Inf s => sign s + (2 ^ ew - 1) * 2 ^ mw
  | Finite s m e =>
      if m =? 0 then sign s
      else
        let k := Z.log2 m + e in
        if bias <? k then sign s + (2 ^ ew - 1) * 2 ^ mw
        else
          let u := Z.max (k - mw) emin in
          let q := if u <=? e then m * 2 ^ (e - u) else roundShift m (u - e) in
          sign s + ((u - emin) * 2 ^ mw + q)
  end.

(** [math.Float64frombits] with its inverse, and the same for float32. *)
Definition float64_value (bits : Z) : floatValue := decodeFloat 52 11 bits.
Definition float32_value (bits : Z) : floatValue := decodeFloat 23 8 bits.

(** [float64(v)] of an integer, [float32(f)] of a float64 and [float64(f)] of a
    float32. *)
Definition float64_of_int (v : Z) : Z := u64 (encodeFloat 52 11 (Finite (v <? 0) (Z.abs v) 0)).
Definition float32_of_float64 (f : Z) : Z := encodeFloat 23 8 (float64_value f) mod 2 ^ 32.
Definition float64_of_float32 (f : Z) : Z := u64 (encodeFloat 52 11 (float32_value f)).

(** The comparison of two values, [==] of floats. *)
Definition scaled (s : bool) (m e base : Z) : Z := (if s then -1 else 1) * m * 2 ^ (e - base).
Definition feq (a b : floatValue) : bool :=
  match a, b with
  | Finite s m e, Finite s' m' e' => let base := Z.min e e' in scaled s m e base =? scaled s' m' e' base
  | Inf s, Inf s' => Bool.eqb s s'
  | _, _ => false
  end.

(** [int(f)] of a finite float: truncation. *)
Definition truncate (v : floatValue) : Z :=
  match v with
  | Finite s m e => (if s then -1 else 1) * (if 0 <=? e then m * 2 ^ e else m / 2 ^ (- e))
  | _ => 0
  end.

(** [f == math.Trunc(f) && !math.IsInf(f, 0)]. *)
Definition isInteger (v : floatValue) : bool :=
  match v with
  | Finite s m e => if 0 <=? e then true else m mod 2 ^ (- e) =? 0
  | _ => false
  end.

(** ** Data values *)

(** The Go integer types that [writeAny] accepts, [int64] apart. *)
Inductive intKind : Type := Int8 | Int16 | Int32 | Number | Uint8 | Uint16 | Uint32.

(** The dynamic types of [writeAny]'s switch. [AOther] stands for any other
    value, [ANilPtr] for a nil pointer. An [Object] is its entries in insertion
    order (file [Object]). *)
Inductive any : Type :=
| ANil
| AUndefined
| ANull
| ANilPtr
| AString (s : gostring)
| AInt (k : intKind) (n : Z)
| ABigInt (n : Z)
| AFloat32 (bits : Z)
| AFloat64 (bits : Z)
| ABool (b : bool)
| ABytes (bs : list Z)
| AArray (l : list any)
| AObject (l : list (gostring * any))
| AOther.

Definition isUndefined (v : any) : bool := match v with ANil | AUndefined => true | _ => false end.
Definition isNull (v : any) : bool := match v with ANull | ANilPtr => true | _ => false end.

(** ** Writing *)
Definition writeByte (encoder : list Z) (number : Z) : list Z := encoder ++ [number].

Definition bits31 : Z := 2147483647.

Definition writeFloat32 (encoder : list Z) (f : Z) : list Z := encoder ++ be_put 4 f.
Definition writeFloat64 (encoder : list Z) (f : Z) : list Z := encoder ++ be_put 8 f.

Definition isFloat32 (f : Z) : bool :=
  feq (float64_value (float64_of_float32 (float32_of_float64 f))) (float64_value f).

(** [f >= -float64(bits31) && f <= float64(bits31)] of an integral [f]. *)
Definition inBits31 (v : floatValue) : bool := (- bits31 <=? truncate v) && (truncate v <=? bits31).

Definition writeAnyNumber (encoder : list Z) (f : Z) : list Z :=
  let v := float64_value f in
  if isInteger v && inBits31 v then writeVarInt (writeByte encoder 125) (truncate v)
  else if isFloat32 f then writeFloat32 (writeByte encoder 124) (float32_of_float64 f)
  else writeFloat64 (writeByte encoder 123) f.

(** [writeArray] and [writeObject], with [writeAny] for their elements. *)
Definition writeArray (writeAny : list Z -> any -> list Z) (encoder : list Z) (l : list any) : list Z :=
  fold_left writeAny l (WriteVarUint encoder (Z.of_nat (length l))).
Definition writeObject (writeAny : list Z -> any -> list Z) (encoder : list Z) (l : list (gostring * any)) : list Z :=
  fold_left (fun encoder '(key, value) => writeAny (WriteString encoder key) value) l
    (WriteVarUint encoder (Z.of_nat (length l))).

Fixpoint writeAny (encoder : list Z) (value : any) {struct value} : list Z :=
  match value with
  | ANil | AUndefined => writeByte encoder 127
  | ANull | ANilPtr => writeByte encoder 126
  | AString s => WriteString (writeByte encoder 119) s
  | AInt _ n => writeAnyNumber encoder (float64_of_int n)
  | ABigInt n => writeInt64 (writeByte encoder 122) n
  | AFloat32 f => writeAnyNumber encoder (float64_of_float32 f)
  | AFloat64 f => writeAnyNumber encoder f
  | ABool b => writeByte encoder (if b then 120 else 121)
  | ABytes bs => WriteVarUint8Array (writeByte encoder 116) bs
  | AArray l => writeArray writeAny (writeByte encoder 117) l
  | AObject l => writeObject writeAny (writeByte encoder 118) l
  | AOther => writeByte encoder 127
  end.

(** ** Reading *)
Definition maxAnyDepth : nat := 100.

Definition readFloat32 : reader any := bs <-- readFixedWidth 4;;; rret (AFloat32 (be_get bs)).
Definition readFloat64 : reader any := bs <-- readFixedWidth 8;;; rret (AFloat64 (be_get bs)).

(** The entries of [readAnyLookupTable], by tag; [None] is an index out of the
    table. Objects and arrays are dispatched before the table. *)
Definition readAnyLookupTable (tag : Z) : option (reader any) :=
  if tag =? 127 then Some (rret AUndefined)
  else if tag =? 126 then Some (rret ANull)
  else if tag =? 125 then Some (n <-- readVarInt;;; rret (AInt Number n))
  else if tag =? 124 then Some readFloat32
  else if tag =? 123 then Some readFloat64
  else if tag =? 122 then Some (n <-- readBigInt64;;; rret (ABigInt n))
  else if tag =? 121 then Some (rret (ABool false))
  else if tag =? 120 then Some (rret (ABool true))
  else if tag =? 119 then Some (s <-- readVarString;;; rret (AString s))
  else if tag =? 116 then Some (bs <-- ReadVarUint8Array;;; rret (ABytes bs))
  else None.

(** One key with its value. *)
Definition readEntry (readValue : reader any) : reader (gostring * any) :=
  key <-- readVarString;;; value <-- readValue;;; rret (key, value).

(** [obj.Set] of every entry, in the order read. *)
Definition setEntries (l : list (gostring * any)) : list (gostring * any) :=
  fold_left (fun obj '(key, value) => aset obj key value) l [].

(** [readObjectDepth] and [readArrayDepth], with the reader of the values at the
    next depth. *)
Definition readObjectDepth (readValue : reader any) : reader any :=
  size <-- binaryReadUvarint;;;
  l <-- rtimes (Z.to_nat size) (readEntry readValue);;;
  rret (AObject (setEntries l)).

Definition readArrayDepth (readValue : reader any) : reader any :=
  size <-- binaryReadUvarint;;;
  if size =? 0 then rret (AArray [])
  else fun buf =>
    if boundExceeded size (Z.of_nat (length buf)) 1 then (Err ErrBound, buf)
    else (l <-- rtimes (Z.to_nat size) readValue;;; rret (AArray l)) buf.

(** [depth] counts down from [maxAnyDepth + 1]: [O] is a depth above the
    limit. *)
Fixpoint readAnyDepth (depth : nat) : reader any :=
  match depth with
  | O => rfail ErrDepth
  | S depth' =>
      tag <-- readByte;;;
      if 12 <=? u8 (127 - tag) then rfail ErrTag
      else if tag =? 118 then readObjectDepth (readAnyDepth depth')
      else if tag =? 117 then readArrayDepth (readAnyDepth depth')
      else match readAnyLookupTable tag with Some rd => rd | None => rfail ErrPanic end
  end.

Definition readAny : reader any := readAnyDepth (S maxAnyDepth).

(** ** Theory *)

(** The induction principle of the nested type. *)
Definition is_leaf (v : any) : bool := match v with AArray _ | AObject _ => false | _ => true end.

Section AnyInd.
Context (P : any -> Prop) (Hleaf : forall v, is_leaf v = true -> P v)
  (Harray : forall l, Forall P l -> P (AArray l)) (Hobject : forall l, Forall (fun e => P e.2) l -> P (AObject l)).

Fixpoint any_nested_ind (v : any) : P v :=
  match v with
  | AArray l => Harray l ((fix go l : Forall P l :=
      match l with [] => List.Forall_nil _ | x :: l' => List.Forall_cons _ _ _ (any_nested_ind x) (go l') end) l)
  | AObject l => Hobject l ((fix go l : Forall (fun e => P e.2) l :=
      match l with [] => List.Forall_nil _ | (k, x) :: l' => List.Forall_cons _ (k, x) _ (any_nested_ind x) (go l') end) l)
  | v => Hleaf v eq_refl
  end.
End AnyInd.

(** What a number is read back as. *)
Definition numberForm (f : Z) : any :=
  let v := float64_value f in
  if isInteger v && inBits31 v then AInt Number (truncate v)
  else if isFloat32 f then AFloat32 (float32_of_float64 f)
  else AFloat64 f.

(** What a value is read back as. *)
Fixpoint readBack (v : any) : any :=
  match v with
  | ANil | AUndefined | AOther => AUndefined
  | ANull | ANilPtr => ANull
  | AInt _ n => numberForm (float64_of_int n)
  | AFloat32 f => numberForm (float64_of_float32 f)
  | AFloat64 f => numberForm f
  | AArray l => AArray (map readBack l)
  | AObject l => AObject (map (fun e => (e.1, readBack e.2)) l)
  | v => v
  end.

(** The levels of nesting of a value. *)
Fixpoint height (v : any) : nat :=
  match v with
  | AArray l => S (fold_right (fun x n => Nat.max (height x) n) O l)
  | AObject l => S (fold_right (fun e n => Nat.max (height e.2) n) O l)
  | _ => 1
  end.

(** Values as Go has them: the bit patterns and integers have their width, the
    keys of an object are distinct, and no length exceeds a uint64. *)
Fixpoint any_ok (v : any) : Prop :=
  match v with
  | AString s => Z.of_nat (length s) < 2 ^ 64
  | ABytes bs => Z.of_nat (length bs) < 2 ^ 64
  | ABigInt n => is_i64 n
  | AFloat64 f => is_u64 f
  | AArray l => Z.of_nat (length l) < 2 ^ 64 /\ fold_right (fun x Q => any_ok x /\ Q) True l
  | AObject l => Z.of_nat (length l) < 2 ^ 64 /\ NoDup l.*1 /\
      fold_right (fun e Q => (Z.of_nat (length e.1) < 2 ^ 64 /\ any_ok e.2) /\ Q) True l
  | _ => True
  end.

Lemma fold_right_Forall {A} (Q : A -> Prop) l : fold_right (fun x R => Q x /\ R) True l <-> Forall Q l.
Proof. induction l; simpl; [done|]. by rewrite list.Forall_cons, IHl. Qed.

Lemma fold_right_max {A} (h : A -> nat) l n : (fold_right (fun x m => Nat.max (h x) m) O l <= n)%nat <-> Forall (fun x => (h x <= n)%nat) l.
Proof. induction l; simpl; [split; [done|lia]|]. rewrite list.Forall_cons, <- IHl. lia. Qed.

(** *** Every write appends *)
Lemma fold_append {A} (w : list Z -> A -> list Z) l e : Forall (fun x => forall e, w e x = e ++ w [] x) l ->
  fold_left w l e = e ++ mjoin (w [] <$> l).
Proof.
  intros H. revert e. induction H as [|x l Hx _ IH]; intros e; simpl; [by rewrite app_nil_r|].
  rewrite IH, Hx. by rewrite <- (assoc_L (++)).
Qed.

Lemma inBits31_range v : inBits31 v = true -> minInt < truncate v <= maxInt.
Proof. unfold inBits31, bits31, minInt, maxInt. lia. Qed.

Lemma writeAnyNumber_app e f : writeAnyNumber e f = e ++ writeAnyNumber [] f.
Proof.
  unfold writeAnyNumber, writeFloat32, writeFloat64, writeByte.
  destruct (isInteger _ && inBits31 _) eqn:Hi; [|by destruct (isFloat32 f); simpl; rewrite <- (assoc_L (++))].
  apply andb_prop in Hi as [_ Hb]. apply inBits31_range in Hb.
  rewrite !writeVarInt_bytes by lia. by rewrite <- (assoc_L (++)).
Qed.

Lemma writeAny_app v : forall e, writeAny e v = e ++ writeAny [] v.
Proof.
  induction v as [v Hv|l IH|l IH] using any_nested_ind.
  - destruct v; try done; intros e; simpl; unfold writeByte, writeInt64; simpl.
    + rewrite WriteString_app, (WriteString_app [119]). by rewrite <- (assoc_L (++)).
    + apply writeAnyNumber_app.
    + by rewrite <- (assoc_L (++)).
    + apply writeAnyNumber_app.
    + apply writeAnyNumber_app.
    + rewrite WriteVarUint8Array_app, (WriteVarUint8Array_app [116]). by rewrite <- (assoc_L (++)).
  - intros e. simpl. unfold writeArray, writeByte. rewrite (fold_append _ _ _ IH), (fold_append _ _ (WriteVarUint ([] ++ _) _) IH).
    rewrite WriteVarUint_app, (WriteVarUint_app ([] ++ _)) by lia. by rewrite <- !(assoc_L (++)).
  - intros e. simpl. unfold writeObject, writeByte.
    assert (IH' : Forall (fun x => forall e, (fun encoder '(key, value) => writeAny (WriteString encoder key) value) e x
              = e ++ (fun encoder '(key, value) => writeAny (WriteString encoder key) value) [] x) l).
    { eapply Forall_impl; [|exact IH]. intros [k x] Hx e'. simpl in *. rewrite (Hx (WriteString e' k)), (Hx (WriteString [] k)), (WriteString_app e').
      by rewrite <- (assoc_L (++)). }
    rewrite (fold_append _ _ _ IH'), (fold_append _ _ (WriteVarUint ([] ++ _) _) IH').
    rewrite WriteVarUint_app, (WriteVarUint_app ([] ++ _)) by lia. by rewrite <- !(assoc_L (++)).
Qed.

(** *** Reading back *)
Lemma readVarString_roundtrip value rest : Z.of_nat (length value) < 2 ^ 64 -> readVarString (WriteString [] value ++ rest) = (Ok value, rest).
Proof. exact (string_roundtrip value rest). Qed.

Lemma fixed_roundtrip n v rest : 0 <= v < 2 ^ (8 * Z.of_nat n) ->
  readFixedWidth n (be_put n v ++ rest) = (Ok (be_put n v), rest) /\ be_get (be_put n v) = v.
Proof.
  intros. split; [apply readFixedWidth_app, length_be_put|]. rewrite be_get_put by lia. by apply Z.mod_small.
Qed.

Lemma varInt_roundtrip n rest : minInt < n <= maxInt -> readVarInt (writeVarInt [] n ++ rest) = (Ok n, rest).
Proof. intros Hn. rewrite readVarInt_roundtrip by lia. by destruct (Z.eqb_spec n minInt); [lia|]. Qed.

(** The reader behind a tag. *)
Lemma read_tag d tag rd buf : (12 <=? u8 (127 - tag)) = false -> (tag =? 118) = false -> (tag =? 117) = false ->
  readAnyLookupTable tag = Some rd -> readAnyDepth (S d) (tag :: buf) = rd buf.
Proof. intros H1 H2 H3 H4. cbn [readAnyDepth]. unfold rbind at 1, readByte. by rewrite H1, H2, H3, H4. Qed.

Lemma read_number d f rest : is_u64 f -> readAnyDepth (S d) (writeAnyNumber [] f ++ rest) = (Ok (numberForm f), rest).
Proof.
  intros Hf. unfold writeAnyNumber, numberForm, writeByte, writeFloat32, writeFloat64.
  destruct (isInteger _ && inBits31 _) eqn:Hi; [|destruct (isFloat32 f)].
  - apply andb_prop in Hi as [_ Hb]. apply inBits31_range in Hb. rewrite writeVarInt_bytes by lia. cbn [app].
    erewrite read_tag by reflexivity. erewrite rbind_ok; [done|].
    rewrite <- (app_nil_l (varint_bytes _ _)), <- writeVarInt_bytes by lia. by apply varInt_roundtrip.
  - cbn [app]. erewrite read_tag by reflexivity. unfold readFloat32, rbind.
    destruct (fixed_roundtrip 4 (float32_of_float64 f) rest) as [-> E]; [apply Z.mod_pos_bound; lia|]. by rewrite E.
  - cbn [app]. erewrite read_tag by reflexivity. unfold readFloat64, rbind.
    destruct (fixed_roundtrip 8 f rest) as [-> E]; [done|]. by rewrite E.
Qed.

Lemma rtimes_map {A} (rd : reader A) {B} (w : B -> list Z) (g : B -> A) l rest :
  Forall (fun x => forall rest, rd (w x ++ rest) = (Ok (g x), rest)) l ->
  rtimes (length l) rd (mjoin (w <$> l) ++ rest) = (Ok (map g l), rest).
Proof.
  induction 1 as [|x l Hx _ IH]; [done|]. rewrite fmap_cons, mjoin_cons, <- (assoc_L (++)).
  cbn [length map]. eapply rtimes_cons; [apply Hx|exact IH].
Qed.

Lemma setEntries_NoDup l : NoDup l.*1 -> setEntries l = l.
Proof.
  unfold setEntries. intros H. enough (E : forall acc, NoDup (acc ++ l).*1 -> fold_left (fun obj '(key, value) => aset obj key value) l acc = acc ++ l) by (by apply E).
  clear H. induction l as [|[k v] l IH]; intros acc Hn; simpl; [by rewrite app_nil_r|].
  rewrite aset_new, IH; [by rewrite <- (assoc_L (++))| |].
  - by rewrite <- (assoc_L (++)).
  - rewrite fmap_app, fmap_cons in Hn. apply list.NoDup_app in Hn as (_ & Hd & _). intros Hk. apply (Hd k Hk). set_solver.
Qed.

Definition writeEntry (encoder : list Z) (e : gostring * any) : list Z := writeAny (WriteString encoder e.1) e.2.

Lemma writeEntry_app x e : writeEntry e x = e ++ writeEntry [] x.
Proof.
  unfold writeEntry. rewrite writeAny_app, (writeAny_app _ (WriteString [] _)), WriteString_app. by rewrite <- (assoc_L (++)).
Qed.

(** The bytes of arrays and objects. *)
Lemma writeAny_array l : writeAny [] (AArray l) = 117 :: WriteVarUint [] (Z.of_nat (length l)) ++ mjoin (writeAny [] <$> l).
Proof.
  simpl. unfold writeArray, writeByte. rewrite fold_append by (apply Forall_true; intros; apply writeAny_app).
  by rewrite WriteVarUint_app by lia.
Qed.

Lemma writeAny_object l : writeAny [] (AObject l) = 118 :: WriteVarUint [] (Z.of_nat (length l)) ++ mjoin (writeEntry [] <$> l).
Proof.
  simpl. unfold writeObject, writeByte.
  assert (E : forall e, fold_left (fun encoder '(key, value) => writeAny (WriteString encoder key) value) l e = fold_left writeEntry l e).
  { induction l as [|[k v] l IH]; intros e; simpl; [done|]. apply IH. }
  rewrite E, fold_append by (apply Forall_true; intros; apply writeEntry_app). by rewrite WriteVarUint_app by lia.
Qed.

Lemma writeAny_nonempty v : (1 <= length (writeAny [] v))%nat.
Proof.
  assert (Hn : forall f, (1 <= length (writeAnyNumber [] f))%nat).
  { intros f. unfold writeAnyNumber, writeByte, writeFloat32, writeFloat64.
    destruct (isInteger _ && inBits31 _) eqn:Hi; [|destruct (isFloat32 f); simpl; lia].
    apply andb_prop in Hi as [_ Hb]. apply inBits31_range in Hb. rewrite writeVarInt_bytes by lia. simpl. lia. }
  destruct v; try (simpl; lia || apply Hn); [simpl; unfold writeByte; rewrite WriteString_app; simpl; lia
    |simpl; unfold writeByte; rewrite WriteVarUint8Array_app; simpl; lia
    |rewrite writeAny_array; simpl; lia|rewrite writeAny_object; simpl; lia].
Qed.

Lemma mjoin_length {A} (w : A -> list Z) l : Forall (fun x => (1 <= length (w x))%nat) l -> (length l <= length (mjoin (w <$> l)))%nat.
Proof.
  induction 1 as [|x l Hx _ IH]; [done|]. rewrite fmap_cons, mjoin_cons, length_app. cbn [length]. lia.
Qed.

Lemma read_size n rest : Z.of_nat n < 2 ^ 64 -> binaryReadUvarint (WriteVarUint [] (Z.of_nat n) ++ rest) = (Ok (Z.of_nat n), rest).
Proof. intros. rewrite WriteVarUint_bytes by lia. simpl. apply uvarint_roundtrip. unfold is_u64. lia. Qed.

Lemma array_bound l rest : boundExceeded (Z.of_nat (length l)) (Z.of_nat (length (mjoin (writeAny [] <$> l) ++ rest))) 1 = false.
Proof.
  unfold boundExceeded. pose proof (mjoin_length (writeAny []) l ltac:(apply Forall_true; intros; apply writeAny_nonempty)).
  rewrite length_app. simpl. destruct (Z.ltb_spec (Z.of_nat (length (mjoin (writeAny [] <$> l)) + length rest)) 0); [lia|].
  apply Z.ltb_ge. rewrite Z.quot_1_r. lia.
Qed.

Lemma read_written v : forall d rest, any_ok v -> (height v <= d)%nat -> readAnyDepth d (writeAny [] v ++ rest) = (Ok (readBack v), rest).
Proof.
  induction v as [v Hv|l IH|l IH] using any_nested_ind; intros [|d] rest Hok Hh; [destruct v; simpl in *; (done || lia)| |simpl in Hh; lia| |simpl in Hh; lia|].
  - destruct v; try done; try (apply read_number; apply u64_range || done).
    + cbn [writeAny]. unfold writeByte. rewrite WriteString_app. cbn [app]. erewrite read_tag by reflexivity.
      unfold rbind. by rewrite readVarString_roundtrip.
    + cbn [writeAny]. unfold writeInt64, writeByte. cbn [app]. erewrite read_tag by reflexivity. unfold rbind.
      by rewrite (bigInt64_roundtrip n rest Hok : readBigInt64 (be_put 8 (u64 n) ++ rest) = _).
    + by destruct b.
    + cbn [writeAny]. unfold writeByte. rewrite WriteVarUint8Array_app. cbn [app]. erewrite read_tag by reflexivity.
      unfold rbind. by rewrite uint8Array_roundtrip.
  - destruct Hok as [Hl Hok%fold_right_Forall]. apply le_S_n, fold_right_max in Hh. rewrite writeAny_array. cbn [app readAnyDepth].
    unfold rbind at 1, readByte. change (readArrayDepth (readAnyDepth d) ((WriteVarUint [] (Z.of_nat (length l)) ++ mjoin (writeAny [] <$> l)) ++ rest) = (Ok (readBack (AArray l)), rest)). unfold readArrayDepth. rewrite <- (assoc_L (++)). rstep read_size by done.
    destruct (Z.eqb_spec (Z.of_nat (length l)) 0) as [E0|E0]; [destruct l; [done|simpl in E0; lia]|].
    rewrite array_bound, Nat2Z.id. unfold rbind. rewrite (rtimes_map _ _ readBack); [done|].
    rewrite list.Forall_forall in *. intros x Hx rest'. apply IH; auto.
  - destruct Hok as (Hl & Hnd & Hok%fold_right_Forall). apply le_S_n, fold_right_max in Hh. rewrite writeAny_object. cbn [app readAnyDepth].
    unfold rbind at 1, readByte. change (readObjectDepth (readAnyDepth d) ((WriteVarUint [] (Z.of_nat (length l)) ++ mjoin (writeEntry [] <$> l)) ++ rest) = (Ok (readBack (AObject l)), rest)). unfold readObjectDepth. rewrite <- (assoc_L (++)). rstep read_size by done. rewrite Nat2Z.id. unfold rbind at 1.
    rewrite (rtimes_map _ _ (fun e => (e.1, readBack e.2))).
    + unfold rret. rewrite setEntries_NoDup; [done|]. rewrite <- list_fmap_compose. done.
    + rewrite list.Forall_forall in *. intros [k x] Hx rest'. simpl. unfold readEntry, writeEntry. cbn [fst snd].
      rewrite writeAny_app, <- (assoc_L (++)). destruct (Hok _ Hx) as [Hk Hx']. rstep readVarString_roundtrip by done.
      pose proof (IH _ Hx d rest' Hx' (Hh _ Hx)) as E. cbn [snd] in E. unfold rbind. by rewrite E.
Qed.

(** *** The numbers read back are equal to the numbers written *)

Lemma encode_field q f : 2 ^ 52 <= q < 2 ^ 53 -> 0 <= f < 2 ^ 11 - 1 ->
  (f * 2 ^ 52 + q) mod 2 ^ 52 = q - 2 ^ 52 /\ (f * 2 ^ 52 + q) / 2 ^ 52 = f + 1.
Proof.
  intros. replace (f * 2 ^ 52 + q) with ((q - 2 ^ 52) + (f + 1) * 2 ^ 52) by lia.
  rewrite Z.mod_add, Z.div_add, Z.mod_small, Z.div_small by lia. lia.
Qed.

(** Integers of at most 53 bits are exact. *)
Lemma float64_of_int_exact n : n <> 0 -> Z.abs n < 2 ^ 53 ->
  float64_value (float64_of_int n) = Finite (n <? 0) (Z.abs n * 2 ^ (52 - Z.log2 (Z.abs n))) (Z.log2 (Z.abs n) - 52).
Proof.
  intros Hn Hb. set (k := Z.log2 (Z.abs n)).
  pose proof (Z.log2_spec (Z.abs n) ltac:(lia)) as Hk. fold k in Hk. pose proof (Z.log2_nonneg (Z.abs n)) as Hk0. fold k in Hk0.
  assert (Hk52 : k <= 52). { apply Z.lt_succ_r. apply Z.log2_lt_pow2; [lia|]. exact Hb. }
  assert (Hq : 2 ^ 52 <= Z.abs n * 2 ^ (52 - k) < 2 ^ 53).
  { replace (2 ^ 52) with (2 ^ k * 2 ^ (52 - k)) by (rewrite <- Z.pow_add_r by lia; f_equal; lia).
    replace (2 ^ 53) with (2 ^ Z.succ k * 2 ^ (52 - k)) by (rewrite <- Z.pow_add_r by lia; f_equal; lia).
    pose proof (Z.pow_pos_nonneg 2 (52 - k) ltac:(lia) ltac:(lia)). nia. }
  assert (E : encodeFloat 52 11 (Finite (n <? 0) (Z.abs n) 0) = (if n <? 0 then 2 ^ 63 else 0) + ((k + 1022) * 2 ^ 52 + Z.abs n * 2 ^ (52 - k))).
  { unfold encodeFloat. fold k. change (2 ^ (11 - 1) - 1) with 1023. destruct (Z.eqb_spec (Z.abs n) 0); [lia|].
    destruct (Z.ltb_spec 1023 (k + 0)); [lia|]. rewrite Z.max_l by lia. destruct (Z.leb_spec (k + 0 - 52) 0); [|lia].
    replace (0 - (k + 0 - 52)) with (52 - k) by lia. change (52 + 11) with 63. destruct (n <? 0); lia. }
  set (q := Z.abs n * 2 ^ (52 - k)) in *. destruct (encode_field q (k + 1022) Hq ltac:(lia)) as [Em Ed].
  assert (Hu : u64 (encodeFloat 52 11 (Finite (n <? 0) (Z.abs n) 0)) = (if n <? 0 then 2 ^ 11 else 0) * 2 ^ 52 + ((k + 1022) * 2 ^ 52 + q)).
  { rewrite E, u64_small; destruct (n <? 0); unfold is_u64; lia. }
  unfold float64_of_int, float64_value, decodeFloat. rewrite Hu. set (s := if n <? 0 then 2 ^ 11 else 0).
  set (b := (k + 1022) * 2 ^ 52 + q) in *. rewrite !(Z.add_comm (s * 2 ^ 52)), Z.mod_add, Z.div_add, Em, Ed by lia.
  assert (Ef : (k + 1022 + 1 + s) mod 2 ^ 11 = k + 1023).
  { unfold s. destruct (n <? 0); [|rewrite Z.mod_small; lia].
    replace (k + 1022 + 1 + 2 ^ 11) with (k + 1023 + 1 * 2 ^ 11) by lia. rewrite Z.mod_add, Z.mod_small; lia. }
  assert (Es : ((b + s * 2 ^ 52) / 2 ^ (52 + 11)) mod 2 = if n <? 0 then 1 else 0).
  { assert (0 <= b < 2 ^ 63) by (unfold b; lia). unfold s. change (2 ^ (52 + 11)) with (2 ^ 63).
    destruct (n <? 0); [|rewrite Z.div_small, Z.mod_small; lia].
    replace (b + 2 ^ 11 * 2 ^ 52) with (b + 1 * 2 ^ 63) by lia. rewrite Z.div_add, Z.div_small, Z.mod_small; lia. }
  rewrite Ef, Es. change (2 ^ 11 - 1) with 2047. change (2 ^ (11 - 1) - 1) with 1023.
  destruct (Z.eqb_spec (k + 1023) 2047); [lia|]. destruct (Z.eqb_spec (k + 1023) 0); [lia|].
  f_equal; [by destruct (n <? 0)|lia|lia].
Qed.

(** The value of a number of any kind. *)
Definition numberValue (v : any) : option floatValue :=
  match v with
  | AInt _ n => Some (float64_value (float64_of_int n))
  | AFloat32 f => Some (float64_value (float64_of_float32 f))
  | AFloat64 f => Some (float64_value f)
  | _ => None
  end.

Lemma scaled_int n (s : bool) m e : (if s then -1 else 1) * m * 2 ^ Z.max e 0 = n * 2 ^ Z.max (- e) 0 ->
  forall base, base <= e -> base <= 0 -> scaled s m e base = n * 2 ^ (- base).
Proof.
  intros E base H1 H2. unfold scaled. destruct (Z.le_gt_cases 0 e).
  - rewrite Z.max_l, Z.max_r, Z.pow_0_r in E by lia. replace (e - base) with (e + - base) by lia. rewrite Z.pow_add_r by lia.
    rewrite Z.mul_assoc, E. ring.
  - rewrite Z.max_r, Z.max_l, Z.pow_0_r in E by lia. replace (- base) with (- e + (e - base)) by lia. rewrite Z.pow_add_r by lia.
    rewrite (Z.mul_assoc n), <- E. ring.
Qed.

Lemma integer_scaled (s : bool) m e : isInteger (Finite s m e) = true ->
  (if s then -1 else 1) * m * 2 ^ Z.max e 0 = truncate (Finite s m e) * 2 ^ Z.max (- e) 0.
Proof.
  simpl. destruct (Z.leb_spec 0 e).
  - rewrite Z.max_l, Z.max_r, Z.pow_0_r by lia. lia.
  - rewrite Z.max_r, Z.max_l, Z.pow_0_r by lia. intros Hm%Z.eqb_eq.
    pose proof (Z.pow_pos_nonneg 2 (- e) ltac:(lia) ltac:(lia)). pose proof (Z.div_mod m (2 ^ (- e)) ltac:(lia)). destruct s; lia.
Qed.

Lemma exact_scaled n : Z.abs n < 2 ^ 53 -> exists s m e, float64_value (float64_of_int n) = Finite s m e /\
  (if s then -1 else 1) * m * 2 ^ Z.max e 0 = n * 2 ^ Z.max (- e) 0.
Proof.
  intros Hb. destruct (decide (n = 0)) as [->|Hn]; [by exists false, 0, (-1074)|].
  eexists _, _, _. split; [by apply float64_of_int_exact|].
  pose proof (Z.log2_nonneg (Z.abs n)) as Hk0. set (k := Z.log2 (Z.abs n)) in *.
  assert (Hk52 : k <= 52). { apply Z.lt_succ_r. apply Z.log2_lt_pow2; [lia|]. exact Hb. }
  rewrite Z.max_r, Z.max_l, Z.pow_0_r by lia. replace (- (k - 52)) with (52 - k) by lia. destruct (Z.ltb_spec n 0); nia.
Qed.

(** A number is read back with its value; a NaN as the same NaN. *)
Lemma numberForm_value f : feq (default NaN (numberValue (numberForm f))) (float64_value f) = true \/
  (float64_value f = NaN /\ numberForm f = AFloat64 f).
Proof.
  unfold numberForm. destruct (isInteger _ && inBits31 _) eqn:Hi; [|destruct (isFloat32 f) eqn:Hf].
  - apply andb_prop in Hi as [Hi Hb]. left. cbn [numberValue default]. unfold inBits31, bits31 in Hb.
    destruct (float64_value f) as [s m e| |] eqn:E; try done.
    destruct (exact_scaled (truncate (Finite s m e)) ltac:(lia)) as (s' & m' & e' & -> & H').
    unfold feq. apply Z.eqb_eq. pose proof (integer_scaled s m e Hi) as H.
    set (n := truncate (Finite s m e)) in *. clearbody n.
    (* both sides are the same multiple of the common scale *)
    unfold scaled. set (base := Z.min e' e). set (b0 := Z.min base 0).
    apply (Z.mul_reg_r _ _ (2 ^ (base - b0))); [pose proof (Z.pow_pos_nonneg 2 (base - b0) ltac:(lia) ltac:(lia)); lia|].
    rewrite <- !Z.mul_assoc, <- !Z.pow_add_r by lia.
    replace (e' - base + (base - b0)) with (e' - b0) by lia. replace (e - base + (base - b0)) with (e - b0) by lia.
    rewrite !Z.mul_assoc. change (scaled s' m' e' b0 = scaled s m e b0).
    rewrite (scaled_int n s' m' e' H' b0), (scaled_int n s m e H b0) by lia. done.
  - left. exact Hf.
  - cbn [numberValue default]. destruct (float64_value f) as [s m e|s|] eqn:E; [left..|by right].
    + unfold feq. apply Z.eqb_refl.
    + unfold feq. by destruct s.
Qed.

(** *** Values nested too deeply are refused *)
Definition too_deep {A} (r : result A * list Z) : Prop := exists rest, r = (Err ErrDepth, rest).

Lemma rbind_deep {A B} (m : reader A) (k : A -> reader B) buf : too_deep (m buf) -> too_deep (rbind m k buf).
Proof. intros [rest E]. exists rest. unfold rbind. by rewrite E. Qed.

(** A loop that reads some elements and meets one that is too deep. *)
Lemma rtimes_deep {A B} (rd : reader A) (w : B -> list Z) (g : B -> A) l rest :
  Forall (fun x => forall rest, rd (w x ++ rest) = (Ok (g x), rest) \/ too_deep (rd (w x ++ rest))) l ->
  Exists (fun x => forall rest, too_deep (rd (w x ++ rest))) l ->
  too_deep (rtimes (length l) rd (mjoin (w <$> l) ++ rest)).
Proof.
  intros Hall Hex. revert rest. induction Hall as [|x l Hx Hall IH]; intros rest; [by inversion Hex|].
  rewrite fmap_cons, mjoin_cons, <- (assoc_L (++)). cbn [length rtimes].
  destruct (Hx (mjoin (w <$> l) ++ rest)) as [E|Hd]; [|by apply rbind_deep].
  rewrite (rbind_ok _ _ _ _ _ E). apply rbind_deep, IH.
  inversion Hex as [? ? Hn|]; subst; [|done]. destruct (Hn (mjoin (w <$> l) ++ rest)) as [r E']. congruence.
Qed.

Lemma Exists_max {A} (h : A -> nat) l n : (n < fold_right (fun x m => Nat.max (h x) m) O l)%nat -> Exists (fun x => (n < h x)%nat) l.
Proof.
  induction l as [|x l IH]; simpl; [lia|]. intros H. destruct (decide (n < h x)%nat); [by apply List.Exists_cons_hd|].
  apply List.Exists_cons_tl, IH. lia.
Qed.

Lemma read_or_deep v d rest : any_ok v -> (forall d rest, any_ok v -> (d < height v)%nat -> too_deep (readAnyDepth d (writeAny [] v ++ rest))) ->
  readAnyDepth d (writeAny [] v ++ rest) = (Ok (readBack v), rest) \/ too_deep (readAnyDepth d (writeAny [] v ++ rest)).
Proof. intros Hok IH. destruct (decide (height v <= d)%nat); [left; by apply read_written|right; apply IH; [done|lia]]. Qed.

Lemma read_deep v : forall d rest, any_ok v -> (d < height v)%nat -> too_deep (readAnyDepth d (writeAny [] v ++ rest)).
Proof.
  induction v as [v Hv|l IH|l IH] using any_nested_ind; intros [|d] rest Hok Hh; try (by eexists);
    [destruct v; simpl in Hh; (done || lia)| |].
  - destruct Hok as [Hl Hok%fold_right_Forall]. cbn [height] in Hh. apply Nat.succ_lt_mono, Exists_max in Hh.
    rewrite writeAny_array. cbn [app readAnyDepth]. unfold rbind at 1, readByte.
    change (too_deep (readArrayDepth (readAnyDepth d) ((WriteVarUint [] (Z.of_nat (length l)) ++ mjoin (writeAny [] <$> l)) ++ rest))).
    unfold readArrayDepth. rewrite <- (assoc_L (++)). rstep read_size by done.
    destruct (Z.eqb_spec (Z.of_nat (length l)) 0) as [E0|E0]; [destruct l; [by inversion Hh|simpl in E0; lia]|].
    rewrite array_bound, Nat2Z.id. apply rbind_deep, rtimes_deep with (g := readBack).
    + rewrite list.Forall_forall in *. intros x Hx rest'. apply read_or_deep; auto.
    + rewrite list.Exists_exists in *. destruct Hh as (x & Hx & Hd). rewrite list.Forall_forall in *. exists x. split; [done|]. intros. by apply IH; auto.
  - destruct Hok as (Hl & Hnd & Hok%fold_right_Forall). cbn [height] in Hh. apply Nat.succ_lt_mono, Exists_max in Hh.
    rewrite writeAny_object. cbn [app readAnyDepth]. unfold rbind at 1, readByte.
    change (too_deep (readObjectDepth (readAnyDepth d) ((WriteVarUint [] (Z.of_nat (length l)) ++ mjoin (writeEntry [] <$> l)) ++ rest))).
    unfold readObjectDepth. rewrite <- (assoc_L (++)). rstep read_size by done. rewrite Nat2Z.id.
    rewrite list.Forall_forall in Hok. rewrite list.Forall_forall in IH.
    assert (He : forall e rest', e ∈ l -> readEntry (readAnyDepth d) (writeEntry [] e ++ rest')
                 = (value <-- readAnyDepth d;;; rret (e.1, value)) (writeAny [] e.2 ++ rest')).
    { intros [k x] rest' Hx. unfold readEntry, writeEntry. cbn [fst snd]. rewrite writeAny_app, <- (assoc_L (++)).
      destruct (Hok _ Hx) as [Hk _]. by rstep readVarString_roundtrip by done. }
    apply rbind_deep, rtimes_deep with (g := fun e => (e.1, readBack e.2)).
    + rewrite list.Forall_forall. intros e Hx rest'. rewrite (He e rest' Hx). destruct (Hok _ Hx) as [_ Ho].
      destruct (read_or_deep e.2 d rest' Ho (IH _ Hx)) as [E|Hd]; [left; by rewrite (rbind_ok _ _ _ _ _ E)|right; by apply rbind_deep].
    + rewrite list.Exists_exists in *. destruct Hh as (e & Hx & Hd). exists e. split; [done|]. intros rest'. rewrite (He e rest' Hx).
      apply rbind_deep, (IH _ Hx); [apply (Hok _ Hx)|done].
Qed.

(** ** Properties *)


(** An object of every kind of value; nested arrays at and over the limit. *)
Definition sample_any : any :=
  AObject [([97], AArray [AInt Uint8 200; AFloat64 (float64_of_int (2 ^ 40)); ANilPtr]); ([98], AObject [([], ABigInt (-7))]); ([99], AOther)].
Fixpoint nest (n : nat) : any := match n with O => AArray [] | S n' => AArray [nest n'] end.

