(* ===== verification/StructStore.v ===== *)
(** * Struct store

    Models [crdt/id.go] and the store operations of [crdt/struct_store.go]
    over the flat representation of [crdt/client_struct_list.go]. The store is
    generic in the structs it holds: [AbstractStruct] is the part of Go's
    [abstractStruct] interface that it uses.

    The pivot of [binarySearch] is computed in float64; it is the argument
    [interpolate], and the theorems need only that a ratio of at most one of
    [end] lies between 0 and [end], which IEEE-754 division and multiplication
    give by monotonicity of rounding. *)
From S2P Require Import Prelude.

Record ID := GenID { Client : Z; Clock : Z }.

#[global] Instance ID_eq_dec : EqDecision ID.
Proof. solve_decision. Defined.

#[global] Instance ID_countable : Countable ID.
Proof.
  apply (inj_countable' (fun i => (Client i, Clock i)) (fun p => GenID p.1 p.2)). by intros [].
Defined.

(** [CompareIDs] on two [*ID]: [None] is the nil pointer. *)
Definition CompareIDs (a b : option ID) : bool :=
  match a, b with
  | None, None => true
  | Some a, Some b => (Client a =? Client b) && (Clock a =? Clock b)
  | _, _ => false
  end.

Lemma CompareIDs_eq a b : CompareIDs a b = true <-> a = b.
Proof.
  destruct a as [[c k]|], b as [[c' k']|]; simpl; [|split; congruence..].
  rewrite andb_true_iff, !Z.eqb_eq. split; [by intros [-> ->] | by intros [= -> ->]].
Qed.

Class AbstractStruct (A : Type) := {
  getID : A -> ID;
  structLength : A -> Z;
  structDeleted : A -> bool;
}.

(** The clock after a struct. *)
Definition struct_end {A} `{AbstractStruct A} (s : A) : Z := Clock (getID s) + structLength s.

(** ** Search in a client's list *)
Section Search.
Context {A : Type} `{AbstractStruct A}.
Context (interpolate : Z -> Z -> Z -> Z).

Fixpoint binarySearch_loop (fuel : nat) (ss : list A) (clock left right mid : Z) : result Z :=
  match fuel with
  | O => Err ErrMalformed
  | S fuel' =>
      if left <=? right then
        match zlookup ss mid with
        | None => Err ErrPanic
        | Some s =>
            let start := Clock (getID s) in
            if start <=? clock then
              if clock <? start + structLength s then Ok mid
              else let left := mid + 1 in
                   binarySearch_loop fuel' ss clock left right (Z.quot (left + right) 2)
            else let right := mid - 1 in
                 binarySearch_loop fuel' ss clock left right (Z.quot (left + right) 2)
        end
      else Err ErrNotFound
  end.

Definition binarySearch (ss : list A) (clock begin end_ : Z) : result Z :=
  if end_ <? begin then Err ErrNotFound
  else
    let fuel := S (Z.to_nat (end_ - begin + 1)) in
    let mid := Z.quot (begin + end_) 2 in
    if (begin =? 0) && (end_ =? Z.of_nat (length ss) - 1) then
      match zlookup ss end_ with
      | None => Err ErrPanic
      | Some last =>
          let lastClock := Clock (getID last) in
          if lastClock =? clock then Ok end_
          else
            let span := lastClock + structLength last - 1 in
            let mid := if (0 <? span) && (0 <=? clock) && (clock <=? span)
                       then interpolate clock span end_ else mid in
            binarySearch_loop fuel ss clock begin end_ mid
      end
    else binarySearch_loop fuel ss clock begin end_ mid.

Definition findIndexSS (ss : list A) (clock : Z) : result Z :=
  binarySearch ss clock 0 (Z.of_nat (length ss) - 1).

(** *** Lemmas *)

Definition covers (s : A) (clock : Z) : Prop := Clock (getID s) <= clock < struct_end s.

(** Clock-ordered structs without overlap; gaps are allowed. *)
Definition ordered (ss : list A) : Prop :=
  forall i j s t, (i < j)%nat -> ss !! i = Some s -> ss !! j = Some t ->
    struct_end s <= Clock (getID t).

Definition nonempty_structs (ss : list A) : Prop := Forall (fun s => 0 < structLength s) ss.

Lemma nonempty_at ss i s : nonempty_structs ss -> zlookup ss i = Some s -> 0 < structLength s.
Proof.
  unfold zlookup. intros Hne. destruct (i <? 0); [done|]. intros Hs.
  exact (Forall_lookup_1 _ _ _ _ Hne Hs).
Qed.

Lemma ordered_nil : ordered [].
Proof. intros i j s t ? Hs. done. Qed.

Lemma binarySearch_loop_spec fuel ss clock left right mid :
  0 <= left <= right + 1 -> right < Z.of_nat (length ss) -> right - left + 1 < Z.of_nat fuel ->
  (left <= right -> left <= mid <= right) ->
  match binarySearch_loop fuel ss clock left right mid with
  | Ok i => exists s, zlookup ss i = Some s /\ covers s clock
  | Err e => e = ErrNotFound /\
      (ordered ss -> nonempty_structs ss -> forall i s, left <= i <= right ->
         zlookup ss i = Some s -> ~ covers s clock)
  end.
Proof.
  revert left right mid. induction fuel as [|fuel IH]; intros left right mid Hl Hr Hf Hm; [lia|].
  simpl. destruct (Z.leb_spec left right) as [Hle|Hgt]; [|split; [done|lia]].
  specialize (Hm Hle). destruct (zlookup_is_Some ss mid) as [s Hs]; [lia|]. rewrite Hs.
  assert (Hmono : forall i t, ordered ss -> zlookup ss i = Some t ->
     (i < mid -> struct_end t <= Clock (getID s)) /\ (mid < i -> struct_end s <= Clock (getID t))).
  { intros i t Ho Ht. pose proof (zlookup_Some _ _ _ Ht). pose proof (zlookup_Some _ _ _ Hs).
    unfold zlookup in Hs, Ht. destruct (Z.ltb_spec i 0), (Z.ltb_spec mid 0); try done; try lia.
    split; intros; [apply (Ho (Z.to_nat i) (Z.to_nat mid) t s) | apply (Ho (Z.to_nat mid) (Z.to_nat i) s t)];
      done || lia. }
  destruct (Z.leb_spec (Clock (getID s)) clock) as [Hst|Hst].
  - destruct (Z.ltb_spec clock (Clock (getID s) + structLength s)) as [Hin|Hout].
    + exists s. split; [done|]. unfold covers, struct_end. lia.
    + specialize (IH (mid + 1) right (Z.quot (mid + 1 + right) 2)).
      destruct (binarySearch_loop fuel _ _ _ _ _) as [i|e]; [apply IH; zquot|].
      destruct IH as [-> IH]; [zquot..|].
      split; [done|]. intros Ho Hp i t Hi Ht [Hc1 Hc2].
      destruct (Hmono i t Ho Ht) as [Hlo Hhi]. unfold struct_end in *.
      destruct (Z.lt_trichotomy i mid) as [?|[->|?]].
      * specialize (Hlo ltac:(lia)). lia.
      * simplify_eq. lia.
      * eapply (IH Ho Hp i t); [lia|done|]. by split.
  - specialize (IH left (mid - 1) (Z.quot (left + (mid - 1)) 2)).
    destruct (binarySearch_loop fuel _ _ _ _ _) as [i|e]; [apply IH; zquot|].
    destruct IH as [-> IH]; [zquot..|].
    split; [done|]. intros Ho Hp i t Hi Ht [Hc1 Hc2].
    destruct (Hmono i t Ho Ht) as [Hlo Hhi].
    pose proof (nonempty_at _ _ _ Hp Hs).
    unfold struct_end in *. destruct (Z.lt_trichotomy i mid) as [?|[->|?]].
    + eapply (IH Ho Hp i t); [lia|done|]. by split.
    + simplify_eq. lia.
    + specialize (Hhi ltac:(lia)). lia.
Qed.

Context (interpolate_range : forall clock span end_,
  0 < span -> 0 <= clock <= span -> 0 <= end_ -> 0 <= interpolate clock span end_ <= end_).

Lemma findIndexSS_spec ss clock :
  nonempty_structs ss ->
  match findIndexSS ss clock with
  | Ok i => exists s, zlookup ss i = Some s /\ covers s clock
  | Err e => e = ErrNotFound /\
      (ordered ss -> forall i s, zlookup ss i = Some s -> ~ covers s clock)
  end.
Proof.
  intros Hne. unfold findIndexSS, binarySearch. set (n := Z.of_nat (length ss)).
  destruct (Z.ltb_spec (n - 1) 0) as [H0|H0].
  { split; [done|]. intros _ i s Hs. apply zlookup_Some in Hs. lia. }
  rewrite !Z.eqb_refl. cbn [andb]. destruct (zlookup_is_Some ss (n - 1)) as [last Hlast]; [lia|].
  rewrite Hlast. destruct (Z.eqb_spec (Clock (getID last)) clock) as [<-|Hne'].
  { exists last. split; [done|]. unfold covers, struct_end.
    pose proof (nonempty_at _ _ _ Hne Hlast). lia. }
  set (span := Clock (getID last) + structLength last - 1).
  match goal with |- context [binarySearch_loop _ _ _ _ _ ?m] => set (mid := m) end.
  assert (Hmid : 0 <= mid <= n - 1).
  { unfold mid. destruct (Z.ltb_spec 0 span), (Z.leb_spec 0 clock), (Z.leb_spec clock span); cbn [andb];
      try (apply interpolate_range; lia); zquot. }
  pose proof (binarySearch_loop_spec (S (Z.to_nat (n - 1 - 0 + 1))) ss clock 0 (n - 1) mid) as Hs.
  destruct (binarySearch_loop _ _ _ _ _ _) as [i|e]; [apply Hs; lia|].
  destruct Hs as [-> Hs]; [lia|lia|lia|lia|]. split; [done|]. intros Ho i s Hi. pose proof (zlookup_Some _ _ _ Hi).
  apply (Hs Ho Hne i s); [lia|done].
Qed.

End Search.

(** ** The store *)
Section Store.
Context {A : Type} `{AbstractStruct A}.
Record structStore := mkStore {
  clients : gmap Z (list A);
  pendingStructs : option (gmap Z Z * list Z);
  pendingDeleteSet : option (list Z);
  clientOrder : list Z;
}.

Definition newStructStore : structStore := mkStore ∅ None None [].

Definition with_clients (ss : structStore) (m : gmap Z (list A)) : structStore :=
  mkStore m (pendingStructs ss) (pendingDeleteSet ss) (clientOrder ss).

Definition noteClient (ss : structStore) (client : Z) : structStore :=
  match clients ss !! client with
  | Some _ => ss
  | None => mkStore (clients ss) (pendingStructs ss) (pendingDeleteSet ss) (clientOrder ss ++ [client])
  end.

Definition orderedClients (ss : structStore) : list Z :=
  filter (fun c => is_Some (clients ss !! c)) (clientOrder ss).

Definition clientStructs (ss : structStore) (client : Z) : option (list A) := clients ss !! client.

Definition appendClientStruct (ss : structStore) (client : Z) (value : A) : structStore :=
  match clientStructs ss client with
  | None => let ss := noteClient ss client in with_clients ss (<[client := [value]]> (clients ss))
  | Some structs => with_clients ss (<[client := structs ++ [value]]> (clients ss))
  end.

(** [lastValue] panics on an empty list, which the store never holds. *)
Definition getState (store : structStore) (client : Z) : result Z :=
  match clientStructs store client with
  | None => Ok 0
  | Some structs =>
      match list.last structs with
      | None => Err ErrPanic
      | Some lastStruct => Ok (Clock (getID lastStruct) + structLength lastStruct)
      end
  end.

Definition getStateVector (store : structStore) : gmap Z (result Z) :=
  (fun structs => match list.last structs with
                  | None => Err ErrPanic
                  | Some l => Ok (Clock (getID l) + structLength l)
                  end) <$> clients store.

Definition addStruct (store : structStore) (st : A) : result structStore :=
  let client := Client (getID st) in
  match clientStructs store client with
  | None => Ok (appendClientStruct store client st)
  | Some ss =>
      match list.last ss with
      | None => Err ErrPanic
      | Some lastStruct =>
          if negb (Clock (getID lastStruct) + structLength lastStruct =? Clock (getID st))
          then Err ErrUnexpectedCase
          else Ok (with_clients store (<[client := ss ++ [st]]> (clients store)))
      end
  end.

Definition findStruct (interpolate : Z -> Z -> Z -> Z) (store : structStore) (id : ID) : result A :=
  match clientStructs store (Client id) with
  | None => Err ErrNoClient
  | Some ss =>
      match findIndexSS interpolate ss (Clock id) with
      | Err e => Err e
      | Ok i => match zlookup ss i with Some s => Ok s | None => Err ErrPanic end
      end
  end.

Definition getStruct (interpolate : Z -> Z -> Z -> Z) (store : structStore) (id : ID) : option A :=
  match findStruct interpolate store id with Ok s => Some s | Err _ => None end.

Definition replaceStruct (interpolate : Z -> Z -> Z -> Z) (store : structStore) (item newItem : A) : result structStore :=
  if negb (Client (getID item) =? Client (getID newItem)) then Err ErrMalformed
  else
    match clientStructs store (Client (getID item)) with
    | None => Err ErrNoClient
    | Some ss =>
        match findIndexSS interpolate ss (Clock (getID item)) with
        | Err e => Err e
        | Ok i => Ok (with_clients store
                        (<[Client (getID item) := <[Z.to_nat i := newItem]> ss]> (clients store)))
        end
    end.

(** *** Invariant *)

(** Structs of one client, clock after clock, starting at [c]. *)
Fixpoint contiguous_from (c : Z) (ss : list A) : Prop :=
  match ss with
  | [] => True
  | s :: ss' => Clock (getID s) = c /\ 0 < structLength s /\ contiguous_from (struct_end s) ss'
  end.

Fixpoint list_end (c : Z) (ss : list A) : Z :=
  match ss with [] => c | s :: ss' => list_end (struct_end s) ss' end.

Definition client_ok (client : Z) (ss : list A) : Prop :=
  ss <> [] /\ (exists c, contiguous_from c ss) /\ Forall (fun s => Client (getID s) = client) ss.

Definition store_ok (st : structStore) : Prop :=
  (forall client ss, clients st !! client = Some ss -> client_ok client ss) /\
  NoDup (clientOrder st) /\
  (forall c, c ∈ clientOrder st <-> is_Some (clients st !! c)).

Lemma contiguous_app c ss s :
  contiguous_from c (ss ++ [s]) <->
  contiguous_from c ss /\ Clock (getID s) = list_end c ss /\ 0 < structLength s.
Proof.
  revert c. induction ss as [|t ss IH]; intros c; simpl; [naive_solver|]. rewrite IH. naive_solver.
Qed.

Lemma list_end_app c ss s : list_end c (ss ++ [s]) = struct_end s.
Proof. revert c. induction ss; intros; simpl; auto. Qed.

Lemma list_end_app' c l1 l2 : list_end c (l1 ++ l2) = list_end (list_end c l1) l2.
Proof. revert c. induction l1; intros; simpl; auto. Qed.

Lemma contiguous_app_l c l1 l2 : contiguous_from c (l1 ++ l2) -> contiguous_from c l1.
Proof. revert c. induction l1 as [|s l1 IH]; intros c; simpl; [done|]. intros (? & ? & ?). eauto. Qed.

Lemma list_end_ge c ss : contiguous_from c ss -> c <= list_end c ss.
Proof.
  revert c. induction ss as [|s ss IH]; intros c Hc; simpl; [lia|].
  destruct Hc as (<- & Hl & Hc). specialize (IH _ Hc). unfold struct_end in *. lia.
Qed.

Lemma list_end_last c ss s : list.last ss = Some s -> list_end c ss = struct_end s.
Proof. intros (l & ->)%last_Some. apply list_end_app. Qed.

Lemma contiguous_lt c ss i s :
  contiguous_from c ss -> ss !! i = Some s -> c <= Clock (getID s) /\ 0 < structLength s.
Proof.
  revert c i. induction ss as [|t ss IH]; intros c [|i] Hc Hi; simplify_eq/=; [naive_solver lia|].
  destruct Hc as (<- & Hl & Hc). destruct (IH _ _ Hc Hi). unfold struct_end in *. lia.
Qed.

Lemma contiguous_nonempty c ss : contiguous_from c ss -> nonempty_structs ss.
Proof. intros Hc. apply Forall_lookup. intros i s Hs. by eapply contiguous_lt. Qed.

Lemma contiguous_end c ss s : contiguous_from c ss -> s ∈ ss -> struct_end s <= list_end c ss.
Proof.
  revert c. induction ss as [|t ss IH]; intros c Hc Hs; [by apply not_elem_of_nil in Hs|].
  destruct Hc as (_ & _ & Hc). simpl. apply elem_of_cons in Hs as [->|Hs]; [by apply list_end_ge|]. by apply IH.
Qed.

Lemma contiguous_ordered c ss : contiguous_from c ss -> ordered ss.
Proof.
  revert c. induction ss as [|u ss IH]; intros c Hc; [apply ordered_nil|].
  destruct Hc as (<- & Hl & Hc). intros [|i] [|j] s t Hij Hs Ht; simplify_eq/=; try lia.
  - eapply contiguous_lt; done.
  - eapply (IH _ Hc i j); [lia|done|done].
Qed.

(** Every clock between the start and the end of the list is held by a struct. *)
Lemma contiguous_covered c ss k :
  contiguous_from c ss -> c <= k < list_end c ss -> exists i s, zlookup ss i = Some s /\ covers s k.
Proof.
  revert c. induction ss as [|u ss IH]; intros c Hc Hk; simpl in Hk; [lia|].
  destruct Hc as (<- & Hl & Hc). destruct (decide (k < struct_end u)).
  - exists 0, u. split; [done|]. unfold covers. lia.
  - destruct (IH _ Hc) as (i & s & Hi & Hs); [lia|].
    exists (i + 1), s. split; [|done]. pose proof (zlookup_Some _ _ _ Hi).
    unfold zlookup in *. destruct (Z.ltb_spec i 0); [lia|]. destruct (Z.ltb_spec (i + 1) 0); [lia|].
    by replace (Z.to_nat (i + 1)) with (S (Z.to_nat i)) by lia.
Qed.

Lemma client_ok_snoc client ss s :
  client_ok client ss -> Client (getID s) = client -> 0 < structLength s ->
  (exists l, list.last ss = Some l /\ struct_end l = Clock (getID s)) -> client_ok client (ss ++ [s]).
Proof.
  intros (Hne & (c & Hc) & Hcl) Hs Hl (l & Hlast & He). split_and!.
  - by destruct ss.
  - exists c. apply contiguous_app. split; [done|]. by rewrite (list_end_last c ss l Hlast).
  - apply Forall_app. by repeat constructor.
Qed.

Lemma newStructStore_ok : store_ok newStructStore.
Proof.
  split_and!.
  - intros client ss Hc. simpl in Hc. by rewrite lookup_empty in Hc.
  - constructor.
  - intros c. simpl. rewrite lookup_empty. split; [set_solver|by intros []].
Qed.

Lemma orderedClients_perm st : store_ok st -> orderedClients st ≡ₚ elements (dom (clients st)).
Proof.
  intros (_ & Hnd & Hin). apply NoDup_Permutation.
  - by apply list.NoDup_filter.
  - apply NoDup_elements.
  - intros c. unfold orderedClients. rewrite list_elem_of_filter, elem_of_elements, elem_of_dom, Hin.
    naive_solver.
Qed.

End Store.
Arguments structStore A : clear implicits.

(** ** Structs without content *)

(** [gcStruct] and [skipStruct]: an id and a length ([abstractStructBase]). *)
Record gcStruct := newGC { gc_id : ID; gc_length : Z }.
Record skipStruct := newSkip { skip_id : ID; skip_length : Z }.

#[global] Instance gc_struct : AbstractStruct gcStruct :=
  {| getID := gc_id; structLength := gc_length; structDeleted := fun _ => true |}.
#[global] Instance skip_struct : AbstractStruct skipStruct :=
  {| getID := skip_id; structLength := skip_length; structDeleted := fun _ => true |}.

(** [mergeStructWith] of gc.go and skip.go, for a right neighbour of the same
    kind ([None] otherwise). *)
Definition gcMergeStructWith (gc : gcStruct) (right : option gcStruct) : bool * gcStruct :=
  match right with
  | None => (false, gc)
  | Some r => (true, newGC (gc_id gc) (gc_length gc + gc_length r))
  end.

Definition skipMergeStructWith (s : skipStruct) (right : option skipStruct) : bool * skipStruct :=
  match right with
  | None => (false, s)
  | Some r => (true, newSkip (skip_id s) (skip_length s + skip_length r))
  end.

(** [gcStruct.integrateStruct] up to the embedding of a GC into the structs
    of the store. *)
Definition gcIntegrate {A} `{AbstractStruct A} (inj : gcStruct -> A)
    (store : structStore A) (gc : gcStruct) (offset : Z) : result (structStore A) :=
  let gc := if 0 <? offset
            then newGC (GenID (Client (gc_id gc)) (Clock (gc_id gc) + offset)) (gc_length gc - offset)
            else gc in
  addStruct store (inj gc).

(** ** Lemmas on the store operations *)
Section StoreLemmas.
Context {A : Type} `{AbstractStruct A}.

Lemma getState_ok (st : structStore A) client ss :
  store_ok st -> clients st !! client = Some ss ->
  exists c, contiguous_from c ss /\ getState st client = Ok (list_end c ss) /\ ss <> [] /\ c < list_end c ss.
Proof.
  intros (Hok & _) Hss. destruct (Hok _ _ Hss) as (Hne & (c & Hc) & _). exists c.
  unfold getState, clientStructs. rewrite Hss.
  destruct (list.last ss) as [l|] eqn:El; [|by apply last_None in El].
  rewrite (list_end_last c ss l El). split_and!; try done.
  destruct ss as [|s ss]; [done|]. destruct Hc as (Hs & Hl & Hc).
  rewrite <- (list_end_last c (s :: ss) l El). simpl.
  pose proof (list_end_ge _ _ Hc). unfold struct_end in *. lia.
Qed.

Lemma addStruct_ok (st st' : structStore A) s :
  store_ok st -> 0 < structLength s -> addStruct st s = Ok st' ->
  store_ok st' /\ getState st' (Client (getID s)) = Ok (struct_end s) /\
  (forall c, c <> Client (getID s) -> clients st' !! c = clients st !! c).
Proof.
  intros Hst Hl. destruct Hst as (Hok & Hnd & Hin). unfold addStruct, clientStructs.
  destruct (clients st !! Client (getID s)) as [ss|] eqn:Ess.
  - destruct (list.last ss) as [l|] eqn:El; [|done].
    destruct (Z.eqb_spec (Clock (getID l) + structLength l) (Clock (getID s))) as [He|]; [|done].
    intros [= <-]. unfold with_clients. split_and!; simpl.
    + split_and!; simpl; [|done|].
      * intros c ss'. destruct (decide (c = Client (getID s))) as [->|Hc].
        -- rewrite lookup_insert_eq. intros [= <-]. apply client_ok_snoc; [by apply Hok|done|done|].
           exists l. done.
        -- rewrite lookup_insert_ne by done. apply Hok.
      * intros c. rewrite Hin. destruct (decide (c = Client (getID s))) as [->|Hc].
        -- rewrite lookup_insert_eq, Ess. split; eauto.
        -- by rewrite lookup_insert_ne.
    + unfold getState, clientStructs. simpl. rewrite lookup_insert_eq, last_snoc. done.
    + intros c Hc. by rewrite lookup_insert_ne.
  - intros [= <-]. unfold appendClientStruct, clientStructs, noteClient. rewrite Ess. unfold with_clients. simpl.
    split_and!; simpl.
    + split_and!; simpl.
      * intros c ss'. destruct (decide (c = Client (getID s))) as [->|Hc].
        -- rewrite lookup_insert_eq. intros [= <-]. split_and!; [done| |by repeat constructor].
           exists (Clock (getID s)). simpl. done.
        -- rewrite lookup_insert_ne by done. apply Hok.
      * apply list.NoDup_app. split_and!; [done| |apply NoDup_singleton].
        intros c Hc ->%list_elem_of_singleton. apply Hin in Hc as [? Hc]. by rewrite Ess in Hc.
      * intros c. rewrite elem_of_app, list_elem_of_singleton, Hin.
        destruct (decide (c = Client (getID s))) as [->|Hc].
        -- rewrite lookup_insert_eq. split; eauto.
        -- rewrite lookup_insert_ne by done. naive_solver.
    + unfold getState, clientStructs. simpl. by rewrite lookup_insert_eq.
    + intros c Hc. by rewrite lookup_insert_ne.
Qed.

(** What [addStruct] does to the lists of the clients. *)
Lemma addStruct_clients (st st' : structStore A) s : addStruct st s = Ok st' ->
  exists ss, clients st' = <[Client (getID s) := ss ++ [s]]> (clients st) /\
    default [] (clients st !! Client (getID s)) = ss /\
    (ss = [] \/ exists l, list.last ss = Some l /\ struct_end l = Clock (getID s)).
Proof.
  unfold addStruct, appendClientStruct, noteClient, clientStructs. destruct (clients st !! Client (getID s)) as [ss|] eqn:E.
  - destruct (list.last ss) as [l|] eqn:El; [|done].
    destruct (Z.eqb_spec (Clock (getID l) + structLength l) (Clock (getID s))); [|done].
    intros [= <-]. exists ss. split_and!; [done|done|right; eauto].
  - intros [= <-]. exists []. split_and!; [done|done|by left].
Qed.

(** The search finds the one struct that covers a clock. *)
Lemma covers_unique c (ss : list A) s t k :
  contiguous_from c ss -> s ∈ ss -> t ∈ ss -> covers s k -> covers t k -> s = t.
Proof.
  intros Hc (i & Hi)%list_elem_of_lookup (j & Hj)%list_elem_of_lookup Hs Ht. pose proof (contiguous_ordered _ _ Hc) as Ho.
  unfold covers in *. destruct (Nat.lt_trichotomy i j) as [Hlt|[->|Hlt]]; [|congruence|].
  - pose proof (Ho i j s t Hlt Hi Hj). lia.
  - pose proof (Ho j i t s Hlt Hj Hi). lia.
Qed.

Context (interpolate : Z -> Z -> Z -> Z).
Context (Hinterp : forall clock span end_, 0 < span -> 0 <= clock <= span -> 0 <= end_ -> 0 <= interpolate clock span end_ <= end_).

Lemma findIndexSS_covers c (ss : list A) k s : contiguous_from c ss -> s ∈ ss -> covers s k ->
  exists i, findIndexSS interpolate ss k = Ok i /\ zlookup ss i = Some s.
Proof.
  intros Hc Hs Hk. pose proof (findIndexSS_spec interpolate Hinterp ss k (contiguous_nonempty _ _ Hc)) as Hf.
  apply list_elem_of_lookup in Hs as Hs'. destruct Hs' as (n & Hn).
  destruct (findIndexSS interpolate ss k) as [i|e].
  - destruct Hf as (t & Ht & Htk). exists i. split; [done|]. rewrite Ht. f_equal.
    by apply (covers_unique c ss t s k Hc); [eapply zlookup_elem|..].
  - destruct Hf as [_ Hf]. destruct (Hf (contiguous_ordered _ _ Hc) (Z.of_nat n) s); [by rewrite zlookup_nat|done].
Qed.

Lemma getStruct_covers (st : structStore A) q ss s : store_ok st -> clients st !! Client q = Some ss -> s ∈ ss ->
  covers s (Clock q) -> getStruct interpolate st q = Some s.
Proof.
  intros (Hok & _) Hss Hs Hk. destruct (Hok _ _ Hss) as (_ & (c & Hc) & _).
  destruct (findIndexSS_covers c ss (Clock q) s Hc Hs Hk) as (i & Hi & Hz).
  unfold getStruct, findStruct, clientStructs. by rewrite Hss, Hi, Hz.
Qed.

Lemma getStruct_inv (st : structStore A) q s : store_ok st -> getStruct interpolate st q = Some s ->
  exists ss, clients st !! Client q = Some ss /\ s ∈ ss /\ covers s (Clock q).
Proof.
  intros (Hok & _) Hg. unfold getStruct, findStruct, clientStructs in Hg.
  destruct (clients st !! Client q) as [ss|] eqn:Hss; [|done]. destruct (Hok _ _ Hss) as (_ & (c & Hc) & _).
  pose proof (findIndexSS_spec interpolate Hinterp ss (Clock q) (contiguous_nonempty _ _ Hc)) as Hf.
  destruct (findIndexSS interpolate ss (Clock q)) as [i|e]; [|done]. destruct Hf as (t & Ht & Htk).
  rewrite Ht in Hg. simplify_eq. exists ss. split_and!; [done|by eapply zlookup_elem|done].
Qed.

End StoreLemmas.

(** An integer pivot with the range the search needs, for executing the
    definitions. *)
Definition int_pivot (clock span end_ : Z) : Z := clock * end_ / span.

Lemma int_pivot_range clock span end_ :
  0 < span -> 0 <= clock <= span -> 0 <= end_ -> 0 <= int_pivot clock span end_ <= end_.
Proof.
  unfold int_pivot. intros. split; [apply Z.div_pos; nia|].
  apply Z.div_le_upper_bound; nia.
Qed.

(** ** Properties *)

(** On a client's contiguous struct list, [findIndexSS] returns the index
    of the struct that holds a clock whenever the clock lies inside the list,
    and [errStructNotFound] otherwise; it never indexes out of range and always
    terminates, whatever pivot the interpolation picks. *)
Theorem findIndexSS_correct {A : Type} `{AbstractStruct A}
    (interpolate : Z -> Z -> Z -> Z) (c clock : Z) (ss : list A) :
  (forall clock span end_, 0 < span -> 0 <= clock <= span -> 0 <= end_ ->
     0 <= interpolate clock span end_ <= end_) ->
  contiguous_from c ss ->
  if (c <=? clock) && (clock <? list_end c ss)
  then exists i s, findIndexSS interpolate ss clock = Ok i /\ zlookup ss i = Some s /\
         Clock (getID s) <= clock < Clock (getID s) + structLength s
  else findIndexSS interpolate ss clock = Err ErrNotFound.
Proof.
  intros Hi Hc. pose proof (contiguous_ordered _ _ Hc) as Ho. pose proof (contiguous_nonempty _ _ Hc) as Hne.
  pose proof (findIndexSS_spec interpolate Hi ss clock Hne) as Hs.
  destruct (Z.leb_spec c clock) as [H1|H1], (Z.ltb_spec clock (list_end c ss)) as [H2|H2]; cbn [andb].
  { destruct (findIndexSS interpolate ss clock) as [i|e].
    - destruct Hs as (s & Hs1 & Hs2). by exists i, s.
    - destruct Hs as [_ Hs]. destruct (contiguous_covered c ss clock Hc) as (i & s & Hi1 & Hi2); [lia|].
      by destruct (Hs Ho i s Hi1). }
  all: destruct (findIndexSS interpolate ss clock) as [i|e]; [|by destruct Hs as [-> _]].
  all: destruct Hs as (s & Hs1 & Hs2); exfalso; unfold covers in Hs2.
  all: unfold zlookup in Hs1; destruct (i <? 0); [done|].
  all: destruct (contiguous_lt _ _ _ _ Hc Hs1); try lia.
  pose proof (contiguous_end c ss s Hc (list_elem_of_lookup_2 _ _ _ Hs1)). unfold struct_end in *. lia.
Qed.

Lemma findIndexSS_correct_witness :
  exists i s, findIndexSS int_pivot [newGC (GenID 1 0) 4; newGC (GenID 1 4) 2; newGC (GenID 1 6) 9] 5 = Ok i /\
    zlookup [newGC (GenID 1 0) 4; newGC (GenID 1 4) 2; newGC (GenID 1 6) 9] i = Some s /\
    Clock (getID s) <= 5 < Clock (getID s) + structLength s.
Proof.
  refine (findIndexSS_correct int_pivot 0 5 [newGC (GenID 1 0) 4; newGC (GenID 1 4) 2; newGC (GenID 1 6) 9] _ _).
  - exact int_pivot_range.
  - simpl. unfold struct_end. simpl. lia.
Defined.

(** [addStruct] appends a struct exactly when it continues its client:
    on success the store keeps its invariant (contiguous clocks per client, no
    empty client list, [clientOrder] listing each client once), the client's
    state becomes the end of the new struct and no other client changes; a
    clock that does not continue the client is refused as "unexpected case". *)
Theorem addStruct_correct {A : Type} `{AbstractStruct A} (st : structStore A) (s : A) :
  store_ok st -> 0 < structLength s ->
  match addStruct st s with
  | Ok st' =>
      store_ok st' /\ getState st' (Client (getID s)) = Ok (Clock (getID s) + structLength s) /\
      (forall c, c <> Client (getID s) -> getState st' c = getState st c) /\
      (is_Some (clients st !! Client (getID s)) -> getState st (Client (getID s)) = Ok (Clock (getID s)))
  | Err e => e = ErrUnexpectedCase /\ getState st (Client (getID s)) <> Ok (Clock (getID s))
  end.
Proof.
  intros Hst Hl. destruct (addStruct st s) as [st'|e] eqn:E.
  - destruct (addStruct_ok _ _ _ Hst Hl E) as (Hok & Hg & Hother). split_and!; [done|done| |].
    + intros c Hc. unfold getState, clientStructs. by rewrite (Hother c Hc).
    + intros [ss Hss]. unfold addStruct, clientStructs in E. unfold getState, clientStructs.
      rewrite Hss in *. destruct (list.last ss) as [l|]; [|done].
      destruct (Z.eqb_spec (Clock (getID l) + structLength l) (Clock (getID s))); [congruence|done].
  - unfold addStruct, getState, clientStructs in *. destruct (clients st !! _) as [ss|] eqn:Ess; [|done].
    destruct (list.last ss) as [l|] eqn:El.
    + destruct (Z.eqb_spec (Clock (getID l) + structLength l) (Clock (getID s))); simpl in E; [done|].
      split; [congruence|]. intros [= ?]. done.
    + destruct Hst as (Hok & _). destruct (Hok _ _ Ess) as (Hne & _). by apply last_None in El.
Qed.

Lemma addStruct_correct_witness :
  match addStruct (mkStore {[ 7 := [newGC (GenID 7 0) 3] ]} None None [7]) (newGC (GenID 7 3) 2) with
  | Ok st' =>
      store_ok st' /\ getState st' 7 = Ok (3 + 2) /\
      (forall c, c <> 7 -> getState st' c =
         getState (mkStore {[ 7 := [newGC (GenID 7 0) 3] ]} None None [7]) c) /\
      (is_Some (({[ 7 := [newGC (GenID 7 0) 3] ]} : gmap Z (list gcStruct)) !! 7) ->
        getState (mkStore {[ 7 := [newGC (GenID 7 0) 3] ]} None None [7]) 7 = Ok 3)
  | Err e => e = ErrUnexpectedCase /\
      getState (mkStore {[ 7 := [newGC (GenID 7 0) 3] ]} None None [7]) 7 <> Ok 3
  end.
Proof.
  refine (addStruct_correct (mkStore {[ 7 := [newGC (GenID 7 0) 3] ]} None None [7]) (newGC (GenID 7 3) 2) _ _).
  - split_and!; simpl.
    + intros c ss Hc. apply lookup_singleton_Some in Hc as [<- <-]. split_and!; [done| |by repeat constructor].
      exists 0. simpl. lia.
    + apply NoDup_singleton.
    + intros c. rewrite list_elem_of_singleton. split.
      * intros ->. rewrite lookup_singleton_eq. eauto.
      * intros [? Hc]. by apply lookup_singleton_Some in Hc as [<- _].
  - simpl. lia.
Defined.
