(* ===== verification/Text.v ===== *)
(** * Text: UTF-8 strings at UTF-16 offsets

    Go strings are byte strings; positions in a document count UTF-16 code
    units, as in JavaScript.  This file models crdt/utf8_text.go (normalising
    arbitrary bytes to valid UTF-8), the string helpers of crdt/utils.go
    (length, split, code unit at an offset) and the sparse position index of a
    long [contentString] (crdt/content_types.go), on top of the decoding and
    encoding of runes of Go's package [unicode/utf8]. *)
From stdpp Require Import list.
From Stdlib Require Import ZArith Lia.
From S2P Require Import Prelude.
Open Scope Z_scope.

(** ** Runes: unicode/utf8 *)
Definition RuneSelf : Z := 0x80.
Definition RuneError : Z := 0xFFFD.

Definition within (lo hi b : Z) : bool := (lo <=? b) && (b <=? hi).

(** The range of the second byte, by the first. *)
Definition secondByte (b0 : Z) : Z * Z :=
  (if b0 =? 0xE0 then 0xA0 else if b0 =? 0xF0 then 0x90 else 0x80,
   if b0 =? 0xED then 0x9F else if b0 =? 0xF4 then 0x8F else 0xBF).

Definition isSecond (b0 b1 : Z) : bool := within (secondByte b0).1 (secondByte b0).2 b1.
Definition isCont (b : Z) : bool := within 0x80 0xBF b.

(** [utf8.DecodeRuneInString]: the first rune and its width; an invalid
    sequence is [RuneError] of width 1. *)
Definition decodeRune (s : list Z) : Z * nat :=
  match s with
  | [] => (RuneError, 0%nat)
  | b0 :: s1 =>
      if b0 <? RuneSelf then (b0, 1%nat)
      else if within 0xC2 0xDF b0 then
        match s1 with
        | b1 :: _ => if isSecond b0 b1 then ((b0 - 0xC0) * 64 + (b1 - 0x80), 2%nat) else (RuneError, 1%nat)
        | _ => (RuneError, 1%nat)
        end
      else if within 0xE0 0xEF b0 then
        match s1 with
        | b1 :: b2 :: _ =>
            if isSecond b0 b1 && isCont b2
            then (((b0 - 0xE0) * 64 + (b1 - 0x80)) * 64 + (b2 - 0x80), 3%nat) else (RuneError, 1%nat)
        | _ => (RuneError, 1%nat)
        end
      else if within 0xF0 0xF4 b0 then
        match s1 with
        | b1 :: b2 :: b3 :: _ =>
            if isSecond b0 b1 && isCont b2 && isCont b3
            then ((((b0 - 0xF0) * 64 + (b1 - 0x80)) * 64 + (b2 - 0x80)) * 64 + (b3 - 0x80), 4%nat) else (RuneError, 1%nat)
        | _ => (RuneError, 1%nat)
        end
      else (RuneError, 1%nat)
  end.

(** A Unicode scalar value: a rune that is not a surrogate. *)
Definition scalar (r : Z) : Prop := 0 <= r < 0xD800 \/ 0xE000 <= r <= 0x10FFFF.
#[global] Instance scalar_dec r : Decision (scalar r).
Proof. unfold scalar. apply _. Defined.

(** [utf8.AppendRune] on the empty slice. *)
Definition encodeRune (r : Z) : list Z :=
  if bool_decide (scalar r) then
    if r <? 0x80 then [r]
    else if r <? 0x800 then [0xC0 + r / 64; 0x80 + r mod 64]
    else if r <? 0x10000 then [0xE0 + r / 4096; 0x80 + (r / 64) mod 64; 0x80 + r mod 64]
    else [0xF0 + r / 262144; 0x80 + (r / 4096) mod 64; 0x80 + (r / 64) mod 64; 0x80 + r mod 64]
  else [0xEF; 0xBF; 0xBD].

(** The runes a loop [for i, r := range s] visits, with their widths. *)
Fixpoint rangeFuel (fuel : nat) (s : list Z) : list (Z * nat) :=
  match fuel, s with
  | S fuel', _ :: _ => let '(r, size) := decodeRune s in (r, size) :: rangeFuel fuel' (drop size s)
  | _, _ => []
  end.
Definition rangeString (s : list Z) : list (Z * nat) := rangeFuel (length s) s.

Definition utf16Width (r : Z) : Z := if 0x10000 <=? r then 2 else 1.

(** ** crdt/utf8_text.go *)
Definition isASCIIText (s : list Z) : bool := forallb (fun b => b <? RuneSelf) s.

(** The state of the loop of [replaceMalformedUTF8]. *)
Record utf8State := mkU8 {
  u_codePoint : Z;
  u_needed : Z;
  u_seen : Z;
  u_lower : Z;
  u_upper : Z
}.
Definition utf8Init : utf8State := mkU8 0 0 0 0x80 0xBF.

(** A byte where a leading byte is expected ([bytesNeeded == 0]). *)
Definition leadByte (st : utf8State) (b : Z) : list Z * utf8State :=
  if b <=? 0x7F then ([b], st)
  else if within 0xC2 0xDF b then ([], mkU8 (Z.land b 0x1F) 1 (u_seen st) (u_lower st) (u_upper st))
  else if within 0xE0 0xEF b then
    ([], mkU8 (Z.land b 0x0F) 2 (u_seen st) (if b =? 0xE0 then 0xA0 else u_lower st) (if b =? 0xED then 0x9F else u_upper st))
  else if within 0xF0 0xF4 b then
    ([], mkU8 (Z.land b 0x07) 3 (u_seen st) (if b =? 0xF0 then 0x90 else u_lower st) (if b =? 0xF4 then 0x8F else u_upper st))
  else (encodeRune RuneError, st).

(** One byte of the input: an unexpected byte ends the sequence and is looked
    at again as a leading byte. *)
Definition nextByte (st : utf8State) (b : Z) : list Z * utf8State :=
  if u_needed st =? 0 then leadByte st b
  else if (b <? u_lower st) || (u_upper st <? b) then
    let '(out, st') := leadByte utf8Init b in (encodeRune RuneError ++ out, st')
  else
    let codePoint := Z.lor (Z.shiftl (u_codePoint st) 6) (Z.land b 0x3F) in
    if u_seen st + 1 =? u_needed st then (encodeRune codePoint, utf8Init)
    else ([], mkU8 codePoint (u_needed st) (u_seen st + 1) 0x80 0xBF).

Fixpoint replaceLoop (st : utf8State) (s : list Z) : list Z :=
  match s with
  | [] => if u_needed st =? 0 then [] else encodeRune RuneError
  | b :: s' => let '(out, st') := nextByte st b in out ++ replaceLoop st' s'
  end.
Definition replaceMalformedUTF8 (s : list Z) : list Z := replaceLoop utf8Init s.

(** ** crdt/utils.go *)
Definition stringLength (s : list Z) : Z := foldr (fun r n => utf16Width r.1 + n) 0 (rangeString s).

(** The loop of [normalizeNonASCIITextUTF8WithLength]; [None] is a malformed
    sequence. *)
Fixpoint scanUnits (rs : list (Z * nat)) (units : Z) : option Z :=
  match rs with
  | [] => Some units
  | (r, size) :: rs' =>
      if (r =? RuneError) && (size =? 1)%nat then None else scanUnits rs' (units + utf16Width r)
  end.

Definition normalizeNonASCIITextUTF8WithLength (s : list Z) : list Z * Z :=
  match scanUnits (rangeString s) 0 with
  | Some units => (s, units)
  | None => let normalized := replaceMalformedUTF8 s in (normalized, stringLength normalized)
  end.

Definition normalizeTextUTF8WithLength (s : list Z) : list Z * Z :=
  if isASCIIText s then (s, Z.of_nat (length s)) else normalizeNonASCIITextUTF8WithLength s.

Definition normalizeTextUTF8 (s : list Z) : list Z := (normalizeTextUTF8WithLength s).1.

Fixpoint splitLoop (str : list Z) (rs : list (Z * nat)) (byteOffset : nat) (units offset : Z) : list Z * list Z * bool :=
  match rs with
  | [] => (str, [], true)
  | (r, size) :: rs' =>
      if units =? offset then (take byteOffset str, drop byteOffset str, true)
      else
        let width := utf16Width r in
        if offset <? units + width then
          let runeBytes := (decodeRune (drop byteOffset str)).2 in
          (take byteOffset str ++ encodeRune RuneError, encodeRune RuneError ++ drop (byteOffset + runeBytes) str, false)
        else splitLoop str rs' (byteOffset + size) (units + width) offset
  end.

(** [None] is the panic on a negative offset. *)
Definition splitStringUTF16AtBoundary (str : list Z) (offset : Z) : option (list Z * list Z * bool) :=
  if offset <? 0 then None
  else if offset =? 0 then Some ([], str, true)
  else Some (splitLoop str (rangeString str) 0 0 offset).

Definition splitStringUTF16 (str : list Z) (offset : Z) : option (list Z * list Z) :=
  match splitStringUTF16AtBoundary str offset with Some (l, r, _) => Some (l, r) | None => None end.

Definition stringHeader (str : list Z) (offset : Z) : option (list Z) := option_map fst (splitStringUTF16 str offset).
Definition stringTail (str : list Z) (offset : Z) : option (list Z) := option_map snd (splitStringUTF16 str offset).

Fixpoint charCodeLoop (rs : list (Z * nat)) (units pos : Z) : result Z :=
  match rs with
  | [] => Err ErrRange
  | (r, _) :: rs' =>
      if r <? 0x10000 then
        if units =? pos then Ok (r mod 2 ^ 16) else charCodeLoop rs' (units + 1) pos
      else
        let r := r - 0x10000 in
        if units =? pos then Ok ((0xD800 + Z.shiftr r 10) mod 2 ^ 16)
        else if units + 1 =? pos then Ok ((0xDC00 + Z.land r 0x3FF) mod 2 ^ 16)
        else charCodeLoop rs' (units + 2) pos
  end.
Definition charCodeAt (str : list Z) (pos : Z) : result Z :=
  if 0 <=? pos then charCodeLoop (rangeString str) 0 pos else Err ErrRange.

Definition mergeString (str1 str2 : list Z) : list Z := str1 ++ str2.

(** ** Valid UTF-8 *)
Definition utf8 (rs : list Z) : list Z := rs ≫= encodeRune.
Definition valid (s : list Z) : Prop := exists rs, Forall scalar rs /\ s = utf8 rs.
Definition widths (rs : list Z) : Z := foldr (fun r n => utf16Width r + n) 0 rs.

Lemma RuneError_scalar : scalar RuneError.
Proof. unfold scalar, RuneError. lia. Qed.

Lemma encodeRune_valid r : exists r', scalar r' /\ encodeRune r = encodeRune r'.
Proof.
  destruct (decide (scalar r)) as [H|H]; [by exists r|]. exists RuneError. split; [apply RuneError_scalar|].
  unfold encodeRune at 1. rewrite bool_decide_false by done. reflexivity.
Qed.

Ltac zb :=
  repeat match goal with |- context [?a =? ?b] => destruct (Z.eqb_spec a b); try (exfalso; zdiv) end; cbn [fst snd];
  repeat match goal with
  | |- context [?a <? ?b] => destruct (Z.ltb_spec a b); try (exfalso; zdiv)
  | |- context [?a <=? ?b] => destruct (Z.leb_spec a b); try (exfalso; zdiv)
  end; cbn [andb orb fst snd].

Lemma decodeRune_encode r rest : scalar r -> decodeRune (encodeRune r ++ rest) = (r, length (encodeRune r)).
Proof.
  intros Hr. unfold encodeRune. rewrite bool_decide_true by done. destruct Hr as [Hr|Hr].
  - destruct (Z.ltb_spec r 0x80); [|destruct (Z.ltb_spec r 0x800); [|destruct (Z.ltb_spec r 0x10000); [|lia]]];
      cbn [app length decodeRune]; unfold isSecond, secondByte, isCont, within, RuneSelf; zb; f_equal; try zdiv.
  - destruct (Z.ltb_spec r 0x80); [lia|destruct (Z.ltb_spec r 0x800); [lia|destruct (Z.ltb_spec r 0x10000)]];
      cbn [app length decodeRune]; unfold isSecond, secondByte, isCont, within, RuneSelf; zb; f_equal; try zdiv.
Qed.

Lemma within_spec lo hi b : within lo hi b = true <-> lo <= b <= hi.
Proof. unfold within. lia. Qed.

(** A rune that decodes is a scalar value in its shortest form. *)
Lemma decode_inv s r size : bytes_ok s -> s <> [] -> decodeRune s = (r, size) ->
  (r = RuneError /\ size = 1%nat) \/ (scalar r /\ size = length (encodeRune r) /\ s = encodeRune r ++ drop size s).
Proof.
  intros Hb Hs E. destruct s as [|b0 s]; [done|]. clear Hs. inversion Hb as [|? ? H0 Hb0]; subst. unfold is_byte in H0.
  cbn [decodeRune] in E. unfold RuneSelf in E. destruct (Z.ltb_spec b0 0x80).
  { injection E as <- <-. right. assert (scalar b0) by (unfold scalar; lia). split; [done|]. unfold encodeRune.
    rewrite bool_decide_true by done. destruct (Z.ltb_spec b0 0x80); [|lia]. done. }
  destruct (within 0xC2 0xDF b0) eqn:W2.
  { apply within_spec in W2. destruct s as [|b1 s]; [injection E as <- <-; by left|].
    destruct (isSecond b0 b1) eqn:W; [|injection E as <- <-; by left]. injection E as <- <-. right.
    revert W. unfold isSecond, secondByte. rewrite within_spec. zb. intros W.
    assert (Hr : scalar ((b0 - 192) * 64 + (b1 - 128))) by (unfold scalar; lia). split; [done|].
    unfold encodeRune. rewrite bool_decide_true by done. zb. split; [done|]. cbn [drop app]. repeat f_equal; zdiv. }
  destruct (within 0xE0 0xEF b0) eqn:W3.
  { apply within_spec in W3. destruct s as [|b1 [|b2 s]]; [injection E as <- <-; by left..|].
    destruct (isSecond b0 b1 && isCont b2) eqn:W; [|injection E as <- <-; by left]. injection E as <- <-. right.
    apply andb_true_iff in W as [W Wc]. apply within_spec in Wc.
    assert (W' : 0x80 <= b1 <= 0xBF /\ (b0 = 0xE0 -> 0xA0 <= b1) /\ (b0 = 0xED -> b1 <= 0x9F)).
    { revert W. unfold isSecond, secondByte. rewrite within_spec. zb; lia. }
    assert (Hr : scalar (((b0 - 224) * 64 + (b1 - 128)) * 64 + (b2 - 128))) by (unfold scalar; lia). split; [done|].
    unfold encodeRune. rewrite bool_decide_true by done. zb. split; [done|]. cbn [drop app]. repeat f_equal; zdiv. }
  destruct (within 0xF0 0xF4 b0) eqn:W4; [|injection E as <- <-; by left].
  apply within_spec in W4. destruct s as [|b1 [|b2 [|b3 s]]]; [injection E as <- <-; by left..|].
  destruct (isSecond b0 b1 && isCont b2 && isCont b3) eqn:W; [|injection E as <- <-; by left]. injection E as <- <-. right.
  apply andb_true_iff in W as [W Wd]. apply andb_true_iff in W as [W Wc]. apply within_spec in Wc, Wd.
  assert (W' : 0x80 <= b1 <= 0xBF /\ (b0 = 0xF0 -> 0x90 <= b1) /\ (b0 = 0xF4 -> b1 <= 0x8F)).
  { revert W. unfold isSecond, secondByte. rewrite within_spec. zb; lia. }
  assert (Hr : scalar ((((b0 - 240) * 64 + (b1 - 128)) * 64 + (b2 - 128)) * 64 + (b3 - 128))) by (unfold scalar; lia). split; [done|].
  unfold encodeRune. rewrite bool_decide_true by done. zb. split; [done|]. cbn [drop app]. repeat f_equal; zdiv.
Qed.

Lemma encodeRune_length r : (1 <= length (encodeRune r) <= 4)%nat.
Proof. unfold encodeRune. repeat case_match; simpl; lia. Qed.

Lemma decode_size s : s <> [] -> (1 <= (decodeRune s).2 <= length s)%nat.
Proof.
  destruct s as [|b0 s]; [done|]. intros _. unfold decodeRune.
  repeat case_match; simpl; lia.
Qed.

(** ** The loop over a string *)
Lemma rangeFuel_enough n s : (length s <= n)%nat -> rangeFuel n s = rangeString s.
Proof.
  unfold rangeString. revert s. induction n as [n IH] using lt_wf_ind. intros s Hn.
  destruct s as [|b s]; [by destruct n|]. destruct n as [|n]; [simpl in Hn; lia|]. cbn [rangeFuel length].
  pose proof (decode_size (b :: s) ltac:(done)) as Hsz. destruct (decodeRune (b :: s)) as [r size]. cbn [snd] in Hsz.
  simpl in Hn, Hsz. rewrite (IH n) by (try lia; rewrite length_drop; simpl; lia). f_equal. symmetry.
  destruct (decide (length s = n)) as [->|Hne]; [apply IH; [lia|]|apply IH; [lia|]]; rewrite length_drop; simpl; lia.
Qed.

Lemma rangeString_cons s : s <> [] ->
  rangeString s = decodeRune s :: rangeString (drop (decodeRune s).2 s).
Proof.
  intros Hs. destruct s as [|b s]; [done|]. pose proof (decode_size (b :: s) Hs) as Hsz. unfold rangeString at 1. cbn [length rangeFuel].
  destruct (decodeRune (b :: s)) as [r size]. cbn [snd] in *. f_equal. apply rangeFuel_enough. rewrite length_drop. simpl in *. lia.
Qed.

Lemma range_encode r s : scalar r -> rangeString (encodeRune r ++ s) = (r, length (encodeRune r)) :: rangeString s.
Proof.
  intros Hr. pose proof (encodeRune_length r). rewrite rangeString_cons by (destruct (encodeRune r); [simpl in *; lia|done]).
  rewrite decodeRune_encode by done. cbn [snd]. by rewrite drop_app_length.
Qed.

Definition withWidth (r : Z) : Z * nat := (r, length (encodeRune r)).

Lemma utf8_cons r rs : utf8 (r :: rs) = encodeRune r ++ utf8 rs.
Proof. done. Qed.
Lemma utf8_app rs1 rs2 : utf8 (rs1 ++ rs2) = utf8 rs1 ++ utf8 rs2.
Proof. apply bind_app. Qed.

Lemma range_utf8 rs : Forall scalar rs -> rangeString (utf8 rs) = withWidth <$> rs.
Proof. induction 1 as [|r rs Hr _ IH]; [done|]. rewrite utf8_cons, range_encode by done. by rewrite IH. Qed.

Lemma encodeRune_bytes r : bytes_ok (encodeRune r).
Proof.
  destruct (encodeRune_valid r) as (r' & Hr & ->). clear r. unfold encodeRune. rewrite bool_decide_true by done.
  assert (0 <= r' <= 0x10FFFF) by (destruct Hr; lia).
  repeat case_match; repeat constructor; unfold is_byte; try zdiv; apply Z.ltb_lt in H0; zdiv.
Qed.

Lemma utf8_bytes rs : bytes_ok (utf8 rs).
Proof. induction rs as [|r rs IH]; [constructor|]. rewrite utf8_cons. apply Forall_app. split; [apply encodeRune_bytes|done]. Qed.

Lemma widths_app rs1 rs2 : widths (rs1 ++ rs2) = widths rs1 + widths rs2.
Proof. induction rs1 as [|r rs1 IH]; simpl; [done|]. unfold widths in *. simpl. lia. Qed.
Lemma width_pos r : 1 <= utf16Width r <= 2.
Proof. unfold utf16Width. case_match; lia. Qed.
Lemma widths_nonneg rs : 0 <= widths rs.
Proof. induction rs as [|r rs IH]; simpl; [done|]. unfold widths in *. simpl. pose proof (width_pos r). lia. Qed.

Lemma stringLength_utf8 rs : Forall scalar rs -> stringLength (utf8 rs) = widths rs.
Proof.
  intros H. unfold stringLength, widths. rewrite range_utf8 by done. clear H.
  induction rs as [|r rs IH]; [done|]. cbn [fmap list_fmap foldr]. by rewrite <- IH.
Qed.

(** ** Normalisation *)
Lemma scanUnits_utf8 rs u : Forall scalar rs -> scanUnits (rangeString (utf8 rs)) u = Some (u + widths rs).
Proof.
  intros H. rewrite range_utf8 by done. revert u. induction H as [|r rs Hr _ IH]; intros u; [simpl; f_equal; lia|].
  cbn [fmap list_fmap scanUnits withWidth].
  assert (((r =? RuneError) && (length (encodeRune r) =? 1)%nat) = false) as ->.
  { destruct (Z.eqb_spec r RuneError) as [->|]; done. }
  rewrite IH. f_equal. unfold widths. simpl. lia.
Qed.

Lemma scanUnits_inv s : forall u n, bytes_ok s -> scanUnits (rangeString s) u = Some n ->
  exists rs, Forall scalar rs /\ s = utf8 rs /\ n = u + widths rs.
Proof.
  induction s as [s IH] using (induction_ltof1 _ (@length Z)); unfold ltof in IH; intros u n Hb E.
  destruct s as [|b s0]; [exists []; simpl in E; simplify_eq/=; split_and!; [done..|lia]|]. set (s := b :: s0) in *.
  rewrite rangeString_cons in E by done. destruct (decodeRune s) as [r size] eqn:Ed. cbn [scanUnits snd] in E.
  destruct (decode_inv s r size Hb ltac:(done) Ed) as [[-> ->]|(Hr & -> & Es)].
  { rewrite Z.eqb_refl in E. done. }
  pose proof (encodeRune_length r) as Hl. destruct ((r =? RuneError) && _) eqn:Eb; [done|].
  apply (IH (drop (length (encodeRune r)) s)) in E as (rs & Hrs & Eu & En).
  - exists (r :: rs). split_and!; [by constructor|by rewrite utf8_cons, <- Eu|]. unfold widths in *. simpl. lia.
  - rewrite length_drop. subst s. simpl. lia.
  - by apply Forall_drop.
Qed.

Lemma valid_app s1 s2 : valid s1 -> valid s2 -> valid (s1 ++ s2).
Proof.
  intros (r1 & H1 & ->) (r2 & H2 & ->). exists (r1 ++ r2). split; [by apply Forall_app|]. by rewrite utf8_app.
Qed.
Lemma valid_nil : valid [].
Proof. by exists []. Qed.
Lemma valid_encode r : valid (encodeRune r).
Proof.
  destruct (encodeRune_valid r) as (r' & Hr & ->). exists [r']. split; [by apply Forall_singleton|]. by rewrite utf8_cons, app_nil_r.
Qed.
Create HintDb text.
#[export] Hint Resolve valid_app valid_nil valid_encode : text.

Lemma leadByte_valid st b : is_byte b -> valid (leadByte st b).1.
Proof.
  intros Hb. unfold leadByte. repeat case_match; cbn [fst]; auto with text.
  exists [b]. assert (scalar b) by (unfold scalar, is_byte in *; lia). split; [by apply Forall_singleton|].
  rewrite utf8_cons, app_nil_r. unfold encodeRune. rewrite bool_decide_true by done. destruct (Z.ltb_spec b 128); [done|lia].
Qed.

Lemma nextByte_valid st b : is_byte b -> valid (nextByte st b).1.
Proof.
  intros Hb. unfold nextByte. destruct (u_needed st =? 0); [by apply leadByte_valid|].
  destruct (_ || _); [|case_match; cbn [fst]; auto with text].
  pose proof (leadByte_valid utf8Init b Hb). destruct (leadByte utf8Init b). cbn [fst] in *. auto with text.
Qed.

(** Whatever the input, the output is valid. *)
Lemma replaceLoop_valid s : forall st, bytes_ok s -> valid (replaceLoop st s).
Proof.
  induction s as [|b s IH]; intros st Hb; cbn [replaceLoop]; [case_match; auto with text|].
  inversion Hb as [|? ? Hb0 Hb1]; subst. pose proof (nextByte_valid st b Hb0). destruct (nextByte st b). cbn [fst] in *. auto with text.
Qed.

Lemma lor_shift6 a b : 0 <= b < 64 -> Z.lor (Z.shiftl a 6) b = a * 64 + b.
Proof. intros Hb. rewrite Z.shiftl_mul_pow2, Z.lor_comm by lia. rewrite (lor_low_high b a 6) by lia. lia. Qed.

Lemma land15 z : Z.land z 15 = z mod 16.
Proof. apply (land_ones_mod z 4). lia. Qed.
Lemma land7 z : Z.land z 7 = z mod 8.
Proof. apply (land_ones_mod z 3). lia. Qed.

(** A continuation byte in range. *)
Lemma nextByte_cont st b : 1 <= u_needed st -> 0x80 <= u_lower st -> u_upper st <= 0xBF -> u_lower st <= b <= u_upper st ->
  nextByte st b = if u_seen st + 1 =? u_needed st then (encodeRune (u_codePoint st * 64 + (b - 0x80)), utf8Init)
                  else ([], mkU8 (u_codePoint st * 64 + (b - 0x80)) (u_needed st) (u_seen st + 1) 0x80 0xBF).
Proof.
  intros Hn Hl Hu Hb. unfold nextByte. destruct (Z.eqb_spec (u_needed st) 0); [lia|].
  destruct (Z.ltb_spec b (u_lower st)); [lia|]. destruct (Z.ltb_spec (u_upper st) b); [lia|]. cbn [orb].
  rewrite land63, lor_shift6 by zdiv. replace (b mod 64) with (b - 0x80) by zdiv. done.
Qed.

(** A well-formed rune passes through unchanged. *)
Lemma replaceLoop_encode r s : scalar r -> replaceLoop utf8Init (encodeRune r ++ s) = encodeRune r ++ replaceLoop utf8Init s.
Proof.
  intros Hr. unfold encodeRune at 1. rewrite bool_decide_true by done. assert (0 <= r <= 0x10FFFF) by (destruct Hr; lia).
  destruct (Z.ltb_spec r 0x80); [|destruct (Z.ltb_spec r 0x800); [|destruct (Z.ltb_spec r 0x10000)]]; cbn [app replaceLoop].
  - unfold nextByte, leadByte. simpl (u_needed _ =? 0). cbv iota. zb. unfold encodeRune. rewrite bool_decide_true by done. zb. done.
  - unfold nextByte at 1, leadByte. simpl (u_needed _ =? 0). cbv iota. unfold within. zb. cbn [app replaceLoop].
    rewrite land31, nextByte_cont by (cbn; zdiv). cbn [u_seen u_needed u_codePoint utf8Init]. simpl (0 + 1 =? 1). cbv iota.
    do 2 f_equal. zdiv.
  - unfold nextByte at 1, leadByte. simpl (u_needed _ =? 0). cbv iota. unfold within. zb; cbn [app replaceLoop];
    (rewrite land15, nextByte_cont by (cbn; destruct Hr; zdiv)); cbn [u_seen u_needed u_codePoint utf8Init]; simpl (0 + 1 =? 2); cbv iota;
    cbn [app replaceLoop]; (rewrite nextByte_cont by (cbn; zdiv)); cbn [u_seen u_needed u_codePoint]; simpl (0 + 1 + 1 =? 2); cbv iota;
    do 2 f_equal; zdiv.
  - unfold nextByte at 1, leadByte. simpl (u_needed _ =? 0). cbv iota. unfold within. zb; cbn [app replaceLoop];
    (rewrite land7, nextByte_cont by (cbn; zdiv)); cbn [u_seen u_needed u_codePoint utf8Init]; simpl (0 + 1 =? 3); cbv iota;
    cbn [app replaceLoop]; (rewrite nextByte_cont by (cbn; zdiv)); cbn [u_seen u_needed u_codePoint]; simpl (0 + 1 + 1 =? 3); cbv iota;
    cbn [app replaceLoop]; (rewrite nextByte_cont by (cbn; zdiv)); cbn [u_seen u_needed u_codePoint]; simpl (0 + 1 + 1 + 1 =? 3); cbv iota;
    do 2 f_equal; zdiv.
Qed.

Lemma replaceLoop_utf8 rs s : Forall scalar rs -> replaceLoop utf8Init (utf8 rs ++ s) = utf8 rs ++ replaceLoop utf8Init s.
Proof.
  induction 1 as [|r rs Hr _ IH]; [done|]. rewrite utf8_cons, <- !app_assoc, replaceLoop_encode by done. by rewrite IH.
Qed.

(** ** UTF-16 *)
Definition isHigh (u : Z) : bool := (0xD800 <=? u) && (u <? 0xDC00).
Definition isLow (u : Z) : bool := (0xDC00 <=? u) && (u <? 0xE000).

Definition utf16Of (r : Z) : list Z :=
  if r <? 0x10000 then [r] else [0xD800 + (r - 0x10000) / 1024; 0xDC00 + (r - 0x10000) mod 1024].
Definition units (rs : list Z) : list Z := rs ≫= utf16Of.
(** The code units of a string. *)
Definition utf16 (s : list Z) : list Z := units (rangeString s).*1.

(** The reference: cut the code units, with a replacement character for either
    half of a surrogate pair that is cut. *)
Definition splitUnits (us : list Z) (offset : nat) : list Z * list Z :=
  match list.last (take offset us), drop offset us with
  | Some h, w :: r => if isHigh h && isLow w then (take (offset - 1) us ++ [RuneError], RuneError :: r)
                      else (take offset us, drop offset us)
  | _, _ => (take offset us, drop offset us)
  end.

Lemma utf16_utf8 rs : Forall scalar rs -> utf16 (utf8 rs) = units rs.
Proof.
  intros H. unfold utf16. rewrite range_utf8 by done. f_equal. rewrite <- list_fmap_compose. apply list_fmap_id.
Qed.

Lemma utf16Of_length r : Z.of_nat (length (utf16Of r)) = utf16Width r.
Proof. unfold utf16Of, utf16Width. destruct (Z.ltb_spec r 0x10000), (Z.leb_spec 0x10000 r); simpl; lia. Qed.
Lemma units_app rs1 rs2 : units (rs1 ++ rs2) = units rs1 ++ units rs2.
Proof. apply bind_app. Qed.
Lemma units_cons r rs : units (r :: rs) = utf16Of r ++ units rs.
Proof. done. Qed.
Lemma units_length rs : Z.of_nat (length (units rs)) = widths rs.
Proof.
  induction rs as [|r rs IH]; [done|]. rewrite units_cons, length_app. pose proof (utf16Of_length r). unfold widths in *. simpl. lia.
Qed.

Lemma utf16Of_last r us : scalar r -> exists u, list.last (us ++ utf16Of r) = Some u /\ isHigh u = false.
Proof.
  intros Hr. unfold utf16Of. destruct (Z.ltb_spec r 0x10000).
  - exists r. rewrite last_snoc. split; [done|]. unfold isHigh. destruct Hr; lia.
  - eexists. rewrite cons_middle, app_assoc, last_snoc. split; [done|]. unfold isHigh. assert (r <= 0x10FFFF) by (destruct Hr; lia). zb; try done.
Qed.

(** Where the split lands. *)
Inductive cutAt (rs : list Z) (offset : Z) : list Z * list Z * bool -> Prop :=
| CutEnd : widths rs <= offset -> cutAt rs offset (utf8 rs, [], true)
| CutBoundary rs1 rs2 : rs = rs1 ++ rs2 -> widths rs1 = offset -> cutAt rs offset (utf8 rs1, utf8 rs2, true)
| CutInside rs1 r rs2 : rs = rs1 ++ r :: rs2 -> 0x10000 <= r -> widths rs1 + 1 = offset ->
    cutAt rs offset (utf8 rs1 ++ encodeRune RuneError, encodeRune RuneError ++ utf8 rs2, false).

Lemma splitLoop_cut rs : forall pre offset, Forall scalar rs -> widths pre <= offset ->
  cutAt (pre ++ rs) offset (splitLoop (utf8 (pre ++ rs)) (withWidth <$> rs) (length (utf8 pre)) (widths pre) offset).
Proof.
  induction rs as [|r rs IH]; intros pre offset Hs Hp; cbn [fmap list_fmap splitLoop withWidth].
  { constructor. by rewrite app_nil_r. }
  inversion Hs as [|? ? Hr Hs']; subst. destruct (Z.eqb_spec (widths pre) offset) as [<-|Hne].
  { rewrite utf8_app, take_app_length, drop_app_length. by eapply CutBoundary. }
  destruct (Z.ltb_spec offset (widths pre + utf16Width r)) as [Hlt|Hge].
  - pose proof (width_pos r). assert (0x10000 <= r /\ widths pre + 1 = offset) as [Hr2 Ho].
    { unfold utf16Width in *. destruct (Z.leb_spec 0x10000 r); lia. }
    rewrite utf8_app, utf8_cons, drop_app_length, decodeRune_encode by done. cbn [snd].
    rewrite take_app_length, (app_assoc (utf8 pre)), <- length_app, drop_app_length. by eapply CutInside.
  - assert (E : pre ++ r :: rs = (pre ++ [r]) ++ rs) by by rewrite <- (assoc_L (++)).
    assert (Ew : widths (pre ++ [r]) = widths pre + utf16Width r) by (rewrite widths_app; unfold widths; simpl; lia).
    rewrite E, <- Ew. replace (length (utf8 pre) + length (encodeRune r))%nat with (length (utf8 (pre ++ [r]))).
    + apply IH; [done|lia].
    + rewrite utf8_app, length_app. do 2 f_equal. by rewrite utf8_cons, app_nil_r.
Qed.

Lemma split_cut rs offset : Forall scalar rs -> 0 <= offset ->
  exists res, splitStringUTF16AtBoundary (utf8 rs) offset = Some res /\ cutAt rs offset res.
Proof.
  intros Hs Ho. unfold splitStringUTF16AtBoundary. destruct (Z.ltb_spec offset 0); [lia|].
  destruct (Z.eqb_spec offset 0) as [->|].
  - eexists. split; [done|]. by apply (CutBoundary rs 0 [] rs).
  - eexists. split; [done|]. rewrite range_utf8 by done. by apply (splitLoop_cut rs [] offset).
Qed.

Lemma cut_units rs offset l r b : Forall scalar rs -> 0 <= offset -> cutAt rs offset (l, r, b) ->
  exists ls rr, Forall scalar ls /\ Forall scalar rr /\ l = utf8 ls /\ r = utf8 rr /\
    splitUnits (units rs) (Z.to_nat offset) = (units ls, units rr) /\ (b = true -> l ++ r = utf8 rs).
Proof.
  intros Hs Ho Hc. inversion Hc as [Hw|rs1 rs2 E Ew|rs1 x rs2 E Hx Ew]; subst; clear Hc.
  - exists rs, []. split_and!; [done..| |by rewrite app_nil_r]. pose proof (units_length rs).
    unfold splitUnits. rewrite !take_ge, drop_ge by lia. by destruct (list.last (units rs)).
  - apply Forall_app in Hs as [H1 H2]. exists rs1, rs2. split_and!; [done..| |by rewrite utf8_app].
    pose proof (units_length rs1). replace (Z.to_nat (widths rs1)) with (length (units rs1)) by lia.
    unfold splitUnits. rewrite units_app, take_app_length, drop_app_length.
    destruct rs1 as [|x rs1 _] using rev_ind; [done|]. apply Forall_app in H1 as [_ H1]. inversion H1; subst.
    rewrite units_app, units_cons, app_nil_r. destruct (utf16Of_last x (units rs1)) as (u & -> & ->); [done|].
    by destruct (units rs2).
  - apply Forall_app in Hs as [H1 H2]. inversion H2 as [|? ? H3 H4]; subst.
    exists (rs1 ++ [RuneError]), (RuneError :: rs2).
    pose proof (units_length rs1). replace (Z.to_nat (widths rs1 + 1)) with (S (length (units rs1))) by lia.
    split_and!; [apply Forall_app; split; [done|apply Forall_singleton, RuneError_scalar]|constructor; [apply RuneError_scalar|done]|
      by rewrite utf8_app|done| |done].
    assert (x <= 0x10FFFF) by (destruct H3; lia).
    rewrite !units_app, !units_cons. unfold utf16Of. destruct (Z.ltb_spec x 0x10000); [lia|].
    set (h := 0xD800 + (x - 0x10000) / 1024). set (w := 0xDC00 + (x - 0x10000) mod 1024).
    assert (Hh : isHigh h = true) by (unfold isHigh, h; zb; done). assert (Hw : isLow w = true) by (unfold isLow, w; zb; done).
    assert (Et : units rs1 ++ [h; w] ++ units rs2 = (units rs1 ++ [h]) ++ w :: units rs2) by by rewrite <- app_assoc.
    assert (El : S (length (units rs1)) = length (units rs1 ++ [h])) by (rewrite length_app; simpl; lia).
    unfold splitUnits. rewrite Et, El, take_app_length, drop_app_length, last_snoc, Hh, Hw. cbn [andb].
    replace (length (units rs1 ++ [h]) - 1)%nat with (length (units rs1)) by lia.
    by rewrite <- app_assoc, take_app_length.
Qed.

Lemma charCodeLoop_nth rs : forall u pos, Forall scalar rs -> u <= pos ->
  charCodeLoop (withWidth <$> rs) u pos = match units rs !! Z.to_nat (pos - u) with Some c => Ok c | None => Err ErrRange end.
Proof.
  induction rs as [|r rs IH]; intros u pos Hs Hp; cbn [fmap list_fmap charCodeLoop withWidth]; [done|].
  inversion Hs as [|? ? Hr Hs']; subst. assert (0 <= r <= 0x10FFFF) by (destruct Hr; lia). rewrite units_cons. unfold utf16Of.
  destruct (Z.ltb_spec r 0x10000) as [Hl|Hl].
  - destruct (Z.eqb_spec u pos) as [->|Hne]; [rewrite Z.sub_diag; simpl; f_equal; apply Z.mod_small; lia|].
    rewrite IH by (done || lia). rewrite lookup_app_r by (simpl; lia). simpl. by replace (Z.to_nat (pos - u) - 1)%nat with (Z.to_nat (pos - (u + 1))) by lia.
  - rewrite Z.shiftr_div_pow2 by lia. change (Z.land (r - 65536) 1023) with (Z.land (r - 65536) (2 ^ 10 - 1)). rewrite land_ones_mod by lia.
    change (2 ^ 10) with 1024.
    destruct (Z.eqb_spec u pos) as [->|Hne]; [rewrite Z.sub_diag; simpl; f_equal; apply Z.mod_small; zdiv|].
    destruct (Z.eqb_spec (u + 1) pos) as [<-|Hne']; [replace (u + 1 - u) with 1 by lia; simpl; f_equal; apply Z.mod_small; zdiv|].
    rewrite IH by (done || lia). rewrite lookup_app_r by (simpl; lia). simpl. by replace (Z.to_nat (pos - u) - 2)%nat with (Z.to_nat (pos - (u + 2))) by lia.
Qed.

(** ** Properties *)
Lemma isASCII_utf8 s : bytes_ok s -> isASCIIText s = true -> Forall scalar s /\ s = utf8 s /\ Z.of_nat (length s) = widths s.
Proof.
  intros Hb. induction Hb as [|b s Hb0 _ IH]; [done|]. cbn [isASCIIText forallb]. intros [E1 E2]%andb_true_iff.
  destruct (IH E2) as (H1 & H2 & H3). unfold RuneSelf, is_byte in *. apply Z.ltb_lt in E1. assert (scalar b) by (unfold scalar; lia).
  split_and!; [by constructor| |].
  - rewrite utf8_cons, <- H2. unfold encodeRune. rewrite bool_decide_true by done. by destruct (Z.ltb_spec b 128); [|lia].
  - unfold widths in *. cbn [foldr length]. unfold utf16Width at 1. destruct (Z.leb_spec 0x10000 b); lia.
Qed.

(** Both fast paths give what the byte-by-byte decoder gives. *)
Lemma normalize_replace s : bytes_ok s -> normalizeTextUTF8WithLength s = (replaceMalformedUTF8 s, stringLength (replaceMalformedUTF8 s)).
Proof.
  intros Hb. assert (Hid : forall rs, Forall scalar rs -> replaceMalformedUTF8 (utf8 rs) = utf8 rs).
  { intros rs H. unfold replaceMalformedUTF8. rewrite <- (app_nil_r (utf8 rs)) at 1. rewrite replaceLoop_utf8 by done. apply app_nil_r. }
  unfold normalizeTextUTF8WithLength, normalizeNonASCIITextUTF8WithLength. destruct (isASCIIText s) eqn:Ea.
  { destruct (isASCII_utf8 s Hb Ea) as (H1 & H2 & ->). by rewrite H2, Hid, stringLength_utf8, <- H2. }
  destruct (scanUnits (rangeString s) 0) as [n|] eqn:Es; [|done].
  destruct (scanUnits_inv s 0 n Hb Es) as (rs & H1 & -> & ->). by rewrite Hid, stringLength_utf8.
Qed.

(** Normalising any byte string gives valid UTF-8 and its length in UTF-16
    code units; it changes nothing in a valid string, and a valid prefix of a
    malformed string is kept. *)
Theorem normalize_correct (s : list Z) :
  bytes_ok s ->
  valid (normalizeTextUTF8 s) /\
  (normalizeTextUTF8WithLength s).2 = Z.of_nat (length (utf16 (normalizeTextUTF8 s))) /\
  (valid s -> normalizeTextUTF8 s = s) /\
  (forall p, valid p -> normalizeTextUTF8 (p ++ s) = p ++ normalizeTextUTF8 s).
Proof.
  intros Hb. unfold normalizeTextUTF8. rewrite normalize_replace by done. cbn [fst snd].
  assert (Hpre : forall p, valid p -> (normalizeTextUTF8WithLength (p ++ s)).1 = p ++ replaceMalformedUTF8 s).
  { intros p (rs & Hrs & ->). rewrite normalize_replace by (by apply Forall_app; split; [apply utf8_bytes|]). cbn [fst]. by apply replaceLoop_utf8. }
  pose proof (replaceLoop_valid s utf8Init Hb) as Hv. split_and!; [done| |intros (rs & Hrs & ->)|done].
  - destruct Hv as (rs & Hrs & E). unfold replaceMalformedUTF8. rewrite E, utf16_utf8, units_length by done. by apply stringLength_utf8.
  - unfold replaceMalformedUTF8. rewrite <- (app_nil_r (utf8 rs)) at 1. rewrite replaceLoop_utf8 by done. apply app_nil_r.
Qed.

(** "a", a lone continuation byte, and the first two bytes of the euro sign. *)
Lemma normalize_correct_witness :
  valid (normalizeTextUTF8 [0x61; 0x80; 0xE2; 0x82]) /\
  (normalizeTextUTF8WithLength [0x61; 0x80; 0xE2; 0x82]).2 = Z.of_nat (length (utf16 (normalizeTextUTF8 [0x61; 0x80; 0xE2; 0x82]))) /\
  (valid [0x61; 0x80; 0xE2; 0x82] -> normalizeTextUTF8 [0x61; 0x80; 0xE2; 0x82] = [0x61; 0x80; 0xE2; 0x82]) /\
  (forall p, valid p -> normalizeTextUTF8 (p ++ [0x61; 0x80; 0xE2; 0x82]) = p ++ normalizeTextUTF8 [0x61; 0x80; 0xE2; 0x82]).
Proof. apply (normalize_correct [0x61; 0x80; 0xE2; 0x82]). repeat constructor; discriminate. Defined.

Example normalize_example : normalizeTextUTF8WithLength [0x61; 0x80; 0xE2; 0x82] = ([0x61; 0xEF; 0xBF; 0xBD; 0xEF; 0xBF; 0xBD], 3).
Proof. vm_compute. reflexivity. Qed.

(** On valid UTF-8, splitting at a UTF-16 offset cuts the sequence of code
    units exactly there: both halves are valid, their code units are those of
    the reference cut, in which a halved surrogate pair becomes a replacement
    character on either side, and [charCodeAt] is the code unit at the
    offset, or an error at and beyond the end. *)
Theorem split_is_utf16_cut (s : list Z) (offset : Z) :
  valid s -> 0 <= offset ->
  (exists l r, splitStringUTF16 s offset = Some (l, r) /\ valid l /\ valid r /\
     splitUnits (utf16 s) (Z.to_nat offset) = (utf16 l, utf16 r) /\
     stringHeader s offset = Some l /\ stringTail s offset = Some r) /\
  charCodeAt s offset = match utf16 s !! Z.to_nat offset with Some u => Ok u | None => Err ErrRange end.
Proof.
  intros (rs & Hrs & ->) Ho. split.
  - unfold stringHeader, stringTail, splitStringUTF16. destruct (split_cut rs offset Hrs Ho) as ([[l r] b] & -> & Hc).
    destruct (cut_units rs offset l r b Hrs Ho Hc) as (ls & rr & H1 & H2 & -> & -> & Hu & _).
    exists (utf8 ls), (utf8 rr). rewrite !utf16_utf8 by done. split_and!; [done|by exists ls|by exists rr|done..].
  - unfold charCodeAt. destruct (Z.leb_spec 0 offset); [|lia]. rewrite range_utf8, utf16_utf8, charCodeLoop_nth by done.
    by rewrite Z.sub_0_r.
Qed.

(** "a", U+1F600 and "b", cut inside the surrogate pair. *)
Lemma split_is_utf16_cut_witness :
  (exists l r, splitStringUTF16 [0x61; 0xF0; 0x9F; 0x98; 0x80; 0x62] 2 = Some (l, r) /\ valid l /\ valid r /\
     splitUnits (utf16 [0x61; 0xF0; 0x9F; 0x98; 0x80; 0x62]) 2 = (utf16 l, utf16 r) /\
     stringHeader [0x61; 0xF0; 0x9F; 0x98; 0x80; 0x62] 2 = Some l /\ stringTail [0x61; 0xF0; 0x9F; 0x98; 0x80; 0x62] 2 = Some r) /\
  charCodeAt [0x61; 0xF0; 0x9F; 0x98; 0x80; 0x62] 2 = Ok 0xDE00.
Proof.
  refine (split_is_utf16_cut [0x61; 0xF0; 0x9F; 0x98; 0x80; 0x62] 2 _ _); [|lia].
  exists [0x61; 0x1F600; 0x62]. split; [|reflexivity]. repeat constructor; unfold scalar; lia.
Defined.
