(* ===== verification/TextIndex.v ===== *)
(** * The position index of long strings

    A [contentString] (crdt/content_types.go) of at least 128 code units that is
    not ASCII carries a sparse index from UTF-16 offsets to byte offsets, shared
    by the fragments that alias its source.  A Go string is modelled with the
    address of its bytes, because the code recognises a fragment by address. *)
From stdpp Require Import list.
From Stdlib Require Import ZArith Lia.
From S2P Require Import Prelude Text.
Open Scope Z_scope.

Record goString := mkStr { g_addr : Z; g_bytes : list Z }.
Definition g_len (s : goString) : Z := Z.of_nat (length (g_bytes s)).
(** [s[:n]] and [s[n:]]: views of the same backing bytes. *)
Definition g_take (n : Z) (s : goString) : goString := mkStr (g_addr s) (take (Z.to_nat n) (g_bytes s)).
Definition g_drop (n : Z) (s : goString) : goString := mkStr (g_addr s + n) (drop (Z.to_nat n) (g_bytes s)).

Definition u32 (z : Z) : Z := z mod 2 ^ 32.

Definition contentStringUTF16IndexThreshold : Z := 128.
Definition contentStringUTF16IndexStride : Z := 64.
Definition contentStringUTF16IndexRetention : Z := 64.

Record contentStringUTF16Sample := mkSample { utf16Offset : Z; byteOffset : Z }.
Record contentStringUTF16Index := mkIndex {
  source : goString;
  utf16Length : Z;
  samples : list contentStringUTF16Sample
}.

(** ** Building *)

(** [for nextSample <= units { nextSample += stride }]. *)
Fixpoint nextStride (fuel : nat) (nextSample units : Z) : Z :=
  match fuel with
  | O => nextSample
  | S fuel' => if nextSample <=? units then nextStride fuel' (nextSample + contentStringUTF16IndexStride) units else nextSample
  end.

(** [make([]contentStringUTF16Sample, 1, _)] if the slice is still nil. *)
Definition firstSample (s : list contentStringUTF16Sample) : list contentStringUTF16Sample :=
  match s with [] => [mkSample 0 0] | _ => s end.

Fixpoint sampleLoop (rs : list (Z * nat)) (byteOff units nextSample : Z) (acc : list contentStringUTF16Sample)
    : Z * list contentStringUTF16Sample :=
  match rs with
  | [] => (units, acc)
  | (r, size) :: rs' =>
      let '(acc, nextSample) :=
        if nextSample <=? units
        then (firstSample acc ++ [mkSample (u32 units) (u32 byteOff)], nextStride (Z.to_nat (units - nextSample) + 1) nextSample units)
        else (acc, nextSample) in
      sampleLoop rs' (byteOff + Z.of_nat size) (units + utf16Width r) nextSample acc
  end.

Definition buildContentStringUTF16Index (src : goString) : option contentStringUTF16Index :=
  if (g_len src =? 0) || ((2 ^ 32 - 1) / 2 <? g_len src) then None
  else
    let '(units, acc) := sampleLoop (rangeString (g_bytes src)) 0 0 contentStringUTF16IndexStride [] in
    if units <? contentStringUTF16IndexThreshold then None
    else
      let acc := firstSample acc in
      let acc := match list.last acc with
                 | Some s => if byteOffset s =? g_len src then acc else acc ++ [mkSample (u32 units) (u32 (g_len src))]
                 | None => acc
                 end in
      Some (mkIndex src units acc).

(** ** Lookup *)
Definition fragmentByteRange (index : contentStringUTF16Index) (fragment : goString) : option (Z * Z) :=
  if (g_len fragment =? 0) || (g_len (source index) =? 0) then None
  else if g_addr fragment <? g_addr (source index) then None
  else
    let delta := g_addr fragment - g_addr (source index) in
    if g_len (source index) <? delta then None
    else if g_len (source index) - delta <? g_len fragment then None
    else Some (delta, delta + g_len fragment).

(** The binary search of [sampleAtOrBefore...]; [None] is the index -1. *)
Fixpoint sampleSearch (fuel : nat) (key : contentStringUTF16Sample -> Z) (ss : list contentStringUTF16Sample) (low high target : Z)
    : option contentStringUTF16Sample :=
  match fuel with
  | O => None
  | S fuel' =>
      if low <? high then
        let middle := Z.shiftr (low + high) 1 in
        match zlookup ss middle with
        | None => None
        | Some s =>
            if key s <=? target then sampleSearch fuel' key ss (middle + 1) high target
            else sampleSearch fuel' key ss low middle target
        end
      else zlookup ss (low - 1)
  end.
Definition sampleAtOrBeforeByte (index : contentStringUTF16Index) (target : Z) : option contentStringUTF16Sample :=
  sampleSearch (length (samples index) + 1) byteOffset (samples index) 0 (Z.of_nat (length (samples index))) target.
Definition sampleAtOrBeforeUTF16 (index : contentStringUTF16Index) (target : Z) : option contentStringUTF16Sample :=
  sampleSearch (length (samples index) + 1) utf16Offset (samples index) 0 (Z.of_nat (length (samples index))) target.

Fixpoint unitsToByte (rs : list (Z * nat)) (units byteOff target : Z) : option Z :=
  if byteOff <? target then
    match rs with
    | (r, size) :: rs' =>
        if target <? byteOff + Z.of_nat size then None
        else unitsToByte rs' (units + utf16Width r) (byteOff + Z.of_nat size) target
    | [] => None
    end
  else if byteOff =? target then Some units else None.

Definition utf16OffsetAtByte (index : contentStringUTF16Index) (target : Z) : option Z :=
  if (target <? 0) || (g_len (source index) <? target) then None
  else
    match sampleAtOrBeforeByte index target with
    | None => None
    | Some s => unitsToByte (rangeString (drop (Z.to_nat (byteOffset s)) (g_bytes (source index)))) (utf16Offset s) (byteOffset s) target
    end.

Fixpoint byteOfUnits (rs : list (Z * nat)) (units byteOff target len : Z) : Z * bool :=
  match rs with
  | [] => (len, false)
  | (r, size) :: rs' =>
      if units =? target then (byteOff, false)
      else if target <? units + utf16Width r then (byteOff, true)
      else byteOfUnits rs' (units + utf16Width r) (byteOff + Z.of_nat size) target len
  end.

Definition byteOffsetAtUTF16 (index : contentStringUTF16Index) (target : Z) : option (Z * bool) :=
  if target <=? 0 then Some (0, false)
  else if utf16Length index <=? target then Some (g_len (source index), false)
  else
    match sampleAtOrBeforeUTF16 index target with
    | None => None
    | Some s => Some (byteOfUnits (rangeString (drop (Z.to_nat (byteOffset s)) (g_bytes (source index))))
                        (utf16Offset s) (byteOffset s) target (g_len (source index)))
    end.

Definition fragmentLength (index : contentStringUTF16Index) (fragment : goString) : option Z :=
  match fragmentByteRange index fragment with
  | None => None
  | Some (byteStart, byteEnd) =>
      match utf16OffsetAtByte index byteStart, utf16OffsetAtByte index byteEnd with
      | Some utf16Start, Some utf16End => Some (utf16End - utf16Start)
      | _, _ => None
      end
  end.

(** ** Splitting *)

(** [index.split]: the two halves, their lengths, and whether both are views
    of the fragment; the halves that are not views are new strings. *)
Definition index_split (index : contentStringUTF16Index) (fragment : goString) (offset length : Z) (fresh : Z * Z)
    : option (goString * goString * Z * Z * bool) :=
  let scan := match splitStringUTF16 (g_bytes fragment) offset with
              | None => None
              | Some (l, r) => Some (mkStr fresh.1 l, mkStr fresh.2 r, stringLength l, stringLength r, false)
              end in
  match fragmentByteRange index fragment with
  | None => scan
  | Some (byteStart, byteEnd) =>
      if length <=? offset then Some (fragment, mkStr (g_addr fragment) [], length, 0, true)
      else if offset =? 0 then Some (mkStr (g_addr fragment) [], fragment, 0, length, true)
      else
        match utf16OffsetAtByte index byteStart with
        | None => scan
        | Some utf16Start =>
            match byteOffsetAtUTF16 index (utf16Start + offset) with
            | None => None
            | Some (absoluteByteOffset, bisectsSurrogate) =>
                if byteEnd <=? absoluteByteOffset then Some (fragment, mkStr (g_addr fragment) [], length, 0, true)
                else
                  let localByteOffset := absoluteByteOffset - byteStart in
                  if bisectsSurrogate then
                    let runeBytes := Z.of_nat (decodeRune (drop (Z.to_nat localByteOffset) (g_bytes fragment))).2 in
                    Some (mkStr fresh.1 (g_bytes (g_take localByteOffset fragment) ++ encodeRune RuneError),
                          mkStr fresh.2 (encodeRune RuneError ++ g_bytes (g_drop (localByteOffset + runeBytes) fragment)),
                          offset, length - offset, false)
                  else Some (g_take localByteOffset fragment, g_drop localByteOffset fragment, offset, length - offset, true)
            end
        end
  end.

Record contentStr := mkContentStr { cs_value : goString; cs_index : option contentStringUTF16Index }.

Definition validUTF16Index (c : contentStr) : option contentStringUTF16Index :=
  match cs_index c with
  | None => None
  | Some index => match fragmentByteRange index (cs_value c) with Some _ => Some index | None => None end
  end.

(** [splitStringUTF16AtBoundary] on a string with an address. *)
Definition splitAliased (s : goString) (offset : Z) (fresh : Z * Z) : option (goString * goString * bool) :=
  match splitStringUTF16AtBoundary (g_bytes s) offset with
  | None => None
  | Some (l, r, true) => Some (mkStr (g_addr s) l, mkStr (g_addr s + Z.of_nat (length l)) r, true)
  | Some (l, r, false) => Some (mkStr fresh.1 l, mkStr fresh.2 r, false)
  end.

Definition hasASCIIWidth (c : contentStr) (length : Z) : bool := g_len (cs_value c) =? length.

(** What the switch of [spliceWithLengthIntoBacking] computes: the halves, their
    lengths, [keepsBacking] and the index they may share. *)
Definition spliceHalves (c : contentStr) (offset length : Z) (fresh : Z * Z)
    : option (goString * goString * Z * Z * bool * option contentStringUTF16Index) :=
  let scan index := match splitAliased (cs_value c) offset fresh with
    | None => None
    | Some (l, r, keeps) => Some (l, r, offset, length - offset, keeps, if (keeps : bool) then index else None)
    end in
  if hasASCIIWidth c length then
    let offset := if length <? offset then length else offset in
    Some (g_take offset (cs_value c), g_drop offset (cs_value c), offset, length - offset, true, None)
  else if offset <=? 8 then scan (cs_index c)
  else if match cs_index c with None => length <? contentStringUTF16IndexThreshold | Some _ => false end then scan None
  else
    match (match validUTF16Index c with Some index => Some index | None => buildContentStringUTF16Index (cs_value c) end) with
    | Some index =>
        match index_split index (cs_value c) offset length fresh with
        | None => None
        | Some (l, r, ll, rl, keeps) => Some (l, r, ll, rl, keeps, if (keeps : bool) then Some index else None)
        end
    | None =>
        match splitAliased (cs_value c) offset fresh with
        | None => None
        | Some (l, r, keeps) => Some (l, r, stringLength (g_bytes l), stringLength (g_bytes r), keeps, None)
        end
    end.

Definition spliceWithLengthIntoBacking (c : contentStr) (offset length : Z) (fresh : Z * Z) : option (contentStr * contentStr * bool) :=
  if offset <? 0 then None
  else
    match spliceHalves c offset length fresh with
    | None => None
    | Some (l, r, leftLength, rightLength, keepsBacking, shared) =>
        let keep n := if contentStringUTF16IndexRetention <=? n then shared else None in
        Some (mkContentStr l (keep leftLength), mkContentStr r (keep rightLength), keepsBacking)
    end.

(** [contentString.contentLength]: the index first, else a scan, which also
    normalises the value. *)
Definition scanLength (v : goString) : Z * contentStr :=
  if isASCIIText (g_bytes v) then (g_len v, mkContentStr v None)
  else let '(b, n) := normalizeNonASCIITextUTF8WithLength (g_bytes v) in (n, mkContentStr (mkStr (g_addr v) b) None).

Definition contentStringLength (c : contentStr) : Z * contentStr :=
  match cs_index c with
  | Some index => match fragmentLength index (cs_value c) with Some n => (n, c) | None => scanLength (cs_value c) end
  | None => scanLength (cs_value c)
  end.

(** [mergeSplitRight]: rejoins two adjacent views. *)
Definition mergeSplitRight (c right : contentStr) (leftLength rightLength : Z) : option contentStr :=
  if (g_len (cs_value c) =? 0) || (g_len (cs_value right) =? 0) then None
  else if negb (g_addr (cs_value c) + g_len (cs_value c) =? g_addr (cs_value right)) then None
  else
    let merged := mkStr (g_addr (cs_value c)) (g_bytes (cs_value c) ++ g_bytes (cs_value right)) in
    let index := match cs_index c with Some i => Some i | None => cs_index right end in
    let index := match index with
                 | Some i => match fragmentLength i merged with
                             | Some n => if n =? leftLength + rightLength then Some i else None
                             | None => None
                             end
                 | None => None
                 end in
    Some (mkContentStr merged index).

(** ** The index agrees with the scan *)
Record sample_ok (rs : list Z) (s : contentStringUTF16Sample) : Prop := {
  so_cut : exists pre suf, rs = pre ++ suf /\ byteOffset s = Z.of_nat (length (utf8 pre)) /\ utf16Offset s = widths pre
}.

Record index_ok (index : contentStringUTF16Index) (rs : list Z) : Prop := {
  ix_scalar : Forall scalar rs;
  ix_source : g_bytes (source index) = utf8 rs;
  ix_length : utf16Length index = widths rs;
  ix_samples : forall s, s ∈ samples index -> sample_ok rs s;
  ix_first : samples index !! 0%nat = Some (mkSample 0 0)
}.

Lemma width_bytes r : scalar r -> utf16Width r <= Z.of_nat (length (encodeRune r)).
Proof.
  intros Hr. unfold utf16Width, encodeRune. rewrite bool_decide_true by done.
  destruct (Z.leb_spec 0x10000 r); repeat case_match; simpl; lia.
Qed.

Lemma widths_bytes rs : Forall scalar rs -> widths rs <= Z.of_nat (length (utf8 rs)).
Proof.
  induction 1 as [|r rs Hr _ IH]; [done|]. pose proof (width_bytes r Hr). rewrite utf8_cons, length_app. unfold widths in *. simpl. lia.
Qed.

Lemma snoc_cut {A} (pre : list A) r rs : pre ++ r :: rs = (pre ++ [r]) ++ rs.
Proof. by rewrite <- (assoc_L (++)). Qed.
Lemma widths_snoc pre r : widths (pre ++ [r]) = widths pre + utf16Width r.
Proof. rewrite widths_app. unfold widths. simpl. lia. Qed.
Lemma utf8_snoc pre r : utf8 (pre ++ [r]) = utf8 pre ++ encodeRune r.
Proof. rewrite utf8_app, utf8_cons. by rewrite app_nil_r. Qed.

Lemma firstSample_in s acc : s ∈ firstSample acc -> s = mkSample 0 0 \/ s ∈ acc.
Proof. destruct acc; simpl; set_solver. Qed.

Lemma sampleLoop_ok rs : forall pre next acc units acc', Forall scalar (pre ++ rs) ->
  Z.of_nat (length (utf8 (pre ++ rs))) < 2 ^ 32 ->
  (forall s, s ∈ acc -> sample_ok (pre ++ rs) s) -> (acc = [] \/ acc !! 0%nat = Some (mkSample 0 0)) ->
  sampleLoop (withWidth <$> rs) (Z.of_nat (length (utf8 pre))) (widths pre) next acc = (units, acc') ->
  units = widths (pre ++ rs) /\ (forall s, s ∈ acc' -> sample_ok (pre ++ rs) s) /\ (acc' = [] \/ acc' !! 0%nat = Some (mkSample 0 0)).
Proof.
  induction rs as [|r rs IH]; intros pre next acc units acc' Hs Hb Hacc Hf; cbn [fmap list_fmap sampleLoop withWidth].
  { intros [= <- <-]. rewrite app_nil_r in *. done. }
  destruct (if next <=? widths pre then _ else _) as [acc1 next1] eqn:E1. intros E.
  assert (Hacc1 : (forall s, s ∈ acc1 -> sample_ok (pre ++ r :: rs) s) /\ (acc1 = [] \/ acc1 !! 0%nat = Some (mkSample 0 0))).
  { destruct (next <=? widths pre); [|by simplify_eq]. injection E1 as <- _. apply Forall_app in Hs as [Hp _].
    pose proof (widths_bytes pre Hp). pose proof (widths_nonneg pre). rewrite utf8_app, length_app in Hb. split.
    - intros s [Hin| ->]%elem_snoc.
      + apply firstSample_in in Hin as [->|Hin]; [|by apply Hacc]. constructor. by exists [], (pre ++ r :: rs).
      + constructor. exists pre, (r :: rs). split_and!; [done|..]; apply Z.mod_small; lia.
    - right. destruct Hf as [->|Hf]; [done|]. destruct acc; [done|]. by simpl in *. }
  destruct Hacc1 as [H1 H2]. rewrite snoc_cut. apply (IH (pre ++ [r]) next1 acc1); rewrite <- ?snoc_cut; try done.
  rewrite widths_snoc, utf8_snoc, length_app, Nat2Z.inj_add. exact E.
Qed.

Lemma build_ok src index rs : Forall scalar rs -> g_bytes src = utf8 rs -> buildContentStringUTF16Index src = Some index ->
  source index = src /\ index_ok index rs.
Proof.
  intros Hs Eb. unfold buildContentStringUTF16Index. destruct (_ || _) eqn:Eg; [done|]. apply orb_false_iff in Eg as [_ Hlen].
  apply Z.ltb_ge in Hlen. change ((2 ^ 32 - 1) / 2) with 2147483647 in Hlen. unfold g_len in *. rewrite Eb in *. rewrite range_utf8 by done.
  destruct (sampleLoop _ 0 0 _ []) as [units acc] eqn:El.
  destruct (sampleLoop_ok rs [] contentStringUTF16IndexStride [] units acc) as (-> & Hacc & Hf);
    [done|simpl; lia|set_solver|by left|done|]. cbn [app] in *.
  destruct (_ <? _); [done|]. intros [= <-]. split; [done|].
  assert (H0 : firstSample acc !! 0%nat = Some (mkSample 0 0)) by (destruct Hf as [->|Hf]; [done|by destruct acc]).
  assert (Hin : forall s, s ∈ firstSample acc -> sample_ok rs s).
  { intros s [->|Hin]%firstSample_in; [|by apply Hacc]. constructor. by exists [], rs. }
  split; [done|done|done| |]; cbn [samples]; destruct (list.last (firstSample acc)) as [x|] eqn:Ex; [|done| |done]; destruct (_ =? _); [done| |done|].
  - intros s [?| ->]%elem_snoc; [by apply Hin|]. constructor. exists rs, []. pose proof (widths_bytes rs Hs). pose proof (widths_nonneg rs).
    split_and!; [by rewrite app_nil_r|..]; apply Z.mod_small; lia.
  - destruct (firstSample acc); [done|]. by simpl in *.
Qed.

(** *** The search *)
Lemma sampleSearch_ok key ss target n : forall low high, 0 <= low <= high -> high <= Z.of_nat (length ss) ->
  (Z.to_nat (high - low) < n)%nat -> (forall s, ss !! 0%nat = Some s -> key s <= target) -> (0 < length ss)%nat ->
  (low = 0 \/ exists s, zlookup ss (low - 1) = Some s /\ key s <= target) -> (0 < high) ->
  exists s, sampleSearch n key ss low high target = Some s /\ s ∈ ss /\ key s <= target.
Proof.
  induction n as [|n IH]; intros low high Hl Hh Hn H0 Hne Hlow Hhigh; [lia|]. cbn [sampleSearch].
  destruct (Z.ltb_spec low high) as [Hlt|Hge].
  - rewrite Z.shiftr_div_pow2 by lia. change (2 ^ 1) with 2. set (m := (low + high) / 2).
    assert (Hm : low <= m < high) by (unfold m; zdiv).
    assert (Hz : is_Some (zlookup ss m)) by (apply zlookup_is_Some; lia). destruct Hz as [s Hs]. rewrite Hs.
    destruct (Z.leb_spec (key s) target).
    + apply IH; try lia; [done|]. right. exists s. by replace (m + 1 - 1) with m by lia.
    + apply IH; try lia; [done|done|]. destruct (decide (m = 0)) as [E|]; [|lia]. rewrite E in Hs.
      change 0 with (Z.of_nat 0) in Hs. rewrite zlookup_nat in Hs. specialize (H0 s Hs). lia.
  - assert (low = high) as -> by lia. destruct Hlow as [->|(s & Hs & Hk)]; [lia|]. exists s. split_and!; [done|by eapply zlookup_elem|done].
Qed.

Lemma sample_found index rs key target : index_ok index rs -> 0 <= target -> (key = byteOffset \/ key = utf16Offset) ->
  exists s, sampleSearch (length (samples index) + 1) key (samples index) 0 (Z.of_nat (length (samples index))) target = Some s /\
    sample_ok rs s /\ key s <= target.
Proof.
  intros Hi Ht Hk. pose proof (ix_first _ _ Hi) as Hf. pose proof (lookup_lt_Some _ _ _ Hf).
  destruct (sampleSearch_ok key (samples index) target (length (samples index) + 1) 0 (Z.of_nat (length (samples index))))
    as (s & -> & Hin & Hle); [lia..| |lia|by left|lia|].
  - intros s Hs. rewrite Hf in Hs. injection Hs as <-. destruct Hk as [-> | ->]; done.
  - exists s. split_and!; [done| |done]. by apply (ix_samples _ _ Hi).
Qed.

(** *** Cuts of a sequence of runes *)
Lemma width_pos_cons r rs : 0 < widths (r :: rs).
Proof. pose proof (width_pos r). pose proof (widths_nonneg rs). unfold widths in *. simpl. lia. Qed.

(** Two cuts of one sequence: the narrower left part is a prefix. *)
Lemma cut_compare (a1 a2 b1 b2 : list Z) : a1 ++ a2 = b1 ++ b2 -> widths a1 <= widths b1 ->
  exists k, b1 = a1 ++ k /\ a2 = k ++ b2.
Proof.
  revert b1. induction a1 as [|x a1 IH]; intros b1 E Hw; [by exists b1|]. destruct b1 as [|y b1].
  - pose proof (width_pos_cons x a1). change (widths []) with 0 in Hw. lia.
  - injection E as <- E. destruct (IH b1 E) as (k & -> & ->); [unfold widths in *; simpl in Hw; lia|]. by exists k.
Qed.

Lemma cut_equal (a1 a2 b1 b2 : list Z) : a1 ++ a2 = b1 ++ b2 -> widths a1 = widths b1 -> a1 = b1 /\ a2 = b2.
Proof.
  intros E Hw. destruct (cut_compare a1 a2 b1 b2 E) as (k & -> & ->); [lia|]. rewrite widths_app in Hw.
  destruct k as [|x k]; [by rewrite app_nil_r|]. pose proof (width_pos_cons x k). lia.
Qed.

Lemma cutAt_unique rs offset res1 res2 : cutAt rs offset res1 -> cutAt rs offset res2 -> res1 = res2.
Proof.
  assert (Hin : forall rs1 r rs2 a1 a2, rs = rs1 ++ r :: rs2 -> 0x10000 <= r -> widths rs1 + 1 = offset -> rs = a1 ++ a2 -> widths a1 = offset -> False).
  { intros rs1 r rs2 a1 a2 E Hr Hw E' Hw'. subst rs. destruct (cut_compare rs1 (r :: rs2) a1 a2 E') as (k & -> & Ek); [lia|].
    rewrite widths_app in Hw'. destruct k as [|x k]; [unfold widths in *; simpl in *; lia|]. injection Ek as <- _.
    pose proof (widths_nonneg k). assert (utf16Width r = 2) by (unfold utf16Width; destruct (Z.leb_spec 0x10000 r); lia).
    unfold widths in *. simpl in *. lia. }
  assert (Hend : forall a1 a2, widths rs <= offset -> rs = a1 ++ a2 -> widths a1 = offset -> a1 = rs /\ a2 = []).
  { intros a1 a2 Hw E Ha. pose proof (widths_nonneg a2). subst rs. rewrite widths_app in Hw.
    destruct a2 as [|x a2]; [by rewrite app_nil_r|]. pose proof (width_pos_cons x a2). lia. }
  assert (Hend2 : forall rs1 r rs2, widths rs <= offset -> rs = rs1 ++ r :: rs2 -> 0x10000 <= r -> widths rs1 + 1 = offset -> False).
  { intros rs1 r rs2 Hw E Hr Ho. subst rs. rewrite widths_app in Hw. pose proof (widths_nonneg rs2).
    assert (utf16Width r = 2) by (unfold utf16Width; destruct (Z.leb_spec 0x10000 r); lia). unfold widths in *. simpl in *. lia. }
  intros [Hw|a1 a2 E Hw|a1 r a2 E Hr Hw]; intros [Hw'|b1 b2 E' Hw'|b1 r' b2 E' Hr' Hw']; try done; try (exfalso; by eauto).
  - by destruct (Hend b1 b2) as [-> ->].
  - by destruct (Hend a1 a2) as [-> ->].
  - subst rs. by destruct (cut_equal _ _ _ _ E') as [-> ->]; [lia|].
  - subst rs. destruct (cut_equal _ _ _ _ E') as [-> [= -> ->]]; [lia|]. done.
Qed.

Lemma utf8_prefix vs : forall q rest, Forall scalar vs -> Forall scalar q -> utf8 q = utf8 vs ++ rest ->
  exists w, q = vs ++ w /\ rest = utf8 w.
Proof.
  induction vs as [|v vs IH]; intros q rest Hv Hq E; [by exists q|]. inversion Hv as [|? ? Hv1 Hv2]; subst.
  pose proof (encodeRune_length v). destruct q as [|x q].
  { apply (f_equal length) in E. rewrite utf8_cons, !length_app in E. simpl in E. lia. }
  inversion Hq as [|? ? Hx Hq2]; subst. rewrite !utf8_cons, <- app_assoc in E.
  pose proof (f_equal decodeRune E) as Ed. rewrite !decodeRune_encode in Ed by done. injection Ed as -> _.
  apply app_inv_head in E. destruct (IH q rest Hv2 Hq2 E) as (w & -> & ->). by exists w.
Qed.

(** *** Lookups *)
Lemma unitsToByte_cut rs : forall pre target u, Z.of_nat (length (utf8 pre)) <= target ->
  unitsToByte (withWidth <$> rs) (widths pre) (Z.of_nat (length (utf8 pre))) target = Some u ->
  exists p q, pre ++ rs = p ++ q /\ Z.of_nat (length (utf8 p)) = target /\ u = widths p.
Proof.
  induction rs as [|r rs IH]; intros pre target u Ht; cbn [fmap list_fmap unitsToByte withWidth];
    destruct (Z.ltb_spec (Z.of_nat (length (utf8 pre))) target) as [Hlt|Hge].
  - done.
  - destruct (Z.eqb_spec (Z.of_nat (length (utf8 pre))) target); [|done]. intros [= <-]. by exists pre, [].
  - destruct (Z.ltb_spec target (Z.of_nat (length (utf8 pre)) + Z.of_nat (length (encodeRune r)))) as [|Hge]; [done|].
    intros E. rewrite snoc_cut. apply (IH (pre ++ [r])); [rewrite utf8_snoc, length_app; lia|].
    by rewrite widths_snoc, utf8_snoc, length_app, Nat2Z.inj_add.
  - destruct (Z.eqb_spec (Z.of_nat (length (utf8 pre))) target); [|done]. intros [= <-]. by exists pre, (r :: rs).
Qed.

Lemma byteOfUnits_cut rs : forall pre target len, widths pre <= target < widths (pre ++ rs) ->
  match byteOfUnits (withWidth <$> rs) (widths pre) (Z.of_nat (length (utf8 pre))) target len with
  | (b, false) => exists p q, pre ++ rs = p ++ q /\ widths p = target /\ b = Z.of_nat (length (utf8 p))
  | (b, true) => exists p r q, pre ++ rs = p ++ r :: q /\ 0x10000 <= r /\ widths p + 1 = target /\ b = Z.of_nat (length (utf8 p))
  end.
Proof.
  induction rs as [|r rs IH]; intros pre target len Ht; cbn [fmap list_fmap byteOfUnits withWidth].
  { rewrite app_nil_r in Ht. lia. }
  destruct (Z.eqb_spec (widths pre) target); [by exists pre, (r :: rs)|].
  destruct (Z.ltb_spec target (widths pre + utf16Width r)).
  - exists pre, r, rs. split_and!; try done; unfold utf16Width in *; destruct (Z.leb_spec 0x10000 r); lia.
  - rewrite snoc_cut in *. specialize (IH (pre ++ [r]) target len).
    rewrite widths_snoc, utf8_snoc, length_app, Nat2Z.inj_add in IH. apply IH. lia.
Qed.

Lemma range_from index rs s : index_ok index rs -> sample_ok rs s ->
  exists pre suf, rs = pre ++ suf /\ byteOffset s = Z.of_nat (length (utf8 pre)) /\ utf16Offset s = widths pre /\
    rangeString (drop (Z.to_nat (byteOffset s)) (g_bytes (source index))) = withWidth <$> suf.
Proof.
  intros Hi [(pre & suf & -> & Eb & Eu)]. exists pre, suf. split_and!; [done..|].
  rewrite (ix_source _ _ Hi), Eb, Nat2Z.id, utf8_app, drop_app_length. apply range_utf8.
  pose proof (ix_scalar _ _ Hi) as Hs. by apply Forall_app in Hs as [_ ?].
Qed.

Lemma utf16OffsetAtByte_cut index rs target u : index_ok index rs -> utf16OffsetAtByte index target = Some u ->
  exists p q, rs = p ++ q /\ Z.of_nat (length (utf8 p)) = target /\ u = widths p.
Proof.
  intros Hi. unfold utf16OffsetAtByte. destruct (Z.ltb_spec target 0); [done|]. cbn [orb]. destruct (_ <? target); [done|].
  unfold sampleAtOrBeforeByte. destruct (sample_found index rs byteOffset target Hi) as (s & -> & Hs & Hle); [lia|by left|].
  destruct (range_from index rs s Hi Hs) as (pre & suf & -> & Eb & Eu & ->). rewrite Eb, Eu. apply unitsToByte_cut. lia.
Qed.

Lemma byteOffsetAtUTF16_cut index rs target : index_ok index rs -> 0 < target < widths rs ->
  exists res, byteOffsetAtUTF16 index target = Some res /\
  match res with
  | (b, false) => exists p q, rs = p ++ q /\ widths p = target /\ b = Z.of_nat (length (utf8 p))
  | (b, true) => exists p r q, rs = p ++ r :: q /\ 0x10000 <= r /\ widths p + 1 = target /\ b = Z.of_nat (length (utf8 p))
  end.
Proof.
  intros Hi Ht. unfold byteOffsetAtUTF16. destruct (Z.leb_spec target 0); [lia|]. rewrite (ix_length _ _ Hi).
  destruct (Z.leb_spec (widths rs) target); [lia|]. unfold sampleAtOrBeforeUTF16.
  destruct (sample_found index rs utf16Offset target Hi) as (s & -> & Hs & Hle); [lia|by right|].
  destruct (range_from index rs s Hi Hs) as (pre & suf & -> & Eb & Eu & ->). rewrite Eb, Eu in *.
  eexists. split; [done|]. apply byteOfUnits_cut. lia.
Qed.

Lemma cut_bytes (a1 a2 b1 b2 : list Z) : a1 ++ a2 = b1 ++ b2 -> length (utf8 a1) = length (utf8 b1) -> a1 = b1.
Proof.
  revert b1. induction a1 as [|x a1 IH]; intros [|y b1] E Hw; [done|..].
  - rewrite utf8_cons, length_app in Hw. pose proof (encodeRune_length y). simpl in Hw. lia.
  - rewrite utf8_cons, length_app in Hw. pose proof (encodeRune_length x). simpl in Hw. lia.
  - injection E as <- E. f_equal. apply (IH b1 E). rewrite !utf8_cons, !length_app in Hw. lia.
Qed.

(** *** Fragments *)

(** Where the addresses of two strings overlap, so do their bytes. *)
Definition in_memory (index : contentStringUTF16Index) (s : goString) : Prop :=
  forall i j x y, g_bytes s !! i = Some x -> g_bytes (source index) !! j = Some y ->
    g_addr s + Z.of_nat i = g_addr (source index) + Z.of_nat j -> x = y.

Lemma fragment_bytes index s a b : in_memory index s -> fragmentByteRange index s = Some (a, b) ->
  0 <= a /\ b = a + g_len s /\ b <= g_len (source index) /\
  g_bytes s = take (length (g_bytes s)) (drop (Z.to_nat a) (g_bytes (source index))).
Proof.
  intros Hm. unfold fragmentByteRange. destruct (_ || _); [done|]. destruct (Z.ltb_spec (g_addr s) (g_addr (source index))); [done|].
  destruct (Z.ltb_spec (g_len (source index)) (g_addr s - g_addr (source index))); [done|].
  destruct (Z.ltb_spec (g_len (source index) - (g_addr s - g_addr (source index))) (g_len s)); [done|]. intros [= <- <-].
  unfold g_len in *. split_and!; [lia|lia|lia|]. apply list_eq_same_length with (length (g_bytes s)); [| |].
  - rewrite length_take, length_drop. lia.
  - done.
  - intros i x y Hi Hx Hy. rewrite lookup_take in Hy. destruct (decide _) in Hy; [|done]. rewrite lookup_drop in Hy.
    eapply Hm; [exact Hx|exact Hy|]. lia.
Qed.

(** The runes of a fragment are a stretch of the runes of the source, when it
    starts at a rune. *)
Lemma fragment_runes index rs s a b vs p q : index_ok index rs -> in_memory index s -> fragmentByteRange index s = Some (a, b) ->
  g_bytes s = utf8 vs -> Forall scalar vs -> rs = p ++ q -> Z.of_nat (length (utf8 p)) = a ->
  exists w, q = vs ++ w.
Proof.
  intros Hi Hm Hf Ev Hv -> Hp. destruct (fragment_bytes index s a b Hm Hf) as (Ha & -> & Hb & Es).
  pose proof (ix_scalar _ _ Hi) as Hs. apply Forall_app in Hs as [_ Hq].
  rewrite (ix_source _ _ Hi), <- Hp, Nat2Z.id, utf8_app, drop_app_length, Ev in Es.
  destruct (utf8_prefix vs q (drop (length (utf8 vs)) (utf8 q)) Hv Hq) as (w & -> & _); [|by exists w].
  rewrite Es at 1. by rewrite take_drop.
Qed.

Lemma fragmentLength_ok index rs s vs n : index_ok index rs -> in_memory index s -> g_bytes s = utf8 vs -> Forall scalar vs ->
  fragmentLength index s = Some n -> n = widths vs.
Proof.
  intros Hi Hm Ev Hv. unfold fragmentLength. destruct (fragmentByteRange index s) as [[a b]|] eqn:Hf; [|done].
  destruct (utf16OffsetAtByte index a) as [ua|] eqn:Ea; [|done]. destruct (utf16OffsetAtByte index b) as [ub|] eqn:Eb; [|done].
  intros [= <-]. destruct (utf16OffsetAtByte_cut index rs a ua Hi Ea) as (p & q & E & Hp & ->).
  destruct (utf16OffsetAtByte_cut index rs b ub Hi Eb) as (p' & q' & E' & Hp' & ->).
  destruct (fragment_runes index rs s a b vs p q Hi Hm Hf Ev Hv E Hp) as (w & ->).
  destruct (fragment_bytes index s a b Hm Hf) as (_ & -> & _). unfold g_len in Hp'. rewrite Ev in Hp'.
  assert (p ++ vs = p') as <-. { apply (cut_bytes _ w _ q'); [by rewrite <- (assoc_L (++)), <- E|]. rewrite utf8_app, length_app. lia. }
  rewrite widths_app. lia.
Qed.

(** The halves of a split, whichever way they were found. *)
Definition halves_ok (s : goString) (vs : list Z) (offset : Z) (l r : goString) (ll rl : Z) (keeps : bool) : Prop :=
  (exists b, cutAt vs offset (g_bytes l, g_bytes r, b)) /\ ll = stringLength (g_bytes l) /\ rl = stringLength (g_bytes r) /\
  (keeps = true -> g_bytes l ++ g_bytes r = g_bytes s /\ g_addr l = g_addr s /\
     (g_bytes r = [] \/ g_addr r = g_addr s + g_len l)).

Lemma cut_lengths vs offset l r b : Forall scalar vs -> 0 <= offset -> cutAt vs offset (l, r, b) ->
  stringLength l = Z.min offset (widths vs) /\ stringLength r = widths vs - Z.min offset (widths vs).
Proof.
  intros Hv Ho Hc. pose proof (widths_nonneg vs).
  assert (HE : forall us, Forall scalar us -> Forall scalar (us ++ [RuneError]) /\ Forall scalar (RuneError :: us)).
  { intros us Hu. split; [apply Forall_app; split; [done|apply Forall_singleton, RuneError_scalar]|constructor; [apply RuneError_scalar|done]]. }
  inversion Hc as [Hw|rs1 rs2 E Ew|rs1 x rs2 E Hx Ew]; subst.
  - rewrite stringLength_utf8 by done. change (stringLength []) with 0. lia.
  - apply Forall_app in Hv as [H1 H2]. rewrite !stringLength_utf8 by done. rewrite widths_app. pose proof (widths_nonneg rs2). lia.
  - apply Forall_app in Hv as [H1 H2]. inversion H2 as [|? ? H3 H4]; subst. rewrite <- utf8_snoc. change (stringLength (_ :: _ :: _ :: utf8 rs2)) with (stringLength (utf8 (RuneError :: rs2))).
    rewrite !stringLength_utf8 by (by apply HE). rewrite widths_snoc, widths_app. pose proof (widths_nonneg rs2).
    assert (utf16Width x = 2) by (unfold utf16Width; destruct (Z.leb_spec 0x10000 x); lia).
    unfold widths in *. simpl in *. change (utf16Width RuneError) with 1. lia.
Qed.

Lemma scan_halves s vs offset fresh : g_bytes s = utf8 vs -> Forall scalar vs -> 0 <= offset ->
  exists l r, splitStringUTF16 (g_bytes s) offset = Some (l, r) /\
    halves_ok s vs offset (mkStr fresh.1 l) (mkStr fresh.2 r) (stringLength l) (stringLength r) false.
Proof.
  intros Ev Hv Ho. unfold splitStringUTF16. rewrite Ev. destruct (split_cut vs offset Hv Ho) as ([[l r] b] & -> & Hc).
  exists l, r. split; [done|]. split_and!; [by exists b|done|done|done].
Qed.

Lemma index_split_ok index rs s vs offset fresh : index_ok index rs -> in_memory index s -> g_bytes s = utf8 vs -> Forall scalar vs ->
  0 <= offset -> exists l r ll rl k, index_split index s offset (widths vs) fresh = Some (l, r, ll, rl, k) /\ halves_ok s vs offset l r ll rl k.
Proof.
  intros Hi Hm Ev Hv Ho. unfold index_split. destruct (scan_halves s vs offset fresh Ev Hv Ho) as (sl & sr & -> & Hscan).
  destruct (fragmentByteRange index s) as [[a b]|] eqn:Hf; [|do 5 eexists; split; done].
  destruct (Z.leb_spec (widths vs) offset) as [Hge|Hlt].
  { do 5 eexists. split; [done|]. unfold halves_ok. cbn [g_bytes g_addr]. rewrite Ev, app_nil_r. split_and!; [|by rewrite stringLength_utf8|done|by auto].
    exists true. by constructor. }
  destruct (Z.eqb_spec offset 0) as [->|Hne].
  { do 5 eexists. split; [done|]. unfold halves_ok. cbn [g_bytes g_addr]. rewrite Ev. split_and!; [|done|by rewrite stringLength_utf8|].
    - exists true. by apply (CutBoundary vs 0 [] vs).
    - intros _. split_and!; [done|done|]. right. unfold g_len. simpl. lia. }
  destruct (utf16OffsetAtByte index a) as [u|] eqn:Eu; [|do 5 eexists; split; done].
  destruct (utf16OffsetAtByte_cut index rs a u Hi Eu) as (p & q & E & Hp & ->).
  destruct (fragment_runes index rs s a b vs p q Hi Hm Hf Ev Hv E Hp) as (w & ->).
  destruct (fragment_bytes index s a b Hm Hf) as (Ha & -> & Hb & _).
  pose proof (widths_nonneg p). pose proof (widths_nonneg w).
  destruct (byteOffsetAtUTF16_cut index rs (widths p + offset) Hi) as ([x bis] & -> & Hx).
  { subst rs. rewrite !widths_app. lia. }
  assert (Hlen : g_len s = Z.of_nat (length (utf8 vs))) by (unfold g_len; by rewrite Ev).
  destruct bis.
  - destruct Hx as (c & r & d & E2 & Hr & Hc & ->). rewrite E in E2.
    destruct (cut_compare p (vs ++ w) c (r :: d) E2) as (v1 & -> & E3); [lia|]. rewrite widths_app in Hc.
    destruct (cut_compare v1 (r :: d) vs w (eq_sym E3)) as (v2 & -> & E4); [lia|].
    destruct v2 as [|r' v2]; [rewrite app_nil_r in Hlt; lia|]. injection E4 as <- ->.
    apply Forall_app in Hv as [Hv1 Hv2]. inversion Hv2 as [|? ? Hrs Hv3]; subst.
    rewrite utf8_app, length_app. rewrite utf8_app, utf8_cons, !length_app in Hlen.
    pose proof (encodeRune_length r).
    destruct (Z.leb_spec (Z.of_nat (length (utf8 p)) + g_len s) (Z.of_nat (length (utf8 p) + length (utf8 v1)))); [lia|].
    replace (Z.of_nat (length (utf8 p) + length (utf8 v1)) - Z.of_nat (length (utf8 p))) with (Z.of_nat (length (utf8 v1))) by lia.
    do 5 eexists. split; [done|]. unfold halves_ok, g_take, g_drop. cbn [g_bytes].
    assert (Hcut : cutAt (v1 ++ r :: v2) offset (utf8 v1 ++ encodeRune RuneError, encodeRune RuneError ++ utf8 v2, false)).
    { eapply CutInside; [done|done|lia]. }
    rewrite Ev, utf8_app, utf8_cons, Nat2Z.id, take_app_length, drop_app_length, decodeRune_encode by done. cbn [snd].
    replace (Z.to_nat (Z.of_nat (length (utf8 v1)) + Z.of_nat (length (encodeRune r)))) with (length (utf8 v1 ++ encodeRune r)) by (rewrite length_app; lia).
    rewrite (app_assoc (utf8 v1)), drop_app_length.
    destruct (cut_lengths (v1 ++ r :: v2) offset _ _ _ (proj2 (Forall_app _ _ _) (conj Hv1 Hv2)) Ho Hcut) as [L1 L2].
    split_and!; [by eexists|lia|lia|done].
  - destruct Hx as (c & d & E2 & Hc & ->). rewrite E in E2.
    destruct (cut_compare p (vs ++ w) c d E2) as (v1 & -> & E3); [lia|]. rewrite widths_app in Hc.
    destruct (cut_compare v1 d vs w (eq_sym E3)) as (v2 & -> & ->); [lia|].
    destruct v2 as [|r' v2]; [rewrite app_nil_r in Hlt; lia|].
    pose proof (encodeRune_length r').
    rewrite utf8_app, length_app. rewrite utf8_app, utf8_cons, !length_app in Hlen.
    destruct (Z.leb_spec (a + g_len s) (Z.of_nat (length (utf8 p) + length (utf8 v1)))); [lia|].
    replace (Z.of_nat (length (utf8 p) + length (utf8 v1)) - a) with (Z.of_nat (length (utf8 v1))) by lia.
    do 5 eexists. split; [done|]. unfold halves_ok, g_take, g_drop. cbn [g_bytes g_addr].
    assert (Hcut : cutAt (v1 ++ r' :: v2) offset (utf8 v1, utf8 (r' :: v2), true)) by (eapply CutBoundary; [done|lia]).
    rewrite Ev, utf8_app, Nat2Z.id, take_app_length, drop_app_length.
    destruct (cut_lengths (v1 ++ r' :: v2) offset _ _ _ Hv Ho Hcut) as [L1 L2].
    split_and!; [by eexists|lia|lia|]. intros _. split_and!; [done|done|by right].
Qed.

Lemma ascii_width vs : Forall scalar vs -> Z.of_nat (length (utf8 vs)) = widths vs -> utf8 vs = vs /\ widths vs = Z.of_nat (length vs).
Proof.
  induction 1 as [|r vs Hr Hs IH]; [done|]. rewrite utf8_cons, length_app. unfold widths. cbn [foldr]. fold (widths vs). intros E.
  pose proof (width_bytes r Hr) as H1. pose proof (widths_bytes vs Hs) as H2.
  assert (Er : encodeRune r = [r] /\ utf16Width r = 1).
  { assert (E1 : utf16Width r = Z.of_nat (length (encodeRune r))) by lia. revert E1. unfold utf16Width, encodeRune.
    rewrite bool_decide_true by done. destruct (Z.leb_spec 0x10000 r); repeat case_match; simpl; intros; (done || lia). }
  destruct Er as [-> ->]. destruct IH as [E1 E2]; [lia|]. rewrite E1. split; [done|]. simpl. lia.
Qed.

Lemma ascii_halves s vs offset length : g_bytes s = utf8 vs -> Forall scalar vs -> 0 <= offset -> g_len s = widths vs -> length = widths vs ->
  let offset' := if length <? offset then length else offset in
  exists ll rl, halves_ok s vs offset (g_take offset' s) (g_drop offset' s) ll rl true.
Proof.
  intros Ev Hv Ho Hl -> offset'. unfold g_len in Hl. rewrite Ev in Hl. destruct (ascii_width vs Hv Hl) as [Eu Ew]. do 2 eexists.
  pose proof (widths_nonneg vs). assert (0 <= offset' <= widths vs) by (unfold offset'; destruct (Z.ltb_spec (widths vs) offset); lia).
  unfold halves_ok, g_take, g_drop, g_len. cbn [g_bytes g_addr]. rewrite Ev, Eu. split_and!; [|done|done|].
  - exists true. unfold offset'. destruct (Z.ltb_spec (widths vs) offset).
    + rewrite take_ge, drop_ge by lia. rewrite <- Eu at 2. constructor. lia.
    + rewrite <- (take_drop (Z.to_nat offset) vs) in Hv. apply Forall_app in Hv as [Hv1 Hv2].
      assert (Hsplit : utf8 (take (Z.to_nat offset) vs) = take (Z.to_nat offset) vs /\ utf8 (drop (Z.to_nat offset) vs) = drop (Z.to_nat offset) vs /\
                       widths (take (Z.to_nat offset) vs) = offset).
      { pose proof (widths_bytes _ Hv1). pose proof (widths_bytes _ Hv2). rewrite <- (take_drop (Z.to_nat offset) vs), utf8_app, length_app, widths_app in Hl.
        destruct (ascii_width _ Hv1) as [-> E1]; [lia|]. destruct (ascii_width _ Hv2) as [-> _]; [lia|]. split_and!; [done..|].
        rewrite E1, length_take. lia. }
      destruct Hsplit as (E1 & E2 & E3). rewrite <- E1, <- E2. eapply CutBoundary; [by rewrite take_drop|done].
  - intros _. split_and!; [apply take_drop|done|]. right. rewrite length_take. lia.
Qed.

Lemma aliased_halves s vs offset fresh : g_bytes s = utf8 vs -> Forall scalar vs -> 0 <= offset ->
  exists l r k ll rl, splitAliased s offset fresh = Some (l, r, k) /\ halves_ok s vs offset l r ll rl k.
Proof.
  intros Ev Hv Ho. unfold splitAliased. rewrite Ev. destruct (split_cut vs offset Hv Ho) as ([[l r] b] & -> & Hc).
  destruct (cut_units vs offset l r b Hv Ho Hc) as (_ & _ & _ & _ & _ & _ & _ & Happ).
  destruct b; do 5 eexists; (split; [done|]); (split_and!; [by eexists|done|done|]); [|done].
  intros _. cbn [g_bytes g_addr]. rewrite Ev. split_and!; [by apply Happ|done|by right].
Qed.

(** *** Contents *)
Definition cs_ok (c : contentStr) : Prop :=
  valid (g_bytes (cs_value c)) /\
  match cs_index c with Some index => in_memory index (cs_value c) /\ exists rs, index_ok index rs | None => True end.

Definition shared_ok (s : goString) (shared : option contentStringUTF16Index) : Prop :=
  match shared with Some index => in_memory index s /\ exists rs, index_ok index rs | None => True end.

Lemma in_memory_halves index s vs offset l r ll rl : in_memory index s -> halves_ok s vs offset l r ll rl true ->
  in_memory index l /\ in_memory index r.
Proof.
  intros Hm (_ & _ & _ & Hk). destruct (Hk eq_refl) as (Eb & El & Er). split; intros i j x y Hi Hj Ha.
  - eapply (Hm i); [|exact Hj|lia]. rewrite <- Eb. by apply lookup_app_l_Some.
  - destruct Er as [E|Er]; [by rewrite E in Hi|]. unfold g_len in Er. eapply (Hm (length (g_bytes l) + i)%nat); [|exact Hj|lia].
    rewrite <- Eb, lookup_app_r by lia. by replace (length (g_bytes l) + i - length (g_bytes l))%nat with i by lia.
Qed.

Lemma spliceHalves_ok c vs offset fresh : cs_ok c -> g_bytes (cs_value c) = utf8 vs -> Forall scalar vs -> 0 <= offset ->
  exists l r n1 n2 k shared ll rl, spliceHalves c offset (widths vs) fresh = Some (l, r, n1, n2, k, shared) /\
    halves_ok (cs_value c) vs offset l r ll rl k /\ shared_ok (cs_value c) shared /\ (k = false -> shared = None).
Proof.
  intros [Hval Hidx] Ev Hv Ho. unfold spliceHalves.
  destruct (aliased_halves (cs_value c) vs offset fresh Ev Hv Ho) as (al & ar & ak & all & arl & -> & Hal).
  destruct (hasASCIIWidth c (widths vs)) eqn:Ha.
  { apply Z.eqb_eq in Ha. destruct (ascii_halves (cs_value c) vs offset (widths vs) Ev Hv Ho Ha eq_refl) as (ll & rl & Hh).
    do 8 eexists. split; [done|]. split_and!; [exact Hh|done|done]. }
  assert (Hshare : forall shared, shared_ok (cs_value c) shared -> shared_ok (cs_value c) (if ak then shared else None) /\
    (ak = false -> (if ak then shared else None) = None)) by (by destruct ak).
  destruct (offset <=? 8).
  { do 8 eexists. split; [done|]. split; [exact Hal|]. by apply Hshare. }
  destruct (match cs_index c with None => _ | Some _ => _ end).
  { do 8 eexists. split; [done|]. split; [exact Hal|]. by apply Hshare. }
  destruct (match validUTF16Index c with Some _ => _ | None => _ end) as [index|] eqn:Ei; last first.
  { do 8 eexists. split; [done|]. split; [exact Hal|done]. }
  assert (Hix : in_memory index (cs_value c) /\ exists rs, index_ok index rs).
  { unfold validUTF16Index in Ei. destruct (cs_index c) as [ix|]; [destruct (fragmentByteRange ix (cs_value c))|]; [by simplify_eq| |];
      destruct (build_ok _ _ vs Hv Ev Ei) as [Es Hok]; (split; [|by eexists]); intros i j x y; rewrite Es; intros; replace j with i in * by lia; congruence. }
  destruct Hix as [Hm [rs Hix]].
  destruct (index_split_ok index rs (cs_value c) vs offset fresh Hix Hm Ev Hv Ho) as (l & r & ll & rl & k & -> & Hh).
  do 8 eexists. split; [done|]. split; [exact Hh|]. destruct k; (split; [|done]); [|done]. split; [done|by eexists].
Qed.

Lemma halves_valid s vs offset l r ll rl k : Forall scalar vs -> 0 <= offset -> halves_ok s vs offset l r ll rl k ->
  valid (g_bytes l) /\ valid (g_bytes r).
Proof.
  intros Hv Ho ([b Hc] & _). destruct (cut_units vs offset _ _ b Hv Ho Hc) as (ls & rr & H1 & H2 & -> & -> & _). split; [by exists ls|by exists rr].
Qed.

Lemma merge_halves c1 c2 s vs offset ll rl l1 l2 : halves_ok s vs offset (cs_value c1) (cs_value c2) ll rl true ->
  g_bytes (cs_value c1) <> [] -> g_bytes (cs_value c2) <> [] -> exists c', mergeSplitRight c1 c2 l1 l2 = Some c' /\ cs_value c' = s.
Proof.
  intros (_ & _ & _ & Hk) N1 N2. destruct (Hk eq_refl) as (Eb & El & [Er|Er]); [done|]. unfold mergeSplitRight.
  assert (Hn : forall x : goString, g_bytes x <> [] -> (g_len x =? 0) = false).
  { intros x Hx. unfold g_len. destruct (g_bytes x); [done|]. simpl. lia. }
  rewrite !Hn, Er, El by done. cbn [orb]. rewrite Z.eqb_refl. cbn [negb]. eexists. split; [done|]. cbn [cs_value].
  rewrite Eb. by destruct s.
Qed.

Lemma scanLength_ok v vs : g_bytes v = utf8 vs -> Forall scalar vs -> scanLength v = (widths vs, mkContentStr v None).
Proof.
  intros Ev Hv. unfold scanLength. rewrite Ev. destruct (isASCIIText (utf8 vs)) eqn:Ea.
  - destruct (isASCII_utf8 (utf8 vs) (utf8_bytes vs) Ea) as (H1 & H2 & H3). unfold g_len.
    by rewrite Ev, H3, <- stringLength_utf8, <- H2, stringLength_utf8 by done.
  - unfold normalizeNonASCIITextUTF8WithLength. rewrite scanUnits_utf8 by done. rewrite <- Ev. by destruct v.
Qed.

Lemma contentStringLength_ok c vs : cs_ok c -> g_bytes (cs_value c) = utf8 vs -> Forall scalar vs ->
  exists index, contentStringLength c = (widths vs, mkContentStr (cs_value c) index).
Proof.
  intros [_ Hidx] Ev Hv. unfold contentStringLength.
  destruct (cs_index c) as [index|] eqn:Ei; [destruct Hidx as (Hm & rs & Hi); destruct (fragmentLength index (cs_value c)) eqn:Ef|].
  - rewrite (fragmentLength_ok index rs _ vs _ Hi Hm Ev Hv Ef). exists (Some index). by destruct c; simpl in *; subst.
  - exists None. by apply scanLength_ok.
  - exists None. by apply scanLength_ok.
Qed.

(** C35. The indexed split of a [contentString] agrees with the scan: whatever
    branch it takes (ASCII, short prefix, short string, shared or fresh index,
    fallback), both halves hold the bytes of [splitStringUTF16], the indexes
    they keep are consistent with their bytes, the length answered by the
    index is that of a scan, and halves that are reported to share the backing
    bytes rejoin to the original string. *)
Theorem splice_indexed_agrees (c : contentStr) (offset : Z) (fresh : Z * Z) :
  cs_ok c -> 0 <= offset ->
  (contentStringLength c).1 = stringLength (g_bytes (cs_value c)) /\ cs_value (contentStringLength c).2 = cs_value c /\
  exists c1 c2 keeps,
    spliceWithLengthIntoBacking c offset (stringLength (g_bytes (cs_value c))) fresh = Some (c1, c2, keeps) /\
    splitStringUTF16 (g_bytes (cs_value c)) offset = Some (g_bytes (cs_value c1), g_bytes (cs_value c2)) /\
    cs_ok c1 /\ cs_ok c2 /\
    (keeps = true -> g_bytes (cs_value c1) <> [] -> g_bytes (cs_value c2) <> [] ->
     forall n1 n2, exists c', mergeSplitRight c1 c2 n1 n2 = Some c' /\ cs_value c' = cs_value c).
Proof.
  intros Hc Ho. pose proof Hc as [(vs & Hv & Ev) Hidx].
  destruct (contentStringLength_ok c vs Hc Ev Hv) as (ix & ->). rewrite Ev, stringLength_utf8 by done. split_and!; [done|done|].
  destruct (spliceHalves_ok c vs offset fresh Hc Ev Hv Ho) as (l & r & n1 & n2 & k & shared & ll & rl & Hsp & Hh & Hsh & Hk).
  unfold spliceWithLengthIntoBacking. destruct (Z.ltb_spec offset 0); [lia|]. rewrite Hsp. do 3 eexists. split; [done|].
  destruct (halves_valid _ _ _ _ _ _ _ _ Hv Ho Hh) as [V1 V2].
  assert (Hkeep : forall n x, (x = l \/ x = r) -> shared_ok x (if contentStringUTF16IndexRetention <=? n then shared else None)).
  { intros n x Hx. destruct (_ <=? n); [|done]. destruct shared as [s|]; [|done]. destruct k; [|by specialize (Hk eq_refl)].
    destruct Hsh as [Hm Hix]. destruct (in_memory_halves s _ _ _ _ _ _ _ Hm Hh) as [M1 M2]. destruct Hx as [-> | ->]; done. }
  split_and!; cbn [cs_value cs_index].
  - unfold splitStringUTF16. destruct (split_cut vs offset Hv Ho) as ([[a b] f] & -> & Hcut). destruct Hh as ([f' Hcut'] & _).
    by injection (cutAt_unique _ _ _ _ Hcut Hcut') as -> -> _.
  - split; [done|]. apply Hkeep. by left.
  - split; [done|]. apply Hkeep. by right.
  - intros -> N1 N2 m1 m2. by eapply merge_halves.
Qed.

(** 70 times the rune U+1F600: 140 code units in 280 bytes, cut behind the
    sixth rune through a fresh index. *)
Definition long_runes : list Z := replicate 70 0x1F600.
Definition long_content : contentStr := mkContentStr (mkStr 4096 (utf8 long_runes)) None.

Lemma splice_indexed_agrees_witness :
  (contentStringLength long_content).1 = stringLength (g_bytes (cs_value long_content)) /\
  cs_value (contentStringLength long_content).2 = cs_value long_content /\
  exists c1 c2 keeps,
    spliceWithLengthIntoBacking long_content 12 (stringLength (g_bytes (cs_value long_content))) (8192, 12288) = Some (c1, c2, keeps) /\
    splitStringUTF16 (g_bytes (cs_value long_content)) 12 = Some (g_bytes (cs_value c1), g_bytes (cs_value c2)) /\
    cs_ok c1 /\ cs_ok c2 /\
    (keeps = true -> g_bytes (cs_value c1) <> [] -> g_bytes (cs_value c2) <> [] ->
     forall n1 n2, exists c', mergeSplitRight c1 c2 n1 n2 = Some c' /\ cs_value c' = cs_value long_content).
Proof.
  refine (splice_indexed_agrees long_content 12 (8192, 12288) _ _); [|lia]. split; [|done].
  exists long_runes. split; [|reflexivity]. apply list.Forall_forall. intros r Hr. apply elem_of_replicate in Hr as [-> _]. unfold scalar. lia.
Defined.

Example splice_indexed_example :
  match spliceWithLengthIntoBacking long_content 12 140 (8192, 12288) with
  | Some (c1, c2, keeps) => keeps = true /\ cs_index c1 = None /\ cs_index c2 <> None /\ g_len (cs_value c1) = 24 /\ g_addr (cs_value c2) = 4120
  | None => False
  end.
Proof. vm_compute. repeat split. discriminate. Qed.
