(* ===== verification/StringColumn.v ===== *)
(** * The string column of the V2 format

    Models [crdt/string_codec.go]: all strings of an update are concatenated and
    written once, and their UTF-16 lengths form a run-length column from which
    the decoder cuts the concatenation again. *)
From S2P Require Import Prelude Lib0 Rle Text.

(** [utf16.Decode] of the standard library: a surrogate without its partner is
    the replacement character. *)
Fixpoint utf16Decode (us : list Z) : list Z :=
  match us with
  | [] => []
  | u :: us' =>
      if isHigh u then
        match us' with
        | w :: us'' => if isLow w then (u - 0xD800) * 1024 + (w - 0xDC00) + 0x10000 :: utf16Decode us''
                       else RuneError :: utf16Decode us'
        | [] => [RuneError]
        end
      else if isLow u then RuneError :: utf16Decode us'
      else u :: utf16Decode us'
  end.

(** [text] is without the headroom in front, into which [bytes] writes the
    length prefix. *)
Record stringEncoder := mkSE { se_text : list Z; se_lens : UintOptRle.uintOptRLEEncoder }.

Definition newStringEncoder : stringEncoder := mkSE [] UintOptRle.newUintOptRLEEncoder.

Definition writeWithLength (e : stringEncoder) (s : gostring) (length : Z) : stringEncoder :=
  mkSE (se_text e ++ s) (UintOptRle.writeValue (se_lens e) (u64 length)).

Definition writeString (e : stringEncoder) (s : gostring) : stringEncoder := writeWithLength e s (stringLength s).

Definition stringBytes (e : stringEncoder) : list Z :=
  appendVarUint [] (Z.of_nat (length (se_text e))) ++ se_text e ++ UintOptRle.bytes (se_lens e).

Record stringDecoder := mkSD {
  sd_units : list Z;
  sd_ascii : gostring;
  sd_asciiMode : bool;
  sd_spos : nat;
  sd_lens : UintOptRle.uintOptRLEDecoder;
  sd_initErr : option go_error
}.

Definition newStringDecoder (data : list Z) : stringDecoder :=
  let '(r, rest) := ReadString data in
  let str := match r with Ok s => s | Err _ => [] end in
  let err := match r with Ok _ => None | Err e => Some e end in
  let lens := UintOptRle.newUintOptRLEDecoder rest in
  if isASCIIText str then mkSD [] str true 0 lens err
  else mkSD (utf16 (normalizeTextUTF8 str)) [] false 0 lens err.

(** What is left of the text, in bytes or in code units. *)
Definition textLength (d : stringDecoder) : nat :=
  if sd_asciiMode d then length (sd_ascii d) else length (sd_units d).

Definition stringRemaining (d : stringDecoder) : Z :=
  UintOptRle.remaining (sd_lens d) + (Z.of_nat (textLength d) - Z.of_nat (sd_spos d)).

Definition readStringValue : step stringDecoder gostring := fun d =>
  match sd_initErr d with
  | Some e => (Err e, d)
  | None =>
      let '(r, lens) := UintOptRle.readValue (sd_lens d) in
      let d := mkSD (sd_units d) (sd_ascii d) (sd_asciiMode d) (sd_spos d) lens None in
      match r with
      | Err e => (Err e, d)
      | Ok n =>
          if Z.of_nat (textLength d) - Z.of_nat (sd_spos d) <? n then (Err ErrRange, d)
          else
            let n := Z.to_nat n in
            let d' := mkSD (sd_units d) (sd_ascii d) (sd_asciiMode d) (sd_spos d + n) lens None in
            if sd_asciiMode d then (Ok (take n (drop (sd_spos d) (sd_ascii d))), d')
            else (Ok (utf8 (utf16Decode (take n (drop (sd_spos d) (sd_units d))))), d')
      end
  end.

(** ** Lemmas *)
Lemma utf16Decode_units rs : Forall scalar rs -> utf16Decode (units rs) = rs.
Proof.
  induction 1 as [|r rs Hr _ IH]; [done|]. rewrite units_cons. unfold utf16Of, scalar in *.
  destruct (Z.ltb_spec r 0x10000).
  - cbn [app utf16Decode]. unfold isHigh, isLow.
    destruct (Z.leb_spec 0xD800 r), (Z.ltb_spec r 0xDC00), (Z.leb_spec 0xDC00 r), (Z.ltb_spec r 0xE000); cbn [andb]; try lia; by rewrite IH.
  - cbn [app utf16Decode]. unfold isHigh, isLow.
    assert (0 <= (r - 0x10000) / 1024 < 1024) by (split; [apply Z.div_pos; lia|apply Z.div_lt_upper_bound; lia]).
    pose proof (Z.mod_pos_bound (r - 0x10000) 1024 ltac:(lia)). pose proof (Z.div_mod (r - 0x10000) 1024 ltac:(lia)).
    rewrite !(proj2 (Z.leb_le _ _)), !(proj2 (Z.ltb_lt _ _)) by lia. cbn [andb]. rewrite IH. f_equal. lia.
Qed.

(** The text is cut back at the lengths of its parts. *)
Record at_text (d : stringDecoder) (ss : list gostring) : Prop := {
  at_err : sd_initErr d = None;
  at_pos : (sd_spos d <= textLength d)%nat;
  at_ascii : sd_asciiMode d = true -> drop (sd_spos d) (sd_ascii d) = mjoin ss /\ Forall (fun s => isASCIIText s = true) ss;
  at_units : sd_asciiMode d = false -> drop (sd_spos d) (sd_units d) = mjoin (utf16 <$> ss)
}.

Lemma stringLength_valid s : valid s -> stringLength s = Z.of_nat (length (utf16 s)).
Proof. intros (rs & H & ->). by rewrite stringLength_utf8, utf16_utf8, units_length. Qed.

Lemma ascii_length s : valid s -> isASCIIText s = true -> length (utf16 s) = length s.
Proof.
  intros (rs & H & ->) Ha. destruct (isASCII_utf8 (utf8 rs) (utf8_bytes rs) Ha) as (Hs & E & El).
  rewrite E at 1. rewrite utf16_utf8 by done. pose proof (units_length (utf8 rs)). lia.
Qed.

Lemma utf16_le s : valid s -> (length (utf16 s) <= length s)%nat.
Proof.
  intros (rs & H & ->). rewrite utf16_utf8 by done. induction H as [|r rs Hr _ IH]; [done|]. rewrite units_cons, utf8_cons, !length_app.
  enough (length (utf16Of r) <= length (encodeRune r))%nat by lia. unfold utf16Of, encodeRune. rewrite bool_decide_true by done.
  repeat case_match; simpl; lia.
Qed.

Lemma readN_lens d xs lens : readN UintOptRle.readValue (length xs) (sd_lens d) = (Ok xs, lens) ->
  match xs with
  | [] => lens = sd_lens d
  | x :: xs' => exists l1, UintOptRle.readValue (sd_lens d) = (Ok x, l1) /\ readN UintOptRle.readValue (length xs') l1 = (Ok xs', lens)
  end.
Proof.
  destruct xs as [|x xs]; simpl; [by intros [= ->]|]. destruct (UintOptRle.readValue (sd_lens d)) as [[y|] l1]; [|done].
  destruct (readN _ (length xs) l1) as [[ys|] l2] eqn:E; [|done]. intros [= <- <- <-]. by exists l1.
Qed.

(** One string more. *)
Lemma read_string_step d s ss l1 : valid s -> at_text d (s :: ss) -> UintOptRle.readValue (sd_lens d) = (Ok (stringLength s), l1) ->
  exists d', readStringValue d = (Ok s, d') /\ at_text d' ss /\ sd_lens d' = l1.
Proof.
  intros Hs [He Hp Ha Hu] El. unfold readStringValue. rewrite He, El. cbn [sd_units sd_ascii sd_asciiMode sd_spos].
  rewrite (stringLength_valid s Hs), Nat2Z.id. unfold textLength in *. cbn [sd_asciiMode sd_ascii sd_units].
  destruct (sd_asciiMode d) eqn:Em.
  - destruct (Ha eq_refl) as [E Hall]. apply list.Forall_cons in Hall as [Hs1 Hall]. rewrite mjoin_cons in E.
    rewrite (ascii_length s Hs Hs1). assert (Hl : (length (sd_ascii d) - sd_spos d = length s + length (mjoin ss))%nat).
    { rewrite <- length_drop, E, length_app. done. }
    destruct (Z.ltb_spec (Z.of_nat (length (sd_ascii d)) - Z.of_nat (sd_spos d)) (Z.of_nat (length s))); [lia|].
    eexists. split; [by rewrite E, take_app_length|]. split; [|done]. constructor; [done|unfold textLength; cbn; rewrite ?Em; lia| |by cbn; rewrite ?Em]. intros _. cbn [sd_spos sd_ascii].
    split; [|done]. rewrite <- drop_drop, E. by rewrite drop_app_length.
  - specialize (Hu eq_refl) as E. rewrite fmap_cons, mjoin_cons in E.
    assert (Hl : (length (sd_units d) - sd_spos d = length (utf16 s) + length (mjoin (utf16 <$> ss)))%nat).
    { rewrite <- length_drop, E, length_app. done. }
    destruct (Z.ltb_spec (Z.of_nat (length (sd_units d)) - Z.of_nat (sd_spos d)) (Z.of_nat (length (utf16 s)))); [lia|].
    rewrite E, take_app_length. assert (utf8 (utf16Decode (utf16 s)) = s) as ->.
    { destruct Hs as (rs & Hrs & ->). by rewrite utf16_utf8, utf16Decode_units. }
    eexists. split; [done|]. split; [|done].
    constructor; [done|unfold textLength; cbn; rewrite ?Em; lia|by cbn; rewrite ?Em|]. intros _. cbn [sd_spos sd_units]. rewrite <- drop_drop, E. by rewrite drop_app_length.
Qed.

Lemma read_strings ss : forall d lens, Forall valid ss -> at_text d ss ->
  readN UintOptRle.readValue (length ss) (sd_lens d) = (Ok (stringLength <$> ss), lens) ->
  exists d', readN readStringValue (length ss) d = (Ok ss, d').
Proof.
  induction ss as [|s ss IH]; intros d lens Hv Ht Hl; [by exists d|]. apply list.Forall_cons in Hv as [Hs Hv].
  rewrite fmap_cons in Hl.
  pose proof (readN_lens d (stringLength s :: (stringLength <$> ss)) lens) as H. cbn [length] in H. rewrite length_fmap in H.
  destruct (H Hl) as (l1 & E1 & E2).
  destruct (read_string_step d s ss l1 Hs Ht E1) as (d1 & E & Ht1 & <-).
  destruct (IH d1 lens Hv Ht1 E2) as [d' E']. exists d'. simpl. by rewrite E, E'.
Qed.

Lemma fold_strings ss e : fold_left writeString ss e =
  mkSE (se_text e ++ mjoin ss) (fold_left UintOptRle.writeValue (u64 <$> (stringLength <$> ss)) (se_lens e)).
Proof.
  revert e. induction ss as [|s ss IH]; intros e; simpl; [destruct e; simpl; by rewrite app_nil_r|].
  rewrite IH. unfold writeString, writeWithLength. cbn [se_text se_lens]. by rewrite <- (assoc_L (++)).
Qed.

Lemma valid_mjoin ss : Forall valid ss -> valid (mjoin ss) /\ utf16 (mjoin ss) = mjoin (utf16 <$> ss).
Proof.
  induction 1 as [|s ss Hs _ [IH1 IH2]]; [split; [apply valid_nil|done]|]. rewrite fmap_cons, !mjoin_cons. split; [auto with text|].
  rewrite <- IH2. destruct Hs as (r1 & H1 & ->), IH1 as (r2 & H2 & ->). rewrite <- utf8_app, !utf16_utf8 by (try apply Forall_app; done).
  apply units_app.
Qed.

Lemma ascii_mjoin ss : isASCIIText (mjoin ss) = true -> Forall (fun s => isASCIIText s = true) ss.
Proof.
  induction ss as [|s ss IH]; [constructor|]. rewrite mjoin_cons. unfold isASCIIText. rewrite forallb_app. intros [H1 H2]%andb_prop.
  constructor; [done|]. by apply IH.
Qed.

Lemma normalize_valid s : valid s -> normalizeTextUTF8 s = s.
Proof.
  intros (rs & H & ->). unfold normalizeTextUTF8. rewrite normalize_replace by apply utf8_bytes. cbn [fst]. unfold replaceMalformedUTF8.
  rewrite <- (app_nil_r (utf8 rs)) at 1. rewrite replaceLoop_utf8 by done. cbn. by rewrite app_nil_r.
Qed.

(** The strings of a column are read back one by one, whatever cuts of the
    concatenation they need. *)
Lemma string_encode_decode ss : Forall valid ss -> Z.of_nat (length ss) <= maxRleRunCount -> Z.of_nat (length (mjoin ss)) < 2 ^ 64 ->
  exists d, readN readStringValue (length ss) (newStringDecoder (stringBytes (fold_left writeString ss newStringEncoder))) = (Ok ss, d).
Proof.
  intros Hv Hn Hl. rewrite fold_strings. cbn [newStringEncoder se_text se_lens app]. unfold stringBytes. cbn [se_text se_lens].
  destruct (valid_mjoin ss Hv) as [Hvm Hum].
  assert (Hlen : u64 <$> (stringLength <$> ss) = stringLength <$> ss).
  { rewrite <- (list_fmap_id (stringLength <$> ss)) at 2. apply list_fmap_ext. intros i x Hx. apply u64_small.
    apply list_lookup_fmap_Some in Hx as (s & -> & Hs). pose proof (list_elem_of_lookup_2 _ _ _ Hs) as Hin.
    rewrite list.Forall_forall in Hv. rewrite stringLength_valid by auto. unfold is_u64, id. split; [lia|].
    assert (length (utf16 s) <= length (mjoin (utf16 <$> ss)))%nat.
    { apply list_elem_of_split in Hin as (l1 & l2 & ->). rewrite fmap_app, fmap_cons, join_app. rewrite mjoin_cons, !length_app. lia. }
    rewrite <- Hum in H. pose proof (utf16_le (mjoin ss) Hvm). lia. }
  rewrite Hlen. set (lens := stringLength <$> ss) in *.
  change (UintOptRle.bytes (fold_left UintOptRle.writeValue lens UintOptRle.newUintOptRLEEncoder)) with (UintOptRle.encode lens).
  destruct (UintOptRle.uint_encode_decode lens) as [ld El].
  { rewrite <- Hlen. apply list.Forall_forall. intros x (y & -> & _)%list_elem_of_fmap. apply u64_range. }
  { unfold lens. by rewrite length_fmap. }
  assert (Er : ReadString (appendVarUint [] (Z.of_nat (length (mjoin ss))) ++ mjoin ss ++ UintOptRle.encode lens) = (Ok (mjoin ss), UintOptRle.encode lens)).
  { rewrite appendVarUint_bytes by lia. pose proof (string_roundtrip (mjoin ss) (UintOptRle.encode lens) Hl) as H. unfold WriteString in H.
    rewrite WriteVarUint_bytes, <- (assoc_L (++)) in H by lia. exact H. }
  unfold newStringDecoder. rewrite Er. unfold lens in El. rewrite length_fmap in El. fold lens in El.
  destruct (isASCIIText (mjoin ss)) eqn:Ea.
  - apply (read_strings ss _ ld); [done| |exact El]. constructor; [done|cbn; lia| |done]. intros _. split; [done|]. by apply ascii_mjoin.
  - apply (read_strings ss _ ld); [done| |exact El]. constructor; [done|cbn; lia|done|]. intros _. cbn. by rewrite normalize_valid, Hum, drop_0.
Qed.
