(* ===== verification/Yata.v ===== *)
(** * The insertion algorithm of shared sequences, and its convergence

    [itemStruct.integrateWithScratch] (crdt/item.go) places an item between its
    origin (the item to its left when it was created) and its right origin, and
    resolves the order among concurrent items with a scan over the items in
    between.  This file states that scan on sequences of one-element items,
    where an id is an element, and proves that it converges: replicas that
    integrate the same items in different orders hold the same sequence.
    File [Item] shows that the linked-list code computes this scan. *)
From stdpp Require Import gmap sets list sorting.
From Stdlib Require Import ZArith Lia.
From S2P Require Import Prelude Lib0 StructStore.
Open Scope Z_scope.

(** ** Order of occurrence in a list *)
Section Order.
Context {A : Type}.
Implicit Types (l : list A) (a b c : A).

Fixpoint prec l a b : Prop :=
  match l with
  | [] => False
  | c :: l' => (c = a /\ b ∈ l') \/ prec l' a b
  end.

Definition preceq l a b : Prop := a = b \/ prec l a b.

Lemma prec_app l1 l2 a b :
  prec (l1 ++ l2) a b <-> prec l1 a b \/ prec l2 a b \/ (a ∈ l1 /\ b ∈ l2).
Proof.
  induction l1 as [|c l1 IH]; simpl; [set_solver|]. rewrite IH, elem_of_app, elem_of_cons. naive_solver.
Qed.

Lemma prec_elem l a b : prec l a b -> a ∈ l /\ b ∈ l.
Proof. induction l as [|c l IH]; simpl; [done|]. intros [[-> H]|H]; [set_solver|]. destruct (IH H). set_solver. Qed.

Lemma prec_total l a b : a ∈ l -> b ∈ l -> a = b \/ prec l a b \/ prec l b a.
Proof.
  induction l as [|c l IH]; simpl; [set_solver|]. intros Ha Hb. apply elem_of_cons in Ha, Hb. naive_solver.
Qed.

Lemma prec_irrefl l a : NoDup l -> ~ prec l a a.
Proof.
  induction l as [|c l IH]; simpl; [tauto|]. rewrite list.NoDup_cons. intros [Hc Hl] [[-> H]|H]; [done|]. by apply IH.
Qed.

Lemma prec_trans l a b c : NoDup l -> prec l a b -> prec l b c -> prec l a c.
Proof.
  induction l as [|d l IH]; simpl; [tauto|]. rewrite list.NoDup_cons.
  intros [Hd Hl] [[-> H1]|H1] [[-> H2]|H2].
  - left. split; [done|]. done.
  - left. split; [done|]. by apply prec_elem in H2 as [_ ?].
  - apply prec_elem in H1 as [_ ?]. done.
  - right. by eapply IH.
Qed.

Lemma prec_asym l a b : NoDup l -> prec l a b -> ~ prec l b a.
Proof. intros Hn H1 H2. eapply prec_irrefl; [done|]. by eapply prec_trans. Qed.

Lemma preceq_trans l a b c : NoDup l -> preceq l a b -> preceq l b c -> preceq l a c.
Proof. intros Hn [->|H1] [->|H2]; unfold preceq; auto. right. by eapply prec_trans. Qed.

Lemma preceq_prec l a b c : NoDup l -> preceq l a b -> prec l b c -> prec l a c.
Proof. intros Hn [->|H1] H2; [done|]. by eapply prec_trans. Qed.

Lemma prec_preceq l a b c : NoDup l -> prec l a b -> preceq l b c -> prec l a c.
Proof. intros Hn H1 [->|H2]; [done|]. by eapply prec_trans. Qed.

(** Inserting an element keeps the order of the others. *)
Lemma prec_insert l1 l2 x a b :
  prec (l1 ++ x :: l2) a b <->
  prec (l1 ++ l2) a b \/ (a ∈ l1 /\ b = x) \/ (a = x /\ b ∈ l2).
Proof. rewrite !prec_app. simpl. rewrite elem_of_cons. naive_solver. Qed.

Lemma prec_sub l1 l2 x a b : prec (l1 ++ l2) a b -> prec (l1 ++ x :: l2) a b.
Proof. rewrite prec_insert. auto. Qed.

Lemma prec_before l1 l2 c z : NoDup (l1 ++ c :: l2) -> prec (l1 ++ c :: l2) z c -> z ∈ l1.
Proof.
  intros Hn Hp. destruct (prec_elem _ _ _ Hp) as [Hz _]. apply elem_of_app in Hz as [?|Hz]; [done|]. exfalso.
  apply list.NoDup_app in Hn as (_ & Hd & Hn). apply prec_app in Hp as [Hp|[Hp|[Hp _]]].
  - apply prec_elem in Hp as [_ Hc]. by apply (Hd c Hc), list_elem_of_here.
  - apply list.NoDup_cons in Hn as [Hc Hn]. destruct Hp as [[_ ?]|Hp%prec_elem]; tauto.
  - by apply (Hd z Hp).
Qed.

Lemma prec_here l1 l2 a b : a ∈ l1 -> b ∈ l2 -> prec (l1 ++ l2) a b.
Proof. intros Ha Hb. apply prec_app. auto. Qed.

(** How many elements follow; the measure of the proofs by induction along the
    list. *)
Fixpoint after `{EqDecision A} l a : nat :=
  match l with [] => 0%nat | c :: l' => if decide (c = a) then length l' else after l' a end.

Lemma after_le `{EqDecision A} l a : (after l a <= length l)%nat.
Proof. induction l as [|c l IH]; simpl; [done|]. case_decide; lia. Qed.

Lemma after_lt `{EqDecision A} l a : a ∈ l -> (after l a < length l)%nat.
Proof. induction l as [|c l IH]; simpl; [set_solver|]. rewrite elem_of_cons. case_decide; [lia|]. intros [->|Hl]; [done|]. specialize (IH Hl). lia. Qed.

Lemma prec_after `{EqDecision A} l a b : NoDup l -> prec l a b -> (after l b < after l a)%nat.
Proof.
  induction l as [|c l IH]; simpl; [tauto|]. rewrite list.NoDup_cons. intros [Hc Hl] [[-> Hb]|Hp].
  - rewrite (decide_True (P := a = a)) by done. case_decide; [by subst|]. by apply after_lt.
  - pose proof (prec_elem _ _ _ Hp) as [Ha Hb]. rewrite !decide_False by (intros ->; done). by apply IH.
Qed.

(** Lists with the same elements in the same order are equal. *)
Lemma prec_ext l1 l2 : NoDup l1 -> NoDup l2 -> (forall a, a ∈ l1 <-> a ∈ l2) ->
  (forall a b, prec l1 a b -> prec l2 a b) -> l1 = l2.
Proof.
  revert l2. induction l1 as [|x l1 IH]; intros l2 H1 H2 Hel Hp.
  - destruct l2 as [|y l2]; [done|]. specialize (Hel y). set_solver.
  - apply list.NoDup_cons in H1 as [Hx H1].
    destruct l2 as [|y l2]; [specialize (Hel x); set_solver|].
    assert (x = y) as <-.
    { assert (Hy : y ∈ x :: l1) by (apply Hel; set_solver).
      apply elem_of_cons in Hy as [->|Hy]; [done|]. exfalso.
      assert (Hxy : prec (y :: l2) x y) by (apply Hp; left; done).
      simpl in Hxy. apply list.NoDup_cons in H2 as [Hny _].
      destruct Hxy as [[_ ?]|?%prec_elem]; tauto. }
    f_equal. apply list.NoDup_cons in H2 as [Hx2 H2]. apply IH; [done|done| |].
    + intros a. specialize (Hel a). rewrite !elem_of_cons in Hel. split; intros Ha.
      * destruct Hel as [[->|?] _]; [by right|done|done].
      * destruct Hel as [_ [->|?]]; [by right|done|done].
    + intros a b Hab. destruct (Hp a b (or_intror Hab)) as [[<- _]|?]; [|done].
      by apply prec_elem in Hab as [? _].
Qed.

End Order.

(** ** The scan

    [og x] and [ro x] are the origin and the right origin that the item [x]
    carries; an item never changes them, so they are functions of its id. *)
Section Yata.
Variables og ro : ID -> option ID.
Implicit Types (S : list ID) (x : ID).

(** The loop [conflictScan] over the items to the right of the origin: [n]
    items were passed, [dest] of them end up to the left of [x]. *)
Fixpoint conflictScan x (l : list ID) (itemsBeforeOrigin conflictingItems : gset ID) (n dest : nat) : nat :=
  match l with
  | [] => dest
  | o :: l' =>
      if decide (Some o = ro x) then dest
      else
        let itemsBeforeOrigin := {[o]} ∪ itemsBeforeOrigin in
        let conflictingItems := {[o]} ∪ conflictingItems in
        if CompareIDs (og x) (og o) then
          if Client o <? Client x then conflictScan x l' itemsBeforeOrigin ∅ (n + 1) (n + 1)
          else if CompareIDs (ro x) (ro o) then dest
          else conflictScan x l' itemsBeforeOrigin conflictingItems (n + 1) dest
        else
          match og o with
          | Some q =>
              if bool_decide (q ∈ itemsBeforeOrigin) then
                if bool_decide (q ∈ conflictingItems)
                then conflictScan x l' itemsBeforeOrigin conflictingItems (n + 1) dest
                else conflictScan x l' itemsBeforeOrigin ∅ (n + 1) (n + 1)
              else dest
          | None => dest
          end
  end.

(** The items up to the origin, and those to its right. *)
Fixpoint splitAfter (origin : ID) (l : list ID) : list ID * list ID :=
  match l with
  | [] => ([], [])
  | c :: l' =>
      if decide (c = origin) then ([c], l')
      else let '(a, b) := splitAfter origin l' in (c :: a, b)
  end.

Definition splitOrigin (origin : option ID) (l : list ID) : list ID * list ID :=
  match origin with None => ([], l) | Some o => splitAfter o l end.

Definition integrate (l : list ID) x : list ID :=
  let '(pre, tail) := splitOrigin (og x) l in
  let dest := conflictScan x tail ∅ ∅ 0 0 in
  pre ++ take dest tail ++ x :: drop dest tail.

(** ** The invariant of a sequence *)

(** The origins occur in order around the item. *)
Definition placed S x : Prop :=
  (forall l, og x = Some l -> prec S l x) /\ (forall r, ro x = Some r -> prec S x r).

(** No item between an item and its origin has an origin further left: the
    lines from items to their origins do not cross. *)
Definition uncrossed S : Prop :=
  forall x c l, og x = Some l -> prec S l c -> prec S c x -> exists m, og c = Some m /\ preceq S l m.

(** The origin of a right origin is not to the right of the origin: the two
    were neighbours when the item was created. *)
Definition ro_outer S x : Prop :=
  forall r m, ro x = Some r -> og r = Some m -> exists l, og x = Some l /\ preceq S m l.

(** Items with the same origin are ordered by client, except those that a
    right origin puts in front. *)
Definition siblings_ordered S : Prop :=
  forall a b, prec S a b -> og a = og b -> Client b <= Client a -> exists r, ro a = Some r /\ preceq S r b.

Record seq_ok S : Prop := {
  so_nodup : NoDup S;
  so_placed : forall x, x ∈ S -> placed S x;
  so_uncrossed : uncrossed S;
  so_outer : forall x, x ∈ S -> ro_outer S x;
  so_siblings : siblings_ordered S
}.

Lemma ok_og S x l : seq_ok S -> x ∈ S -> og x = Some l -> prec S l x.
Proof. intros H Hx E. by apply (so_placed S H x Hx). Qed.

Lemma ok_ro S x r : seq_ok S -> x ∈ S -> ro x = Some r -> prec S x r.
Proof. intros H Hx E. by apply (so_placed S H x Hx). Qed.

(** A right origin at or before a sibling is a sibling. *)
Lemma ro_sibling S a b r : seq_ok S -> a ∈ S -> ro a = Some r -> og a = og b -> prec S r b -> og r = og a.
Proof.
  intros Hok Ha Er Eab Hrb. pose proof (so_nodup S Hok) as Hn. pose proof (ok_ro _ _ _ Hok Ha Er) as Har.
  destruct (og a) as [l|] eqn:El.
  - pose proof (ok_og _ _ _ Hok Ha El) as Hla.
    destruct (so_uncrossed S Hok b r l) as (m & Em & Hm); [done|by eapply prec_trans|done|].
    destruct (so_outer S Hok a Ha r m Er Em) as (l' & El' & Hm'). assert (l' = l) as -> by congruence.
    rewrite Em. f_equal. destruct Hm as [->|Hm]; [done|]. destruct Hm' as [->|Hm']; [done|].
    by destruct (prec_asym S m l).
  - destruct (og r) as [m|] eqn:Em; [|done]. destruct (so_outer S Hok a Ha r m Er Em) as (l' & El' & _). congruence.
Qed.

(** ** Consistency: any two sequences agree on the order of common items *)

Lemma siblings_agree S1 S2 a b : seq_ok S1 -> seq_ok S2 ->
  a ∈ S2 -> b ∈ S2 -> og a = og b -> prec S1 a b -> ~ prec S2 b a.
Proof.
  intros H1 H2. pose proof (so_nodup _ H1) as N1. pose proof (so_nodup _ H2) as N2.
  remember (after S1 a + after S1 b)%nat as n eqn:En. revert a b En.
  induction n as [n IH] using lt_wf_ind. intros a b -> Ha2 Hb2 E Hab Hba.
  destruct (prec_elem _ _ _ Hab) as [Ha1 Hb1].
  destruct (Z.le_ge_cases (Client b) (Client a)) as [Hc|Hc].
  - destruct (so_siblings _ H1 a b Hab E Hc) as (r & Er & [->|Hr]).
    + destruct (prec_asym S2 a b); [done|by apply (ok_ro _ _ _ H2)|done].
    + pose proof (ok_ro _ _ _ H1 Ha1 Er) as Har. pose proof (ok_ro _ _ _ H2 Ha2 Er) as Har2.
      pose proof (ro_sibling _ _ _ _ H1 Ha1 Er E Hr) as Es.
      apply (IH (after S1 r + after S1 b)%nat) with (a := r) (b := b); try done.
      * pose proof (prec_after S1 a r N1 Har). lia.
      * by apply prec_elem in Har2 as [_ ?].
      * congruence.
      * by eapply prec_trans.
  - destruct (so_siblings _ H2 b a Hba) as (r & Er & [->|Hr]); [done|done| |].
    + destruct (prec_asym S1 a b); [done|done|by apply (ok_ro _ _ _ H1)].
    + pose proof (ok_ro _ _ _ H1 Hb1 Er) as Hbr. pose proof (ok_ro _ _ _ H2 Hb2 Er) as Hbr2.
      pose proof (ro_sibling _ _ _ _ H2 Hb2 Er (eq_sym E) Hr) as Es.
      apply (IH (after S1 a + after S1 r)%nat) with (a := a) (b := r); try done.
      * pose proof (prec_after S1 b r N1 Hbr). lia.
      * by apply prec_elem in Hbr2 as [_ ?].
      * congruence.
      * by eapply prec_trans.
Qed.

Lemma order_agrees S1 S2 a b : seq_ok S1 -> seq_ok S2 -> a ∈ S2 -> b ∈ S2 -> prec S1 a b -> prec S2 a b.
Proof.
  intros H1 H2. pose proof (so_nodup _ H1) as N1. pose proof (so_nodup _ H2) as N2.
  assert (Hneg : forall n a b, (length S1 - after S1 a + (length S1 - after S1 b))%nat = n ->
    a ∈ S2 -> b ∈ S2 -> prec S1 a b -> ~ prec S2 b a); last first.
  { intros Ha Hb Hab. destruct (prec_total S2 a b Ha Hb) as [->|[?|?]]; [by destruct (prec_irrefl S1 b)|done|].
    by destruct (Hneg _ a b eq_refl). }
  clear a b. induction n as [n IH] using lt_wf_ind. intros a b <- Ha2 Hb2 Hab Hba.
  destruct (prec_elem _ _ _ Hab) as [Ha1 Hb1].
  assert (Hdec : forall c d, prec S1 c d -> (length S1 - after S1 c < length S1 - after S1 d)%nat).
  { intros c d Hcd. pose proof (prec_after S1 c d N1 Hcd). pose proof (after_lt S1 c (proj1 (prec_elem _ _ _ Hcd))). lia. }
  (* the induction hypothesis as an order-reflection step *)
  assert (Hstep : forall c d, prec S1 c d -> (length S1 - after S1 c + (length S1 - after S1 d) <
      length S1 - after S1 a + (length S1 - after S1 b))%nat -> c ∈ S2 -> d ∈ S2 -> prec S2 c d).
  { intros c d Hcd Hlt Hc Hd. destruct (prec_total S2 c d Hc Hd) as [->|[?|?]]; [by destruct (prec_irrefl S1 d)|done|].
    by destruct (IH _ Hlt c d eq_refl). }
  destruct (og a) as [n|] eqn:Ea.
  - pose proof (ok_og _ _ _ H1 Ha1 Ea) as Hna. pose proof (ok_og _ _ _ H2 Ha2 Ea) as Hna2.
    pose proof (proj1 (prec_elem _ _ _ Hna2)) as Hn2.
    assert (Hnb : prec S2 n b).
    { apply Hstep; [by eapply prec_trans| |done|done]. pose proof (Hdec n a Hna). lia. }
    destruct (so_uncrossed _ H2 a b n Ea Hnb Hba) as (m & Em & Hm).
    pose proof (ok_og _ _ _ H1 Hb1 Em) as Hmb. pose proof (ok_og _ _ _ H2 Hb2 Em) as Hmb2.
    pose proof (proj1 (prec_elem _ _ _ Hmb2)) as Hm2. pose proof (Hdec m b Hmb). pose proof (Hdec n a Hna).
    destruct Hm as [<-|Hm]; [by apply (siblings_agree S1 S2 a b); rewrite ?Ea, ?Em|].
    destruct (prec_total S1 a m Ha1 (proj1 (prec_elem _ _ _ Hmb))) as [->|[Ham|Hma]].
    + by apply (prec_asym S2 m b).
    + assert (prec S2 a m) by (apply Hstep; [done|lia|done|done]). destruct (prec_asym S2 a b); [done| |done]. by eapply prec_trans.
    + destruct (so_uncrossed _ H1 b a m Em Hma Hab) as (n' & En' & Hn'). assert (n' = n) as -> by congruence.
      destruct Hn' as [->|Hn']; [by destruct (prec_irrefl S2 n)|].
      apply (prec_asym S2 n m); [done|done|]. apply Hstep; [done| |done|done]. lia.
  - destruct (og b) as [m|] eqn:Eb; [|by apply (siblings_agree S1 S2 a b); rewrite ?Ea, ?Eb].
    pose proof (ok_og _ _ _ H1 Hb1 Eb) as Hmb. pose proof (ok_og _ _ _ H2 Hb2 Eb) as Hmb2.
    pose proof (proj1 (prec_elem _ _ _ Hmb2)) as Hm2. pose proof (Hdec m b Hmb).
    destruct (prec_total S1 a m Ha1 (proj1 (prec_elem _ _ _ Hmb))) as [->|[Ham|Hma]].
    + by apply (prec_asym S2 m b).
    + assert (prec S2 a m) by (apply Hstep; [done|lia|done|done]). destruct (prec_asym S2 a b); [done| |done]. by eapply prec_trans.
    + destruct (so_uncrossed _ H1 b a m Eb Hma Hab) as (n' & En' & _). congruence.
Qed.

(** Sequences of the same items are equal. *)
Lemma same_items_same_sequence S1 S2 : seq_ok S1 -> seq_ok S2 -> (forall a, a ∈ S1 <-> a ∈ S2) -> S1 = S2.
Proof.
  intros H1 H2 Hel. apply prec_ext; [apply H1|apply H2|done|]. intros a b Hab.
  destruct (prec_elem _ _ _ Hab) as [Ha Hb]. by apply (order_agrees S1 S2); try apply Hel.
Qed.

(** ** Integration keeps the invariant *)

(** What a new item must satisfy where it is integrated.  The last clause says
    that an older item of the same client and origin is not in the scanned
    range. *)
Record insertable S x : Prop := {
  in_fresh : x ∉ S;
  in_origin : forall l, og x = Some l -> l ∈ S;
  in_right : forall r, ro x = Some r -> r ∈ S;
  in_between : forall l r, og x = Some l -> ro x = Some r -> prec S l r;
  in_outer : ro_outer S x;
  in_client : forall d, d ∈ S -> og d = og x -> Client d = Client x -> exists r, ro x = Some r /\ preceq S r d
}.

Lemma splitAfter_spec o S : o ∈ S -> exists p tail, splitAfter o S = (p ++ [o], tail) /\ S = (p ++ [o]) ++ tail.
Proof.
  induction S as [|c S IH]; simpl; [set_solver|]. rewrite elem_of_cons. intros Ho.
  case_decide as Hc; [subst; by exists [], S|]. destruct Ho as [->|Ho]; [done|].
  destruct (IH Ho) as (p & tail & -> & ->). by exists (c :: p), tail.
Qed.

(** The part of the sequence to the left of the scan. *)
Definition up_to (origin : option ID) (pre : list ID) : Prop :=
  match origin with None => pre = [] | Some o => exists p, pre = p ++ [o] end.

Lemma splitOrigin_spec S x : insertable S x ->
  exists pre tail, splitOrigin (og x) S = (pre, tail) /\ S = pre ++ tail /\ up_to (og x) pre.
Proof.
  intros Hi. unfold splitOrigin, up_to. destruct (og x) as [o|] eqn:Eo; [|by exists [], S].
  destruct (splitAfter_spec o S) as (p & tail & -> & ->); [by apply (in_origin _ _ Hi)|]. by exists (p ++ [o]), tail; eauto.
Qed.

Lemma up_to_last pre tail x a : up_to (og x) pre -> NoDup (pre ++ tail) -> og x = Some a -> 
  a ∈ pre /\ (forall c, c ∈ tail -> prec (pre ++ tail) a c) /\ (forall c, c ∈ pre -> preceq (pre ++ tail) c a).
Proof.
  intros Hu Hn Ea. rewrite Ea in Hu. destruct Hu as [p ->]. split_and!; [set_solver| |].
  - intros c Hc. apply prec_here; set_solver.
  - intros c Hc. apply elem_of_app in Hc as [Hc|Hc]; [right|left; set_solver].
    rewrite <- (assoc_L (++)). apply prec_here; set_solver.
Qed.

(** The state of the scan: [done] was passed and [dest] items of it go to the
    left of [x]. *)
Record scan_inv S x (done : list ID) (dest : nat) : Prop := {
  si_inner : forall c, c ∈ done -> og c = og x \/ exists q, og c = Some q /\ q ∈ done;
  si_range : forall c, c ∈ done -> Some c <> ro x;
  si_right : forall d, d ∈ drop dest done -> og d = og x -> Client x < Client d;
  si_left : forall d, d ∈ take dest done -> og d = og x ->
    exists e, e ∈ take dest done /\ preceq S d e /\ og e = og x /\ Client e < Client x;
  si_whole : forall y q, y ∈ drop dest done -> og y = Some q -> q ∉ take dest done
}.

(** Why the scan stopped in front of [c]. *)
Definition stops x (done : list ID) (c : ID) : Prop :=
  Some c = ro x \/
  (og c = og x /\ Client x < Client c /\ ro c = ro x) \/
  (og c <> og x /\ forall q, og c = Some q -> q ∉ done).

Lemma sibling_client S x pre done o rest : seq_ok S -> insertable S x -> S = pre ++ done ++ o :: rest ->
  up_to (og x) pre -> (forall c, c ∈ done -> Some c <> ro x) -> Some o <> ro x -> og o = og x -> Client x <= Client o ->
  Client x < Client o.
Proof.
  intros Hok Hi -> Hu Hr Ho Eo Hc. destruct (decide (Client o = Client x)) as [E|?]; [exfalso|lia].
  pose proof (so_nodup _ Hok) as Hn.
  destruct (in_client _ _ Hi o) as (r & Er & Hro); [set_solver|done|done|].
  assert (Hin : r ∈ pre ++ done).
  { destruct Hro as [->|Hro]; [congruence|]. rewrite (assoc_L (++)) in Hro, Hn. by eapply prec_before. }
  apply elem_of_app in Hin as [Hp|Hd]; [|by destruct (Hr r Hd)].
  unfold up_to in Hu. destruct (og x) as [a|] eqn:Ea; [|by subst; apply not_elem_of_nil in Hp].
  destruct (up_to_last pre (done ++ o :: rest) x a) as (_ & _ & Hle); [by rewrite Ea|done|done|].
  destruct (Hle r Hp) as [->|Hlt].
  - pose proof (in_between _ _ Hi a a Ea Er) as Hb. by apply prec_irrefl in Hb.
  - eapply (prec_asym _ r a); [done|done|]. by apply (in_between _ _ Hi).
Qed.

(** Passing an item without moving the destination. *)
Lemma scan_keep S x pre done o rest dest : seq_ok S -> S = pre ++ done ++ o :: rest -> up_to (og x) pre ->
  scan_inv S x done dest -> (dest <= length done)%nat -> Some o <> ro x ->
  (og o = og x /\ Client x < Client o) \/ (og o <> og x /\ exists q, og o = Some q /\ q ∈ drop dest done) ->
  scan_inv S x (done ++ [o]) dest.
Proof.
  intros Hok -> Hu [A N B E D] Hle Ho Hc. pose proof (so_nodup _ Hok) as Hn.
  assert (Hnd : forall q, q ∈ take dest done -> q ∉ drop dest done).
  { rewrite <- (take_drop dest done) in Hn. intros q H1 H2. apply list.NoDup_app in Hn as (_ & _ & Hn).
    rewrite <- (assoc_L (++)) in Hn. apply list.NoDup_app in Hn as (_ & Hd & _). apply (Hd q H1). set_solver. }
  split; rewrite ?take_app_le, ?drop_app_le by lia.
  - intros c Hin. apply elem_snoc in Hin as [Hin| ->].
    + destruct (A c Hin) as [?|(q & ? & ?)]; [by left|right; exists q; set_solver].
    + destruct Hc as [[? _]|(_ & q & Eq & Hq)]; [by left|]. right. exists q. split; [done|].
      apply elem_of_app. left. rewrite <- (take_drop dest done). set_solver.
  - intros c Hin. apply elem_snoc in Hin as [Hin| ->]; [by apply N|done].
  - intros d Hd Es. apply elem_snoc in Hd as [Hd| ->]; [by apply B|].
    destruct Hc as [[_ ?]|[? _]]; done.
  - done.
  - intros y q Hy Eq. apply elem_snoc in Hy as [Hy| ->]; [by eapply D|].
    destruct Hc as [[Es _]|(_ & q' & Eq' & Hq')].
    + intros Hq. rewrite Eq in Es. destruct (up_to_last pre (done ++ o :: rest) x q) as (Hp & _ & _); [done|done|done|].
      apply list.NoDup_app in Hn as (_ & Hd & _). apply (Hd q Hp).
      apply elem_of_app. left. rewrite <- (take_drop dest done). set_solver.
    + assert (q' = q) as -> by congruence. intros Hq. by apply (Hnd q).
Qed.

(** Passing an item and moving the destination behind it. *)
Lemma scan_move S x pre done o rest dest : seq_ok S -> S = pre ++ done ++ o :: rest -> up_to (og x) pre ->
  scan_inv S x done dest -> Some o <> ro x ->
  (og o = og x /\ Client o < Client x) \/ (og o <> og x /\ exists q, og o = Some q /\ q ∈ take dest done) ->
  scan_inv S x (done ++ [o]) (length done + 1).
Proof.
  intros Hok -> Hu [A N B E D] Ho Hc. pose proof (so_nodup _ Hok) as Hn.
  assert (Hlen : (length (done ++ [o]) <= length done + 1)%nat) by (rewrite length_app; simpl; lia).
  assert (Hpo : forall d, d ∈ done -> prec (pre ++ done ++ o :: rest) d o).
  { intros d Hd. apply prec_app. right. left. apply prec_here; [done|set_solver]. }
  split; rewrite ?take_ge, ?drop_ge by done; [| |by intros d ?%not_elem_of_nil| |by intros y q ?%not_elem_of_nil].
  - intros c Hin. apply elem_snoc in Hin as [Hin| ->].
    + destruct (A c Hin) as [?|(q & ? & ?)]; [by left|right; exists q; set_solver].
    + destruct Hc as [[? _]|(_ & q & Eq & Hq)]; [by left|]. right. exists q. split; [done|].
      apply elem_of_app. left. rewrite <- (take_drop dest done). set_solver.
  - intros c Hin. apply elem_snoc in Hin as [Hin| ->]; [by apply N|done].
  - intros d Hd Es. destruct Hc as [[Eo Hcl]|(Hne & q & Eq & Hq)].
    { exists o. split_and!; [set_solver| |done|done].
      apply elem_snoc in Hd as [Hd| ->]; [right; by apply Hpo|by left]. }
    apply elem_snoc in Hd as [Hd| ->]; [|done].
    rewrite <- (take_drop dest done) in Hd. apply elem_of_app in Hd as [Hd|Hd].
    { destruct (E d Hd Es) as (e & He & ?). exists e. split; [|done]. apply elem_of_app. left.
      rewrite <- (take_drop dest done). set_solver. }
    exfalso.
    assert (Hqd : prec (pre ++ done ++ o :: rest) q d).
    { apply prec_app. right. left. apply prec_app. left. rewrite <- (take_drop dest done). by apply prec_here. }
    assert (Hdo : prec (pre ++ done ++ o :: rest) d o) by (apply Hpo; rewrite <- (take_drop dest done); set_solver).
    destruct (so_uncrossed _ Hok o d q Eq Hqd Hdo) as (m & Em & Hm). rewrite Es in Em.
    destruct (up_to_last pre (done ++ o :: rest) x m) as (_ & Hlt & _); [done|done|done|].
    assert (Hmq : prec (pre ++ done ++ o :: rest) m q) by (apply Hlt; rewrite <- (take_drop dest done); set_solver).
    destruct Hm as [->|Hm]; [by apply prec_irrefl in Hmq|by eapply prec_asym].
Qed.

Lemma conflictScan_spec S x pre : seq_ok S -> insertable S x -> up_to (og x) pre ->
  forall rest done dest before confl, S = pre ++ done ++ rest ->
  (forall q, q ∈ before <-> q ∈ done) -> (forall q, q ∈ confl <-> q ∈ drop dest done) ->
  (dest <= length done)%nat -> scan_inv S x done dest ->
  let d := conflictScan x rest before confl (length done) dest in
  exists done' rest', S = pre ++ done' ++ rest' /\ done ++ rest = done' ++ rest' /\ (d <= length done')%nat /\ scan_inv S x done' d /\
    match rest' with [] => True | c :: _ => stops x done' c end.
Proof.
  intros Hok Hi Hu rest. induction rest as [|o rest IH]; intros done dest before confl HS Hb Hcf Hle Hinv; cbn [conflictScan].
  { by exists done, []. }
  case_decide as Hro; [exists done, (o :: rest); split_and!; try done; by left|].
  assert (Hnext : forall before' confl' dest', (forall q, q ∈ before' <-> q ∈ done ++ [o]) ->
    (forall q, q ∈ confl' <-> q ∈ drop dest' (done ++ [o])) -> (dest' <= length done + 1)%nat ->
    scan_inv S x (done ++ [o]) dest' ->
    let d := conflictScan x rest before' confl' (length done + 1) dest' in
    exists done' rest', S = pre ++ done' ++ rest' /\ done ++ o :: rest = done' ++ rest' /\ (d <= length done')%nat /\ scan_inv S x done' d /\
      match rest' with [] => True | c :: _ => stops x done' c end).
  { intros before' confl' dest' Hb' Hc' Hl' Hi'.
    specialize (IH (done ++ [o]) dest' before' confl'). rewrite length_app in IH. cbn [length] in IH.
    rewrite <- (assoc_L (++)) in IH. by apply IH. }
  assert (Hbo : forall q, q ∈ {[o]} ∪ before <-> q ∈ done ++ [o]) by (intros q; specialize (Hb q); set_solver).
  assert (Hco : forall q, q ∈ {[o]} ∪ confl <-> q ∈ drop dest (done ++ [o])).
  { intros q. specialize (Hcf q). rewrite drop_app_le by done. set_solver. }
  assert (Hc0 : forall q, q ∈ (∅ : gset ID) <-> q ∈ drop (length done + 1) (done ++ [o])).
  { intros q. rewrite drop_ge by (rewrite length_app; simpl; lia). set_solver. }
  assert (Hstop : forall d, d = dest -> stops x done o -> exists done' rest', S = pre ++ done' ++ rest' /\ done ++ o :: rest = done' ++ rest' /\
    (d <= length done')%nat /\ scan_inv S x done' d /\ match rest' with [] => True | c :: _ => stops x done' c end).
  { intros d -> Hst. by exists done, (o :: rest). }
  destruct (CompareIDs (og x) (og o)) eqn:Ec.
  - apply CompareIDs_eq in Ec. destruct (Z.ltb_spec (Client o) (Client x)) as [Hcl|Hcl].
    + apply Hnext; [done|done|lia|]. eapply scan_move; try done. left. done.
    + assert (Hcl' : Client x < Client o).
      { eapply sibling_client with (done := done); try done. apply (si_range _ _ _ _ Hinv). }
      destruct (CompareIDs (ro x) (ro o)) eqn:Er.
      * apply CompareIDs_eq in Er. apply Hstop; [done|]. right. left. done.
      * apply Hnext; [done|done|lia|]. eapply scan_keep; try done. left. done.
  - assert (Hne : og o <> og x) by (intros E; rewrite E in Ec; assert (CompareIDs (og x) (og x) = true) by (by apply CompareIDs_eq); congruence).
    destruct (og o) as [q|] eqn:Eo; [|by apply Hstop; [done|right; right; rewrite Eo]].
    assert (Hqo : q <> o).
    { intros ->. assert (Ho : o ∈ S) by (rewrite HS; set_solver).
      apply (prec_irrefl S o); [apply Hok|]. by apply ok_og. }
    case_bool_decide as Hqb; last first.
    { apply Hstop; [done|]. right. right. rewrite Eo. split; [done|]. intros ? [= <-] Hq. apply Hqb, Hbo. set_solver. }
    apply Hbo in Hqb. assert (Hq : q ∈ done) by set_solver.
    case_bool_decide as Hqc.
    + apply Hnext; [done|done|lia|]. eapply scan_keep; try done. right. rewrite Eo. split; [done|]. exists q. split; [done|].
      apply Hcf. set_solver.
    + apply Hnext; [done|done|lia|]. eapply scan_move with (dest := dest); try done. right. rewrite Eo. split; [done|].
      exists q. split; [done|]. rewrite <- (take_drop dest done) in Hq. apply elem_of_app in Hq as [?|Hq]; [done|].
      exfalso. apply Hqc. apply Hcf in Hq. set_solver.
Qed.

(** Every item between the origin and a stopping point is in [done]. *)
Lemma between_done S x pre done c rest a : seq_ok S -> S = pre ++ done ++ c :: rest -> up_to (og x) pre ->
  prec S a c -> (forall l, og x = Some l -> prec S l a) -> a ∈ done.
Proof.
  intros Hok -> Hu Hac Hl. pose proof (so_nodup _ Hok) as Hn. rewrite (assoc_L (++)) in Hac, Hn.
  apply prec_before in Hac as Hin; [|done]. apply elem_of_app in Hin as [Hp|?]; [exfalso|done].
  rewrite <- (assoc_L (++)) in Hac, Hn.
  unfold up_to in Hu. destruct (og x) as [l|] eqn:El; [|by subst; apply not_elem_of_nil in Hp].
  destruct (up_to_last pre (done ++ c :: rest) x l) as (_ & _ & Hle); [by rewrite El|done|done|].
  specialize (Hl l eq_refl). apply (prec_irrefl _ l Hn). eapply prec_preceq; [done|done|]. by apply Hle.
Qed.

(** No item to the right of the stopping point hangs below one in [done], nor
    is a smaller sibling. *)
Lemma stops_whole S x pre done c rest y q : seq_ok S -> insertable S x -> S = pre ++ done ++ c :: rest ->
  up_to (og x) pre -> stops x done c -> y ∈ c :: rest -> og y = Some q -> q ∉ done.
Proof.
  intros Hok Hi HS Hu Hst Hy Eq Hq. pose proof (so_nodup _ Hok) as Hn.
  assert (Hlq : forall l, og x = Some l -> prec S l q).
  { intros l El. subst S. destruct (up_to_last pre (done ++ c :: rest) x l) as (_ & Hlt & _); [done|done|done|].
    apply Hlt. set_solver. }
  assert (Hqc : prec S q c) by (subst S; apply prec_app; right; left; apply prec_here; set_solver).
  (* the origin of the stopping item lies strictly between [og x] and it *)
  assert (Hoc : exists m, og c = Some m /\ preceq S q m).
  { apply elem_of_cons in Hy as [->|Hy]; [exists q; by split; [|left]|].
    apply (so_uncrossed _ Hok y c q Eq Hqc). subst S. rewrite (assoc_L (++)). apply prec_app. right. left. by left. }
  destruct Hoc as (m & Em & Hm).
  assert (Hlm : forall l, og x = Some l -> prec S l m) by (intros l El; eapply prec_preceq; [done|by apply Hlq|done]).
  assert (Hc : c ∈ S) by (subst S; set_solver).
  destruct Hst as [Er|[(Es & _)|(_ & Hnd)]].
  - destruct (in_outer _ _ Hi c m (eq_sym Er) Em) as (l & El & Hml).
    apply (prec_irrefl S l Hn). eapply prec_preceq; [done|by apply Hlm|done].
  - apply (prec_irrefl S m Hn). apply Hlm. congruence.
  - apply (Hnd m Em). eapply between_done; try done. by apply ok_og.
Qed.

Lemma stops_sibling S x pre done c rest b : seq_ok S -> insertable S x -> S = pre ++ done ++ c :: rest ->
  up_to (og x) pre -> stops x done c -> b ∈ c :: rest -> og b = og x -> Client b <= Client x ->
  exists r, ro x = Some r /\ preceq S r b.
Proof.
  intros Hok Hi HS Hu Hst Hb Es Hcl.
  assert (Hcb : preceq S c b).
  { apply elem_of_cons in Hb as [->|Hb]; [by left|right]. subst S. rewrite (assoc_L (++)). apply prec_app. right. left. by left. }
  destruct Hst as [Er|[(Ec & Hlt & Er)|(Hne & Hnd)]].
  - by exists c.
  - destruct Hcb as [->|Hcb]; [lia|]. rewrite <- Er. apply (so_siblings _ Hok c b Hcb); [congruence|lia].
  - exfalso. destruct Hcb as [->|Hcb]; [done|]. assert (Hc : c ∈ S) by (subst S; set_solver).
    destruct (og x) as [l|] eqn:El.
    + assert (Hlc : prec S l c).
      { subst S. destruct (up_to_last pre (done ++ c :: rest) x l) as (_ & Hlt & _); [by rewrite El|apply Hok|done|].
        apply Hlt. set_solver. }
      destruct (so_uncrossed _ Hok b c l Es Hlc Hcb) as (m & Em & [->|Hm]); [congruence|].
      apply (Hnd m Em). eapply between_done; try done; [by rewrite El|by apply ok_og|]. intros ? Hl'. by simplify_eq.
    + destruct (og c) as [q|] eqn:Eq; [|done]. apply (Hnd q eq_refl).
      eapply between_done; try done; [by rewrite El|by apply ok_og|]. by rewrite El.
Qed.

Lemma preceq_sub l1 l2 x a b : preceq (l1 ++ l2) a b -> preceq (l1 ++ x :: l2) a b.
Proof. intros [->|H]; [by left|right; by apply prec_sub]. Qed.

(** What a position must satisfy for the insertion to keep the invariant. *)
Record good_position S x (l1 l2 : list ID) : Prop := {
  gp_split : S = l1 ++ l2;
  gp_origin : forall l, og x = Some l -> l ∈ l1;
  gp_right : forall r, ro x = Some r -> r ∈ l2;
  gp_inner : forall c l, c ∈ l1 -> og x = Some l -> prec S l c -> exists m, og c = Some m /\ preceq S l m;
  gp_whole : forall y q, y ∈ l2 -> og y = Some q -> q ∈ l1 -> exists l, og x = Some l /\ preceq S q l;
  gp_before : forall a, a ∈ l1 -> og a = og x -> Client x <= Client a -> exists r e, ro a = Some r /\ preceq S r e /\ e ∈ l1;
  gp_after : forall b, b ∈ l2 -> og b = og x -> Client b <= Client x -> exists r, ro x = Some r /\ preceq S r b
}.

Lemma insert_ok S x l1 l2 : seq_ok S -> insertable S x -> good_position S x l1 l2 -> seq_ok (l1 ++ x :: l2).
Proof.
  intros Hok Hi [-> Go Gr Gi Gw Gb Ga]. pose proof (so_nodup _ Hok) as Hn. pose proof (in_fresh _ _ Hi) as Hx.
  assert (Hx1 : x ∉ l1) by set_solver. assert (Hx2 : x ∉ l2) by set_solver.
  assert (Hel : forall y, y ∈ l1 ++ x :: l2 -> y = x \/ y ∈ l1 ++ l2) by (intros y; rewrite !elem_of_app, elem_of_cons; tauto).
  assert (Hnox : forall a, ~ prec (l1 ++ l2) a x /\ ~ prec (l1 ++ l2) x a) by (intros a; split; intros H%prec_elem; tauto).
  assert (Hox : forall y, y ∈ l1 ++ l2 -> og y <> Some x).
  { intros y Hy Ey. apply (Hnox y). by apply ok_og. }
  split.
  - rewrite <- Permutation_middle. by apply list.NoDup_cons.
  - intros y Hy. destruct (Hel y Hy) as [->|Hy'].
    + split; intros z Hz; apply prec_insert; right; [left|right]; auto.
    + split; intros z Hz; apply prec_sub; [by apply ok_og|by apply ok_ro].
  - intros y c l Ey Hlc Hcy.
    apply prec_insert in Hcy as [Hcy|[[Hc ->]|[-> Hy2]]].
    + destruct (prec_elem _ _ _ Hcy) as [Hcin Hyin].
      apply prec_insert in Hlc as [Hlc|[[_ ->]|[-> _]]]; [|done|by destruct (Hox y Hyin)].
      destruct (so_uncrossed _ Hok y c l Ey Hlc Hcy) as (m & Em & Hm). exists m. split; [done|by apply preceq_sub].
    + apply prec_insert in Hlc as [Hlc|[[_ ->]|[-> _]]]; [|done|].
      * destruct (Gi c l Hc Ey Hlc) as (m & Em & Hm). exists m. split; [done|by apply preceq_sub].
      * by destruct (Hx1 (Go x Ey)).
    + apply prec_insert in Hlc as [Hlc%Hnox|[[Hl _]|[-> ?]]]; [done| |done].
      destruct (Gw y l Hy2 Ey Hl) as (m & Em & Hm). exists m. split; [done|by apply preceq_sub].
  - intros y Hy r m Er Em. destruct (Hel y Hy) as [->|Hy'].
    + destruct (in_outer _ _ Hi r m Er Em) as (l & El & Hm). exists l. split; [done|by apply preceq_sub].
    + destruct (so_outer _ Hok y Hy' r m Er Em) as (l & El & Hm). exists l. split; [done|by apply preceq_sub].
  - intros a b Hab Es Hcl. apply prec_insert in Hab as [Hab|[[Ha ->]|[-> Hb]]].
    + destruct (so_siblings _ Hok a b Hab Es Hcl) as (r & Er & Hr). exists r. split; [done|by apply preceq_sub].
    + destruct (Gb a Ha Es Hcl) as (r & e & Er & Hr & He). exists r. split; [done|]. right.
      destruct Hr as [->|Hr]; [apply prec_insert; auto|].
      apply prec_insert. right. left. split; [|done]. destruct (prec_elem _ _ _ Hr) as [Hr1 _].
      apply elem_of_app in Hr1 as [?|Hr2]; [done|]. by destruct (prec_asym _ _ _ Hn Hr); apply prec_here.
    + destruct (Ga b Hb (eq_sym Es) Hcl) as (r & Er & Hr). exists r. split; [done|by apply preceq_sub].
Qed.

(** The position that the scan computes is a good one. *)
Lemma scan_position S x pre done rest d : seq_ok S -> insertable S x -> S = pre ++ done ++ rest -> up_to (og x) pre ->
  scan_inv S x done d -> match rest with [] => True | c :: _ => stops x done c end ->
  good_position S x (pre ++ take d done) (drop d done ++ rest).
Proof.
  intros Hok Hi HS Hu [A N B E D] Hst. pose proof (so_nodup _ Hok) as Hn.
  assert (Hup : forall l, og x = Some l -> l ∈ pre /\ (forall c, c ∈ done ++ rest -> prec S l c) /\ (forall c, c ∈ pre -> preceq S c l)).
  { intros l El. rewrite HS in Hn |- *. by apply up_to_last with (x := x). }
  assert (Hpre : forall c, c ∈ pre -> exists l, og x = Some l).
  { intros c Hc. unfold up_to in Hu. destruct (og x); [eauto|]. subst pre. by apply not_elem_of_nil in Hc. }
  assert (Hincl : forall c, c ∈ take d done \/ c ∈ drop d done <-> c ∈ done).
  { intros c. rewrite <- elem_of_app, take_drop. done. }
  split.
  - by rewrite <- (assoc_L (++)), (assoc_L (++) (take d done)), take_drop.
  - intros l El. apply elem_of_app. left. by apply (Hup l El).
  - intros r Er. apply elem_of_app. right. pose proof (in_right _ _ Hi r Er) as Hr. rewrite HS in Hr.
    apply elem_of_app in Hr as [Hp|Hr]; [|apply elem_of_app in Hr as [Hr|?]; [by destruct (N r Hr)|done]].
    destruct (Hpre r Hp) as [l El]. destruct (Hup l El) as (_ & _ & Hle). exfalso.
    apply (prec_irrefl S r Hn). eapply preceq_prec; [done|by apply Hle|]. by apply (in_between _ _ Hi).
  - intros c l Hc El Hlc. destruct (Hup l El) as (Hl & Hlt & Hle). apply elem_of_app in Hc as [Hc|Hc].
    { exfalso. apply (prec_irrefl S l Hn). eapply prec_preceq; [done|done|by apply Hle]. }
    destruct (A c) as [Ec|(q & Eq & Hq)]; [apply Hincl; by left| |].
    + exists l. split; [congruence|by left].
    + exists q. split; [done|right]. apply Hlt. set_solver.
  - intros y q Hy Eq Hq. apply elem_of_app in Hq as [Hq|Hq].
    { destruct (Hpre q Hq) as [l El]. exists l. split; [done|]. by apply (Hup l El). }
    exfalso. apply elem_of_app in Hy as [Hy|Hy]; [by apply (D y q)|].
    destruct rest as [|c rest]; [by apply not_elem_of_nil in Hy|].
    eapply (stops_whole S x pre done c rest y q); try done. apply Hincl. by left.
  - intros a Ha Es Hcl. apply elem_of_app in Ha as [Ha|Ha].
    { exfalso. destruct (Hpre a Ha) as [l El]. destruct (Hup l El) as (_ & _ & Hle).
      assert (Hla : prec S l a) by (apply ok_og; [done|rewrite HS; set_solver|congruence]).
      apply (prec_irrefl S l Hn). eapply prec_preceq; [done|done|by apply Hle]. }
    destruct (E a Ha Es) as (e & He & Hae & Ee & Hce).
    destruct Hae as [->|Hae]; [lia|]. destruct (so_siblings _ Hok a e Hae) as (r & Er & Hr); [congruence|lia|].
    exists r, e. split_and!; [done|done|set_solver].
  - intros b Hb Es Hcl. apply elem_of_app in Hb as [Hb|Hb]; [specialize (B b Hb Es); lia|].
    destruct rest as [|c rest]; [by apply not_elem_of_nil in Hb|].
    by eapply (stops_sibling S x pre done c rest b).
Qed.

Lemma scan_start S x : scan_inv S x [] 0.
Proof. split; simpl; intros *; try (intros H%not_elem_of_nil; done). Qed.

Lemma integrate_position S x : seq_ok S -> insertable S x ->
  exists l1 l2, integrate S x = l1 ++ x :: l2 /\ good_position S x l1 l2.
Proof.
  intros Hok Hi. destruct (splitOrigin_spec S x Hi) as (pre & tail & Esp & HS & Hu). unfold integrate. rewrite Esp.
  pose proof (conflictScan_spec S x pre Hok Hi Hu tail [] 0 ∅ ∅ HS) as Hscan. cbn [length drop] in Hscan.
  destruct Hscan as (passed & rest & HS' & Et & Hd & Hinv & Hst); [set_solver|set_solver|done|apply scan_start|].
  simpl in Et. set (d := conflictScan x tail ∅ ∅ 0 0) in *.
  exists (pre ++ take d passed), (drop d passed ++ rest). split; [|by eapply scan_position].
  rewrite Et, take_app_le, drop_app_le by done. by rewrite <- (assoc_L (++)).
Qed.

Lemma integrate_ok S x : seq_ok S -> insertable S x -> seq_ok (integrate S x).
Proof.
  intros Hok Hi. destruct (integrate_position S x Hok Hi) as (l1 & l2 & -> & Hg). by eapply insert_ok.
Qed.

Lemma integrate_perm S x : seq_ok S -> insertable S x -> integrate S x ≡ₚ x :: S.
Proof.
  intros Hok Hi. destruct (integrate_position S x Hok Hi) as (l1 & l2 & -> & Hg).
  rewrite (gp_split _ _ _ _ Hg). symmetry. apply Permutation_middle.
Qed.

End Yata.
