(* ===== verification/Replicas.v ===== *)
(** * Replicas of a shared sequence

    A network of replicas, one per client id, each holding the sequence that
    [Yata.integrate] builds.  A replica inserts between two neighbours of its
    own sequence, or integrates an item that another replica holds once the
    item's dependencies are present: its origins ([itemStruct.missingClient])
    and the earlier items of its client ([structStore] accepts only the next
    clock of a client). *)
From stdpp Require Import gmap sets list sorting relations.
From Stdlib Require Import ZArith Lia.
From S2P Require Import Prelude Lib0 StructStore Yata.
Open Scope Z_scope.

Section Replicas.
Variables og ro : ID -> option ID.
Implicit Types (x y d : ID).

Definition world : Type := gmap Z (list ID).
Implicit Types w : world.

Definition rep w (k : Z) : list ID := default [] (w !! k).

Definition deps x : list ID :=
  option_list (og x) ++ option_list (ro x) ++ (GenID (Client x) <$> seqZ 0 (Clock x)).

Inductive local_step : world -> world -> Prop :=
| LocalInsert w x l1 l2 :
    rep w (Client x) = l1 ++ l2 ->
    0 <= Clock x -> x ∉ rep w (Client x) ->
    (forall c, 0 <= c < Clock x -> GenID (Client x) c ∈ rep w (Client x)) ->
    og x = list.last l1 -> ro x = head l2 ->
    local_step w (<[Client x := integrate og ro (rep w (Client x)) x]> w).

(** Replica [k] integrates an item of replica [j]. *)
Inductive deliver (j k : Z) : world -> world -> Prop :=
| Deliver w x :
    x ∈ rep w j -> x ∉ rep w k -> (forall y, y ∈ deps x -> y ∈ rep w k) ->
    deliver j k w (<[k := integrate og ro (rep w k) x]> w).

Definition net_step w w' : Prop := local_step w w' \/ exists j k, deliver j k w w'.

Definition reachable w : Prop := rtc net_step ∅ w.

(** ** The invariant *)

(** An order in which the items can have been integrated. *)
Definition causal (log : list ID) : Prop :=
  forall l1 x l2, log = l1 ++ x :: l2 -> forall y, y ∈ deps x -> y ∈ l1.

(** An item of a client was created to the left of the client's older items
    with the same origin. *)
Definition own_siblings (S : list ID) : Prop :=
  forall x d, x ∈ S -> d ∈ S -> Client d = Client x -> og d = og x -> Clock d < Clock x ->
  exists r, ro x = Some r /\ preceq S r d.

Record rep_ok (S : list ID) : Prop := {
  ro_seq : seq_ok og ro S;
  ro_clock : forall x, x ∈ S -> 0 <= Clock x;
  ro_own : own_siblings S;
  ro_log : exists log, log ≡ₚ S /\ causal log
}.

Record winv w : Prop := {
  wi_rep : forall k, rep_ok (rep w k);
  wi_home : forall k x, x ∈ rep w k -> x ∈ rep w (Client x)
}.

Lemma elem_option_list {A} (a : A) (m : option A) : a ∈ option_list m <-> m = Some a.
Proof. destruct m; simpl; [rewrite list_elem_of_singleton|rewrite elem_of_nil]; naive_solver. Qed.

Lemma elem_deps y x : y ∈ deps x <->
  og x = Some y \/ ro x = Some y \/ (Client y = Client x /\ 0 <= Clock y < Clock x).
Proof.
  unfold deps. rewrite !elem_of_app, !elem_option_list, list_elem_of_fmap.
  split; (intros [?|[?|H]]; [by left|by right; left|right; right]).
  - destruct H as (c & -> & Hc). apply elem_of_seqZ in Hc. simpl. split; [done|lia].
  - destruct y as [k c], H as [E ?]. simpl in *. subst k. exists c. split; [done|]. apply elem_of_seqZ. lia.
Qed.

(** Dependencies of a member are members. *)
Lemma rep_closed S x y : rep_ok S -> x ∈ S -> y ∈ deps x -> y ∈ S.
Proof.
  intros Hok Hx Hy. destruct (ro_log _ Hok) as (log & Hp & Hc). rewrite <- Hp in Hx |- *.
  apply list_elem_of_split in Hx as (l1 & l2 & E). rewrite E. apply elem_of_app. left. by eapply Hc.
Qed.

Lemma integrate_elem S x y : seq_ok og ro S -> insertable og ro S x ->
  y ∈ integrate og ro S x <-> y = x \/ y ∈ S.
Proof. intros Hs Hi. rewrite (integrate_perm og ro S x Hs Hi). apply elem_of_cons. Qed.

(** Integrating an insertable item whose dependencies are present keeps the
    invariant of the replica. *)
Lemma rep_integrate S x : rep_ok S -> insertable og ro S x -> (forall y, y ∈ deps x -> y ∈ S) -> 0 <= Clock x ->
  rep_ok (integrate og ro S x).
Proof.
  intros Hok Hi Hdep Hx0. pose proof (ro_seq _ Hok) as Hs.
  assert (Hel := fun y => integrate_elem S x y Hs Hi).
  split; [by apply integrate_ok| | |].
  - intros y [->|Hy]%Hel; [done|]. by apply (ro_clock _ Hok).
  - intros a d Ha%Hel Hd%Hel Hcl Eo Hck.
    destruct (integrate_position og ro S x Hs Hi) as (l1 & l2 & E & Hg). rewrite E. pose proof (gp_split _ _ _ _ _ _ Hg) as HS.
    assert (Hsub : forall r, (ro a = Some r /\ preceq S r d) -> exists r, ro a = Some r /\ preceq (l1 ++ x :: l2) r d).
    { intros r [Er Hr]. exists r. split; [done|]. apply preceq_sub. by rewrite <- HS. }
    destruct Ha as [->|Ha], Hd as [->|Hd]; [lia| | |].
    + destruct (in_client _ _ _ _ Hi d Hd Eo Hcl) as (r & Hr). eauto.
    + exfalso. apply (in_fresh _ _ _ _ Hi). apply (rep_closed S a); [done..|].
      apply elem_deps. right. right. split; [done|lia].
    + destruct (ro_own _ Hok a d Ha Hd Hcl Eo Hck) as (r & Hr). eauto.
  - destruct (ro_log _ Hok) as (log & Hp & Hc). exists (log ++ [x]). split.
    + rewrite (integrate_perm og ro S x Hs Hi), <- Hp. symmetry. apply Permutation_cons_append.
    + intros l1 y l2 E z Hz. destruct l2 as [|a l2 _] using rev_ind.
      * apply app_inj_tail in E as [<- <-]. rewrite Hp. by apply Hdep.
      * rewrite app_comm_cons, (assoc_L (++)) in E. apply app_inj_tail in E as [-> _]. by eapply Hc.
Qed.

(** An item created between two neighbours is insertable there. *)
Lemma local_insertable S x l1 l2 : rep_ok S -> S = l1 ++ l2 -> x ∉ S -> og x = list.last l1 -> ro x = head l2 ->
  insertable og ro S x.
Proof.
  intros Hok -> Hx Eo Er. pose proof (ro_seq _ Hok) as Hs. pose proof (so_nodup _ _ _ Hs) as Hn.
  assert (Hl : forall l, og x = Some l -> exists p, l1 = p ++ [l]).
  { intros l El. rewrite El in Eo. symmetry in Eo. by apply last_Some in Eo. }
  assert (Hr : forall r, ro x = Some r -> exists q, l2 = r :: q).
  { intros r Er'. destruct l2 as [|r' q]; simpl in Er; [congruence|]. exists q. congruence. }
  split.
  - done.
  - intros l El. destruct (Hl l El) as [p ->]. set_solver.
  - intros r Er'. destruct (Hr r Er') as [q ->]. set_solver.
  - intros l r El Er'. destruct (Hl l El) as [p ->], (Hr r Er') as [q ->]. apply prec_here; set_solver.
  - intros r m Er' Em. destruct (Hr r Er') as [q ->].
    assert (Hm : m ∈ l1). { eapply prec_before; [done|]. apply (ok_og og ro); [done|set_solver|done]. }
    destruct (list.last l1) as [l|] eqn:El; [|by apply last_None in El as ->; apply not_elem_of_nil in Hm].
    exists l. split; [done|]. apply last_Some in El as [p ->]. apply elem_snoc in Hm as [Hm| ->]; [right|by left].
    rewrite <- (assoc_L (++)). apply prec_here; set_solver.
  - intros d Hd Eod _. apply elem_of_app in Hd as [Hd|Hd].
    + exfalso. destruct (list.last l1) as [l|] eqn:El; [|by apply last_None in El as ->; apply not_elem_of_nil in Hd].
      apply last_Some in El as [p ->]. assert (Hld : prec ((p ++ [l]) ++ l2) l d).
      { apply (ok_og og ro); [done|set_solver|congruence]. }
      assert (Hdl : preceq ((p ++ [l]) ++ l2) d l).
      { apply elem_snoc in Hd as [Hd| ->]; [right|by left]. rewrite <- (assoc_L (++)). apply prec_here; set_solver. }
      by apply (prec_irrefl _ l Hn), (prec_preceq _ _ d).
    + destruct l2 as [|r q]; [by apply not_elem_of_nil in Hd|]. exists r. split; [done|].
      apply elem_of_cons in Hd as [->|Hd]; [by left|]. right. apply prec_app. right. left. by left.
Qed.

(** It lands exactly between them. *)
Lemma local_position S x l1 l2 : rep_ok S -> S = l1 ++ l2 -> x ∉ S -> og x = list.last l1 -> ro x = head l2 ->
  integrate og ro S x = l1 ++ x :: l2.
Proof.
  intros Hok HS Hx Eo Er. pose proof (local_insertable S x l1 l2 Hok HS Hx Eo Er) as Hi.
  destruct (integrate_position og ro S x (ro_seq _ Hok) Hi) as (a & b & -> & Hg).
  pose proof (so_nodup _ _ _ (ro_seq _ Hok)) as Hn. pose proof (gp_split _ _ _ _ _ _ Hg) as HS2.
  rewrite HS2 in Hn. rewrite HS in HS2. apply list.NoDup_app in Hn as (_ & Hd & _).
  apply app_eq_app in HS2 as (t & [[-> ->]|[-> ->]]); destruct t as [|c t _] using rev_ind.
  - by rewrite !app_nil_r.
  - exfalso. apply (Hd c); [|set_solver]. apply (gp_origin _ _ _ _ _ _ Hg). by rewrite Eo, (assoc_L (++)), last_snoc.
  - by rewrite app_nil_r.
  - exfalso. destruct (t ++ [c]) as [|r t'] eqn:Et; [by destruct t|].
    apply (Hd r); [set_solver|]. by apply (gp_right _ _ _ _ _ _ Hg).
Qed.

Lemma agree_preceq S1 S2 a b : rep_ok S1 -> rep_ok S2 -> a ∈ S2 -> b ∈ S2 -> preceq S1 a b -> preceq S2 a b.
Proof.
  intros H1 H2 Ha Hb [->|Hab]; [by left|right].
  exact (order_agrees og ro S1 S2 a b (ro_seq _ H1) (ro_seq _ H2) Ha Hb Hab).
Qed.

(** An item of one replica is insertable in every replica that has its
    dependencies. *)
Lemma remote_insertable S1 S2 x : rep_ok S1 -> rep_ok S2 -> x ∈ S1 -> x ∉ S2 -> (forall y, y ∈ deps x -> y ∈ S2) ->
  insertable og ro S2 x.
Proof.
  intros H1 H2 Hx1 Hx2 Hdep. pose proof (ro_seq _ H1) as Hs1. pose proof (so_nodup _ _ _ Hs1) as Hn1.
  assert (Hl : forall l, og x = Some l -> l ∈ S2) by (intros; apply Hdep, elem_deps; auto).
  assert (Hr : forall r, ro x = Some r -> r ∈ S2) by (intros; apply Hdep, elem_deps; auto).
  split; [done|done|done| | |].
  - intros l r El Er. apply (order_agrees og ro S1 S2); [done|by apply ro_seq|auto|auto|].
    apply (prec_trans _ _ x); [done|by apply (ok_og og ro)|by apply (ok_ro og ro)].
  - intros r m Er Em. destruct (so_outer _ _ _ Hs1 x Hx1 r m Er Em) as (l & El & Hml). exists l. split; [done|].
    apply (agree_preceq S1 S2); [done|done| |auto|done]. apply (rep_closed S2 r); [done|auto|]. apply elem_deps. auto.
  - intros d Hd Eo Ecl. pose proof (ro_clock _ H1 x Hx1). pose proof (ro_clock _ H2 d Hd).
    destruct (Z.lt_trichotomy (Clock d) (Clock x)) as [Hlt|[Heq|Hlt]].
    + assert (Hd1 : d ∈ S1) by (apply (rep_closed S1 x); [done..|]; apply elem_deps; right; right; split; [done|lia]).
      destruct (ro_own _ H1 x d Hx1 Hd1 Ecl Eo Hlt) as (r & Er & Hrd). exists r. split; [done|].
      by apply (agree_preceq S1 S2); auto.
    + destruct d, x; simpl in *; by subst.
    + destruct Hx2. apply (rep_closed S2 d); [done..|]. apply elem_deps. right. right. split; [done|lia].
Qed.

Lemma rep_insert w k k' S : rep (<[k := S]> w) k' = if decide (k = k') then S else rep w k'.
Proof.
  unfold rep, world in *. case_decide as E; [subst; by rewrite lookup_insert_eq|by rewrite lookup_insert_ne].
Qed.

Lemma winv_integrate w k x : winv w -> insertable og ro (rep w k) x -> (forall y, y ∈ deps x -> y ∈ rep w k) ->
  0 <= Clock x -> k = Client x \/ x ∈ rep w (Client x) -> winv (<[k := integrate og ro (rep w k) x]> w).
Proof.
  intros [Hrep Hhome] Hi Hdep Hx Hk.
  assert (Hel : forall k' y, y ∈ rep (<[k := integrate og ro (rep w k) x]> w) k' <-> y ∈ rep w k' \/ (k' = k /\ y = x)).
  { intros k' y. rewrite rep_insert. case_decide; subst; [|naive_solver]. rewrite integrate_elem by (done || apply Hrep).
    naive_solver. }
  split.
  - intros k'. rewrite rep_insert. case_decide; [|done]. by apply rep_integrate.
  - intros k' y Hy. apply Hel in Hy as [Hy|[-> ->]]; apply Hel; [left; by eapply Hhome|].
    destruct Hk as [->|?]; [by right|by left].
Qed.

Lemma winv_step w w' : winv w -> net_step w w' -> winv w'.
Proof.
  intros Hw [Hl|(j & k & Hd)].
  - destruct Hl as [w x l1 l2 HS H0 Hx Hc Eo Er]. pose proof (wi_rep _ Hw (Client x)) as Hok.
    apply winv_integrate; [done|by eapply local_insertable| |done|by left].
    intros y Hy%elem_deps. destruct Hy as [Ey|[Ey|[Ec Hy]]].
    + rewrite Ey in Eo. symmetry in Eo. apply last_Some in Eo as [p ->]. rewrite HS. set_solver.
    + rewrite Ey in Er. destruct l2 as [|r q]; simplify_eq/=. rewrite HS. set_solver.
    + destruct y as [ky cy]. simpl in *. subst ky. by apply Hc.
  - destruct Hd as [w x Hj Hk Hdep]. apply winv_integrate; [done| |done| |].
    + by eapply remote_insertable; [apply (wi_rep _ Hw j)|apply (wi_rep _ Hw k)|..].
    + by apply (ro_clock _ (wi_rep _ Hw j)).
    + right. by eapply wi_home.
Qed.

Lemma rep_ok_nil : rep_ok [].
Proof.
  split; [split; [constructor|by intros x ?%not_elem_of_nil|by intros x c l _ ?%prec_elem; set_solver|by intros x ?%not_elem_of_nil|]| | |].
  - by intros a b [].
  - by intros x ?%not_elem_of_nil.
  - by intros x d ?%not_elem_of_nil.
  - exists []. split; [done|]. by intros [] ? ?.
Qed.

Lemma world_inv w : reachable w -> winv w.
Proof.
  intros Hr. unfold reachable in Hr. assert (H0 : winv ∅).
  { split; [intros k; apply rep_ok_nil|by intros k x ?%not_elem_of_nil]. }
  revert H0. induction Hr as [|w w1 w2 Hs _ IH]; [done|]. intros Hw. apply IH. by eapply winv_step.
Qed.

(** ** Delivery *)

(** The first missing item of a causal order has its dependencies. *)
Lemma first_missing (log S : list ID) : causal log -> (exists x, x ∈ log /\ x ∉ S) ->
  exists x, x ∈ log /\ (x ∉ S) /\ forall y, y ∈ deps x -> y ∈ S.
Proof.
  intros Hc (x0 & H0 & Hx0).
  assert (Hfirst : exists l1 x l2, log = l1 ++ x :: l2 /\ (x ∉ S) /\ Forall (fun y => y ∈ S) l1).
  { clear Hc. induction log as [|a log IH]; [by apply not_elem_of_nil in H0|].
    destruct (decide (a ∈ S)) as [Ha|Ha]; [|by exists [], a, log].
    apply elem_of_cons in H0 as [->|H0]; [done|]. destruct (IH H0) as (l1 & x & l2 & -> & Hx & Hf).
    exists (a :: l1), x, l2. split_and!; [done|done|]. by constructor. }
  destruct Hfirst as (l1 & x & l2 & -> & Hx & Hf). exists x. split_and!; [set_solver|done|].
  intros y Hy. rewrite list.Forall_forall in Hf. apply Hf. by eapply (Hc l1 x l2).
Qed.

(** Delivering from [j] to [k] until nothing is missing. *)
Lemma pull w j k : reachable w -> exists w', rtc (deliver j k) w w' /\
  (forall x, x ∈ rep w' k <-> x ∈ rep w k \/ x ∈ rep w j) /\ (forall i, i <> k -> rep w' i = rep w i) /\ reachable w'.
Proof.
  intros Hr. remember (length (filter (fun x => x ∉ rep w k) (rep w j))) as n eqn:En. revert w Hr En.
  induction n as [n IH] using lt_wf_ind. intros w Hr ->. pose proof (world_inv w Hr) as Hw.
  destruct (filter (fun x => x ∉ rep w k) (rep w j)) as [|x0 rest] eqn:Ef.
  - exists w. split_and!; [constructor| |done|done]. intros x. split; [by left|]. intros [?|Hx]; [done|].
    destruct (decide (x ∈ rep w k)) as [?|Hn]; [done|]. exfalso. apply (not_elem_of_nil x). rewrite <- Ef.
    by apply list_elem_of_filter.
  - destruct (decide (j = k)) as [->|Hjk].
    { assert (Hx0 : x0 ∈ filter (fun x => x ∉ rep w k) (rep w k)) by (rewrite Ef; apply list_elem_of_here).
      apply list_elem_of_filter in Hx0 as [? ?]. done. }
    assert (Hx0 : x0 ∈ filter (fun x => x ∉ rep w k) (rep w j)) by (rewrite Ef; apply list_elem_of_here).
    apply list_elem_of_filter in Hx0 as [Hx0 Hx0j].
    destruct (ro_log _ (wi_rep _ Hw j)) as (log & Hp & Hc).
    destruct (first_missing log (rep w k) Hc) as (x & Hxl & Hxk & Hdep); [exists x0; by rewrite Hp|].
    rewrite Hp in Hxl. set (w1 := <[k := integrate og ro (rep w k) x]> w).
    assert (Hd : deliver j k w w1) by by constructor.
    assert (Hr1 : reachable w1) by (eapply rtc_r; [done|right; eauto]).
    assert (Hi : insertable og ro (rep w k) x).
    { by eapply remote_insertable; [apply (wi_rep _ Hw j)|apply (wi_rep _ Hw k)|..]. }
    assert (Hk1 : forall y, y ∈ rep w1 k <-> y = x \/ y ∈ rep w k).
    { intros y. unfold w1. rewrite rep_insert, decide_True by done. apply integrate_elem; [apply Hw|done]. }
    assert (Ho : forall i, i <> k -> rep w1 i = rep w i) by (intros i Hik; unfold w1; by rewrite rep_insert, decide_False).
    destruct (IH (length (filter (fun y => y ∉ rep w1 k) (rep w1 j))) ) with (w := w1) as (w' & Hs & Hk' & Ho' & Hr'); [|done|done|].
    { rewrite <- Ef, (Ho j Hjk). assert (Hmono : forall l, x ∈ l ->
        (length (filter (fun y => y ∉ rep w1 k) l) < length (filter (fun y => y ∉ rep w k) l))%nat).
      { intros l Hl. apply list_elem_of_split in Hl as (l1 & l2 & ->). rewrite !list.filter_app, !length_app.
        rewrite !filter_cons, decide_False, decide_True by (done || (intros Hx; apply Hx, Hk1; by left)). simpl.
        assert (Hle : forall m, (length (filter (fun y => y ∉ rep w1 k) m) <= length (filter (fun y => y ∉ rep w k) m))%nat).
        { induction m as [|b m IHm]; [done|]. rewrite !filter_cons.
          case_decide as H1; case_decide as H2; simpl; try lia.
          destruct H1. apply Hk1. by right. }
        pose proof (Hle l1). pose proof (Hle l2). lia. }
      by apply Hmono. }
    exists w'. split_and!; [by eapply rtc_l| |intros i Hik; rewrite Ho', Ho by done; done|done].
    intros y. rewrite Hk', Hk1, (Ho j Hjk). naive_solver.
Qed.

End Replicas.

(** ** Properties *)

(** C1. Convergence: in every history of concurrent insertions and deliveries,
    in any order, two replicas that hold the same items hold them in the same
    sequence. *)
Theorem replicas_converge (og ro : ID -> option ID) (w : world) (j k : Z) :
  reachable og ro w -> (forall x, x ∈ rep w j <-> x ∈ rep w k) -> rep w j = rep w k.
Proof.
  intros Hr Hel. pose proof (world_inv og ro w Hr) as Hw.
  eapply (same_items_same_sequence og ro); [apply (wi_rep _ _ _ Hw)..|done].
Qed.

(** At any time, with some items still undelivered, two replicas agree on
    the relative order of every two items that both hold: later deliveries
    never reorder what a user has seen. *)
Theorem replicas_agree (og ro : ID -> option ID) (w : world) (j k : Z) (a b : ID) :
  reachable og ro w -> a ∈ rep w k -> b ∈ rep w k -> prec (rep w j) a b -> prec (rep w k) a b.
Proof.
  intros Hr Ha Hb Hab. pose proof (world_inv og ro w Hr) as Hw.
  exact (order_agrees og ro _ _ a b (ro_seq _ _ _ (wi_rep _ _ _ Hw j)) (ro_seq _ _ _ (wi_rep _ _ _ Hw k)) Ha Hb Hab).
Qed.

(** An item inserted locally between two neighbours appears exactly
    between them: the scan does not move it. *)
Theorem local_insert_exact (og ro : ID -> option ID) (w : world) (x : ID) (l1 l2 : list ID) :
  reachable og ro w -> rep w (Client x) = l1 ++ l2 -> x ∉ rep w (Client x) -> og x = list.last l1 -> ro x = head l2 ->
  integrate og ro (rep w (Client x)) x = l1 ++ x :: l2.
Proof.
  intros Hr HS Hx Eo Er. pose proof (world_inv og ro w Hr) as Hw.
  exact (local_position og ro _ x l1 l2 (wi_rep _ _ _ Hw (Client x)) HS Hx Eo Er).
Qed.

(** C4. Exchange completes: from any reachable state, finitely many
    deliveries between two replicas bring both to the same sequence, which
    holds the items of both; no delivery order gets stuck on a missing
    dependency. *)
Theorem exchange_converges (og ro : ID -> option ID) (w : world) (j k : Z) :
  reachable og ro w ->
  exists w1 w2, rtc (deliver og ro j k) w w1 /\ rtc (deliver og ro k j) w1 w2 /\ rep w2 j = rep w2 k /\
    forall x, x ∈ rep w2 j <-> x ∈ rep w j \/ x ∈ rep w k.
Proof.
  intros Hr. destruct (pull og ro w j k Hr) as (w1 & H1 & Hk1 & Ho1 & Hr1).
  destruct (pull og ro w1 k j Hr1) as (w2 & H2 & Hj2 & Ho2 & Hr2). exists w1, w2.
  assert (Hj : forall x, x ∈ rep w2 j <-> x ∈ rep w j \/ x ∈ rep w k).
  { intros x. rewrite Hj2, Hk1. destruct (decide (j = k)) as [->|Hjk]; [rewrite Hk1|rewrite Ho1 by done]; tauto. }
  split_and!; [done|done| |done]. pose proof (world_inv og ro w2 Hr2) as Hw2.
  destruct (decide (j = k)) as [->|Hjk]; [done|].
  eapply (same_items_same_sequence og ro); [apply (wi_rep _ _ _ Hw2)..|].
  intros x. rewrite Hj, (Ho2 k) by congruence. rewrite Hk1. tauto.
Qed.

(** *** A concrete history: two clients type at the same place, one of them
    twice, and exchange their items. *)
Definition ia : ID := GenID 1 0.
Definition ib : ID := GenID 2 0.
Definition ic : ID := GenID 1 1.
Definition ie : ID := GenID 2 1.
Definition og3 (x : ID) : option ID := if bool_decide (x = ic) || bool_decide (x = ie) then Some ia else None.
Definition ro3 (x : ID) : option ID := if bool_decide (x = ie) then Some ic else None.

Definition net1 : world := {[ 1 := [ia] ]}.
Definition net2 : world := <[2 := [ib]]> net1.
Definition net3 : world := <[1 := [ia; ic]]> net2.
Definition net4 : world := <[1 := [ia; ic; ib]]> net3.
Definition net5 : world := <[2 := [ia; ib]]> net4.
Definition net6 : world := <[2 := [ia; ic; ib]]> net5.

Ltac net_local x a b :=
  left; match goal with |- local_step _ _ ?w _ => refine (LocalInsert og3 ro3 w x a b _ _ _ _ _ _) end;
  [reflexivity|vm_compute; discriminate|vm_compute; set_solver| |reflexivity|reflexivity].

Ltac net_deliver j k x :=
  right; exists j, k; match goal with |- deliver _ _ _ _ ?w _ => refine (Deliver og3 ro3 j k w x _ _ _) end;
  [vm_compute; set_solver|vm_compute; set_solver|intros y Hy; vm_compute in Hy; vm_compute; set_solver].

Lemma net3_reachable : reachable og3 ro3 net3.
Proof.
  eapply rtc_l; [|eapply rtc_l; [|eapply rtc_l; [|apply rtc_refl]]].
  - instantiate (1 := net1). net_local ia (@nil ID) (@nil ID). simpl. lia.
  - instantiate (1 := net2). net_local ib (@nil ID) (@nil ID). simpl. lia.
  - net_local ic [ia] (@nil ID).
    intros c Hc. assert (c = 0) as -> by (simpl in Hc; lia). vm_compute. set_solver.
Qed.

Lemma net6_reachable : reachable og3 ro3 net6.
Proof.
  unfold reachable. transitivity net3; [exact net3_reachable|].
  eapply rtc_l; [|eapply rtc_l; [|eapply rtc_l; [|apply rtc_refl]]].
  - instantiate (1 := net4). net_deliver 2 1 ib.
  - instantiate (1 := net5). net_deliver 1 2 ia.
  - net_deliver 1 2 ic.
Qed.

Lemma replicas_converge_witness : rep net6 1 = rep net6 2.
Proof. exact (replicas_converge og3 ro3 net6 1 2 net6_reachable (fun x => iff_refl _)). Defined.

Lemma replicas_agree_witness : prec (rep net6 1) ia ib /\ prec (rep net6 2) ia ib.
Proof.
  assert (H : prec (rep net6 1) ia ib) by (left; split; [done|set_solver]). split; [exact H|].
  refine (replicas_agree og3 ro3 net6 1 2 ia ib net6_reachable _ _ H); vm_compute; set_solver.
Defined.

Lemma local_insert_exact_witness : integrate og3 ro3 (rep net6 (Client ie)) ie = [ia] ++ ie :: [ic; ib].
Proof.
  refine (local_insert_exact og3 ro3 net6 ie [ia] [ic; ib] net6_reachable _ _ _ _);
    [reflexivity|vm_compute; set_solver|reflexivity|reflexivity].
Defined.

Lemma exchange_converges_witness : exists w1 w2, rtc (deliver og3 ro3 1 2) net3 w1 /\ rtc (deliver og3 ro3 2 1) w1 w2 /\
  rep w2 1 = rep w2 2 /\ forall x, x ∈ rep w2 1 <-> x ∈ rep net3 1 \/ x ∈ rep net3 2.
Proof. exact (exchange_converges og3 ro3 net3 1 2 net3_reachable). Defined.
