(* ===== verification/DeleteSet.v ===== *)
(** * Delete sets

    Models [crdt/delete_set.go] with the delete-set halves of
    [crdt/update_encoder.go] and [crdt/update_decoder.go] (V1 and V2), and the
    deleted-run walk of [crdt/client_struct_list.go]. A [*deleteItem] is never
    nil in the sets the code builds, so a set holds values. *)
From S2P Require Import Prelude Lib0 StructStore.

Record deleteItem := newDeleteItem { di_clock : Z; di_length : Z }.

#[global] Instance deleteItem_eq_dec : EqDecision deleteItem.
Proof. solve_decision. Defined.

Record deleteSet := mkDS { ds_clients : gmap Z (list deleteItem); ds_order : list Z }.

Definition newDeleteSet : deleteSet := mkDS ∅ [].

(** ** Construction and lookup *)

Definition dsNoteClient (ds : deleteSet) (client : Z) : deleteSet :=
  match ds_clients ds !! client with
  | Some _ => ds
  | None => mkDS (ds_clients ds) (ds_order ds ++ [client])
  end.

(** First-insertion order, then the clients that were never noted, sorted. *)
Definition dsOrderedClients (ds : deleteSet) : list Z :=
  let out := fold_left
    (fun out c => if bool_decide (is_Some (ds_clients ds !! c)) && negb (bool_decide (c ∈ out))
                  then out ++ [c] else out) (ds_order ds) [] in
  if (length out =? size (ds_clients ds))%nat then out
  else out ++ merge_sort (≤) (filter (fun c => c ∉ out) (elements (dom (ds_clients ds)))).

Definition addToDeleteSet (ds : deleteSet) (client clock length : Z) : deleteSet :=
  let ds := dsNoteClient ds client in
  mkDS (<[client := default [] (ds_clients ds !! client) ++ [newDeleteItem clock length]]> (ds_clients ds))
       (ds_order ds).

(** The loop of [findIndexDS]; [left] and [right] are the Go ints. *)
Fixpoint findIndexDS_loop (fuel : nat) (dis : list deleteItem) (clock left right : Z) : result Z :=
  match fuel with
  | O => Err ErrMalformed
  | S fuel' =>
      if left <=? right then
        let midIndex := Z.quot (left + right) 2 in
        match zlookup dis midIndex with
        | None => Err ErrPanic
        | Some mid =>
            if di_clock mid <=? clock then
              if clock <? addClockSaturating (di_clock mid) (di_length mid) then Ok midIndex
              else findIndexDS_loop fuel' dis clock (midIndex + 1) right
            else findIndexDS_loop fuel' dis clock left (midIndex - 1)
        end
      else Err ErrNotFound
  end.

Definition findIndexDS (dis : list deleteItem) (clock : Z) : result Z :=
  findIndexDS_loop (S (length dis)) dis clock 0 (Z.of_nat (length dis) - 1).

(** [isDeleted]: a nil set ([None]) deletes nothing. *)
Definition isDeleted (ds : option deleteSet) (id : ID) : bool :=
  match ds with
  | None => false
  | Some ds =>
      match ds_clients ds !! Client id with
      | None => false
      | Some dis => match findIndexDS dis (Clock id) with Ok _ => true | Err _ => false end
      end
  end.

(** ** Sorting and merging *)

(** Insertion sort of the first branch: the prefix is kept reversed, and [item]
    moves left over the elements with a greater clock. *)
Fixpoint insert_rev (item : deleteItem) (prefix : list deleteItem) : list deleteItem :=
  match prefix with
  | [] => [item]
  | p :: prefix' => if di_clock item <? di_clock p then p :: insert_rev item prefix' else item :: prefix
  end.

Definition insertionSort (dels : list deleteItem) : list deleteItem :=
  rev (fold_left (fun prefix item => insert_rev item prefix) dels []).

Definition clock_le (a b : deleteItem) : Prop := di_clock a <= di_clock b.
#[global] Instance clock_le_dec : RelDecision clock_le.
Proof. intros a b. unfold clock_le. apply _. Defined.
#[global] Instance clock_le_total : Total clock_le.
Proof. intros a b. unfold clock_le. lia. Qed.
#[global] Instance clock_le_trans : Transitive clock_le.
Proof. intros a b c. unfold clock_le. lia. Qed.

(** [sort.Slice] by clock. It need not be stable: [merge_sorted_unique] below
    shows that the merge does not depend on the order of equal clocks. *)
Definition sortSlice (dels : list deleteItem) : list deleteItem := merge_sort clock_le dels.

(** The merge loop: [lft] is [dels[j-1]]. *)
Fixpoint mergePass (lft : deleteItem) (dels : list deleteItem) : list deleteItem :=
  match dels with
  | [] => [lft]
  | rgt :: dels' =>
      if di_clock rgt <=? addClockSaturating (di_clock lft) (di_length lft)
      then mergePass
             (newDeleteItem (di_clock lft)
                (Z.max (di_length lft)
                   (addClockSaturating (di_clock rgt) (di_length rgt) - di_clock lft))) dels'
      else lft :: mergePass rgt dels'
  end.

Definition sortAndMerge (dels : list deleteItem) : list deleteItem :=
  if (length dels <? 2)%nat then dels
  else
    let dels := if (length dels <=? 16)%nat then insertionSort dels else sortSlice dels in
    match dels with [] => [] | lft :: rest => mergePass lft rest end.

Definition sortAndMergeDeleteSet (ds : deleteSet) : deleteSet :=
  mkDS (sortAndMerge <$> ds_clients ds) (ds_order ds).

(** One client of one set in [mergeDeleteSets]: copies of the source's ranges
    are appended. *)
Definition mergeClient (ds merged : deleteSet) (client : Z) : deleteSet :=
  let source := default [] (ds_clients ds !! client) in
  let dels := default [] (ds_clients merged !! client) in
  let merged := dsNoteClient merged client in
  mkDS (<[client := dels ++ source]> (ds_clients merged)) (ds_order merged).

Definition mergeDeleteSets (dss : list (option deleteSet)) : deleteSet :=
  sortAndMergeDeleteSet
    (fold_left (fun merged ods =>
       match ods with
       | None => merged
       | Some ds => fold_left (mergeClient ds) (dsOrderedClients ds) merged
       end) dss newDeleteSet).

Definition equalDeleteSets (ds1 ds2 : option deleteSet) : bool :=
  match ds1, ds2 with
  | None, None => true
  | Some ds1, Some ds2 =>
      (size (ds_clients ds1) =? size (ds_clients ds2))%nat &&
      forallb (fun '(client, items1) =>
        match ds_clients ds2 !! client with
        | None => false
        | Some items2 => bool_decide (items1 = items2)
        end) (map_to_list (ds_clients ds1))
  | _, _ => false
  end.

(** ** Deleted runs of a struct list *)
Section Runs.
Context {A : Type} `{AbstractStruct A}.

(** The inner loop: the following deleted structs extend the run. *)
Fixpoint absorb (length : Z) (ss : list A) : Z * list A :=
  match ss with
  | s :: ss' => if structDeleted s then absorb (length + structLength s) ss' else (length, ss)
  | [] => (length, [])
  end.

Fixpoint deletedRanges_loop (fuel : nat) (dst : list deleteItem) (ss : list A) : list deleteItem :=
  match fuel, ss with
  | S fuel', s :: ss' =>
      if negb (structDeleted s) then deletedRanges_loop fuel' dst ss'
      else
        let '(length, rest) := absorb (structLength s) ss' in
        deletedRanges_loop fuel' (dst ++ [newDeleteItem (Clock (getID s)) length]) rest
  | _, _ => dst
  end.

Definition appendDeletedRanges (dst : list deleteItem) (ss : list A) : list deleteItem :=
  deletedRanges_loop (length ss) dst ss.

Definition newDeleteSetFromStructStore (ss : structStore A) : deleteSet :=
  fold_left (fun ds client =>
    match clientStructs ss client with
    | None => ds
    | Some structs =>
        let disItems := appendDeletedRanges [] structs in
        if (0 <? length disItems)%nat then
          let ds := dsNoteClient ds client in
          mkDS (<[client := disItems]> (ds_clients ds)) (ds_order ds)
        else ds
    end) (orderedClients ss) newDeleteSet.

Definition deletedStructRangeCount (ss : list A) : Z :=
  fst (fold_left (fun '(ranges, wasDeleted) s =>
    let deleted := structDeleted s in
    (if deleted && negb wasDeleted then ranges + 1 else ranges, deleted)) ss (0, false)).

End Runs.

(** ** Lemmas on sorting and merging *)

(** Items with the non-negative bounds that every producer guarantees. *)
Definition item_ok (it : deleteItem) : Prop :=
  0 <= di_clock it <= maxInt /\ 0 <= di_length it <= maxInt.

Definition item_end (it : deleteItem) : Z := addClockSaturating (di_clock it) (di_length it).

Definition item_covers (it : deleteItem) (clock : Z) : Prop := di_clock it <= clock < item_end it.

(** The clocks a list of ranges deletes. *)
Definition covered (dels : list deleteItem) (clock : Z) : Prop := Exists (fun it => item_covers it clock) dels.

(** Ranges in increasing order, no two of which touch. *)
Definition separated (dels : list deleteItem) : Prop :=
  StronglySorted (fun a b => item_end a < di_clock b) dels.

Lemma separated_single it : separated [it].
Proof. apply SSorted_cons; [apply SSorted_nil|constructor]. Qed.

Lemma item_end_ok it : item_ok it -> item_end it = Z.min maxInt (di_clock it + di_length it).
Proof. intros [? ?]. by apply addClockSaturating_nonneg. Qed.

Lemma insert_rev_perm it l : insert_rev it l ≡ₚ it :: l.
Proof.
  induction l as [|p l IH]; simpl; [done|]. case_match; [|done].
  rewrite IH. by constructor.
Qed.

Lemma insertionSort_perm dels : insertionSort dels ≡ₚ dels.
Proof.
  unfold insertionSort. rewrite <- Permutation_rev.
  assert (Hg : forall acc, fold_left (fun prefix item => insert_rev item prefix) dels acc ≡ₚ acc ++ dels).
  { induction dels as [|d dels IH]; intros acc; simpl; [by rewrite app_nil_r|].
    rewrite IH, insert_rev_perm. apply Permutation_middle. }
  by rewrite Hg.
Qed.

Lemma insert_rev_sorted it l :
  StronglySorted (flip clock_le) l -> StronglySorted (flip clock_le) (insert_rev it l).
Proof.
  induction 1 as [|p l Hs IH Hf]; simpl; [by repeat constructor|].
  destruct (Z.ltb_spec (di_clock it) (di_clock p)) as [Hlt|Hge].
  - constructor; [done|]. rewrite insert_rev_perm. constructor; [|done].
    unfold flip, clock_le. lia.
  - constructor; [by constructor|]. constructor; [unfold flip, clock_le; lia|].
    eapply list.Forall_impl; [exact Hf|]. unfold flip, clock_le. intros; lia.
Qed.

Lemma StronglySorted_rev {B} (R : relation B) l :
  StronglySorted (flip R) l -> StronglySorted R (rev l).
Proof.
  induction 1 as [|p l Hs IH Hf]; simpl; [constructor|].
  apply StronglySorted_app_2; [|done|by repeat constructor].
  intros x y Hx%list_elem_of_In%in_rev ->%list_elem_of_singleton.
  apply list_elem_of_In in Hx. by apply (list.Forall_forall _ _) with (x := x) in Hf.
Qed.

Lemma insertionSort_sorted dels : StronglySorted clock_le (insertionSort dels).
Proof.
  unfold insertionSort. apply StronglySorted_rev.
  assert (Hg : forall acc, StronglySorted (flip clock_le) acc ->
    StronglySorted (flip clock_le) (fold_left (fun prefix item => insert_rev item prefix) dels acc)).
  { induction dels as [|d dels IH]; intros acc Ha; simpl; [done|]. by apply IH, insert_rev_sorted. }
  apply Hg. constructor.
Qed.

Lemma covered_cons it dels c : covered (it :: dels) c <-> item_covers it c \/ covered dels c.
Proof. unfold covered. apply Exists_cons. Qed.

Lemma covered_perm l1 l2 c : l1 ≡ₚ l2 -> covered l1 c <-> covered l2 c.
Proof. intros Hp. unfold covered. by rewrite Hp. Qed.

(** Joining two ranges that touch. *)
Lemma join_ok a b :
  item_ok a -> item_ok b -> di_clock a <= di_clock b -> di_clock b <= item_end a ->
  let m := newDeleteItem (di_clock a) (Z.max (di_length a) (item_end b - di_clock a)) in
  item_ok m /\ item_end m = Z.max (item_end a) (item_end b).
Proof.
  intros Ha Hb Hle Ht m. pose proof (item_end_ok _ Ha) as Ea. pose proof (item_end_ok _ Hb) as Eb.
  unfold item_ok in *. assert (Hm : item_ok m) by (unfold item_ok, m; simpl; lia).
  split; [done|]. rewrite (item_end_ok _ Hm). unfold m. simpl. lia.
Qed.

Lemma mergePass_spec lft dels :
  item_ok lft -> Forall item_ok dels -> StronglySorted clock_le (lft :: dels) ->
  (forall c, covered (mergePass lft dels) c <-> covered (lft :: dels) c) /\
  separated (mergePass lft dels) /\ Forall item_ok (mergePass lft dels) /\
  Forall (fun it => di_clock lft <= di_clock it) (mergePass lft dels).
Proof.
  intros Hl Hd. revert lft Hl. induction Hd as [|rgt dels Hr Hd IH]; intros lft Hl Hs; simpl.
  { split; [done|]. split; [apply separated_single|]. by rewrite !list.Forall_singleton. }
  apply StronglySorted_inv in Hs as [Hs Hf]. apply Forall_cons_1 in Hf as [Hlr Hf].
  unfold clock_le in Hlr. destruct (Z.leb_spec (di_clock rgt) (addClockSaturating (di_clock lft) (di_length lft))) as [Ht|Ht].
  - destruct (join_ok lft rgt Hl Hr Hlr Ht) as [Hm Em]. unfold item_end in Hm, Em.
    set (m := newDeleteItem _ _) in *. apply StronglySorted_inv in Hs as [Hs Hf'].
    destruct (IH m Hm) as (Hc & Hsep & Hok & Hge); [by constructor|].
    split_and!; [|done|done|done]. intros c. rewrite Hc, !covered_cons.
    unfold item_covers, item_end in *. rewrite Em. simpl.
    pose proof (item_end_ok _ Hr) as Er. unfold item_end in Er. split.
    + intros [[? ?]|?]; [|tauto]. destruct (decide (c < addClockSaturating (di_clock lft) (di_length lft))); [tauto|].
      right. left. lia.
    + intros [?|[?|?]]; [left; lia|left; lia|tauto].
  - destruct (IH rgt Hr Hs) as (Hc & Hsep & Hok & Hge). split_and!.
    + intros c. by rewrite !(covered_cons lft), Hc.
    + constructor; [done|]. eapply list.Forall_impl; [exact Hge|]. intros it ?. unfold item_end. simpl in *. lia.
    + by constructor.
    + constructor; [lia|]. eapply list.Forall_impl; [exact Hge|]. intros it ?. simpl in *. lia.
Qed.

Lemma sort_step_spec dels :
  StronglySorted clock_le (if (length dels <=? 16)%nat then insertionSort dels else sortSlice dels) /\
  (if (length dels <=? 16)%nat then insertionSort dels else sortSlice dels) ≡ₚ dels.
Proof.
  case_match; split; auto using insertionSort_sorted, insertionSort_perm.
  - apply StronglySorted_merge_sort; apply _.
  - apply merge_sort_Permutation.
Qed.

Lemma sortAndMerge_spec dels :
  Forall item_ok dels ->
  (forall c, covered (sortAndMerge dels) c <-> covered dels c) /\
  separated (sortAndMerge dels) /\ Forall item_ok (sortAndMerge dels).
Proof.
  intros Hok. unfold sortAndMerge. destruct (Nat.ltb_spec (length dels) 2) as [Hlt|Hge].
  { split_and!; [done| |done]. destruct dels as [|a [|b dels]]; [apply SSorted_nil|apply separated_single|simpl in *; lia]. }
  destruct (sort_step_spec dels) as [Hs Hp].
  set (l := if (length dels <=? 16)%nat then insertionSort dels else sortSlice dels) in *. clearbody l.
  assert (Hok' : Forall item_ok l) by (by rewrite Hp).
  destruct l as [|lft l]; [apply Permutation_length in Hp; simpl in Hp; lia|].
  apply Forall_cons_1 in Hok' as [Hl Hok']. destruct (mergePass_spec lft l Hl Hok' Hs) as (Hc & Hsep & Ho & _).
  split_and!; [|done|done]. intros c. rewrite Hc. by apply covered_perm.
Qed.

(** Separated lists with the same clocks are equal as sets of ranges, whatever
    order the sort gave to equal clocks. *)
Lemma merge_sorted_unique lft1 l1 lft2 l2 c :
  Forall item_ok (lft1 :: l1) -> StronglySorted clock_le (lft1 :: l1) ->
  StronglySorted clock_le (lft2 :: l2) -> lft1 :: l1 ≡ₚ lft2 :: l2 ->
  covered (mergePass lft1 l1) c <-> covered (mergePass lft2 l2) c.
Proof.
  intros Hok H1 H2 Hp. assert (Hok2 : Forall item_ok (lft2 :: l2)) by (by rewrite <- Hp).
  apply Forall_cons_1 in Hok as [? ?]. apply Forall_cons_1 in Hok2 as [? ?].
  destruct (mergePass_spec lft1 l1) as (-> & _); [done..|].
  destruct (mergePass_spec lft2 l2) as (-> & _); [done..|]. by apply covered_perm.
Qed.

(** ** Lemmas on the search *)

Lemma separated_lookup dels i j a b :
  separated dels -> (i < j)%nat -> dels !! i = Some a -> dels !! j = Some b -> item_end a < di_clock b.
Proof.
  intros Hs. revert i j. induction Hs as [|x l Hs IH Hf]; intros [|i] [|j] Hij Ha Hb; simplify_eq/=; try lia.
  - exact (Forall_lookup_1 _ _ _ _ Hf Hb).
  - by apply (IH i j); [lia|..].
Qed.

Lemma findIndexDS_loop_spec fuel dis clock left right :
  Forall item_ok dis -> separated dis ->
  0 <= left <= right + 1 -> right < Z.of_nat (length dis) -> right - left + 1 < Z.of_nat fuel ->
  match findIndexDS_loop fuel dis clock left right with
  | Ok i => exists it, zlookup dis i = Some it /\ item_covers it clock
  | Err e => e = ErrNotFound /\
      forall i it, left <= i <= right -> zlookup dis i = Some it -> ~ item_covers it clock
  end.
Proof.
  intros Hok Hsep. revert left right. induction fuel as [|fuel IH]; intros left right Hl Hr Hf; [lia|].
  simpl. destruct (Z.leb_spec left right) as [Hle|Hgt]; [|split; [done|lia]].
  set (mid := Z.quot (left + right) 2). assert (Hm : left <= mid <= right) by (unfold mid; zquot).
  destruct (zlookup_is_Some dis mid) as [s Hs]; [lia|]. rewrite Hs.
  assert (Hsok : item_ok s).
  { unfold zlookup in Hs. destruct (mid <? 0); [done|]. exact (Forall_lookup_1 _ _ _ _ Hok Hs). }
  pose proof (item_end_ok _ Hsok) as Hse. unfold item_ok in Hsok.
  assert (Hmono : forall i t, zlookup dis i = Some t ->
     (i < mid -> item_end t < di_clock s) /\ (mid < i -> item_end s < di_clock t)).
  { intros i t Ht. pose proof (zlookup_Some _ _ _ Ht). pose proof (zlookup_Some _ _ _ Hs).
    unfold zlookup in Hs, Ht. destruct (Z.ltb_spec i 0), (Z.ltb_spec mid 0); try done; try lia.
    split; intros; [apply (separated_lookup dis (Z.to_nat i) (Z.to_nat mid))
                   |apply (separated_lookup dis (Z.to_nat mid) (Z.to_nat i))]; done || lia. }
  fold (item_end s). destruct (Z.leb_spec (di_clock s) clock) as [Hst|Hst].
  - destruct (Z.ltb_spec clock (item_end s)) as [Hin|Hout]; [exists s; done|].
    specialize (IH (mid + 1) right). destruct (findIndexDS_loop fuel _ _ _ _); [apply IH; lia|].
    destruct IH as [-> IH]; [lia..|]. split; [done|]. intros i t Hi Ht [Hc1 Hc2].
    destruct (Hmono i t Ht) as [Hlo Hhi]. destruct (Z.lt_trichotomy i mid) as [?|[->|?]].
    + specialize (Hlo ltac:(lia)). lia.
    + simplify_eq. lia.
    + eapply (IH i t); [lia|done|]. by split.
  - specialize (IH left (mid - 1)). destruct (findIndexDS_loop fuel _ _ _ _); [apply IH; lia|].
    destruct IH as [-> IH]; [lia..|]. split; [done|]. intros i t Hi Ht [Hc1 Hc2].
    destruct (Hmono i t Ht) as [Hlo Hhi]. destruct (Z.lt_trichotomy i mid) as [?|[->|?]].
    + eapply (IH i t); [lia|done|]. by split.
    + simplify_eq. lia.
    + specialize (Hhi ltac:(lia)). lia.
Qed.

Lemma findIndexDS_spec dis clock :
  Forall item_ok dis -> separated dis ->
  match findIndexDS dis clock with
  | Ok i => exists it, zlookup dis i = Some it /\ item_covers it clock
  | Err e => e = ErrNotFound /\ ~ covered dis clock
  end.
Proof.
  intros Hok Hsep. unfold findIndexDS.
  pose proof (findIndexDS_loop_spec (S (length dis)) dis clock 0 (Z.of_nat (length dis) - 1) Hok Hsep) as Hs.
  destruct (findIndexDS_loop _ _ _ _ _); [apply Hs; lia|].
  destruct Hs as [-> Hs]; [lia..|]. split; [done|]. unfold covered. rewrite list.Exists_exists.
  intros (it & Hin & Hc). apply list_elem_of_lookup in Hin as [i Hi].
  pose proof (lookup_lt_Some _ _ _ Hi). apply (Hs (Z.of_nat i) it); [lia| |done].
  by rewrite zlookup_nat.
Qed.

(** ** Lemmas on whole sets *)

(** The ranges of a client; an absent client has none. *)
Definition ds_items (ds : deleteSet) (client : Z) : list deleteItem := default [] (ds_clients ds !! client).

Definition ds_ok (ds : deleteSet) : Prop := forall client, Forall item_ok (ds_items ds client).

(** What a set deletes. *)
Definition ds_deletes (ds : deleteSet) (id : ID) : Prop := covered (ds_items ds (Client id)) (Clock id).

Lemma ds_items_insert m order client l k :
  ds_items (mkDS (<[client := l]> m) order) k = if decide (client = k) then l else default [] (m !! k).
Proof. unfold ds_items. simpl. rewrite lookup_insert. by case_decide. Qed.

Lemma dsNoteClient_clients ds client : ds_clients (dsNoteClient ds client) = ds_clients ds.
Proof. unfold dsNoteClient. by case_match. Qed.

Lemma addToDeleteSet_items ds client clock len k :
  ds_items (addToDeleteSet ds client clock len) k =
  ds_items ds k ++ (if decide (client = k) then [newDeleteItem clock len] else []).
Proof.
  unfold addToDeleteSet. rewrite ds_items_insert, dsNoteClient_clients.
  case_decide; subst; [done|by rewrite app_nil_r].
Qed.

Lemma addToDeleteSet_ok ds client clock len :
  item_ok (newDeleteItem clock len) -> ds_ok ds -> ds_ok (addToDeleteSet ds client clock len).
Proof.
  intros Hi Hds k. rewrite addToDeleteSet_items. apply list.Forall_app. split; [apply Hds|].
  case_decide; [by apply list.Forall_singleton|constructor].
Qed.

Lemma dsOrderedClients_perm ds : dsOrderedClients ds ≡ₚ elements (dom (ds_clients ds)).
Proof.
  unfold dsOrderedClients. set (f := fun out c => _).
  assert (Hinv : forall order out, NoDup out -> (forall c, c ∈ out -> c ∈ dom (ds_clients ds)) ->
    NoDup (fold_left f order out) /\ forall c, c ∈ fold_left f order out -> c ∈ dom (ds_clients ds)).
  { induction order as [|c order IH]; intros out Hnd Hin; simpl; [done|]. unfold f at 2 4.
    destruct (bool_decide_reflect (is_Some (ds_clients ds !! c))) as [Hc|]; cbn [andb]; [|by apply IH].
    destruct (bool_decide_reflect (c ∈ out)); cbn [negb]; [by apply IH|]. apply IH.
    - apply list.NoDup_app. split_and!; [done| |apply NoDup_singleton].
      intros x Hx ->%list_elem_of_singleton. done.
    - intros x [?| ->%list_elem_of_singleton]%elem_of_app; [auto|by apply elem_of_dom]. }
  destruct (Hinv (ds_order ds) []) as [Hnd Hin]; [constructor|set_solver|].
  set (out := fold_left f (ds_order ds) []) in *. clearbody out. clear f Hinv.
  destruct (Nat.eqb_spec (length out) (size (ds_clients ds))) as [Hlen|Hlen].
  - apply NoDup_Permutation; [done|apply NoDup_elements|].
    intros c. rewrite elem_of_elements. split; [auto|]. intros Hc.
    assert (Heq : (list_to_set out : gset Z) = dom (ds_clients ds)).
    { apply leibniz_equiv, set_subseteq_size_equiv; [intros x; rewrite elem_of_list_to_set; auto|].
      rewrite size_list_to_set by done. rewrite size_dom. lia. }
    rewrite <- Heq in Hc. by apply elem_of_list_to_set in Hc.
  - rewrite merge_sort_Permutation. apply NoDup_Permutation; [|apply NoDup_elements|].
    + apply list.NoDup_app. split_and!; [done| |apply list.NoDup_filter, NoDup_elements].
      intros c Hc [? _]%list_elem_of_filter. done.
    + intros c. rewrite elem_of_app, list_elem_of_filter, elem_of_elements.
      destruct (decide (c ∈ out)); naive_solver.
Qed.

Lemma mergeClient_items ds merged client k :
  ds_items (mergeClient ds merged client) k =
  ds_items merged k ++ (if decide (client = k) then ds_items ds k else []).
Proof.
  unfold mergeClient. rewrite ds_items_insert, dsNoteClient_clients.
  case_decide; subst; [done|by rewrite app_nil_r].
Qed.

Lemma mergeClients_items ds cs merged k :
  NoDup cs ->
  ds_items (fold_left (mergeClient ds) cs merged) k =
  ds_items merged k ++ (if decide (k ∈ cs) then ds_items ds k else []).
Proof.
  intros Hnd. revert merged. induction Hnd as [|c cs Hc Hnd IH]; intros merged; simpl.
  { by rewrite app_nil_r. }
  rewrite IH, mergeClient_items, <- (assoc_L (++)). f_equal.
  destruct (decide (c = k)) as [->|].
  - rewrite (decide_False (P := k ∈ cs)) by done. rewrite decide_True by left. by rewrite app_nil_r.
  - destruct (decide (k ∈ cs)); [rewrite decide_True by by right|rewrite decide_False by set_solver]; done.
Qed.

Lemma mergeSet_items ds merged k :
  ds_items (fold_left (mergeClient ds) (dsOrderedClients ds) merged) k = ds_items merged k ++ ds_items ds k.
Proof.
  rewrite mergeClients_items by (rewrite dsOrderedClients_perm; apply NoDup_elements).
  f_equal. case_decide as Hd; [done|]. rewrite dsOrderedClients_perm, elem_of_elements, not_elem_of_dom in Hd.
  unfold ds_items. by rewrite Hd.
Qed.

(** All the ranges of a client, set after set. *)
Definition all_items (dss : list (option deleteSet)) (k : Z) : list deleteItem :=
  concat (map (fun ods => match ods with None => [] | Some ds => ds_items ds k end) dss).

Lemma mergeDeleteSets_items dss k : ds_items (mergeDeleteSets dss) k = sortAndMerge (all_items dss k).
Proof.
  unfold mergeDeleteSets, sortAndMergeDeleteSet, ds_items at 1. cbn [ds_clients].
  rewrite lookup_fmap. set (f := fun merged ods => _).
  assert (Hg : forall acc, ds_items (fold_left f dss acc) k = ds_items acc k ++ all_items dss k).
  { induction dss as [|[ds|] dss IH]; intros acc; simpl; [by rewrite app_nil_r| |by rewrite IH].
    rewrite IH, mergeSet_items. by rewrite <- (assoc_L (++)). }
  specialize (Hg newDeleteSet). unfold ds_items in Hg at 2. cbn [newDeleteSet ds_clients] in Hg.
  rewrite lookup_empty in Hg. cbn [default app] in Hg. rewrite <- Hg.
  unfold ds_items. by destruct (ds_clients (fold_left f dss newDeleteSet) !! k).
Qed.

Lemma isDeleted_spec ds id :
  ds_ok ds -> separated (ds_items ds (Client id)) -> isDeleted (Some ds) id = true <-> ds_deletes ds id.
Proof.
  intros Hok Hsep. specialize (Hok (Client id)). unfold isDeleted, ds_deletes, ds_items in *.
  destruct (ds_clients ds !! Client id) as [dis|]; simpl in *; [|by split; [|inversion 1]].
  pose proof (findIndexDS_spec dis (Clock id) Hok Hsep) as Hs.
  destruct (findIndexDS dis (Clock id)); split; intros Hx; try done.
  - destruct Hs as (it & Hit & Hc). apply list.Exists_exists. exists it.
    split; [by eapply zlookup_elem|done].
  - by destruct Hs as [_ Hs].
Qed.

Lemma all_items_ok dss k :
  Forall (fun ods => match ods with None => True | Some ds => ds_ok ds end) dss -> Forall item_ok (all_items dss k).
Proof.
  unfold all_items. induction 1 as [|[ds|] dss Hd _ IH]; simpl; [constructor| |done].
  apply list.Forall_app. auto.
Qed.

Lemma all_items_covered dss k c :
  covered (all_items dss k) c <-> exists ds, Some ds ∈ dss /\ covered (ds_items ds k) c.
Proof.
  unfold covered, all_items. induction dss as [|[ds|] dss IH]; simpl.
  - rewrite Exists_nil. set_solver.
  - rewrite Exists_app, IH. set_solver.
  - rewrite IH. set_solver.
Qed.

(** ** Lemmas on deleted runs *)
Section RunLemmas.
Context {A : Type} `{AbstractStruct A}.

(** A deleted struct holds the clock. *)
Definition deleted_at (ss : list A) (c : Z) : Prop :=
  Exists (fun s => structDeleted s = true /\ covers s c) ss.

Lemma absorb_spec c ss l l' rest :
  contiguous_from c ss -> absorb l ss = (l', rest) ->
  exists pre, ss = pre ++ rest /\ Forall (fun s => structDeleted s = true) pre /\
    l' = l + (list_end c pre - c) /\ contiguous_from (list_end c pre) rest /\
    match rest with s :: _ => structDeleted s = false | [] => True end /\
    (forall k, c <= k < list_end c pre -> deleted_at pre k) /\ c <= list_end c pre.
Proof.
  revert c l. induction ss as [|s ss IH]; intros c l Hc Hab; simpl in Hab.
  { simplify_eq. exists []. simpl. split_and!; try done; intros; lia. }
  destruct (structDeleted s) eqn:Ed.
  - destruct Hc as (<- & Hl & Hc). destruct (IH _ _ Hc Hab) as (pre & -> & Hd & -> & Hc' & Hr & Hk & Hge).
    exists (s :: pre). simpl. unfold struct_end in *. split_and!; try done; try lia; [by constructor|].
    intros k Hk'. destruct (decide (k < Clock (getID s) + structLength s)).
    + left. unfold covers, struct_end. split; [done|lia].
    + right. apply Hk. lia.
  - injection Hab as <- <-. exists []. cbn [list_end app]. split_and!; try done; try lia.
Qed.

Lemma deleted_at_app l1 l2 k : deleted_at (l1 ++ l2) k <-> deleted_at l1 k \/ deleted_at l2 k.
Proof. apply Exists_app. Qed.

Lemma deleted_at_bound c ss k : contiguous_from c ss -> deleted_at ss k -> c <= k < list_end c ss.
Proof.
  revert c. induction ss as [|s ss IH]; intros c Hc Hd; [by inversion Hd|].
  destruct Hc as (<- & Hl & Hc). pose proof (list_end_ge _ _ Hc).
  inversion Hd as [? ? [_ [H1 H2]]|? ? Hd']; subst; simpl.
  - unfold struct_end in *. lia.
  - specialize (IH _ Hc Hd'). unfold struct_end in *. lia.
Qed.

Lemma deletedRanges_loop_app fuel dst ss :
  deletedRanges_loop fuel dst ss = dst ++ deletedRanges_loop fuel [] ss.
Proof.
  revert dst ss. induction fuel as [|fuel IH]; intros dst ss; [by rewrite app_nil_r|].
  destruct ss as [|s ss]; simpl; [by rewrite app_nil_r|]. case_match; [apply IH|].
  destruct (absorb _ _) as [l rest]. rewrite IH, (IH [_]). by rewrite <- (assoc_L (++)).
Qed.

(** Where the first range can start. *)
Definition start_bound (c : Z) (ss : list A) : Z :=
  match ss with s :: _ => if structDeleted s then c else struct_end s | [] => c end.

Lemma deletedRanges_spec fuel c ss :
  contiguous_from c ss -> 0 <= c -> list_end c ss <= maxInt -> (length ss <= fuel)%nat ->
  let l := deletedRanges_loop fuel [] ss in
  Forall item_ok l /\ separated l /\ Forall (fun it => start_bound c ss <= di_clock it) l /\
  (forall k, covered l k <-> deleted_at ss k).
Proof.
  intros Hc. revert c ss Hc. induction fuel as [|fuel IH]; intros c ss Hc H0 Hmax Hf; simpl.
  { destruct ss; [|simpl in *; lia]. split_and!; [constructor..|]. intros k. split; by inversion 1. }
  destruct ss as [|s ss].
  { split_and!; [constructor..|]. intros k. split; by inversion 1. }
  destruct Hc as (<- & Hl & Hc). simpl in Hf, Hmax |- *.
  pose proof (list_end_ge _ _ Hc). assert (Hend : struct_end s = Clock (getID s) + structLength s) by done.
  destruct (structDeleted s) eqn:Ed; cbn [negb].
  - destruct (absorb (structLength s) ss) as [l rest] eqn:Eab.
    destruct (absorb_spec _ _ _ _ _ Hc Eab) as (pre & -> & Hd & -> & Hc' & Hr & Hk & Hge).
    rewrite deletedRanges_loop_app. rewrite list_end_app' in Hmax. pose proof (list_end_ge _ _ Hc').
    set (e := list_end (struct_end s) pre) in *. rewrite length_app in Hf.
    destruct (IH e rest Hc') as (Hok & Hsep & Hcl & Hcov); [lia|lia|lia|].
    set (it := newDeleteItem (Clock (getID s)) (structLength s + (e - struct_end s))).
    assert (Hit : item_ok it) by (unfold item_ok, it; simpl; lia).
    assert (He : item_end it = e) by (rewrite item_end_ok by done; unfold it; simpl; lia).
    split_and!; simpl.
    + by constructor.
    + constructor; [done|]. rewrite He. destruct rest as [|r rest]; [destruct fuel; constructor|].
      eapply list.Forall_impl; [exact Hcl|]. intros x Hx. simpl in Hx. rewrite Hr in Hx.
      destruct Hc' as (Hr1 & Hr2 & _). unfold struct_end in Hx. lia.
    + constructor; [done|]. eapply list.Forall_impl; [exact Hcl|]. intros x Hx. simpl in Hx.
      assert (e <= start_bound e rest); [|lia]. destruct rest as [|r rest]; simpl; [lia|].
      destruct Hc' as (Hr1 & Hr2 & _). unfold struct_end. destruct (structDeleted r); lia.
    + intros k. rewrite covered_cons, Hcov, app_comm_cons, deleted_at_app. unfold item_covers. rewrite He.
      apply or_iff_compat_r. unfold it. simpl. split.
      * intros Hk'. destruct (decide (k < struct_end s)).
        -- left. split; [done|]. unfold covers. lia.
        -- right. apply Hk. lia.
      * intros Hx. apply (deleted_at_bound (Clock (getID s)) (s :: pre)) in Hx; [simpl in Hx; fold e in Hx; lia|].
        simpl. split_and!; try done. by eapply contiguous_app_l.
  - destruct (IH (struct_end s) ss Hc) as (Hok & Hsep & Hcl & Hcov); [lia|lia|lia|].
    split_and!; [done|done| |].
    + eapply list.Forall_impl; [exact Hcl|]. intros x Hx. simpl in Hx.
      assert (struct_end s <= start_bound (struct_end s) ss); [|lia]. destruct ss as [|r ss]; simpl; [lia|].
      destruct Hc as (Hr1 & Hr2 & _). unfold struct_end in *. destruct (structDeleted r); lia.
    + intros k. rewrite Hcov. split; [by right|]. inversion 1 as [? ? [? _]|]; [congruence|done].
Qed.

End RunLemmas.

(** ** Lemmas on the set of a store *)
Section StoreSet.
Context {A : Type} `{AbstractStruct A}.

(** The ranges of one client of the store. *)
Definition store_ranges (ss : structStore A) (client : Z) : list deleteItem :=
  appendDeletedRanges [] (default [] (clients ss !! client)).

Lemma fromStore_lookup (ss : structStore A) k :
  store_ok ss ->
  ds_clients (newDeleteSetFromStructStore ss) !! k =
  match store_ranges ss k with [] => None | l => Some l end.
Proof.
  intros Hok. unfold newDeleteSetFromStructStore. set (f := fun ds client => _).
  assert (Hf : forall ds c, ds_clients (f ds c) !! k =
    if decide (c = k) then (match store_ranges ss c with [] => ds_clients ds !! k | l => Some l end)
    else ds_clients ds !! k).
  { intros ds c. unfold f, clientStructs, store_ranges. destruct (clients ss !! c) as [l|]; simpl.
    - destruct (appendDeletedRanges [] l) as [|r rs]; simpl; [by case_decide|].
      rewrite dsNoteClient_clients, lookup_insert. done.
    - by case_decide. }
  assert (Hg : forall cs ds, ds_clients (fold_left f cs ds) !! k =
    if decide (k ∈ cs) then (match store_ranges ss k with [] => ds_clients ds !! k | l => Some l end)
    else ds_clients ds !! k).
  { induction cs as [|c cs IH]; intros ds; [done|]. cbn [fold_left]. rewrite IH, Hf.
    destruct (decide (k = c)) as [->|Hkc].
    - rewrite (decide_True (P := c = c)) by done. rewrite (decide_True (P := c ∈ c :: cs)) by set_solver.
      by destruct (store_ranges ss c); case_decide.
    - rewrite (decide_False (P := c = k)) by done. destruct (decide (k ∈ cs)).
      + by rewrite decide_True by set_solver.
      + by rewrite decide_False by set_solver. }
  rewrite Hg. case_decide as Hin; [by case_match|].
  rewrite (orderedClients_perm _ Hok), elem_of_elements, not_elem_of_dom in Hin.
  unfold store_ranges. rewrite Hin. done.
Qed.

Lemma fromStore_items (ss : structStore A) k :
  store_ok ss -> ds_items (newDeleteSetFromStructStore ss) k = store_ranges ss k.
Proof.
  intros Hok. unfold ds_items. rewrite fromStore_lookup by done. by destruct (store_ranges ss k).
Qed.

(** The clocks of a store fit a non-negative [int]. *)
Definition clocks_ok (ss : structStore A) : Prop :=
  forall client l, clients ss !! client = Some l ->
    exists c, 0 <= c /\ contiguous_from c l /\ list_end c l <= maxInt.

Lemma store_ranges_spec (ss : structStore A) client :
  clocks_ok ss ->
  Forall item_ok (store_ranges ss client) /\ separated (store_ranges ss client) /\
  forall k, covered (store_ranges ss client) k <-> deleted_at (default [] (clients ss !! client)) k.
Proof.
  intros Hok. unfold store_ranges, appendDeletedRanges.
  destruct (clients ss !! client) as [l|] eqn:El; simpl.
  - destruct (Hok _ _ El) as (c & Hc & Hl & He).
    destruct (deletedRanges_spec (length l) c l) as (H1 & H2 & _ & H3); [done..|]. done.
  - split_and!; [constructor..|]. intros k. split; by inversion 1.
Qed.

End StoreSet.

(** ** Properties *)

(** [sortAndMergeDeleteSet] brings the ranges of every client into
    canonical form without changing what they delete: afterwards the ranges are
    in increasing order, no two overlap or touch, and a clock is covered
    exactly when it was covered before. *)
Theorem sortAndMergeDeleteSet_correct (ds : deleteSet) (client : Z) :
  ds_ok ds ->
  let ds' := sortAndMergeDeleteSet ds in
  separated (ds_items ds' client) /\ Forall item_ok (ds_items ds' client) /\
  forall clock, covered (ds_items ds' client) clock <-> covered (ds_items ds client) clock.
Proof.
  intros Hok. destruct (sortAndMerge_spec (ds_items ds client) (Hok client)) as (Hc & Hs & Ho).
  assert (Heq : ds_items (sortAndMergeDeleteSet ds) client = sortAndMerge (ds_items ds client)).
  { unfold ds_items, sortAndMergeDeleteSet. simpl. rewrite lookup_fmap. by destruct (ds_clients ds !! client). }
  cbv zeta. by rewrite Heq.
Qed.

(** A concrete set for the witnesses: client 1 with two touching ranges out of
    order. *)
Definition sample_ds : deleteSet :=
  addToDeleteSet (addToDeleteSet (addToDeleteSet newDeleteSet 1 10 5) 1 2 8) 2 0 1.

Lemma sample_ds_ok : ds_ok sample_ds.
Proof.
  unfold sample_ds. do 3 (apply addToDeleteSet_ok; [unfold item_ok, maxInt; simpl; lia|]).
  intros c. constructor.
Qed.

Lemma sortAndMergeDeleteSet_correct_witness :
  separated (ds_items (sortAndMergeDeleteSet sample_ds) 1) /\
  Forall item_ok (ds_items (sortAndMergeDeleteSet sample_ds) 1) /\
  forall clock, covered (ds_items (sortAndMergeDeleteSet sample_ds) 1) clock
    <-> covered (ds_items sample_ds 1) clock.
Proof. apply (sortAndMergeDeleteSet_correct sample_ds 1). exact sample_ds_ok. Defined.

(** The set that [mergeDeleteSets] returns deletes exactly the ids that
    some input set deletes, as decided by the binary search of [isDeleted];
    nil inputs (delete sets that failed to decode) are skipped. *)
Theorem mergeDeleteSets_isDeleted (dss : list (option deleteSet)) (id : ID) :
  Forall (fun ods => match ods with None => True | Some ds => ds_ok ds end) dss ->
  isDeleted (Some (mergeDeleteSets dss)) id = true <->
  exists ds, Some ds ∈ dss /\ ds_deletes ds id.
Proof.
  intros Hok.
  assert (Hm : forall k, ds_items (mergeDeleteSets dss) k = sortAndMerge (all_items dss k))
    by apply mergeDeleteSets_items.
  assert (Hsp : forall k, _) by (intros k; exact (sortAndMerge_spec (all_items dss k) (all_items_ok dss k Hok))).
  rewrite isDeleted_spec.
  - unfold ds_deletes at 1. rewrite Hm. destruct (Hsp (Client id)) as (-> & _). apply all_items_covered.
  - intros k. rewrite Hm. apply Hsp.
  - rewrite Hm. apply Hsp.
Qed.

Lemma mergeDeleteSets_isDeleted_witness :
  isDeleted (Some (mergeDeleteSets [Some sample_ds; None])) (GenID 1 12) = true <->
  exists ds, Some ds ∈ [Some sample_ds; None] /\ ds_deletes ds (GenID 1 12).
Proof.
  apply (mergeDeleteSets_isDeleted [Some sample_ds; None] (GenID 1 12)).
  constructor; [exact sample_ds_ok|]. constructor; [done|constructor].
Defined.

(** The delete set built from a struct store deletes an id exactly when
    the store holds a deleted struct over that id. *)
Theorem deleteSetFromStore_correct {A : Type} `{AbstractStruct A} (ss : structStore A) (id : ID) :
  store_ok ss -> clocks_ok ss ->
  isDeleted (Some (newDeleteSetFromStructStore ss)) id = true <->
  exists l s, clients ss !! Client id = Some l /\ s ∈ l /\ structDeleted s = true /\
    Clock (getID s) <= Clock id < Clock (getID s) + structLength s.
Proof.
  intros Hok Hcl. pose proof (fun k => fromStore_items ss k Hok) as Hi.
  rewrite isDeleted_spec.
  - unfold ds_deletes. rewrite Hi. destruct (store_ranges_spec ss (Client id) Hcl) as (_ & _ & ->).
    unfold deleted_at. rewrite list.Exists_exists. destruct (clients ss !! Client id) as [l|]; simpl.
    + split; [intros (s & Hs & Hd & Hc); by exists l, s|]. intros (l' & s & [= <-] & Hs & Hd & Hc). by exists s.
    + split; [set_solver|]. by intros (l' & s & ? & _).
  - intros k. rewrite Hi. apply store_ranges_spec, Hcl.
  - rewrite Hi. apply store_ranges_spec, Hcl.
Qed.

(** A store with one client whose structs are collected. *)
Definition sample_store : structStore gcStruct :=
  mkStore {[ 7 := [newGC (GenID 7 0) 3; newGC (GenID 7 3) 2] ]} None None [7].

Lemma sample_store_ok : store_ok sample_store /\ clocks_ok sample_store.
Proof.
  split.
  - split_and!; simpl.
    + intros c ss Hc. apply lookup_singleton_Some in Hc as [<- <-].
      split_and!; [done|exists 0; vm_compute; intuition discriminate|by repeat constructor].
    + apply NoDup_singleton.
    + intros c. rewrite list_elem_of_singleton. split.
      * intros ->. rewrite lookup_singleton_eq. eauto.
      * intros [? Hc]. by apply lookup_singleton_Some in Hc as [<- _].
  - intros c l Hc. unfold sample_store in Hc. simpl in Hc. apply lookup_singleton_Some in Hc as [<- <-]. exists 0.
    vm_compute. intuition discriminate.
Qed.

Lemma deleteSetFromStore_correct_witness :
  isDeleted (Some (newDeleteSetFromStructStore sample_store)) (GenID 7 4) = true <->
  exists l s, clients sample_store !! 7 = Some l /\ s ∈ l /\ structDeleted s = true /\
    Clock (getID s) <= 4 < Clock (getID s) + structLength s.
Proof.
  exact (deleteSetFromStore_correct sample_store (GenID 7 4) (proj1 sample_store_ok) (proj2 sample_store_ok)).
Defined.
