(* ===== verification/DeleteSetCodec.v ===== *)
(** * Delete-set wire formats

    Models [writeDeleteSet], [readDeleteSet], [readDeleteSetOrdered] and the
    direct writers from the struct store ([crdt/delete_set.go]) over the
    [dsEncoder] / [dsDecoder] interfaces ([crdt/interfaces.go]), with the V1
    and V2 encoders and decoders ([crdt/update_encoder.go],
    [crdt/update_decoder.go]) as instances. The round trip is proved once
    against [DSCodec], the contract of an encoder with its decoder. *)
From S2P Require Import Prelude Lib0 StructStore DeleteSet.

(** ** The interfaces *)

(** [dsEncoder]; [enc_rest] is the content of the rest buffer. *)
Class DSEncoder (E : Type) := {
  enc_rest : E -> list Z;
  writeRestVarUint : E -> Z -> E;
  enc_resetDS : E -> E;
  encDSClock : E -> Z -> E;
  encDSLength : E -> Z -> result E;
}.

(** [dsDecoder]; [readRestVarUint] is [readVarUintAny] on the rest buffer. *)
Class DSDecoder (D : Type) := {
  dec_rest : D -> list Z;
  readRestVarUint : step D Z;
  decResetDS : D -> D;
  decDSClock : step D Z;
  decDSLength : step D Z;
}.

(** ** The V1 and V2 encoders and decoders *)
Module V1.

Record dsEncoderV1 := mkEnc { rest : list Z }.

Definition writeDSClock (v1 : dsEncoderV1) (clock : Z) : dsEncoderV1 :=
  mkEnc (WriteVarUint (rest v1) (u64 clock)).
Definition writeDSLength (v1 : dsEncoderV1) (length : Z) : result dsEncoderV1 :=
  Ok (mkEnc (WriteVarUint (rest v1) (u64 length))).

#[global] Instance encoder : DSEncoder dsEncoderV1 := {|
  enc_rest := rest;
  writeRestVarUint e v := mkEnc (WriteVarUint (rest e) v);
  enc_resetDS e := e;
  encDSClock := writeDSClock;
  encDSLength := writeDSLength |}.

Record updateDecoderV1 := mkDec { d_rest : list Z }.

(** A read of the rest buffer. *)
Definition on_rest {A} (m : reader A) : step updateDecoderV1 A :=
  fun d => let '(r, b) := m (d_rest d) in (r, mkDec b).

Definition readDSClock : step updateDecoderV1 Z :=
  number <-- on_rest binaryReadUvarint;;; rlift (toNumber number).
Definition readDSLength : step updateDecoderV1 Z :=
  number <-- on_rest binaryReadUvarint;;; rlift (toNumber number).

#[global] Instance decoder : DSDecoder updateDecoderV1 := {|
  dec_rest := d_rest;
  readRestVarUint := on_rest ReadVarUint;
  decResetDS d := d;
  decDSClock := readDSClock;
  decDSLength := readDSLength |}.

End V1.

Module V2.

Record dsEncoderV2 := mkEnc { rest : list Z; dsCurrVal : Z }.

Definition resetDS (v2 : dsEncoderV2) : dsEncoderV2 := mkEnc (rest v2) 0.

Definition writeDSClock (v2 : dsEncoderV2) (clock : Z) : dsEncoderV2 :=
  let diff := i64 (clock - dsCurrVal v2) in
  mkEnc (WriteVarUint (rest v2) (u64 diff)) clock.

Definition writeDSLength (v2 : dsEncoderV2) (length : Z) : result dsEncoderV2 :=
  if length <=? 0 then Err ErrRange
  else Ok (mkEnc (WriteVarUint (rest v2) (u64 (length - 1))) (i64 (dsCurrVal v2 + length))).

#[global] Instance encoder : DSEncoder dsEncoderV2 := {|
  enc_rest := rest;
  writeRestVarUint e v := mkEnc (WriteVarUint (rest e) v) (dsCurrVal e);
  enc_resetDS := resetDS;
  encDSClock := writeDSClock;
  encDSLength := writeDSLength |}.

Record dsDecoderV2 := mkDec { d_rest : list Z; d_dsCurrVal : Z }.

Definition on_rest {A} (m : reader A) : step dsDecoderV2 A :=
  fun d => let '(r, b) := m (d_rest d) in (r, mkDec b (d_dsCurrVal d)).

Definition dec_resetDS (v2 : dsDecoderV2) : dsDecoderV2 := mkDec (d_rest v2) 0.

Definition addDsCurVal (delta : Z) : step dsDecoderV2 Z := fun d =>
  match addBounded (d_dsCurrVal d) delta with
  | Err e => (Err e, d)
  | Ok v => (Ok v, mkDec (d_rest d) v)
  end.

Definition readDSClock : step dsDecoderV2 Z :=
  n <-- on_rest binaryReadUvarint;;;
  delta <-- rlift (toNumber n);;;
  addDsCurVal delta.

Definition readDSLength : step dsDecoderV2 Z :=
  n <-- on_rest binaryReadUvarint;;;
  nn <-- rlift (toNumber n);;;
  if nn =? maxInt then rfail ErrNumberOverflow
  else
    let diff := nn + 1 in
    _ <-- addDsCurVal diff;;; rret diff.

#[global] Instance decoder : DSDecoder dsDecoderV2 := {|
  dec_rest := d_rest;
  readRestVarUint := on_rest ReadVarUint;
  decResetDS := dec_resetDS;
  decDSClock := readDSClock;
  decDSLength := readDSLength |}.

End V2.

(** ** Writing and reading a set *)
Section Codec.
Context {E D : Type} `{DSEncoder E} `{DSDecoder D}.

Fixpoint writeItems (encoder : E) (items : list deleteItem) : result E :=
  match items with
  | [] => Ok encoder
  | item :: items' =>
      let encoder := encDSClock encoder (di_clock item) in
      match encDSLength encoder (di_length item) with
      | Err e => Err e
      | Ok encoder => writeItems encoder items'
      end
  end.

Fixpoint writeClients (ds : deleteSet) (encoder : E) (clients : list Z) : result E :=
  match clients with
  | [] => Ok encoder
  | client :: clients' =>
      let dsItems := default [] (ds_clients ds !! client) in
      let encoder := enc_resetDS encoder in
      let encoder := writeRestVarUint encoder (u64 client) in
      let encoder := writeRestVarUint encoder (Z.of_nat (length dsItems)) in
      match writeItems encoder dsItems with
      | Err e => Err e
      | Ok encoder => writeClients ds encoder clients'
      end
  end.

(** The keys of the map, sorted in descending order. *)
Definition descending (cs : list Z) : list Z := merge_sort Z.ge cs.

Definition writeDeleteSet (encoder : E) (ods : option deleteSet) : result E :=
  match ods with
  | None => Ok (writeRestVarUint encoder 0)
  | Some ds =>
      let encoder := writeRestVarUint encoder (Z.of_nat (size (ds_clients ds))) in
      writeClients ds encoder (descending (elements (dom (ds_clients ds))))
  end.

(** [readVarUintAsNumber] on the rest buffer. *)
Definition readRestNumber : step D Z := n <-- readRestVarUint;;; rlift (toNumber n).

Definition readItem : step D deleteItem :=
  clock <-- decDSClock;;; length <-- decDSLength;;; rret (newDeleteItem clock length).

Definition resetStep : step D unit := fun d => (Ok tt, decResetDS d).

Definition readBlock : step D (Z * list deleteItem) :=
  _ <-- resetStep;;;
  client <-- readRestNumber;;;
  numberOfDeletes <-- readRestVarUint;;;
  ranges <-- rtimes (Z.to_nat numberOfDeletes) readItem;;;
  rret (client, ranges).

(** The set that the reads build, range after range. *)
Definition addBlock (ds : deleteSet) (block : Z * list deleteItem) : deleteSet :=
  fold_left (fun ds item => addToDeleteSet ds (fst block) (di_clock item) (di_length item)) (snd block) ds.

Definition readDeleteSet : step D deleteSet :=
  numClients <-- readRestVarUint;;;
  blocks <-- rtimes (Z.to_nat numClients) readBlock;;;
  rret (fold_left addBlock blocks newDeleteSet).

(** [boundExceeded] of a count against the bytes that remain. *)
Definition guard (count minBytes : Z) : step D unit := fun d =>
  if boundExceeded count (Z.of_nat (length (dec_rest d))) minBytes then (Err ErrBound, d) else (Ok tt, d).

Definition readBlockOrdered : step D (Z * list deleteItem) :=
  _ <-- resetStep;;;
  client <-- readRestNumber;;;
  numberOfDeletes <-- readRestVarUint;;;
  _ <-- guard numberOfDeletes 2;;;
  ranges <-- rtimes (Z.to_nat numberOfDeletes) readItem;;;
  rret (client, ranges).

Definition readDeleteSetOrdered : step D (list (Z * list deleteItem)) :=
  numClients <-- readRestVarUint;;;
  _ <-- guard numClients 2;;;
  rtimes (Z.to_nat numClients) readBlockOrdered.

(** *** Writing from the struct store *)
Section FromStore.
Context {A : Type} `{AbstractStruct A}.

Fixpoint writeRuns (fuel : nat) (encoder : E) (ss : list A) : result E :=
  match fuel, ss with
  | S fuel', s :: ss' =>
      if negb (structDeleted s) then writeRuns fuel' encoder ss'
      else
        let '(length, rest) := absorb (structLength s) ss' in
        let encoder := encDSClock encoder (Clock (getID s)) in
        match encDSLength encoder length with
        | Err e => Err e
        | Ok encoder => writeRuns fuel' encoder rest
        end
  | _, _ => Ok encoder
  end.

Definition writeDeletedStructRanges (encoder : E) (client : Z) (ss : list A) (rangeCount : Z) : result E :=
  let encoder := enc_resetDS encoder in
  let encoder := writeRestVarUint encoder (u64 client) in
  let encoder := writeRestVarUint encoder (u64 rangeCount) in
  writeRuns (length ss) encoder ss.

Fixpoint writeDeletedClients (encoder : E) (ss : structStore A) (clients : list Z) : result E :=
  match clients with
  | [] => Ok encoder
  | client :: clients' =>
      let structs := default [] (clientStructs ss client) in
      let rangeCount := deletedStructRangeCount structs in
      if 0 <? rangeCount then
        match writeDeletedStructRanges encoder client structs rangeCount with
        | Err e => Err e
        | Ok encoder => writeDeletedClients encoder ss clients'
        end
      else writeDeletedClients encoder ss clients'
  end.

Definition deletedClientCount (ss : structStore A) (clients : list Z) : Z :=
  Z.of_nat (length (filter (fun client =>
    0 < deletedStructRangeCount (default [] (clientStructs ss client))) clients)).

(** [sortedClients] is the caller's descending client list, used only when it
    names all the clients. *)
Definition writeDeleteSetFromStructStore (encoder : E) (ss : structStore A) (sortedClients : list Z) : result E :=
  match elements (dom (clients ss)) with
  | [] => Ok (writeRestVarUint encoder 0)
  | [client] =>
      let structs := default [] (clientStructs ss client) in
      let rangeCount := deletedStructRangeCount structs in
      if rangeCount =? 0 then Ok (writeRestVarUint encoder 0)
      else writeDeletedStructRanges (writeRestVarUint encoder 1) client structs rangeCount
  | all =>
      let clients := if (length sortedClients =? length all)%nat then sortedClients else descending all in
      let encoder := writeRestVarUint encoder (deletedClientCount ss clients) in
      writeDeletedClients encoder ss clients
  end.

End FromStore.
End Codec.

(** ** The contract of an encoder with its decoder *)

(** A range both formats can carry: V2 needs a positive length and a clock not
    before the running value. *)
Definition fits (cur : Z) (it : deleteItem) : Prop :=
  0 <= cur <= di_clock it /\ is_safe (di_clock it) /\ is_safe (di_length it) /\ 1 <= di_length it.

Fixpoint items_fit (cur : Z) (items : list deleteItem) : Prop :=
  match items with
  | [] => True
  | it :: items' => fits cur it /\ items_fit (di_clock it + di_length it) items'
  end.

Class DSCodec (E D : Type) `{DSEncoder E} `{DSDecoder D} := {
  cur : E -> Z;
  mk : list Z -> Z -> D;
  mk_rest b c : dec_rest (mk b c) = b;
  reset_cur e : cur (enc_resetDS e) = 0;
  reset_rest e : enc_rest (enc_resetDS e) = enc_rest e;
  reset_mk b c : decResetDS (mk b c) = mk b 0;
  rest_law e v : 0 <= v < 2 ^ 64 ->
    exists bs, enc_rest (writeRestVarUint e v) = enc_rest e ++ bs /\ cur (writeRestVarUint e v) = cur e /\
      (1 <= length bs)%nat /\ forall rest c, readRestVarUint (mk (bs ++ rest) c) = (Ok v, mk rest c);
  item_law e it : fits (cur e) it ->
    exists bs e', encDSLength (encDSClock e (di_clock it)) (di_length it) = Ok e' /\
      enc_rest e' = enc_rest e ++ bs /\ 0 <= cur e' <= di_clock it + di_length it /\ (2 <= length bs)%nat /\
      forall rest, readItem (mk (bs ++ rest) (cur e)) = (Ok it, mk rest (cur e'));
}.

Lemma uvarint_len v : (1 <= length (uvarint_bytes 10 v))%nat.
Proof. rewrite uvarint_bytes_S. case_match; simpl; lia. Qed.

Lemma safe_u64 v : is_safe v -> u64 v = v.
Proof. unfold is_safe, maxSafeInteger. intros. apply u64_small. unfold is_u64. lia. Qed.

(** Unfolding a step whose first read is a varuint of the rest buffer. *)
Ltac read_rest := erewrite rbind_ok;
  [|unfold V1.on_rest, V2.on_rest; cbn [V1.d_rest V2.d_rest V2.d_dsCurrVal];
    rewrite uvarint_roundtrip; [reflexivity|]].

#[global] Program Instance codecV1 : DSCodec V1.dsEncoderV1 V1.updateDecoderV1 := {|
  cur _ := 0; mk b _ := V1.mkDec b |}.
Solve Obligations with try done.
Next Obligation.
  intros e v Hv. exists (uvarint_bytes 10 v). cbn [enc_rest writeRestVarUint V1.encoder V1.rest]. rewrite WriteVarUint_bytes by lia.
  split_and!; [done|done|apply uvarint_len|]. intros rest c.
  cbn [readRestVarUint V1.decoder]. unfold V1.on_rest, ReadVarUint. cbn [V1.d_rest].
  by rewrite uvarint_roundtrip.
Qed.
Next Obligation.
  intros e it (Hc & Hs1 & Hs2 & Hl).
  exists (uvarint_bytes 10 (di_clock it) ++ uvarint_bytes 10 (di_length it)). eexists.
  split_and!; [reflexivity| | | | |].
  - simpl. rewrite !safe_u64 by done. rewrite !WriteVarUint_bytes by (unfold is_safe in *; lia).
    by rewrite <- (assoc_L (++)).
  - simpl. unfold is_safe in *. lia.
  - simpl. unfold is_safe in *. lia.
  - rewrite length_app. pose proof (uvarint_len (di_clock it)). pose proof (uvarint_len (di_length it)). lia.
  - intros rest. unfold readItem. cbn [decDSClock decDSLength V1.decoder].
    assert (Hread : forall v b, is_safe v ->
      V1.readDSClock (V1.mkDec (uvarint_bytes 10 v ++ b)) = (Ok v, V1.mkDec b)).
    { intros v b Hv. unfold V1.readDSClock. unfold rbind, V1.on_rest. cbn [V1.d_rest].
      rewrite uvarint_roundtrip by auto with go. unfold rlift. by rewrite toNumber_safe. }
    rewrite <- (assoc_L (++)). erewrite rbind_ok by by apply Hread.
    erewrite rbind_ok by by apply (Hread (di_length it)). unfold rret. by destruct it.
Qed.

#[global] Program Instance codecV2 : DSCodec V2.dsEncoderV2 V2.dsDecoderV2 := {|
  cur := V2.dsCurrVal; mk := V2.mkDec |}.
Solve Obligations with try done.
Next Obligation.
  intros e v Hv. exists (uvarint_bytes 10 v). cbn [enc_rest writeRestVarUint V2.encoder V2.rest V2.dsCurrVal]. rewrite WriteVarUint_bytes by lia.
  split_and!; [done|done|apply uvarint_len|]. intros rest c.
  cbn [readRestVarUint V2.decoder]. unfold V2.on_rest, ReadVarUint. cbn [V2.d_rest].
  by rewrite uvarint_roundtrip.
Qed.
Next Obligation.
  intros e it (Hc & Hs1 & Hs2 & Hl). pose proof Hs1 as Hs1'. pose proof Hs2 as Hs2'.
  unfold is_safe, maxSafeInteger in Hs1', Hs2'.
  exists (uvarint_bytes 10 (di_clock it - V2.dsCurrVal e) ++ uvarint_bytes 10 (di_length it - 1)).
  exists (V2.mkEnc (V2.rest e ++ uvarint_bytes 10 (di_clock it - V2.dsCurrVal e)
            ++ uvarint_bytes 10 (di_length it - 1)) (di_clock it + di_length it)).
  split_and!; [|done|simpl; lia|simpl; lia| |].
  - simpl. unfold V2.writeDSLength, V2.writeDSClock. cbn [V2.rest V2.dsCurrVal].
    destruct (Z.leb_spec (di_length it) 0); [lia|].
    rewrite (i64_small (di_clock it - _)) by (unfold is_i64; lia).
    rewrite (i64_small (di_clock it + _)) by (unfold is_i64; lia).
    rewrite !u64_small by (unfold is_u64; lia). rewrite !WriteVarUint_bytes by lia.
    by rewrite <- (assoc_L (++)).
  - rewrite length_app. pose proof (uvarint_len (di_clock it - V2.dsCurrVal e)).
    pose proof (uvarint_len (di_length it - 1)). lia.
  - intros rest. unfold readItem. cbn [decDSClock decDSLength V2.decoder cur mk V2.dsCurrVal].
    assert (Hclk : forall r, V2.readDSClock (V2.mkDec (uvarint_bytes 10 (di_clock it - V2.dsCurrVal e) ++ r)
                                      (V2.dsCurrVal e)) = (Ok (di_clock it), V2.mkDec r (di_clock it))).
    { intros r. unfold V2.readDSClock, rbind, V2.on_rest. cbn [V2.d_rest V2.d_dsCurrVal].
      rewrite uvarint_roundtrip by (unfold is_u64; lia). unfold rlift.
      rewrite toNumber_safe by (unfold is_safe, maxSafeInteger; lia).
      unfold V2.addDsCurVal. cbn [V2.d_dsCurrVal V2.d_rest].
      rewrite addBounded_nonneg by (unfold maxInt; lia).
      replace (V2.dsCurrVal e + (di_clock it - V2.dsCurrVal e)) with (di_clock it) by lia.
      destruct (Z.ltb_spec maxInt (di_clock it)); [unfold maxInt in *; lia|done]. }
    assert (Hlen : forall r, V2.readDSLength (V2.mkDec (uvarint_bytes 10 (di_length it - 1) ++ r) (di_clock it))
                     = (Ok (di_length it), V2.mkDec r (di_clock it + di_length it))).
    { intros r. unfold V2.readDSLength, rbind, V2.on_rest. cbn [V2.d_rest V2.d_dsCurrVal].
      rewrite uvarint_roundtrip by (unfold is_u64; lia). unfold rlift.
      rewrite toNumber_safe by (unfold is_safe, maxSafeInteger; lia).
      destruct (Z.eqb_spec (di_length it - 1) maxInt); [unfold maxInt in *; lia|].
      unfold V2.addDsCurVal. cbn [V2.d_dsCurrVal V2.d_rest].
      replace (di_length it - 1 + 1) with (di_length it) by lia.
      rewrite addBounded_nonneg by (unfold maxInt; lia).
      destruct (Z.ltb_spec maxInt (di_clock it + di_length it)); [unfold maxInt in *; lia|done]. }
    rewrite <- (assoc_L (++)), (rbind_ok _ _ _ _ _ (Hclk _)), (rbind_ok _ _ _ _ _ (Hlen _)).
    unfold rret. by destruct it.
Qed.

(** ** Lemmas *)
Section CodecLemmas.
Context {E D : Type} `{DSCodec E D}.

Lemma items_fit_mono c c' items : 0 <= c' <= c -> items_fit c items -> items_fit c' items.
Proof. destruct items as [|it l]; simpl; [done|]. unfold fits, is_safe. intros ? [? ?]. split; [lia|done]. Qed.

Lemma items_roundtrip e items :
  items_fit (cur e) items ->
  exists bs e', writeItems e items = Ok e' /\ enc_rest e' = enc_rest e ++ bs /\
    (2 * length items <= length bs)%nat /\
    forall rest, exists c, rtimes (length items) readItem (mk (bs ++ rest) (cur e)) = (Ok items, mk rest c).
Proof.
  revert e. induction items as [|it items IH]; intros e Hf; simpl.
  { exists [], e. rewrite app_nil_r. split_and!; [done|done|simpl; lia|]. intros. by exists (cur e). }
  destruct Hf as [Hf Hfs]. destruct (item_law e it Hf) as (bs1 & e1 & -> & Hr1 & Hc1 & Hl1 & Hrd1).
  destruct (IH e1) as (bs2 & e2 & -> & Hr2 & Hl2 & Hrd2); [eapply items_fit_mono; [exact Hc1|exact Hfs]|].
  exists (bs1 ++ bs2), e2. split_and!; [done|by rewrite Hr2, Hr1, <- (assoc_L (++))|rewrite length_app; lia|].
  intros rest. destruct (Hrd2 rest) as [c Hrd]. exists c. rewrite <- (assoc_L (++)).
  by eapply rtimes_cons.
Qed.

(** A client with its ranges, as the formats can carry them. *)
Definition block_fits (client : Z) (items : list deleteItem) : Prop :=
  is_safe client /\ items_fit 0 items /\ Z.of_nat (length items) < 2 ^ 64.

Lemma block_roundtrip ds e client :
  block_fits client (ds_items ds client) ->
  exists bs e',
    (forall clients, writeClients ds e (client :: clients) = writeClients ds e' clients) /\
    enc_rest e' = enc_rest e ++ bs /\ (2 <= length bs)%nat /\
    forall rest c, exists c', readBlock (mk (bs ++ rest) c) = (Ok (client, ds_items ds client), mk rest c') /\
      readBlockOrdered (mk (bs ++ rest) c) = (Ok (client, ds_items ds client), mk rest c').
Proof.
  intros (Hc & Hf & Hl). unfold ds_items in *. set (items := default [] (ds_clients ds !! client)) in *.
  set (e0 := enc_resetDS e). pose proof Hc as Hc'. unfold is_safe, maxSafeInteger in Hc'.
  destruct (rest_law e0 client) as (b1 & Hr1 & Hcur1 & Hl1 & Hrd1); [lia|].
  set (e1 := writeRestVarUint e0 client) in *.
  destruct (rest_law e1 (Z.of_nat (length items))) as (b2 & Hr2 & Hcur2 & Hl2 & Hrd2); [lia|].
  set (e2 := writeRestVarUint e1 (Z.of_nat (length items))) in *.
  assert (Hcur : cur e2 = 0) by (rewrite Hcur2, Hcur1; apply reset_cur).
  destruct (items_roundtrip e2 items) as (b3 & e3 & Hw & Hr3 & Hl3 & Hrd3); [by rewrite Hcur|].
  exists (b1 ++ b2 ++ b3), e3. split_and!.
  - intros clients. simpl. fold items e0. rewrite safe_u64 by done. fold e1 e2. by rewrite Hw.
  - rewrite Hr3, Hr2, Hr1. unfold e0. rewrite reset_rest. by rewrite <- !(assoc_L (++)).
  - rewrite !length_app. lia.
  - intros rest c. destruct (Hrd3 rest) as [c' Hrd]. exists c'. rewrite Hcur in Hrd.
    unfold readBlock, readBlockOrdered, readRestNumber, resetStep, rlift, guard, boundExceeded.
    unfold rbind. rewrite reset_mk, <- !(assoc_L (++)), Hrd1, toNumber_safe, Hrd2, Nat2Z.id, Hrd by done.
    rewrite mk_rest, length_app. change (2 <? 1) with false. cbv iota.
    destruct (Z.ltb_spec (Z.of_nat (length b3 + length rest)) 0); [lia|].
    destruct (Z.ltb_spec (Z.quot (Z.of_nat (length b3 + length rest)) 2) (Z.of_nat (length items)));
      [Z.quot_rem_to_equations; lia|]. split; [done|]. by rewrite Hrd.
Qed.

Lemma clients_roundtrip ds e cs :
  Forall (fun client => block_fits client (ds_items ds client)) cs ->
  exists bs e', writeClients ds e cs = Ok e' /\ enc_rest e' = enc_rest e ++ bs /\
    (2 * length cs <= length bs)%nat /\
    forall rest c, exists c',
      rtimes (length cs) readBlock (mk (bs ++ rest) c)
        = (Ok (map (fun client => (client, ds_items ds client)) cs), mk rest c') /\
      rtimes (length cs) readBlockOrdered (mk (bs ++ rest) c)
        = (Ok (map (fun client => (client, ds_items ds client)) cs), mk rest c').
Proof.
  intros Hcs. revert e. induction Hcs as [|client cs Hb Hcs IH]; intros e.
  { exists [], e. rewrite app_nil_r. split_and!; [done|done|simpl; lia|]. intros rest c. by exists c. }
  destruct (block_roundtrip ds e client Hb) as (b1 & e1 & Hw & Hr1 & Hl1 & Hrd1).
  destruct (IH e1) as (b2 & e2 & Hw2 & Hr2 & Hl2 & Hrd2).
  exists (b1 ++ b2), e2. rewrite Hw. split_and!; [done|by rewrite Hr2, Hr1, <- (assoc_L (++))| |].
  - rewrite length_app. simpl. lia.
  - intros rest c. rewrite <- (assoc_L (++)).
    destruct (Hrd1 (b2 ++ rest) c) as (c1 & Ha & Ha'). destruct (Hrd2 rest c1) as (c2 & Hb' & Hb'').
    exists c2. split; by eapply rtimes_cons.
Qed.

(** Building a set from blocks of distinct clients. *)
Lemma addBlock_spec ds client items :
  items <> [] -> ds_clients ds !! client = None ->
  addBlock ds (client, items) = mkDS (<[client := items]> (ds_clients ds)) (ds_order ds ++ [client]).
Proof.
  intros Hne Hnone. destruct items as [|it items]; [done|]. unfold addBlock. cbn [fst snd fold_left].
  unfold addToDeleteSet at 2, dsNoteClient. rewrite Hnone. cbn [ds_clients ds_order]. rewrite Hnone. simpl app.
  replace (newDeleteItem (di_clock it) (di_length it)) with it by by destruct it.
  set (m := ds_clients ds). set (o := ds_order ds ++ [client]). change (it :: items) with ([it] ++ items).
  assert (Hg : forall items acc, fold_left (fun ds item => addToDeleteSet ds client (di_clock item) (di_length item))
    items (mkDS (<[client := acc]> m) o) = mkDS (<[client := acc ++ items]> m) o).
  { induction items0 as [|i items0 IH]; intros acc; simpl; [by rewrite app_nil_r|].
    unfold addToDeleteSet at 2, dsNoteClient. cbn [ds_clients ds_order]. rewrite lookup_insert_eq.
    cbn [ds_clients ds_order]. rewrite lookup_insert_eq. cbn [default]. rewrite insert_insert_eq.
    rewrite IH. replace (newDeleteItem (di_clock i) (di_length i)) with i by by destruct i.
    by rewrite <- (assoc_L (++)). }
  apply Hg.
Qed.

Lemma addBlocks_spec f cs ds :
  NoDup cs -> (forall c, c ∈ cs -> f c <> []) -> (forall c, c ∈ cs -> ds_clients ds !! c = None) ->
  let ds' := fold_left addBlock (map (fun c => (c, f c)) cs) ds in
  ds_order ds' = ds_order ds ++ cs /\
  forall k, ds_clients ds' !! k = if decide (k ∈ cs) then Some (f k) else ds_clients ds !! k.
Proof.
  intros Hnd. revert ds. induction Hnd as [|c cs Hc Hnd IH]; intros ds Hf Hn; simpl.
  { split; [by rewrite app_nil_r|]. done. }
  rewrite addBlock_spec by (set_solver). destruct (IH (mkDS (<[c := f c]> (ds_clients ds)) (ds_order ds ++ [c]))) as [Ho Hl].
  - set_solver.
  - intros k Hk. simpl. rewrite lookup_insert_ne by set_solver. apply Hn. set_solver.
  - simpl in *. split; [by rewrite Ho, <- (assoc_L (++))|]. intros k. rewrite Hl.
    destruct (decide (k = c)) as [->|Hkc].
    + rewrite decide_False by done. rewrite decide_True by set_solver. by rewrite lookup_insert_eq.
    + rewrite lookup_insert_ne by done. destruct (decide (k ∈ cs)).
      * by rewrite decide_True by set_solver.
      * by rewrite decide_False by set_solver.
Qed.

(** What a decode returns: the same ranges, the clients in wire order. *)
Definition decoded (ds : deleteSet) : deleteSet :=
  mkDS (ds_clients ds) (descending (elements (dom (ds_clients ds)))).

(** A set whose every client has ranges, all of them encodable. *)
Definition ds_fits (ds : deleteSet) : Prop :=
  Z.of_nat (size (ds_clients ds)) < 2 ^ 64 /\
  map_Forall (fun client items => items <> [] /\ block_fits client items) (ds_clients ds).

Lemma deleteSet_roundtrip ds e :
  ds_fits ds ->
  exists bs e', writeDeleteSet e (Some ds) = Ok e' /\ enc_rest e' = enc_rest e ++ bs /\
    forall rest c, exists c',
      readDeleteSet (mk (bs ++ rest) c) = (Ok (decoded ds), mk rest c') /\
      readDeleteSetOrdered (mk (bs ++ rest) c) =
        (Ok (map (fun client => (client, ds_items ds client)) (ds_order (decoded ds))), mk rest c').
Proof.
  intros [Hsz Hf]. unfold decoded. cbn [ds_order]. unfold writeDeleteSet. cbv zeta.
  set (cs := descending (elements (dom (ds_clients ds)))).
  assert (Hperm : cs ≡ₚ elements (dom (ds_clients ds))) by apply merge_sort_Permutation.
  assert (Hlen : length cs = size (ds_clients ds)) by (rewrite Hperm; apply size_dom).
  assert (Hcs : forall k, k ∈ cs <-> is_Some (ds_clients ds !! k)) by (intros k; rewrite Hperm, elem_of_elements; apply elem_of_dom).
  assert (Hblk : forall k, k ∈ cs -> ds_items ds k <> [] /\ block_fits k (ds_items ds k)).
  { intros k [l Hl]%Hcs. unfold ds_items. rewrite Hl. by apply (Hf k l). }
  destruct (rest_law e (Z.of_nat (size (ds_clients ds)))) as (b1 & Hr1 & _ & Hl1 & Hrd1); [lia|].
  set (e1 := writeRestVarUint e _) in *.
  destruct (clients_roundtrip ds e1 cs) as (b2 & e2 & Hw & Hr2 & Hl2 & Hrd2).
  { apply list.Forall_forall. intros k Hk. by apply Hblk. }
  exists (b1 ++ b2), e2. split_and!; [done|by rewrite Hr2, Hr1, <- (assoc_L (++))|].
  intros rest c. destruct (Hrd2 rest c) as (c' & Ha & Hb). exists c'. rewrite <- (assoc_L (++)).
  rewrite Hlen in Ha, Hb. unfold readDeleteSet, readDeleteSetOrdered, rbind, guard, boundExceeded.
  rewrite Hrd1, mk_rest, Nat2Z.id, Ha. split.
  - destruct (addBlocks_spec (ds_items ds) cs newDeleteSet) as [Ho Hlk].
    + rewrite Hperm. apply NoDup_elements.
    + intros k Hk. by apply Hblk.
    + done.
    + unfold rret. do 2 f_equal. destruct (fold_left _ _ _) as [m o]. simpl in Ho, Hlk. subst o. f_equal.
      apply map_eq. intros k. rewrite Hlk. case_decide as Hk.
      * apply Hcs in Hk as [l Hl]. unfold ds_items. by rewrite Hl.
      * rewrite lookup_empty. symmetry. apply eq_None_not_Some. by rewrite <- Hcs.
  - rewrite length_app. destruct (Z.ltb_spec 2 1); [lia|].
    destruct (Z.ltb_spec (Z.of_nat (length b2 + length rest)) 0); [lia|].
    destruct (Z.ltb_spec (Z.quot (Z.of_nat (length b2 + length rest)) 2) (Z.of_nat (size (ds_clients ds)))); [|by rewrite Hb].
    Z.quot_rem_to_equations. lia.
Qed.

End CodecLemmas.

(** ** The direct writer *)
Section Direct.
Context {E : Type} `{DSEncoder E} {A : Type} `{AbstractStruct A}.

Definition count_from (ranges : Z) (was : bool) (ss : list A) : Z :=
  fst (fold_left (fun '(ranges, wasDeleted) s =>
    let deleted := structDeleted s in
    (if deleted && negb wasDeleted then ranges + 1 else ranges, deleted)) ss (ranges, was)).

Lemma count_from_shift ss n b : count_from n b ss = n + count_from 0 b ss.
Proof.
  unfold count_from. revert n b. induction ss as [|s ss IH]; intros n b; simpl; [lia|].
  destruct (structDeleted s && negb b); rewrite IH; [rewrite (IH (0 + 1))|]; lia.
Qed.

Lemma count_absorb ss l l' rest n :
  absorb l ss = (l', rest) -> count_from n true ss = count_from n false rest.
Proof.
  revert l. induction ss as [|s ss IH]; intros l; simpl.
  - by intros [= <- <-].
  - unfold count_from. simpl. destruct (structDeleted s) eqn:Ed; simpl.
    + intros Hab. apply (IH _ Hab).
    + intros [= <- <-]. simpl. by rewrite Ed.
Qed.

Lemma absorb_length ss l l' (rest : list A) : absorb l ss = (l', rest) -> (length rest <= length ss)%nat.
Proof.
  revert l. induction ss as [|s ss IH]; intros l; simpl; [by intros [= <- <-]|].
  case_match; [intros Hab%IH; lia|]. by intros [= <- <-].
Qed.

Lemma rangeCount_ranges ss : deletedStructRangeCount ss = Z.of_nat (length (appendDeletedRanges [] ss)).
Proof.
  change (count_from 0 false ss = Z.of_nat (length (deletedRanges_loop (length ss) [] ss))).
  assert (Hg : forall fuel l, (length l <= fuel)%nat ->
    count_from 0 false l = Z.of_nat (length (deletedRanges_loop fuel [] l))); [|by apply Hg].
  induction fuel as [|fuel IH]; intros [|s l] Hl; simpl in Hl; try lia; [done..|].
  simpl. destruct (structDeleted s) eqn:Ed; simpl.
  - destruct (absorb (structLength s) l) as [l' rest] eqn:Ea. pose proof (absorb_length _ _ _ _ Ea).
    rewrite deletedRanges_loop_app. simpl. rewrite Nat2Z.inj_succ, <- IH by lia.
    rewrite <- (count_absorb _ _ _ _ 0 Ea). unfold count_from at 1. simpl. rewrite Ed. simpl.
    change (fst _) with (count_from 1 true l). rewrite (count_from_shift l 1). lia.
  - rewrite <- IH by lia. unfold count_from. simpl. by rewrite Ed.
Qed.

Lemma writeRuns_items fuel (e : E) ss : writeRuns fuel e ss = writeItems e (deletedRanges_loop fuel [] ss).
Proof.
  revert e ss. induction fuel as [|fuel IH]; intros e [|s ss]; simpl; try done.
  destruct (structDeleted s); simpl; [|apply IH]. destruct (absorb _ _) as [l rest].
  rewrite deletedRanges_loop_app. simpl. case_match; [apply IH|done].
Qed.

(** The ranges of every client fit the count field. *)
Definition counts_ok (ss : structStore A) : Prop :=
  forall client, is_u64 (Z.of_nat (length (store_ranges ss client))).

Lemma writeDeletedClients_spec (e : E) ss cs :
  store_ok ss -> counts_ok ss ->
  writeDeletedClients e ss cs =
  writeClients (newDeleteSetFromStructStore ss) e (filter (fun c => store_ranges ss c <> []) cs).
Proof.
  intros Hok Hcnt. revert e. induction cs as [|c cs IH]; intros e; [done|]. rewrite filter_cons.
  cbn [writeDeletedClients]. rewrite rangeCount_ranges. unfold clientStructs.
  change (appendDeletedRanges [] _) with (store_ranges ss c). case_decide as Hr.
  - cbn [writeClients]. rewrite fromStore_lookup by done.
    assert (Hd : default [] (match store_ranges ss c with [] => None | l => Some l end) = store_ranges ss c)
      by by destruct (store_ranges ss c). rewrite Hd.
    destruct (Z.ltb_spec 0 (Z.of_nat (length (store_ranges ss c)))).
    + unfold writeDeletedStructRanges. rewrite (u64_small (Z.of_nat _)) by apply Hcnt. rewrite writeRuns_items.
      change (deletedRanges_loop _ _ _) with (store_ranges ss c). destruct (writeItems _ _); [apply IH|done].
    + destruct (store_ranges ss c); [done|simpl in *; lia].
  - rewrite Hr. apply IH.
Qed.

#[global] Instance ge_anti : AntiSymm (=) Z.ge.
Proof. intros x y ??. lia. Qed.
#[global] Instance ge_total : Total Z.ge.
Proof. intros x y. lia. Qed.
#[global] Instance ge_trans : Transitive Z.ge.
Proof. intros x y z. lia. Qed.

Lemma StronglySorted_filter {B} (R : relation B) (P : B -> Prop) `{forall x, Decision (P x)} l :
  StronglySorted R l -> StronglySorted R (filter P l).
Proof.
  induction 1 as [|x l Hl IH Hx]; [constructor|]. rewrite filter_cons. case_decide; [|done].
  constructor; [done|]. apply list.Forall_forall. intros y [_ Hy]%list_elem_of_filter.
  by eapply list.Forall_forall in Hx.
Qed.

Lemma fromStore_dom (ss : structStore A) k :
  store_ok ss -> k ∈ dom (ds_clients (newDeleteSetFromStructStore ss)) <-> store_ranges ss k <> [].
Proof.
  intros Hok. rewrite elem_of_dom, fromStore_lookup by done.
  destruct (store_ranges ss k); split; [by intros [? ?]|by intros ?|done|eauto].
Qed.

Lemma store_ranges_dom (ss : structStore A) k : store_ranges ss k <> [] -> k ∈ dom (clients ss).
Proof.
  unfold store_ranges. rewrite elem_of_dom. destruct (clients ss !! k); [eauto|done].
Qed.

Lemma filter_dom_perm (ss : structStore A) cs :
  store_ok ss -> cs ≡ₚ elements (dom (clients ss)) ->
  filter (fun c => store_ranges ss c <> []) cs ≡ₚ
  elements (dom (ds_clients (newDeleteSetFromStructStore ss))).
Proof.
  intros Hok Hp. apply NoDup_Permutation.
  - apply list.NoDup_filter. rewrite Hp. apply NoDup_elements.
  - apply NoDup_elements.
  - intros k. rewrite list_elem_of_filter, Hp, !elem_of_elements, fromStore_dom by done.
    split; [tauto|]. intros Hk. split; [done|by apply store_ranges_dom].
Qed.

Lemma deletedClientCount_spec (ss : structStore A) cs :
  deletedClientCount ss cs = Z.of_nat (length (filter (fun c => store_ranges ss c <> []) cs)).
Proof.
  unfold deletedClientCount. f_equal. f_equal. apply list_filter_iff. intros c.
  rewrite rangeCount_ranges. unfold clientStructs. change (appendDeletedRanges [] _) with (store_ranges ss c).
  destruct (store_ranges ss c); simpl; split; intros; try done; lia.
Qed.

Lemma descending_filter (ss : structStore A) :
  store_ok ss ->
  filter (fun c => store_ranges ss c <> []) (descending (elements (dom (clients ss)))) =
  descending (elements (dom (ds_clients (newDeleteSetFromStructStore ss)))).
Proof.
  intros Hok. eapply (StronglySorted_unique Z.ge).
  - apply StronglySorted_filter, StronglySorted_merge_sort; apply _.
  - apply StronglySorted_merge_sort; apply _.
  - rewrite filter_dom_perm by (done || apply merge_sort_Permutation).
    symmetry. apply merge_sort_Permutation.
Qed.

Lemma descending_singleton c : descending [c] = [c].
Proof. done. Qed.

Lemma fromStore_size (ss : structStore A) cs :
  store_ok ss -> cs ≡ₚ elements (dom (clients ss)) ->
  size (ds_clients (newDeleteSetFromStructStore ss)) = length (filter (fun c => store_ranges ss c <> []) cs).
Proof. intros Hok Hp. rewrite filter_dom_perm by done. symmetry. apply size_dom. Qed.

Lemma directWriter_spec (e : E) ss sortedClients :
  store_ok ss -> counts_ok ss ->
  (length sortedClients = size (clients ss) -> sortedClients = descending (elements (dom (clients ss)))) ->
  writeDeleteSetFromStructStore e ss sortedClients = writeDeleteSet e (Some (newDeleteSetFromStructStore ss)).
Proof.
  intros Hok Hcnt Hsorted. unfold writeDeleteSet. cbv zeta. rewrite <- descending_filter by done.
  rewrite (fromStore_size ss (descending (elements (dom (clients ss))))) by
    (done || apply merge_sort_Permutation).
  rewrite <- writeDeletedClients_spec, <- deletedClientCount_spec by done.
  assert (Hsz : length (elements (dom (clients ss))) = size (clients ss)) by apply size_dom.
  unfold writeDeleteSetFromStructStore. rewrite <- Hsz in Hsorted.
  destruct (elements (dom (clients ss))) as [|c [|c' cs]] eqn:Eel.
  - done.
  - rewrite descending_singleton, rangeCount_ranges, deletedClientCount_spec, filter_cons, filter_nil.
    cbn [writeDeletedClients]. rewrite rangeCount_ranges. unfold clientStructs.
    change (appendDeletedRanges [] _) with (store_ranges ss c).
    destruct (store_ranges ss c) as [|r rs] eqn:Er; [done|]. case_decide as Hd; [|done].
    destruct (Z.eqb_spec (Z.of_nat (length (r :: rs))) 0); [simpl in *; lia|].
    destruct (Z.ltb_spec 0 (Z.of_nat (length (r :: rs)))); [|simpl in *; lia].
    cbn [length]. by case_match.
  - destruct (Nat.eqb_spec (length sortedClients) (length (c :: c' :: cs))) as [He|He]; [|done].
    by rewrite <- Hsorted.
Qed.

End Direct.

(** ** Properties *)

(** A delete set whose ranges are encodable survives the V1 wire format:
    [writeDeleteSet] succeeds, and reading its bytes back (whatever follows
    them) gives the same ranges per client with the clients in wire order,
    through [readDeleteSet] and through [readDeleteSetOrdered], whose count
    guards therefore reject no encoded set. *)
Theorem deleteSet_roundtrip_v1 (ds : deleteSet) (e : V1.dsEncoderV1) (rest : list Z) :
  ds_fits ds ->
  exists bs e', writeDeleteSet e (Some ds) = Ok e' /\ V1.rest e' = V1.rest e ++ bs /\
    readDeleteSet (V1.mkDec (bs ++ rest)) = (Ok (decoded ds), V1.mkDec rest) /\
    readDeleteSetOrdered (V1.mkDec (bs ++ rest)) =
      (Ok (map (fun client => (client, ds_items ds client)) (ds_order (decoded ds))), V1.mkDec rest).
Proof.
  intros Hf. destruct (deleteSet_roundtrip (D := V1.updateDecoderV1) ds e Hf) as (bs & e' & Hw & Hr & Hrd).
  exists bs, e'. destruct (Hrd rest 0) as (c' & H1 & H2). done.
Qed.

(** The same for the V2 wire format, whose clocks are deltas against the
    end of the previous range: the decoder's running value follows the
    encoder's. *)
Theorem deleteSet_roundtrip_v2 (ds : deleteSet) (e : V2.dsEncoderV2) (rest : list Z) (cur0 : Z) :
  ds_fits ds ->
  exists bs e', writeDeleteSet e (Some ds) = Ok e' /\ V2.rest e' = V2.rest e ++ bs /\
    exists cur', readDeleteSet (V2.mkDec (bs ++ rest) cur0) = (Ok (decoded ds), V2.mkDec rest cur') /\
    readDeleteSetOrdered (V2.mkDec (bs ++ rest) cur0) =
      (Ok (map (fun client => (client, ds_items ds client)) (ds_order (decoded ds))), V2.mkDec rest cur').
Proof.
  intros Hf. destruct (deleteSet_roundtrip (D := V2.dsDecoderV2) ds e Hf) as (bs & e' & Hw & Hr & Hrd).
  exists bs, e'. split_and!; [done|done|]. apply Hrd.
Qed.

Definition sample_wire_ds : deleteSet :=
  mkDS {[ 7 := [newDeleteItem 1 2; newDeleteItem 5 1] ]} [7].

Lemma sample_wire_ds_fits : ds_fits sample_wire_ds.
Proof.
  split; [by vm_compute|]. apply map_Forall_singleton. split; [done|].
  unfold block_fits, items_fit, fits, is_safe, maxSafeInteger. simpl. lia.
Qed.

Lemma deleteSet_roundtrip_v1_witness :
  exists bs e', writeDeleteSet (V1.mkEnc []) (Some sample_wire_ds) = Ok e' /\ V1.rest e' = [] ++ bs /\
    readDeleteSet (V1.mkDec (bs ++ [9])) = (Ok (decoded sample_wire_ds), V1.mkDec [9]) /\
    readDeleteSetOrdered (V1.mkDec (bs ++ [9])) =
      (Ok [(7, [newDeleteItem 1 2; newDeleteItem 5 1])], V1.mkDec [9]).
Proof. exact (deleteSet_roundtrip_v1 sample_wire_ds (V1.mkEnc []) [9] sample_wire_ds_fits). Defined.

Lemma deleteSet_roundtrip_v2_witness :
  exists bs e', writeDeleteSet (V2.mkEnc [] 0) (Some sample_wire_ds) = Ok e' /\ V2.rest e' = [] ++ bs /\
    exists cur', readDeleteSet (V2.mkDec (bs ++ [9]) 3) = (Ok (decoded sample_wire_ds), V2.mkDec [9] cur') /\
    readDeleteSetOrdered (V2.mkDec (bs ++ [9]) 3) =
      (Ok [(7, [newDeleteItem 1 2; newDeleteItem 5 1])], V2.mkDec [9] cur').
Proof. exact (deleteSet_roundtrip_v2 sample_wire_ds (V2.mkEnc [] 0) [9] 3 sample_wire_ds_fits). Defined.

(** [writeDeleteSetFromStructStore], which streams the deleted ranges of
    a store without building a set, writes exactly what building the set and
    writing it writes, for either encoder and on each of its three branches
    (no client, one client, many), provided that a client list passed in place
    of the computed one is the descending list. *)
Theorem directWriter_agrees {E A : Type} `{DSEncoder E} `{AbstractStruct A}
    (e : E) (ss : structStore A) (sortedClients : list Z) :
  store_ok ss -> counts_ok ss ->
  (length sortedClients = size (clients ss) -> sortedClients = descending (elements (dom (clients ss)))) ->
  writeDeleteSetFromStructStore e ss sortedClients = writeDeleteSet e (Some (newDeleteSetFromStructStore ss)).
Proof. apply directWriter_spec. Qed.

Lemma directWriter_agrees_witness :
  writeDeleteSetFromStructStore (V2.mkEnc [] 0) sample_store [] =
  writeDeleteSet (V2.mkEnc [] 0) (Some (newDeleteSetFromStructStore sample_store)).
Proof.
  apply (directWriter_agrees (V2.mkEnc [] 0) sample_store []).
  - exact (proj1 sample_store_ok).
  - intros c. unfold store_ranges, sample_store. cbn [clients].
    destruct (decide (c = 7)) as [->|]; [by vm_compute|]. by rewrite lookup_singleton_ne.
  - by vm_compute.
Defined.
