(* ===== verification/UpdateCodec.v ===== *)
(** * The update encoders and decoders

    Models the [updateEncoder] / [updateDecoder] interfaces
    ([crdt/interfaces.go]) with their two implementations: V1 writes every
    field to one buffer, V2 to nine columns and the rest buffer
    ([crdt/update_encoder.go], [crdt/update_decoder.go]). A struct is written
    as a sequence of fields, so the contract [UpdateCodec] says that a decoder
    delivers exactly the fields that were written, in order, and then stands
    at whatever follows them in the rest buffer. *)
From S2P Require Import Prelude Lib0 Rle Object Any Text StringColumn StructStore DeleteSet DeleteSetCodec.

(** The JSON text of data values ([crdt/json_ordered.go]). *)
Class JSONText := {
  marshalJSONOrdered : any -> result gostring;
  unmarshalJSONOrdered : gostring -> result any
}.

(** ** The interfaces *)
Class UpdateEncoder (E : Type) `{DSEncoder E} := {
  writeLeftID : ID -> step E unit;
  writeRightID : ID -> step E unit;
  writeClient : Z -> step E unit;
  writeInfo : Z -> step E unit;
  writeStringValue : gostring -> step E unit;
  writeParentInfo : bool -> step E unit;
  writeTypeRef : Z -> step E unit;
  writeLength : Z -> step E unit;
  writeAnyValue : any -> step E unit;
  writeBuffer : list Z -> step E unit;
  writeJSONValue : any -> step E unit;
  writeKey : gostring -> step E unit;
  (** [toBytes], with the value of [encodeError] after it. *)
  toBytes : E -> list Z * option go_error
}.

Class UpdateDecoder (D : Type) `{DSDecoder D} := {
  readLeftID : step D ID;
  readRightID : step D ID;
  readClient : step D Z;
  readInfo : step D Z;
  readString : step D gostring;
  readParentInfo : step D bool;
  readTypeRef : step D Z;
  readLength : step D Z;
  readAnyValue : step D any;
  readBuffer : step D (list Z);
  readJSONValue : step D any;
  readKey : step D gostring;
  RemainingLen : D -> Z
}.

(** A write that cannot fail. *)
Definition put {E} (f : E -> E) : step E unit := fun e => (Ok tt, f e).

(** [writeEncoderRestVarUint]. *)
Definition writeRest {E} `{DSEncoder E} (v : Z) : step E unit := put (fun e => writeRestVarUint e v).

(** ** V1: one buffer *)
Module UV1.
Section V1.
Context `{JSONText}.

Abbreviation E := V1.dsEncoderV1.
Abbreviation D := V1.updateDecoderV1.

(** A write to the rest buffer. *)
Definition on_buf (f : list Z -> list Z) : step E unit := put (fun e => V1.mkEnc (f (V1.rest e))).
Definition varUint (v : Z) : step E unit := on_buf (fun buf => WriteVarUint buf v).

Definition writeID (id : ID) : step E unit := _ <-- varUint (u64 (Client id));;; varUint (u64 (Clock id)).
Definition writeStringV (s : gostring) : step E unit := on_buf (fun buf => WriteString buf s).

(** The bytes of the JSON literals [null], [true] and [false]. *)
Definition json_null : gostring := [110; 117; 108; 108].
Definition json_bool (b : bool) : gostring := if b then [116; 114; 117; 101] else [102; 97; 108; 115; 101].

(** The string case writes the same bytes without the intermediate buffer. *)
Definition writeJSON (v : any) : step E unit :=
  match v with
  | ANil | ANull | AUndefined => writeStringV json_null
  | ABool b => writeStringV (json_bool b)
  | _ => match marshalJSONOrdered v with Ok data => writeStringV data | Err e => rfail e end
  end.

#[global] Instance encoder : UpdateEncoder E := {|
  writeLeftID := writeID;
  writeRightID := writeID;
  writeClient n := varUint (u64 n);
  writeInfo b := on_buf (fun buf => writeByte buf b);
  writeStringValue := writeStringV;
  writeParentInfo isYKey := varUint (if isYKey : bool then 1 else 0);
  writeTypeRef b := varUint b;
  writeLength n := varUint (u64 n);
  writeAnyValue v := on_buf (fun buf => writeAny buf v);
  writeBuffer bs := on_buf (fun buf => WriteVarUint8Array buf bs);
  writeJSONValue := writeJSON;
  writeKey := writeStringV;
  toBytes e := (V1.rest e, None)
|}.

Definition readNumber : step D Z := n <-- V1.on_rest binaryReadUvarint;;; rlift (toNumber n).
Definition readID : step D ID := client <-- readNumber;;; clock <-- readNumber;;; rret (GenID client clock).
Definition readStringV : step D gostring := V1.on_rest ReadString.

#[global] Instance decoder : UpdateDecoder D := {|
  readLeftID := readID;
  readRightID := readID;
  readClient := readNumber;
  readInfo := V1.on_rest readByte;
  readString := readStringV;
  readParentInfo := info <-- V1.on_rest binaryReadUvarint;;; rret (info =? 1);
  readTypeRef := ref <-- V1.on_rest binaryReadUvarint;;; rret (u8 ref);
  readLength := readNumber;
  readAnyValue := V1.on_rest readAny;
  readBuffer := V1.on_rest ReadVarUint8Array;
  readJSONValue := data <-- readStringV;;; rlift (unmarshalJSONOrdered data);
  readKey := readStringV;
  RemainingLen d := Z.of_nat (length (V1.d_rest d))
|}.

Definition newEncoder : E := V1.mkEnc [].
Definition newDecoder (buf : list Z) : D := V1.mkDec buf.

End V1.
End UV1.

(** ** V2: nine columns and the rest *)
Module UV2.

Record columns := mkCols {
  c_keyClock : IntDiffOptRle.intDiffOptRLEEncoder;
  c_client : UintOptRle.uintOptRLEEncoder;
  c_leftClock : IntDiffOptRle.intDiffOptRLEEncoder;
  c_rightClock : IntDiffOptRle.intDiffOptRLEEncoder;
  c_info : Rle.rleEncoder;
  c_string : stringEncoder;
  c_parentInfo : Rle.rleEncoder;
  c_typeRef : UintOptRle.uintOptRLEEncoder;
  c_len : UintOptRle.uintOptRLEEncoder
}.

(** [keyMap] is never populated, as in Yjs; its lookup is kept. *)
Record updateEncoderV2 := mkEnc {
  e_ds : V2.dsEncoderV2;
  e_cols : columns;
  e_keyMap : gmap gostring Z;
  e_keyClock : Z;
  e_err : option go_error
}.
Abbreviation E := updateEncoderV2.

Definition newColumns : columns :=
  mkCols IntDiffOptRle.newIntDiffOptRLEEncoder UintOptRle.newUintOptRLEEncoder IntDiffOptRle.newIntDiffOptRLEEncoder
    IntDiffOptRle.newIntDiffOptRLEEncoder Rle.newRLEEncoder newStringEncoder Rle.newRLEEncoder
    UintOptRle.newUintOptRLEEncoder UintOptRle.newUintOptRLEEncoder.
Definition newEncoder : E := mkEnc (V2.mkEnc [] 0) newColumns ∅ 0 None.

Definition with_ds (ds : V2.dsEncoderV2) (e : E) : E := mkEnc ds (e_cols e) (e_keyMap e) (e_keyClock e) (e_err e).
Definition with_cols (c : columns) (e : E) : E := mkEnc (e_ds e) c (e_keyMap e) (e_keyClock e) (e_err e).

(** The embedded [dsEncoderV2]. *)
#[global] Instance dsEncoder : DSEncoder E := {|
  enc_rest e := V2.rest (e_ds e);
  writeRestVarUint e v := with_ds (writeRestVarUint (e_ds e) v) e;
  enc_resetDS e := with_ds (enc_resetDS (e_ds e)) e;
  encDSClock e clock := with_ds (encDSClock (e_ds e) clock) e;
  encDSLength e length := match encDSLength (e_ds e) length with Ok ds => Ok (with_ds ds e) | Err x => Err x end
|}.

Definition set_keyClock x (c : columns) := mkCols x (c_client c) (c_leftClock c) (c_rightClock c) (c_info c) (c_string c) (c_parentInfo c) (c_typeRef c) (c_len c).
Definition set_client x (c : columns) := mkCols (c_keyClock c) x (c_leftClock c) (c_rightClock c) (c_info c) (c_string c) (c_parentInfo c) (c_typeRef c) (c_len c).
Definition set_leftClock x (c : columns) := mkCols (c_keyClock c) (c_client c) x (c_rightClock c) (c_info c) (c_string c) (c_parentInfo c) (c_typeRef c) (c_len c).
Definition set_rightClock x (c : columns) := mkCols (c_keyClock c) (c_client c) (c_leftClock c) x (c_info c) (c_string c) (c_parentInfo c) (c_typeRef c) (c_len c).
Definition set_info x (c : columns) := mkCols (c_keyClock c) (c_client c) (c_leftClock c) (c_rightClock c) x (c_string c) (c_parentInfo c) (c_typeRef c) (c_len c).
Definition set_string x (c : columns) := mkCols (c_keyClock c) (c_client c) (c_leftClock c) (c_rightClock c) (c_info c) x (c_parentInfo c) (c_typeRef c) (c_len c).
Definition set_parentInfo x (c : columns) := mkCols (c_keyClock c) (c_client c) (c_leftClock c) (c_rightClock c) (c_info c) (c_string c) x (c_typeRef c) (c_len c).
Definition set_typeRef x (c : columns) := mkCols (c_keyClock c) (c_client c) (c_leftClock c) (c_rightClock c) (c_info c) (c_string c) (c_parentInfo c) x (c_len c).
Definition set_len x (c : columns) := mkCols (c_keyClock c) (c_client c) (c_leftClock c) (c_rightClock c) (c_info c) (c_string c) (c_parentInfo c) (c_typeRef c) x.

(** Writes to a column. *)
Definition on_cols (f : columns -> columns) : step E unit := put (fun e => with_cols (f (e_cols e)) e).
Definition writeClientV (n : Z) : step E unit := on_cols (fun c => set_client (UintOptRle.writeValue (c_client c) n) c).
Definition writeStringV (s : gostring) : step E unit := on_cols (fun c => set_string (writeString (c_string c) s) c).

(** [recordErr]: the first error stays. *)
Definition recordErr (x : go_error) (e : E) : E :=
  match e_err e with None => mkEnc (e_ds e) (e_cols e) (e_keyMap e) (e_keyClock e) (Some x) | Some _ => e end.

Definition writeClock (get : columns -> IntDiffOptRle.intDiffOptRLEEncoder) (set : IntDiffOptRle.intDiffOptRLEEncoder -> columns -> columns) (clock : Z) : step E unit :=
  put (fun e => match IntDiffOptRle.writeValue (get (e_cols e)) clock with
                | Ok col => with_cols (set col (e_cols e)) e
                | Err x => recordErr x e
                end).

Definition writeID (id : ID) : step E unit :=
  _ <-- writeClientV (u64 (Client id));;; writeClock c_leftClock set_leftClock (Clock id).
Definition writeRightIDV (id : ID) : step E unit :=
  _ <-- writeClientV (u64 (Client id));;; writeClock c_rightClock set_rightClock (Clock id).

Definition on_buf (f : list Z -> list Z) : step E unit :=
  put (fun e => with_ds (V2.mkEnc (f (V2.rest (e_ds e))) (V2.dsCurrVal (e_ds e))) e).

(** The write to the key-clock column; its error is returned. *)
Definition writeKeyClock (clock : Z) : step E unit := fun e =>
  match IntDiffOptRle.writeValue (c_keyClock (e_cols e)) clock with
  | Ok col => (Ok tt, with_cols (set_keyClock col (e_cols e)) e)
  | Err x => (Err x, e)
  end.

Definition writeKeyV (key : gostring) : step E unit := fun e =>
  match e_keyMap e !! key with
  | Some clock => writeKeyClock clock e
  | None =>
      (_ <-- writeKeyClock (e_keyClock e);;;
       _ <-- put (fun e => mkEnc (e_ds e) (e_cols e) (e_keyMap e) (e_keyClock e + 1) (e_err e));;;
       writeStringV key) e
  end.

(** [flushColumn] of the three fallible columns: an error is recorded and the
    column is empty. *)
Definition flushColumn (b : result (list Z)) (err : option go_error) : list Z * option go_error :=
  match b with
  | Ok bs => (bs, err)
  | Err x => ([], match err with None => Some x | Some _ => err end)
  end.

Definition framed (column : list Z) : list Z := appendVarUint [] (Z.of_nat (length column)) ++ column.

Definition toBytesV (e : E) : list Z * option go_error :=
  let c := e_cols e in
  let '(keyClock, err) := flushColumn (IntDiffOptRle.bytes (c_keyClock c)) (e_err e) in
  let '(leftClock, err) := flushColumn (IntDiffOptRle.bytes (c_leftClock c)) err in
  let '(rightClock, err) := flushColumn (IntDiffOptRle.bytes (c_rightClock c)) err in
  ([0] ++ mjoin (framed <$> [keyClock; UintOptRle.bytes (c_client c); leftClock; rightClock; Rle.bytes (c_info c);
                             stringBytes (c_string c); Rle.bytes (c_parentInfo c); UintOptRle.bytes (c_typeRef c);
                             UintOptRle.bytes (c_len c)]) ++ V2.rest (e_ds e), err).

#[global] Instance encoder : UpdateEncoder E := {|
  writeLeftID := writeID;
  writeRightID := writeRightIDV;
  writeClient n := writeClientV (u64 n);
  writeInfo b := on_cols (fun c => set_info (Rle.writeValue (c_info c) b) c);
  writeStringValue := writeStringV;
  writeParentInfo isYKey := on_cols (fun c => set_parentInfo (Rle.writeValue (c_parentInfo c) (if isYKey : bool then 1 else 0)) c);
  writeTypeRef b := on_cols (fun c => set_typeRef (UintOptRle.writeValue (c_typeRef c) b) c);
  writeLength n := on_cols (fun c => set_len (UintOptRle.writeValue (c_len c) (u64 n)) c);
  writeAnyValue v := on_buf (fun buf => writeAny buf v);
  writeBuffer bs := on_buf (fun buf => WriteVarUint8Array buf bs);
  writeJSONValue v := on_buf (fun buf => writeAny buf v);
  writeKey := writeKeyV;
  toBytes := toBytesV
|}.

(** *** The decoder *)
Record decoders := mkDecs {
  r_keyClock : IntDiffOptRle.intDiffOptRLEDecoder;
  r_client : UintOptRle.uintOptRLEDecoder;
  r_leftClock : IntDiffOptRle.intDiffOptRLEDecoder;
  r_rightClock : IntDiffOptRle.intDiffOptRLEDecoder;
  r_info : Rle.rleDecoder;
  r_string : stringDecoder;
  r_parentInfo : Rle.rleDecoder;
  r_typeRef : UintOptRle.uintOptRLEDecoder;
  r_len : UintOptRle.uintOptRLEDecoder
}.

Record updateDecoderV2 := mkDec { d_ds : V2.dsDecoderV2; d_cols : decoders; d_keys : list gostring }.
Abbreviation D := updateDecoderV2.

Definition on_ds {A} (m : step V2.dsDecoderV2 A) : step D A := fun d =>
  let '(r, ds) := m (d_ds d) in (r, mkDec ds (d_cols d) (d_keys d)).

#[global] Instance dsDecoder : DSDecoder D := {|
  dec_rest d := V2.d_rest (d_ds d);
  readRestVarUint := on_ds readRestVarUint;
  decResetDS d := mkDec (decResetDS (d_ds d)) (d_cols d) (d_keys d);
  decDSClock := on_ds decDSClock;
  decDSLength := on_ds decDSLength
|}.

(** [readV2Column]: a malformed length leaves an empty column. *)
Definition readV2Column (buf : list Z) : list Z * list Z :=
  match binaryReadUvarint buf with
  | (Err _, rest) => ([], rest)
  | (Ok size, rest) =>
      if Z.of_nat (length rest) <? size then ([], [])
      else (take (Z.to_nat size) rest, drop (Z.to_nat size) rest)
  end.

Definition newDecoder (buf : list Z) : D :=
  let '(_, b) := binaryReadUvarint buf in
  let '(keyClock, b) := readV2Column b in
  let '(client, b) := readV2Column b in
  let '(leftClock, b) := readV2Column b in
  let '(rightClock, b) := readV2Column b in
  let '(info, b) := readV2Column b in
  let '(str, b) := readV2Column b in
  let '(parentInfo, b) := readV2Column b in
  let '(typeRef, b) := readV2Column b in
  let '(len, b) := readV2Column b in
  mkDec (V2.mkDec b 0)
    (mkDecs (IntDiffOptRle.newIntDiffOptRLEDecoder keyClock) (UintOptRle.newUintOptRLEDecoder client)
       (IntDiffOptRle.newIntDiffOptRLEDecoder leftClock) (IntDiffOptRle.newIntDiffOptRLEDecoder rightClock)
       (Rle.newRLEDecoder info) (newStringDecoder str) (Rle.newRLEDecoder parentInfo)
       (UintOptRle.newUintOptRLEDecoder typeRef) (UintOptRle.newUintOptRLEDecoder len)) [].

Definition RemainingLenV (d : D) : Z :=
  let c := d_cols d in
  IntDiffOptRle.remaining (r_keyClock c) + UintOptRle.remaining (r_client c) + IntDiffOptRle.remaining (r_leftClock c) +
  IntDiffOptRle.remaining (r_rightClock c) + Rle.remaining (r_info c) + stringRemaining (r_string c) +
  Rle.remaining (r_parentInfo c) + UintOptRle.remaining (r_typeRef c) + UintOptRle.remaining (r_len c) +
  Z.of_nat (length (V2.d_rest (d_ds d))).

Definition put_keyClock x (c : decoders) := mkDecs x (r_client c) (r_leftClock c) (r_rightClock c) (r_info c) (r_string c) (r_parentInfo c) (r_typeRef c) (r_len c).
Definition put_client x (c : decoders) := mkDecs (r_keyClock c) x (r_leftClock c) (r_rightClock c) (r_info c) (r_string c) (r_parentInfo c) (r_typeRef c) (r_len c).
Definition put_leftClock x (c : decoders) := mkDecs (r_keyClock c) (r_client c) x (r_rightClock c) (r_info c) (r_string c) (r_parentInfo c) (r_typeRef c) (r_len c).
Definition put_rightClock x (c : decoders) := mkDecs (r_keyClock c) (r_client c) (r_leftClock c) x (r_info c) (r_string c) (r_parentInfo c) (r_typeRef c) (r_len c).
Definition put_info x (c : decoders) := mkDecs (r_keyClock c) (r_client c) (r_leftClock c) (r_rightClock c) x (r_string c) (r_parentInfo c) (r_typeRef c) (r_len c).
Definition put_string x (c : decoders) := mkDecs (r_keyClock c) (r_client c) (r_leftClock c) (r_rightClock c) (r_info c) x (r_parentInfo c) (r_typeRef c) (r_len c).
Definition put_parentInfo x (c : decoders) := mkDecs (r_keyClock c) (r_client c) (r_leftClock c) (r_rightClock c) (r_info c) (r_string c) x (r_typeRef c) (r_len c).
Definition put_typeRef x (c : decoders) := mkDecs (r_keyClock c) (r_client c) (r_leftClock c) (r_rightClock c) (r_info c) (r_string c) (r_parentInfo c) x (r_len c).
Definition put_len x (c : decoders) := mkDecs (r_keyClock c) (r_client c) (r_leftClock c) (r_rightClock c) (r_info c) (r_string c) (r_parentInfo c) (r_typeRef c) x.

(** A read of one column. *)
Definition on_col {C A} (get : decoders -> C) (set : C -> decoders -> decoders) (rd : step C A) : step D A := fun d =>
  let '(r, col) := rd (get (d_cols d)) in (r, mkDec (d_ds d) (set col (d_cols d)) (d_keys d)).

Definition readClientV : step D Z := n <-- on_col r_client put_client UintOptRle.readValue;;; rlift (toNumber n).
Definition readLeft : step D ID :=
  client <-- readClientV;;;
  clock <-- on_col r_leftClock put_leftClock IntDiffOptRle.readValue;;;
  clock <-- rlift (nonNegNumber clock);;; rret (GenID client clock).
Definition readRight : step D ID :=
  client <-- readClientV;;;
  clock <-- on_col r_rightClock put_rightClock IntDiffOptRle.readValue;;;
  clock <-- rlift (nonNegNumber clock);;; rret (GenID client clock).
Definition readStringV : step D gostring := on_col r_string put_string readStringValue.

Definition on_rest {A} (m : reader A) : step D A := on_ds (V2.on_rest m).

(** A key clock below the size of the cache names a key that was read before;
    the next one is followed by a new key; any other is malformed. *)
Definition readKeyV : step D gostring :=
  keyClock <-- on_col r_keyClock put_keyClock IntDiffOptRle.readValue;;;
  fun d =>
    if (keyClock <? 0) || (Z.of_nat (length (d_keys d)) <? keyClock) then (Err ErrRange, d)
    else if keyClock <? Z.of_nat (length (d_keys d)) then (Ok (default [] (d_keys d !! Z.to_nat keyClock)), d)
    else (key <-- readStringV;;; fun d => (Ok key, mkDec (d_ds d) (d_cols d) (d_keys d ++ [key]))) d.

#[global] Instance decoder : UpdateDecoder D := {|
  readLeftID := readLeft;
  readRightID := readRight;
  readClient := readClientV;
  readInfo := on_col r_info put_info Rle.readValue;
  readString := readStringV;
  readParentInfo := b <-- on_col r_parentInfo put_parentInfo Rle.readValue;;; rret (b =? 1);
  readTypeRef := ref <-- on_col r_typeRef put_typeRef UintOptRle.readValue;;; rret (u8 ref);
  readLength := n <-- on_col r_len put_len UintOptRle.readValue;;; rlift (toNumber n);
  readAnyValue := on_rest readAny;
  readBuffer := on_rest ReadVarUint8Array;
  readJSONValue := on_rest readAny;
  readKey := readKeyV;
  RemainingLen := RemainingLenV
|}.

End UV2.

(** ** The contract *)

(** One write of the interface with its argument. *)
Inductive field : Type :=
| FRest (n : Z)
| FLeftID (id : ID)
| FRightID (id : ID)
| FClient (n : Z)
| FInfo (b : Z)
| FString (s : gostring)
| FParentInfo (isYKey : bool)
| FTypeRef (n : Z)
| FLength (n : Z)
| FAny (v : any)
| FBuffer (bs : list Z)
| FJSON (v : any)
| FKey (s : gostring).

Section Fields.
Context {E D : Type} `{UpdateEncoder E} `{UpdateDecoder D}.

Definition writeField (f : field) : step E unit :=
  match f with
  | FRest n => writeRest n
  | FLeftID id => writeLeftID id
  | FRightID id => writeRightID id
  | FClient n => writeClient n
  | FInfo b => writeInfo b
  | FString s => writeStringValue s
  | FParentInfo b => writeParentInfo b
  | FTypeRef n => writeTypeRef n
  | FLength n => writeLength n
  | FAny v => writeAnyValue v
  | FBuffer bs => writeBuffer bs
  | FJSON v => writeJSONValue v
  | FKey s => writeKey s
  end.

Fixpoint writeFields (fs : list field) : step E unit :=
  match fs with [] => rret tt | f :: fs' => _ <-- writeField f;;; writeFields fs' end.

(** The decoder reads the field next; [json] is what a JSON value comes back
    as. *)
Definition reads (json : any -> any) (d : D) (f : field) (d' : D) : Prop :=
  match f with
  | FRest n => readRestVarUint d = (Ok n, d')
  | FLeftID id => readLeftID d = (Ok id, d')
  | FRightID id => readRightID d = (Ok id, d')
  | FClient n => readClient d = (Ok n, d')
  | FInfo b => readInfo d = (Ok b, d')
  | FString s => readString d = (Ok s, d')
  | FParentInfo b => readParentInfo d = (Ok b, d')
  | FTypeRef n => readTypeRef d = (Ok n, d')
  | FLength n => readLength d = (Ok n, d')
  | FAny v => readAnyValue d = (Ok (readBack v), d')
  | FBuffer bs => readBuffer d = (Ok bs, d')
  | FJSON v => readJSONValue d = (Ok (json v), d')
  | FKey s => readKey d = (Ok s, d')
  end.

Fixpoint delivers (json : any -> any) (d : D) (fs : list field) (d' : D) : Prop :=
  match fs with
  | [] => d = d'
  | f :: fs' => exists d1, reads json d f d1 /\ delivers json d1 fs' d'
  end.

Lemma writeFields_app fs gs e : writeFields (fs ++ gs) e = (_ <-- writeFields fs;;; writeFields gs) e.
Proof.
  revert e. induction fs as [|f fs IH]; intros e; simpl; [done|]. unfold rbind at 1 2 3.
  destruct (writeField f e) as [[[]|x] e1]; [|done]. apply IH.
Qed.

Lemma delivers_app json fs gs d d' : delivers json d (fs ++ gs) d' <-> exists d1, delivers json d fs d1 /\ delivers json d1 gs d'.
Proof.
  revert d. induction fs as [|f fs IH]; intros d; simpl.
  - split; [intros H'; by exists d|by intros (d1 & -> & H')].
  - split.
    + intros (d1 & Hr & (d2 & Ha & Hb)%IH). exists d2. split; [by exists d1|done].
    + intros (d2 & (d1 & Hr & Ha) & Hb). exists d1. split; [done|]. apply IH. by exists d2.
Qed.

End Fields.

(** The fields both formats carry: clients, clocks and lengths in the range of
    a JavaScript integer, strings of valid UTF-8, data values that nest at most
    101 levels, and JSON values for which [json_ok] holds. *)
Definition id_ok (id : ID) : Prop := is_safe (Client id) /\ is_safe (Clock id).
Definition value_fits (v : any) : Prop := any_ok v /\ (height v <= S maxAnyDepth)%nat.

Definition field_ok (json_ok : any -> Prop) (f : field) : Prop :=
  match f with
  | FRest n => is_u64 n
  | FLeftID id | FRightID id => id_ok id
  | FClient n | FLength n => is_safe n
  | FInfo b => is_byte b
  | FTypeRef n => is_byte n
  | FString s | FKey s => valid s /\ Z.of_nat (length s) < 2 ^ 64
  | FParentInfo _ => True
  | FAny v => value_fits v
  | FBuffer bs => Z.of_nat (length bs) < 2 ^ 64
  | FJSON v => json_ok v
  end.

Definition fields_ok (json_ok : any -> Prop) (fs : list field) : Prop :=
  Forall (field_ok json_ok) fs /\ Z.of_nat (length fs) <= maxRleRunCount.

(** An encoder with its decoder. Whatever is written to the rest buffer
    afterwards (the delete set) leaves the columns as they are
    ([same_columns]), and the decoder finds it behind the fields. *)
Class UpdateCodec (E D : Type) `{UpdateEncoder E} `{UpdateDecoder D} := {
  newE : E;
  newD : list Z -> D;
  json_ok : any -> Prop;
  json_form : any -> any;
  same_columns : E -> E -> Prop;
  codec_ds : D -> DSCodec E D;
  same_refl e : same_columns e e;
  same_trans e1 e2 e3 : same_columns e1 e2 -> same_columns e2 e3 -> same_columns e1 e3;
  same_rest e v : same_columns e (writeRestVarUint e v);
  same_reset e : same_columns e (enc_resetDS e);
  same_clock e v : same_columns e (encDSClock e v);
  same_length e v e' : encDSLength e v = Ok e' -> same_columns e e';
  codec_roundtrip fs : fields_ok json_ok fs ->
    exists e, writeFields fs newE = (Ok tt, e) /\
      forall e2 tail, same_columns e e2 -> enc_rest e2 = enc_rest e ++ tail -> Z.of_nat (length (toBytes e2).1) < 2 ^ 64 ->
        (toBytes e2).2 = None /\
        exists d c, delivers json_form (newD (toBytes e2).1) fs d /\ d = @mk _ _ _ _ (codec_ds d) tail c
}.

(** ** V1 keeps the contract *)
Section CodecV1.
Context `{JSONText}.

Definition jsonText (v : any) : result gostring :=
  match v with
  | ANil | ANull | AUndefined => Ok UV1.json_null
  | ABool b => Ok (UV1.json_bool b)
  | _ => marshalJSONOrdered v
  end.

(** What the JSON text of a value is parsed to. *)
Definition jsonForm (v : any) : any :=
  match jsonText v with
  | Ok text => match unmarshalJSONOrdered text with Ok v' => v' | Err _ => ANil end
  | Err _ => ANil
  end.

Definition jsonOk (v : any) : Prop :=
  exists text v', jsonText v = Ok text /\ Z.of_nat (length text) < 2 ^ 64 /\ unmarshalJSONOrdered text = Ok v'.

(** The bytes of a field. *)
Definition number_bytes (n : Z) : list Z := uvarint_bytes 10 n.
Definition field_bytes (f : field) : list Z :=
  match f with
  | FRest n | FClient n | FLength n | FTypeRef n => number_bytes n
  | FLeftID id | FRightID id => number_bytes (Client id) ++ number_bytes (Clock id)
  | FInfo b => [b]
  | FString s | FKey s => WriteString [] s
  | FParentInfo b => number_bytes (if b then 1 else 0)
  | FAny v => writeAny [] v
  | FBuffer bs => WriteVarUint8Array [] bs
  | FJSON v => match jsonText v with Ok text => WriteString [] text | Err _ => [] end
  end.

Lemma v1_write f e : field_ok jsonOk f -> writeField f e = (Ok tt, V1.mkEnc (V1.rest e ++ field_bytes f)).
Proof.
  destruct f; intros Hf; cbn [writeField field_bytes field_ok] in *; unfold number_bytes;
    unfold writeRest, put; cbn [writeRestVarUint V1.encoder writeLeftID writeRightID writeClient writeInfo writeStringValue writeParentInfo writeTypeRef writeLength writeAnyValue writeBuffer writeJSONValue writeKey UV1.encoder];
    unfold UV1.writeID, UV1.writeStringV, UV1.varUint, UV1.on_buf, put, rbind; cbn [V1.rest].
  - rewrite WriteVarUint_bytes by (unfold is_u64 in *; lia). done.
  - destruct Hf as [Hc Hk]. rewrite !safe_u64, !WriteVarUint_bytes by (unfold is_safe in *; (done || lia)). by rewrite <- (assoc_L (++)).
  - destruct Hf as [Hc Hk]. rewrite !safe_u64, !WriteVarUint_bytes by (unfold is_safe in *; (done || lia)). by rewrite <- (assoc_L (++)).
  - rewrite safe_u64, WriteVarUint_bytes by (unfold is_safe in *; (done || lia)). done.
  - done.
  - by rewrite WriteString_app.
  - rewrite WriteVarUint_bytes by (destruct isYKey; lia). done.
  - rewrite WriteVarUint_bytes by (unfold is_byte in *; lia). done.
  - rewrite safe_u64, WriteVarUint_bytes by (unfold is_safe in *; (done || lia)). done.
  - by rewrite writeAny_app.
  - by rewrite WriteVarUint8Array_app.
  - destruct Hf as (text & v' & Et & Hl & _). unfold UV1.writeJSON. assert (forall s, UV1.writeStringV s e = (Ok tt, V1.mkEnc (V1.rest e ++ WriteString [] s))) as Hw.
    { intros s. unfold UV1.writeStringV, UV1.on_buf, put. by rewrite WriteString_app. }
    unfold jsonText in *. destruct v; try (rewrite Et; apply Hw); by rewrite Hw.
  - by rewrite WriteString_app.
Qed.

Lemma v1_readNumber n rest : is_safe n -> UV1.readNumber (V1.mkDec (number_bytes n ++ rest)) = (Ok n, V1.mkDec rest).
Proof.
  intros Hn. unfold UV1.readNumber, rbind, V1.on_rest, number_bytes. cbn [V1.d_rest].
  rewrite uvarint_roundtrip by auto with go. unfold rlift. by rewrite toNumber_safe.
Qed.

Lemma v1_read f rest : field_ok jsonOk f -> reads jsonForm (V1.mkDec (field_bytes f ++ rest)) f (V1.mkDec rest).
Proof.
  destruct f; intros Hf; cbn [reads field_bytes field_ok] in *;
    cbn [readRestVarUint V1.decoder readLeftID readRightID readClient readInfo readString readParentInfo readTypeRef readLength readAnyValue readBuffer readJSONValue readKey UV1.decoder].
  - unfold V1.on_rest, ReadVarUint. cbn [V1.d_rest]. by rewrite uvarint_roundtrip.
  - destruct Hf as [Hc Hk]. unfold UV1.readID. rewrite <- (assoc_L (++)). rstep v1_readNumber by done. rstep v1_readNumber by done. by destruct id.
  - destruct Hf as [Hc Hk]. unfold UV1.readID. rewrite <- (assoc_L (++)). rstep v1_readNumber by done. rstep v1_readNumber by done. by destruct id.
  - by apply v1_readNumber.
  - done.
  - destruct Hf. unfold UV1.readStringV, V1.on_rest. cbn [V1.d_rest]. by rewrite string_roundtrip.
  - unfold rbind, V1.on_rest, number_bytes. cbn [V1.d_rest]. rewrite uvarint_roundtrip by (destruct isYKey; unfold is_u64; lia). by destruct isYKey.
  - unfold rbind, V1.on_rest, number_bytes. cbn [V1.d_rest]. rewrite uvarint_roundtrip by (unfold is_byte, is_u64 in *; lia). unfold rret. by rewrite u8_small.
  - by apply v1_readNumber.
  - destruct Hf. unfold V1.on_rest, readAny. cbn [V1.d_rest]. by rewrite read_written.
  - unfold V1.on_rest. cbn [V1.d_rest]. by rewrite uint8Array_roundtrip.
  - destruct Hf as (text & v' & Et & Hl & Eu). unfold rbind, UV1.readStringV, V1.on_rest, jsonForm. cbn [V1.d_rest]. rewrite Et, string_roundtrip by done.
    unfold rlift. by rewrite Eu.
  - destruct Hf. unfold UV1.readStringV, V1.on_rest. cbn [V1.d_rest]. by rewrite string_roundtrip.
Qed.

Definition fields_bytes (fs : list field) : list Z := mjoin (field_bytes <$> fs).

Lemma v1_writeFields fs e : Forall (field_ok jsonOk) fs -> writeFields fs e = (Ok tt, V1.mkEnc (V1.rest e ++ fields_bytes fs)).
Proof.
  intros Hfs. revert e. induction Hfs as [|f fs Hf _ IH]; intros e; [destruct e; simpl; unfold fields_bytes; simpl; by rewrite app_nil_r|].
  cbn [writeFields]. rewrite (rbind_ok _ _ _ _ _ (v1_write f e Hf)), IH. unfold fields_bytes. rewrite fmap_cons, mjoin_cons. cbn [V1.rest].
  by rewrite <- (assoc_L (++)).
Qed.

Lemma v1_delivers fs rest : Forall (field_ok jsonOk) fs -> delivers jsonForm (V1.mkDec (fields_bytes fs ++ rest)) fs (V1.mkDec rest).
Proof.
  induction 1 as [|f fs Hf _ IH]; [done|]. unfold fields_bytes. rewrite fmap_cons, mjoin_cons, <- (assoc_L (++)). cbn [delivers].
  eexists. split; [by apply v1_read|exact IH].
Qed.

#[global] Program Instance updateCodecV1 : UpdateCodec V1.dsEncoderV1 V1.updateDecoderV1 := {|
  newE := UV1.newEncoder;
  newD := UV1.newDecoder;
  json_ok := jsonOk;
  json_form := jsonForm;
  same_columns _ _ := True;
  codec_ds _ := codecV1
|}.
Solve Obligations with try done.
Next Obligation.
  intros fs [Hfs _]. eexists. split; [by apply v1_writeFields|]. intros e2 tail _ Er _. split; [done|].
  exists (V1.mkDec tail), 0. split; [|done]. cbn in Er |- *. rewrite Er. unfold UV1.newDecoder. by apply v1_delivers.
Qed.

End CodecV1.

(** ** V2 keeps the contract *)
Section CodecV2.
Import UV2.

(** What a field writes to each column. *)
Definition p_client (f : field) : list Z :=
  match f with FLeftID id | FRightID id => [Client id] | FClient n => [n] | _ => [] end.
Definition p_left (f : field) : list Z := match f with FLeftID id => [Clock id] | _ => [] end.
Definition p_right (f : field) : list Z := match f with FRightID id => [Clock id] | _ => [] end.
Definition p_info (f : field) : list Z := match f with FInfo b => [b] | _ => [] end.
Definition p_string (f : field) : list gostring := match f with FString s | FKey s => [s] | _ => [] end.
Definition p_parent (f : field) : list Z := match f with FParentInfo b => [if b then 1 else 0] | _ => [] end.
Definition p_type (f : field) : list Z := match f with FTypeRef n => [n] | _ => [] end.
Definition p_len (f : field) : list Z := match f with FLength n => [n] | _ => [] end.
Definition p_key (f : field) : list gostring := match f with FKey s => [s] | _ => [] end.
Definition p_rest (f : field) : list Z :=
  match f with
  | FRest n => uvarint_bytes 10 n
  | FAny v | FJSON v => writeAny [] v
  | FBuffer bs => WriteVarUint8Array [] bs
  | _ => []
  end.

Definition key_clocks (k : Z) (fs : list field) : list Z := seqZ k (Z.of_nat (length (fs ≫= p_key))).

(** The encoder after a list of fields. *)
Record written (fs : list field) (e e' : E) : Prop := {
  w_rest : V2.rest (e_ds e') = V2.rest (e_ds e) ++ (fs ≫= p_rest);
  w_cur : V2.dsCurrVal (e_ds e') = V2.dsCurrVal (e_ds e);
  w_client : c_client (e_cols e') = fold_left UintOptRle.writeValue (fs ≫= p_client) (c_client (e_cols e));
  w_left : IntDiffOptRle.writeAll (fs ≫= p_left) (c_leftClock (e_cols e)) = Ok (c_leftClock (e_cols e'));
  w_right : IntDiffOptRle.writeAll (fs ≫= p_right) (c_rightClock (e_cols e)) = Ok (c_rightClock (e_cols e'));
  w_key : IntDiffOptRle.writeAll (key_clocks (e_keyClock e) fs) (c_keyClock (e_cols e)) = Ok (c_keyClock (e_cols e'));
  w_info : c_info (e_cols e') = fold_left Rle.writeValue (fs ≫= p_info) (c_info (e_cols e));
  w_string : c_string (e_cols e') = fold_left writeString (fs ≫= p_string) (c_string (e_cols e));
  w_parent : c_parentInfo (e_cols e') = fold_left Rle.writeValue (fs ≫= p_parent) (c_parentInfo (e_cols e));
  w_type : c_typeRef (e_cols e') = fold_left UintOptRle.writeValue (fs ≫= p_type) (c_typeRef (e_cols e));
  w_len : c_len (e_cols e') = fold_left UintOptRle.writeValue (fs ≫= p_len) (c_len (e_cols e));
  w_clock : e_keyClock e' = e_keyClock e + Z.of_nat (length (fs ≫= p_key));
  w_map : e_keyMap e' = e_keyMap e;
  w_err : e_err e' = e_err e
}.

Lemma writeAll_app xs ys e : IntDiffOptRle.writeAll (xs ++ ys) e =
  match IntDiffOptRle.writeAll xs e with Ok e1 => IntDiffOptRle.writeAll ys e1 | Err x => Err x end.
Proof.
  revert e. induction xs as [|x xs IH]; intros e; simpl; [done|]. destruct (IntDiffOptRle.writeValue e x); [apply IH|done].
Qed.

Lemma key_clocks_app k fs gs : key_clocks k (fs ++ gs) = key_clocks k fs ++ key_clocks (k + Z.of_nat (length (fs ≫= p_key))) gs.
Proof. unfold key_clocks. rewrite bind_app, length_app, Nat2Z.inj_add. apply seqZ_app; lia. Qed.

Lemma written_app fs gs e e1 e2 : written fs e e1 -> written gs e1 e2 -> written (fs ++ gs) e e2.
Proof.
  intros [] []. constructor; rewrite ?bind_app, ?fold_left_app, ?key_clocks_app, ?writeAll_app, ?length_app; try congruence.
  - rewrite w_rest1, w_rest0. by rewrite <- (assoc_L (++)).
  - by rewrite w_left0.
  - by rewrite w_right0.
  - rewrite w_key0, <- w_clock0. done.
  - rewrite w_clock1, w_clock0. lia.
Qed.

(** The clock columns accept a list of fields. *)
Definition accepts (fs : list field) (e : E) : Prop :=
  (exists c, IntDiffOptRle.writeAll (fs ≫= p_left) (c_leftClock (e_cols e)) = Ok c) /\
  (exists c, IntDiffOptRle.writeAll (fs ≫= p_right) (c_rightClock (e_cols e)) = Ok c) /\
  (exists c, IntDiffOptRle.writeAll (key_clocks (e_keyClock e) fs) (c_keyClock (e_cols e)) = Ok c).

Lemma accepts_step f fs e e1 : accepts (f :: fs) e -> written [f] e e1 -> accepts fs e1.
Proof.
  intros ((l & Hl) & (r & Hr) & (k & Hk)) []. change (f :: fs) with ([f] ++ fs) in *. rewrite key_clocks_app in Hk.
  rewrite bind_app, writeAll_app in Hl, Hr. rewrite writeAll_app in Hk. rewrite w_left0 in Hl. rewrite w_right0 in Hr. rewrite w_key0 in Hk.
  split_and!; [by exists l|by exists r|]. exists k. by rewrite w_clock0.
Qed.

Lemma accepts_one f fs e : accepts (f :: fs) e ->
  match f with
  | FLeftID id => exists c, IntDiffOptRle.writeValue (c_leftClock (e_cols e)) (Clock id) = Ok c
  | FRightID id => exists c, IntDiffOptRle.writeValue (c_rightClock (e_cols e)) (Clock id) = Ok c
  | FKey _ => exists c, IntDiffOptRle.writeValue (c_keyClock (e_cols e)) (e_keyClock e) = Ok c
  | _ => True
  end.
Proof.
  intros ((l & Hl) & (r & Hr) & (k & Hk)). destruct f; try done; simpl in *.
  - destruct (IntDiffOptRle.writeValue _ _); [by eexists|done].
  - destruct (IntDiffOptRle.writeValue _ _); [by eexists|done].
  - unfold key_clocks in Hk. simpl in Hk. rewrite seqZ_cons in Hk by lia. simpl in Hk. destruct (IntDiffOptRle.writeValue _ _); [by eexists|done].
Qed.

Ltac written_done := constructor; cbn -[WriteVarUint writeAny WriteVarUint8Array uvarint_bytes UintOptRle.writeValue Rle.writeValue writeString IntDiffOptRle.writeValue key_clocks u64]; rewrite ?app_nil_r, ?Z.add_0_r; try done.

Lemma v2_write f fs e json_ok : field_ok json_ok f -> accepts (f :: fs) e -> e_keyMap e = ∅ ->
  exists e', writeField f e = (Ok tt, e') /\ written [f] e e'.
Proof.
  intros Hf Ha%accepts_one Hm. destruct f; cbn [writeField field_ok] in *.
  - eexists. split; [reflexivity|]. written_done. rewrite WriteVarUint_bytes by (unfold is_u64 in *; lia). done.
  - destruct Ha as [c Hc]. destruct Hf as [Hcl _]. eexists. split; [reflexivity|]. cbn -[WriteVarUint writeAny WriteVarUint8Array uvarint_bytes UintOptRle.writeValue Rle.writeValue writeString IntDiffOptRle.writeValue key_clocks u64]. rewrite Hc, safe_u64 by done. written_done. by rewrite Hc.
  - destruct Ha as [c Hc]. destruct Hf as [Hcl _]. eexists. split; [reflexivity|]. cbn -[WriteVarUint writeAny WriteVarUint8Array uvarint_bytes UintOptRle.writeValue Rle.writeValue writeString IntDiffOptRle.writeValue key_clocks u64]. rewrite Hc, safe_u64 by done. written_done. by rewrite Hc.
  - eexists. split; [reflexivity|]. written_done. by rewrite safe_u64.
  - eexists. split; [reflexivity|]. written_done.
  - eexists. split; [reflexivity|]. written_done.
  - eexists. split; [reflexivity|]. written_done.
  - eexists. split; [reflexivity|]. written_done.
  - eexists. split; [reflexivity|]. written_done. by rewrite safe_u64.
  - eexists. split; [reflexivity|]. written_done. apply writeAny_app.
  - eexists. split; [reflexivity|]. written_done. apply WriteVarUint8Array_app.
  - eexists. split; [reflexivity|]. written_done. apply writeAny_app.
  - destruct Ha as [c Hc]. eexists. split.
    { cbn. unfold writeKeyV. rewrite Hm, lookup_empty. unfold rbind, writeKeyClock. rewrite Hc. reflexivity. }
    written_done. assert (key_clocks (e_keyClock e) [FKey s] = [e_keyClock e]) as -> by (unfold key_clocks; cbn; f_equal; lia).
    cbn -[IntDiffOptRle.writeValue]. by rewrite Hc.
Qed.

Lemma v2_writeFields json_ok fs e : Forall (field_ok json_ok) fs -> accepts fs e -> e_keyMap e = ∅ ->
  exists e', writeFields fs e = (Ok tt, e') /\ written fs e e'.
Proof.
  intros Hfs. revert e. induction Hfs as [|f fs Hf _ IH]; intros e Ha Hm.
  - exists e. split; [done|]. constructor; rewrite ?app_nil_r; try done. simpl. lia.
  - destruct (v2_write f fs e json_ok Hf Ha Hm) as (e1 & E1 & W1).
    destruct (IH e1) as (e2 & E2 & W2); [by eapply accepts_step|by rewrite (w_map _ _ _ W1)|].
    exists e2. cbn [writeFields]. rewrite (rbind_ok _ _ _ _ _ E1). split; [done|]. by apply (written_app [f] fs e e1 e2).
Qed.

(** *** Reading *)

(** A column decoder that will yield a list of values. *)
Definition column {C A} (rd : step C A) (c : C) (xs : list A) : Prop := exists c', readN rd (length xs) c = (Ok xs, c').

Lemma column_cons {C A} (rd : step C A) c x xs : column rd c (x :: xs) -> exists c1, rd c = (Ok x, c1) /\ column rd c1 xs.
Proof.
  intros [c' E]. simpl in E. destruct (rd c) as [[y|] c1]; [|done]. destruct (readN rd (length xs) c1) as [[ys|] c2] eqn:E2; [|done].
  injection E as <- <- <-. exists c1. split; [done|]. by exists c2.
Qed.

Record holds (fs : list field) (tail : list Z) (d : D) : Prop := {
  h_rest : V2.d_rest (d_ds d) = (fs ≫= p_rest) ++ tail;
  h_cur : V2.d_dsCurrVal (d_ds d) = 0;
  h_client : column UintOptRle.readValue (r_client (d_cols d)) (fs ≫= p_client);
  h_left : column IntDiffOptRle.readValue (r_leftClock (d_cols d)) (fs ≫= p_left);
  h_right : column IntDiffOptRle.readValue (r_rightClock (d_cols d)) (fs ≫= p_right);
  h_key : column IntDiffOptRle.readValue (r_keyClock (d_cols d)) (key_clocks (Z.of_nat (length (d_keys d))) fs);
  h_info : column Rle.readValue (r_info (d_cols d)) (fs ≫= p_info);
  h_string : column readStringValue (r_string (d_cols d)) (fs ≫= p_string);
  h_parent : column Rle.readValue (r_parentInfo (d_cols d)) (fs ≫= p_parent);
  h_type : column UintOptRle.readValue (r_typeRef (d_cols d)) (fs ≫= p_type);
  h_len : column UintOptRle.readValue (r_len (d_cols d)) (fs ≫= p_len)
}.

Lemma nonNegNumber_safe v : is_safe v -> nonNegNumber v = Ok v.
Proof. intros Hv. apply nonNegNumber_ok; [unfold is_safe, maxSafeInteger, is_i64 in *; lia|done]. Qed.

Lemma on_col_eq {C A} (get : decoders -> C) set (rd : step C A) (d : D) a c :
  rd (get (d_cols d)) = (Ok a, c) -> on_col get set rd d = (Ok a, mkDec (d_ds d) (set c (d_cols d)) (d_keys d)).
Proof. intros Hr. unfold on_col. by rewrite Hr. Qed.

Lemma on_rest_eq {A} (m : reader A) (d : D) a rest :
  m (V2.d_rest (d_ds d)) = (Ok a, rest) -> on_rest m d = (Ok a, mkDec (V2.mkDec rest (V2.d_dsCurrVal (d_ds d))) (d_cols d) (d_keys d)).
Proof. intros Hr. unfold on_rest, on_ds, V2.on_rest. by rewrite Hr. Qed.

(** One field more. *)
Lemma v2_read f fs tail d : field_ok value_fits f -> holds (f :: fs) tail d -> exists d1, reads readBack d f d1 /\ holds fs tail d1.
Proof.
  intros Hf [Hrest Hcur Hclient Hleft Hright Hkey Hinfo Hstring Hparent Htype Hlen].
  destruct f; cbn [field_ok reads] in *.
  - rewrite bind_cons, <- (assoc_L (++)) in Hrest. eexists. split.
    { cbn [readRestVarUint dsDecoder V2.decoder]. unfold on_ds, V2.on_rest. rewrite Hrest. unfold ReadVarUint. cbn [p_rest]. by rewrite uvarint_roundtrip. }
    constructor; [reflexivity|assumption..].
  - destruct Hf as [Hf1 Hf2]. destruct (column_cons _ _ _ _ Hclient) as (c1 & Ec & Hclient'). destruct (column_cons _ _ _ _ Hleft) as (c2 & El & Hleft').
    eexists. split.
    { cbn [readLeftID readRightID readClient readInfo readString readParentInfo readTypeRef readLength decoder]. unfold readLeft, readClientV.
    unfold rbind at 1 2. rewrite (on_col_eq _ _ _ _ _ _ Ec). unfold rlift at 1. rewrite toNumber_safe by done.
    unfold rbind at 1. erewrite on_col_eq by exact El. unfold rbind, rlift. rewrite nonNegNumber_safe by done. by destruct id. }
    constructor; assumption.
  - destruct Hf as [Hf1 Hf2]. destruct (column_cons _ _ _ _ Hclient) as (c1 & Ec & Hclient'). destruct (column_cons _ _ _ _ Hright) as (c2 & El & Hright').
    eexists. split.
    { cbn [readLeftID readRightID readClient readInfo readString readParentInfo readTypeRef readLength decoder]. unfold readRight, readClientV.
    unfold rbind at 1 2. rewrite (on_col_eq _ _ _ _ _ _ Ec). unfold rlift at 1. rewrite toNumber_safe by done.
    unfold rbind at 1. erewrite on_col_eq by exact El. unfold rbind, rlift. rewrite nonNegNumber_safe by done. by destruct id. }
    constructor; assumption.
  - destruct (column_cons _ _ _ _ Hclient) as (c1 & Ec & Hclient'). eexists. split.
    { cbn [readLeftID readRightID readClient readInfo readString readParentInfo readTypeRef readLength decoder]. unfold readClientV, rbind. rewrite (on_col_eq _ _ _ _ _ _ Ec). unfold rlift. by rewrite toNumber_safe. }
    constructor; assumption.
  - destruct (column_cons _ _ _ _ Hinfo) as (c1 & Ec & Hinfo'). eexists. split.
    { cbn [readLeftID readRightID readClient readInfo readString readParentInfo readTypeRef readLength decoder]. by apply on_col_eq. }
    constructor; assumption.
  - destruct (column_cons _ _ _ _ Hstring) as (c1 & Ec & Hstring'). eexists. split.
    { cbn [readLeftID readRightID readClient readInfo readString readParentInfo readTypeRef readLength decoder]. by apply on_col_eq. }
    constructor; assumption.
  - destruct (column_cons _ _ _ _ Hparent) as (c1 & Ec & Hparent'). eexists. split.
    { cbn [readLeftID readRightID readClient readInfo readString readParentInfo readTypeRef readLength decoder]. unfold rbind. rewrite (on_col_eq _ _ _ _ _ _ Ec). by destruct isYKey. }
    constructor; assumption.
  - destruct (column_cons _ _ _ _ Htype) as (c1 & Ec & Htype'). eexists. split.
    { cbn [readLeftID readRightID readClient readInfo readString readParentInfo readTypeRef readLength decoder]. unfold rbind. rewrite (on_col_eq _ _ _ _ _ _ Ec). unfold rret. by rewrite u8_small. }
    constructor; assumption.
  - destruct (column_cons _ _ _ _ Hlen) as (c1 & Ec & Hlen'). eexists. split.
    { cbn [readLeftID readRightID readClient readInfo readString readParentInfo readTypeRef readLength decoder]. unfold rbind. rewrite (on_col_eq _ _ _ _ _ _ Ec). unfold rlift. by rewrite toNumber_safe. }
    constructor; assumption.
  - destruct Hf. rewrite bind_cons, <- (assoc_L (++)) in Hrest. eexists. split.
    { apply on_rest_eq. rewrite Hrest. by apply read_written. }
    constructor; [reflexivity|assumption..].
  - rewrite bind_cons, <- (assoc_L (++)) in Hrest. eexists. split.
    { apply on_rest_eq. rewrite Hrest. by apply uint8Array_roundtrip. }
    constructor; [reflexivity|assumption..].
  - destruct Hf. rewrite bind_cons, <- (assoc_L (++)) in Hrest. eexists. split.
    { apply on_rest_eq. rewrite Hrest. by apply read_written. }
    constructor; [reflexivity|assumption..].
  - change (FKey s :: fs) with ([FKey s] ++ fs) in Hkey. rewrite key_clocks_app in Hkey.
    assert (key_clocks (Z.of_nat (length (d_keys d))) [FKey s] = [Z.of_nat (length (d_keys d))]) as Ek by (unfold key_clocks; cbn; f_equal; lia).
    rewrite Ek in Hkey. destruct (column_cons _ _ _ _ Hkey) as (c1 & Ec & Hkey'). destruct (column_cons _ _ _ _ Hstring) as (c2 & Es & Hstring').
    eexists. split.
    + cbn [readKey decoder]. unfold readKeyV, rbind at 1. rewrite (on_col_eq _ _ _ _ _ _ Ec). cbn [d_keys].
      destruct (Z.ltb_spec (Z.of_nat (length (d_keys d))) 0); [lia|]. rewrite Z.ltb_irrefl. cbn [orb]. unfold rbind, readStringV.
      erewrite on_col_eq by exact Es. reflexivity.
    + constructor; try assumption. cbn [d_keys d_cols put_string r_keyClock]. rewrite length_app, Nat2Z.inj_add. exact Hkey'.
Qed.

Lemma v2_delivers fs tail d : Forall (field_ok value_fits) fs -> holds fs tail d ->
  exists d', delivers readBack d fs d' /\ d_ds d' = V2.mkDec tail 0.
Proof.
  intros Hfs. revert d. induction Hfs as [|f fs Hf _ IH]; intros d Hh.
  - exists d. split; [done|]. destruct Hh. destruct (d_ds d) as [b c]. simpl in *. by subst.
  - destruct (v2_read f fs tail d Hf Hh) as (d1 & Hr & Hh1). destruct (IH d1 Hh1) as (d' & Hd & E). exists d'. split; [by exists d1|done].
Qed.

(** *** The frame *)
Lemma readV2Column_framed col rest : Z.of_nat (length col) < 2 ^ 64 -> readV2Column (framed col ++ rest) = (col, rest).
Proof.
  intros Hl. unfold readV2Column, framed. rewrite appendVarUint_bytes by lia. cbn [app]. rewrite <- (assoc_L (++)).
  rewrite uvarint_roundtrip by (unfold is_u64; lia). rewrite sized_bound. by destruct (sized_split col rest) as [-> ->].
Qed.

(** The nine columns of an update and what follows them. *)
Lemma newDecoder_columns k c l r i s p ty n rest : Forall (fun col => Z.of_nat (length col) < 2 ^ 64) [k; c; l; r; i; s; p; ty; n] ->
  newDecoder ([0] ++ mjoin (framed <$> [k; c; l; r; i; s; p; ty; n]) ++ rest) =
    mkDec (V2.mkDec rest 0)
      (mkDecs (IntDiffOptRle.newIntDiffOptRLEDecoder k) (UintOptRle.newUintOptRLEDecoder c) (IntDiffOptRle.newIntDiffOptRLEDecoder l)
         (IntDiffOptRle.newIntDiffOptRLEDecoder r) (Rle.newRLEDecoder i) (newStringDecoder s) (Rle.newRLEDecoder p)
         (UintOptRle.newUintOptRLEDecoder ty) (UintOptRle.newUintOptRLEDecoder n)) [].
Proof.
  intros H. rewrite !list.Forall_cons in H. destruct H as (H1 & H2 & H3 & H4 & H5 & H6 & H7 & H8 & H9 & _).
  unfold newDecoder. assert (forall b, binaryReadUvarint ([0] ++ b) = (Ok 0, b)) as -> by done.
  rewrite !fmap_cons, fmap_nil, !mjoin_cons, <- !(assoc_L (++)). by rewrite !readV2Column_framed.
Qed.

Lemma framed_length col : (length col <= length (framed col))%nat.
Proof. unfold framed. rewrite length_app. lia. Qed.

Lemma mjoin_le {A} (l : list (list A)) x : x ∈ l -> (length x <= length (mjoin l))%nat.
Proof. intros (l1 & l2 & ->)%list_elem_of_split. rewrite join_app, mjoin_cons, !length_app. lia. Qed.

Lemma bind_length {A B} (p : A -> list B) l : (forall x, (length (p x) <= 1)%nat) -> (length (l ≫= p) <= length l)%nat.
Proof. intros Hp. induction l as [|x l IH]; [done|]. rewrite bind_cons, length_app. specialize (Hp x). simpl. lia. Qed.

Lemma bind_Forall {A B} (p : A -> list B) (P : A -> Prop) (Q : B -> Prop) l : Forall P l -> (forall x, P x -> Forall Q (p x)) -> Forall Q (l ≫= p).
Proof. intros Hl Hp. induction Hl as [|x l Hx _ IH]; [constructor|]. rewrite bind_cons. apply Forall_app. auto. Qed.

(** A clock column of safe clocks is accepted and read back. *)
Lemma clock_column xs : Forall is_safe xs -> Z.of_nat (length xs) <= maxRleRunCount ->
  exists c bs, IntDiffOptRle.writeAll xs IntDiffOptRle.newIntDiffOptRLEEncoder = Ok c /\ IntDiffOptRle.bytes c = Ok bs /\
    column IntDiffOptRle.readValue (IntDiffOptRle.newIntDiffOptRLEDecoder bs) xs.
Proof.
  intros Hxs Hl. destruct (IntDiffOptRle.diff_encode_decode xs) as (bs & d & He & Hd); [|done|].
  { eapply Forall_impl; [|exact Hxs]. intros x. unfold is_safe, maxSafeInteger, IntDiffOptRle.value_ok. lia. }
  unfold IntDiffOptRle.encode in He. destruct (IntDiffOptRle.writeAll xs _) as [c|] eqn:Ec; [|done]. exists c, bs. split_and!; [done|done|]. by exists d.
Qed.

Lemma uint_column xs : Forall is_u64 xs -> Z.of_nat (length xs) <= maxRleRunCount ->
  column UintOptRle.readValue (UintOptRle.newUintOptRLEDecoder (UintOptRle.bytes (fold_left UintOptRle.writeValue xs UintOptRle.newUintOptRLEEncoder))) xs.
Proof. intros. by apply UintOptRle.uint_encode_decode. Qed.

Lemma byte_column xs : Z.of_nat (length xs) <= maxRleRunCount ->
  column Rle.readValue (Rle.newRLEDecoder (Rle.bytes (fold_left Rle.writeValue xs Rle.newRLEEncoder))) xs.
Proof. intros. by apply Rle.rle_encode_decode. Qed.

Lemma key_clocks_safe fs : Z.of_nat (length fs) <= maxRleRunCount -> Forall is_safe (key_clocks 0 fs) /\ Z.of_nat (length (key_clocks 0 fs)) <= maxRleRunCount.
Proof.
  intros Hl. pose proof (bind_length p_key fs ltac:(intros []; simpl; lia)). unfold key_clocks. rewrite length_seqZ. split; [|lia].
  apply Forall_seqZ. intros x Hx. unfold is_safe, maxSafeInteger, maxRleRunCount, maxInt32 in *. lia.
Qed.

(** The projections of well-formed fields are well formed. *)
Lemma projections_ok fs json_ok : Forall (field_ok json_ok) fs ->
  Forall is_u64 (fs ≫= p_client) /\ Forall is_safe (fs ≫= p_left) /\ Forall is_safe (fs ≫= p_right) /\
  Forall valid (fs ≫= p_string) /\ Forall is_u64 (fs ≫= p_type) /\ Forall is_u64 (fs ≫= p_len).
Proof.
  intros Hfs. split_and!; (eapply bind_Forall; [exact Hfs|]); intros [] Hf; cbn in *; try apply Forall_nil_2; apply Forall_singleton;
    unfold id_ok, is_byte, is_u64 in *; try destruct Hf; (done || lia || apply safe_is_u64; done).
Qed.

Definition sameV2 (e e2 : E) : Prop := e_cols e2 = e_cols e /\ e_err e2 = e_err e.

Lemma v2_holds fs e e2 tail : Forall (field_ok value_fits) fs -> Z.of_nat (length fs) <= maxRleRunCount ->
  written fs newEncoder e -> sameV2 e e2 -> V2.rest (e_ds e2) = V2.rest (e_ds e) ++ tail -> Z.of_nat (length (toBytesV e2).1) < 2 ^ 64 ->
  (toBytesV e2).2 = None /\ holds fs tail (newDecoder (toBytesV e2).1).
Proof.
  intros Hfs Hn W [Ec Ee] Er Hb. destruct (projections_ok fs _ Hfs) as (Pc & Pl & Pr & Ps & Pt & Pn).
  assert (Hp : forall (B : Type) (p : field -> list B), (forall x, (length (p x) <= 1)%nat) -> Z.of_nat (length (fs ≫= p)) <= maxRleRunCount).
  { intros B p Hp. pose proof (bind_length p fs Hp). lia. }
  destruct (key_clocks_safe fs Hn) as [Pk Pk'].
  destruct (clock_column (fs ≫= p_left)) as (cl & bl & Wl & Bl & Rl); [done|apply Hp; intros []; simpl; lia|].
  destruct (clock_column (fs ≫= p_right)) as (cr & br & Wr & Br & Rr); [done|apply Hp; intros []; simpl; lia|].
  destruct (clock_column (key_clocks 0 fs)) as (ck & bk & Wk & Bk & Rk); [done|done|].
  destruct W. cbn [newEncoder e_ds e_cols newColumns c_client c_leftClock c_rightClock c_keyClock c_info c_string c_parentInfo c_typeRef c_len e_keyClock e_keyMap e_err V2.rest V2.dsCurrVal] in *.
  rewrite Wl in w_left0. rewrite Wr in w_right0. rewrite Wk in w_key0. injection w_left0 as Hl'. injection w_right0 as Hr'. injection w_key0 as Hk'.
  assert (Ebytes : toBytesV e2 = ([0] ++ mjoin (framed <$> [bk; UintOptRle.bytes (c_client (e_cols e)); bl; br; Rle.bytes (c_info (e_cols e));
     stringBytes (c_string (e_cols e)); Rle.bytes (c_parentInfo (e_cols e)); UintOptRle.bytes (c_typeRef (e_cols e)); UintOptRle.bytes (c_len (e_cols e))])
     ++ V2.rest (e_ds e2), None)).
  { unfold toBytesV. rewrite Ec, Ee, w_err0, <- Hl', <- Hr', <- Hk', Bk. cbn [flushColumn]. rewrite Bl. cbn [flushColumn]. rewrite Br. done. }
  rewrite Ebytes in *. cbn [fst snd] in *. split; [done|].
  set (cols := [bk; UintOptRle.bytes (c_client (e_cols e)); bl; br; Rle.bytes (c_info (e_cols e));
     stringBytes (c_string (e_cols e)); Rle.bytes (c_parentInfo (e_cols e)); UintOptRle.bytes (c_typeRef (e_cols e)); UintOptRle.bytes (c_len (e_cols e))]) in *.
  assert (Hcols : Forall (fun col => Z.of_nat (length col) < 2 ^ 64) cols).
  { apply list.Forall_forall. intros col Hc. pose proof (framed_length col). rewrite !length_app in Hb.
    pose proof (mjoin_le (framed <$> cols) (framed col) ltac:(by apply list_elem_of_fmap_2)). lia. }
  unfold cols at 1. rewrite newDecoder_columns by exact Hcols.
  assert (Htext : Z.of_nat (length (mjoin (fs ≫= p_string))) < 2 ^ 64).
  { rewrite list.Forall_forall in Hcols. assert (stringBytes (c_string (e_cols e)) ∈ cols) as Hin by (unfold cols; set_solver).
    specialize (Hcols _ Hin). unfold stringBytes in Hcols. rewrite w_string0, fold_strings in Hcols. cbn [se_text] in Hcols. rewrite !length_app in Hcols. simpl in Hcols. lia. }
  constructor; cbn [d_ds d_cols d_keys V2.d_rest V2.d_dsCurrVal r_keyClock r_client r_leftClock r_rightClock r_info r_string r_parentInfo r_typeRef r_len].
  - rewrite Er, w_rest0. done.
  - done.
  - rewrite w_client0. apply uint_column; [done|]. apply Hp. intros []; simpl; lia.
  - done.
  - done.
  - exact Rk.
  - rewrite w_info0. apply byte_column. apply Hp. intros []; simpl; lia.
  - rewrite w_string0. apply string_encode_decode; [done| |done]. apply Hp. intros []; simpl; lia.
  - rewrite w_parent0. apply byte_column. apply Hp. intros []; simpl; lia.
  - rewrite w_type0. apply uint_column; [done|]. apply Hp. intros []; simpl; lia.
  - rewrite w_len0. apply uint_column; [done|]. apply Hp. intros []; simpl; lia.
Qed.

#[global] Program Instance dsCodecV2 (d : D) : DSCodec E D := {|
  cur e := V2.dsCurrVal (e_ds e);
  mk b c := mkDec (V2.mkDec b c) (d_cols d) (d_keys d)
|}.
Solve Obligations with try done.
Next Obligation.
  intros d e v Hv. destruct (rest_law (DSCodec := codecV2) (e_ds e) v Hv) as (bs & H1 & H2 & H3 & H4).
  exists bs. split_and!; [done|done|done|]. intros rest c. specialize (H4 rest c). cbn [readRestVarUint dsDecoder]. unfold on_ds. cbn [d_ds].
  cbn [mk codecV2] in H4. by rewrite H4.
Qed.
Next Obligation.
  intros d e it Hf. destruct (item_law (DSCodec := codecV2) (e_ds e) it Hf) as (bs & e' & H1 & H2 & H3 & H4 & H5).
  exists bs, (with_ds e' e). split_and!; [|done|apply H3|apply H3|done|].
  - cbn [encDSLength encDSClock dsEncoder]. cbn [e_ds with_ds]. rewrite H1. done.
  - intros rest. specialize (H5 rest). unfold readItem in *. cbn [decDSClock decDSLength dsDecoder]. unfold rbind, on_ds in *. cbn [d_ds] in *.
    cbn [mk codecV2 cur e_ds with_ds] in *.
    destruct (decDSClock (V2.mkDec (bs ++ rest) (V2.dsCurrVal (e_ds e)))) as [[clock|] d1]; [|done]. cbn [d_ds].
    destruct (decDSLength d1) as [[len|] d2]; [|done]. unfold rret in *. injection H5 as <- ->. done.
Qed.

#[global] Program Instance updateCodecV2 : UpdateCodec E D := {|
  newE := newEncoder;
  newD := newDecoder;
  json_ok := value_fits;
  json_form := readBack;
  same_columns := sameV2;
  codec_ds := dsCodecV2
|}.
Solve Obligations with try done.
Next Obligation. intros e1 e2 e3 [E1 E2] [E3 E4]. split; congruence. Qed.
Next Obligation. intros e v e' He. cbn in He. destruct (V2.writeDSLength (e_ds e) v); [|done]. by injection He as <-. Qed.
Next Obligation.
  intros fs [Hfs Hn]. destruct (v2_writeFields value_fits fs newEncoder Hfs) as (e & Ew & W).
  - destruct (projections_ok fs _ Hfs) as (_ & Pl & Pr & _). destruct (key_clocks_safe fs Hn) as [Pk Pk'].
    assert (Hp : forall p : field -> list Z, (forall x, (length (p x) <= 1)%nat) -> Z.of_nat (length (fs ≫= p)) <= maxRleRunCount).
    { intros p Hp. pose proof (bind_length p fs Hp). lia. }
    destruct (clock_column (fs ≫= p_left)) as (cl & bl & Wl & _); [done|apply Hp; intros []; simpl; lia|].
    destruct (clock_column (fs ≫= p_right)) as (cr & br & Wr & _); [done|apply Hp; intros []; simpl; lia|].
    destruct (clock_column (key_clocks 0 fs)) as (ck & bk & Wk & _); [done|done|]. split_and!; by eexists.
  - done.
  - exists e. split; [done|]. intros e2 tail Hs Er Hb. destruct (v2_holds fs e e2 tail Hfs Hn W Hs Er Hb) as [He Hh]. split; [done|].
    destruct (v2_delivers fs tail _ Hfs Hh) as (d' & Hd & Eds). exists d', 0. split; [done|]. cbn. destruct d'. simpl in *. by subst.
Qed.

End CodecV2.

(** Writing a delete set only touches the rest buffer. *)
Section SameColumns.
Context {E D : Type} `{UpdateCodec E D}.

Lemma writeItems_same items : forall (e e' : E), writeItems e items = Ok e' -> same_columns e e'.
Proof.
  induction items as [|it items IH]; intros e e' He; simpl in He; [injection He as <-; apply same_refl|].
  destruct (encDSLength _ _) as [e1|] eqn:E1; [|done].
  eapply same_trans; [apply same_clock|]. eapply same_trans; [by eapply same_length|]. by apply IH.
Qed.

Lemma writeClients_same ds cs : forall (e e' : E), writeClients ds e cs = Ok e' -> same_columns e e'.
Proof.
  induction cs as [|c cs IH]; intros e e' He; simpl in He; [injection He as <-; apply same_refl|].
  destruct (writeItems _ _) as [e1|] eqn:E1; [|done]. apply IH in He. apply writeItems_same in E1.
  eapply same_trans; [apply same_reset|]. eapply same_trans; [apply same_rest|]. eapply same_trans; [apply same_rest|].
  eapply same_trans; [exact E1|exact He].
Qed.

Lemma writeDeleteSet_same ods (e e' : E) : writeDeleteSet e ods = Ok e' -> same_columns e e'.
Proof.
  destruct ods as [ds|]; simpl; [|intros [= <-]; apply same_rest]. intros He%writeClients_same.
  eapply same_trans; [apply same_rest|exact He].
Qed.

(** Fields followed by a delete set: an update. *)
Lemma update_roundtrip fs ds : fields_ok json_ok fs -> ds_fits ds ->
  exists e e' : E, writeFields fs newE = (Ok tt, e) /\ writeDeleteSet e (Some ds) = Ok e' /\
    (Z.of_nat (length (toBytes e').1) < 2 ^ 64 -> (toBytes e').2 = None /\
      exists d d', delivers json_form (newD (toBytes e').1) fs d /\ readDeleteSet d = (Ok (decoded ds), d') /\ dec_rest d' = []).
Proof.
  intros Hfs Hds. destruct (codec_roundtrip fs Hfs) as (e & Ew & Hr). exists e.
  assert (d0 : D) by exact (newD []).
  destruct (deleteSet_roundtrip (H1 := codec_ds d0) ds e Hds) as (bs & e' & Ed & Er & _). exists e'. split_and!; [done|done|].
  intros Hb. destruct (Hr e' bs (writeDeleteSet_same _ _ _ Ed) Er Hb) as (He & d & c & Hd & Emk). split; [done|].
  destruct (deleteSet_roundtrip (H1 := codec_ds d) ds e Hds) as (bs' & e'' & Ed' & Er' & Hrd). rewrite Ed in Ed'. injection Ed' as <-.
  assert (bs' = bs) as -> by (apply (app_inv_head (enc_rest e)); congruence).
  destruct (Hrd [] c) as (c' & E1 & _). rewrite app_nil_r, <- Emk in E1. exists d. eexists. split_and!; [done|done|apply mk_rest].
Qed.

End SameColumns.
