(* ===== verification/Content.v ===== *)
(** * Item contents

    The nine kinds of [itemContent] (crdt/content_types.go) and their
    operations that need no document: length, countability, splitting and
    merging.  A method is a definition per kind that has one of its own,
    dispatched by the constructor.  A string is its bytes; that the indexed
    split of long strings agrees with the plain one used here is the subject of
    file [TextIndex]. *)
From stdpp Require Import list.
From Stdlib Require Import ZArith Lia.
From S2P Require Import Prelude Text.
Open Scope Z_scope.

(** [spliceArrayAny]: [None] is the slice bounds panic. *)
Definition spliceArrayAny {V} (arr : list V) (offset : Z) : option (list V * list V) :=
  if (0 <=? offset) && (offset <=? Z.of_nat (length arr))
  then Some (take (Z.to_nat offset) arr, drop (Z.to_nat offset) arr) else None.

Section Content.
Context {V T D : Type}.

(** [V] are the data values, [T] the nested types and [D] the subdocuments: in a
    document they are references into it, in an update they are what it says of
    them. *)
Inductive itemContent : Type :=
| contentAny (arr : list V)
| contentBinary (value : list Z)
| contentDeleted (length : Z)
| contentDoc (doc : D)
| contentEmbed (embed : V)
| contentFormat (key : gostring) (value : V)
| contentJSON (arr : list V)
| contentString (value : list Z)
| contentType (value : T).

(** ** Length *)

(** [contentString.contentLength] also stores the normalised value back. *)
Definition stringContentLength (value : list Z) : Z := (normalizeTextUTF8WithLength value).2.
Definition normalizeContent (c : itemContent) : itemContent :=
  match c with contentString value => contentString (normalizeTextUTF8 value) | _ => c end.

Definition contentLength (c : itemContent) : Z :=
  match c with
  | contentAny arr | contentJSON arr => Z.of_nat (length arr)
  | contentString value => stringContentLength value
  | contentDeleted n => n
  | contentBinary _ | contentDoc _ | contentEmbed _ | contentFormat _ _ | contentType _ => 1
  end.

Definition isCountable (c : itemContent) : bool :=
  match c with contentDeleted _ | contentFormat _ _ => false | _ => true end.

Definition contentRef (c : itemContent) : Z :=
  match c with
  | contentDeleted _ => 1
  | contentJSON _ => 2
  | contentBinary _ => 3
  | contentString _ => 4
  | contentEmbed _ => 5
  | contentFormat _ _ => 6
  | contentType _ => 7
  | contentAny _ => 8
  | contentDoc _ => 9
  end.

(** ** Splitting: what stays in the receiver and the content returned *)
Definition spliceAny (arr : list V) (offset : Z) : option (itemContent * itemContent) :=
  match spliceArrayAny arr offset with Some (l, r) => Some (contentAny l, contentAny r) | None => None end.
Definition spliceJSON (arr : list V) (offset : Z) : option (itemContent * itemContent) :=
  match spliceArrayAny arr offset with Some (l, r) => Some (contentJSON l, contentJSON r) | None => None end.
Definition spliceString (value : list Z) (offset : Z) : option (itemContent * itemContent) :=
  match splitStringUTF16 value offset with Some (l, r) => Some (contentString l, contentString r) | None => None end.
Definition spliceDeleted (n offset : Z) : option (itemContent * itemContent) :=
  let offset := if n <? offset then n else offset in
  Some (contentDeleted offset, contentDeleted (n - offset)).

(** [None] is a panic, or the nil content of the kinds of length one, which the
    callers dereference. *)
Definition spliceContent (c : itemContent) (offset : Z) : option (itemContent * itemContent) :=
  match c with
  | contentAny arr => spliceAny arr offset
  | contentJSON arr => spliceJSON arr offset
  | contentString value => spliceString value offset
  | contentDeleted n => spliceDeleted n offset
  | _ => None
  end.

(** ** Merging: the merged receiver, or [None] for [false] *)
Definition mergeAny (arr : list V) (right : itemContent) : option itemContent :=
  match right with contentAny r => Some (contentAny (arr ++ r)) | _ => None end.
Definition mergeJSON (arr : list V) (right : itemContent) : option itemContent :=
  match right with contentJSON r => Some (contentJSON (arr ++ r)) | _ => None end.
Definition mergeStringContent (value : list Z) (right : itemContent) : option itemContent :=
  match right with contentString r => Some (contentString (mergeString value r)) | _ => None end.
Definition mergeDeleted (n : Z) (right : itemContent) : option itemContent :=
  match right with contentDeleted r => Some (contentDeleted (n + r)) | _ => None end.

Definition mergeContentWith (c right : itemContent) : option itemContent :=
  match c with
  | contentAny l => mergeAny l right
  | contentJSON l => mergeJSON l right
  | contentString l => mergeStringContent l right
  | contentDeleted l => mergeDeleted l right
  | _ => None
  end.

(** [isSameType]: the dynamic types agree. *)
Definition isSameType (a b : itemContent) : bool := contentRef a =? contentRef b.

(** ** Well-formed contents: strings are valid UTF-8, lengths are not negative *)
Definition content_ok (c : itemContent) : Prop :=
  match c with contentString value => valid value | contentDeleted n => 0 <= n | _ => True end.

Lemma stringContentLength_valid value : valid value -> stringContentLength value = Z.of_nat (length (utf16 value)).
Proof.
  intros (rs & H & ->). unfold stringContentLength. rewrite normalize_replace by apply utf8_bytes. cbn [snd].
  unfold replaceMalformedUTF8. rewrite <- (app_nil_r (utf8 rs)) at 1. rewrite replaceLoop_utf8 by done. cbn [replaceLoop u_needed utf8Init Z.eqb].
  by rewrite app_nil_r, stringLength_utf8, utf16_utf8, units_length.
Qed.

Lemma splitUnits_length us offset l r : splitUnits us offset = (l, r) ->
  length l = (offset `min` length us)%nat /\ length r = (length us - offset)%nat.
Proof.
  unfold splitUnits. destruct (list.last (take offset us)) as [h|] eqn:El; last first.
  { intros [= <- <-]. by rewrite length_take, length_drop. }
  assert (Hpos : (1 <= offset `min` length us)%nat) by (rewrite <- length_take; destruct (take offset us); [done|simpl; lia]).
  destruct (drop offset us) as [|w r'] eqn:Ed.
  { intros [= <- <-]. rewrite length_take. split; [done|]. rewrite <- length_drop, Ed. done. }
  assert (Hr : length (w :: r') = (length us - offset)%nat) by (by rewrite <- Ed, length_drop).
  destruct (isHigh h && isLow w); intros [= <- <-]; rewrite ?length_app, length_take; simpl in *; lia.
Qed.

Lemma splice_string value offset : valid value -> 0 <= offset ->
  exists l r, spliceString value offset = Some (contentString l, contentString r) /\ valid l /\ valid r /\
    splitUnits (utf16 value) (Z.to_nat offset) = (utf16 l, utf16 r).
Proof.
  intros (rs & Hrs & ->) Ho. unfold spliceString, splitStringUTF16. destruct (split_cut rs offset Hrs Ho) as ([[l r] b] & -> & Hc).
  destruct (cut_units rs offset l r b Hrs Ho Hc) as (ls & rr & H1 & H2 & -> & -> & Hu & _).
  exists (utf8 ls), (utf8 rr). rewrite !utf16_utf8 by done. split_and!; [done|by exists ls|by exists rr|done].
Qed.

(** A content longer than one element splits anywhere. *)
Lemma splice_total c offset : content_ok c -> 1 < contentLength c -> 0 <= offset <= contentLength c ->
  exists l r, spliceContent c offset = Some (l, r) /\ content_ok l /\ content_ok r /\
    contentLength l = offset /\ contentLength r = contentLength c - offset /\
    isCountable l = isCountable c /\ isCountable r = isCountable c /\ contentRef l = contentRef c /\ contentRef r = contentRef c.
Proof.
  destruct c as [arr|?|n|?|?|? ?|arr|value|?]; cbn [content_ok contentLength spliceContent]; intros Hok Hlen Ho; try lia.
  - unfold spliceAny, spliceArrayAny. destruct (Z.leb_spec 0 offset), (Z.leb_spec offset (Z.of_nat (length arr))); try lia.
    do 2 eexists. split; [done|]. cbn. rewrite length_take, length_drop. split_and!; (done || lia).
  - unfold spliceDeleted. destruct (Z.ltb_spec n offset); [lia|]. do 2 eexists. split; [done|]. cbn. split_and!; (done || lia).
  - unfold spliceJSON, spliceArrayAny. destruct (Z.leb_spec 0 offset), (Z.leb_spec offset (Z.of_nat (length arr))); try lia.
    do 2 eexists. split; [done|]. cbn. rewrite length_take, length_drop. split_and!; (done || lia).
  - destruct (splice_string value offset Hok ltac:(lia)) as (l & r & -> & Hl & Hr & Hu). do 2 eexists. split; [done|]. cbn.
    rewrite !stringContentLength_valid in * by done. destruct (splitUnits_length _ _ _ _ Hu). split_and!; (done || lia).
Qed.

(** A cut that does not halve a surrogate pair. *)
Definition cleanCut (c : itemContent) (offset : Z) : Prop :=
  match c with
  | contentString value => exists l r, splitStringUTF16AtBoundary value offset = Some (l, r, true)
  | _ => True
  end.

Lemma boundary_app value offset l r : valid value -> 0 <= offset -> splitStringUTF16AtBoundary value offset = Some (l, r, true) -> l ++ r = value.
Proof.
  intros (rs & Hrs & ->) Ho E. destruct (split_cut rs offset Hrs Ho) as (res & E' & Hc). rewrite E in E'. injection E' as <-.
  destruct (cut_units rs offset l r true Hrs Ho Hc) as (_ & _ & _ & _ & _ & _ & _ & H). by apply H.
Qed.

Lemma splice_merge c offset l r : content_ok c -> 0 <= offset -> cleanCut c offset -> spliceContent c offset = Some (l, r) ->
  mergeContentWith l r = Some c.
Proof.
  destruct c as [arr|?|n|?|?|? ?|arr|value|?]; cbn [content_ok spliceContent cleanCut]; try done; intros Hok Ho Hc Hs.
  - unfold spliceAny, spliceArrayAny in Hs. destruct (_ && _); simplify_eq/=. by rewrite take_drop.
  - unfold spliceDeleted in Hs. destruct (Z.ltb_spec n offset); simplify_eq/=; do 2 f_equal; lia.
  - unfold spliceJSON, spliceArrayAny in Hs. destruct (_ && _); simplify_eq/=. by rewrite take_drop.
  - destruct Hc as (a & b & E). unfold spliceString, splitStringUTF16 in Hs. rewrite E in Hs. simplify_eq/=. unfold mergeString.
    by rewrite (boundary_app value offset a b).
Qed.

Lemma merge_lengths c r c' : content_ok c -> content_ok r -> mergeContentWith c r = Some c' ->
  content_ok c' /\ contentLength c' = contentLength c + contentLength r /\ isCountable c' = isCountable c /\ contentRef c' = contentRef c.
Proof.
  destruct c, r; simpl; intros Hc Hr E; simplify_eq/=; rewrite ?length_app; split_and!; try (done || lia).
  - unfold mergeString. auto with text.
  - unfold mergeString. rewrite !stringContentLength_valid by auto with text. destruct Hc as (r1 & H1 & ->), Hr as (r2 & H2 & ->).
    rewrite <- utf8_app, !utf16_utf8 by (try apply Forall_app; done). rewrite units_app, length_app. lia.
Qed.

End Content.
Arguments itemContent V T D : clear implicits.
