(* ===== verification/StructCodec.v ===== *)
(** * Structs on the wire

    Models how one struct is written ([writeStruct] of item.go, gc.go and
    skip.go, [writeContent] of every content kind, [writeType] of the shared
    types) and read ([structDecoder.decode] of struct_decode.go, the content
    readers of content_types.go) over the [updateEncoder] / [updateDecoder]
    interfaces, so for both formats at once. A struct of an update refers to
    nothing in a document: a root parent is its name, a nested type its kind, a
    subdocument its guid and options. *)
From S2P Require Import Prelude Lib0 Rle Object Any Text StringColumn StructStore DeleteSet DeleteSetCodec UpdateCodec Content.

(** ** Data *)

(** The shared types by their type reference. *)
Inductive wireType : Type :=
| YArray
| YMap
| YText
| YXmlElement (nodeName : gostring)
| YXmlFragment
| YXmlHook (hookName : gostring)
| YXmlText.

(** The parts of a [Doc] that a [contentDoc] carries; a nil [Meta] is [ANil]. *)
Record subdoc := mkSubdoc { doc_guid : gostring; doc_gc : bool; doc_autoLoad : bool; doc_meta : any }.

Abbreviation wireContent := (itemContent any wireType subdoc).

(** A parent in an update: none, a root type by name ([*yString]), or the id of
    the item that holds the type. *)
Inductive wireParent : Type :=
| NoParent
| ParentKey (name : gostring)
| ParentItem (id : ID).

Record wireItem := mkWire {
  w_id : ID;
  w_length : Z;
  w_origin : option ID;
  w_rightOrigin : option ID;
  w_parent : wireParent;
  w_parentSub : gostring;
  w_content : wireContent
}.

Inductive wireStruct : Type :=
| WItem (it : wireItem)
| WGC (gc : gcStruct)
| WSkip (s : skipStruct).

#[global] Instance wire_struct : AbstractStruct wireStruct := {|
  getID s := match s with WItem it => w_id it | WGC gc => gc_id gc | WSkip s => skip_id s end;
  structLength s := match s with WItem it => w_length it | WGC gc => gc_length gc | WSkip s => skip_length s end;
  structDeleted s := match s with WItem _ => false | _ => true end
|}.

(** ** Subdocument options *)

(** The keys [gc], [autoLoad] and [meta]. *)
Definition optKeyGC : gostring := [103; 99].
Definition optKeyAutoLoad : gostring := [97; 117; 116; 111; 76; 111; 97; 100].
Definition optKeyMeta : gostring := [109; 101; 116; 97].

Definition is_nil (v : any) : bool := match v with ANil => true | _ => false end.

(** [newContentDoc]: only options that differ from the default are stored. *)
Definition docOpts (doc : subdoc) : list (gostring * any) :=
  let opts := [] in
  let opts := if negb (doc_gc doc) then aset opts optKeyGC (ABool false) else opts in
  let opts := if doc_autoLoad doc then aset opts optKeyAutoLoad (ABool true) else opts in
  if negb (is_nil (doc_meta doc)) then aset opts optKeyMeta (doc_meta doc) else opts.

(** [opts.GetOr(key).(bool)] with its default. *)
Definition getBool (opts : list (gostring * any)) (key : gostring) (dflt : bool) : bool :=
  match aget opts key with Some (ABool b) => b | _ => dflt end.

Definition newSubdocFromOpts (guid : gostring) (opts : list (gostring * any)) : subdoc :=
  mkSubdoc guid (getBool opts optKeyGC true) (getBool opts optKeyAutoLoad false) (default ANil (aget opts optKeyMeta)).

(** ** Writing *)
Section Write.
Context {E : Type} `{UpdateEncoder E} `{JSONText}.

Fixpoint forEach {A} (f : A -> step E unit) (l : list A) : step E unit :=
  match l with [] => rret tt | x :: l' => _ <-- f x;;; forEach f l' end.

Definition typeRef (t : wireType) : Z :=
  match t with
  | YArray => 0 | YMap => 1 | YText => 2 | YXmlElement _ => 3 | YXmlFragment => 4 | YXmlHook _ => 5 | YXmlText => 6
  end.

Definition writeType (t : wireType) : step E unit :=
  _ <-- writeTypeRef (typeRef t);;;
  match t with YXmlElement name | YXmlHook name => writeKey name | _ => rret tt end.

Definition keywordUndefined : gostring := [117; 110; 100; 101; 102; 105; 110; 101; 100].

Definition writeJSONElement (v : any) : step E unit :=
  if isUndefined v then writeStringValue keywordUndefined
  else match marshalJSONOrdered v with Ok data => writeStringValue data | Err e => rfail e end.

(** The elements from [offset] on; a negative index panics. *)
Definition writeElements (f : any -> step E unit) (arr : list any) (offset : Z) : step E unit :=
  if offset <? 0 then rfail ErrPanic else forEach f (drop (Z.to_nat offset) arr).

(** [writeContent] of every content kind. *)
Definition writeContentAny (arr : list any) (offset : Z) : step E unit :=
  if Z.of_nat (length arr) <? offset then rfail ErrMalformed
  else _ <-- writeLength (Z.of_nat (length arr) - offset);;; writeElements writeAnyValue arr offset.
Definition writeContentBinary (value : list Z) : step E unit := writeBuffer value.
Definition writeContentDeleted (n offset : Z) : step E unit :=
  if n <? offset then rfail ErrMalformed else writeLength (n - offset).
Definition writeContentDoc (doc : subdoc) : step E unit :=
  _ <-- writeStringValue (doc_guid doc);;; writeAnyValue (AObject (docOpts doc)).
Definition writeContentEmbed (embed : any) : step E unit := writeJSONValue embed.
Definition writeContentFormat (key : gostring) (value : any) : step E unit := _ <-- writeKey key;;; writeJSONValue value.
Definition writeContentJSON (arr : list any) (offset : Z) : step E unit :=
  _ <-- writeLength (Z.of_nat (length arr) - offset);;; writeElements writeJSONElement arr offset.
Definition writeContentString (value : gostring) (offset : Z) : step E unit :=
  if offset =? 0 then writeStringValue value
  else match stringTail value offset with Some tl => writeStringValue tl | None => rfail ErrPanic end.
Definition writeContentType (t : wireType) : step E unit := writeType t.

Definition writeContent (c : wireContent) (offset : Z) : step E unit :=
  match c with
  | contentAny arr => writeContentAny arr offset
  | contentBinary value => writeContentBinary value
  | contentDeleted n => writeContentDeleted n offset
  | contentDoc doc => writeContentDoc doc
  | contentEmbed embed => writeContentEmbed embed
  | contentFormat key value => writeContentFormat key value
  | contentJSON arr => writeContentJSON arr offset
  | contentString value => writeContentString value offset
  | contentType t => writeContentType t
  end.

Definition bit6 : Z := 32.

(** The info byte of an item. *)
Definition itemInfo (c : wireContent) (origin rightOrigin : option ID) (parentSub : gostring) : Z :=
  let info := Z.land (contentRef c) 31 in
  let info := match origin with Some _ => Z.lor info bit8 | None => info end in
  let info := match rightOrigin with Some _ => Z.lor info bit7 | None => info end in
  if bool_decide (parentSub <> []) then Z.lor info bit6 else info.

Definition writeItem (item : wireItem) (offset : Z) : step E unit :=
  let origin := if 0 <? offset then Some (GenID (Client (w_id item)) (Clock (w_id item) + offset - 1)) else w_origin item in
  let rightOrigin := w_rightOrigin item in
  let parentSub := w_parentSub item in
  _ <-- writeInfo (itemInfo (w_content item) origin rightOrigin parentSub);;;
  _ <-- (match origin with Some id => writeLeftID id | None => rret tt end);;;
  _ <-- (match rightOrigin with Some id => writeRightID id | None => rret tt end);;;
  _ <-- (match origin, rightOrigin with
         | None, None =>
             _ <-- (match w_parent item with
                    | ParentKey name => _ <-- writeParentInfo true;;; writeStringValue name
                    | ParentItem id => _ <-- writeParentInfo false;;; writeLeftID id
                    | NoParent => rfail ErrMalformed
                    end);;;
             if bool_decide (parentSub <> []) then writeStringValue parentSub else rret tt
         | _, _ => rret tt
         end);;;
  writeContent (w_content item) offset.

Definition structGCRefNumber : Z := 0.
Definition structSkipRefNumber : Z := 10.

Definition writeGC (gc : gcStruct) (offset : Z) : step E unit :=
  _ <-- writeInfo structGCRefNumber;;; writeLength (gc_length gc - offset).
Definition writeSkip (s : skipStruct) (offset : Z) : step E unit :=
  _ <-- writeInfo structSkipRefNumber;;; writeRest (u64 (skip_length s - offset)).

Definition writeStruct (s : wireStruct) (offset : Z) : step E unit :=
  match s with
  | WItem item => writeItem item offset
  | WGC gc => writeGC gc offset
  | WSkip s => writeSkip s offset
  end.

End Write.

(** ** Reading *)
Section Read.
Context {D : Type} `{UpdateDecoder D} `{JSONText}.

Definition readContentAny : step D wireContent :=
  length <-- readLength;;; arr <-- rtimes (Z.to_nat length) readAnyValue;;; rret (contentAny arr).
Definition readContentBinary : step D wireContent := bs <-- readBuffer;;; rret (contentBinary bs).
Definition readContentDeleted : step D wireContent := length <-- readLength;;; rret (contentDeleted length).
Definition readContentDoc : step D wireContent :=
  guid <-- readString;;;
  opts <-- readAnyValue;;;
  match opts with AObject opts => rret (contentDoc (newSubdocFromOpts guid opts)) | _ => rfail ErrMalformed end.
Definition readContentEmbed : step D wireContent := embed <-- readJSONValue;;; rret (contentEmbed embed).
Definition readContentFormat : step D wireContent := key <-- readKey;;; value <-- readJSONValue;;; rret (contentFormat key value).
Definition readJSONElement : step D any :=
  c <-- readString;;; if bool_decide (c = keywordUndefined) then rret AUndefined else rlift (unmarshalJSONOrdered c).
Definition readContentJSON : step D wireContent :=
  length <-- readLength;;; arr <-- rtimes (Z.to_nat length) readJSONElement;;; rret (contentJSON arr).
Definition readContentString : step D wireContent := s <-- readString;;; rret (contentString s).

(** [typeRefs]; [None] is an index out of the table. *)
Definition typeRefs (ref : Z) : option (step D wireType) :=
  if ref =? 0 then Some (rret YArray)
  else if ref =? 1 then Some (rret YMap)
  else if ref =? 2 then Some (rret YText)
  else if ref =? 3 then Some (key <-- readKey;;; rret (YXmlElement key))
  else if ref =? 4 then Some (rret YXmlFragment)
  else if ref =? 5 then Some (key <-- readKey;;; rret (YXmlHook key))
  else if ref =? 6 then Some (rret YXmlText)
  else None.
Definition readContentType : step D wireContent :=
  ref <-- readTypeRef;;;
  match typeRefs ref with Some rd => t <-- rd;;; rret (contentType t) | None => rfail ErrTag end.

(** [contentRefs], for the references that are contents. *)
Definition contentRefs (refID : Z) : step D wireContent :=
  if refID =? 1 then readContentDeleted
  else if refID =? 2 then readContentJSON
  else if refID =? 3 then readContentBinary
  else if refID =? 4 then readContentString
  else if refID =? 5 then readContentEmbed
  else if refID =? 6 then readContentFormat
  else if refID =? 7 then readContentType
  else if refID =? 8 then readContentAny
  else if refID =? 9 then readContentDoc
  else if refID =? 0 then rfail ErrUnexpectedCase
  else if refID =? 10 then rfail ErrUnexpectedCase
  else rfail ErrTag.

Definition when {A} (b : bool) (m : step D A) : step D (option A) := if b then x <-- m;;; rret (Some x) else rret None.

(** [structDecoder.decode]: the struct and the clock after it. The eager mode
    differs in that it resolves a root parent in the document at once. *)
Definition decode (info client clock : Z) : step D (option wireStruct * Z) :=
  let refID := Z.land info 31 in
  if refID =? structGCRefNumber then
    length <-- readLength;;;
    if length =? 0 then rret (None, clock)
    else nextClock <-- rlift (addClock clock length);;; rret (Some (WGC (newGC (GenID client clock) length)), nextClock)
  else if refID =? structSkipRefNumber then
    length <-- readRestNumber;;;
    nextClock <-- rlift (addClock clock length);;; rret (Some (WSkip (newSkip (GenID client clock) length)), nextClock)
  else
    let cantCopyParentInfo := Z.land info (Z.lor bit7 bit8) =? 0 in
    origin <-- when (negb (Z.land info bit8 =? 0)) readLeftID;;;
    rightOrigin <-- when (negb (Z.land info bit7 =? 0)) readRightID;;;
    parent <-- (if cantCopyParentInfo then
                  hasParentKey <-- readParentInfo;;;
                  if (hasParentKey : bool) then name <-- readString;;; rret (ParentKey name)
                  else id <-- readLeftID;;; rret (ParentItem id)
                else rret NoParent);;;
    parentSub <-- (if cantCopyParentInfo && negb (Z.land info bit6 =? 0) then readString else rret []);;;
    if 11 <=? refID then rfail ErrTag
    else
      content <-- contentRefs refID;;;
      let item := mkWire (GenID client clock) (contentLength content) origin rightOrigin parent parentSub (normalizeContent content) in
      nextClock <-- rlift (addClock clock (w_length item));;;
      rret (Some (WItem item), nextClock).

End Read.

(** ** The fields of a struct *)
Section Fields.
Context `{JSONText}.

Definition jsonElement (v : any) : gostring :=
  if isUndefined v then keywordUndefined else match marshalJSONOrdered v with Ok data => data | Err _ => [] end.
Definition cutString (value : gostring) (offset : Z) : gostring :=
  if offset =? 0 then value else default [] (stringTail value offset).

Definition content_fields (c : wireContent) (offset : Z) : list field :=
  match c with
  | contentAny arr => FLength (Z.of_nat (length arr) - offset) :: (FAny <$> drop (Z.to_nat offset) arr)
  | contentBinary value => [FBuffer value]
  | contentDeleted n => [FLength (n - offset)]
  | contentDoc doc => [FString (doc_guid doc); FAny (AObject (docOpts doc))]
  | contentEmbed embed => [FJSON embed]
  | contentFormat key value => [FKey key; FJSON value]
  | contentJSON arr => FLength (Z.of_nat (length arr) - offset) :: ((fun v => FString (jsonElement v)) <$> drop (Z.to_nat offset) arr)
  | contentString value => [FString (cutString value offset)]
  | contentType t => FTypeRef (typeRef t) :: match t with YXmlElement name | YXmlHook name => [FKey name] | _ => [] end
  end.

(** The origin that is written: an item that is cut names its left part. *)
Definition sentOrigin (item : wireItem) (offset : Z) : option ID :=
  if 0 <? offset then Some (GenID (Client (w_id item)) (Clock (w_id item) + offset - 1)) else w_origin item.

Definition parent_fields (item : wireItem) (offset : Z) : list field :=
  match sentOrigin item offset, w_rightOrigin item with
  | None, None =>
      match w_parent item with
      | ParentKey name => [FParentInfo true; FString name]
      | ParentItem id => [FParentInfo false; FLeftID id]
      | NoParent => []
      end ++ (if bool_decide (w_parentSub item <> []) then [FString (w_parentSub item)] else [])
  | _, _ => []
  end.

Definition item_fields (item : wireItem) (offset : Z) : list field :=
  [FInfo (itemInfo (w_content item) (sentOrigin item offset) (w_rightOrigin item) (w_parentSub item))]
  ++ from_option (fun id => [FLeftID id]) [] (sentOrigin item offset)
  ++ from_option (fun id => [FRightID id]) [] (w_rightOrigin item)
  ++ parent_fields item offset ++ content_fields (w_content item) offset.

Definition struct_fields (s : wireStruct) (offset : Z) : list field :=
  match s with
  | WItem item => item_fields item offset
  | WGC gc => [FInfo structGCRefNumber; FLength (gc_length gc - offset)]
  | WSkip s => [FInfo structSkipRefNumber; FRest (u64 (skip_length s - offset))]
  end.

(** ** Structs that the formats carry *)
Definition string_ok (s : gostring) : Prop := valid s /\ Z.of_nat (length s) < 2 ^ 64.

(** A JSON element whose text can be read back. *)
Definition element_ok (v : any) : Prop :=
  isUndefined v = true \/
  exists text v', marshalJSONOrdered v = Ok text /\ string_ok text /\ text <> keywordUndefined /\ unmarshalJSONOrdered text = Ok v'.

Definition content_fits (json_ok : any -> Prop) (c : wireContent) : Prop :=
  match c with
  | contentAny arr => Forall value_fits arr
  | contentBinary value => Z.of_nat (length value) < 2 ^ 64
  | contentDeleted _ => True
  | contentDoc doc => string_ok (doc_guid doc) /\ value_fits (AObject (docOpts doc))
  | contentEmbed v => json_ok v
  | contentFormat key v => string_ok key /\ json_ok v
  | contentJSON arr => Forall element_ok arr
  | contentString value => string_ok value
  | contentType t => match t with YXmlElement name | YXmlHook name => string_ok name | _ => True end
  end.

Definition opt_ok (o : option ID) : Prop := match o with Some id => id_ok id | None => True end.

(** An item as an update carries it: its length is that of its content, its
    clocks stay in the safe range, and without neighbours it names its
    parent. *)
Record item_ok (json_ok : any -> Prop) (it : wireItem) : Prop := {
  io_id : id_ok (w_id it);
  io_len : w_length it = contentLength (w_content it);
  io_end : is_safe (Clock (w_id it) + w_length it);
  io_origin : opt_ok (w_origin it);
  io_right : opt_ok (w_rightOrigin it);
  io_parent : match w_parent it with
              | ParentKey name => string_ok name
              | ParentItem id => id_ok id
              | NoParent => w_origin it <> None \/ w_rightOrigin it <> None
              end;
  io_sub : string_ok (w_parentSub it);
  io_content : content_fits json_ok (w_content it)
}.

Definition struct_ok (json_ok : any -> Prop) (s : wireStruct) : Prop :=
  match s with
  | WItem it => item_ok json_ok it
  | WGC gc => id_ok (gc_id gc) /\ is_safe (Clock (gc_id gc) + gc_length gc)
  | WSkip s => id_ok (skip_id s) /\ is_safe (Clock (skip_id s) + skip_length s)
  end.

(** ** What comes back *)
Section Back.
Context (json : any -> any).

Definition element_back (v : any) : any :=
  if isUndefined v then AUndefined
  else match marshalJSONOrdered v with
       | Ok text => match unmarshalJSONOrdered text with Ok v' => v' | Err _ => ANil end
       | Err _ => ANil
       end.

Definition doc_back (d : subdoc) : subdoc :=
  mkSubdoc (doc_guid d) (doc_gc d) (doc_autoLoad d) (if is_nil (doc_meta d) then ANil else readBack (doc_meta d)).

Definition content_back (c : wireContent) (offset : Z) : wireContent :=
  match c with
  | contentAny arr => contentAny (readBack <$> drop (Z.to_nat offset) arr)
  | contentDeleted n => contentDeleted (n - offset)
  | contentDoc doc => contentDoc (doc_back doc)
  | contentEmbed v => contentEmbed (json v)
  | contentFormat key v => contentFormat key (json v)
  | contentJSON arr => contentJSON (element_back <$> drop (Z.to_nat offset) arr)
  | contentString value => contentString (cutString value offset)
  | c => c
  end.

(** An item that names a neighbour is sent without its parent. *)
Definition item_back (it : wireItem) (offset : Z) : wireItem :=
  let origin := sentOrigin it offset in
  let alone := bool_decide (origin = None /\ w_rightOrigin it = None) in
  mkWire (GenID (Client (w_id it)) (Clock (w_id it) + offset)) (w_length it - offset) origin (w_rightOrigin it)
    (if alone then w_parent it else NoParent) (if alone then w_parentSub it else [])
    (content_back (w_content it) offset).

Definition struct_back (s : wireStruct) (offset : Z) : wireStruct :=
  let cut id := GenID (Client id) (Clock id + offset) in
  match s with
  | WItem it => WItem (item_back it offset)
  | WGC gc => WGC (newGC (cut (gc_id gc)) (gc_length gc - offset))
  | WSkip s => WSkip (newSkip (cut (skip_id s)) (skip_length s - offset))
  end.

End Back.
End Fields.

(** ** A struct is written as its fields *)
Section WriteLemmas.
Context {E : Type} `{UpdateEncoder E} `{JSONText}.

Lemma rbind_ret {D A B} (a : A) (k : A -> step D B) d : rbind (rret a) k d = k a d.
Proof. done. Qed.

Lemma writeFields_one f (e : E) : writeFields [f] e = writeField f e.
Proof. cbn [writeFields]. unfold rbind. destruct (writeField f e) as [[[]|x] e1]; done. Qed.

Lemma writeFields_cons f fs (e : E) : writeFields (f :: fs) e = (_ <-- writeField f;;; writeFields fs) e.
Proof. done. Qed.

Lemma rbind_ext {D A B} (m m' : step D A) (k k' : A -> step D B) d :
  m d = m' d -> (forall a d, k a d = k' a d) -> rbind m k d = rbind m' k' d.
Proof. intros Hm Hk. unfold rbind. rewrite Hm. destruct (m' d) as [[a|x] d1]; [apply Hk|done]. Qed.

Lemma forEach_fields {A} (f : A -> step E unit) (g : A -> field) l (e : E) :
  Forall (fun x => forall e, f x e = writeField (g x) e) l -> forEach f l e = writeFields (g <$> l) e.
Proof.
  intros Hl. revert e. induction Hl as [|x l Hx _ IH]; intros e; [done|]. cbn [forEach writeFields fmap list_fmap].
  apply rbind_ext; [apply Hx|]. intros _ d. apply IH.
Qed.

Lemma writeJSONElement_field v (e : E) : element_ok v -> writeJSONElement v e = writeField (FString (jsonElement v)) e.
Proof.
  unfold writeJSONElement, jsonElement. intros [->|(text & v' & -> & _)]; [done|]. by destruct (isUndefined v).
Qed.

Lemma writeContent_fields json_ok c offset (e : E) : content_fits json_ok c -> 0 <= offset <= contentLength c ->
  writeContent c offset e = writeFields (content_fields c offset) e.
Proof.
  intros Hc Ho. destruct c as [arr|value|n|doc|v|key v|arr|value|t]; cbn [writeContent content_fields contentLength] in *;
    unfold writeContentAny, writeContentBinary, writeContentDeleted, writeContentDoc, writeContentEmbed, writeContentFormat, writeContentJSON, writeContentString, writeContentType.
  - destruct (Z.ltb_spec (Z.of_nat (length arr)) offset); [lia|]. rewrite writeFields_cons. apply rbind_ext; [done|]. intros _ e1.
    unfold writeElements. destruct (Z.ltb_spec offset 0); [lia|]. by apply forEach_fields, Forall_true.
  - by rewrite writeFields_one.
  - destruct (Z.ltb_spec n offset); [lia|]. by rewrite writeFields_one.
  - rewrite writeFields_cons. apply rbind_ext; [done|]. intros _ e1. by rewrite writeFields_one.
  - by rewrite writeFields_one.
  - rewrite writeFields_cons. apply rbind_ext; [done|]. intros _ e1. by rewrite writeFields_one.
  - rewrite writeFields_cons. apply rbind_ext; [done|]. intros _ e1. unfold writeElements. destruct (Z.ltb_spec offset 0); [lia|].
    apply forEach_fields. cbn in Hc. apply Forall_drop. eapply Forall_impl; [|exact Hc]. intros v Hv e2. by apply writeJSONElement_field.
  - rewrite writeFields_one. unfold cutString. destruct (Z.eqb_spec offset 0); [done|]. unfold stringTail, splitStringUTF16, splitStringUTF16AtBoundary.
    destruct (Z.ltb_spec offset 0); [lia|]. rewrite (proj2 (Z.eqb_neq offset 0)) by done. by destruct (splitLoop _ _ _ _ _) as [[l r] b].
  - unfold writeType. rewrite writeFields_cons. apply rbind_ext; [done|]. intros _ e1. destruct t; try done; by rewrite writeFields_one.
Qed.

Lemma writeItem_fields json_ok it offset (e : E) : item_ok json_ok it -> 0 <= offset <= w_length it ->
  writeItem it offset e = writeFields (item_fields it offset) e.
Proof.
  intros [_ Hlen _ _ _ Hpar _ Hc] Ho. unfold writeItem, item_fields. fold (sentOrigin it offset).
  rewrite writeFields_app. apply rbind_ext; [by rewrite writeFields_one|]. intros _ e1.
  rewrite writeFields_app. apply rbind_ext; [destruct (sentOrigin it offset); [by cbn [from_option]; rewrite writeFields_one|done]|]. intros _ e2.
  rewrite writeFields_app. apply rbind_ext; [destruct (w_rightOrigin it); [by cbn [from_option]; rewrite writeFields_one|done]|]. intros _ e3.
  rewrite writeFields_app. apply rbind_ext.
  - unfold parent_fields. destruct (sentOrigin it offset) as [o|] eqn:Eo; [done|]. destruct (w_rightOrigin it) as [r|] eqn:Er; [done|].
    rewrite writeFields_app. apply rbind_ext.
    + destruct (w_parent it); [|by rewrite writeFields_cons; apply rbind_ext; [done|]; intros _ e4; rewrite writeFields_one..].
      unfold sentOrigin in Eo. destruct (0 <? offset); [done|]. naive_solver.
    + intros _ e4. case_bool_decide; [by rewrite writeFields_one|done].
  - intros _ e4. eapply writeContent_fields; [exact Hc|]. rewrite <- Hlen. lia.
Qed.

Lemma writeStruct_fields json_ok s offset (e : E) : struct_ok json_ok s -> 0 <= offset <= structLength s ->
  writeStruct s offset e = writeFields (struct_fields s offset) e.
Proof.
  destruct s as [it|gc|s]; intros Hs Ho; cbn [writeStruct struct_fields] in *; unfold writeGC, writeSkip.
  - by eapply writeItem_fields.
  - rewrite writeFields_cons. apply rbind_ext; [done|]. intros _ e1. by rewrite writeFields_one.
  - rewrite writeFields_cons. apply rbind_ext; [done|]. intros _ e1. by rewrite writeFields_one.
Qed.

End WriteLemmas.

(** ** The fields are in range *)
Section Range.
Context `{JSONText}.

Lemma stringTail_spec value offset : valid value -> 0 <= offset ->
  exists tl us, stringTail value offset = Some tl /\ valid tl /\ (length tl <= length value)%nat /\
    splitUnits (utf16 value) (Z.to_nat offset) = (us, utf16 tl).
Proof.
  intros (rs & Hrs & ->) Ho. unfold stringTail, splitStringUTF16. destruct (split_cut rs offset Hrs Ho) as ([[l r] b] & -> & Hc).
  assert (Hlen : (length r <= length (utf8 rs))%nat).
  { inversion Hc; subst; [simpl; lia|rewrite utf8_app, length_app; lia|].
    rewrite utf8_app, utf8_cons, !length_app. apply Forall_app in Hrs as [_ Hrs]. apply list.Forall_cons in Hrs as [Hsx _].
    change (length (encodeRune RuneError)) with 3%nat. unfold encodeRune. rewrite bool_decide_true by done.
    repeat (case_match; simpl; try lia). }
  destruct (cut_units rs offset l r b Hrs Ho Hc) as (ls & rr & Hls & Hrr & -> & -> & Hu & _). exists (utf8 rr), (units ls). cbn.
  split_and!; [done|by exists rr|done|by rewrite !utf16_utf8].
Qed.

Lemma cutString_ok value offset : string_ok value -> 0 <= offset -> string_ok (cutString value offset) /\
  (offset <= stringContentLength value -> stringContentLength (cutString value offset) = stringContentLength value - offset).
Proof.
  intros [Hv Hl] Ho. unfold cutString. destruct (Z.eqb_spec offset 0) as [->|Hne]; [split; [done|]; intros; lia|].
  destruct (stringTail_spec value offset Hv Ho) as (tl & us & -> & Hvt & Hlt & Hu). cbn [default from_option]. unfold id. split; [split; [done|lia]|].
  intros Hlen. rewrite !stringContentLength_valid in * by done. destruct (splitUnits_length _ _ _ _ Hu) as [_ ->]. lia.
Qed.

Lemma land_ref c : 0 <= contentRef (V := any) (T := wireType) (D := subdoc) c <= 9.
Proof. destruct c; simpl; lia. Qed.

(** The bits of the info byte. *)
Lemma itemInfo_bits c o r sub : let info := itemInfo c o r sub in
  is_byte info /\ Z.land info 31 = contentRef c /\ (Z.land info bit8 =? 0) = bool_decide (o = None) /\
  (Z.land info bit7 =? 0) = bool_decide (r = None) /\ (Z.land info bit6 =? 0) = bool_decide (sub = []) /\
  (Z.land info (Z.lor bit7 bit8) =? 0) = bool_decide (o = None) && bool_decide (r = None).
Proof.
  unfold itemInfo. destruct o as [o|], r as [r|], sub as [|b sub]; destruct c; vm_compute; split_and!; (done || (split; congruence)).
Qed.

Lemma keyword_ok : string_ok keywordUndefined.
Proof. split; [|done]. exists keywordUndefined. split; [|done]. apply (bool_decide_unpack _). by vm_compute. Qed.

Lemma content_fields_ok json_ok c offset : content_fits json_ok c -> 0 <= offset <= contentLength c -> is_safe (contentLength c) ->
  Forall (field_ok json_ok) (content_fields c offset).
Proof.
  intros Hc Ho Hs. assert (Hs' : is_safe (contentLength c - offset)) by (unfold is_safe in *; lia).
  destruct c as [arr|value|n|doc|v|key v|arr|value|t]; cbn [content_fields content_fits contentLength] in *.
  - constructor; [done|]. apply Forall_fmap. apply Forall_drop. done.
  - by apply Forall_singleton.
  - by apply Forall_singleton.
  - destruct Hc. constructor; [done|]. by apply Forall_singleton.
  - by apply Forall_singleton.
  - destruct Hc. constructor; [done|]. by apply Forall_singleton.
  - constructor; [done|]. apply Forall_fmap. apply Forall_drop. eapply Forall_impl; [|exact Hc]. intros v Hv. cbn. unfold jsonElement.
    destruct Hv as [->|(text & v' & -> & Ht & _)]; [apply keyword_ok|]. destruct (isUndefined v); [apply keyword_ok|done].
  - apply Forall_singleton. exact (proj1 (cutString_ok value offset Hc (proj1 Ho))).
  - destruct t; repeat constructor; try done; try apply Hc; unfold is_byte; simpl; lia.
Qed.

Lemma item_fields_ok json_ok it offset : item_ok json_ok it -> 0 <= offset <= w_length it -> Forall (field_ok json_ok) (item_fields it offset).
Proof.
  intros [Hid Hlen Hend Ho Hr Hpar Hsub Hc] Hoff. destruct Hid as [Hc1 Hc2]. unfold item_fields.
  assert (Hs : opt_ok (sentOrigin it offset)).
  { unfold sentOrigin. destruct (Z.ltb_spec 0 offset); [|done]. split; [done|]. unfold is_safe in *. simpl. lia. }
  rewrite !Forall_app. split_and!.
  - apply Forall_singleton. cbn. apply itemInfo_bits.
  - destruct (sentOrigin it offset); [by apply Forall_singleton|constructor].
  - destruct (w_rightOrigin it); [by apply Forall_singleton|constructor].
  - unfold parent_fields. destruct (sentOrigin it offset); [constructor|]. destruct (w_rightOrigin it); [constructor|]. apply Forall_app. split.
    + destruct (w_parent it); [apply Forall_nil_2|(constructor; [done|by apply Forall_singleton])..].
    + case_bool_decide; [by apply Forall_singleton|constructor].
  - apply content_fields_ok; [done|lia|]. rewrite <- Hlen. unfold is_safe in *. lia.
Qed.

Lemma struct_fields_ok json_ok s offset : struct_ok json_ok s -> 0 <= offset <= structLength s -> Forall (field_ok json_ok) (struct_fields s offset).
Proof.
  destruct s as [it|gc|s]; cbn [struct_ok struct_fields structLength wire_struct].
  - apply item_fields_ok.
  - intros [[Hc Hk] He] Ho. constructor; [done|]. apply Forall_singleton. cbn. unfold is_safe in *. lia.
  - intros [[Hc Hk] He] Ho. constructor; [done|]. apply Forall_singleton. cbn. apply u64_range.
Qed.

End Range.

(** ** The fields are read back as the struct *)
Section ReadLemmas.
Context {D : Type} `{UpdateDecoder D} `{JSONText} (json : any -> any) (json_ok : any -> Prop).

Ltac take_field Hd := let d1 := fresh "d" in let Hr := fresh "Hr" in
  destruct Hd as (d1 & Hr & Hd); cbn [reads] in Hr; rewrite (rbind_ok _ _ _ _ _ Hr); clear Hr.

Lemma delivers_rtimes {A B} (g : A -> field) (rd : step D B) (back : A -> B) l :
  Forall (fun x => forall d d', reads json d (g x) d' -> rd d = (Ok (back x), d')) l ->
  forall d d', delivers json d (g <$> l) d' -> rtimes (length l) rd d = (Ok (back <$> l), d').
Proof.
  induction 1 as [|x l Hx _ IH]; intros d d' Hd; [by cbn in *; subst|]. destruct Hd as (d1 & Hr & Hd).
  eapply rtimes_cons; [by apply Hx|by apply IH].
Qed.

Lemma readJSONElement_back v (d d' : D) : element_ok v -> reads json d (FString (jsonElement v)) d' -> readJSONElement d = (Ok (element_back v), d').
Proof.
  intros Hv Hr. cbn [reads] in Hr. unfold readJSONElement, element_back. rewrite (rbind_ok _ _ _ _ _ Hr). unfold jsonElement.
  destruct Hv as [->|(text & v' & -> & _ & Hne & Eu)]; [by rewrite bool_decide_true|].
  destruct (isUndefined v); [by rewrite bool_decide_true|]. rewrite bool_decide_false by done. unfold rlift. by rewrite Eu.
Qed.

Lemma doc_back_opts doc : newSubdocFromOpts (doc_guid doc) (map (fun e => (e.1, readBack e.2)) (docOpts doc)) = doc_back doc.
Proof. destruct doc as [guid gc load meta]. unfold doc_back, docOpts. cbn [doc_meta doc_gc doc_autoLoad doc_guid]. destruct gc, load, (is_nil meta); reflexivity. Qed.

Lemma length_drop_Z {A} (l : list A) offset : 0 <= offset <= Z.of_nat (length l) -> Z.to_nat (Z.of_nat (length l) - offset) = length (drop (Z.to_nat offset) l).
Proof. intros. rewrite length_drop. lia. Qed.

Lemma content_read c offset (d d' : D) : content_fits json_ok c -> 0 <= offset <= contentLength c ->
  delivers json d (content_fields c offset) d' -> contentRefs (contentRef c) d = (Ok (content_back json c offset), d').
Proof.
  intros Hc Ho Hd. destruct c as [arr|value|n|doc|v|key v|arr|value|t]; cbn [content_fields content_fits contentLength contentRef content_back] in *.
  - change (contentRefs 8) with readContentAny. unfold readContentAny. take_field Hd. rewrite length_drop_Z by done.
    erewrite rbind_ok; [done|]. eapply delivers_rtimes; [|exact Hd]. apply Forall_true. by intros x d1 d2.
  - change (contentRefs 3) with readContentBinary. unfold readContentBinary. take_field Hd. by cbn in Hd; subst.
  - change (contentRefs 1) with readContentDeleted. unfold readContentDeleted. take_field Hd. by cbn in Hd; subst.
  - change (contentRefs 9) with readContentDoc. unfold readContentDoc. take_field Hd. take_field Hd. cbn [readBack]. rewrite doc_back_opts. by cbn in Hd; subst.
  - change (contentRefs 5) with readContentEmbed. unfold readContentEmbed. take_field Hd. by cbn in Hd; subst.
  - change (contentRefs 6) with readContentFormat. unfold readContentFormat. take_field Hd. take_field Hd. by cbn in Hd; subst.
  - change (contentRefs 2) with readContentJSON. unfold readContentJSON. take_field Hd. rewrite length_drop_Z by done.
    erewrite rbind_ok; [done|]. eapply (delivers_rtimes (fun v => FString (jsonElement v))); [|exact Hd].
    apply Forall_drop. eapply Forall_impl; [|exact Hc]. intros v Hv d1 d2. by apply readJSONElement_back.
  - change (contentRefs 4) with readContentString. unfold readContentString. take_field Hd. by cbn in Hd; subst.
  - change (contentRefs 7) with readContentType. unfold readContentType. take_field Hd.
    destruct t; cbn [typeRef]; try (cbn in Hd; subst; reflexivity).
    + destruct Hd as (d1 & Hr & Hd). cbn in Hd. subst. cbn [reads] in Hr.
      change (typeRefs 3) with (Some (key <-- readKey (D := D);;; rret (YXmlElement key))). unfold rbind. by rewrite Hr.
    + destruct Hd as (d1 & Hr & Hd). cbn in Hd. subst. cbn [reads] in Hr.
      change (typeRefs 5) with (Some (key <-- readKey (D := D);;; rret (YXmlHook key))). unfold rbind. by rewrite Hr.
Qed.

(** A cut inside a struct, or none. *)
Definition cut_ok (offset length : Z) : Prop := 0 <= length /\ (offset = 0 \/ 0 <= offset < length).

Lemma content_back_length c offset : content_fits json_ok c -> cut_ok offset (contentLength c) ->
  contentLength (content_back json c offset) = contentLength c - offset /\ normalizeContent (content_back json c offset) = content_back json c offset.
Proof.
  intros Hc [Hn Ho]. destruct c as [arr|value|n|doc|v|key v|arr|value|t]; cbn [content_back contentLength normalizeContent content_fits] in *; try (split; [lia|done]).
  - split; [|done]. rewrite length_fmap, length_drop. lia.
  - split; [|done]. rewrite length_fmap, length_drop. lia.
  - destruct (cutString_ok value offset Hc) as [[Hv _] Hl]; [lia|]. split; [apply Hl; lia|]. by rewrite normalize_valid.
Qed.

Definition readStruct (client clock : Z) : step D (option wireStruct * Z) := info <-- readInfo;;; decode info client clock.

Lemma addClock_safe a b : 0 <= a -> 0 <= b -> is_safe (a + b) -> addClock a b = Ok (a + b).
Proof.
  intros Ha Hb Hs. unfold addClock. unfold is_safe, maxSafeInteger in Hs. rewrite addBounded_nonneg by (unfold maxInt; lia).
  destruct (Z.ltb_spec maxInt (a + b)); [unfold maxInt in *; lia|done].
Qed.

Lemma when_None {A} (m : step D A) d : when false m d = (Ok None, d).
Proof. done. Qed.

(** The parent of an item, with its key. *)
Lemma parent_read (it : wireItem) offset (d d' : D) fs :
  match w_parent it with NoParent => w_origin it <> None \/ w_rightOrigin it <> None | _ => True end ->
  delivers json d (parent_fields it offset ++ fs) d' ->
  let alone := bool_decide (sentOrigin it offset = None /\ w_rightOrigin it = None) in
  exists d1, delivers json d1 fs d' /\ forall A (k : wireParent -> gostring -> step D A),
    (parent <-- (if alone then
        hasParentKey <-- readParentInfo;;;
        if (hasParentKey : bool) then name <-- readString;;; rret (ParentKey name) else id <-- readLeftID;;; rret (ParentItem id)
      else rret NoParent);;;
     parentSub <-- (if alone && negb (bool_decide (w_parentSub it = [])) then readString else rret []);;; k parent parentSub) d
    = k (if alone then w_parent it else NoParent) (if alone then w_parentSub it else []) d1.
Proof.
  intros Hp Hd. unfold parent_fields in Hd. destruct (sentOrigin it offset) as [o|] eqn:Eo; [by exists d|].
  destruct (w_rightOrigin it) as [r|] eqn:Er; [by exists d|]. rewrite bool_decide_true by done. cbn [andb].
  rewrite <- (assoc_L (++)), delivers_app in Hd. destruct Hd as (d1 & Ha & Hd). rewrite delivers_app in Hd. destruct Hd as (d2 & Hb & Hd).
  exists d2. split; [done|]. intros A k.
  assert (E1 : (hasParentKey <-- readParentInfo;;;
        if (hasParentKey : bool) then name <-- readString;;; rret (ParentKey name) else id <-- readLeftID;;; rret (ParentItem id)) d = (Ok (w_parent it), d1)).
  { destruct (w_parent it).
    - unfold sentOrigin in Eo. destruct (0 <? offset); naive_solver.
    - take_field Ha. take_field Ha. by cbn in Ha; subst.
    - take_field Ha. take_field Ha. by cbn in Ha; subst. }
  rewrite (rbind_ok _ _ _ _ _ E1). destruct (decide (w_parentSub it = [])) as [E|Hne].
  - rewrite E in *. rewrite bool_decide_false in Hb by naive_solver. rewrite bool_decide_true by done. cbn in Hb. by subst.
  - rewrite bool_decide_true in Hb by done. rewrite bool_decide_false by done. cbn [negb]. take_field Hb. by cbn in Hb; subst.
Qed.

(** [readLeftID] and [readRightID] behind a flag. *)
Lemma when_read (o : option ID) (m : step D ID) (g : ID -> field) (d d' : D) fs :
  (forall id d d', reads json d (g id) d' -> m d = (Ok id, d')) ->
  delivers json d (from_option (fun id => [g id]) [] o ++ fs) d' ->
  exists d1, when (negb (bool_decide (o = None))) m d = (Ok o, d1) /\ delivers json d1 fs d'.
Proof.
  intros Hm Hd. destruct o as [id|]; cbn [from_option app] in Hd.
  - destruct Hd as (d1 & Hr & Hd). exists d1. split; [|done]. cbn. unfold rbind. by rewrite (Hm _ _ _ Hr).
  - by exists d.
Qed.

Lemma item_read (it : wireItem) offset (d d' : D) : item_ok json_ok it -> cut_ok offset (w_length it) ->
  delivers json d (item_fields it offset) d' ->
  readStruct (Client (w_id it)) (Clock (w_id it) + offset) d = (Ok (Some (WItem (item_back json it offset)), Clock (w_id it) + w_length it), d').
Proof.
  intros [Hid Hlen Hend _ _ Hpar _ Hc] Hcut Hd. unfold item_fields in Hd. unfold readStruct.
  destruct (itemInfo_bits (w_content it) (sentOrigin it offset) (w_rightOrigin it) (w_parentSub it)) as (_ & B31 & B8 & B7 & B6 & B78).
  set (info := itemInfo _ _ _ _) in *. take_field Hd. unfold decode. rewrite B31.
  pose proof (land_ref (w_content it)) as Href. assert (Hne : contentRef (w_content it) <> 0 /\ contentRef (w_content it) <> 10) by (destruct (w_content it); cbn; lia).
  unfold structGCRefNumber, structSkipRefNumber. rewrite (proj2 (Z.eqb_neq _ 0)), (proj2 (Z.eqb_neq _ 10)) by apply Hne.
  rewrite B8, B7, B78, B6. destruct (when_read _ readLeftID FLeftID d0 d' _ (fun _ _ _ Hr => Hr) Hd) as (d2 & E2 & Hd2).
  rewrite (rbind_ok _ _ _ _ _ E2). destruct (when_read _ readRightID FRightID d2 d' _ (fun _ _ _ Hr => Hr) Hd2) as (d3 & E3 & Hd3).
  rewrite (rbind_ok _ _ _ _ _ E3).
  assert (Ealone : bool_decide (sentOrigin it offset = None) && bool_decide (w_rightOrigin it = None) = bool_decide (sentOrigin it offset = None /\ w_rightOrigin it = None)).
  { by rewrite bool_decide_and. }
  rewrite Ealone. destruct (parent_read it offset d3 d' _ ltac:(by destruct (w_parent it)) Hd3) as (d4 & Hd4 & E4). rewrite E4. clear E4.
  destruct (Z.leb_spec 11 (contentRef (w_content it))); [lia|].
  destruct Hcut as [Hn Hcut]. rewrite Hlen in Hn, Hcut.
  assert (Hoff : 0 <= offset <= contentLength (w_content it)) by lia.
  rewrite (rbind_ok _ _ _ _ _ (content_read _ _ _ _ Hc Hoff Hd4)).
  destruct (content_back_length _ offset Hc (conj Hn Hcut)) as [El En]. cbn [w_length]. rewrite El, En.
  destruct Hid as [_ Hk]. unfold rlift, rbind. rewrite addClock_safe by (unfold is_safe in *; rewrite <- ?Hlen in *; lia). unfold rret, item_back.
  rewrite <- Hlen. do 2 f_equal. f_equal. lia.
Qed.

(** A struct that was written from [offset] on is read back from there. *)
Lemma struct_read (s : wireStruct) offset (d d' : D) : struct_ok json_ok s -> cut_ok offset (structLength s) -> structLength s <> 0 \/ match s with WGC _ => False | _ => True end ->
  delivers json d (struct_fields s offset) d' ->
  readStruct (Client (getID s)) (Clock (getID s) + offset) d = (Ok (Some (struct_back json s offset), struct_end s), d').
Proof.
  destruct s as [it|gc|s]; intros Hs Hcut Hnz Hd; cbn [struct_fields struct_ok getID structLength wire_struct struct_back] in *.
  - by apply item_read.
  - destruct Hs as [[_ Hk] He], Hcut as [Hn Hcut]. unfold readStruct. take_field Hd. unfold decode. cbv zeta.
    change (Z.land structGCRefNumber 31 =? structGCRefNumber) with true. cbv iota. take_field Hd.
    destruct (Z.eqb_spec (gc_length gc - offset) 0); [naive_solver lia|]. unfold rlift, rbind.
    rewrite addClock_safe by (unfold is_safe in *; try replace (Clock (gc_id gc) + offset + (gc_length gc - offset)) with (Clock (gc_id gc) + gc_length gc) by lia; lia).
    cbn in Hd. subst. unfold rret, struct_end. cbn. do 3 f_equal. lia.
  - destruct Hs as [[_ Hk] He], Hcut as [Hn Hcut]. unfold readStruct. take_field Hd. unfold decode. cbv zeta.
    change (Z.land structSkipRefNumber 31 =? structGCRefNumber) with false. change (Z.land structSkipRefNumber 31 =? structSkipRefNumber) with true. cbv iota.
    destruct Hd as (d1 & Hr & Hd). cbn [reads] in Hr. rewrite u64_small in Hr by (unfold is_safe, maxSafeInteger, is_u64 in *; lia).
    unfold readRestNumber, rbind, rlift. rewrite Hr, toNumber_safe by (unfold is_safe in *; lia).
    rewrite addClock_safe by (unfold is_safe in *; try replace (Clock (skip_id s) + offset + (skip_length s - offset)) with (Clock (skip_id s) + skip_length s) by lia; lia).
    cbn in Hd. subst. unfold rret, struct_end. cbn. do 3 f_equal. lia.
Qed.

End ReadLemmas.
