(* ===== verification/Consume.v ===== *)
(** * Readers only consume

    A decoder never gives back bytes: every read of the [updateDecoder]
    interface leaves the rest buffer as it is or shorter, and a rest number
    takes at least one byte. The loops of the update reader terminate because
    of this. *)
From S2P Require Import Prelude Lib0 Object Any StructStore DeleteSet DeleteSetCodec UpdateCodec Content StructCodec.

(** [m] never increases the measure [mu]. *)
Definition shrinks {D A} (mu : D -> nat) (m : step D A) : Prop := forall d, (mu (m d).2 <= mu d)%nat.

(** Every read that succeeds decreases it. *)
Definition consumes {D A} (mu : D -> nat) (m : step D A) : Prop :=
  forall d a d', m d = (Ok a, d') -> (mu d' < mu d)%nat.

Create HintDb shrink.

Section Shrink.
Context {D : Type} (mu : D -> nat).

Lemma shrinks_bind {A B} (m : step D A) (k : A -> step D B) : shrinks mu m -> (forall a, shrinks mu (k a)) -> shrinks mu (rbind m k).
Proof.
  intros Hm Hk d. unfold rbind. specialize (Hm d). destruct (m d) as [[a|e] d1]; [|done]. specialize (Hk a d1). simpl in *. lia.
Qed.

Lemma shrinks_ret {A} (a : A) : shrinks mu (rret a).
Proof. by intros d. Qed.
Lemma shrinks_fail {A} e : shrinks mu (rfail (A := A) e).
Proof. by intros d. Qed.
Lemma shrinks_lift {A} (r : result A) : shrinks mu (rlift r).
Proof. by intros d. Qed.

Lemma shrinks_times {A} (m : step D A) n : shrinks mu m -> shrinks mu (rtimes n m).
Proof.
  intros Hm. induction n as [|n IH]; simpl; [apply shrinks_ret|]. apply shrinks_bind; [done|]. intros a. apply shrinks_bind; [done|].
  intros l. apply shrinks_ret.
Qed.

Lemma shrinks_when {A} (b : bool) (m : step D A) : shrinks mu m -> shrinks mu (when b m).
Proof. intros Hm. destruct b; [|apply shrinks_ret]. apply shrinks_bind; [done|]. intros a. apply shrinks_ret. Qed.

End Shrink.

#[export] Hint Resolve shrinks_bind shrinks_ret shrinks_fail shrinks_lift shrinks_times shrinks_when : shrink.

(** Splits binds, conditionals and matches, and closes the leaves by the
    database. *)
Ltac shrink :=
  repeat first
    [ progress intros
    | apply shrinks_ret | apply shrinks_fail | apply shrinks_lift
    | match goal with
      | |- shrinks _ (rbind _ _) => apply shrinks_bind
      | |- shrinks _ (rtimes _ _) => apply shrinks_times
      | |- shrinks _ (when _ _) => apply shrinks_when
      | |- shrinks _ (if ?b then _ else _) => destruct b
      | |- shrinks _ (match ?x with _ => _ end) => destruct x
      end
    | solve [eauto with shrink] ].

(** ** The byte readers *)
Abbreviation shorter := (shrinks (length (A := Z))).

Lemma readByte_shorter : shorter readByte.
Proof. intros [|b buf]; simpl; lia. Qed.

Lemma readUvarint_shorter n i x s : shorter (readUvarint_loop n i x s).
Proof.
  revert i x s. induction n as [|n IH]; intros i x s [|b buf]; simpl; try lia.
  repeat case_match; simpl; try lia. etransitivity; [apply IH|lia].
Qed.

Lemma readVarInt_loop_shorter k i n s sign : shorter (readVarInt_loop k i n s sign).
Proof.
  revert i n s. induction k as [|k IH]; intros i n s [|b buf]; simpl; try lia.
  repeat case_match; simpl; try lia. etransitivity; [apply IH|lia].
Qed.

Lemma binaryReadUvarint_shorter : shorter binaryReadUvarint.
Proof. apply readUvarint_shorter. Qed.
#[export] Hint Resolve readByte_shorter readVarInt_loop_shorter binaryReadUvarint_shorter : shrink.

Lemma binaryReadUvarint_consumes : consumes (length (A := Z)) binaryReadUvarint.
Proof.
  intros buf v rest (pre & Hne & ->)%readUvarint_loop_suffix. rewrite length_app. destruct pre; [done|]. simpl. lia.
Qed.

(** A read that takes a prefix of the buffer or fails. *)
Lemma shorter_fun {A} (m : reader A) : (forall buf, exists n, (m buf).2 = drop n buf) -> shorter m.
Proof. intros Hm buf. destruct (Hm buf) as [n ->]. rewrite length_drop. lia. Qed.

Ltac takes_prefix := apply shorter_fun; intros buf; repeat case_match; eexists;
  (reflexivity || (symmetry; apply (drop_0 buf)) || (symmetry; apply (drop_all buf))).

Lemma readFixedWidth_shorter n : shorter (readFixedWidth n).
Proof. unfold readFixedWidth. takes_prefix. Qed.

Lemma readVarInt_shorter : shorter readVarInt.
Proof. unfold readVarInt. cbv zeta. shrink. Qed.

Lemma ReadString_shorter : shorter ReadString.
Proof. unfold ReadString. apply shrinks_bind; [apply binaryReadUvarint_shorter|]. intros size. takes_prefix. Qed.

Lemma readVarString_shorter : shorter readVarString.
Proof. unfold readVarString. apply shrinks_bind; [apply binaryReadUvarint_shorter|]. intros size. takes_prefix. Qed.

Lemma ReadVarUint8Array_shorter : shorter ReadVarUint8Array.
Proof. unfold ReadVarUint8Array. apply shrinks_bind; [apply binaryReadUvarint_shorter|]. intros size. takes_prefix. Qed.
#[export] Hint Resolve readFixedWidth_shorter readVarInt_shorter ReadString_shorter readVarString_shorter ReadVarUint8Array_shorter : shrink.

Lemma lookup_table_shorter tag rd : readAnyLookupTable tag = Some rd -> shorter rd.
Proof.
  unfold readAnyLookupTable, readFloat32, readFloat64, readBigInt64. intros Ht.
  repeat (case_match; [injection Ht as <-; shrink|]). done.
Qed.

Lemma readAnyDepth_shorter depth : shorter (readAnyDepth depth).
Proof.
  induction depth as [|depth IH]; cbn [readAnyDepth]; [apply shrinks_fail|].
  apply shrinks_bind; [apply readByte_shorter|]. intros tag. destruct (12 <=? _); [apply shrinks_fail|]. destruct (tag =? 118).
  { unfold readObjectDepth, readEntry. shrink. }
  destruct (tag =? 117).
  { unfold readArrayDepth. apply shrinks_bind; [apply binaryReadUvarint_shorter|]. intros size. destruct (size =? 0); [apply shrinks_ret|].
    intros buf. destruct (boundExceeded _ _ _); [done|]. apply shrinks_bind; shrink. }
  destruct (readAnyLookupTable tag) eqn:Et; [by eapply lookup_table_shorter|apply shrinks_fail].
Qed.

Lemma readAny_shorter : shorter readAny.
Proof. apply readAnyDepth_shorter. Qed.
#[export] Hint Resolve readAny_shorter : shrink.

(** ** The decoders *)
Definition restLength {D} `{DSDecoder D} (d : D) : nat := length (dec_rest d).

Class Consuming (D : Type) `{UpdateDecoder D} := {
  consume_rest : shrinks restLength (readRestVarUint (D := D));
  consume_rest_strictly : consumes restLength (readRestVarUint (D := D));
  consume_left : shrinks restLength (readLeftID (D := D));
  consume_right : shrinks restLength (readRightID (D := D));
  consume_client : shrinks restLength (readClient (D := D));
  consume_info : shrinks restLength (readInfo (D := D));
  consume_string : shrinks restLength (readString (D := D));
  consume_parentInfo : shrinks restLength (readParentInfo (D := D));
  consume_typeRef : shrinks restLength (readTypeRef (D := D));
  consume_length : shrinks restLength (readLength (D := D));
  consume_any : shrinks restLength (readAnyValue (D := D));
  consume_buffer : shrinks restLength (readBuffer (D := D));
  consume_json : shrinks restLength (readJSONValue (D := D));
  consume_key : shrinks restLength (readKey (D := D))
}.
#[export] Hint Resolve consume_rest consume_left consume_right consume_client consume_info consume_string consume_parentInfo
  consume_typeRef consume_length consume_any consume_buffer consume_json consume_key : shrink.

(** *** V1 *)
Lemma v1_on_rest {A} (m : reader A) : shorter m -> shrinks restLength (V1.on_rest m).
Proof. intros Hm d. unfold V1.on_rest, restLength. specialize (Hm (V1.d_rest d)). by destruct (m (V1.d_rest d)). Qed.
#[export] Hint Resolve v1_on_rest : shrink.

Section ConsumeV1.
Context `{JSONText}.

Lemma v1_readNumber_shrinks : shrinks restLength UV1.readNumber.
Proof. unfold UV1.readNumber. shrink. Qed.
Lemma v1_readID_shrinks : shrinks restLength UV1.readID.
Proof. pose proof v1_readNumber_shrinks. unfold UV1.readID. shrink. Qed.

#[global] Instance consumingV1 : Consuming V1.updateDecoderV1.
Proof.
  pose proof v1_readNumber_shrinks. pose proof v1_readID_shrinks.
  constructor; cbn [readRestVarUint V1.decoder readLeftID readRightID readClient readInfo readString readParentInfo readTypeRef readLength readAnyValue readBuffer readJSONValue readKey UV1.decoder];
    unfold UV1.readStringV; try solve [shrink].
  intros [b] a [b'] E. unfold V1.on_rest in E. cbn [V1.d_rest] in E. destruct (ReadVarUint b) as [[v|e] r] eqn:Er; [|done].
    injection E as <- <-. exact (binaryReadUvarint_consumes _ _ _ Er).
Qed.

End ConsumeV1.

(** *** V2: only rest numbers, data values and buffers come from the rest. *)
Lemma v2_on_rest {A} (m : reader A) : shorter m -> shrinks restLength (UV2.on_rest m).
Proof.
  intros Hm d. unfold UV2.on_rest, UV2.on_ds, V2.on_rest, restLength. cbn [dec_rest UV2.dsDecoder]. specialize (Hm (V2.d_rest (UV2.d_ds d))).
  by destruct (m (V2.d_rest (UV2.d_ds d))).
Qed.

Lemma v2_on_col {C A} get set (rd : step C A) : shrinks restLength (UV2.on_col get set rd).
Proof. intros d. unfold UV2.on_col. by destruct (rd (get (UV2.d_cols d))). Qed.
#[export] Hint Resolve v2_on_rest v2_on_col : shrink.

Lemma v2_readClient_shrinks : shrinks restLength UV2.readClientV.
Proof. unfold UV2.readClientV. shrink. Qed.
#[export] Hint Resolve v2_readClient_shrinks : shrink.

Lemma v2_readKey_shrinks : shrinks restLength UV2.readKeyV.
Proof.
  unfold UV2.readKeyV. apply shrinks_bind; [apply v2_on_col|]. intros k d. repeat case_match; try done.
  eapply shrinks_bind; [apply v2_on_col|]. by intros key d'.
Qed.
#[export] Hint Resolve v2_readKey_shrinks : shrink.

#[global] Instance consumingV2 : Consuming UV2.updateDecoderV2.
Proof.
  constructor; cbn [readRestVarUint UV2.dsDecoder V2.decoder readLeftID readRightID readClient readInfo readString readParentInfo readTypeRef readLength readAnyValue readBuffer readJSONValue readKey UV2.decoder];
    unfold UV2.readLeft, UV2.readRight, UV2.readStringV; try solve [shrink].
  intros [[b c] cols keys] a d' E. unfold UV2.on_ds, V2.on_rest in E. cbn [UV2.d_ds UV2.d_cols UV2.d_keys V2.d_rest V2.d_dsCurrVal] in E. destruct (ReadVarUint b) as [[v|e] r] eqn:Er; [|done].
    injection E as <- <-. exact (binaryReadUvarint_consumes _ _ _ Er).
Qed.

(** ** Structs *)
Section Structs.
Context {D : Type} `{Consuming D} `{JSONText}.

Lemma readRestNumber_shrinks : shrinks restLength (readRestNumber (D := D)).
Proof. unfold readRestNumber. shrink. Qed.

Lemma typeRefs_shrinks ref rd : typeRefs (D := D) ref = Some rd -> shrinks restLength rd.
Proof. unfold typeRefs. intros Ht. repeat (case_match; [injection Ht as <-; shrink|]). done. Qed.

Lemma readContentType_shrinks : shrinks restLength (readContentType (D := D)).
Proof.
  unfold readContentType. apply shrinks_bind; [apply consume_typeRef|]. intros ref. destruct (typeRefs ref) eqn:Et; [|apply shrinks_fail].
  apply typeRefs_shrinks in Et. shrink.
Qed.

Lemma contentRefs_shrinks ref : shrinks restLength (contentRefs (D := D) ref).
Proof.
  unfold contentRefs, readContentAny, readContentBinary, readContentDeleted, readContentDoc, readContentEmbed, readContentFormat,
    readContentJSON, readJSONElement, readContentString. pose proof readContentType_shrinks. shrink.
Qed.
#[local] Hint Resolve readRestNumber_shrinks contentRefs_shrinks : shrink.

Lemma decode_shrinks info client clock : shrinks restLength (decode (D := D) info client clock).
Proof. unfold decode. cbv zeta. shrink. Qed.

End Structs.
#[export] Hint Resolve readRestNumber_shrinks decode_shrinks : shrink.
