(* ===== verification/UpdateStream.v ===== *)
(** * The struct part of an update

    Models how the structs of a store are written client by client
    ([writeClientsStructs] of merge.go, [clientStructList.writeStructs] of
    client_struct_list.go) and how they are read again: the decoding stream of
    struct_decode.go with its guards against corrupt counts, and
    [readClientsStructRefs] of merge.go. *)
From S2P Require Import Prelude Lib0 Rle Object Any Text StringColumn StructStore DeleteSet DeleteSetCodec UpdateCodec Content StructCodec Consume.

(** ** Writing *)
Section Write.
Context {E : Type} `{UpdateEncoder E} `{JSONText} (interpolate : Z -> Z -> Z -> Z).

(** [clientStructList.writeStructs]; a failed search leaves index 0. *)
Definition writeStructs (client clock : Z) (items : list wireStruct) : step E unit :=
  match items with
  | [] => rfail ErrPanic
  | first :: _ =>
      let clock := Z.max clock (Clock (getID first)) in
      let startNewStructs := match findIndexSS interpolate items clock with Ok i => i | Err _ => 0 end in
      _ <-- writeRest (Z.of_nat (length items) - startNewStructs);;;
      _ <-- writeClient client;;;
      _ <-- writeRest (u64 clock);;;
      match drop (Z.to_nat startNewStructs) items with
      | [] => rfail ErrPanic
      | firstStruct :: rest =>
          _ <-- writeStruct firstStruct (clock - Clock (getID firstStruct));;;
          forEach (fun s => writeStruct s 0) rest
      end
  end.

(** The clients to write, with the clock to start from: known clients with
    newer structs, and unknown clients from 0. *)
Definition newerClients (store : structStore wireStruct) (sm : gmap Z Z) : gmap Z Z :=
  let known := map_imap (fun client clock =>
    match clientStructs store client, getState store client with
    | Some _, Ok state => if clock <? state then Some clock else None
    | _, _ => None
    end) sm in
  known ∪ ((fun _ => 0) <$> filter (fun '(client, _) => sm !! client = None) (clients store)).

(** The keys in descending order. *)
Definition mapSortedRange (sm : gmap Z Z) : list (Z * Z) :=
  (fun client => (client, default 0 (sm !! client))) <$> descending (elements (dom sm)).

Definition writeClientsStructs (store : structStore wireStruct) (_sm : gmap Z Z) : step E unit :=
  let sm := newerClients store _sm in
  _ <-- writeRest (Z.of_nat (size sm));;;
  forEach (fun '(client, clock) =>
    match clientStructs store client with
    | None => rfail ErrNoClient
    | Some structs => writeStructs client clock structs
    end) (mapSortedRange sm).

End Write.

(** ** The decoding stream *)
Definition maxYjsClientStructCount : Z := 2 ^ 32 - 1.
Definition maxStallIterations : Z := 64.
Definition maxStructsPerInputByte : Z := 128.
Definition structCountAbsoluteCeiling : Z := 2 ^ 23.
Definition structCountCapConst : Z := maxStructsPerInputByte.

Definition structCountCap (totalInput : Z) : Z :=
  if totalInput <? 0 then structCountAbsoluteCeiling
  else
    let proportional := u64 (totalInput * maxStructsPerInputByte + structCountCapConst) in
    if proportional <? structCountAbsoluteCeiling then proportional else structCountAbsoluteCeiling.

Section Stream.
Context {D : Type} `{UpdateDecoder D} `{JSONText}.

Record structDecodeBlock := mkBlock { b_client : Z; b_startClock : Z; b_declaredCount : Z }.

(** The arenas of the stream only decide where values are allocated. *)
Record structDecodeStream := mkStream {
  st_decoder : D;
  st_lenient : bool;
  st_headerRead : bool;
  st_blocksRemaining : Z;
  st_block : structDecodeBlock;
  st_blockRead : Z;
  st_blockActive : bool;
  st_clock : Z;
  st_stalled : Z;
  st_done : bool;
  st_err : option go_error;
  st_structCap : Z;
  st_structsDecoded : Z
}.
Abbreviation S := structDecodeStream.

Definition newStructDecodeStream (decoder : D) (lenient : bool) : S :=
  mkStream decoder lenient false 0 (mkBlock 0 0 0) 0 false 0 0 false None (structCountCap (RemainingLen decoder)) 0.

Definition set_decoder (d : D) (s : S) : S :=
  mkStream d (st_lenient s) (st_headerRead s) (st_blocksRemaining s) (st_block s) (st_blockRead s) (st_blockActive s) (st_clock s)
    (st_stalled s) (st_done s) (st_err s) (st_structCap s) (st_structsDecoded s).
Definition set_header (blocks : Z) (s : S) : S :=
  mkStream (st_decoder s) (st_lenient s) true blocks (st_block s) (st_blockRead s) (st_blockActive s) (st_clock s)
    (st_stalled s) (st_done s) (st_err s) (st_structCap s) (st_structsDecoded s).
Definition set_done (s : S) : S :=
  mkStream (st_decoder s) (st_lenient s) (st_headerRead s) (st_blocksRemaining s) (st_block s) (st_blockRead s) (st_blockActive s) (st_clock s)
    (st_stalled s) true (st_err s) (st_structCap s) (st_structsDecoded s).
Definition set_block (b : structDecodeBlock) (s : S) : S :=
  mkStream (st_decoder s) (st_lenient s) (st_headerRead s) (st_blocksRemaining s - 1) b 0 (negb (b_declaredCount b =? 0)) (b_startClock b)
    0 (st_done s) (st_err s) (st_structCap s) (st_structsDecoded s).
Definition set_decoded (s : S) : S :=
  mkStream (st_decoder s) (st_lenient s) (st_headerRead s) (st_blocksRemaining s) (st_block s) (st_blockRead s) (st_blockActive s) (st_clock s)
    (st_stalled s) (st_done s) (st_err s) (st_structCap s) (st_structsDecoded s + 1).
Definition set_struct (clock : Z) (s : S) : S :=
  let blockRead := st_blockRead s + 1 in
  mkStream (st_decoder s) (st_lenient s) (st_headerRead s) (st_blocksRemaining s) (st_block s) blockRead
    (negb (blockRead =? b_declaredCount (st_block s))) clock
    (st_stalled s) (st_done s) (st_err s) (st_structCap s) (st_structsDecoded s).
Definition set_stalled (n : Z) (s : S) : S :=
  mkStream (st_decoder s) (st_lenient s) (st_headerRead s) (st_blocksRemaining s) (st_block s) (st_blockRead s) (st_blockActive s) (st_clock s)
    n (st_done s) (st_err s) (st_structCap s) (st_structsDecoded s).

(** [fail]: the first error sticks. *)
Definition sfail {A} (e : go_error) : step S A := fun s =>
  let err := match st_err s with Some x => x | None => e end in
  (Err err, mkStream (st_decoder s) (st_lenient s) (st_headerRead s) (st_blocksRemaining s) (st_block s) (st_blockRead s) (st_blockActive s)
     (st_clock s) (st_stalled s) true (Some err) (st_structCap s) (st_structsDecoded s)).

(** A read of the decoder; its error goes through [fail]. *)
Definition sread {A} (m : step D A) : step S A := fun s =>
  match m (st_decoder s) with
  | (Ok a, d) => (Ok a, set_decoder d s)
  | (Err e, d) => sfail e (set_decoder d s)
  end.

Definition smodify (f : S -> S) : step S unit := fun s => (Ok tt, f s).

(** The header: the number of blocks. *)
Definition readHeader : step S bool := fun s =>
  if st_headerRead s then (Ok true, s)
  else
    match readRestVarUint (st_decoder s) with
    | (Err e, d) => if st_lenient s then (Ok false, set_done (set_decoder d s)) else sfail e (set_decoder d s)
    | (Ok value, d) =>
        match toNumber value with
        | Err e => sfail e (set_decoder d s)
        | Ok count => (Ok true, set_header count (set_decoder d s))
        end
    end.

(** [NextBlock]: [None] when there is none left. *)
Definition NextBlock : step S (option structDecodeBlock) := fun s =>
  match st_err s with
  | Some e => (Err e, s)
  | None =>
      if st_done s then (Ok None, s)
      else if st_blockActive s then sfail ErrMalformed s
      else
        (header <-- readHeader;;;
         if negb header then rret None
         else fun s =>
           if st_blocksRemaining s =? 0 then (Ok None, set_done s)
           else
             (declaredCount <-- sread readRestNumber;;;
              if maxYjsClientStructCount <? declaredCount then sfail ErrBound
              else
                client <-- sread readClient;;;
                clock <-- sread readRestNumber;;;
                let block := mkBlock client clock declaredCount in
                _ <-- smodify (set_block block);;; rret (Some block)) s) s
  end.

(** [stallGuard.progressed]. *)
Definition progressed (beforeRemaining beforeClock : Z) (s : S) : bool * S :=
  if (st_clock s =? beforeClock) && ((beforeRemaining <? 0) || (beforeRemaining <=? RemainingLen (st_decoder s)))
  then (st_stalled s + 1 <=? maxStallIterations, set_stalled (st_stalled s + 1) s)
  else (true, set_stalled 0 s).

(** One struct of the active block: the common part of [NextStruct] and of the
    loop of [collectEagerBlock]. *)
Definition readNext : step S (option wireStruct) :=
  _ <-- smodify set_decoded;;;
  fun s =>
    if st_structCap s <? st_structsDecoded s then sfail ErrBound s
    else
      (info <-- sread readInfo;;;
       fun s =>
         (r <-- sread (decode info (b_client (st_block s)) (st_clock s));;;
          _ <-- smodify (set_struct r.2);;; rret r.1) s) s.

(** [collectEagerBlock]: the structs of the active block. Every round counts
    against [structCap], which bounds the rounds ([fuel]). *)
Fixpoint collectLoop (fuel : nat) (refs : list wireStruct) : step S (list wireStruct) := fun s =>
  if negb (st_blockActive s) then (Ok refs, s)
  else
    match fuel with
    | O => (Err ErrDepth, s)
    | Datatypes.S fuel' =>
        let beforeRemaining := RemainingLen (st_decoder s) in
        let beforeClock := st_clock s in
        (value <-- readNext;;;
         let refs := match value with Some v => refs ++ [v] | None => refs end in
         fun s =>
           let '(ok, s) := progressed beforeRemaining beforeClock s in
           if ok then collectLoop fuel' refs s else sfail ErrMalformed s) s
    end.

Definition collectEagerBlock : step S (list wireStruct) := fun s =>
  if negb (st_blockActive s) then sfail ErrMalformed s
  else collectLoop (Z.to_nat (st_structCap s - st_structsDecoded s + 1)) [] s.

(** [readClientsStructRefs]: a later block of a client replaces an earlier one.
    Every block takes at least one byte of the rest buffer ([fuel]). *)
Fixpoint blocksLoop (fuel : nat) (clientRefs : gmap Z (list wireStruct)) : step S (gmap Z (list wireStruct)) :=
  block <-- NextBlock;;;
  match block with
  | None => rret clientRefs
  | Some block =>
      match fuel with
      | O => rfail ErrDepth
      | Datatypes.S fuel' =>
          refs <-- (if b_declaredCount block =? 0 then rret [] else collectEagerBlock);;;
          blocksLoop fuel' (<[b_client block := refs]> clientRefs)
      end
  end.

Definition readClientsStructRefs : step D (gmap Z (list wireStruct)) := fun decoder =>
  let '(r, s) := blocksLoop (length (dec_rest decoder)) ∅ (newStructDecodeStream decoder false) in
  (r, st_decoder s).

(** *** The lazy reader *)

(** [NextStruct], in lazy mode; [None] when the block is finished. *)
Definition NextStruct : step S (option (option wireStruct)) := fun s =>
  match st_err s with
  | Some e => (Err e, s)
  | None =>
      if negb (st_blockActive s) then (Ok None, s)
      else
        let beforeRemaining := RemainingLen (st_decoder s) in
        let beforeClock := st_clock s in
        (value <-- readNext;;;
         fun s =>
           match value with
           | None =>
               let '(ok, s) := progressed beforeRemaining beforeClock s in
               if ok then (Ok (Some None), s) else sfail ErrMalformed s
           | Some v => (Ok (Some (Some v)), set_stalled 0 s)
           end) s
  end.

End Stream.
Arguments structDecodeStream D : clear implicits.

(** ** Reading terminates

    The loops of the code, without a bound on the rounds: [collects] is the
    loop of [collectEagerBlock] and [runs] the loop of
    [readClientsStructRefs]. *)
Section Loops.
Context {D : Type} `{Consuming D} `{JSONText}.
Abbreviation S := (structDecodeStream D).

Definition refs_of (value : option wireStruct) : list wireStruct := match value with Some v => [v] | None => [] end.

Inductive collects : list wireStruct -> S -> result (list wireStruct) * S -> Prop :=
| collects_done refs s : st_blockActive s = false -> collects refs s (Ok refs, s)
| collects_error refs s e s' : st_blockActive s = true -> readNext s = (Err e, s') -> collects refs s (Err e, s')
| collects_stalled refs s value s1 s2 : st_blockActive s = true -> readNext s = (Ok value, s1) ->
    progressed (RemainingLen (st_decoder s)) (st_clock s) s1 = (false, s2) -> collects refs s (sfail ErrMalformed s2)
| collects_next refs s value s1 s2 r : st_blockActive s = true -> readNext s = (Ok value, s1) ->
    progressed (RemainingLen (st_decoder s)) (st_clock s) s1 = (true, s2) ->
    collects (refs ++ refs_of value) s2 r -> collects refs s r.

Definition block_runs (block : structDecodeBlock) (s : S) (r : result (list wireStruct) * S) : Prop :=
  if b_declaredCount block =? 0 then r = (Ok [], s)
  else if negb (st_blockActive s) then r = sfail ErrMalformed s
  else collects [] s r.

Inductive runs : gmap Z (list wireStruct) -> S -> result (gmap Z (list wireStruct)) * S -> Prop :=
| runs_error m s e s' : NextBlock s = (Err e, s') -> runs m s (Err e, s')
| runs_done m s s' : NextBlock s = (Ok None, s') -> runs m s (Ok m, s')
| runs_block_error m s block s1 e s2 : NextBlock s = (Ok (Some block), s1) -> block_runs block s1 (Err e, s2) -> runs m s (Err e, s2)
| runs_next m s block s1 refs s2 r : NextBlock s = (Ok (Some block), s1) -> block_runs block s1 (Ok refs, s2) ->
    runs (<[b_client block := refs]> m) s2 r -> runs m s r.

(** The loops are deterministic. *)
Lemma collects_det refs s r r' : collects refs s r -> collects refs s r' -> r = r'.
Proof.
  intros Hr. revert r'. induction Hr; intros r' Hr'; destruct Hr'; simplify_eq; try congruence; auto.
  match goal with A : readNext _ = _, B : readNext _ = _ |- _ => rewrite A in B; injection B as <- <- end.
  match goal with A : progressed _ _ _ = _, B : progressed _ _ _ = _ |- _ => rewrite A in B; injection B as <- end. auto.
Qed.

Lemma block_runs_det block s r r' : block_runs block s r -> block_runs block s r' -> r = r'.
Proof. unfold block_runs. repeat case_match; [congruence..|]. apply collects_det. Qed.

Lemma runs_det m s r r' : runs m s r -> runs m s r' -> r = r'.
Proof.
  intros Hr. revert r'. induction Hr; intros r' Hr'; destruct Hr'; try congruence.
  all: match goal with A : NextBlock _ = _, B : NextBlock _ = _ |- _ => rewrite A in B; injection B as <- <- end.
  all: match goal with A : block_runs _ _ _, B : block_runs _ _ _ |- _ => pose proof (block_runs_det _ _ _ _ A B); simplify_eq; auto end.
Qed.

(** *** What the steps change *)
Definition left (s : S) : nat := restLength (st_decoder s).

Lemma sread_cases {A} (m : step D A) s : shrinks restLength m ->
  (exists e d, sread m s = sfail e (set_decoder d s)) \/
  (exists a d, m (st_decoder s) = (Ok a, d) /\ (restLength d <= left s)%nat /\ sread m s = (Ok a, set_decoder d s)).
Proof.
  intros Hm. unfold sread, left. specialize (Hm (st_decoder s)). destruct (m (st_decoder s)) as [[a|e] d]; [right|left]; eauto.
Qed.

Lemma progressed_keeps before clock s ok s' : progressed before clock s = (ok, s') ->
  st_structCap s' = st_structCap s /\ st_structsDecoded s' = st_structsDecoded s /\ st_decoder s' = st_decoder s.
Proof. unfold progressed. destruct (_ && _); intros [= <- <-]; done. Qed.

(** A struct counts against the cap. *)
Lemma readNext_counts s value s' : readNext s = (Ok value, s') ->
  st_structCap s' = st_structCap s /\ st_structsDecoded s' = st_structsDecoded s + 1 /\ st_structsDecoded s' <= st_structCap s' /\ (left s' <= left s)%nat.
Proof.
  unfold readNext, rbind at 1, smodify. cbn [st_structCap st_structsDecoded set_decoded].
  destruct (Z.ltb_spec (st_structCap s) (st_structsDecoded s + 1)); [by intros [= ]|]. unfold rbind at 1.
  destruct (sread_cases readInfo (set_decoded s) consume_info) as [(e & d & ->)|(info & d & _ & Hd & ->)]; [by intros [= ]|].
  unfold rbind at 1. destruct (sread_cases (decode info (b_client (st_block (set_decoder d (set_decoded s)))) (st_clock (set_decoder d (set_decoded s))))
    (set_decoder d (set_decoded s)) (decode_shrinks _ _ _)) as [(e & d2 & ->)|(r & d2 & _ & Hd2 & ->)]; [by intros [= ]|].
  cbn. intros [= <- <-]. cbn. split_and!; try done. unfold left in *. cbn in *. lia.
Qed.

(** A block takes at least its count from the rest buffer. *)
Lemma NextBlock_consumes s block s' : NextBlock s = (Ok (Some block), s') ->
  st_structCap s' = st_structCap s /\ st_structsDecoded s' = st_structsDecoded s /\ (left s' < left s)%nat.
Proof.
  unfold NextBlock. destruct (st_err s); [done|]. destruct (st_done s); [done|]. destruct (st_blockActive s); [by intros [= ]|].
  intros (header & s1 & Eh & E)%rbind_inv.
  assert (Hs1 : st_structCap s1 = st_structCap s /\ st_structsDecoded s1 = st_structsDecoded s /\ (left s1 <= left s)%nat).
  { unfold readHeader in Eh. destruct (st_headerRead s); [by injection Eh as <- <-|]. pose proof (consume_rest (st_decoder s)) as Hc.
    destruct (readRestVarUint (st_decoder s)) as [[v|e] d]; [|destruct (st_lenient s); [by injection Eh as <- <-|done]].
    destruct (toNumber v); [|done]. by injection Eh as <- <-. }
  destruct Hs1 as (<- & <- & Hl). destruct header; [|done]. cbn [negb] in E. destruct (st_blocksRemaining s1 =? 0); [done|].
  apply rbind_inv in E as (count & s2 & E1 & E).
  assert (Hs2 : st_structCap s2 = st_structCap s1 /\ st_structsDecoded s2 = st_structsDecoded s1 /\ (left s2 < left s1)%nat).
  { unfold sread, readRestNumber, rbind, rlift in E1. destruct (readRestVarUint (st_decoder s1)) as [[v|e] d] eqn:Ev; [|done].
    pose proof (consume_rest_strictly _ _ _ Ev). destruct (toNumber v); [|done]. by injection E1 as <- <-. }
  destruct Hs2 as (<- & <- & Hl2). destruct (maxYjsClientStructCount <? count); [done|].
  apply rbind_inv in E as (client & s3 & E2 & E). apply rbind_inv in E as (clock & s4 & E3 & E). injection E as <- <-.
  destruct (sread_cases readClient s2 consume_client) as [(e & d & Ec)|(c & d & _ & Hd & Ec)]; rewrite Ec in E2; [done|]. injection E2 as <- <-.
  destruct (sread_cases readRestNumber (set_decoder d s2) readRestNumber_shrinks) as [(e & d2 & Ec2)|(c2 & d2 & _ & Hd2 & Ec2)]; rewrite Ec2 in E3; [done|].
  injection E3 as <- <-. cbn. split_and!; try done. unfold left in *. cbn in *. lia.
Qed.

(** *** The bounds are enough *)
Lemma collectLoop_collects fuel refs s : st_structsDecoded s <= st_structCap s ->
  (Z.to_nat (st_structCap s - st_structsDecoded s + 1) <= fuel)%nat -> collects refs s (collectLoop fuel refs s).
Proof.
  revert refs s. induction fuel as [|fuel IH]; intros refs s Hd Hf; [lia|]. cbn [collectLoop].
  destruct (st_blockActive s) eqn:Ea; [|by apply collects_done]. cbn [negb]. unfold rbind at 1.
  destruct (readNext s) as [[value|e] s1] eqn:En; [|by apply collects_error].
  destruct (readNext_counts _ _ _ En) as (Hc & Hn & Hle & _).
  destruct (progressed (RemainingLen (st_decoder s)) (st_clock s) s1) as [[] s2] eqn:Ep; [|by eapply collects_stalled].
  destruct (progressed_keeps _ _ _ _ _ Ep) as (Hc2 & Hn2 & _). eapply collects_next; [done..|].
  assert (match value with Some v => refs ++ [v] | None => refs end = refs ++ refs_of value) as ->
    by (destruct value; [done|by rewrite app_nil_r]).
  apply IH; lia.
Qed.

(** What a block leaves. *)
Lemma collects_keeps refs s r : collects refs s r -> st_structsDecoded s <= st_structCap s -> forall l s', r = (Ok l, s') ->
  st_structCap s' = st_structCap s /\ st_structsDecoded s' <= st_structCap s' /\ (left s' <= left s)%nat.
Proof.
  induction 1 as [|? ? ? ? ? En|? ? ? ? ? ? En|? ? ? ? ? ? ? En Ep _ IH]; intros Hd l s3 E; simplify_eq; [done|].
  destruct (readNext_counts _ _ _ En) as (Hc & Hn & Hle & Hl). destruct (progressed_keeps _ _ _ _ _ Ep) as (Hc2 & Hn2 & Hd2).
  unfold left in *. destruct (IH ltac:(lia) _ _ eq_refl) as (Hc3 & Hn3 & Hl3). rewrite Hd2 in Hl3. split_and!; lia.
Qed.

Lemma blocksLoop_runs fuel m s : st_structsDecoded s <= st_structCap s -> (left s <= fuel)%nat -> runs m s (blocksLoop fuel m s).
Proof.
  revert m s. induction fuel as [|fuel IH]; intros m s Hd Hf; cbn [blocksLoop]; unfold rbind at 1;
    destruct (NextBlock s) as [[[block|]|e] s1] eqn:En; try by (apply runs_error || apply runs_done).
  { destruct (NextBlock_consumes _ _ _ En) as (_ & _ & Hl). lia. }
  destruct (NextBlock_consumes _ _ _ En) as (Hc & Hn & Hl). unfold rbind at 1.
  set (r := (if b_declaredCount block =? 0 then rret [] else collectEagerBlock) s1).
  assert (Hb : block_runs block s1 r).
  { unfold block_runs, r. destruct (b_declaredCount block =? 0); [done|]. unfold collectEagerBlock. destruct (st_blockActive s1); [|done].
    apply collectLoop_collects; lia. }
  destruct r as [[refs|e] s2] eqn:Er; [|by eapply runs_block_error].
  assert (st_structCap s2 = st_structCap s1 /\ st_structsDecoded s2 <= st_structCap s2 /\ (left s2 <= left s1)%nat) as (Hc2 & Hn2 & Hl2).
  { unfold block_runs in Hb. destruct (b_declaredCount block =? 0); [injection Hb as _ ->; split_and!; [done|lia|done]|].
    destruct (st_blockActive s1); [|done]. eapply collects_keeps; [exact Hb|lia|done]. }
  eapply runs_next; [done..|]. apply IH; lia.
Qed.

Lemma structCountCap_range n : 0 <= structCountCap n <= structCountAbsoluteCeiling.
Proof.
  unfold structCountCap. pose proof (u64_range (n * maxStructsPerInputByte + structCountCapConst)) as Hu. unfold is_u64, structCountAbsoluteCeiling in *.
  repeat case_match; lia.
Qed.

Lemma readClientsStructRefs_runs d : exists s,
  readClientsStructRefs d = ((readClientsStructRefs d).1, st_decoder s) /\ runs ∅ (newStructDecodeStream d false) ((readClientsStructRefs d).1, s).
Proof.
  unfold readClientsStructRefs. pose proof (blocksLoop_runs (length (dec_rest d)) ∅ (newStructDecodeStream d false)) as Hr.
  destruct (blocksLoop _ _ _) as [r s]. exists s. split; [done|]. apply Hr; [|done]. cbn. apply structCountCap_range.
Qed.

End Loops.

(** ** Sending and receiving the structs *)

(** The structs that reach beyond [clock], and where each is cut. *)
Definition sentFrom (clock : Z) (items : list wireStruct) : list wireStruct := filter (fun s => clock < struct_end s) items.
Definition cutAt (clock : Z) (s : wireStruct) : Z := Z.max 0 (clock - Clock (getID s)).
Definition startClock (items : list wireStruct) : Z := match items with first :: _ => Clock (getID first) | [] => 0 end.

Lemma filter_same {A} (P Q : A -> Prop) `{!forall x, Decision (P x)} `{!forall x, Decision (Q x)} (l : list A) :
  (forall x, x ∈ l -> (P x <-> Q x)) -> filter P l = filter Q l.
Proof.
  intros Hl. induction l as [|x l IH]; [done|]. rewrite !filter_cons. specialize (Hl x) as Hx.
  rewrite IH by (intros y Hy; apply Hl; set_solver). destruct (decide (P x)), (decide (Q x)); try done; set_solver.
Qed.

Section Sending.
Context (interpolate : Z -> Z -> Z -> Z).
Context (Hinterp : forall clock span end_, 0 < span -> 0 <= clock <= span -> 0 <= end_ -> 0 <= interpolate clock span end_ <= end_).

Lemma sentFrom_all c k (l : list wireStruct) : contiguous_from c l -> k <= c -> sentFrom k l = l.
Proof.
  revert c. induction l as [|s l IH]; intros c Hc Hk; [done|]. destruct Hc as (Es & Hs & Hc). unfold sentFrom. rewrite filter_cons_True by (unfold struct_end; lia).
  f_equal. eapply IH; [exact Hc|]. unfold struct_end. lia.
Qed.

Lemma contiguous_drop c (l : list wireStruct) n s : contiguous_from c l -> l !! n = Some s -> contiguous_from (Clock (getID s)) (drop n l).
Proof.
  revert n c. induction l as [|t l IH]; intros [|n] c Hc El; simplify_eq/=; [naive_solver|]. destruct Hc as (_ & _ & Hc). by eapply IH.
Qed.

Lemma sentFrom_covered c (l : list wireStruct) n s k : contiguous_from c l -> l !! n = Some s -> covers s k -> sentFrom k l = drop n l.
Proof.
  revert n c. induction l as [|t l IH]; intros n c Hc El Hs; [done|]. destruct Hc as (Et & Ht & Hc). destruct n as [|n]; simplify_eq/=.
  - unfold sentFrom. rewrite filter_cons_True by apply Hs. f_equal. eapply (sentFrom_all _ _ _ Hc). unfold covers in Hs. lia.
  - destruct (contiguous_lt _ _ _ _ Hc El) as [Hlt _]. unfold sentFrom. rewrite filter_cons_False by (unfold covers in Hs; lia). by eapply IH.
Qed.

(** The search finds where they begin. *)
Lemma sentFrom_drop c k (l : list wireStruct) : contiguous_from c l -> c <= k < list_end c l ->
  exists i s rest, findIndexSS interpolate l k = Ok i /\ 0 <= i /\ drop (Z.to_nat i) l = s :: rest /\
    sentFrom k l = s :: rest /\ covers s k /\ contiguous_from (struct_end s) rest /\ Z.of_nat (length l) - i = Z.of_nat (length (s :: rest)).
Proof.
  intros Hc Hk. destruct (contiguous_covered _ _ _ Hc Hk) as (j & s & Hj%zlookup_elem & Hs).
  destruct (findIndexSS_covers interpolate Hinterp c l k s Hc Hj Hs) as (i & Ei & El). exists i, s, (drop (Datatypes.S (Z.to_nat i)) l).
  unfold zlookup in El. destruct (Z.ltb_spec i 0); [done|]. pose proof (drop_S _ _ _ El) as Ed.
  pose proof (contiguous_drop _ _ _ _ Hc El) as Hd. pose proof (lookup_lt_Some _ _ _ El). rewrite Ed in Hd. destruct Hd as (_ & _ & Hd). split_and!; try done.
  - rewrite <- Ed. by eapply sentFrom_covered.
  - rewrite <- Ed, length_drop. lia.
Qed.

Context `{JSONText}.

Definition block_fields (client clock : Z) (items : list wireStruct) : list field :=
  let l := sentFrom clock items in
  [FRest (Z.of_nat (length l)); FClient client; FRest (Z.max clock (startClock items))] ++ (l ≫= fun s => struct_fields s (cutAt clock s)).

Lemma struct_clocks json_ok s : struct_ok json_ok s -> is_safe (Clock (getID s)) /\ is_safe (struct_end s).
Proof. destruct s as [it|gc|sk]; cbn; [intros [[_ ?] _ ? _ _ _ _ _]; done|by intros [[_ ?] ?]..]. Qed.

(** A client's structs that an update carries. *)
Definition client_fits (json_ok : any -> Prop) (client : Z) (items : list wireStruct) : Prop :=
  client_ok client items /\ is_safe client /\ Forall (struct_ok json_ok) items.

(** The structs that are sent: the first may be cut, the others follow it. *)
Lemma sent_structs json_ok client clock items : client_fits json_ok client items -> 0 <= clock ->
  (exists s, s ∈ items /\ clock < struct_end s) ->
  exists s rest, sentFrom clock items = s :: rest /\ Z.max clock (startClock items) = Clock (getID s) + cutAt clock s /\
    cut_ok (cutAt clock s) (structLength s) /\ contiguous_from (struct_end s) rest /\ Forall (fun t => cutAt clock t = 0) rest /\
    (exists i, findIndexSS interpolate items (Z.max clock (startClock items)) = Ok i /\ 0 <= i /\ drop (Z.to_nat i) items = s :: rest /\
       Z.of_nat (length items) - i = Z.of_nat (length (s :: rest))) /\
    Forall (fun t => struct_ok json_ok t /\ 0 < structLength t /\ Client (getID t) = client) (s :: rest).
Proof.
  intros ((Hne & (c & Hc) & Hcl) & _ & Hok) Hk (t & Ht & Hkt). destruct items as [|first items']; [done|]. set (items := first :: items') in *.
  assert (Estart : startClock items = c) by (by destruct Hc). rewrite Estart.
  pose proof (contiguous_end _ _ _ Hc Ht) as Hend.
  assert (Hm : c <= Z.max clock c < list_end c items).
  { assert (c < list_end c items); [|lia]. destruct Hc as (Ef & Hf & Hc'). pose proof (list_end_ge _ _ Hc'). unfold items. simpl. unfold struct_end in *. lia. }
  destruct (sentFrom_drop c (Z.max clock c) items Hc Hm) as (i & s & rest & Ei & Hi & Ed & Es & Hs & Hr & Hlen).
  assert (Esent : sentFrom clock items = s :: rest).
  { rewrite <- Es. apply filter_same. intros u Hu. apply list_elem_of_lookup in Hu as (n & Hn). destruct (contiguous_lt _ _ _ _ Hc Hn). unfold struct_end. lia. }
  assert (Hin : Forall (fun t => t ∈ items) (s :: rest)).
  { apply list.Forall_forall. intros u Hu. rewrite <- Ed in Hu. apply list_elem_of_lookup in Hu as (n & Hn). rewrite lookup_drop in Hn. by eapply list_elem_of_lookup_2. }
  assert (Hsc : c <= Clock (getID s)).
  { apply list.Forall_cons in Hin as [Hin _]. apply list_elem_of_lookup in Hin as (n & Hn). by eapply contiguous_lt. }
  exists s, rest. unfold covers, struct_end in Hs. split_and!; [done|unfold cutAt; lia|unfold cut_ok, cutAt; lia|done| |by exists i|].
  - apply list.Forall_forall. intros u Hu. apply list_elem_of_lookup in Hu as (n & Hn). destruct (contiguous_lt _ _ _ _ Hr Hn). unfold cutAt, struct_end in *. lia.
  - eapply Forall_impl; [|exact Hin]. cbn. intros u Hu. rewrite list.Forall_forall in Hcl, Hok. split_and!; [by apply Hok| |by apply Hcl].
    apply list_elem_of_lookup in Hu as (n & Hn). exact (proj2 (contiguous_lt _ _ _ _ Hc Hn)).
Qed.

(** *** Writing *)
Lemma forEach_bind {E} `{UpdateEncoder E} {A} (f : A -> step E unit) (g : A -> list field) l (e : E) :
  Forall (fun x => forall e, f x e = writeFields (g x) e) l -> forEach f l e = writeFields (l ≫= g) e.
Proof.
  intros Hl. revert e. induction Hl as [|x l Hx _ IH]; intros e; [done|]. rewrite bind_cons, writeFields_app. cbn [forEach].
  apply rbind_ext; [apply Hx|]. intros _ d. apply IH.
Qed.

Lemma writeStructs_fields {E} `{UpdateEncoder E} json_ok client clock items (e : E) : client_fits json_ok client items -> 0 <= clock ->
  (exists s, s ∈ items /\ clock < struct_end s) ->
  writeStructs interpolate client clock items e = writeFields (block_fields client clock items) e.
Proof.
  intros Hf Hk Hs. destruct (sent_structs _ _ _ _ Hf Hk Hs) as (s & rest & Es & Em & Hcut & _ & Hz & (i & Ei & Hi & Ed & Hl) & Hok).
  unfold writeStructs, block_fields. destruct Hf as ((Hne & _) & _). destruct items as [|first items']; [done|]. cbn [startClock] in *.
  cbv zeta. rewrite Ei, Ed, Es, Hl. apply list.Forall_cons in Hok as [(Hs1 & Hs2 & _) Hok].
  assert (Hmax : u64 (Z.max clock (Clock (getID first))) = Z.max clock (Clock (getID first))).
  { apply u64_small, safe_is_u64. rewrite Em. unfold cut_ok in Hcut.
    destruct (struct_clocks _ _ Hs1).
    unfold is_safe, struct_end in *. lia. }
  rewrite Hmax. cbn [app]. do 3 (rewrite writeFields_cons; apply rbind_ext; [done|]; clear e; intros _ e). rewrite bind_cons, writeFields_app.
  replace (Z.max clock (Clock (getID first)) - Clock (getID s)) with (cutAt clock s) by lia.
  apply rbind_ext; [eapply writeStruct_fields; [exact Hs1|unfold cut_ok in Hcut; lia]|]. intros _ e4.
  apply forEach_bind. apply list.Forall_forall. intros t Ht e5. rewrite list.Forall_forall in Hz, Hok. destruct (Hok t Ht) as (Ht1 & Ht2 & _).
  rewrite (Hz t Ht). eapply writeStruct_fields; [exact Ht1|lia].
Qed.

(** The whole struct part. *)
Definition update_fields (store : structStore wireStruct) (sm : gmap Z Z) : list field :=
  let nm := newerClients store sm in
  FRest (Z.of_nat (size nm)) :: (mapSortedRange nm ≫= fun p => block_fields p.1 p.2 (default [] (clients store !! p.1))).

Definition store_fits (json_ok : any -> Prop) (store : structStore wireStruct) : Prop :=
  store_ok store /\ map_Forall (client_fits json_ok) (clients store).

Lemma newerClients_lookup json_ok store sm client clock : store_fits json_ok store -> map_Forall (fun _ k => 0 <= k) sm ->
  newerClients store sm !! client = Some clock ->
  exists items, clients store !! client = Some items /\ client_fits json_ok client items /\ 0 <= clock /\ exists s, s ∈ items /\ clock < struct_end s.
Proof.
  intros [Hok Hf] Hsm Hn. unfold newerClients in Hn. apply lookup_union_Some_raw in Hn as [Hn|[_ Hn]].
  - rewrite map_lookup_imap in Hn. destruct (sm !! client) as [k|] eqn:Ek; [|done]. simpl in Hn. unfold clientStructs in Hn.
    destruct (clients store !! client) as [items|] eqn:Ei; [|done]. destruct (getState_ok store client items Hok Ei) as (c & Hc & Es & Hne & Hlt).
    rewrite Es in Hn. destruct (Z.ltb_spec k (list_end c items)); [|done]. injection Hn as ->. exists items. split_and!; [done|by apply Hf|exact (Hsm _ _ Ek)|].
    destruct (list.last items) as [s|] eqn:El; [|by apply last_None in El]. exists s. split; [by apply last_Some_elem_of|]. by rewrite <- (list_end_last c _ _ El).
  - rewrite lookup_fmap in Hn. destruct (filter _ (clients store) !! client) as [items|] eqn:Ei; [|done]. simpl in Hn. injection Hn as <-.
    apply map_lookup_filter_Some in Ei as [Ei _]. exists items. specialize (Hf _ _ Ei) as Hc. split_and!; [done|done|done|].
    destruct Hc as ((Hne & (c & Hcont) & _) & _ & Hs). destruct items as [|s items]; [done|]. exists s. split; [set_solver|].
    apply list.Forall_cons in Hs as [Hs _]. destruct Hcont as (_ & Hl & _). unfold struct_end.
    destruct (struct_clocks _ _ Hs) as [[? _] _]. lia.
Qed.

Lemma mapSortedRange_elem (nm : gmap Z Z) p : p ∈ mapSortedRange nm <-> nm !! p.1 = Some p.2.
Proof.
  unfold mapSortedRange. rewrite list_elem_of_fmap. split.
  - intros (c & -> & Hc). unfold descending in Hc. rewrite merge_sort_Permutation, elem_of_elements, elem_of_dom in Hc. destruct Hc as [k Hk]. cbn. by rewrite Hk.
  - intros Hp. exists p.1. rewrite Hp. split; [by destruct p|]. unfold descending. rewrite merge_sort_Permutation, elem_of_elements, elem_of_dom. by rewrite Hp.
Qed.

Lemma mapSortedRange_NoDup (nm : gmap Z Z) : NoDup (mapSortedRange nm).*1.
Proof.
  unfold mapSortedRange. rewrite <- list_fmap_compose. change (NoDup (id <$> descending (elements (dom nm)))). rewrite list_fmap_id. unfold descending. rewrite merge_sort_Permutation. apply NoDup_elements.
Qed.

Lemma writeClientsStructs_fields {E} `{UpdateEncoder E} json_ok store sm (e : E) : store_fits json_ok store -> map_Forall (fun _ k => 0 <= k) sm ->
  writeClientsStructs interpolate store sm e = writeFields (update_fields store sm) e.
Proof.
  intros Hf Hsm. unfold writeClientsStructs, update_fields. cbv zeta. rewrite writeFields_cons. apply rbind_ext; [done|]. clear e. intros _ e.
  apply forEach_bind. apply list.Forall_forall. intros [client clock] Hp%mapSortedRange_elem e1. cbn [fst snd] in *.
  destruct (newerClients_lookup _ _ _ _ _ Hf Hsm Hp) as (items & Ei & Hc & Hk & Hs). unfold clientStructs. rewrite Ei. cbn [default from_option]. unfold id.
  by eapply writeStructs_fields.
Qed.

End Sending.

(** *** Reading *)
Section Receiving.
Context {D : Type} `{Consuming D} `{JSONText} (json : any -> any) (json_ok : any -> Prop).
Abbreviation S := (structDecodeStream D).

(** A stream between two blocks. *)
Record idle (d : D) (blocks decoded cap : Z) (s : S) : Prop := {
  i_decoder : st_decoder s = d;
  i_header : st_headerRead s = true;
  i_blocks : st_blocksRemaining s = blocks;
  i_active : st_blockActive s = false;
  i_done : st_done s = false;
  i_err : st_err s = None;
  i_cap : st_structCap s = cap;
  i_decoded : st_structsDecoded s = decoded
}.

(** A stream inside a block with [n] structs to come. *)
Record reading (d : D) (blocks decoded cap client clock : Z) (n : nat) (s : S) : Prop := {
  r_decoder : st_decoder s = d;
  r_header : st_headerRead s = true;
  r_blocks : st_blocksRemaining s = blocks;
  r_active : st_blockActive s = negb (Z.of_nat n =? 0);
  r_count : b_declaredCount (st_block s) = st_blockRead s + Z.of_nat n;
  r_client : b_client (st_block s) = client;
  r_clock : st_clock s = clock;
  r_done : st_done s = false;
  r_err : st_err s = None;
  r_cap : st_structCap s = cap;
  r_decoded : st_structsDecoded s = decoded
}.

Lemma NextBlock_reads d d' blocks decoded cap s client clock n : idle d blocks decoded cap s -> 0 < blocks -> (0 < n)%nat ->
  Z.of_nat n <= structCountAbsoluteCeiling -> is_safe clock ->
  delivers json d [FRest (Z.of_nat n); FClient client; FRest clock] d' ->
  exists s', NextBlock s = (Ok (Some (mkBlock client clock (Z.of_nat n))), s') /\ reading d' (blocks - 1) decoded cap client clock n s'.
Proof.
  intros [Ed Eh Eb Ea Edn Ee Ec Edc] Hb Hn Hcap Hck (d1 & R1 & d2 & R2 & d3 & R3 & <-). cbn [reads] in *. eexists. split.
  - unfold NextBlock. rewrite Ee, Edn, Ea. unfold rbind at 1, readHeader. rewrite Eh. cbn [negb]. rewrite Eb.
    destruct (Z.eqb_spec blocks 0); [lia|]. unfold rbind at 1, sread at 1, readRestNumber. unfold rbind at 1. rewrite Ed, R1. unfold rlift.
    assert (is_safe (Z.of_nat n)) by (unfold is_safe, maxSafeInteger, structCountAbsoluteCeiling in *; lia). rewrite toNumber_safe by done.
    destruct (Z.ltb_spec maxYjsClientStructCount (Z.of_nat n)); [unfold maxYjsClientStructCount, structCountAbsoluteCeiling in *; lia|].
    unfold rbind at 1, sread at 1. cbn [st_decoder set_decoder]. rewrite R2. unfold rbind at 1, sread at 1. cbn [st_decoder set_decoder].
    unfold rbind at 1. rewrite R3, toNumber_safe by done. reflexivity.
  - constructor; cbn; try done. by rewrite Eb.
Qed.

(** The structs of a block, each at the clock where the one before ends. *)
Fixpoint chained (cut : wireStruct -> Z) (client clock : Z) (l : list wireStruct) : Prop :=
  match l with
  | [] => True
  | x :: l' => clock = Clock (getID x) + cut x /\ cut_ok (cut x) (structLength x) /\ struct_ok json_ok x /\ 0 < structLength x /\
      Client (getID x) = client /\ chained cut client (struct_end x) l'
  end.

Lemma readNext_struct cut (x : wireStruct) d d' blocks decoded cap client clock n s : reading d blocks decoded cap client clock (Datatypes.S n) s ->
  decoded < cap -> clock = Clock (getID x) + cut x -> cut_ok (cut x) (structLength x) -> struct_ok json_ok x -> 0 < structLength x ->
  Client (getID x) = client -> delivers json d (struct_fields x (cut x)) d' ->
  exists s1 s2, readNext s = (Ok (Some (struct_back json x (cut x))), s1) /\
    progressed (RemainingLen (st_decoder s)) (st_clock s) s1 = (true, s2) /\ reading d' blocks (decoded + 1) cap client (struct_end x) n s2.
Proof.
  intros [Ed Eh Eb Ea En Ecl Eck Edn Ee Ec Edc] Hcap -> Hcut Hok Hl <- Hd.
  pose proof (struct_read json json_ok x (cut x) d d' Hok Hcut ltac:(lia) Hd) as Hr. unfold readStruct in Hr.
  apply rbind_inv in Hr as (info & d1 & Ei & Edec).
  eexists. eexists. split_and!.
  - unfold readNext, rbind at 1, smodify. cbn [st_structCap st_structsDecoded set_decoded]. rewrite Ec, Edc. destruct (Z.ltb_spec cap (decoded + 1)); [lia|].
    unfold rbind at 1, sread at 1. cbn [st_decoder set_decoded]. rewrite Ed, Ei. unfold rbind at 1, sread at 1.
    cbn [st_decoder set_decoder st_block st_clock]. cbn [set_decoded st_block st_clock]. rewrite Ecl, Eck, Edec. reflexivity.
  - unfold progressed. cbn [set_struct st_clock snd]. destruct (Z.eqb_spec (struct_end x) (st_clock s)) as [E|_]; [unfold struct_end, cut_ok in *; lia|]. reflexivity.
  - constructor; cbn; try done; try lia.
Qed.

Lemma collects_structs cut l : forall refs d d' blocks decoded cap client clock s, reading d blocks decoded cap client clock (length l) s ->
  decoded + Z.of_nat (length l) <= cap -> chained cut client clock l -> delivers json d (l ≫= fun x => struct_fields x (cut x)) d' ->
  exists s', collects refs s (Ok (refs ++ ((fun x => struct_back json x (cut x)) <$> l)), s') /\ idle d' blocks (decoded + Z.of_nat (length l)) cap s'.
Proof.
  induction l as [|x l IH]; intros refs d d' blocks decoded cap client clock s Hs Hcap Hc Hd.
  - exists s. rewrite app_nil_r. cbn in Hd. subst d'. destruct Hs. split; [by apply collects_done|]. constructor; try done. cbn. lia.
  - destruct Hc as (Eck & Hcut & Hok & Hl & Ecl & Hc). rewrite bind_cons, delivers_app in Hd. destruct Hd as (d1 & Hd1 & Hd).
    assert (Hlt : decoded < cap) by (cbn in Hcap; lia).
    destruct (readNext_struct cut x d d1 _ _ _ _ _ _ _ Hs Hlt Eck Hcut Hok Hl Ecl Hd1) as (s1 & s2 & En & Ep & Hs2).
    assert (Hcap' : decoded + 1 + Z.of_nat (length l) <= cap) by (cbn in Hcap; lia).
    destruct (IH (refs ++ [struct_back json x (cut x)]) _ _ _ _ _ _ _ _ Hs2 Hcap' Hc Hd) as (s' & Hcol & Hi). exists s'. split.
    + eapply collects_next; [by destruct Hs|exact En|exact Ep|]. rewrite fmap_cons, <- (assoc_L (++)) in *. exact Hcol.
    + replace (decoded + Z.of_nat (length (x :: l))) with (decoded + 1 + Z.of_nat (length l)) by (cbn; lia). done.
Qed.

(** A block is read as the structs that were sent. *)
Context (interpolate : Z -> Z -> Z -> Z).
Context (Hinterp : forall clock span end_, 0 < span -> 0 <= clock <= span -> 0 <= end_ -> 0 <= interpolate clock span end_ <= end_).

Definition received (clock : Z) (items : list wireStruct) : list wireStruct :=
  (fun x => struct_back json x (cutAt clock x)) <$> sentFrom clock items.

Lemma chained_rest clock client c l : contiguous_from c l -> Forall (fun t => cutAt clock t = 0) l ->
  Forall (fun t => struct_ok json_ok t /\ 0 < structLength t /\ Client (getID t) = client) l -> chained (cutAt clock) client c l.
Proof.
  revert c. induction l as [|x l IH]; intros c Hc Hz Hok; [done|]. destruct Hc as (Ex & Hx & Hc).
  apply list.Forall_cons in Hz as [Hz Hz'], Hok as [(Ho & Hl & Hcl) Hok]. cbn [chained]. rewrite Hz. unfold cut_ok. split_and!; try done; try lia. by apply IH.
Qed.

Lemma sent_chained client clock items : client_fits json_ok client items -> 0 <= clock -> (exists s, s ∈ items /\ clock < struct_end s) ->
  chained (cutAt clock) client (Z.max clock (startClock items)) (sentFrom clock items) /\ (0 < length (sentFrom clock items))%nat /\
  is_safe (Z.max clock (startClock items)).
Proof.
  intros Hf Hk Hs. destruct (sent_structs interpolate Hinterp _ _ _ _ Hf Hk Hs) as (s & rest & -> & Em & Hcut & Hc & Hz & _ & Hok).
  apply list.Forall_cons in Hok as [(Ho & Hl & Hcl) Hok]. rewrite Em. destruct (struct_clocks _ _ Ho) as [Ha Hb]. unfold is_safe, struct_end in Ha, Hb. split_and!.
  - cbn [chained]. split_and!; try done. by apply chained_rest.
  - simpl. lia.
  - unfold cut_ok in Hcut. unfold is_safe. lia.
Qed.

Definition sent_count (L : list (Z * Z)) (store : structStore wireStruct) : Z :=
  foldr (fun p acc => Z.of_nat (length (sentFrom p.2 (default [] (clients store !! p.1)))) + acc) 0 L.

Lemma sent_count_nonneg L store : 0 <= sent_count L store.
Proof. induction L; cbn; [lia|]. fold (sent_count L store). lia. Qed.

(** The blocks of a list of clients. *)
Lemma runs_blocks store (L : list (Z * Z)) : forall m d d' decoded cap s, idle d (Z.of_nat (length L)) decoded cap s ->
  cap <= structCountAbsoluteCeiling -> 0 <= decoded -> decoded + sent_count L store <= cap ->
  Forall (fun p => exists items, clients store !! p.1 = Some items /\ client_fits json_ok p.1 items /\ 0 <= p.2 /\ exists s, s ∈ items /\ p.2 < struct_end s) L ->
  delivers json d (L ≫= fun p => block_fields p.1 p.2 (default [] (clients store !! p.1))) d' ->
  exists s', st_decoder s' = d' /\
    runs m s (Ok (fold_left (fun m p => <[p.1 := received p.2 (default [] (clients store !! p.1))]> m) L m), s').
Proof.
  induction L as [|[client clock] L IH]; intros m d d' decoded cap s Hs Hceil Hdec Hcap HL Hd.
  - cbn in Hd. subst d'. destruct Hs as [Ed Eh Eb Ea Edn Ee _ _]. eexists (set_done s). split; [done|]. apply runs_done.
    unfold NextBlock. rewrite Ee, Edn, Ea. unfold rbind, readHeader. rewrite Eh. cbn [negb]. by rewrite Eb.
  - apply list.Forall_cons in HL as [(items & Ei & Hf & Hk & Hex) HL]. cbn [fst snd] in *. rewrite bind_cons, delivers_app in Hd. destruct Hd as (d1 & Hd1 & Hd).
    cbn [fst snd] in Hd1. cbn [sent_count foldr fst snd] in Hcap. fold (sent_count L store) in Hcap. rewrite Ei in Hd1, Hcap. cbn [default from_option] in Hd1, Hcap. unfold id in Hd1, Hcap.
    pose proof (sent_count_nonneg L store). destruct (sent_chained _ _ _ Hf Hk Hex) as (Hch & Hne & Hsafe).
    unfold block_fields in Hd1. rewrite delivers_app in Hd1. destruct Hd1 as (d2 & Hh & Hd1).
    assert (Hb : 0 < Z.of_nat (length ((client, clock) :: L))) by (simpl; lia).
    assert (Hn : Z.of_nat (length (sentFrom clock items)) <= structCountAbsoluteCeiling) by lia.
    destruct (NextBlock_reads _ _ _ _ _ _ _ _ _ Hs Hb Hne Hn Hsafe Hh) as (s1 & En & Hs1).
    assert (Hc1 : decoded + Z.of_nat (length (sentFrom clock items)) <= cap) by lia.
    destruct (collects_structs (cutAt clock) (sentFrom clock items) [] _ _ _ _ _ _ _ _ Hs1 Hc1 Hch Hd1) as (s2 & Hcol & Hs2).
    replace (Z.of_nat (length ((client, clock) :: L)) - 1) with (Z.of_nat (length L)) in Hs2 by (cbn; lia).
    destruct (IH (<[client := received clock items]> m) _ _ _ _ _ Hs2 Hceil ltac:(lia) ltac:(lia) HL Hd) as (s' & Es' & Hr). exists s'. split; [done|].
    cbn [fold_left fst snd]. rewrite Ei. cbn [default from_option]. unfold id. eapply runs_next; [exact En| |exact Hr]. unfold block_runs. cbn [b_declaredCount].
    destruct (Z.eqb_spec (Z.of_nat (length (sentFrom clock items))) 0); [lia|]. destruct Hs1 as [_ _ _ Ea _ _ _ _ _ _ _]. rewrite Ea.
    destruct (Z.eqb_spec (Z.of_nat (length (sentFrom clock items))) 0); [lia|]. exact Hcol.
Qed.

(** What the receiver gets: every newer client with its structs. *)
Definition receivedStructs (store : structStore wireStruct) (sm : gmap Z Z) : gmap Z (list wireStruct) :=
  map_imap (fun client clock => Some (received clock (default [] (clients store !! client)))) (newerClients store sm).

Lemma fold_insert_lookup {A} (f : Z * Z -> A) (L : list (Z * Z)) : forall (m : gmap Z A) c, NoDup L.*1 ->
  fold_left (fun m p => <[p.1 := f p]> m) L m !! c = match list_find (fun p => p.1 = c) L with Some (_, p) => Some (f p) | None => m !! c end.
Proof.
  induction L as [|p L IH]; intros m c Hnd; [done|]. cbn [fold_left fmap list_fmap] in *. apply list.NoDup_cons in Hnd as [Hp Hnd]. rewrite IH by done. cbn [list_find].
  destruct (decide (p.1 = c)) as [<-|Hne].
  - destruct (list_find _ L) as [[i q]|] eqn:Ef; cbn; [|by rewrite lookup_insert_eq]. apply list_find_Some in Ef as (Eq & E & _).
    exfalso. apply Hp. rewrite <- E. apply list_elem_of_fmap_2. by eapply list_elem_of_lookup_2.
  - destruct (list_find _ L) as [[i q]|]; cbn; [done|]. by rewrite lookup_insert_ne.
Qed.

Lemma received_fold store sm :
  fold_left (fun m p => <[p.1 := received p.2 (default [] (clients store !! p.1))]> m) (mapSortedRange (newerClients store sm)) ∅ = receivedStructs store sm.
Proof.
  apply map_eq. intros c. rewrite (fold_insert_lookup (fun p => received p.2 (default [] (clients store !! p.1)))) by apply mapSortedRange_NoDup.
  unfold receivedStructs. rewrite map_lookup_imap. destruct (list_find _ _) as [[i p]|] eqn:Ef.
  - apply list_find_Some in Ef as (Eq & <- & _). apply list_elem_of_lookup_2, mapSortedRange_elem in Eq. by rewrite Eq.
  - apply list_find_None in Ef. rewrite lookup_empty. destruct (newerClients store sm !! c) as [k|] eqn:Ek; [|done].
    rewrite list.Forall_forall in Ef. exfalso. apply (Ef (c, k)); [|done]. by apply mapSortedRange_elem.
Qed.

Lemma size_mapSortedRange (nm : gmap Z Z) : length (mapSortedRange nm) = size nm.
Proof. unfold mapSortedRange. rewrite length_fmap. unfold descending. rewrite merge_sort_Permutation, <- size_dom. done. Qed.

Lemma readClientsStructRefs_reads store sm (d d' : D) : store_fits json_ok store -> map_Forall (fun _ k => 0 <= k) sm ->
  is_safe (Z.of_nat (size (newerClients store sm))) -> sent_count (mapSortedRange (newerClients store sm)) store <= structCountCap (RemainingLen d) ->
  delivers json d (update_fields store sm) d' -> readClientsStructRefs d = (Ok (receivedStructs store sm), d').
Proof.
  intros Hf Hsm Hsz Hcap (d1 & Hr & Hd). cbn [reads] in Hr. set (nm := newerClients store sm) in *.
  set (s0 := newStructDecodeStream d false). set (s1 := set_header (Z.of_nat (size nm)) (set_decoder d1 s0)).
  assert (Hi : idle d1 (Z.of_nat (length (mapSortedRange nm))) 0 (structCountCap (RemainingLen d)) s1) by (constructor; cbn; rewrite ?size_mapSortedRange; done).
  destruct (runs_blocks store (mapSortedRange nm) ∅ _ d' _ _ _ Hi) as (s' & Es & Hruns); [apply structCountCap_range|lia|lia| |done|].
  { apply list.Forall_forall. intros p Hp%mapSortedRange_elem. by eapply newerClients_lookup. }
  unfold nm in Hruns. rewrite received_fold in Hruns.
  destruct (readClientsStructRefs_runs d) as (s'' & -> & Hrun). enough (Hruns0 : runs ∅ s0 (Ok (receivedStructs store sm), s')) by (injection (runs_det _ _ _ _ Hrun Hruns0) as -> ->; by rewrite Es).
  assert (Enext : NextBlock s0 = NextBlock s1).
  { unfold NextBlock, s0, s1, newStructDecodeStream. cbn [st_err st_done st_blockActive set_header set_decoder]. unfold rbind at 1. unfold readHeader at 1. cbn [st_headerRead st_decoder].
    rewrite Hr, toNumber_safe by done. reflexivity. }
  inversion Hruns; subst; rewrite <- Enext in *; [by apply runs_done|by eapply runs_next].
Qed.

End Receiving.

(** *** The fields are in range *)
Lemma bind_length_ge {A B} (p : A -> list B) l : (forall x, (1 <= length (p x))%nat) -> (length l <= length (l ≫= p))%nat.
Proof. intros Hp. induction l as [|x l IH]; [done|]. rewrite bind_cons, length_app. specialize (Hp x). simpl. lia. Qed.

Lemma bind_length_elem {A B} (p : A -> list B) l x : x ∈ l -> (length (p x) <= length (l ≫= p))%nat.
Proof. intros (l1 & l2 & ->)%list_elem_of_split. rewrite bind_app, bind_cons, !length_app. lia. Qed.

Section UpdateRange.
Context (interpolate : Z -> Z -> Z -> Z).
Context (Hinterp : forall clock span end_, 0 < span -> 0 <= clock <= span -> 0 <= end_ -> 0 <= interpolate clock span end_ <= end_).
Context `{JSONText} (json_ok : any -> Prop).

Lemma block_fields_ok client clock items : client_fits json_ok client items -> 0 <= clock -> (exists s, s ∈ items /\ clock < struct_end s) ->
  Z.of_nat (length (block_fields client clock items)) <= maxRleRunCount -> Forall (field_ok json_ok) (block_fields client clock items).
Proof.
  intros Hf Hk Hs Hl. destruct (sent_structs interpolate Hinterp _ _ _ _ Hf Hk Hs) as (s & rest & Es & Em & Hcut & _ & Hz & _ & Hok).
  unfold block_fields in *. rewrite Es, Em in *. apply Forall_app. split.
  - repeat apply Forall_cons_2; [|apply Hf| |apply Forall_nil_2]; cbn [field_ok].
    + unfold is_u64. rewrite length_app in Hl. assert (length (s :: rest) <= length ((s :: rest) ≫= fun s => struct_fields s (cutAt clock s)))%nat.
      { apply bind_length_ge. intros [it|gc|sk]; cbn; lia. }
      unfold maxRleRunCount, maxInt32 in Hl. lia.
    + apply list.Forall_cons in Hok as [(Ho & _) _]. destruct (struct_clocks _ _ Ho). apply safe_is_u64. unfold is_safe, struct_end, cut_ok in *. lia.
  - apply list.Forall_cons in Hok as [(Ho & _) Hok]. rewrite bind_cons. apply Forall_app. split; [apply struct_fields_ok; [done|unfold cut_ok in Hcut; lia]|].
    eapply bind_Forall; [exact (Forall_and Hz Hok)|]. intros t (Hzt & Ht & Hlt & _). rewrite Hzt. apply struct_fields_ok; [done|lia].
Qed.

Lemma update_fields_ok store sm : store_fits json_ok store -> map_Forall (fun _ k => 0 <= k) sm ->
  Z.of_nat (length (update_fields store sm)) <= maxRleRunCount -> fields_ok json_ok (update_fields store sm).
Proof.
  intros Hf Hsm Hl. split; [|done]. unfold update_fields in *. set (nm := newerClients store sm) in *. cbn [length] in Hl. apply Forall_cons_2.
  - assert (length (mapSortedRange nm) <= length (mapSortedRange nm ≫= fun p => block_fields p.1 p.2 (default [] (clients store !! p.1))))%nat.
    { apply bind_length_ge. intros p. cbn. lia. }
    rewrite size_mapSortedRange in *. cbn. unfold is_u64, maxRleRunCount, maxInt32 in *. lia.
  - apply list.Forall_forall. intros f (p & Hfp & Hp)%list_elem_of_bind.
    edestruct (newerClients_lookup interpolate Hinterp) as (items & Ei & Hc & Hk & Hs); [exact Hf|exact Hsm|exact (proj1 (mapSortedRange_elem _ _) Hp)|]. 
    pose proof (bind_length_elem (fun p => block_fields p.1 p.2 (default [] (clients store !! p.1))) _ _ Hp) as Hle. cbv beta in Hle.
    assert (Hle' : Z.of_nat (length (block_fields p.1 p.2 (default [] (clients store !! p.1)))) <= maxRleRunCount) by lia.
    rewrite Ei in Hfp, Hle'. change (default [] (Some items)) with items in Hfp, Hle'.
    pose proof (block_fields_ok _ _ _ Hc Hk Hs Hle') as Hall. rewrite list.Forall_forall in Hall. by apply Hall.
Qed.

End UpdateRange.

(** ** Properties *)
Section Update.
Context {E D : Type} `{Codec : UpdateCodec E D} {HC : Consuming D} `{JSONText}.
Context (interpolate : Z -> Z -> Z -> Z).
Context (Hinterp : forall clock span end_, 0 < span -> 0 <= clock <= span -> 0 <= end_ -> 0 <= interpolate clock span end_ <= end_).

(** An update written for a state vector and read again. *)
Lemma sync_update store sm ds : store_fits json_ok store -> map_Forall (fun _ k => 0 <= k) sm -> ds_fits ds ->
  Z.of_nat (length (update_fields store sm)) <= maxRleRunCount ->
  exists e e' : E, writeClientsStructs interpolate store sm newE = (Ok tt, e) /\ writeDeleteSet e (Some ds) = Ok e' /\
    (Z.of_nat (length (toBytes e').1) < 2 ^ 64 ->
     sent_count (mapSortedRange (newerClients store sm)) store <= structCountCap (RemainingLen (newD (toBytes e').1)) ->
     (toBytes e').2 = None /\
     exists d d', readClientsStructRefs (newD (toBytes e').1) = (Ok (receivedStructs json_form store sm), d) /\
       readDeleteSet d = (Ok (decoded ds), d') /\ dec_rest d' = []).
Proof.
  intros Hf Hsm Hds Hl. pose proof (update_fields_ok interpolate Hinterp json_ok store sm Hf Hsm Hl) as Hfs.
  destruct (update_roundtrip (update_fields store sm) ds Hfs Hds) as (e & e' & Ew & Ed & Hr). exists e, e'.
  rewrite (writeClientsStructs_fields interpolate Hinterp json_ok store sm newE Hf Hsm). split_and!; [done|done|]. intros Hb Hcap.
  destruct (Hr Hb) as (He & d & d' & Hd & Hrd & Hrest). split; [done|]. exists d, d'. split_and!; [|done|done].
  eapply readClientsStructRefs_reads; [done..| |done|done].
  unfold update_fields in Hl. set (nm := newerClients store sm) in *. cbn [length] in Hl.
  assert (length (mapSortedRange nm) <= length (mapSortedRange nm ≫= fun p => block_fields p.1 p.2 (default [] (clients store !! p.1))))%nat.
  { apply bind_length_ge. intros p. cbn. lia. }
  rewrite size_mapSortedRange in *. unfold is_safe, maxSafeInteger, maxRleRunCount, maxInt32 in *. lia.
Qed.

End Update.

Section Bound.
Context {D : Type} `{Consuming D} `{JSONText}.

Lemma readNext_bound (s s' : structDecodeStream D) r : readNext s = (r, s') -> st_structsDecoded s <= st_structCap s -> st_structsDecoded s' <= st_structCap s + 1.
Proof.
  intros E Hd. unfold readNext, rbind at 1, smodify in E. cbn [st_structCap st_structsDecoded set_decoded] in E.
  destruct (st_structCap s <? st_structsDecoded s + 1); [injection E as _ <-; cbn; lia|]. unfold rbind at 1 in E.
  destruct (sread_cases readInfo (set_decoded s) consume_info) as [(e & d & E1)|(info & d & _ & Hd1 & E1)]; rewrite E1 in E; [injection E as _ <-; cbn; lia|].
  unfold rbind at 1 in E. destruct (sread_cases (decode info (b_client (st_block (set_decoder d (set_decoded s)))) (st_clock (set_decoder d (set_decoded s))))
    (set_decoder d (set_decoded s)) (decode_shrinks _ _ _)) as [(e & d2 & E2)|(x & d2 & _ & Hd2 & E2)]; rewrite E2 in E; injection E as _ <-; cbn; lia.
Qed.

(** Steps that leave the count. *)
Definition keeps_count {A} (m : step (structDecodeStream D) A) : Prop := forall s, st_structsDecoded (m s).2 = st_structsDecoded s.

Lemma keeps_bind {A B} (m : step (structDecodeStream D) A) (k : A -> step (structDecodeStream D) B) :
  keeps_count m -> (forall a, keeps_count (k a)) -> keeps_count (rbind m k).
Proof. intros Hm Hk s. unfold rbind. specialize (Hm s). destruct (m s) as [[a|e] s1]; [|done]. specialize (Hk a s1). cbn in *. congruence. Qed.

Lemma keeps_sread {A} (m : step D A) : keeps_count (sread m).
Proof. intros s. unfold sread. by destruct (m (st_decoder s)) as [[a|e] d]. Qed.

Lemma NextBlock_keeps : keeps_count NextBlock.
Proof.
  intros s. unfold NextBlock. destruct (st_err s); [done|]. destruct (st_done s); [done|]. destruct (st_blockActive s); [done|]. revert s. apply keeps_bind.
  - intros s. unfold readHeader. repeat case_match; done.
  - intros header. destruct header; [|done]. intros s. cbn [negb]. destruct (st_blocksRemaining s =? 0); [done|]. revert s.
    apply keeps_bind; [apply keeps_sread|]. intros n. destruct (_ <? n); [done|]. do 2 (apply keeps_bind; [apply keeps_sread|]; intros ?). done.
Qed.

Lemma progressed_same before clock s ok (s' : structDecodeStream D) : progressed before clock s = (ok, s') -> st_structsDecoded s' = st_structsDecoded s /\ st_structCap s' = st_structCap s.
Proof. intros E. by destruct (progressed_keeps _ _ _ _ _ E) as (? & ? & _). Qed.

Lemma collects_bound refs (s : structDecodeStream D) r : collects refs s r -> st_structsDecoded s <= st_structCap s -> st_structsDecoded r.2 <= st_structCap s + 1.
Proof.
  induction 1 as [|? ? ? ? ? En|? ? ? ? ? ? En Ep|? ? ? ? ? ? ? En Ep _ IH]; intros Hd; cbn [snd].
  - lia.
  - by eapply readNext_bound.
  - pose proof (readNext_bound _ _ _ En Hd). destruct (progressed_same _ _ _ _ _ Ep). cbn. lia.
  - destruct (readNext_counts _ _ _ En) as (Hc & Hn & Hle & _). destruct (progressed_same _ _ _ _ _ Ep). lia.
Qed.

Lemma runs_bound m (s : structDecodeStream D) r : runs m s r -> st_structsDecoded s <= st_structCap s -> st_structsDecoded r.2 <= st_structCap s + 1.
Proof.
  induction 1 as [? ? ? ? En|? ? ? En|? ? ? ? ? ? En Hb|? ? ? ? ? ? ? En Hb _ IH]; intros Hd; cbn [snd].
  - pose proof (NextBlock_keeps s) as Hk. rewrite En in Hk. cbn in Hk. lia.
  - pose proof (NextBlock_keeps s) as Hk. rewrite En in Hk. cbn in Hk. lia.
  - destruct (NextBlock_consumes _ _ _ En) as (Hc & Hn & _). unfold block_runs in Hb. repeat case_match; [done|injection Hb as _ ->; cbn; lia|].
    pose proof (collects_bound _ _ _ Hb ltac:(lia)). cbn in *. lia.
  - destruct (NextBlock_consumes _ _ _ En) as (Hc & Hn & _).
    assert (st_structCap s2 = st_structCap s1 /\ st_structsDecoded s2 <= st_structCap s2) as [Hc2 Hn2]; [|lia].
    unfold block_runs in Hb. repeat case_match; [injection Hb as _ ->; split; lia|done|].
    destruct (collects_keeps _ _ _ Hb ltac:(lia) _ _ eq_refl) as (? & ? & _). split; lia.
Qed.

Lemma reading_terminates (d : D) : exists r s, runs ∅ (newStructDecodeStream d false) (r, s) /\
  readClientsStructRefs d = (r, st_decoder s) /\ st_structsDecoded s <= structCountCap (RemainingLen d) + 1 /\ structCountCap (RemainingLen d) <= 2 ^ 23.
Proof.
  destruct (readClientsStructRefs_runs d) as (s & E & Hr). exists (readClientsStructRefs d).1, s. pose proof (structCountCap_range (RemainingLen d)).
  split_and!; [done|done| |apply structCountCap_range]. apply (runs_bound _ _ _ Hr). cbn. lia.
Qed.

End Bound.

(** C17. Reading the structs of an update terminates on every byte string, in both
    formats: the nested loops of [readClientsStructRefs] have a finite run, which
    the bounded definition computes, and that run decodes at most one struct
    more than the cap of [structCountCap], so never more than 2^23 + 1 structs
    whatever counts the update declares. *)
Theorem readClientsStructRefs_terminates `{JSONText} (buf : list Z) :
  (exists r s, runs ∅ (newStructDecodeStream (UV1.newDecoder buf) false) (r, s) /\
     readClientsStructRefs (UV1.newDecoder buf) = (r, st_decoder s) /\ st_structsDecoded s <= structCountCap (RemainingLen (UV1.newDecoder buf)) + 1 <= 2 ^ 23 + 1) /\
  (exists r s, runs ∅ (newStructDecodeStream (UV2.newDecoder buf) false) (r, s) /\
     readClientsStructRefs (UV2.newDecoder buf) = (r, st_decoder s) /\ st_structsDecoded s <= structCountCap (RemainingLen (UV2.newDecoder buf)) + 1 <= 2 ^ 23 + 1).
Proof.
  split.
  - destruct (reading_terminates (UV1.newDecoder buf)) as (r & s & ? & ? & ? & ?). exists r, s. split_and!; (done || lia).
  - destruct (reading_terminates (UV2.newDecoder buf)) as (r & s & ? & ? & ? & ?). exists r, s. split_and!; (done || lia).
Qed.

(** C16. An update written for a state vector ([writeClientsStructs] and
    [writeDeleteSet]) is read back ([readClientsStructRefs] and
    [readDeleteSet]) with nothing left over: the receiver gets, for exactly the
    clients with something newer, the structs that reach beyond its clock, the
    first cut at that clock, each with its origins, parent and content; and the
    delete set. It is proved against the contract of the update encoders, so it
    holds for both formats. *)
Theorem update_sync_roundtrip {E D : Type} `{Codec : UpdateCodec E D} {HC : Consuming D} `{JSONText}
    (interpolate : Z -> Z -> Z -> Z) (store : structStore wireStruct) (sm : gmap Z Z) (ds : deleteSet) :
  (forall clock span end_, 0 < span -> 0 <= clock <= span -> 0 <= end_ -> 0 <= interpolate clock span end_ <= end_) ->
  store_fits json_ok store -> map_Forall (fun _ k => 0 <= k) sm -> ds_fits ds ->
  Z.of_nat (length (update_fields store sm)) <= maxRleRunCount ->
  exists e e' : E, writeClientsStructs interpolate store sm newE = (Ok tt, e) /\ writeDeleteSet e (Some ds) = Ok e' /\
    (Z.of_nat (length (toBytes e').1) < 2 ^ 64 ->
     sent_count (mapSortedRange (newerClients store sm)) store <= structCountCap (RemainingLen (newD (toBytes e').1)) ->
     (toBytes e').2 = None /\
     exists d d', readClientsStructRefs (newD (toBytes e').1) = (Ok (receivedStructs json_form store sm), d) /\
       readDeleteSet d = (Ok (decoded ds), d') /\ dec_rest d' = []).
Proof. intros Hi. by apply sync_update. Qed.

(** Two clients: a root text with a deleted part and a collected one, and an
    array item with a nested map beside it. *)
Definition sample_items : list wireStruct :=
  [WItem (mkWire (GenID 7 0) 3 None None (ParentKey [116]) [] (contentString [104; 195; 169; 33]));
   WItem (mkWire (GenID 7 3) 2 (Some (GenID 7 2)) None NoParent [] (contentDeleted 2));
   WGC (newGC (GenID 7 5) 4)].
Definition sample_items9 : list wireStruct :=
  [WItem (mkWire (GenID 9 0) 2 None None (ParentKey [97]) [] (contentAny [ABool true; AString [120]]));
   WItem (mkWire (GenID 9 2) 1 None None (ParentItem (GenID 9 1)) [107] (contentType YMap))].
Definition sample_wire_store : structStore wireStruct := mkStore {[ 7 := sample_items; 9 := sample_items9 ]} None None [7; 9].

Definition noJSON : JSONText := {| marshalJSONOrdered _ := Err ErrUnsupportedDataValue; unmarshalJSONOrdered _ := Err ErrMalformed |}.

Ltac solve_wire := cbn; unfold id_ok, string_ok, opt_ok, value_fits; cbn;
  repeat match goal with
  | |- _ /\ _ => split
  | |- is_safe _ => split; cbn; unfold maxSafeInteger; lia
  | |- valid _ => match goal with |- valid [104; 195; 169; 33] => exists [104; 233; 33] | |- valid ?l => exists l end; split; [apply (bool_decide_unpack _); by vm_compute|done]
  | |- _ => first [done | lia | left; done | right; done]
  end.

Lemma sample_struct_ok `{JSONText} json_ok : Forall (struct_ok json_ok) (sample_items ++ sample_items9).
Proof.
  repeat (apply Forall_cons_2; [try constructor; solve_wire|]); apply Forall_nil_2.
Qed.

Lemma sample_wire_fits `{JSONText} json_ok : store_fits json_ok sample_wire_store.
Proof.
  pose proof (sample_struct_ok json_ok) as Hs. apply Forall_app in Hs as [Hs1 Hs2].
  assert (Hc : map_Forall (client_fits json_ok) (clients sample_wire_store)).
  { intros client items Hi. cbn [clients sample_wire_store] in Hi. apply lookup_insert_Some in Hi as [[<- <-]|[_ [<- <-]%lookup_singleton_Some]].
    - split_and!; [split_and!; [done|by exists 0|by repeat constructor]|split; unfold maxSafeInteger; lia|done].
    - split_and!; [split_and!; [done|by exists 0|by repeat constructor]|split; unfold maxSafeInteger; lia|done]. }
  split; [|done]. split_and!.
  - intros client items Hi. by destruct (Hc _ _ Hi).
  - apply (bool_decide_unpack _). by vm_compute.
  - intros c. cbn [clientOrder clients sample_wire_store]. rewrite lookup_insert_is_Some, lookup_singleton_is_Some. set_solver by lia.
Qed.

Definition sample_sm : gmap Z Z := {[ 7 := 1 ]}.

Lemma sample_sm_ok : map_Forall (fun _ k : Z => 0 <= k) sample_sm.
Proof. intros c k Hk. unfold sample_sm in Hk. apply lookup_singleton_Some in Hk as [_ <-]. lia. Qed.

(** The update for a peer that knows the first unit of client 7. *)
Lemma update_sync_roundtrip_witness :
  let J := noJSON in
  (exists e e' d d' : _, writeClientsStructs (E := UV2.updateEncoderV2) int_pivot sample_wire_store sample_sm UV2.newEncoder = (Ok tt, e) /\
     writeDeleteSet e (Some sample_wire_ds) = Ok e' /\
     readClientsStructRefs (UV2.newDecoder (toBytes e').1) = (Ok (receivedStructs readBack sample_wire_store sample_sm), d) /\
     readDeleteSet d = (Ok (decoded sample_wire_ds), d')) /\
  (exists e e' d d' : _, writeClientsStructs (E := V1.dsEncoderV1) int_pivot sample_wire_store sample_sm UV1.newEncoder = (Ok tt, e) /\
     writeDeleteSet e (Some sample_wire_ds) = Ok e' /\
     readClientsStructRefs (UV1.newDecoder (toBytes e').1) = (Ok (receivedStructs jsonForm sample_wire_store sample_sm), d) /\
     readDeleteSet d = (Ok (decoded sample_wire_ds), d')) /\
  receivedStructs readBack sample_wire_store sample_sm !! 7 =
    Some [WItem (mkWire (GenID 7 1) 2 (Some (GenID 7 0)) None NoParent [] (contentString [195; 169; 33]));
          WItem (mkWire (GenID 7 3) 2 (Some (GenID 7 2)) None NoParent [] (contentDeleted 2)); WGC (newGC (GenID 7 5) 4)].
Proof.
  intros J. split_and!.
  - destruct (update_sync_roundtrip (E := UV2.updateEncoderV2) (D := UV2.updateDecoderV2) int_pivot sample_wire_store sample_sm sample_wire_ds int_pivot_range
      (sample_wire_fits _) sample_sm_ok sample_wire_ds_fits) as (e & e' & Ew & Ed & Hr); [by vm_compute|]. exists e, e'.
    assert (Hb : match writeDeleteSet (writeClientsStructs (E := UV2.updateEncoderV2) int_pivot sample_wire_store sample_sm UV2.newEncoder).2 (Some sample_wire_ds) with
      | Ok e' => Z.of_nat (length (toBytes e').1) < 2 ^ 64 /\ sent_count (mapSortedRange (newerClients sample_wire_store sample_sm)) sample_wire_store
          <= structCountCap (RemainingLen (UV2.newDecoder (toBytes e').1)) | Err _ => False end) by (vm_compute; done).
    change UV2.newEncoder with (newE (E := UV2.updateEncoderV2)) in Hb. rewrite Ew in Hb. cbn [snd] in Hb. rewrite Ed in Hb.
    destruct (Hr (proj1 Hb) (proj2 Hb)) as (_ & d & d' & H1 & H2 & _). by exists d, d'.
  - destruct (update_sync_roundtrip (E := V1.dsEncoderV1) (D := V1.updateDecoderV1) int_pivot sample_wire_store sample_sm sample_wire_ds int_pivot_range
      (sample_wire_fits _) sample_sm_ok sample_wire_ds_fits) as (e & e' & Ew & Ed & Hr); [by vm_compute|]. exists e, e'.
    assert (Hb : match writeDeleteSet (writeClientsStructs (E := V1.dsEncoderV1) int_pivot sample_wire_store sample_sm UV1.newEncoder).2 (Some sample_wire_ds) with
      | Ok e' => Z.of_nat (length (toBytes e').1) < 2 ^ 64 /\ sent_count (mapSortedRange (newerClients sample_wire_store sample_sm)) sample_wire_store
          <= structCountCap (RemainingLen (UV1.newDecoder (toBytes e').1)) | Err _ => False end) by (vm_compute; done).
    change UV1.newEncoder with (newE (E := V1.dsEncoderV1)) in Hb. rewrite Ew in Hb. cbn [snd] in Hb. rewrite Ed in Hb.
    destruct (Hr (proj1 Hb) (proj2 Hb)) as (_ & d & d' & H1 & H2 & _). by exists d, d'.
  - by vm_compute.
Defined.
