(* ===== verification/UpdateMerge.v ===== *)
(** * Merging the structs of several updates

    Models the scheduling loop of [mergeUpdatesCore] (crdt/updates.go): a heap of
    struct readers ordered by their next struct, and the struct that is about to
    be written. A reader is the list of the structs it has still to deliver, the
    first of them its [curr]; the heap is the list of its entries, and [heap.Pop]
    takes the least of them by [Less], which is total because no two entries have
    the same tie. *)
From S2P Require Import Prelude Lib0 Object Any Text StructStore DeleteSet DeleteSetCodec UpdateCodec Content StructCodec UpdateStream.

(** ** Structs *)
Definition isSkip (s : wireStruct) : bool := match s with WSkip _ => true | _ => false end.

(** [mergeStructWith]: the structs of an update are not linked, so an item never
    has its right neighbour to merge with. *)
Definition mergeStructWith (s right : wireStruct) : option wireStruct :=
  match s, right with
  | WGC gc, WGC r => Some (WGC (newGC (gc_id gc) (gc_length gc + gc_length r)))
  | WSkip sk, WSkip r => Some (WSkip (newSkip (skip_id sk) (skip_length sk + skip_length r)))
  | _, _ => None
  end.

(** [setStructLength]. *)
Definition setStructLength (s : wireStruct) (n : Z) : wireStruct :=
  match s with
  | WItem it => WItem (mkWire (w_id it) n (w_origin it) (w_rightOrigin it) (w_parent it) (w_parentSub it) (w_content it))
  | WGC gc => WGC (newGC (gc_id gc) n)
  | WSkip sk => WSkip (newSkip (skip_id sk) n)
  end.

(** [sliceStruct]; [None] where the content cannot be split. *)
Definition sliceStruct (left : wireStruct) (diff : Z) : option wireStruct :=
  let client := Client (getID left) in
  let clock := Clock (getID left) in
  match left with
  | WGC gc => Some (WGC (newGC (GenID client (clock + diff)) (gc_length gc - diff)))
  | WSkip sk => Some (WSkip (newSkip (GenID client (clock + diff)) (skip_length sk - diff)))
  | WItem it =>
      match spliceContent (w_content it) diff with
      | None => None
      | Some (_, rightContent) =>
          Some (WItem (mkWire (GenID client (clock + diff)) (w_length it - diff) (Some (GenID client (clock + diff - 1)))
            (w_rightOrigin it) (w_parent it) (w_parentSub it) rightContent))
      end
  end.

(** ** The scheduler *)
Record heapEntry := mkEntry { he_reader : list wireStruct; he_tie : Z }.

Definition Less (a b : heapEntry) : bool :=
  match he_reader a, he_reader b with
  | l0 :: _, r0 :: _ =>
      if negb (Client (getID l0) =? Client (getID r0)) then Client (getID r0) <? Client (getID l0)
      else if negb (Clock (getID l0) =? Clock (getID r0)) then Clock (getID l0) <? Clock (getID r0)
      else if negb (eqb (isSkip l0) (isSkip r0)) then negb (isSkip l0)
      else he_tie a <? he_tie b
  | _, _ => false
  end.

(** [heap.Pop]. *)
Fixpoint heapPop (h : list heapEntry) : option (heapEntry * list heapEntry) :=
  match h with
  | [] => None
  | e :: h' =>
      match heapPop h' with
      | None => Some (e, [])
      | Some (m, rest) => if Less m e then Some (m, e :: rest) else Some (e, m :: rest)
      end
  end.

(** [currWrite] (whose offset is always 0), the structs written so far, the
    heap and the next tie. *)
Record mergeState := mkMerge {
  ms_heap : list heapEntry;
  ms_currWrite : option wireStruct;
  ms_written : list wireStruct;
  ms_nextTie : Z
}.

(** [requeue]. *)
Definition requeue (heap : list heapEntry) (reader : list wireStruct) (currWrite : option wireStruct) (written : list wireStruct) (nextTie : Z) : mergeState :=
  match reader with
  | [] => mkMerge heap currWrite written nextTie
  | _ => mkMerge (mkEntry reader nextTie :: heap) currWrite written (nextTie - 1)
  end.

(** The structs that have been written already are passed over. *)
Fixpoint skipWritten (w : wireStruct) (reader : list wireStruct) : list wireStruct :=
  match reader with
  | [] => []
  | curr :: rest =>
      if (struct_end curr <=? struct_end w) && (Client (getID w) <=? Client (getID curr)) then skipWritten w rest else reader
  end.

(** The structs of the reader that follow [currWrite] immediately. *)
Fixpoint catchUp (firstClient : Z) (currWrite : wireStruct) (written reader : list wireStruct) : wireStruct * list wireStruct * list wireStruct :=
  match reader with
  | next :: rest =>
      if (Client (getID next) =? firstClient) && (Clock (getID next) =? struct_end currWrite) && negb (isSkip next)
      then catchUp firstClient next (written ++ [currWrite]) rest
      else (currWrite, written, reader)
  | [] => (currWrite, written, [])
  end.

Definition finishRound (firstClient : Z) (heap : list heapEntry) (reader : list wireStruct) (currWrite : wireStruct) (written : list wireStruct) (nextTie : Z) : mergeState :=
  let '(currWrite, written, reader) := catchUp firstClient currWrite written reader in
  requeue heap reader (Some currWrite) written nextTie.

(** One round of the loop. *)
Definition mergeRound (entry : heapEntry) (st : mergeState) (heap : list heapEntry) : result mergeState :=
  match he_reader entry with
  | [] => Err ErrPanic
  | head :: tail =>
      let firstClient := Client (getID head) in
      match ms_currWrite st with
      | None => Ok (finishRound firstClient heap tail head (ms_written st) (ms_nextTie st))
      | Some w =>
          let reader := skipWritten w (he_reader entry) in
          let iterated := negb (length reader =? length (he_reader entry))%nat in
          match reader with
          | [] => Ok (requeue heap reader (Some w) (ms_written st) (ms_nextTie st))
          | curr :: rest =>
              if negb (Client (getID curr) =? firstClient) || (iterated && (struct_end w <? Clock (getID curr)))
              then Ok (requeue heap reader (Some w) (ms_written st) (ms_nextTie st))
              else if negb (firstClient =? Client (getID w))
              then Ok (finishRound firstClient heap rest curr (ms_written st ++ [w]) (ms_nextTie st))
              else if struct_end w <? Clock (getID curr) then
                if isSkip w
                then Ok (finishRound firstClient heap reader (setStructLength w (struct_end curr - Clock (getID w))) (ms_written st) (ms_nextTie st))
                else Ok (finishRound firstClient heap reader (WSkip (newSkip (GenID firstClient (struct_end w)) (Clock (getID curr) - struct_end w)))
                       (ms_written st ++ [w]) (ms_nextTie st))
              else
                let diff := struct_end w - Clock (getID curr) in
                let w' := if (0 <? diff) && isSkip w then setStructLength w (structLength w - diff) else w in
                match (if (0 <? diff) && negb (isSkip w) then sliceStruct curr diff else Some curr) with
                | None => Err ErrPanic
                | Some curr =>
                    match mergeStructWith w' curr with
                    | Some m => Ok (finishRound firstClient heap reader m (ms_written st) (ms_nextTie st))
                    | None => Ok (finishRound firstClient heap rest curr (ms_written st ++ [w']) (ms_nextTie st))
                    end
                end
          end
      end
  end.

(** The loop. Every round consumes a struct or covers the head of a reader,
    so the rounds are bounded ([mergeLoop_finishes]). *)
Fixpoint mergeLoop (fuel : nat) (st : mergeState) : result mergeState :=
  match heapPop (ms_heap st) with
  | None => Ok st
  | Some (entry, heap) =>
      match fuel with
      | O => Err ErrDepth
      | S fuel' => match mergeRound entry st heap with Ok st' => mergeLoop fuel' st' | Err e => Err e end
      end
  end.

(** The readers of the updates with something to deliver, tied in order. *)
Definition initHeap (readers : list (list wireStruct)) : list heapEntry :=
  filter (fun e => he_reader e <> []) (imap (fun i r => mkEntry r (Z.of_nat i)) readers).

Definition remaining (h : list heapEntry) : nat := sum_list_with (fun e => length (he_reader e)) h.
Definition mergeFuel (readers : list (list wireStruct)) : nat :=
  let h := initHeap readers in (remaining h * S (length h) + length h)%nat.

Definition initMerge (readers : list (list wireStruct)) : mergeState := mkMerge (initHeap readers) None [] (-1).

(** The structs that are written, the last one after the loop. *)
Definition mergeStructs (readers : list (list wireStruct)) : result (list wireStruct) :=
  match mergeLoop (mergeFuel readers) (initMerge readers) with
  | Ok st => Ok (ms_written st ++ from_option (fun w => [w]) [] (ms_currWrite st))
  | Err e => Err e
  end.

(** ** The heap *)
Lemma Less_trans_false a b c : he_reader b <> [] -> Less b a = false -> Less c b = false -> Less c a = false.
Proof.
  unfold Less. destruct (he_reader a) as [|x ?], (he_reader b) as [|y ?], (he_reader c) as [|z ?]; try done. intros _.
  destruct (Z.eqb_spec (Client (getID y)) (Client (getID x))), (Z.eqb_spec (Client (getID z)) (Client (getID y))), (Z.eqb_spec (Client (getID z)) (Client (getID x))); cbn [negb]; try lia.
  destruct (Z.eqb_spec (Clock (getID y)) (Clock (getID x))), (Z.eqb_spec (Clock (getID z)) (Clock (getID y))), (Z.eqb_spec (Clock (getID z)) (Clock (getID x))); cbn [negb]; try lia.
  destruct (isSkip x), (isSkip y), (isSkip z); cbn; try done; lia.
Qed.

Lemma Less_asym a b : Less a b = true -> Less b a = false.
Proof.
  unfold Less. destruct (he_reader a) as [|x ?], (he_reader b) as [|y ?]; try done.
  destruct (Z.eqb_spec (Client (getID x)) (Client (getID y))), (Z.eqb_spec (Client (getID y)) (Client (getID x))); cbn [negb]; try lia.
  destruct (Z.eqb_spec (Clock (getID x)) (Clock (getID y))), (Z.eqb_spec (Clock (getID y)) (Clock (getID x))); cbn [negb]; try lia.
  destruct (isSkip x), (isSkip y); cbn; try done; lia.
Qed.

Definition all_ready (h : list heapEntry) : Prop := Forall (fun e => he_reader e <> []) h.

Lemma heapPop_None h : heapPop h = None -> h = [].
Proof. destruct h as [|e h]; [done|]. simpl. destruct (heapPop h) as [[m rest]|]; [|done]. by destruct (Less m e). Qed.

(** The entry that is popped is the least. *)
Lemma heapPop_spec h m rest : all_ready h -> heapPop h = Some (m, rest) -> h ≡ₚ m :: rest /\ Forall (fun e => Less e m = false) rest.
Proof.
  revert m rest. induction h as [|e h IH]; intros m rest Hr Hp; [done|]. apply list.Forall_cons in Hr as [He Hr]. simpl in Hp.
  destruct (heapPop h) as [[m' rest']|] eqn:Ep; last first.
  { injection Hp as <- <-. apply heapPop_None in Ep as ->. split; [done|constructor]. }
  destruct (IH _ _ Hr eq_refl) as [Hperm Hmin]. destruct (Less m' e) eqn:El; injection Hp as <- <-.
  - split; [rewrite Hperm; apply Permutation_swap|]. apply Forall_cons_2; [|done]. by apply Less_asym.
  - split; [by rewrite Hperm|]. apply Forall_cons_2; [done|]. eapply Forall_impl; [|exact Hmin]. intros c Hc. cbn in Hc.
    eapply Less_trans_false; [|exact El|exact Hc]. unfold all_ready in Hr. rewrite Hperm in Hr. by apply list.Forall_cons in Hr as [? _].
Qed.

(** ** Termination *)

(** The head of a reader that has been written already. *)
Definition written_head (w : wireStruct) (e : heapEntry) : bool :=
  match he_reader e with
  | curr :: _ => (struct_end curr <=? struct_end w) && (Client (getID w) <=? Client (getID curr))
  | [] => false
  end.

Definition fresh (st : mergeState) : nat :=
  match ms_currWrite st with
  | None => length (ms_heap st)
  | Some w => length (filter (fun e => written_head w e = false) (ms_heap st))
  end.

Definition no_skips (l : list wireStruct) : Prop := Forall (fun s => isSkip s = false) l.

Lemma skipWritten_suffix w l : exists n, skipWritten w l = drop n l.
Proof.
  induction l as [|x l [n IH]]; [by exists 0%nat|]. simpl. destruct (_ && _); [|by exists 0%nat]. by exists (S n).
Qed.

Lemma skipWritten_head w l x r : skipWritten w l = x :: r -> written_head w (mkEntry (x :: r) 0) = false.
Proof. induction l as [|y l IH]; simpl; [done|]. destruct (_ && _) eqn:E; [done|]. intros [= <- <-]. done. Qed.

Lemma catchUp_reader c w out l w' out' l' : catchUp c w out l = (w', out', l') ->
  (l' = l /\ w' = w /\ out' = out) \/ ((length l' < length l)%nat /\ exists n, l' = drop n l).
Proof.
  revert w out. induction l as [|x l IH]; intros w out E; simpl in E; [injection E as <- <- <-; by left|].
  destruct (_ && _); [|injection E as <- <- <-; by left]. right. destruct (IH _ _ E) as [(-> & _)|(Hl & n & ->)]; simpl; split; try lia.
  - by exists 1%nat.
  - by exists (S n).
Qed.

Section Decrease.
Context (H : nat).

Definition rounds (st : mergeState) : nat := (remaining (ms_heap st) * S H + fresh st)%nat.

Definition ready (st : mergeState) : Prop :=
  all_ready (ms_heap st) /\ Forall (fun e => no_skips (he_reader e)) (ms_heap st) /\ (length (ms_heap st) <= H)%nat.

Lemma remaining_perm h h' : h ≡ₚ h' -> remaining h = remaining h'.
Proof. intros Hp. unfold remaining. by rewrite Hp. Qed.

Lemma fresh_le st : (fresh st <= length (ms_heap st))%nat.
Proof. unfold fresh. destruct (ms_currWrite st); [apply length_filter|done]. Qed.

Lemma no_skips_drop n l : no_skips l -> no_skips (drop n l).
Proof. apply Forall_drop. Qed.

(** A reader that goes back keeps the heap ready. *)
Lemma requeue_ready st e heap n cw out tie : ready st -> ms_heap st ≡ₚ e :: heap -> ready (requeue heap (drop n (he_reader e)) cw out tie).
Proof.
  intros (Hr & Hs & Hl) Hp. unfold all_ready in Hr. rewrite Hp in Hr, Hs, Hl. apply list.Forall_cons in Hr as [_ Hr], Hs as [Hse Hs]. simpl in Hl.
  unfold requeue. destruct (drop n (he_reader e)) as [|x l] eqn:Ed; cbn [ms_heap].
  - split_and!; [done|done|cbn; lia].
  - split_and!; [by apply Forall_cons_2|apply Forall_cons_2; [|done]|simpl; lia]. cbn. rewrite <- Ed. by apply no_skips_drop.
Qed.

Lemma requeue_remaining heap reader cw out tie : remaining (ms_heap (requeue heap reader cw out tie)) = (length reader + remaining heap)%nat.
Proof. by destruct reader. Qed.

Lemma requeue_shorter st e heap n cw out tie : ready st -> ms_heap st ≡ₚ e :: heap -> (length (drop n (he_reader e)) < length (he_reader e))%nat ->
  (rounds (requeue heap (drop n (he_reader e)) cw out tie) < rounds st)%nat.
Proof.
  intros Hr Hp Hl. destruct (requeue_ready st e heap n cw out tie Hr Hp) as (_ & _ & Hlen). unfold rounds. rewrite requeue_remaining.
  rewrite (remaining_perm _ _ Hp). cbn [remaining sum_list_with]. change (sum_list_with (fun e0 => length (he_reader e0)) heap) with (remaining heap).
  pose proof (fresh_le (requeue heap (drop n (he_reader e)) cw out tie)). nia.
Qed.

Lemma written_head_reader w r t t' : written_head w (mkEntry r t) = written_head w (mkEntry r t').
Proof. done. Qed.

Lemma filter_fresh_le w m heap : Client (getID m) = Client (getID w) -> struct_end w <= struct_end m ->
  (length (filter (fun e => written_head m e = false) heap) <= length (filter (fun e => written_head w e = false) heap))%nat.
Proof.
  intros Hc He. induction heap as [|e heap IH]; [done|]. rewrite !filter_cons.
  assert (written_head m e = false -> written_head w e = false).
  { unfold written_head. destruct (he_reader e); [done|]. rewrite Hc. lia. }
  destruct (decide (written_head m e = false)), (decide (written_head w e = false)); simpl; try lia. tauto.
Qed.

Lemma requeue_covers st e heap w m out tie : ready st -> ms_heap st ≡ₚ e :: heap -> ms_currWrite st = Some w ->
  Client (getID m) = Client (getID w) -> struct_end w <= struct_end m -> written_head w e = false -> written_head m e = true ->
  (rounds (requeue heap (he_reader e) (Some m) out tie) < rounds st)%nat.
Proof.
  intros Hr Hp Ew Hc He Hw Hm. destruct Hr as (Hr & _). unfold all_ready in Hr. rewrite Hp in Hr. apply list.Forall_cons in Hr as [Hne _].
  unfold rounds. rewrite requeue_remaining, (remaining_perm _ _ Hp). cbn [remaining sum_list_with].
  change (sum_list_with (fun e0 => length (he_reader e0)) heap) with (remaining heap).
  enough (fresh (requeue heap (he_reader e) (Some m) out tie) < fresh st)%nat by lia.
  unfold fresh. rewrite Ew. rewrite Hp. rewrite (filter_cons_True _ e) by done.
  unfold requeue. destruct (he_reader e) as [|x l] eqn:Ex; [done|]. cbn [ms_currWrite ms_heap]. rewrite filter_cons_False.
  - pose proof (filter_fresh_le w m heap Hc He). simpl. lia.
  - unfold written_head in *. rewrite Ex in Hm. cbn [he_reader]. by rewrite Hm.
Qed.

(** A round decreases the bound. *)
Definition decreases (st st' : mergeState) : Prop := ready st' /\ (rounds st' < rounds st)%nat.

Lemma finish_shorter st e heap n c w out tie : ready st -> ms_heap st ≡ₚ e :: heap -> (length (drop n (he_reader e)) < length (he_reader e))%nat ->
  decreases st (finishRound c heap (drop n (he_reader e)) w out tie).
Proof.
  intros Hr Hp Hl. unfold finishRound. destruct (catchUp c w out (drop n (he_reader e))) as [[w' out'] l'] eqn:Ec.
  destruct (catchUp_reader _ _ _ _ _ _ _ Ec) as [(-> & _)|(Hlt & k & ->)].
  - split; [by eapply requeue_ready|by apply requeue_shorter].
  - rewrite drop_drop in *. split; [by eapply requeue_ready|apply requeue_shorter; [done|done|lia]].
Qed.

Lemma finish_covers st e heap w m out c tie : ready st -> ms_heap st ≡ₚ e :: heap -> ms_currWrite st = Some w ->
  Client (getID m) = Client (getID w) -> struct_end w <= struct_end m -> written_head w e = false -> written_head m e = true ->
  decreases st (finishRound c heap (he_reader e) m out tie).
Proof.
  intros Hr Hp Ew Hc He Hw Hm. unfold finishRound. destruct (catchUp c m out (he_reader e)) as [[w' out'] l'] eqn:Ec.
  destruct (catchUp_reader _ _ _ _ _ _ _ Ec) as [(-> & -> & ->)|(Hlt & k & ->)].
  - split; [rewrite <- (drop_0 (he_reader e)); by eapply requeue_ready|by eapply requeue_covers].
  - split; [by eapply requeue_ready|by apply requeue_shorter].
Qed.

Lemma setStructLength_end w n : Client (getID (setStructLength w n)) = Client (getID w) /\ struct_end (setStructLength w n) = Clock (getID w) + n.
Proof. by destruct w. Qed.

Lemma sliceStruct_end s d t : sliceStruct s d = Some t -> getID t = GenID (Client (getID s)) (Clock (getID s) + d) /\ struct_end t = struct_end s /\ isSkip t = isSkip s.
Proof.
  destruct s as [it|gc|sk]; cbn; [destruct (spliceContent _ _) as [[l r]|]; [|done]|..]; intros [= <-]; unfold struct_end; cbn; split_and!; (done || lia).
Qed.

Lemma mergeStructWith_end w s m : mergeStructWith w s = Some m -> getID m = getID w /\ struct_end m = struct_end w + structLength s.
Proof. destruct w, s; cbn; try done; intros [= <-]; unfold struct_end; cbn; split; (done || lia). Qed.

Lemma gap_end c w x : struct_end (WSkip (newSkip (GenID c (struct_end w)) (Clock (getID x) - struct_end w))) = Clock (getID x).
Proof. unfold struct_end at 1. cbn. lia. Qed.

(** The step of a skip over a gap. *)
Lemma finishRound_gap c heap curr rest w out tie : isSkip curr = false -> Client (getID curr) = c ->
  finishRound c heap (curr :: rest) (WSkip (newSkip (GenID c (struct_end w)) (Clock (getID curr) - struct_end w))) out tie =
  finishRound c heap rest curr (out ++ [WSkip (newSkip (GenID c (struct_end w)) (Clock (getID curr) - struct_end w))]) tie.
Proof.
  intros Hs <-. unfold finishRound at 1. cbn [catchUp]. rewrite Z.eqb_refl, Hs.
  rewrite gap_end, Z.eqb_refl. done.
Qed.

Lemma Ok_inj {A} (a b : A) : Ok a = Ok b -> a = b.
Proof. congruence. Qed.

Lemma mergeRound_decreases st e heap st' : ready st -> ms_heap st ≡ₚ e :: heap -> mergeRound e st heap = Ok st' -> decreases st st'.
Proof.
  intros Hr Hp. pose proof Hr as (Hrdy & Hns & _). unfold all_ready in Hrdy. rewrite Hp in Hrdy, Hns. apply list.Forall_cons in Hrdy as [Hne _], Hns as [Hns _].
  unfold mergeRound. destruct (he_reader e) as [|head tail] eqn:Er; [done|].
  assert (Htail : forall c w out tie, decreases st (finishRound c heap tail w out tie)).
  { intros. change tail with (drop 1 (head :: tail)). rewrite <- Er. apply finish_shorter; [done|done|]. rewrite length_drop, Er. simpl. lia. }
  destruct (ms_currWrite st) as [w|] eqn:Ew; [|by intros <-%Ok_inj].
  destruct (skipWritten_suffix w (head :: tail)) as [n Es].
  assert (Hshort : length (skipWritten w (head :: tail)) <> length (head :: tail) -> (length (drop n (he_reader e)) < length (he_reader e))%nat).
  { rewrite Es, Er, length_drop. lia. }
  assert (Hreq : length (skipWritten w (head :: tail)) <> length (head :: tail) -> forall cw out tie, decreases st (requeue heap (skipWritten w (head :: tail)) cw out tie)).
  { intros Hl cw out tie. specialize (Hshort Hl). rewrite Es, <- Er. split; [by eapply requeue_ready|by apply requeue_shorter]. }
  assert (Hfin : length (skipWritten w (head :: tail)) <> length (head :: tail) -> forall c cw out tie, decreases st (finishRound c heap (skipWritten w (head :: tail)) cw out tie)).
  { intros Hl c cw out tie. specialize (Hshort Hl). rewrite Es, <- Er. by apply finish_shorter. }
  destruct (skipWritten w (head :: tail)) as [|curr rest] eqn:Ek.
  { intros <-%Ok_inj. apply Hreq. simpl. lia. }
  assert (Hrest : forall c cw out tie, decreases st (finishRound c heap rest cw out tie)).
  { intros. assert (rest = drop (S n) (he_reader e)) as -> by (rewrite Er; replace (S n) with (n + 1)%nat by lia; rewrite <- drop_drop, <- Es; done).
    apply finish_shorter; [done|done|]. rewrite length_drop, Er. simpl. lia. }
  destruct (Nat.eqb_spec (length (curr :: rest)) (length (head :: tail))) as [Hlen|Hlen]; cbn [negb andb orb].
  2: { specialize (Hreq Hlen). specialize (Hfin Hlen). rewrite ?andb_true_l.
       repeat (case_match; try done); intros <-%Ok_inj; first [apply Hrest|apply Hfin|apply Hreq]. }
  assert (Ehd : curr :: rest = head :: tail).
  { rewrite Es. destruct (decide (n = 0%nat)) as [->|]; [by rewrite drop_0|]. exfalso. rewrite Es, length_drop in Hlen. simpl in Hlen. lia. }
  injection Ehd as -> ->. rewrite Z.eqb_refl. cbn [negb orb].
  destruct (Z.eqb_spec (Client (getID head)) (Client (getID w))) as [Hc|]; cbn [negb]; [|by intros <-%Ok_inj].
  pose proof (skipWritten_head _ _ _ _ Ek) as Hun. unfold written_head in Hun. cbn [he_reader] in Hun.
  assert (Hend : struct_end w < struct_end head) by lia.
  assert (Hcov : forall m out tie, Client (getID m) = Client (getID w) -> struct_end m = struct_end head -> decreases st (finishRound (Client (getID head)) heap (head :: tail) m out tie)).
  { intros m out tie Hm Em. rewrite <- Er. eapply finish_covers; [done|done|exact Ew|done|lia|unfold written_head; rewrite Er; done|]. unfold written_head. rewrite Er. lia. }
  destruct (Z.ltb_spec (struct_end w) (Clock (getID head))).
  - destruct (isSkip w).
    + intros <-%Ok_inj. destruct (setStructLength_end w (struct_end head - Clock (getID w))) as [E1 E2]. apply Hcov; [exact E1|rewrite E2; lia].
    + intros <-%Ok_inj. apply list.Forall_cons in Hns as [Hns _]. rewrite finishRound_gap by done. apply Hrest.
  - set (diff := struct_end w - Clock (getID head)).
    set (w' := if (0 <? diff) && isSkip w then setStructLength w (structLength w - diff) else w).
    destruct (if (0 <? diff) && negb (isSkip w) then sliceStruct head diff else Some head) as [curr|] eqn:Ecurr; [|done].
    destruct (mergeStructWith w' curr) as [m|] eqn:Em; intros <-%Ok_inj; [|apply Hrest]. destruct (mergeStructWith_end _ _ _ Em) as [Eid Eend].
    assert (Client (getID w') = Client (getID w) /\ struct_end w' + structLength curr = struct_end head) as [Hcw Hew].
    { unfold w'. destruct (Z.ltb_spec 0 diff), (isSkip w); cbn [andb negb] in Ecurr |- *.
      - destruct (setStructLength_end w (structLength w - diff)) as [-> ->]. split; [done|]. injection Ecurr as <-. unfold diff, struct_end. lia.
      - destruct (sliceStruct_end _ _ _ Ecurr) as (Ei & Ee & _). split; [done|]. unfold struct_end in Ee |- *. rewrite Ei in Ee. cbn [Clock] in Ee. unfold diff, struct_end in *. lia.
      - injection Ecurr as <-. split; [done|]. unfold diff, struct_end in *. lia.
      - injection Ecurr as <-. split; [done|]. unfold diff, struct_end in *. lia. }
    apply Hcov; [by rewrite Eid|]. lia.
Qed.

Lemma mergeLoop_finishes fuel st : ready st -> (rounds st <= fuel)%nat -> mergeLoop fuel st <> Err ErrDepth.
Proof.
  revert st. induction fuel as [|fuel IH]; intros st Hr Hf; cbn [mergeLoop]; destruct (heapPop (ms_heap st)) as [[e heap]|] eqn:Ep; try done.
  - destruct (heapPop_spec _ _ _ (proj1 Hr) Ep) as [Hp _]. destruct Hr as (Hrdy & _). unfold all_ready in Hrdy. rewrite Hp in Hrdy.
    apply list.Forall_cons in Hrdy as [Hne _]. unfold rounds in Hf. rewrite (remaining_perm _ _ Hp) in Hf. cbn in Hf. destruct (he_reader e); [done|]. simpl in Hf. lia.
  - destruct (heapPop_spec _ _ _ (proj1 Hr) Ep) as [Hp _]. destruct (mergeRound e st heap) as [st'|x] eqn:Em.
    + destruct (mergeRound_decreases _ _ _ _ Hr Hp Em) as [Hr' Hlt]. apply IH; [done|lia].
    + intros [= ->]. unfold mergeRound in Em. repeat case_match; done.
Qed.

End Decrease.

Lemma initMerge_ready readers : Forall no_skips readers -> ready (length (initHeap readers)) (initMerge readers).
Proof.
  intros Hs. unfold ready, initMerge, initHeap. cbn [ms_heap]. split_and!; [|..|done].
  - apply list.Forall_forall. intros e He. by apply list_elem_of_filter in He as [? _].
  - apply list.Forall_forall. intros e He. apply list_elem_of_filter in He as [_ He]. apply elem_of_lookup_imap in He as (i & r & -> & Hi).
    rewrite list.Forall_forall in Hs. apply Hs. by eapply list_elem_of_lookup_2.
Qed.

Lemma mergeStructs_terminates readers : Forall no_skips readers -> mergeStructs readers <> Err ErrDepth.
Proof.
  intros Hs. unfold mergeStructs. pose proof (mergeLoop_finishes (length (initHeap readers)) (mergeFuel readers) (initMerge readers) (initMerge_ready _ Hs)) as Hf.
  destruct (mergeLoop _ _) as [st|e]; [done|]. intros [= ->]. apply Hf; [|done]. done.
Qed.

(** ** What an update holds *)

(** One element of a content. A cut through a surrogate pair replaces its halves,
    so a surrogate counts as the replacement character. *)
Inductive contentUnit : Type :=
| CValue (v : any)
| CJSON (v : any)
| CUnit (u : Z)
| CDeleted
| CWhole (c : wireContent).

Definition plainUnit (u : Z) : Z := if isHigh u || isLow u then RuneError else u.

Definition contentAt (c : wireContent) (i : nat) : option contentUnit :=
  match c with
  | contentAny arr => CValue <$> arr !! i
  | contentJSON arr => CJSON <$> arr !! i
  | contentString value => (fun u => CUnit (plainUnit u)) <$> utf16 value !! i
  | contentDeleted _ => Some CDeleted
  | c => Some (CWhole c)
  end.

(** The element of a struct at a clock: an element of an item has the one before
    it as its origin. *)
Inductive elementView : Type :=
| VCollected
| VElement (origin rightOrigin : option ID) (parent : wireParent) (parentSub : gostring) (unit : option contentUnit).

Definition elementAt (s : wireStruct) (k : Z) : option elementView :=
  if (Clock (getID s) <=? k) && (k <? struct_end s) then
    match s with
    | WGC _ => Some VCollected
    | WSkip _ => None
    | WItem it =>
        Some (VElement (if k =? Clock (w_id it) then w_origin it else Some (GenID (Client (w_id it)) (k - 1)))
          (w_rightOrigin it) (w_parent it) (w_parentSub it) (contentAt (w_content it) (Z.to_nat (k - Clock (w_id it)))))
    end
  else None.

(** An update holds an element. *)
Definition holdsElement (l : list wireStruct) (id : ID) (v : elementView) : Prop :=
  exists s, s ∈ l /\ Client (getID s) = Client id /\ elementAt s (Clock id) = Some v.

(** A struct with elements. *)
Definition plain (s : wireStruct) : Prop :=
  isSkip s = false /\ 0 < structLength s /\
  match s with WItem it => content_ok (w_content it) /\ w_length it = contentLength (w_content it) | _ => True end.

Lemma elementAt_plain s k : isSkip s = false -> Clock (getID s) <= k < struct_end s -> is_Some (elementAt s k).
Proof. intros Hs Hk. unfold elementAt. destruct (Z.leb_spec (Clock (getID s)) k), (Z.ltb_spec k (struct_end s)); try lia. destruct s; [by eexists..|done]. Qed.

Lemma elementAt_range s k v : elementAt s k = Some v -> Clock (getID s) <= k < struct_end s /\ isSkip s = false.
Proof. unfold elementAt. destruct (Z.leb_spec (Clock (getID s)) k), (Z.ltb_spec k (struct_end s)); cbn; try done. by destruct s. Qed.

Lemma plainUnit_low u : isLow u = true -> plainUnit u = RuneError.
Proof. unfold plainUnit. intros ->. by rewrite orb_true_r. Qed.

Lemma splitUnits_right us n l r i : splitUnits us n = (l, r) -> plainUnit <$> r !! i = plainUnit <$> us !! (n + i)%nat.
Proof.
  unfold splitUnits. destruct (list.last (take n us)) as [h|]; [|intros [= <- <-]; by rewrite lookup_drop].
  destruct (drop n us) as [|w r'] eqn:Ed; [intros [= <- <-]; by rewrite <- Ed, lookup_drop|].
  rewrite <- lookup_drop, Ed. destruct (isHigh h && isLow w) eqn:E; intros [= <- <-]; [|done]. destruct i as [|i]; [|done].
  cbn. apply andb_true_iff in E as [_ E]. by rewrite (plainUnit_low w E).
Qed.

Lemma splice_right (c : wireContent) d l r : content_ok c -> 1 < contentLength c -> 0 <= d -> spliceContent c d = Some (l, r) ->
  forall i, contentAt r i = contentAt c (Z.to_nat d + i).
Proof.
  intros Hok Hl Hd E i. destruct c as [arr|?|n|?|?|? ?|arr|value|?]; cbn [spliceContent contentLength content_ok] in *; try lia.
  - unfold spliceAny, spliceArrayAny in E. destruct (_ && _); [|done]. injection E as <- <-. cbn. by rewrite lookup_drop.
  - unfold spliceDeleted in E. injection E as <- <-. done.
  - unfold spliceJSON, spliceArrayAny in E. destruct (_ && _); [|done]. injection E as <- <-. cbn. by rewrite lookup_drop.
  - destruct (splice_string (V := any) (T := wireType) (D := subdoc) value d Hok Hd) as (l' & r' & E' & _ & _ & Hu). rewrite E in E'. injection E' as -> ->. cbn.
    pose proof (splitUnits_right _ _ _ _ i Hu) as Hr. destruct (utf16 r' !! i), (utf16 value !! (Z.to_nat d + i)%nat); cbn in *; congruence.
Qed.

(** A slice holds the same elements. *)
Lemma slice_elements s d : plain s -> 0 < d < structLength s ->
  exists t, sliceStruct s d = Some t /\ plain t /\ getID t = GenID (Client (getID s)) (Clock (getID s) + d) /\ struct_end t = struct_end s /\
    forall k, Clock (getID s) + d <= k -> elementAt t k = elementAt s k.
Proof.
  intros (Hs & Hl & Hok) Hd. destruct s as [it|gc|sk]; [| |done].
  - destruct Hok as [Hc El]. cbn in Hd. destruct (splice_total (w_content it) d Hc) as (l & r & Es & _ & Hr & _ & Hlr & _); [lia|lia|].
    eexists. cbn. rewrite Es. split; [reflexivity|]. unfold plain; split_and!; [done|cbn; lia|exact Hr|cbn; lia|done|unfold struct_end; cbn; lia|].
    intros k Hk. unfold elementAt, struct_end. cbn. destruct (Z.leb_spec (Clock (w_id it) + d) k); [|lia]. destruct (Z.leb_spec (Clock (w_id it)) k); [|lia]. cbn [andb].
    replace (Clock (w_id it) + d + (w_length it - d)) with (Clock (w_id it) + w_length it) by lia. destruct (k <? _); [|done]. f_equal.
    destruct (Z.eqb_spec k (Clock (w_id it))); [lia|]. assert (Hl1 : 1 < contentLength (w_content it)) by lia. assert (Hd0 : 0 <= d) by lia. rewrite (splice_right _ _ _ _ Hc Hl1 Hd0 Es). f_equal; [|f_equal; lia].
    destruct (Z.eqb_spec k (Clock (w_id it) + d)) as [->|]; [|done]. done.
  - eexists. cbn. split; [reflexivity|]. cbn in Hd, Hl. unfold plain; split_and!; [done|cbn; lia|done|done|unfold struct_end; cbn; lia|]. intros k Hk. unfold elementAt, struct_end. cbn.
    destruct (Z.leb_spec (Clock (gc_id gc) + d) k), (Z.leb_spec (Clock (gc_id gc)) k); try lia. by replace (Clock (gc_id gc) + d + (gc_length gc - d)) with (Clock (gc_id gc) + gc_length gc) by lia.
Qed.

(** ** The union of the updates *)

(** The order of the structs in an update: clients descending, clocks
    ascending. *)
Definition before (s t : wireStruct) : Prop :=
  Client (getID t) < Client (getID s) \/ (Client (getID s) = Client (getID t) /\ struct_end s <= Clock (getID t)).

(** In what is written a struct of the same client follows without a gap. *)
Definition follows (s t : wireStruct) : Prop :=
  Client (getID t) < Client (getID s) \/ (Client (getID s) = Client (getID t) /\ struct_end s = Clock (getID t)).

Definition chain (l : list wireStruct) : Prop := forall i s t, l !! i = Some s -> l !! S i = Some t -> follows s t.

Lemma chain_snoc l w x : chain (l ++ [w]) -> follows w x -> chain ((l ++ [w]) ++ [x]).
Proof.
  intros Hc Hf i s t Hs Ht. destruct (decide (S i < length (l ++ [w]))%nat) as [Hlt|Hge].
  - rewrite lookup_app_l in Hs, Ht by lia. by eapply Hc.
  - apply lookup_lt_Some in Ht as Hl. rewrite length_app in Hl. simpl in Hl. assert (S i = length (l ++ [w])) as E by lia.
    rewrite E in Ht. rewrite lookup_app_r, Nat.sub_diag in Ht by lia. injection Ht as <-. rewrite length_app in E. simpl in E.
    rewrite lookup_app_l in Hs by (rewrite length_app; simpl; lia). replace i with (length l) in Hs by lia.
    rewrite lookup_app_r, Nat.sub_diag in Hs by lia. by injection Hs as <-.
Qed.

Lemma chain_single x : chain [x].
Proof. intros i s t Hs Ht. by destruct i. Qed.

Section Union.
Context (inputs : list wireStruct).

(** The clock lies in a struct with elements. *)
Definition covered (l : list wireStruct) (c k : Z) : Prop :=
  exists t, t ∈ l /\ isSkip t = false /\ Client (getID t) = c /\ Clock (getID t) <= k < struct_end t.

Definition sound (t : wireStruct) : Prop :=
  forall k v, elementAt t k = Some v -> exists s, s ∈ inputs /\ Client (getID s) = Client (getID t) /\ elementAt s k = Some v.

Definition reader_ok (r : list wireStruct) : Prop := StronglySorted before r /\ Forall (fun s => s ∈ inputs /\ plain s) r.

(** [rs] are the readers, [w] is about to be written after [out]. *)
Record inv (rs : list (list wireStruct)) (w : wireStruct) (out : list wireStruct) : Prop := {
  inv_readers : Forall reader_ok rs;
  inv_plain : isSkip w = false;
  inv_chain : chain (out ++ [w]);
  inv_positive : Forall (fun t => 0 < structLength t) (out ++ [w]);
  inv_sound : Forall sound (out ++ [w]);
  inv_kept : forall s, s ∈ inputs -> s ∈ mjoin rs \/ forall k, Clock (getID s) <= k < struct_end s -> covered (out ++ [w]) (Client (getID s)) k;
  inv_next : forall s, s ∈ mjoin rs -> Client (getID s) < Client (getID w) \/
    (Client (getID s) = Client (getID w) /\ forall k, Clock (getID s) <= k < struct_end s -> k < struct_end w -> covered (out ++ [w]) (Client (getID s)) k)
}.

Lemma covered_mono l l' c k : l ⊆ l' -> covered l c k -> covered l' c k.
Proof. intros Hl (t & Ht & ?). exists t. split; [by apply Hl|done]. Qed.

Lemma mjoin_perm (rs rs' : list (list wireStruct)) s : rs ≡ₚ rs' -> s ∈ mjoin rs -> s ∈ mjoin rs'.
Proof. intros Hp Hs. apply list_elem_of_join in Hs as (l & Hs & Hl). apply list_elem_of_join. exists l. by rewrite <- Hp. Qed.

Lemma inv_perm rs rs' w out : rs ≡ₚ rs' -> inv rs w out -> inv rs' w out.
Proof.
  intros Hp []. constructor; try done.
  - by rewrite <- Hp.
  - intros s Hs. destruct (inv_kept0 s Hs) as [Hin|Hc]; [left|by right]. by eapply mjoin_perm.
  - intros s Hs. apply inv_next0. eapply mjoin_perm; [|exact Hs]. by symmetry.
Qed.

(** Empty readers do not matter. *)
Lemma inv_nil rs w out : inv ([] :: rs) w out <-> inv rs w out.
Proof.
  assert (Hj : forall s, s ∈ mjoin ([] :: rs) <-> s ∈ mjoin rs) by (intros; by rewrite mjoin_cons).
  split; intros []; constructor; try done.
  - by apply list.Forall_cons in inv_readers0 as [_ ?].
  - apply Forall_cons_2; [|done]. split; constructor.
Qed.

Lemma reader_cons x l : reader_ok (x :: l) -> reader_ok l /\ Forall (before x) l /\ x ∈ inputs /\ plain x.
Proof. intros [Hs Hf]. inversion Hs; subst. apply list.Forall_cons in Hf as [[? ?] ?]. done. Qed.

(** A struct that is covered is passed over. *)
Lemma inv_pass x l rs w out : inv ((x :: l) :: rs) w out ->
  (forall k, Clock (getID x) <= k < struct_end x -> covered (out ++ [w]) (Client (getID x)) k) -> inv (l :: rs) w out.
Proof.
  intros [] Hx. constructor; try done.
  - apply list.Forall_cons in inv_readers0 as [Hr Hrs]. apply reader_cons in Hr as [Hr _]. by apply Forall_cons_2.
  - intros s Hs. destruct (inv_kept0 s Hs) as [Hin|Hc]; [|by right]. rewrite mjoin_cons in Hin. apply elem_of_app in Hin as [[->|Hin]%elem_of_cons|Hin]; [by right|..]; left; rewrite mjoin_cons; set_solver.
  - intros s Hs. apply inv_next0. rewrite mjoin_cons in *. set_solver.
Qed.

Lemma inv_skipWritten l rs w out : inv (l :: rs) w out -> inv (skipWritten w l :: rs) w out.
Proof.
  induction l as [|x l IH]; [done|]. intros Hi. cbn [skipWritten]. destruct (Z.leb_spec (struct_end x) (struct_end w)); [|done].
  destruct (Z.leb_spec (Client (getID w)) (Client (getID x))); [|done]. cbn [andb]. apply IH. apply (inv_pass x l); [done|].
  destruct Hi. destruct (inv_next0 x) as [?|[_ Hc]]; [rewrite mjoin_cons; set_solver|lia|]. intros k Hk. apply Hc; [done|lia].
Qed.

(** The next struct of the client is written, cut where the one before ends. *)
Lemma inv_advance x x' l rs w out : inv ((x :: l) :: rs) w out -> Client (getID x) = Client (getID w) ->
  getID x' = GenID (Client (getID w)) (struct_end w) -> struct_end x' = struct_end x -> isSkip x' = false -> 0 < structLength x' -> sound x' ->
  inv (l :: rs) x' (out ++ [w]).
Proof.
  intros [] Hc Eid Eend Hs Hl Hsd. assert (Hcl : Client (getID x') = Client (getID w) /\ Clock (getID x') = struct_end w) by (by rewrite Eid).
  destruct Hcl as [Hcl Hck].
  assert (Hcov : forall s, s ∈ mjoin ((x :: l) :: rs) -> Client (getID s) = Client (getID w) -> forall k, Clock (getID s) <= k < struct_end s -> k < struct_end x' ->
     covered ((out ++ [w]) ++ [x']) (Client (getID s)) k).
  { intros s Hin Es k Hk Hlt. destruct (decide (k < struct_end w)) as [Hlo|Hhi].
    - destruct (inv_next0 s Hin) as [?|[_ Hcv]]; [lia|]. eapply covered_mono; [|by apply Hcv]. set_solver.
    - exists x'. split_and!; [set_solver|done|lia|lia|lia]. }
  constructor; try done.
  - apply list.Forall_cons in inv_readers0 as [Hr Hrs]. apply reader_cons in Hr as [Hr _]. by apply Forall_cons_2.
  - apply chain_snoc; [done|]. right. split; [by symmetry|by symmetry].
  - apply Forall_app. split; [done|]. by apply Forall_singleton.
  - apply Forall_app. split; [done|]. by apply Forall_singleton.
  - intros s Hin. destruct (inv_kept0 s Hin) as [Hm|Hcv].
    + rewrite mjoin_cons in Hm. apply elem_of_app in Hm as [[->|Hm]%elem_of_cons|Hm]; [right|left; rewrite mjoin_cons; set_solver..].
      intros k Hk. apply Hcov; [rewrite mjoin_cons; set_solver|done|done|lia].
    + right. intros k Hk. eapply covered_mono; [|by apply Hcv]. set_solver.
  - intros s Hin. assert (Hin' : s ∈ mjoin ((x :: l) :: rs)) by (rewrite mjoin_cons in *; set_solver).
    destruct (inv_next0 s Hin') as [?|[Es _]]; [left; lia|right]. split; [lia|]. by apply Hcov.
Qed.

(** The least struct of all readers starts a client, or the part of a client
    behind a gap. *)
Lemma inv_start x l rs out' : Forall reader_ok ((x :: l) :: rs) -> chain (out' ++ [x]) -> Forall (fun t => 0 < structLength t) out' -> Forall sound out' ->
  (forall s, s ∈ inputs -> s ∈ mjoin ((x :: l) :: rs) \/ forall k, Clock (getID s) <= k < struct_end s -> covered out' (Client (getID s)) k) ->
  (forall s, s ∈ mjoin ((x :: l) :: rs) -> Client (getID s) < Client (getID x) \/ (Client (getID s) = Client (getID x) /\ Clock (getID x) <= Clock (getID s))) ->
  inv (l :: rs) x out'.
Proof.
  intros Hr Hch Hp Hs Hk Hmin. apply list.Forall_cons in Hr as [Hr Hrs]. destruct (reader_cons _ _ Hr) as (Hl & _ & Hx & (Hsk & Hlen & Hpl)).
  assert (Hself : forall s k, Client (getID s) = Client (getID x) -> Clock (getID x) <= k < struct_end x -> covered (out' ++ [x]) (Client (getID s)) k).
  { intros s k Es Hk'. exists x. split_and!; [set_solver|done|done|lia|lia]. }
  constructor; try done.
  - by apply Forall_cons_2.
  - apply Forall_app. split; [done|]. by apply Forall_singleton.
  - apply Forall_app. split; [done|]. apply Forall_singleton. intros k v Hv. by exists x.
  - intros s Hin. destruct (Hk s Hin) as [Hm|Hc].
    + rewrite mjoin_cons in Hm. apply elem_of_app in Hm as [[->|Hm]%elem_of_cons|Hm]; [right|left; rewrite mjoin_cons; set_solver..]. intros k Hk'. by apply Hself.
    + right. intros k Hk'. eapply covered_mono; [|by apply Hc]. set_solver.
  - intros s Hin. destruct (Hmin s) as [?|[Es Hge]]; [rewrite mjoin_cons in *; set_solver|by left|right]. split; [done|]. intros k Hk' Hlt. apply Hself; [done|lia].
Qed.

(** A collected range grows. *)
Lemma inv_grow x l rs w m out : inv ((x :: l) :: rs) w out -> getID m = getID w -> struct_end w <= struct_end m -> isSkip m = false ->
  0 < structLength m -> sound m -> inv ((x :: l) :: rs) m out.
Proof.
  intros [] Eid He Hs Hl Hsd. apply Forall_app in inv_positive0 as [Hp Hpw], inv_sound0 as [Hso _].
  assert (Hcov : forall c k, covered (out ++ [w]) c k -> covered (out ++ [m]) c k).
  { intros c k (t & Ht & Hsk & Hc & Hk). apply elem_snoc in Ht as [Ht| ->]; [exists t; set_solver|]. exists m. rewrite Eid. split_and!; [set_solver|done|done|lia|lia]. }
  constructor; try done.
  - intros i s t Es Et. destruct (decide (i < length out)%nat) as [Hlt|Hge].
    + rewrite lookup_app_l in Es by done. destruct (decide (S i < length out)%nat) as [Hlt'|Hge'].
      * rewrite lookup_app_l in Et by done. apply (inv_chain0 i); rewrite lookup_app_l by lia; done.
      * assert (S i = length out) as E by lia. rewrite E, lookup_app_r, Nat.sub_diag in Et by lia. injection Et as <-.
        assert (follows s w) as Hf; [|unfold follows in *; by rewrite Eid]. apply (inv_chain0 i); [by rewrite lookup_app_l|]. rewrite E, lookup_app_r, Nat.sub_diag by lia. done.
    + apply lookup_lt_Some in Et. rewrite length_app in Et. simpl in Et. lia.
  - apply Forall_app. split; [done|]. by apply Forall_singleton.
  - apply Forall_app. split; [done|]. by apply Forall_singleton.
  - intros s Hin. destruct (inv_kept0 s Hin) as [?|Hc]; [by left|right]. intros k Hk. by apply Hcov, Hc.
  - intros s Hin. destruct (inv_next0 s Hin) as [?|[Es Hc]]; [left; by rewrite Eid|right]. rewrite Eid. split; [done|]. intros k Hk Hlt.
    destruct (decide (k < struct_end w)); [by apply Hcov, Hc|]. exists m. rewrite Eid. split_and!; [set_solver|done|done| |lia].
    apply list.Forall_cons in Hpw as [Hpw _]. cbv beta in Hpw. unfold struct_end in *. lia.
Qed.

(** *** A round *)
Definition readers_of (h : list heapEntry) : list (list wireStruct) := he_reader <$> h.

Definition inv_state (st : mergeState) : Prop :=
  all_ready (ms_heap st) /\ exists w, ms_currWrite st = Some w /\ inv (readers_of (ms_heap st)) w (ms_written st).

Lemma requeue_inv heap reader w out tie : all_ready heap -> inv (reader :: readers_of heap) w out -> inv_state (requeue heap reader (Some w) out tie).
Proof.
  intros Hr Hi. unfold requeue. destruct reader as [|x l].
  - split; [done|]. exists w. split; [done|]. by apply inv_nil.
  - split; [by apply Forall_cons_2|]. by exists w.
Qed.

Lemma inv_catchUp l rs : forall w out w' out' l', inv (l :: rs) w out -> catchUp (Client (getID w)) w out l = (w', out', l') -> inv (l' :: rs) w' out'.
Proof.
  induction l as [|x l IH]; intros w out w' out' l' Hi E; cbn [catchUp] in E; [by injection E as <- <- <-|].
  destruct (Z.eqb_spec (Client (getID x)) (Client (getID w))) as [Hc|]; [|by injection E as <- <- <-].
  destruct (Z.eqb_spec (Clock (getID x)) (struct_end w)) as [Hk|]; [|by injection E as <- <- <-].
  destruct (isSkip x) eqn:Hs; cbn [negb andb] in E; [by injection E as <- <- <-|].
  rewrite <- Hc in E. apply (IH x (out ++ [w]) w' out' l'); [|done].
  pose proof (inv_readers _ _ _ Hi) as Hr. apply list.Forall_cons in Hr as [Hr _]. destruct (reader_cons _ _ Hr) as (_ & _ & Hx & (_ & Hl & _)).
  eapply (inv_advance x x); [exact Hi|done| |done|done|done|].
  - rewrite <- Hc, <- Hk. by destruct (getID x).
  - intros k v Hv. by exists x.
Qed.

Lemma finish_inv heap reader w out tie : all_ready heap -> inv (reader :: readers_of heap) w out ->
  inv_state (finishRound (Client (getID w)) heap reader w out tie).
Proof.
  intros Hr Hi. unfold finishRound. destruct (catchUp (Client (getID w)) w out reader) as [[w' out'] l'] eqn:E.
  apply requeue_inv; [done|]. by eapply inv_catchUp.
Qed.

(** The head that is popped is the least struct of all readers. *)
Lemma popped_least e heap x l s : he_reader e = x :: l -> Forall reader_ok (readers_of (e :: heap)) -> Forall (fun e' => Less e' e = false) heap -> all_ready heap ->
  s ∈ mjoin ((x :: l) :: readers_of heap) -> Client (getID s) < Client (getID x) \/ (Client (getID s) = Client (getID x) /\ Clock (getID x) <= Clock (getID s)).
Proof.
  intros Ex Hr Hmin Hne Hs. cbn in Hr. rewrite Ex in Hr. apply list.Forall_cons in Hr as [Hr Hrs].
  assert (Hlater : forall y l' s, reader_ok (y :: l') -> s ∈ y :: l' -> Client (getID s) < Client (getID y) \/ (Client (getID s) = Client (getID y) /\ Clock (getID y) <= Clock (getID s))).
  { intros y l' t Hy [->|Ht]%elem_of_cons; [lia|]. destruct (reader_cons _ _ Hy) as (_ & Hb & _ & (_ & Hl & _)). rewrite list.Forall_forall in Hb.
    specialize (Hb t Ht). unfold before, struct_end in Hb. lia. }
  rewrite mjoin_cons in Hs. apply elem_of_app in Hs as [Hs|Hs]; [by apply (Hlater x l)|].
  apply list_elem_of_join in Hs as (r & Hs & Hin). unfold readers_of in Hin. apply list_elem_of_fmap in Hin as (e' & -> & He').
  unfold all_ready in Hne. rewrite list.Forall_forall in Hmin, Hne. specialize (Hmin e' He'). specialize (Hne e' He'). destruct (he_reader e') as [|y l'] eqn:Ey; [done|].
  assert (Hy : reader_ok (y :: l')). { rewrite list.Forall_forall in Hrs. apply Hrs. unfold readers_of. rewrite <- Ey. by apply list_elem_of_fmap_2. }
  specialize (Hlater y l' s Hy Hs). unfold Less in Hmin. rewrite Ex, Ey in Hmin.
  destruct (Z.eqb_spec (Client (getID y)) (Client (getID x))); cbn [negb] in Hmin; [|lia].
  destruct (Z.eqb_spec (Clock (getID y)) (Clock (getID x))); cbn [negb] in Hmin; lia.
Qed.

Lemma sound_merge w x m : sound w -> sound x -> isSkip w = false -> Clock (getID x) = struct_end w -> Client (getID x) = Client (getID w) ->
  0 < structLength w -> 0 < structLength x -> mergeStructWith w x = Some m -> sound m /\ isSkip m = false /\ 0 < structLength m.
Proof.
  intros Hw Hx Hs Hk Hc Hlw Hlx Em. destruct w as [|gw|], x as [|gx|]; try done. injection Em as <-. split_and!; [|done|cbn in *; lia].
  intros k v Hv. destruct (elementAt_range _ _ _ Hv) as [Hr _]. assert (v = VCollected) as -> by (unfold elementAt in Hv; case_match; [by injection Hv as <-|done]).
  unfold struct_end in Hr, Hk. cbn in Hr, Hk, Hc, Hlw, Hlx. destruct (decide (k < Clock (gc_id gw) + gc_length gw)) as [Hlt|Hge].
  - apply (Hw k VCollected). unfold elementAt, struct_end. cbn. destruct (Z.leb_spec (Clock (gc_id gw)) k), (Z.ltb_spec k (Clock (gc_id gw) + gc_length gw)); try lia. done.
  - destruct (Hx k VCollected) as (s & Hin & Hcl & Hel); [|exists s; split_and!; [done|cbn in *; congruence|done]].
    unfold elementAt, struct_end. cbn. destruct (Z.leb_spec (Clock (gc_id gx)) k), (Z.ltb_spec k (Clock (gc_id gx) + gc_length gx)); try lia. done.
Qed.

Lemma mergeRound_inv st e heap : inv_state st -> ms_heap st ≡ₚ e :: heap -> Forall (fun e' => Less e' e = false) heap ->
  exists st', mergeRound e st heap = Ok st' /\ inv_state st'.
Proof.
  intros (Hrdy & w & Ew & Hi) Hp Hmin. unfold all_ready in Hrdy. rewrite Hp in Hrdy. apply list.Forall_cons in Hrdy as [Hne Hrdy].
  apply (inv_perm _ (he_reader e :: readers_of heap)) in Hi; [|unfold readers_of; by rewrite Hp]. unfold mergeRound. rewrite Ew.
  destruct (he_reader e) as [|head tail] eqn:Er; [done|].
  pose proof (inv_skipWritten _ _ _ _ Hi) as Hsk. destruct (skipWritten w (head :: tail)) as [|curr rest] eqn:Ek.
  { eexists. split; [reflexivity|]. apply (requeue_inv heap []); done. }
  destruct (_ || _) eqn:Eb; [eexists; split; [reflexivity|by apply (requeue_inv heap (curr :: rest))]|]. apply orb_false_iff in Eb as [Ec%negb_false_iff%Z.eqb_eq Eit].
  pose proof (inv_readers _ _ _ Hi) as Hrs. pose proof (inv_readers _ _ _ Hsk) as Hrs'. apply list.Forall_cons in Hrs' as [Hcr _].
  destruct (reader_cons _ _ Hcr) as (_ & _ & Hcin & Hcpl). pose proof Hcpl as (Hcs & Hcl & _).
  assert (Hle : Client (getID head) <= Client (getID w)). { destruct (inv_next _ _ _ Hi head) as [?|[? _]]; [rewrite mjoin_cons; set_solver|lia|lia]. }
  assert (Hcw : Forall (fun t => 0 < structLength t) (ms_written st ++ [w])) by apply Hi. assert (Hso : Forall sound (ms_written st ++ [w])) by apply Hi.
  assert (Hstart : forall out', skipWritten w (head :: tail) = head :: tail -> chain (out' ++ [head]) -> (exists gap, out' = (ms_written st ++ [w]) ++ gap /\ Forall (fun t => 0 < structLength t) gap /\ Forall sound gap) ->
    inv (tail :: readers_of heap) head out').
  { intros out' Hsame Hch (gap & -> & Hg1 & Hg2). apply inv_start; try done.
    - apply Forall_app. done.
    - apply Forall_app. done.
    - intros s Hs. destruct (inv_kept _ _ _ Hi s Hs) as [?|Hc]; [by left|right]. intros k Hk. eapply covered_mono; [|by apply Hc]. set_solver.
    - intros s Hs. eapply popped_least; [exact Er| |exact Hmin|exact Hrdy|exact Hs]. unfold readers_of. cbn. rewrite Er. exact Hrs. }
  destruct (Z.eqb_spec (Client (getID head)) (Client (getID w))) as [Hcw'|Hcw']; cbn [negb].
  2: { (* another client *)
    assert (Hsame : skipWritten w (head :: tail) = head :: tail). { cbn [skipWritten]. destruct (Z.leb_spec (Client (getID w)) (Client (getID head))); [lia|]. by rewrite andb_false_r. }
    rewrite Hsame in Ek. injection Ek as <- <-. eexists. split; [reflexivity|]. apply finish_inv; [done|]. apply Hstart; [done| |].
    - apply chain_snoc; [apply Hi|]. left. lia.
    - exists []. split_and!; [by rewrite app_nil_r|constructor|constructor]. }
  assert (Huncov : struct_end w < struct_end curr). { pose proof (skipWritten_head _ _ _ _ Ek) as Hun. unfold written_head in Hun. cbn [he_reader] in Hun. lia. }
  pose proof (inv_plain _ _ _ Hi) as Hwp. destruct (Z.ltb_spec (struct_end w) (Clock (getID curr))) as [Hgap|Hno].
  - (* a gap *)
    rewrite andb_true_r in Eit. apply negb_false_iff, Nat.eqb_eq in Eit.
    assert (Hsame : skipWritten w (head :: tail) = head :: tail).
    { destruct (skipWritten_suffix w (head :: tail)) as [n En]. rewrite Ek in En. destruct n; [by rewrite Ek, En|]. exfalso. rewrite En, length_drop in Eit. simpl in Eit. lia. }
    rewrite Hsame in Ek. injection Ek as <- <-. rewrite Hwp. eexists. split; [reflexivity|]. rewrite finishRound_gap by done. apply finish_inv; [done|]. apply Hstart; [done| |].
    + apply chain_snoc; [apply chain_snoc; [apply Hi|]|]; right; (split; [first [reflexivity|exact (eq_sym Hcw')]|]); [done|]. apply gap_end.
    + eexists. split; [reflexivity|]. split; apply Forall_singleton; [cbn [structLength wire_struct skip_length]; lia|]. intros k v Hv. destruct (elementAt_range _ _ _ Hv) as [_ ?]. done.
  - rewrite Hwp. cbn [negb]. rewrite andb_false_r, andb_true_r. set (diff := struct_end w - Clock (getID curr)).
    assert (Hcurr : exists c, (if 0 <? diff then sliceStruct curr diff else Some curr) = Some c /\ getID c = GenID (Client (getID w)) (struct_end w) /\ struct_end c = struct_end curr /\
       plain c /\ sound c).
    { destruct (Z.ltb_spec 0 diff) as [Hd|Hd].
      - destruct (slice_elements curr diff Hcpl) as (t & Et & Hpt & Eid & Eend & Hel); [unfold diff, struct_end in *; lia|]. exists t. split_and!; [done| |done|done|].
        + rewrite Eid. f_equal; [lia|unfold diff; lia].
        + intros k v Hv. destruct (elementAt_range _ _ _ Hv) as [Hk _]. exists curr. rewrite Eid in *. cbn [Client Clock] in *. split_and!; [done|done|]. rewrite <- Hel; [done|lia].
      - exists curr. split_and!; [done| |done|done|]; [|intros k v Hv; by exists curr]. destruct (getID curr) as [a b] eqn:Eg. cbn [Client Clock] in *. f_equal; [lia|unfold diff in Hd; lia]. }
    destruct Hcurr as (c & Ec' & Eid & Eend & (Hcp1 & Hcp2 & _) & Hsc). rewrite Ec'.
    assert (Hclc : Client (getID curr) = Client (getID w)) by lia. rewrite Hcw'.
    destruct (mergeStructWith w c) as [m|] eqn:Em.
    + apply Forall_app in Hcw as [_ Hlw], Hso as [_ Hsw]. apply list.Forall_cons in Hlw as [Hlw _], Hsw as [Hsw _].
      destruct (sound_merge w c m Hsw Hsc Hwp ltac:(by rewrite Eid) ltac:(by rewrite Eid) Hlw Hcp2 Em) as (Hsm & Hmp & Hml).
      destruct (mergeStructWith_end _ _ _ Em) as [Emi Eme]. eexists. split; [reflexivity|]. rewrite <- Emi. apply finish_inv; [done|].
      eapply inv_grow; [exact Hsk|done|lia|done|done|done].
    + eexists. split; [reflexivity|]. assert (Client (getID w) = Client (getID c)) as -> by (by rewrite Eid). apply finish_inv; [done|].
      eapply inv_advance; [exact Hsk|done|done|done|done|done|done].
Qed.

End Union.

(** ** The result *)
Definition sorted_update (r : list wireStruct) : Prop := StronglySorted before r /\ Forall plain r.

Section Result.
Context (readers : list (list wireStruct)) (Hreaders : Forall sorted_update readers).
Abbreviation inputs := (mjoin readers).

Lemma mergeLoop_inv fuel st st' : inv_state inputs st -> mergeLoop fuel st = Ok st' -> inv_state inputs st' /\ ms_heap st' = [].
Proof.
  revert st. induction fuel as [|fuel IH]; intros st Hi E; cbn [mergeLoop] in E; destruct (heapPop (ms_heap st)) as [[e heap]|] eqn:Ep; try done.
  - injection E as <-. split; [done|]. by apply heapPop_None.
  - destruct (heapPop_spec _ _ _ (proj1 Hi) Ep) as [Hp Hmin]. destruct (mergeRound_inv _ _ _ _ Hi Hp Hmin) as (st1 & E1 & Hi1). rewrite E1 in E. by apply (IH st1).
  - injection E as <-. split; [done|]. by apply heapPop_None.
Qed.

Lemma mergeLoop_no_panic fuel st : inv_state inputs st -> mergeLoop fuel st = Err ErrDepth \/ exists st', mergeLoop fuel st = Ok st'.
Proof.
  revert st. induction fuel as [|fuel IH]; intros st Hi; cbn [mergeLoop]; destruct (heapPop (ms_heap st)) as [[e heap]|] eqn:Ep; eauto.
  destruct (heapPop_spec _ _ _ (proj1 Hi) Ep) as [Hp Hmin]. destruct (mergeRound_inv _ _ _ _ Hi Hp Hmin) as (st1 & E1 & Hi1). rewrite E1. by apply IH.
Qed.

Lemma readers_ok : Forall (reader_ok inputs) readers.
Proof.
  apply list.Forall_forall. intros r Hr. rewrite list.Forall_forall in Hreaders. destruct (Hreaders r Hr) as [Hs Hp]. split; [done|].
  rewrite list.Forall_forall in Hp |- *. intros s Hin. split; [|by apply Hp]. apply list_elem_of_join. by exists r.
Qed.

Lemma no_skips_readers : Forall no_skips readers.
Proof. eapply Forall_impl; [|exact Hreaders]. intros r [_ Hp]. eapply Forall_impl; [|exact Hp]. by intros s [? _]. Qed.

Lemma initHeap_readers s : s ∈ mjoin (readers_of (initHeap readers)) <-> s ∈ inputs.
Proof.
  rewrite !list_elem_of_join. unfold readers_of, initHeap. split; intros (l & Hs & Hl).
  - apply list_elem_of_fmap in Hl as (e & -> & He). apply list_elem_of_filter in He as [_ He]. apply elem_of_lookup_imap in He as (i & r & -> & Hi).
    exists r. split; [done|by eapply list_elem_of_lookup_2].
  - apply list_elem_of_lookup in Hl as (i & Hi). exists l. split; [done|]. apply list_elem_of_fmap. exists (mkEntry l (Z.of_nat i)). split; [done|].
    apply list_elem_of_filter. split; [cbn; intros ->; by apply not_elem_of_nil in Hs|]. apply elem_of_lookup_imap. by exists i, l.
Qed.

Lemma initHeap_ok : Forall (reader_ok inputs) (readers_of (initHeap readers)).
Proof.
  apply list.Forall_forall. intros r Hr. unfold readers_of, initHeap in Hr. apply list_elem_of_fmap in Hr as (e & -> & He). apply list_elem_of_filter in He as [_ He].
  apply elem_of_lookup_imap in He as (i & r & -> & Hi). pose proof readers_ok as Hok. rewrite list.Forall_forall in Hok. apply Hok. by eapply list_elem_of_lookup_2.
Qed.

(** The first round. *)
Lemma first_round e heap : heapPop (initHeap readers) = Some (e, heap) ->
  exists st', mergeRound e (initMerge readers) heap = Ok st' /\ inv_state inputs st'.
Proof.
  intros Ep. pose proof (initMerge_ready readers no_skips_readers) as (Hrdy & _). destruct (heapPop_spec _ _ _ Hrdy Ep) as [Hp Hmin].
  pose proof initHeap_ok as Hok. unfold all_ready in Hrdy. cbn [initMerge ms_heap] in Hrdy. rewrite Hp in Hrdy. unfold readers_of in Hok. rewrite Hp in Hok.
  apply list.Forall_cons in Hrdy as [Hne Hrdy]. unfold mergeRound. cbn [initMerge ms_currWrite ms_written ms_nextTie].
  destruct (he_reader e) as [|head tail] eqn:Er; [done|]. eexists. split; [reflexivity|]. apply finish_inv; [done|]. apply inv_start; try (constructor; fail).
  - cbn in Hok. by rewrite Er in Hok.
  - apply chain_single.
  - intros s Hs. left. apply initHeap_readers in Hs. eapply mjoin_perm in Hs; [|unfold readers_of; rewrite Hp; reflexivity]. cbn in Hs. by rewrite Er in Hs.
  - intros s Hs. eapply popped_least; [exact Er|exact Hok|exact Hmin|exact Hrdy|exact Hs].
Qed.

Lemma merge_result : exists out, mergeStructs readers = Ok out /\ chain out /\ Forall (fun t => 0 < structLength t) out /\ Forall (sound inputs) out /\
  forall s k, s ∈ inputs -> Clock (getID s) <= k < struct_end s -> covered out (Client (getID s)) k.
Proof.
  pose proof (mergeStructs_terminates readers no_skips_readers) as Ht. unfold mergeStructs in *. remember (mergeFuel readers) as fuel eqn:Ef.
  destruct (heapPop (initHeap readers)) as [[e heap]|] eqn:Ep; last first.
  { assert (mergeLoop fuel (initMerge readers) = Ok (initMerge readers)) as E by (destruct fuel; cbn [mergeLoop initMerge ms_heap]; by rewrite Ep).
    rewrite E in *. apply heapPop_None in Ep. eexists. split; [reflexivity|]. cbn. split_and!; [intros i s t Hs; done|constructor|constructor|].
    intros s k Hs _. apply initHeap_readers in Hs. rewrite Ep in Hs. by apply not_elem_of_nil in Hs. }
  destruct (first_round e heap Ep) as (st1 & E1 & Hi1). destruct fuel as [|fuel]; [cbn [mergeLoop initMerge ms_heap] in Ht; by rewrite Ep in Ht|].
  cbn [mergeLoop] in *. change (ms_heap (initMerge readers)) with (initHeap readers) in *. rewrite Ep, E1 in *.
  destruct (mergeLoop_no_panic fuel st1 Hi1) as [E|[st' E]]; rewrite E in *; [done|].
  destruct (mergeLoop_inv _ _ _ Hi1 E) as [(_ & w & Ew & Hi) Hh]. rewrite Ew. eexists. split; [reflexivity|]. cbn [from_option]. destruct Hi. split_and!; try done.
  intros s k Hs Hk. destruct (inv_kept0 s Hs) as [Hin|Hc]; [|by apply Hc]. rewrite Hh in Hin. by apply not_elem_of_nil in Hin.
Qed.

End Result.

(** ** Two readers *)
Definition sample_reader1 : list wireStruct :=
  [WItem (mkWire (GenID 9 0) 3 None None (ParentKey [116]) [] (contentString [97; 98; 99])); WGC (newGC (GenID 9 7) 2); WGC (newGC (GenID 4 0) 2)].
Definition sample_reader2 : list wireStruct :=
  [WItem (mkWire (GenID 9 1) 4 (Some (GenID 9 0)) None NoParent [] (contentString [98; 99; 100; 101])); WGC (newGC (GenID 4 1) 3)].

Lemma sample_sorted : Forall sorted_update [sample_reader1; sample_reader2].
Proof.
  assert (Hv : forall l, Forall scalar l -> utf8 l = l -> valid l) by (intros l ? ?; by exists l).
  repeat apply Forall_cons_2; [| |apply Forall_nil_2]; split.
  - repeat first [apply SSorted_nil|apply SSorted_cons|apply Forall_nil_2|apply Forall_cons_2]; unfold before, struct_end; cbn; lia.
  - repeat apply Forall_cons_2; [..|apply Forall_nil_2]; (split; [done|split; [cbn; lia|try done]]). split; [|by vm_compute]. apply Hv; [apply (bool_decide_unpack _); by vm_compute|done].
  - repeat first [apply SSorted_nil|apply SSorted_cons|apply Forall_nil_2|apply Forall_cons_2]; unfold before, struct_end; cbn; lia.
  - repeat apply Forall_cons_2; [..|apply Forall_nil_2]; (split; [done|split; [cbn; lia|try done]]). split; [|by vm_compute]. apply Hv; [apply (bool_decide_unpack _); by vm_compute|done].
Qed.
