(* ===== verification/LazyUpdate.v ===== *)
(** * Updates without a document

    Models the lazy struct reader and writer of crdt/updates.go with the cursor of
    crdt/struct_decode.go, and the functions on encoded updates built from them:
    [mergeUpdatesCore], [diffUpdateWith], [convertUpdateFormatWith],
    [decodeUpdateWith], [encodeStateVectorFromUpdateWith] and
    [parseUpdateMetaWith]; and the state vector codec of crdt/merge.go. *)
From S2P Require Import Prelude Lib0 Rle Object Any Text StringColumn StructStore DeleteSet DeleteSetCodec UpdateCodec Content StructCodec Consume UpdateStream UpdateMerge.

(** ** The reader *)
Section Reader.
Context {D : Type} `{UpdateDecoder D} `{JSONText}.

Record lazyStructCursor := mkCursor { c_stream : structDecodeStream D; c_err : option go_error; c_done : bool }.

(** [fail]: the first error sticks. *)
Definition cursorFail (e : go_error) (c : lazyStructCursor) : lazyStructCursor :=
  mkCursor (c_stream c) (Some (match c_err c with Some x => x | None => e end)) true.

Definition with_stream (s : structDecodeStream D) (c : lazyStructCursor) : lazyStructCursor := mkCursor s (c_err c) (c_done c).

(** What the stream has left: bytes for blocks and structs under the cap. *)
Definition streamLeft (s : structDecodeStream D) : nat := length (dec_rest (st_decoder s)) + Z.to_nat (st_structCap s - st_structsDecoded s + 1).

(** [lazyStructCursor.Next]; [fuel] bounds the rounds of its loop. *)
Fixpoint nextLoop (fuel : nat) (c : lazyStructCursor) : option wireStruct * lazyStructCursor :=
  match fuel with
  | O => (None, cursorFail ErrDepth c)
  | S fuel' =>
      let advance (c : lazyStructCursor) :=
        match NextStruct (c_stream c) with
        | (Err e, s) => (None, cursorFail e (with_stream s c))
        | (Ok None, s) => nextLoop fuel' (with_stream s c)
        | (Ok (Some None), s) => nextLoop fuel' (with_stream s c)
        | (Ok (Some (Some value)), s) => (Some value, with_stream s c)
        end in
      if st_blockActive (c_stream c) then advance c
      else
        match NextBlock (c_stream c) with
        | (Err e, s) => (None, cursorFail e (with_stream s c))
        | (Ok None, s) => (None, mkCursor s (c_err c) true)
        | (Ok (Some _), s) => if negb (st_blockActive s) then nextLoop fuel' (with_stream s c) else advance (with_stream s c)
        end
  end.

Definition cursorNext (c : lazyStructCursor) : option wireStruct * lazyStructCursor :=
  if c_done c then (None, c) else nextLoop (S (streamLeft (c_stream c))) c.

(** All structs that the cursor delivers. *)
Fixpoint drainLoop (fuel : nat) (c : lazyStructCursor) : list wireStruct * lazyStructCursor :=
  match fuel with
  | O => ([], c)
  | S fuel' =>
      match cursorNext c with
      | (None, c) => ([], c)
      | (Some value, c) => let '(l, c) := drainLoop fuel' c in (value :: l, c)
      end
  end.

Definition newCursor (decoder : D) : lazyStructCursor := mkCursor (newStructDecodeStream decoder true) None false.

(** [newLazyStructReader], read to its end: the structs, the error of the cursor
    and the decoder behind the structs. [filterSkips] passes over skips. *)
Definition lazyStructs (decoder : D) (filterSkips : bool) : list wireStruct * option go_error * D :=
  let c := newCursor decoder in
  let '(l, c) := drainLoop (S (streamLeft (c_stream c))) c in
  ((if filterSkips then filter (fun s => isSkip s = false) l else l), c_err c, st_decoder (c_stream c)).

End Reader.
Arguments lazyStructCursor D : clear implicits.

(** ** The writer *)

(** [restartRestEncoder]: the bytes of the rest buffer, and a fresh one; and
    writing bytes to it. *)
Class RestEncoder (E : Type) := {
  restartRestEncoder : E -> list Z * E;
  appendRest : E -> list Z -> E
}.

#[global] Instance restEncoderV1 : RestEncoder V1.dsEncoderV1 := {|
  restartRestEncoder e := (V1.rest e, V1.mkEnc []);
  appendRest e bs := V1.mkEnc (V1.rest e ++ bs)
|}.

#[global] Instance restEncoderV2 : RestEncoder UV2.updateEncoderV2 := {|
  restartRestEncoder e := (V2.rest (UV2.e_ds e), UV2.with_ds (V2.mkEnc [] (V2.dsCurrVal (UV2.e_ds e))) e);
  appendRest e bs := UV2.with_ds (V2.mkEnc (V2.rest (UV2.e_ds e) ++ bs) (V2.dsCurrVal (UV2.e_ds e))) e
|}.

Record clientStruct := mkPart { cs_written : Z; cs_restEncoder : list Z }.

Section Writer.
Context {E : Type} `{UpdateEncoder E} `{!RestEncoder E} `{JSONText}.

(** The recorded positions are only used when an update is sent in parts. *)
Record lazyStructWriter := mkLazy {
  lw_currClient : Z;
  lw_written : Z;
  lw_encoder : E;
  lw_clientStructs : list clientStruct
}.

Definition newLazyStructWriter (encoder : E) : lazyStructWriter := mkLazy 0 0 encoder [].

Definition flushLazyStructWriter (w : lazyStructWriter) : lazyStructWriter :=
  if 0 <? lw_written w then
    let '(rest, encoder) := restartRestEncoder (lw_encoder w) in
    mkLazy (lw_currClient w) 0 encoder (lw_clientStructs w ++ [mkPart (lw_written w) rest])
  else w.

(** A write of the encoder inside the writer. *)
Definition onEncoder (m : step E unit) : step lazyStructWriter unit := fun w =>
  let '(r, e) := m (lw_encoder w) in (r, mkLazy (lw_currClient w) (lw_written w) e (lw_clientStructs w)).

Definition writeStructToLazyStructWriter (s : wireStruct) (offset : Z) : step lazyStructWriter unit := fun w =>
  let w := if (0 <? lw_written w) && negb (lw_currClient w =? Client (getID s)) then flushLazyStructWriter w else w in
  (_ <-- (if lw_written w =? 0 then
            _ <-- (fun w => (Ok tt, mkLazy (Client (getID s)) (lw_written w) (lw_encoder w) (lw_clientStructs w)));;;
            _ <-- onEncoder (writeClient (Client (getID s)));;;
            onEncoder (writeRest (u64 (Clock (getID s) + offset)))
          else rret tt);;;
   _ <-- onEncoder (writeStruct s offset);;;
   fun w => (Ok tt, mkLazy (lw_currClient w) (lw_written w + 1) (lw_encoder w) (lw_clientStructs w))) w.

Definition finishLazyStructWriting (w : lazyStructWriter) : E :=
  let w := flushLazyStructWriter w in
  let e := writeRestVarUint (lw_encoder w) (Z.of_nat (length (lw_clientStructs w))) in
  fold_left (fun e part => appendRest (writeRestVarUint e (u64 (cs_written part))) (cs_restEncoder part)) (lw_clientStructs w) e.

(** The structs with their offsets, in order. *)
Definition writeAll (l : list (wireStruct * Z)) : step lazyStructWriter unit :=
  fold_right (fun p k => _ <-- writeStructToLazyStructWriter p.1 p.2;;; k) (rret tt) l.

(** [toBytes] with the check of [encodeError]. *)
Definition encoded (e : E) : result (list Z) :=
  match toBytes e with (bs, None) => Ok bs | (_, Some x) => Err x end.

End Writer.
Arguments lazyStructWriter E : clear implicits.

(** ** State vectors *)
Section StateVector.
Context {E D : Type} `{DSEncoder E} `{DSDecoder D}.

Definition writeStateVector (encoder : E) (sv : gmap Z Z) : E :=
  fold_left (fun e '(client, clock) => writeRestVarUint (writeRestVarUint e (u64 client)) (u64 clock)) (mapSortedRange sv)
    (writeRestVarUint encoder (Z.of_nat (size sv))).

Definition readStateVector : step D (gmap Z Z) :=
  ssLength <-- readRestNumber;;;
  l <-- rtimes (Z.to_nat ssLength) (client <-- readRestNumber;;; clock <-- readRestNumber;;; rret (client, clock));;;
  rret (fold_left (fun ss p => <[p.1 := p.2]> ss) l ∅).

End StateVector.

Definition decodeStateVector (decodedState : list Z) : result (gmap Z Z) := (readStateVector (UV1.newDecoder decodedState)).1.
Definition EncodeStateVector (sv : gmap Z Z) : list Z := V1.rest (writeStateVector UV1.newEncoder sv).

(** ** Functions on encoded updates *)
Section Functions.
Context {E D : Type} `{UpdateEncoder E} `{!RestEncoder E} `{UpdateDecoder D} `{JSONText} (newE : E) (newD : list Z -> D).

(** The structs of an update and its delete set. *)
Definition decodeUpdateWith (update : list Z) : result (list wireStruct * deleteSet) :=
  let '(structs, err, decoder) := lazyStructs (newD update) false in
  match err with
  | Some e => Err e
  | None => match readDeleteSet decoder with (Ok ds, _) => Ok (structs, ds) | (Err e, _) => Err e end
  end.

(** Writes the structs, then the delete set that [ds] reads. *)
Definition emit (w : lazyStructWriter E) (ds : result deleteSet) : result (list Z) :=
  match ds with
  | Err e => Err e
  | Ok ds => match writeDeleteSet (finishLazyStructWriting w) (Some ds) with Ok e => encoded e | Err x => Err x end
  end.

Definition convertUpdateFormatWith (update : list Z) : result (list Z) :=
  let '(structs, err, decoder) := lazyStructs (newD update) false in
  match writeAll ((fun s => (s, 0)) <$> structs) (newLazyStructWriter newE) with
  | (Err e, _) => Err e
  | (Ok _, w) => match err with Some e => Err e | None => emit w (readDeleteSet decoder).1 end
  end.

(** The structs that [diffUpdateWith] writes, with their offsets. *)
Fixpoint takeClient (client : Z) (l : list wireStruct) : list wireStruct * list wireStruct :=
  match l with
  | s :: l' => if Client (getID s) =? client then let '(a, b) := takeClient client l' in (s :: a, b) else ([], l)
  | [] => ([], [])
  end.

Fixpoint dropOld (client svClock : Z) (l : list wireStruct) : list wireStruct :=
  match l with
  | s :: l' => if (Client (getID s) =? client) && (struct_end s <=? svClock) then dropOld client svClock l' else l
  | [] => []
  end.

Fixpoint diffLoop (fuel : nat) (state : gmap Z Z) (l : list wireStruct) : list (wireStruct * Z) :=
  match fuel with
  | O => []
  | S fuel' =>
      match l with
      | [] => []
      | curr :: rest =>
          let svClock := default 0 (state !! Client (getID curr)) in
          if isSkip curr then diffLoop fuel' state rest
          else if svClock <? struct_end curr then
            let '(same, rest) := takeClient (Client (getID curr)) rest in
            (curr, Z.max (svClock - Clock (getID curr)) 0) :: ((fun s => (s, 0)) <$> same) ++ diffLoop fuel' state rest
          else diffLoop fuel' state (dropOld (Client (getID curr)) svClock l)
      end
  end.

Definition diffStructs (state : gmap Z Z) (l : list wireStruct) : list (wireStruct * Z) := diffLoop (length l) state l.

Definition diffUpdateWith (update sv : list Z) : result (list Z) :=
  match decodeStateVector (match sv with [] => [0] | _ => sv end) with
  | Err e => Err e
  | Ok state =>
      let '(structs, err, decoder) := lazyStructs (newD update) false in
      match writeAll (diffStructs state structs) (newLazyStructWriter newE) with
      | (Err e, _) => Err e
      | (Ok _, w) => match err with Some e => Err e | None => emit w (readDeleteSet decoder).1 end
      end
  end.

(** The first error of a list. *)
Fixpoint firstError (l : list (option go_error)) : option go_error :=
  match l with [] => None | Some e :: _ => Some e | None :: l' => firstError l' end.

Fixpoint readDeleteSets (ds : list D) : result (list deleteSet) :=
  match ds with
  | [] => Ok []
  | d :: ds' => match (readDeleteSet d).1 with
                | Err e => Err e
                | Ok x => match readDeleteSets ds' with Ok xs => Ok (x :: xs) | Err e => Err e end
                end
  end.

(** [mergeUpdatesCore]: the structs of the loop, the last of them after the
    check of the readers. *)
Definition mergeUpdatesCore (updates : list (list Z)) : result (list Z) :=
  let readers : list (list wireStruct * option go_error * D) := (fun u => lazyStructs (newD u) true) <$> updates in
  match mergeLoop (mergeFuel ((fun r => r.1.1) <$> readers)) (initMerge ((fun r => r.1.1) <$> readers)) with
  | Err e => Err e
  | Ok st =>
      match writeAll ((fun s => (s, 0)) <$> ms_written st) (newLazyStructWriter newE) with
      | (Err e, _) => Err e
      | (Ok _, w) =>
          match firstError ((fun r => r.1.2) <$> readers) with
          | Some e => Err e
          | None =>
              match writeAll ((fun s => (s, 0)) <$> from_option (fun s => [s]) [] (ms_currWrite st)) w with
              | (Err e, _) => Err e
              | (Ok _, w) => emit w (match readDeleteSets ((fun r => r.2) <$> readers) with Ok dss => Ok (mergeDeleteSets (Some <$> dss)) | Err e => Err e end)
              end
          end
      end
  end.

(** The entries of the state vector: a client counts while it starts at 0 and
    has no gap. *)
Fixpoint vectorLoop (currClient currClock : Z) (stopCounting : bool) (l : list wireStruct) : list (Z * Z) :=
  match l with
  | [] => if currClock =? 0 then [] else [(currClient, currClock)]
  | curr :: rest =>
      let other := negb (currClient =? Client (getID curr)) in
      let entry := if other && negb (currClock =? 0) then [(currClient, currClock)] else [] in
      let '(currClient, currClock, stopCounting) :=
        if other then (Client (getID curr), 0, negb (Clock (getID curr) =? 0)) else (currClient, currClock, stopCounting) in
      let stopCounting := isSkip curr || stopCounting in
      let currClock := if stopCounting then currClock else struct_end curr in
      entry ++ vectorLoop currClient currClock stopCounting rest
  end.

Definition vectorOf (l : list wireStruct) : list (Z * Z) :=
  match l with
  | [] => []
  | curr :: _ =>
      let stopCounting := negb (Clock (getID curr) =? 0) in
      vectorLoop (Client (getID curr)) (if stopCounting then 0 else struct_end curr) stopCounting l
  end.

Definition encodeStateVectorFromUpdateWith (update : list Z) : result (list Z) :=
  let '(structs, err, _) := lazyStructs (newD update) false in
  match err with
  | Some e => Err e
  | None =>
      let entries := vectorOf structs in
      Ok (fold_left (fun buf '(client, clock) => WriteVarUint (WriteVarUint buf (u64 client)) (u64 clock)) entries (WriteVarUint [] (Z.of_nat (length entries))))
  end.

(** The first and the last clock of every client. *)
Fixpoint metaLoop (currClient currClock : Z) (from to : gmap Z Z) (l : list wireStruct) : gmap Z Z * gmap Z Z :=
  match l with
  | [] => (from, <[currClient := currClock]> to)
  | curr :: rest =>
      if negb (currClient =? Client (getID curr))
      then metaLoop (Client (getID curr)) (struct_end curr) (<[Client (getID curr) := Clock (getID curr)]> from) (<[currClient := currClock]> to) rest
      else metaLoop currClient (struct_end curr) from to rest
  end.

Definition parseUpdateMetaWith (update : list Z) : result (gmap Z Z * gmap Z Z) :=
  let '(structs, err, _) := lazyStructs (newD update) false in
  match err with
  | Some e => Err e
  | None =>
      Ok (match structs with
          | [] => (∅, ∅)
          | curr :: _ => metaLoop (Client (getID curr)) (Clock (getID curr)) {[Client (getID curr) := Clock (getID curr)]} ∅ structs
          end)
  end.

End Functions.

(** ** Reading what was written *)

(** The fields of a list of blocks, each block the structs of a client with
    their offsets. *)
Section Trace.
Context `{JSONText}.

Definition structs_trace (b : list (wireStruct * Z)) : list field := b ≫= fun p => struct_fields p.1 p.2.
Definition block_head (b : list (wireStruct * Z)) : list field :=
  match b with [] => [] | (s, o) :: _ => [FClient (Client (getID s)); FRest (Clock (getID s) + o)] end.
Definition block_trace (b : list (wireStruct * Z)) : list field := FRest (Z.of_nat (length b)) :: block_head b ++ structs_trace b.
Definition update_trace (bs : list (list (wireStruct * Z))) : list field := FRest (Z.of_nat (length bs)) :: (bs ≫= block_trace).

(** A block that can be sent: its structs are contiguous, the first may be cut. *)
Fixpoint block_chain (json_ok : any -> Prop) (client clock : Z) (b : list (wireStruct * Z)) : Prop :=
  match b with
  | [] => True
  | (s, o) :: b' => clock = Clock (getID s) + o /\ cut_ok o (structLength s) /\ struct_ok json_ok s /\ 0 < structLength s /\
      Client (getID s) = client /\ block_chain json_ok client (struct_end s) b'
  end.

Definition block_ok (json_ok : any -> Prop) (b : list (wireStruct * Z)) : Prop :=
  match b with [] => False | (s, o) :: _ => is_safe (Client (getID s)) /\ block_chain json_ok (Client (getID s)) (Clock (getID s) + o) b end.

End Trace.

Section LazyRead.
Context {D : Type} `{Consuming D} `{JSONText} (json : any -> any) (json_ok : any -> Prop).
Abbreviation C := (lazyStructCursor D).

Definition backs (b : list (wireStruct * Z)) : list wireStruct := (fun p => struct_back json p.1 p.2) <$> b.

Lemma NextStruct_reads (x : wireStruct) o d d' blocks decoded cap client clock n (s : structDecodeStream D) :
  reading d blocks decoded cap client clock (S n) s -> decoded < cap -> clock = Clock (getID x) + o -> cut_ok o (structLength x) ->
  struct_ok json_ok x -> 0 < structLength x -> Client (getID x) = client -> delivers json d (struct_fields x o) d' ->
  exists s', NextStruct s = (Ok (Some (Some (struct_back json x o))), s') /\ reading d' blocks (decoded + 1) cap client (struct_end x) n s'.
Proof.
  intros Hs Hcap Hck Hcut Hok Hl Hc Hd.
  destruct (readNext_struct json json_ok (fun _ => o) x d d' blocks decoded cap client clock n s Hs Hcap Hck Hcut Hok Hl Hc Hd) as (s1 & s2 & En & Ep & Hr).
  exists (set_stalled 0 s1). split.
  - unfold NextStruct. rewrite (r_err _ _ _ _ _ _ _ _ Hs), (r_active _ _ _ _ _ _ _ _ Hs). cbn [negb]. unfold rbind. rewrite En. done.
  - unfold progressed in Ep. destruct (_ && _); simplify_eq; destruct Hr; constructor; done.
Qed.

(** The cursor stands in the block of [s], or just before it. *)
Definition enters (c : C) (s : structDecodeStream D) : Prop :=
  s = c_stream c \/ (st_blockActive (c_stream c) = false /\ exists block, NextBlock (c_stream c) = (Ok (Some block), s)).

Lemma cursor_struct (x : wireStruct) o d d' blocks decoded cap client clock n (c : C) s :
  c_done c = false -> enters c s -> reading d blocks decoded cap client clock (S n) s -> decoded < cap -> clock = Clock (getID x) + o -> cut_ok o (structLength x) ->
  struct_ok json_ok x -> 0 < structLength x -> Client (getID x) = client -> delivers json d (struct_fields x o) d' ->
  exists s', cursorNext c = (Some (struct_back json x o), with_stream s' c) /\ reading d' blocks (decoded + 1) cap client (struct_end x) n s'.
Proof.
  intros Hc He Hs Hcap Hck Hcut Hok Hl Hcl Hd. destruct (NextStruct_reads x o d d' blocks decoded cap client clock n _ Hs Hcap Hck Hcut Hok Hl Hcl Hd) as (s' & E & Hr).
  exists s'. split; [|done]. unfold cursorNext. rewrite Hc. cbn [nextLoop]. pose proof (r_active _ _ _ _ _ _ _ _ Hs) as Ha. cbn [negb Z.eqb Z.of_nat] in Ha.
  destruct He as [->|(Hi & block & En)].
  - by rewrite Ha, E.
  - rewrite Hi, En, Ha. cbn [negb with_stream c_stream]. by rewrite E.
Qed.

Lemma drain_block b : forall d d' blocks decoded cap client clock (c : C) s fuel, c_done c = false -> enters c s -> b <> [] \/ s = c_stream c ->
  reading d blocks decoded cap client clock (length b) s ->
  decoded + Z.of_nat (length b) <= cap -> block_chain json_ok client clock b -> delivers json d (structs_trace b) d' ->
  exists s', drainLoop (length b + fuel) c = (let '(l, c') := drainLoop fuel (with_stream s' c) in (backs b ++ l, c')) /\ idle d' blocks (decoded + Z.of_nat (length b)) cap s'.
Proof.
  induction b as [|[x o] b IH]; intros d d' blocks decoded cap client clock c s fuel Hdn He Hne Hs Hcap Hch Hd.
  - destruct Hne as [?| ->]; [done|]. cbn in Hd. subst d'. exists (c_stream c). split; [destruct c; cbn; by destruct (drainLoop fuel _)|].
    destruct Hs. constructor; try done. cbn. lia.
  - destruct Hch as (Hck & Hcut & Hok & Hl & Hcl & Hch). unfold structs_trace in Hd. rewrite bind_cons, delivers_app in Hd. destruct Hd as (d1 & Hd1 & Hd). cbn [fst snd] in Hd1.
    assert (Hlt : decoded < cap) by (cbn in Hcap; lia).
    destruct (cursor_struct x o d d1 blocks decoded cap client clock (length b) c s Hdn He Hs Hlt Hck Hcut Hok Hl Hcl Hd1) as (s1 & E1 & Hs1).
    assert (Hcap' : decoded + 1 + Z.of_nat (length b) <= cap) by (cbn in Hcap; lia).
    destruct (IH d1 d' blocks (decoded + 1) cap client (struct_end x) (with_stream s1 c) s1 fuel Hdn ltac:(by left) ltac:(by right) Hs1 Hcap' Hch Hd) as (s' & E & Hi). exists s'. split.
    + cbn [length Nat.add drainLoop]. rewrite E1, E. destruct (drainLoop fuel _) as [l c']. done.
    + replace (decoded + Z.of_nat (length ((x, o) :: b))) with (decoded + 1 + Z.of_nat (length b)) by (cbn; lia). done.
Qed.

Definition total (bs : list (list (wireStruct * Z))) : nat := length (mjoin bs).

Lemma total_cons b bs : total (b :: bs) = (length b + total bs)%nat.
Proof. unfold total. by rewrite mjoin_cons, length_app. Qed.

(** The blocks of an update, and its end. *)
Lemma drain_blocks bs : forall d d' decoded cap (c : C) s0 fuel, c_done c = false -> idle d (Z.of_nat (length bs)) decoded cap s0 ->
  st_blockActive (c_stream c) = false -> NextBlock (c_stream c) = NextBlock s0 ->
  cap <= structCountAbsoluteCeiling -> 0 <= decoded -> decoded + Z.of_nat (total bs) <= cap -> Forall (block_ok json_ok) bs -> delivers json d (bs ≫= block_trace) d' ->
  exists c', drainLoop (total bs + S fuel) c = (backs (mjoin bs), c') /\ c_err c' = c_err c /\ st_decoder (c_stream c') = d'.
Proof.
  induction bs as [|b bs IH]; intros d d' decoded cap c s0 fuel Hdn Hi Hact Hnb Hceil Hdec Hcap Hok Hd.
  - cbn in Hd. subst d'. destruct Hi as [Ed Eh Eb Ea Edn Ee _ _]. eexists. cbn [total mjoin list_join length Nat.add drainLoop]. unfold cursorNext. rewrite Hdn. cbn [nextLoop]. rewrite Hact.
    assert (NextBlock (c_stream c) = (Ok None, set_done s0)) as ->.
    { rewrite Hnb. unfold NextBlock. rewrite Ee, Edn, Ea. unfold rbind, readHeader. rewrite Eh. cbn [negb]. by rewrite Eb. }
    split; [reflexivity|]. done.
  - apply list.Forall_cons in Hok as [Hb Hok]. rewrite bind_cons, delivers_app in Hd. destruct Hd as (d1 & Hd1 & Hd). unfold block_ok in Hb.
    destruct b as [|[x o] b]; [done|]. set (blk := (x, o) :: b) in *. destruct Hb as [Hsc Hch]. rewrite total_cons in *.
    unfold block_trace in Hd1. change (FRest (Z.of_nat (length blk)) :: block_head blk ++ structs_trace blk) with
      ([FRest (Z.of_nat (length blk)); FClient (Client (getID x)); FRest (Clock (getID x) + o)] ++ structs_trace blk) in Hd1.
    rewrite delivers_app in Hd1. destruct Hd1 as (d2 & Hh & Hd1).
    assert (Hsafe : is_safe (Clock (getID x) + o)).
    { destruct Hch as (_ & Hcut & Hst & _). destruct (struct_clocks _ _ Hst). unfold is_safe, struct_end, cut_ok in *. lia. }
    assert (Hn : Z.of_nat (length blk) <= structCountAbsoluteCeiling) by lia. assert (Hpos : (0 < length blk)%nat) by (cbn; lia).
    assert (Hbl : 0 < Z.of_nat (length (blk :: bs))) by (cbn; lia).
    destruct (NextBlock_reads json _ _ _ _ _ _ _ _ _ Hi Hbl Hpos Hn Hsafe Hh) as (s1 & En & Hs1).
    replace (Z.of_nat (length (blk :: bs)) - 1) with (Z.of_nat (length bs)) in Hs1 by (cbn; lia).
    assert (He : enters c s1) by (right; split; [done|]; rewrite Hnb; by eexists). assert (Hc1 : decoded + Z.of_nat (length blk) <= cap) by lia.
    destruct (drain_block blk d2 d1 _ _ _ _ _ c s1 (total bs + S fuel) Hdn He ltac:(by left) Hs1 Hc1 Hch Hd1) as (s2 & E2 & Hi2).
    assert (Hc2 : decoded + Z.of_nat (length blk) + Z.of_nat (total bs) <= cap) by lia. assert (Hd0 : 0 <= decoded + Z.of_nat (length blk)) by lia.
    destruct (IH d1 d' _ cap (with_stream s2 c) s2 fuel Hdn Hi2 (i_active _ _ _ _ _ Hi2) eq_refl Hceil Hd0 Hc2 Hok Hd) as (c' & E & Ee & Ed). exists c'. split; [|done].
    rewrite <- Nat.add_assoc, E2, E, mjoin_cons. unfold backs. by rewrite fmap_app.
Qed.

Lemma lazyStructs_reads bs (d d' : D) : Forall (block_ok json_ok) bs -> Z.of_nat (total bs) <= structCountCap (RemainingLen d) -> is_safe (Z.of_nat (length bs)) ->
  delivers json d (update_trace bs) d' -> lazyStructs d false = (backs (mjoin bs), None, d').
Proof.
  intros Hok Hcap Hsz (d1 & Hr & Hd). cbn [reads] in Hr. unfold lazyStructs. set (s0 := newStructDecodeStream d true).
  set (s1 := set_header (Z.of_nat (length bs)) (set_decoder d1 s0)).
  assert (Hi : idle d1 (Z.of_nat (length bs)) 0 (structCountCap (RemainingLen d)) s1) by (constructor; done).
  pose proof (structCountCap_range (RemainingLen d)) as [Hc0 Hc1].
  assert (Hfuel : (total bs <= streamLeft s0)%nat) by (unfold streamLeft, s0; cbn; lia).
  replace (S (streamLeft (c_stream (newCursor d)))) with (total bs + S (streamLeft s0 - total bs))%nat by (cbn [newCursor c_stream]; fold s0; lia).
  assert (Enext : NextBlock (c_stream (newCursor d)) = NextBlock s1).
  { unfold NextBlock, newCursor, s1, s0, newStructDecodeStream. cbn [c_stream st_err st_done st_blockActive set_header set_decoder]. unfold rbind at 1. unfold readHeader at 1. cbn [st_headerRead st_decoder].
    rewrite Hr, toNumber_safe by done. reflexivity. }
  assert (Hc2 : 0 + Z.of_nat (total bs) <= structCountCap (RemainingLen d)) by lia.
  destruct (drain_blocks bs d1 d' 0 _ (newCursor d) s1 (streamLeft s0 - total bs) eq_refl Hi eq_refl Enext Hc1 (Z.le_refl 0) Hc2 Hok Hd) as (c' & E & Ee & Ed).
  rewrite E, Ee, Ed. done.
Qed.

End LazyRead.

(** ** The lazy writer writes what the direct writer writes *)

(** What a field writes to the rest buffer does not depend on what is already
    there. *)
Class RestLaws (E : Type) `{UpdateEncoder E} `{!RestEncoder E} (json_ok : any -> Prop) := {
  setRest : list Z -> E -> E;
  rest_set r e : enc_rest (setRest r e) = r;
  set_set r r' e : setRest r (setRest r' e) = setRest r e;
  set_same e : setRest (enc_rest e) e = e;
  restart_spec e : restartRestEncoder e = (enc_rest e, setRest [] e);
  append_spec e bs : appendRest e bs = setRest (enc_rest e ++ bs) e;
  rest_spec e v : is_u64 v -> writeRestVarUint e v = setRest (enc_rest e ++ uvarint_bytes 10 v) e;
  field_factor f e e' : field_ok json_ok f -> writeField f e = (Ok tt, e') ->
    exists delta, enc_rest e' = enc_rest e ++ delta /\ forall r, writeField f (setRest r e) = (Ok tt, setRest (r ++ delta) e')
}.

#[global] Program Instance restLawsV1 `{JSONText} : RestLaws V1.dsEncoderV1 jsonOk := {| setRest r _ := V1.mkEnc r |}.
Solve Obligations with try done.
Next Obligation. by intros ? []. Qed.
Next Obligation. intros ? e v Hv. cbn [writeRestVarUint V1.encoder]. rewrite WriteVarUint_bytes by (unfold is_u64 in *; lia). done. Qed.
Next Obligation.
  intros ? f e e' Hf Hw. rewrite v1_write in Hw by done. injection Hw as <-. exists (field_bytes f). split; [done|]. intros r. by rewrite v1_write.
Qed.

Definition v2SetRest (r : list Z) (e : UV2.updateEncoderV2) : UV2.updateEncoderV2 := UV2.with_ds (V2.mkEnc r (V2.dsCurrVal (UV2.e_ds e))) e.

(** A field that only touches the columns. *)
Lemma v2_columns (m : step UV2.updateEncoderV2 unit) e e' :
  (forall r e, m (v2SetRest r e) = ((m e).1, v2SetRest r (m e).2)) -> (forall e, UV2.e_ds (m e).2 = UV2.e_ds e) -> m e = (Ok tt, e') ->
  exists delta, V2.rest (UV2.e_ds e') = V2.rest (UV2.e_ds e) ++ delta /\ forall r, m (v2SetRest r e) = (Ok tt, v2SetRest (r ++ delta) e').
Proof.
  intros Hm Hds E. exists []. split; [|intros r; rewrite Hm, E, app_nil_r; done]. rewrite app_nil_r. specialize (Hds e). rewrite E in Hds. by rewrite <- Hds.
Qed.

(** A field that only touches the rest buffer. *)
Lemma v2_buffer (g : list Z -> list Z) bs e e' : (forall b, g b = b ++ bs) -> UV2.on_buf g e = (Ok tt, e') ->
  exists delta, V2.rest (UV2.e_ds e') = V2.rest (UV2.e_ds e) ++ delta /\ forall r, UV2.on_buf g (v2SetRest r e) = (Ok tt, v2SetRest (r ++ delta) e').
Proof.
  intros Hg E. unfold UV2.on_buf, put in *. injection E as <-. exists bs. cbn [UV2.e_ds UV2.with_ds V2.rest]. split; [apply Hg|]. intros r. rewrite Hg. done.
Qed.

Lemma v2_on_cols f r e : UV2.on_cols f (v2SetRest r e) = ((UV2.on_cols f e).1, v2SetRest r (UV2.on_cols f e).2).
Proof. done. Qed.

Lemma v2_writeClock get set k r e : UV2.writeClock get set k (v2SetRest r e) = ((UV2.writeClock get set k e).1, v2SetRest r (UV2.writeClock get set k e).2).
Proof.
  unfold UV2.writeClock, put. cbn [fst snd]. change (UV2.e_cols (v2SetRest r e)) with (UV2.e_cols e). destruct (IntDiffOptRle.writeValue _ _); [done|].
  unfold UV2.recordErr. change (UV2.e_err (v2SetRest r e)) with (UV2.e_err e). by destruct (UV2.e_err e).
Qed.

Lemma v2_writeClock_ds get set k e : UV2.e_ds (UV2.writeClock get set k e).2 = UV2.e_ds e.
Proof. unfold UV2.writeClock, put. cbn [snd]. destruct (IntDiffOptRle.writeValue _ _); [done|]. unfold UV2.recordErr. by destruct (UV2.e_err e). Qed.

Lemma v2_writeKey key r e : UV2.writeKeyV key (v2SetRest r e) = ((UV2.writeKeyV key e).1, v2SetRest r (UV2.writeKeyV key e).2).
Proof.
  unfold UV2.writeKeyV. change (UV2.e_keyMap (v2SetRest r e)) with (UV2.e_keyMap e). destruct (UV2.e_keyMap e !! key).
  - unfold UV2.writeKeyClock. change (UV2.e_cols (v2SetRest r e)) with (UV2.e_cols e). by destruct (IntDiffOptRle.writeValue _ _).
  - unfold rbind, UV2.writeKeyClock. change (UV2.e_cols (v2SetRest r e)) with (UV2.e_cols e). change (UV2.e_keyClock (v2SetRest r e)) with (UV2.e_keyClock e).
    by destruct (IntDiffOptRle.writeValue _ _).
Qed.

Lemma v2_writeKey_ds key e : UV2.e_ds (UV2.writeKeyV key e).2 = UV2.e_ds e.
Proof.
  unfold UV2.writeKeyV. destruct (UV2.e_keyMap e !! key); unfold rbind, UV2.writeKeyClock; by destruct (IntDiffOptRle.writeValue _ _).
Qed.

#[global] Program Instance restLawsV2 : RestLaws UV2.updateEncoderV2 value_fits := {| setRest := v2SetRest |}.
Solve Obligations with try done.
Next Obligation. by intros [[]]. Qed.
Next Obligation. intros e v Hv. cbn [writeRestVarUint UV2.dsEncoder V2.encoder]. rewrite WriteVarUint_bytes by (unfold is_u64 in *; lia). done. Qed.
Next Obligation.
  intros f e e' Hf Hw. change (@enc_rest _ UV2.dsEncoder) with (fun e => V2.rest (UV2.e_ds e)). cbv beta.
  destruct f; cbn [writeField UV2.encoder writeLeftID writeRightID writeClient writeInfo writeStringValue writeParentInfo writeTypeRef writeLength writeAnyValue writeBuffer writeJSONValue writeKey] in *.
  - unfold writeRest, put in *. cbn [writeRestVarUint UV2.dsEncoder V2.encoder] in *. injection Hw as <-. exists (uvarint_bytes 10 n).
    cbn [field_ok] in Hf. split; [|intros r]; rewrite WriteVarUint_bytes by (unfold is_u64 in *; lia); done.
  - apply v2_columns; [| |done]; intros; unfold UV2.writeID, rbind, UV2.writeClientV.
    + rewrite v2_on_cols. cbn [fst snd UV2.on_cols put]. apply v2_writeClock.
    + cbn [UV2.on_cols put]. by rewrite v2_writeClock_ds.
  - apply v2_columns; [| |done]; intros; unfold UV2.writeRightIDV, rbind, UV2.writeClientV.
    + rewrite v2_on_cols. cbn [fst snd UV2.on_cols put]. apply v2_writeClock.
    + cbn [UV2.on_cols put]. by rewrite v2_writeClock_ds.
  - by apply v2_columns.
  - by apply v2_columns.
  - by apply v2_columns.
  - by apply v2_columns.
  - by apply v2_columns.
  - by apply v2_columns.
  - eapply v2_buffer; [|exact Hw]. intros b. apply writeAny_app.
  - eapply v2_buffer; [|exact Hw]. intros b. apply WriteVarUint8Array_app.
  - eapply v2_buffer; [|exact Hw]. intros b. apply writeAny_app.
  - apply v2_columns; [|apply v2_writeKey_ds|done]. intros. apply v2_writeKey.
Qed.

Section LazyWrite.
Context {E : Type} `{UpdateEncoder E} `{!RestEncoder E} (json_ok : any -> Prop) `{!RestLaws E json_ok} `{JSONText}.
Abbreviation W := (lazyStructWriter E).

Lemma fields_factor fs (e e' : E) : Forall (field_ok json_ok) fs -> writeFields fs e = (Ok tt, e') ->
  exists delta, enc_rest e' = enc_rest e ++ delta /\ forall r, writeFields fs (setRest r e) = (Ok tt, setRest (r ++ delta) e').
Proof.
  intros Hfs. revert e. induction Hfs as [|f fs Hf _ IH]; intros e Hw.
  - injection Hw as <-. exists []. split; [by rewrite app_nil_r|]. intros r. by rewrite app_nil_r.
  - cbn [writeFields] in Hw. apply rbind_inv in Hw as ([] & e1 & E1 & Hw). destruct (field_factor _ _ _ Hf E1) as (d1 & R1 & F1). destruct (IH _ Hw) as (d2 & R2 & F2).
    exists (d1 ++ d2). split; [by rewrite R2, R1, (assoc_L (++))|]. intros r. cbn [writeFields]. rewrite (rbind_ok _ _ _ _ _ (F1 r)), F2. by rewrite (assoc_L (++)).
Qed.

Definition wrote (w : W) (e : E) (n : Z) : W := mkLazy (lw_currClient w) (lw_written w + n) e (lw_clientStructs w).

(** A struct of the client that is being written. *)
Lemma lazy_struct s o (w : W) e' : struct_ok json_ok s -> 0 <= o <= structLength s -> 0 < lw_written w -> lw_currClient w = Client (getID s) ->
  writeFields (struct_fields s o) (lw_encoder w) = (Ok tt, e') -> writeStructToLazyStructWriter s o w = (Ok tt, wrote w e' 1).
Proof.
  intros Hs Ho Hw Hc Hf. unfold writeStructToLazyStructWriter. rewrite Hc, Z.eqb_refl. cbn [negb]. rewrite andb_false_r.
  rewrite (proj2 (Z.eqb_neq (lw_written w) 0)) by lia. unfold rbind, rret, onEncoder. rewrite (writeStruct_fields json_ok) by done. by rewrite Hf.
Qed.

Lemma lazy_structs b : forall (w : W) e' clock client, block_chain json_ok client clock b -> Forall (fun p => 0 <= p.2) b -> 0 < lw_written w -> lw_currClient w = client ->
  writeFields (structs_trace b) (lw_encoder w) = (Ok tt, e') -> writeAll b w = (Ok tt, wrote w e' (Z.of_nat (length b))).
Proof.
  induction b as [|[s o] b IH]; intros w e' clock client Hch Ho Hw Hc Hf.
  - cbn in Hf. injection Hf as <-. unfold writeAll, wrote, rret. cbn. rewrite Z.add_0_r. by destruct w.
  - destruct Hch as (_ & Hcut & Hok & Hl & Hcl & Hch). apply list.Forall_cons in Ho as [Ho Hos]. cbn [snd] in Ho. unfold structs_trace in Hf. rewrite bind_cons, writeFields_app in Hf. cbn [fst snd] in Hf.
    apply rbind_inv in Hf as ([] & e1 & E1 & Hf). assert (Hle : 0 <= o <= structLength s) by (unfold cut_ok in Hcut; lia).
    assert (Hc' : lw_currClient w = Client (getID s)) by congruence. pose proof (lazy_struct s o w e1 Hok Hle Hw Hc' E1) as Est.
    unfold writeAll. cbn [fold_right fst snd]. rewrite (rbind_ok _ _ _ _ _ Est).
    fold (writeAll b). assert (Hw1 : 0 < lw_written (wrote w e1 1)) by (cbn; lia).
    rewrite (IH (wrote w e1 1) e' (struct_end s) client Hch Hos Hw1 Hc Hf). unfold wrote. cbn. do 2 f_equal. lia.
Qed.

(** A block from a flushed writer. *)
Lemma lazy_block b (w : W) e' s o : head b = Some (s, o) -> block_ok json_ok b -> Forall (fun p => 0 <= p.2) b -> lw_written w = 0 ->
  writeFields (block_head b ++ structs_trace b) (lw_encoder w) = (Ok tt, e') ->
  writeAll b w = (Ok tt, mkLazy (Client (getID s)) (Z.of_nat (length b)) e' (lw_clientStructs w)).
Proof.
  intros Hh Hb Ho Hw Hf. destruct b as [|[s' o'] b]; [done|]. injection Hh as -> ->. destruct Hb as [Hsc Hch]. pose proof Hch as (_ & Hcut & Hok & Hl & _ & Hch').
  apply list.Forall_cons in Ho as [Ho Hos]. cbn [snd] in Ho. unfold structs_trace in Hf. rewrite bind_cons, (assoc_L (++)), writeFields_app in Hf. apply rbind_inv in Hf as ([] & e1 & E1 & Hf). cbn [fst snd] in E1.
  rewrite writeFields_app in E1. apply rbind_inv in E1 as ([] & e2 & E2 & E1). cbn [block_head writeFields] in E2. apply rbind_inv in E2 as ([] & e3 & E3 & E2). apply rbind_inv in E2 as ([] & e4 & E4 & E2). injection E2 as <-.
  cbn [writeField] in E3, E4. assert (Hle : 0 <= o <= structLength s) by (unfold cut_ok in Hcut; lia).
  assert (Hu : u64 (Clock (getID s) + o) = Clock (getID s) + o).
  { apply u64_small, safe_is_u64. destruct (struct_clocks _ _ Hok). unfold is_safe, struct_end, cut_ok in *. lia. }
  assert (Est : writeStructToLazyStructWriter s o w = (Ok tt, mkLazy (Client (getID s)) 1 e1 (lw_clientStructs w))).
  { unfold writeStructToLazyStructWriter. rewrite Hw. cbn [Z.ltb Z.compare andb]. rewrite Hw. cbn [Z.eqb]. unfold rbind at 1 2 3 4. unfold onEncoder. cbn [lw_encoder lw_written lw_currClient lw_clientStructs].
    rewrite E3. cbn [lw_encoder lw_written lw_currClient lw_clientStructs]. rewrite Hu, E4. unfold rbind. cbn [lw_encoder lw_written lw_currClient lw_clientStructs].
    rewrite (writeStruct_fields json_ok) by done. rewrite E1. cbn [lw_encoder lw_written lw_currClient lw_clientStructs]. by rewrite Hw. }
  unfold writeAll. cbn [fold_right fst snd]. rewrite (rbind_ok _ _ _ _ _ Est). fold (writeAll b).
  rewrite (lazy_structs b (mkLazy (Client (getID s)) 1 e1 (lw_clientStructs w)) e' (struct_end s) (Client (getID s)) Hch' Hos ltac:(cbn; lia) eq_refl Hf).
  unfold wrote. cbn. do 2 f_equal. lia.
Qed.

Lemma lazy_writeAll_app l l' (w : W) : writeAll (l ++ l') w = (_ <-- writeAll l;;; writeAll l') w.
Proof.
  revert w. induction l as [|p l IH]; intros w; [done|]. unfold writeAll. cbn [app fold_right]. fold (writeAll (l ++ l')). fold (writeAll l). fold (writeAll l').
  unfold rbind. destruct (writeStructToLazyStructWriter p.1 p.2 w) as [[[]|x] w1]; [|done]. apply IH.
Qed.

(** Starting another client flushes. *)
Lemma writeAll_flush s o l (w : W) : lw_written w = 0 \/ (0 < lw_written w /\ lw_currClient w <> Client (getID s)) ->
  writeAll ((s, o) :: l) w = writeAll ((s, o) :: l) (flushLazyStructWriter w).
Proof.
  intros Hw. unfold writeAll. cbn [fold_right fst snd]. unfold rbind at 1 3.
  assert (writeStructToLazyStructWriter s o w = writeStructToLazyStructWriter s o (flushLazyStructWriter w)) as ->; [|done].
  unfold flushLazyStructWriter at 1. destruct Hw as [Hw|[Hw Hne]].
  - rewrite Hw. done.
  - unfold writeStructToLazyStructWriter. rewrite (proj2 (Z.eqb_neq _ _) Hne), (proj2 (Z.ltb_lt _ _) Hw). cbn [negb andb].
    unfold flushLazyStructWriter. rewrite (proj2 (Z.ltb_lt _ _) Hw). destruct (restartRestEncoder (lw_encoder w)) as [r e]. done.
Qed.

(** Neighbouring blocks belong to different clients. *)
Definition block_client (b : list (wireStruct * Z)) : option Z := (fun p => Client (getID p.1)) <$> head b.
Fixpoint alternates (bs : list (list (wireStruct * Z))) : Prop :=
  match bs with
  | b :: ((b' :: _) as bs') => block_client b <> block_client b' /\ alternates bs'
  | _ => True
  end.

Definition part_bytes (p : clientStruct) : list Z := uvarint_bytes 10 (cs_written p) ++ cs_restEncoder p.

Definition block_offsets (bs : list (list (wireStruct * Z))) : Prop := Forall (Forall (fun p => 0 <= p.2)) bs.

Lemma flush_done (w : W) : lw_written w = 0 -> flushLazyStructWriter w = w.
Proof. intros Hw. unfold flushLazyStructWriter. by rewrite Hw. Qed.

Lemma flush_part c n e parts : 0 < n -> flushLazyStructWriter (mkLazy c n e parts) = mkLazy c 0 (setRest [] e) (parts ++ [mkPart n (enc_rest e)]).
Proof. intros Hn. unfold flushLazyStructWriter. cbn [lw_written lw_encoder lw_currClient lw_clientStructs]. rewrite (proj2 (Z.ltb_lt _ _) Hn), restart_spec. done. Qed.

(** The blocks leave one part each; the encoder ends as if the blocks had been
    written directly, but for its rest buffer. *)
Lemma lazy_blocks bs : forall (w : W) e e', Forall (block_ok json_ok) bs -> block_offsets bs -> alternates bs ->
  Forall (Forall (field_ok json_ok)) (block_trace <$> bs) -> Forall (fun b => is_u64 (Z.of_nat (length b))) bs ->
  lw_encoder (flushLazyStructWriter w) = setRest [] e -> lw_written w = 0 \/ (0 < lw_written w /\ match bs with b :: _ => block_client b <> Some (lw_currClient w) | [] => True end) ->
  writeFields (bs ≫= block_trace) e = (Ok tt, e') ->
  exists w' ps, writeAll (mjoin bs) w = (Ok tt, w') /\ lw_encoder (flushLazyStructWriter w') = setRest [] e' /\
    lw_clientStructs (flushLazyStructWriter w') = lw_clientStructs (flushLazyStructWriter w) ++ ps /\ length ps = length bs /\
    Forall (fun p => is_u64 (cs_written p)) ps /\ enc_rest e' = enc_rest e ++ mjoin (part_bytes <$> ps).
Proof.
  induction bs as [|b bs IH]; intros w e e' Hok Hoff Halt Hfo Hlen Henc Hst Hf.
  - cbn in Hf. injection Hf as <-. exists w, []. split_and!; [done|done|by rewrite app_nil_r|done|constructor|by rewrite app_nil_r].
  - apply list.Forall_cons in Hok as [Hb Hok], Hoff as [Ho Hoff], Hlen as [Hn Hlen]. rewrite fmap_cons in Hfo. apply list.Forall_cons in Hfo as [Hbf Hfo].
    rewrite bind_cons, writeFields_app in Hf. apply rbind_inv in Hf as ([] & e2 & Eb & Hf). unfold block_trace in Eb. cbn [writeFields] in Eb. apply rbind_inv in Eb as ([] & e1 & E1 & Eb).
    assert (He1 : e1 = setRest (enc_rest e ++ uvarint_bytes 10 (Z.of_nat (length b))) e) by (cbn [writeField] in E1; unfold writeRest, put in E1; rewrite rest_spec in E1 by done; by injection E1).
    apply list.Forall_cons in Hbf as [_ Hbf]. destruct (fields_factor _ _ _ Hbf Eb) as (delta & Hrest & Hfac).
    destruct b as [|[s o] b]; [done|]. set (blk := (s, o) :: b) in *.
    specialize (Hfac []). rewrite He1, set_set in Hfac. rewrite <- Henc in Hfac. cbn [app] in Hfac.
    assert (Hst' : lw_written w = 0 \/ 0 < lw_written w /\ lw_currClient w <> Client (getID s)) by (destruct Hst as [?|[? Hne]]; [by left|right; split; [done|]; intros Eq; apply Hne; cbn; by rewrite Eq]).
    assert (Hz : lw_written (flushLazyStructWriter w) = 0).
    { unfold flushLazyStructWriter. destruct (Z.ltb_spec 0 (lw_written w)); [by destruct (restartRestEncoder (lw_encoder w))|]. lia. }
    assert (Ew : writeAll blk w = (Ok tt, mkLazy (Client (getID s)) (Z.of_nat (length blk)) (setRest delta e2) (lw_clientStructs (flushLazyStructWriter w)))).
    { unfold blk. rewrite writeAll_flush by done. by apply (lazy_block blk (flushLazyStructWriter w) _ s o). }
    set (w1 := mkLazy (Client (getID s)) (Z.of_nat (length blk)) (setRest delta e2) (lw_clientStructs (flushLazyStructWriter w))) in *.
    assert (Efl : flushLazyStructWriter w1 = mkLazy (Client (getID s)) 0 (setRest [] e2) (lw_clientStructs (flushLazyStructWriter w) ++ [mkPart (Z.of_nat (length blk)) delta])).
    { unfold w1. rewrite flush_part by (cbn; lia). by rewrite set_set, rest_set. }
    destruct (IH w1 e2 e' Hok Hoff) as (w' & ps & Ea & Hen & Hp & Hlp & Hup & Hre); [by destruct bs; [|destruct Halt]|done|done|by rewrite Efl| |done|].
    { right. split; [cbn; lia|]. destruct bs as [|b' bs]; [done|]. destruct Halt as [Hne _]. intros Eq. apply Hne. by rewrite Eq. }
    exists w', (mkPart (Z.of_nat (length blk)) delta :: ps). split_and!; [|done| |cbn; by rewrite Hlp|by apply Forall_cons_2|].
    + rewrite mjoin_cons, lazy_writeAll_app, (rbind_ok _ _ _ _ _ Ew). done.
    + rewrite Hp, Efl. cbn [lw_clientStructs]. by rewrite <- (assoc_L (++)).
    + rewrite Hre, Hrest, He1, rest_set, fmap_cons, mjoin_cons. unfold part_bytes at 2. cbn [cs_written cs_restEncoder]. by rewrite <- !(assoc_L (++)).
Qed.

Lemma fold_parts ps (e : E) : Forall (fun p => is_u64 (cs_written p)) ps ->
  fold_left (fun e part => appendRest (writeRestVarUint e (u64 (cs_written part))) (cs_restEncoder part)) ps e = setRest (enc_rest e ++ mjoin (part_bytes <$> ps)) e.
Proof.
  intros Hp. revert e. induction Hp as [|p ps Hu _ IH]; intros e; cbn [fold_left]; [by rewrite app_nil_r, set_same|].
  rewrite IH, u64_small, rest_spec, append_spec, !rest_set, !set_set by done. rewrite fmap_cons, mjoin_cons. unfold part_bytes at 2. by rewrite <- !(assoc_L (++)).
Qed.

(** Written lazily, the blocks give the encoder that the direct writer gives. *)
Lemma lazy_writes bs (e0 e : E) : Forall (block_ok json_ok) bs -> block_offsets bs -> alternates bs -> Forall (field_ok json_ok) (update_trace bs) ->
  Z.of_nat (length (update_trace bs)) < 2 ^ 64 -> enc_rest e0 = [] -> writeFields (update_trace bs) e0 = (Ok tt, e) ->
  exists w, writeAll (mjoin bs) (newLazyStructWriter e0) = (Ok tt, w) /\ finishLazyStructWriting w = e.
Proof.
  intros Hok Hoff Halt Hfo Hlen He0 Hw. unfold update_trace in *. apply list.Forall_cons in Hfo as [Hu Hfo]. cbn [field_ok] in Hu. cbn [writeFields] in Hw. apply rbind_inv in Hw as ([] & e1 & E1 & Hw).
  assert (He1 : e1 = setRest (uvarint_bytes 10 (Z.of_nat (length bs))) e0).
  { cbn [writeField] in E1. unfold writeRest, put in E1. rewrite rest_spec, He0 in E1 by done. by injection E1. }
  assert (Hbf : Forall (Forall (field_ok json_ok)) (block_trace <$> bs)).
  { apply Forall_fmap, list.Forall_forall. intros b Hb. cbn. rewrite list.Forall_forall in Hfo |- *. intros f Hin. apply Hfo. apply list_elem_of_bind. by exists b. }
  assert (Hbl : Forall (fun b => is_u64 (Z.of_nat (length b))) bs).
  { apply list.Forall_forall. intros b Hb. pose proof (bind_length_elem block_trace bs b Hb) as Hle. unfold block_trace at 1 in Hle. cbn [length] in Hle, Hlen. rewrite length_app in Hle.
    assert (length b <= length (structs_trace b))%nat by (apply bind_length_ge; intros [[] ?]; cbn; lia). unfold is_u64. lia. }
  destruct (lazy_blocks bs (newLazyStructWriter e0) e1 e Hok Hoff Halt Hbf Hbl) as (w & ps & Ew & Hen & Hp & Hlp & Hup & Hre); [|by left|done|].
  { cbn. rewrite He1, set_set, <- He0. by rewrite set_same. }
  exists w. split; [done|]. unfold finishLazyStructWriting. rewrite Hp, Hen. cbn [newLazyStructWriter lw_clientStructs lw_written flushLazyStructWriter Z.ltb Z.compare app].
  rewrite fold_parts by done. rewrite Hlp, rest_spec, !rest_set, !set_set by done. cbn [app].
  rewrite <- (set_same e) at 2. rewrite Hre, He1, rest_set. done.
Qed.

End LazyWrite.
