(* ===== verification/EncodedUpdates.v ===== *)
(** * Functions on encoded updates: what their results decode to

    The theory of LazyUpdate.v at the level of bytes: what the lazy writer emits
    is decoded by the lazy reader, for both formats, and with it conversion,
    difference and merging of encoded updates (crdt/updates.go). *)
From S2P Require Import Prelude Lib0 Rle Object Any Text StringColumn StructStore DeleteSet DeleteSetCodec UpdateCodec Content StructCodec Consume UpdateStream UpdateMerge LazyUpdate.

(** ** Structs in blocks *)

(** Neighbours of a client are contiguous. *)
Definition adjoins (p q : wireStruct * Z) : Prop :=
  Client (getID p.1) <> Client (getID q.1) \/ struct_end p.1 = Clock (getID q.1) + q.2.

Fixpoint linked (l : list (wireStruct * Z)) : Prop :=
  match l with
  | p :: ((q :: _) as l') => adjoins p q /\ linked l'
  | _ => True
  end.

Fixpoint groups (l : list (wireStruct * Z)) : list (list (wireStruct * Z)) :=
  match l with
  | [] => []
  | p :: l' =>
      match groups l' with
      | (q :: b) :: bs => if Client (getID p.1) =? Client (getID q.1) then (p :: q :: b) :: bs else [p] :: (q :: b) :: bs
      | bs => [p] :: bs
      end
  end.

Section Groups.
Context `{JSONText} (json_ok : any -> Prop).

(** A struct with its offset, as an update can carry it. *)
Definition piece_ok (p : wireStruct * Z) : Prop :=
  0 <= p.2 /\ cut_ok p.2 (structLength p.1) /\ 0 < structLength p.1 /\ struct_ok json_ok p.1.

Definition sendable (l : list (wireStruct * Z)) : Prop := linked l /\ Forall piece_ok l.

Lemma groups_head p l : exists b bs, groups (p :: l) = (p :: b) :: bs.
Proof. cbn. destruct (groups l) as [|[|q b] bs]; [by eexists _, _..|]. destruct (_ =? _); by eexists _, _. Qed.

Lemma struct_client s : struct_ok json_ok s -> is_safe (Client (getID s)).
Proof. destruct s; [by intros [[? _] _]|by intros [[? _] _]..]. Qed.

Lemma block_ok_single p : piece_ok p -> block_ok json_ok [p].
Proof. destruct p as [s o]. intros (? & ? & ? & ?). cbn. split; [by apply struct_client|]. done. Qed.

Lemma block_ok_cons p q b : piece_ok p -> Client (getID p.1) = Client (getID q.1) -> struct_end p.1 = Clock (getID q.1) + q.2 ->
  block_ok json_ok (q :: b) -> block_ok json_ok (p :: q :: b).
Proof.
  destruct p as [s o], q as [t u]. cbn [fst snd]. intros (? & ? & ? & ?) Hc He [Hs Hch]. split; [by apply struct_client|].
  change (block_chain json_ok (Client (getID s)) (Clock (getID s) + o) ((s, o) :: (t, u) :: b)) with
    (Clock (getID s) + o = Clock (getID s) + o /\ cut_ok o (structLength s) /\ struct_ok json_ok s /\ 0 < structLength s /\
     Client (getID s) = Client (getID s) /\ block_chain json_ok (Client (getID s)) (struct_end s) ((t, u) :: b)).
  rewrite Hc, He. by split_and!.
Qed.

Lemma groups_spec l : sendable l ->
  mjoin (groups l) = l /\ Forall (block_ok json_ok) (groups l) /\ alternates (groups l) /\ block_offsets (groups l) /\ block_client <$> head (groups l) = Some <$> ((fun p => Client (getID p.1)) <$> head l).
Proof.
  induction l as [|p l IH]; intros [Hl Hp]; [split_and!; done || constructor|]. apply list.Forall_cons in Hp as [Hp Hps].
  destruct l as [|q l].
  - cbn. split_and!; [done|by apply Forall_cons_2; [apply block_ok_single|]|done|apply Forall_cons_2; [|done]; apply Forall_cons_2; [by destruct Hp|done]|done].
  - destruct Hl as [Ha Hl]. destruct (IH (conj Hl Hps)) as (Ej & Hok & Halt & Hoff & _). destruct (groups_head q l) as (b & bs & Eg).
    remember (q :: l) as ql eqn:Eql. cbn [groups]. rewrite Eg in *. apply list.Forall_cons in Hok as [Hb Hok], Hoff as [Ho Hoff].
    assert (Hpo : 0 <= p.2) by (by destruct Hp). destruct (Z.eqb_spec (Client (getID p.1)) (Client (getID q.1))) as [Ec|Ec].
    + destruct Ha as [?|He]; [done|]. split_and!; [by rewrite <- Ej|by apply Forall_cons_2; [apply block_ok_cons|]| |by apply Forall_cons_2; [apply Forall_cons_2|]|done].
      destruct bs as [|b' bs]; [done|]. destruct Halt as [Hne Halt]. split; [|done]. unfold block_client in *. cbn in *. by rewrite Ec.
    + split_and!; [by rewrite <- Ej|apply Forall_cons_2; [by apply block_ok_single|by apply Forall_cons_2]| |apply Forall_cons_2; [by apply Forall_cons_2|by apply Forall_cons_2]|done].
      split; [|done]. cbn. by intros [= ?].
Qed.

Lemma linked_all l : (forall i p q, l !! i = Some p -> l !! S i = Some q -> adjoins p q) -> linked l.
Proof.
  induction l as [|p l IH]; [done|]. intros Hl. destruct l as [|q l]; [done|]. split; [by apply (Hl 0%nat)|]. apply IH. intros i. apply (Hl (S i)).
Qed.

(** Every struct of a block has at least a field. *)
Lemma block_trace_ok b : block_ok json_ok b -> block_offsets [b] -> is_u64 (Z.of_nat (length b)) -> Forall (field_ok json_ok) (block_trace b).
Proof.
  intros Hb Ho Hn. apply list.Forall_cons in Ho as [Ho _]. destruct b as [|[s o] b]; [done|]. destruct Hb as [Hc Hch]. apply Forall_cons_2; [done|].
  pose proof Hch as (_ & Hcut & Hok & _). destruct (struct_clocks _ _ Hok) as [Hk1 Hk2].
  apply Forall_app. split.
  - cbn [block_head]. apply Forall_cons_2; [done|]. apply Forall_cons_2; [|done]. cbn [field_ok]. apply safe_is_u64. unfold is_safe, struct_end, cut_ok in *. lia.
  - clear -Hch Ho. remember ((s, o) :: b) as l. clear Heql. revert Hch Ho. generalize (Client (getID s)) (Clock (getID s) + o). induction l as [|[t u] l IH]; intros c k Hch Ho; [done|].
    destruct Hch as (_ & Hcut & Hok & _ & _ & Hch). apply list.Forall_cons in Ho as [Hu Ho]. cbn [snd] in Hu. unfold structs_trace. rewrite bind_cons. apply Forall_app. split; [|by eapply IH].
    apply struct_fields_ok; [done|]. unfold cut_ok in Hcut. cbn [fst snd]. lia.
Qed.

Definition update_size (l : list (wireStruct * Z)) : Z := Z.of_nat (length (update_trace (groups l))).

Lemma update_trace_fields l : sendable l -> update_size l <= maxRleRunCount -> fields_ok json_ok (update_trace (groups l)).
Proof.
  intros Hs Hl. destruct (groups_spec l Hs) as (_ & Hok & _ & Hoff & _). split; [|done]. unfold update_size in Hl. unfold update_trace in *.
  assert (Hn : (length (groups l) <= length (groups l ≫= block_trace))%nat) by (apply bind_length_ge; intros b; cbn; lia). cbn [length] in Hl.
  unfold maxRleRunCount, maxInt32 in Hl. apply Forall_cons_2; [cbn; unfold is_u64; lia|]. apply list.Forall_forall. intros f (b & Hf & Hb)%list_elem_of_bind.
  rewrite list.Forall_forall in Hok. unfold block_offsets in Hoff. rewrite list.Forall_forall in Hoff.
  pose proof (bind_length_elem block_trace _ _ Hb) as Hle. assert (Hbl : (length b <= length (block_trace b))%nat).
  { unfold block_trace. cbn [length]. rewrite length_app. assert (length b <= length (structs_trace b))%nat; [|lia]. apply bind_length_ge. intros [[] ?]; cbn; lia. }
  assert (Hall : Forall (field_ok json_ok) (block_trace b)); [|by rewrite list.Forall_forall in Hall; apply Hall].
  apply block_trace_ok; [by apply Hok|apply Forall_cons_2; [by apply Hoff|done]|unfold is_u64; lia].
Qed.

End Groups.

(** ** What the lazy writer emits *)

(** A format whose encoder can be restarted. *)
Class LazyCodec (E D : Type) `{UpdateCodec E D} `{!RestEncoder E} := {
  #[global] lazy_laws :: RestLaws E json_ok;
  lazy_fresh : enc_rest newE = []
}.

#[global] Instance lazyCodecV1 `{JSONText} : LazyCodec V1.dsEncoderV1 V1.updateDecoderV1.
Proof. by split; [apply restLawsV1|]. Defined.
#[global] Instance lazyCodecV2 : LazyCodec UV2.updateEncoderV2 UV2.updateDecoderV2.
Proof. by split; [apply restLawsV2|]. Defined.

Section Emit.
Context {E D : Type} `{UpdateCodec E D} {HC : Consuming D} `{!RestEncoder E} `{!LazyCodec E D} `{JSONText}.

(** The update fits: its bytes can be counted and its structs stay below the
    cap of the decoder. *)
Definition readable (bytes : list Z) (n : nat) : Prop :=
  Z.of_nat (length bytes) < 2 ^ 64 /\ Z.of_nat n <= structCountCap (RemainingLen (newD bytes)).

Lemma emit_reads l ds : sendable json_ok l -> update_size l <= maxRleRunCount -> ds_fits ds ->
  exists (w : lazyStructWriter E) (e : E), writeAll l (newLazyStructWriter newE) = (Ok tt, w) /\ writeDeleteSet (finishLazyStructWriting w) (Some ds) = Ok e /\
    (readable (toBytes e).1 (length l) -> emit w (Ok ds) = Ok (toBytes e).1 /\
       exists d d', lazyStructs (newD (toBytes e).1) false = (backs json_form l, None, d) /\ readDeleteSet d = (Ok (decoded ds), d')).
Proof.
  intros Hs Hn Hds. pose proof (update_trace_fields json_ok l Hs Hn) as Hf. destruct (update_roundtrip _ _ Hf Hds) as (e & e' & Ew & Ed & Hr).
  destruct (groups_spec json_ok l Hs) as (Ej & Hok & Halt & Hoff & _). unfold update_size in Hn.
  assert (Hlt : Z.of_nat (length (update_trace (groups l))) < 2 ^ 64) by (unfold maxRleRunCount, maxInt32 in Hn; lia).
  destruct (lazy_writes json_ok (groups l) newE e Hok Hoff Halt (proj1 Hf) Hlt lazy_fresh Ew) as (w & Ewr & Efin). rewrite Ej in Ewr.
  exists w, e'. rewrite Efin. split_and!; [done|done|]. intros [Hb Hcap]. destruct (Hr Hb) as (Ee & d & d' & Hd & Hrd & _). split.
  - unfold emit. rewrite Efin, Ed. unfold encoded. destruct (toBytes e') as [bs err]. cbn in Ee. by subst err.
  - exists d, d'. split; [|done]. rewrite <- Ej at 1. eapply lazyStructs_reads; [exact Hok| | |exact Hd].
    + unfold total. by rewrite Ej.
    + unfold update_trace in Hn. cbn [length] in Hn. assert (length (groups l) <= length (groups l ≫= block_trace))%nat by (apply bind_length_ge; intros b; cbn; lia).
      unfold is_safe, maxSafeInteger, maxRleRunCount, maxInt32 in *. lia.
Qed.

End Emit.

(** ** The lazy reader terminates *)
Section Termination.
Context {D : Type} `{Consuming D} `{JSONText}.
Abbreviation C := (lazyStructCursor D).
Abbreviation left_of c := (streamLeft (c_stream c)).

Definition under (c : C) : Prop := st_structsDecoded (c_stream c) <= st_structCap (c_stream c).

Lemma NextStruct_counts (s : structDecodeStream D) value s' : st_blockActive s = true -> NextStruct s = (Ok value, s') ->
  st_structsDecoded s' <= st_structCap s' /\ (streamLeft s' < streamLeft s)%nat /\ value <> None.
Proof.
  intros Ha. unfold NextStruct. destruct (st_err s); [done|]. rewrite Ha. cbn [negb]. intros (x & s1 & E1 & E2)%rbind_inv.
  destruct (readNext_counts _ _ _ E1) as (Hc & Hn & Hle & Hl). unfold left, restLength in Hl. unfold streamLeft. destruct x as [v|].
  - injection E2 as <- <-. cbn. split_and!; [done|lia|done].
  - destruct (progressed _ _ s1) as [ok s2] eqn:Ep. destruct (progressed_keeps _ _ _ _ _ Ep) as (? & ? & Ed). destruct ok; [|done]. injection E2 as <- <-. rewrite Ed. split_and!; [lia|lia|done].
Qed.

Lemma NextBlock_counts (s : structDecodeStream D) block s' : NextBlock s = (Ok (Some block), s') ->
  (st_structsDecoded s <= st_structCap s -> st_structsDecoded s' <= st_structCap s') /\ (streamLeft s' < streamLeft s)%nat.
Proof. intros E. destruct (NextBlock_consumes _ _ _ E) as (Hc & Hn & Hl). unfold left, restLength in Hl. unfold streamLeft. split; [lia|]. lia. Qed.

(** A larger bound gives the same result. *)
Lemma nextLoop_bound f1 : forall f2 (c : C), under c -> (left_of c < f1)%nat -> (left_of c < f2)%nat ->
  nextLoop f1 c = nextLoop f2 c /\ forall v c', nextLoop f1 c = (Some v, c') -> under c' /\ (left_of c' < left_of c)%nat.
Proof.
  induction f1 as [|f1 IH]; intros [|f2] c Hu Hf1 Hf2; [lia..|]. cbn [nextLoop].
  assert (Hadv : forall c1 : C, st_blockActive (c_stream c1) = true -> (left_of c1 <= left_of c)%nat ->
    let go fuel := match NextStruct (c_stream c1) with
      | (Err e, s) => (None, cursorFail e (with_stream s c1))
      | (Ok None, s) => nextLoop fuel (with_stream s c1)
      | (Ok (Some None), s) => nextLoop fuel (with_stream s c1)
      | (Ok (Some (Some value)), s) => (Some value, with_stream s c1)
      end in go f1 = go f2 /\ forall v c', go f1 = (Some v, c') -> under c' /\ (left_of c' < left_of c)%nat).
  { intros c1 Ha Hle. cbn zeta. destruct (NextStruct (c_stream c1)) as [[value|e] s] eqn:En; [|done]. destruct (NextStruct_counts _ _ _ Ha En) as (Hs & Hlt & Hv).
    destruct value as [[v|]|]; [| |done].
    - split; [done|]. intros v' c' [= <- <-]. cbn. split; [done|]. lia.
    - destruct (IH f2 (with_stream s c1)) as [E Hn]; [done|cbn; lia|cbn; lia|]. split; [done|]. intros v c' Ev. destruct (Hn _ _ Ev). cbn in *. split; [done|lia]. }
  destruct (st_blockActive (c_stream c)) eqn:Ea; [by apply Hadv|].
  destruct (NextBlock (c_stream c)) as [[[block|]|e] s] eqn:En; [|done|done]. destruct (NextBlock_counts _ _ _ En) as [Hs Hlt].
  destruct (st_blockActive s) eqn:Eas; cbn [negb]; [apply Hadv; [done|cbn; lia]|].
  destruct (IH f2 (with_stream s c)) as [E Hn]; [by apply Hs|cbn; lia|cbn; lia|]. split; [done|]. intros v c' Ev. destruct (Hn _ _ Ev). cbn in *. split; [done|lia].
Qed.

Lemma cursorNext_counts (c : C) v c' : under c -> cursorNext c = (Some v, c') -> under c' /\ (left_of c' < left_of c)%nat.
Proof. intros Hu. unfold cursorNext. destruct (c_done c); [done|]. destruct (nextLoop_bound (S (left_of c)) (S (left_of c)) c Hu) as [_ Hn]; [lia..|]. apply Hn. Qed.

Lemma drainLoop_bound f1 : forall f2 (c : C), under c -> (left_of c < f1)%nat -> (left_of c < f2)%nat -> drainLoop f1 c = drainLoop f2 c /\ (length (drainLoop f1 c).1 <= left_of c)%nat.
Proof.
  induction f1 as [|f1 IH]; intros [|f2] c Hu Hf1 Hf2; [lia..|]. cbn [drainLoop]. destruct (cursorNext c) as [[v|] c1] eqn:En; [|split; [done|cbn; lia]].
  destruct (cursorNext_counts _ _ _ Hu En) as [Hu1 Hl1]. destruct (IH f2 c1) as [E Hl]; [done|lia..|]. rewrite <- E. split; [done|]. destruct (drainLoop f1 c1) as [l c2]. cbn in *. lia.
Qed.

(** The loop of [Next] with any bound that is large enough, and the structs of
    an update with any such bounds. *)
Lemma lazy_terminates (d : D) f1 f2 : (left_of (newCursor d) < f1)%nat -> (left_of (newCursor d) < f2)%nat ->
  nextLoop f1 (newCursor d) = cursorNext (newCursor d) /\
  (let '(l, c') := drainLoop f2 (newCursor d) in (l, c_err c', st_decoder (c_stream c'))) = lazyStructs d false /\
  (length (lazyStructs d false).1.1 <= left_of (newCursor d))%nat.
Proof.
  intros Hf1 Hf2. assert (Hu : under (newCursor d)) by (unfold under; cbn; apply structCountCap_range).
  destruct (nextLoop_bound f1 (S (left_of (newCursor d))) _ Hu) as [E1 _]; [lia..|]. destruct (drainLoop_bound f2 (S (left_of (newCursor d))) _ Hu) as [E2 Hl]; [lia..|].
  rewrite E2 in *. unfold lazyStructs. destruct (drainLoop (S (left_of (newCursor d))) (newCursor d)) as [l c]. by split_and!.
Qed.

End Termination.

(** ** What merging writes can be sent *)
Section Sendable.
Context `{JSONText} (json_ok : any -> Prop).
Abbreviation fit := (struct_ok json_ok).

Lemma splice_fits (c : wireContent) d l r : content_fits json_ok c -> 0 <= d <= contentLength c -> spliceContent c d = Some (l, r) ->
  content_fits json_ok r /\ (1 < contentLength c -> contentLength r = contentLength c - d).
Proof.
  intros Hc Hd Es. destruct c as [arr|?|n|?|?|? ?|arr|value|?]; cbn [spliceContent content_fits contentLength] in *; try done; try (split; [done|lia]).
  - unfold spliceAny, spliceArrayAny in Es. destruct (_ && _); [|done]. injection Es as <- <-. cbn. split; [by apply Forall_drop|rewrite length_drop; lia].
  - unfold spliceDeleted in Es. injection Es as <- <-. cbn. split; [done|]. destruct (Z.ltb_spec n d); lia.
  - unfold spliceJSON, spliceArrayAny in Es. destruct (_ && _); [|done]. injection Es as <- <-. cbn. split; [by apply Forall_drop|rewrite length_drop; lia].
  - destruct Hc as [Hv Hl]. destruct (stringTail_spec value d Hv) as (tl & us & Et & Hvt & Hlt & Hu); [lia|].
    unfold spliceString in Es. unfold stringTail in Et. destruct (splitStringUTF16 value d) as [[a b]|]; [|done]. cbn in Et. injection Et as ->. injection Es as <- <-. cbn.
    split; [split; [done|lia]|]. intros _. rewrite !stringContentLength_valid in * by done. destruct (splitUnits_length _ _ _ _ Hu) as [_ ->]. lia.
Qed.

Lemma slice_fits s d t : fit s -> 0 < d < structLength s -> sliceStruct s d = Some t -> fit t.
Proof.
  intros Hs Hd Es. destruct (struct_clocks _ _ Hs) as [Hk He]. unfold is_safe, struct_end in *. destruct s as [it|gc|sk]; cbn [sliceStruct] in Es.
  - destruct (spliceContent (w_content it) d) as [[l r]|] eqn:Esp; [|done]. injection Es as <-. destruct Hs as [[Hc Hck] Hlen Hend Ho Hr Hp Hsub Hfit]. cbn in Hd, Hk, He.
    assert (Hdc : 0 <= d <= contentLength (w_content it)) by lia. destruct (splice_fits _ _ _ _ Hfit Hdc Esp) as [Hfr Hlr]. constructor; cbn.
    + split; [done|]. cbn. unfold is_safe. lia.
    + rewrite Hlr by lia. lia.
    + unfold is_safe in *. lia.
    + split; [done|]. cbn. unfold is_safe. lia.
    + done.
    + destruct (w_parent it); [|done..]. by left.
    + done.
    + done.
  - injection Es as <-. destruct Hs as [[Hc _] _]. cbn in *. unfold id_ok, is_safe in *. cbn. lia.
  - injection Es as <-. destruct Hs as [[Hc _] _]. cbn in *. unfold id_ok, is_safe in *. cbn. lia.
Qed.

Lemma skip_fits c k n : is_safe c -> is_safe k -> is_safe (k + n) -> fit (WSkip (newSkip (GenID c k) n)).
Proof. intros. by split; [split|]. Qed.

Lemma setLength_fits w n : isSkip w = true -> fit w -> is_safe (Clock (getID w) + n) -> fit (setStructLength w n).
Proof. destruct w; [done..|]. intros _ [? _] ?. by split. Qed.

Lemma merge_fits w s m : fit w -> fit s -> Clock (getID s) = struct_end w -> mergeStructWith w s = Some m -> fit m.
Proof.
  intros Hw Hs He Em. destruct (struct_clocks _ _ Hs) as [_ Hend]. unfold struct_end in *.
  destruct w, s; try done; injection Em as <-; cbn in *; destruct Hw as [? _]; split; [done| |done|]; cbn; rewrite ?Z.add_assoc, <- ?He; done.
Qed.

Definition fits_state (st : mergeState) : Prop :=
  Forall (fun e => Forall fit (he_reader e)) (ms_heap st) /\ Forall fit (ms_written st) /\ from_option fit True (ms_currWrite st).

Lemma requeue_fits heap reader w out tie : Forall (fun e => Forall fit (he_reader e)) heap -> Forall fit reader -> fit w -> Forall fit out ->
  fits_state (requeue heap reader (Some w) out tie).
Proof. intros Hh Hr Hw Ho. unfold requeue. destruct reader; split_and!; try done. by apply Forall_cons_2. Qed.

Lemma finish_fits c heap reader w out tie : Forall (fun e => Forall fit (he_reader e)) heap -> Forall fit reader -> fit w -> Forall fit out ->
  fits_state (finishRound c heap reader w out tie).
Proof.
  intros Hh. unfold finishRound. revert w out. induction reader as [|x l IH]; intros w out Hr Hw Ho; cbn [catchUp]; [by apply requeue_fits|].
  destruct (_ && _); [|by apply requeue_fits]. apply list.Forall_cons in Hr as [Hx Hr]. apply IH; [done..|]. by apply Forall_app_2; [|apply Forall_singleton].
Qed.

Lemma mergeRound_fits e st heap st' : fits_state st -> ms_heap st ≡ₚ e :: heap -> Forall (fun s => isSkip s = false) (he_reader e) -> mergeRound e st heap = Ok st' -> fits_state st'.
Proof.
  intros (Hh & Ho & Hw) Hp Hns Em. rewrite Hp in Hh. apply list.Forall_cons in Hh as [He Hh]. unfold mergeRound in Em. destruct (he_reader e) as [|hd tl] eqn:Er; [done|].
  destruct (ms_currWrite st) as [w|] eqn:Ew; [|apply Ok_inj in Em; subst st'; apply list.Forall_cons in He as [? ?]; by apply finish_fits]. cbn in Hw.
  destruct (skipWritten_suffix w (hd :: tl)) as [n En]. destruct (skipWritten w (hd :: tl)) as [|curr rest] eqn:Ek; [apply Ok_inj in Em; subst st'; by apply requeue_fits|].
  assert (Hcr : Forall fit (curr :: rest)) by (rewrite En; by apply Forall_drop). pose proof Hcr as [Hcf Hrf]%list.Forall_cons.
  assert (Hcs : isSkip curr = false). { assert (Forall (fun s => isSkip s = false) (curr :: rest)) as [? _]%list.Forall_cons by (rewrite En; by apply Forall_drop). done. }
  destruct (_ || _) eqn:Eg; [apply Ok_inj in Em; subst st'; by apply requeue_fits|]. apply orb_false_iff in Eg as [Eg%negb_false_iff%Z.eqb_eq _].
  destruct (Z.eqb_spec (Client (getID hd)) (Client (getID w))) as [Hc|_]; cbn [negb] in Em; [|apply Ok_inj in Em; subst st'; apply finish_fits; [done..|by apply Forall_app_2; [|apply Forall_singleton]]].
  destruct (struct_clocks _ _ Hw) as [Hwk Hwe], (struct_clocks _ _ Hcf) as [Hck Hce]. pose proof (struct_client _ _ Hw) as Hwc.
  destruct (Z.ltb_spec (struct_end w) (Clock (getID curr))) as [Hgap|Hno].
  - destruct (isSkip w) eqn:Esk; apply Ok_inj in Em; subst st'; apply finish_fits; try done.
    + apply setLength_fits; [done..|]. by replace (Clock (getID w) + (struct_end curr - Clock (getID w))) with (struct_end curr) by lia.
    + rewrite Hc. apply skip_fits; [done..|]. by replace (struct_end w + (Clock (getID curr) - struct_end w)) with (Clock (getID curr)) by lia.
    + by apply Forall_app_2; [|apply Forall_singleton].
  - set (diff := struct_end w - Clock (getID curr)) in *. set (w' := if (0 <? diff) && isSkip w then setStructLength w (structLength w - diff) else w) in *.
    assert (Hw' : fit w' /\ (Clock (getID curr) = struct_end w' \/ (isSkip w = false /\ w' = w))).
    { unfold w'. destruct (isSkip w) eqn:Esk; [|rewrite andb_false_r; split; [done|by right]]. rewrite andb_true_r. destruct (Z.ltb_spec 0 diff).
      - assert (Eend : Clock (getID w) + (structLength w - diff) = Clock (getID curr)) by (unfold diff, struct_end in *; lia).
        split; [apply setLength_fits; [done..|by rewrite Eend]|left]. rewrite (proj2 (setStructLength_end w _)). done.
      - split; [done|left; unfold diff in *; lia]. }
    destruct Hw' as [Hw'f Hw'e].
    destruct (if (0 <? diff) && negb (isSkip w) then sliceStruct curr diff else Some curr) as [c|] eqn:Ec; [|done].
    assert (Hcc : fit c /\ (Clock (getID c) = struct_end w' \/ isSkip w' <> isSkip c)).
    { destruct (Z.ltb_spec 0 diff) as [Hd|Hd]; cbn [andb] in Ec.
      - destruct (isSkip w) eqn:Esk; cbn [negb] in Ec.
        + injection Ec as <-. split; [done|left]. destruct Hw'e as [?|[? _]]; done.
        + destruct (sliceStruct_end _ _ _ Ec) as (Eid & Ee & _). split.
          * eapply slice_fits; [exact Hcf| |exact Ec]. pose proof (skipWritten_head _ _ _ _ Ek) as Hun. unfold written_head in Hun. cbn [he_reader] in Hun.
            unfold diff, struct_end in *. rewrite Eg, Hc, Z.leb_refl, andb_true_r in Hun. lia.
          * left. assert (w' = w) as -> by (unfold w'; by rewrite ?Esk, andb_false_r). rewrite Eid. cbn [Clock]. unfold diff. lia.
      - injection Ec as <-. split; [done|left]. destruct Hw'e as [?|[_ ->]]; [done|unfold diff in *; lia]. }
    destruct Hcc as [Hcfit Hcend]. destruct (mergeStructWith w' c) as [m|] eqn:Emm; apply Ok_inj in Em; subst st'; apply finish_fits; try done.
    + eapply merge_fits; [exact Hw'f|exact Hcfit| |exact Emm]. destruct Hcend as [?|Hne]; [done|]. by destruct w', c.
    + by apply Forall_app_2; [|apply Forall_singleton].
Qed.

Lemma mergeLoop_fits h fuel : forall st st', ready h st -> fits_state st -> mergeLoop fuel st = Ok st' -> fits_state st'.
Proof.
  induction fuel as [|fuel IH]; intros st st' Hr Hf E; cbn [mergeLoop] in E; destruct (heapPop (ms_heap st)) as [[e heap]|] eqn:Ep; try done; try (by apply Ok_inj in E; subst st').
  destruct (mergeRound e st heap) as [st1|] eqn:E1; [|done]. destruct (heapPop_spec _ _ _ (proj1 Hr) Ep) as [Hp _].
  destruct (mergeRound_decreases h _ _ _ _ Hr Hp E1) as [Hr1 _]. apply (IH st1); [done| |done]. eapply mergeRound_fits; [exact Hf|exact Hp| |exact E1].
  destruct Hr as (_ & Hs & _). rewrite Hp in Hs. by apply list.Forall_cons in Hs as [? _].
Qed.

Lemma merged_fits readers out : Forall no_skips readers -> Forall (Forall fit) readers -> mergeStructs readers = Ok out -> Forall fit out.
Proof.
  intros Hns Hf E. unfold mergeStructs in E. destruct (mergeLoop (mergeFuel readers) (initMerge readers)) as [st|] eqn:El; [|done]. apply Ok_inj in E. subst out.
  assert (H0 : fits_state (initMerge readers)).
  { split_and!; [|constructor|done]. cbn. unfold initHeap. apply list.Forall_forall. intros e [_ He]%list_elem_of_filter. apply elem_of_lookup_imap in He as (i & r & -> & Hi).
    rewrite list.Forall_forall in Hf. apply Hf. by eapply list_elem_of_lookup_2. }
  destruct (mergeLoop_fits _ _ _ _ (initMerge_ready readers Hns) H0 El) as (_ & Ho & Hw). apply Forall_app_2; [done|]. destruct (ms_currWrite st); [by apply Forall_singleton|done].
Qed.

End Sendable.

(** ** The structs of a difference *)
Definition whole (l : list wireStruct) : list (wireStruct * Z) := (fun s => (s, 0)) <$> l.

(** The pieces hold an element. *)
Definition holdsPiece (l : list (wireStruct * Z)) (id : ID) (v : elementView) : Prop :=
  exists s o, (s, o) ∈ l /\ Client (getID s) = Client id /\ Clock (getID s) + o <= Clock id /\ elementAt s (Clock id) = Some v.

Lemma holdsPiece_cons p l id v : holdsPiece (p :: l) id v <->
  (Client (getID p.1) = Client id /\ Clock (getID p.1) + p.2 <= Clock id /\ elementAt p.1 (Clock id) = Some v) \/ holdsPiece l id v.
Proof.
  split.
  - intros (s & o & Hin & Hr). apply elem_of_cons in Hin as [<-|Hin]; [by left|right]. by exists s, o.
  - intros [Hr|(s & o & Hin & Hr)]; [exists p.1, p.2|exists s, o]; (split; [|done]); [destruct p; by left|by right].
Qed.

Lemma holdsPiece_app l l' id v : holdsPiece (l ++ l') id v <-> holdsPiece l id v \/ holdsPiece l' id v.
Proof. unfold holdsPiece. setoid_rewrite elem_of_app. naive_solver. Qed.

Lemma holdsPiece_whole l id v : holdsPiece (whole l) id v <-> holdsElement l id v.
Proof.
  split.
  - intros (s & o & Hin & Hc & _ & Hv). apply list_elem_of_fmap in Hin as (t & [= -> ->] & Hin). by exists t.
  - intros (s & Hin & Hc & Hv). exists s, 0. split_and!; [apply list_elem_of_fmap; by exists s|done| |done]. destruct (elementAt_range _ _ _ Hv). lia.
Qed.

Lemma holdsElement_cons s l id v : holdsElement (s :: l) id v <-> (Client (getID s) = Client id /\ elementAt s (Clock id) = Some v) \/ holdsElement l id v.
Proof.
  split.
  - intros (t & Hin & Hr). apply elem_of_cons in Hin as [->|Hin]; [by left|right]. by exists t.
  - intros [Hr|(t & Hin & Hr)]; [exists s|exists t]; (split; [|done]); by constructor.
Qed.

Lemma holdsElement_app l l' id v : holdsElement (l ++ l') id v <-> holdsElement l id v \/ holdsElement l' id v.
Proof. unfold holdsElement. setoid_rewrite elem_of_app. naive_solver. Qed.

Lemma takeClient_spec c l : exists n, takeClient c l = (take n l, drop n l) /\ Forall (fun s => Client (getID s) = c) (take n l) /\
  (forall s, head (drop n l) = Some s -> Client (getID s) <> c).
Proof.
  induction l as [|x l (n & E & Ht & Hd)]; [by exists 0%nat|]. cbn [takeClient]. destruct (Z.eqb_spec (Client (getID x)) c) as [Hc|Hc].
  - exists (S n). rewrite E. split_and!; [done|by apply Forall_cons_2|done].
  - exists 0%nat. split_and!; [done|constructor|]. by intros s [= <-].
Qed.

Lemma dropOld_spec c k l : exists n, dropOld c k l = drop n l /\ Forall (fun s => Client (getID s) = c /\ struct_end s <= k) (take n l).
Proof.
  induction l as [|x l (n & E & Ht)]; [by exists 0%nat|]. cbn [dropOld]. destruct (Z.eqb_spec (Client (getID x)) c), (Z.leb_spec (struct_end x) k); cbn [andb];
    [|exists 0%nat; by split..]. exists (S n). split; [done|]. by apply Forall_cons_2.
Qed.

Lemma chain_tail s l : chain (s :: l) -> chain l.
Proof. intros Hc i. apply (Hc (S i)). Qed.

Lemma chain_drop n l : chain l -> chain (drop n l).
Proof. intros Hc i s t. rewrite !lookup_drop. replace (n + S i)%nat with (S (n + i)) by lia. apply Hc. Qed.

Lemma chain_before s l : chain (s :: l) -> Forall (fun t => 0 < structLength t) (s :: l) -> Forall (before s) l.
Proof.
  revert s. induction l as [|t l IH]; intros s Hc Hp; [done|]. apply list.Forall_cons in Hp as [Hs Hp]. pose proof Hp as [Ht _]%list.Forall_cons.
  assert (Hst : follows s t) by by apply (Hc 0%nat). apply Forall_cons_2.
  - destruct Hst as [?|[? ?]]; [by left|right; split; [done|lia]].
  - eapply Forall_impl; [|by apply IH; [eapply chain_tail|]]. intros u [?|[? ?]]; destruct Hst as [?|[? ?]]; unfold before, struct_end in *; lia.
Qed.

Section Diff.
Context (state : gmap Z Z).
Definition svClock (c : Z) : Z := default 0 (state !! c).

(** What a client has not seen: the elements from its clock on. *)
Lemma diffLoop_elements id v fuel : forall l, (length l <= fuel)%nat -> chain l -> Forall (fun t => 0 < structLength t) l ->
  holdsPiece (diffLoop fuel state l) id v <-> holdsElement l id v /\ svClock (Client id) <= Clock id.
Proof.
  induction fuel as [|fuel IH]; intros l Hlen Hch Hpos; [destruct l; [|cbn in Hlen; lia]; split; [intros (? & ? & Hin & _)|intros [(? & Hin & _) _]]; by apply not_elem_of_nil in Hin|].
  destruct l as [|curr rest]; cbn [diffLoop]; [split; [intros (? & ? & Hin & _)|intros [(? & Hin & _) _]]; by apply not_elem_of_nil in Hin|].
  pose proof (chain_before _ _ Hch Hpos) as Hb. pose proof (chain_tail _ _ Hch) as Hch'. pose proof Hpos as [Hc1 Hpos']%list.Forall_cons. cbn in Hlen.
  fold (svClock (Client (getID curr))). destruct (isSkip curr) eqn:Esk.
  { rewrite (IH rest) by (done || lia). rewrite holdsElement_cons. split; [naive_solver|]. intros [[[_ Hv]|?] ?]; [|done]. destruct (elementAt_range _ _ _ Hv). congruence. }
  destruct (Z.ltb_spec (svClock (Client (getID curr))) (struct_end curr)) as [Hnew|Hold].
  - destruct (takeClient_spec (Client (getID curr)) rest) as (n & -> & Ht & Hd). rewrite holdsPiece_cons, holdsPiece_app.
    fold (whole (take n rest)). rewrite holdsPiece_whole. cbn [fst snd].
    rewrite (IH (drop n rest)); [|rewrite length_drop; lia|by apply chain_drop|by apply Forall_drop].
    rewrite holdsElement_cons. rewrite <- (take_drop n rest) at 3. rewrite holdsElement_app. split.
    + intros [(Hc & Hk & Hv)|[(s & Hin & Hc & Hv)|[Hel Hsv]]].
      * split; [by left|]. rewrite <- Hc. lia.
      * assert (Hsc : Client (getID s) = Client (getID curr)) by (by rewrite list.Forall_forall in Ht; apply Ht).
        assert (Hbs : before curr s). { rewrite list.Forall_forall in Hb. apply Hb. eapply elem_of_take in Hin as (i & Hi & _). by eapply list_elem_of_lookup_2. }
        split; [right; left; by exists s|]. destruct (elementAt_range _ _ _ Hv). rewrite <- Hc, Hsc. destruct Hbs as [?|[_ ?]]; lia.
      * split; [by right; right|done].
    + intros [[[Hc Hv]|[Hel|Hel]] Hsv]; [left|by right; left|by right; right]. split_and!; [done| |done]. destruct (elementAt_range _ _ _ Hv). rewrite <- Hc in Hsv. lia.
  - cbn [dropOld]. rewrite Z.eqb_refl, (proj2 (Z.leb_le _ _) Hold). cbn [andb]. destruct (dropOld_spec (Client (getID curr)) (svClock (Client (getID curr))) rest) as (n & -> & Ho).
    rewrite (IH (drop n rest)); [|rewrite length_drop; lia|by apply chain_drop|by apply Forall_drop].
    rewrite holdsElement_cons. rewrite <- (take_drop n rest) at 2. rewrite holdsElement_app. split; [naive_solver|]. intros [[[Hc Hv]|[(s & Hin & Hc & Hv)|?]] Hsv]; [..|done]; exfalso.
    + destruct (elementAt_range _ _ _ Hv). rewrite <- Hc in Hsv. lia.
    + rewrite list.Forall_forall in Ho. destruct (Ho s Hin) as [Hsc Hse]. destruct (elementAt_range _ _ _ Hv). rewrite <- Hc, Hsc in Hsv. lia.
Qed.

Lemma diffLoop_subset fuel : forall l s o, (s, o) ∈ diffLoop fuel state l -> s ∈ l.
Proof.
  induction fuel as [|fuel IH]; intros l s o Hin; [by apply not_elem_of_nil in Hin|]. destruct l as [|curr rest]; cbn [diffLoop] in Hin; [by apply not_elem_of_nil in Hin|].
  destruct (isSkip curr); [right; by eapply IH|]. destruct (_ <? _).
  - destruct (takeClient_spec (Client (getID curr)) rest) as (n & E & _). rewrite E in Hin. apply elem_of_cons in Hin as [[= -> _]|Hin]; [left|right].
    rewrite <- (take_drop n rest). apply elem_of_app. apply elem_of_app in Hin as [Hin|Hin]; [left|right; by eapply IH]. by apply list_elem_of_fmap in Hin as (t & [= -> _] & Hin).
  - destruct (dropOld_spec (Client (getID curr)) (svClock (Client (getID curr))) (curr :: rest)) as (n & E & _). unfold svClock in E at 1. rewrite E in Hin. apply IH in Hin.
    rewrite <- (take_drop n (curr :: rest)). apply elem_of_app. by right.
Qed.

Lemma linked_app l l' : linked l -> linked l' -> (forall p q, list.last l = Some p -> head l' = Some q -> adjoins p q) -> linked (l ++ l').
Proof.
  induction l as [|p l IH]; intros Hl Hl' Hj; [done|]. destruct l as [|q l].
  - destruct l' as [|r l']; [done|]. split; [by apply Hj|done].
  - destruct Hl as [? Hl]. split; [done|]. apply IH; [done..|]. intros a b Ha. by apply Hj.
Qed.

Lemma chain_linked l : chain l -> linked (whole l).
Proof.
  intros Hc. apply linked_all. intros i p q Hp Hq. unfold whole in Hp, Hq. rewrite list_lookup_fmap in Hp, Hq.
  destruct (l !! i) as [s|] eqn:Es; [|done]. destruct (l !! S i) as [t|] eqn:Et; [|done]. injection Hp as <-. injection Hq as <-.
  unfold adjoins. cbn [fst snd]. destruct (Hc _ _ _ Es Et) as [?|[? ?]]; [left; lia|right; lia].
Qed.

Context `{JSONText} (json_ok : any -> Prop).

Definition sent_ok (l : list wireStruct) : Prop := chain l /\ Forall (fun s => 0 < structLength s /\ struct_ok json_ok s) l.

Lemma whole_sendable l : sent_ok l -> sendable json_ok (whole l).
Proof.
  intros [Hc Hf]. split; [by apply chain_linked|]. apply Forall_fmap. eapply Forall_impl; [|exact Hf]. intros s [Hs Ho].
  unfold piece_ok, compose. cbn [fst snd]. split_and!; [lia|split; [lia|by left]|done|done].
Qed.

Lemma diffLoop_sendable fuel : forall l, (length l <= fuel)%nat -> sent_ok l -> sendable json_ok (diffLoop fuel state l).
Proof.
  induction fuel as [|fuel IH]; intros l Hlen [Hch Hf]; [by split; [|constructor]|]. destruct l as [|curr rest]; cbn [diffLoop]; [by split; [|constructor]|].
  pose proof Hf as [[Hc1 Hc2] Hf']%list.Forall_cons. cbn in Hlen. assert (Hsub : forall n, sent_ok (drop n rest)) by (intros n; split; [apply chain_drop; by eapply chain_tail|by apply Forall_drop]).
  fold (svClock (Client (getID curr))). destruct (isSkip curr); [apply IH; [lia|apply (Hsub 0%nat)]|].
  destruct (Z.ltb_spec (svClock (Client (getID curr))) (struct_end curr)) as [Hnew|Hold].
  - assert (Hpos : Forall (fun t => 0 < structLength t) (curr :: rest)) by (eapply Forall_impl; [|exact Hf]; by intros ? [? _]). pose proof (chain_before _ _ Hch Hpos) as Hb.
    destruct (takeClient_spec (Client (getID curr)) rest) as (n & -> & Ht & Hd). fold (whole (take n rest)).
    destruct (IH (drop n rest)) as [Hl2 Hp2]; [rewrite length_drop; lia|apply Hsub|].
    assert (Htk : sent_ok (curr :: take n rest)). { split; [|apply Forall_cons_2; [done|by apply Forall_take]]. change (curr :: take n rest) with (take (S n) (curr :: rest)).
      intros i s t Hs Hst. apply lookup_take_Some in Hs as [Hs _], Hst as [Hst _]. by eapply Hch. }
    destruct (whole_sendable _ Htk) as [Hl1 Hp1]. unfold whole in Hl1, Hp1. rewrite fmap_cons in Hl1, Hp1. fold (whole (take n rest)) in Hl1, Hp1. rewrite app_comm_cons. split.
    + apply linked_app; [|done|]; [by destruct (whole (take n rest))|]. intros p q Hp Hq. left.
      assert (Hpc : Client (getID p.1) = Client (getID curr)).
      { apply last_Some_elem_of in Hp. apply elem_of_cons in Hp as [->|Hp]; [done|]. apply list_elem_of_fmap in Hp as (t & -> & Hin). rewrite list.Forall_forall in Ht. by apply Ht. }
      destruct q as [s o]. apply head_Some_elem_of, diffLoop_subset in Hq. cbn [fst]. rewrite Hpc. destruct (drop n rest) as [|t rest'] eqn:Ed; [by apply not_elem_of_nil in Hq|].
      specialize (Hd t eq_refl). assert (Hbt : before curr t). { rewrite list.Forall_forall in Hb. apply Hb. rewrite <- (take_drop n rest), Ed. apply elem_of_app. right. by left. }
      apply elem_of_cons in Hq as [->|Hq]; [lia|]. specialize (Hsub n). rewrite Ed in Hsub. destruct Hsub as [Hct Hft].
      assert (Hpt : Forall (fun t => 0 < structLength t) (t :: rest')) by (eapply Forall_impl; [|exact Hft]; by intros ? [? _]). pose proof (chain_before _ _ Hct Hpt) as Hbr.
      rewrite list.Forall_forall in Hbr. specialize (Hbr s Hq). unfold before in *. lia.
    + apply Forall_cons_2; [|by apply list.Forall_cons in Hp1 as [_ Hp1]; apply Forall_app_2]. unfold piece_ok. cbn [fst snd]. unfold struct_end in Hnew.
      split_and!; [lia|split; [lia|]|done|done]. lia.
  - cbn [dropOld]. rewrite Z.eqb_refl, (proj2 (Z.leb_le _ _) Hold). cbn [andb]. destruct (dropOld_spec (Client (getID curr)) (svClock (Client (getID curr))) rest) as (n & -> & Ho).
    apply IH; [rewrite length_drop; lia|apply Hsub].
Qed.

End Diff.

(** ** State vectors *)
Definition vector_ok (sv : gmap Z Z) : Prop := map_Forall (fun client clock => is_safe client /\ is_safe clock) sv /\ is_safe (Z.of_nat (size sv)).

Definition entry_bytes2 (p : Z * Z) : list Z := uvarint_bytes 10 p.1 ++ uvarint_bytes 10 p.2.

Lemma rest_number v rest : is_safe v -> readRestNumber (V1.mkDec (uvarint_bytes 10 v ++ rest)) = (Ok v, V1.mkDec rest).
Proof.
  intros Hv. unfold readRestNumber, rbind. cbn [readRestVarUint V1.decoder]. unfold V1.on_rest, ReadVarUint. cbn [V1.d_rest].
  rewrite uvarint_roundtrip by auto with go. unfold rlift. by rewrite toNumber_safe.
Qed.

Lemma vector_bytes L e : Forall (fun p => is_safe p.1 /\ is_safe p.2) L ->
  V1.rest (fold_left (fun e '(client, clock) => writeRestVarUint (writeRestVarUint e (u64 client)) (u64 clock)) L e) = V1.rest e ++ mjoin (entry_bytes2 <$> L).
Proof.
  intros HL. revert e. induction HL as [|[c k] L [Hc Hk] _ IH]; intros e; [cbn; by rewrite app_nil_r|]. cbn [fold_left]. rewrite IH, fmap_cons, mjoin_cons.
  cbn [writeRestVarUint V1.encoder V1.rest]. cbn [fst snd] in *. rewrite !safe_u64, !WriteVarUint_bytes by (done || unfold is_safe in *; lia). unfold entry_bytes2. cbn [fst snd]. by rewrite <- !(assoc_L (++)).
Qed.

Lemma vector_reads L : Forall (fun p => is_safe p.1 /\ is_safe p.2) L ->
  rtimes (length L) (client <-- readRestNumber;;; clock <-- readRestNumber;;; rret (client, clock)) (V1.mkDec (mjoin (entry_bytes2 <$> L))) = (Ok L, V1.mkDec []).
Proof.
  induction 1 as [|[c k] L [Hc Hk] _ IH]; [done|]. cbn [length]. eapply rtimes_cons; [|exact IH]. rewrite fmap_cons, mjoin_cons. unfold entry_bytes2 at 1. cbn [fst snd] in *.
  rewrite <- (assoc_L (++)). rewrite (rbind_ok _ _ _ _ _ (rest_number c _ Hc)), (rbind_ok _ _ _ _ _ (rest_number k _ Hk)). done.
Qed.

Lemma stateVector_decodes sv : vector_ok sv -> decodeStateVector (EncodeStateVector sv) = Ok sv.
Proof.
  intros [Hall Hsz]. set (L := mapSortedRange sv). assert (HL : Forall (fun p => is_safe p.1 /\ is_safe p.2) L).
  { apply list.Forall_forall. intros [c k] Hp. apply mapSortedRange_elem in Hp. by apply (Hall c k). }
  unfold decodeStateVector, EncodeStateVector, writeStateVector, readStateVector. fold L. rewrite vector_bytes by done. cbn [writeRestVarUint V1.encoder UV1.newEncoder V1.rest].
  rewrite WriteVarUint_bytes by lia. cbn [app]. unfold UV1.newDecoder. rewrite (rbind_ok _ _ _ _ _ (rest_number _ _ Hsz)), Nat2Z.id, <- size_mapSortedRange. fold L.
  rewrite (rbind_ok _ _ _ _ _ (vector_reads L HL)). unfold rret. cbn [fst]. f_equal. apply map_eq. intros c.
  rewrite (fold_insert_lookup (fun p => p.2)) by apply mapSortedRange_NoDup. destruct (list_find (fun p => p.1 = c) L) as [[i p]|] eqn:Ef.
  - apply list_find_Some in Ef as (Ei & <- & _). symmetry. apply mapSortedRange_elem. by eapply list_elem_of_lookup_2.
  - rewrite lookup_empty. symmetry. apply eq_None_not_Some. intros [k Hk]. apply list_find_None in Ef. rewrite list.Forall_forall in Ef. apply (Ef (c, k)); [|done]. by apply mapSortedRange_elem.
Qed.

(** ** Properties *)
Section Functions.
Context {E D : Type} `{Codec : UpdateCodec E D} {HC : Consuming D} `{!RestEncoder E} `{!LazyCodec E D} `{JSONText}.

(** The encoder holds an update of the pieces and the delete set: when its bytes
    are [readable], it encodes without an error to an update that decodes to
    them. *)
Definition holdsUpdate (e : E) (l : list (wireStruct * Z)) (ds : deleteSet) : Prop :=
  readable (toBytes e).1 (length l) ->
  encoded e = Ok (toBytes e).1 /\ decodeUpdateWith newD (toBytes e).1 = Ok (backs json_form l, decoded ds).

Lemma emitted l ds : sendable json_ok l -> update_size l <= maxRleRunCount -> ds_fits ds ->
  exists (w : lazyStructWriter E) (e : E), writeAll l (newLazyStructWriter newE) = (Ok tt, w) /\ emit w (Ok ds) = encoded e /\ holdsUpdate e l ds.
Proof.
  intros Hs Hn Hds. destruct (emit_reads l ds Hs Hn Hds) as (w & e & Ew & Ed & Hr). exists w, e. split_and!; [done|unfold emit; by rewrite Ed|].
  intros Hrd. destruct (Hr Hrd) as (Ee & d & d' & El & Er). unfold emit in Ee. rewrite Ed in Ee. split; [done|]. unfold decodeUpdateWith. by rewrite El, Er.
Qed.

Lemma lazy_filter {D'} `{UpdateDecoder D'} (d : D') : lazyStructs d true = (filter (fun s => isSkip s = false) (lazyStructs d false).1.1, (lazyStructs d false).1.2, (lazyStructs d false).2).
Proof. unfold lazyStructs. destruct (drainLoop _ _) as [l c]. done. Qed.

Lemma decoded_inv {D'} `{UpdateDecoder D'} (newD' : list Z -> D') u structs ds : decodeUpdateWith newD' u = Ok (structs, ds) ->
  exists d d', lazyStructs (newD' u) false = (structs, None, d) /\ readDeleteSet d = (Ok ds, d').
Proof.
  unfold decodeUpdateWith. destruct (lazyStructs (newD' u) false) as [[l [e|]] d]; [done|]. destruct (readDeleteSet d) as [[x|x] d'] eqn:Er; [|done]. intros [= -> ->]. by exists d, d'.
Qed.

Lemma convert_lemma {D'} `{UpdateDecoder D'} (newD' : list Z -> D') u structs ds : decodeUpdateWith newD' u = Ok (structs, ds) ->
  sent_ok json_ok structs -> update_size (whole structs) <= maxRleRunCount -> ds_fits ds ->
  exists e : E, convertUpdateFormatWith newE newD' u = encoded e /\ holdsUpdate e (whole structs) ds.
Proof.
  intros (d & d' & El & Er)%decoded_inv Hs Hn Hds. destruct (emitted (whole structs) ds (whole_sendable _ _ Hs) Hn Hds) as (w & e & Ew & Ee & Hh).
  exists e. split; [|done]. unfold convertUpdateFormatWith. rewrite El. unfold whole in Ew. by rewrite Ew, Er.
Qed.

Lemma diff_lemma {D'} `{UpdateDecoder D'} (newD' : list Z -> D') u sv state structs ds : decodeUpdateWith newD' u = Ok (structs, ds) ->
  decodeStateVector (match sv with [] => [0] | _ => sv end) = Ok state -> sent_ok json_ok structs -> update_size (diffStructs state structs) <= maxRleRunCount -> ds_fits ds ->
  exists e : E, diffUpdateWith newE newD' u sv = encoded e /\ holdsUpdate e (diffStructs state structs) ds.
Proof.
  intros (d & d' & El & Er)%decoded_inv Esv Hs Hn Hds. assert (Hsend : sendable json_ok (diffStructs state structs)) by by apply diffLoop_sendable.
  destruct (emitted _ ds Hsend Hn Hds) as (w & e & Ew & Ee & Hh). exists e. split; [|done]. unfold diffUpdateWith. rewrite Esv, El, Ew. by rewrite Er.
Qed.

(** The readers of the merge. *)
Definition plainStructs (p : list wireStruct * deleteSet) : list wireStruct := filter (fun s => isSkip s = false) p.1.

Lemma readers_decoded {D'} `{UpdateDecoder D'} (newD' : list Z -> D') updates inputs : Forall2 (fun u p => decodeUpdateWith newD' u = Ok p) updates inputs ->
  let readers := (fun u => lazyStructs (newD' u) true) <$> updates in
  (fun r => r.1.1) <$> readers = plainStructs <$> inputs /\ firstError ((fun r => r.1.2) <$> readers) = None /\ readDeleteSets ((fun r => r.2) <$> readers) = Ok inputs.*2.
Proof.
  intros Hd. induction Hd as [|u [structs ds] us ps (d & d' & El & Er)%decoded_inv _ IH]; [done|]. cbn zeta in *. destruct IH as (I1 & I2 & I3).
  rewrite !fmap_cons, I1, lazy_filter, El. cbn. rewrite Er, I3. split_and!; [done|done|done].
Qed.

Lemma lazy_writes_two l l' (w1 w : lazyStructWriter E) : writeAll (l ++ l') w1 = (Ok tt, w) -> exists w2, writeAll l w1 = (Ok tt, w2) /\ writeAll l' w2 = (Ok tt, w).
Proof. rewrite lazy_writeAll_app. intros ([] & w3 & E1 & E2)%rbind_inv. by exists w3. Qed.

Lemma merge_lemma {D'} `{UpdateDecoder D'} (newD' : list Z -> D') updates inputs out : Forall2 (fun u p => decodeUpdateWith newD' u = Ok p) updates inputs ->
  mergeStructs (plainStructs <$> inputs) = Ok out -> sent_ok json_ok out ->
  update_size (whole out) <= maxRleRunCount -> ds_fits (mergeDeleteSets (Some <$> inputs.*2)) ->
  exists e : E, mergeUpdatesCore newE newD' updates = encoded e /\ holdsUpdate e (whole out) (mergeDeleteSets (Some <$> inputs.*2)).
Proof.
  intros (I1 & I2 & I3)%readers_decoded Em Hs Hn Hds. destruct (emitted (whole out) _ (whole_sendable _ _ Hs) Hn Hds) as (w & e & Ew & Ee & Hh).
  exists e. split; [|done]. unfold mergeUpdatesCore. cbn zeta in *. rewrite I1, I2, I3. unfold mergeStructs in Em. destruct (mergeLoop _ _) as [st|]; [|done]. apply Ok_inj in Em. subst out.
  unfold whole in Ew. rewrite fmap_app in Ew. destruct (lazy_writes_two _ _ _ _ Ew) as (w2 & E1 & E2). rewrite E1, E2. done.
Qed.

End Functions.

(** C24. Converting an update between the formats keeps what it says: if the update
    decodes to contiguous structs and a delete set that the target format can
    carry, [convertUpdateFormatWith] encodes, without an error, an update that
    decodes to the same structs, each as it comes back from the target format,
    and to the same delete set. Source and target are any of the two formats. *)
Theorem convert_keeps_update {E D D' : Type} `{Codec : UpdateCodec E D} {HC : Consuming D} `{!RestEncoder E} `{!LazyCodec E D} `{JSONText} `{UpdateDecoder D'}
    (newD' : list Z -> D') (u : list Z) (structs : list wireStruct) (ds : deleteSet) :
  decodeUpdateWith newD' u = Ok (structs, ds) -> sent_ok json_ok structs -> update_size (whole structs) <= maxRleRunCount -> ds_fits ds ->
  exists e : E, convertUpdateFormatWith newE newD' u = encoded e /\ holdsUpdate e (whole structs) ds.
Proof. apply convert_lemma. Qed.

(** C23. [diffUpdateWith] sends what the peer lacks and nothing else: for an update
    of contiguous structs and any state vector, the pieces it writes hold exactly
    the elements of the update from the clock of the state vector on, each with
    the origins, parent and content it has in the update, and the update it
    encodes decodes to these pieces and to the whole delete set. *)
Theorem diff_sends_missing {E D D' : Type} `{Codec : UpdateCodec E D} {HC : Consuming D} `{!RestEncoder E} `{!LazyCodec E D} `{JSONText} `{UpdateDecoder D'}
    (newD' : list Z -> D') (u sv : list Z) (state : gmap Z Z) (structs : list wireStruct) (ds : deleteSet) :
  decodeUpdateWith newD' u = Ok (structs, ds) -> decodeStateVector (match sv with [] => [0] | _ => sv end) = Ok state ->
  sent_ok json_ok structs -> update_size (diffStructs state structs) <= maxRleRunCount -> ds_fits ds ->
  (forall id v, holdsPiece (diffStructs state structs) id v <-> holdsElement structs id v /\ default 0 (state !! Client id) <= Clock id) /\
  exists e : E, diffUpdateWith newE newD' u sv = encoded e /\ holdsUpdate e (diffStructs state structs) ds.
Proof.
  intros Hu Hsv Hs Hn Hds. split; [|by apply diff_lemma]. intros id v. destruct Hs as [Hc Hf]. apply diffLoop_elements; [done|done|].
  eapply Forall_impl; [|exact Hf]. by intros s [? _].
Qed.

(** C22. [mergeUpdatesCore] on encoded updates: if each decodes to ordered structs
    that the target format can carry, the merge terminates without a panic, and
    the update it encodes decodes to structs that hold every element of every
    input, hold no other element, leave no gap inside a client, and to the merge
    of the delete sets. *)
Theorem merge_encoded_updates {E D D' : Type} `{Codec : UpdateCodec E D} {HC : Consuming D} `{!RestEncoder E} `{!LazyCodec E D} `{JSONText} `{UpdateDecoder D'}
    (newD' : list Z -> D') (updates : list (list Z)) (inputs : list (list wireStruct * deleteSet)) :
  Forall2 (fun u p => decodeUpdateWith newD' u = Ok p) updates inputs ->
  Forall sorted_update (plainStructs <$> inputs) -> Forall (Forall (struct_ok json_ok)) (plainStructs <$> inputs) -> ds_fits (mergeDeleteSets (Some <$> inputs.*2)) ->
  exists out, mergeStructs (plainStructs <$> inputs) = Ok out /\ chain out /\
    (forall id v, holdsElement out id v -> exists r, r ∈ inputs /\ holdsElement r.1 id v) /\
    (forall id v r, r ∈ inputs -> holdsElement r.1 id v -> exists v', holdsElement out id v') /\
    (update_size (whole out) <= maxRleRunCount ->
     exists e : E, mergeUpdatesCore newE newD' updates = encoded e /\ holdsUpdate e (whole out) (mergeDeleteSets (Some <$> inputs.*2))).
Proof.
  intros Hd Hso Hok Hds. destruct (merge_result _ Hso) as (out & Eo & Hch & Hpos & Hsound & Hcov). exists out. split_and!; [done|done| | |].
  - intros id v (t & Ht & Hcl & Hv). rewrite list.Forall_forall in Hsound. destruct (Hsound t Ht _ _ Hv) as (s & Hin & Hcs & Hvs).
    apply list_elem_of_join in Hin as (r & Hsr & Hrr). apply list_elem_of_fmap in Hrr as (p & -> & Hp). exists p. split; [done|]. apply list_elem_of_filter in Hsr as [_ Hsr].
    exists s. split_and!; [done|congruence|done].
  - intros id v r Hrr (s & Hin & Hcl & Hv). destruct (elementAt_range _ _ _ Hv) as [Hk Hsk].
    destruct (Hcov s (Clock id)) as (t & Ht & Htk & Hct & Hkt); [|done|].
    + apply list_elem_of_join. exists (plainStructs r). split; [by apply list_elem_of_filter|]. apply list_elem_of_fmap. by exists r.
    + destruct (elementAt_plain t (Clock id) Htk Hkt) as [v' Hv']. exists v', t. split_and!; [done|congruence|done].
  - intros Hn. apply merge_lemma; [done..| |done|done]. split; [done|]. apply Forall_and; [done|]. eapply merged_fits; [|exact Hok|exact Eo]. by apply no_skips_readers.
Qed.

(** ** Witnesses *)
Lemma chain_cons s t l : follows s t -> chain (t :: l) -> chain (s :: t :: l).
Proof. intros Hf Hc [|i] a b Ha Hb; [cbn in Ha, Hb; by simplify_eq|]. by eapply (Hc i). Qed.

Definition v1Update (l : list wireStruct) (ds : deleteSet) : list Z :=
  let J := noJSON in
  match writeAll (whole l) (newLazyStructWriter UV1.newEncoder) with
  | (Ok _, w) => match emit w (Ok ds) with Ok bs => bs | Err _ => [] end
  | (Err _, _) => []
  end.

Definition sample_structs : list wireStruct := sample_items9 ++ sample_items.
Definition sample_update : list Z := Eval vm_compute in v1Update sample_structs sample_wire_ds.

Lemma sample_sent `{JSONText} json_ok : sent_ok json_ok sample_structs.
Proof.
  split.
  - repeat first [apply chain_cons|apply chain_single]; unfold follows, struct_end; cbn; lia.
  - pose proof (sample_struct_ok json_ok) as Hs. apply Forall_app in Hs as [H1 H2]. apply Forall_and; [|by apply Forall_app_2]. repeat (apply Forall_cons_2; [cbn; lia|]). constructor.
Qed.

Lemma sample_update_decodes : let J := noJSON in decodeUpdateWith UV1.newDecoder sample_update = Ok (sample_structs, decoded sample_wire_ds).
Proof. by vm_compute. Qed.

Lemma encoded_inv {E} `{UpdateEncoder E} (e : E) r bs : r = encoded e -> r = Ok bs -> toBytes e = (bs, None).
Proof. unfold encoded. destruct (toBytes e) as [bs' [x|]]; intros -> ; [done|]. by intros [= ->]. Qed.

(** What an update on the bytes [bs] decodes to. *)
Lemma held {E D : Type} `{Codec : UpdateCodec E D} `{JSONText} (e : E) l ds r bs : holdsUpdate e l ds -> r = encoded e -> r = Ok bs -> readable bs (length l) ->
  r = Ok bs /\ decodeUpdateWith newD bs = Ok (backs json_form l, decoded ds).
Proof. intros Hh Er Eb Hr. pose proof (encoded_inv e r bs Er Eb) as Et. unfold holdsUpdate in Hh. rewrite Et in Hh. destruct (Hh Hr). by split. Qed.

Definition okBytes (r : result (list Z)) : list Z := match r with Ok bs => bs | Err _ => [] end.

(** An update of format 1 in format 2. *)
Lemma convert_keeps_update_witness :
  let J := noJSON in
  let bs := okBytes (convertUpdateFormatWith UV2.newEncoder UV1.newDecoder sample_update) in
  convertUpdateFormatWith UV2.newEncoder UV1.newDecoder sample_update = Ok bs /\
  decodeUpdateWith UV2.newDecoder bs = Ok (backs readBack (whole sample_structs), decoded (decoded sample_wire_ds)).
Proof.
  intros J bs. destruct (convert_keeps_update (E := UV2.updateEncoderV2) (D := UV2.updateDecoderV2) UV1.newDecoder sample_update sample_structs (decoded sample_wire_ds)
    sample_update_decodes (sample_sent _)) as (e & Ec & Hh); [by vm_compute|by apply sample_wire_ds_fits|].
  apply (held e (whole sample_structs) (decoded sample_wire_ds) _ bs Hh Ec); [by vm_compute|split; by vm_compute].
Defined.

(** What a peer lacks that knows one unit of client 7 and all of client 9. *)
Definition sample_sv : list Z := EncodeStateVector {[ 7 := 1; 9 := 3 ]}.

Lemma diff_sends_missing_witness :
  let J := noJSON in
  let bs := okBytes (diffUpdateWith UV1.newEncoder UV1.newDecoder sample_update sample_sv) in
  diffUpdateWith UV1.newEncoder UV1.newDecoder sample_update sample_sv = Ok bs /\
  decodeUpdateWith UV1.newDecoder bs = Ok ([WItem (mkWire (GenID 7 1) 2 (Some (GenID 7 0)) None NoParent [] (contentString [195; 169; 33]));
    WItem (mkWire (GenID 7 3) 2 (Some (GenID 7 2)) None NoParent [] (contentDeleted 2)); WGC (newGC (GenID 7 5) 4)], decoded (decoded sample_wire_ds)).
Proof.
  intros J bs. destruct (diff_sends_missing (E := V1.dsEncoderV1) (D := V1.updateDecoderV1) UV1.newDecoder sample_update sample_sv {[ 7 := 1; 9 := 3 ]} sample_structs (decoded sample_wire_ds)
    sample_update_decodes) as (_ & e & Ec & Hh); [by vm_compute|apply sample_sent|by vm_compute|by apply sample_wire_ds_fits|].
  apply (held e _ (decoded sample_wire_ds) _ bs Hh Ec); [by vm_compute|split; by vm_compute].
Defined.

(** In an update the gap of the first reader is a skip. *)
Definition merge_structs1 : list wireStruct :=
  [WItem (mkWire (GenID 9 0) 3 None None (ParentKey [116]) [] (contentString [97; 98; 99])); WSkip (newSkip (GenID 9 3) 4); WGC (newGC (GenID 9 7) 2); WGC (newGC (GenID 4 0) 2)].
Definition merge_update1 : list Z := Eval vm_compute in v1Update merge_structs1 sample_wire_ds.
Definition merge_update2 : list Z := Eval vm_compute in v1Update sample_reader2 newDeleteSet.

Lemma sample_readers_ok `{JSONText} json_ok : Forall (Forall (struct_ok json_ok)) [sample_reader1; sample_reader2].
Proof. repeat apply Forall_cons_2; try apply Forall_nil_2; try constructor; solve_wire. Qed.

Lemma merge_encoded_updates_witness :
  let J := noJSON in
  let bs := okBytes (mergeUpdatesCore UV2.newEncoder UV1.newDecoder [merge_update1; merge_update2]) in
  mergeUpdatesCore UV2.newEncoder UV1.newDecoder [merge_update1; merge_update2] = Ok bs /\
  decodeUpdateWith UV2.newDecoder bs = Ok ([WItem (mkWire (GenID 9 0) 3 None None (ParentKey [116]) [] (contentString [97; 98; 99]));
    WItem (mkWire (GenID 9 3) 2 (Some (GenID 9 2)) None NoParent [] (contentString [100; 101]));
    WSkip (newSkip (GenID 9 5) 2); WGC (newGC (GenID 9 7) 2); WGC (newGC (GenID 4 0) 4)], decoded sample_wire_ds).
Proof.
  intros J bs. destruct (merge_encoded_updates (E := UV2.updateEncoderV2) (D := UV2.updateDecoderV2) UV1.newDecoder [merge_update1; merge_update2]
    [(merge_structs1, decoded sample_wire_ds); (sample_reader2, newDeleteSet)]) as (out & Eo & _ & _ & _ & Hm).
  - apply Forall2_cons_2; [by vm_compute|]. apply Forall2_cons_2; [by vm_compute|]. by constructor.
  - exact sample_sorted.
  - apply sample_readers_ok.
  - assert (mergeDeleteSets (Some <$> [(merge_structs1, decoded sample_wire_ds); (sample_reader2, newDeleteSet)].*2) = sample_wire_ds) as -> by (by vm_compute). apply sample_wire_ds_fits.
  - vm_compute in Eo. injection Eo as <-. destruct Hm as (e & Ec & Hh); [by vm_compute|].
    apply (held e _ (mergeDeleteSets _) _ bs Hh Ec); [by vm_compute|split; by vm_compute].
Defined.
