(* ===== verification/UpdateVector.v ===== *)
(** * The state vector of an encoded update

    The theory of [encodeStateVectorFromUpdateWith] (crdt/updates.go): which clocks
    it reports for the structs that an update decodes to. *)
From S2P Require Import Prelude Lib0 Rle Object Any Text StringColumn StructStore DeleteSet DeleteSetCodec UpdateCodec Content StructCodec Consume UpdateStream UpdateMerge LazyUpdate EncodedUpdates.

(** ** How far a client is known *)

(** The first clock from [k] on that the structs of the client do not reach. *)
Fixpoint frontier (c k : Z) (l : list wireStruct) : Z :=
  match l with
  | [] => k
  | s :: l' => if (Client (getID s) =? c) && (Clock (getID s) =? k) && negb (isSkip s) then frontier c (struct_end s) l' else frontier c k l'
  end.

Definition held (l : list wireStruct) (c k : Z) : Prop := exists v, holdsElement l (GenID c k) v.

Definition positive (l : list wireStruct) : Prop := Forall (fun t => 0 < structLength t) l.

Lemma frontier_stuck c k l : Forall (fun s => Client (getID s) = c -> k < Clock (getID s)) l -> frontier c k l = k.
Proof.
  induction 1 as [|s l Hs _ IH]; [done|]. cbn [frontier]. destruct (Z.eqb_spec (Client (getID s)) c) as [Hc|]; [|done].
  specialize (Hs Hc). by destruct (Z.eqb_spec (Clock (getID s)) k); [lia|].
Qed.

Lemma held_nil c k : ~ held [] c k.
Proof. intros (v & s & Hin & _). by apply not_elem_of_nil in Hin. Qed.

Lemma held_cons s l c k : held (s :: l) c k <-> (Client (getID s) = c /\ isSkip s = false /\ Clock (getID s) <= k < struct_end s) \/ held l c k.
Proof.
  unfold held. split.
  - intros (v & [[Hc Hv]|Hv]%holdsElement_cons); [left|right; by exists v]. destruct (elementAt_range _ _ _ Hv) as [[? ?] ?]. cbn [Client Clock] in *. by split_and!.
  - intros [(Hc & Hs & Hk)|(v & Hv)].
    + destruct (elementAt_plain s k Hs Hk) as [v Hv]. exists v. apply holdsElement_cons. by left.
    + exists v. apply holdsElement_cons. by right.
Qed.

Lemma held_late l c k : Forall (fun s => Client (getID s) = c -> k < Clock (getID s)) l -> ~ held l c k.
Proof. induction 1 as [|s l Hs _ IH]; [apply held_nil|]. rewrite held_cons. intros [(Hc & _ & Hk)|?]; [|done]. specialize (Hs Hc). lia. Qed.

Lemma after_clock s l : chain (s :: l) -> positive (s :: l) -> Forall (fun t => Client (getID t) = Client (getID s) -> struct_end s <= Clock (getID t)) l.
Proof. intros Hc Hp. eapply Forall_impl; [|by apply chain_before]. intros t [?|[? ?]] ?; [lia|done]. Qed.

(** Everything below the frontier is held, and the frontier is not. *)
Lemma frontier_spec c l : forall k, chain l -> positive l -> Forall (fun s => Client (getID s) = c -> k <= Clock (getID s)) l ->
  k <= frontier c k l /\ (forall j, k <= j < frontier c k l -> held l c j) /\ ~ held l c (frontier c k l).
Proof.
  induction l as [|s l IH]; intros k Hch Hp Hk; [cbn; split_and!; [lia|lia|apply held_nil]|].
  pose proof (after_clock _ _ Hch Hp) as Haf. apply chain_tail in Hch as Hch'. apply list.Forall_cons in Hp as [Hs Hp], Hk as [Hks Hk]. cbn [frontier].
  assert (Hlt : Clock (getID s) < struct_end s) by (unfold struct_end; lia).
  destruct (Z.eqb_spec (Client (getID s)) c) as [Hc|Hc]; cbn [andb]; last first.
  { destruct (IH k Hch' Hp Hk) as (H1 & H2 & H3). split_and!; [done| |].
    - intros j Hj. apply held_cons. right. by apply H2.
    - rewrite held_cons. intros [[? _]|?]; [done|done]. }
  specialize (Hks Hc). rewrite Hc in Haf.
  assert (Hlate : forall j, j < struct_end s -> Forall (fun t => Client (getID t) = c -> j < Clock (getID t)) l) by (intros j Hj; eapply Forall_impl; [|exact Haf]; cbn; intros t Ht Hct; specialize (Ht Hct); lia).
  destruct (Z.eqb_spec (Clock (getID s)) k) as [Ek|Ek]; cbn [andb].
  - destruct (isSkip s) eqn:Esk; cbn [negb].
    + rewrite frontier_stuck by (apply Hlate; lia). split_and!; [lia|lia|]. rewrite held_cons. intros [(_ & ? & _)|Hh]; [congruence|]. eapply held_late; [|exact Hh]. apply Hlate. lia.
    + destruct (IH (struct_end s) Hch' Hp Haf) as (H1 & H2 & H3). split_and!; [lia| |].
      * intros j Hj. apply held_cons. destruct (Z.ltb_spec j (struct_end s)); [left; split_and!; done || lia|right; apply H2; lia].
      * rewrite held_cons. intros [(_ & _ & ?)|?]; [lia|done].
  - rewrite frontier_stuck by (apply Hlate; lia). split_and!; [lia|lia|]. rewrite held_cons. intros [(_ & _ & ?)|Hh]; [lia|]. eapply held_late; [|exact Hh]. apply Hlate. lia.
Qed.

(** ** The entries *)

(** The state of the loop fits what is left: the current client goes on at its
    clock, or nothing that is left can extend it. *)
Definition fitting (cc ck : Z) (stop : bool) (l : list wireStruct) : Prop :=
  if stop then Forall (fun s => Client (getID s) = cc -> ck < Clock (getID s)) l
  else match l with s :: _ => Client (getID s) = cc -> Clock (getID s) = ck | [] => True end.

Lemma clients_below s l : chain (s :: l) -> positive (s :: l) -> Forall (fun t => Client (getID t) <= Client (getID s)) (s :: l).
Proof. intros Hc Hp. apply Forall_cons_2; [lia|]. eapply Forall_impl; [|by apply chain_before]. intros t [?|[? ?]]; lia. Qed.

Lemma fitting_next s l k : chain (s :: l) -> positive (s :: l) -> k < struct_end s -> forall stop : bool,
  fitting (Client (getID s)) (if stop then k else struct_end s) stop l.
Proof.
  intros Hc Hp Hk stop. pose proof (after_clock _ _ Hc Hp) as Haf. destruct stop; cbn [fitting].
  - eapply Forall_impl; [|exact Haf]. cbn. intros t Ht Hct. specialize (Ht Hct). lia.
  - destruct l as [|t l]; [done|]. intros Hct. destruct (Hc 0%nat s t eq_refl eq_refl) as [?|[_ ?]]; [lia|]. unfold struct_end in *. lia.
Qed.

Lemma frontier_absent c k l : Forall (fun s => Client (getID s) <> c) l -> frontier c k l = k.
Proof. intros Hl. apply frontier_stuck. eapply Forall_impl; [|exact Hl]. cbn. by intros s Hs. Qed.

Lemma vectorLoop_entries l : forall cc ck stop c k, chain l -> positive l -> Forall (fun s => Client (getID s) <= cc /\ 0 <= Clock (getID s)) l -> fitting cc ck stop l ->
  (c, k) ∈ vectorLoop cc ck stop l <-> k <> 0 /\ ((c = cc /\ k = frontier cc ck l) \/ (c <> cc /\ k = frontier c 0 l)).
Proof.
  induction l as [|s l IH]; intros cc ck stop c k Hch Hp Hle Hfit; cbn [vectorLoop].
  - cbn [frontier]. destruct (Z.eqb_spec ck 0); [|rewrite list_elem_of_singleton; naive_solver]. split; [by intros ?%not_elem_of_nil|]. intros (? & [[_ ->]|[_ ->]]); lia.
  - pose proof (fun k Hk => fitting_next s l k Hch Hp Hk) as Hnext. pose proof (clients_below _ _ Hch Hp) as [_ Hbel]%list.Forall_cons. apply chain_tail in Hch as Hch'.
    assert (Hlt : Clock (getID s) < struct_end s) by (apply list.Forall_cons in Hp as [? _]; unfold struct_end; lia).
    apply list.Forall_cons in Hp as [_ Hp], Hle as [[Hsc Hs0] Hle].
    assert (Hle' : Forall (fun t => Client (getID t) <= Client (getID s) /\ 0 <= Clock (getID t)) l) by (apply Forall_and; [done|]; eapply Forall_impl; [|exact Hle]; by intros ? [? ?]).
    destruct (Z.eqb_spec cc (Client (getID s))) as [->|Hne]; cbn [negb andb app frontier].
    + rewrite Z.eqb_refl. cbn [andb]. destruct stop.
      * rewrite orb_true_r. rewrite (IH _ _ true) by (done || by apply list.Forall_cons in Hfit as [_ ?]). apply list.Forall_cons in Hfit as [Hs _]. specialize (Hs eq_refl).
        destruct (Z.eqb_spec (Clock (getID s)) ck); [lia|]. cbn [andb]. split; intros (? & [?|[? ->]]); (split; [done|]); [by left|right|by left|right]; (split; [done|]); by destruct (Z.eqb_spec (Client (getID s)) c).
      * specialize (Hfit eq_refl). assert (Hck : ck < struct_end s) by lia. rewrite orb_false_r. rewrite IH; [|done..|].
        2: { destruct (isSkip s); [by apply (Hnext ck Hck true)|by apply (Hnext ck Hck false)]. }
        rewrite Hfit, Z.eqb_refl. cbn [andb]. destruct (isSkip s); cbn [negb]; split; intros (? & [?|[? ->]]); (split; [done|]); [by left|right|by left|right|by left|right|by left|right]; (split; [done|]); by destruct (Z.eqb_spec (Client (getID s)) c).
    + assert (Hsl : Client (getID s) < cc) by lia. assert (Habs : forall j, frontier cc j l = j) by (intros j; apply frontier_absent; eapply Forall_impl; [|exact Hbel]; cbv beta; lia).
      assert (H0s : 0 < struct_end s) by lia. rewrite elem_of_app. set (stop' := isSkip s || negb (Clock (getID s) =? 0)).
      rewrite IH; [|done..|].
      2: { destruct stop' eqn:Es; [|by apply (Hnext 0 H0s false)]. by apply (Hnext 0 H0s true). }
      assert (Hcc : frontier cc ck l = ck) by apply Habs. destruct (Z.eqb_spec (Client (getID s)) cc); [lia|]. cbn [andb]. rewrite Hcc.
      assert (Hent : (c, k) ∈ (if negb (ck =? 0) then [(cc, ck)] else []) <-> k <> 0 /\ c = cc /\ k = ck).
      { destruct (Z.eqb_spec ck 0); cbn [negb]; [split; [by intros ?%not_elem_of_nil|lia]|]. rewrite list_elem_of_singleton. naive_solver. }
      rewrite Hent. clear Hent. destruct (decide (c = Client (getID s))) as [->|Hc].
      * rewrite Z.eqb_refl. cbn [andb]. assert ((if (Clock (getID s) =? 0) && negb (isSkip s) then frontier (Client (getID s)) (struct_end s) l else frontier (Client (getID s)) 0 l)
          = frontier (Client (getID s)) (if stop' then 0 else struct_end s) l) as -> by (unfold stop'; by destruct (isSkip s), (Clock (getID s) =? 0)). naive_solver lia.
      * destruct (Z.eqb_spec (Client (getID s)) c); [lia|]. cbn [andb]. destruct (decide (c = cc)) as [->|]; [rewrite !Habs|]; naive_solver lia.
Qed.

Lemma vectorOf_entries l c k : chain l -> positive l -> Forall (fun s => 0 <= Clock (getID s)) l -> (forall s, head l = Some s -> isSkip s = false) ->
  (c, k) ∈ vectorOf l <-> k <> 0 /\ k = frontier c 0 l.
Proof.
  intros Hch Hp Hk Hh. destruct l as [|s l]; [cbn; split; [by intros ?%not_elem_of_nil|lia]|]. cbn [vectorOf]. specialize (Hh s eq_refl).
  assert (Hle : Forall (fun t => Client (getID t) <= Client (getID s) /\ 0 <= Clock (getID t)) (s :: l)) by (apply Forall_and; [by apply clients_below|done]).
  pose proof Hp as [Hs _]%list.Forall_cons. pose proof Hk as [Hs0 _]%list.Forall_cons.
  assert (Hst : vectorLoop (Client (getID s)) (if negb (Clock (getID s) =? 0) then 0 else struct_end s) (negb (Clock (getID s) =? 0)) (s :: l)
    = vectorLoop (Client (getID s)) 0 (negb (Clock (getID s) =? 0)) (s :: l)) by (cbn [vectorLoop]; rewrite Z.eqb_refl, Hh; cbn [negb andb orb]; by destruct (Clock (getID s) =? 0)).
  rewrite Hst, vectorLoop_entries; [split|done|done|done|].
  - intros (? & [[-> ?]|[_ ?]]); done.
  - intros (? & ?). split; [done|]. destruct (decide (c = Client (getID s))) as [->|]; [by left|by right].
  - unfold fitting. destruct (Z.eqb_spec (Clock (getID s)) 0); cbn [negb]; [done|]. apply Forall_cons_2; [lia|].
    eapply Forall_impl; [|by apply after_clock]. cbv beta. intros t Ht Hc. specialize (Ht Hc). unfold struct_end in Ht. lia.
Qed.

Lemma frontier_end c k l : frontier c k l = k \/ exists s, s ∈ l /\ Client (getID s) = c /\ frontier c k l = struct_end s.
Proof.
  revert k. induction l as [|s l IH]; intros k; [by left|]. cbn [frontier]. destruct (Z.eqb_spec (Client (getID s)) c) as [Hc|Hc], (Z.eqb_spec (Clock (getID s)) k), (isSkip s); cbn [andb negb];
    try (destruct (IH k) as [?|(t & ? & ? & ?)]; [by left|right; exists t; split_and!; [by right|done|done]]).
  right. destruct (IH (struct_end s)) as [E|(t & ? & ? & ?)]; [exists s; split_and!; [by left|done|done]|exists t; split_and!; [by right|done|done]].
Qed.

Lemma vectorLoop_length l : forall cc ck stop, (length (vectorLoop cc ck stop l) <= S (length l))%nat.
Proof.
  induction l as [|s l IH]; intros cc ck stop; cbn [vectorLoop]; [destruct (ck =? 0); cbn; lia|].
  destruct (negb (cc =? Client (getID s))); cbn [andb]; rewrite length_app; cbn [length].
  - specialize (IH (Client (getID s)) (if isSkip s || negb (Clock (getID s) =? 0) then 0 else struct_end s) (isSkip s || negb (Clock (getID s) =? 0))). destruct (negb (ck =? 0)); cbn [length]; lia.
  - specialize (IH cc (if isSkip s || stop then ck else struct_end s) (isSkip s || stop)). cbn [length app]. lia.
Qed.

Lemma vectorOf_length l : (length (vectorOf l) <= S (length l))%nat.
Proof. destruct l as [|s l]; [cbn; lia|]. apply vectorLoop_length. Qed.

(** ** The encoded vector *)
Lemma entries_bytes L buf : Forall (fun p => is_safe p.1 /\ is_safe p.2) L ->
  fold_left (fun buf '(client, clock) => WriteVarUint (WriteVarUint buf (u64 client)) (u64 clock)) L buf = buf ++ mjoin (entry_bytes2 <$> L).
Proof.
  intros HL. revert buf. induction HL as [|[c k] L [Hc Hk] _ IH]; intros buf; [cbn; by rewrite app_nil_r|]. cbn [fold_left]. rewrite IH, fmap_cons, mjoin_cons.
  cbn [fst snd] in *. rewrite !safe_u64, !WriteVarUint_bytes by (done || unfold is_safe in *; lia). unfold entry_bytes2. cbn [fst snd]. by rewrite <- !(assoc_L (++)).
Qed.

Lemma entries_lookup (L : list (Z * Z)) (f : Z -> Z) c k : (forall c k, (c, k) ∈ L <-> k <> 0 /\ k = f c) -> fold_left (fun ss p => <[p.1 := p.2]> ss) L (∅ : gmap Z Z) !! c = Some k <-> (c, k) ∈ L.
Proof.
  intros HL. assert (Hf : forall (L' : list (Z * Z)) (m : gmap Z Z), L' ⊆ L -> (forall c k, m !! c = Some k -> (c, k) ∈ L) ->
    let m' := fold_left (fun ss p => <[p.1 := p.2]> ss) L' m in (forall c k, m' !! c = Some k -> (c, k) ∈ L) /\ forall c k, (c, k) ∈ L' \/ m !! c = Some k -> m' !! c = Some k).
  { induction L' as [|[a b] L' IH]; intros m Hsub Hm; cbn zeta; [cbn; split; [done|]; intros ? ? [?%not_elem_of_nil|?]; done|]. cbn [fold_left fst snd].
    assert (Hab : (a, b) ∈ L) by (apply Hsub; by left). destruct (IH (<[a := b]> m)) as [H1 H2].
    - intros x Hx. apply Hsub. by right.
    - intros c' k' [[<- <-]|[_ ?]]%lookup_insert_Some; [done|by apply Hm].
    - split; [done|]. intros c' k' Hin. apply H2. destruct (decide (c' = a)) as [->|Hne].
      + right. rewrite lookup_insert_eq. f_equal. assert ((a, k') ∈ L) as [_ ->]%HL by (destruct Hin as [Hin|Hin]; [apply Hsub, Hin|by apply Hm]). by apply HL in Hab as [_ ->].
      + rewrite lookup_insert_ne by done. destruct Hin as [Hin|?]; [|by right]. apply elem_of_cons in Hin as [[= -> _]|?]; [done|by left]. }
  destruct (Hf L ∅) as [H1 H2]; [done|intros ? ?; by rewrite lookup_empty|]. split; [apply H1|]. intros ?. apply H2. by left.
Qed.

Lemma vector_decodes L : Forall (fun p => is_safe p.1 /\ is_safe p.2) L -> is_safe (Z.of_nat (length L)) ->
  decodeStateVector (fold_left (fun buf '(client, clock) => WriteVarUint (WriteVarUint buf (u64 client)) (u64 clock)) L (WriteVarUint [] (Z.of_nat (length L)))) =
  Ok (fold_left (fun ss p => <[p.1 := p.2]> ss) L ∅).
Proof.
  intros HL Hn. rewrite entries_bytes by done. rewrite WriteVarUint_bytes by lia. cbn [app]. unfold decodeStateVector, readStateVector, UV1.newDecoder.
  rewrite (rbind_ok _ _ _ _ _ (rest_number _ _ Hn)), Nat2Z.id, (rbind_ok _ _ _ _ _ (vector_reads L HL)). done.
Qed.

(** ** Properties *)

(** The state vector that [encodeStateVectorFromUpdateWith] computes from an
    encoded update is what a document with the update alone would report: it
    decodes to a vector that has a client with clock k exactly when the update
    holds every element of the client below k and not the element k, for k > 0.
    A gap (a skip) ends the count. The first struct of the update must not be a
    skip. *)
Theorem stateVector_of_update {D' : Type} `{JSONText} `{UpdateDecoder D'} (newD' : list Z -> D') (u : list Z) (structs : list wireStruct) (ds : deleteSet) :
  decodeUpdateWith newD' u = Ok (structs, ds) -> chain structs -> positive structs ->
  Forall (fun s => id_ok (getID s) /\ is_safe (struct_end s)) structs -> (forall s, head structs = Some s -> isSkip s = false) -> is_safe (Z.of_nat (S (length structs))) ->
  exists bytes sv, encodeStateVectorFromUpdateWith newD' u = Ok bytes /\ decodeStateVector bytes = Ok sv /\
    forall c k, sv !! c = Some k <-> 0 < k /\ (forall j, 0 <= j < k -> held structs c j) /\ ~ held structs c k.
Proof.
  intros (d & d' & El & _)%decoded_inv Hch Hp Hok Hh Hn. unfold encodeStateVectorFromUpdateWith. rewrite El.
  assert (Hk0 : Forall (fun s => 0 <= Clock (getID s)) structs) by (eapply Forall_impl; [|exact Hok]; cbv beta; intros s [[_ [? _]] _]; done).
  assert (Hent : forall c k, (c, k) ∈ vectorOf structs <-> k <> 0 /\ k = frontier c 0 structs) by (intros c k; by apply vectorOf_entries).
  eexists. eexists. split_and!; [reflexivity|apply vector_decodes|].
  - apply list.Forall_forall. intros [c k] Hin. apply Hent in Hin as [Hnz ->]. cbn [fst snd]. destruct (frontier_end c 0 structs) as [?|(s & Hin & <- & ->)]; [done|].
    rewrite list.Forall_forall in Hok. by destruct (Hok s Hin) as [[? _] ?].
  - pose proof (vectorOf_length structs). unfold is_safe in *. lia.
  - intros c k. rewrite (entries_lookup _ (fun c => frontier c 0 structs)) by done. rewrite Hent.
    assert (Hfc : Forall (fun s => Client (getID s) = c -> 0 <= Clock (getID s)) structs) by (eapply Forall_impl; [|exact Hk0]; done).
    destruct (frontier_spec c structs 0 Hch Hp Hfc) as (F1 & F2 & F3). split.
    + intros [Hnz ->]. split_and!; [lia|done|done].
    + intros (Hpos & Hall & Hnot). split; [lia|]. destruct (Z.lt_trichotomy k (frontier c 0 structs)) as [Hlt|[?|Hgt]]; [|done|].
      * exfalso. apply Hnot, F2. lia.
      * exfalso. apply F3, Hall. lia.
Qed.

Lemma stateVector_of_update_witness :
  let J := noJSON in
  exists bytes sv, encodeStateVectorFromUpdateWith UV1.newDecoder merge_update1 = Ok bytes /\ decodeStateVector bytes = Ok sv /\ sv !! 9 = Some 3 /\ sv !! 4 = Some 2.
Proof.
  intros J. destruct (stateVector_of_update UV1.newDecoder merge_update1 merge_structs1 (decoded sample_wire_ds)) as (bytes & sv & E1 & E2 & _).
  - by vm_compute.
  - repeat first [apply chain_cons|apply chain_single]; unfold follows, struct_end; cbn; lia.
  - repeat (apply Forall_cons_2; [cbn; lia|]); constructor.
  - repeat (apply Forall_cons_2; [unfold id_ok, is_safe, maxSafeInteger, struct_end; cbn; lia|]); constructor.
  - by intros s [= <-].
  - unfold is_safe, maxSafeInteger. cbn. lia.
  - exists bytes, sv. split_and!; [done|done|..]; vm_compute in E1; injection E1 as <-; vm_compute in E2; injection E2 as <-; reflexivity.
Defined.

(** A skip at clock 0 is counted when its client is the first of the update, and
    not when it comes later. *)
Lemma leading_skip_is_counted :
  vectorOf [WSkip (newSkip (GenID 9 0) 2)] = [(9, 2)] /\ vectorOf [WGC (newGC (GenID 10 0) 1); WSkip (newSkip (GenID 9 0) 2)] = [(10, 1)].
Proof. done. Qed.
