(* ===== verification/Pending.v ===== *)
(** * Integrating the structs of an update

    Models [integrateStructs] of crdt/merge.go: the structs of an update are
    integrated in causal order; a struct whose dependencies have not arrived is
    set aside with everything its client sends after it. What a struct is
    integrated into is an interface, [IntegrationTarget]: the state of a client,
    the check [missingClient], and integration of one struct.

    An update is a map of clients to their structs with the number of those that
    have been read ([clientStructRef]). The ids still to visit are kept with the
    last one first. A cleared entry, which the code keeps with no structs, is an
    absent one here. *)
From S2P Require Import Prelude Lib0 Rle Object Any Text StringColumn StructStore DeleteSet DeleteSetCodec UpdateCodec Content StructCodec Consume UpdateStream UpdateMerge.

(** ** The interface *)

(** The ids of other clients that an item needs, in the order [missingClient]
    looks at them. *)
Definition opt_list {A} (o : option A) : list A := match o with Some a => [a] | None => [] end.

Definition deps (s : wireStruct) : list ID :=
  match s with
  | WItem it =>
      filter (fun d => Client d <> Client (w_id it))
        (opt_list (w_origin it) ++ opt_list (w_rightOrigin it) ++ match w_parent it with ParentItem d => [d] | _ => [] end)
  | _ => []
  end.

Fixpoint firstMissing (sv : Z -> Z) (ds : list ID) : option Z :=
  match ds with
  | [] => None
  | d :: ds' => if sv (Client d) <=? Clock d then Some (Client d) else firstMissing sv ds'
  end.

(** The client that a struct waits for. *)
Definition waitsFor (sv : Z -> Z) (s : wireStruct) : option Z := firstMissing sv (deps s).

Class IntegrationTarget (T : Type) := {
  stateOf : T -> Z -> Z;
  missingOf : wireStruct -> T -> option Z * T;
  integrateOf : wireStruct -> Z -> T -> result T
}.

(** A struct that can be integrated from an offset on. *)
Definition applicable (sv : Z -> Z) (s : wireStruct) (offset : Z) : Prop :=
  isSkip s = false /\ sv (Client (getID s)) = Clock (getID s) + offset /\ 0 <= offset < structLength s /\ waitsFor sv s = None.

Class IntegrationLaws (T : Type) `{IntegrationTarget T} := {
  missing_spec s t : (missingOf s t).1 = waitsFor (stateOf t) s;
  missing_state s t c : stateOf (missingOf s t).2 c = stateOf t c;
  integrate_spec s o t : applicable (stateOf t) s o ->
    exists t', integrateOf s o t = Ok t' /\ forall c, stateOf t' c = if c =? Client (getID s) then struct_end s else stateOf t c
}.

(** ** The loop *)
Record clientStructRef := mkRef { sr_refs : list wireStruct; sr_i : Z }.

Section Integrate.
Context {T : Type} `{IntegrationTarget T}.

Record loopState := mkLoop {
  l_target : T;
  l_refs : gmap Z clientStructRef;
  l_ids : list Z;
  l_cur : option Z;
  l_stack : list wireStruct;
  l_rest : structStore wireStruct;
  l_missing : gmap Z Z
}.

(** Structs of the client that have not been read. *)
Definition hasNext (refs : gmap Z clientStructRef) (c : Z) : bool :=
  match refs !! c with Some r => negb (Z.of_nat (length (sr_refs r)) =? sr_i r) | None => false end.

Fixpoint getNextStructTarget (refs : gmap Z clientStructRef) (ids : list Z) : result (option Z * list Z) :=
  match ids with
  | [] => Ok (None, [])
  | c :: ids' =>
      match refs !! c with
      | None => Err ErrPanic
      | Some r => if Z.of_nat (length (sr_refs r)) =? sr_i r then getNextStructTarget refs ids' else Ok (Some c, ids)
      end
  end.

(** [refs[i]], [i++]. *)
Definition takeNext (refs : gmap Z clientStructRef) (c : Z) : result (wireStruct * gmap Z clientStructRef) :=
  match refs !! c with
  | None => Err ErrPanic
  | Some r =>
      match zlookup (sr_refs r) (sr_i r) with
      | None => Err ErrPanic
      | Some s => Ok (s, <[c := mkRef (sr_refs r) (sr_i r + 1)]> refs)
      end
  end.

Definition updateMissingSv (missing : gmap Z Z) (client clock : Z) : gmap Z Z :=
  match missing !! client with
  | Some mclock => if clock <? mclock then <[client := clock]> missing else missing
  | None => <[client := clock]> missing
  end.

(** One item of [addStackToRestSS]. *)
Definition setAside (item : wireStruct) (st : loopState) : result loopState :=
  let client := Client (getID item) in
  let ids := filter (fun c => c <> client) (l_ids st) in
  match l_refs st !! client with
  | Some r =>
      if sr_i r - 1 <? 0 then Err ErrPanic
      else
        let cpRefs := drop (Z.to_nat (sr_i r - 1)) (sr_refs r) in
        let rest := fold_left (fun rest value => appendClientStruct rest client value) cpRefs (l_rest st) in
        Ok (mkLoop (l_target st) (delete client (l_refs st)) ids (l_cur st) (l_stack st) rest (l_missing st))
  | None => Ok (mkLoop (l_target st) (l_refs st) ids (l_cur st) (l_stack st) (appendClientStruct (l_rest st) client item) (l_missing st))
  end.

Fixpoint setAsideAll (items : list wireStruct) (st : loopState) : result loopState :=
  match items with
  | [] => Ok (mkLoop (l_target st) (l_refs st) (l_ids st) (l_cur st) [] (l_rest st) (l_missing st))
  | item :: items' => match setAside item st with Ok st => setAsideAll items' st | Err e => Err e end
  end.

(** The next struct: from the top of the stack, from the client that is being
    read, or from the next client. *)
Definition advance (st : loopState) : result (option (wireStruct * loopState)) :=
  match list.last (l_stack st) with
  | Some top => Ok (Some (top, mkLoop (l_target st) (l_refs st) (l_ids st) (l_cur st) (take (length (l_stack st) - 1) (l_stack st)) (l_rest st) (l_missing st)))
  | None =>
      let read c ids :=
        match takeNext (l_refs st) c with
        | Ok (s, refs) => Ok (Some (s, mkLoop (l_target st) refs ids (Some c) [] (l_rest st) (l_missing st)))
        | Err e => Err e
        end in
      match l_cur st with
      | Some c =>
          if hasNext (l_refs st) c then read c (l_ids st)
          else match getNextStructTarget (l_refs st) (l_ids st) with
               | Err e => Err e
               | Ok (None, _) => Ok None
               | Ok (Some c, ids) => read c ids
               end
      | None =>
          match getNextStructTarget (l_refs st) (l_ids st) with
          | Err e => Err e
          | Ok (None, _) => Ok None
          | Ok (Some c, ids) => read c ids
          end
      end
  end.

Definition with_target (t : T) (st : loopState) : loopState := mkLoop t (l_refs st) (l_ids st) (l_cur st) (l_stack st) (l_rest st) (l_missing st).
Definition pushed (s : wireStruct) (st : loopState) : loopState := mkLoop (l_target st) (l_refs st) (l_ids st) (l_cur st) (l_stack st ++ [s]) (l_rest st) (l_missing st).
Definition noting (client clock : Z) (st : loopState) : loopState :=
  mkLoop (l_target st) (l_refs st) (l_ids st) (l_cur st) (l_stack st) (l_rest st) (updateMissingSv (l_missing st) client clock).

(** The body of the loop up to the choice of the next struct: [inl] is
    [continue] with another head. *)
Definition process (head : wireStruct) (st : loopState) : result (wireStruct * loopState + loopState) :=
  if isSkip head then Ok (inr st)
  else
    let client := Client (getID head) in
    let offset := stateOf (l_target st) client - Clock (getID head) in
    if offset <? 0 then
      let st := noting client (Clock (getID head) - 1) (pushed head st) in
      match setAsideAll (l_stack st) st with Ok st => Ok (inr st) | Err e => Err e end
    else
      let '(m, t) := missingOf head (l_target st) in
      let st := with_target t st in
      match m with
      | Some missing =>
          let st := pushed head st in
          if hasNext (l_refs st) missing then
            match takeNext (l_refs st) missing with
            | Ok (s, refs) => Ok (inl (s, mkLoop t refs (l_ids st) (l_cur st) (l_stack st) (l_rest st) (l_missing st)))
            | Err e => Err e
            end
          else
            let st := noting missing (stateOf t missing) st in
            match setAsideAll (l_stack st) st with Ok st => Ok (inr st) | Err e => Err e end
      | None =>
          if (offset =? 0) || (offset <? structLength head) then
            match integrateOf head offset t with Ok t => Ok (inr (with_target t st)) | Err e => Err e end
          else Ok (inr st)
      end.

Fixpoint integrateLoop (fuel : nat) (head : wireStruct) (st : loopState) : result loopState :=
  match fuel with
  | O => Err ErrDepth
  | S fuel' =>
      match process head st with
      | Err e => Err e
      | Ok (inl (head, st)) => integrateLoop fuel' head st
      | Ok (inr st) =>
          match advance st with
          | Err e => Err e
          | Ok None => Ok st
          | Ok (Some (head, st)) => integrateLoop fuel' head st
          end
      end
  end.

(** Every round reads a struct or takes one from the stack. *)
Definition integrateFuel (refs : gmap Z clientStructRef) : nat := 2 * sum_list_with (fun p => length (sr_refs p.2)) (map_to_list refs).

(** The integrated target, and the structs set aside with the clocks they wait
    for, if there are any. *)
Definition integrateStructs (t : T) (clientsStructRefs : gmap Z (list wireStruct)) : result (T * option (structStore wireStruct * gmap Z Z)) :=
  let refs := (fun l => mkRef l 0) <$> clientsStructRefs in
  match getNextStructTarget refs (descending (elements (dom clientsStructRefs))) with
  | Err e => Err e
  | Ok (None, _) => Ok (t, None)
  | Ok (Some c, ids) =>
      match takeNext refs c with
      | Err e => Err e
      | Ok (head, refs') =>
          match integrateLoop (integrateFuel refs) head (mkLoop t refs' ids (Some c) [] newStructStore ∅) with
          | Err e => Err e
          | Ok st => Ok (l_target st, if bool_decide (clients (l_rest st) = ∅) then None else Some (l_rest st, l_missing st))
          end
      end
  end.

End Integrate.
Arguments loopState T : clear implicits.

(** ** Reading the structs *)
Definition refsLeft (r : clientStructRef) : nat := length (sr_refs r) - Z.to_nat (sr_i r).
Definition totalLeft (refs : gmap Z clientStructRef) : nat := sum_list_with (fun p => refsLeft p.2) (map_to_list refs).
Definition unreadOf (refs : gmap Z clientStructRef) (c : Z) : list wireStruct :=
  match refs !! c with Some r => drop (Z.to_nat (sr_i r)) (sr_refs r) | None => [] end.

Lemma totalLeft_delete refs c r : refs !! c = Some r -> totalLeft refs = (refsLeft r + totalLeft (delete c refs))%nat.
Proof. intros Hr. unfold totalLeft. rewrite <- (map_to_list_delete refs c r Hr). done. Qed.

Lemma totalLeft_insert refs c r r' : refs !! c = Some r -> (totalLeft (<[c := r']> refs) + refsLeft r = totalLeft refs + refsLeft r')%nat.
Proof.
  intros Hr. rewrite (totalLeft_delete refs c r Hr), (totalLeft_delete (<[c := r']> refs) c r') by apply lookup_insert_eq.
  rewrite delete_insert_eq. lia.
Qed.

Lemma takeNext_spec refs c r : refs !! c = Some r -> 0 <= sr_i r < Z.of_nat (length (sr_refs r)) ->
  exists s, takeNext refs c = Ok (s, <[c := mkRef (sr_refs r) (sr_i r + 1)]> refs) /\ sr_refs r !! Z.to_nat (sr_i r) = Some s.
Proof.
  intros Hr Hi. unfold takeNext. rewrite Hr. destruct (lookup_lt_is_Some_2 (sr_refs r) (Z.to_nat (sr_i r))) as [s Hs]; [lia|].
  exists s. rewrite <- (Z2Nat.id (sr_i r)) at 1 by lia. rewrite zlookup_nat, Hs. done.
Qed.

Lemma rest_append client values : forall rest : structStore wireStruct, values <> [] ->
  let rest' := fold_left (fun rest value => appendClientStruct rest client value) values rest in
  clients rest' = <[client := default [] (clients rest !! client) ++ values]> (clients rest).
Proof.
  induction values as [|v values IH]; intros rest Hne; [done|]. cbn [fold_left]. set (rest1 := appendClientStruct rest client v).
  assert (E1 : clients rest1 = <[client := default [] (clients rest !! client) ++ [v]]> (clients rest)).
  { unfold rest1, appendClientStruct, clientStructs, noteClient. destruct (clients rest !! client) eqn:E; [done|]. cbn. done. }
  cbn zeta. destruct (decide (values = [])) as [->|Hv]; [done|]. rewrite (IH rest1 Hv), E1, lookup_insert_eq, insert_insert_eq. cbn [default from_option]. unfold id. by rewrite <- (assoc_L (++)).
Qed.

(** ** The invariant *)
Section Invariant.
Context {T : Type} `{IntegrationLaws T} (t0 : T) (R : gmap Z (list wireStruct)) (rank : ID -> nat).

(** The structs of an update: those of a client are contiguous. *)
Definition update_ok : Prop :=
  forall c l, R !! c = Some l ->
    Forall (fun s => Client (getID s) = c /\ 0 < structLength s) l /\
    forall j s s', l !! j = Some s -> l !! S j = Some s' -> struct_end s = Clock (getID s').

(** Dependencies have no cycle: they, and the earlier elements of the client,
    come first. *)
Definition causal : Prop :=
  (forall c k k', k <= k' -> (rank (GenID c k) <= rank (GenID c k'))%nat) /\
  (forall c l s d, R !! c = Some l -> s ∈ l -> d ∈ deps s -> (rank d < rank (getID s))%nat).

Context (Hok : update_ok) (Hcausal : causal).

Definition clientOf (s : wireStruct) : Z := Client (getID s).
Definition rest_of (st : loopState T) (c : Z) : list wireStruct := default [] (clients (l_rest st) !! c).

(** What has been integrated: structs of the update, each once its dependencies
    are there and from the clock that its client has reached. *)
Inductive appliedFrom : T -> T -> Prop :=
  | applied_refl t : appliedFrom t t
  | applied_missing t t1 s : appliedFrom t t1 -> appliedFrom t (missingOf s t1).2
  | applied_struct t t1 t2 c l s o : appliedFrom t t1 -> R !! c = Some l -> s ∈ l -> applicable (stateOf t1) s o -> integrateOf s o t1 = Ok t2 -> appliedFrom t t2.

(** [fl] are the structs that have been read and are neither integrated nor set
    aside: the stack and the head. *)
Record inv_loop (fl : list wireStruct) (st : loopState T) : Prop := {
  j_refs c r : l_refs st !! c = Some r -> R !! c = Some (sr_refs r) /\ 0 <= sr_i r <= Z.of_nat (length (sr_refs r));
  j_flight s : s ∈ fl -> exists r, l_refs st !! clientOf s = Some r /\ 1 <= sr_i r /\ sr_refs r !! Z.to_nat (sr_i r - 1) = Some s;
  j_distinct : NoDup (clientOf <$> fl);
  j_all c l s : R !! c = Some l -> s ∈ l ->
    s ∈ unreadOf (l_refs st) c \/ s ∈ fl \/ isSkip s = true \/ struct_end s <= stateOf (l_target st) c \/ s ∈ rest_of st c;
  j_ids c r : l_refs st !! c = Some r -> c ∉ l_ids st -> sr_i r = Z.of_nat (length (sr_refs r));
  j_known c : c ∈ l_ids st -> is_Some (l_refs st !! c);
  j_rest c l : clients (l_rest st) !! c = Some l -> l_refs st !! c = None /\ l <> [] /\ exists l' n, R !! c = Some l' /\ l = drop n l';
  j_grows c : stateOf t0 c <= stateOf (l_target st) c;
  j_applied : appliedFrom t0 (l_target st)
}.

(** The clocks that are waited for: their client sends nothing more. *)
Definition waits_ok (fl : list wireStruct) (st : loopState T) : Prop :=
  forall c k, l_missing st !! c = Some k -> stateOf (l_target st) c <= k /\ unreadOf (l_refs st) c = [] /\ c ∉ clientOf <$> fl.

(** The structs on the stack have begun, and each waits for one of lower rank. *)
Definition stack_ok (st : loopState T) : Prop :=
  Forall (fun s => isSkip s = false /\ Clock (getID s) <= stateOf (l_target st) (clientOf s)) (l_stack st) /\
  StronglySorted (fun s s' => (rank (getID s') < rank (getID s))%nat) (l_stack st).

Definition head_ok (head : wireStruct) (st : loopState T) : Prop :=
  Clock (getID head) <= stateOf (l_target st) (clientOf head) -> Forall (fun s => (rank (getID head) < rank (getID s))%nat) (l_stack st).

Lemma struct_of c l s : R !! c = Some l -> s ∈ l -> clientOf s = c /\ 0 < structLength s.
Proof. intros Hl Hs. destruct (Hok c l Hl) as [Hf _]. rewrite list.Forall_forall in Hf. by apply Hf. Qed.

Lemma flight_struct fl st s : inv_loop fl st -> s ∈ fl -> exists l, R !! clientOf s = Some l /\ s ∈ l.
Proof.
  intros Hj Hs. destruct (j_flight _ _ Hj s Hs) as (r & Hr & _ & Hl). destruct (j_refs _ _ Hj _ _ Hr) as [HR _].
  exists (sr_refs r). split; [done|]. by eapply list_elem_of_lookup_2.
Qed.

Lemma hasNext_spec fl st c : inv_loop fl st -> hasNext (l_refs st) c = true <-> exists r, l_refs st !! c = Some r /\ 0 <= sr_i r < Z.of_nat (length (sr_refs r)).
Proof.
  intros Hj. unfold hasNext. destruct (l_refs st !! c) as [r|] eqn:Er; [|naive_solver]. destruct (j_refs _ _ Hj _ _ Er) as [_ Hi].
  destruct (Z.eqb_spec (Z.of_nat (length (sr_refs r))) (sr_i r)); cbn [negb]; split; try done.
  - intros (r' & [= <-] & ?). lia.
  - intros _. exists r. split; [done|lia].
Qed.

Lemma hasNext_unread fl st c : inv_loop fl st -> hasNext (l_refs st) c = false -> unreadOf (l_refs st) c = [].
Proof.
  intros Hj. unfold hasNext, unreadOf. destruct (l_refs st !! c) as [r|] eqn:Er; [|done]. intros E%negb_false_iff%Z.eqb_eq. apply drop_ge. lia.
Qed.

(** *** Setting the stack aside *)
Lemma setAside_spec item items st : inv_loop (item :: items) st ->
  exists st', setAside item st = Ok st' /\ inv_loop items st' /\ l_target st' = l_target st /\ l_missing st' = l_missing st /\ l_stack st' = l_stack st /\
    l_refs st' = delete (clientOf item) (l_refs st) /\ (totalLeft (l_refs st') <= totalLeft (l_refs st))%nat.
Proof.
  intros Hj. destruct (j_flight _ _ Hj item) as (r & Hr & Hi & Hit); [by left|]. destruct (j_refs _ _ Hj _ _ Hr) as [HR Hb].
  unfold setAside. fold (clientOf item). rewrite Hr. destruct (Z.ltb_spec (sr_i r - 1) 0); [lia|]. eexists. split; [reflexivity|]. split_and!; try done.
  2: { cbn [l_refs]. rewrite (totalLeft_delete _ _ _ Hr). lia. }
  set (cp := drop (Z.to_nat (sr_i r - 1)) (sr_refs r)). assert (Hcp : item ∈ cp).
  { apply (list_elem_of_lookup_2 _ 0). unfold cp. rewrite lookup_drop, Nat.add_0_r. done. }
  assert (Hne : cp <> []) by (intros E; rewrite E in Hcp; by apply not_elem_of_nil in Hcp).
  assert (Hnr : clients (l_rest st) !! clientOf item = None).
  { destruct (clients (l_rest st) !! clientOf item) eqn:E; [|done]. destruct (j_rest _ _ Hj _ _ E) as [? _]. congruence. }
  pose proof (rest_append (clientOf item) cp (l_rest st) Hne) as Ef. cbn zeta in Ef. rewrite Hnr in Ef. cbn [default from_option app] in Ef.
  pose proof (j_distinct _ _ Hj) as Hnd. rewrite fmap_cons in Hnd. apply list.NoDup_cons in Hnd as [Hni Hnd].
  constructor; cbn [l_refs l_ids l_target l_rest].
  - intros c r' [Hne' Hr']%lookup_delete_Some. by apply (j_refs _ _ Hj).
  - intros s Hs. destruct (j_flight _ _ Hj s) as (r' & Hr' & ?); [by right|]. exists r'. split; [|done]. apply lookup_delete_Some. split; [|done].
    intros E. apply Hni. rewrite E. by apply list_elem_of_fmap_2.
  - done.
  - intros c l s Hl Hs. unfold rest_of. cbn [l_rest]. rewrite Ef. destruct (decide (c = clientOf item)) as [->|Hc].
    + rewrite lookup_insert_eq. cbn [default from_option]. unfold id. rewrite HR in Hl. injection Hl as <-. destruct (j_all _ _ Hj _ _ _ HR Hs) as [Hu|[Hf|[?|[?|Hrs]]]]; [..|by eauto|by eauto|].
      * right. right. right. right. unfold unreadOf in Hu. rewrite Hr in Hu. unfold cp. replace (Z.to_nat (sr_i r)) with (Z.to_nat (sr_i r - 1) + 1)%nat in Hu by lia.
        rewrite <- drop_drop in Hu. apply list_elem_of_lookup in Hu as (j & Hj'). rewrite lookup_drop in Hj'. by eapply list_elem_of_lookup_2.
      * apply elem_of_cons in Hf as [->|Hf]; [by eauto 10|]. exfalso. apply Hni. destruct (struct_of _ _ _ HR Hs) as [<- _]. by apply list_elem_of_fmap_2.
      * unfold rest_of in Hrs. rewrite Hnr in Hrs. by apply not_elem_of_nil in Hrs.
    + rewrite lookup_insert_ne by done. unfold unreadOf. rewrite lookup_delete_ne by done. destruct (j_all _ _ Hj _ _ _ Hl Hs) as [Hu|[Hf|[?|[?|Hrs]]]]; [by eauto| |by eauto|by eauto|by eauto 10].
      apply elem_of_cons in Hf as [->|Hf]; [|by eauto]. exfalso. apply Hc. by destruct (struct_of _ _ _ Hl Hs).
  - intros c r' [Hne' Hr']%lookup_delete_Some Hids. apply (j_ids _ _ Hj _ _ Hr'). intros Hin. apply Hids. apply list_elem_of_filter. done.
  - intros c [Hc Hin]%list_elem_of_filter. destruct (j_known _ _ Hj c Hin) as [r' Hr']. exists r'. by rewrite lookup_delete_ne.
  - intros c l. rewrite Ef. intros [[<- <-]|[Hc Hl]]%lookup_insert_Some.
    + split_and!; [apply lookup_delete_eq|done|]. by exists (sr_refs r), (Z.to_nat (sr_i r - 1)).
    + destruct (j_rest _ _ Hj _ _ Hl) as (? & ? & ?). split_and!; [by rewrite lookup_delete_ne|done|done].
  - apply Hj.
  - apply Hj.
Qed.

Lemma setAsideAll_spec items : forall st, inv_loop items st ->
  exists st', setAsideAll items st = Ok st' /\ inv_loop [] st' /\ l_target st' = l_target st /\ l_missing st' = l_missing st /\ l_stack st' = [] /\
    (forall c, c ∈ clientOf <$> items -> l_refs st' !! c = None) /\ (forall c, l_refs st' !! c = None \/ l_refs st' !! c = l_refs st !! c) /\ (totalLeft (l_refs st') <= totalLeft (l_refs st))%nat.
Proof.
  induction items as [|item items IH]; intros st Hj; cbn [setAsideAll].
  - eexists. split; [reflexivity|]. cbn. split_and!; try done; [by destruct Hj; constructor|by intros c ?%not_elem_of_nil|by right].
  - destruct (setAside_spec item items st Hj) as (st1 & E1 & Hj1 & Et & Em & Es & Er & Hl1). rewrite E1. destruct (IH st1 Hj1) as (st' & E' & Hj' & Et' & Em' & Es' & Hd & Hk & Hl').
    exists st'. split_and!; [done|done|congruence|congruence|done| | |lia].
    + intros c [->|Hc]%elem_of_cons; [|by apply Hd]. destruct (Hk (clientOf item)) as [?|E]; [done|]. rewrite E, Er. apply lookup_delete_eq.
    + intros c. destruct (Hk c) as [?|E]; [by left|]. rewrite E, Er. destruct (decide (c = clientOf item)) as [->|]; [left; apply lookup_delete_eq|right; by rewrite lookup_delete_ne].
Qed.

(** *** Reading a struct *)
Lemma index_clock c l j j' s s' : R !! c = Some l -> l !! j = Some s -> l !! j' = Some s' -> (j < j')%nat -> struct_end s <= Clock (getID s').
Proof.
  intros Hl Hs. revert s'. induction j' as [|j' IH]; intros s' Hs' Hj; [lia|]. destruct (Hok c l Hl) as [Hf Hc].
  destruct (lookup_lt_is_Some_2 l j') as [u Hu]; [apply lookup_lt_Some in Hs'; lia|]. pose proof (Hc _ _ _ Hu Hs') as E.
  destruct (decide (j = j')) as [->|]; [rewrite Hs in Hu; injection Hu as <-; lia|]. specialize (IH u Hu ltac:(lia)).
  rewrite list.Forall_forall in Hf. destruct (Hf u) as [_ Hp]; [by eapply list_elem_of_lookup_2|]. unfold struct_end in *. lia.
Qed.

Lemma take_inv fl st st' c r s : inv_loop fl st -> l_refs st !! c = Some r -> sr_refs r !! Z.to_nat (sr_i r) = Some s -> 0 <= sr_i r -> c ∉ clientOf <$> fl ->
  l_refs st' = <[c := mkRef (sr_refs r) (sr_i r + 1)]> (l_refs st) -> l_target st' = l_target st -> l_rest st' = l_rest st ->
  (forall c r, l_refs st !! c = Some r -> c ∉ l_ids st' -> sr_i r = Z.of_nat (length (sr_refs r))) -> l_ids st' ⊆ l_ids st ->
  inv_loop (fl ++ [s]) st' /\ clientOf s = c.
Proof.
  intros Hj Hr Hs Hi Hc Er Et Es Hids Hsub. destruct (j_refs _ _ Hj _ _ Hr) as [HR Hb]. apply lookup_lt_Some in Hs as Hlt.
  assert (Hin : s ∈ sr_refs r) by by eapply list_elem_of_lookup_2. destruct (struct_of _ _ _ HR Hin) as [Hsc _]. split; [|done]. constructor.
  - intros c' r'. rewrite Er. intros [[<- <-]|[_ Hr']]%lookup_insert_Some; [|by apply (j_refs _ _ Hj)]. cbn. split; [done|lia].
  - intros s' [Hs'| ->%list_elem_of_singleton]%elem_of_app.
    + destruct (j_flight _ _ Hj s' Hs') as (r' & Hr' & ?). exists r'. split; [|done]. rewrite Er, lookup_insert_ne; [done|]. intros ->. apply Hc. by apply list_elem_of_fmap_2.
    + exists (mkRef (sr_refs r) (sr_i r + 1)). rewrite Er, Hsc, lookup_insert_eq. cbn. split_and!; [done|lia|]. by replace (sr_i r + 1 - 1) with (sr_i r) by lia.
  - rewrite fmap_app. apply list.NoDup_app. split_and!; [apply Hj| |apply NoDup_singleton]. intros x Hx ->%list_elem_of_singleton. by rewrite Hsc in Hx.
  - intros c' l' s' Hl' Hs'. unfold rest_of. rewrite Et, Es. fold (rest_of st c'). unfold unreadOf. rewrite Er.
    destruct (j_all _ _ Hj _ _ _ Hl' Hs') as [Hu|[Hf|[?|[?|?]]]]; [|right; left; apply elem_of_app; by left|by eauto|by eauto|by eauto].
    destruct (decide (c' = c)) as [->|Hne]; [|left; by rewrite lookup_insert_ne]. rewrite lookup_insert_eq. cbn [sr_i sr_refs].
    unfold unreadOf in Hu. rewrite Hr in Hu. rewrite (drop_S _ _ _ Hs) in Hu. apply elem_of_cons in Hu as [->|Hu]; [right; left; apply elem_of_app; right; by left|].
    left. by replace (Z.to_nat (sr_i r + 1)) with (S (Z.to_nat (sr_i r))) by lia.
  - intros c' r'. rewrite Er. intros [[<- <-]|[_ Hr']]%lookup_insert_Some Hn; [|by eapply Hids]. specialize (Hids _ _ Hr Hn). cbn. lia.
  - intros c' Hin'. destruct (j_known _ _ Hj c') as [r' Hr']; [by apply Hsub|]. rewrite Er. apply lookup_insert_is_Some'. right. by exists r'.
  - intros c' l'. rewrite Es, Er. intros Hl'. destruct (j_rest _ _ Hj _ _ Hl') as (Hn & ? & ?). split_and!; [|done|done]. rewrite lookup_insert_ne; [done|]. intros ->. congruence.
  - intros c'. rewrite Et. apply Hj.
  - rewrite Et. apply Hj.
Qed.

Lemma take_total refs c r : refs !! c = Some r -> 0 <= sr_i r < Z.of_nat (length (sr_refs r)) ->
  (totalLeft (<[c := mkRef (sr_refs r) (sr_i r + 1)]> refs) + 1 = totalLeft refs)%nat.
Proof. intros Hr Hi. pose proof (totalLeft_insert refs c r (mkRef (sr_refs r) (sr_i r + 1)) Hr). unfold refsLeft in *. cbn in *. lia. Qed.

(** *** A struct that is finished *)
Lemma done_inv fl h st t' : appliedFrom t0 t' -> inv_loop (fl ++ [h]) st -> (forall c, stateOf (l_target st) c <= stateOf t' c) ->
  isSkip h = true \/ struct_end h <= stateOf t' (clientOf h) -> inv_loop fl (with_target t' st).
Proof.
  intros Hat Hj Hmono Hh. assert (Hfl : forall s, s ∈ fl -> s ∈ fl ++ [h]) by (intros s ?; apply elem_of_app; by left). constructor; cbn [with_target l_refs l_ids l_target l_rest].
  - apply Hj.
  - intros s Hs. apply (j_flight _ _ Hj s). by apply Hfl.
  - pose proof (j_distinct _ _ Hj) as Hnd. rewrite fmap_app in Hnd. by apply list.NoDup_app in Hnd as (? & _).
  - intros c l s Hl Hs. change (rest_of (with_target t' st) c) with (rest_of st c). destruct (j_all _ _ Hj _ _ _ Hl Hs) as [?|[Hf|[?|[Hle|?]]]]; [by eauto| |by eauto| |by eauto].
    + apply elem_of_app in Hf as [?| ->%list_elem_of_singleton]; [by eauto|]. destruct (struct_of _ _ _ Hl Hs) as [<- _]. destruct Hh; eauto.
    + right. right. right. left. specialize (Hmono c). lia.
  - apply Hj.
  - apply Hj.
  - apply Hj.
  - intros c. pose proof (j_grows _ _ Hj c). specialize (Hmono c). lia.
  - done.
Qed.

(** *** Complete updates *)

(** The update has everything its structs need, from the state it meets. *)
Definition complete : Prop :=
  (forall c l, R !! c = Some l -> Forall (fun s => isSkip s = false) l /\ forall s, head l = Some s -> Clock (getID s) <= stateOf t0 c) /\
  (forall c l s d, R !! c = Some l -> s ∈ l -> d ∈ deps s -> Clock d < stateOf t0 (Client d) \/
     exists l' s', R !! Client d = Some l' /\ s' ∈ l' /\ Clock (getID s') <= Clock d < struct_end s').

Lemma same_client fl s s' : NoDup (clientOf <$> fl) -> s ∈ fl -> s' ∈ fl -> clientOf s = clientOf s' -> s = s'.
Proof.
  intros Hnd (i & Hi)%list_elem_of_lookup (j & Hj)%list_elem_of_lookup E. assert (i = j) as ->; [|congruence].
  eapply NoDup_lookup; [exact Hnd|rewrite list_lookup_fmap, Hi; done|rewrite list_lookup_fmap, Hj; cbn; by rewrite E].
Qed.

Lemma complete_begins fl st h : complete -> inv_loop fl st -> clients (l_rest st) = ∅ -> h ∈ fl -> Clock (getID h) <= stateOf (l_target st) (clientOf h).
Proof.
  intros [Hc _] Hj Hrest Hh. destruct (j_flight _ _ Hj h Hh) as (r & Hr & Hi & Hl). destruct (j_refs _ _ Hj _ _ Hr) as [HR Hb]. destruct (Hc _ _ HR) as [Hns Hfirst].
  destruct (decide (sr_i r = 1)) as [E|Hne].
  - rewrite E in Hl. change (Z.to_nat (1 - 1)) with 0%nat in Hl. pose proof (j_grows _ _ Hj (clientOf h)). specialize (Hfirst h). rewrite head_lookup in Hfirst. specialize (Hfirst Hl). lia.
  - destruct (lookup_lt_is_Some_2 (sr_refs r) (Z.to_nat (sr_i r - 2))) as [p Hp]; [lia|]. assert (Hpi : p ∈ sr_refs r) by by eapply list_elem_of_lookup_2.
    destruct (struct_of _ _ _ HR Hpi) as [Hpc Hpl]. assert (Hph : struct_end p <= Clock (getID h)) by (eapply index_clock; [exact HR|exact Hp|exact Hl|lia]).
    destruct (Hok _ _ HR) as [_ Hcont]. assert (Eph : struct_end p = Clock (getID h)). { apply (Hcont (Z.to_nat (sr_i r - 2)) p h Hp). by replace (S (Z.to_nat (sr_i r - 2))) with (Z.to_nat (sr_i r - 1)) by lia. }
    destruct (j_all _ _ Hj _ _ _ HR Hpi) as [Hu|[Hf|[Hs|[?|Hrs]]]].
    + exfalso. unfold unreadOf in Hu. rewrite Hr in Hu. apply list_elem_of_lookup in Hu as (j & Hu). rewrite lookup_drop in Hu.
      assert (struct_end p <= Clock (getID p)) by (eapply index_clock; [exact HR|exact Hp|exact Hu|lia]). unfold struct_end in *. lia.
    + exfalso. assert (p = h) as -> by (eapply same_client; [apply Hj|done|done|done]). unfold struct_end in *. lia.
    + rewrite list.Forall_forall in Hns. rewrite (Hns p Hpi) in Hs. done.
    + lia.
    + unfold rest_of in Hrs. rewrite Hrest, lookup_empty in Hrs. by apply not_elem_of_nil in Hrs.
Qed.

Lemma firstMissing_Some sv ds m : firstMissing sv ds = Some m -> exists d, d ∈ ds /\ Client d = m /\ sv m <= Clock d.
Proof.
  induction ds as [|d ds IH]; [done|]. cbn. destruct (Z.leb_spec (sv (Client d)) (Clock d)).
  - intros [= <-]. exists d. split_and!; [by left|done|done].
  - intros (d' & ? & ?)%IH. exists d'. split; [by right|done].
Qed.

Lemma complete_arrives fl st h m : complete -> inv_loop fl st -> clients (l_rest st) = ∅ -> h ∈ fl -> waitsFor (stateOf (l_target st)) h = Some m ->
  m ∉ clientOf <$> fl -> unreadOf (l_refs st) m = [] -> False.
Proof.
  intros [Hc Hdep] Hj Hrest Hh (d & Hd & Hdm & Hk)%firstMissing_Some Hm Hu. destruct (flight_struct _ _ _ Hj Hh) as (l & HR & Hin). subst m.
  destruct (Hdep _ _ _ _ HR Hin Hd) as [Hlt|(l' & s' & HR' & Hin' & Hk')]; [pose proof (j_grows _ _ Hj (Client d)); lia|].
  destruct (struct_of _ _ _ HR' Hin') as [Hsc _]. destruct (j_all _ _ Hj _ _ _ HR' Hin') as [Hu'|[Hf|[Hs|[?|Hrs]]]].
  - rewrite Hu in Hu'. by apply not_elem_of_nil in Hu'.
  - apply Hm. rewrite <- Hsc. by apply list_elem_of_fmap_2.
  - destruct (Hc _ _ HR') as [Hns _]. rewrite list.Forall_forall in Hns. by rewrite (Hns s' Hin') in Hs.
  - lia.
  - unfold rest_of in Hrs. rewrite Hrest, lookup_empty in Hrs. by apply not_elem_of_nil in Hrs.
Qed.

(** *** The rounds *)
(** Nothing is set aside from a complete update, and nothing without a clock to
    wait for. *)
Definition aside_ok (st : loopState T) : Prop := (complete -> clients (l_rest st) = ∅) /\ (l_missing st = ∅ -> clients (l_rest st) = ∅).

Definition good (fl : list wireStruct) (st : loopState T) : Prop := inv_loop fl st /\ waits_ok fl st /\ stack_ok st /\ aside_ok st.

Definition measure (st : loopState T) : nat := 2 * totalLeft (l_refs st) + length (l_stack st).

(** No struct waits for one that is itself waiting. *)
Lemma no_cycle st h m : good (l_stack st ++ [h]) st -> head_ok h st -> Clock (getID h) <= stateOf (l_target st) (clientOf h) ->
  waitsFor (stateOf (l_target st)) h = Some m -> m ∉ clientOf <$> (l_stack st ++ [h]).
Proof.
  intros (Hj & _ & [Hst _] & _) Hh Hck Hw Hin. destruct (firstMissing_Some _ _ _ Hw) as (d & Hd & Hdm & Hk).
  destruct (flight_struct _ _ h Hj) as (l & HR & Hhl); [apply elem_of_app; right; by left|]. destruct Hcausal as [Hmono Hdep]. pose proof (Hdep _ _ _ _ HR Hhl Hd) as Hrk.
  rewrite fmap_app in Hin. apply elem_of_app in Hin as [Hin|Hin].
  - apply list_elem_of_fmap in Hin as (s & Es & Hs). specialize (Hh Hck). rewrite list.Forall_forall in Hh, Hst. specialize (Hh s Hs). destruct (Hst s Hs) as [_ Hsk].
    rewrite <- Es in Hsk. assert (Hle : Clock (getID s) <= Clock d) by lia. specialize (Hmono m _ _ Hle). unfold clientOf in Es.
    assert (GenID m (Clock (getID s)) = getID s) as E1 by (destruct (getID s); cbn in *; by subst). assert (GenID m (Clock d) = d) as E2 by (destruct d; cbn in *; by subst).
    rewrite E1, E2 in Hmono. lia.
  - apply list_elem_of_singleton in Hin. unfold deps in Hd. destruct h as [it|gc|sk]; [|by apply not_elem_of_nil in Hd..]. apply list_elem_of_filter in Hd as [Hne _]. apply Hne. by rewrite Hdm, Hin.
Qed.

Lemma waits_update missing client clock c k : updateMissingSv missing client clock !! c = Some k -> missing !! c = Some k \/ (c = client /\ k = clock).
Proof.
  unfold updateMissingSv. destruct (missing !! client) as [m|] eqn:E; [destruct (_ <? _); [|by left]|]; (intros [[<- <-]|[_ ?]]%lookup_insert_Some; [by right|by left]).
Qed.

Lemma updateMissing_ne missing client clock : updateMissingSv missing client clock <> ∅.
Proof.
  unfold updateMissingSv. destruct (missing !! client) eqn:E; [destruct (_ <? _)|]; try apply insert_non_empty. intros ->. by rewrite lookup_empty in E.
Qed.

(** The wall: everything in flight is set aside, and nothing can go on before
    the clock that is waited for. *)
Lemma wall_spec st h client clock : good (l_stack st ++ [h]) st -> stateOf (l_target st) client <= clock ->
  client ∈ clientOf <$> (l_stack st ++ [h]) \/ unreadOf (l_refs st) client = [] -> (complete -> False) ->
  exists st', setAsideAll (l_stack (noting client clock (pushed h st))) (noting client clock (pushed h st)) = Ok st' /\
    good (l_stack st') st' /\ (measure st' <= measure st)%nat.
Proof.
  intros (Hj & Hw & _ & _) Hk Hcl Hcomp. set (st1 := noting client clock (pushed h st)). change (l_stack st1) with (l_stack st ++ [h]).
  assert (Hj1 : inv_loop (l_stack st ++ [h]) st1) by (destruct Hj; constructor; done).
  destruct (setAsideAll_spec _ _ Hj1) as (st' & E & Hj' & Et & Em & Es & Hd & Hkeep & Hl). exists st'. split; [done|]. split.
  - unfold good. rewrite Es. split_and!; [done| |split; rewrite Es; constructor|split; [done|intros E0; rewrite Em in E0; by apply updateMissing_ne in E0]]. intros c k. rewrite Em, Et. cbn [st1 noting pushed l_missing l_target].
    assert (Hun : forall c, unreadOf (l_refs st) c = [] -> unreadOf (l_refs st') c = []).
    { intros c' Hu. unfold unreadOf in *. destruct (Hkeep c') as [->| ->]; [done|]. done. }
    intros [Hm|[-> ->]]%waits_update.
    + destruct (Hw c k Hm) as (? & ? & _). split_and!; [done|by apply Hun|apply not_elem_of_nil].
    + split_and!; [done| |apply not_elem_of_nil]. destruct Hcl as [Hin|Hu]; [|by apply Hun]. unfold unreadOf. by rewrite (Hd client Hin).
  - unfold measure. rewrite Es. cbn [length]. change (l_refs st1) with (l_refs st) in Hl. lia.
Qed.

Lemma missing_same s t : forall c, stateOf (missingOf s t).2 c = stateOf t c.
Proof. intros c. apply missing_state. Qed.

Lemma good_target fl st t : appliedFrom t0 t -> (forall c, stateOf t c = stateOf (l_target st) c) -> good fl st -> good fl (with_target t st).
Proof.
  intros Hat Ht (Hj & Hw & [Hs1 Hs2] & Hc). split_and!; [| | |done].
  - destruct Hj. constructor; cbn; try done.
    + intros c l s Hl Hs. destruct (j_all0 _ _ _ Hl Hs) as [?|[?|[?|[?|?]]]]; [by eauto..| |by eauto]. right. right. right. left. by rewrite Ht.
    + intros c. by rewrite Ht.
  - intros c k Hm. cbn. rewrite Ht. by apply Hw.
  - split; [|done]. cbn. eapply Forall_impl; [|exact Hs1]. cbv beta. intros s. by rewrite Ht.
Qed.

Lemma waitsFor_same sv sv' s : (forall c, sv c = sv' c) -> waitsFor sv s = waitsFor sv' s.
Proof. intros E. unfold waitsFor. induction (deps s) as [|d ds IH]; [done|]. cbn. by rewrite E, IH. Qed.

(** What a struct waits for, if it has begun, has a lower rank. *)
Lemma next_rank st h s m : h ∈ l_stack st ++ [h] -> inv_loop (l_stack st ++ [h]) st -> waitsFor (stateOf (l_target st)) h = Some m -> clientOf s = m ->
  Clock (getID s) <= stateOf (l_target st) m -> (rank (getID s) < rank (getID h))%nat.
Proof.
  intros Hhf Hj Hms Hsc Hck'. destruct (firstMissing_Some _ _ _ Hms) as (d & Hd & Hdm & Hk).
  destruct (flight_struct _ _ h Hj Hhf) as (l & HR & Hhl). destruct Hcausal as [Hmono Hdep]. pose proof (Hdep _ _ _ _ HR Hhl Hd) as Hrk.
  assert (Hle : Clock (getID s) <= Clock d) by lia. specialize (Hmono m _ _ Hle). unfold clientOf in Hsc.
  assert (GenID m (Clock (getID s)) = getID s) as E1 by (destruct (getID s); cbn in *; by subst). assert (GenID m (Clock d) = d) as E2 by (destruct d; cbn in *; by subst).
  rewrite E1, E2 in Hmono. lia.
Qed.

(** The head goes on the stack, and the next struct of the client it waits for
    becomes the head. *)
Lemma follow_good h st m r s : good (l_stack st ++ [h]) st -> head_ok h st -> isSkip h = false -> Clock (getID h) <= stateOf (l_target st) (clientOf h) ->
  waitsFor (stateOf (l_target st)) h = Some m -> l_refs st !! m = Some r -> 0 <= sr_i r < Z.of_nat (length (sr_refs r)) -> sr_refs r !! Z.to_nat (sr_i r) = Some s ->
  let st' := mkLoop (l_target st) (<[m := mkRef (sr_refs r) (sr_i r + 1)]> (l_refs st)) (l_ids st) (l_cur st) (l_stack st ++ [h]) (l_rest st) (l_missing st) in
  good (l_stack st' ++ [s]) st' /\ head_ok s st' /\ (measure st' < measure st)%nat.
Proof.
  intros Hg Hh Esk Hck Hms Hr Hi Hl st'. pose proof (no_cycle st h m Hg Hh Hck Hms) as Hnc. destruct Hg as (Hj & Hw & [Hst1 Hst2] & Hc).
  assert (Hhf : h ∈ l_stack st ++ [h]) by (apply elem_of_app; right; by left).
  destruct (take_inv (l_stack st ++ [h]) st st' m r s Hj Hr Hl ltac:(lia) Hnc eq_refl eq_refl eq_refl) as [Hj' Hsc]; [apply Hj|done|].
  split_and!; [split_and!; [done| | |done]| |].
  - intros c k Hm. destruct (Hw c k Hm) as (? & Hu & Hn). assert (c <> m) by (intros ->; unfold unreadOf in Hu; cbn in Hu; rewrite Hr in Hu; rewrite (drop_S _ _ _ Hl) in Hu; done).
    split_and!; [done| |].
    + unfold unreadOf. cbn [st' l_refs]. by rewrite lookup_insert_ne.
    + change (l_stack st') with (l_stack st ++ [h]). rewrite fmap_app, not_elem_of_app. split; [done|]. cbn. rewrite Hsc. by intros ->%list_elem_of_singleton.
  - split; cbn [st' l_stack l_target].
    + apply Forall_app_2; [done|]. by apply Forall_singleton.
    + apply StronglySorted_app_2; [|done|by repeat constructor]. intros x y Hx ->%list_elem_of_singleton. specialize (Hh Hck). rewrite list.Forall_forall in Hh. by apply Hh.
  - intros Hck'. cbn [st' l_stack l_target] in *. rewrite Hsc in Hck'. pose proof (next_rank st h s m Hhf Hj Hms Hsc Hck') as Hrs.
    apply Forall_app_2; [|by apply Forall_singleton]. eapply Forall_impl; [|exact (Hh Hck)]. cbv beta. intros x Hx. lia.
  - unfold measure. cbn [st' l_refs l_stack]. rewrite length_app. pose proof (take_total _ _ _ Hr Hi). cbn. lia.
Qed.

(** The head is done: it was a skip, was known, or is integrated into a target
    that has grown by it. *)
Lemma done_good h st t' : appliedFrom t0 t' -> good (l_stack st ++ [h]) st -> (forall c, stateOf (l_target st) c <= stateOf t' c) ->
  (forall c, c <> clientOf h -> stateOf t' c = stateOf (l_target st) c) -> isSkip h = true \/ struct_end h <= stateOf t' (clientOf h) ->
  good (l_stack st) (with_target t' st).
Proof.
  intros Hat (Hj & Hw & [Hs1 Hs2] & Hc) Hmono Hoth Hd. split_and!; [by eapply done_inv| | |done].
  - intros c k Hm. destruct (Hw c k Hm) as (? & ? & Hn). rewrite fmap_app, not_elem_of_app in Hn. destruct Hn as [Hn1 Hn2]. split_and!; [|done|done]. cbn [with_target l_target].
    rewrite Hoth; [done|]. intros ->. apply Hn2. by left.
  - split; [|done]. cbn [with_target l_stack l_target]. eapply Forall_impl; [|exact Hs1]. cbv beta. intros x [? Hx]. split; [done|]. specialize (Hmono (clientOf x)). lia.
Qed.

Lemma process_spec h st : good (l_stack st ++ [h]) st -> head_ok h st ->
  exists r, process h st = Ok r /\
    match r with
    | inl (h', st') => good (l_stack st' ++ [h']) st' /\ head_ok h' st' /\ (measure st' < measure st)%nat
    | inr st' => good (l_stack st') st' /\ (measure st' <= measure st)%nat
    end.
Proof.
  intros Hg Hh. pose proof Hg as (Hj & Hw & Hs & Hc). assert (Hhf : h ∈ l_stack st ++ [h]) by (apply elem_of_app; right; by left). unfold process.
  destruct (isSkip h) eqn:Esk.
  { exists (inr st). split; [done|]. split; [|done]. pose proof (done_good h st (l_target st) (j_applied _ _ Hj) Hg ltac:(done) ltac:(done) (or_introl Esk)) as Hd. by destruct st. }
  fold (clientOf h). destruct (Z.ltb_spec (stateOf (l_target st) (clientOf h) - Clock (getID h)) 0) as [Hgap|Hno].
  { destruct (wall_spec st h (clientOf h) (Clock (getID h) - 1) Hg) as (st' & E & Hg' & Hm'); [lia|left; by apply list_elem_of_fmap_2| |rewrite E; by exists (inr st')].
    intros Hcomp. pose proof (complete_begins _ _ _ Hcomp Hj (proj1 Hc Hcomp) Hhf). lia. }
  assert (Hck : Clock (getID h) <= stateOf (l_target st) (clientOf h)) by lia.
  pose proof (missing_spec h (l_target st)) as Hms. pose proof (missing_same h (l_target st)) as Hst. destruct (missingOf h (l_target st)) as [m t] eqn:Em. cbn [fst snd] in *.
  assert (Hat : appliedFrom t0 t) by (replace t with (missingOf h (l_target st)).2 by (by rewrite Em); apply applied_missing, Hj).
  pose proof (good_target _ st t Hat Hst Hg) as Hgt. symmetry in Hms. destruct m as [m|].
  - assert (Hmt : waitsFor (stateOf t) h = Some m) by (rewrite <- Hms; by apply waitsFor_same). assert (Hht : head_ok h (with_target t st)) by (intros ?; by apply Hh).
    cbn [with_target pushed l_refs l_target l_stack l_ids l_cur l_rest l_missing]. destruct (hasNext (l_refs st) m) eqn:Ehn.
    + apply (hasNext_spec _ _ _ Hj) in Ehn as (r & Hr & Hi). destruct (takeNext_spec _ _ _ Hr Hi) as (s & Et & Hl). rewrite Et. eexists. split; [reflexivity|].
      apply (follow_good h (with_target t st) m r s Hgt Hht Esk); [|done..]. cbn [with_target l_target]. by rewrite Hst.
    + destruct (wall_spec (with_target t st) h m (stateOf t m) Hgt) as (st' & E & Hg' & Hm'); [done|right; exact (hasNext_unread _ _ _ Hj Ehn)| |].
      * intros Hcomp. eapply (complete_arrives _ _ h m Hcomp Hj (proj1 Hc Hcomp) Hhf); [by rewrite Hms|by apply (no_cycle st h m)|exact (hasNext_unread _ _ _ Hj Ehn)].
      * unfold noting, pushed, with_target in E |- *. cbn [l_refs l_target l_stack l_ids l_cur l_rest l_missing] in E |- *. rewrite E. exists (inr st'). done.
  - destruct ((stateOf (l_target st) (clientOf h) - Clock (getID h) =? 0) || (stateOf (l_target st) (clientOf h) - Clock (getID h) <? structLength h)) eqn:Eo.
    + set (o := stateOf (l_target st) (clientOf h) - Clock (getID h)) in *. destruct (flight_struct _ _ h Hj Hhf) as (l & HR & Hhl). destruct (struct_of _ _ _ HR Hhl) as [_ Hlen].
      assert (Hap : applicable (stateOf t) h o).
      { split_and!; [done|fold (clientOf h); rewrite Hst; unfold o; lia|lia|unfold o in *; lia|]. rewrite <- Hms. by apply waitsFor_same. }
      destruct (integrate_spec h o t Hap) as (t' & Ei & Hs'). rewrite Ei. eexists. split; [reflexivity|]. split; [|done].
      change (with_target t' (with_target t st)) with (with_target t' st). apply (done_good h st t'); [by eapply applied_struct|done| | |].
      * intros c. rewrite Hs', Hst. destruct (Z.eqb_spec c (Client (getID h))) as [->|]; [|lia]. fold (clientOf h). unfold struct_end. unfold o in *. lia.
      * intros c Hne. rewrite Hs', Hst. destruct (Z.eqb_spec c (Client (getID h))); done.
      * right. rewrite Hs'. unfold clientOf. rewrite Z.eqb_refl. done.
    + exists (inr (with_target t st)). split; [done|]. split; [|done]. apply (done_good h st t); [done|done|intros c; by rewrite Hst|by intros c _|]. right. rewrite Hst. unfold struct_end. lia.
Qed.

(** The next client with something to read. *)
Lemma getNext_spec fl st ids : inv_loop fl st -> ids ⊆ l_ids st -> (forall c r, l_refs st !! c = Some r -> c ∉ ids -> sr_i r = Z.of_nat (length (sr_refs r))) ->
  (getNextStructTarget (l_refs st) ids = Ok (None, []) /\ forall c, unreadOf (l_refs st) c = []) \/
  exists c ids', getNextStructTarget (l_refs st) ids = Ok (Some c, ids') /\ hasNext (l_refs st) c = true /\ ids' ⊆ l_ids st /\
    forall c r, l_refs st !! c = Some r -> c ∉ ids' -> sr_i r = Z.of_nat (length (sr_refs r)).
Proof.
  intros Hj. induction ids as [|c ids IH]; intros Hsub Hids.
  - left. split; [done|]. intros c. unfold unreadOf. destruct (l_refs st !! c) as [r|] eqn:Er; [|done]. rewrite (Hids c r Er); [|apply not_elem_of_nil]. apply drop_ge. lia.
  - cbn [getNextStructTarget]. destruct (j_known _ _ Hj c) as [r Er]; [apply Hsub; by left|]. rewrite Er. destruct (Z.eqb_spec (Z.of_nat (length (sr_refs r))) (sr_i r)) as [E|E].
    + apply IH; [intros x Hx; apply Hsub; by right|]. intros c' r' Hr' Hn. destruct (decide (c' = c)) as [->|Hne]; [congruence|]. apply (Hids c' r' Hr'). by intros [?|?]%elem_of_cons.
    + right. exists c, (c :: ids). split_and!; [done| |done|done]. unfold hasNext. rewrite Er. apply negb_true_iff, Z.eqb_neq. done.
Qed.

Lemma read_spec st c ids : good [] st -> l_stack st = [] -> hasNext (l_refs st) c = true -> ids ⊆ l_ids st ->
  (forall c r, l_refs st !! c = Some r -> c ∉ ids -> sr_i r = Z.of_nat (length (sr_refs r))) ->
  exists s refs, takeNext (l_refs st) c = Ok (s, refs) /\
    let st' := mkLoop (l_target st) refs ids (Some c) [] (l_rest st) (l_missing st) in good ([] ++ [s]) st' /\ head_ok s st' /\ (measure st' < measure st)%nat.
Proof.
  intros (Hj & Hw & Hs & Hc) Hstk Hn Hsub Hids. apply (hasNext_spec _ _ _ Hj) in Hn as (r & Hr & Hi). destruct (takeNext_spec _ _ _ Hr Hi) as (s & Et & Hl).
  exists s. eexists. split; [exact Et|]. cbn zeta. set (st' := mkLoop _ _ ids _ _ _ _).
  destruct (take_inv [] st st' c r s Hj Hr Hl ltac:(lia) (not_elem_of_nil _) eq_refl eq_refl eq_refl Hids Hsub) as [Hj' Hsc]. split_and!.
  - split_and!; [done| |split; constructor|done]. intros c' k Hm. destruct (Hw c' k Hm) as (? & Hu & _).
    assert (c' <> c) by (intros ->; unfold unreadOf in Hu; rewrite Hr in Hu; rewrite (drop_S _ _ _ Hl) in Hu; done).
    split_and!; [done|unfold unreadOf; cbn [st' l_refs]; by rewrite lookup_insert_ne|]. cbn. rewrite Hsc. by intros ->%list_elem_of_singleton.
  - intros _. constructor.
  - unfold measure. rewrite Hstk. cbn [st' l_refs l_stack length]. pose proof (take_total _ _ _ Hr Hi). lia.
Qed.

Lemma advance_spec st : good (l_stack st) st ->
  exists r, advance st = Ok r /\
    match r with
    | None => l_stack st = [] /\ forall c, unreadOf (l_refs st) c = []
    | Some (h, st') => good (l_stack st' ++ [h]) st' /\ head_ok h st' /\ (measure st' < measure st)%nat
    end.
Proof.
  intros Hg. unfold advance. destruct (l_stack st) as [|x stk _] eqn:Es using rev_ind.
  - cbn [list.last]. pose proof Hg as (Hj & _). assert (Hread : forall c ids, hasNext (l_refs st) c = true -> ids ⊆ l_ids st ->
      (forall c r, l_refs st !! c = Some r -> c ∉ ids -> sr_i r = Z.of_nat (length (sr_refs r))) ->
      exists r, match takeNext (l_refs st) c with Ok (s, refs) => Ok (Some (s, mkLoop (l_target st) refs ids (Some c) [] (l_rest st) (l_missing st))) | Err e => Err e end = Ok (Some r) /\
        good (l_stack r.2 ++ [r.1]) r.2 /\ head_ok r.1 r.2 /\ (measure r.2 < measure st)%nat).
    { intros c ids Hn Hsub Hids. destruct (read_spec st c ids Hg Es Hn Hsub Hids) as (s & refs & -> & Hr). eexists (_, _). split; [reflexivity|]. done. }
    assert (Hnext : exists r, match getNextStructTarget (l_refs st) (l_ids st) with
      | Err e => Err e | Ok (None, _) => Ok None
      | Ok (Some c, ids) => match takeNext (l_refs st) c with Ok (s, refs) => Ok (Some (s, mkLoop (l_target st) refs ids (Some c) [] (l_rest st) (l_missing st))) | Err e => Err e end end = Ok r /\
      match r with None => forall c, unreadOf (l_refs st) c = [] | Some (h, st') => good (l_stack st' ++ [h]) st' /\ head_ok h st' /\ (measure st' < measure st)%nat end).
    { destruct (getNext_spec [] st (l_ids st) Hj ltac:(done) (j_ids _ _ Hj)) as [[-> Hu]|(c & ids & -> & Hn & Hsub & Hids)]; [by exists None|].
      destruct (Hread c ids Hn Hsub Hids) as ([h st'] & E & Hr). exists (Some (h, st')). done. }
    destruct Hnext as (r & En & Hr). destruct (l_cur st) as [c|].
    + destruct (hasNext (l_refs st) c) eqn:Eh; [|exists r; split; [exact En|]; by destruct r as [[]|]].
      destruct (Hread c (l_ids st) Eh ltac:(done) (j_ids _ _ Hj)) as ([h st'] & E & Hr'). exists (Some (h, st')). done.
    + exists r. split; [exact En|]. by destruct r as [[]|].
  - rewrite last_snoc. eexists. split; [reflexivity|]. cbn beta iota. assert (take (length (stk ++ [x]) - 1) (stk ++ [x]) = stk) as -> by (rewrite length_app; cbn; by rewrite Nat.add_sub, take_app_length).
    destruct Hg as (Hj & Hw & [Hs1 Hs2] & Hc). rewrite Es in Hs1, Hs2. apply Forall_app in Hs1 as [Hs1 _]. apply StronglySorted_app in Hs2 as (Hx & Hs2 & _). split_and!.
    + cbn [l_stack]. split_and!; [by destruct Hj; constructor|done|done|done].
    + intros _. cbn [l_stack]. apply list.Forall_forall. intros s Hs. apply Hx; [done|by left].
    + unfold measure. cbn [l_refs l_stack]. rewrite Es, length_app. cbn. lia.
Qed.

(** The loop ends with nothing in flight and nothing unread. *)
Lemma integrateLoop_spec fuel : forall h st, good (l_stack st ++ [h]) st -> head_ok h st -> (measure st < fuel)%nat ->
  exists st', integrateLoop fuel h st = Ok st' /\ good [] st' /\ forall c, unreadOf (l_refs st') c = [].
Proof.
  induction fuel as [|fuel IH]; intros h st Hg Hh Hm; [lia|]. cbn [integrateLoop]. destruct (process_spec h st Hg Hh) as (r & Ep & Hr). rewrite Ep. destruct r as [[h' st']|st'].
  - destruct Hr as (Hg' & Hh' & Hlt). apply IH; [done|done|lia].
  - destruct Hr as (Hg' & Hle). destruct (advance_spec st' Hg') as (a & Ea & Ha). rewrite Ea. destruct a as [[h'' st'']|].
    + destruct Ha as (Hg'' & Hh'' & Hlt). apply IH; [done|done|lia].
    + destruct Ha as [Es Hu]. exists st'. rewrite Es in Hg'. done.
Qed.

End Invariant.

(** ** The result *)
Section Result.
Context {T : Type} `{IntegrationLaws T} (t : T) (R : gmap Z (list wireStruct)) (rank : ID -> nat).
Context (Hok : update_ok R) (Hcausal : causal R rank).

Abbreviation refs0 := ((fun l => mkRef l 0) <$> R).
Abbreviation ids0 := (descending (elements (dom R))).

Lemma ids0_elem c : c ∈ ids0 <-> is_Some (R !! c).
Proof. unfold descending. rewrite merge_sort_Permutation, elem_of_elements, elem_of_dom. done. Qed.

Lemma initial_good : good t R rank [] (mkLoop t refs0 ids0 None [] newStructStore ∅).
Proof.
  split_and!.
  - constructor; cbn [l_refs l_ids l_target l_rest].
    + intros c r. rewrite lookup_fmap. destruct (R !! c) as [l|]; [|done]. intros [= <-]. cbn. split; [done|lia].
    + by intros s ?%not_elem_of_nil.
    + constructor.
    + intros c l s Hl Hs. left. unfold unreadOf. rewrite lookup_fmap, Hl. cbn. by rewrite drop_0.
    + intros c r Hr Hn. exfalso. apply Hn, ids0_elem. rewrite lookup_fmap in Hr. destruct (R !! c); [by eexists|done].
    + intros c [l Hl]%ids0_elem. exists (mkRef l 0). by rewrite lookup_fmap, Hl.
    + intros c l. cbn. by rewrite lookup_empty.
    + intros c. lia.
    + constructor.
  - intros c k. cbn. by rewrite lookup_empty.
  - split; constructor.
  - split; done.
Qed.

(** What the integration of an update gives: it ends, without a panic; the
    target has taken structs in causal order; each struct is known or set aside;
    and what is set aside waits for a clock that has not arrived. *)
Definition accounted (t' : T) (rest : option (structStore wireStruct * gmap Z Z)) : Prop :=
  (forall c, stateOf t c <= stateOf t' c) /\ appliedFrom R t t' /\
  (forall c l s, R !! c = Some l -> s ∈ l -> isSkip s = false ->
     struct_end s <= stateOf t' c \/ exists ss sv l', rest = Some (ss, sv) /\ clients ss !! c = Some l' /\ s ∈ l') /\
  (forall ss sv, rest = Some (ss, sv) -> sv <> ∅ /\ (forall c k, sv !! c = Some k -> stateOf t' c <= k) /\
     forall c l', clients ss !! c = Some l' -> l' <> [] /\ exists l n, R !! c = Some l /\ l' = drop n l) /\
  (complete t R -> rest = None).

Lemma integrated : exists t' rest, integrateStructs t R = Ok (t', rest) /\ accounted t' rest.
Proof.
  pose proof initial_good as Hg. pose proof Hg as (Hj & _). unfold integrateStructs, accounted.
  destruct (getNext_spec t R [] _ ids0 Hj (reflexivity ids0) (j_ids _ _ _ _ Hj)) as [[E Hu]|(c & ids & E & Hn & Hsub & Hids)]; cbn [l_refs] in *; rewrite E.
  - exists t, None. split_and!; [done|intros c; lia|constructor| |done|done]. intros c l s Hl Hs _. exfalso. specialize (Hu c). unfold unreadOf in Hu. rewrite lookup_fmap, Hl in Hu. cbn in Hu. rewrite drop_0 in Hu. subst l. by apply not_elem_of_nil in Hs.
  - destruct (read_spec t R rank Hok _ c ids Hg eq_refl Hn Hsub Hids) as (h & refs & Et & Hg' & Hh & Hm). cbn [l_refs] in Et. rewrite Et. cbn [l_target l_rest l_missing] in *.
    assert (Hfuel : (measure (mkLoop t refs0 ids0 None [] newStructStore ∅) <= integrateFuel refs0)%nat).
    { unfold measure, integrateFuel, totalLeft. cbn [l_refs l_stack length]. enough (sum_list_with (fun p => refsLeft p.2) (map_to_list refs0) <= sum_list_with (fun p => length (sr_refs p.2)) (map_to_list refs0))%nat by lia.
      induction (map_to_list refs0) as [|p L IH]; [done|]. cbn. unfold refsLeft at 1. lia. }
    destruct (integrateLoop_spec t R rank Hok Hcausal (integrateFuel refs0) h (mkLoop t refs ids (Some c) [] newStructStore ∅) Hg' Hh) as (st & El & (Hj' & Hw & _ & [Hc1 Hc2]) & Hu); [lia|]. rewrite El.
    exists (l_target st). eexists. split; [reflexivity|]. split_and!.
    + apply Hj'.
    + apply Hj'.
    + intros c' l s Hl Hs Hsk. destruct (j_all _ _ _ _ Hj' _ _ _ Hl Hs) as [Hin|[Hin|[?|[?|Hin]]]]; [rewrite Hu in Hin; by apply not_elem_of_nil in Hin|by apply not_elem_of_nil in Hin|congruence|by left|right].
      unfold rest_of in Hin. destruct (clients (l_rest st) !! c') as [l'|] eqn:El'; [|by apply not_elem_of_nil in Hin].
      exists (l_rest st), (l_missing st), l'. rewrite bool_decide_false; [done|]. intros E0. by rewrite E0, lookup_empty in El'.
    + intros ss sv. case_bool_decide as Hne; [done|]. intros [= <- <-]. split_and!.
      * intros E0. by apply Hne, Hc2.
      * intros c' k Hk. by destruct (Hw c' k Hk).
      * intros c' l' Hl'. by destruct (j_rest _ _ _ _ Hj' _ _ Hl') as (_ & ? & ?).
    + intros Hcomp. by rewrite bool_decide_true by by apply Hc1.
Qed.

End Result.

(** C18. [integrateStructs] accounts for every struct of an update: for structs
    that are contiguous within their clients and whose dependencies have no
    cycle, the loop ends without a panic; the document only grows, by structs of
    the update that were taken when their dependencies were there; each struct
    is known afterwards or set aside; what is set aside is the end of its
    client's list and waits for a clock that the document has not reached; and
    when the update has all it needs nothing is set aside. *)
Theorem update_structs_accounted {T : Type} `{IntegrationLaws T} (t : T) (R : gmap Z (list wireStruct)) (rank : ID -> nat) :
  update_ok R -> causal R rank -> exists t' rest, integrateStructs t R = Ok (t', rest) /\ accounted t R t' rest.
Proof. apply integrated. Qed.
