(* ===== verification/ApplyUpdate.v ===== *)
(** * Applying an update

    Models [readUpdateV2] of crdt/merge.go and [readAndApplyDeleteSet] of
    crdt/delete_set.go: the structs of an update are integrated, those that wait
    for others are kept as pending structs, ranges deleted before their structs
    arrive are kept as the pending delete set, and both are tried again when an
    update brings what they wait for.

    The integrated document is an interface ([IntegrationTarget] with
    [DeletionTarget]), and so are the encoded buffers that hold what is pending
    ([PendingCodec]). A failed update gives an error and no document: the code
    asks its callers to resynchronise then. *)
From S2P Require Import Prelude Lib0 Rle Object Any Text StringColumn StructStore DeleteSet DeleteSetCodec UpdateCodec Content StructCodec Consume UpdateStream UpdateMerge LazyUpdate EncodedUpdates Pending.

(** ** The interfaces *)

(** Deletion of a range of clocks of a client that the store has. *)
Class DeletionTarget (T : Type) := {
  hasClient : T -> Z -> bool;
  applyDeleteRange : Z -> Z -> Z -> T -> result T
}.

(** The buffers of the store: [pendingStructs.update], an update in the first
    format with no deletions, and [pendingDeleteSet], an update in the second
    format with no structs. [encodePendingDs] has no result where the code drops
    the pending delete set. *)
Class PendingCodec (B : Type) := {
  encodeRest : structStore wireStruct -> result B;
  decodeRest : B -> result (gmap Z (list wireStruct));
  mergeRests : B -> B -> result B;
  encodePendingDs : deleteSet -> option B;
  decodePendingDs : B -> result (list (Z * list deleteItem));
  mergePendingDs : B -> B -> result B
}.

(** What the decoder of an update reads: the structs, and after them the delete
    set. *)
Record updateIn := mkIn { in_refs : result (gmap Z (list wireStruct)); in_deletes : result (list (Z * list deleteItem)) }.

Definition readUpdateIn {D} `{UpdateDecoder D} `{JSONText} (decoder : D) : updateIn :=
  let '(refs, d) := readClientsStructRefs decoder in mkIn refs (readDeleteSetOrdered d).1.

Section Apply.
Context {T B : Type} `{IntegrationTarget T} `{DeletionTarget T} `{PendingCodec B}.

Record pendingStructsResult := mkPending { ps_missing : gmap Z Z; ps_update : B }.

Record docState := mkDocState { d_target : T; d_pendingStructs : option pendingStructsResult; d_pendingDeleteSet : option B }.

(** ** The delete set *)

(** One range: what is known is deleted, the rest is kept. *)
Definition applyRange (client : Z) (ok : bool) (state : Z) (acc : T * deleteSet) (del : deleteItem) : result (T * deleteSet) :=
  let '(t, unapplied) := acc in
  match addClock (di_clock del) (di_length del) with
  | Err e => Err e
  | Ok clockEnd =>
      if ok && (di_clock del <? state) then
        let unapplied := if state <? clockEnd then addToDeleteSet unapplied client state (clockEnd - state) else unapplied in
        match applyDeleteRange client (di_clock del) clockEnd t with Ok t => Ok (t, unapplied) | Err e => Err e end
      else Ok (t, addToDeleteSet unapplied client (di_clock del) (clockEnd - di_clock del))
  end.

Fixpoint foldResult {A X} (f : A -> X -> result A) (l : list X) (a : A) : result A :=
  match l with
  | [] => Ok a
  | x :: l' => match f a x with Ok a => foldResult f l' a | Err e => Err e end
  end.

(** One client: the list and the state are looked up before its ranges. *)
Definition applyBlock (acc : T * deleteSet) (block : Z * list deleteItem) : result (T * deleteSet) :=
  let '(client, ranges) := block in
  foldResult (applyRange client (hasClient acc.1 client) (stateOf acc.1 client)) ranges acc.

(** [readAndApplyDeleteSet], from what the decoder reads. *)
Definition readAndApplyDeleteSet (decoded : result (list (Z * list deleteItem))) (t : T) : result (T * option B) :=
  match decoded with
  | Err e => Err e
  | Ok blocks =>
      match foldResult applyBlock blocks (t, newDeleteSet) with
      | Err e => Err e
      | Ok (t, unappliedDS) =>
          Ok (t, if bool_decide (ds_clients unappliedDS = ∅) then None else encodePendingDs unappliedDS)
      end
  end.

(** ** The update *)

(** The structs set aside, encoded. *)
Definition restOf (rest : option (structStore wireStruct * gmap Z Z)) : result (option pendingStructsResult) :=
  match rest with
  | None => Ok None
  | Some (restStructs, missingSV) => match encodeRest restStructs with Ok update => Ok (Some (mkPending missingSV update)) | Err e => Err e end
  end.

(** Something that is waited for has arrived. *)
Definition canRetry (t : T) (missing : gmap Z Z) : bool :=
  bool_decide (Exists (fun '(client, clock) => clock < stateOf t client) (map_to_list missing)).

(** The smaller clock for every client. *)
Definition mergeMissing (missing rest : gmap Z Z) : gmap Z Z := union_with (fun mclock clock => Some (if clock <? mclock then clock else mclock)) missing rest.

Definition mergePendingStructs (pending : option pendingStructsResult) (rest : option pendingStructsResult) : result (option pendingStructsResult) :=
  match pending, rest with
  | None, _ => Ok rest
  | Some p, None => Ok (Some p)
  | Some p, Some r =>
      match mergeRests (ps_update p) (ps_update r) with
      | Ok merged => Ok (Some (mkPending (mergeMissing (ps_missing p) (ps_missing r)) merged))
      | Err e => Err e
      end
  end.

(** The delete set of the update, and the pending one again. *)
Definition applyDeleteSets (decoded : result (list (Z * list deleteItem))) (pendingDs : option B) (t : T) : result (T * option B) :=
  match readAndApplyDeleteSet decoded t with
  | Err e => Err e
  | Ok (t, dsRest) =>
      match pendingDs with
      | None => Ok (t, dsRest)
      | Some b =>
          match readAndApplyDeleteSet (decodePendingDs b) t with
          | Err e => Err e
          | Ok (t, dsRest2) =>
              match dsRest, dsRest2 with
              | Some d1, Some d2 => match mergePendingDs d1 d2 with Ok d => Ok (t, Some d) | Err e => Err e end
              | Some d1, None => Ok (t, Some d1)
              | None, d2 => Ok (t, d2)
              end
          end
      end
  end.

(** [readUpdateV2]; [depth] bounds the nested retries. *)
Fixpoint readUpdateV2 (depth : nat) (u : updateIn) (doc : docState) : result docState :=
  match depth with
  | O => Err ErrDepth
  | S depth' =>
      match in_refs u with
      | Err e => Err e
      | Ok ss =>
          match integrateStructs (d_target doc) ss with
          | Err e => Err e
          | Ok (t, rest) =>
              match restOf rest with
              | Err e => Err e
              | Ok restStructs =>
                  let pending := d_pendingStructs doc in
                  let retry := match pending with Some p => canRetry t (ps_missing p) | None => false end in
                  match mergePendingStructs pending restStructs with
                  | Err e => Err e
                  | Ok pending =>
                      match applyDeleteSets (in_deletes u) (d_pendingDeleteSet doc) t with
                      | Err e => Err e
                      | Ok (t, pendingDs) =>
                          if retry then
                            match pending with
                            | None => Err ErrPanic
                            | Some p => readUpdateV2 depth' (mkIn (decodeRest (ps_update p)) (Ok [])) (mkDocState t None pendingDs)
                            end
                          else Ok (mkDocState t pending pendingDs)
                      end
                  end
              end
          end
      end
  end.

(** A retry has no pending structs and does not retry. *)
Definition applyUpdateWith (u : updateIn) (doc : docState) : result docState := readUpdateV2 2 u doc.

Definition applyUpdates (us : list updateIn) (doc : docState) : result docState := foldResult (fun doc u => applyUpdateWith u doc) us doc.

End Apply.
Arguments pendingStructsResult B : clear implicits.
Arguments docState T B : clear implicits.

(** ** What the interfaces promise *)
Definition known {T} `{IntegrationTarget T} (t : T) (id : ID) : Prop := Clock id < stateOf t (Client id).

(** The elements of an update and of a delete set. *)
Definition inUpdate (R : gmap Z (list wireStruct)) (id : ID) : Prop :=
  exists l s, R !! Client id = Some l /\ s ∈ l /\ isSkip s = false /\ Clock (getID s) <= Clock id < struct_end s.

Definition range_ok (it : deleteItem) : Prop := 0 <= di_clock it /\ 0 < di_length it /\ di_clock it + di_length it <= maxSafeInteger.
Definition in_range (it : deleteItem) (k : Z) : Prop := di_clock it <= k < di_clock it + di_length it.
Definition blocks_ok (blocks : list (Z * list deleteItem)) : Prop := Forall (fun b => Forall range_ok b.2) blocks.
Definition inBlocks (blocks : list (Z * list deleteItem)) (id : ID) : Prop :=
  exists ranges it, (Client id, ranges) ∈ blocks /\ it ∈ ranges /\ in_range it (Clock id).

Definition ds_carried (ds : deleteSet) : Prop := forall c, Forall range_ok (ds_items ds c).
Definition inDs (ds : deleteSet) (id : ID) : Prop := exists it, it ∈ ds_items ds (Client id) /\ in_range it (Clock id).

Class DeletionLaws (T : Type) `{IntegrationTarget T} `{DeletionTarget T} := {
  deletedAt : T -> ID -> Prop;
  has_client t c : 0 < stateOf t c -> hasClient t c = true;
  delete_spec c k e t : hasClient t c = true -> 0 <= k < stateOf t c -> k < e -> exists t', applyDeleteRange c k e t = Ok t' /\
    (forall c, stateOf t' c = stateOf t c /\ hasClient t' c = hasClient t c) /\ (forall id, deletedAt t id -> deletedAt t' id) /\
    (forall j, k <= j < e -> j < stateOf t c -> deletedAt t' (GenID c j));
  missing_deleted s t id : deletedAt t id -> deletedAt (missingOf s t).2 id;
  integrate_deleted s o t t' id : integrateOf s o t = Ok t' -> deletedAt t id -> deletedAt t' id
}.

(** A map of suffixes. *)
Definition suffixes (R R' : gmap Z (list wireStruct)) : Prop := forall c l', R' !! c = Some l' -> exists l n, R !! c = Some l /\ l' = drop n l.

(** The buffers keep the elements of updates that are in order ([fit] is what
    the format can carry). *)
Class PendingLaws (B : Type) `{PendingCodec B} (rank : ID -> nat) := {
  fit : gmap Z (list wireStruct) -> Prop;
  carried (R : gmap Z (list wireStruct)) : Prop := update_ok R /\ causal R rank /\ fit R;
  fit_suffix R R' : fit R -> suffixes R R' -> fit R';
  rest_law ss : carried (clients ss) -> exists b R, encodeRest ss = Ok b /\ decodeRest b = Ok R /\ carried R /\ forall id, inUpdate R id <-> inUpdate (clients ss) id;
  merge_law b1 b2 R1 R2 : decodeRest b1 = Ok R1 -> decodeRest b2 = Ok R2 -> carried R1 -> carried R2 ->
    exists b R, mergeRests b1 b2 = Ok b /\ decodeRest b = Ok R /\ carried R /\ forall id, inUpdate R id <-> inUpdate R1 id \/ inUpdate R2 id;
  ds_law ds : ds_carried ds -> exists b bl, encodePendingDs ds = Some b /\ decodePendingDs b = Ok bl /\ blocks_ok bl /\ forall id, inBlocks bl id <-> inDs ds id;
  ds_merge_law b1 b2 l1 l2 : decodePendingDs b1 = Ok l1 -> decodePendingDs b2 = Ok l2 -> blocks_ok l1 -> blocks_ok l2 ->
    exists b bl, mergePendingDs b1 b2 = Ok b /\ decodePendingDs b = Ok bl /\ blocks_ok bl /\ forall id, inBlocks bl id <-> inBlocks l1 id \/ inBlocks l2 id
}.

(** ** Deleting *)
Section Deletes.
Context {T B : Type} `{IntegrationTarget T} `{!DeletionTarget T} `{!DeletionLaws T} `{PendingCodec B} (rank : ID -> nat) `{!PendingLaws B rank}.

(** The targets have the same structs, and what was deleted still is. *)
Definition same_structs (t t' : T) : Prop := (forall c, stateOf t' c = stateOf t c /\ hasClient t' c = hasClient t c) /\ forall id, deletedAt t id -> deletedAt t' id.

#[local] Instance same_structs_preorder : PreOrder same_structs.
Proof.
  split; [by intros t|]. intros t1 t2 t3 [Hs1 Hd1] [Hs2 Hd2]. split; [intros c; destruct (Hs1 c), (Hs2 c); split; congruence|by intros id ?%Hd1%Hd2].
Qed.

(** What happens to the elements of the ranges: they are deleted or kept, and
    what is kept is not known. *)
Definition dealt (t' : T) (ds ds' : deleteSet) (P : ID -> Prop) : Prop :=
  ds_carried ds' /\ (forall id, P id -> deletedAt t' id \/ inDs ds' id) /\ (forall id, inDs ds id -> inDs ds' id) /\
  (forall id, inDs ds' id -> inDs ds id \/ (P id /\ ~ known t' id)).

Lemma inDs_add ds c k n id : inDs (addToDeleteSet ds c k n) id <-> inDs ds id \/ (Client id = c /\ k <= Clock id < k + n).
Proof.
  unfold inDs. rewrite addToDeleteSet_items. setoid_rewrite elem_of_app. split.
  - intros (it & [Hi|Hi] & Hr); [left; by exists it|]. case_decide; [|by apply not_elem_of_nil in Hi]. apply list_elem_of_singleton in Hi as ->. by right.
  - intros [(it & Hi & Hr)|[Hc Hk]]; [exists it; split; [by left|done]|]. exists (newDeleteItem k n). split; [|done]. right. rewrite decide_True by done. by left.
Qed.

Lemma carried_add ds c k n : ds_carried ds -> range_ok (newDeleteItem k n) -> ds_carried (addToDeleteSet ds c k n).
Proof. intros Hd Hr c'. rewrite addToDeleteSet_items. apply Forall_app_2; [apply Hd|]. case_decide; [by apply Forall_singleton|done]. Qed.

Lemma applyRange_spec client ok state t ds del : range_ok del -> ds_carried ds -> ok = hasClient t client -> state = stateOf t client ->
  exists t' ds', applyRange client ok state (t, ds) del = Ok (t', ds') /\ same_structs t t' /\
    dealt t' ds ds' (fun id => Client id = client /\ in_range del (Clock id)).
Proof.
  intros Hr Hds -> ->. pose proof Hr as (Hz & Hl & Hm). unfold applyRange, dealt.
  assert (addClock (di_clock del) (di_length del) = Ok (di_clock del + di_length del)) as -> by (apply addClock_safe; unfold is_safe; lia).
  destruct (hasClient t client && (di_clock del <? stateOf t client)) eqn:E.
  - apply andb_true_iff in E as [Ehas Elt%Z.ltb_lt]. destruct (delete_spec client (di_clock del) (di_clock del + di_length del) t Ehas) as (t' & -> & Hs & Hk & Hd); [lia|lia|].
    eexists t', _. split; [reflexivity|]. split; [done|]. unfold in_range, known. destruct (Z.ltb_spec (stateOf t client) (di_clock del + di_length del)) as [Hlt|Hge].
    + split_and!; [apply carried_add; [done|unfold range_ok; cbn; lia]| |intros id ?; apply inDs_add; by left|].
      * intros id [Hc Hi]. rewrite inDs_add. destruct (decide (Clock id < stateOf t client)) as [Hkn|]; [left|right; right; lia].
        replace id with (GenID client (Clock id)) by (destruct id; cbn in *; by subst). apply Hd; lia.
      * intros id [?|[Hc Hi]]%inDs_add; [by left|right]. rewrite (proj1 (Hs _)), Hc. split; [split; [done|lia]|lia].
    + split_and!; [done| |done|by left]. intros id [Hc Hi]. left. replace id with (GenID client (Clock id)) by (destruct id; cbn in *; by subst). apply Hd; lia.
  - eexists t, _. split; [reflexivity|]. split; [reflexivity|]. unfold in_range, known.
    assert (Hun : stateOf t client <= di_clock del).
    { apply andb_false_iff in E as [E|E%Z.ltb_ge]; [|done]. destruct (Z.le_gt_cases (stateOf t client) 0); [lia|]. by rewrite has_client in E. }
    split_and!; [apply carried_add; [done|unfold range_ok; cbn; lia]| |intros id ?; apply inDs_add; by left|].
    + intros id [Hc Hi]. right. apply inDs_add. right. lia.
    + intros id [?|[Hc Hi]]%inDs_add; [by left|right]. rewrite Hc. split; [split; [done|lia]|lia].
Qed.

(** Two parts one after the other. *)
Lemma dealt_both t1 t2 ds ds1 ds2 P Q : same_structs t1 t2 -> dealt t1 ds ds1 P -> dealt t2 ds1 ds2 Q -> dealt t2 ds ds2 (fun id => P id \/ Q id).
Proof.
  unfold dealt, known. intros [Hs Hd] (_ & P1 & P2 & P3) (Hc & Q1 & Q2 & Q3). split_and!; [done| |by intros id ?%P2%Q2|].
  - intros id [[?|?]%P1|?%Q1]; [left; by apply Hd|right; by apply Q2|done].
  - intros id [[?|[? Hn]]%P3|[? ?]]%Q3; [by left|right; split; [by left|by rewrite (proj1 (Hs _))]|right; split; [by right|done]].
Qed.

Lemma dealt_impl t ds ds' P Q : (forall id, P id <-> Q id) -> dealt t ds ds' P -> dealt t ds ds' Q.
Proof. unfold dealt. intros E. setoid_rewrite E. done. Qed.

Lemma dealt_none t ds : ds_carried ds -> dealt t ds ds (fun _ => False).
Proof. intros Hd. split_and!; [done|done|done|by left]. Qed.

Lemma applyRanges_spec client ok state ranges : forall t ds, Forall range_ok ranges -> ds_carried ds -> ok = hasClient t client -> state = stateOf t client ->
  exists t' ds', foldResult (applyRange client ok state) ranges (t, ds) = Ok (t', ds') /\ same_structs t t' /\
    dealt t' ds ds' (fun id => Client id = client /\ exists it, it ∈ ranges /\ in_range it (Clock id)).
Proof.
  induction ranges as [|del ranges IH]; intros t ds Hr Hds Eok Est; cbn [foldResult].
  - exists t, ds. split; [done|]. split; [reflexivity|]. eapply dealt_impl; [|by apply dealt_none]. intros id. cbv beta. split; [done|]. intros (_ & it & Hi & _). by apply not_elem_of_nil in Hi.
  - apply list.Forall_cons in Hr as [Hr Hrs]. destruct (applyRange_spec client ok state t ds del Hr Hds Eok Est) as (t1 & ds1 & E1 & Hs1 & Hd1). rewrite E1.
    destruct (IH t1 ds1) as (t2 & ds2 & E2 & Hs2 & Hd2); [done|apply Hd1|rewrite Eok; symmetry; apply Hs1|rewrite Est; symmetry; apply Hs1|].
    exists t2, ds2. split_and!; [done|by etrans|]. eapply dealt_impl; [|exact (dealt_both _ _ _ _ _ _ _ Hs2 Hd1 Hd2)]. intros id. cbv beta. setoid_rewrite elem_of_cons. naive_solver.
Qed.

Lemma applyBlocks_spec blocks : forall t ds, blocks_ok blocks -> ds_carried ds ->
  exists t' ds', foldResult applyBlock blocks (t, ds) = Ok (t', ds') /\ same_structs t t' /\ dealt t' ds ds' (inBlocks blocks).
Proof.
  induction blocks as [|[client ranges] blocks IH]; intros t ds Hb Hds; cbn [foldResult].
  - exists t, ds. split; [done|]. split; [reflexivity|]. eapply dealt_impl; [|by apply dealt_none]. intros id. split; [done|]. intros (ranges & it & Hi & _). by apply not_elem_of_nil in Hi.
  - apply list.Forall_cons in Hb as [Hb Hbs]. unfold applyBlock at 1. cbn [fst]. destruct (applyRanges_spec client _ _ ranges t ds Hb Hds eq_refl eq_refl) as (t1 & ds1 & E1 & Hs1 & Hd1). rewrite E1.
    destruct (IH t1 ds1 Hbs (proj1 Hd1)) as (t2 & ds2 & E2 & Hs2 & Hd2). exists t2, ds2. split_and!; [done|by etrans|].
    eapply dealt_impl; [|exact (dealt_both _ _ _ _ _ _ _ Hs2 Hd1 Hd2)]. intros id. cbv beta. unfold inBlocks. setoid_rewrite elem_of_cons. split.
    + intros [(Hc & it & Hi & Hr)|(rs & it & Hi & Hr)]; [exists ranges, it; split; [left; by rewrite <- Hc|done]|exists rs, it; split; [by right|done]].
    + intros (rs & it & [[= -> ->]|Hi] & Hit & Hr); [left; split; [done|by exists it]|right; by exists rs, it].
Qed.

(** A buffer that holds deletions: all of [P] that are not applied, and none that
    could be. *)
Definition keepsDeletes (t : T) (ds : option B) (P : ID -> Prop) : Prop :=
  match ds with
  | None => forall id, P id -> deletedAt t id
  | Some b => exists bl, decodePendingDs b = Ok bl /\ blocks_ok bl /\ (forall id, P id -> deletedAt t id \/ inBlocks bl id) /\ (forall id, inBlocks bl id -> P id /\ ~ known t id)
  end.

Lemma keeps_impl t t' ds (P Q : ID -> Prop) : same_structs t t' -> (forall id, P id <-> Q id) -> keepsDeletes t ds P -> keepsDeletes t' ds Q.
Proof.
  intros [Hs Hd] E. destruct ds as [b|]; cbn.
  - intros (bl & Eb & Hok & H1 & H2). exists bl. unfold known. split_and!; [done|done|intros id [?|?]%E%H1; [left; by apply Hd|by right]|].
    intros id [? Hn]%H2. split; [by apply E|by rewrite (proj1 (Hs _))].
  - intros Hn id ?%E%Hn. by apply Hd.
Qed.

Lemma readAndApply_spec t blocks : blocks_ok blocks ->
  exists t' rest, readAndApplyDeleteSet (Ok blocks) t = Ok (t', rest) /\ same_structs t t' /\ keepsDeletes t' rest (inBlocks blocks).
Proof.
  intros Hb. unfold readAndApplyDeleteSet. destruct (applyBlocks_spec blocks t newDeleteSet Hb) as (t' & ds & E & Hs & (Hc & H1 & _ & H2)); [intros c; constructor|]. rewrite E.
  eexists t', _. split; [reflexivity|]. split; [done|]. assert (Hnew : forall id, ~ inDs newDeleteSet id) by (intros id (it & Hi & _); by apply not_elem_of_nil in Hi). case_bool_decide as Hemp.
  - cbn. intros id [?|(it & Hi & _)]%H1; [done|]. unfold ds_items in Hi. rewrite Hemp, lookup_empty in Hi. by apply not_elem_of_nil in Hi.
  - destruct (ds_law ds Hc) as (b & bl & Eb & Ed & Hok & Hin). rewrite Eb. cbn. exists bl. split_and!; [done|done|intros id [?|?]%H1; [by left|right; by apply Hin]|].
    intros id Hi%Hin. destruct (H2 id Hi) as [?%Hnew|?]; done.
Qed.

(** The same, before what could be applied is. *)
Definition holdsDeletes (t : T) (ds : option B) (P : ID -> Prop) : Prop :=
  match ds with
  | None => forall id, P id -> deletedAt t id
  | Some b => exists bl, decodePendingDs b = Ok bl /\ blocks_ok bl /\ (forall id, P id -> deletedAt t id \/ inBlocks bl id) /\ (forall id, inBlocks bl id -> P id)
  end.

Lemma keeps_holds t t' ds P : (forall id, deletedAt t id -> deletedAt t' id) -> keepsDeletes t ds P -> holdsDeletes t' ds P.
Proof.
  intros Hd. destruct ds as [b|]; cbn; [|naive_solver]. intros (bl & Eb & Hok & H1 & H2). exists bl. split_and!; [done|done|naive_solver|naive_solver].
Qed.

(** The deletions of the update and the pending ones. *)
Lemma applyDeleteSets_spec t blocks pds P : blocks_ok blocks -> holdsDeletes t pds P ->
  exists t' pds', applyDeleteSets (Ok blocks) pds t = Ok (t', pds') /\ same_structs t t' /\ keepsDeletes t' pds' (fun id => inBlocks blocks id \/ P id).
Proof.
  intros Hb HP. unfold applyDeleteSets. destruct (readAndApply_spec t blocks Hb) as (t1 & d1 & -> & Hs1 & K1). destruct pds as [b|].
  - destruct HP as (bl & Eb & Hok & P1 & P2). rewrite Eb. destruct (readAndApply_spec t1 bl Hok) as (t2 & d2 & -> & Hs2 & K2).
    assert (HPd : forall id, P id -> deletedAt t2 id \/ inBlocks bl id) by (intros id [?|?]%P1; [left; by apply Hs2, Hs1|by right]).
        apply (keeps_impl _ t2 _ _ (inBlocks blocks)) in K1; [|done|done].
    destruct d1 as [b1|], d2 as [b2|].
    + destruct K1 as (l1 & E1 & Ok1 & A1 & B1), K2 as (l2 & E2 & Ok2 & A2 & B2). destruct (ds_merge_law b1 b2 l1 l2 E1 E2 Ok1 Ok2) as (b' & l' & -> & E' & Ok' & Hl').
      eexists t2, _. split; [reflexivity|]. split; [by etrans|]. exists l'. split_and!; [done|done| |].
      * intros id. rewrite Hl'. intros [[?|?]%A1|[?|[?|?]%A2]%HPd]; tauto.
      * intros id [[? ?]%B1|[? ?]%B2]%Hl'; naive_solver.
    + eexists t2, _. split; [reflexivity|]. split; [by etrans|]. destruct K1 as (l1 & E1 & Ok1 & A1 & B1). cbn in K2. exists l1. split_and!; [done|done| |].
      * intros id [[?|?]%A1|[?|?%K2]%HPd]; tauto.
      * intros id [? ?]%B1. naive_solver.
    + eexists t2, _. split; [reflexivity|]. split; [by etrans|]. destruct K2 as (l2 & E2 & Ok2 & A2 & B2). cbn in K1. exists l2. split_and!; [done|done| |].
      * intros id [?%K1|[?|[?|?]%A2]%HPd]; tauto.
      * intros id [? ?]%B2. naive_solver.
    + eexists t2, _. split; [reflexivity|]. split; [by etrans|]. cbn in *. intros id [?%K1|[?|?%K2]%HPd]; done.
  - exists t1, d1. split_and!; [done|done|]. cbn in HP. assert (HP' : forall id, P id -> deletedAt t1 id) by (intros id ?%HP; by apply Hs1). destruct d1 as [b1|]; cbn in *.
    + destruct K1 as (l1 & E1 & Ok1 & A1 & B1). exists l1. split_and!; [done|done|naive_solver|naive_solver].
    + naive_solver.
Qed.

End Deletes.

(** ** Applying *)
Section Applying.
Context {T B : Type} `{IntegrationLaws T} `{!DeletionTarget T} `{!DeletionLaws T} `{PendingCodec B} (rank : ID -> nat) `{!PendingLaws B rank}.

(** The document accounts for the elements [U] and the deletions [P] that it has
    been given: an element is known or pending, what is pending waits for clocks
    that have not arrived, a deletion is applied or waits for its element. *)
Definition keepsStructs (t : T) (pending : option (pendingStructsResult B)) (U : ID -> Prop) : Prop :=
  match pending with
  | None => forall id, U id -> known t id
  | Some p => exists R, decodeRest (ps_update p) = Ok R /\ carried R /\ (forall id, U id -> known t id \/ inUpdate R id) /\ (forall id, inUpdate R id -> U id)
  end.

Definition waiting (t : T) (pending : option (pendingStructsResult B)) : Prop :=
  forall p c k, pending = Some p -> ps_missing p !! c = Some k -> stateOf t c <= k.

Definition docAccounts (U P : ID -> Prop) (doc : docState T B) : Prop :=
  keepsStructs (d_target doc) (d_pendingStructs doc) U /\ waiting (d_target doc) (d_pendingStructs doc) /\ keepsDeletes (d_target doc) (d_pendingDeleteSet doc) P.

Lemma drop_elem {A} n (l : list A) x : x ∈ drop n l -> x ∈ l.
Proof. rewrite <- (take_drop n l) at 2. rewrite elem_of_app. by right. Qed.

Lemma suffix_update_ok R R' : update_ok R -> suffixes R R' -> update_ok R'.
Proof.
  intros Hok Hs c l' Hl'. destruct (Hs c l' Hl') as (l & n & Hl & ->). destruct (Hok c l Hl) as [Hf Hc]. split; [by apply Forall_drop|]. intros j s s'. rewrite !lookup_drop, Nat.add_succ_r. apply Hc.
Qed.

Lemma suffix_causal R R' : causal R rank -> suffixes R R' -> causal R' rank.
Proof.
  intros [Hm Hd] Hs. split; [done|]. intros c l' s d Hl' Hin. destruct (Hs c l' Hl') as (l & n & Hl & ->). apply (Hd c l s d Hl). by eapply drop_elem.
Qed.

Lemma suffix_carried R R' : carried R -> suffixes R R' -> carried R'.
Proof. intros (Hu & Hc & Hf) Hs. split_and!; [by eapply suffix_update_ok|by eapply suffix_causal|by eapply fit_suffix]. Qed.

(** Integrating one update. *)
Lemma integrate_keeps t R : carried R ->
  exists t' rest r, integrateStructs t R = Ok (t', rest) /\ restOf rest = Ok r /\ (forall c, stateOf t c <= stateOf t' c) /\ (forall id, deletedAt t id -> deletedAt t' id) /\
    keepsStructs t' r (inUpdate R) /\ waiting t' r /\ (complete t R -> r = None).
Proof.
  intros (Hok & Hcausal & Hfit). destruct (integrated t R rank Hok Hcausal) as (t' & rest & E & Hgrow & Happ & Hall & Hrest & Hcomp). exists t', rest.
  assert (Hdel : forall id, deletedAt t id -> deletedAt t' id).
  { clear -Happ. induction Happ as [|t t1 s _ IH|t t1 t2 c l s o _ IH _ _ _ Ei]; intros id Hd; [done|by apply missing_deleted, IH|eapply integrate_deleted; [exact Ei|by apply IH]]. }
  assert (Hin : forall id, inUpdate R id -> known t' id \/ exists ss sv, rest = Some (ss, sv) /\ inUpdate (clients ss) id).
  { intros id (l & s & Hl & Hs & Hsk & Hk). destruct (Hall _ _ _ Hl Hs Hsk) as [?|(ss & sv & l' & -> & Hl' & Hs')]; [left; unfold known; lia|right]. exists ss, sv. split; [done|]. by exists l', s. }
  destruct rest as [[ss sv]|]; cbn.
  - destruct (Hrest ss sv eq_refl) as (_ & Hsv & Hsuf). assert (Hs : suffixes R (clients ss)) by (intros c l' Hl'; by destruct (Hsuf c l' Hl')).
    destruct (rest_law ss) as (b & R' & Eb & Ed & Hc & Hel); [by apply (suffix_carried R)|]. rewrite Eb. eexists. split_and!; [done|done|done|done| | |by intros ?%Hcomp].
    + exists R'. split_and!; [done|done| |].
      * intros id [?|(ss' & sv' & [= <- <-] & ?)]%Hin; [by left|right; by apply Hel].
      * intros id (l' & s & Hl' & Hin' & ?)%Hel. destruct (Hs _ _ Hl') as (l & n & Hl & ->). exists l, s. split_and!; [done|by eapply drop_elem|tauto..].
    + intros p c k [= <-]. apply Hsv.
  - eexists. split_and!; [done|done|done|done| |by intros p c k|done]. intros id [?|(ss & sv & [=] & _)]%Hin. done.
Qed.

Lemma keepsStructs_grow t t' p U : (forall c, stateOf t c <= stateOf t' c) -> keepsStructs t p U -> keepsStructs t' p U.
Proof.
  intros Hg. assert (Hk : forall id, known t id -> known t' id) by (intros id; unfold known; specialize (Hg (Client id)); lia). destruct p as [p|]; cbn; [|naive_solver].
  intros (R & ? & ? & ? & ?). exists R. naive_solver.
Qed.

Lemma mergePending_keeps t p1 p2 U1 U2 : keepsStructs t p1 U1 -> keepsStructs t p2 U2 ->
  exists p, mergePendingStructs p1 p2 = Ok p /\ keepsStructs t p (fun id => U2 id \/ U1 id) /\ (waiting t p1 -> waiting t p2 -> waiting t p) /\ (is_Some p1 -> is_Some p).
Proof.
  intros K1 K2. destruct p1 as [p1|]; [destruct p2 as [p2|]|]; cbn in *.
  - destruct K1 as (R1 & E1 & C1 & A1 & B1), K2 as (R2 & E2 & C2 & A2 & B2). destruct (merge_law _ _ R1 R2 E1 E2 C1 C2) as (b & R & Eb & Ed & C & Hel). rewrite Eb.
    eexists. split; [reflexivity|]. split; [|split; [|done]].
    + exists R. split_and!; [done|done|intros id; rewrite Hel; naive_solver|intros id; rewrite Hel; naive_solver].
    + intros W1 W2 p c k [= <-]. cbn. unfold mergeMissing. rewrite lookup_union_with.
      destruct (ps_missing p1 !! c) as [k1|] eqn:Em1, (ps_missing p2 !! c) as [k2|] eqn:Em2; cbn; intros [= <-]; [destruct (_ <? _)|..]; naive_solver.
  - eexists. split; [reflexivity|]. split; [|by split]. destruct K1 as (R & ? & ? & ? & ?). exists R. naive_solver.
  - eexists. split; [reflexivity|]. split; [|split; [done|by intros []]]. destruct p2 as [p2|]; cbn in *; [|naive_solver]. destruct K2 as (R & ? & ? & ? & ?). exists R. naive_solver.
Qed.

Lemma canRetry_false t p : canRetry t (ps_missing p) = false -> waiting t (Some p).
Proof.
  unfold canRetry. rewrite bool_decide_eq_false, list.Exists_exists. intros Hn p' c k [= <-] Hk. apply Z.nlt_ge. intros Hlt. apply Hn. exists (c, k). split; [by apply elem_of_map_to_list|done].
Qed.

(** One round of [readUpdateV2]. *)
Lemma readUpdate_round depth u R blocks doc U P : in_refs u = Ok R -> in_deletes u = Ok blocks -> carried R -> blocks_ok blocks ->
  keepsStructs (d_target doc) (d_pendingStructs doc) U -> keepsDeletes (d_target doc) (d_pendingDeleteSet doc) P ->
  exists t p pds, keepsStructs t p (fun id => inUpdate R id \/ U id) /\ keepsDeletes t pds (fun id => inBlocks blocks id \/ P id) /\
    (forall c, stateOf (d_target doc) c <= stateOf t c) /\ (complete (d_target doc) R -> forall id, inUpdate R id -> known t id) /\
    ((readUpdateV2 (S depth) u doc = Ok (mkDocState t p pds) /\ waiting t p) \/
     (is_Some (d_pendingStructs doc) /\ exists p', p = Some p' /\ readUpdateV2 (S depth) u doc = readUpdateV2 depth (mkIn (decodeRest (ps_update p')) (Ok [])) (mkDocState t None pds))).
Proof.
  intros Er Ed HR Hb KS KD. cbn [readUpdateV2]. rewrite Er, Ed. destruct (integrate_keeps (d_target doc) R HR) as (t1 & rest & r & -> & -> & Hgrow & Hdel & KR & WR & Hcomp).
  destruct (mergePending_keeps t1 (d_pendingStructs doc) r U (inUpdate R) (keepsStructs_grow _ _ _ _ Hgrow KS) KR) as (p & -> & KP & Hw & Hsome).
  destruct (applyDeleteSets_spec rank t1 blocks _ P Hb (keeps_holds _ t1 _ _ Hdel KD)) as (t2 & pds & -> & [Hs _] & KD2).
  assert (Hst : forall c, stateOf t1 c <= stateOf t2 c) by (intros c; rewrite (proj1 (Hs c)); lia).
  exists t2, p, pds. split_and!; [by eapply keepsStructs_grow|done|intros c; specialize (Hgrow c); specialize (Hst c); lia| |].
  { intros Hc id Hid. rewrite (Hcomp Hc) in KR. cbn in KR. specialize (KR id Hid). unfold known in *. specialize (Hst (Client id)). lia. }
  assert (Hsame : forall q, waiting t1 q -> waiting t2 q) by (intros q Hq p' c k Ep Hk; rewrite (proj1 (Hs c)); by eapply Hq).
  destruct (d_pendingStructs doc) as [p0|]; [destruct (canRetry t1 (ps_missing p0)) eqn:Ert|].
  - right. split; [done|]. destruct (Hsome ltac:(done)) as [p' ->]. by exists p'.
  - left. split; [done|]. apply Hsame, Hw; [by apply canRetry_false|done].
  - left. split; [done|]. apply Hsame, Hw; [by intros p' c k|done].
Qed.

(** An update is applied in at most two rounds. *)
Lemma applyUpdate_accounts u R blocks doc U P : in_refs u = Ok R -> in_deletes u = Ok blocks -> carried R -> blocks_ok blocks -> docAccounts U P doc ->
  exists doc', applyUpdateWith u doc = Ok doc' /\ docAccounts (fun id => inUpdate R id \/ U id) (fun id => inBlocks blocks id \/ P id) doc' /\
    (forall c, stateOf (d_target doc) c <= stateOf (d_target doc') c) /\ (complete (d_target doc) R -> forall id, inUpdate R id -> known (d_target doc') id).
Proof.
  intros Er Ed HR Hb (KS & _ & KD). unfold applyUpdateWith. destruct (readUpdate_round 1 u R blocks doc U P Er Ed HR Hb KS KD) as (t & p & pds & KS1 & KD1 & Hg1 & Hc1 & [[-> HW]|(_ & p' & -> & ->)]).
  - eexists. split; [reflexivity|]. by split_and!.
  - destruct KS1 as (R1 & E1 & HR1 & A1 & B1). rewrite E1.
    destruct (readUpdate_round 0 (mkIn (Ok R1) (Ok [])) R1 [] (mkDocState t None pds) (fun id => (inUpdate R id \/ U id) /\ known t id) (fun id => inBlocks blocks id \/ P id) eq_refl eq_refl HR1)
      as (t' & p2 & pds' & KS2 & KD2 & Hg2 & _ & [[-> HW]|([p3 [=]] & _)]); [constructor|cbn; tauto|done|].
    cbn [d_target] in *. eexists. split; [reflexivity|]. split_and!; [split_and!|..]; cbn [d_target d_pendingStructs d_pendingDeleteSet].
    + destruct p2 as [p2|]; cbn in *.
      * destruct KS2 as (R2 & E2 & HR2 & A2 & B2). exists R2. split_and!; [done|done|intros id Hid; destruct (A1 id Hid); naive_solver|intros id [?%B1|[? _]]%B2; done].
      * intros id Hid. apply KS2. destruct (A1 id Hid); tauto.
    + done.
    + apply (keeps_impl t' t' _ _ _ (conj (fun c => conj eq_refl eq_refl) (fun id Hd => Hd))) with (2 := KD2). intros id. cbv beta. split; [|tauto]. intros [(? & ? & Hn & _)|?]; [by apply not_elem_of_nil in Hn|done].
    + intros c. specialize (Hg1 c). specialize (Hg2 c). lia.
    + intros Hc id Hid. specialize (Hc1 Hc id Hid). unfold known in *. specialize (Hg2 (Client id)). lia.
Qed.

Lemma accounts_impl U U' P P' doc : (forall id, U id <-> U' id) -> (forall id, P id <-> P' id) -> docAccounts U P doc -> docAccounts U' P' doc.
Proof.
  intros EU EP (KS & KW & KD). split_and!; [|done|].
  - destruct (d_pendingStructs doc) as [p|]; cbn in *; [|naive_solver]. destruct KS as (R & ? & ? & ? & ?). exists R. naive_solver.
  - by apply (keeps_impl (d_target doc) (d_target doc) _ P P' (conj (fun c => conj eq_refl eq_refl) (fun id Hd => Hd))).
Qed.

Lemma applyAll us inputs : forall doc U P, Forall2 (fun u p => u = mkIn (Ok p.1) (Ok p.2) /\ carried p.1 /\ blocks_ok p.2) us inputs -> docAccounts U P doc ->
  exists doc', applyUpdates us doc = Ok doc' /\ (forall c, stateOf (d_target doc) c <= stateOf (d_target doc') c) /\
    docAccounts (fun id => U id \/ exists p, p ∈ inputs /\ inUpdate p.1 id) (fun id => P id \/ exists p, p ∈ inputs /\ inBlocks p.2 id) doc'.
Proof.
  intros doc U P Hus. revert doc U P. induction Hus as [|u p us inputs (-> & HR & Hb) _ IH]; intros doc U P Ha; unfold applyUpdates; cbn [foldResult].
  - exists doc. split_and!; [done|intros c; lia|]. eapply accounts_impl; [| |exact Ha]; intros id; (split; [by left|]); (intros [?|(p & Hp & _)]; [done|by apply not_elem_of_nil in Hp]).
  - destruct (applyUpdate_accounts (mkIn (Ok p.1) (Ok p.2)) p.1 p.2 doc U P eq_refl eq_refl HR Hb Ha) as (doc1 & -> & Ha1 & Hg1 & _). destruct (IH doc1 _ _ Ha1) as (doc' & E & Hg & Ha').
    exists doc'. split_and!; [done|intros c; specialize (Hg1 c); specialize (Hg c); lia|]. eapply accounts_impl; [| |exact Ha']; intros id; cbv beta; setoid_rewrite elem_of_cons; naive_solver.
Qed.

End Applying.

(** C19. Updates in any order: whatever sequence of well-formed updates a document
    without pending data is given, every one is applied without an error in at
    most two rounds, the clocks only grow, and at the end every element of every
    update is known or held by the pending structs, which wait for clocks the
    document has not reached; every deletion is applied or held by the pending
    delete set, which holds only deletions of elements that are not known. *)
Theorem updates_accounted {T B : Type} `{IntegrationLaws T} `{!DeletionTarget T} `{!DeletionLaws T} `{PendingCodec B} (rank : ID -> nat) `{!PendingLaws B rank}
    (t : T) (us : list updateIn) (inputs : list (gmap Z (list wireStruct) * list (Z * list deleteItem))) :
  Forall2 (fun u p => u = mkIn (Ok p.1) (Ok p.2) /\ carried p.1 /\ blocks_ok p.2) us inputs ->
  exists doc', applyUpdates us (mkDocState (B := B) t None None) = Ok doc' /\ (forall c, stateOf t c <= stateOf (d_target doc') c) /\
    docAccounts rank (fun id => exists p, p ∈ inputs /\ inUpdate p.1 id) (fun id => exists p, p ∈ inputs /\ inBlocks p.2 id) doc'.
Proof.
  intros Hus. destruct (applyAll rank us inputs (mkDocState t None None) (fun _ => False) (fun _ => False) Hus) as (doc' & E & Hg & Ha); [split_and!; [by intros id []|by intros p c k|by intros id []]|].
  exists doc'. split_and!; [done|done|]. eapply accounts_impl; [| |exact Ha]; intros id; cbv beta; naive_solver.
Qed.

(** C20. An update that has all it needs is integrated at once, whatever else is
    pending: if each of its structs continues its client and names only elements
    that the document knows or the update itself brings, then after the update
    every element of it is known. *)
Theorem complete_update_applied {T B : Type} `{IntegrationLaws T} `{!DeletionTarget T} `{!DeletionLaws T} `{PendingCodec B} (rank : ID -> nat) `{!PendingLaws B rank}
    (doc : docState T B) (U P : ID -> Prop) (R : gmap Z (list wireStruct)) (blocks : list (Z * list deleteItem)) :
  docAccounts rank U P doc -> carried R -> blocks_ok blocks -> complete (d_target doc) R ->
  exists doc', applyUpdateWith (mkIn (Ok R) (Ok blocks)) doc = Ok doc' /\ (forall id, inUpdate R id -> known (d_target doc') id) /\
    docAccounts rank (fun id => inUpdate R id \/ U id) (fun id => inBlocks blocks id \/ P id) doc'.
Proof.
  intros Ha HR Hb Hc. destruct (applyUpdate_accounts rank (mkIn (Ok R) (Ok blocks)) R blocks doc U P eq_refl eq_refl HR Hb Ha) as (doc' & E & Ha' & _ & Hk).
  exists doc'. split_and!; [done|by apply Hk|done].
Qed.
