(* ===== verification/PendingModel.v ===== *)
(** * A reference document for pending updates

    Instances of the interfaces of ApplyUpdate.v: a document that keeps the
    clock of each client and the deleted ranges ([clockDoc]), and buffers that
    hold updates as values, merged by the [mergeStructs] of the code
    ([updateValue]). With them the updates of a history can be run. *)
From S2P Require Import Prelude Lib0 Rle Object Any Text StringColumn StructStore DeleteSet DeleteSetCodec UpdateCodec Content StructCodec Consume UpdateStream UpdateMerge LazyUpdate EncodedUpdates Pending ApplyUpdate.

(** ** The document *)
Record clockDoc := mkClockDoc { cd_clocks : gmap Z Z; cd_order : list ID; cd_deleted : list (Z * Z * Z) }.

Definition clockOf (t : clockDoc) (c : Z) : Z := default 0 (cd_clocks t !! c).

Definition emptyClockDoc : clockDoc := mkClockDoc ∅ [] [].

#[global] Instance applicable_dec sv s o : Decision (applicable sv s o).
Proof. unfold applicable. apply _. Defined.

#[global] Instance clockDoc_target : IntegrationTarget clockDoc := {|
  stateOf := clockOf;
  missingOf s t := (waitsFor (clockOf t) s, t);
  integrateOf s o t :=
    if decide (applicable (clockOf t) s o) then Ok (mkClockDoc (<[Client (getID s) := struct_end s]> (cd_clocks t)) (cd_order t ++ [getID s]) (cd_deleted t))
    else Err ErrPanic
|}.

#[global] Instance clockDoc_laws : IntegrationLaws clockDoc.
Proof.
  split; [done|done|]. intros s o t Ha. cbn [integrateOf clockDoc_target]. case_decide as Hd; [|by destruct Hd]. eexists. split; [reflexivity|]. intros c. cbn [stateOf clockDoc_target]. unfold clockOf. cbn [cd_clocks].
  destruct (Z.eqb_spec c (Client (getID s))) as [->|Hne]; [by rewrite lookup_insert_eq|by rewrite lookup_insert_ne].
Qed.

#[global] Instance clockDoc_deletes : DeletionTarget clockDoc := {|
  hasClient t c := bool_decide (is_Some (cd_clocks t !! c));
  applyDeleteRange c k e t := Ok (mkClockDoc (cd_clocks t) (cd_order t) (cd_deleted t ++ [(c, k, e)]))
|}.

#[global] Instance clockDoc_deletion : DeletionLaws clockDoc.
Proof.
  refine {| deletedAt t id := exists k e, (Client id, k, e) ∈ cd_deleted t /\ k <= Clock id < e |}.
  - intros t c Hs. apply bool_decide_eq_true. cbn in Hs. unfold clockOf in Hs. destruct (cd_clocks t !! c); [done|cbn in Hs; lia].
  - intros c k e t _ _ _. eexists. split; [reflexivity|]. split_and!; [done| |].
    + intros id (k' & e' & Hin & Hk). exists k', e'. split; [|done]. apply elem_of_app. by left.
    + intros j Hj _. exists k, e. split; [|done]. apply elem_of_app. right. by left.
  - done.
  - intros s o t t' id E (k & e & Hin & Hk). cbn in E. case_decide; [|done]. injection E as <-. by exists k, e.
Defined.

(** ** Updates as values *)

(** The structs of an update, clients descending, without the skips. *)
Definition flatStructs (R : gmap Z (list wireStruct)) : list wireStruct := descending (elements (dom R)) ≫= fun c => default [] (R !! c).
Definition flatPlain (R : gmap Z (list wireStruct)) : list wireStruct := filter (fun s => isSkip s = false) (flatStructs R).

(** Structs by client. *)
Fixpoint byClient (l : list wireStruct) : gmap Z (list wireStruct) :=
  match l with
  | [] => ∅
  | s :: l' => let m := byClient l' in <[Client (getID s) := s :: default [] (m !! Client (getID s))]> m
  end.

Record updateValue := mkValue { uv_structs : gmap Z (list wireStruct); uv_deletes : list (Z * list deleteItem) }.

#[global] Instance valueCodec : PendingCodec updateValue := {|
  encodeRest ss := Ok (mkValue (clients ss) []);
  decodeRest b := Ok (uv_structs b);
  mergeRests b1 b2 := match mergeStructs [flatPlain (uv_structs b1); flatPlain (uv_structs b2)] with Ok out => Ok (mkValue (byClient out) []) | Err e => Err e end;
  encodePendingDs ds := Some (mkValue ∅ (map_to_list (ds_clients ds)));
  decodePendingDs b := Ok (uv_deletes b);
  mergePendingDs b1 b2 := Ok (mkValue ∅ (uv_deletes b1 ++ uv_deletes b2))
|}.

Lemma byClient_lookup l c : byClient l !! c = match filter (fun s => Client (getID s) = c) l with [] => None | l' => Some l' end.
Proof.
  induction l as [|s l IH]; [done|]. cbn [byClient]. destruct (decide (Client (getID s) = c)) as [<-|Hne].
  - rewrite lookup_insert_eq, filter_cons_True by done. rewrite IH. by destruct (filter _ l).
  - by rewrite lookup_insert_ne, filter_cons_False.
Qed.

Lemma byClient_elem l c s : (exists l', byClient l !! c = Some l' /\ s ∈ l') <-> s ∈ l /\ Client (getID s) = c.
Proof.
  rewrite byClient_lookup. rewrite (and_comm (s ∈ l)). pose proof (list_elem_of_filter (fun s => Client (getID s) = c) l s) as Hf. rewrite <- Hf. clear Hf. destruct (filter _ l) as [|x l'] eqn:E.
  - split; [by intros (? & [=] & _)|]. by intros ?%not_elem_of_nil.
  - split; [by intros (? & [= <-] & ?)|]. intros Hs. by eexists.
Qed.

(** The structs of a client stay together. *)
Lemma chain_client c l : chain l -> Forall (fun s => 0 < structLength s) l ->
  forall j s s', filter (fun s => Client (getID s) = c) l !! j = Some s -> filter (fun s => Client (getID s) = c) l !! S j = Some s' -> struct_end s = Clock (getID s').
Proof.
  induction l as [|x l IH]; intros Hc Hp j s s'; [done|]. pose proof (chain_before x l Hc Hp) as Hbf. pose proof (chain_tail x l Hc) as Hc'. apply list.Forall_cons in Hp as [_ Hp].
  destruct (decide (Client (getID x) = c)) as [Ex|Ex]; [|rewrite filter_cons_False by done; by apply IH].
  rewrite filter_cons_True by done. destruct j as [|j]; [|by apply IH]. intros [= <-] Hs'. change (filter (fun s => Client (getID s) = c) l !! 0%nat = Some s') in Hs'.
  destruct l as [|y l]; [done|]. assert (Hxy : follows x y) by (by apply (Hc 0%nat)). destruct Hxy as [Hlt|[He Hk]].
  - exfalso. assert (Hin : s' ∈ y :: l /\ Client (getID s') = c) by (apply (list_elem_of_lookup_2 _ 0) in Hs'; apply list_elem_of_filter in Hs' as [? ?]; done). destruct Hin as [Hin Es].
    apply elem_of_cons in Hin as [->|Hin]; [lia|]. pose proof (chain_before y l Hc' Hp) as Hy. rewrite list.Forall_forall in Hy. destruct (Hy s' Hin) as [?|[? _]]; lia.
  - rewrite (filter_cons_True (fun s => Client (getID s) = c)) in Hs' by (by rewrite <- He). injection Hs' as <-. done.
Qed.

Lemma byClient_ok l : chain l -> Forall (fun s => 0 < structLength s) l -> update_ok (byClient l).
Proof.
  intros Hc Hp c l'. rewrite byClient_lookup. destruct (filter _ l) as [|x f] eqn:E; [done|]. intros [= <-]. rewrite <- E. split; [|by apply chain_client].
  apply list.Forall_forall. intros s [Hs Hin]%list_elem_of_filter. rewrite list.Forall_forall in Hp. split; [done|by apply Hp].
Qed.

Lemma flat_elem R s : s ∈ flatStructs R <-> exists c l, R !! c = Some l /\ s ∈ l.
Proof.
  unfold flatStructs. rewrite list_elem_of_bind. split.
  - intros (c & Hs & Hc). unfold descending in Hc. rewrite merge_sort_Permutation, elem_of_elements, elem_of_dom in Hc. destruct Hc as [l Hl]. rewrite Hl in Hs. by exists c, l.
  - intros (c & l & Hl & Hs). exists c. rewrite Hl. split; [done|]. unfold descending. rewrite merge_sort_Permutation, elem_of_elements, elem_of_dom. by rewrite Hl.
Qed.

Lemma ordered_filter {A} (P : A -> A -> Prop) (Q : A -> Prop) `{forall x, Decision (Q x)} l : StronglySorted P l -> StronglySorted P (filter Q l).
Proof.
  induction 1 as [|x l _ IH Hf]; [constructor|]. destruct (decide (Q x)); [rewrite filter_cons_True by done|by rewrite filter_cons_False]. constructor; [done|].
  rewrite list.Forall_forall in Hf |- *. intros y [_ Hy]%list_elem_of_filter. by apply Hf.
Qed.

Lemma client_sorted c l : Forall (fun s => Client (getID s) = c /\ 0 < structLength s) l -> (forall j s s', l !! j = Some s -> l !! S j = Some s' -> struct_end s = Clock (getID s')) -> StronglySorted before l.
Proof.
  induction l as [|x l IH]; intros Hf Hc; [constructor|]. assert (Hch : chain (x :: l)).
  { intros i s t Hs Ht. rewrite list.Forall_forall in Hf. right. split; [|by eapply Hc]. transitivity c; [|symmetry]; eapply Hf; by eapply list_elem_of_lookup_2. }
  pose proof Hf as Hp. apply list.Forall_cons in Hf as [Hx Hf]. constructor; [by apply IH; [|intros j; apply (Hc (S j))]|]. apply chain_before; [done|]. eapply Forall_impl; [|exact Hp]. by intros s [_ ?].
Qed.

Lemma flat_sorted R : update_ok R -> StronglySorted before (flatStructs R).
Proof.
  intros Hok. unfold flatStructs. assert (Hs : StronglySorted Z.gt (descending (elements (dom R)))).
  { assert (Hnd : NoDup (descending (elements (dom R)))) by (unfold descending; rewrite merge_sort_Permutation; apply NoDup_elements).
    assert (Hge : StronglySorted Z.ge (descending (elements (dom R)))) by (apply StronglySorted_merge_sort; [intros ? ? ?; lia|intros ? ?; lia]).
    induction Hge as [|x l _ IH Hf]; [constructor|]. apply list.NoDup_cons in Hnd as [Hx Hnd]. constructor; [by apply IH|]. rewrite list.Forall_forall in Hf |- *. intros y Hy. specialize (Hf y Hy).
    assert (x <> y) by (by intros ->). lia. }
  induction Hs as [|c l _ IH Hf]; [constructor|]. rewrite bind_cons. assert (Hcl : forall c s, s ∈ default [] (R !! c) -> Client (getID s) = c).
  { intros c' s Hs. destruct (R !! c') as [l'|] eqn:E; [|by apply not_elem_of_nil in Hs]. destruct (Hok c' l' E) as [Hfa _]. rewrite list.Forall_forall in Hfa. by apply Hfa. }
  apply StronglySorted_app_2; [|destruct (R !! c) as [lc|] eqn:E; [destruct (Hok c lc E); by eapply client_sorted|constructor]|done].
  intros x y Hx (c' & Hy & Hc')%list_elem_of_bind. left. rewrite (Hcl _ _ Hx), (Hcl _ _ Hy). rewrite list.Forall_forall in Hf. specialize (Hf c' Hc'). lia.
Qed.

(** What a merged struct names, a struct of the inputs that begins no later
    names. *)
Lemma view_deps s t k v d : Client (getID s) = Client (getID t) -> k = Clock (getID t) -> elementAt t k = Some v -> elementAt s k = Some v -> d ∈ deps t -> d ∈ deps s.
Proof.
  intros Hc -> Ht Hs Hd. destruct t as [it|gc|sk]; [|by apply not_elem_of_nil in Hd..]. destruct (elementAt_range _ _ _ Hs) as [Hk Hsk]. unfold elementAt in Ht, Hs.
  destruct (_ && _) in Ht; [|done]. destruct (_ && _) in Hs; [|done]. cbn [getID wire_struct] in *. rewrite Z.eqb_refl in Ht. injection Ht as <-.
  destruct s as [it'|gc'|sk']; [|done|done]. injection Hs as Ho Hr Hp _ _. cbn [getID wire_struct] in *. unfold deps in *. apply list_elem_of_filter in Hd as [Hne Hd]. apply list_elem_of_filter. split; [by rewrite Hc|].
  rewrite <- Hr, <- Hp in Hd. rewrite !elem_of_app in *. destruct Hd as [Hd|Hd]; [left|by right].
  rewrite <- Ho in Hd. destruct (_ =? _) in Hd; [done|]. cbn in Hd. apply list_elem_of_singleton in Hd as ->. cbn in Hne. by rewrite Hc in Hne.
Qed.

Lemma Forall_two {A} (P : A -> Prop) a b : P a -> P b -> Forall P [a; b].
Proof. intros Ha Hb. apply Forall_cons_2; [done|]. by apply Forall_singleton. Qed.

Section Laws.
Context `{JSONText} (json_ok : any -> Prop) (rank : ID -> nat).

Definition value_fit (R : gmap Z (list wireStruct)) : Prop := forall c l s, R !! c = Some l -> s ∈ l -> struct_ok json_ok s.

Lemma struct_plain s : struct_ok json_ok s -> isSkip s = false -> 0 < structLength s -> plain s.
Proof.
  intros Hok Hs Hl. split_and!; [done|done|]. destruct s as [it|gc|sk]; [|done|done]. destruct Hok as [_ Hlen _ _ _ _ _ Hc]. split; [|done].
  cbn in Hl. destruct (w_content it); cbn in *; try done; [lia|by destruct Hc].
Qed.

Lemma flat_ready R : update_ok R -> value_fit R -> sorted_update (flatPlain R) /\ Forall (struct_ok json_ok) (flatPlain R) /\ no_skips (flatPlain R).
Proof.
  intros Hok Hf. assert (Hin : forall s, s ∈ flatPlain R -> isSkip s = false /\ struct_ok json_ok s /\ 0 < structLength s).
  { intros s [Hs Hin]%list_elem_of_filter. apply flat_elem in Hin as (c & l & Hl & Hin). destruct (Hok c l Hl) as [Hp _]. rewrite list.Forall_forall in Hp. split_and!; [done|by eapply Hf|by apply Hp]. }
  split_and!; [split; [by apply ordered_filter, flat_sorted|]|..]; apply list.Forall_forall; intros s Hs; destruct (Hin s Hs) as (? & ? & ?); [by apply struct_plain|done|done].
Qed.

Lemma merged_values R1 R2 : update_ok R1 -> update_ok R2 -> causal R1 rank -> causal R2 rank -> value_fit R1 -> value_fit R2 ->
  exists out, mergeStructs [flatPlain R1; flatPlain R2] = Ok out /\ update_ok (byClient out) /\ causal (byClient out) rank /\ value_fit (byClient out) /\
    forall id, inUpdate (byClient out) id <-> inUpdate R1 id \/ inUpdate R2 id.
Proof.
  intros Hok1 Hok2 Hc1 Hc2 Hf1 Hf2. destruct (flat_ready R1 Hok1 Hf1) as (Hs1 & Ho1 & Hn1), (flat_ready R2 Hok2 Hf2) as (Hs2 & Ho2 & Hn2).
  assert (Hrs : Forall sorted_update [flatPlain R1; flatPlain R2]) by by apply Forall_two.
  destruct (merge_result _ Hrs) as (out & Eo & Hch & Hpos & Hsound & Hcov). exists out. split; [done|].
  assert (Hfit : Forall (struct_ok json_ok) out) by (apply (merged_fits json_ok [flatPlain R1; flatPlain R2]); [by apply Forall_two..|done]).
  assert (Hin : forall s, s ∈ mjoin [flatPlain R1; flatPlain R2] <-> isSkip s = false /\ ((exists c l, R1 !! c = Some l /\ s ∈ l) \/ (exists c l, R2 !! c = Some l /\ s ∈ l))).
  { intros s. cbn. rewrite app_nil_r, elem_of_app. unfold flatPlain. rewrite !list_elem_of_filter, !flat_elem. tauto. }
  rewrite list.Forall_forall in Hsound, Hfit. split_and!.
  - by apply byClient_ok.
  - split; [apply Hc1|]. intros c l t d Hl Ht Hd. destruct (proj1 (byClient_elem out c t)) as [Hto _]; [by exists l|].
    destruct (elementAt_plain t (Clock (getID t))) as [v Hv]; [destruct t; [done|done|by apply not_elem_of_nil in Hd]|rewrite list.Forall_forall in Hpos; specialize (Hpos t Hto); unfold struct_end; lia|].
    destruct (Hsound t Hto _ _ Hv) as (s & Hs & Ecs & Hvs). pose proof (view_deps s t _ v d Ecs eq_refl Hv Hvs Hd) as Hds. destruct (elementAt_range _ _ _ Hvs) as [Hk _].
    apply Hin in Hs as [_ Hs]. assert (Hr : (rank d < rank (getID s))%nat) by (destruct Hs as [(c' & l' & Hl' & Hs)|(c' & l' & Hl' & Hs)]; [by eapply (proj2 Hc1)|by eapply (proj2 Hc2)]).
    pose proof (proj1 Hc1 (Client (getID t)) _ _ (proj1 Hk)) as Hm. rewrite <- Ecs in Hm at 1. destruct (getID s), (getID t). cbn in *. lia.
  - intros c l s Hl Hs. apply Hfit. apply (byClient_elem out c s). by exists l.
  - intros id. split.
    + intros (l & t & Hl & Ht & Hsk & Hk). destruct (proj1 (byClient_elem out (Client id) t)) as [Hto Ect]; [by exists l|]. destruct (elementAt_plain t (Clock id) Hsk Hk) as [v Hv].
      destruct (Hsound t Hto _ _ Hv) as (s & Hs & Ecs & Hvs). destruct (elementAt_range _ _ _ Hvs) as [Hks Hss]. apply Hin in Hs as [_ Hs].
      destruct Hs as [(c' & l' & Hl' & Hs)|(c' & l' & Hl' & Hs)]; [left; pose proof (Hok1 c' l' Hl') as [Hp _]|right; pose proof (Hok2 c' l' Hl') as [Hp _]];
        rewrite list.Forall_forall in Hp; destruct (Hp s Hs) as [Ec' _]; exists l', s; (split; [by rewrite <- Ect, <- Ecs, Ec'|done]).
    + intros Hid. assert (Hs : exists s, s ∈ mjoin [flatPlain R1; flatPlain R2] /\ Client (getID s) = Client id /\ Clock (getID s) <= Clock id < struct_end s).
      { destruct Hid as [(l & s & Hl & Hs & Hsk & Hk)|(l & s & Hl & Hs & Hsk & Hk)]; exists s; (split_and!; [apply Hin; split; [done|]; eauto| |lia|lia]);
          [destruct (Hok1 _ _ Hl) as [Hp _]|destruct (Hok2 _ _ Hl) as [Hp _]]; rewrite list.Forall_forall in Hp; by apply Hp. }
      destruct Hs as (s & Hs & Ecs & Hk). destruct (Hcov s (Clock id) Hs Hk) as (t & Ht & Htk & Hct & Hkt). destruct (proj2 (byClient_elem out (Client id) t)) as (l & Hl & Htl); [split; [done|congruence]|].
      by exists l, t.
Qed.

#[global] Instance valueCodec_laws : PendingLaws updateValue rank.
Proof.
  refine {| fit := value_fit |}.
  - intros R R' Hf Hs c l' s Hl' Hin. destruct (Hs c l' Hl') as (l & n & Hl & ->). eapply Hf; [exact Hl|by eapply drop_elem].
  - intros ss Hc. by eexists _, (clients ss).
  - intros b1 b2 R1 R2 [= <-] [= <-] (? & ? & ?) (? & ? & ?). destruct (merged_values (uv_structs b1) (uv_structs b2)) as (out & E & ? & ? & ? & ?); [done..|]. cbn [mergeRests valueCodec]. rewrite E. eexists _, (byClient out). by split_and!.
  - intros ds Hd. eexists _, _. split; [reflexivity|]. split; [reflexivity|]. cbn [uv_deletes]. split.
    + apply list.Forall_forall. intros [c l] Hin%elem_of_map_to_list. specialize (Hd c). unfold ds_items in Hd. by rewrite Hin in Hd.
    + intros id. unfold inBlocks, inDs, ds_items. split.
      * intros (l & it & Hl%elem_of_map_to_list & Hi & Hk). exists it. by rewrite Hl.
      * intros (it & Hi & Hk). destruct (ds_clients ds !! Client id) as [l|] eqn:E; [|by apply not_elem_of_nil in Hi]. exists l, it. split; [by apply elem_of_map_to_list|done].
  - intros b1 b2 l1 l2 [= <-] [= <-] Hb1 Hb2. eexists _, _. split; [reflexivity|]. split; [reflexivity|]. cbn [uv_deletes]. split; [by apply Forall_app_2|].
    intros id. unfold inBlocks. setoid_rewrite elem_of_app. naive_solver.
Defined.

End Laws.

(** ** A history *)

(** Client 5 has sent three characters; client 9 writes after character 5 of
    client 5, which answers at 7 and goes on at 10. *)
Definition after (id : ID) (n : nat) (o : ID) : wireStruct :=
  WItem (mkWire id (Z.of_nat n) (Some o) None NoParent [] (contentString (replicate n 97))).

Definition hist_doc : clockDoc := mkClockDoc {[ 5 := 3 ]} [] [].
Definition hist_late : gmap Z (list wireStruct) := {[ 9 := [after (GenID 9 0) 1 (GenID 5 5)]; 5 := [after (GenID 5 10) 1 (GenID 5 9)] ]}.
Definition hist_gap : gmap Z (list wireStruct) := {[ 5 := [after (GenID 5 3) 4 (GenID 5 2); after (GenID 5 7) 3 (GenID 9 0)] ]}.
Definition hist_deletes : list (Z * list deleteItem) := [(5, [newDeleteItem 1 4])].

Definition hist_rank (id : ID) : nat := if Client id =? 9 then 1 else if Client id =? 5 then (if Clock id <? 7 then 0 else 2) else 0.

#[local] Instance hist_codec : PendingLaws updateValue hist_rank := valueCodec_laws (H := noJSON) (fun _ => True) hist_rank.

Lemma after_ok (J : JSONText) json_ok id n o : id_ok id -> id_ok o -> is_safe (Clock id + Z.of_nat n) -> (n < 20)%nat -> struct_ok json_ok (after id n o).
Proof.
  intros Hi Ho He Hn. constructor; cbn; [done| |done|done|done|by left|split; [by exists []|done]|].
  - do 20 (destruct n as [|n]; [done|]). lia.
  - split; [|rewrite length_replicate; lia]. exists (replicate n 97). split; [apply Forall_replicate, (bool_decide_unpack _); by vm_compute|]. do 20 (destruct n as [|n]; [done|]). lia.
Qed.

Lemma hist_causal_rank c k k' : k <= k' -> (hist_rank (GenID c k) <= hist_rank (GenID c k'))%nat.
Proof. intros Hk. unfold hist_rank. cbn. destruct (c =? 9), (c =? 5), (Z.ltb_spec k 7), (Z.ltb_spec k' 7); lia. Qed.

Ltac structs_of_map H :=
  repeat (apply lookup_insert_Some in H as [[<- <-]|[_ H]]); [..|apply lookup_singleton_Some in H as [<- <-]].

Lemma hist_late_carried : carried hist_late.
Proof.
  split_and!.
  - intros c l Hl. unfold hist_late in Hl. structs_of_map Hl; (split; [by apply Forall_singleton|]); intros [|j] s s' [= <-]; done.
  - split; [apply hist_causal_rank|]. intros c l s d Hl Hs Hd. unfold hist_late in Hl. structs_of_map Hl; apply list_elem_of_singleton in Hs as ->; vm_compute in Hd.
    + apply list_elem_of_singleton in Hd as ->. vm_compute. lia.
    + by apply not_elem_of_nil in Hd.
  - intros c l s Hl Hs. unfold hist_late in Hl. structs_of_map Hl; apply list_elem_of_singleton in Hs as ->; apply after_ok; unfold id_ok, is_safe, maxSafeInteger; cbn; lia.
Qed.

Lemma hist_gap_carried : carried hist_gap.
Proof.
  split_and!.
  - intros c l Hl. unfold hist_gap in Hl. structs_of_map Hl. split; [by apply Forall_two|]. intros [|[|j]] s s' [= <-]; [by intros [= <-]|done].
  - split; [apply hist_causal_rank|]. intros c l s d Hl Hs Hd. unfold hist_gap in Hl. structs_of_map Hl.
    apply elem_of_cons in Hs as [->| ->%list_elem_of_singleton]; vm_compute in Hd; [by apply not_elem_of_nil in Hd|]. apply list_elem_of_singleton in Hd as ->. vm_compute. lia.
  - intros c l s Hl Hs. unfold hist_gap in Hl. structs_of_map Hl. apply elem_of_cons in Hs as [->| ->%list_elem_of_singleton]; apply after_ok; unfold id_ok, is_safe, maxSafeInteger; cbn; lia.
Qed.

Lemma hist_deletes_ok : blocks_ok hist_deletes.
Proof. apply Forall_singleton, Forall_singleton. unfold range_ok, maxSafeInteger. cbn. lia. Qed.

(** Late structs are set aside, and wait for clock 9 of client 5. *)
Lemma update_structs_accounted_witness :
  exists t' rest, integrateStructs hist_doc hist_late = Ok (t', rest) /\ accounted hist_doc hist_late t' rest.
Proof. destruct hist_late_carried as (? & ? & _). by apply (update_structs_accounted hist_doc hist_late hist_rank). Defined.

Definition hist_us : list updateIn := [mkIn (Ok hist_late) (Ok hist_deletes); mkIn (Ok hist_gap) (Ok [])].

Lemma updates_accounted_witness :
  exists doc', applyUpdates hist_us (mkDocState (B := updateValue) hist_doc None None) = Ok doc' /\ (forall c, stateOf hist_doc c <= stateOf (d_target doc') c) /\
    docAccounts hist_rank (fun id => exists p, p ∈ [(hist_late, hist_deletes); (hist_gap, [])] /\ inUpdate p.1 id)
      (fun id => exists p, p ∈ [(hist_late, hist_deletes); (hist_gap, [])] /\ inBlocks p.2 id) doc'.
Proof.
  apply (updates_accounted hist_rank). apply Forall2_cons_2; [|apply Forall2_cons_2; [|apply Forall2_nil_2]]; (split; [done|]).
  - split; [exact hist_late_carried|exact hist_deletes_ok].
  - split; [exact hist_gap_carried|constructor].
Defined.

(** The gap alone, without the answer to client 9, is complete. *)
Definition hist_part : gmap Z (list wireStruct) := {[ 5 := [after (GenID 5 3) 4 (GenID 5 2)] ]}.

Lemma hist_part_carried : carried hist_part.
Proof.
  split_and!.
  - intros c l Hl. unfold hist_part in Hl. structs_of_map Hl. split; [by apply Forall_singleton|]. intros [|j] s s' [= <-]; done.
  - split; [apply hist_causal_rank|]. intros c l s d Hl Hs Hd. unfold hist_part in Hl. structs_of_map Hl. apply list_elem_of_singleton in Hs as ->. vm_compute in Hd. by apply not_elem_of_nil in Hd.
  - intros c l s Hl Hs. unfold hist_part in Hl. structs_of_map Hl. apply list_elem_of_singleton in Hs as ->; apply after_ok; unfold id_ok, is_safe, maxSafeInteger; cbn; lia.
Qed.

Lemma complete_update_applied_witness :
  exists doc', applyUpdateWith (mkIn (Ok hist_part) (Ok hist_deletes)) (mkDocState (B := updateValue) hist_doc None None) = Ok doc' /\
    (forall id, inUpdate hist_part id -> known (d_target doc') id) /\
    docAccounts hist_rank (fun id => inUpdate hist_part id \/ False) (fun id => inBlocks hist_deletes id \/ False) doc'.
Proof.
  apply (complete_update_applied hist_rank (mkDocState hist_doc None None) (fun _ => False) (fun _ => False)).
  - split_and!; [by intros id []|by intros p c k|by intros id []].
  - exact hist_part_carried.
  - exact hist_deletes_ok.
  - split.
    + intros c l Hl. unfold hist_part in Hl. structs_of_map Hl. split; [by apply Forall_singleton|]. intros s [= <-]. vm_compute. done.
    + intros c l s d Hl Hs Hd. unfold hist_part in Hl. structs_of_map Hl. apply list_elem_of_singleton in Hs as ->. vm_compute in Hd. by apply not_elem_of_nil in Hd.
Defined.

