(* ===== verification/Item.v ===== *)
(** * Items and their linked lists

    The heap of [itemStruct]s of a document (crdt/item.go) with the shared
    types whose lists they form (the list fields of [abstractTypeBase],
    crdt/abstract.go), the struct store, and the fields of the running
    [Transaction] that the item operations write.  A pointer is a number; an
    operation is a step on the document that may fail with a Go error or with
    [ErrPanic] (a nil dereference, a failed type assertion).

    Not part of the state: the derived caches (search markers, position
    indexes, rendered strings) and the preliminary content of types that are
    not integrated yet. *)
From stdpp Require Import gmap sets list.
From Stdlib Require Import ZArith Lia.
From S2P Require Import Prelude Lib0 StructStore DeleteSet Content.
Open Scope Z_scope.
Open Scope go_scope.

(** In a document a nested type is a pointer, and so is a subdocument, kept with
    its [ShouldLoad]. *)
Abbreviation docContent V := (itemContent V nat (nat * bool)).

Section Item.
Context {V : Type}.

(** ** State *)

Inductive parentRef : Type :=
| ParentNil
| ParentType (t : nat)
| ParentID (id : ID).

(** The flags are the bits of [info] that are item state: [bit1] keep, [bit2]
    countable, [bit3] deleted. *)
Record itemStruct := mkItem {
  i_id : ID;
  i_length : Z;
  i_origin : option ID;
  i_left : option nat;
  i_right : option nat;
  i_rightOrigin : option ID;
  i_parent : parentRef;
  i_parentSub : gostring;
  i_redone : option ID;
  i_content : docContent V;
  i_keep : bool;
  i_countable : bool;
  i_deleted : bool
}.

(** [abstractTypeBase]: the list, the map, the visible length, the item that
    holds the type, the count of linked items; [t_isMap] and [t_size] for a
    [YMap]; [t_observed] for the answer of [hasTypeObservers]. *)
Record ytype := mkType {
  t_start : option nat;
  t_map : gmap gostring nat;
  t_length : Z;
  t_item : option nat;
  t_itemCount : Z;
  t_isMap : bool;
  t_size : Z;
  t_observed : bool
}.

Inductive structRef : Type :=
| RItem (p : nat)
| RGC (gc : gcStruct).

(** The fields of [Transaction] that the item operations read or write.
    [tr_beforeState] is nil in a lean local transaction, which keeps only the
    clock of its own client ([compactState]). *)
Record transaction := mkTrans {
  tr_deleteSet : deleteSet;
  tr_mergeStructs : list nat;
  tr_changed : list (nat * gostring);
  tr_trackChanges : bool;
  tr_beforeState : option (gmap Z Z);
  tr_compact : option (Z * Z);
  tr_subdocsAdded : gset nat;
  tr_subdocsRemoved : gset nat;
  tr_subdocsLoaded : gset nat
}.

Record docState := mkDoc {
  d_items : gmap nat itemStruct;
  d_types : gmap nat ytype;
  d_store : structStore structRef;
  d_next : nat;
  d_trans : transaction
}.

(** *** Field updates *)
Definition set_items (m : gmap nat itemStruct) (d : docState) : docState :=
  mkDoc m (d_types d) (d_store d) (d_next d) (d_trans d).
Definition set_types (m : gmap nat ytype) (d : docState) : docState :=
  mkDoc (d_items d) m (d_store d) (d_next d) (d_trans d).
Definition set_store (s : structStore structRef) (d : docState) : docState :=
  mkDoc (d_items d) (d_types d) s (d_next d) (d_trans d).
Definition set_next (n : nat) (d : docState) : docState :=
  mkDoc (d_items d) (d_types d) (d_store d) n (d_trans d).
Definition set_trans (tr : transaction) (d : docState) : docState :=
  mkDoc (d_items d) (d_types d) (d_store d) (d_next d) tr.

Definition tr_log (ds : deleteSet) (ms : list nat) (tr : transaction) : transaction :=
  mkTrans ds ms (tr_changed tr) (tr_trackChanges tr) (tr_beforeState tr) (tr_compact tr)
    (tr_subdocsAdded tr) (tr_subdocsRemoved tr) (tr_subdocsLoaded tr).
Definition tr_change (ch : list (nat * gostring)) (track : bool) (tr : transaction) : transaction :=
  mkTrans (tr_deleteSet tr) (tr_mergeStructs tr) ch track (tr_beforeState tr) (tr_compact tr)
    (tr_subdocsAdded tr) (tr_subdocsRemoved tr) (tr_subdocsLoaded tr).
Definition tr_subdocs (a r l : gset nat) (tr : transaction) : transaction :=
  mkTrans (tr_deleteSet tr) (tr_mergeStructs tr) (tr_changed tr) (tr_trackChanges tr) (tr_beforeState tr) (tr_compact tr) a r l.

Definition with_links (left right : option nat) (it : itemStruct) : itemStruct :=
  mkItem (i_id it) (i_length it) (i_origin it) left right (i_rightOrigin it) (i_parent it) (i_parentSub it)
    (i_redone it) (i_content it) (i_keep it) (i_countable it) (i_deleted it).
Definition with_left (left : option nat) (it : itemStruct) : itemStruct := with_links left (i_right it) it.
Definition with_right (right : option nat) (it : itemStruct) : itemStruct := with_links (i_left it) right it.
Definition with_origins (origin rightOrigin : option ID) (it : itemStruct) : itemStruct :=
  mkItem (i_id it) (i_length it) origin (i_left it) (i_right it) rightOrigin (i_parent it) (i_parentSub it)
    (i_redone it) (i_content it) (i_keep it) (i_countable it) (i_deleted it).
Definition with_parent (parent : parentRef) (sub : gostring) (it : itemStruct) : itemStruct :=
  mkItem (i_id it) (i_length it) (i_origin it) (i_left it) (i_right it) (i_rightOrigin it) parent sub
    (i_redone it) (i_content it) (i_keep it) (i_countable it) (i_deleted it).
Definition with_body (id : ID) (length : Z) (content : docContent V) (it : itemStruct) : itemStruct :=
  mkItem id length (i_origin it) (i_left it) (i_right it) (i_rightOrigin it) (i_parent it) (i_parentSub it)
    (i_redone it) content (i_keep it) (i_countable it) (i_deleted it).
Definition with_flags (keep deleted : bool) (it : itemStruct) : itemStruct :=
  mkItem (i_id it) (i_length it) (i_origin it) (i_left it) (i_right it) (i_rightOrigin it) (i_parent it) (i_parentSub it)
    (i_redone it) (i_content it) keep (i_countable it) deleted.
Definition markDeleted (it : itemStruct) : itemStruct := with_flags (i_keep it) true it.

Definition with_start (start : option nat) (ty : ytype) : ytype :=
  mkType start (t_map ty) (t_length ty) (t_item ty) (t_itemCount ty) (t_isMap ty) (t_size ty) (t_observed ty).
Definition with_map (m : gmap gostring nat) (ty : ytype) : ytype :=
  mkType (t_start ty) m (t_length ty) (t_item ty) (t_itemCount ty) (t_isMap ty) (t_size ty) (t_observed ty).
Definition with_counts (length count : Z) (ty : ytype) : ytype :=
  mkType (t_start ty) (t_map ty) length (t_item ty) count (t_isMap ty) (t_size ty) (t_observed ty).
Definition with_item (item : option nat) (ty : ytype) : ytype :=
  mkType (t_start ty) (t_map ty) (t_length ty) item (t_itemCount ty) (t_isMap ty) (t_size ty) (t_observed ty).
Definition updateLength (delta : Z) (ty : ytype) : ytype := with_counts (t_length ty + delta) (t_itemCount ty) ty.
Definition updateListItemCount (delta : Z) (ty : ytype) : ytype := with_counts (t_length ty) (t_itemCount ty + delta) ty.
Definition adjustYMapSize (delta : Z) (ty : ytype) : ytype :=
  mkType (t_start ty) (t_map ty) (t_length ty) (t_item ty) (t_itemCount ty) (t_isMap ty)
    (if t_isMap ty then t_size ty + delta else t_size ty) (t_observed ty).

(** *** Access *)
Definition M (A : Type) : Type := step docState A.

Definition panic {A} : M A := rfail ErrPanic.

Definition get {A} (f : docState -> A) : M A := fun d => (Ok (f d), d).
Definition modify (f : docState -> docState) : M unit := fun d => (Ok tt, f d).

(** Reading through a pointer; [None] is a nil dereference. *)
Definition deref {A} (o : option A) : M A := match o with Some a => rret a | None => panic end.

Definition getItem (p : nat) : M itemStruct := fun d => deref (d_items d !! p) d.
Definition setItem (p : nat) (f : itemStruct -> itemStruct) : M unit :=
  it <-- getItem p;;; modify (fun d => set_items (<[p := f it]> (d_items d)) d).
Definition getType (t : nat) : M ytype := fun d => deref (d_types d !! t) d.
Definition setType (t : nat) (f : ytype -> ytype) : M unit :=
  ty <-- getType t;;; modify (fun d => set_types (<[t := f ty]> (d_types d)) d).

(** [item.parent.(abstractType)]. *)
Definition parentType (it : itemStruct) : M nat :=
  match i_parent it with ParentType t => rret t | _ => panic end.

(** The structs of the store, seen through the heap. *)
Definition refStruct (h : gmap nat itemStruct) : AbstractStruct structRef := {|
  getID r := match r with RItem p => from_option i_id (GenID 0 0) (h !! p) | RGC gc => gc_id gc end;
  structLength r := match r with RItem p => from_option i_length 0 (h !! p) | RGC gc => gc_length gc end;
  structDeleted r := match r with RItem p => from_option i_deleted false (h !! p) | RGC _ => true end
|}.

(** ** The transaction *)
Definition modifyTrans (f : transaction -> transaction) : M unit := modify (fun d => set_trans (f (d_trans d)) d).

Definition addToDeleteSetT (client clock length : Z) : M unit :=
  modifyTrans (fun tr => tr_log (addToDeleteSet (tr_deleteSet tr) client clock length) (tr_mergeStructs tr) tr).
Definition addMergeStruct (p : nat) : M unit :=
  modifyTrans (fun tr => tr_log (tr_deleteSet tr) (tr_mergeStructs tr ++ [p]) tr).

Definition getStateM (client : Z) : M Z := fun d => (@getState _ (refStruct (d_items d)) (d_store d) client, d).

Definition beforeClock (client : Z) : M Z :=
  tr <-- get d_trans;;;
  match tr_beforeState tr, tr_compact tr with
  | Some before, _ => rret (default 0 (before !! client))
  | None, Some (own, clock) => if client =? own then rret clock else getStateM client
  | None, None => getStateM client
  end.

(** [changedTypes] and [changedJournal]: the changes in order. *)
Definition recordChangedType (t : nat) (parentSub : gostring) : M unit :=
  modifyTrans (fun tr => tr_change (tr_changed tr ++ [(t, parentSub)]) true tr).

(** [addChangedTypeAfterInvalidation]: with [addChangedTypeToTransaction] and
    [addChangedMapKeyToTransaction], which differ in the caches they clear. *)
Definition addChangedType (t : nat) (parentSub : gostring) : M unit :=
  ty <-- getType t;;;
  record <-- (match t_item ty with
              | None => rret true
              | Some p =>
                  it <-- getItem p;;;
                  clock <-- beforeClock (Client (i_id it));;;
                  rret ((Clock (i_id it) <? clock) && negb (i_deleted it))
              end);;;
  tr <-- get d_trans;;;
  if (record : bool) && (tr_trackChanges tr || t_observed ty) then recordChangedType t parentSub else rret tt.

Definition deleteChangedType (t : nat) : M unit :=
  modifyTrans (fun tr => tr_change (filter (fun e => e.1 <> t) (tr_changed tr)) (tr_trackChanges tr) tr).

(** ** Deletion *)

(** [for item := start; item != nil; item = item.right]: [n] bounds the number
    of steps. *)
Fixpoint forEachRight (n : nat) (f : nat -> M unit) (o : option nat) : M unit :=
  match n, o with
  | _, None => rret tt
  | O, Some _ => rfail ErrMalformed
  | S n', Some p => _ <-- f p;;; it <-- getItem p;;; forEachRight n' f (i_right it)
  end.

Fixpoint forEach {A} (f : A -> M unit) (l : list A) : M unit :=
  match l with [] => rret tt | a :: l' => _ <-- f a;;; forEach f l' end.

(** The body of the two loops of [contentType.deleteContent]. *)
Definition deleteChild (del : nat -> M unit) (p : nat) : M unit :=
  it <-- getItem p;;;
  if negb (i_deleted it) then del p
  else
    clock <-- beforeClock (Client (i_id it));;;
    if Clock (i_id it) <? clock then addMergeStruct p else rret tt.

(** [deleteContent] of each kind; the order in which Go iterates over the map
    is not specified. *)
Definition deleteContent (del : nat -> M unit) (c : docContent V) : M unit :=
  match c with
  | contentDoc (doc, _) =>
      modifyTrans (fun tr => if bool_decide (doc ∈ tr_subdocsAdded tr)
        then tr_subdocs (tr_subdocsAdded tr ∖ {[doc]}) (tr_subdocsRemoved tr) (tr_subdocsLoaded tr) tr
        else tr_subdocs (tr_subdocsAdded tr) (tr_subdocsRemoved tr ∪ {[doc]}) (tr_subdocsLoaded tr) tr)
  | contentType t =>
      ty <-- getType t;;;
      n <-- get (fun d => size (d_items d));;;
      _ <-- forEachRight n (deleteChild del) (t_start ty);;;
      ty <-- getType t;;;
      _ <-- forEach (deleteChild del) (map_to_list (t_map ty)).*2;;;
      deleteChangedType t
  | _ => rret tt
  end.

(** [deleteItemStruct]; the recursion goes through the children of nested
    types. *)
Fixpoint deleteItemStruct (fuel : nat) (p : nat) : M unit :=
  match fuel with
  | O => rfail ErrDepth
  | S fuel' =>
      it <-- getItem p;;;
      if i_deleted it then rret tt
      else
        t <-- parentType it;;;
        ty <-- getType t;;;
        _ <-- (if i_countable it && bool_decide (i_parentSub it = [])
               then setType t (updateLength (- i_length it))
               else if bool_decide (i_parentSub it <> []) && bool_decide (t_map ty !! i_parentSub it = Some p)
               then setType t (adjustYMapSize (-1))
               else rret tt);;;
        _ <-- setItem p markDeleted;;;
        _ <-- addToDeleteSetT (Client (i_id it)) (Clock (i_id it)) (i_length it);;;
        _ <-- addChangedType t (i_parentSub it);;;
        deleteContent (deleteItemStruct fuel') (i_content it)
  end.

(** Deletion with enough fuel: every level of the recursion marks an item. *)
Definition delete (p : nat) : M unit :=
  n <-- get (fun d => size (d_items d));;; deleteItemStruct (n + 1) p.

(** ** Search and split *)
Context (interpolate : Z -> Z -> Z -> Z).

Definition getStructM (id : ID) : M (option structRef) :=
  get (fun d => @getStruct _ (refStruct (d_items d)) interpolate (d_store d) id).

Definition lastID (it : itemStruct) : ID :=
  if i_length it =? 1 then i_id it else GenID (Client (i_id it)) (Clock (i_id it) + i_length it - 1).

(** [initItemWithLength]. *)
Definition newItemWithLength (id : ID) (left : option nat) (origin : option ID) (right : option nat) (rightOrigin : option ID)
    (parent : parentRef) (parentSub : gostring) (content : docContent V) (length : Z) : itemStruct :=
  mkItem id length origin left right rightOrigin parent parentSub None content false (isCountable content) false.

(** Allocation of an item. *)
Definition alloc (it : itemStruct) : M nat :=
  p <-- get d_next;;;
  _ <-- modify (fun d => set_next (p + 1) (set_items (<[p := it]> (d_items d)) d));;; rret p.

Definition splitItem (leftItem : nat) (diff : Z) : M nat :=
  it <-- getItem leftItem;;;
  let client := Client (i_id it) in
  let clock := Clock (i_id it) in
  _ <-- (match i_parent it with ParentID _ => panic | _ => rret tt end);;;
  match spliceContent (i_content it) diff with
  | None => panic
  | Some (leftContent, rightContent) =>
      let right := newItemWithLength (GenID client (clock + diff)) (Some leftItem) (Some (GenID client (clock + diff - 1)))
                     (i_right it) (i_rightOrigin it) (i_parent it) (i_parentSub it) rightContent (i_length it - diff) in
      let right := with_flags (i_keep it) (i_deleted it) right in
      let right := mkItem (i_id right) (i_length right) (i_origin right) (i_left right) (i_right right) (i_rightOrigin right)
                     (i_parent right) (i_parentSub right)
                     (match i_redone it with Some r => Some (GenID (Client r) (Clock r + diff)) | None => None end)
                     (i_content right) (i_keep right) (i_countable right) (i_deleted right) in
      rightItem <-- alloc right;;;
      _ <-- setItem leftItem (fun it => with_right (Some rightItem) (with_body (i_id it) (i_length it) leftContent it));;;
      _ <-- (match i_right right with
             | Some r => setItem r (with_left (Some rightItem))
             | None => rret tt
             end);;;
      _ <-- addMergeStruct rightItem;;;
      _ <-- (if bool_decide (i_parentSub right <> []) && bool_decide (i_right right = None)
             then match i_parent right with
                  | ParentType t => setType t (fun ty => with_map (<[i_parentSub right := rightItem]> (t_map ty)) ty)
                  | _ => panic
                  end
             else rret tt);;;
      _ <-- setItem leftItem (fun it => with_body (i_id it) diff (i_content it) it);;;
      _ <-- (match i_parent right with
             | ParentType t => if bool_decide (i_parentSub right = []) then setType t (updateListItemCount 1) else rret tt
             | _ => rret tt
             end);;;
      rret rightItem
  end.

(** [ss.InsertAfter(cursor, value)] on the store's list of a client. *)
Definition insertAfter (client i : Z) (value : structRef) : M unit :=
  modify (fun d => match clientStructs (d_store d) client with
    | Some ss => set_store (with_clients (d_store d) (<[client := take (Z.to_nat i + 1) ss ++ value :: drop (Z.to_nat i + 1) ss]> (clients (d_store d)))) d
    | None => d
    end).

Definition findIndexM (client clock : Z) : M (option (Z * structRef)) :=
  get (fun d => match clientStructs (d_store d) client with
    | None => None
    | Some ss =>
        match @findIndexSS _ (refStruct (d_items d)) interpolate ss clock with
        | Ok i => match zlookup ss i with Some s => Some (i, s) | None => None end
        | Err _ => None
        end
    end).

Definition getItemCleanStart (id : ID) : M (option nat) :=
  f <-- findIndexM (Client id) (Clock id);;;
  match f with
  | Some (i, RItem p) =>
      it <-- getItem p;;;
      if Clock (i_id it) <? Clock id
      then r <-- splitItem p (Clock id - Clock (i_id it));;;
           _ <-- insertAfter (Client id) i (RItem r);;; rret (Some r)
      else rret (Some p)
  | _ => rret None
  end.

Definition getItemCleanEnd (id : ID) : M (option nat) :=
  f <-- findIndexM (Client id) (Clock id);;;
  match f with
  | Some (i, RItem p) =>
      it <-- getItem p;;;
      if negb (Clock id =? Clock (i_id it) + i_length it - 1)
      then r <-- splitItem p (Clock id - Clock (i_id it) + 1);;;
           _ <-- insertAfter (Client id) i (RItem r);;; rret (Some p)
      else rret (Some p)
  | _ => rret None
  end.

(** ** Dependencies *)

(** [id.Clock >= getState(store, id.Client)] of another client's id. *)
Definition missing (own : Z) (id : option ID) : M bool :=
  match id with
  | None => rret false
  | Some q =>
      if Client q =? own then rret false
      else
        s <-- getStateM (Client q);;;
        rret (s <=? Clock q)
  end.

(** The left neighbour, from the origin. *)
Definition resolveOrigin (p : nat) (origin : option ID) : M unit :=
  match origin with
  | None => rret tt
  | Some o =>
      left <-- getItemCleanEnd o;;;
      match left with
      | Some l => li <-- getItem l;;;
          setItem p (fun it => with_origins (Some (lastID li)) (i_rightOrigin it) (with_left left it))
      | None => setItem p (fun it => with_parent ParentNil (i_parentSub it) (with_origins None (i_rightOrigin it) (with_left None it)))
      end
  end.

(** The right neighbour, from the right origin. *)
Definition resolveRightOrigin (p : nat) (rightOrigin : option ID) : M unit :=
  match rightOrigin with
  | None => rret tt
  | Some o =>
      right <-- getItemCleanStart o;;;
      match right with
      | Some r => ri <-- getItem r;;;
          setItem p (fun it => with_origins (i_origin it) (Some (i_id ri)) (with_right right it))
      | None => setItem p (fun it => with_parent ParentNil (i_parentSub it) (with_origins (i_origin it) None (with_right None it)))
      end
  end.

Definition copyParent (p : nat) (neighbour : option nat) : M unit :=
  match neighbour with
  | Some l => li <-- getItem l;;; setItem p (with_parent (i_parent li) (i_parentSub li))
  | None => rret tt
  end.

(** The parent: copied from a neighbour, or looked up by its id. *)
Definition resolveParent (p : nat) : M unit :=
  it <-- getItem p;;;
  match i_parent it with
  | ParentNil => _ <-- copyParent p (i_left it);;; copyParent p (i_right it)
  | ParentID q =>
      s <-- getStructM q;;;
      parent <-- (match s with
                  | Some (RItem r) => ri <-- getItem r;;;
                      rret (match i_content ri with contentType t => ParentType t | _ => ParentNil end)
                  | _ => rret ParentNil
                  end);;;
      setItem p (fun it => with_parent parent (i_parentSub it) it)
  | ParentType _ => rret tt
  end.

(** [missingClient]: the client whose structs are missing, or [None] once the
    neighbours and the parent are set. *)
Definition missingClient (p : nat) : M (option Z) :=
  it <-- getItem p;;;
  let own := Client (i_id it) in
  m1 <-- missing own (i_origin it);;;
  if (m1 : bool) then rret (option_map Client (i_origin it)) else
  m2 <-- missing own (i_rightOrigin it);;;
  if (m2 : bool) then rret (option_map Client (i_rightOrigin it)) else
  m3 <-- missing own (match i_parent it with ParentID q => Some q | _ => None end);;;
  if (m3 : bool) then rret (match i_parent it with ParentID q => Some (Client q) | _ => None end) else
  _ <-- resolveOrigin p (i_origin it);;;
  _ <-- resolveRightOrigin p (i_rightOrigin it);;;
  _ <-- resolveParent p;;;
  rret None.

(** ** Integration *)

(** The loop [conflictScan]: returns the final [left]. *)
Fixpoint conflictScan (fuel : nat) (it : itemStruct) (o : option nat)
    (itemsBeforeOrigin conflictingItems : gset nat) (left : option nat) : M (option nat) :=
  match fuel with
  | O => rfail ErrDepth
  | S fuel' =>
      match o with
      | None => rret left
      | Some p =>
          if decide (o = i_right it) then rret left
          else
            oi <-- getItem p;;;
            let itemsBeforeOrigin := {[p]} ∪ itemsBeforeOrigin in
            let conflictingItems := {[p]} ∪ conflictingItems in
            if CompareIDs (i_origin it) (i_origin oi) then
              if Client (i_id oi) <? Client (i_id it)
              then conflictScan fuel' it (i_right oi) itemsBeforeOrigin ∅ (Some p)
              else if CompareIDs (i_rightOrigin it) (i_rightOrigin oi) then rret left
              else conflictScan fuel' it (i_right oi) itemsBeforeOrigin conflictingItems left
            else
              match i_origin oi with
              | None => rret left
              | Some q =>
                  s <-- getStructM q;;;
                  match s with
                  | Some (RItem tmp) =>
                      if bool_decide (tmp ∈ itemsBeforeOrigin) then
                        if bool_decide (tmp ∈ conflictingItems)
                        then conflictScan fuel' it (i_right oi) itemsBeforeOrigin conflictingItems left
                        else conflictScan fuel' it (i_right oi) itemsBeforeOrigin ∅ (Some p)
                      else rret left
                  | _ => rret left
                  end
              end
      end
  end.

(** [for o != nil && o.left != nil { o = o.left }]. *)
Fixpoint leftmost (fuel : nat) (o : option nat) : M (option nat) :=
  match fuel with
  | O => rfail ErrDepth
  | S fuel' =>
      match o with
      | None => rret None
      | Some p => it <-- getItem p;;;
          match i_left it with None => rret o | Some l => leftmost fuel' (Some l) end
      end
  end.

(** The first item of the list that an item belongs to. *)
Definition firstItem (t : nat) (parentSub : gostring) : M (option nat) :=
  ty <-- getType t;;;
  if bool_decide (parentSub <> [])
  then n <-- get (fun d => size (d_items d));;; leftmost (n + 1) (t_map ty !! parentSub)
  else rret (t_start ty).

Definition integrateContent (p : nat) : M unit :=
  it <-- getItem p;;;
  match i_content it with
  | contentDeleted n =>
      _ <-- addToDeleteSetT (Client (i_id it)) (Clock (i_id it)) n;;; setItem p markDeleted
  | contentDoc (doc, shouldLoad) =>
      modifyTrans (fun tr => tr_subdocs (tr_subdocsAdded tr ∪ {[doc]}) (tr_subdocsRemoved tr)
                         (if shouldLoad then tr_subdocsLoaded tr ∪ {[doc]} else tr_subdocsLoaded tr) tr)
  | contentType t => setType t (with_item (Some p))
  | _ => rret tt
  end.

Definition addStructM (r : structRef) : M unit :=
  fun d => match @addStruct _ (refStruct (d_items d)) (d_store d) r with
           | Ok s => (Ok tt, set_store s d)
           | Err e => (Err e, d)
           end.

(** The conflict resolution: sets [item.left]. *)
Definition resolveLeft (p t : nat) : M unit :=
  it <-- getItem p;;;
  scan <-- (match i_left it, i_right it with
            | None, None => rret true
            | None, Some r => ri <-- getItem r;;; rret (bool_decide (i_left ri <> None))
            | Some l, _ => li <-- getItem l;;; rret (bool_decide (i_right li <> i_right it))
            end);;;
  if (scan : bool) then
    o <-- (match i_left it with
           | Some l => li <-- getItem l;;; rret (i_right li)
           | None => firstItem t (i_parentSub it)
           end);;;
    n <-- get (fun d => size (d_items d));;;
    left <-- conflictScan (n + 1) it o ∅ ∅ (i_left it);;;
    setItem p (with_left left)
  else rret tt.

(** Reconnecting left and right, and the parent's start or map entry. *)
Definition linkItem (p t : nat) : M unit :=
  it <-- getItem p;;;
  _ <-- (match i_left it with
         | Some l => li <-- getItem l;;;
             _ <-- setItem p (with_right (i_right li));;; setItem l (with_right (Some p))
         | None =>
             r <-- firstItem t (i_parentSub it);;;
             _ <-- (if bool_decide (i_parentSub it = []) then setType t (with_start (Some p)) else rret tt);;;
             setItem p (with_right r)
         end);;;
  it <-- getItem p;;;
  match i_right it with
  | Some r => setItem r (with_left (Some p))
  | None =>
      if bool_decide (i_parentSub it <> []) then
        ty <-- getType t;;;
        let previous := t_map ty !! i_parentSub it in
        _ <-- setType t (fun ty => with_map (<[i_parentSub it := p]> (t_map ty)) ty);;;
        _ <-- (match previous with
               | None => setType t (adjustYMapSize 1)
               | Some q => qi <-- getItem q;;; if i_deleted qi then setType t (adjustYMapSize 1) else rret tt
               end);;;
        match i_left it with Some l => delete l | None => rret tt end
      else rret tt
  end.

(** The end of [integrateWithScratch] for an item with a parent. *)
Definition registerItem (p t : nat) : M unit :=
  it <-- getItem p;;;
  _ <-- (if bool_decide (i_parentSub it = []) then setType t (updateListItemCount 1) else rret tt);;;
  _ <-- (if bool_decide (i_parentSub it = []) && i_countable it && negb (i_deleted it)
         then setType t (updateLength (i_length it)) else rret tt);;;
  _ <-- addStructM (RItem p);;;
  _ <-- integrateContent p;;;
  _ <-- addChangedType t (i_parentSub it);;;
  ty <-- getType t;;;
  parentDeleted <-- (match t_item ty with
                     | Some q => qi <-- getItem q;;; rret (i_deleted qi)
                     | None => rret false
                     end);;;
  if (parentDeleted : bool) || (bool_decide (i_parentSub it <> []) && bool_decide (i_right it <> None))
  then delete p else rret tt.

(** The shift of an item whose first [offset] elements are known. *)
Definition shiftItem (p : nat) (offset : Z) : M unit :=
  if 0 <? offset then
    it <-- getItem p;;;
    let id := GenID (Client (i_id it)) (Clock (i_id it) + offset) in
    _ <-- setItem p (fun it => with_body id (i_length it) (i_content it) it);;;
    left <-- getItemCleanEnd (GenID (Client id) (Clock id - 1));;;
    _ <-- (match left with
           | Some l => li <-- getItem l;;;
               setItem p (fun it => with_origins (Some (lastID li)) (i_rightOrigin it) (with_left left it))
           | None => setItem p (with_left None)
           end);;;
    match spliceContent (i_content it) offset with
    | None => panic
    | Some (_, content) => setItem p (fun it => with_body (i_id it) (i_length it - offset) content it)
    end
  else rret tt.

Definition integrateWithScratch (p : nat) (offset : Z) : M unit :=
  _ <-- shiftItem p offset;;;
  it <-- getItem p;;;
  match i_parent it with
  | ParentNil => addStructM (RGC (newGC (i_id it) (i_length it)))
  | _ =>
      t <-- parentType it;;;
      _ <-- resolveLeft p t;;;
      _ <-- linkItem p t;;;
      registerItem p t
  end.

End Item.
Arguments itemStruct V : clear implicits.
Arguments docState V : clear implicits.
