(* ===== verification/ItemList.v ===== *)
(** * The list of a shared type, as a sequence of elements

    An item of length [n] stands for [n] elements with consecutive clocks: the
    first carries the item's origin, each other one has its predecessor as
    origin, and all share the right origin.  With this reading the linked list
    of a type is a sequence as in file [Yata], and
    [itemStruct.integrateWithScratch] inserts an item exactly as
    [Yata.integrate] inserts its elements one by one. *)
From stdpp Require Import gmap sets list.
From Stdlib Require Import ZArith Lia.
From S2P Require Import Prelude Lib0 StructStore Yata Replicas DeleteSet Content Item.
Open Scope Z_scope.

Lemma CompareIDs_ne a b : a <> b -> CompareIDs a b = false.
Proof. intros H. destruct (CompareIDs a b) eqn:E; [|done]. by apply CompareIDs_eq in E. Qed.

Lemma CompareIDs_refl a : CompareIDs a a = true.
Proof. by apply CompareIDs_eq. Qed.

Lemma splitAfter_app o (l1 l2 : list ID) : o ∉ l1 -> splitAfter o (l1 ++ o :: l2) = (l1 ++ [o], l2).
Proof.
  induction l1 as [|c l1 IH]; simpl; intros Hn; [by rewrite decide_True|].
  rewrite decide_False by set_solver. rewrite IH by set_solver. done.
Qed.

(** ** The scan over elements *)
Section Elements.
Variables og ro : ID -> option ID.

(** Elements that continue an item whose previous element is [prev]. *)
Fixpoint continues (x prev : ID) (cs : list ID) : Prop :=
  match cs with
  | [] => True
  | c :: cs' => og c = Some prev /\ prev <> c /\ Some c <> ro x /\ og x <> Some prev /\ continues x c cs'
  end.

Lemma continues_keep x cs : forall prev rest before confl n dest, continues x prev cs -> prev ∈ before -> prev ∈ confl ->
  Yata.conflictScan og ro x (cs ++ rest) before confl n dest =
  Yata.conflictScan og ro x rest (list_to_set cs ∪ before) (list_to_set cs ∪ confl) (n + length cs) dest.
Proof.
  induction cs as [|c cs IH]; intros prev rest before confl n dest Hc Hb Hf; cbn [app].
  { cbn [length]. rewrite Nat.add_0_r. f_equal; set_solver. }
  destruct Hc as (Eo & Hne & Hr & Hx & Hc). cbn [Yata.conflictScan]. rewrite decide_False by done.
  rewrite CompareIDs_ne by congruence. rewrite Eo. rewrite !bool_decide_true by set_solver.
  rewrite (IH c) by (done || set_solver). cbn [length]. rewrite <- Nat.add_assoc. f_equal; set_solver.
Qed.

Lemma continues_move x cs : forall prev rest before n, continues x prev cs -> prev ∈ before ->
  Yata.conflictScan og ro x (cs ++ rest) before ∅ n n =
  Yata.conflictScan og ro x rest (list_to_set cs ∪ before) ∅ (n + length cs) (n + length cs).
Proof.
  induction cs as [|c cs IH]; intros prev rest before n Hc Hb; cbn [app].
  { cbn [length]. rewrite Nat.add_0_r. f_equal; set_solver. }
  destruct Hc as (Eo & Hne & Hr & Hx & Hc). cbn [Yata.conflictScan]. rewrite decide_False by done.
  rewrite CompareIDs_ne by congruence. rewrite Eo. rewrite bool_decide_true by set_solver.
  rewrite bool_decide_false by set_solver.
  rewrite (IH c) by (done || set_solver). cbn [length]. rewrite <- Nat.add_assoc. f_equal; set_solver.
Qed.

(** Elements that follow a fresh element go right behind it. *)
Lemma integrate_next (l1 l2 : list ID) c x : c ∉ l1 -> og x = Some c ->
  (forall y, y ∈ l2 -> og y <> Some c /\ og y <> Some y) ->
  Yata.integrate og ro (l1 ++ c :: l2) x = l1 ++ c :: x :: l2.
Proof.
  intros Hc Ex Hl. unfold Yata.integrate. rewrite Ex. cbn [splitOrigin]. rewrite splitAfter_app by done.
  assert (E : Yata.conflictScan og ro x l2 ∅ ∅ 0 0 = 0%nat).
  { destruct l2 as [|y l2]; [done|]. destruct (Hl y (list_elem_of_here _ _)) as [H1 H2]. cbn [Yata.conflictScan].
    case_decide; [done|]. rewrite CompareIDs_ne by congruence. destruct (og y) as [q|]; [|done].
    rewrite bool_decide_false; [done|]. set_solver. }
  rewrite E. cbn [take drop]. by rewrite <- (assoc_L (++)).
Qed.

Fixpoint follows (prev : ID) (cs : list ID) : Prop :=
  match cs with [] => True | c :: cs' => og c = Some prev /\ follows c cs' end.

Lemma integrate_run (cs : list ID) : forall (l1 l2 : list ID) c, c ∉ l1 -> follows c cs -> NoDup (c :: cs) ->
  (forall a, a ∈ cs -> a ∉ l1) -> (forall y, y ∈ l2 -> og y <> Some y /\ forall a, a ∈ c :: cs -> og y <> Some a) ->
  fold_left (Yata.integrate og ro) cs (l1 ++ c :: l2) = l1 ++ c :: cs ++ l2.
Proof.
  induction cs as [|a cs IH]; intros l1 l2 c Hc Hcont Hnd Hl1 Hl2; [done|].
  destruct Hcont as (Ea & Hcont). cbn [fold_left]. apply list.NoDup_cons in Hnd as [Hca Hnd].
  rewrite integrate_next; [|done|done|].
  - rewrite (cons_middle c), (assoc_L (++)). rewrite (IH (l1 ++ [c]) l2 a).
    + by rewrite <- (assoc_L (++)).
    + intros [?| ->]%elem_snoc; [by apply (Hl1 a (list_elem_of_here _ _))|]. apply Hca. left.
    + done.
    + done.
    + intros b Hb [?| ->]%elem_snoc; [by apply (Hl1 b); [right|]|]. apply Hca. by right.
    + intros y Hy. destruct (Hl2 y Hy) as [? Ho]. split; [done|]. intros b Hb. apply Ho. by right.
  - intros y Hy. destruct (Hl2 y Hy) as [? Ho]. split; [|done]. apply Ho. left.
Qed.

End Elements.

(** ** Items as runs of elements *)
Fixpoint run (client clock : Z) (n : nat) : list ID :=
  match n with O => [] | S n' => GenID client clock :: run client (clock + 1) n' end.

Lemma elem_run q c k n : q ∈ run c k n <-> Client q = c /\ k <= Clock q < k + Z.of_nat n.
Proof.
  revert k. induction n as [|n IH]; intros k; cbn [run].
  - rewrite elem_of_nil. lia.
  - rewrite elem_of_cons, IH. destruct q as [qc qk]. cbn [Client Clock]. split.
    + intros [[= -> ->]|?]; lia.
    + intros [-> ?]. destruct (decide (qk = k)) as [->|?]; [by left|right; lia].
Qed.

Lemma NoDup_run c k n : NoDup (run c k n).
Proof.
  revert k. induction n as [|n IH]; intros k; cbn [run]; constructor; [|apply IH].
  rewrite elem_run. cbn [Client Clock]. lia.
Qed.

Lemma run_app c k n m : run c k (n + m) = run c k n ++ run c (k + Z.of_nat n) m.
Proof.
  revert k. induction n as [|n IH]; intros k; cbn [run app Nat.add].
  - f_equal. lia.
  - rewrite IH. do 3 f_equal. lia.
Qed.

Lemma length_run c k n : length (run c k n) = n.
Proof. revert k. induction n as [|n IH]; intros k; cbn [run length]; [done|]. by rewrite IH. Qed.

Section Repr.
Context {V : Type}.
Variables og ro : ID -> option ID.
Context (interpolate : Z -> Z -> Z -> Z).
Context (Hinterp : forall clock span end_, 0 < span -> 0 <= clock <= span -> 0 <= end_ -> 0 <= interpolate clock span end_ <= end_).
Implicit Types (it bi : itemStruct V) (h : gmap nat (itemStruct V)) (d : docState V).

Definition chars it : list ID := run (Client (i_id it)) (Clock (i_id it)) (Z.to_nat (i_length it)).

(** The item carries the origins of its elements. *)
Record agrees it : Prop := {
  ag_origin : i_origin it = og (i_id it);
  ag_right : i_rightOrigin it = ro (i_id it);
  ag_length : 0 < i_length it;
  ag_inner : forall q, q ∈ chars it -> q <> i_id it ->
    og q = Some (GenID (Client q) (Clock q - 1)) /\ ro q = ro (i_id it)
}.

Lemma elem_chars q it : q ∈ chars it <->
  Client q = Client (i_id it) /\ Clock (i_id it) <= Clock q < Clock (i_id it) + Z.max 0 (i_length it).
Proof. unfold chars. rewrite elem_run. lia. Qed.

Lemma chars_cons it : 0 < i_length it ->
  chars it = i_id it :: run (Client (i_id it)) (Clock (i_id it) + 1) (Z.to_nat (i_length it - 1)).
Proof.
  intros Hl. unfold chars. replace (Z.to_nat (i_length it)) with (S (Z.to_nat (i_length it - 1))) by lia.
  cbn [run]. by destruct (i_id it).
Qed.

Lemma chars_length it : 0 <= i_length it -> Z.of_nat (length (chars it)) = i_length it.
Proof. intros Hl. unfold chars. rewrite length_run. lia. Qed.

Lemma first_char it : 0 < i_length it -> i_id it ∈ chars it.
Proof. intros Hl. rewrite chars_cons by done. left. Qed.

Lemma agrees_continues x it : agrees it ->
  (forall c, c ∈ chars it -> c <> i_id it -> Some c <> ro x) -> (forall c, c ∈ chars it -> og x <> Some c) ->
  continues og ro x (i_id it) (run (Client (i_id it)) (Clock (i_id it) + 1) (Z.to_nat (i_length it - 1))).
Proof.
  intros [_ _ Hl Hin] Hr Hx. 
  assert (Hgen : forall n k, Clock (i_id it) <= k -> k + 1 + Z.of_nat n <= Clock (i_id it) + i_length it ->
    continues og ro x (GenID (Client (i_id it)) k) (run (Client (i_id it)) (k + 1) n)).
  { induction n as [|n IH]; intros k Hk Hn; cbn [run continues]; [done|].
    assert (Hc : GenID (Client (i_id it)) (k + 1) ∈ chars it) by (rewrite elem_chars; cbn [Client Clock]; lia).
    assert (Hne : GenID (Client (i_id it)) (k + 1) <> i_id it).
    { destruct (i_id it) as [c0 k0]. cbn [Clock] in *. intros [= ?]. lia. }
    destruct (Hin _ Hc Hne) as [Ho _]. split_and!.
    - rewrite Ho. cbn [Client Clock]. do 2 f_equal. lia.
    - intros [= ?]. lia.
    - by apply Hr.
    - apply Hx. rewrite elem_chars. cbn [Client Clock]. lia.
    - apply IH; lia. }
  specialize (Hgen (Z.to_nat (i_length it - 1)) (Clock (i_id it))). destruct (i_id it) as [ic ik]. apply Hgen; cbn [Clock] in *; lia.
Qed.

Lemma agrees_follows it : agrees it ->
  follows og (i_id it) (run (Client (i_id it)) (Clock (i_id it) + 1) (Z.to_nat (i_length it - 1))).
Proof.
  intros [_ _ Hl Hin].
  assert (Hgen : forall n k, Clock (i_id it) <= k -> k + 1 + Z.of_nat n <= Clock (i_id it) + i_length it ->
    follows og (GenID (Client (i_id it)) k) (run (Client (i_id it)) (k + 1) n)).
  { induction n as [|n IH]; intros k Hk Hn; cbn [run follows]; [done|]. split; [|apply IH; lia].
    destruct (Hin (GenID (Client (i_id it)) (k + 1))) as [Ho _].
    - rewrite elem_chars. cbn [Client Clock]. lia.
    - destruct (i_id it) as [c0 k0]. cbn [Clock] in *. intros [= ?]. lia.
    - rewrite Ho. cbn [Client Clock]. do 2 f_equal. lia. }
  specialize (Hgen (Z.to_nat (i_length it - 1)) (Clock (i_id it))). destruct (i_id it) as [ic ik]. apply Hgen; cbn [Clock] in *; lia.
Qed.

(** ** The linked list *)
Definition block h (p : nat) : list ID := from_option chars [] (h !! p).
Definition elems h (ps : list nat) : list ID := ps ≫= block h.

Fixpoint linked h (prev : option nat) (ps : list nat) : Prop :=
  match ps with
  | [] => True
  | p :: ps' => exists it, h !! p = Some it /\ i_left it = prev /\ i_right it = head ps' /\ linked h (Some p) ps'
  end.

Lemma elems_app h ps1 ps2 : elems h (ps1 ++ ps2) = elems h ps1 ++ elems h ps2.
Proof. apply bind_app. Qed.

Lemma elems_cons h p ps : elems h (p :: ps) = block h p ++ elems h ps.
Proof. done. Qed.

Lemma elem_elems h q ps : q ∈ elems h ps <-> exists p it, p ∈ ps /\ h !! p = Some it /\ q ∈ chars it.
Proof.
  unfold elems. rewrite list_elem_of_bind. unfold block. split.
  - intros (p & Hq & Hp). destruct (h !! p) as [it|] eqn:E; [|by apply not_elem_of_nil in Hq]. by exists p, it.
  - intros (p & it & Hp & E & Hq). exists p. by rewrite E.
Qed.

Lemma block_Some h p it : h !! p = Some it -> block h p = chars it.
Proof. intros E. unfold block. by rewrite E. Qed.

Lemma linked_lookup h prev ps p : linked h prev ps -> p ∈ ps -> is_Some (h !! p).
Proof.
  revert prev. induction ps as [|p' ps IH]; intros prev Hl Hp; [by apply not_elem_of_nil in Hp|].
  destruct Hl as (it & E & _ & _ & Hl). apply elem_of_cons in Hp as [->|Hp]; eauto.
Qed.

(** What the store's search returns for the elements of the list. *)
Definition found d (ps : list nat) : Prop :=
  (forall p it q, p ∈ ps -> d_items d !! p = Some it -> q ∈ chars it ->
     @getStruct _ (refStruct (d_items d)) interpolate (d_store d) q = Some (RItem p)) /\
  (forall p it q, @getStruct _ (refStruct (d_items d)) interpolate (d_store d) q = Some (RItem p) ->
     d_items d !! p = Some it -> q ∈ chars it) /\
  (forall p, p ∈ ps -> is_Some (d_items d !! p)).

(** Where the scan over the items [bs] ends: [rl] is the final left item, and
    [rd] the number of elements up to it. *)
Definition lands h (bs : list nat) (n : nat) (left : option nat) (dest : nat) (rl : option nat) (rd : nat) : Prop :=
  (rl = left /\ rd = dest) \/
  exists k b, bs !! k = Some b /\ rl = Some b /\ rd = (n + length (elems h (take (S k) bs)))%nat.

Lemma lands_keep h b bs n left dest rl rd :
  lands h bs (n + length (block h b)) left dest rl rd -> lands h (b :: bs) n left dest rl rd.
Proof.
  intros [?|(k & c & Hk & -> & ->)]; [by left|right]. exists (S k), c. split_and!; [done|done|].
  cbn [take]. rewrite elems_cons, length_app. cbn [take]. lia.
Qed.

Lemma lands_move h b bs n left dest rl rd :
  lands h bs (n + length (block h b)) (Some b) (n + length (block h b)) rl rd -> lands h (b :: bs) n left dest rl rd.
Proof.
  intros [[-> ->]|(k & c & Hk & -> & ->)]; right.
  - exists 0%nat, b. split_and!; [done|done|]. cbn [take]. rewrite elems_cons, length_app. simpl. lia.
  - exists (S k), c. split_and!; [done|done|]. cbn [take]. rewrite elems_cons, length_app. cbn [take]. lia.
Qed.

(** The items that the scan passes, relative to the new item [it]. *)
Record scannable d (ps : list nat) it (b : nat) bi : Prop := {
  sc_agrees : agrees bi;
  sc_self : forall q, og (i_id bi) = Some q -> q ∉ chars bi;
  sc_origin : forall c, c ∈ chars bi -> og (i_id it) <> Some c;
  sc_right : i_right it = Some b <-> ro (i_id it) = Some (i_id bi);
  sc_inner : forall c, c ∈ chars bi -> c <> i_id bi -> Some c <> ro (i_id it);
  sc_in : b ∈ ps
}.

(** One item and its elements, kept behind the destination. *)
Lemma block_keep d ps it b bi rest before confl n dest : scannable d ps it b bi ->
  Yata.conflictScan og ro (i_id it) (run (Client (i_id bi)) (Clock (i_id bi) + 1) (Z.to_nat (i_length bi - 1)) ++ rest)
    ({[i_id bi]} ∪ before) ({[i_id bi]} ∪ confl) (n + 1) dest =
  Yata.conflictScan og ro (i_id it) rest (list_to_set (chars bi) ∪ before) (list_to_set (chars bi) ∪ confl)
    (n + length (chars bi)) dest.
Proof.
  intros Hs. pose proof (ag_length _ (sc_agrees _ _ _ _ _ Hs)) as Hl.
  rewrite (continues_keep og ro (i_id it) _ (i_id bi)); [|apply agrees_continues; apply Hs|set_solver|set_solver].
  rewrite (chars_cons bi Hl). cbn [length]. f_equal; [set_solver|set_solver|lia].
Qed.

(** The same, moving the destination behind it. *)
Lemma block_move d ps it b bi rest before n : scannable d ps it b bi ->
  Yata.conflictScan og ro (i_id it) (run (Client (i_id bi)) (Clock (i_id bi) + 1) (Z.to_nat (i_length bi - 1)) ++ rest)
    ({[i_id bi]} ∪ before) ∅ (n + 1) (n + 1) =
  Yata.conflictScan og ro (i_id it) rest (list_to_set (chars bi) ∪ before) ∅ (n + length (chars bi)) (n + length (chars bi)).
Proof.
  intros Hs. pose proof (ag_length _ (sc_agrees _ _ _ _ _ Hs)) as Hl.
  rewrite (continues_move og ro (i_id it) _ (i_id bi)); [|apply agrees_continues; apply Hs|set_solver].
  rewrite (chars_cons bi Hl). cbn [length]. f_equal; [set_solver|lia|lia].
Qed.

Definition covered_by h (cs : gset ID) (bs : gset nat) : Prop :=
  forall c, c ∈ cs <-> exists b bi, b ∈ bs /\ h !! b = Some bi /\ c ∈ chars bi.

Lemma covered_add h cs bs b bi : covered_by h cs bs -> h !! b = Some bi ->
  covered_by h (list_to_set (chars bi) ∪ cs) ({[b]} ∪ bs).
Proof.
  intros Hc Hb c. rewrite elem_of_union, elem_of_list_to_set, (Hc c). split.
  - intros [?|(b' & bi' & ? & ? & ?)]; [exists b, bi|exists b', bi']; set_solver.
  - intros (b' & bi' & [->%elem_of_singleton|?]%elem_of_union & E & ?); [left; congruence|right; eauto].
Qed.

Lemma covered_empty h : covered_by h ∅ ∅.
Proof. intros c. set_solver. Qed.

(** The linked-list scan computes the scan over the elements. *)
Lemma scan_sim d ps it : agrees it -> found d ps -> forall bs fuel prev before confl left beforeC conflC n dest,
  (length bs < fuel)%nat -> linked (d_items d) prev bs ->
  (forall b bi, b ∈ bs -> d_items d !! b = Some bi -> scannable d ps it b bi) ->
  covered_by (d_items d) beforeC before -> covered_by (d_items d) conflC confl ->
  (forall b, b ∈ before -> b ∈ ps) -> (forall b, b ∈ confl -> b ∈ before) ->
  exists rl, conflictScan interpolate fuel it (head bs) before confl left d = (Ok rl, d) /\
    lands (d_items d) bs n left dest rl (Yata.conflictScan og ro (i_id it) (elems (d_items d) bs) beforeC conflC n dest).
Proof.
  intros Hit (Hf1 & Hf2 & Hf3). induction bs as [|b bs IH];
    intros fuel prev before confl left beforeC conflC n dest Hfuel Hl Hsc Hcb Hcc Hbp Hcfb; destruct fuel as [|fuel]; try (simpl in Hfuel; lia).
  { exists left. split; [done|by left]. }
  destruct Hl as (bi & Eb & Elft & Ert & Hl). pose proof (Hsc b bi (list_elem_of_here _ _) Eb) as Hs.
  pose proof (sc_agrees _ _ _ _ _ Hs) as [Hao Har Hlen _].
  cbn [head conflictScan]. rewrite elems_cons, (block_Some _ _ _ Eb), (chars_cons bi Hlen). cbn [app Yata.conflictScan].
  destruct (decide (Some b = i_right it)) as [Er|Er].
  { exists left. split; [done|left]. split; [done|]. rewrite decide_True; [done|]. symmetry. by apply (sc_right _ _ _ _ _ Hs). }
  rewrite decide_False by (intros E; apply Er; symmetry; by apply (sc_right _ _ _ _ _ Hs)).
  unfold rbind at 1. unfold getItem at 1. rewrite Eb. cbn [deref]. unfold rret at 1.
  rewrite (ag_origin _ Hit), (ag_right _ Hit), Hao, Har. simpl in Hfuel.
  assert (IHk : forall confl' conflC' left' dest', covered_by (d_items d) conflC' confl' ->
      (forall c, c ∈ confl' -> c ∈ {[b]} ∪ before) -> exists rl,
      conflictScan interpolate fuel it (i_right bi) ({[b]} ∪ before) confl' left' d = (Ok rl, d) /\
      lands (d_items d) bs (n + length (chars bi)) left' dest' rl
        (Yata.conflictScan og ro (i_id it) (elems (d_items d) bs) (list_to_set (chars bi) ∪ beforeC) conflC' (n + length (chars bi)) dest')).
  { intros confl' conflC' left' dest' Hc' Hin. rewrite Ert. eapply IH; [lia|done| |by apply covered_add|done| |done].
    - intros b' bi' Hb'. apply Hsc. by right.
    - intros b' [->%elem_of_singleton|?]%elem_of_union; [apply Hs|auto]. }
  assert (Hkeep : exists rl, conflictScan interpolate fuel it (i_right bi) ({[b]} ∪ before) ({[b]} ∪ confl) left d = (Ok rl, d) /\
    lands (d_items d) (b :: bs) n left dest rl (Yata.conflictScan og ro (i_id it)
      (run (Client (i_id bi)) (Clock (i_id bi) + 1) (Z.to_nat (i_length bi - 1)) ++ elems (d_items d) bs)
      ({[i_id bi]} ∪ beforeC) ({[i_id bi]} ∪ conflC) (n + 1) dest)).
  { destruct (IHk ({[b]} ∪ confl) (list_to_set (chars bi) ∪ conflC) left dest) as (rl & E1 & E2); [by apply covered_add|set_solver|].
    exists rl. split; [done|]. rewrite (block_keep d ps it b bi _ _ _ _ _ Hs). apply lands_keep. by rewrite (block_Some _ _ _ Eb). }
  assert (Hmove : exists rl, conflictScan interpolate fuel it (i_right bi) ({[b]} ∪ before) ∅ (Some b) d = (Ok rl, d) /\
    lands (d_items d) (b :: bs) n left dest rl (Yata.conflictScan og ro (i_id it)
      (run (Client (i_id bi)) (Clock (i_id bi) + 1) (Z.to_nat (i_length bi - 1)) ++ elems (d_items d) bs)
      ({[i_id bi]} ∪ beforeC) ∅ (n + 1) (n + 1))).
  { destruct (IHk ∅ ∅ (Some b) (n + length (chars bi))%nat) as (rl & E1 & E2); [apply covered_empty|set_solver|].
    exists rl. split; [done|]. rewrite (block_move d ps it b bi _ _ _ Hs). apply lands_move. by rewrite (block_Some _ _ _ Eb). }
  assert (Hstop : exists rl, rret (D := docState V) left d = (Ok rl, d) /\ lands (d_items d) (b :: bs) n left dest rl dest)
    by (exists left; split; [done|by left]).
  destruct (CompareIDs (og (i_id it)) (og (i_id bi))) eqn:Eo.
  - destruct (Client (i_id bi) <? Client (i_id it)); [done|]. by destruct (CompareIDs (ro (i_id it)) (ro (i_id bi))).
  - destruct (og (i_id bi)) as [q|] eqn:Eq; [|done].
    pose proof (sc_self _ _ _ _ _ Hs q Eq) as Hself. unfold rbind at 1. unfold getStructM at 1, get at 1.
    assert (Hmem : forall cs xs, covered_by (d_items d) cs xs -> (forall c, c ∈ xs -> c ∈ ps) ->
      forall tmp ti, getStruct (H := refStruct (d_items d)) interpolate (d_store d) q = Some (RItem tmp) -> d_items d !! tmp = Some ti ->
      (tmp ∈ {[b]} ∪ xs <-> q ∈ {[i_id bi]} ∪ cs)).
    { intros cs xs Hcs Hin tmp ti Eg Et. pose proof (Hf2 tmp ti q Eg Et) as Hq. split.
      - intros [->%elem_of_singleton|Ht]%elem_of_union; [simplify_eq; done|]. apply elem_of_union_r. apply Hcs. eauto.
      - intros [->%elem_of_singleton|Hc]%elem_of_union; [destruct Hself; by apply first_char|].
        apply elem_of_union_r. apply Hcs in Hc as (b' & bi' & Hb' & Eb' & Hqb').
        rewrite (Hf1 b' bi' q (Hin b' Hb') Eb' Hqb') in Eg. by simplify_eq. }
    assert (Hout : forall cs xs, covered_by (d_items d) cs xs -> (forall c, c ∈ xs -> c ∈ ps) ->
      (forall tmp ti, getStruct (H := refStruct (d_items d)) interpolate (d_store d) q = Some (RItem tmp) -> d_items d !! tmp = Some ti -> False) ->
      q ∉ {[i_id bi]} ∪ cs).
    { intros cs xs Hcs Hin Hno [->%elem_of_singleton|Hc]%elem_of_union; [destruct Hself; by apply first_char|].
      apply Hcs in Hc as (b' & bi' & Hb' & Eb' & Hqb'). eapply (Hno b' bi'); [|done]. by apply (Hf1 b' bi' q (Hin b' Hb') Eb'). }
    assert (Hcp : forall c, c ∈ confl -> c ∈ ps) by auto.
    destruct (getStruct (H := refStruct (d_items d)) interpolate (d_store d) q) as [[tmp|gc]|] eqn:Eg.
    + destruct (d_items d !! tmp) as [ti|] eqn:Et.
      * rewrite (bool_decide_ext _ _ (Hmem _ _ Hcb Hbp tmp ti eq_refl Et)), (bool_decide_ext _ _ (Hmem _ _ Hcc Hcp tmp ti eq_refl Et)).
        repeat case_bool_decide; done.
      * assert (Hnt : tmp ∉ {[b]} ∪ before).
        { intros [->%elem_of_singleton|Ht]%elem_of_union; [congruence|].
          destruct (Hf3 tmp (Hbp tmp Ht)). congruence. }
        rewrite bool_decide_false by done. rewrite bool_decide_false; [done|]. apply (Hout _ before); [done|done|].
        intros t' ti' [= <-]. congruence.
    + rewrite bool_decide_false; [done|]. apply (Hout _ before); [done|done|]. by intros.
    + rewrite bool_decide_false; [done|]. apply (Hout _ before); [done|done|]. by intros.
Qed.

(** ** Heap updates that keep the bodies of the items *)
Definition same_body it1 it2 : Prop :=
  i_id it1 = i_id it2 /\ i_length it1 = i_length it2 /\ i_origin it1 = i_origin it2 /\ i_rightOrigin it1 = i_rightOrigin it2 /\
  i_parent it1 = i_parent it2 /\ i_parentSub it1 = i_parentSub it2 /\ i_content it1 = i_content it2.

Definition same_bodies h1 h2 : Prop :=
  forall q, match h1 !! q, h2 !! q with
            | Some a, Some b => same_body a b
            | None, None => True
            | _, _ => False
            end.

Lemma same_bodies_refl h : same_bodies h h.
Proof. intros q. by destruct (h !! q). Qed.

Lemma same_bodies_trans h1 h2 h3 : same_bodies h1 h2 -> same_bodies h2 h3 -> same_bodies h1 h3.
Proof.
  intros H1 H2 q. specialize (H1 q). specialize (H2 q). unfold same_body in *.
  destruct (h1 !! q), (h2 !! q), (h3 !! q); try done. intuition congruence.
Qed.

Lemma same_bodies_insert h1 h2 p it it' : same_bodies h1 h2 -> h2 !! p = Some it -> same_body it it' ->
  same_bodies h1 (<[p := it']> h2).
Proof.
  intros Hs Hp Hb. eapply same_bodies_trans; [done|]. intros q. destruct (decide (q = p)) as [->|Hq].
  - by rewrite Hp, lookup_insert_eq.
  - rewrite lookup_insert_ne by done. by destruct (h2 !! q).
Qed.

Lemma chars_body it1 it2 : same_body it1 it2 -> chars it1 = chars it2.
Proof. intros (E1 & E2 & _). unfold chars. by rewrite E1, E2. Qed.

Lemma agrees_body it1 it2 : same_body it1 it2 -> agrees it1 -> agrees it2.
Proof.
  intros Hb [A B C D]. pose proof (chars_body _ _ Hb) as Hc. destruct Hb as (E1 & E2 & E3 & E4 & _).
  split; [congruence|congruence|lia|]. intros q. rewrite <- Hc, <- E1. apply D.
Qed.

Lemma block_body h1 h2 p : same_bodies h1 h2 -> block h1 p = block h2 p.
Proof.
  intros Hs. specialize (Hs p). unfold block. destruct (h1 !! p), (h2 !! p); try done. by apply chars_body.
Qed.

Lemma elems_body h1 h2 ps : same_bodies h1 h2 -> elems h1 ps = elems h2 ps.
Proof.
  intros Hs. induction ps as [|p ps IH]; [done|]. rewrite !elems_cons, IH. f_equal. by apply block_body.
Qed.

Lemma ref_body h1 h2 r : same_bodies h1 h2 ->
  @getID _ (refStruct h1) r = @getID _ (refStruct h2) r /\ @structLength _ (refStruct h1) r = @structLength _ (refStruct h2) r.
Proof.
  intros Hs. destruct r as [p|gc]; [|done]. specialize (Hs p). simpl. unfold same_body in Hs.
  destruct (h1 !! p), (h2 !! p); simpl; intuition.
Qed.

Lemma contiguous_body h1 h2 c ss : same_bodies h1 h2 ->
  @contiguous_from _ (refStruct h1) c ss -> @contiguous_from _ (refStruct h2) c ss.
Proof.
  intros Hs. revert c. induction ss as [|s ss IH]; intros c; [done|]. cbn [contiguous_from]. unfold struct_end.
  destruct (ref_body h1 h2 s Hs) as [-> ->]. intros (? & ? & ?). auto.
Qed.

Lemma store_ok_body h1 h2 st : same_bodies h1 h2 -> @store_ok _ (refStruct h1) st -> @store_ok _ (refStruct h2) st.
Proof.
  intros Hs (Hok & Hnd & Hin). split_and!; [|done|done]. intros k ss Hk. destruct (Hok k ss Hk) as (Hne & (c & Hc) & Hf).
  split_and!; [done|exists c; by eapply contiguous_body|]. eapply list.Forall_impl; [exact Hf|]. intros r.
  destruct (ref_body h1 h2 r Hs) as [-> _]. done.
Qed.

Lemma addStruct_body h1 h2 st r : same_bodies h1 h2 -> @addStruct _ (refStruct h1) st r = @addStruct _ (refStruct h2) st r.
Proof.
  intros Hs. unfold addStruct. destruct (ref_body h1 h2 r Hs) as [-> _]. destruct (clientStructs st _) as [ss|]; [|done].
  destruct (list.last ss) as [l|]; [|done]. by destruct (ref_body h1 h2 l Hs) as [-> ->].
Qed.

(** ** Segments of a linked list *)
Definition head_or (next : option nat) (ps : list nat) : option nat :=
  match ps with [] => next | p :: _ => Some p end.
Definition last_or (prev : option nat) (ps : list nat) : option nat :=
  match list.last ps with Some p => Some p | None => prev end.

Fixpoint lseg h (prev : option nat) (ps : list nat) (next : option nat) : Prop :=
  match ps with
  | [] => True
  | p :: ps' => exists it, h !! p = Some it /\ i_left it = prev /\ i_right it = head_or next ps' /\ lseg h (Some p) ps' next
  end.

Lemma linked_lseg h prev ps : linked h prev ps <-> lseg h prev ps None.
Proof.
  revert prev. induction ps as [|p ps IH]; intros prev; [done|]. cbn [linked lseg].
  assert (head ps = head_or None ps) as -> by by destruct ps.
  split; intros (it & ? & ? & ? & ?%IH); eauto 10.
Qed.

Lemma lseg_app h prev ps1 ps2 next :
  lseg h prev (ps1 ++ ps2) next <-> lseg h prev ps1 (head_or next ps2) /\ lseg h (last_or prev ps1) ps2 next.
Proof.
  revert prev. induction ps1 as [|p ps1 IH]; intros prev; cbn [app lseg]; [by split; [|intros [_ ?]]|].
  assert (last_or prev (p :: ps1) = last_or (Some p) ps1) as ->.
  { unfold last_or. destruct ps1 as [|q ps1] using rev_ind; [done|]. by rewrite app_comm_cons, !last_snoc. }
  assert (head_or next (ps1 ++ ps2) = head_or (head_or next ps2) ps1) as -> by by destruct ps1.
  split.
  - intros (it & ? & ? & ? & [? ?]%IH). split; eauto 10.
  - intros [(it & ? & ? & ? & ?) ?]. exists it. split_and!; try done. by apply IH.
Qed.

Lemma lseg_frame h p it prev ps next : p ∉ ps -> lseg h prev ps next -> lseg (<[p := it]> h) prev ps next.
Proof.
  revert prev. induction ps as [|q ps IH]; intros prev Hp; [done|]. intros (qi & Hq & ? & ? & ?).
  exists qi. rewrite lookup_insert_ne by set_solver. split_and!; try done. apply IH; [set_solver|done].
Qed.

Lemma lseg_set_next h prev ps l li next next' : l ∉ ps -> lseg h prev (ps ++ [l]) next -> h !! l = Some li ->
  lseg (<[l := with_right next' li]> h) prev (ps ++ [l]) next'.
Proof.
  rewrite !lseg_app. intros Hl [H1 (li' & E & ? & ? & _)] E'. assert (li' = li) as -> by congruence. split.
  - by apply lseg_frame.
  - exists (with_right next' li). by rewrite lookup_insert_eq.
Qed.

Lemma lseg_set_prev h prev prev' r ri ps next : r ∉ ps -> lseg h prev (r :: ps) next -> h !! r = Some ri ->
  lseg (<[r := with_left prev' ri]> h) prev' (r :: ps) next.
Proof.
  intros Hr (ri' & E & ? & ? & ?) E'. assert (ri' = ri) as -> by congruence. exists (with_left prev' ri). rewrite lookup_insert_eq.
  split_and!; try done. by apply lseg_frame.
Qed.

(** ** Reconnecting the neighbours *)

(** Only the links of the items differ. *)
Definition relinked h1 h2 : Prop :=
  forall q, match h1 !! q, h2 !! q with
            | Some a, Some b => exists l r, b = with_links l r a
            | None, None => True
            | _, _ => False
            end.

Lemma relinked_refl h : relinked h h.
Proof. intros q. destruct (h !! q) as [a|]; [|done]. exists (i_left a), (i_right a). by destruct a. Qed.

Lemma relinked_insert h1 h2 p it l r : relinked h1 h2 -> h2 !! p = Some it -> relinked h1 (<[p := with_links l r it]> h2).
Proof.
  intros Hs Hp q. specialize (Hs q). destruct (decide (q = p)) as [->|Hq].
  - rewrite lookup_insert_eq. rewrite Hp in Hs. destruct (h1 !! p); [|done]. destruct Hs as (l' & r' & ->). by exists l, r.
  - by rewrite lookup_insert_ne.
Qed.

Lemma relinked_trans h1 h2 h3 : relinked h1 h2 -> relinked h2 h3 -> relinked h1 h3.
Proof.
  intros H1 H2 q. specialize (H1 q). specialize (H2 q). destruct (h1 !! q), (h2 !! q), (h3 !! q); try done.
  destruct H1 as (? & ? & ->), H2 as (l & r & ->). by exists l, r.
Qed.

Lemma relinked_bodies h1 h2 : relinked h1 h2 -> same_bodies h1 h2.
Proof. intros Hs q. specialize (Hs q). destruct (h1 !! q), (h2 !! q); try done. destruct Hs as (l & r & ->). done. Qed.

Lemma getItem_eq d p it : d_items d !! p = Some it -> getItem p d = (Ok it, d).
Proof. intros E. unfold getItem. by rewrite E. Qed.

Lemma setItem_eq d p it f : d_items d !! p = Some it -> setItem p f d = (Ok tt, set_items (<[p := f it]> (d_items d)) d).
Proof. intros E. unfold setItem, rbind. by rewrite (getItem_eq _ _ _ E). Qed.

Lemma getType_eq d t ty : d_types d !! t = Some ty -> getType t d = (Ok ty, d).
Proof. intros E. unfold getType. by rewrite E. Qed.

Lemma setType_eq d t ty f : d_types d !! t = Some ty -> setType t f d = (Ok tt, set_types (<[t := f ty]> (d_types d)) d).
Proof. intros E. unfold setType, rbind. by rewrite (getType_eq _ _ _ E). Qed.

Lemma last_or_None ps : last_or None ps = list.last ps.
Proof. unfold last_or. by destruct (list.last ps). Qed.

(** The right neighbour's left link, and the conclusion of [linkItem]. *)
Lemma link_right h p it ps1 ps2 : p ∉ ps1 ++ ps2 -> NoDup (ps1 ++ ps2) -> h !! p = Some it ->
  i_left it = list.last ps1 -> i_right it = head_or None ps2 ->
  lseg h None ps1 (Some p) -> lseg h (list.last ps1) ps2 None ->
  exists h', (match i_right it with
              | Some r => exists ri, h !! r = Some ri /\ h' = <[r := with_left (Some p) ri]> h
              | None => h' = h
              end) /\ linked h' None (ps1 ++ p :: ps2) /\ relinked h h'.
Proof.
  intros Hp Hnd Ep El Er H1 H2. rewrite Er. destruct ps2 as [|r ps2]; cbn [head_or].
  - exists h. split_and!; [done| |apply relinked_refl]. apply linked_lseg. apply lseg_app. split; [done|].
    rewrite last_or_None. exists it. done.
  - apply list.NoDup_app in Hnd as (_ & Hd & Hnd). apply list.NoDup_cons in Hnd as [Hr _].
    pose proof H2 as (ri & Eri & _). exists (<[r := with_left (Some p) ri]> h).
    split_and!; [eauto| |by apply relinked_insert; [apply relinked_refl|]].
    apply linked_lseg, lseg_app. split.
    + apply lseg_frame; [|done]. intros ?. by apply (Hd r); [|left].
    + rewrite last_or_None. exists it. rewrite lookup_insert_ne by set_solver. split_and!; try done.
      by eapply lseg_set_prev.
Qed.

Lemma linkItem_spec d t ty p it ps1 ps2 : d_types d !! t = Some ty -> t_start ty = head_or None (ps1 ++ ps2) ->
  linked (d_items d) None (ps1 ++ ps2) -> p ∉ ps1 ++ ps2 -> NoDup (ps1 ++ ps2) -> d_items d !! p = Some it ->
  i_parentSub it = [] -> i_left it = list.last ps1 ->
  exists h' ty', linkItem p t d = (Ok tt, set_items h' (set_types (<[t := ty']> (d_types d)) d)) /\
    linked h' None (ps1 ++ p :: ps2) /\ relinked (d_items d) h' /\
    t_start ty' = head_or None (ps1 ++ p :: ps2) /\ t_item ty' = t_item ty /\ t_length ty' = t_length ty /\ t_itemCount ty' = t_itemCount ty.
Proof.
  intros Et Est Hl Hp Hnd Ep Es El. apply linked_lseg, lseg_app in Hl as [H1 H2]. rewrite last_or_None in H2.
  unfold linkItem. unfold rbind at 1. rewrite (getItem_eq _ _ _ Ep), El.
  destruct (list.last ps1) as [l|] eqn:Elast.
  - apply last_Some in Elast as [p1 ->]. pose proof (proj2 (proj1 (lseg_app _ _ _ _ _) H1)) as (li & Eli & _ & Eri & _).
    assert (Hpl : p <> l) by set_solver.
    assert (Hl1 : l ∉ p1).
    { apply list.NoDup_app in Hnd as (Hnd & _). apply list.NoDup_app in Hnd as (_ & Hd & _). intros ?. by apply (Hd l); [|left]. }
    set (h1 := <[p := with_right (i_right li) it]> (d_items d)).
    set (h2 := <[l := with_right (Some p) li]> h1).
    assert (E1 : h1 !! l = Some li) by (unfold h1; by rewrite lookup_insert_ne).
    assert (E2 : h2 !! p = Some (with_right (i_right li) it)) by (unfold h2, h1; by rewrite lookup_insert_ne, lookup_insert_eq).
    destruct (link_right h2 p (with_right (i_right li) it) (p1 ++ [l]) ps2) as (h' & Hh' & Hl' & Hr');
      [done|done|done|by rewrite last_snoc|exact Eri| | |].
    { unfold h2. eapply lseg_set_next; [done| |done]. unfold h1. apply lseg_frame; [set_solver|exact H1]. }
    { unfold h2, h1. rewrite last_snoc. apply lseg_frame; [|apply lseg_frame; [set_solver|done]].
      apply list.NoDup_app in Hnd as (_ & Hd & _). intros ?. apply (Hd l); [set_solver|done]. }
    exists h', ty. assert (Hty : <[t := ty]> (d_types d) = d_types d) by (by apply insert_id). rewrite Hty.
    assert (Hsetd : set_types (d_types d) d = d) by by destruct d.
    split_and!; [|done| |by destruct p1|done|done|done].
    + unfold rbind at 1. unfold rbind at 1. rewrite (getItem_eq _ _ _ Eli). unfold rbind at 1. rewrite (setItem_eq _ _ _ _ Ep).
      rewrite (setItem_eq _ l li); [|exact E1]. unfold rbind at 1. rewrite (getItem_eq _ p (with_right (i_right li) it)); [|exact E2].
      rewrite Hsetd. destruct (i_right (with_right (i_right li) it)) as [r|].
      * destruct Hh' as (ri & Eri' & ->). by rewrite (setItem_eq _ r ri); [|exact Eri'].
      * subst h'. by rewrite bool_decide_false by (cbn; by rewrite Es; intros ?).
    + eapply relinked_trans; [|exact Hr']. unfold h2, h1. apply relinked_insert; [|done].
      by apply relinked_insert; [apply relinked_refl|].
  - apply last_None in Elast as ->. cbn [app] in *.
    set (h1 := <[p := with_right (head_or None ps2) it]> (d_items d)).
    assert (E1 : h1 !! p = Some (with_right (head_or None ps2) it)) by apply lookup_insert_eq.
    destruct (link_right h1 p (with_right (head_or None ps2) it) [] ps2) as (h' & Hh' & Hl' & Hr'); [done|done|done|done|done|done| |].
    { unfold h1. apply lseg_frame; [done|exact H2]. }
    exists h', (with_start (Some p) ty). split_and!; [|done| |done|done|done|done].
    + unfold rbind at 1. unfold rbind at 1. unfold firstItem. unfold rbind at 1. rewrite (getType_eq _ _ _ Et).
      rewrite bool_decide_false by (by rewrite Es; intros ?). unfold rret at 1.
      unfold rbind at 1. rewrite bool_decide_true by done. rewrite (setType_eq _ _ _ _ Et).
      rewrite (setItem_eq _ p it); [|exact Ep]. unfold rbind at 1. rewrite Est.
      rewrite (getItem_eq _ p (with_right (head_or None ps2) it)); [|exact E1].
      destruct (i_right (with_right (head_or None ps2) it)) as [r|].
      * destruct Hh' as (ri & Eri' & ->). by rewrite (setItem_eq _ r ri); [|exact Eri'].
      * subst h'. by rewrite bool_decide_false by (cbn; by rewrite Es; intros ?).
    + eapply relinked_trans; [|exact Hr']. by apply relinked_insert; [apply relinked_refl|].
Qed.

(** ** The representation *)

(** Every reference of the store is an item of the heap. *)
Record store_repr d : Prop := {
  sr_ok : @store_ok _ (refStruct (d_items d)) (d_store d);
  sr_items : forall k ss q, clients (d_store d) !! k = Some ss -> RItem q ∈ ss -> is_Some (d_items d !! q)
}.

(** [ps] is the list of the type [t], and all of it is in the store. *)
Record list_repr d (t : nat) (ps : list nat) : Prop := {
  lr_start : exists ty, d_types d !! t = Some ty /\ t_start ty = head_or None ps;
  lr_linked : linked (d_items d) None ps;
  lr_agrees : forall q qi, q ∈ ps -> d_items d !! q = Some qi -> agrees qi;
  lr_store : forall q qi, q ∈ ps -> d_items d !! q = Some qi ->
    exists ss, clients (d_store d) !! Client (i_id qi) = Some ss /\ RItem q ∈ ss
}.

Lemma covers_chars h q qi k : h !! q = Some qi -> Client k = Client (i_id qi) ->
  @covers _ (refStruct h) (RItem q) (Clock k) <-> k ∈ chars qi.
Proof.
  intros E Hk. unfold covers, struct_end. rewrite elem_chars. simpl. rewrite E. simpl. lia.
Qed.

Lemma repr_found d t ps : store_repr d -> list_repr d t ps -> found d ps.
Proof.
  intros [Hok Hin] [_ Hl Ha Hs]. split_and!.
  - intros p it q Hp Ep Hq. destruct (Hs p it Hp Ep) as (ss & Hss & Hr).
    assert (Hc : Client q = Client (i_id it)) by (apply elem_chars in Hq; tauto).
    apply (@getStruct_covers _ (refStruct (d_items d)) interpolate Hinterp (d_store d) q ss); [done|by rewrite Hc|done|].
    by apply (covers_chars (d_items d) p it).
  - intros p it q Hg Ep. apply (@getStruct_inv _ (refStruct (d_items d)) interpolate Hinterp) in Hg as (ss & Hss & Hr & Hk); [|done].
    apply (covers_chars (d_items d) p it); [done| |done]. destruct Hok as (Hok & _). destruct (Hok _ _ Hss) as (_ & _ & Hf).
    rewrite list.Forall_forall in Hf. specialize (Hf _ Hr). simpl in Hf. rewrite Ep in Hf. done.
  - intros p Hp. by eapply linked_lookup.
Qed.

Lemma NoDup_items h ps : (forall p, p ∈ ps -> exists it, h !! p = Some it /\ 0 < i_length it) -> NoDup (elems h ps) -> NoDup ps.
Proof.
  induction ps as [|p ps IH]; intros Hps; [constructor|]. rewrite elems_cons. intros (_ & Hd & Hn)%list.NoDup_app.
  destruct (Hps p) as (it & E & Hl); [left|]. constructor; [|apply IH; [intros; apply Hps; by right|done]].
  intros Hp. apply (Hd (i_id it)); [rewrite (block_Some _ _ _ E); by apply first_char|].
  apply elem_elems. exists p, it. split_and!; [done|done|by apply first_char].
Qed.

Lemma length_size h ps : NoDup ps -> (forall p, p ∈ ps -> is_Some (h !! p)) -> (length ps <= size h)%nat.
Proof.
  intros Hn Hin. rewrite <- size_dom, <- (size_list_to_set (C := gset nat) ps Hn). apply subseteq_size.
  intros p Hp%elem_of_list_to_set. apply elem_of_dom. auto.
Qed.

(** The first item is the one without a left neighbour. *)
Lemma linked_head h ps r ri : linked h None ps -> r ∈ ps -> h !! r = Some ri -> i_left ri = None -> head ps = Some r.
Proof.
  intros Hl Hr Er El. destruct ps as [|p ps]; [by apply not_elem_of_nil in Hr|]. f_equal.
  apply elem_of_cons in Hr as [->|Hr]; [done|]. exfalso. destruct Hl as (_ & _ & _ & _ & Hl). remember (Some p) as prev eqn:Ep.
  assert (Hprev : prev <> None) by by subst. clear Ep. revert prev Hprev Hl. induction ps as [|q ps IH]; intros prev Hprev Hl; [by apply not_elem_of_nil in Hr|].
  destruct Hl as (qi & Eq & Elq & _ & Hl). apply elem_of_cons in Hr as [->|Hr]; [congruence|]. by apply (IH Hr (Some q)).
Qed.

(** ** An item ready for integration

    What [missingClient] has set up: the neighbours named by the origins, the
    parent, and a clock that the store accepts. *)
Record ready d (t : nat) (ps : list nat) (p : nat) it : Prop := {
  rd_item : d_items d !! p = Some it;
  rd_fresh : p ∉ ps;
  rd_parent : i_parent it = ParentType t;
  rd_sub : i_parentSub it = [];
  rd_agrees : agrees it;
  rd_left : match og (i_id it) with
            | None => i_left it = None
            | Some o => exists l li, i_left it = Some l /\ l ∈ ps /\ d_items d !! l = Some li /\ lastID li = o
            end;
  rd_right : match ro (i_id it) with
             | None => i_right it = None
             | Some r => exists b bi, i_right it = Some b /\ b ∈ ps /\ d_items d !! b = Some bi /\ i_id bi = r
             end;
  rd_next : exists st', @addStruct _ (refStruct (d_items d)) (d_store d) (RItem p) = Ok st';
  rd_parentItem : forall ty q, d_types d !! t = Some ty -> t_item ty = Some q ->
    q <> p /\ exists qi, d_items d !! q = Some qi /\ i_deleted qi = false;
  rd_content : forall t', i_content it = contentType t' -> t' <> t /\ is_Some (d_types d !! t')
}.

(** The list, cut behind the item's left neighbour. *)
Lemma ready_split d t ps p it : list_repr d t ps -> ready d t ps p it ->
  exists pre bs, ps = pre ++ bs /\ i_left it = list.last pre /\
    (forall o, og (i_id it) = Some o -> exists l li pre', pre = pre' ++ [l] /\ d_items d !! l = Some li /\ lastID li = o) /\
    (og (i_id it) = None -> pre = []).
Proof.
  intros Hr Hrd. pose proof (rd_left _ _ _ _ _ Hrd) as Hl. destruct (og (i_id it)) as [o|] eqn:Eo.
  - destruct Hl as (l & li & Ell & Hin & Eli & Elast). apply list_elem_of_split in Hin as (pre' & bs & ->).
    exists (pre' ++ [l]), bs. split_and!.
    + by rewrite <- (assoc_L (++)).
    + by rewrite last_snoc.
    + intros ? [= <-]. by exists l, li, pre'.
    + done.
  - exists [], ps. split_and!; done.
Qed.

(** The item right of the left neighbour, as [resolveLeft] finds it. *)
Lemma resolveLeft_spec d t ps p it pre bs rl : list_repr d t ps -> NoDup ps -> ready d t ps p it -> ps = pre ++ bs ->
  i_left it = list.last pre -> (og (i_id it) = None -> pre = []) ->
  conflictScan interpolate (size (d_items d) + 1) it (head bs) ∅ ∅ (i_left it) d = (Ok rl, d) ->
  resolveLeft interpolate p t d = (Ok tt, set_items (<[p := with_left rl it]> (d_items d)) d).
Proof.
  intros Hr Hnd Hrd -> El Hnone Hscan. pose proof (rd_item _ _ _ _ _ Hrd) as Ep. destruct (lr_start _ _ _ Hr) as (ty & Et & Est).
  assert (Hsame : rl = i_left it -> d = set_items (<[p := with_left rl it]> (d_items d)) d).
  { intros ->. assert (with_left (i_left it) it = it) as -> by by destruct it. rewrite insert_id by done. by destruct d. }
  assert (Hstop : head bs = i_right it -> rl = i_left it).
  { intros E. rewrite Nat.add_1_r in Hscan. destruct bs as [|b bs]; cbn [head conflictScan] in Hscan; [by injection Hscan|].
    rewrite decide_True in Hscan by done. by injection Hscan. }
  unfold resolveLeft. unfold rbind at 1. rewrite (getItem_eq _ _ _ Ep).
  assert (Hgo : forall o, o = head bs ->
    ((n <-- get (fun d => size (d_items d));;; left <-- conflictScan interpolate (n + 1) it o ∅ ∅ (i_left it);;; setItem p (with_left left)) d) =
    (Ok tt, set_items (<[p := with_left rl it]> (d_items d)) d)).
  { intros o ->. unfold rbind at 1, get at 1. unfold rbind at 1. rewrite Hscan. by rewrite (setItem_eq _ _ _ _ Ep). }
  destruct (i_left it) as [l|] eqn:Ell.
  - destruct pre as [|l' pre _] using rev_ind; [done|]. rewrite last_snoc in El. injection El as <-.
    pose proof (lr_linked _ _ _ Hr) as Hl. rewrite <- (assoc_L (++)) in Hl.
    apply linked_lseg, lseg_app in Hl as [_ (li & Eli & _ & Eri & _)].
    unfold rbind at 1. unfold rbind at 1. rewrite (getItem_eq _ _ _ Eli). unfold rret at 1.
    assert (Hh : i_right li = head bs) by (rewrite Eri; by destruct bs).
    case_bool_decide as Hc.
    + unfold rbind at 1. unfold rbind at 1. rewrite (getItem_eq _ _ _ Eli). unfold rret at 1. by apply Hgo.
    + unfold rret. f_equal. apply Hsame, Hstop. by rewrite <- Hh.
  - destruct pre as [|l' pre _] using rev_ind; [|by rewrite last_snoc in El]. cbn [app] in *.
    assert (Hfirst : firstItem t (i_parentSub it) d = (Ok (head bs), d)).
    { unfold firstItem, rbind. rewrite (getType_eq _ _ _ Et). rewrite bool_decide_false by (by rewrite (rd_sub _ _ _ _ _ Hrd); intros ?).
      unfold rret. rewrite Est. by destruct bs. }
    destruct (i_right it) as [r|] eqn:Er.
    + pose proof (rd_right _ _ _ _ _ Hrd) as Hright. rewrite Er in Hright.
      destruct (ro (i_id it)) as [rid|]; [|done]. destruct Hright as (b & bi & [= <-] & Hin & Ebi & _).
      unfold rbind at 1. unfold rbind at 1. rewrite (getItem_eq _ _ _ Ebi). unfold rret at 1.
      case_bool_decide as Hc.
      * unfold rbind at 1. rewrite Hfirst. by apply Hgo.
      * unfold rret. f_equal. apply Hsame, Hstop. apply (linked_head (d_items d) bs r bi); [apply Hr|done|done|done].
    + unfold rbind at 1. unfold rret at 1. unfold rbind at 1. rewrite Hfirst. by apply Hgo.
Qed.

(** ** The position that the code computes *)

Lemma block_unique h ps b b' bi bi' q : NoDup (elems h ps) -> b ∈ ps -> b' ∈ ps -> h !! b = Some bi -> h !! b' = Some bi' ->
  q ∈ chars bi -> q ∈ chars bi' -> b = b'.
Proof.
  intros Hn Hb Hb' Eb Eb' Hq Hq'. destruct (prec_total ps b b' Hb Hb') as [?|Hp]; [done|exfalso].
  assert (Hgen : forall c c' ci ci', prec ps c c' -> h !! c = Some ci -> h !! c' = Some ci' -> q ∈ chars ci -> q ∈ chars ci' -> False).
  { clear -Hn. induction ps as [|a ps IH]; intros c c' ci ci' Hp Ec Ec' Hc Hc'; [done|].
    rewrite elems_cons in Hn. apply list.NoDup_app in Hn as (_ & Hd & Hn). destruct Hp as [[-> Hin]|Hp]; [|by eapply IH].
    apply (Hd q); [by rewrite (block_Some _ _ _ Ec)|]. apply elem_elems. eauto. }
  destruct Hp; eauto.
Qed.

Lemma lastID_char it : 0 < i_length it -> lastID it ∈ chars it.
Proof.
  intros Hl. unfold lastID. destruct (Z.eqb_spec (i_length it) 1); [by apply first_char|].
  rewrite elem_chars. cbn [Client Clock]. lia.
Qed.

Lemma chars_last it : 0 < i_length it -> exists cs, chars it = cs ++ [lastID it].
Proof.
  intros Hl. exists (run (Client (i_id it)) (Clock (i_id it)) (Z.to_nat (i_length it - 1))). unfold chars, lastID.
  replace (Z.to_nat (i_length it)) with (Z.to_nat (i_length it - 1) + 1)%nat by lia. rewrite run_app. f_equal. cbn [run].
  destruct (Z.eqb_spec (i_length it) 1) as [E|]; [rewrite E; destruct (i_id it); cbn; do 2 f_equal; lia|]. do 2 f_equal. lia.
Qed.

Lemma block_prec h ps1 b ps2 bi q : h !! b = Some bi -> 0 < i_length bi -> q ∈ chars bi -> q <> i_id bi ->
  prec (elems h (ps1 ++ b :: ps2)) (i_id bi) q.
Proof.
  intros Eb Hl Hq Hne. rewrite elems_app, elems_cons, (block_Some _ _ _ Eb), (chars_cons _ Hl).
  apply prec_app. right. left. left. split; [done|]. apply elem_of_app. left. rewrite (chars_cons _ Hl) in Hq.
  by apply elem_of_cons in Hq as [->|?].
Qed.

Lemma ready_scannable d t ps p it pre bs b bi : list_repr d t ps -> seq_ok og ro (elems (d_items d) ps) -> ready d t ps p it ->
  ps = pre ++ bs ->
  (forall o, og (i_id it) = Some o -> exists l li pre', pre = pre' ++ [l] /\ d_items d !! l = Some li /\ lastID li = o) ->
  b ∈ bs -> d_items d !! b = Some bi -> scannable d ps it b bi.
Proof.
  intros Hr Hok Hrd Hps Hpre Hb Eb. pose proof (so_nodup _ _ _ Hok) as Hn.
  assert (Hin : b ∈ ps) by (subst ps; set_solver). pose proof (lr_agrees _ _ _ Hr b bi Hin Eb) as Hag.
  pose proof (ag_length _ Hag) as Hl. pose proof (rd_right _ _ _ _ _ Hrd) as Hright.
  assert (Hself : forall q, q ∈ chars bi -> q ∈ elems (d_items d) ps) by (intros q Hq; apply elem_elems; eauto).
  split; [done| | | | |done].
  - intros q Eq Hq. pose proof (ok_og og ro _ _ _ Hok (Hself _ (first_char _ Hl)) Eq) as Hp.
    destruct (decide (q = i_id bi)) as [->|Hne]; [by apply prec_irrefl in Hp|].
    apply list_elem_of_split in Hin as (ps1 & ps2 & E). rewrite E in Hp, Hn.
    by eapply prec_asym; [exact Hn|exact Hp|]; apply block_prec.
  - intros c Hc Eo. destruct (Hpre c Eo) as (l & li & pre' & -> & Eli & Elast).
    assert (Hinl : l ∈ ps) by (subst ps; set_solver). pose proof (ag_length _ (lr_agrees _ _ _ Hr l li Hinl Eli)) as Hll.
    rewrite Hps, elems_app in Hn. apply list.NoDup_app in Hn as (_ & Hd & _). apply (Hd c).
    + apply elem_elems. exists l, li. split_and!; [set_solver|done|]. subst c. by apply lastID_char.
    + apply elem_elems. eauto.
  - destruct (ro (i_id it)) as [r|]; [|rewrite Hright; done]. destruct Hright as (b' & bi' & Er & Hb' & Eb' & Eid).
    rewrite Er. split; [intros [= ->]; congruence|]. intros [= ->]. f_equal.
    pose proof (ag_length _ (lr_agrees _ _ _ Hr b' bi' Hb' Eb')) as Hl'.
    apply (block_unique (d_items d) ps b' b bi' bi (i_id bi')); [done|done|done|done|done|by apply first_char|rewrite Eid; by apply first_char].
  - intros c Hc Hne Er. rewrite <- Er in Hright. destruct Hright as (b' & bi' & _ & Hb' & Eb' & Eid).
    pose proof (ag_length _ (lr_agrees _ _ _ Hr b' bi' Hb' Eb')) as Hl'.
    assert (b = b') as ->; [|congruence].
    apply (block_unique (d_items d) ps b b' bi bi' c); [done|done|done|done|done|done|]. rewrite <- Eid. by apply first_char.
Qed.

Lemma integrate_split (S1 S2 : list ID) x : NoDup (S1 ++ S2) ->
  (forall o, og x = Some o -> exists l, S1 = l ++ [o]) -> (og x = None -> S1 = []) ->
  Yata.integrate og ro (S1 ++ S2) x =
  let n := Yata.conflictScan og ro x S2 ∅ ∅ 0 0 in S1 ++ take n S2 ++ x :: drop n S2.
Proof.
  intros Hn Ho Hnone. unfold Yata.integrate. destruct (og x) as [o|] eqn:Eo; cbn [splitOrigin].
  - destruct (Ho o eq_refl) as [l ->]. rewrite <- (app_assoc l [o] S2) in Hn |- *. cbn [app] in Hn |- *. rewrite splitAfter_app; [done|].
    apply list.NoDup_app in Hn as (_ & Hd & _). intros Hl. apply (Hd o Hl). left.
  - by rewrite (Hnone eq_refl).
Qed.

Lemma position d t ps p it : store_repr d -> list_repr d t ps -> seq_ok og ro (elems (d_items d) ps) -> ready d t ps p it ->
  exists ps1 ps2, ps = ps1 ++ ps2 /\
    resolveLeft interpolate p t d = (Ok tt, set_items (<[p := with_left (list.last ps1) it]> (d_items d)) d) /\
    Yata.integrate og ro (elems (d_items d) ps) (i_id it) = elems (d_items d) ps1 ++ i_id it :: elems (d_items d) ps2.
Proof.
  intros Hst Hr Hok Hrd. pose proof (so_nodup _ _ _ Hok) as Hn.
  assert (Hlen : forall q, q ∈ ps -> exists qi, d_items d !! q = Some qi /\ 0 < i_length qi).
  { intros q Hq. destruct (linked_lookup _ _ _ _ (lr_linked _ _ _ Hr) Hq) as [qi Eq]. exists qi. split; [done|].
    by apply (lr_agrees _ _ _ Hr q). }
  pose proof (NoDup_items _ _ Hlen Hn) as Hnd.
  destruct (ready_split d t ps p it Hr Hrd) as (pre & bs & Hps & El & Hpre & Hnone).
  assert (Hlk : linked (d_items d) (list.last pre) bs).
  { pose proof (lr_linked _ _ _ Hr) as Hl. rewrite Hps in Hl. apply linked_lseg, lseg_app in Hl as [_ Hl].
    rewrite last_or_None in Hl. by apply linked_lseg. }
  destruct (scan_sim d ps it (rd_agrees _ _ _ _ _ Hrd) (repr_found d t ps Hst Hr) bs (size (d_items d) + 1) (list.last pre)
    ∅ ∅ (i_left it) ∅ ∅ 0 0) as (rl & Hscan & Hland); [|done| |apply covered_empty|apply covered_empty|set_solver|set_solver|].
  { assert (length bs <= length ps)%nat by (rewrite Hps, length_app; lia).
    pose proof (length_size (d_items d) ps Hnd ltac:(intros; eapply linked_lookup; [apply Hr|done])). lia. }
  { intros b bi Hb Eb. by eapply ready_scannable. }
  assert (Hint : Yata.integrate og ro (elems (d_items d) ps) (i_id it) =
    let n := Yata.conflictScan og ro (i_id it) (elems (d_items d) bs) ∅ ∅ 0 0 in
    elems (d_items d) pre ++ take n (elems (d_items d) bs) ++ i_id it :: drop n (elems (d_items d) bs)).
  { rewrite Hps, elems_app in Hn |- *. apply integrate_split; [done| |intros E; by rewrite (Hnone E)].
    intros o Eo. destruct (Hpre o Eo) as (l & li & pre' & -> & Eli & <-). 
    destruct (chars_last li) as [cs Ecs]. { eapply lr_agrees; [exact Hr| |exact Eli]. subst ps. set_solver. }
    exists (elems (d_items d) pre' ++ cs). rewrite elems_app, elems_cons, (block_Some _ _ _ Eli), Ecs.
    unfold elems. simpl. by rewrite app_nil_r, (assoc_L (++)). }
  pose proof (resolveLeft_spec d t ps p it pre bs rl Hr Hnd Hrd Hps El Hnone Hscan) as Hres.
  destruct Hland as [[-> Hd]|(k & b & Hk & -> & Hd)].
  - exists pre, bs. rewrite Hd in Hint. cbn [take drop app] in Hint. rewrite El in Hres. by rewrite Hint.
  - exists (pre ++ take (S k) bs), (drop (S k) bs). split_and!.
    + by rewrite <- (assoc_L (++)), take_drop.
    + rewrite Hres. do 3 f_equal. rewrite (take_S_r _ _ _ Hk), (assoc_L (++)), last_snoc. done.
    + rewrite Hint, Hd. cbv zeta. rewrite elems_app, <- (assoc_L (++)). f_equal.
      cbn [Nat.add]. rewrite <- (take_drop (S k) bs) at 2 4. rewrite elems_app, take_app_length, drop_app_length. done.
Qed.

(** ** Registering the item *)

Definition no_empty_client d : Prop := forall k ss, clients (d_store d) !! k = Some ss -> ss <> [].

Lemma beforeClock_spec d client : no_empty_client d -> exists k, beforeClock client d = (Ok k, d).
Proof.
  intros Hne. assert (Hs : exists k, getStateM client d = (Ok k, d)).
  { unfold getStateM, getState, clientStructs. destruct (clients (d_store d) !! client) as [ss|] eqn:E; [|by eexists].
    destruct (list.last ss) eqn:El; [by eexists|]. apply last_None in El. by destruct (Hne _ _ E). }
  unfold beforeClock, rbind, get. destruct (tr_beforeState (d_trans d)); [by eexists|].
  destruct (tr_compact (d_trans d)) as [[own k]|]; [|done]. destruct (client =? own); [by eexists|done].
Qed.

Lemma addChangedType_spec d t ty sub : d_types d !! t = Some ty -> (forall q, t_item ty = Some q -> is_Some (d_items d !! q)) ->
  no_empty_client d ->
  exists d', addChangedType t sub d = (Ok tt, d') /\ d_items d' = d_items d /\ d_types d' = d_types d /\ d_store d' = d_store d /\ d_next d' = d_next d.
Proof.
  intros Et Hq Hne. unfold addChangedType. unfold rbind at 1. rewrite (getType_eq _ _ _ Et).
  assert (Hfin : forall b : bool, exists d', (tr <-- get d_trans;;; if b && (tr_trackChanges tr || t_observed ty) then recordChangedType t sub else rret tt) d = (Ok tt, d') /\
    d_items d' = d_items d /\ d_types d' = d_types d /\ d_store d' = d_store d /\ d_next d' = d_next d).
  { intros b. unfold rbind, get. case_match; by eexists. }
  destruct (t_item ty) as [q|].
  - destruct (Hq q eq_refl) as [qi Eq]. destruct (beforeClock_spec d (Client (i_id qi)) Hne) as [k Ek].
    unfold rbind at 1. unfold rbind at 1. rewrite (getItem_eq _ _ _ Eq). unfold rbind at 1. rewrite Ek. apply Hfin.
  - unfold rbind at 1. apply Hfin.
Qed.

Lemma integrateContent_spec d p it t ty : d_items d !! p = Some it -> d_types d !! t = Some ty ->
  (forall t', i_content it = contentType t' -> t' <> t /\ is_Some (d_types d !! t')) ->
  exists d' it', integrateContent p d = (Ok tt, d') /\ d_store d' = d_store d /\ d_types d' !! t = Some ty /\
    (it' = it \/ it' = markDeleted it /\ exists n, i_content it = contentDeleted n) /\ d_items d' = <[p := it']> (d_items d) /\ d_next d' = d_next d /\
    dom (d_types d') = dom (d_types d).
Proof.
  intros Ep Et Hc. unfold integrateContent. unfold rbind at 1. rewrite (getItem_eq _ _ _ Ep).
  assert (Hid : d_items d = <[p := it]> (d_items d)) by (by rewrite insert_id).
  destruct (i_content it) as [arr|v|n|[doc sl]|e|k v|arr|u|t'] eqn:Econt;
    try (exists d, it; split_and!; [done|done|done|by left|done|done|done]).
  - eexists _, (markDeleted it). unfold rbind, addToDeleteSetT, modifyTrans, modify. rewrite (setItem_eq _ p it) by done.
    split_and!; [done|done|done|right; split; [done|by exists n]|done|done|done].
  - eexists _, it. split_and!; [done|done|done|by left|done|done|done].
  - destruct (Hc t' eq_refl) as [Hne [ty' Et']]. rewrite (setType_eq _ _ _ _ Et'). eexists _, it.
    split_and!; [done|done|simpl; by rewrite lookup_insert_ne|by left|done|done|]. simpl. rewrite dom_insert_L. apply elem_of_dom_2 in Et'. set_solver.
Qed.

Lemma registerItem_spec d t ty p it st' : d_items d !! p = Some it -> i_parentSub it = [] -> d_types d !! t = Some ty ->
  (forall t', i_content it = contentType t' -> t' <> t /\ is_Some (d_types d !! t')) ->
  (forall q, t_item ty = Some q -> q <> p /\ exists qi, d_items d !! q = Some qi /\ i_deleted qi = false) ->
  @addStruct _ (refStruct (d_items d)) (d_store d) (RItem p) = Ok st' -> (forall k ss, clients st' !! k = Some ss -> ss <> []) ->
  exists d' it' ty', registerItem p t d = (Ok tt, d') /\ d_store d' = st' /\ (it' = it \/ it' = markDeleted it /\ exists n, i_content it = contentDeleted n) /\
    d_items d' = <[p := it']> (d_items d) /\ d_types d' !! t = Some ty' /\ t_start ty' = t_start ty /\ d_next d' = d_next d /\
    t_item ty' = t_item ty /\ t_itemCount ty' = t_itemCount ty + 1 /\ t_length ty' = t_length ty + (if i_countable it && negb (i_deleted it) then i_length it else 0) /\
    dom (d_types d') = dom (d_types d).
Proof.
  intros Ep Es Et Hc Hpar Hadd Hnec. unfold registerItem. unfold rbind at 1. rewrite (getItem_eq _ _ _ Ep).
  rewrite !bool_decide_true by done. unfold rbind at 1. rewrite (setType_eq _ _ _ _ Et). cbn [andb].
  set (d1 := set_types (<[t := updateListItemCount 1 ty]> (d_types d)) d).
  assert (Hlen : exists ty2, (if i_countable it && negb (i_deleted it) return step (docState V) unit then setType t (updateLength (i_length it)) else rret tt) d1 =
    (Ok tt, set_types (<[t := ty2]> (d_types d)) d) /\ t_start ty2 = t_start ty /\ t_item ty2 = t_item ty /\ t_itemCount ty2 = t_itemCount ty + 1 /\
    t_length ty2 = t_length ty + (if i_countable it && negb (i_deleted it) then i_length it else 0)).
  { destruct (i_countable it && negb (i_deleted it)).
    - rewrite (setType_eq _ t (updateListItemCount 1 ty)) by apply lookup_insert_eq.
      exists (updateLength (i_length it) (updateListItemCount 1 ty)). split_and!; [|done|done|done|done].
      unfold d1, set_types. simpl. by rewrite insert_insert_eq.
    - eexists. split_and!; [reflexivity|done|done|done|cbn; lia]. }
  destruct Hlen as (ty2 & El & Est2 & Eit2 & Ecnt2 & Elen2). unfold rbind at 1.  rewrite El. clear El d1.
  unfold rbind at 1. unfold addStructM at 1. cbn [d_items d_store set_types]. rewrite Hadd.
  set (d2 := set_store st' (set_types (<[t := ty2]> (d_types d)) d)).
  destruct (integrateContent_spec d2 p it t ty2) as (d3 & it' & E3 & Es3 & Et3 & Hit' & Ei3 & En3 & Ed3); [done|apply lookup_insert_eq| |].
  { intros t' Ec. destruct (Hc t' Ec) as [Hne Ht']. split; [done|]. cbn. by rewrite lookup_insert_ne. }
  unfold rbind at 1. rewrite E3.
  assert (Hq : forall q, t_item ty2 = Some q -> exists qi, d_items d3 !! q = Some qi /\ i_deleted qi = false).
  { intros q Eq. rewrite Eit2 in Eq. destruct (Hpar q Eq) as (Hne & qi & Eqi & Hd). exists qi.
    rewrite Ei3, lookup_insert_ne by done. done. }
  destruct (addChangedType_spec d3 t ty2 (i_parentSub it)) as (d4 & E4 & Ei4 & Et4 & Es4 & En4); [done| | |].
  { intros q Eq. destruct (Hq q Eq) as (qi & ? & _). eauto. }
  { intros k ss Hk. rewrite Es3 in Hk. by apply (Hnec k ss). }
  unfold rbind at 1. rewrite E4. unfold rbind at 1. rewrite (getType_eq _ t ty2) by congruence.
  exists d4, it', ty2. split_and!; [|by rewrite Es4, Es3|done|by rewrite Ei4, Ei3|by rewrite Et4|done|by rewrite En4, En3|done|done|done|].
  2: { rewrite Et4, Ed3. cbn. rewrite dom_insert_L. apply elem_of_dom_2 in Et. set_solver. }
  rewrite bool_decide_false by (by rewrite Es; intros ?). rewrite andb_false_l.
  unfold rbind. destruct (t_item ty2) as [q|]; [|done]. destruct (Hq q eq_refl) as (qi & Eq & Hd).
  rewrite (getItem_eq _ q qi) by congruence. unfold rret at 1. by rewrite Hd.
Qed.

(** ** Integration *)

Lemma linked_replace h p it it' ps : h !! p = Some it -> i_left it' = i_left it -> i_right it' = i_right it ->
  forall prev, linked h prev ps -> linked (<[p := it']> h) prev ps.
Proof.
  intros Ep El Er. induction ps as [|q ps IH]; intros prev; [done|]. intros (qi & Eq & ? & ? & Hl).
  destruct (decide (q = p)) as [->|Hne].
  - exists it'. rewrite lookup_insert_eq. simplify_eq. split_and!; [done|congruence|congruence|by apply IH].
  - exists qi. rewrite lookup_insert_ne by done. split_and!; try done. by apply IH.
Qed.

(** A clock that the store accepts next lies behind the elements of the list. *)
Lemma next_fresh d t ps p it st' q : store_repr d -> list_repr d t ps -> d_items d !! p = Some it ->
  @addStruct _ (refStruct (d_items d)) (d_store d) (RItem p) = Ok st' -> q ∈ chars it -> q ∉ elems (d_items d) ps.
Proof.
  intros [Hok _] Hr Ep Hadd Hq (b & bi & Hb & Eb & Hqb)%elem_elems.
  apply (@addStruct_clients _ (refStruct (d_items d))) in Hadd as (ss & _ & Hss & Hlast).
  destruct (lr_store _ _ _ Hr b bi Hb Eb) as (ss' & Hss' & Hin). apply elem_chars in Hq as [Hc1 Hq], Hqb as [Hc2 Hqb].
  simpl in Hss. rewrite Ep in Hss. simpl in Hss. rewrite <- Hc1, Hc2, Hss' in Hss. simpl in Hss. subst ss'.
  destruct Hlast as [->|(l & El & Eend)]; [by apply not_elem_of_nil in Hin|].
  destruct Hok as (Hok & _). destruct (Hok _ _ Hss') as (_ & (c & Hc) & _).
  pose proof (@contiguous_end _ (refStruct (d_items d)) c ss _ Hc Hin) as He.
  rewrite (@list_end_last _ (refStruct (d_items d)) c ss l El), Eend in He.
  unfold struct_end in He. simpl in He. rewrite Eb, Ep in He. simpl in He.
  pose proof (ag_length _ (lr_agrees _ _ _ Hr b bi Hb Eb)). lia.
Qed.

(** The store after [addStruct], with the bodies of the items unchanged. *)
Lemma store_repr_add d d3 p it st' : store_repr d -> same_bodies (d_items d) (d_items d3) -> d_items d !! p = Some it ->
  0 < i_length it -> @addStruct _ (refStruct (d_items d)) (d_store d) (RItem p) = Ok st' -> d_store d3 = st' -> store_repr d3.
Proof.
  intros Hst Hb3 Ep Hlen Hadd Es3. pose proof (addStruct_body _ _ (d_store d) (RItem p) Hb3) as Hadd3.
  rewrite Hadd in Hadd3. symmetry in Hadd3. split.
  - rewrite Es3. eapply (@addStruct_ok _ (refStruct (d_items d3))); [| |exact Hadd3].
    + eapply store_ok_body; [exact Hb3|apply Hst].
    + destruct (ref_body _ _ (RItem p) Hb3) as [_ <-]. simpl. by rewrite Ep.
  - rewrite Es3. apply (@addStruct_clients _ (refStruct (d_items d3))) in Hadd3 as (ss & Hcl & Hss & _). rewrite Hcl.
    assert (Hp3 : forall q, is_Some (d_items d !! q) -> is_Some (d_items d3 !! q)).
    { intros q [qi Eq]. specialize (Hb3 q). rewrite Eq in Hb3. destruct (d_items d3 !! q); [by eexists|done]. }
    intros k ss0 q. destruct (decide (k = Client (@getID _ (refStruct (d_items d3)) (RItem p)))) as [->|Hk].
    + rewrite lookup_insert_eq. intros [= <-]. intros [Hin|[= ->]]%elem_snoc; apply Hp3; [|by eexists].
      destruct (clients (d_store d) !! _) as [ss1|] eqn:E; simpl in Hss; subst ss; [by eapply (sr_items _ Hst)|by apply not_elem_of_nil in Hin].
    + rewrite lookup_insert_ne by done. intros E Hin. apply Hp3. by eapply (sr_items _ Hst).
Qed.

(** The list with the new item linked in. *)
Lemma list_repr_add d d3 t ps1 ps2 p it st' ty3 : list_repr d t (ps1 ++ ps2) -> same_bodies (d_items d) (d_items d3) ->
  d_items d !! p = Some it -> agrees it -> p ∉ ps1 ++ ps2 ->
  @addStruct _ (refStruct (d_items d)) (d_store d) (RItem p) = Ok st' -> d_store d3 = st' ->
  d_types d3 !! t = Some ty3 -> t_start ty3 = head_or None (ps1 ++ p :: ps2) -> linked (d_items d3) None (ps1 ++ p :: ps2) ->
  list_repr d3 t (ps1 ++ p :: ps2).
Proof.
  intros Hr Hb3 Ep Hag Hp Hadd Es3 Et3 Est3 Hl.
  assert (Hold : forall q, q ∈ ps1 ++ p :: ps2 -> q = p \/ q ∈ ps1 ++ ps2) by (intros q; rewrite !elem_of_app, elem_of_cons; tauto).
  split; [by exists ty3|done| |].
  - intros q qi Hq Eqi. specialize (Hb3 q). rewrite Eqi in Hb3. destruct (d_items d !! q) as [q0|] eqn:Eq0; [|done].
    eapply agrees_body; [exact Hb3|]. destruct (Hold q Hq) as [->|Hq']; [by simplify_eq|]. by eapply lr_agrees.
  - intros q qi Hq Eqi. specialize (Hb3 q). rewrite Eqi in Hb3. destruct (d_items d !! q) as [q0|] eqn:Eq0; [|done].
    destruct Hb3 as (<- & _). rewrite Es3.
    apply (@addStruct_clients _ (refStruct (d_items d))) in Hadd as (ss & Hcl & Hss & _).
    rewrite Hcl. simpl in Hss |- *. rewrite Ep in Hss |- *. simpl in Hss |- *.
    destruct (Hold q Hq) as [->|Hq'].
    { simplify_eq. rewrite lookup_insert_eq. eexists. split; [done|]. set_solver. }
    destruct (lr_store _ _ _ Hr q q0 Hq' Eq0) as (ssq & Essq & Hin).
    destruct (decide (Client (i_id q0) = Client (i_id it))) as [Ec|Ec].
    + rewrite Ec in Essq |- *. rewrite lookup_insert_eq. eexists. split; [done|]. rewrite Essq in Hss. simpl in Hss. subst ss. set_solver.
    + rewrite lookup_insert_ne by done. eauto.
Qed.

(** The elements of the new list. *)
Lemma elems_add d t ps1 ps2 p it st' : store_repr d -> list_repr d t (ps1 ++ ps2) -> seq_ok og ro (elems (d_items d) (ps1 ++ ps2)) ->
  d_items d !! p = Some it -> agrees it -> @addStruct _ (refStruct (d_items d)) (d_store d) (RItem p) = Ok st' ->
  Yata.integrate og ro (elems (d_items d) (ps1 ++ ps2)) (i_id it) = elems (d_items d) ps1 ++ i_id it :: elems (d_items d) ps2 ->
  elems (d_items d) (ps1 ++ p :: ps2) = fold_left (Yata.integrate og ro) (chars it) (elems (d_items d) (ps1 ++ ps2)).
Proof.
  intros Hst Hr Hok Ep Hag Hadd Hint. pose proof (so_nodup _ _ _ Hok) as Hn. pose proof (ag_length _ Hag) as Hlen.
  rewrite elems_app, elems_cons, (block_Some _ _ _ Ep), (chars_cons _ Hlen). cbn [fold_left]. rewrite Hint.
  assert (Hfr : forall q, q ∈ chars it -> q ∉ elems (d_items d) ps1 ++ elems (d_items d) ps2).
  { intros q Hq. rewrite <- elems_app. by eapply next_fresh. }
  rewrite (integrate_run og ro _ (elems (d_items d) ps1) (elems (d_items d) ps2) (i_id it)).
  - done.
  - intros Hin. apply (Hfr (i_id it)); [by apply first_char|set_solver].
  - by apply agrees_follows.
  - rewrite <- chars_cons by done. apply NoDup_run.
  - intros a Ha Hin. apply (Hfr a); [rewrite (chars_cons _ Hlen); by right|set_solver].
  - intros y Hy. assert (Hys : y ∈ elems (d_items d) (ps1 ++ ps2)) by (rewrite elems_app; set_solver). split.
    + intros E. apply (prec_irrefl (elems (d_items d) (ps1 ++ ps2)) y Hn). by apply (ok_og og ro).
    + rewrite <- chars_cons by done. intros a Ha E. apply (Hfr a Ha). rewrite <- elems_app.
      by destruct (prec_elem _ _ _ (ok_og og ro _ y a Hok Hys E)).
Qed.

(** Linking and registering, once the left neighbour is known. *)
Lemma link_and_register d t ps1 ps2 p it st' : list_repr d t (ps1 ++ ps2) -> NoDup (ps1 ++ ps2) -> ready d t (ps1 ++ ps2) p it ->
  @addStruct _ (refStruct (d_items d)) (d_store d) (RItem p) = Ok st' -> (forall k ss, clients st' !! k = Some ss -> ss <> []) ->
  exists d3 ty3, (_ <-- linkItem p t;;; registerItem p t) (set_items (<[p := with_left (list.last ps1) it]> (d_items d)) d) = (Ok tt, d3) /\
    same_bodies (d_items d) (d_items d3) /\ d_store d3 = st' /\ d_types d3 !! t = Some ty3 /\
    t_start ty3 = head_or None (ps1 ++ p :: ps2) /\ linked (d_items d3) None (ps1 ++ p :: ps2) /\ d_next d3 = d_next d.
Proof.
  intros Hr Hnd [Ep Hfresh Epar Esub Hag _ _ _ Hpar Hcont] Hadd Hnec. destruct (lr_start _ _ _ Hr) as (ty & Et & Est).
  set (h1 := <[p := with_left (list.last ps1) it]> (d_items d)).
  destruct (linkItem_spec (set_items h1 d) t ty p (with_left (list.last ps1) it) ps1 ps2) as (h2 & ty2 & E2 & Hl2 & Hrel & Est2 & Eit2 & _);
    [done|done| |done|done|apply lookup_insert_eq|done|done|].
  { apply linked_lseg, lseg_frame; [done|]. apply linked_lseg, Hr. }
  cbn [d_items d_types set_items] in *.
  assert (Hrel0 : relinked (d_items d) h1) by (apply relinked_insert; [apply relinked_refl|done]).
  pose proof (relinked_trans _ _ _ Hrel0 Hrel) as Hrel2. pose proof (relinked_bodies _ _ Hrel2) as Hb2.
  pose proof (Hrel2 p) as Hp2. rewrite Ep in Hp2. destruct (h2 !! p) as [it2|] eqn:Ep2; [|done]. destruct Hp2 as (l2 & r2 & ->).
  set (d2 := set_items h2 (set_types (<[t := ty2]> (d_types d)) (set_items h1 d))) in *.
  destruct (registerItem_spec d2 t ty2 p (with_links l2 r2 it) st') as (d3 & it3 & ty3 & E3 & Es3 & Hit3 & Ei3 & Et3 & Est3 & En3 & _);
    [done|done|apply lookup_insert_eq| | | |exact Hnec|].
  { intros t' Ec. destruct (Hcont t' Ec) as [Hne ?]. split; [done|]. cbn. by rewrite lookup_insert_ne. }
  { intros q Eq. rewrite Eit2 in Eq. destruct (Hpar ty q Et Eq) as (Hne & qi & Eqi & Hdel). split; [done|].
    specialize (Hrel2 q). rewrite Eqi in Hrel2. cbn. destruct (h2 !! q) as [qi2|]; [|done]. destruct Hrel2 as (? & ? & ->). by eexists. }
  { cbn. rewrite <- Hadd. symmetry. by apply addStruct_body. }
  cbn [d_items d2 set_items] in Ei3. exists d3, ty3. split_and!; [|rewrite Ei3|done|done|by rewrite Est3|rewrite Ei3|done].
  - unfold rbind. by rewrite E2.
  - eapply same_bodies_insert; [done|exact Ep2|]. destruct Hit3 as [->|[-> _]]; done.
  - eapply linked_replace; [exact Ep2| | |done]; destruct Hit3 as [->|[-> _]]; done.
Qed.

(** Integrating an item that is ready succeeds, keeps the representation, and
    inserts the elements of the item as [Yata.integrate] does. *)
Lemma integrate_refines d t ps p it : store_repr d -> list_repr d t ps -> seq_ok og ro (elems (d_items d) ps) ->
  ready d t ps p it ->
  exists d' ps', integrateWithScratch interpolate p 0 d = (Ok tt, d') /\ store_repr d' /\ list_repr d' t ps' /\
    elems (d_items d') ps' = fold_left (Yata.integrate og ro) (chars it) (elems (d_items d) ps) /\
    same_bodies (d_items d) (d_items d') /\ d_next d' = d_next d /\ ps' ≡ₚ p :: ps.
Proof.
  intros Hst Hr Hok Hrd. pose proof (so_nodup _ _ _ Hok) as Hn.
  destruct (position d t ps p it Hst Hr Hok Hrd) as (ps1 & ps2 & -> & Hres & Hint).
  pose proof (rd_item _ _ _ _ _ Hrd) as Ep. pose proof (rd_parent _ _ _ _ _ Hrd) as Epar.
  pose proof (rd_agrees _ _ _ _ _ Hrd) as Hag. pose proof (ag_length _ Hag) as Hlen. destruct (rd_next _ _ _ _ _ Hrd) as (st' & Hadd).
  assert (Hnd : NoDup (ps1 ++ ps2)).
  { apply (NoDup_items (d_items d)); [|done]. intros q Hq. destruct (linked_lookup _ _ _ _ (lr_linked _ _ _ Hr) Hq) as [qi Eq].
    exists qi. split; [done|]. by apply (lr_agrees _ _ _ Hr q). }
  assert (Hnec : forall k ss, clients st' !! k = Some ss -> ss <> []).
  { assert (Hl0 : 0 < @structLength _ (refStruct (d_items d)) (RItem p)) by (simpl; by rewrite Ep).
    destruct (@addStruct_ok _ (refStruct (d_items d)) _ _ _ (sr_ok _ Hst) Hl0 Hadd) as ((Hok' & _) & _).
    intros k ss Hk. by destruct (Hok' k ss Hk). }
  destruct (link_and_register d t ps1 ps2 p it st' Hr Hnd Hrd Hadd Hnec) as (d3 & ty3 & E3 & Hb3 & Es3 & Et3 & Est3 & Hl3 & En3).
  exists d3, (ps1 ++ p :: ps2). split_and!.
  - unfold integrateWithScratch, shiftItem. cbn [Z.ltb Z.compare]. unfold rbind at 1, rret at 1. unfold rbind at 1.
    rewrite (getItem_eq _ _ _ Ep), Epar. unfold rbind at 1, parentType. rewrite Epar. unfold rret at 1.
    unfold rbind at 1. rewrite Hres. exact E3.
  - by eapply store_repr_add.
  - eapply list_repr_add; try done. apply Hrd.
  - rewrite <- (elems_body _ _ _ Hb3). by eapply elems_add.
  - done.
  - done.
  - symmetry. apply Permutation_middle.
Qed.

End Repr.

(** C2. [integrateWithScratch] implements the abstract insertion.  On a
    document whose list is well formed, integrating an item whose neighbours
    are resolved succeeds, keeps the store and the doubly linked list well
    formed, and the elements of the new list are those obtained by inserting
    the elements of the item one by one with [Yata.integrate]; in particular
    neither the pointer scan nor the sets it keeps run out of steps. *)
Theorem integrate_item_refines_yata {V : Type} (og ro : ID -> option ID) (interpolate : Z -> Z -> Z -> Z)
    (d : docState V) (t : nat) (ps : list nat) (p : nat) (it : itemStruct V) :
  (forall clock span end_, 0 < span -> 0 <= clock <= span -> 0 <= end_ -> 0 <= interpolate clock span end_ <= end_) ->
  store_repr d -> list_repr og ro d t ps -> seq_ok og ro (elems (d_items d) ps) -> ready og ro d t ps p it ->
  exists d' ps', integrateWithScratch interpolate p 0 d = (Ok tt, d') /\ store_repr d' /\ list_repr og ro d' t ps' /\
    elems (d_items d') ps' = fold_left (Yata.integrate og ro) (chars it) (elems (d_items d) ps).
Proof.
  intros Hi Hst Hl Hok Hr. destruct (integrate_refines og ro interpolate Hi d t ps p it Hst Hl Hok Hr) as (d' & ps' & E & H1 & H2 & H3 & _).
  by exists d', ps'.
Qed.

(** *** The list of replica 1 of [net3], and the item of replica 2 *)
Definition sample_item (id : ID) (origin : option ID) (left right : option nat) (u : Z) : itemStruct unit :=
  mkItem id 1 origin left right None (ParentType 0) [] None (contentString [u]) false true false.
Definition sample_items : gmap nat (itemStruct unit) :=
  {[ 1%nat := sample_item ia None None (Some 2%nat) 97;
     2%nat := sample_item ic (Some ia) (Some 1%nat) None 98;
     3%nat := sample_item ib None None None 99 ]}.
Definition sample_doc : docState unit :=
  mkDoc sample_items {[ 0%nat := mkType (Some 1%nat) ∅ 2 None 2 false 0 false ]}
    (mkStore {[ 1 := [RItem 1; RItem 2] ]} None None [1]) 4
    (mkTrans newDeleteSet [] [] true (Some {[ 1 := 2 ]}) None ∅ ∅ ∅).

Ltac agrees_one := split; [reflexivity|reflexivity|reflexivity|
  let u := fresh "u" in let Hu := fresh "Hu" in let Hne := fresh "Hne" in
  intros u Hu Hne; apply elem_chars in Hu; destruct u; simpl in *; exfalso; apply Hne; f_equal; lia].

Lemma sample_store : store_repr sample_doc.
Proof.
  split.
  - split_and!; simpl.
    + intros c ss Hc. apply lookup_singleton_Some in Hc as [<- <-]. split_and!; [done| |repeat constructor].
      exists 0. vm_compute. repeat split; discriminate.
    + apply NoDup_singleton.
    + intros c. rewrite list_elem_of_singleton. split.
      * intros ->. rewrite lookup_singleton_eq. eauto.
      * intros [? Hc]. by apply lookup_singleton_Some in Hc as [<- _].
  - intros k ss q Hk Hq. simpl in Hk. apply lookup_singleton_Some in Hk as [<- <-].
    assert (q = 1%nat \/ q = 2%nat) as [-> | ->] by set_solver; vm_compute; eauto.
Qed.

Lemma sample_list : list_repr og3 ro3 sample_doc 0 [1%nat; 2%nat].
Proof.
  split.
  - eexists. split; reflexivity.
  - eexists. split_and!; [reflexivity..|]. eexists. split_and!; [reflexivity..|done].
  - intros q qi Hq E. assert (q = 1%nat \/ q = 2%nat) as [-> | ->] by set_solver;
      vm_compute in E; injection E as <-; agrees_one.
  - intros q qi Hq E. assert (q = 1%nat \/ q = 2%nat) as [-> | ->] by set_solver;
      vm_compute in E; injection E as <-; eexists; (split; [reflexivity|set_solver]).
Qed.

Lemma sample_ready : ready og3 ro3 sample_doc 0 [1%nat; 2%nat] 3 (sample_item ib None None None 99).
Proof.
  split; try reflexivity.
  - set_solver.
  - agrees_one.
  - eexists. reflexivity.
  - intros ty q Ht. vm_compute in Ht. injection Ht as <-. done.
  - done.
Qed.

Lemma integrate_item_refines_yata_witness :
  exists d' ps', integrateWithScratch int_pivot 3 0 sample_doc = (Ok tt, d') /\ store_repr d' /\ list_repr og3 ro3 d' 0 ps' /\
    elems (d_items d') ps' = [ia; ic; ib].
Proof.
  refine (integrate_item_refines_yata og3 ro3 int_pivot sample_doc 0 [1%nat; 2%nat] 3 _ int_pivot_range
    sample_store sample_list _ sample_ready).
  exact (ro_seq _ _ _ (wi_rep _ _ _ (world_inv og3 ro3 net3 net3_reachable) 1)).
Defined.
