(* ===== verification/ItemSplit.v ===== *)
(** * Splitting items, and resolving the neighbours of an incoming item

    [splitItem], [getItemCleanStart], [getItemCleanEnd] (crdt/item.go,
    crdt/struct_store.go) cut an item in two without changing the sequence of
    elements its list stands for; [missingClient] uses them to find the items
    next to which an incoming item belongs, and makes it ready for
    [integrateWithScratch]. *)
From stdpp Require Import gmap sets list.
From Stdlib Require Import ZArith Lia.
From S2P Require Import Prelude Lib0 StructStore Text Yata Replicas DeleteSet Content Item ItemList.
Open Scope Z_scope.

(** ** Contiguous lists seen through two heaps *)
Lemma contiguous_ext {A} (H1 H2 : AbstractStruct A) (ss : list A) : forall c,
  (forall s, s ∈ ss -> @getID _ H1 s = @getID _ H2 s /\ @structLength _ H1 s = @structLength _ H2 s) ->
  @contiguous_from _ H1 c ss -> @contiguous_from _ H2 c ss.
Proof.
  induction ss as [|s ss IH]; intros c He; [done|]. simpl. destruct (He s (list_elem_of_here _ _)) as [E1 E2].
  unfold struct_end. rewrite E1, E2. intros (? & ? & ?). split_and!; [done|done|]. apply IH; [|done]. intros t Ht. apply He. by right.
Qed.

Lemma contiguous_NoDup {A} `{AbstractStruct A} c (ss : list A) : contiguous_from c ss -> NoDup ss.
Proof.
  intros Hc. apply NoDup_alt. intros i j s Hi Hj. pose proof (contiguous_ordered _ _ Hc) as Ho.
  destruct (contiguous_lt _ _ _ _ Hc Hi) as [_ Hl].
  destruct (Nat.lt_trichotomy i j) as [Hlt|[E|Hlt]]; [|done|].
  - pose proof (Ho i j s s Hlt Hi Hj). unfold struct_end in *. lia.
  - pose proof (Ho j i s s Hlt Hj Hi). unfold struct_end in *. lia.
Qed.

Section Split.
Context {V : Type}.
Implicit Types (d : docState V) (it : itemStruct V) (h : gmap nat (itemStruct V)).

(** The two items that a split leaves. *)
Definition split_left it (diff : Z) (lc : docContent V) (r : nat) : itemStruct V :=
  with_body (i_id it) diff lc (with_right (Some r) it).
Definition split_right it (diff : Z) (rc : docContent V) (p : nat) : itemStruct V :=
  mkItem (GenID (Client (i_id it)) (Clock (i_id it) + diff)) (i_length it - diff)
    (Some (GenID (Client (i_id it)) (Clock (i_id it) + diff - 1))) (Some p) (i_right it) (i_rightOrigin it)
    (i_parent it) (i_parentSub it) (match i_redone it with Some r => Some (GenID (Client r) (Clock r + diff)) | None => None end)
    rc (i_keep it) (isCountable rc) (i_deleted it).

Definition heap_fresh d : Prop := forall q, (d_next d <= q)%nat -> d_items d !! q = None.

(** What the heap holds after splitting [p] into [p] and [r]. *)
Record split_heap h h' (p r : nat) it (diff : Z) (lc rc : docContent V) : Prop := {
  sh_left : h' !! p = Some (split_left it diff lc r);
  sh_right : h' !! r = Some (split_right it diff rc p);
  sh_next : forall n ni, i_right it = Some n -> h !! n = Some ni -> h' !! n = Some (with_left (Some r) ni);
  sh_other : forall q, q <> p -> q <> r -> i_right it <> Some q -> h' !! q = h !! q
}.

Lemma splitItem_spec d p it t ty diff lc rc : d_items d !! p = Some it -> i_parent it = ParentType t -> i_parentSub it = [] ->
  spliceContent (i_content it) diff = Some (lc, rc) -> d_types d !! t = Some ty -> heap_fresh d ->
  (forall n, i_right it = Some n -> n <> p /\ is_Some (d_items d !! n)) ->
  exists d', splitItem p diff d = (Ok (d_next d), d') /\ split_heap (d_items d) (d_items d') p (d_next d) it diff lc rc /\
    d_store d' = d_store d /\ d_types d' = <[t := updateListItemCount 1 ty]> (d_types d) /\ d_next d' = (d_next d + 1)%nat.
Proof.
  intros Ep Epar Esub Esp Et Hf Hn. set (r := d_next d). set (R := split_right it diff rc p).
  assert (Hpr : p <> r) by (intros ->; by rewrite (Hf r) in Ep).
  assert (Hnr : forall n, i_right it = Some n -> n <> r). { intros n En ->. destruct (Hn r En) as [_ [? E]]. by rewrite (Hf r) in E. }
  unfold splitItem. unfold rbind at 1. rewrite (getItem_eq _ _ _ Ep), Epar. unfold rbind at 1, rret at 1. rewrite Esp.
  unfold rbind at 1, alloc. unfold rbind at 1, get. unfold rbind at 1, modify. unfold rret at 1. fold r.
  cbn [i_id i_length i_origin i_left i_right i_rightOrigin i_parent i_parentSub i_redone i_content i_keep i_countable i_deleted with_flags newItemWithLength].
  set (d1 := set_next (r + 1) _). assert (E1 : d_items d1 = <[r := R]> (d_items d)) by (unfold d1, R, split_right; cbn; by rewrite Epar).
  unfold rbind at 1. rewrite (setItem_eq d1 p it) by (rewrite E1; by rewrite lookup_insert_ne). rewrite E1.
  set (P1 := with_right (Some r) _). set (h2 := <[p := P1]> (<[r := R]> (d_items d))).
  unfold rbind at 1.
  assert (H3 : exists h3, (match i_right it return step (docState V) unit with Some n => setItem n (with_left (Some r)) | None => rret tt end) (set_items h2 d1) =
     (Ok tt, set_items h3 d1) /\ (forall n ni, i_right it = Some n -> d_items d !! n = Some ni -> h3 !! n = Some (with_left (Some r) ni)) /\
     (forall q, i_right it <> Some q -> h3 !! q = h2 !! q)).
  { destruct (i_right it) as [n|] eqn:En.
    - destruct (Hn n eq_refl) as [Hnp [ni Eni]]. specialize (Hnr n eq_refl).
      assert (E2 : h2 !! n = Some ni) by (unfold h2; by rewrite !lookup_insert_ne).
      exists (<[n := with_left (Some r) ni]> h2). rewrite (setItem_eq _ n ni) by exact E2. split_and!; [done| |].
      + intros n' ni' [= <-] E. simplify_eq. apply lookup_insert_eq.
      + intros q Hq. rewrite lookup_insert_ne by congruence. done.
    - exists h2. split_and!; [done|done|done]. }
  destruct H3 as (h3 & -> & H3n & H3o).
  unfold rbind at 1, addMergeStruct, modifyTrans, modify. rewrite Esub. rewrite bool_decide_false by (by intros ?).
  unfold rbind at 1. cbn [andb]. unfold rret at 1. unfold rbind at 1.
  assert (Ep3 : h3 !! p = Some P1).
  { rewrite H3o; [apply lookup_insert_eq|]. intros E. by destruct (Hn p E). }
  rewrite (setItem_eq _ p P1) by exact Ep3. rewrite bool_decide_true by done. unfold rbind at 1.
  rewrite (setType_eq _ t ty) by exact Et. eexists. split; [done|]. split_and!; [|done|done|done].
  cbn [d_items set_types set_items set_trans]. split.
  - rewrite lookup_insert_eq. done.
  - rewrite lookup_insert_ne by done. rewrite H3o; [unfold h2; by rewrite lookup_insert_ne, lookup_insert_eq|].
    intros E. by apply (Hnr r E).
  - intros n ni En Eni. destruct (Hn n En) as [Hnp _]. rewrite lookup_insert_ne by done. by apply H3n.
  - intros q Hqp Hqr Hq. rewrite lookup_insert_ne by done. rewrite H3o by done. unfold h2. by rewrite !lookup_insert_ne by done.
Qed.

End Split.

(** ** Splitting keeps the representation *)
Section SplitRepr.
Context {V : Type}.
Variables og ro : ID -> option ID.
Implicit Types (d : docState V) (it : itemStruct V) (h : gmap nat (itemStruct V)).

Lemma split_other h h' p r it diff lc rc q : split_heap h h' p r it diff lc rc -> q <> p -> q <> r ->
  match h !! q, h' !! q with
  | Some a, Some b => exists l, b = with_left l a
  | None, None => True
  | None, Some _ => i_right it = Some q
  | Some _, None => False
  end.
Proof.
  intros Hs Hp Hr. destruct (decide (i_right it = Some q)) as [E|E].
  - destruct (h !! q) as [a|] eqn:Ea; [|by destruct (h' !! q)].
    rewrite (sh_next _ _ _ _ _ _ _ _ Hs q a E Ea). by eexists.
  - rewrite (sh_other _ _ _ _ _ _ _ _ Hs q Hp Hr E). destruct (h !! q) as [a|]; [|done]. exists (i_left a). by destruct a.
Qed.

(** Structs other than the two halves keep their id and length. *)
Lemma split_ref h h' p r it diff lc rc s : split_heap h h' p r it diff lc rc -> s <> RItem p -> s <> RItem r ->
  (forall q, s = RItem q -> is_Some (h !! q)) ->
  @getID _ (refStruct h) s = @getID _ (refStruct h') s /\ @structLength _ (refStruct h) s = @structLength _ (refStruct h') s.
Proof.
  intros Hs Hp Hr Hq. destruct s as [q|gc]; [|done]. destruct (Hq q eq_refl) as [a Ea].
  assert (q <> p) by congruence. assert (q <> r) by congruence.
  pose proof (split_other h h' p r it diff lc rc q Hs ltac:(done) ltac:(done)) as Ho. rewrite Ea in Ho. simpl. rewrite Ea.
  destruct (h' !! q) as [b|]; [|done]. by destruct Ho as [l ->].
Qed.

Lemma contiguous_split h h' p r it diff lc rc ss1 ss2 : split_heap h h' p r it diff lc rc -> h !! p = Some it -> 0 < diff < i_length it ->
  (forall s, s ∈ ss1 ++ ss2 -> s <> RItem p /\ s <> RItem r /\ forall q, s = RItem q -> is_Some (h !! q)) ->
  forall c, @contiguous_from _ (refStruct h) c (ss1 ++ RItem p :: ss2) -> @contiguous_from _ (refStruct h') c (ss1 ++ RItem p :: RItem r :: ss2).
Proof.
  intros Hs Ep Hd Hne. induction ss1 as [|s ss1 IH]; intros c; cbn [app contiguous_from].
  - unfold struct_end. simpl. rewrite Ep, (sh_left _ _ _ _ _ _ _ _ Hs), (sh_right _ _ _ _ _ _ _ _ Hs). simpl.
    intros (? & ? & Hc). split_and!; [done|lia|done|lia|].
    replace (Clock (i_id it) + diff + (i_length it - diff)) with (Clock (i_id it) + i_length it) by lia.
    eapply contiguous_ext; [|exact Hc]. intros s Hin. destruct (Hne s) as (? & ? & ?); [done|]. by eapply split_ref.
  - destruct (Hne s) as (H1 & H2 & H3); [by left|]. destruct (split_ref _ _ _ _ _ _ _ _ s Hs H1 H2 H3) as [E1 E2].
    unfold struct_end. rewrite E1, E2. intros (? & ? & Hc). split_and!; [done|done|]. apply IH; [|done].
    intros s' Hin. apply Hne. by right.
Qed.

Lemma lseg_ext h h' : forall ps prev next, (forall q, q ∈ ps -> h' !! q = h !! q) -> lseg h prev ps next -> lseg h' prev ps next.
Proof.
  induction ps as [|q ps IH]; intros prev next He; [done|]. intros (qi & Eq & ? & ? & Hl). exists qi.
  rewrite He by left. split_and!; try done. apply IH; [|done]. intros. apply He. by right.
Qed.

Lemma linked_split h h' p r it diff lc rc ps1 ps2 : split_heap h h' p r it diff lc rc -> h !! p = Some it ->
  NoDup (ps1 ++ p :: ps2) -> r ∉ ps1 ++ p :: ps2 -> linked h None (ps1 ++ p :: ps2) -> linked h' None (ps1 ++ p :: r :: ps2).
Proof.
  intros Hs Ep Hnd Hr Hl. apply linked_lseg, lseg_app in Hl as [H1 (it' & E' & El & Er & H2)]. simplify_eq.
  apply list.NoDup_app in Hnd as (_ & Hd & Hnd). apply list.NoDup_cons in Hnd as [Hp Hnd].
  assert (Hsame : forall q, q ∈ ps1 \/ q ∈ tail ps2 -> h' !! q = h !! q).
  { intros q Hq. apply (sh_other _ _ _ _ _ _ _ _ Hs).
    - intros ->. destruct Hq as [Hq|Hq]; [apply (Hd p Hq); by left|]. apply Hp. destruct ps2; [by apply not_elem_of_nil in Hq|by right].
    - intros ->. apply Hr. destruct Hq as [Hq|Hq]; [set_solver|]. destruct ps2; [by apply not_elem_of_nil in Hq|simpl in Hq; set_solver].
    - rewrite Er. destruct ps2 as [|n ps2]; [done|]. simpl. intros [= ->]. destruct Hq as [Hq|Hq].
      + apply (Hd q Hq). right. left.
      + simpl in Hq. by apply list.NoDup_cons in Hnd as [? _]. }
  apply linked_lseg, lseg_app. split; [eapply lseg_ext; [|exact H1]; intros; apply Hsame; by left|].
  exists (split_left it diff lc r). rewrite (sh_left _ _ _ _ _ _ _ _ Hs). split_and!; [done|done|done|].
  exists (split_right it diff rc p). rewrite (sh_right _ _ _ _ _ _ _ _ Hs). split_and!; [done|done|by rewrite <- Er|].
  destruct ps2 as [|n ps2]; [done|]. destruct H2 as (ni & En & ? & ? & H2). exists (with_left (Some r) ni).
  rewrite (sh_next _ _ _ _ _ _ _ _ Hs n ni) by done. split_and!; [done|done|done|].
  eapply lseg_ext; [|exact H2]. intros. apply Hsame. by right.
Qed.

Lemma chars_split it diff lc rc p r : 0 < diff < i_length it ->
  chars it = chars (split_left it diff lc r) ++ chars (split_right it diff rc p).
Proof.
  intros Hd. unfold chars. simpl. replace (Z.to_nat (i_length it)) with (Z.to_nat diff + Z.to_nat (i_length it - diff))%nat by lia.
  rewrite run_app. do 2 f_equal. lia.
Qed.

Lemma elems_split h h' p r it diff lc rc ps1 ps2 : split_heap h h' p r it diff lc rc -> h !! p = Some it -> 0 < diff < i_length it ->
  NoDup (ps1 ++ p :: ps2) -> r ∉ ps1 ++ p :: ps2 -> (forall q, q ∈ ps1 ++ p :: ps2 -> is_Some (h !! q)) ->
  elems h' (ps1 ++ p :: r :: ps2) = elems h (ps1 ++ p :: ps2).
Proof.
  intros Hs Ep Hd Hnd Hr Hall.
  assert (Hb : forall qs, (forall q, q ∈ qs -> q <> p /\ q <> r /\ is_Some (h !! q)) -> elems h' qs = elems h qs).
  { induction qs as [|q qs IH]; intros Hqs; [done|]. rewrite !elems_cons, IH by (intros; apply Hqs; by right). f_equal.
    destruct (Hqs q) as (H1 & H2 & [a Ea]); [left|]. pose proof (split_other _ _ _ _ _ _ _ _ q Hs H1 H2) as Ho. unfold block.
    rewrite Ea in *. destruct (h' !! q) as [b|]; [|done]. by destruct Ho as [l ->]. }
  apply list.NoDup_app in Hnd as (_ & Hdis & Hnd). apply list.NoDup_cons in Hnd as [Hp _].
  rewrite !elems_app, !elems_cons, !Hb; [| |].
  - rewrite (block_Some _ _ _ Ep), (block_Some _ _ _ (sh_left _ _ _ _ _ _ _ _ Hs)), (block_Some _ _ _ (sh_right _ _ _ _ _ _ _ _ Hs)).
    rewrite (chars_split it diff lc rc p r) by done. by rewrite <- !(assoc_L (++)).
  - intros q Hq. split_and!; [intros ->; done|intros ->; set_solver|apply Hall; set_solver].
  - intros q Hq. split_and!; [intros ->; apply (Hdis p Hq); left|intros ->; set_solver|apply Hall; set_solver].
Qed.

Lemma agrees_split it diff lc rc p r : agrees og ro it -> 0 < diff < i_length it ->
  agrees og ro (split_left it diff lc r) /\ agrees og ro (split_right it diff rc p).
Proof.
  intros [Ao Ar Al Ai] Hd. pose proof (chars_split it diff lc rc p r Hd) as Hc. split.
  - split; [done|done|simpl; lia|]. intros q Hq Hne. apply Ai; [rewrite Hc; set_solver|done].
  - assert (Hin : forall q, q ∈ chars (split_right it diff rc p) -> q ∈ chars it /\ q <> i_id it).
    { intros q Hq. split; [rewrite Hc; set_solver|]. apply elem_chars in Hq as [_ Hq]. simpl in Hq. intros ->. lia. }
    assert (H0 : i_id (split_right it diff rc p) ∈ chars (split_right it diff rc p)) by (apply first_char; simpl; lia).
    destruct (Hin _ H0) as [H1 H2]. destruct (Ai _ H1 H2) as [Eo Er]. split; [|simpl in *; congruence|simpl; lia|].
    + simpl in *. by rewrite Eo.
    + intros q Hq Hne. destruct (Hin q Hq) as [H3 H4]. destruct (Ai q H3 H4) as [Eo' Er']. split; [done|congruence].
Qed.

End SplitRepr.

(** ** Documents with a well-formed list *)
Section Clean.
Context {V : Type}.
Variables og ro : ID -> option ID.
Context (interpolate : Z -> Z -> Z -> Z).
Context (Hinterp : forall clock span end_, 0 < span -> 0 <= clock <= span -> 0 <= end_ -> 0 <= interpolate clock span end_ <= end_).
Implicit Types (d : docState V) (it : itemStruct V) (h : gmap nat (itemStruct V)).

(** The parts of a list item that splitting looks at. *)
Record item_body (t : nat) it : Prop := {
  ib_parent : i_parent it = ParentType t;
  ib_sub : i_parentSub it = [];
  ib_content : content_ok (i_content it);
  ib_length : contentLength (i_content it) = i_length it
}.

Record list_doc d (t : nat) (ps : list nat) : Prop := {
  ld_store : store_repr d;
  ld_list : list_repr og ro d t ps;
  ld_bodies : forall q qi, q ∈ ps -> d_items d !! q = Some qi -> item_body t qi;
  ld_fresh : heap_fresh d;
  ld_nodup : NoDup ps
}.

(** What a cut changes: the heap holds the same elements; only the item that
    held [at_] may have become shorter, and everything outside the list is
    untouched. *)
Record cut_step d d' (t : nat) (ps ps' : list nat) (at_ : ID) : Prop := {
  cs_doc : list_doc d' t ps';
  cs_elems : elems (d_items d') ps' = elems (d_items d) ps;
  cs_next : (d_next d <= d_next d')%nat;
  cs_outside : forall q, q ∉ ps -> is_Some (d_items d !! q) -> d_items d' !! q = d_items d !! q;
  cs_inside : forall q qi, q ∈ ps -> d_items d !! q = Some qi -> at_ ∉ chars qi ->
    q ∈ ps' /\ exists l, d_items d' !! q = Some (with_left l qi);
  cs_states : forall k, @getState _ (refStruct (d_items d')) (d_store d') k = @getState _ (refStruct (d_items d)) (d_store d) k;
  cs_clients : dom (clients (d_store d')) = dom (clients (d_store d));
  cs_types : forall t', match d_types d !! t', d_types d' !! t' with
                        | Some a, Some b => t_item a = t_item b
                        | None, None => True
                        | _, _ => False
                        end;
  cs_sub : forall q, q ∈ ps' -> q ∈ ps \/ d_items d !! q = None;
  cs_deleted : forall q qi, d_items d !! q = Some qi -> exists qi', d_items d' !! q = Some qi' /\ i_deleted qi' = i_deleted qi
}.

Lemma cut_refl d t ps at_ : list_doc d t ps -> cut_step d d t ps ps at_.
Proof.
  intros Hd. split; try done; [|by intros t'; destruct (d_types d !! t')|by left|by eauto]. intros q qi Hq Eq _. split; [done|].
  exists (i_left qi). rewrite Eq. by destruct qi.
Qed.

Lemma getState_last {A} `{AbstractStruct A} (st : structStore A) k ss l : clients st !! k = Some ss -> list.last ss = Some l ->
  getState st k = Ok (struct_end l).
Proof. intros E El. unfold getState, clientStructs. by rewrite E, El. Qed.

(** The store after the right half is inserted behind the left one. *)
Lemma store_split d d1 p r it diff lc rc ss1 ss2 d2 : store_repr d -> split_heap (d_items d) (d_items d1) p r it diff lc rc ->
  d_items d !! p = Some it -> 0 < diff < i_length it -> d_items d !! r = None -> d_store d1 = d_store d ->
  clients (d_store d) !! Client (i_id it) = Some (ss1 ++ RItem p :: ss2) ->
  d2 = set_store (with_clients (d_store d1) (<[Client (i_id it) := ss1 ++ RItem p :: RItem r :: ss2]> (clients (d_store d1)))) d1 ->
  store_repr d2 /\
  (forall k, @getState _ (refStruct (d_items d2)) (d_store d2) k = @getState _ (refStruct (d_items d)) (d_store d) k).
Proof.
  intros [(Hok & Hnd & Hord) Hit] Hs Ep Hd Hr Est Hss ->. cbn [d_items d_store set_store]. rewrite Est.
  destruct (Hok _ _ Hss) as (_ & (c & Hc) & Hcl). pose proof (@contiguous_NoDup _ (refStruct (d_items d)) c _ Hc) as Hnd1.
  apply list.NoDup_app in Hnd1 as (_ & Hd1 & Hnd2). apply list.NoDup_cons in Hnd2 as [Hp2 _].
  assert (Hne : forall s, s ∈ ss1 ++ ss2 -> s <> RItem p /\ s <> RItem r /\ forall q, s = RItem q -> is_Some (d_items d !! q)).
  { intros s Hs1. assert (Hin : s ∈ ss1 ++ RItem p :: ss2) by set_solver. split_and!.
    - intros ->. apply elem_of_app in Hs1 as [H1|H1]; [apply (Hd1 _ H1); left|done].
    - intros ->. destruct (Hit _ _ r Hss Hin) as [? E]. by rewrite Hr in E.
    - intros q ->. by apply (Hit _ _ q Hss). }
  pose proof (contiguous_split _ _ _ _ _ _ _ _ ss1 ss2 Hs Ep Hd Hne c Hc) as Hc'.
  assert (Hoth : forall k ss, k <> Client (i_id it) -> clients (d_store d) !! k = Some ss -> forall s, s ∈ ss ->
    @getID _ (refStruct (d_items d)) s = @getID _ (refStruct (d_items d1)) s /\ @structLength _ (refStruct (d_items d)) s = @structLength _ (refStruct (d_items d1)) s).
  { intros k ss Hk Hks s Hs1. destruct (Hok _ _ Hks) as (_ & _ & Hf). rewrite list.Forall_forall in Hf. specialize (Hf s Hs1).
    apply (split_ref _ _ p r it diff lc rc s Hs).
    - intros ->. simpl in Hf. rewrite Ep in Hf. done.
    - intros ->. destruct (Hit _ _ r Hks Hs1) as [? E]. by rewrite Hr in E.
    - intros q ->. by apply (Hit _ _ q Hks). }
  split.
  - split; cbn [d_items d_store set_store with_clients clients clientOrder].
    + split_and!; [|done|].
      * intros k ss Hk. cbn in Hk. destruct (decide (k = Client (i_id it))) as [->|Hne1].
        -- rewrite lookup_insert_eq in Hk. injection Hk as <-. split_and!; [by destruct ss1|by exists c|].
           apply list.Forall_app. rewrite list.Forall_app in Hcl. destruct Hcl as [Hf1 Hf2]. inversion_clear Hf2 as [|? ? _ Hf3].
           assert (Hext : forall ss, (forall s, s ∈ ss -> s ∈ ss1 ++ ss2) -> Forall (fun s => Client (@getID _ (refStruct (d_items d)) s) = Client (i_id it)) ss ->
             Forall (fun s => Client (@getID _ (refStruct (d_items d1)) s) = Client (i_id it)) ss).
           { intros ss Hin Hf. apply list.Forall_forall. intros s Hs1. rewrite list.Forall_forall in Hf. specialize (Hf s Hs1).
             destruct (Hne s (Hin s Hs1)) as (N1 & N2 & N3). destruct (split_ref _ _ _ _ _ _ _ _ s Hs N1 N2 N3) as [E _]. by rewrite <- E. }
           split; [apply Hext; [set_solver|done]|]. constructor; [|constructor].
           ++ simpl. by rewrite (sh_left _ _ _ _ _ _ _ _ Hs).
           ++ simpl. by rewrite (sh_right _ _ _ _ _ _ _ _ Hs).
           ++ apply Hext; [set_solver|exact Hf3].
        -- rewrite lookup_insert_ne in Hk by done. destruct (Hok _ _ Hk) as (? & (c' & Hc1) & Hf). split_and!; [done| |].
           ++ exists c'. eapply contiguous_ext; [|exact Hc1]. by apply (Hoth k ss).
           ++ apply list.Forall_forall. intros s Hs1. rewrite list.Forall_forall in Hf. destruct (Hoth k ss Hne1 Hk s Hs1) as [<- _]. by apply Hf.
      * intros k. cbn. rewrite Hord. destruct (decide (k = Client (i_id it))) as [->|Hne1].
        -- rewrite lookup_insert_eq, Hss. split; eauto.
        -- by rewrite lookup_insert_ne.
    + assert (Hsome : forall q, is_Some (d_items d !! q) -> is_Some (d_items d1 !! q)).
      { intros q [a Ea]. destruct (decide (q = p)) as [->|]; [rewrite (sh_left _ _ _ _ _ _ _ _ Hs); eauto|].
        assert (q <> r) by congruence. pose proof (split_other _ _ _ _ _ _ _ _ q Hs ltac:(done) ltac:(done)) as Ho. rewrite Ea in Ho.
        by destruct (d_items d1 !! q). }
      intros k ss q Hk Hq. cbn in Hk. destruct (decide (k = Client (i_id it))) as [->|Hne1].
      * rewrite lookup_insert_eq in Hk. injection Hk as <-. destruct (decide (q = r)) as [->|]; [rewrite (sh_right _ _ _ _ _ _ _ _ Hs); eauto|].
        apply Hsome, (Hit _ _ q Hss). set_solver.
      * rewrite lookup_insert_ne in Hk by done. by apply Hsome, (Hit _ _ q Hk).
  - intros k. unfold getState, clientStructs. cbn [with_clients clients]. destruct (decide (k = Client (i_id it))) as [->|Hne1].
    + rewrite lookup_insert_eq, Hss. destruct ss2 as [|z ss2 _] using rev_ind.
      * change [RItem p; RItem r] with ([RItem p] ++ [RItem r]). rewrite (app_assoc ss1), !last_snoc. simpl. rewrite Ep, (sh_right _ _ _ _ _ _ _ _ Hs). simpl. f_equal. lia.
      * rewrite !app_comm_cons, !(assoc_L (++)), !last_snoc. destruct (Hne z) as (N1 & N2 & N3); [set_solver|].
        destruct (split_ref _ _ _ _ _ _ _ _ z Hs N1 N2 N3) as [-> ->]. done.
    + rewrite lookup_insert_ne by done. destruct (clients (d_store d) !! k) as [ss|] eqn:Hk; [|done].
      destruct (list.last ss) as [l|] eqn:El; [|done]. apply last_Some in El as [ss' ->].
      destruct (Hoth k _ Hne1 Hk l) as [-> ->]; [set_solver|done].
Qed.


(** The list after the cut. *)
Lemma list_split d d1 t ty p r it diff lc rc ps1 ps2 ss1 ss2 d2 : list_doc d t (ps1 ++ p :: ps2) ->
  split_heap (d_items d) (d_items d1) p r it diff lc rc -> d_items d !! p = Some it -> 0 < diff < i_length it ->
  d_items d !! r = None -> r ∉ ps1 ++ p :: ps2 -> d_store d1 = d_store d -> d_types d !! t = Some ty ->
  d_types d1 = <[t := updateListItemCount 1 ty]> (d_types d) ->
  clients (d_store d) !! Client (i_id it) = Some (ss1 ++ RItem p :: ss2) ->
  d2 = set_store (with_clients (d_store d1) (<[Client (i_id it) := ss1 ++ RItem p :: RItem r :: ss2]> (clients (d_store d1)))) d1 ->
  list_repr og ro d2 t (ps1 ++ p :: r :: ps2).
Proof.
  intros Hd Hs Ep Hdf Hr Hrn Est Et Ety Hss ->. pose proof (ld_list _ _ _ Hd) as Hl. pose proof (ld_nodup _ _ _ Hd) as Hnd.
  assert (Hold : forall q, q ∈ ps1 ++ p :: r :: ps2 -> q = p \/ q = r \/ (q ∈ ps1 ++ p :: ps2 /\ q <> p /\ q <> r)).
  { intros q Hq. destruct (decide (q = p)), (decide (q = r)); [tauto..|]. right. right. split_and!; [set_solver|done|done]. }
  assert (Hback : forall q qi, q ∈ ps1 ++ p :: ps2 -> q <> p -> q <> r -> d_items d1 !! q = Some qi -> exists qi0 l, d_items d !! q = Some qi0 /\ qi = with_left l qi0).
  { intros q qi Hq H1 H2 Eq. destruct (linked_lookup _ _ _ _ (lr_linked _ _ _ _ _ Hl) Hq) as [qi0 Eq0].
    pose proof (split_other _ _ _ _ _ _ _ _ q Hs H1 H2) as Ho. rewrite Eq0, Eq in Ho. destruct Ho as [l ->]. by exists qi0, l. }
  pose proof (lr_agrees _ _ _ _ _ Hl p it ltac:(set_solver) Ep) as Hag.
  destruct (agrees_split og ro it diff lc rc p r Hag Hdf) as [Hag1 Hag2].
  split; cbn [d_items d_types d_store set_store with_clients clients].
  - destruct (lr_start _ _ _ _ _ Hl) as (ty' & Et' & Hst). rewrite Ety, lookup_insert_eq. simplify_eq. eexists. split; [done|].
    simpl. rewrite Hst. by destruct ps1.
  - by eapply linked_split; [exact Hs|exact Ep|..|apply Hl].
  - intros q qi Hq Eq. destruct (Hold q Hq) as [->|[->|(Hq1 & H1 & H2)]].
    + rewrite (sh_left _ _ _ _ _ _ _ _ Hs) in Eq. by injection Eq as <-.
    + rewrite (sh_right _ _ _ _ _ _ _ _ Hs) in Eq. by injection Eq as <-.
    + destruct (Hback q qi Hq1 H1 H2 Eq) as (qi0 & l & Eq0 & ->).
      apply (agrees_body og ro qi0); [done|]. by apply (lr_agrees _ _ _ _ _ Hl q).
  - intros q qi Hq Eq. rewrite Est. destruct (Hold q Hq) as [->|[->|(Hq1 & H1 & H2)]].
    + rewrite (sh_left _ _ _ _ _ _ _ _ Hs) in Eq. injection Eq as <-. simpl. rewrite lookup_insert_eq. eexists. split; [done|set_solver].
    + rewrite (sh_right _ _ _ _ _ _ _ _ Hs) in Eq. injection Eq as <-. simpl. rewrite lookup_insert_eq. eexists. split; [done|set_solver].
    + destruct (Hback q qi Hq1 H1 H2 Eq) as (qi0 & l & Eq0 & ->). destruct (lr_store _ _ _ _ _ Hl q qi0 Hq1 Eq0) as (ss & Hk & Hin). simpl.
      destruct (decide (Client (i_id qi0) = Client (i_id it))) as [E|E].
      * rewrite E in *. rewrite lookup_insert_eq. eexists. split; [done|]. simplify_eq. set_solver.
      * rewrite lookup_insert_ne by done. eauto.
Qed.

(** Cutting an item of the list behind its first [diff] elements. *)
Lemma cut_item d t ps1 p ps2 it diff ss1 ss2 at_ : list_doc d t (ps1 ++ p :: ps2) -> d_items d !! p = Some it -> 0 < diff < i_length it ->
  at_ ∈ chars it -> clients (d_store d) !! Client (i_id it) = Some (ss1 ++ RItem p :: ss2) ->
  exists d1 d2 r lc rc, splitItem p diff d = (Ok r, d1) /\
    insertAfter (Client (i_id it)) (Z.of_nat (length ss1)) (RItem r) d1 = (Ok tt, d2) /\
    cut_step d d2 t (ps1 ++ p :: ps2) (ps1 ++ p :: r :: ps2) at_ /\
    d_items d2 !! p = Some (split_left it diff lc r) /\ d_items d2 !! r = Some (split_right it diff rc p) /\
    spliceContent (i_content it) diff = Some (lc, rc) /\ split_heap (d_items d) (d_items d2) p r it diff lc rc /\ d_items d !! r = None /\
    (forall ty, d_types d !! t = Some ty -> d_types d2 = <[t := updateListItemCount 1 ty]> (d_types d)).
Proof.
  intros Hd Ep Hdf Hat Hss. pose proof (ld_list _ _ _ Hd) as Hl. pose proof (ld_nodup _ _ _ Hd) as Hnd.
  assert (Hp : p ∈ ps1 ++ p :: ps2) by set_solver.
  destruct (ld_bodies _ _ _ Hd p it Hp Ep) as [Hpar Hsub Hcok Hclen]. pose proof (ld_fresh _ _ _ Hd) as Hf.
  destruct (lr_start _ _ _ _ _ Hl) as (ty & Et & _).
  destruct (splice_total (i_content it) diff Hcok) as (lc & rc & Esp & Hlc & Hrc & Ll & Lr & _); [lia|lia|].
  pose proof (lr_linked _ _ _ _ _ Hl) as Hlk. apply linked_lseg, lseg_app in Hlk as [_ (it' & E' & _ & Hright & Hl2)]. rewrite Ep in E'. injection E' as <-.
  assert (Hinps : forall n, i_right it = Some n -> n ∈ ps2) by (intros n En; rewrite Hright in En; destruct ps2; [done|]; injection En as ->; left).
  apply list.NoDup_app in Hnd as Hnd'. destruct Hnd' as (_ & _ & Hnd'). apply list.NoDup_cons in Hnd' as [Hp2 _].
  destruct (splitItem_spec d p it t ty diff lc rc) as (d1 & E1 & Hs & Est & Ety & Enx); [done..| |].
  { intros n En. split; [intros ->; by apply Hp2, Hinps|]. eapply linked_lookup; [apply (lr_linked _ _ _ _ _ Hl)|]. apply Hinps in En. set_solver. }
  set (r := d_next d) in *. assert (Hr : d_items d !! r = None) by by apply Hf.
  assert (Hall : forall q, q ∈ ps1 ++ p :: ps2 -> is_Some (d_items d !! q)) by (intros q; eapply linked_lookup; apply Hl).
  assert (Hrn : r ∉ ps1 ++ p :: ps2) by (intros H; destruct (Hall r H); congruence).
  set (d2 := set_store (with_clients (d_store d1) (<[Client (i_id it) := ss1 ++ RItem p :: RItem r :: ss2]> (clients (d_store d1)))) d1).
  destruct (store_split d d1 p r it diff lc rc ss1 ss2 d2 (ld_store _ _ _ Hd) Hs Ep Hdf Hr Est Hss eq_refl) as [Hst2 Hstates].
  pose proof (list_split d d1 t ty p r it diff lc rc ps1 ps2 ss1 ss2 d2 Hd Hs Ep Hdf Hr Hrn Est Et Ety Hss eq_refl) as Hl2'.
  pose proof (elems_split _ _ p r it diff lc rc ps1 ps2 Hs Ep Hdf Hnd Hrn Hall) as Hel.
  exists d1, d2, r, lc, rc. split_and!; [done| | |by apply (sh_left _ _ _ _ _ _ _ _ Hs)|by apply (sh_right _ _ _ _ _ _ _ _ Hs)|done|done|done|intros ty' Et'; rewrite Et in Et'; by injection Et' as <-].
  { assert (El : take (Z.to_nat (Z.of_nat (length ss1)) + 1) (ss1 ++ RItem p :: ss2) ++ RItem r :: drop (Z.to_nat (Z.of_nat (length ss1)) + 1) (ss1 ++ RItem p :: ss2) =
      ss1 ++ RItem p :: RItem r :: ss2).
    { replace (Z.to_nat (Z.of_nat (length ss1)) + 1)%nat with (length (ss1 ++ [RItem p])) by (rewrite length_app; simpl; lia).
      rewrite (cons_middle (RItem p) ss1 ss2), (assoc_L (++)), take_app_length, drop_app_length. by rewrite <- (assoc_L (++)). }
    unfold insertAfter, modify, clientStructs, d2. rewrite Est, Hss, El. done. }
  assert (Hbody : forall q qi, q ∈ ps1 ++ p :: r :: ps2 -> d_items d1 !! q = Some qi -> item_body t qi).
  { intros q qi Hq Eq. destruct (decide (q = p)) as [->|H1]; [|destruct (decide (q = r)) as [->|H2]].
    - rewrite (sh_left _ _ _ _ _ _ _ _ Hs) in Eq. injection Eq as <-. by split.
    - rewrite (sh_right _ _ _ _ _ _ _ _ Hs) in Eq. injection Eq as <-. split; try done. simpl. lia.
    - assert (Hq1 : q ∈ ps1 ++ p :: ps2) by set_solver. destruct (Hall q Hq1) as [qi0 Eq0].
      pose proof (split_other _ _ _ _ _ _ _ _ q Hs H1 H2) as Ho. rewrite Eq0, Eq in Ho. destruct Ho as [l ->].
      destruct (ld_bodies _ _ _ Hd q qi0 Hq1 Eq0). by split. }
  split.
  - split; [done|done|done| |].
    2: { apply list.NoDup_app in Hnd as (N1 & N2 & N3). apply list.NoDup_app. split_and!; [done|set_solver|].
         apply list.NoDup_cons in N3 as [N3 N4]. apply list.NoDup_cons. split; [set_solver|]. apply list.NoDup_cons. split; [set_solver|done]. }
    intros q Hq. cbn [d2 d_next set_store d_items] in *. rewrite Enx in Hq. rewrite (sh_other _ _ _ _ _ _ _ _ Hs); [apply Hf; lia| |lia|].
    + intros ->. rewrite Hf in Ep; [done|lia].
    + intros E. apply Hinps in E. destruct (Hall q) as [? E2]; [set_solver|]. rewrite Hf in E2; [done|lia].
  - exact Hel.
  - cbn. rewrite Enx. lia.
  - intros q Hq [a Ea]. cbn. apply (sh_other _ _ _ _ _ _ _ _ Hs); [set_solver|congruence|]. intros E. apply Hinps in E. set_solver.
  - intros q qi Hq Eq Hn. assert (q <> p) by (intros ->; rewrite Ep in Eq; injection Eq as <-; by apply Hn). assert (q <> r) by (intros ->; congruence).
    split; [set_solver|]. cbn. pose proof (split_other _ _ _ _ _ _ _ _ q Hs ltac:(done) ltac:(done)) as Ho. rewrite Eq in Ho.
    destruct (d_items d1 !! q); [|done]. destruct Ho as [l ->]. by exists l.
  - exact Hstates.
  - cbn. rewrite Est, dom_insert_L. apply elem_of_dom_2 in Hss. set_solver.
  - intros t'. cbn. rewrite Ety. destruct (decide (t' = t)) as [->|Hne]; [by rewrite Et, lookup_insert_eq|].
    rewrite lookup_insert_ne by done. by destruct (d_types d !! t').
  - intros q Hq. destruct (decide (q = r)) as [->|]; [by right|left; set_solver].
  - intros q qi Eq. cbn. destruct (decide (q = p)) as [->|H1].
    { rewrite (sh_left _ _ _ _ _ _ _ _ Hs). rewrite Ep in Eq. injection Eq as <-. by eexists. }
    assert (H2 : q <> r) by congruence. pose proof (split_other _ _ _ _ _ _ _ _ q Hs H1 H2) as Ho. rewrite Eq in Ho.
    destruct (d_items d1 !! q); [|done]. destruct Ho as [l ->]. by eexists.
Qed.


Lemma findIndexM_found d t ps q : list_doc d t ps -> q ∈ elems (d_items d) ps ->
  exists p it ps1 ps2 ss1 ss2, ps = ps1 ++ p :: ps2 /\ d_items d !! p = Some it /\ q ∈ chars it /\
    clients (d_store d) !! Client (i_id it) = Some (ss1 ++ RItem p :: ss2) /\
    findIndexM interpolate (Client q) (Clock q) d = (Ok (Some (Z.of_nat (length ss1), RItem p)), d).
Proof.
  intros Hd (p & it & Hp & Ep & Hq)%elem_elems. pose proof (ld_list _ _ _ Hd) as Hl.
  destruct (lr_store _ _ _ _ _ Hl p it Hp Ep) as (ss & Hss & Hin). pose proof Hq as [Hcl Hck]%elem_chars.
  destruct (sr_ok _ (ld_store _ _ _ Hd)) as (Hok & _). destruct (Hok _ _ Hss) as (_ & (c & Hc) & _).
  destruct (@findIndexSS_covers _ (refStruct (d_items d)) interpolate Hinterp c ss (Clock q) (RItem p) Hc Hin) as (i & Ei & Ez).
  { by apply (covers_chars (d_items d) p it). }
  apply list_elem_of_split in Hp as (ps1 & ps2 & ->). pose proof (zlookup_Some _ _ _ Ez) as Hi.
  assert (Hi2 : ss !! Z.to_nat i = Some (RItem p)) by (unfold zlookup in Ez; by destruct (i <? 0)).
  exists p, it, ps1, ps2, (take (Z.to_nat i) ss), (drop (S (Z.to_nat i)) ss).
  assert (Es : take (Z.to_nat i) ss ++ RItem p :: drop (S (Z.to_nat i)) ss = ss) by by apply take_drop_middle.
  pose proof (lookup_lt_Some _ _ _ Hi2).
  split_and!; [done|done|done|by rewrite Es|]. unfold findIndexM, get, clientStructs. rewrite Hcl, Hss, Ei, Ez.
  rewrite length_take. do 4 f_equal. lia.
Qed.

Lemma lastID_eq it q : q ∈ chars it -> Clock q = Clock (i_id it) + i_length it - 1 -> lastID it = q.
Proof.
  intros [Hc _]%elem_chars Hk. unfold lastID. destruct (Z.eqb_spec (i_length it) 1) as [E|E].
  - destruct q as [qc qk], (i_id it) as [ic ik]. simpl in *. f_equal; lia.
  - destruct q as [qc qk]. simpl in *. by subst.
Qed.

(** [getItemCleanEnd] finds or makes the item that ends with an element. *)
Lemma getItemCleanEnd_spec d t ps q : list_doc d t ps -> q ∈ elems (d_items d) ps ->
  exists d' ps' l li, getItemCleanEnd interpolate q d = (Ok (Some l), d') /\ cut_step d d' t ps ps' q /\
    l ∈ ps' /\ d_items d' !! l = Some li /\ lastID li = q.
Proof.
  intros Hd Hq. destruct (findIndexM_found d t ps q Hd Hq) as (p & it & ps1 & ps2 & ss1 & ss2 & -> & Ep & Hqc & Hss & Ef).
  pose proof Hqc as [Hcl Hck]%elem_chars. pose proof (ag_length _ _ _ (lr_agrees _ _ _ _ _ (ld_list _ _ _ Hd) p it ltac:(set_solver) Ep)).
  unfold getItemCleanEnd. unfold rbind at 1. rewrite Ef. unfold rbind at 1. rewrite (getItem_eq _ _ _ Ep).
  destruct (Z.eqb_spec (Clock q) (Clock (i_id it) + i_length it - 1)) as [E|E]; cbn [negb].
  - exists d, (ps1 ++ p :: ps2), p, it. split_and!; [done|by apply cut_refl|set_solver|done|by apply lastID_eq].
  - destruct (cut_item d t ps1 p ps2 it (Clock q - Clock (i_id it) + 1) ss1 ss2 q Hd Ep ltac:(lia) Hqc Hss)
      as (d1 & d2 & r & lc & rc & E1 & E2 & Hcut & El & Er & _).
    exists d2, (ps1 ++ p :: r :: ps2), p, (split_left it (Clock q - Clock (i_id it) + 1) lc r).
    unfold rbind at 1. rewrite E1. rewrite Hcl. unfold rbind at 1. rewrite E2. split_and!; [done|done|set_solver|done|].
    apply lastID_eq; [apply elem_chars; simpl; lia|simpl; lia].
Qed.

(** [getItemCleanStart] finds or makes the item that starts with an element. *)
Lemma getItemCleanStart_spec d t ps q : list_doc d t ps -> q ∈ elems (d_items d) ps ->
  exists d' ps' r ri, getItemCleanStart interpolate q d = (Ok (Some r), d') /\ cut_step d d' t ps ps' q /\
    r ∈ ps' /\ d_items d' !! r = Some ri /\ i_id ri = q.
Proof.
  intros Hd Hq. destruct (findIndexM_found d t ps q Hd Hq) as (p & it & ps1 & ps2 & ss1 & ss2 & -> & Ep & Hqc & Hss & Ef).
  pose proof Hqc as [Hcl Hck]%elem_chars. pose proof (ag_length _ _ _ (lr_agrees _ _ _ _ _ (ld_list _ _ _ Hd) p it ltac:(set_solver) Ep)).
  unfold getItemCleanStart. unfold rbind at 1. rewrite Ef. unfold rbind at 1. rewrite (getItem_eq _ _ _ Ep).
  destruct (Z.ltb_spec (Clock (i_id it)) (Clock q)) as [E|E].
  - destruct (cut_item d t ps1 p ps2 it (Clock q - Clock (i_id it)) ss1 ss2 q Hd Ep ltac:(lia) Hqc Hss)
      as (d1 & d2 & r & lc & rc & E1 & E2 & Hcut & El & Er & _).
    exists d2, (ps1 ++ p :: r :: ps2), r, (split_right it (Clock q - Clock (i_id it)) rc p).
    unfold rbind at 1. rewrite E1. rewrite Hcl. unfold rbind at 1. rewrite E2. split_and!; [done|done|set_solver|done|].
    destruct q as [qc qk]. simpl in *. f_equal; lia.
  - exists d, (ps1 ++ p :: ps2), p, it. split_and!; [done|by apply cut_refl|set_solver|done|].
    destruct q as [qc qk], (i_id it) as [ic ik]. simpl in *. f_equal; lia.
Qed.


(** ** What an operation on the list leaves alone *)
Record frame d d' : Prop := {
  fr_states : forall k, @getState _ (refStruct (d_items d')) (d_store d') k = @getState _ (refStruct (d_items d)) (d_store d) k;
  fr_clients : dom (clients (d_store d')) = dom (clients (d_store d));
  fr_types : forall t', match d_types d !! t', d_types d' !! t' with
                        | Some a, Some b => t_item a = t_item b
                        | None, None => True
                        | _, _ => False
                        end;
  fr_deleted : forall q qi, d_items d !! q = Some qi -> exists qi', d_items d' !! q = Some qi' /\ i_deleted qi' = i_deleted qi
}.

Lemma frame_refl d : frame d d.
Proof. split; [done|done|by intros t'; destruct (d_types d !! t')|by eauto]. Qed.

Lemma frame_trans d1 d2 d3 : frame d1 d2 -> frame d2 d3 -> frame d1 d3.
Proof.
  intros [A1 A2 A3 A4] [B1 B2 B3 B4]. split; [congruence|congruence| |].
  - intros t'. specialize (A3 t'). specialize (B3 t'). destruct (d_types d1 !! t'), (d_types d2 !! t'), (d_types d3 !! t'); try done. congruence.
  - intros q qi E. destruct (A4 q qi E) as (q2 & E2 & H2). destruct (B4 q q2 E2) as (q3 & E3 & H3). exists q3. split; [done|congruence].
Qed.

Lemma cut_frame d d' t ps ps' at_ : cut_step d d' t ps ps' at_ -> frame d d'.
Proof. intros []. by split. Qed.

(** Writing to an item outside of the list. *)
Lemma write_outside d t ps p it it' : list_doc d t ps -> p ∉ ps -> d_items d !! p = Some it -> i_id it' = i_id it -> i_length it' = i_length it ->
  i_deleted it' = i_deleted it ->
  let d' := set_items (<[p := it']> (d_items d)) d in
  list_doc d' t ps /\ elems (d_items d') ps = elems (d_items d) ps /\ frame d d'.
Proof.
  intros Hd Hp Ep Ei El Edel d'. assert (Hsame : forall q, q ∈ ps -> d_items d' !! q = d_items d !! q).
  { intros q Hq. cbn. apply lookup_insert_ne. set_solver. }
  assert (Href : forall s, @getID _ (refStruct (d_items d)) s = @getID _ (refStruct (d_items d')) s /\
    @structLength _ (refStruct (d_items d)) s = @structLength _ (refStruct (d_items d')) s).
  { intros [q|gc]; [|done]. simpl. destruct (decide (q = p)) as [->|]; [by rewrite lookup_insert_eq, Ep; simpl|by rewrite lookup_insert_ne]. }
  assert (Hsome : forall q, is_Some (d_items d !! q) <-> is_Some (d_items d' !! q)).
  { intros q. cbn. rewrite lookup_insert_is_Some. destruct (decide (p = q)) as [->|]; [|tauto]. rewrite Ep. split; [by left|eauto]. }
  destruct Hd as [[(Hok & Hnd & Hord) Hit] [Ls Ll La Lst] Hb Hf Hn]. split_and!; [split|..].
  - split; [split_and!; [|done|done]|].
    + intros k ss Hk. destruct (Hok k ss Hk) as (H1 & (c & Hc) & H3). split_and!; [done| |].
      * exists c. eapply contiguous_ext; [|exact Hc]. intros s _. apply Href.
      * apply list.Forall_forall. rewrite list.Forall_forall in H3. intros s Hs. destruct (Href s) as [<- _]. by apply H3.
    + intros k ss q Hk Hq. apply Hsome. by eapply Hit.
  - split; [done| |intros q qi Hq; rewrite Hsame by done; by apply La|intros q qi Hq; rewrite Hsame by done; by apply Lst].
    apply linked_lseg. eapply lseg_ext; [exact Hsame|]. by apply linked_lseg.
  - intros q qi Hq. rewrite Hsame by done. by apply Hb.
  - intros q Hq. specialize (Hf q Hq). cbn. rewrite lookup_insert_ne; [done|]. intros ->. congruence.
  - done.
  - unfold elems. clear -Hsame. induction ps as [|q ps IH]; [done|]. cbn [mbind list_bind]. unfold block at 1 3. rewrite Hsame by left. f_equal. apply IH. intros. apply Hsame. by right.
  - split; [|done|by intros t'; cbn; destruct (d_types d !! t')|].
    + intros k. unfold getState. destruct (clientStructs _ k) as [ss|]; [|done]. destruct (list.last ss) as [l|]; [|done].
      destruct (Href l) as [-> ->]. done.
    + intros q qi E. cbn. destruct (decide (q = p)) as [->|]; [rewrite lookup_insert_eq|rewrite lookup_insert_ne by done]; simplify_eq; eauto.
Qed.

Lemma state_beyond d q s : store_repr d -> @getStruct _ (refStruct (d_items d)) interpolate (d_store d) q = Some s ->
  exists v, @getState _ (refStruct (d_items d)) (d_store d) (Client q) = Ok v /\ Clock q < v.
Proof.
  intros [Hok _] Hg. apply (@getStruct_inv _ (refStruct (d_items d)) interpolate Hinterp) in Hg as (ss & Hss & Hin & Hk); [|done].
  destruct Hok as (Hok & _). destruct (Hok _ _ Hss) as (Hne & (c & Hc) & _). destruct (list.last ss) as [l|] eqn:El; [|by apply last_None in El].
  rewrite (@getState_last _ (refStruct (d_items d)) _ _ ss l Hss El). eexists. split; [reflexivity|].
  pose proof (@contiguous_end _ (refStruct (d_items d)) c ss s Hc Hin) as He. rewrite (@list_end_last _ (refStruct (d_items d)) c ss l El) in He.
  unfold covers in Hk. lia.
Qed.

Lemma missing_found d own q s : store_repr d -> @getStruct _ (refStruct (d_items d)) interpolate (d_store d) q = Some s ->
  missing own (Some q) d = (Ok false, d).
Proof.
  intros Hd Hg. unfold missing. destruct (Client q =? own); [done|]. unfold rbind, getStateM. destruct (state_beyond d q s Hd Hg) as (v & -> & Hv). unfold rret. do 2 f_equal. by apply Z.leb_gt.
Qed.

Lemma addStruct_frame d d' p it it' st' : store_repr d' -> frame d d' -> d_items d !! p = Some it -> d_items d' !! p = Some it' -> i_id it' = i_id it ->
  @addStruct _ (refStruct (d_items d)) (d_store d) (RItem p) = Ok st' ->
  exists st'', @addStruct _ (refStruct (d_items d')) (d_store d') (RItem p) = Ok st''.
Proof.
  intros [(Hok & _) _] Hf Ep Ep' Ei Hadd. unfold addStruct, clientStructs in *. simpl in *. rewrite Ep in Hadd. rewrite Ep'. simpl in *. rewrite Ei.
  pose proof (fr_states _ _ Hf (Client (i_id it))) as Hs. unfold getState, clientStructs in Hs.
  pose proof (fr_clients _ _ Hf) as Hdom.
  destruct (clients (d_store d') !! Client (i_id it)) as [ss'|] eqn:E'; [|eauto].
  destruct (clients (d_store d) !! Client (i_id it)) as [ss|] eqn:E; last first.
  { apply not_elem_of_dom in E. apply elem_of_dom_2 in E'. rewrite Hdom in E'. done. }
  destruct (Hok _ _ E') as (Hne & _). destruct (list.last ss') as [l'|] eqn:El'; [|by apply last_None in El'].
  destruct (list.last ss) as [l|]; [|done]. injection Hs as ->. destruct (_ =? _); [eauto|done].
Qed.


(** ** Resolving the neighbours *)

(** An item as the decoder hands it over: it names its neighbours by id, and
    its parent only when it has none; what it depends on is in the list. *)
Record arriving d (t : nat) (ps : list nat) (p : nat) it : Prop := {
  ar_item : d_items d !! p = Some it;
  ar_fresh : p ∉ ps;
  ar_links : i_left it = None /\ i_right it = None;
  ar_agrees : agrees og ro it;
  ar_sub : i_parentSub it = [];
  ar_parent : match og (i_id it), ro (i_id it) with
              | None, None => i_parent it = ParentType t \/
                  exists q r ri, i_parent it = ParentID q /\ d_items d !! r = Some ri /\ i_content ri = contentType t /\
                    @getStruct _ (refStruct (d_items d)) interpolate (d_store d) q = Some (RItem r)
              | _, _ => i_parent it = ParentNil
              end;
  ar_content : content_ok (i_content it);
  ar_length : contentLength (i_content it) = i_length it;
  ar_origin : forall o, og (i_id it) = Some o -> o ∈ elems (d_items d) ps;
  ar_right : forall r, ro (i_id it) = Some r -> r ∈ elems (d_items d) ps;
  ar_between : forall o r, og (i_id it) = Some o -> ro (i_id it) = Some r -> prec (elems (d_items d) ps) o r;
  ar_next : exists st', @addStruct _ (refStruct (d_items d)) (d_store d) (RItem p) = Ok st';
  ar_parentItem : forall ty q, d_types d !! t = Some ty -> t_item ty = Some q ->
    q <> p /\ exists qi, d_items d !! q = Some qi /\ i_deleted qi = false;
  ar_nested : forall t', i_content it = contentType t' -> t' <> t /\ is_Some (d_types d !! t')
}.

Lemma elems_struct d t ps q : list_doc d t ps -> q ∈ elems (d_items d) ps ->
  exists s, @getStruct _ (refStruct (d_items d)) interpolate (d_store d) q = Some s.
Proof.
  intros Hd (p & it & Hp & Ep & Hq)%elem_elems.
  destruct (repr_found og ro interpolate Hinterp d t ps (ld_store _ _ _ Hd) (ld_list _ _ _ Hd)) as (Hf & _).
  exists (RItem p). by apply (Hf p it q).
Qed.

(** The state while an item outside of the list is being resolved. *)
Record resolving d d' (t : nat) (ps ps' : list nat) (p : nat) it it' : Prop := {
  rs_doc : list_doc d' t ps';
  rs_elems : elems (d_items d') ps' = elems (d_items d) ps;
  rs_frame : frame d d';
  rs_fresh : p ∉ ps';
  rs_item : d_items d' !! p = Some it';
  rs_id : i_id it' = i_id it;
  rs_length : i_length it' = i_length it
}.

Lemma resolving_trans d1 d2 d3 t ps1 ps2 ps3 p it1 it2 it3 : resolving d1 d2 t ps1 ps2 p it1 it2 -> resolving d2 d3 t ps2 ps3 p it2 it3 ->
  resolving d1 d3 t ps1 ps3 p it1 it3.
Proof. intros [] []. split; try done; [congruence|by eapply frame_trans|congruence|congruence]. Qed.

(** One cut followed by a write to the incoming item. *)
Lemma cut_write d d1 t ps ps1 at_ p it it' : cut_step d d1 t ps ps1 at_ -> d_items d !! p = Some it -> p ∉ ps ->
  i_id it' = i_id it -> i_length it' = i_length it -> i_deleted it' = i_deleted it ->
  resolving d (set_items (<[p := it']> (d_items d1)) d1) t ps ps1 p it it' /\ d_items d1 !! p = Some it.
Proof.
  intros Hc Ep Hp E1 E2 E3. assert (Ep1 : d_items d1 !! p = Some it) by (rewrite (cs_outside _ _ _ _ _ _ Hc); [done|done|eauto]).
  assert (Hp1 : p ∉ ps1). { intros H. destruct (cs_sub _ _ _ _ _ _ Hc p H); [done|congruence]. }
  destruct (write_outside d1 t ps1 p it it' (cs_doc _ _ _ _ _ _ Hc) Hp1 Ep1 E1 E2 E3) as (H1 & H2 & H3). split; [|done].
  split; [done|by rewrite H2; apply Hc|eapply frame_trans; [by eapply cut_frame|done]|done|cbn; apply lookup_insert_eq|done|done].
Qed.

Lemma resolve_origin d t ps p it : list_doc d t ps -> d_items d !! p = Some it -> p ∉ ps -> i_left it = None ->
  (forall o, i_origin it = Some o -> o ∈ elems (d_items d) ps) ->
  exists d1 ps1 lo, resolveOrigin interpolate p (i_origin it) d = (Ok tt, d1) /\ resolving d d1 t ps ps1 p it (with_left lo it) /\
    match i_origin it with
    | None => lo = None
    | Some o => exists l li, lo = Some l /\ l ∈ ps1 /\ d_items d1 !! l = Some li /\ lastID li = o
    end.
Proof.
  intros Hd Ep Hp El Ho. destruct (i_origin it) as [o|] eqn:Eo.
  - destruct (getItemCleanEnd_spec d t ps o Hd (Ho o eq_refl)) as (d1 & ps1 & l & li & E1 & Hc & Hl & Eli & Elast).
    destruct (cut_write d d1 t ps ps1 o p it (with_left (Some l) it) Hc Ep Hp eq_refl eq_refl eq_refl) as [Hres Ep1].
    exists (set_items (<[p := with_left (Some l) it]> (d_items d1)) d1), ps1, (Some l). split_and!; [|done|].
    + unfold resolveOrigin, rbind at 1. rewrite E1. unfold rbind at 1. rewrite (getItem_eq _ _ _ Eli), (setItem_eq _ _ _ _ Ep1), Elast, <- Eo. by destruct it.
    + exists l, li. split_and!; [done|done| |done]. cbn. rewrite lookup_insert_ne; [done|]. intros ->. by apply (rs_fresh _ _ _ _ _ _ _ _ Hres).
  - exists d, ps, None. split_and!; [done| |done]. replace (with_left None it) with it by (destruct it; simpl in *; by subst).
    split; try done. apply frame_refl.
Qed.

Lemma resolve_rightOrigin d t ps p it : list_doc d t ps -> d_items d !! p = Some it -> p ∉ ps -> i_right it = None ->
  (forall o, i_rightOrigin it = Some o -> o ∈ elems (d_items d) ps) ->
  exists d1 ps1 ro', resolveRightOrigin interpolate p (i_rightOrigin it) d = (Ok tt, d1) /\ resolving d d1 t ps ps1 p it (with_right ro' it) /\
    match i_rightOrigin it with
    | None => ro' = None
    | Some o => exists r ri, ro' = Some r /\ r ∈ ps1 /\ d_items d1 !! r = Some ri /\ i_id ri = o
    end /\
    (forall q qi, q ∈ ps -> d_items d !! q = Some qi -> (forall o, i_rightOrigin it = Some o -> o ∉ chars qi) ->
       q ∈ ps1 /\ exists l, d_items d1 !! q = Some (with_left l qi)).
Proof.
  intros Hd Ep Hp El Ho. destruct (i_rightOrigin it) as [o|] eqn:Eo.
  - destruct (getItemCleanStart_spec d t ps o Hd (Ho o eq_refl)) as (d1 & ps1 & r & ri & E1 & Hc & Hr & Eri & Eid).
    destruct (cut_write d d1 t ps ps1 o p it (with_right (Some r) it) Hc Ep Hp eq_refl eq_refl eq_refl) as [Hres Ep1].
    exists (set_items (<[p := with_right (Some r) it]> (d_items d1)) d1), ps1, (Some r). split_and!; [|done| |].
    + unfold resolveRightOrigin, rbind at 1. rewrite E1. unfold rbind at 1. rewrite (getItem_eq _ _ _ Eri), (setItem_eq _ _ _ _ Ep1), Eid, <- Eo. by destruct it.
    + exists r, ri. split_and!; [done|done| |done]. cbn. rewrite lookup_insert_ne; [done|]. intros ->. by apply (rs_fresh _ _ _ _ _ _ _ _ Hres).
    + intros q qi Hq Eq Hno. destruct (cs_inside _ _ _ _ _ _ Hc q qi Hq Eq (Hno o eq_refl)) as [H1 [l H2]]. split; [done|]. exists l. cbn.
      rewrite lookup_insert_ne; [done|]. intros ->. done.
  - exists d, ps, None. split_and!; [done| |done|].
    + replace (with_right None it) with it by (destruct it; simpl in *; by subst). split; try done. apply frame_refl.
    + intros q qi Hq Eq _. split; [done|]. exists (i_left qi). rewrite Eq. by destruct qi.
Qed.


Lemma last_before h ps l li o r : NoDup (elems h ps) -> l ∈ ps -> h !! l = Some li -> 0 < i_length li -> lastID li = o ->
  prec (elems h ps) o r -> r ∉ chars li.
Proof.
  intros Hn (ps1 & ps2 & ->)%list_elem_of_split El Hlen Elast Hp Hr. rewrite elems_app, elems_cons, (block_Some _ _ _ El) in *.
  assert (Ec : exists X, chars li = X ++ [o]).
  { exists (run (Client (i_id li)) (Clock (i_id li)) (Z.to_nat (i_length li - 1))). unfold chars.
    replace (Z.to_nat (i_length li)) with (Z.to_nat (i_length li - 1) + 1)%nat by lia. rewrite run_app. f_equal. cbn [run]. f_equal.
    rewrite <- Elast. unfold lastID. destruct (Z.eqb_spec (i_length li) 1) as [E|E].
    - rewrite E. simpl. rewrite Z.add_0_r. by destruct (i_id li).
    - f_equal. lia. }
  destruct Ec as [X Ec]. rewrite Ec in *. apply elem_snoc in Hr as [Hr| ->]; [|by eapply prec_irrefl].
  eapply prec_asym; [exact Hn|exact Hp|]. rewrite !prec_app. right. left. left. right. right. split; [done|left].
Qed.

(** Copying the parent from a neighbour. *)
Lemma copy_parent d t ps p it (o : option nat) : list_doc d t ps -> d_items d !! p = Some it -> p ∉ ps ->
  (forall l, o = Some l -> l ∈ ps) ->
  exists d1 it1, copyParent p o d = (Ok tt, d1) /\ resolving d d1 t ps ps p it it1 /\
    it1 = match o with Some _ => with_parent (ParentType t) [] it | None => it end /\
    (forall q, q <> p -> d_items d1 !! q = d_items d !! q).
Proof.
  intros Hd Ep Hp Ho. destruct o as [l|].
  - specialize (Ho l eq_refl). destruct (linked_lookup _ _ _ _ (lr_linked _ _ _ _ _ (ld_list _ _ _ Hd)) Ho) as [li El].
    destruct (ld_bodies _ _ _ Hd l li Ho El) as [Hpar Hsub _ _].
    unfold copyParent, rbind. rewrite (getItem_eq _ _ _ El), (setItem_eq _ _ _ _ Ep), Hpar, Hsub. eexists _, (with_parent (ParentType t) [] it). split; [done|].
    destruct (write_outside d t ps p it (with_parent (ParentType t) [] it) Hd Hp Ep eq_refl eq_refl eq_refl) as (H1 & H2 & H3).
    split; [split; try done; cbn; apply lookup_insert_eq|]. split; [done|]. intros q Hq. cbn. by apply lookup_insert_ne.
  - exists d, it. split_and!; try done. split; try done. apply frame_refl.
Qed.

(** Nothing is cut when there are no origins. *)
Lemma resolveParent_id d t ps p it q r ri : list_doc d t ps -> d_items d !! p = Some it -> p ∉ ps -> i_parent it = ParentID q ->
  d_items d !! r = Some ri -> i_content ri = contentType t -> @getStruct _ (refStruct (d_items d)) interpolate (d_store d) q = Some (RItem r) ->
  exists d1, resolveParent interpolate p d = (Ok tt, d1) /\ resolving d d1 t ps ps p it (with_parent (ParentType t) (i_parentSub it) it).
Proof.
  intros Hd Ep Hp Hpar Eri Ec Hg. unfold resolveParent. unfold rbind at 1. rewrite (getItem_eq _ _ _ Ep), Hpar.
  unfold rbind at 1, getStructM, get. rewrite Hg. unfold rbind at 1. unfold rbind at 1. rewrite (getItem_eq _ _ _ Eri). unfold rret at 1. rewrite Ec.
  rewrite (setItem_eq _ _ _ _ Ep). eexists. split; [done|].
  destruct (write_outside d t ps p it (with_parent (ParentType t) (i_parentSub it) it) Hd Hp Ep eq_refl eq_refl eq_refl) as (H1 & H2 & H3).
  split; try done; cbn; apply lookup_insert_eq.
Qed.

(** With a neighbour the parent is the neighbour's. *)
Lemma resolveParent_copy d t ps p it : list_doc d t ps -> d_items d !! p = Some it -> p ∉ ps -> i_parent it = ParentNil ->
  (forall l, i_left it = Some l -> l ∈ ps) -> (forall r, i_right it = Some r -> r ∈ ps) -> ~ (i_left it = None /\ i_right it = None) ->
  exists d1, resolveParent interpolate p d = (Ok tt, d1) /\ resolving d d1 t ps ps p it (with_parent (ParentType t) [] it) /\
    (forall q, q <> p -> d_items d1 !! q = d_items d !! q).
Proof.
  intros Hd Ep Hp Hpar Hl Hr Hsome. unfold resolveParent. unfold rbind at 1. rewrite (getItem_eq _ _ _ Ep), Hpar.
  destruct (copy_parent d t ps p it (i_left it) Hd Ep Hp Hl) as (d3 & it3 & E3 & R3 & Eit3 & F3).
  destruct (copy_parent d3 t ps p it3 (i_right it) (rs_doc _ _ _ _ _ _ _ _ R3) (rs_item _ _ _ _ _ _ _ _ R3) Hp Hr) as (d4 & it4 & E4 & R4 & Eit4 & F4).
  exists d4. unfold rbind. rewrite E3, E4. split_and!; [done| |intros q Hq; by rewrite F4, F3].
  replace (with_parent (ParentType t) [] it) with it4; [by eapply resolving_trans|].
  rewrite Eit4, Eit3. destruct (i_left it), (i_right it); try done. by destruct Hsome.
Qed.

(** Nothing that an arriving item depends on is missing. *)
Lemma nothing_missing d t ps p it : list_doc d t ps -> arriving d t ps p it ->
  missing (Client (i_id it)) (i_origin it) d = (Ok false, d) /\ missing (Client (i_id it)) (i_rightOrigin it) d = (Ok false, d) /\
  missing (Client (i_id it)) (match i_parent it with ParentID q => Some q | _ => None end) d = (Ok false, d).
Proof.
  intros Hd Ha. destruct (ar_agrees _ _ _ _ _ Ha) as [Ao Ar _ _]. rewrite Ao, Ar.
  assert (Hm : forall q, q ∈ elems (d_items d) ps -> missing (Client (i_id it)) (Some q) d = (Ok false, d)).
  { intros q Hq. destruct (elems_struct d t ps q Hd Hq) as [s Hs]. eapply missing_found; [apply Hd|done]. }
  pose proof (ar_origin _ _ _ _ _ Ha). pose proof (ar_right _ _ _ _ _ Ha). pose proof (ar_parent _ _ _ _ _ Ha) as Hpar. split_and!.
  - destruct (og (i_id it)); [|done]. by apply Hm; auto.
  - destruct (ro (i_id it)); [|done]. by apply Hm; auto.
  - destruct (og (i_id it)), (ro (i_id it)); try by rewrite Hpar. destruct Hpar as [-> |(q & r & ri & -> & _ & _ & Hg)]; [done|].
    eapply missing_found; [apply Hd|done].
Qed.

(** The resolved item is ready. *)
Lemma resolved_ready d d' t ps ps' p it lo rr : arriving d t ps p it ->
  resolving d d' t ps ps' p it (with_parent (ParentType t) [] (with_links lo rr it)) ->
  match og (i_id it) with None => lo = None
    | Some o => exists l li, lo = Some l /\ l ∈ ps' /\ d_items d' !! l = Some li /\ lastID li = o end ->
  match ro (i_id it) with None => rr = None
    | Some o => exists r ri, rr = Some r /\ r ∈ ps' /\ d_items d' !! r = Some ri /\ i_id ri = o end ->
  ready og ro d' t ps' p (with_parent (ParentType t) [] (with_links lo rr it)).
Proof.
  intros Ha R Hl Hr. destruct (ar_agrees _ _ _ _ _ Ha) as [Ao Ar Alen Ain]. destruct (ar_next _ _ _ _ _ Ha) as [st Hadd].
  pose proof (rs_frame _ _ _ _ _ _ _ _ R) as Hf. split; try done; try apply R.
  - eapply (addStruct_frame d d' p it _ st); [apply R|done|apply Ha|apply R|done|done].
  - intros ty q Ety Eq. pose proof (fr_types _ _ Hf t) as Ht. rewrite Ety in Ht.
    destruct (d_types d !! t) as [ty0|] eqn:Et0; [|done]. rewrite Eq in Ht.
    destruct (ar_parentItem _ _ _ _ _ Ha ty0 q Et0 Ht) as (H1 & qi & Eqi & Hdel).
    destruct (fr_deleted _ _ Hf q qi Eqi) as (qi' & E' & Hd'). split; [done|]. exists qi'. split; [done|congruence].
  - cbn. intros t' Ec. destruct (ar_nested _ _ _ _ _ Ha t' Ec) as [H1 [ty' Et']]. split; [done|].
    pose proof (fr_types _ _ Hf t') as Ht. rewrite Et' in Ht. destruct (d_types d' !! t'); [eauto|done].
Qed.

(** The two cuts: both neighbours are found, and the left one survives the
    second cut. *)
Lemma resolve_neighbours d t ps p it : list_doc d t ps -> NoDup (elems (d_items d) ps) -> arriving d t ps p it ->
  exists d1 d2 ps2 lo rr, resolveOrigin interpolate p (i_origin it) d = (Ok tt, d1) /\ resolveRightOrigin interpolate p (i_rightOrigin it) d1 = (Ok tt, d2) /\
    resolving d d2 t ps ps2 p it (with_links lo rr it) /\
    match og (i_id it) with None => lo = None
      | Some o => exists l li, lo = Some l /\ l ∈ ps2 /\ d_items d2 !! l = Some li /\ lastID li = o end /\
    match ro (i_id it) with None => rr = None
      | Some o => exists r ri, rr = Some r /\ r ∈ ps2 /\ d_items d2 !! r = Some ri /\ i_id ri = o end /\
    (og (i_id it) = None -> ro (i_id it) = None -> d2 = d).
Proof.
  intros Hd Hn Ha. destruct (ar_agrees _ _ _ _ _ Ha) as [Ao Ar Alen Ain]. destruct (ar_links _ _ _ _ _ Ha) as [Hl0 Hr0].
  destruct (resolve_origin d t ps p it Hd (ar_item _ _ _ _ _ Ha) (ar_fresh _ _ _ _ _ Ha) Hl0) as (d1 & ps1 & lo & E1 & R1 & L1); [rewrite Ao; apply Ha|].
  destruct (resolve_rightOrigin d1 t ps1 p (with_left lo it)) as (d2 & ps2 & rr & E2 & R2 & L2 & Keep);
    [apply R1|apply R1|apply R1|done|cbn; rewrite Ar, (rs_elems _ _ _ _ _ _ _ _ R1); apply Ha|].
  cbn [i_rightOrigin with_left with_links] in E2, L2, Keep. rewrite Ao in E1, L1. rewrite Ar in E2, L2, Keep. rewrite Ao, Ar.
  exists d1, d2, ps2, lo, rr. split_and!; [done|done| | |done|].
  - exact (resolving_trans _ _ _ _ _ _ _ _ _ _ _ R1 R2).
  - destruct (og (i_id it)) as [o|] eqn:Eo; [|done]. destruct L1 as (l & li & -> & Hl & Eli & Elast).
    destruct (Keep l li Hl Eli) as [H1 [l' H2]]; [|by exists l, (with_left l' li)].
    intros r Er. eapply (last_before (d_items d1) ps1 l li o r); [by rewrite (rs_elems _ _ _ _ _ _ _ _ R1)|done|done| |done|].
    + apply (ag_length og ro), (lr_agrees _ _ _ _ _ (ld_list _ _ _ (rs_doc _ _ _ _ _ _ _ _ R1)) l); done.
    + rewrite (rs_elems _ _ _ _ _ _ _ _ R1). by apply (ar_between _ _ _ _ _ Ha).
  - intros Eo Er. rewrite Eo in E1. rewrite Er in E2. simpl in E1, E2. injection E1 as <-. by injection E2 as <-.
Qed.

(** [missingClient] resolves the neighbours of an arriving item: it reports no
    missing client, leaves the sequence of the list as it is, and makes the
    item ready for integration. *)
Lemma missingClient_resolves d t ps p it : list_doc d t ps -> NoDup (elems (d_items d) ps) -> arriving d t ps p it ->
  exists d' ps' it', missingClient interpolate p d = (Ok None, d') /\ list_doc d' t ps' /\
    elems (d_items d') ps' = elems (d_items d) ps /\ ready og ro d' t ps' p it' /\ i_id it' = i_id it /\ i_length it' = i_length it /\
    i_content it' = i_content it.
Proof.
  intros Hd Hn Ha. destruct (nothing_missing d t ps p it Hd Ha) as (M1 & M2 & M3).
  destruct (resolve_neighbours d t ps p it Hd Hn Ha) as (d1 & d2 & ps2 & lo & rr & E1 & E2 & R & L1 & L2 & Hsame).
  assert (Hend : exists d3, resolveParent interpolate p d2 = (Ok tt, d3) /\
    resolving d2 d3 t ps2 ps2 p (with_links lo rr it) (with_parent (ParentType t) [] (with_links lo rr it)) /\
    forall q, q ∈ ps2 -> d_items d3 !! q = d_items d2 !! q).
  { pose proof (rs_item _ _ _ _ _ _ _ _ R) as Ep2. pose proof (rs_doc _ _ _ _ _ _ _ _ R) as Hd2. pose proof (rs_fresh _ _ _ _ _ _ _ _ R) as Hp2.
    pose proof (ar_parent _ _ _ _ _ Ha) as Hpar. pose proof (ar_sub _ _ _ _ _ Ha) as Hsub.
    destruct (decide (og (i_id it) = None /\ ro (i_id it) = None)) as [[Eo Er]|Hsome].
    - rewrite (Hsame Eo Er) in *. rewrite Eo, Er in Hpar. destruct Hpar as [Hpar|(q & r & ri & Hpar & Eri & Ec & Hg)].
      + exists d. unfold resolveParent, rbind. rewrite (getItem_eq _ _ _ Ep2). cbn [i_parent with_links]. rewrite Hpar. split_and!; [done| |done].
        replace (with_parent (ParentType t) [] (with_links lo rr it)) with (with_links lo rr it) by (unfold with_parent, with_links; cbn; by rewrite Hpar, Hsub).
        split; try done. apply frame_refl.
      + destruct (resolveParent_id d t ps2 p _ q r ri Hd2 Ep2 Hp2 Hpar Eri Ec Hg) as (d3 & E3 & R3). cbn [i_parentSub with_links] in R3. rewrite Hsub in R3.
        exists d3. split_and!; [done|done|]. intros q' Hq'. unfold resolveParent, rbind, getStructM, get in E3. rewrite (getItem_eq _ _ _ Ep2) in E3.
        cbn [i_parent with_links] in E3. rewrite Hpar, Hg, (getItem_eq _ _ _ Eri) in E3. unfold rret in E3. rewrite (setItem_eq _ _ _ _ Ep2) in E3.
        injection E3 as <-. cbn. apply lookup_insert_ne. by intros ->.
    - assert (Hnil : i_parent it = ParentNil) by (destruct (og (i_id it)), (ro (i_id it)); [done|done|done|by destruct Hsome]).
      destruct (resolveParent_copy d2 t ps2 p (with_links lo rr it) Hd2 Ep2 Hp2 Hnil) as (d3 & E3 & R3 & F3).
      + cbn. intros l ->. destruct (og (i_id it)); [|done]. by destruct L1 as (? & ? & [= ->] & ? & _).
      + cbn. intros r ->. destruct (ro (i_id it)); [|done]. by destruct L2 as (? & ? & [= ->] & ? & _).
      + cbn. intros [-> ->]. apply Hsome. destruct (og (i_id it)); [by destruct L1 as (? & ? & ? & _)|]. destruct (ro (i_id it)); [by destruct L2 as (? & ? & ? & _)|]. done.
      + exists d3. split_and!; [done|done|]. intros q Hq. apply F3. by intros ->. }
  destruct Hend as (d3 & E3 & R3 & F3). pose proof (resolving_trans _ _ _ _ _ _ _ _ _ _ _ R R3) as R'.
  exists d3, ps2, (with_parent (ParentType t) [] (with_links lo rr it)). split_and!; [|apply R'|apply R'| |done|done|done].
  - unfold missingClient. unfold rbind at 1. rewrite (getItem_eq _ _ _ (ar_item _ _ _ _ _ Ha)).
    unfold rbind at 1. rewrite M1. unfold rbind at 1. rewrite M2. unfold rbind at 1. rewrite M3.
    unfold rbind at 1. rewrite E1. unfold rbind at 1. rewrite E2. unfold rbind at 1. by rewrite E3.
  - apply (resolved_ready d d3 t ps ps2 p it lo rr Ha R').
    + destruct (og (i_id it)); [|done]. destruct L1 as (l & li & -> & Hl & Eli & Elast). exists l, li. by rewrite F3.
    + destruct (ro (i_id it)); [|done]. destruct L2 as (r & ri & -> & Hl & Eri & Eid). exists r, ri. by rewrite F3.
Qed.

End Clean.

(** C3. Applying an incoming item.  On a document whose list is well formed,
    an item whose dependencies are present is resolved and integrated:
    [missingClient] splits the items that hold its neighbours where needed,
    without changing the sequence, and [integrateWithScratch] then yields the
    sequence of [Yata.integrate] for each element of the item; the document
    stays well formed, so the next item can be applied. *)
Theorem apply_item_refines {V : Type} (og ro : ID -> option ID) (interpolate : Z -> Z -> Z -> Z)
    (d : docState V) (t : nat) (ps : list nat) (p : nat) (it : itemStruct V) :
  (forall clock span end_, 0 < span -> 0 <= clock <= span -> 0 <= end_ -> 0 <= interpolate clock span end_ <= end_) ->
  list_doc og ro d t ps -> seq_ok og ro (elems (d_items d) ps) -> arriving og ro interpolate d t ps p it ->
  exists d1 d2 ps', missingClient interpolate p d = (Ok None, d1) /\ integrateWithScratch interpolate p 0 d1 = (Ok tt, d2) /\
    list_doc og ro d2 t ps' /\ elems (d_items d2) ps' = fold_left (Yata.integrate og ro) (chars it) (elems (d_items d) ps).
Proof.
  intros Hi Hd Hok Ha.
  destruct (missingClient_resolves og ro interpolate Hi d t ps p it Hd (so_nodup _ _ _ Hok) Ha) as (d1 & ps1 & it1 & E1 & Hd1 & Hel & Hr & Eid & Elen & Ec).
  rewrite <- Hel in Hok |- *.
  destruct (integrate_refines og ro interpolate Hi d1 t ps1 p it1 (ld_store _ _ _ _ _ Hd1) (ld_list _ _ _ _ _ Hd1) Hok Hr)
    as (d2 & ps2 & E2 & Hst2 & Hl2 & Hel2 & Hb & Hnx & Hperm).
  assert (Hch : chars it = chars it1) by (unfold chars; by rewrite Eid, Elen). rewrite Hch.
  exists d1, d2, ps2. split_and!; [done|done| |done]. split; [done|done| | |].
  - intros q qi Hq Eq. specialize (Hb q). rewrite Eq in Hb. destruct (d_items d1 !! q) as [q1|] eqn:E1q; [|done].
    assert (Hbody : item_body t q1).
    { rewrite Hperm in Hq. apply elem_of_cons in Hq as [->|Hq]; [|by apply (ld_bodies _ _ _ _ _ Hd1 q)].
      rewrite (rd_item _ _ _ _ _ _ _ Hr) in E1q. injection E1q as <-. split; [apply Hr|apply Hr| |]; rewrite Ec, ?Elen; apply Ha. }
    destruct Hb as (B1 & B2 & _ & _ & B3 & B4 & B5). destruct Hbody as [C1 C2 C3 C4]. split; congruence.
  - intros q Hq. rewrite Hnx in Hq. specialize (Hb q). rewrite (ld_fresh _ _ _ _ _ Hd1 q Hq) in Hb. by destruct (d_items d2 !! q).
  - rewrite Hperm. apply list.NoDup_cons. split; [apply Hr|apply Hd1].
Qed.

(** *** A client inserts between two elements that are one item here *)
Definition ja : ID := GenID 1 0.
Definition jb : ID := GenID 1 1.
Definition jx : ID := GenID 2 0.
Definition og4 (x : ID) : option ID := if bool_decide (x = jb) || bool_decide (x = jx) then Some ja else None.
Definition ro4 (x : ID) : option ID := if bool_decide (x = jx) then Some jb else None.

Definition typed_item (id : ID) (n : Z) (origin rightOrigin : option ID) (parent : parentRef) (value : list Z) : itemStruct unit :=
  mkItem id n origin None None rightOrigin parent [] None (contentString value) false true false.
Definition typed_doc : docState unit :=
  mkDoc {[ 1%nat := typed_item ja 2 None None (ParentType 0) [97; 98]; 2%nat := typed_item jx 1 (Some ja) (Some jb) ParentNil [120] ]}
    {[ 0%nat := mkType (Some 1%nat) ∅ 2 None 1 false 0 false ]}
    (mkStore {[ 1 := [RItem 1] ]} None None [1]) 3 (mkTrans newDeleteSet [] [] true (Some {[ 1 := 2 ]}) None ∅ ∅ ∅).

Lemma typed_reachable : reachable og4 ro4 {[ 1 := [ja; jb] ]}.
Proof.
  eapply rtc_l; [|eapply rtc_l; [|apply rtc_refl]].
  - instantiate (1 := {[ 1 := [ja] ]}). left. refine (LocalInsert og4 ro4 ∅ ja [] [] _ _ _ _ _ _); try reflexivity; [vm_compute; set_solver|].
    intros c Hc. simpl in Hc. lia.
  - left. refine (LocalInsert og4 ro4 {[ 1 := [ja] ]} jb [ja] [] _ _ _ _ _ _); try reflexivity; [vm_compute; discriminate|vm_compute; set_solver|].
    intros c Hc. assert (c = 0) as -> by (simpl in Hc; lia). vm_compute. set_solver.
Qed.

Lemma typed_list : list_doc og4 ro4 typed_doc 0 [1%nat].
Proof.
  assert (Hone : forall q qi, q ∈ [1%nat] -> d_items typed_doc !! q = Some qi -> q = 1%nat /\ qi = typed_item ja 2 None None (ParentType 0) [97; 98]).
  { intros q qi Hq E. apply list_elem_of_singleton in Hq as ->. vm_compute in E. by injection E as <-. }
  split.
  - split.
    + split_and!; simpl.
      * intros c ss Hc. apply lookup_singleton_Some in Hc as [<- <-]. split_and!; [done| |repeat constructor].
        exists 0. vm_compute. repeat split; discriminate.
      * apply NoDup_singleton.
      * intros c. rewrite list_elem_of_singleton. split.
        -- intros ->. rewrite lookup_singleton_eq. eauto.
        -- intros [? Hc]. by apply lookup_singleton_Some in Hc as [<- _].
    + intros k ss q Hk Hq. simpl in Hk. apply lookup_singleton_Some in Hk as [<- <-].
      assert (q = 1%nat) as -> by set_solver. vm_compute. eauto.
  - split.
    + eexists. split; reflexivity.
    + eexists. split_and!; [reflexivity..|done].
    + intros q qi Hq E. destruct (Hone q qi Hq E) as [-> ->]. split; [reflexivity..|]. intros u Hu Hne. apply elem_chars in Hu as [H1 H2].
      destruct u as [uc uk]. simpl in *. assert (uk = 1) as -> by (destruct (decide (uk = 0)) as [->|]; [subst; done|lia]). subst. vm_compute. done.
    + intros q qi Hq E. destruct (Hone q qi Hq E) as [-> ->]. eexists. split; [reflexivity|set_solver].
  - intros q qi Hq E. destruct (Hone q qi Hq E) as [-> ->]. split; [reflexivity|reflexivity| |vm_compute; reflexivity].
    exists [97; 98]. split; [repeat constructor; unfold scalar; lia|reflexivity].
  - intros q Hq. cbn in Hq |- *. rewrite lookup_insert_ne, lookup_singleton_ne by lia. done.
  - apply NoDup_singleton.
Qed.

Lemma typed_arriving : arriving og4 ro4 int_pivot typed_doc 0 [1%nat] 2 (typed_item jx 1 (Some ja) (Some jb) ParentNil [120]).
Proof.
  split; try reflexivity.
  - set_solver.
  - done.
  - split; [reflexivity..|]. intros u Hu Hne. apply elem_chars in Hu. destruct u. simpl in *. exfalso. apply Hne. f_equal; lia.
  - exists [120]. split; [repeat constructor; unfold scalar; lia|reflexivity].
  - intros o E. vm_compute in E. injection E as <-. vm_compute. set_solver.
  - intros o E. vm_compute in E. injection E as <-. vm_compute. set_solver.
  - intros o r E1 E2. vm_compute in E1, E2. injection E1 as <-. injection E2 as <-. left. split; [reflexivity|vm_compute; set_solver].
  - eexists. reflexivity.
  - intros ty q Ht. vm_compute in Ht. injection Ht as <-. done.
  - done.
Qed.

Lemma apply_item_refines_witness :
  exists d1 d2 ps', missingClient int_pivot 2 typed_doc = (Ok None, d1) /\ integrateWithScratch int_pivot 2 0 d1 = (Ok tt, d2) /\
    list_doc og4 ro4 d2 0 ps' /\ elems (d_items d2) ps' = [ja; jx; jb].
Proof.
  refine (apply_item_refines og4 ro4 int_pivot typed_doc 0 [1%nat] 2 _ int_pivot_range typed_list _ typed_arriving).
  exact (ro_seq _ _ _ (wi_rep _ _ _ (world_inv og4 ro4 _ typed_reachable) 1)).
Defined.
