(* ===== verification/TypeRead.v ===== *)
(** * Reading a list type

    Models the readers of crdt/abstract.go over the linked items of a type:
    [typeListToArray], [typeListSlice], [typeListForEach], [typeListMap],
    [typeListGet], with the immutable read index of [listReadPositions], and the
    search markers of the writers ([findMarker], [markPosition],
    [updateMarkerChanges]).

    A loop [for n != nil { ...; n = n.right }] runs over [rightItems], the items
    that the right links reach; a position in the list is a zipper, the items to
    the left with the nearest first, and the item with those to its right. *)
From stdpp Require Import gmap sets list.
From Stdlib Require Import ZArith Lia.
From S2P Require Import Prelude Lib0 StructStore Text DeleteSet Content Item ItemList.
Open Scope Z_scope.
Open Scope go_scope.

Section Read.
Context {V : Type}.
Abbreviation item := (itemStruct V).

(** ** The values of an item *)

(** An element of an [ArrayAny] that a list hands out. *)
Inductive element : Type :=
| EAny (v : V)
| EBytes (value : list Z)
| EDoc (doc : nat * bool)
| EUnit (u : Z)
| EType (t : nat).

Definition contentValues (c : docContent V) : list element :=
  match c with
  | contentAny arr | contentJSON arr => EAny <$> arr
  | contentBinary value => [EBytes value]
  | contentDoc doc => [EDoc doc]
  | contentEmbed v => [EAny v]
  | contentString value => EUnit <$> utf16 value
  | contentType t => [EType t]
  | contentDeleted _ | contentFormat _ _ => []
  end.

(** Not deleted, and counted. *)
Definition live (it : item) : bool := negb (i_deleted it) && i_countable it.

(** ** The linked items *)
Fixpoint followRight (fuel : nat) (h : gmap nat item) (o : option nat) : list (nat * item) :=
  match fuel, o with
  | S fuel', Some p => match h !! p with Some it => (p, it) :: followRight fuel' h (i_right it) | None => [] end
  | _, _ => []
  end.

Fixpoint followLeft (fuel : nat) (h : gmap nat item) (o : option nat) : list (nat * item) :=
  match fuel, o with
  | S fuel', Some p => match h !! p with Some it => (p, it) :: followLeft fuel' h (i_left it) | None => [] end
  | _, _ => []
  end.

Definition rightItems (h : gmap nat item) (o : option nat) : list (nat * item) := followRight (size h) h o.
Definition leftItems (h : gmap nat item) (o : option nat) : list (nat * item) := followLeft (size h) h o.

(** ** Whole lists *)
Fixpoint valuesOf (l : list (nat * item)) : list element :=
  match l with
  | [] => []
  | (_, n) :: l' => if i_countable n && negb (i_deleted n) then contentValues (i_content n) ++ valuesOf l' else valuesOf l'
  end.

(** A type of length 0 answers nil without a look at its items. *)
Definition typeListToArray (h : gmap nat item) (ty : ytype) : list element :=
  if t_length ty =? 0 then [] else valuesOf (rightItems h (t_start ty)).

(** The calls of [f], with the index of each. *)
Fixpoint forEachLoop (index : Z) (l : list (nat * item)) : list (element * Z) :=
  match l with
  | [] => []
  | (_, n) :: l' =>
      if i_countable n && negb (i_deleted n)
      then let c := contentValues (i_content n) in imap (fun i v => (v, index + Z.of_nat i)) c ++ forEachLoop (index + Z.of_nat (length c)) l'
      else forEachLoop index l'
  end.

Definition typeListForEach (h : gmap nat item) (ty : ytype) : list (element * Z) := forEachLoop 0 (rightItems h (t_start ty)).

Definition typeListMap {A} (f : element -> Z -> A) (h : gmap nat item) (ty : ytype) : list A :=
  if t_length ty =? 0 then [] else (fun p => f p.1 p.2) <$> forEachLoop 0 (rightItems h (t_start ty)).

(** ** Slices *)

(** The loop of [typeListSlice]: [start] and [length] are what remains to skip
    and to take, [room] what remains of the result array, whose size is the
    smaller of the length asked for and the length of the list. [copy] stops at
    the end of the array, an assignment behind it panics, and so does a slice
    with a negative start. *)
Fixpoint sliceLoop (room : nat) (start length : Z) (l : list (nat * item)) : result (list element) :=
  match l with
  | [] => Ok []
  | (_, n) :: l' =>
      if length <=? 0 then Ok []
      else if i_countable n && negb (i_deleted n) then
        match i_content n with
        | contentType t =>
            if 0 <? start then sliceLoop room (start - 1) length l'
            else match room with
                 | O => Err ErrPanic
                 | S room' => match sliceLoop room' start (length - 1) l' with Ok r => Ok (EType t :: r) | Err e => Err e end
                 end
        | content =>
            let c := contentValues content in
            let contentLength := Z.of_nat (Datatypes.length c) in
            if contentLength <=? start then sliceLoop room (start - contentLength) length l'
            else if start <? 0 then Err ErrPanic
            else
              let taken := Z.min (contentLength - start) length in
              let copied := take room (take (Z.to_nat taken) (drop (Z.to_nat start) c)) in
              match sliceLoop (room - Datatypes.length copied) 0 (length - taken) l' with
              | Ok r => Ok (copied ++ r)
              | Err e => Err e
              end
        end
      else sliceLoop room start length l'
  end.

Definition typeListSlice (h : gmap nat item) (ty : ytype) (start end_ : Z) : result (list element) :=
  let start := if start <? 0 then t_length ty + start else start in
  let end_ := if end_ <? 0 then t_length ty + end_ else end_ in
  let length := end_ - start in
  let capacity := Z.min (Z.max length 0) (t_length ty) in
  if capacity <? 0 then Err ErrPanic else sliceLoop (Z.to_nat capacity) start length (rightItems h (t_start ty)).

(** ** Positions *)

(** The items to the left, nearest first; the item and those to its right. *)
Definition zipper : Type := list (nat * item) * list (nat * item).

Definition zipperAt (h : gmap nat item) (o : option nat) : zipper :=
  match o with
  | Some p => (match h !! p with Some it => leftItems h (i_left it) | None => [] end, rightItems h o)
  | None => ([], [])
  end.

(** [for p.right != nil && pindex < index]. *)
Fixpoint walkRight (lefts rest : list (nat * item)) (pindex index : Z) : zipper * Z :=
  match rest with
  | (p, it) :: ((_ :: _) as rest') =>
      if pindex <? index then
        if live it then
          if index <? pindex + i_length it then ((lefts, rest), pindex)
          else walkRight ((p, it) :: lefts) rest' (pindex + i_length it) index
        else walkRight ((p, it) :: lefts) rest' pindex index
      else ((lefts, rest), pindex)
  | _ => ((lefts, rest), pindex)
  end.

(** [for p.left != nil && pindex > index]. *)
Fixpoint walkLeft (lefts rest : list (nat * item)) (pindex index : Z) : zipper * Z :=
  match lefts with
  | (p, it) :: lefts' =>
      if index <? pindex then walkLeft lefts' ((p, it) :: rest) (if live it then pindex - i_length it else pindex) index
      else ((lefts, rest), pindex)
  | [] => ((lefts, rest), pindex)
  end.

Definition walkBoth (z : zipper) (pindex index : Z) : zipper * Z :=
  let '((lefts, rest), pindex) := walkRight z.1 z.2 pindex index in walkLeft lefts rest pindex index.

Definition walkToIndex (h : gmap nat item) (o : option nat) (pindex index : Z) : zipper * Z :=
  match o with None => (([], []), pindex) | Some _ => walkBoth (zipperAt h o) pindex index end.

(** ** The read index *)
Definition listReadIndexStride : Z := 4.
Definition deferListReadIndexBuildItems : Z := 16000.

Record listReadPosition := mkPosition { rp_p : nat; rp_index : Z }.

Fixpoint buildLoop (visibleIndex physicalIndex nextPhysicalIndex : Z) (l : list (nat * item)) : list listReadPosition :=
  match l with
  | [] => []
  | (p, it) :: l' =>
      let sampled := live it && (nextPhysicalIndex <=? physicalIndex) in
      let next := if sampled then physicalIndex + listReadIndexStride else nextPhysicalIndex in
      let visibleIndex' := if live it then visibleIndex + i_length it else visibleIndex in
      let rest := buildLoop visibleIndex' (physicalIndex + 1) next l' in
      if sampled then mkPosition p visibleIndex :: rest else rest
  end.

Definition buildListReadIndex (h : gmap nat item) (ty : ytype) : list listReadPosition := buildLoop 0 0 listReadIndexStride (rightItems h (t_start ty)).

(** The atomic pointer of a type that has one: nil, the two sentinels, an index. *)
Inductive readCache : Type := CacheNil | CachePrimed | CacheBuilding | CacheIndex (positions : list listReadPosition).

(** [listReadPositions] with no other reader: the positions, if there are any,
    and the cache afterwards. [enabled]: the type has a cache, and a document
    with read caches. *)
Definition listReadPositions (h : gmap nat item) (ty : ytype) (enabled : bool) (cache : readCache) : list listReadPosition * readCache :=
  let several := match rightItems h (t_start ty) with _ :: _ :: _ => true | _ => false end in
  if negb (enabled && several) then ([], cache)
  else
    let built := buildListReadIndex h ty in
    match cache with
    | CacheBuilding => ([], cache)
    | CacheNil => if deferListReadIndexBuildItems <=? t_itemCount ty then ([], CachePrimed) else (built, CacheIndex built)
    | CachePrimed => (built, CacheIndex built)
    | CacheIndex positions => (positions, cache)
    end.

(** The binary search: the number of positions at or before the index. *)
Fixpoint upperBound (fuel : nat) (positions : list listReadPosition) (index left right : Z) : Z :=
  match fuel with
  | O => left
  | S fuel' =>
      if left <? right then
        let middle := (left + right) / 2 in
        match zlookup positions middle with
        | Some m => if rp_index m <=? index then upperBound fuel' positions index (middle + 1) right else upperBound fuel' positions index left middle
        | None => left
        end
      else left
  end.

Definition positionIndex (positions : list listReadPosition) (i : Z) : Z := from_option rp_index 0 (zlookup positions i).

(** The bounds that the interpolation probe leaves to search. *)
Definition probeBounds (probe : Z -> Z -> Z -> Z) (positions : list listReadPosition) (index : Z) : Z * Z :=
  let n := Z.of_nat (length positions) in
  let first := positionIndex positions 0 in
  let last := positionIndex positions (n - 1) in
  let span := last - first in
  if (0 <? span) && (first <=? index) && (index <=? last) then
    let p := probe (index - first) span (n - 1) in
    if (positionIndex positions p <=? index) && ((p + 1 =? n) || (index <? positionIndex positions (p + 1))) then (p + 1, p + 1)
    else if positionIndex positions p <=? index then (p + 1, n)
    else if (p =? 0) || (positionIndex positions (p - 1) <=? index) then (p, p)
    else (0, p)
  else (0, n).

(** [probe] is the rounded quotient of floats. *)
Definition nearestReadPosition (probe : Z -> Z -> Z -> Z) (positions : list listReadPosition) (index : Z) : option listReadPosition :=
  let n := Z.of_nat (length positions) in
  if n =? 0 then None
  else
    let bounds := probeBounds probe positions index in
    let upper := upperBound (S (length positions)) positions index bounds.1 bounds.2 in
    if upper =? 0 then zlookup positions 0
    else if upper =? n then zlookup positions (n - 1)
    else
      match zlookup positions (upper - 1), zlookup positions upper with
      | Some before, Some after => Some (if index - rp_index before <=? rp_index after - index then before else after)
      | _, _ => None
      end.

(** ** One element *)
Fixpoint getLoop (index : Z) (l : list (nat * item)) : result (option element) :=
  match l with
  | [] => Ok None
  | (_, n) :: l' =>
      if live n then
        if index <? i_length n then match zlookup (contentValues (i_content n)) index with Some v => Ok (Some v) | None => Err ErrPanic end
        else getLoop (index - i_length n) l'
      else getLoop index l'
  end.

Definition typeListGet (probe : Z -> Z -> Z -> Z) (h : gmap nat item) (ty : ytype) (enabled : bool) (cache : readCache) (index : Z) : result (option element) * readCache :=
  let '(start, cache) :=
    if index =? 0 then ((t_start ty, 0), cache)
    else let '(positions, cache) := listReadPositions h ty enabled cache in
         (match nearestReadPosition probe positions index with Some p => (Some (rp_p p), rp_index p) | None => (t_start ty, 0) end, cache) in
  let '(z, pindex) := walkToIndex h start.1 start.2 index in
  (getLoop (index - pindex) z.2, cache).

End Read.

(** ** What the readers see *)
Section Theory.
Context {V : Type}.
Abbreviation item := (itemStruct V).

(** The visible length. *)
Fixpoint vlen (l : list (nat * item)) : Z :=
  match l with [] => 0 | (_, n) :: l' => (if live n then i_length n else 0) + vlen l' end.

(** An item has elements, and a live one as many values. *)
Definition cell_ok (it : item) : Prop := 0 < i_length it /\ (live it = true -> Z.of_nat (length (contentValues (i_content it))) = i_length it).
Definition cells_ok (l : list (nat * item)) : Prop := Forall (fun p => cell_ok p.2) l.

Lemma live_flags (it : item) : i_countable it && negb (i_deleted it) = live it.
Proof. unfold live. by rewrite andb_comm. Qed.

Lemma vlen_app l l' : vlen (l ++ l') = vlen l + vlen l'.
Proof. induction l as [|[p it] l IH]; [done|]. cbn. rewrite IH. lia. Qed.

Lemma vlen_reverse l : vlen (reverse l) = vlen l.
Proof. induction l as [|[p it] l IH]; [done|]. rewrite reverse_cons, vlen_app, IH. cbn. lia. Qed.

Lemma vlen_nonneg l : cells_ok l -> 0 <= vlen l.
Proof. induction 1 as [|[p it] l [Hl _] _ IH]; [done|]. cbn in *. destruct (live it); lia. Qed.

Lemma values_app (l l' : list (nat * item)) : valuesOf (l ++ l') = valuesOf l ++ valuesOf l'.
Proof. induction l as [|[p it] l IH]; [done|]. cbn. destruct (_ && _); [|done]. by rewrite IH, (assoc_L (++)). Qed.

Lemma values_length (l : list (nat * item)) : cells_ok l -> Z.of_nat (length (valuesOf l)) = vlen l.
Proof.
  induction 1 as [|[p it] l [_ Hl] _ IH]; [done|]. cbn in *. rewrite live_flags. destruct (live it); [|lia]. rewrite length_app. specialize (Hl eq_refl). lia.
Qed.

Lemma getLoop_spec (l : list (nat * item)) index : cells_ok l -> 0 <= index -> getLoop index l = Ok (valuesOf l !! Z.to_nat index).
Proof.
  intros Hc. revert index. induction Hc as [|[p it] l [Hl Hv] _ IH]; intros index Hi; [done|]. cbn [getLoop valuesOf snd] in *. rewrite live_flags. destruct (live it); [|by apply IH].
  specialize (Hv eq_refl). destruct (Z.ltb_spec index (i_length it)) as [Hlt|Hge].
  - rewrite lookup_app_l by lia. unfold zlookup. destruct (Z.ltb_spec index 0); [lia|]. destruct (lookup_lt_is_Some_2 (contentValues (i_content it)) (Z.to_nat index)) as [v ->]; [lia|done].
  - rewrite IH by lia. rewrite lookup_app_r by lia. do 2 f_equal. lia.
Qed.

Definition zipper_of (its : list (nat * item)) (z : zipper) (pindex : Z) : Prop := reverse z.1 ++ z.2 = its /\ pindex = vlen z.1 /\ z.2 <> [].

Lemma walkRight_spec (its rest : list (nat * item)) : forall lefts pindex index, zipper_of its (lefts, rest) pindex -> let r := walkRight lefts rest pindex index in zipper_of its r.1 r.2.
Proof.
  induction rest as [|[p it] rest IH]; intros lefts pindex index Hz; [done|]. cbn [walkRight]. destruct rest as [|q rest]; [done|].
  destruct Hz as (E & Ep & _). assert (Ez : forall d, d = (if live it then i_length it else 0) -> zipper_of its ((p, it) :: lefts, q :: rest) (pindex + d)).
  { intros d ->. split_and!; [cbn [fst snd] in *; by rewrite reverse_cons, <- (assoc_L (++))|cbn [fst vlen] in *; lia|done]. }
  destruct (pindex <? index); [|by split_and!]. destruct (live it) eqn:El.
  - destruct (index <? _); [by split_and!|]. apply IH. by apply Ez.
  - apply IH. replace pindex with (pindex + 0) by lia. by apply Ez.
Qed.

Lemma walkLeft_spec (its lefts : list (nat * item)) : forall rest pindex index, cells_ok its -> 0 <= index -> zipper_of its (lefts, rest) pindex ->
  let r := walkLeft lefts rest pindex index in zipper_of its r.1 r.2 /\ r.2 <= index.
Proof.
  induction lefts as [|[p it] lefts IH]; intros rest pindex index Hc Hi Hz; cbn [walkLeft].
  - split; [done|]. destruct Hz as (_ & -> & _). cbn. lia.
  - destruct (Z.ltb_spec index pindex); [|split; [done|cbn; lia]]. apply IH; [done|done|]. destruct Hz as (E & -> & _). split_and!; [|cbn [fst vlen]; destruct (live it); lia|done].
    cbn [fst snd] in *. by rewrite reverse_cons, <- (assoc_L (++)) in E.
Qed.

Lemma walkBoth_spec (its : list (nat * item)) z pindex index : cells_ok its -> 0 <= index -> zipper_of its z pindex -> let r := walkBoth z pindex index in zipper_of its r.1 r.2 /\ r.2 <= index.
Proof.
  intros Hc Hi Hz. unfold walkBoth. destruct z as [lefts rest]. pose proof (walkRight_spec its rest lefts pindex index Hz) as Hr. cbn [fst snd] in *. destruct (walkRight lefts rest pindex index) as [[lefts' rest'] pindex'].
  by apply walkLeft_spec.
Qed.

(** Reading on from a position reads the list at the index. *)
Lemma get_from (its : list (nat * item)) z pindex index : cells_ok its -> zipper_of its z pindex -> pindex <= index -> 0 <= index -> getLoop (index - pindex) z.2 = Ok (valuesOf its !! Z.to_nat index).
Proof.
  intros Hc (E & Ep & _) Hle Hi. assert (Hz : cells_ok (reverse z.1) /\ cells_ok z.2) by (rewrite <- E in Hc; by apply Forall_app in Hc). destruct Hz as [Hz1 Hz2].
  rewrite getLoop_spec by (done || lia). rewrite <- E, values_app. pose proof (values_length _ Hz1) as Hl. rewrite vlen_reverse in Hl. rewrite lookup_app_r by lia. do 2 f_equal. lia.
Qed.

(** *** Slices *)
Lemma sliceLoop_spec (l : list (nat * item)) : forall room start length, cells_ok l -> 0 <= start -> Z.min length (vlen l - start) <= Z.of_nat room ->
  sliceLoop room start length l = Ok (take (Z.to_nat length) (drop (Z.to_nat start) (valuesOf l))).
Proof.
  induction l as [|[p n] l IH]; intros room start length Hc Hs Hroom; cbn [sliceLoop valuesOf]; [by rewrite drop_nil, take_nil|].
  apply list.Forall_cons in Hc as [[Hl Hv] Hc]. cbn [snd vlen] in *. rewrite live_flags. destruct (Z.leb_spec length 0); [by replace (Z.to_nat length) with 0%nat by lia|].
  destruct (live n) eqn:El; [|apply IH; [done|done|lia]]. specialize (Hv eq_refl). pose proof (vlen_nonneg l Hc) as Hnn.
  assert (Hcut : forall c, c = contentValues (i_content n) -> let contentLength := Z.of_nat (Datatypes.length c) in
    (if contentLength <=? start then sliceLoop room (start - contentLength) length l
     else if start <? 0 then Err ErrPanic
     else let taken := Z.min (contentLength - start) length in let copied := take room (take (Z.to_nat taken) (drop (Z.to_nat start) c)) in
       match sliceLoop (room - Datatypes.length copied) 0 (length - taken) l with Ok r => Ok (copied ++ r) | Err e => Err e end) =
    Ok (take (Z.to_nat length) (drop (Z.to_nat start) (c ++ valuesOf l)))).
  { intros c -> cl. unfold cl in *. clear cl. destruct (Z.leb_spec (Z.of_nat (Datatypes.length (contentValues (i_content n)))) start).
    - rewrite IH; [|done|lia|lia]. rewrite (drop_app_ge (contentValues (i_content n))) by lia. do 3 f_equal. lia.
    - destruct (Z.ltb_spec start 0); [lia|]. set (taken := Z.min _ _). cbv zeta. set (c := contentValues (i_content n)) in *.
      assert (Hlen : Datatypes.length (take (Z.to_nat taken) (drop (Z.to_nat start) c)) = Z.to_nat taken) by (rewrite length_take, length_drop; unfold taken; lia).
      rewrite (take_ge _ room) by (rewrite Hlen; unfold taken; lia). rewrite Hlen, IH; [|done|lia|unfold taken; lia]. f_equal.
      rewrite (drop_app_le c) by lia. rewrite take_app, length_drop. f_equal.
      + destruct (decide (taken = length)) as [Eq|Hne]; [by rewrite Eq|]. rewrite !take_ge; [done|rewrite length_drop; unfold taken in *; lia..].
      + change (Z.to_nat 0) with 0%nat. rewrite drop_0. f_equal. unfold taken. lia. }
  destruct (i_content n) as [arr|b|k|doc|v|key v|arr|str|t] eqn:Ec; try by apply Hcut.
  cbn [contentValues Datatypes.length] in *. destruct (Z.ltb_spec 0 start).
  - rewrite IH; [|done|lia|lia]. replace (Z.to_nat start) with (S (Z.to_nat (start - 1))) by lia. done.
  - assert (start = 0) as -> by lia. destruct room as [|room]; [lia|]. rewrite IH; [|done|lia|lia]. change (Z.to_nat 0) with 0%nat. rewrite !drop_0. replace (Z.to_nat length) with (S (Z.to_nat (length - 1))) by lia. done.
Qed.

(** *** The items of a linked list *)
Definition withItems (h : gmap nat item) (ps : list nat) : list (nat * item) := omap (fun p => pair p <$> h !! p) ps.

Lemma withItems_cons (h : gmap nat item) p it ps : h !! p = Some it -> withItems h (p :: ps) = (p, it) :: withItems h ps.
Proof. intros E. unfold withItems. cbn. by rewrite E. Qed.

Lemma withItems_app (h : gmap nat item) ps ps' : withItems h (ps ++ ps') = withItems h ps ++ withItems h ps'.
Proof. apply omap_app. Qed.

Lemma withItems_take (h : gmap nat item) n : forall ps, (forall q, q ∈ ps -> is_Some (h !! q)) -> withItems h (take n ps) = take n (withItems h ps).
Proof.
  induction n as [|n IH]; intros [|q ps] Hin; try done. destruct (Hin q) as [qi Eq]; [by left|]. cbn [take]. rewrite !(withItems_cons h q qi _ Eq), IH; [done|]. intros p Hp. apply Hin. by right.
Qed.

Lemma withItems_lookup (h : gmap nat item) : forall ps n p it, (forall q, q ∈ ps -> is_Some (h !! q)) -> withItems h ps !! n = Some (p, it) -> ps !! n = Some p.
Proof.
  induction ps as [|q ps IH]; intros n p it Hin Hn; [done|]. destruct (Hin q) as [qi Eq]; [by left|]. rewrite (withItems_cons h q qi ps Eq) in Hn. destruct n as [|n]; [by injection Hn as -> _|].
  eapply IH; [|exact Hn]. intros r Hr. apply Hin. by right.
Qed.

(** The links determine what follows an item. *)
Lemma linked_same (h : gmap nat item) l : forall prev prev' p l', linked h prev (p :: l) -> linked h prev' (p :: l') -> l = l'.
Proof.
  induction l as [|q l IH]; intros prev prev' p l' (it & E & _ & Er & Hl) (it' & E' & _ & Er' & Hl'); assert (it' = it) as -> by congruence; rewrite Er in Er'; destruct l' as [|q' l']; try done.
  injection Er' as <-. f_equal. by eapply IH.
Qed.

Lemma linked_NoDup (h : gmap nat item) prev ps : linked h prev ps -> NoDup ps.
Proof.
  revert prev. induction ps as [|p ps IH]; intros prev Hl; [constructor|]. pose proof Hl as (it & E & _ & _ & Hl'). constructor; [|by eapply IH].
  intros (l1 & l2 & ->)%list_elem_of_split. apply linked_lseg in Hl' as Hs. apply lseg_app in Hs as [_ Hs]. apply linked_lseg in Hs.
  pose proof (linked_same h _ _ _ _ _ Hl Hs) as Eq. apply (f_equal length) in Eq. rewrite length_app in Eq. cbn in Eq. lia.
Qed.

Lemma linked_size (h : gmap nat item) prev ps : linked h prev ps -> (length ps <= size h)%nat.
Proof. intros Hl. apply length_size; [by eapply linked_NoDup|]. intros p Hp. by eapply linked_lookup. Qed.

Lemma followRight_linked (h : gmap nat item) ps : forall prev fuel, linked h prev ps -> (length ps <= fuel)%nat -> followRight fuel h (head ps) = withItems h ps.
Proof.
  induction ps as [|p ps IH]; intros prev fuel Hl Hf; [by destruct fuel|]. destruct Hl as (it & E & _ & Er & Hl). destruct fuel as [|fuel]; [cbn in Hf; lia|].
  rewrite (withItems_cons h p it ps E). cbn [followRight head]. rewrite E, Er, (IH (Some p) fuel); [done|done|cbn in Hf; lia].
Qed.

Lemma followLeft_linked (h : gmap nat item) ps next : forall fuel, lseg h None ps next -> (length ps <= fuel)%nat -> followLeft fuel h (list.last ps) = reverse (withItems h ps).
Proof.
  revert next. induction ps as [|p ps IH] using rev_ind; intros next fuel Hl Hf; [by destruct fuel|]. apply lseg_app in Hl as [Hl (it & E & El & _)].
  rewrite length_app in Hf. cbn in Hf. destruct fuel as [|fuel]; [lia|]. rewrite last_snoc, withItems_app, (withItems_cons h p it [] E), reverse_app. cbn [followLeft]. rewrite E, El.
  cbn. f_equal. unfold last_or. rewrite <- (IH (Some p) fuel); [by destruct (list.last ps)|done|lia].
Qed.

Lemma rightItems_list (h : gmap nat item) prev ps : linked h prev ps -> rightItems h (head ps) = withItems h ps.
Proof. intros Hl. eapply followRight_linked; [done|by eapply linked_size]. Qed.

(** The position of an item in the list. *)
Lemma zipperAt_list (h : gmap nat item) ps1 p ps2 : linked h None (ps1 ++ p :: ps2) ->
  zipper_of (withItems h (ps1 ++ p :: ps2)) (zipperAt h (Some p)) (vlen (withItems h ps1)) /\ (zipperAt h (Some p)).2 = withItems h (p :: ps2).
Proof.
  intros Hl. pose proof (linked_size _ _ _ Hl) as Hsz. rewrite length_app in Hsz. apply linked_lseg in Hl as Hs. apply lseg_app in Hs as [Hs1 Hs2]. pose proof Hs2 as (it & E & El & _ & _). apply linked_lseg in Hs2.
  unfold zipperAt. rewrite E, El. assert (Hright : rightItems h (Some p) = withItems h (p :: ps2)) by exact (rightItems_list h _ (p :: ps2) Hs2). rewrite Hright.
  assert (Hleft : leftItems h (last_or None ps1) = reverse (withItems h ps1)).
  { unfold leftItems, last_or. rewrite <- (followLeft_linked h ps1 _ (size h) Hs1) by lia. by destruct (list.last ps1). }
  split; [|done]. split_and!; cbn [fst snd].
  - by rewrite Hleft, reverse_involutive, <- withItems_app.
  - by rewrite Hleft, vlen_reverse.
  - by rewrite (withItems_cons h p it ps2 E).
Qed.

(** *** The read index *)
Definition position_ok (h : gmap nat item) (ps : list nat) (pos : listReadPosition) : Prop :=
  exists ps1 ps2, ps = ps1 ++ rp_p pos :: ps2 /\ rp_index pos = vlen (withItems h ps1).

Definition cache_ok (h : gmap nat item) (ps : list nat) (cache : readCache) : Prop :=
  match cache with CacheIndex positions => Forall (position_ok h ps) positions | _ => True end.

Lemma buildLoop_ok (h : gmap nat item) ps ps2 : forall ps1 physical next, ps = ps1 ++ ps2 -> linked h None ps ->
  Forall (position_ok h ps) (buildLoop (vlen (withItems h ps1)) physical next (withItems h ps2)).
Proof.
  induction ps2 as [|p ps2 IH]; intros ps1 physical next -> Hl; [constructor|]. destruct (linked_lookup _ _ _ p Hl) as [it E]; [apply elem_of_app; right; by left|].
  rewrite (withItems_cons h p it ps2 E). cbn [buildLoop].
  assert (Hv : (if live it then vlen (withItems h ps1) + i_length it else vlen (withItems h ps1)) = vlen (withItems h (ps1 ++ [p]))).
  { rewrite withItems_app, vlen_app, (withItems_cons h p it [] E). cbn. destruct (live it); lia. }
  rewrite Hv. assert (Hrest : forall a b, Forall (position_ok h (ps1 ++ p :: ps2)) (buildLoop (vlen (withItems h (ps1 ++ [p]))) a b (withItems h ps2))) by (intros a b; apply IH; [by rewrite <- (assoc_L (++))|done]).
  destruct (_ && _); [|by apply Hrest]. apply Forall_cons_2; [|by apply Hrest]. by exists ps1, ps2.
Qed.

Lemma nearest_elem probe positions index pos : nearestReadPosition probe positions index = Some pos -> pos ∈ positions.
Proof.
  unfold nearestReadPosition. destruct (_ =? 0); [done|]. set (upper := upperBound _ _ _ _ _). destruct (upper =? 0); [apply zlookup_elem|]. destruct (upper =? _); [apply zlookup_elem|].
  destruct (zlookup positions (upper - 1)) as [a|] eqn:Ea; [|done]. destruct (zlookup positions upper) as [b|] eqn:Eb; [|done]. intros [= <-]. destruct (_ <=? _); by eapply zlookup_elem.
Qed.

(** The list of a type. *)
Record type_list (h : gmap nat item) (ty : ytype) (ps : list nat) : Prop := {
  tl_start : t_start ty = head ps;
  tl_linked : linked h None ps;
  tl_cells : cells_ok (withItems h ps);
  tl_length : t_length ty = vlen (withItems h ps)
}.

Lemma positions_ok h ty ps enabled cache : type_list h ty ps -> cache_ok h ps cache ->
  let r := listReadPositions h ty enabled cache in Forall (position_ok h ps) r.1 /\ cache_ok h ps r.2.
Proof.
  intros Ht Hc. assert (Hb : Forall (position_ok h ps) (buildListReadIndex h ty)).
  { unfold buildListReadIndex. rewrite (tl_start _ _ _ Ht), (rightItems_list h None ps (tl_linked _ _ _ Ht)). apply (buildLoop_ok h ps ps []); [done|apply Ht]. }
  unfold listReadPositions. destruct (negb _); [by split; [constructor|]|]. destruct cache as [| | |positions]; [destruct (_ <=? _)|..]; (split; [done || constructor|done]).
Qed.

(** The array of the type. *)
Definition listValues (h : gmap nat item) (ps : list nat) : list element := valuesOf (withItems h ps).

Lemma typeListToArray_values h ty ps : type_list h ty ps -> typeListToArray h ty = listValues h ps.
Proof.
  intros Ht. unfold typeListToArray, listValues. rewrite (tl_start _ _ _ Ht), (rightItems_list h None ps (tl_linked _ _ _ Ht)). destruct (Z.eqb_spec (t_length ty) 0) as [E|]; [|done].
  pose proof (values_length _ (tl_cells _ _ _ Ht)) as Hl. rewrite <- (tl_length _ _ _ Ht), E in Hl. by destruct (valuesOf _).
Qed.

Lemma typeListGet_values probe h ty ps enabled cache index : type_list h ty ps -> cache_ok h ps cache -> 0 <= index ->
  exists cache', typeListGet probe h ty enabled cache index = (Ok (listValues h ps !! Z.to_nat index), cache') /\ cache_ok h ps cache'.
Proof.
  intros Ht Hc Hi. unfold typeListGet. destruct (positions_ok h ty ps enabled cache Ht Hc) as [Hp Hc'].
  assert (Hstart : exists start cache', (if index =? 0 then ((t_start ty, 0), cache) else let '(positions, cache) := listReadPositions h ty enabled cache in
     (match nearestReadPosition probe positions index with Some p => (Some (rp_p p), rp_index p) | None => (t_start ty, 0) end, cache)) = (start, cache') /\ cache_ok h ps cache' /\
     ((ps = [] /\ start = (None, 0)) \/ exists ps1 p ps2, ps = ps1 ++ p :: ps2 /\ start = (Some p, vlen (withItems h ps1)))).
  { assert (H0 : (ps = [] /\ (t_start ty, 0) = (None, 0)) \/ exists ps1 p ps2, ps = ps1 ++ p :: ps2 /\ (t_start ty, 0) = (Some p, vlen (withItems h ps1))).
    { rewrite (tl_start _ _ _ Ht). destruct ps as [|p ps]; [by left|right]. by exists [], p, ps. }
    destruct (index =? 0); [by eexists _, _|]. destruct (listReadPositions h ty enabled cache) as [positions cache']. cbn [fst snd] in *. eexists _, _. split; [reflexivity|]. split; [done|].
    destruct (nearestReadPosition probe positions index) as [pos|] eqn:En; [|done]. apply nearest_elem in En. rewrite list.Forall_forall in Hp. destruct (Hp pos En) as (ps1 & ps2 & -> & ->). right. by exists ps1, (rp_p pos), ps2. }
  destruct Hstart as (start & cache' & -> & Hok & Hst). destruct Hst as [[-> ->]|(ps1 & p & ps2 & -> & ->)]; cbn [fst snd walkToIndex].
  - exists cache'. by split.
  - destruct (zipperAt_list h ps1 p ps2 (tl_linked _ _ _ Ht)) as [Hz _]. destruct (walkBoth_spec _ _ _ index (tl_cells _ _ _ Ht) Hi Hz) as [Hz' Hle].
    destruct (walkBoth _ _ _) as [z pindex]. cbn [fst snd] in *. exists cache'. split; [|done]. f_equal. exact (get_from _ _ _ _ (tl_cells _ _ _ Ht) Hz' Hle Hi).
Qed.

Lemma typeListSlice_values h ty ps start end_ : type_list h ty ps ->
  let s := if start <? 0 then t_length ty + start else start in let e := if end_ <? 0 then t_length ty + end_ else end_ in
  0 <= s -> typeListSlice h ty start end_ = Ok (take (Z.to_nat (e - s)) (drop (Z.to_nat s) (listValues h ps))).
Proof.
  intros Ht s e Hs. unfold typeListSlice. cbv zeta. fold s e. pose proof (vlen_nonneg _ (tl_cells _ _ _ Ht)) as Hn. rewrite <- (tl_length _ _ _ Ht) in Hn.
  destruct (Z.ltb_spec (Z.min (Z.max (e - s) 0) (t_length ty)) 0); [lia|]. rewrite (tl_start _ _ _ Ht), (rightItems_list h None ps (tl_linked _ _ _ Ht)).
  apply sliceLoop_spec; [apply Ht|done|]. rewrite <- (tl_length _ _ _ Ht). lia.
Qed.

Lemma forEachLoop_values (l : list (nat * item)) : forall index, forEachLoop index l = imap (fun i v => (v, index + Z.of_nat i)) (valuesOf l).
Proof.
  induction l as [|[p n] l IH]; intros index; [done|]. cbn [forEachLoop valuesOf]. destruct (_ && _); [|apply IH]. rewrite imap_app. f_equal. rewrite IH. apply imap_ext. intros i v _. cbn. f_equal. lia.
Qed.

End Theory.

(** ** Properties *)

(** C30. The readers of a list agree with the array of its live values: [typeListGet]
    returns the element at the index, whatever valid read index it starts from
    and wherever the interpolation probes, and leaves a valid index;
    [typeListSlice] returns the slice, negative bounds counted from the end;
    [typeListForEach] visits the elements with their indexes; and the length of
    the type is the length of the array. *)
Theorem list_reads_agree {V : Type} (probe : Z -> Z -> Z -> Z) (h : gmap nat (itemStruct V)) (ty : ytype) (ps : list nat) (enabled : bool) (cache : readCache) :
  type_list h ty ps -> cache_ok h ps cache ->
  (forall index, 0 <= index -> exists cache', typeListGet probe h ty enabled cache index = (Ok (typeListToArray h ty !! Z.to_nat index), cache') /\ cache_ok h ps cache') /\
  (forall start end_, let s := if start <? 0 then t_length ty + start else start in let e := if end_ <? 0 then t_length ty + end_ else end_ in
     0 <= s -> typeListSlice h ty start end_ = Ok (take (Z.to_nat (e - s)) (drop (Z.to_nat s) (typeListToArray h ty)))) /\
  typeListForEach h ty = imap (fun i v => (v, Z.of_nat i)) (typeListToArray h ty) /\
  Z.of_nat (length (typeListToArray h ty)) = t_length ty.
Proof.
  intros Ht Hc. rewrite (typeListToArray_values h ty ps Ht). split_and!.
  - intros index Hi. by apply typeListGet_values.
  - intros start end_ s e Hs. by apply typeListSlice_values.
  - unfold typeListForEach. rewrite (tl_start _ _ _ Ht), (rightItems_list h None ps (tl_linked _ _ _ Ht)), forEachLoop_values. apply imap_ext. done.
  - unfold listValues. rewrite (values_length _ (tl_cells _ _ _ Ht)). symmetry. apply Ht.
Qed.

(** A list of six items, one deleted and one a format. *)
Definition read_item (clock length : Z) (left right : option nat) (content : docContent unit) (countable deleted : bool) : itemStruct unit :=
  mkItem (GenID 1 clock) length None left right None (ParentType 0) [] None content false countable deleted.

Definition read_heap : gmap nat (itemStruct unit) :=
  {[ 1%nat := read_item 0 3 None (Some 2%nat) (contentString [97; 98; 99]) true false;
     2%nat := read_item 3 2 (Some 1%nat) (Some 3%nat) (contentAny [tt; tt]) true true;
     3%nat := read_item 5 1 (Some 2%nat) (Some 4%nat) (contentFormat [98] tt) false false;
     4%nat := read_item 6 1 (Some 3%nat) (Some 5%nat) (contentType 7%nat) true false;
     5%nat := read_item 7 2 (Some 4%nat) (Some 6%nat) (contentAny [tt; tt]) true false;
     6%nat := read_item 9 1 (Some 5%nat) None (contentBinary [1]) true false ]}.
Definition read_type : ytype := mkType (Some 1%nat) ∅ 7 None 6 false 0 false.
Definition read_list : list nat := [1; 2; 3; 4; 5; 6]%nat.

Lemma read_type_list : type_list read_heap read_type read_list.
Proof.
  split; [done| | |by vm_compute].
  - repeat (eexists; split; [vm_compute; reflexivity|]; split; [done|]; split; [done|]). done.
  - unfold cells_ok. replace (withItems read_heap read_list) with (omap (fun p => pair p <$> read_heap !! p) read_list) by done. vm_compute omap.
    repeat apply Forall_cons_2; [..|apply Forall_nil_2]; (split; [cbn; lia|by vm_compute]).
Qed.

Lemma list_reads_agree_witness :
  (forall index, 0 <= index -> exists cache', typeListGet (fun _ _ e => e) read_heap read_type true CacheNil index = (Ok (typeListToArray read_heap read_type !! Z.to_nat index), cache') /\ cache_ok read_heap read_list cache') /\
  typeListToArray read_heap read_type = [EUnit 97; EUnit 98; EUnit 99; EType 7%nat; EAny tt; EAny tt; EBytes [1]] /\
  typeListSlice read_heap read_type (-4) (-1) = Ok [EType 7%nat; EAny tt; EAny tt].
Proof.
  destruct (list_reads_agree (fun _ _ e => e) read_heap read_type read_list true CacheNil read_type_list I) as (Hg & Hs & _). split_and!; [exact Hg|by vm_compute|].
  rewrite Hs; by vm_compute.
Defined.
