(* ===== verification/SearchMarker.v ===== *)
(** * Search markers

    Models the mutable position cache of list types (crdt/abstract.go:
    [searchMarkerLimit], [overwriteMarker], [markPositionWithLimit],
    [findMarkerWithItemCount], [updateMarkerChanges]). A marker is an item with
    the visible index at which it starts. The marker bit of the items is the set
    [sm_marked], and the process-wide timestamp is part of the state. *)
From stdpp Require Import gmap sets list.
From Stdlib Require Import ZArith Lia.
From S2P Require Import Prelude Lib0 StructStore Text DeleteSet Content Item ItemList TypeRead.
Open Scope Z_scope.
Open Scope go_scope.

Record arraySearchMarker := newArraySearchMarker { m_p : nat; m_index : Z; m_timestamp : Z }.

Record markerState := mkMarkers { sm_list : list arraySearchMarker; sm_marked : gset nat; sm_clock : Z }.

Definition maxSearchMarker : Z := 80.

(** ** The number of markers *)
Fixpoint limitLoop (fuel : nat) (itemCount threshold limit : Z) : Z :=
  match fuel with
  | O => limit
  | S fuel' =>
      if threshold <=? itemCount then
        let limit := limit * 2 in
        if itemCount / 4 <? threshold then limit else limitLoop fuel' itemCount (threshold * 4) limit
      else limit
  end.

(** The threshold grows fourfold from 16000, so 64-bit counts take at most 25
    rounds. *)
Definition searchMarkerLimit (itemCount : Z) : Z := limitLoop 25 itemCount 16000 maxSearchMarker.

(** ** Setting a marker *)

(** [overwriteMarker] of the marker at position [i] of the slice. *)
Definition overwriteMarker (i : nat) (p : nat) (index : Z) (st : markerState) : markerState :=
  match sm_list st !! i with
  | Some m =>
      mkMarkers (<[i := newArraySearchMarker p index (sm_clock st + 1)]> (sm_list st)) ({[p]} ∪ (sm_marked st ∖ {[m_p m]})) (sm_clock st + 1)
  | None => st
  end.

Definition refreshMarkerTimestamp (i : nat) (st : markerState) : markerState :=
  match sm_list st !! i with
  | Some m => mkMarkers (<[i := newArraySearchMarker (m_p m) (m_index m) (sm_clock st + 1)]> (sm_list st)) (sm_marked st) (sm_clock st + 1)
  | None => st
  end.

(** The first marker that is smallest in [f]; [best] is the one so far. *)
Fixpoint smallest (f : arraySearchMarker -> Z) (best : nat) (bestValue : Z) (i : nat) (l : list arraySearchMarker) : nat :=
  match l with
  | [] => best
  | m :: l' => if f m <? bestValue then smallest f i (f m) (S i) l' else smallest f best bestValue (S i) l'
  end.

(** The index of the marker, and the markers. A fresh marker has timestamp 0 and
    leaves the marker bit of its item alone. *)
Definition markPositionWithLimit (p : nat) (index limit : Z) (st : markerState) : result (nat * markerState) :=
  if limit <=? Z.of_nat (length (sm_list st)) then
    match sm_list st with
    | [] => Err ErrPanic
    | m :: _ => let i := smallest m_timestamp 0 (m_timestamp m) 0 (sm_list st) in Ok (i, overwriteMarker i p index st)
    end
  else Ok (length (sm_list st), mkMarkers (sm_list st ++ [newArraySearchMarker p index 0]) (sm_marked st) (sm_clock st)).

(** ** Finding a position *)
Section Find.
Context {V : Type}.

(** [findMarkerWithItemCount]; no markers ([None]) is the nil slice of types that
    have none. *)
Definition findMarkerWithItemCount (h : gmap nat (itemStruct V)) (ty : ytype) (index itemCount : Z) (o : option markerState) : result (option nat * option markerState) :=
  match t_start ty, o with
  | Some start, Some st =>
      if index =? 0 then Ok (None, o)
      else
        let nearest := match sm_list st with [] => None | m :: _ => Some (smallest (fun m => Z.abs (index - m_index m)) 0 (Z.abs (index - m_index m)) 0 (sm_list st)) end in
        let marker := i ← nearest; m ← sm_list st !! i; Some (i, m) in
        let from := match marker with Some (_, m) => (m_p m, m_index m) | None => (start, 0) end in
        let st := match marker with Some (i, _) => refreshMarkerTimestamp i st | None => st end in
        let '(z, pindex) := walkBoth (zipperAt h (Some from.1)) from.2 index in
        match z.2 with
        | [] => Err ErrPanic
        | (p, _) :: _ =>
            let markerLimit := Z.max (searchMarkerLimit itemCount) (Z.of_nat (length (sm_list st))) in
            match marker with
            | Some (i, m) =>
                if Z.abs (m_index m - pindex) <? Z.quot (t_length ty) markerLimit then Ok (Some i, Some (overwriteMarker i p pindex st))
                else match markPositionWithLimit p pindex markerLimit st with Ok (i, st) => Ok (Some i, Some st) | Err e => Err e end
            | None => match markPositionWithLimit p pindex markerLimit st with Ok (i, st) => Ok (Some i, Some st) | Err e => Err e end
            end
        end
  | _, _ => Ok (None, o)
  end.

(** ** A change of the list *)

(** To the previous live item: [lefts] are the items left of [p]. *)
Fixpoint previousLive (p : nat * itemStruct V) (lefts : list (nat * itemStruct V)) (index : Z) : option (nat * Z) :=
  if live p.2 then Some (p.1, index)
  else match lefts with
       | [] => None
       | q :: lefts' => previousLive q lefts' (if live q.2 then index - i_length q.2 else index)
       end.

Definition adjustIndex (index length mindex : Z) : Z :=
  if (index <? mindex) || ((0 <? length) && (index =? mindex)) then Z.max index (mindex + length) else mindex.

(** One marker; the marker bits are threaded. *)
Definition updateMarker (h : gmap nat (itemStruct V)) (index length : Z) (m : arraySearchMarker) (marked : gset nat) : result (option arraySearchMarker * gset nat) :=
  if 0 <? length then
    let marked := marked ∖ {[m_p m]} in
    match zipperAt h (Some (m_p m)) with
    | (lefts, p :: _) =>
        match previousLive p lefts (m_index m) with
        | None => Ok (None, marked)
        | Some (q, mindex) =>
            if bool_decide (q ∈ marked) then Ok (None, marked)
            else Ok (Some (newArraySearchMarker q (adjustIndex index length mindex) (m_timestamp m)), {[q]} ∪ marked)
        end
    | _ => Err ErrPanic
    end
  else Ok (Some (newArraySearchMarker (m_p m) (adjustIndex index length (m_index m)) (m_timestamp m)), marked).

(** The loop runs from the last marker to the first. *)
Fixpoint updateLoop (h : gmap nat (itemStruct V)) (index length : Z) (l : list arraySearchMarker) (marked : gset nat) : result (list arraySearchMarker * gset nat) :=
  match l with
  | [] => Ok ([], marked)
  | m :: l' =>
      match updateLoop h index length l' marked with
      | Err e => Err e
      | Ok (l', marked) =>
          match updateMarker h index length m marked with
          | Err e => Err e
          | Ok (Some m, marked) => Ok (m :: l', marked)
          | Ok (None, marked) => Ok (l', marked)
          end
      end
  end.

Definition markerLive (h : gmap nat (itemStruct V)) (m : arraySearchMarker) : bool := match h !! m_p m with Some it => live it | None => false end.

Definition updateMarkerChanges (h : gmap nat (itemStruct V)) (index length : Z) (st : markerState) : result markerState :=
  if (0 <? length) && forallb (fun m => markerLive h m && negb (index <=? m_index m)) (sm_list st) then Ok st
  else match updateLoop h index length (sm_list st) (sm_marked st) with
       | Ok (l, marked) => Ok (mkMarkers l marked (sm_clock st))
       | Err e => Err e
       end.

End Find.

(** ** The number of markers grows with the square root of the items *)
Lemma limitLoop_spec fuel : forall k itemCount, 0 <= k -> 16000 * 4 ^ k <= itemCount -> itemCount < 16000 * 4 ^ (k + Z.of_nat fuel) ->
  exists j, k < j /\ limitLoop fuel itemCount (16000 * 4 ^ k) (80 * 2 ^ k) = 80 * 2 ^ j /\ 16000 * 4 ^ (j - 1) <= itemCount < 16000 * 4 ^ j.
Proof.
  induction fuel as [|fuel IH]; intros k itemCount Hk Hlo Hhi; [rewrite Z.add_0_r in Hhi; lia|]. cbn [limitLoop]. destruct (Z.leb_spec (16000 * 4 ^ k) itemCount); [|lia].
  assert (E4 : 4 ^ (k + 1) = 4 * 4 ^ k) by (rewrite Z.pow_add_r by lia; lia). assert (E2 : 2 ^ (k + 1) = 2 * 2 ^ k) by (rewrite Z.pow_add_r by lia; lia).
  destruct (Z.ltb_spec (itemCount / 4) (16000 * 4 ^ k)) as [Hlt|Hge].
  - exists (k + 1). replace (k + 1 - 1) with k by lia. split_and!; [lia|lia|done|]. rewrite E4. pose proof (Z.div_mod itemCount 4 ltac:(lia)). pose proof (Z.mod_pos_bound itemCount 4 ltac:(lia)). lia.
  - replace (16000 * 4 ^ k * 4) with (16000 * 4 ^ (k + 1)) by lia. replace (80 * 2 ^ k * 2) with (80 * 2 ^ (k + 1)) by lia.
    destruct (IH (k + 1) itemCount) as (j & ? & ? & ?); [lia| |by replace (k + 1 + Z.of_nat fuel) with (k + Z.of_nat (S fuel)) by lia|].
    + pose proof (Z.div_mod itemCount 4 ltac:(lia)). pose proof (Z.mod_pos_bound itemCount 4 ltac:(lia)). lia.
    + exists j. split_and!; [lia|done|lia|lia].
Qed.

Lemma searchMarkerLimit_cases itemCount : itemCount < 2 ^ 63 ->
  (itemCount < 16000 /\ searchMarkerLimit itemCount = 80) \/
  (16000 <= itemCount /\ exists j, 0 < j /\ searchMarkerLimit itemCount = 80 * 2 ^ j /\ 16000 * 4 ^ (j - 1) <= itemCount < 16000 * 4 ^ j).
Proof.
  intros Hn. destruct (Z.lt_ge_cases itemCount 16000) as [Hlt|Hge].
  - left. split; [done|]. unfold searchMarkerLimit, maxSearchMarker. cbn [limitLoop]. by destruct (Z.leb_spec 16000 itemCount); [lia|].
  - right. split; [done|]. destruct (limitLoop_spec 25 0 itemCount) as (j & ? & E & ?); [lia|lia| |by exists j].
    change (0 + Z.of_nat 25) with 25. transitivity (2 ^ 63); [done|]. by vm_compute.
Qed.

(** ** The markers stay right *)
Section Markers.
Context {V : Type}.
Abbreviation item := (itemStruct V).

(** A marker names an item of the list and the visible index at which it
    starts. *)
Definition marker_ok (h : gmap nat item) (ps : list nat) (m : arraySearchMarker) : Prop := exists ps1 ps2, ps = ps1 ++ m_p m :: ps2 /\ m_index m = vlen (withItems h ps1).

Definition markers_ok (h : gmap nat item) (ps : list nat) (o : option markerState) : Prop :=
  match o with Some st => Forall (marker_ok h ps) (sm_list st) | None => True end.

(** The item covers the index, or starts there, or is the last one. *)
Definition covers_index (z : @zipper V) (pindex index : Z) : Prop :=
  match z.2 with
  | (_, it) :: rest => pindex <= index /\ (pindex = index \/ rest = [] \/ (live it = true /\ index < pindex + i_length it))
  | [] => False
  end.

Lemma walkRight_covers (rest : list (nat * item)) : forall lefts pindex index, rest <> [] -> let r := walkRight lefts rest pindex index in
  index < r.2 \/ covers_index r.1 r.2 index.
Proof.
  induction rest as [|[p it] rest IH]; intros lefts pindex index Hne; [done|]. cbn [walkRight]. destruct rest as [|q rest].
  - cbn. destruct (Z.lt_ge_cases index pindex); [by left|right]. unfold covers_index. cbn. auto.
  - destruct (Z.ltb_spec pindex index); [|cbn; destruct (decide (pindex = index)) as [->|]; [right; unfold covers_index; cbn; split; [lia|by left]|left; lia]].
    destruct (live it) eqn:El; [|by apply IH]. destruct (Z.ltb_spec index (pindex + i_length it)); [|by apply IH]. right. unfold covers_index. cbn. split; [lia|]. right. by right.
Qed.

Lemma walkLeft_covers (its lefts : list (nat * item)) : forall rest pindex index, cells_ok its -> 0 <= index -> zipper_of its (lefts, rest) pindex ->
  index < pindex \/ covers_index (lefts, rest) pindex index -> let r := walkLeft lefts rest pindex index in covers_index r.1 r.2 index.
Proof.
  induction lefts as [|[p it] lefts IH]; intros rest pindex index Hc Hi Hz Hor; cbn [walkLeft].
  - destruct Hor as [Hlt|]; [|done]. destruct Hz as (_ & -> & _). cbn in *. lia.
  - destruct (Z.ltb_spec index pindex) as [Hlt|Hge]; [|destruct Hor; [lia|done]]. destruct Hz as (E & -> & Hne). cbn [fst snd vlen] in *.
    assert (Hz' : zipper_of its (lefts, (p, it) :: rest) (vlen lefts)) by (split_and!; [cbn [fst snd]; by rewrite reverse_cons, <- (assoc_L (++)) in E|done|done]).
    assert (Ev : (if live it then (if live it then i_length it else 0) + vlen lefts - i_length it else (if live it then i_length it else 0) + vlen lefts) = vlen lefts) by (destruct (live it); lia). rewrite Ev.
    apply IH; [done|done|done|]. destruct (Z.lt_ge_cases index (vlen lefts)); [by left|right]. unfold covers_index. cbn [snd]. split; [lia|]. destruct (live it) eqn:El; [right; right; split; [done|lia]|lia].
Qed.

Lemma walkBoth_covers (its : list (nat * item)) z pindex index : cells_ok its -> 0 <= index -> zipper_of its z pindex -> let r := walkBoth z pindex index in covers_index r.1 r.2 index.
Proof.
  intros Hc Hi Hz. unfold walkBoth. destruct z as [lefts rest]. pose proof (walkRight_spec its rest lefts pindex index Hz) as Hr. pose proof (walkRight_covers rest lefts pindex index ltac:(by destruct Hz as (_ & _ & ?))) as Hcv.
  cbn [fst snd] in *. destruct (walkRight lefts rest pindex index) as [[lefts' rest'] pindex']. by apply (walkLeft_covers its).
Qed.

(** A position of the list. *)
Lemma zipper_position h ps (z : @zipper V) pindex p it rest : zipper_of (withItems h ps) z pindex -> z.2 = (p, it) :: rest -> (forall q, q ∈ ps -> is_Some (h !! q)) ->
  exists ps1 ps2, ps = ps1 ++ p :: ps2 /\ pindex = vlen (withItems h ps1) /\ h !! p = Some it /\ rest = withItems h ps2.
Proof.
  intros (E & -> & _) Ez Hin. rewrite Ez in E. set (n := length z.1).
  assert (Hn : ps !! n = Some p) by (apply (withItems_lookup h ps n p it Hin); rewrite <- E; apply list_lookup_middle; by rewrite length_reverse).
  assert (Ht : withItems h (take n ps) = reverse z.1) by (rewrite withItems_take, <- E, take_app_le, take_ge by (done || rewrite length_reverse; done); done).
  exists (take n ps), (drop (S n) ps). assert (Eps : take n ps ++ p :: drop (S n) ps = ps) by by apply take_drop_middle.
  destruct (Hin p) as [it' Ep]; [by eapply list_elem_of_lookup_2|]. rewrite <- Eps, withItems_app, Ht, (withItems_cons h p it' _ Ep) in E. apply app_inv_head in E. injection E as <- ->.
  split_and!; [done|by rewrite Ht, vlen_reverse|done|done].
Qed.

Lemma smallest_range f l : forall best v i n, (best < n)%nat -> (i + length l = n)%nat -> (smallest f best v i l < n)%nat.
Proof. induction l as [|m l IH]; intros best v i n Hb Hn; cbn [smallest]; [done|]. cbn in Hn. destruct (f m <? v); apply IH; lia. Qed.

(** *** Finding *)
Lemma overwrite_ok h ps i p index st : markers_ok h ps (Some st) -> (forall ts, marker_ok h ps (newArraySearchMarker p index ts)) -> (i < length (sm_list st))%nat ->
  markers_ok h ps (Some (overwriteMarker i p index st)) /\ exists ts, sm_list (overwriteMarker i p index st) !! i = Some (newArraySearchMarker p index ts).
Proof.
  intros Hm Hp Hi. unfold overwriteMarker. destruct (lookup_lt_is_Some_2 _ _ Hi) as [m E]. rewrite E. cbn [markers_ok sm_list]. split; [by apply Forall_insert|].
  exists (sm_clock st + 1). by apply list_lookup_insert_eq.
Qed.

Lemma markPosition_ok h ps p index limit st : markers_ok h ps (Some st) -> (forall ts, marker_ok h ps (newArraySearchMarker p index ts)) -> 0 < limit ->
  exists i st', markPositionWithLimit p index limit st = Ok (i, st') /\ markers_ok h ps (Some st') /\ exists ts, sm_list st' !! i = Some (newArraySearchMarker p index ts).
Proof.
  intros Hm Hp Hl. unfold markPositionWithLimit. destruct (Z.leb_spec limit (Z.of_nat (length (sm_list st)))) as [Hge|Hlt].
  - destruct (sm_list st) as [|m l] eqn:E; [cbn in Hge; lia|]. eexists _, _. split; [reflexivity|]. rewrite <- E in *. apply overwrite_ok; [done|done|]. apply smallest_range; [|done]. rewrite E. cbn. lia.
  - eexists _, _. split; [reflexivity|]. cbn [markers_ok sm_list]. split; [apply Forall_app_2; [done|by apply Forall_singleton]|]. exists 0. by rewrite list_lookup_middle.
Qed.

Lemma refresh_ok h ps i st : markers_ok h ps (Some st) -> markers_ok h ps (Some (refreshMarkerTimestamp i st)) /\ length (sm_list (refreshMarkerTimestamp i st)) = length (sm_list st).
Proof.
  intros Hm. unfold refreshMarkerTimestamp. destruct (sm_list st !! i) as [m|] eqn:E; [|done]. cbn [markers_ok sm_list]. split; [|apply length_insert]. apply Forall_insert; [done|].
  unfold markers_ok in Hm. rewrite list.Forall_forall in Hm. apply (Hm m). by eapply list_elem_of_lookup_2.
Qed.

Lemma limit_positive itemCount : itemCount < 2 ^ 63 -> 80 <= searchMarkerLimit itemCount.
Proof. intros Hn. destruct (searchMarkerLimit_cases itemCount Hn) as [[_ ->]|(_ & j & Hj & -> & _)]; [lia|]. assert (2 ^ 0 <= 2 ^ j) by (apply Z.pow_le_mono_r; lia). lia. Qed.

(** The marker at [i] names the item that covers the index. *)
Definition found_at (h : gmap nat item) (ps : list nat) (index : Z) (i : nat) (st : markerState) : Prop :=
  exists m ps1 ps2 it, sm_list st !! i = Some m /\ ps = ps1 ++ m_p m :: ps2 /\ m_index m = vlen (withItems h ps1) /\ h !! m_p m = Some it /\
    m_index m <= index /\ (m_index m = index \/ ps2 = [] \/ (live it = true /\ index < m_index m + i_length it)).

Lemma findMarker_spec h ty ps index itemCount o : type_list h ty ps -> markers_ok h ps o -> 0 <= index -> itemCount < 2 ^ 63 ->
  exists r o', findMarkerWithItemCount h ty index itemCount o = Ok (r, o') /\ markers_ok h ps o' /\
    (r = None <-> ps = [] \/ o = None \/ index = 0) /\
    forall i, r = Some i -> exists st, o' = Some st /\ found_at h ps index i st.
Proof.
  intros Ht Hm Hi Hn. unfold findMarkerWithItemCount. rewrite (tl_start _ _ _ Ht).
  destruct ps as [|s0 ps0] eqn:Eps; [cbn; exists None, o; split_and!; [done|done|naive_solver|done]|]. rewrite <- Eps in *. assert (Hhead : head ps = Some s0) by by rewrite Eps. rewrite Hhead.
  destruct o as [st|]; [|exists None, None; split_and!; [done|done|naive_solver|done]]. destruct (Z.eqb_spec index 0) as [->|Hne]; [exists None, (Some st); split_and!; [done|done|naive_solver|done]|].
  set (marker := match sm_list st with [] => None | m :: _ => _ end ≫= _).
  assert (Hmk : match marker with Some (i, m) => sm_list st !! i = Some m | None => True end).
  { unfold marker. destruct (sm_list st) as [|m0 l0]; [done|]. cbn [mbind option_bind]. destruct ((m0 :: l0) !! _) as [m|] eqn:E; done. }
  set (from := match marker with Some (_, m) => (m_p m, m_index m) | None => (s0, 0) end).
  set (st1 := match marker with Some (i, _) => refreshMarkerTimestamp i st | None => st end).
  assert (Hst1 : markers_ok h ps (Some st1) /\ length (sm_list st1) = length (sm_list st)) by (unfold st1; destruct marker as [[i m]|]; [by apply refresh_ok|done]). destruct Hst1 as [Hst1 Hlen1].
  assert (Hfrom : exists ps1 ps2, ps = ps1 ++ from.1 :: ps2 /\ from.2 = vlen (withItems h ps1)).
  { unfold from. destruct marker as [[i m]|]; [|exists [], ps0; by rewrite Eps]. unfold markers_ok in Hm. rewrite list.Forall_forall in Hm. destruct (Hm m) as (ps1 & ps2 & ? & ?); [by eapply list_elem_of_lookup_2|]. by exists ps1, ps2. }
  destruct Hfrom as (ps1 & ps2 & Ep & Ef). pose proof (tl_linked _ _ _ Ht) as Hl. rewrite Ep in Hl. destruct (zipperAt_list h ps1 from.1 ps2 Hl) as [Hz _]. rewrite <- Ep, <- Ef in Hz.
  destruct (walkBoth_spec _ _ _ index (tl_cells _ _ _ Ht) Hi Hz) as [Hz' Hle]. pose proof (walkBoth_covers _ _ _ index (tl_cells _ _ _ Ht) Hi Hz) as Hcov.
  destruct (walkBoth _ _ _) as [z pindex]. cbn [fst snd] in *. destruct (z.2) as [|[p it] rest] eqn:Ez; [by destruct Hz' as (_ & _ & ?)|].
  assert (Hin : forall q, q ∈ ps -> is_Some (h !! q)) by (intros q Hq; eapply linked_lookup; [apply Ht|done]).
  destruct (zipper_position h ps z pindex p it rest Hz' Ez Hin) as (q1 & q2 & Eq & Ev & Eit & Er).
  assert (Hp : forall ts, marker_ok h ps (newArraySearchMarker p pindex ts)) by (intros ts; by exists q1, q2).
  assert (Hres : forall i st', (exists ts, sm_list st' !! i = Some (newArraySearchMarker p pindex ts)) -> found_at h ps index i st').
  { intros i st' (ts & Hi'). exists (newArraySearchMarker p pindex ts), q1, q2, it. cbn [m_p m_index]. unfold covers_index in Hcov. rewrite Ez in Hcov. destruct Hcov as [Hc1 Hc2]. split_and!; try done.
    destruct Hc2 as [?|[E0|?]]; [by left| |by right; right]. right. left. destruct q2 as [|q q2]; [done|]. destruct (Hin q) as [qi Eqi]; [rewrite Eq; apply elem_of_app; right; right; by left|]. by rewrite E0, (withItems_cons h q qi q2 Eqi) in Er. }
  set (limit := Z.max _ _). assert (Hlim : 0 < limit) by (pose proof (limit_positive itemCount Hn); unfold limit; lia).
  destruct (markPosition_ok h ps p pindex limit st1 Hst1 Hp Hlim) as (j & st2 & Emp & Hst2 & Hj).
  assert (Hnone : forall x : nat, Some x = None <-> ps = [] \/ Some st = None \/ index = 0) by (intros x; split; [done|]; intros [->|[?|?]]; done).
  destruct marker as [[i m]|].
  - destruct (_ <? _).
    + destruct (overwrite_ok h ps i p pindex st1 Hst1 Hp) as [Ho Hoi]; [rewrite Hlen1; by eapply lookup_lt_Some|]. eexists _, _. split; [reflexivity|]. split_and!; [done|apply Hnone|]. intros i' [= <-]. eexists. split; [reflexivity|]. by apply Hres.
    + rewrite Emp. eexists _, _. split; [reflexivity|]. split_and!; [done|apply Hnone|]. intros i' [= <-]. eexists. split; [reflexivity|]. by apply Hres.
  - rewrite Emp. eexists _, _. split; [reflexivity|]. split_and!; [done|apply Hnone|]. intros i' [= <-]. eexists. split; [reflexivity|]. by apply Hres.
Qed.

(** *** Changes *)
Lemma previousLive_spec (its rest : list (nat * item)) : forall lefts p pindex q s, zipper_of its (lefts, p :: rest) pindex -> previousLive p lefts pindex = Some (q, s) ->
  exists lefts' qi rest', zipper_of its (lefts', (q, qi) :: rest') s /\ live qi = true.
Proof.
  intros lefts. revert rest. induction lefts as [|[p' it'] lefts IH]; intros rest [p it] pindex q s Hz; cbn [previousLive fst snd]; destruct (live it) eqn:El.
  - intros [= <- <-]. by exists [], it, rest.
  - done.
  - intros [= <- <-]. by exists ((p', it') :: lefts), it, rest.
  - apply (IH ((p, it) :: rest)). destruct Hz as (E & -> & _). split_and!; [|cbn [fst vlen]; destruct (live it'); lia|done]. cbn [fst snd] in *. by rewrite reverse_cons, <- (assoc_L (++)) in E.
Qed.

(** A live item of the list and where it starts. *)
Definition live_at (h : gmap nat item) (ps : list nat) (q : nat) (s : Z) : Prop :=
  exists ps1 ps2 qi, ps = ps1 ++ q :: ps2 /\ s = vlen (withItems h ps1) /\ h !! q = Some qi /\ live qi = true.

Lemma updateMarker_insert h ps index n m marked : linked h None ps -> marker_ok h ps m -> 0 < n ->
  exists r marked', updateMarker h index n m marked = Ok (r, marked') /\
    forall m', r = Some m' -> exists s, live_at h ps (m_p m') s /\ m_index m' = adjustIndex index n s.
Proof.
  intros Hl (ps1 & ps2 & -> & Em) Hn. unfold updateMarker. destruct (Z.ltb_spec 0 n); [|lia]. destruct (zipperAt_list h ps1 (m_p m) ps2 Hl) as [Hz _]. rewrite <- Em in Hz.
  destruct (zipperAt h (Some (m_p m))) as [lefts [|p rest]]; [by destruct Hz as (_ & _ & ?)|].
  destruct (previousLive p lefts (m_index m)) as [[q s]|] eqn:E; [|by eexists _, _]. case_bool_decide; [by eexists _, _|]. eexists _, _. split; [reflexivity|]. intros m' [= <-]. cbn [m_p m_index].
  destruct (previousLive_spec _ _ _ _ _ _ _ Hz E) as (lefts' & qi & rest' & Hz' & Hlive). exists s. split; [|done].
  destruct (zipper_position _ _ _ _ _ _ _ Hz' eq_refl) as (q1 & q2 & ? & ? & ? & _); [intros r Hr; by eapply linked_lookup|]. by exists q1, q2, qi.
Qed.

Lemma updateLoop_insert h ps index n l : linked h None ps -> 0 < n -> Forall (marker_ok h ps) l -> forall marked,
  exists l' marked', updateLoop h index n l marked = Ok (l', marked') /\ Forall (fun m' => exists s, live_at h ps (m_p m') s /\ m_index m' = adjustIndex index n s) l'.
Proof.
  intros Hl Hn Hm. induction Hm as [|m l Hm _ IH]; intros marked; cbn [updateLoop]; [by eexists _, _|]. destruct (IH marked) as (l' & marked1 & -> & Hl').
  destruct (updateMarker_insert h ps index n m marked1 Hl Hm Hn) as (r & marked2 & -> & Hr). destruct r as [m'|]; eexists _, _; (split; [reflexivity|]); [|done]. apply Forall_cons_2; [by apply Hr|done].
Qed.

(** The items of [ps] keep their lengths and flags; only links may change. *)
Definition same_cells (h h' : gmap nat item) (ps : list nat) : Prop :=
  forall q it, q ∈ ps -> h !! q = Some it -> exists it', h' !! q = Some it' /\ live it' = live it /\ i_length it' = i_length it.

Lemma same_cells_vlen h h' ps : same_cells h h' ps -> (forall q, q ∈ ps -> is_Some (h !! q)) -> vlen (withItems h' ps) = vlen (withItems h ps).
Proof.
  intros Hs Hin. induction ps as [|q ps IH]; [done|]. destruct (Hin q) as [it E]; [by left|]. destruct (Hs q it) as (it' & E' & El & Ei); [by left|done|].
  rewrite (withItems_cons h q it ps E), (withItems_cons h' q it' ps E'). cbn [vlen]. rewrite El, Ei, IH; [done| |]; intros r; [intros rt Hr|intros Hr]; [apply Hs|apply Hin]; by right.
Qed.

(** A change at [index] behind a live item or at the front: what starts before the
    index lies before the change. *)
Lemma split_side h a b q s : (forall r, r ∈ a ++ b -> is_Some (h !! r)) -> cells_ok (withItems h (a ++ b)) -> live_at h (a ++ b) q s ->
  (exists a1 a2, a = a1 ++ q :: a2 /\ s = vlen (withItems h a1) /\ s < vlen (withItems h a)) \/ (exists b1 b2, b = b1 ++ q :: b2 /\ s = vlen (withItems h a) + vlen (withItems h b1)).
Proof.
  intros Hin Hc (ps1 & ps2 & qi & E & -> & Eq & Hlive). destruct (decide (length a <= length ps1)%nat) as [Hle|Hgt].
  - right. apply app_eq_inv in E as [(k & -> & Eb)|(k & Ea & Eb)].
    + destruct k as [|x k]; [cbn in Eb; exists [], ps2; rewrite app_nil_r in *; split; [by rewrite <- Eb|cbn; lia]|rewrite length_app in Hle; cbn in Hle; lia].
    + subst. exists k, ps2. split; [done|]. by rewrite withItems_app, vlen_app.
  - left. apply app_eq_inv in E as [(k & -> & Eb)|(k & Ea & Eb)]; [|subst; rewrite length_app in Hgt; lia]. destruct k as [|x k]; [rewrite app_nil_r in Hgt; lia|]. injection Eb as <- Eb. exists ps1, k. split_and!; [done|done|].
    rewrite withItems_app, vlen_app, (withItems_cons h q qi k Eq). cbn [vlen]. rewrite Hlive. rewrite <- (assoc_L (++)) in Hc. cbn [app] in Hc. rewrite withItems_app, (withItems_cons h q qi _ Eq), withItems_app in Hc.
    apply Forall_app in Hc as [_ Hc]. apply list.Forall_cons in Hc as [[Hp _] Hc]. apply Forall_app in Hc as [Hc _]. pose proof (vlen_nonneg _ Hc). cbn in Hp. lia.
Qed.

(** A live item after [ns] have been inserted between [a] and [b]. *)
Lemma live_moves h h' a b ns q s : linked h None (a ++ b) -> cells_ok (withItems h (a ++ b)) -> same_cells h h' (a ++ b) -> live_at h (a ++ b) q s -> 0 < vlen (withItems h' ns) ->
  exists ps1 ps2, a ++ ns ++ b = ps1 ++ q :: ps2 /\ vlen (withItems h' ps1) = adjustIndex (vlen (withItems h a)) (vlen (withItems h' ns)) s /\
    (s < vlen (withItems h a) -> vlen (withItems h' ps1) = s).
Proof.
  intros Hl Hc Hs Hq Hn. assert (Hin : forall r, r ∈ a ++ b -> is_Some (h !! r)) by (intros r Hr; by eapply linked_lookup).
  assert (Hsub : forall l, (forall r, r ∈ l -> r ∈ a ++ b) -> vlen (withItems h' l) = vlen (withItems h l)).
  { intros l Hsub. apply same_cells_vlen; [intros r rt Hr; by apply Hs, Hsub|intros r Hr; by apply Hin, Hsub]. }
  unfold adjustIndex. destruct (split_side h a b q s Hin Hc Hq) as [(a1 & a2 & -> & -> & Hlt)|(b1 & b2 & -> & ->)].
  - exists a1, (a2 ++ ns ++ b). rewrite <- (assoc_L (++)). split; [done|]. rewrite Hsub by (intros r Hr; rewrite !elem_of_app; by left; left). split; [|done].
    destruct (Z.ltb_spec (vlen (withItems h (a1 ++ q :: a2))) (vlen (withItems h a1))); [lia|]. destruct (Z.eqb_spec (vlen (withItems h (a1 ++ q :: a2))) (vlen (withItems h a1))); [lia|]. by rewrite andb_false_r.
  - exists (a ++ ns ++ b1), b2. split; [by rewrite <- !(assoc_L (++))|]. rewrite !withItems_app, !vlen_app, (Hsub a), (Hsub b1) by (intros r Hr; rewrite !elem_of_app; tauto).
    assert (Hb : 0 <= vlen (withItems h b1)). { apply vlen_nonneg. rewrite !withItems_app in Hc. apply Forall_app in Hc as [_ Hc]. apply Forall_app in Hc. tauto. }
    split; [|lia]. destruct (Z.ltb_spec (vlen (withItems h a)) (vlen (withItems h a) + vlen (withItems h b1))); cbn [orb]; [lia|]. destruct (Z.ltb_spec 0 (vlen (withItems h' ns))); [|lia]. destruct (Z.eqb_spec (vlen (withItems h a)) (vlen (withItems h a) + vlen (withItems h b1))); cbn [andb]; lia.
Qed.

(** The markers before an insertion are right after it. *)
Lemma markers_insert h h' a b ns st : linked h None (a ++ b) -> cells_ok (withItems h (a ++ b)) -> same_cells h h' (a ++ b) -> 0 < vlen (withItems h' ns) -> markers_ok h (a ++ b) (Some st) ->
  exists st', updateMarkerChanges h (vlen (withItems h a)) (vlen (withItems h' ns)) st = Ok st' /\ markers_ok h' (a ++ ns ++ b) (Some st').
Proof.
  intros Hl Hc Hs Hn Hm. unfold updateMarkerChanges. set (index := vlen (withItems h a)). set (n := vlen (withItems h' ns)) in *. destruct (Z.ltb_spec 0 n); [|lia]. cbn [andb].
  destruct (forallb _ _) eqn:Ef.
  - exists st. split; [done|]. cbn [markers_ok] in *. rewrite list.Forall_forall in Hm |- *. intros m Hin. rewrite List.forallb_forall in Ef. specialize (Ef m (proj1 (list_elem_of_In _ _) Hin)).
    apply andb_true_iff in Ef as [Elive Eidx]. destruct (Hm m Hin) as (ps1 & ps2 & E & Ei). unfold markerLive in Elive. destruct (h !! m_p m) as [it|] eqn:Eit; [|done].
    destruct (live_moves h h' a b ns (m_p m) (m_index m) Hl Hc Hs) as (q1 & q2 & Eq & _ & Ev); [exists ps1, ps2, it; split_and!; [done|done|done|by destruct (live it)]|done|].
    exists q1, q2. split; [done|]. rewrite Ev; [done|]. destruct (Z.leb_spec index (m_index m)); [done|]. done.
  - destruct (updateLoop_insert h (a ++ b) index n (sm_list st) Hl ltac:(done) Hm (sm_marked st)) as (l' & marked' & -> & Hl'). eexists. split; [reflexivity|]. cbn [markers_ok sm_list].
    eapply Forall_impl; [|exact Hl']. cbv beta. intros m' (s & Hq & Ei). destruct (live_moves h h' a b ns (m_p m') s Hl Hc Hs Hq ltac:(done)) as (q1 & q2 & Eq & Ev & _). exists q1, q2. split; [done|]. rewrite Ei. done.
Qed.

(** *** Deletion *)

(** The visible index after the deletion of [length] elements from [index] on. *)
Definition withoutRange (index length s : Z) : Z := s - Z.max 0 (Z.min s (index + length) - index).

Lemma markers_delete h h' ps index length st : 0 < length -> markers_ok h ps (Some st) ->
  (forall ps1 ps2, ps = ps1 ++ ps2 -> vlen (withItems h' ps1) = withoutRange index length (vlen (withItems h ps1))) ->
  exists st', updateMarkerChanges h' index (- length) st = Ok st' /\ markers_ok h' ps (Some st').
Proof.
  intros Hn Hm Hd. unfold updateMarkerChanges. destruct (Z.ltb_spec 0 (- length)); [lia|]. cbn [andb].
  assert (Hloop : forall l marked, Forall (marker_ok h ps) l -> exists l' marked', updateLoop h' index (- length) l marked = Ok (l', marked') /\ Forall (marker_ok h' ps) l').
  { intros l marked Hl. induction Hl as [|m l (ps1 & ps2 & Eps & Em) _ (l' & marked' & E & Hl')]; cbn [updateLoop]; [by eexists _, _|]. rewrite E. unfold updateMarker. destruct (Z.ltb_spec 0 (- length)); [lia|].
    eexists _, _. split; [reflexivity|]. apply Forall_cons_2; [|done]. exists ps1, ps2. split; [done|]. cbn [m_index]. rewrite (Hd ps1 (m_p m :: ps2)) by done. rewrite <- Em. unfold adjustIndex, withoutRange.
    destruct (Z.ltb_spec index (m_index m)); cbn [orb]; [lia|]. destruct (Z.ltb_spec 0 (- length)); [lia|]. cbn [andb]. lia. }
  destruct (Hloop (sm_list st) (sm_marked st) Hm) as (l' & marked' & -> & Hl'). by eexists.
Qed.

End Markers.

(** ** Properties *)

(** C31. Search markers stay right. While every marker names an item of the list with
    the visible index at which it starts: [findMarkerWithItemCount] keeps that
    so and answers with a marker of the item that covers the index; after
    [updateMarkerChanges] the markers are right for the list with items
    inserted at the index, and for the list with a visible range deleted. *)
Theorem markers_stay_right {V : Type} (h : gmap nat (itemStruct V)) (ty : ytype) (ps : list nat) (st : markerState) :
  type_list h ty ps -> markers_ok h ps (Some st) ->
  (forall index itemCount, 0 < index -> itemCount < 2 ^ 63 -> ps <> [] -> exists i st', findMarkerWithItemCount h ty index itemCount (Some st) = Ok (Some i, Some st') /\
     markers_ok h ps (Some st') /\ found_at h ps index i st') /\
  (forall (h' : gmap nat (itemStruct V)) a b ns, ps = a ++ b -> same_cells h h' ps -> 0 < vlen (withItems h' ns) ->
     exists st', updateMarkerChanges h (vlen (withItems h a)) (vlen (withItems h' ns)) st = Ok st' /\ markers_ok h' (a ++ ns ++ b) (Some st')) /\
  (forall (h' : gmap nat (itemStruct V)) index length, 0 < length -> (forall ps1 ps2, ps = ps1 ++ ps2 -> vlen (withItems h' ps1) = withoutRange index length (vlen (withItems h ps1))) ->
     exists st', updateMarkerChanges h' index (- length) st = Ok st' /\ markers_ok h' ps (Some st')).
Proof.
  intros Ht Hm. split_and!.
  - intros index itemCount Hi Hn Hne. destruct (findMarker_spec h ty ps index itemCount (Some st) Ht Hm ltac:(lia) Hn) as (r & o' & E & Hm' & Hnone & Hfound).
    destruct r as [i|]; [|exfalso; destruct (proj1 Hnone eq_refl) as [?|[?|?]]; [done|done|lia]]. destruct (Hfound i eq_refl) as (st' & -> & Hf). by exists i, st'.
  - intros h' a b ns -> Hs Hn. apply markers_insert; [apply Ht|apply Ht|done|done|done].
  - intros h' index length Hl Hd. by apply (markers_delete h h').
Qed.

Definition marks : markerState := mkMarkers [newArraySearchMarker 4 3 5; newArraySearchMarker 1 0 0] {[ 4%nat ]} 5.

Lemma marks_ok : markers_ok read_heap read_list (Some marks).
Proof. repeat apply Forall_cons_2; [..|apply Forall_nil_2]; [exists [1; 2; 3]%nat, [5; 6]%nat; by vm_compute|exists [], [2; 3; 4; 5; 6]%nat; by vm_compute]. Qed.

Lemma markers_stay_right_witness :
  (exists i st', findMarkerWithItemCount read_heap read_type 5 6 (Some marks) = Ok (Some i, Some st') /\ markers_ok read_heap read_list (Some st') /\ found_at read_heap read_list 5 i st') /\
  exists st', updateMarkerChanges read_heap (vlen (withItems read_heap [1]%nat)) (vlen (withItems (<[9%nat := read_item 20 2 None None (contentAny [tt; tt]) true false]> read_heap) [9]%nat)) marks = Ok st' /\
    markers_ok (<[9%nat := read_item 20 2 None None (contentAny [tt; tt]) true false]> read_heap) ([1] ++ [9] ++ [2; 3; 4; 5; 6])%nat (Some st').
Proof.
  destruct (markers_stay_right read_heap read_type read_list marks read_type_list marks_ok) as (Hf & Hi & _). split; [apply Hf; [done|done|done]|].
  apply Hi; [done| |by vm_compute]. intros q it Hq Hit. exists it. split; [|done]. rewrite lookup_insert_ne; [done|]. intros <-. vm_compute in Hit. done.
Defined.

(** The number of markers grows with the square root of the number of items: it
    is 80 below 16000 items, and beyond that the number of items lies between
    5/8 and 5/2 of its square, so that both the markers to scan and the items
    between two of them are of the order of the square root. *)
Theorem searchMarkerLimit_bounds (itemCount : Z) : itemCount < 2 ^ 63 ->
  let limit := searchMarkerLimit itemCount in
  80 <= limit /\ (itemCount < 16000 -> limit = 80) /\ (16000 <= itemCount -> 5 * limit ^ 2 <= 8 * itemCount /\ 2 * itemCount < 5 * limit ^ 2).
Proof.
  intros Hn limit. split; [by apply limit_positive|]. unfold limit. destruct (searchMarkerLimit_cases itemCount Hn) as [[Hlt ->]|(Hge & j & Hj & -> & Hb)]; [lia|]. split; [lia|]. intros _.
  assert (E4 : 4 ^ j = 2 ^ j * 2 ^ j) by (rewrite <- Z.pow_mul_l; done). assert (E1 : 4 ^ j = 4 * 4 ^ (j - 1)) by (replace j with (1 + (j - 1)) at 1 by lia; rewrite Z.pow_add_r by lia; lia).
  rewrite Z.pow_2_r. nia.
Qed.

Lemma searchMarkerLimit_bounds_witness : searchMarkerLimit 100000 = 320 /\ 80 <= 320 /\ 5 * 320 ^ 2 <= 8 * 100000.
Proof. destruct (searchMarkerLimit_bounds 100000) as (H1 & _ & H2); [done|]. split; [by vm_compute|]. split; [exact H1|]. apply H2. done. Defined.
