(* ===== verification/PositionTree.v ===== *)
(** * The tree of the list position index

    Models the block tree of crdt/list_position_index.go: the nodes with their
    cached aggregates ([recalculate]), the rotations, [rebalanceFrom],
    [refreshFrom], [insertNodeAfter], [buildBalancedListPositionNodes] and the
    descents of [findPosition] and [findFormattedPosition].

    A node is a value; the parent pointers of a node are the path from it to the
    root, a list of frames with the nearest first. A loop [node = node.parent]
    runs along that path, and [replaceParentLink] is what [plug] does. *)
From stdpp Require Import gmap list.
From Stdlib Require Import ZArith Lia.
From S2P Require Import Prelude Lib0 Text Object.
Open Scope Z_scope.
Open Scope go_scope.

(** ** Nodes *)

(** The own fields of a node; [b_id] stands for its address. *)
Record listPositionBlock := mkBlock {
  b_id : nat;
  b_first : option nat;
  b_items : Z;
  b_visible : Z;
  b_liveFormats : Z
}.

(** The cached fields. *)
Record aggregates := mkAggregates {
  subtreeItems : Z;
  subtreeVisible : Z;
  subtreeLiveFormats : Z;
  height : Z
}.

Inductive listPositionNode : Type :=
| Nil
| Node (left : listPositionNode) (b : listPositionBlock) (a : aggregates) (right : listPositionNode).

Abbreviation tree := listPositionNode.

Definition nodeAggregates (t : tree) : aggregates :=
  match t with Nil => mkAggregates 0 0 0 0 | Node _ _ a _ => a end.
Definition nodeHeight (t : tree) : Z := height (nodeAggregates t).
Definition nodeItems (t : tree) : Z := subtreeItems (nodeAggregates t).
Definition nodeVisible (t : tree) : Z := subtreeVisible (nodeAggregates t).
Definition nodeFormats (t : tree) : Z := subtreeLiveFormats (nodeAggregates t).

(** The node with its fields recalculated from those of its children. *)
Definition recalculated (l : tree) (b : listPositionBlock) (r : tree) : tree :=
  Node l b
    (mkAggregates
      (b_items b + nodeItems l + nodeItems r)
      (b_visible b + nodeVisible l + nodeVisible r)
      (b_liveFormats b + nodeFormats l + nodeFormats r)
      (if nodeHeight r <? nodeHeight l then nodeHeight l + 1 else nodeHeight r + 1))
    r.

Definition recalculate (t : tree) : tree :=
  match t with Nil => Nil | Node l b _ r => recalculated l b r end.

(** ** Rotations and paths *)

(** The right child becomes the root; the node is recalculated first. *)
Definition rotateLeft (t : tree) : tree :=
  match t with
  | Node l b _ (Node middle rb _ rr) => recalculated (recalculated l b middle) rb rr
  | _ => t
  end.

Definition rotateRight (t : tree) : tree :=
  match t with
  | Node (Node ll lb _ middle) b _ r => recalculated ll lb (recalculated middle b r)
  | _ => t
  end.

(** The parent of a left child or of a right child. *)
Inductive frame : Type :=
| LeftOf (b : listPositionBlock) (a : aggregates) (right : tree)
| RightOf (left : tree) (b : listPositionBlock) (a : aggregates).

Definition plug1 (f : frame) (t : tree) : tree :=
  match f with LeftOf b a r => Node t b a r | RightOf l b a => Node l b a t end.

Fixpoint plug (path : list frame) (t : tree) : tree :=
  match path with [] => t | f :: path' => plug path' (plug1 f t) end.

(** One round of the loop of [rebalanceFrom]. *)
Definition rebalanceNode (t : tree) : tree :=
  match recalculate t with
  | Nil => Nil
  | Node l b a r =>
      let balance := nodeHeight l - nodeHeight r in
      if 1 <? balance then
        match l with
        | Node ll _ _ lr =>
            rotateRight (Node (if nodeHeight ll <? nodeHeight lr then rotateLeft l else l) b a r)
        | Nil => Node l b a r
        end
      else if balance <? -1 then
        match r with
        | Node rl _ _ rr =>
            rotateLeft (Node l b a (if nodeHeight rr <? nodeHeight rl then rotateRight r else r))
        | Nil => Node l b a r
        end
      else Node l b a r
  end.

Fixpoint rebalanceFrom (t : tree) (path : list frame) : tree :=
  match path with
  | [] => rebalanceNode t
  | f :: path' => rebalanceFrom (plug1 f (rebalanceNode t)) path'
  end.

Fixpoint refreshFrom (t : tree) (path : list frame) : tree :=
  match path with
  | [] => recalculate t
  | f :: path' => refreshFrom (plug1 f (recalculate t)) path'
  end.

(** The node with an address, and its path. *)
Fixpoint locate (id : nat) (t : tree) (path : list frame) : option (tree * list frame) :=
  match t with
  | Nil => None
  | Node l b a r =>
      if decide (b_id b = id) then Some (t, path)
      else match locate id l (LeftOf b a r :: path) with
           | Some z => Some z
           | None => locate id r (RightOf l b a :: path)
           end
  end.

(** An assignment to fields of the node with an address. *)
Fixpoint updateNode (id : nat) (f : listPositionBlock -> listPositionBlock) (t : tree) : tree :=
  match t with
  | Nil => Nil
  | Node l b a r => Node (updateNode id f l) (if decide (b_id b = id) then f b else b) a (updateNode id f r)
  end.

Definition refreshAt (id : nat) (t : tree) : tree :=
  match locate id t [] with Some (t', path) => refreshFrom t' path | None => t end.

(** A node without children, as [insertNodeAfter] and [insertItem] set it up. *)
Definition singleNode (b : listPositionBlock) : tree :=
  Node Nil b (mkAggregates (b_items b) (b_visible b) (b_liveFormats b) 1) Nil.

(** [for parent.left != nil { parent = parent.left }], and the link. *)
Fixpoint insertLeftmost (inserted t : tree) (path : list frame) : tree :=
  match t with
  | Nil => plug path t
  | Node Nil b a r => rebalanceFrom (Node inserted b a r) path
  | Node l b a r => insertLeftmost inserted l (LeftOf b a r :: path)
  end.

(** [insertNodeAfter], for a node [left] at the end of [path]. *)
Definition insertNodeAfter (left : tree) (path : list frame) (inserted : listPositionBlock) : tree :=
  match left with
  | Nil => singleNode inserted
  | Node l b a Nil => rebalanceFrom (Node l b a (singleNode inserted)) path
  | Node l b a r => insertLeftmost (singleNode inserted) r (RightOf l b a :: path)
  end.

(** [nodes[begin:end]] as a list; the fuel is its length. *)
Fixpoint buildBalancedListPositionNodes (fuel : nat) (nodes : list listPositionBlock) : tree :=
  match fuel with
  | O => Nil
  | S fuel' =>
      let middle := Nat.div2 (length nodes) in
      match drop middle nodes with
      | [] => Nil
      | b :: rest => recalculated (buildBalancedListPositionNodes fuel' (take middle nodes)) b (buildBalancedListPositionNodes fuel' rest)
      end
  end.

(** ** Descents *)

(** The visible end: the rightmost block with visible content. *)
Fixpoint findEnd (t : tree) (base : Z) : option (option nat * Z) :=
  match t with
  | Nil => None
  | Node l b _ r =>
      let nodeBase := base + nodeVisible l in
      if 0 <? nodeVisible r then findEnd r (nodeBase + b_visible b)
      else if 0 <? b_visible b then Some (b_first b, nodeBase)
      else findEnd l base
  end.

Fixpoint findInside (t : tree) (target base : Z) (fallback : option (option nat * Z)) : option (option nat * Z) :=
  match t with
  | Nil => fallback
  | Node l b _ r =>
      let leftVisible := nodeVisible l in
      if target <? base + leftVisible then findInside l target base fallback
      else
        let nodeBase := base + leftVisible in
        if (0 <? b_visible b) && (target <? nodeBase + b_visible b) then Some (b_first b, nodeBase)
        else
          let fallback := if 0 <? b_visible b then Some (b_first b, nodeBase) else fallback in
          if nodeVisible r =? 0 then fallback
          else findInside r target (nodeBase + b_visible b) fallback
  end.

Definition findPosition (root : tree) (target : Z) : option (option nat * Z) :=
  match root with
  | Nil => None
  | _ =>
      if (target <? 0) || (nodeVisible root <? target) then None
      else if target =? nodeVisible root then findEnd root 0
      else findInside root target 0 None
  end.

(** The descent of [findFormattedPosition] and [applyLiveFormatsInSubtree]; [apply]
    is [applyLiveFormatsInBlock]. *)
Section Formatted.
Context {A : Type} (apply : listPositionBlock -> A -> A).

Fixpoint applyLiveFormatsInSubtree (t : tree) (attributes : A) : A :=
  match t with
  | Nil => attributes
  | Node l b a r =>
      if subtreeLiveFormats a =? 0 then attributes
      else applyLiveFormatsInSubtree r (apply b (applyLiveFormatsInSubtree l attributes))
  end.

Fixpoint formattedLoop (t : tree) (coordinate base : Z) (attributes : A) : option (option nat * Z) * A :=
  match t with
  | Nil => (None, attributes)
  | Node l b _ r =>
      let leftVisible := nodeVisible l in
      if coordinate <? base + leftVisible then formattedLoop l coordinate base attributes
      else
        let attributes := applyLiveFormatsInSubtree l attributes in
        let nodeBase := base + leftVisible in
        if (0 <? b_visible b) && (coordinate <? nodeBase + b_visible b) then (Some (b_first b, nodeBase), attributes)
        else formattedLoop r coordinate (nodeBase + b_visible b) (apply b attributes)
  end.

(** A failed lookup returns the attributes as they were given. *)
Definition findFormattedPosition (root : tree) (target : Z) (currentAttributes : A) : option (option nat * Z) * A :=
  match root with
  | Nil => (None, currentAttributes)
  | _ =>
      if (target <? 0) || (nodeVisible root <? target) || (nodeVisible root =? 0) then (None, currentAttributes)
      else formattedLoop root (if target =? nodeVisible root then target - 1 else target) 0 currentAttributes
  end.
End Formatted.

(** ** Well-formed trees *)
Fixpoint inorder (t : tree) : list listPositionBlock :=
  match t with Nil => [] | Node l b _ r => inorder l ++ b :: inorder r end.

(** Every cached field is what [recalculate] would write. *)
Fixpoint cached (t : tree) : Prop :=
  match t with Nil => True | Node l b a r => cached l /\ cached r /\ t = recalculated l b r end.

Fixpoint balanced (t : tree) : Prop :=
  match t with Nil => True | Node l b a r => balanced l /\ balanced r /\ -1 <= nodeHeight l - nodeHeight r <= 1 end.

Definition avl (t : tree) : Prop := cached t /\ balanced t.

Definition total (f : listPositionBlock -> Z) (bs : list listPositionBlock) : Z := foldr (fun b s => f b + s) 0 bs.

Lemma total_block_app f bs bs' : total f (bs ++ bs') = total f bs + total f bs'.
Proof. unfold total. induction bs as [|b bs IH]; [done|]. cbn [app foldr]. rewrite IH. lia. Qed.

Lemma total_block_cons f b bs : total f (b :: bs) = f b + total f bs.
Proof. done. Qed.

Lemma cached_totals t : cached t ->
  nodeItems t = total b_items (inorder t) /\ nodeVisible t = total b_visible (inorder t) /\ nodeFormats t = total b_liveFormats (inorder t).
Proof.
  induction t as [|l IHl b a r IHr]; [done|]. intros (Hl & Hr & ->). destruct (IHl Hl) as (?&?&?), (IHr Hr) as (?&?&?).
  change (inorder (recalculated l b r)) with (inorder l ++ b :: inorder r). rewrite !total_block_app, !total_block_cons.
  change (nodeItems (recalculated l b r)) with (b_items b + nodeItems l + nodeItems r). change (nodeVisible (recalculated l b r)) with (b_visible b + nodeVisible l + nodeVisible r).
  change (nodeFormats (recalculated l b r)) with (b_liveFormats b + nodeFormats l + nodeFormats r). lia.
Qed.

Lemma cached_height t : cached t -> 0 <= nodeHeight t.
Proof.
  induction t as [|l IHl b a r IHr]; [done|]. intros (Hl & Hr & ->). specialize (IHl Hl). specialize (IHr Hr). unfold nodeHeight at 1. cbn [nodeAggregates recalculated height]. case_match; lia.
Qed.

Lemma recalculated_height l b r : nodeHeight (recalculated l b r) = 1 + Z.max (nodeHeight l) (nodeHeight r).
Proof. unfold nodeHeight at 1. cbn [nodeAggregates recalculated height]. case_match eqn:E; [apply Z.ltb_lt in E|apply Z.ltb_ge in E]; lia. Qed.

Lemma recalculated_avl l b r : avl l -> avl r -> -1 <= nodeHeight l - nodeHeight r <= 1 -> avl (recalculated l b r).
Proof. intros [??] [??] ?. by split. Qed.

Lemma avl_Node l b a r : avl (Node l b a r) -> avl l /\ avl r /\ Node l b a r = recalculated l b r /\ -1 <= nodeHeight l - nodeHeight r <= 1.
Proof. intros [(?&?&?) (?&?&?)]. done. Qed.

Lemma inorder_recalculate t : inorder (recalculate t) = inorder t.
Proof. by destruct t. Qed.

(** *** One round of rebalancing *)
(** What [rebalanceNode] makes of a node whose subtrees differ by two at most. *)
Definition rebalanced (l : tree) (b : listPositionBlock) (r t : tree) : Prop :=
  avl t /\ inorder t = inorder l ++ b :: inorder r /\ Z.max (nodeHeight l) (nodeHeight r) <= nodeHeight t <= 1 + Z.max (nodeHeight l) (nodeHeight r) /\
  (-1 <= nodeHeight l - nodeHeight r <= 1 -> nodeHeight t = 1 + Z.max (nodeHeight l) (nodeHeight r)).

Lemma rebalanceNode_right l b a r : 1 < nodeHeight l - nodeHeight r ->
  rebalanceNode (Node l b a r) = match l with Node ll _ _ lr => rotateRight (Node (if nodeHeight ll <? nodeHeight lr then rotateLeft l else l) b a r) | Nil => recalculated l b r end.
Proof.
  intros Hd. unfold rebalanceNode. cbn [recalculate recalculated]. destruct (Z.ltb_spec 1 (nodeHeight l - nodeHeight r)); [|lia].
  destruct l as [|ll lb la lr]; [reflexivity|]. destruct (nodeHeight ll <? nodeHeight lr); [destruct lr|]; reflexivity.
Qed.

Lemma rebalanceNode_left l b a r : nodeHeight l - nodeHeight r < -1 ->
  rebalanceNode (Node l b a r) = match r with Node rl _ _ rr => rotateLeft (Node l b a (if nodeHeight rr <? nodeHeight rl then rotateRight r else r)) | Nil => recalculated l b r end.
Proof.
  intros Hd. unfold rebalanceNode. cbn [recalculate recalculated]. destruct (Z.ltb_spec 1 (nodeHeight l - nodeHeight r)); [lia|].
  destruct (Z.ltb_spec (nodeHeight l - nodeHeight r) (-1)); [|lia]. destruct r as [|rl rb ra rr]; [reflexivity|]. destruct (nodeHeight rr <? nodeHeight rl); [destruct rl|]; reflexivity.
Qed.

Lemma rebalanceNode_even l b a r : -1 <= nodeHeight l - nodeHeight r <= 1 -> rebalanceNode (Node l b a r) = recalculated l b r.
Proof.
  intros Hd. unfold rebalanceNode. cbn [recalculate recalculated]. destruct (Z.ltb_spec 1 (nodeHeight l - nodeHeight r)); [lia|].
  destruct (Z.ltb_spec (nodeHeight l - nodeHeight r) (-1)); [lia|done].
Qed.

Lemma inorder_recalculated l b r : inorder (recalculated l b r) = inorder l ++ b :: inorder r.
Proof. done. Qed.

(** Both sides associated to the right. *)
Ltac app_norm := repeat (rewrite <- ?app_assoc; cbn [app]); reflexivity.

Ltac solve_rebalanced :=
  repeat match goal with
         | |- rebalanced _ _ _ _ => split_and!
         | |- avl (recalculated _ _ _) => apply recalculated_avl
         | |- inorder _ = _ => rewrite ?inorder_recalculated; app_norm
         | |- _ => rewrite ?recalculated_height; (done || lia)
         end.

Lemma rebalance_right l b a r : avl l -> avl r -> nodeHeight l - nodeHeight r = 2 -> rebalanced l b r (rebalanceNode (Node l b a r)).
Proof.
  intros Hl Hr Hd. rewrite rebalanceNode_right by lia. pose proof (cached_height r (proj1 Hr)). destruct l as [|ll lb la lr]; [cbn in Hd; lia|].
  apply avl_Node in Hl as (Hll & Hlr & El & Hb). rewrite El in *. rewrite recalculated_height in *. destruct (Z.ltb_spec (nodeHeight ll) (nodeHeight lr)).
  - destruct lr as [|m1 mb ma m2]; [pose proof (cached_height ll (proj1 Hll)); cbn in *; lia|]. apply avl_Node in Hlr as (Hm1 & Hm2 & Em & Hbm). rewrite Em in *. rewrite recalculated_height in *.
    change (rebalanced (recalculated ll lb (recalculated m1 mb m2)) b r (recalculated (recalculated ll lb m1) mb (recalculated m2 b r))). solve_rebalanced.
  - change (rebalanced (recalculated ll lb lr) b r (recalculated ll lb (recalculated lr b r))). solve_rebalanced.
Qed.

Lemma rebalance_left l b a r : avl l -> avl r -> nodeHeight l - nodeHeight r = -2 -> rebalanced l b r (rebalanceNode (Node l b a r)).
Proof.
  intros Hl Hr Hd. rewrite rebalanceNode_left by lia. pose proof (cached_height l (proj1 Hl)). destruct r as [|rl rb ra rr]; [cbn in Hd; lia|].
  apply avl_Node in Hr as (Hrl & Hrr & Er & Hb). rewrite Er in *. rewrite recalculated_height in *. destruct (Z.ltb_spec (nodeHeight rr) (nodeHeight rl)).
  - destruct rl as [|m1 mb ma m2]; [pose proof (cached_height rr (proj1 Hrr)); cbn in *; lia|]. apply avl_Node in Hrl as (Hm1 & Hm2 & Em & Hbm). rewrite Em in *. rewrite recalculated_height in *.
    change (rebalanced l b (recalculated (recalculated m1 mb m2) rb rr) (recalculated (recalculated l b m1) mb (recalculated m2 rb rr))). solve_rebalanced.
  - change (rebalanced l b (recalculated rl rb rr) (recalculated (recalculated l b rl) rb rr)). solve_rebalanced.
Qed.

Lemma rebalanceNode_spec l b a r : avl l -> avl r -> -2 <= nodeHeight l - nodeHeight r <= 2 -> rebalanced l b r (rebalanceNode (Node l b a r)).
Proof.
  intros Hl Hr Hd. destruct (decide (nodeHeight l - nodeHeight r = 2)) as [?|?]; [by apply rebalance_right|]. destruct (decide (nodeHeight l - nodeHeight r = -2)) as [?|?]; [by apply rebalance_left|].
  rewrite rebalanceNode_even by lia. solve_rebalanced.
Qed.

(** *** Along the path *)

(** The blocks to the left and to the right of a path. *)
Fixpoint pathLeft (path : list frame) : list listPositionBlock :=
  match path with
  | [] => []
  | LeftOf _ _ _ :: path' => pathLeft path'
  | RightOf l b _ :: path' => pathLeft path' ++ inorder l ++ [b]
  end.

Fixpoint pathRight (path : list frame) : list listPositionBlock :=
  match path with
  | [] => []
  | LeftOf b _ r :: path' => b :: inorder r ++ pathRight path'
  | RightOf _ _ _ :: path' => pathRight path'
  end.

Definition side (f : frame) : tree := match f with LeftOf _ _ r => r | RightOf l _ _ => l end.

(** A subtree of height [hh] at the end of the path leaves the tree balanced. *)
Fixpoint path_ok (path : list frame) (hh : Z) : Prop :=
  match path with
  | [] => True
  | f :: path' => avl (side f) /\ -1 <= nodeHeight (side f) - hh <= 1 /\ path_ok path' (1 + Z.max (nodeHeight (side f)) hh)
  end.

Lemma inorder_plug path : forall t, inorder (plug path t) = pathLeft path ++ inorder t ++ pathRight path.
Proof.
  induction path as [|[b a r|l b a] path IH]; intros t; cbn [plug pathLeft pathRight plug1]; [by rewrite app_nil_r|rewrite IH; cbn [inorder]..].
  - by rewrite <- app_assoc.
  - by rewrite <- !app_assoc.
Qed.

Lemma avl_path path : forall t, avl (plug path t) -> avl t /\ path_ok path (nodeHeight t).
Proof.
  induction path as [|[b a r|l b a] path IH]; intros t; cbn [plug plug1 path_ok side]; [done|intros [(Ht & Hr & E & Hb)%avl_Node Hp]%IH..].
  - rewrite E, recalculated_height in Hp. split_and!; [done|done|lia|lia|]. by rewrite Z.max_comm.
  - rewrite E, recalculated_height in Hp. split_and!; [done|done|lia|lia|done].
Qed.

(** A new value of the height at the end of the path. *)
Definition grown (hh : Z) (t : tree) : Prop := nodeHeight t = hh \/ nodeHeight t = hh + 1.

Lemma rebalanceFrom_spec path : forall l b a r hh, avl l -> avl r -> -2 <= nodeHeight l - nodeHeight r <= 2 -> grown hh (rebalanceNode (Node l b a r)) -> path_ok path hh ->
  avl (rebalanceFrom (Node l b a r) path) /\ inorder (rebalanceFrom (Node l b a r) path) = pathLeft path ++ (inorder l ++ b :: inorder r) ++ pathRight path.
Proof.
  induction path as [|f path IH]; intros l b a r hh Hl Hr Hd Hg Hp; destruct (rebalanceNode_spec l b a r Hl Hr Hd) as (Ha & Hin & _ & _).
  { cbn [rebalanceFrom pathLeft pathRight]. by rewrite app_nil_r. }
  destruct Hp as (Hs & Hd' & Hp). cbn [rebalanceFrom]. set (t := rebalanceNode (Node l b a r)) in *. unfold grown in Hg.
  assert (Hstep : forall l' b' a' r', avl l' -> avl r' -> -2 <= nodeHeight l' - nodeHeight r' <= 2 ->
    Z.max (nodeHeight l') (nodeHeight r') <= 1 + Z.max (nodeHeight (side f)) hh -> (nodeHeight l' - nodeHeight r' = 2 \/ nodeHeight l' - nodeHeight r' = -2 -> Z.max (nodeHeight l') (nodeHeight r') = 1 + Z.max (nodeHeight (side f)) hh) ->
    (-1 <= nodeHeight l' - nodeHeight r' <= 1 -> Z.max (nodeHeight (side f)) hh <= Z.max (nodeHeight l') (nodeHeight r')) -> grown (1 + Z.max (nodeHeight (side f)) hh) (rebalanceNode (Node l' b' a' r'))).
  { intros l' b' a' r' Hl' Hr' ??? ?. destruct (rebalanceNode_spec l' b' a' r' Hl' Hr') as (_ & _ & ? & ?); [lia|]. unfold grown. lia. }
  destruct f as [fb fa fr|fl fb fa]; cbn [plug1 side] in *.
  - destruct (IH t fb fa fr (1 + Z.max (nodeHeight fr) hh)) as [? Eq]; [done|done|lia|apply Hstep; (done || lia)|done|]. split; [done|]. rewrite Eq, Hin. cbn [pathLeft pathRight]. app_norm.
  - destruct (IH fl fb fa t (1 + Z.max (nodeHeight fl) hh)) as [? Eq]; [done|done|lia|apply Hstep; (done || lia)|done|]. split; [done|]. rewrite Eq, Hin. cbn [pathLeft pathRight]. app_norm.
Qed.

(** *** Inserting a node *)
Lemma single_avl b : avl (singleNode b).
Proof. split; cbn; [|lia]. split_and!; [done..|]. unfold singleNode, recalculated. cbn. by rewrite !Z.add_0_r. Qed.

Lemma insertLeftmost_spec ins t : forall path, t <> Nil -> avl t -> path_ok path (nodeHeight t) ->
  avl (insertLeftmost (singleNode ins) t path) /\ inorder (insertLeftmost (singleNode ins) t path) = pathLeft path ++ (ins :: inorder t) ++ pathRight path.
Proof.
  induction t as [|l IHl b a r _]; intros path Hn Ht Hp; [done|]. pose proof Ht as (Hl & Hr & E & Hb)%avl_Node. rewrite E, recalculated_height in Hp. destruct l as [|ll lb la lr].
  - pose proof (cached_height r (proj1 Hr)). cbn [insertLeftmost]. assert (E1 : nodeHeight (singleNode ins) = 1) by done. assert (E0 : nodeHeight Nil = 0) by done.
    destruct (rebalanceFrom_spec path (singleNode ins) b a r (1 + Z.max (nodeHeight Nil) (nodeHeight r))) as [? Eq]; [apply single_avl|done|lia| |done|done].
    destruct (rebalanceNode_spec (singleNode ins) b a r) as (_ & _ & ? & ?); [apply single_avl|done|lia|]. unfold grown. lia.
  - set (l := Node ll lb la lr) in *. change (insertLeftmost (singleNode ins) (Node l b a r) path) with (insertLeftmost (singleNode ins) l (LeftOf b a r :: path)).
    destruct (IHl (LeftOf b a r :: path)) as [? Eq]; [done|done|cbn [path_ok side]|].
    { rewrite Z.max_comm in Hp. split; [done|split; [lia|done]]. }
    split; [done|]. rewrite Eq. cbn [pathLeft pathRight inorder]. app_norm.
Qed.

Lemma insertNodeAfter_spec l b a r path ins : avl l -> avl r -> -1 <= nodeHeight l - nodeHeight r <= 1 -> path_ok path (1 + Z.max (nodeHeight l) (nodeHeight r)) ->
  avl (insertNodeAfter (Node l b a r) path ins) /\ inorder (insertNodeAfter (Node l b a r) path ins) = pathLeft path ++ (inorder l ++ b :: ins :: inorder r) ++ pathRight path.
Proof.
  intros Hl Hr Hb Hp. destruct r as [|rl rb ra rr]; cbn [insertNodeAfter].
  - pose proof (cached_height l (proj1 Hl)). assert (E1 : nodeHeight (singleNode ins) = 1) by done. assert (E0 : nodeHeight Nil = 0) by done.
    apply (rebalanceFrom_spec path l b a (singleNode ins) (1 + Z.max (nodeHeight l) (nodeHeight Nil))); [done|apply single_avl|lia| |done].
    destruct (rebalanceNode_spec l b a (singleNode ins)) as (_ & _ & ? & ?); [done|apply single_avl|lia|]. unfold grown. lia.
  - destruct (insertLeftmost_spec ins (Node rl rb ra rr) (RightOf l b a :: path)) as [? Eq]; [done|done|cbn [path_ok side]; split; [done|split; [lia|done]]|]. split; [done|]. rewrite Eq. cbn [pathLeft pathRight]. app_norm.
Qed.

Lemma locate_plug id t : forall path t' path', locate id t path = Some (t', path') ->
  plug path' t' = plug path t /\ exists l b a r, t' = Node l b a r /\ b_id b = id.
Proof.
  induction t as [|l IHl b a r IHr]; intros path t' path'; cbn [locate]; [done|]. destruct (decide _) as [E|_].
  - intros [= <- <-]. split; [done|]. by exists l, b, a, r.
  - destruct (locate id l _) as [z|] eqn:El; [intros [= ->]|intros Er]; [apply (IHl _ _ _ El)|apply (IHr _ _ _ Er)].
Qed.

Lemma locate_found id t : forall path, id ∈ b_id <$> inorder t -> is_Some (locate id t path).
Proof.
  induction t as [|l IHl b a r IHr]; intros path; cbn [locate inorder]; [by intros ?%not_elem_of_nil|]. destruct (decide _) as [E|Hn]; [by eexists|].
  rewrite fmap_app, fmap_cons, elem_of_app, elem_of_cons. intros [Hl|[->|Hr]]; [|done|].
  - destruct (IHl (LeftOf b a r :: path) Hl) as [z ->]. by eexists.
  - destruct (locate id l _) as [z|]; [by eexists|]. by apply IHr.
Qed.

(** The node of a block, with what [rebalanceFrom] and [refreshFrom] need of its path. *)
Lemma locate_block root bs1 b bs2 : avl root -> inorder root = bs1 ++ b :: bs2 -> NoDup (b_id <$> inorder root) ->
  exists l a r path, locate (b_id b) root [] = Some (Node l b a r, path) /\ avl l /\ avl r /\ -1 <= nodeHeight l - nodeHeight r <= 1 /\
    path_ok path (1 + Z.max (nodeHeight l) (nodeHeight r)) /\ pathLeft path ++ inorder l = bs1 /\ inorder r ++ pathRight path = bs2.
Proof.
  intros Ha Hin Hnd. destruct (locate_found (b_id b) root []) as [[t' path] E].
  { rewrite Hin, fmap_app, fmap_cons. apply elem_of_app. right. by left. }
  destruct (locate_plug _ _ _ _ _ E) as (Hplug & l & b' & a & r & -> & Hid). cbn [plug] in Hplug. rewrite <- Hplug in Ha. destruct (avl_path _ _ Ha) as [(Hl & Hr & Er & Hb)%avl_Node Hp].
  rewrite Er, recalculated_height in Hp. rewrite <- Hplug, inorder_plug in Hin. cbn [inorder] in Hin.
  assert (Hin' : (pathLeft path ++ inorder l) ++ b' :: (inorder r ++ pathRight path) = bs1 ++ b :: bs2) by (rewrite <- Hin; app_norm).
  assert (Hroot : inorder root = bs1 ++ b :: bs2) by (rewrite <- Hplug, inorder_plug; cbn [inorder]; exact Hin).
  rewrite Hroot in Hnd. assert (E1 : pathLeft path ++ inorder l = bs1).
  { set (pl := pathLeft path ++ inorder l) in *. set (pr := inorder r ++ pathRight path) in *. clear -Hin' Hnd Hid.
    assert (Hl : length pl = length bs1).
    { assert (E1 : (b_id <$> bs1 ++ b :: bs2) !! length bs1 = Some (b_id b)) by (rewrite list_lookup_fmap, list_lookup_middle by done; done).
      assert (E2 : (b_id <$> bs1 ++ b :: bs2) !! length pl = Some (b_id b)) by (rewrite <- Hin', list_lookup_fmap, list_lookup_middle by done; cbn; by rewrite Hid).
      exact (NoDup_lookup _ _ _ _ Hnd E2 E1). }
    apply (f_equal (take (length pl))) in Hin'. rewrite take_app_length in Hin'. rewrite Hl, take_app_length in Hin'. done. }
  rewrite E1 in Hin'. apply app_inv_head in Hin' as [= -> E2]. by exists l, a, r, path.
Qed.

(** *** Refreshing

    [renew] recalculates a whole tree. After assignments to the nodes [S], the
    nodes with one of them below hold stale fields ([cachedOff]); a refresh from
    each of the assigned nodes in turn comes to the same as [renew]. *)
Fixpoint renew (t : tree) : tree :=
  match t with Nil => Nil | Node l b _ r => recalculated (renew l) b (renew r) end.

Definition ids (t : tree) : list nat := b_id <$> inorder t.

Fixpoint cachedOff (S : gset nat) (t : tree) : Prop :=
  match t with
  | Nil => True
  | Node l b a r => cachedOff S l /\ cachedOff S r /\ ((forall i, i ∈ ids t -> i ∉ S) -> t = recalculated l b r)
  end.

Lemma cached_renew t : cached t -> renew t = t.
Proof. induction t as [|l IHl b a r IHr]; [done|]. intros (Hl & Hr & E). cbn [renew]. by rewrite IHl, IHr. Qed.

Lemma ids_node l b a r : ids (Node l b a r) = ids l ++ b_id b :: ids r.
Proof. unfold ids. cbn [inorder]. by rewrite fmap_app, fmap_cons. Qed.

Lemma cachedOff_mono S S' t : (forall i, i ∈ ids t -> i ∉ S -> i ∉ S') -> cachedOff S' t -> cachedOff S t.
Proof.
  induction t as [|l IHl b a r IHr]; [done|]. rewrite ids_node. intros HS (Hl & Hr & E). cbn [cachedOff]. split_and!; [apply IHl; [set_solver|done]|apply IHr; [set_solver|done]|].
  intros Hno. apply E. rewrite ids_node in *. intros i Hi. apply HS; [done|by apply Hno].
Qed.

Lemma cachedOff_cached t : cachedOff ∅ t -> cached t.
Proof. induction t as [|l IHl b a r IHr]; [done|]. intros (Hl & Hr & E). split_and!; [auto..|]. apply E. intros i _. apply not_elem_of_empty. Qed.

Lemma cached_cachedOff t : cached t -> cachedOff ∅ t.
Proof. induction t as [|l IHl b a r IHr]; [done|]. intros (Hl & Hr & E). cbn [cachedOff]. split_and!; auto. Qed.

Definition assign (id : nat) (f : listPositionBlock -> listPositionBlock) (b : listPositionBlock) : listPositionBlock := if decide (b_id b = id) then f b else b.

Lemma inorder_updateNode id f t : inorder (updateNode id f t) = assign id f <$> inorder t.
Proof. induction t as [|l IHl b a r IHr]; [done|]. cbn [updateNode inorder]. by rewrite IHl, IHr, fmap_app, fmap_cons. Qed.

Lemma ids_updateNode id f t : (forall b, b_id (f b) = b_id b) -> ids (updateNode id f t) = ids t.
Proof.
  intros Hf. unfold ids. rewrite inorder_updateNode, <- list_fmap_compose. apply list_fmap_ext. intros _ b _. cbn. unfold assign. case_decide; [apply Hf|done].
Qed.

Lemma updateNode_off id f S t : (forall b, b_id (f b) = b_id b) -> cachedOff S t -> cachedOff ({[id]} ∪ S) (updateNode id f t).
Proof.
  intros Hf. induction t as [|l IHl b a r IHr]; [done|]. intros (Hl & Hr & E). cbn [updateNode cachedOff]. split_and!; [auto..|]. intros Hno.
  assert (Hids : ids (Node (updateNode id f l) (if decide (b_id b = id) then f b else b) a (updateNode id f r)) = ids (Node l b a r)) by apply (ids_updateNode id f (Node l b a r) Hf).
  rewrite Hids in Hno. assert (Hsame : forall t', (forall i, i ∈ ids t' -> i ∉ ({[id]} ∪ S)) -> updateNode id f t' = t').
  { clear. induction t' as [|l IHl b a r IHr]; [done|]. rewrite ids_node. intros Hn. cbn [updateNode]. rewrite IHl, IHr; [rewrite decide_False; [done|]|..]; [intros Eb; apply (Hn (b_id b))|intros i Hi; apply Hn..]; clear IHl IHr Hn; set_solver. }
  change (Node (updateNode id f l) (if decide (b_id b = id) then f b else b) a (updateNode id f r)) with (updateNode id f (Node l b a r)). rewrite Hsame by done.
  rewrite ids_node in Hno. assert (b_id b <> id) by (intros Eb; apply (Hno (b_id b)); clear -Eb; set_solver).
  assert (Hno' : forall i, i ∈ ids l \/ i ∈ ids r \/ i = b_id b -> i ∉ ({[id]} ∪ S)) by (intros i Hi; apply Hno; clear -Hi; set_solver).
  rewrite (Hsame l), (Hsame r), decide_False by auto. apply E. rewrite ids_node. intros i Hi Hs. apply (Hno i Hi). by apply elem_of_union_r.
Qed.

Lemma renew_refresh path : forall t, renew (refreshFrom t path) = renew (plug path t).
Proof.
  assert (Hrec : forall t, renew (recalculate t) = renew t) by (intros t; by destruct t). assert (Hplug : forall path t t', renew t = renew t' -> renew (plug path t) = renew (plug path t')).
  { clear. induction path as [|[b a r|l b a] path IH]; intros t t' E; cbn [plug plug1]; [done|apply IH; cbn [renew]; by rewrite E..]. }
  induction path as [|f path IH]; intros t; cbn [refreshFrom plug]; [apply Hrec|]. rewrite IH. apply Hplug. destruct f; cbn [plug1 renew]; by rewrite Hrec.
Qed.

Fixpoint pathOff (S : gset nat) (path : list frame) : Prop :=
  match path with [] => True | f :: path' => cachedOff S (side f) /\ pathOff S path' end.

Lemma refresh_off S path : forall t, match t with Nil => True | Node l _ _ r => cachedOff S l /\ cachedOff S r end -> pathOff S path -> cachedOff S (refreshFrom t path).
Proof.
  assert (Hrec : forall t, match t with Nil => True | Node l _ _ r => cachedOff S l /\ cachedOff S r end -> cachedOff S (recalculate t)) by (intros [|l b a r]; [done|]; intros [??]; by split_and!).
  induction path as [|f path IH]; intros t Ht Hp; cbn [refreshFrom]; [by apply Hrec|]. destruct Hp as [Hs Hp]. apply IH; [|done]. destruct f; cbn [plug1 side] in *; split; auto.
Qed.
Lemma cachedOff_plug S path : forall t, cachedOff S (plug path t) -> cachedOff S t /\ pathOff S path.
Proof. induction path as [|[b a r|l b a] path IH]; intros t; cbn [plug plug1 pathOff side]; [done|intros [(? & ? & _) ?]%IH..]; done. Qed.

Lemma side_ids path : Forall (fun f => forall i, i ∈ ids (side f) -> i ∈ b_id <$> pathLeft path ++ pathRight path) path.
Proof.
  induction path as [|f path IH]; constructor.
  - intros i Hi. rewrite fmap_app. destruct f as [b a r|l b a]; cbn [side pathLeft pathRight] in *; rewrite ?fmap_cons, ?fmap_app; unfold ids in Hi; set_solver.
  - eapply list.Forall_impl; [exact IH|]. cbn. intros g Hg i Hi. specialize (Hg i Hi). rewrite fmap_app in *. destruct f as [b a r|l b a]; cbn [pathLeft pathRight]; rewrite ?fmap_cons, ?fmap_app; set_solver.
Qed.

Lemma pathOff_mono S S' path : Forall (fun f => forall i, i ∈ ids (side f) -> i ∉ S -> i ∉ S') path -> pathOff S' path -> pathOff S path.
Proof. induction 1 as [|f path Hf _ IH]; [done|]. intros [Hs Hp]. split; [by eapply cachedOff_mono|auto]. Qed.

Lemma inorder_renew t : inorder (renew t) = inorder t.
Proof. induction t as [|l IHl b a r IHr]; [done|]. cbn [renew]. by rewrite inorder_recalculated, IHl, IHr. Qed.

Lemma refreshAt_spec id S t : NoDup (ids t) -> cachedOff ({[id]} ∪ S) t -> id ∈ ids t ->
  cachedOff S (refreshAt id t) /\ renew (refreshAt id t) = renew t.
Proof.
  intros Hnd Hc Hid. unfold refreshAt. destruct (locate_found id t [] Hid) as [[t' path] E]. rewrite E. destruct (locate_plug _ _ _ _ _ E) as (Hplug & l & b & a & r & -> & Hb).
  cbn [plug] in Hplug. rewrite <- Hplug in Hc. apply cachedOff_plug in Hc as [(Hl & Hr & _) Hp]. split; [|by rewrite renew_refresh, Hplug].
  unfold ids in Hnd. rewrite <- Hplug, inorder_plug in Hnd. cbn [inorder] in Hnd. rewrite !fmap_app, fmap_cons, Hb in Hnd. rewrite !list.NoDup_app, list.NoDup_cons in Hnd.
  destruct Hnd as (_ & H1 & (_ & H2 & [H3 _]) & H4 & _). assert (Hno : forall i, i <> id -> i ∉ S -> i ∉ {[id]} ∪ S) by set_solver.
  apply refresh_off; [split|].
  - eapply cachedOff_mono; [|exact Hl]. intros i Hi. apply Hno. intros ->. apply (H2 id Hi). by left.
  - eapply cachedOff_mono; [|exact Hr]. intros i Hi. apply Hno. intros ->. by apply H3.
  - eapply pathOff_mono; [|exact Hp]. eapply list.Forall_impl; [apply side_ids|]. cbn. intros f Hf i Hi. apply Hno. intros ->. specialize (Hf id Hi). rewrite fmap_app, elem_of_app in Hf.
    destruct Hf as [Hf|Hf]; [apply (H1 id Hf); set_solver|apply (H4 id); [set_solver|done]].
Qed.

Lemma renew_update_height id f t : cached t -> nodeHeight (renew (updateNode id f t)) = nodeHeight t.
Proof.
  induction t as [|l IHl b a r IHr]; [done|]. intros (Hl & Hr & E). rewrite E at 2. cbn [updateNode renew]. rewrite !recalculated_height, IHl, IHr by done. done.
Qed.

Lemma renew_update_avl id f t : avl t -> avl (renew (updateNode id f t)).
Proof.
  induction t as [|l IHl b a r IHr]; [done|]. intros (Hl & Hr & E & Hb)%avl_Node. cbn [updateNode renew]. apply recalculated_avl; [auto..|]. by rewrite !renew_update_height by (apply Hl || apply Hr).
Qed.

Lemma update_renew id f t : renew (updateNode id f (renew t)) = renew (updateNode id f t).
Proof. induction t as [|l IHl b a r IHr]; [done|]. cbn [renew updateNode recalculated]. by rewrite IHl, IHr. Qed.

(** Assignments to a node, and the refresh. *)
Lemma update_refresh id f t : avl t -> NoDup (ids t) -> (forall b, b_id (f b) = b_id b) -> id ∈ ids t ->
  let t' := refreshAt id (updateNode id f t) in avl t' /\ inorder t' = assign id f <$> inorder t.
Proof.
  intros Ha Hnd Hf Hid. destruct (refreshAt_spec id ∅ (updateNode id f t)) as [Hc Er]; [by rewrite ids_updateNode|apply updateNode_off; [done|by apply cached_cachedOff, Ha]|by rewrite ids_updateNode|].
  apply cachedOff_cached, cached_renew in Hc. cbn zeta. rewrite <- Hc, Er. split; [by apply renew_update_avl|]. by rewrite inorder_renew, inorder_updateNode.
Qed.

(** Assignments to two nodes, and the refreshes. *)
Lemma update2_refresh id1 f1 id2 f2 t : avl t -> NoDup (ids t) -> (forall b, b_id (f1 b) = b_id b) -> (forall b, b_id (f2 b) = b_id b) -> id1 ∈ ids t -> id2 ∈ ids t ->
  let t' := refreshAt id2 (refreshAt id1 (updateNode id2 f2 (updateNode id1 f1 t))) in avl t' /\ inorder t' = assign id2 f2 <$> (assign id1 f1 <$> inorder t).
Proof.
  intros Ha Hnd Hf1 Hf2 Hid1 Hid2. set (u := updateNode id2 f2 (updateNode id1 f1 t)). assert (Hids : ids u = ids t) by (unfold u; by rewrite !ids_updateNode).
  destruct (refreshAt_spec id1 {[id2]} u) as [Hc1 Er1]; [by rewrite Hids| |by rewrite Hids|].
  { rewrite (union_comm_L {[id1]}). apply updateNode_off; [done|]. rewrite <- (union_empty_r_L {[id1]}). apply updateNode_off; [done|by apply cached_cachedOff, Ha]. }
  assert (Hids1 : ids (refreshAt id1 u) = ids t) by (unfold ids; rewrite <- inorder_renew, Er1, inorder_renew; exact Hids).
  destruct (refreshAt_spec id2 ∅ (refreshAt id1 u)) as [Hc2 Er2]; [by rewrite Hids1|by rewrite union_empty_r_L|by rewrite Hids1|].
  apply cachedOff_cached, cached_renew in Hc2. cbn zeta. fold u. rewrite <- Hc2, Er2, Er1. split; [|unfold u; by rewrite inorder_renew, !inorder_updateNode].
  unfold u. rewrite <- update_renew. apply renew_update_avl, renew_update_avl, Ha.
Qed.

(** *** A balanced tree from the blocks *)
Definition bits (n : nat) : nat := match n with O => O | _ => S (Nat.log2 n) end.

Lemma bits_half n : (0 < n)%nat -> bits n = S (bits (Nat.div2 n)).
Proof.
  intros Hn. pose proof (Nat.div2_odd n) as E. destruct (Nat.div2 n) as [|m] eqn:Em.
  - destruct (Nat.odd n); cbn in E; [by subst|lia].
  - destruct n as [|n']; [lia|]. unfold bits. f_equal. rewrite E. destruct (Nat.odd (S n')); cbn [Nat.b2n]; [rewrite Nat.add_1_r, <- Nat.add_1_r, Nat.log2_succ_double by lia; done|].
    rewrite Nat.add_0_r, Nat.log2_double by lia. done.
Qed.

Lemma bits_step n : (bits n <= bits (S n) <= S (bits n))%nat.
Proof. destruct n as [|n]; cbn [bits]; [cbn; lia|]. destruct (Nat.log2_succ_or (S n)) as [->| ->]; lia. Qed.

Lemma build_spec fuel : forall nodes, (length nodes <= fuel)%nat ->
  let t := buildBalancedListPositionNodes fuel nodes in avl t /\ inorder t = nodes /\ nodeHeight t = Z.of_nat (bits (length nodes)).
Proof.
  induction fuel as [|fuel IH]; intros nodes Hf; cbn [buildBalancedListPositionNodes]; [by destruct nodes; [|cbn in Hf; lia]|].
  destruct nodes as [|b0 nodes0] eqn:En; [done|]. rewrite <- En in *. set (n := length nodes) in *. assert (Hn : (0 < n)%nat) by (unfold n; rewrite En; cbn; lia). clear En b0 nodes0.
  pose proof (Nat.div2_odd n) as Hodd. pose proof (take_drop (Nat.div2 n) nodes) as Etd. assert (Hlt : (Nat.div2 n < n)%nat) by (apply Nat.lt_div2; lia).
  destruct (drop (Nat.div2 n) nodes) as [|b rest] eqn:Ed; [apply (f_equal length) in Ed; rewrite length_drop in Ed; cbn in Ed; lia|].
  assert (Hr : length rest = (n - 1 - Nat.div2 n)%nat) by (apply (f_equal length) in Ed; rewrite length_drop in Ed; cbn in Ed; lia).
  assert (Hl : length (take (Nat.div2 n) nodes) = Nat.div2 n) by (rewrite length_take; lia).
  destruct (IH (take (Nat.div2 n) nodes)) as (Ha1 & Hi1 & Hh1); [lia|]. destruct (IH rest) as (Ha2 & Hi2 & Hh2); [lia|]. rewrite Hl in Hh1. rewrite Hr in Hh2.
  assert (Hmid : bits (n - 1 - Nat.div2 n) = bits (Nat.div2 n) \/ S (bits (n - 1 - Nat.div2 n)) = bits (Nat.div2 n)).
  { destruct (Nat.odd n); cbn in Hodd; [left; f_equal; lia|]. pose proof (bits_step (n - 1 - Nat.div2 n)) as Hs. replace (S (n - 1 - Nat.div2 n)) with (Nat.div2 n) in Hs by lia. lia. }
  cbn zeta. rewrite inorder_recalculated, recalculated_height, Hi1, Hi2, Etd, Hh1, Hh2, (bits_half n Hn). split; [|split; [done|lia]].
  apply recalculated_avl; [done..|]. rewrite Hh1, Hh2. lia.
Qed.

(** *** Finding a position *)
Definition sizes_ok (bs : list listPositionBlock) : Prop := Forall (fun b => 0 <= b_visible b /\ 0 <= b_liveFormats b) bs.

Lemma sizes_ok_app bs bs' : sizes_ok (bs ++ bs') <-> sizes_ok bs /\ sizes_ok bs'.
Proof. apply list.Forall_app. Qed.

Lemma sizes_ok_node l b a r : sizes_ok (inorder (Node l b a r)) -> sizes_ok (inorder l) /\ (0 <= b_visible b /\ 0 <= b_liveFormats b) /\ sizes_ok (inorder r).
Proof. cbn [inorder]. rewrite sizes_ok_app. intros [? ?%list.Forall_cons]. tauto. Qed.

Lemma total_visible_nonneg bs : sizes_ok bs -> 0 <= total b_visible bs.
Proof. induction 1 as [|b bs [? _] _ IH]; [done|]. rewrite total_block_cons. lia. Qed.

Lemma total_formats_nonneg bs : sizes_ok bs -> 0 <= total b_liveFormats bs.
Proof. induction 1 as [|b bs [_ ?] _ IH]; [done|]. rewrite total_block_cons. lia. Qed.

(** The block of the answer, with its exact visible start. *)
Definition located (bs : list listPositionBlock) (base : Z) (first : option nat) (start : Z) (P : Z -> listPositionBlock -> list listPositionBlock -> Prop) : Prop :=
  exists pre b post, bs = pre ++ b :: post /\ first = b_first b /\ start = base + total b_visible pre /\ 0 < b_visible b /\ P start b post.

Lemma located_left l b r base first start (P Q : Z -> listPositionBlock -> list listPositionBlock -> Prop) :
  (forall s b' post, P s b' post -> Q s b' (post ++ b :: r)) -> located l base first start P -> located (l ++ b :: r) base first start Q.
Proof. intros HPQ (pre & b' & post & -> & ? & ? & ? & ?). exists pre, b', (post ++ b :: r). split_and!; [app_norm|auto..]. Qed.

Lemma located_right l b r base first start (P : Z -> listPositionBlock -> list listPositionBlock -> Prop) :
  located r (base + total b_visible l + b_visible b) first start P -> located (l ++ b :: r) base first start P.
Proof.
  intros (pre & b' & post & -> & ? & -> & ? & ?). exists (l ++ b :: pre), b', post. split_and!; [app_norm|done| |done|done]. rewrite total_block_app, total_block_cons. lia.
Qed.

Lemma located_here l b r base (P : Z -> listPositionBlock -> list listPositionBlock -> Prop) :
  0 < b_visible b -> P (base + total b_visible l) b r -> located (l ++ b :: r) base (b_first b) (base + total b_visible l) P.
Proof. intros ??. exists l, b, r. by split_and!. Qed.

Lemma findEnd_spec t : forall base, cached t -> sizes_ok (inorder t) -> 0 < total b_visible (inorder t) ->
  exists first start, findEnd t base = Some (first, start) /\ located (inorder t) base first start (fun _ _ post => total b_visible post = 0).
Proof.
  induction t as [|l IHl b a r IHr]; intros base Hc Hs Ht; [cbn in Ht; lia|]. destruct Hc as (Hl & Hr & _). apply sizes_ok_node in Hs as (Hsl & [Hb _] & Hsr).
  destruct (cached_totals l Hl) as (_ & El & _), (cached_totals r Hr) as (_ & Er & _). pose proof (total_visible_nonneg _ Hsr). cbn [findEnd inorder] in *. rewrite total_block_app, total_block_cons in Ht. rewrite El, Er.
  destruct (Z.ltb_spec 0 (total b_visible (inorder r))).
  - destruct (IHr (base + total b_visible (inorder l) + b_visible b)) as (first & start & -> & Hloc); [done..|]. exists first, start. split; [done|by apply located_right].
  - destruct (Z.ltb_spec 0 (b_visible b)).
    + eexists _, _. split; [done|]. apply located_here; [done|lia].
    + destruct (IHl base) as (first & start & -> & Hloc); [done|done|lia|]. exists first, start. split; [done|]. eapply located_left; [|done]. cbn beta. intros _ b' post E. rewrite total_block_app, total_block_cons. lia.
Qed.

Lemma findInside_spec t : forall target base fallback, cached t -> sizes_ok (inorder t) -> base <= target < base + total b_visible (inorder t) ->
  exists first start, findInside t target base fallback = Some (first, start) /\ located (inorder t) base first start (fun s b _ => s <= target < s + b_visible b).
Proof.
  induction t as [|l IHl b a r IHr]; intros target base fallback Hc Hs Ht; [cbn in Ht; lia|]. destruct Hc as (Hl & Hr & _). apply sizes_ok_node in Hs as (Hsl & [Hb _] & Hsr).
  destruct (cached_totals l Hl) as (_ & El & _), (cached_totals r Hr) as (_ & Er & _). pose proof (total_visible_nonneg _ Hsr). cbn [findInside inorder] in *. rewrite total_block_app, total_block_cons in Ht. rewrite El, Er.
  destruct (Z.ltb_spec target (base + total b_visible (inorder l))).
  { destruct (IHl target base fallback) as (first & start & -> & Hloc); [done|done|lia|]. exists first, start. split; [done|]. by eapply located_left; [|done]. }
  destruct (Z.ltb_spec 0 (b_visible b)); cbn [andb]; [destruct (Z.ltb_spec target (base + total b_visible (inorder l) + b_visible b))|].
  { eexists _, _. split; [done|]. apply located_here; [done|lia]. }
  all: destruct (Z.eqb_spec (total b_visible (inorder r)) 0); [lia|].
  all: destruct (IHr target (base + total b_visible (inorder l) + b_visible b) (if 0 <? b_visible b then Some (b_first b, base + total b_visible (inorder l)) else fallback)) as (first & start & E & Hloc); [done|done|lia|].
  all: destruct (Z.ltb_spec 0 (b_visible b)); try lia.
  all: exists first, start; (split; [exact E|by apply located_right]).
Qed.

Lemma findEnd_none t : forall base, cached t -> sizes_ok (inorder t) -> total b_visible (inorder t) = 0 -> findEnd t base = None.
Proof.
  induction t as [|l IHl b a r IHr]; intros base Hc Hs Ht; [done|]. destruct Hc as (Hl & Hr & _). apply sizes_ok_node in Hs as (Hsl & [Hb _] & Hsr). cbn [inorder] in Ht. rewrite total_block_app, total_block_cons in Ht.
  pose proof (total_visible_nonneg _ Hsl). pose proof (total_visible_nonneg _ Hsr). cbn [findEnd]. destruct (cached_totals r Hr) as (_ & -> & _).
  destruct (Z.ltb_spec 0 (total b_visible (inorder r))); [lia|]. destruct (Z.ltb_spec 0 (b_visible b)); [lia|]. apply IHl; [done|done|lia].
Qed.

(** The answer of [findPosition] covers [target]; the visible end belongs to the last
    block with visible content. *)
Definition covers_target (target : Z) (s : Z) (b : listPositionBlock) (post : list listPositionBlock) : Prop :=
  s <= target < s + b_visible b \/ target = s + b_visible b /\ total b_visible post = 0.

Lemma findPosition_spec root target : cached root -> sizes_ok (inorder root) -> 0 <= target <= total b_visible (inorder root) -> 0 < total b_visible (inorder root) ->
  exists first start, findPosition root target = Some (first, start) /\ located (inorder root) 0 first start (covers_target target).
Proof.
  intros Hc Hs Ht Hp. destruct (cached_totals root Hc) as (_ & Ev & _). unfold findPosition. destruct root as [|l b a r]; [cbn in Hp; lia|]. set (root := Node l b a r) in *. rewrite Ev.
  destruct (Z.ltb_spec target 0), (Z.ltb_spec (total b_visible (inorder root)) target); [lia..|]. cbn [orb]. destruct (Z.eqb_spec target (total b_visible (inorder root))) as [E|].
  - destruct (findEnd_spec root 0 Hc Hs Hp) as (first & start & -> & (pre & b' & post & E1 & ? & ? & ? & E2)). exists first, start. split; [done|]. exists pre, b', post. split_and!; [done..|].
    right. rewrite E1, total_block_app, total_block_cons in E. lia.
  - destruct (findInside_spec root target 0 None Hc Hs ltac:(lia)) as (first & start & -> & (pre & b' & post & ? & ? & ? & ? & ?)). exists first, start. split; [done|]. exists pre, b', post. by split_and!; [..|left].
Qed.

Lemma findPosition_out root target : cached root -> target < 0 \/ total b_visible (inorder root) < target -> findPosition root target = None.
Proof.
  intros Hc Ht. destruct (cached_totals root Hc) as (_ & Ev & _). unfold findPosition. destruct root as [|l b a r]; [done|]. rewrite Ev.
  destruct (Z.ltb_spec target 0); [done|]. destruct (Z.ltb_spec (total b_visible (inorder (Node l b a r))) target); [done|lia].
Qed.

(** *** Formats before a position *)
Section FormattedTheory.
Context {A : Type} (apply : listPositionBlock -> A -> A).
Context (apply_none : forall b x, b_liveFormats b = 0 -> apply b x = x).

Definition applyBlocks (bs : list listPositionBlock) (x : A) : A := foldl (fun x b => apply b x) x bs.

Lemma applyBlocks_none bs x : sizes_ok bs -> total b_liveFormats bs = 0 -> applyBlocks bs x = x.
Proof.
  intros Hs. revert x. induction Hs as [|b bs [_ Hb] Hs IH]; intros x Ht; [done|]. rewrite total_block_cons in Ht. pose proof (total_formats_nonneg bs Hs).
  unfold applyBlocks. cbn [foldl]. rewrite apply_none by lia. apply IH. lia.
Qed.

Lemma applySubtree_spec t : forall x, cached t -> sizes_ok (inorder t) -> applyLiveFormatsInSubtree apply t x = applyBlocks (inorder t) x.
Proof.
  induction t as [|l IHl b a r IHr]; intros x Hc Hs; [done|]. pose proof (cached_totals _ Hc) as (_ & _ & Ef). destruct Hc as (Hl & Hr & _). cbn [applyLiveFormatsInSubtree].
  change (subtreeLiveFormats a) with (nodeFormats (Node l b a r)). rewrite Ef. destruct (Z.eqb_spec (total b_liveFormats (inorder (Node l b a r))) 0) as [E|_]; [by rewrite applyBlocks_none|].
  apply sizes_ok_node in Hs as (Hsl & _ & Hsr). rewrite IHr, IHl by done. cbn [inorder]. unfold applyBlocks. by rewrite foldl_app.
Qed.

Lemma formattedLoop_spec t : forall coordinate base x, cached t -> sizes_ok (inorder t) -> base <= coordinate < base + total b_visible (inorder t) ->
  exists pre b post, inorder t = pre ++ b :: post /\ formattedLoop apply t coordinate base x = (Some (b_first b, base + total b_visible pre), applyBlocks pre x) /\
    0 < b_visible b /\ base + total b_visible pre <= coordinate < base + total b_visible pre + b_visible b.
Proof.
  induction t as [|l IHl b a r IHr]; intros coordinate base x Hc Hs Ht; [cbn in Ht; lia|]. destruct Hc as (Hl & Hr & _). apply sizes_ok_node in Hs as (Hsl & [Hb _] & Hsr).
  destruct (cached_totals l Hl) as (_ & El & _). cbn [formattedLoop inorder] in *. rewrite total_block_app, total_block_cons in Ht. rewrite El, applySubtree_spec by done.
  destruct (Z.ltb_spec coordinate (base + total b_visible (inorder l))).
  { destruct (IHl coordinate base x) as (pre & b' & post & E & -> & ? & ?); [done|done|lia|]. exists pre, b', (post ++ b :: inorder r). rewrite E. split_and!; [app_norm|done|lia|lia|lia]. }
  destruct (Z.ltb_spec 0 (b_visible b)); cbn [andb]; [destruct (Z.ltb_spec coordinate (base + total b_visible (inorder l) + b_visible b))|].
  { exists (inorder l), b, (inorder r). split_and!; [done|done|lia|lia|lia]. }
  all: destruct (IHr coordinate (base + total b_visible (inorder l) + b_visible b) (apply b (applyBlocks (inorder l) x))) as (pre & b' & post & E & -> & ? & ?); [done|done|lia|].
  all: exists (inorder l ++ b :: pre), b', post; rewrite E; unfold applyBlocks; rewrite foldl_app, total_block_app, total_block_cons; cbn [foldl].
  all: split_and!; [app_norm|do 3 f_equal; lia|lia|lia|lia].
Qed.

(** As [findPosition_spec], with the formats of all blocks before the answer applied
    in order. *)
Lemma findFormattedPosition_spec root target x : cached root -> sizes_ok (inorder root) -> 0 <= target <= total b_visible (inorder root) -> 0 < total b_visible (inorder root) ->
  exists pre b post, inorder root = pre ++ b :: post /\ findFormattedPosition apply root target x = (Some (b_first b, total b_visible pre), applyBlocks pre x) /\
    0 < b_visible b /\ covers_target target (total b_visible pre) b post.
Proof.
  intros Hc Hs Ht Hp. destruct (cached_totals root Hc) as (_ & Ev & _). unfold findFormattedPosition. destruct root as [|l b a r]; [cbn in Hp; lia|]. set (root := Node l b a r) in *. rewrite Ev.
  destruct (Z.ltb_spec target 0), (Z.ltb_spec (total b_visible (inorder root)) target), (Z.eqb_spec (total b_visible (inorder root)) 0); [lia..|]. cbn [orb].
  destruct (formattedLoop_spec root (if target =? total b_visible (inorder root) then target - 1 else target) 0 x Hc Hs) as (pre & b' & post & E & Er & ? & Hcov).
  { destruct (Z.eqb_spec target (total b_visible (inorder root))); lia. }
  exists pre, b', post. split_and!; [done|done|done|]. unfold covers_target. destruct (Z.eqb_spec target (total b_visible (inorder root))) as [E'|]; [|left; lia].
  rewrite E, total_block_app, total_block_cons in E'. assert (Hpost : sizes_ok post) by (rewrite E in Hs; apply sizes_ok_app in Hs as [_ [_ Hs]%list.Forall_cons]; done).
  pose proof (total_visible_nonneg post Hpost). right. lia.
Qed.
End FormattedTheory.

(** *** Heights *)
Lemma avl_size t : avl t -> 2 ^ nodeHeight t <= (Z.of_nat (length (inorder t)) + 1) ^ 2.
Proof.
  induction t as [|l IHl b a r IHr]; intros Ht; [done|]. apply avl_Node in Ht as (Hl & Hr & E & Hb). specialize (IHl Hl). specialize (IHr Hr). rewrite E, recalculated_height, inorder_recalculated, length_app. cbn [length].
  pose proof (cached_height l (proj1 Hl)) as Hhl. pose proof (cached_height r (proj1 Hr)) as Hhr. set (nl := Z.of_nat (length (inorder l))) in *. set (nr := Z.of_nat (length (inorder r))) in *.
  replace (Z.of_nat (length (inorder l) + S (length (inorder r))) + 1) with ((nl + 1) + (nr + 1)) by lia. assert (0 <= nl) by lia. assert (0 <= nr) by lia.
  assert (Hbound : forall a b q, 0 <= q -> 0 < a -> 0 < b -> 2 * q <= a ^ 2 -> q <= b ^ 2 -> 4 * q <= (a + b) ^ 2).
  { intros x y q Hq Hx Hy H1 H2. rewrite !Z.pow_2_r in *. assert (q <= x * y); [|nia]. destruct (Z.le_gt_cases x y); nia. }
  assert (Hcase : forall x y, 0 <= y -> (x = y \/ x = y + 1) -> forall p q, 0 <= p -> 0 <= q -> 2 ^ x <= (p + 1) ^ 2 -> 2 ^ y <= (q + 1) ^ 2 -> 2 ^ (1 + x) <= (p + 1 + (q + 1)) ^ 2).
  { intros x y Hy [->| ->] p q Hp Hq H1 H2.
    - rewrite Z.pow_add_r by lia. change (2 ^ 1) with 2. rewrite !Z.pow_2_r in *. nia.
    - replace (2 ^ (1 + (y + 1))) with (4 * 2 ^ y) by (rewrite !Z.pow_add_r by lia; lia). apply Hbound; [lia..| |done]. rewrite Z.pow_add_r in H1 by lia. change (2 ^ 1) with 2 in H1. lia. }
  destruct (Z.le_gt_cases (nodeHeight r) (nodeHeight l)).
  - rewrite Z.max_l by lia. apply (Hcase (nodeHeight l) (nodeHeight r)); [lia|lia|lia|lia|done|done].
  - rewrite Z.max_r by lia. rewrite (Z.add_comm (nl + 1)). apply (Hcase (nodeHeight r) (nodeHeight l)); [lia|lia|lia|lia|done|done].
Qed.

(** ** Properties *)

(** C34. Bounds: the height of a node, an int8 in the code, does not overflow. A tree
    that the operations keep balanced with fewer than 2^62 blocks has a height of at
    most 124, and so have the trees that inserting a block behind any of its blocks
    makes of it. *)
Theorem height_fits_int8 (root : tree) (bs1 bs2 : list listPositionBlock) (b inserted : listPositionBlock) (l r : tree) (a : aggregates) (path : list frame) :
  avl root -> inorder root = bs1 ++ b :: bs2 -> NoDup (b_id <$> inorder root) -> Z.of_nat (length (inorder root)) < 2 ^ 62 - 1 -> locate (b_id b) root [] = Some (Node l b a r, path) ->
  let root' := insertNodeAfter (Node l b a r) path inserted in
  avl root' /\ inorder root' = bs1 ++ b :: inserted :: bs2 /\ 0 <= nodeHeight root <= 124 /\ 0 <= nodeHeight root' <= 124.
Proof.
  intros Ha Hin Hnd Hlen El root'. destruct (locate_block root bs1 b bs2 Ha Hin Hnd) as (l' & a' & r' & path' & El' & Hl & Hr & Hb & Hp & E1 & E2). rewrite El in El'. injection El' as <- <- <- <-.
  destruct (insertNodeAfter_spec l b a r path inserted Hl Hr Hb Hp) as [Ha' Hio]. assert (Hio' : inorder root' = bs1 ++ b :: inserted :: bs2) by (unfold root'; rewrite Hio, <- E1, <- E2; app_norm).
  assert (Hbound : forall t, avl t -> Z.of_nat (length (inorder t)) < 2 ^ 62 -> 0 <= nodeHeight t <= 124).
  { intros t Ht Hn. split; [apply cached_height, Ht|]. pose proof (avl_size t Ht). apply (Z.pow_le_mono_r_iff 2); [lia|lia|]. transitivity ((Z.of_nat (length (inorder t)) + 1) ^ 2); [done|]. change (2 ^ 124) with ((2 ^ 62) ^ 2). apply Z.pow_le_mono_l. lia. }
  split; [exact Ha'|split; [exact Hio'|split; apply Hbound]]; [done|lia|done|]. rewrite Hio'. rewrite Hin in Hlen. rewrite length_app in *. cbn [length] in *. lia.
Qed.

Definition sample_blocks : list listPositionBlock := [mkBlock 0 (Some 10%nat) 8 5 0; mkBlock 1 (Some 18%nat) 8 3 1; mkBlock 2 (Some 26%nat) 4 0 0].

Lemma height_fits_int8_witness :
  exists l a r path, locate 1 (buildBalancedListPositionNodes 3 sample_blocks) [] = Some (Node l (mkBlock 1 (Some 18%nat) 8 3 1) a r, path) /\
    inorder (insertNodeAfter (Node l (mkBlock 1 (Some 18%nat) 8 3 1) a r) path (mkBlock 3 (Some 22%nat) 4 1 0)) =
      [mkBlock 0 (Some 10%nat) 8 5 0; mkBlock 1 (Some 18%nat) 8 3 1; mkBlock 3 (Some 22%nat) 4 1 0; mkBlock 2 (Some 26%nat) 4 0 0] /\
    nodeHeight (buildBalancedListPositionNodes 3 sample_blocks) <= 124.
Proof.
  destruct (build_spec 3 sample_blocks) as (Ha & Hin & _); [done|]. eexists _, _, _, _. split; [reflexivity|].
  assert (Hnd : NoDup (b_id <$> inorder (buildBalancedListPositionNodes 3 sample_blocks))) by (rewrite Hin; apply (bool_decide_unpack _); vm_compute; exact I).
  edestruct (height_fits_int8 (buildBalancedListPositionNodes 3 sample_blocks) [mkBlock 0 (Some 10%nat) 8 5 0] [mkBlock 2 (Some 26%nat) 4 0 0] (mkBlock 1 (Some 18%nat) 8 3 1) (mkBlock 3 (Some 22%nat) 4 1 0)) as (_ & H & [_ H'] & _);
    [exact Ha|exact Hin|exact Hnd|vm_compute; reflexivity|reflexivity|by split].
Defined.
