(* ===== verification/PositionIndex.v ===== *)
(** * The list position index

    Models the operations of crdt/list_position_index.go on the linked items of a
    type: [buildListPositionIndex], [blockFor], [insertItem] with [splitBlock],
    [deleteItem], [removeMergedRight], the hooks of integration, splitting,
    deletion, growth and merging, and the lookups. The tree is that of
    PositionTree.v; the anchor bit and the membership bit of the items are sets
    of the index, and an index that the code destroys is [None]. *)
From stdpp Require Import gmap sets list.
From Stdlib Require Import ZArith Lia.
From S2P Require Import Prelude Lib0 StructStore Text DeleteSet Object Content Item ItemList TypeRead SearchMarker PositionTree.
Open Scope Z_scope.
Open Scope go_scope.

Definition listPositionBlockItems : Z := 8.
Definition listPositionBlockMaxItems : Z := 16.
Definition buildListPositionIndexItems : Z := 16000.
Definition buildFormattedListPositionIndexItems : Z := 512.

(** [ix_bits] are the items with the anchor bit, [ix_indexed] those with the
    membership bit, [ix_next] is the next free address of a node. *)
Record listPositionIndex := mkIndex {
  ix_root : tree;
  ix_anchors : gmap nat nat;
  ix_bits : gset nat;
  ix_indexed : gset nat;
  ix_items : Z;
  ix_next : nat
}.

Definition with_root (t : tree) (ix : listPositionIndex) : listPositionIndex :=
  mkIndex t (ix_anchors ix) (ix_bits ix) (ix_indexed ix) (ix_items ix) (ix_next ix).

(** Assignments to the fields of a node. *)
Definition set_first (first : option nat) (b : listPositionBlock) : listPositionBlock :=
  mkBlock (b_id b) first (b_items b) (b_visible b) (b_liveFormats b).
Definition add_sizes (items visible formats : Z) (b : listPositionBlock) : listPositionBlock :=
  mkBlock (b_id b) (b_first b) (b_items b + items) (b_visible b + visible) (b_liveFormats b + formats).

Section Index.
Context {V : Type}.
Abbreviation item := (itemStruct V).
Abbreviation heap := (gmap nat (itemStruct V)).

Definition itemVisibleLength (it : item) : Z := if negb (i_deleted it) && i_countable it then i_length it else 0.

Definition itemFormatCount (it : item) : Z :=
  if negb (i_deleted it) then match i_content it with contentFormat _ _ => 1 | _ => 0 end else 0.

Definition visibleOf (l : list (nat * item)) : Z := foldr (fun p s => itemVisibleLength p.2 + s) 0 l.
Definition formatsOf (l : list (nat * item)) : Z := foldr (fun p s => itemFormatCount p.2 + s) 0 l.

(** ** Building *)
Fixpoint buildBlocks (fuel id : nat) (l : list (nat * item)) : list listPositionBlock :=
  match fuel, l with
  | S fuel', (p, _) :: _ =>
      let members := take (Z.to_nat listPositionBlockItems) l in
      mkBlock id (Some p) (Z.of_nat (length members)) (visibleOf members) (formatsOf members)
      :: buildBlocks fuel' (S id) (drop (Z.to_nat listPositionBlockItems) l)
  | _, _ => []
  end.

Definition anchorOf (b : listPositionBlock) : option (nat * nat) := (fun p => (p, b_id b)) <$> b_first b.

Definition buildListPositionIndex (h : heap) (ty : ytype) : listPositionIndex :=
  let items := rightItems h (t_start ty) in
  let nodes := buildBlocks (length items) 0 items in
  let anchors := list_to_map (omap anchorOf nodes) in
  mkIndex (buildBalancedListPositionNodes (length nodes) nodes) anchors (dom anchors) (list_to_set (fst <$> items)) (total b_items nodes) (length nodes).

(** ** The block of an item *)

(** The block at an address. *)
Definition blockAt (ix : listPositionIndex) (id : nat) : option listPositionBlock :=
  match locate id (ix_root ix) [] with Some (Node _ b _ _, _) => Some b | _ => None end.

Fixpoint blockForLoop (fuel : nat) (steps : Z) (h : heap) (ix : listPositionIndex) (o : option nat) : option listPositionBlock :=
  match fuel, o with
  | S fuel', Some p =>
      match (if decide (p ∈ ix_bits ix) then ix_anchors ix !! p else None) ≫= blockAt ix with
      | Some b => if steps <? b_items b then Some b else None
      | None => blockForLoop fuel' (steps + 1) h ix (h !! p ≫= i_left)
      end
  | _, _ => None
  end.

Definition blockFor (h : heap) (ix : listPositionIndex) (o : option nat) : option listPositionBlock :=
  blockForLoop (Z.to_nat listPositionBlockMaxItems) 0 h ix o.

Definition changeFirst (b : listPositionBlock) (first : option nat) (ix : listPositionIndex) : listPositionIndex :=
  let anchors := match b_first b with Some p => base.delete p (ix_anchors ix) | None => ix_anchors ix end in
  let bits := match b_first b with Some p => ix_bits ix ∖ {[p]} | None => ix_bits ix end in
  mkIndex (updateNode (b_id b) (set_first first) (ix_root ix))
    (match first with Some p => <[p := b_id b]> anchors | None => anchors end)
    (match first with Some p => {[p]} ∪ bits | None => bits end)
    (ix_indexed ix) (ix_items ix) (ix_next ix).

(** ** Insertion *)
Fixpoint nthRight (n : nat) (h : heap) (o : option nat) : option nat :=
  match n with O => o | S n' => nthRight n' h (o ≫= fun p => h !! p ≫= i_right) end.

Definition splitBlock (h : heap) (id : nat) (ix : listPositionIndex) : listPositionIndex :=
  match locate id (ix_root ix) [] with
  | Some (Node l b a r, path) =>
      if b_items b <=? listPositionBlockMaxItems then ix
      else
        match nthRight (Z.to_nat listPositionBlockItems) h (b_first b) with
        | None => ix
        | Some rightFirst =>
            let items := b_items b - listPositionBlockItems in
            let members := take (Z.to_nat items) (rightItems h (Some rightFirst)) in
            let right := mkBlock (ix_next ix) (Some rightFirst) items (visibleOf members) (formatsOf members) in
            let b' := mkBlock (b_id b) (b_first b) listPositionBlockItems (b_visible b - b_visible right) (b_liveFormats b - b_liveFormats right) in
            mkIndex (insertNodeAfter (Node l b' a r) path right) (<[rightFirst := ix_next ix]> (ix_anchors ix)) ({[rightFirst]} ∪ ix_bits ix)
              (ix_indexed ix) (ix_items ix) (S (ix_next ix))
        end
  | _ => ix
  end.

(** The node that takes the item, with its address; [None] is the answer false. *)
Definition insertTarget (h : heap) (p : nat) (it : item) (ix : listPositionIndex) : option (nat * listPositionIndex) :=
  let found :=
    match i_left it, i_right it with
    | Some l, _ => (fun b => (b_id b, ix)) <$> blockFor h ix (Some l)
    | None, Some r => (fun b => (b_id b, changeFirst b (Some p) ix)) <$> blockFor h ix (Some r)
    | None, None => None
    end in
  match found, ix_root ix with
  | Some z, _ => Some z
  | None, Nil =>
      Some (ix_next ix, mkIndex (Node Nil (mkBlock (ix_next ix) (Some p) 0 0 0) (mkAggregates 0 0 0 1) Nil) (<[p := ix_next ix]> (ix_anchors ix)) ({[p]} ∪ ix_bits ix)
              (ix_indexed ix) (ix_items ix) (S (ix_next ix)))
  | None, _ => None
  end.

Definition insertItem (h : heap) (p : nat) (visibleDelta : Z) (ix : listPositionIndex) : option listPositionIndex :=
  it ← h !! p;
  '(id, ix) ← insertTarget h p it ix;
  let root := refreshAt id (updateNode id (add_sizes 1 visibleDelta (itemFormatCount it)) (ix_root ix)) in
  Some (splitBlock h id (mkIndex root (ix_anchors ix) (ix_bits ix) ({[p]} ∪ ix_indexed ix) (ix_items ix + 1) (ix_next ix))).

(** ** Deletion, growth, merging *)
Definition deleteItem (h : heap) (p : nat) (visibleLength : Z) (ix : listPositionIndex) : option listPositionIndex :=
  b ← blockFor h ix (Some p);
  if b_visible b <? visibleLength then None
  else Some (with_root (refreshAt (b_id b) (updateNode (b_id b) (add_sizes 0 (- visibleLength) 0) (ix_root ix))) ix).

(** Called before the items are merged. *)
Definition removeMergedRight (h : heap) (left right : nat) (ix : listPositionIndex) : option listPositionIndex :=
  lb ← blockFor h ix (Some left);
  rb ← blockFor h ix (Some right);
  ri ← h !! right;
  if (b_items rb =? 0) || (ix_items ix =? 0) then None
  else
    let visible := itemVisibleLength ri in
    let same := bool_decide (b_id lb = b_id rb) in
    if negb same && (b_visible rb <? visible) then None
    else
      let root := if same then ix_root ix else updateNode (b_id rb) (add_sizes 0 (- visible) 0) (updateNode (b_id lb) (add_sizes 0 visible 0) (ix_root ix)) in
      let ix := mkIndex (updateNode (b_id rb) (add_sizes (-1) 0 0) root) (ix_anchors ix) (ix_bits ix) (ix_indexed ix ∖ {[right]}) (ix_items ix - 1) (ix_next ix) in
      let ix := if bool_decide (b_first rb = Some right) then changeFirst rb (if 0 <? b_items rb - 1 then i_right ri else None) ix else ix in
      let root := refreshAt (b_id lb) (ix_root ix) in
      Some (with_root (if same then root else refreshAt (b_id rb) root) ix).

(** ** Lookups *)

(** [indexedVisibleStart] adds up the left subtrees along the path. *)
Fixpoint pathVisible (path : list frame) : Z :=
  match path with
  | [] => 0
  | LeftOf _ _ _ :: path' => pathVisible path'
  | RightOf l b _ :: path' => nodeVisible l + b_visible b + pathVisible path'
  end.

Fixpoint visibleBefore (p : nat) (visible : Z) (l : list (nat * item)) : option Z :=
  match l with
  | [] => None
  | (q, it) :: l' => if decide (q = p) then Some visible else visibleBefore p (visible + itemVisibleLength it) l'
  end.

Definition usable (ty : ytype) (ix : listPositionIndex) : bool :=
  match ix_root ix with Nil => false | _ => (ix_items ix =? t_itemCount ty) && (nodeVisible (ix_root ix) =? t_length ty) end.

Definition indexedVisibleStart (h : heap) (ty : ytype) (o : option listPositionIndex) (p : nat) : option Z :=
  ix ← o;
  if usable ty ix then
    b ← blockFor h ix (Some p);
    match locate (b_id b) (ix_root ix) [] with
    | Some (Node l b _ _, path) => visibleBefore p (nodeVisible l + pathVisible path) (take (Z.to_nat (b_items b)) (rightItems h (b_first b)))
    | _ => None
    end
  else None.

Definition indexedReadPosition (ty : ytype) (o : option listPositionIndex) (target : Z) : option (option nat * Z) :=
  ix ← o; if usable ty ix then findPosition (ix_root ix) target else None.

(** ** Formats *)
Section Attributes.
Context (nil : V) (isNullAttr : V -> bool).

Definition updateCurrentAttributes (attributes : @Object V) (key : gostring) (value : V) : @Object V :=
  if isNullAttr value then Delete nil attributes key else Set_ nil attributes key value.

Definition applyFormat (attributes : @Object V) (it : item) : @Object V :=
  match i_content it with
  | contentFormat key value =>
      if i_deleted it then attributes
      else updateCurrentAttributes (if IsNil attributes then newObject nil else attributes) key value
  | _ => attributes
  end.

Definition applyLiveFormatsInBlock (h : heap) (b : listPositionBlock) (attributes : @Object V) : @Object V :=
  if b_liveFormats b =? 0 then attributes
  else foldl (fun at_ p => applyFormat at_ p.2) attributes (take (Z.to_nat (b_items b)) (rightItems h (b_first b))).
End Attributes.

(** ** Hooks of the list operations *)
Definition updateListPositionIndexAfterIntegrate (h : heap) (p : nat) (o : option listPositionIndex) : option listPositionIndex :=
  ix ← o; it ← h !! p; insertItem h p (itemVisibleLength it) ix.

Definition updateListPositionIndexAfterSplit (h : heap) (right : nat) (o : option listPositionIndex) : option listPositionIndex :=
  ix ← o; insertItem h right 0 ix.

Definition updateListPositionIndexAfterDelete (h : heap) (p : nat) (oldVisibleLength : Z) (o : option listPositionIndex) : option listPositionIndex :=
  ix ← o; deleteItem h p oldVisibleLength ix.

Definition updateListPositionIndexAfterTailGrowth (h : heap) (p : nat) (visibleDelta : Z) (o : option listPositionIndex) : option listPositionIndex :=
  ix ← o; b ← blockFor h ix (Some p); it ← h !! p;
  if (visibleDelta <=? 0) || i_deleted it || negb (i_countable it) then None
  else Some (with_root (refreshAt (b_id b) (updateNode (b_id b) (add_sizes 0 visibleDelta 0) (ix_root ix))) ix).

(** [getSearchMarker]: no pointer, a pointer to the nil slice of formatted text, or
    markers. *)
Abbreviation markerRef := (option (option markerState)).

Definition listPositionIndexActivationItems (markers : markerRef) : Z :=
  match markers with Some None => buildFormattedListPositionIndexItems | _ => buildListPositionIndexItems end.

Definition updateListPositionIndexBeforeMerge (h : heap) (ty : ytype) (markers : markerRef) (left right : nat) (o : option listPositionIndex) : option listPositionIndex :=
  ix ← o; ix ← removeMergedRight h left right ix;
  if t_itemCount ty <? listPositionIndexActivationItems markers then None else Some ix.

(** What [deleteItemStruct] does to the index: [wasVisible] is the visible length
    before the item was marked. *)
Definition indexAfterDelete (h : heap) (p : nat) (wasFormat : bool) (wasVisible : Z) (o : option listPositionIndex) : option listPositionIndex :=
  if wasFormat then None
  else if 0 <? wasVisible then updateListPositionIndexAfterDelete h p wasVisible o
  else o.

(** ** Activation *)
Definition clearMutableListMarkers (markers : markerRef) : markerRef :=
  match markers with
  | Some (Some st) => Some (Some (mkMarkers [] (sm_marked st ∖ list_to_set (m_p <$> sm_list st)) (sm_clock st)))
  | _ => markers
  end.

(** The index to use, the index that the document keeps, and the markers. *)
Definition activeListPositionIndex (h : heap) (ty : ytype) (itemCount : Z) (requireMarkers : bool) (markers : markerRef) (o : option listPositionIndex) :
  option listPositionIndex * option listPositionIndex * markerRef :=
  if requireMarkers && negb (match markers with Some (Some _) => true | _ => false end) then (None, o, markers)
  else
    let '(ix, markers) := match o with Some ix => (ix, markers) | None => (buildListPositionIndex h ty, clearMutableListMarkers markers) end in
    if match ix_root ix with Nil => true | _ => false end || negb (ix_items ix =? itemCount) || negb (nodeVisible (ix_root ix) =? t_length ty)
    then (None, None, markers)
    else (Some ix, Some ix, markers).

Definition indexedMutationPosition (h : heap) (ty : ytype) (target itemCount : Z) (markers : markerRef) (o : option listPositionIndex) :
  option (option nat * Z) * option listPositionIndex * markerRef :=
  match activeListPositionIndex h ty itemCount true markers o with
  | (Some ix, o, markers) =>
      match findPosition (ix_root ix) target with
      | Some r => (Some r, o, markers)
      | None => (None, None, markers)
      end
  | (None, o, markers) => (None, o, markers)
  end.

Definition indexedFormattedTextPosition (nil : V) (isNullAttr : V -> bool) (h : heap) (ty : ytype) (target itemCount : Z) (attributes : @Object V) (markers : markerRef) (o : option listPositionIndex) :
  option (option nat * Z) * @Object V * option listPositionIndex * markerRef :=
  match activeListPositionIndex h ty itemCount false markers o with
  | (Some ix, o, markers) =>
      match findFormattedPosition (applyLiveFormatsInBlock nil isNullAttr h) (ix_root ix) target attributes with
      | (Some r, attributes) => (Some r, attributes, o, markers)
      | (None, attributes) => (None, attributes, None, markers)
      end
  | (None, o, markers) => (None, attributes, o, markers)
  end.

(** The item, its visible start, the index and the markers. *)
Definition findMutationPosition (h : heap) (ty : ytype) (target : Z) (markers : markerRef) (o : option listPositionIndex) :
  result (option (option nat * Z) * option listPositionIndex * markerRef) :=
  let '(found, o, markers) := if buildListPositionIndexItems <=? t_itemCount ty then indexedMutationPosition h ty target (t_itemCount ty) markers o else (None, o, markers) in
  match found with
  | Some r => Ok (Some r, o, markers)
  | None =>
      match findMarkerWithItemCount h ty target (t_itemCount ty) (mjoin markers) with
      | Err e => Err e
      | Ok (i, ms) =>
          let markers := match markers with Some _ => Some ms | None => None end in
          Ok (i ← i; st ← ms; m ← sm_list st !! i; Some (Some (m_p m), m_index m), o, markers)
      end
  end.
End Index.

(** ** The index and the list *)
Section Theory.
Context {V : Type}.
Abbreviation item := (itemStruct V).
Abbreviation heap := (gmap nat (itemStruct V)).

Definition vis (h : heap) (p : nat) : Z := from_option itemVisibleLength 0 (h !! p).
Definition fmt (h : heap) (p : nat) : Z := from_option itemFormatCount 0 (h !! p).
Definition sum (f : nat -> Z) (ms : list nat) : Z := foldr (fun p s => f p + s) 0 ms.

(** The block of the items [ms]. *)
Record block_ok (h : heap) (b : listPositionBlock) (ms : list nat) : Prop := {
  bo_first : b_first b = head ms;
  bo_items : b_items b = Z.of_nat (length ms);
  bo_visible : b_visible b = sum (vis h) ms;
  bo_formats : b_liveFormats b = sum (fmt h) ms;
  bo_max : (length ms <= 16)%nat
}.

(** The blocks [bs] partition the list [ps]; the first one is not empty. *)
Definition partition (h : heap) (bs : list listPositionBlock) (mss : list (list nat)) (ps : list nat) : Prop :=
  Forall2 (block_ok h) bs mss /\ mjoin mss = ps /\ head mss <> Some [].

Record index_ok (h : heap) (ps : list nat) (ix : listPositionIndex) : Prop := {
  io_avl : avl (ix_root ix);
  io_blocks : exists mss, partition h (inorder (ix_root ix)) mss ps;
  io_ids : NoDup (ids (ix_root ix));
  io_fresh : forall i, i ∈ ids (ix_root ix) -> (i < ix_next ix)%nat;
  io_anchors : forall p i, ix_anchors ix !! p = Some i <-> exists b, b ∈ inorder (ix_root ix) /\ b_id b = i /\ b_first b = Some p;
  io_bits : ix_bits ix = dom (ix_anchors ix);
  io_indexed : ix_indexed ix = list_to_set ps;
  io_items : ix_items ix = Z.of_nat (length ps)
}.

Lemma sum_app f ms ms' : sum f (ms ++ ms') = sum f ms + sum f ms'.
Proof. unfold sum. induction ms as [|p ms IH]; [done|]. cbn [app foldr]. rewrite IH. lia. Qed.

Lemma sum_cons f p ms : sum f (p :: ms) = f p + sum f ms.
Proof. done. Qed.

Lemma sum_ext f g ms : (forall p, p ∈ ms -> f p = g p) -> sum f ms = sum g ms.
Proof. induction ms as [|p ms IH]; intros Hfg; [done|]. rewrite !sum_cons, Hfg, IH; [done| |by left]. intros q Hq. apply Hfg. by right. Qed.

Lemma visibleOf_sum (h : heap) ms : (forall p, p ∈ ms -> is_Some (h !! p)) -> visibleOf (withItems h ms) = sum (vis h) ms.
Proof.
  induction ms as [|p ms IH]; intros Hin; [done|]. destruct (Hin p) as [it E]; [by left|]. rewrite (withItems_cons h p it ms E), sum_cons. cbn [visibleOf foldr]. fold (visibleOf (withItems h ms)).
  rewrite IH; [unfold vis; by rewrite E|]. intros q Hq. apply Hin. by right.
Qed.

Lemma formatsOf_sum (h : heap) ms : (forall p, p ∈ ms -> is_Some (h !! p)) -> formatsOf (withItems h ms) = sum (fmt h) ms.
Proof.
  induction ms as [|p ms IH]; intros Hin; [done|]. destruct (Hin p) as [it E]; [by left|]. rewrite (withItems_cons h p it ms E), sum_cons. cbn [formatsOf foldr]. fold (formatsOf (withItems h ms)).
  rewrite IH; [unfold fmt; by rewrite E|]. intros q Hq. apply Hin. by right.
Qed.

Lemma sum_vlen (h : heap) ms : sum (vis h) ms = vlen (withItems h ms).
Proof.
  induction ms as [|p ms IH]; [done|]. rewrite sum_cons, IH. unfold vis, withItems. cbn [omap list_omap]. destruct (h !! p) as [it|]; cbn [fmap option_fmap option_map from_option vlen]; [|lia].
  unfold itemVisibleLength, live. done.
Qed.

(** *** The block of an item *)

(** The blocks around the item [q]. *)
Record block_around (h : heap) (bs : list listPositionBlock) (mss : list (list nat)) (pre : list nat) (q : nat) (post : list nat)
  (bs1 : list listPositionBlock) (b : listPositionBlock) (bs2 : list listPositionBlock) (mss1 : list (list nat)) (ms1 ms2 : list nat) (mss2 : list (list nat)) : Prop := {
  ba_bs : bs = bs1 ++ b :: bs2;
  ba_mss : mss = mss1 ++ (ms1 ++ q :: ms2) :: mss2;
  ba_left : Forall2 (block_ok h) bs1 mss1;
  ba_block : block_ok h b (ms1 ++ q :: ms2);
  ba_right : Forall2 (block_ok h) bs2 mss2;
  ba_pre : pre = mjoin mss1 ++ ms1;
  ba_post : post = ms2 ++ mjoin mss2
}.

Lemma around (h : heap) bs mss : Forall2 (block_ok h) bs mss -> forall pre q post, mjoin mss = pre ++ q :: post ->
  exists bs1 b bs2 mss1 ms1 ms2 mss2, block_around h bs mss pre q post bs1 b bs2 mss1 ms1 ms2 mss2.
Proof.
  induction 1 as [|b ms bs mss Hb Hbs IH]; intros pre q post E; [cbn in E; by destruct pre|]. change (mjoin (ms :: mss)) with (ms ++ mjoin mss) in E. apply app_eq_inv in E as [(k & E1 & E2)|(k & E1 & E2)].
  - destruct k as [|q' k].
    + rewrite app_nil_r in E1. subst pre. cbn [app] in E2. destruct (IH [] q post) as (bs1 & b' & bs2 & mss1 & ms1 & ms2 & mss2 & Ha); [by rewrite E2|]. exists (b :: bs1), b', bs2, (ms :: mss1), ms1, ms2, mss2. destruct Ha as [-> -> ? ? ? Epre ->].
      split; [done|done|by constructor|done|done| |done]. change (mjoin (ms :: mss1)) with (ms ++ mjoin mss1). rewrite <- app_assoc, <- Epre. by rewrite app_nil_r.
    + injection E2 as <- E2. exists [], b, bs, [], pre, k, mss. subst ms. split; [done|done|constructor|done|done|done|]. by rewrite E2.
  - symmetry in E2. destruct (IH k q post) as (bs1 & b' & bs2 & mss1 & ms1 & ms2 & mss2 & Ha); [done|]. exists (b :: bs1), b', bs2, (ms :: mss1), ms1, ms2, mss2. destruct Ha as [-> -> ? ? ? Epre ->].
    split; [done|done|by constructor|done|done| |done]. change (mjoin (ms :: mss1)) with (ms ++ mjoin mss1). rewrite <- app_assoc, <- Epre. done.
Qed.

Lemma blockAt_elem h ps ix b : index_ok h ps ix -> b ∈ inorder (ix_root ix) -> blockAt ix (b_id b) = Some b.
Proof.
  intros Hok (bs1 & bs2 & E)%list_elem_of_split. destruct (locate_block (ix_root ix) bs1 b bs2 (io_avl _ _ _ Hok) E (io_ids _ _ _ Hok)) as (l & a & r & path & El & _).
  unfold blockAt. by rewrite El.
Qed.

Lemma elem_join (mss : list (list nat)) ms p : ms ∈ mss -> p ∈ ms -> p ∈ mjoin mss.
Proof. intros. apply list_elem_of_join. by exists ms. Qed.

(** Only the first items of the blocks are anchors. *)
Definition anchors_of (bs : list listPositionBlock) (anchors : gmap nat nat) : Prop :=
  forall p i, anchors !! p = Some i <-> exists b, b ∈ bs /\ b_id b = i /\ b_first b = Some p.

Definition firsts (bs : list listPositionBlock) (mss : list (list nat)) : Prop := Forall2 (fun b ms => b_first b = head ms) bs mss.

Lemma blocks_firsts h bs mss : Forall2 (block_ok h) bs mss -> firsts bs mss.
Proof. intros HF. eapply list.Forall2_impl; [exact HF|]. intros b ms Hb. apply Hb. Qed.

Lemma anchors_inner anchors bs1 b bs2 mss1 ms mss2 : anchors_of (bs1 ++ b :: bs2) anchors -> firsts bs1 mss1 -> b_first b = head ms -> firsts bs2 mss2 -> NoDup (mjoin mss1 ++ ms ++ mjoin mss2) ->
  forall ms1 p ms2, ms = ms1 ++ p :: ms2 -> anchors !! p = match ms1 with [] => Some (b_id b) | _ => None end.
Proof.
  intros Hanc Hl Hb Hr Hnd ms1 p ms2 ->. destruct ms1 as [|m ms1]; [apply Hanc; exists b; by split_and!; [set_solver|..]|].
  destruct (anchors !! p) as [i|] eqn:Ea; [exfalso|done]. apply Hanc in Ea as (b' & Hb' & _ & Ef). rewrite !list.NoDup_app in Hnd. destruct Hnd as (_ & Hd1 & (_ & Hd3 & _) & Hd2 & _).
  assert (Hin : forall bs mss', firsts bs mss' -> b' ∈ bs -> p ∈ mjoin mss').
  { clear -Ef. intros bs mss' HF (i & Hi)%list_elem_of_lookup. destruct (Forall2_lookup_l _ _ _ _ _ HF Hi) as (ms' & Hi' & E). apply (elem_join _ ms'); [by eapply list_elem_of_lookup_2|].
    rewrite Ef in E. destruct ms' as [|? ms']; [done|]. injection E as ->. by left. }
  rewrite elem_of_app, elem_of_cons in Hb'. destruct Hb' as [Hb'|[->|Hb']].
  - apply (Hd1 p); [by apply (Hin bs1)|]. apply elem_of_app. left. apply elem_of_app. right. by left.
  - rewrite Hb in Ef. injection Ef as ->. apply (Hd3 p); by left.
  - apply (Hd2 p); [|by apply (Hin bs2)]. apply elem_of_app. right. by left.
Qed.

Lemma anchors_around h ps ix pre q post bs1 b bs2 mss mss1 ms1 ms2 mss2 : index_ok h ps ix -> NoDup ps -> mjoin mss = ps -> ps = pre ++ q :: post ->
  block_around h (inorder (ix_root ix)) mss pre q post bs1 b bs2 mss1 ms1 ms2 mss2 ->
  forall ms1' p ms2', ms1 ++ q :: ms2 = ms1' ++ p :: ms2' -> ix_anchors ix !! p = match ms1' with [] => Some (b_id b) | _ => None end.
Proof.
  intros Hok Hnd Hmss Hps Ha ms1' p ms2' E. destruct Ha as [Ebs Emss Hl Hb Hr _ _]. pose proof (io_anchors _ _ _ Hok) as Hanc. rewrite Ebs in Hanc.
  eapply (anchors_inner _ bs1 b bs2 mss1 (ms1 ++ q :: ms2) mss2); [exact Hanc|by eapply blocks_firsts|apply Hb|by eapply blocks_firsts| |exact E].
  by rewrite <- Hmss, Emss, join_app in Hnd.
Qed.

Lemma blockForLoop_spec (h' : heap) ix b ms1 : forall q ms2 pw1 pw2 fuel steps,
  (forall ms1' p ms2', ms1 ++ q :: ms2 = ms1' ++ p :: ms2' -> ix_anchors ix !! p = match ms1' with [] => Some (b_id b) | _ => None end) ->
  ix_bits ix = dom (ix_anchors ix) -> blockAt ix (b_id b) = Some b -> linked h' None (pw1 ++ ms1 ++ q :: pw2) -> (length ms1 < fuel)%nat -> steps + Z.of_nat (length ms1) < b_items b ->
  blockForLoop fuel steps h' ix (Some q) = Some b.
Proof.
  induction ms1 as [|m ms1 IH] using rev_ind; intros q ms2 pw1 pw2 fuel steps Hanc Hbits Hat Hl Hf Hs; (destruct fuel as [|fuel]; [lia|]); cbn [blockForLoop].
  - pose proof (Hanc [] q ms2 eq_refl) as Eq. cbn in Eq. rewrite decide_True by (rewrite Hbits; by eapply elem_of_dom_2). rewrite Eq. cbn [mbind option_bind]. rewrite Hat. destruct (Z.ltb_spec steps (b_items b)); [done|cbn in Hs; lia].
  - assert (Eq : ix_anchors ix !! q = None) by (rewrite (Hanc (ms1 ++ [m]) q ms2 eq_refl); by destruct ms1).
    assert (Ell : h' !! q ≫= i_left = Some m).
    { apply linked_lseg in Hl. rewrite app_assoc, lseg_app in Hl. destruct Hl as [_ (it & -> & El & _)]. cbn. rewrite El. unfold last_or. by rewrite app_assoc, last_snoc. }
    assert (Enone : (if decide (q ∈ ix_bits ix) then ix_anchors ix !! q else None) = None) by (destruct (decide _); [done|done]). rewrite Enone. cbn [mbind option_bind].
    change (match h' !! q with Some x => i_left x | None => None end) with (h' !! q ≫= i_left). rewrite Ell. apply (IH m (q :: ms2) pw1 (q :: pw2)); [|done|done| | |].
    + intros ms1' p ms2' E. apply (Hanc ms1' p ms2'). by rewrite <- E, <- app_assoc.
    + by rewrite <- app_assoc in Hl.
    + rewrite length_app in Hf. cbn in Hf. lia.
    + rewrite length_app in Hs. cbn in Hs. lia.
Qed.

(** Found from any item of the block, also when items were linked further right. *)
Lemma blockFor_spec (h h' : heap) ps ix pre q post bs1 b bs2 mss mss1 ms1 ms2 mss2 pw2 : index_ok h ps ix -> NoDup ps -> mjoin mss = ps -> ps = pre ++ q :: post ->
  block_around h (inorder (ix_root ix)) mss pre q post bs1 b bs2 mss1 ms1 ms2 mss2 -> linked h' None (pre ++ q :: pw2) -> blockFor h' ix (Some q) = Some b.
Proof.
  intros Hok Hnd Hmss Hps Ha Hl. pose proof (anchors_around _ _ _ _ _ _ _ _ _ _ _ _ _ _ Hok Hnd Hmss Hps Ha) as Hanc. rewrite (ba_pre _ _ _ _ _ _ _ _ _ _ _ _ _ Ha), <- app_assoc in Hl.
  pose proof (ba_block _ _ _ _ _ _ _ _ _ _ _ _ _ Ha) as Hb. pose proof (bo_max _ _ _ Hb) as Hmax. rewrite length_app in Hmax. cbn in Hmax.
  eapply (blockForLoop_spec h' ix b ms1 q ms2); [exact Hanc|apply Hok| |exact Hl|change (Z.to_nat listPositionBlockMaxItems) with 16%nat; lia|].
  - eapply blockAt_elem; [exact Hok|]. rewrite (ba_bs _ _ _ _ _ _ _ _ _ _ _ _ _ Ha). set_solver.
  - rewrite (bo_items _ _ _ Hb), length_app. cbn. lia.
Qed.

(** *** Splitting a block *)

(** A block but for its bound. *)
Record block_raw (h : heap) (b : listPositionBlock) (ms : list nat) : Prop := {
  br_first : b_first b = head ms;
  br_items : b_items b = Z.of_nat (length ms);
  br_visible : b_visible b = sum (vis h) ms;
  br_formats : b_liveFormats b = sum (fmt h) ms
}.

Lemma raw_ok h b ms : block_raw h b ms -> (length ms <= 16)%nat -> block_ok h b ms.
Proof. intros [] ?. by split. Qed.

(** An index with one block in focus, which may have one item too many. *)
Record index_focus (h : heap) (ps : list nat) (ix : listPositionIndex) (bs1 : list listPositionBlock) (b : listPositionBlock) (bs2 : list listPositionBlock)
  (mss1 : list (list nat)) (ms : list nat) (mss2 : list (list nat)) : Prop := {
  if_avl : avl (ix_root ix);
  if_blocks : inorder (ix_root ix) = bs1 ++ b :: bs2;
  if_left : Forall2 (block_ok h) bs1 mss1;
  if_block : block_raw h b ms;
  if_right : Forall2 (block_ok h) bs2 mss2;
  if_items : ps = mjoin mss1 ++ ms ++ mjoin mss2;
  if_head : head (mss1 ++ ms :: mss2) <> Some [];
  if_ids : NoDup (ids (ix_root ix));
  if_fresh : forall i, i ∈ ids (ix_root ix) -> (i < ix_next ix)%nat;
  if_anchors : anchors_of (bs1 ++ b :: bs2) (ix_anchors ix);
  if_bits : ix_bits ix = dom (ix_anchors ix);
  if_indexed : ix_indexed ix = list_to_set ps;
  if_count : ix_items ix = Z.of_nat (length ps)
}.

Lemma focus_ok h ps ix bs1 b bs2 mss1 ms mss2 : index_focus h ps ix bs1 b bs2 mss1 ms mss2 -> (length ms <= 16)%nat -> index_ok h ps ix.
Proof.
  intros [] Hm. split; try done.
  - exists (mss1 ++ ms :: mss2). split_and!; [|by rewrite join_app|done]. rewrite if_blocks0. apply Forall2_app; [done|]. constructor; [by apply raw_ok|done].
  - unfold anchors_of in *. by rewrite if_blocks0.
Qed.

Lemma linked_suffix (h : heap) ps1 : forall prev ps2, linked h prev (ps1 ++ ps2) -> exists prev', linked h prev' ps2.
Proof. induction ps1 as [|p ps1 IH]; intros prev ps2 Hl; [by exists prev|]. destruct Hl as (it & _ & _ & _ & Hl). by apply (IH _ _ Hl). Qed.

Lemma nthRight_linked (h : heap) n : forall prev ps, linked h prev ps -> nthRight n h (head ps) = head (drop n ps).
Proof.
  induction n as [|n IH]; intros prev ps Hl; [done|]. cbn [nthRight]. destruct ps as [|p ps]; cbn [head drop mbind option_bind].
  - clear. induction n as [|n IH]; [done|exact IH].
  - destruct Hl as (it & E & _ & Er & Hl). rewrite E. cbn [mbind option_bind]. rewrite Er. apply (IH _ _ Hl).
Qed.

(** The items that a walk to the right from an item of the list meets. *)
Lemma members_walk (h : heap) ps1 ms ps2 n : linked h None (ps1 ++ ms ++ ps2) -> n = length ms -> ms <> [] -> take n (rightItems h (head ms)) = withItems h ms.
Proof.
  intros Hl -> Hne. destruct (linked_suffix h ps1 None _ Hl) as (prev & Hl'). replace (head ms) with (head (ms ++ ps2)) by by destruct ms. rewrite (rightItems_list h prev _ Hl').
  rewrite <- withItems_take by (intros q Hq; by eapply linked_lookup). by rewrite take_app_length.
Qed.

(** The anchors with a block behind the one in focus. *)
Lemma anchors_add anchors bs1 b b' bs2 right rf : anchors_of (bs1 ++ b :: bs2) anchors -> b_id b' = b_id b -> b_first b' = b_first b -> b_first right = Some rf -> anchors !! rf = None ->
  anchors_of (bs1 ++ b' :: right :: bs2) (<[rf := b_id right]> anchors).
Proof.
  intros Hanc Eid Efirst Eright Hrf p i. destruct (decide (p = rf)) as [->|Hp'].
  - rewrite lookup_insert_eq. split; [intros [= <-]; exists right; split_and!; [set_solver|done|done]|]. intros (b2 & Hb2 & <- & Ef). rewrite elem_of_app, !elem_of_cons in Hb2.
    destruct Hb2 as [Hb2|[->|[->|Hb2]]]; [|exfalso|done|].
    + assert (Hs : anchors !! rf = Some (b_id b2)) by (apply Hanc; exists b2; split_and!; (done || set_solver)). congruence.
    + assert (Hs : anchors !! rf = Some (b_id b)) by (apply Hanc; exists b; split_and!; [set_solver|done|congruence]). congruence.
    + assert (Hs : anchors !! rf = Some (b_id b2)) by (apply Hanc; exists b2; split_and!; (done || set_solver)). congruence.
  - rewrite lookup_insert_ne by done. rewrite (Hanc p i). split; intros (b2 & Hb2 & <- & Ef).
    + rewrite elem_of_app, elem_of_cons in Hb2. destruct Hb2 as [Hb2|[->|Hb2]]; [exists b2|exists b'|exists b2]; split_and!; (done || congruence || set_solver).
    + rewrite elem_of_app, !elem_of_cons in Hb2. destruct Hb2 as [Hb2|[->|[->|Hb2]]]; [exists b2|exists b|congruence|exists b2]; split_and!; (done || congruence || set_solver).
Qed.

Lemma splitBlock_spec h ps ix bs1 b bs2 mss1 ms mss2 : index_focus h ps ix bs1 b bs2 mss1 ms mss2 -> (length ms <= 17)%nat -> linked h None ps -> index_ok h ps (splitBlock h (b_id b) ix).
Proof.
  intros Hf Hlen Hl. pose proof (linked_NoDup _ _ _ Hl) as Hnd. destruct (locate_block (ix_root ix) bs1 b bs2 (if_avl _ _ _ _ _ _ _ _ _ Hf) (if_blocks _ _ _ _ _ _ _ _ _ Hf) (if_ids _ _ _ _ _ _ _ _ _ Hf)) as (l & a & r & path & El & Hal & Har & Hbal & Hp & Epl & Epr).
  unfold splitBlock. rewrite El. pose proof (if_block _ _ _ _ _ _ _ _ _ Hf) as Hb. rewrite (br_items _ _ _ Hb). change listPositionBlockMaxItems with 16. destruct (Z.leb_spec (Z.of_nat (length ms)) 16); [eapply focus_ok; [exact Hf|lia]|].
  assert (Hn : length ms = 17%nat) by lia. pose proof (if_items _ _ _ _ _ _ _ _ _ Hf) as Eps. pose proof Hl as Hl0. rewrite Eps in Hl.
  assert (Hin : forall q, q ∈ ms -> is_Some (h !! q)) by (intros q Hq; eapply linked_lookup; [exact Hl|set_solver]).
  set (m1 := take 8 ms). set (m2 := drop 8 ms). assert (Ems : ms = m1 ++ m2) by (symmetry; apply take_drop). assert (Hm1 : length m1 = 8%nat) by (unfold m1; rewrite length_take; lia). assert (Hm2 : length m2 = 9%nat) by (unfold m2; rewrite length_drop; lia).
  destruct m2 as [|rf m2'] eqn:Em2; [done|]. rewrite <- Em2 in *.
  assert (Hnth : nthRight (Z.to_nat listPositionBlockItems) h (b_first b) = Some rf).
  { rewrite (br_first _ _ _ Hb). destruct (linked_suffix h _ None _ Hl) as (prev & Hl'). replace (head ms) with (head (ms ++ mjoin mss2)) by by destruct ms.
    rewrite (nthRight_linked h _ prev _ Hl'). change (Z.to_nat listPositionBlockItems) with 8%nat. rewrite drop_app_le by lia. fold m2. by rewrite Em2. }
  rewrite Hnth. assert (Hmem : take (Z.to_nat (Z.of_nat (length ms) - listPositionBlockItems)) (rightItems h (Some rf)) = withItems h m2).
  { rewrite Ems, <- app_assoc, app_assoc in Hl. replace (Some rf) with (head m2) by by rewrite Em2. apply (members_walk h (mjoin mss1 ++ m1) m2 (mjoin mss2)); [done|rewrite Hn; unfold listPositionBlockItems; lia|by rewrite Em2]. }
  rewrite Hmem, visibleOf_sum, formatsOf_sum by (intros q Hq; apply Hin; rewrite Ems; set_solver). cbn [b_visible b_liveFormats].
  set (right := mkBlock (ix_next ix) (Some rf) _ _ _). set (b' := mkBlock (b_id b) _ _ _ _).
  destruct (insertNodeAfter_spec l b' a r path right Hal Har Hbal Hp) as [Havl Hio].
  assert (Hio' : inorder (insertNodeAfter (Node l b' a r) path right) = bs1 ++ b' :: right :: bs2) by (rewrite Hio, <- Epl, <- Epr; app_norm). clear Hio.
  assert (Hids : ids (ix_root ix) = (b_id <$> bs1) ++ b_id b :: (b_id <$> bs2)) by (unfold ids; rewrite (if_blocks _ _ _ _ _ _ _ _ _ Hf), fmap_app, fmap_cons; done).
  assert (Hids' : ids (insertNodeAfter (Node l b' a r) path right) = (b_id <$> bs1) ++ b_id b :: ix_next ix :: (b_id <$> bs2)) by (unfold ids; rewrite Hio', fmap_app, !fmap_cons; done).
  pose proof (if_fresh _ _ _ _ _ _ _ _ _ Hf) as Hfresh. assert (Hnew : ix_next ix ∉ ids (ix_root ix)) by (intros Hi%Hfresh; lia).
  assert (Hrf : ix_anchors ix !! rf = None).
  { rewrite (anchors_inner (ix_anchors ix) bs1 b bs2 mss1 ms mss2 (if_anchors _ _ _ _ _ _ _ _ _ Hf) (blocks_firsts _ _ _ (if_left _ _ _ _ _ _ _ _ _ Hf)) (br_first _ _ _ Hb) (blocks_firsts _ _ _ (if_right _ _ _ _ _ _ _ _ _ Hf)) ltac:(by rewrite <- Eps) m1 rf m2'); [by destruct m1|by rewrite <- Em2]. }
  split; cbn [ix_root ix_anchors ix_bits ix_indexed ix_items ix_next].
  - done.
  - exists (mss1 ++ m1 :: m2 :: mss2). split_and!.
    + rewrite Hio'. apply Forall2_app; [apply Hf|]. constructor; [|constructor; [|apply Hf]].
      * unfold b'. split; cbn [b_first b_items b_visible b_liveFormats]; [rewrite (br_first _ _ _ Hb), Ems; by destruct m1|by rewrite Hm1|rewrite (br_visible _ _ _ Hb), Ems, sum_app; lia|rewrite (br_formats _ _ _ Hb), Ems, sum_app; lia|lia].
      * unfold right. split; cbn [b_first b_items b_visible b_liveFormats]; [by rewrite Em2|rewrite Hn, Hm2; done|done|done|lia].
    + rewrite join_app. cbn. rewrite Eps, Ems. by rewrite <- !app_assoc.
    + pose proof (if_head _ _ _ _ _ _ _ _ _ Hf) as Hh. destruct mss1; [|done]. cbn. intros [= E]. by rewrite E in Hm1.
  - rewrite Hids'. rewrite Hids in Hnew. pose proof (if_ids _ _ _ _ _ _ _ _ _ Hf) as Hni. rewrite Hids in Hni. rewrite list.NoDup_app, !list.NoDup_cons in *. set_solver.
  - rewrite Hids'. intros i Hi. assert (i = ix_next ix \/ i ∈ ids (ix_root ix)) as [->|Hi']; [rewrite Hids; set_solver|lia|]. specialize (Hfresh i Hi'). lia.
  - rewrite Hio'. by apply (anchors_add _ bs1 b b' bs2 right rf (if_anchors _ _ _ _ _ _ _ _ _ Hf)).
  - rewrite dom_insert_L. by rewrite (if_bits _ _ _ _ _ _ _ _ _ Hf).
  - apply Hf.
  - apply Hf.
Qed.

(** *** Inserting an item *)
Lemma assign_focus f bs1 b bs2 : NoDup (b_id <$> bs1 ++ b :: bs2) -> assign (b_id b) f <$> bs1 ++ b :: bs2 = bs1 ++ f b :: bs2.
Proof.
  rewrite fmap_app, fmap_cons, list.NoDup_app, list.NoDup_cons. intros (_ & H1 & H2 & _).
  assert (Hsame : forall bs : list listPositionBlock, b_id b ∉ b_id <$> bs -> assign (b_id b) f <$> bs = bs).
  { intros bs. rewrite list_elem_of_fmap. intros Hn. rewrite <- (list_fmap_id bs) at 2. apply list_fmap_ext. intros i b' Hb'. unfold assign. rewrite decide_False; [done|]. intros E. apply Hn. exists b'. split; [done|by eapply list_elem_of_lookup_2]. }
  rewrite fmap_app, fmap_cons, !Hsame; [|done|intros Hi; apply (H1 _ Hi); by left]. unfold assign. by rewrite decide_True.
Qed.

Lemma blocks_transport (h h' : heap) bs mss : Forall2 (block_ok h) bs mss -> (forall q, q ∈ mjoin mss -> vis h' q = vis h q /\ fmt h' q = fmt h q) -> Forall2 (block_ok h') bs mss.
Proof.
  induction 1 as [|b ms bs mss [] HF IH]; intros Hq; constructor.
  - split; [done|done|rewrite bo_visible0|rewrite bo_formats0|done]; apply sum_ext; intros q Hin; symmetry; apply Hq; cbn; set_solver.
  - apply IH. intros q Hin. apply Hq. cbn. set_solver.
Qed.

Definition block_key (b : listPositionBlock) : nat * option nat := (b_id b, b_first b).

Lemma anchors_ext anchors bs bs' : block_key <$> bs = block_key <$> bs' -> anchors_of bs anchors -> anchors_of bs' anchors.
Proof.
  intros E Hanc p i. assert (Hkey : forall bs'' : list listPositionBlock, (exists b, b ∈ bs'' /\ b_id b = i /\ b_first b = Some p) <-> (i, Some p) ∈ block_key <$> bs'').
  { intros bs''. rewrite list_elem_of_fmap. split; [intros (b & Hb & <- & <-); by exists b|intros (b & [= -> ->] & Hb); by exists b]. }
  rewrite (Hanc p i), !Hkey. by rewrite E.
Qed.

(** The item [p] was linked between [pre] and [post]; the list grew by [d] visible
    positions. A split shortens the left neighbour by the length of the new item. *)
Record inserted (h h' : heap) (pre post : list nat) (p : nat) (d : Z) : Prop := {
  in_linked : linked h' None (pre ++ p :: post);
  in_fmt : forall q, q ∈ pre ++ post -> fmt h' q = fmt h q;
  in_vis : forall q, q ∈ pre ++ post -> Some q <> list.last pre -> vis h' q = vis h q;
  in_delta : match list.last pre with Some l => vis h' l + vis h' p = vis h l + d | None => vis h' p = d end
}.

Lemma insert_finish (h' : heap) (pre post : list nat) p it d ix bs1 b bs2 mss1 ms mss2 : linked h' None (pre ++ p :: post) -> h' !! p = Some it ->
  avl (ix_root ix) -> inorder (ix_root ix) = bs1 ++ b :: bs2 -> Forall2 (block_ok h') bs1 mss1 -> block_raw h' (add_sizes 1 d (itemFormatCount it) b) ms -> Forall2 (block_ok h') bs2 mss2 -> (length ms <= 17)%nat ->
  pre ++ p :: post = mjoin mss1 ++ ms ++ mjoin mss2 -> head (mss1 ++ ms :: mss2) <> Some [] -> NoDup (ids (ix_root ix)) -> (forall i, i ∈ ids (ix_root ix) -> (i < ix_next ix)%nat) ->
  anchors_of (bs1 ++ b :: bs2) (ix_anchors ix) -> ix_bits ix = dom (ix_anchors ix) -> ix_indexed ix = list_to_set (pre ++ post) -> ix_items ix = Z.of_nat (length (pre ++ post)) ->
  index_ok h' (pre ++ p :: post) (splitBlock h' (b_id b) (mkIndex (refreshAt (b_id b) (updateNode (b_id b) (add_sizes 1 d (itemFormatCount it)) (ix_root ix))) (ix_anchors ix) (ix_bits ix) ({[p]} ∪ ix_indexed ix) (ix_items ix + 1) (ix_next ix))).
Proof.
  intros Hl Ep Havl Hio HF1 Hb HF2 Hlen Eps Hhead Hids Hfresh Hanc Hbits Hind Hcount. set (f := add_sizes 1 d (itemFormatCount it)).
  destruct (update_refresh (b_id b) f (ix_root ix)) as [Havl' Hio']; [done|done|done|unfold ids; rewrite Hio, fmap_app, fmap_cons; set_solver|].
  rewrite Hio in Hio'. rewrite assign_focus in Hio' by (rewrite <- Hio; exact Hids). set (root := refreshAt _ _) in *.
  assert (Hids' : ids root = ids (ix_root ix)) by (unfold ids; rewrite Hio', Hio, !fmap_app, !fmap_cons; done).
  change (b_id b) with (b_id (f b)) at 1. eapply (splitBlock_spec h' _ _ bs1 (f b) bs2 mss1 ms mss2); [|done|done].
  split; cbn [ix_root ix_anchors ix_bits ix_indexed ix_items ix_next]; [done|done|done|done|done|done|done|by rewrite Hids'|by rewrite Hids'| |done| |].
  - eapply anchors_ext; [|exact Hanc]. by rewrite !fmap_app, !fmap_cons.
  - rewrite Hind, !list_to_set_app_L, list_to_set_cons. set_solver.
  - rewrite Hcount, !length_app. cbn [length]. lia.
Qed.

Lemma first_block (mss1 : list (list nat)) (ms1 : list nat) mss2 : mjoin mss1 ++ ms1 = [] -> head (mss1 ++ mss2) <> Some [] -> mss1 = [] /\ ms1 = [].
Proof.
  intros [E1 E2]%app_eq_nil Hh. split; [|done]. destruct mss1 as [|[|q ms] mss1]; [done|done|done].
Qed.

Lemma insert_after (h h' : heap) pre l post p d ix : index_ok h ((pre ++ [l]) ++ post) ix -> linked h None ((pre ++ [l]) ++ post) -> inserted h h' (pre ++ [l]) post p d ->
  exists ix', insertItem h' p d ix = Some ix' /\ index_ok h' ((pre ++ [l]) ++ p :: post) ix'.
Proof.
  intros Hok Hlold [Hl Hfm Hvis Hd]. rewrite last_snoc in *. pose proof (linked_NoDup _ _ _ Hlold) as Hnd. destruct (io_blocks _ _ _ Hok) as (mss & HF & Emss & Hhead).
  pose proof Hl as Hl1. rewrite <- app_assoc in Emss, Hok, Hnd, Hl1. cbn [app] in Emss, Hok, Hnd, Hl1. destruct (around h _ _ HF _ _ _ Emss) as (bs1 & b & bs2 & mss1 & ms1 & ms2 & mss2 & Ha).
  pose proof (blockFor_spec h h' _ ix _ _ _ _ _ _ _ _ _ _ _ (p :: post) Hok Hnd Emss eq_refl Ha Hl1) as Hbf.
  assert (Hp : exists it, h' !! p = Some it /\ i_left it = Some l).
  { apply linked_lseg in Hl. rewrite lseg_app in Hl. destruct Hl as [_ (it & E & El & _)]. exists it. split; [done|]. rewrite El. unfold last_or. by rewrite last_snoc. }
  destruct Hp as (it & Ep & El). unfold insertItem. rewrite Ep. cbn [mbind option_bind]. unfold insertTarget. rewrite El, Hbf. cbn [fmap option_fmap option_map mbind option_bind].
  eexists. split; [reflexivity|]. destruct Ha as [Ebs -> HF1 Hb HF2 -> ->]. rewrite <- app_assoc in Hfm, Hvis. cbn [app] in Hfm, Hvis.
  assert (Hne : forall q, q ∈ mjoin mss1 \/ q ∈ ms1 \/ q ∈ ms2 \/ q ∈ mjoin mss2 -> vis h' q = vis h q /\ fmt h' q = fmt h q).
  { intros q Hq. split; [apply Hvis; [set_solver|]|apply Hfm; set_solver]. intros [= ->]. rewrite !list.NoDup_app, list.NoDup_cons in Hnd. set_solver. }
  eapply (insert_finish h' _ _ p it d ix bs1 b bs2 mss1 (ms1 ++ l :: p :: ms2) mss2); try done; try apply Hok.
  - by eapply blocks_transport; [|eauto].
  - destruct Hb as [Hb1 Hb2 Hb3 Hb4 _]. split; cbn [add_sizes b_first b_items b_visible b_liveFormats].
    + rewrite Hb1. by destruct ms1.
    + rewrite Hb2, !length_app. cbn [length]. lia.
    + rewrite Hb3, !sum_app, !sum_cons. rewrite (sum_ext (vis h') (vis h) ms1), (sum_ext (vis h') (vis h) ms2) by (intros; apply Hne; auto). lia.
    + rewrite Hb4, !sum_app, !sum_cons. rewrite (sum_ext (fmt h') (fmt h) ms1), (sum_ext (fmt h') (fmt h) ms2), (Hfm l) by (try (intros; apply Hne; auto); set_solver). assert (fmt h' p = itemFormatCount it) as -> by (unfold fmt; by rewrite Ep). lia.
  - by eapply blocks_transport; [|eauto].
  - pose proof (bo_max _ _ _ Hb) as Hm. rewrite length_app in *. cbn [length] in *. lia.
  - rewrite <- !app_assoc. done.
  - destruct mss1; [by destruct ms1|exact Hhead].
  - pose proof (io_anchors _ _ _ Hok) as Han. by rewrite Ebs in Han.
  - rewrite (io_indexed _ _ _ Hok). f_equal. app_norm.
  - rewrite (io_items _ _ _ Hok). do 2 f_equal. app_norm.
Qed.

Lemma update_first_same id first t : nodeAggregates (updateNode id (set_first first) t) = nodeAggregates t.
Proof. by destruct t. Qed.

Lemma update_first_avl id first t : avl t -> avl (updateNode id (set_first first) t).
Proof.
  induction t as [|l IHl b a r IHr]; [done|]. intros (Hl & Hr & E & Hb)%avl_Node. cbn [updateNode].
  assert (E' : Node (updateNode id (set_first first) l) (if decide (b_id b = id) then set_first first b else b) a (updateNode id (set_first first) r) =
    recalculated (updateNode id (set_first first) l) (if decide (b_id b = id) then set_first first b else b) (updateNode id (set_first first) r)).
  { unfold recalculated, nodeItems, nodeVisible, nodeFormats, nodeHeight in *. rewrite !update_first_same. injection E as E. rewrite E. by destruct (decide _). }
  rewrite E'. apply recalculated_avl; [auto..|]. unfold nodeHeight in *. by rewrite !update_first_same.
Qed.

(** The anchors after a new first item of the block in focus. *)
Lemma anchors_first anchors bs1 b bs2 first : anchors_of (bs1 ++ b :: bs2) anchors -> (forall p, first = Some p -> forall b', b' ∈ bs1 ++ b :: bs2 -> b_first b' <> Some p) -> (forall r, b_first b = Some r -> forall b', b' ∈ bs1 ++ bs2 -> b_first b' <> Some r) ->
  let rest := match b_first b with Some r => base.delete r anchors | None => anchors end in
  anchors_of (bs1 ++ set_first first b :: bs2) (match first with Some p => <[p := b_id b]> rest | None => rest end).
Proof.
  intros Hanc Hp Hr rest q i.
  assert (Hrest : rest !! q = Some i <-> anchors !! q = Some i /\ b_first b <> Some q).
  { unfold rest. destruct (b_first b) as [r|]; [|naive_solver]. rewrite lookup_delete_Some. naive_solver. }
  destruct (decide (first = Some q)) as [->|Hq].
  - rewrite lookup_insert_eq. split; [intros [= <-]; exists (set_first (Some q) b); split_and!; [set_solver|done|done]|]. intros (b2 & Hb2 & <- & Ef). rewrite elem_of_app, elem_of_cons in Hb2.
    destruct Hb2 as [Hb2|[->|Hb2]]; [|done|]; exfalso; apply (Hp q eq_refl b2); (done || set_solver).
  - assert (Hlook : match first with Some p => <[p := b_id b]> rest | None => rest end !! q = rest !! q) by (destruct first as [p|]; [rewrite lookup_insert_ne by congruence|]; done). rewrite Hlook, Hrest, (Hanc q i). split.
    + intros [(b2 & Hb2 & <- & Ef) Hne]. exists b2. split_and!; [|done|done]. rewrite elem_of_app, elem_of_cons in *. destruct Hb2 as [?|[->|?]]; [by left|done|by right; right].
    + intros (b2 & Hb2 & <- & Ef). rewrite elem_of_app, elem_of_cons in Hb2. destruct Hb2 as [Hb2|[->|Hb2]]; [|cbn in Ef; congruence|]; (split; [exists b2; split_and!; (done || set_solver)|intros E; apply (Hr q E b2); (done || set_solver)]).
Qed.

Lemma first_elem h bs mss b q : Forall2 (block_ok h) bs mss -> b ∈ bs -> b_first b = Some q -> q ∈ mjoin mss.
Proof.
  intros HF (i & Hi)%list_elem_of_lookup Ef. destruct (Forall2_lookup_l _ _ _ _ _ HF Hi) as (ms & Hi' & Hb). apply (elem_join _ ms); [by eapply list_elem_of_lookup_2|].
  pose proof (bo_first _ _ _ Hb) as E. rewrite Ef in E. destruct ms; [done|]. injection E as ->. by left.
Qed.

Lemma insert_front (h h' : heap) r post p d ix : index_ok h (r :: post) ix -> linked h None (r :: post) -> inserted h h' [] (r :: post) p d ->
  exists ix', insertItem h' p d ix = Some ix' /\ index_ok h' (p :: r :: post) ix'.
Proof.
  intros Hok Hlold [Hl Hfm Hvis Hd]. cbn [list.last app] in *. pose proof (linked_NoDup _ _ _ Hlold) as Hnd. pose proof (linked_NoDup _ _ _ Hl) as Hnd'. destruct (io_blocks _ _ _ Hok) as (mss & HF & Emss & Hhead).
  destruct (around h _ _ HF [] r post Emss) as (bs1 & b & bs2 & mss1 & ms1 & ms2 & mss2 & Ha). pose proof (anchors_around _ _ _ [] r post _ _ _ _ _ _ _ _ Hok Hnd Emss eq_refl Ha) as Hanc.
  assert (Hnil : mss1 = [] /\ ms1 = []) by (apply (first_block mss1 ms1 ((ms1 ++ r :: ms2) :: mss2)); [symmetry; apply Ha|by rewrite <- (ba_mss _ _ _ _ _ _ _ _ _ _ _ _ _ Ha)]). destruct Hnil as [-> ->].
  destruct Ha as [Ebs -> HF1 Hb HF2 _ Epost]. inversion HF1; subst bs1. cbn [app] in *. pose proof Hl as (it & Ep & El & Er & _). cbn [head] in Er.
  assert (Hbf : blockFor h' ix (Some r) = Some b).
  { unfold blockFor. change (Z.to_nat listPositionBlockMaxItems) with 16%nat. cbn [blockForLoop]. pose proof (Hanc [] r ms2 eq_refl) as Ea. cbn in Ea. rewrite decide_True by (rewrite (io_bits _ _ _ Hok); by eapply elem_of_dom_2).
    rewrite Ea. cbn [mbind option_bind]. rewrite (blockAt_elem _ _ _ b Hok) by (rewrite Ebs; by left). rewrite (bo_items _ _ _ Hb). cbn [length]. by destruct (Z.ltb_spec 0 (Z.of_nat (S (length ms2)))); [|lia]. }
  unfold insertItem. rewrite Ep. cbn [mbind option_bind]. unfold insertTarget. rewrite El, Er, Hbf. cbn [fmap option_fmap option_map mbind option_bind]. eexists. split; [reflexivity|].
  set (ix1 := changeFirst b (Some p) ix). pose proof (io_ids _ _ _ Hok) as Hids. unfold ids in Hids. rewrite Ebs in Hids.
  assert (Hio1 : inorder (ix_root ix1) = [] ++ set_first (Some p) b :: bs2) by (cbn [ix1 changeFirst ix_root]; rewrite inorder_updateNode, Ebs; apply (assign_focus (set_first (Some p)) [] b bs2 Hids)).
  assert (Hids1 : ids (ix_root ix1) = ids (ix_root ix)) by (unfold ids; by rewrite Hio1, Ebs). rewrite Epost in *.
  assert (Hne : forall q, q ∈ r :: ms2 ++ mjoin mss2 -> vis h' q = vis h q /\ fmt h' q = fmt h q) by (intros q Hq; split; [by apply Hvis|by apply Hfm]).
  change (b_id b) with (b_id (set_first (Some p) b)).
  eapply (insert_finish h' [] (r :: ms2 ++ mjoin mss2) p it d ix1 [] (set_first (Some p) b) bs2 [] (p :: r :: ms2) mss2); cbn [ix1 changeFirst ix_root ix_anchors ix_bits ix_indexed ix_items ix_next]; try done; try (by constructor).
  - apply update_first_avl, Hok.
  - destruct Hb as [Hb1 Hb2 Hb3 Hb4 _]. split; cbn [add_sizes set_first b_first b_items b_visible b_liveFormats]; [done|rewrite Hb2; cbn [length]; lia|..].
    + rewrite Hb3, (sum_cons _ p), (sum_ext (vis h') (vis h) (r :: ms2)) by (intros; apply Hne; set_solver). lia.
    + rewrite Hb4, (sum_cons _ p), (sum_ext (fmt h') (fmt h) (r :: ms2)) by (intros; apply Hne; set_solver). assert (fmt h' p = itemFormatCount it) as -> by (unfold fmt; by rewrite Ep). lia.
  - eapply blocks_transport; [exact HF2|]. intros q Hq. apply Hne. set_solver.
  - pose proof (bo_max _ _ _ Hb) as Hm. cbn [length] in *. lia.
  - cbn [ix1 changeFirst ix_root] in Hids1. rewrite Hids1. apply Hok.
  - cbn [ix1 changeFirst ix_root] in Hids1. rewrite Hids1. apply Hok.
  - pose proof (io_anchors _ _ _ Hok) as Han. rewrite Ebs in Han. apply (anchors_first _ [] b bs2 (Some p) Han).
    + intros q [= <-] b' Hb' Ef. rewrite Ebs in HF. apply (first_elem _ _ _ _ _ HF Hb') in Ef. apply list.NoDup_cons in Hnd' as [Hnd' _]. apply Hnd'. exact Ef.
    + intros q Ef b' Hb' Ef'. rewrite (bo_first _ _ _ Hb) in Ef. injection Ef as <-. apply (first_elem _ _ _ _ _ HF2 Hb') in Ef'. apply list.NoDup_cons in Hnd as [Hnd _]. set_solver.
  - rewrite dom_insert_L, (io_bits _ _ _ Hok). destruct (b_first b); [by rewrite dom_delete_L|done].
  - apply Hok.
  - apply Hok.
Qed.

Lemma empty_index h ix : index_ok h [] ix -> ix_root ix = Nil.
Proof.
  intros Hok. destruct (io_blocks _ _ _ Hok) as (mss & HF & Emss & Hhead). destruct mss as [|[|q ms] mss]; [|done|done]. apply list.Forall2_nil_inv_r in HF.
  destruct (ix_root ix) as [|l b a r]; [done|]. cbn [inorder] in HF. by destruct (inorder l).
Qed.

Lemma insert_empty (h h' : heap) p d ix : index_ok h [] ix -> inserted h h' [] [] p d -> exists ix', insertItem h' p d ix = Some ix' /\ index_ok h' [p] ix'.
Proof.
  intros Hok [Hl Hfm Hvis Hd]. cbn [list.last app] in *. pose proof (empty_index _ _ Hok) as Eroot. pose proof Hl as (it & Ep & El & Er & _). cbn [head] in Er.
  unfold insertItem. rewrite Ep. cbn [mbind option_bind]. unfold insertTarget. rewrite El, Er, Eroot. cbn [mbind option_bind]. eexists. split; [reflexivity|].
  set (b := mkBlock (ix_next ix) (Some p) 0 0 0).
  set (ix1 := mkIndex (Node Nil b (mkAggregates 0 0 0 1) Nil) (<[p := ix_next ix]> (ix_anchors ix)) ({[p]} ∪ ix_bits ix) (ix_indexed ix) (ix_items ix) (S (ix_next ix))).
  assert (Hanc : forall q, ix_anchors ix !! q = None).
  { intros q. destruct (ix_anchors ix !! q) as [i|] eqn:E; [|done]. apply (io_anchors _ _ _ Hok) in E as (b' & Hb' & _). rewrite Eroot in Hb'. by apply not_elem_of_nil in Hb'. }
  eapply (insert_finish h' [] [] p it d ix1 [] b [] [] [p] []); cbn [ix1 ix_root ix_anchors ix_bits ix_indexed ix_items ix_next]; try done; try (by constructor).
  - split; cbn [add_sizes b b_first b_items b_visible b_liveFormats]; [done|done|rewrite sum_cons; cbn; lia|]. rewrite sum_cons. assert (fmt h' p = itemFormatCount it) as -> by (unfold fmt; by rewrite Ep). cbn. lia.
  - cbn. lia.
  - apply NoDup_singleton.
  - intros i. unfold ids. cbn. rewrite list_elem_of_singleton. lia.
  - intros q i. cbn [app]. destruct (decide (q = p)) as [->|Hq].
    + rewrite lookup_insert_eq. split; [intros [= <-]; exists b; split_and!; [by left|done|done]|]. intros (b' & ->%list_elem_of_singleton & <- & _). done.
    + rewrite lookup_insert_ne by done. rewrite Hanc. split; [done|]. intros (b' & ->%list_elem_of_singleton & _ & [= E]). done.
  - rewrite dom_insert_L, (io_bits _ _ _ Hok). done.
  - apply Hok.
  - apply Hok.
Qed.

Lemma insertItem_spec (h h' : heap) pre post p d ix : index_ok h (pre ++ post) ix -> linked h None (pre ++ post) -> inserted h h' pre post p d ->
  exists ix', insertItem h' p d ix = Some ix' /\ index_ok h' (pre ++ p :: post) ix'.
Proof.
  intros Hok Hl Hin. destruct pre as [|l pre _] using rev_ind; [|by eapply insert_after]. destruct post as [|r post]; [by eapply insert_empty|by eapply insert_front].
Qed.

(** *** Items that change their length *)

(** The list keeps its items; [p] grows by [d] visible positions. *)
Record resized (h h' : heap) (ps : list nat) (p : nat) (d : Z) : Prop := {
  rs_linked : linked h' None ps;
  rs_fmt : forall q, q ∈ ps -> fmt h' q = fmt h q;
  rs_vis : forall q, q ∈ ps -> q <> p -> vis h' q = vis h q;
  rs_delta : vis h' p = vis h p + d
}.

Lemma resize_spec (h h' : heap) ps p d ix : index_ok h ps ix -> linked h None ps -> p ∈ ps -> (forall q, q ∈ ps -> 0 <= vis h q) -> resized h h' ps p d ->
  exists b, blockFor h' ix (Some p) = Some b /\ vis h p <= b_visible b /\ index_ok h' ps (with_root (refreshAt (b_id b) (updateNode (b_id b) (add_sizes 0 d 0) (ix_root ix))) ix).
Proof.
  intros Hok Hlold Hp Hpos [Hl Hfm Hvis Hd]. pose proof (linked_NoDup _ _ _ Hl) as Hnd. apply list_elem_of_split in Hp as (pre & post & ->). destruct (io_blocks _ _ _ Hok) as (mss & HF & Emss & Hhead).
  destruct (around h _ _ HF _ _ _ Emss) as (bs1 & b & bs2 & mss1 & ms1 & ms2 & mss2 & Ha). exists b. split; [by eapply (blockFor_spec h h')|]. destruct Ha as [Ebs -> HF1 Hb HF2 -> ->].
  assert (Hne : forall q, q ∈ mjoin mss1 \/ q ∈ ms1 \/ q ∈ ms2 \/ q ∈ mjoin mss2 -> vis h' q = vis h q /\ fmt h' q = fmt h q).
  { intros q Hq. split; [apply Hvis; [set_solver|]|apply Hfm; set_solver]. intros ->. rewrite !list.NoDup_app, list.NoDup_cons in Hnd. set_solver. }
  assert (Hsum : forall ms, (forall q, q ∈ ms -> 0 <= vis h q) -> 0 <= sum (vis h) ms) by (clear; induction ms as [|q ms IH]; intros Hq; [done|]; rewrite sum_cons; specialize (IH ltac:(set_solver)); specialize (Hq q ltac:(by left)); lia).
  split. { rewrite (bo_visible _ _ _ Hb), sum_app, sum_cons. pose proof (Hsum ms1 ltac:(set_solver)). pose proof (Hsum ms2 ltac:(set_solver)). lia. }
  pose proof (io_ids _ _ _ Hok) as Hids. destruct (update_refresh (b_id b) (add_sizes 0 d 0) (ix_root ix)) as [Havl Hio]; [apply Hok|done|done|unfold ids; rewrite Ebs, fmap_app, fmap_cons; set_solver|].
  unfold ids in Hids. rewrite Ebs in Hio, Hids. rewrite assign_focus in Hio by done. set (root := refreshAt _ _) in *. set (b' := add_sizes 0 d 0 b) in *.
  eapply (focus_ok _ _ _ bs1 b' bs2 mss1 (ms1 ++ p :: ms2) mss2); [|apply Hb]. split; cbn [with_root ix_root ix_anchors ix_bits ix_indexed ix_items ix_next].
  - done.
  - done.
  - eapply blocks_transport; [exact HF1|]. auto.
  - destruct Hb as [Hb1 Hb2 Hb3 Hb4 _]. unfold b'. split; cbn [add_sizes b_first b_items b_visible b_liveFormats]; [done|rewrite Hb2; lia|..].
    + rewrite Hb3, !sum_app, !sum_cons. rewrite (sum_ext (vis h') (vis h) ms1), (sum_ext (vis h') (vis h) ms2) by (intros; apply Hne; auto). lia.
    + rewrite Hb4, Z.add_0_r. apply sum_ext. intros q Hq. symmetry. apply Hfm. set_solver.
  - eapply blocks_transport; [exact HF2|]. auto.
  - app_norm.
  - done.
  - unfold ids. rewrite Hio, fmap_app, fmap_cons. by rewrite fmap_app, fmap_cons in Hids.
  - unfold ids. rewrite Hio. intros i Hi. apply (io_fresh _ _ _ Hok). unfold ids. rewrite Ebs, fmap_app, fmap_cons. by rewrite fmap_app, fmap_cons in Hi.
  - pose proof (io_anchors _ _ _ Hok) as Han. rewrite Ebs in Han. eapply anchors_ext; [|exact Han]. by rewrite !fmap_app, !fmap_cons.
  - apply Hok.
  - apply Hok.
  - apply Hok.
Qed.

Lemma deleteItem_spec (h h' : heap) ps p d ix : index_ok h ps ix -> linked h None ps -> p ∈ ps -> (forall q, q ∈ ps -> 0 <= vis h q) -> resized h h' ps p (- d) -> d <= vis h p ->
  exists ix', deleteItem h' p d ix = Some ix' /\ index_ok h' ps ix'.
Proof.
  intros Hok Hl Hp Hpos Hr Hd. destruct (resize_spec h h' ps p (- d) ix Hok Hl Hp Hpos Hr) as (b & Hbf & Hb & Hok'). unfold deleteItem. rewrite Hbf. cbn [mbind option_bind].
  destruct (Z.ltb_spec (b_visible b) d); [lia|]. by eexists.
Qed.

(** *** Merging two items *)

(** [right] is taken into [left]: the list loses [right], and [left] grows by its
    visible length. A format is never merged. *)
Record merged (h h' : heap) (pre : list nat) (left right : nat) (post : list nat) : Prop := {
  mg_fmt : forall q, q ∈ pre ++ left :: post -> fmt h' q = fmt h q;
  mg_vis : forall q, q ∈ pre ++ post -> vis h' q = vis h q;
  mg_left : vis h' left = vis h left + vis h right;
  mg_right : fmt h right = 0
}.

Lemma updateNode_compose id f g t : (forall b, b_id (f b) = b_id b) -> updateNode id g (updateNode id f t) = updateNode id (fun b => g (f b)) t.
Proof.
  intros Hf. induction t as [|l IHl b a r IHr]; [done|]. cbn [updateNode]. rewrite IHl, IHr. f_equal. destruct (decide (b_id b = id)) as [E|E]; [by rewrite Hf, decide_True|by rewrite decide_False].
Qed.

Lemma sum_nonneg f ms : (forall q, q ∈ ms -> 0 <= f q) -> 0 <= sum f ms.
Proof. induction ms as [|q ms IH]; intros Hq; [done|]. rewrite sum_cons. specialize (IH ltac:(intros x Hx; apply Hq; by right)). specialize (Hq q ltac:(by left)). lia. Qed.

(** Both in the block in focus. *)
Lemma merge_same (h h' : heap) pre left right post ix bs1 b bs2 mss1 ms1 ms2 mss2 : index_ok h (pre ++ left :: right :: post) ix -> linked h None (pre ++ left :: right :: post) -> merged h h' pre left right post ->
  pre = mjoin mss1 ++ ms1 -> post = ms2 ++ mjoin mss2 -> inorder (ix_root ix) = bs1 ++ b :: bs2 -> Forall2 (block_ok h) bs1 mss1 -> block_ok h b (ms1 ++ left :: right :: ms2) -> Forall2 (block_ok h) bs2 mss2 ->
  head (mss1 ++ (ms1 ++ left :: right :: ms2) :: mss2) <> Some [] ->
  index_ok h' (pre ++ left :: post) (mkIndex (refreshAt (b_id b) (updateNode (b_id b) (add_sizes (-1) 0 0) (ix_root ix))) (ix_anchors ix) (ix_bits ix) (ix_indexed ix ∖ {[right]}) (ix_items ix - 1) (ix_next ix)).
Proof.
  intros Hok Hl [Hfm Hvis Hleft Hright] -> -> Ebs HF1 Hb HF2 Hhead. pose proof (linked_NoDup _ _ _ Hl) as Hnd. pose proof (io_ids _ _ _ Hok) as Hids.
  destruct (update_refresh (b_id b) (add_sizes (-1) 0 0) (ix_root ix)) as [Havl Hio]; [apply Hok|done|done|unfold ids; rewrite Ebs, fmap_app, fmap_cons; set_solver|].
  unfold ids in Hids. rewrite Ebs in Hio, Hids. rewrite assign_focus in Hio by done. set (root := refreshAt _ _) in *. set (b' := add_sizes (-1) 0 0 b) in *.
  assert (Hne : forall q, q ∈ mjoin mss1 \/ q ∈ ms1 \/ q ∈ ms2 \/ q ∈ mjoin mss2 -> vis h' q = vis h q /\ fmt h' q = fmt h q) by (intros q Hq; split; [apply Hvis; set_solver|apply Hfm; set_solver]).
  eapply (focus_ok _ _ _ bs1 b' bs2 mss1 (ms1 ++ left :: ms2) mss2); [|pose proof (bo_max _ _ _ Hb) as Hm; rewrite length_app in *; cbn [length] in *; lia].
  split; cbn [ix_root ix_anchors ix_bits ix_indexed ix_items ix_next].
  - done.
  - done.
  - eapply blocks_transport; [exact HF1|]. auto.
  - destruct Hb as [Hb1 Hb2 Hb3 Hb4 _]. unfold b'. split; cbn [add_sizes b_first b_items b_visible b_liveFormats].
    + rewrite Hb1. by destruct ms1.
    + rewrite Hb2, !length_app. cbn [length]. lia.
    + rewrite Hb3, !sum_app, !sum_cons. rewrite (sum_ext (vis h') (vis h) ms1), (sum_ext (vis h') (vis h) ms2) by (intros; apply Hne; auto). lia.
    + rewrite Hb4, !sum_app, !sum_cons. rewrite (sum_ext (fmt h') (fmt h) ms1), (sum_ext (fmt h') (fmt h) ms2), (Hfm left) by (try (intros; apply Hne; auto); set_solver). lia.
  - eapply blocks_transport; [exact HF2|]. auto.
  - app_norm.
  - destruct mss1; [by destruct ms1|exact Hhead].
  - unfold ids. rewrite Hio, fmap_app, fmap_cons. by rewrite fmap_app, fmap_cons in Hids.
  - unfold ids. rewrite Hio. intros i Hi. apply (io_fresh _ _ _ Hok). unfold ids. rewrite Ebs, fmap_app, fmap_cons. by rewrite fmap_app, fmap_cons in Hi.
  - pose proof (io_anchors _ _ _ Hok) as Han. rewrite Ebs in Han. eapply anchors_ext; [|exact Han]. by rewrite !fmap_app, !fmap_cons.
  - apply Hok.
  - rewrite (io_indexed _ _ _ Hok). rewrite !list.NoDup_app, !list.NoDup_cons in Hnd. rewrite !list_to_set_app_L. cbn [list_to_set]. set_solver.
  - rewrite (io_items _ _ _ Hok), !length_app. cbn [length]. lia.
Qed.

(** In two blocks: the last item of one and the first of another, with only empty
    blocks between. *)
Record apart (h : heap) (ix : listPositionIndex) (pre : list nat) (left right : nat) (post : list nat) (bsa : list listPositionBlock) (lb : listPositionBlock) (bsb : list listPositionBlock) (rb : listPositionBlock) (bs2 : list listPositionBlock)
  (mssa : list (list nat)) (msl : list nat) (mssb : list (list nat)) (ms2 : list nat) (mss2 : list (list nat)) : Prop := {
  ap_pre : pre = mjoin mssa ++ msl;
  ap_post : post = ms2 ++ mjoin mss2;
  ap_empty : mjoin mssb = [];
  ap_blocks : inorder (ix_root ix) = bsa ++ lb :: bsb ++ rb :: bs2;
  ap_left : Forall2 (block_ok h) bsa mssa;
  ap_lb : block_ok h lb (msl ++ [left]);
  ap_between : Forall2 (block_ok h) bsb mssb;
  ap_rb : block_ok h rb (right :: ms2);
  ap_right : Forall2 (block_ok h) bs2 mss2;
  ap_head : head (mssa ++ (msl ++ [left]) :: mssb ++ (right :: ms2) :: mss2) <> Some []
}.

Lemma apart_assign f1 f2 bsa lb bsb rb bs2 : (forall b, b_id (f1 b) = b_id b) -> NoDup (b_id <$> bsa ++ lb :: bsb ++ rb :: bs2) ->
  assign (b_id rb) f2 <$> (assign (b_id lb) f1 <$> bsa ++ lb :: bsb ++ rb :: bs2) = bsa ++ f1 lb :: bsb ++ f2 rb :: bs2.
Proof.
  intros Hf Hnd. rewrite assign_focus by done. replace (bsa ++ f1 lb :: bsb ++ rb :: bs2) with ((bsa ++ f1 lb :: bsb) ++ rb :: bs2) by app_norm. rewrite assign_focus; [app_norm|].
  rewrite fmap_app, fmap_cons, fmap_app, fmap_cons, Hf. rewrite fmap_app, fmap_cons, fmap_app, fmap_cons in Hnd. by rewrite <- app_assoc.
Qed.

Lemma apart_anchors h ix pre left right post bsa lb bsb rb bs2 mssa msl mssb ms2 mss2 f1 f2 : index_ok h (pre ++ left :: right :: post) ix -> NoDup (pre ++ left :: right :: post) ->
  apart h ix pre left right post bsa lb bsb rb bs2 mssa msl mssb ms2 mss2 -> (forall b, block_key (f1 b) = block_key b) -> (forall b, block_key (f2 b) = (b_id b, head ms2)) ->
  let rest := base.delete right (ix_anchors ix) in
  anchors_of (bsa ++ f1 lb :: bsb ++ f2 rb :: bs2) (match head ms2 with Some p => <[p := b_id rb]> rest | None => rest end).
Proof.
  intros Hok Hnd Ha Hf1 Hf2 rest. pose proof (io_anchors _ _ _ Hok) as Han. rewrite (ap_blocks _ _ _ _ _ _ _ _ _ _ _ _ _ _ _ _ Ha) in Han.
  assert (Han' : anchors_of ((bsa ++ lb :: bsb) ++ rb :: bs2) (ix_anchors ix)) by (rewrite <- app_assoc; exact Han). pose proof (ap_rb _ _ _ _ _ _ _ _ _ _ _ _ _ _ _ _ Ha) as Hrb.
  pose proof (anchors_first _ (bsa ++ lb :: bsb) rb bs2 (head ms2) Han') as Hfirst. rewrite (bo_first _ _ _ Hrb) in Hfirst. cbn [head] in Hfirst.
  eapply anchors_ext; [|apply Hfirst].
  - rewrite !fmap_app, !fmap_cons, !fmap_app, !fmap_cons, Hf1, Hf2. app_norm.
  - clear Hfirst. intros p Ep b' Hb' Ef. destruct ms2 as [|p' ms2]; [done|]. injection Ep as ->. assert (Hs : ix_anchors ix !! p = Some (b_id b')) by (apply Han'; by exists b').
    destruct Ha. assert (Hnone : ix_anchors ix !! p = None); [|congruence].
    apply (anchors_inner _ (bsa ++ lb :: bsb) rb bs2 (mssa ++ (msl ++ [left]) :: mssb) (right :: p :: ms2) mss2 Han') with (ms1 := [right]) (ms2 := ms2); [..|done].
    + apply Forall2_app; [by eapply blocks_firsts|]. constructor; [apply ap_lb0|by eapply blocks_firsts].
    + apply Hrb.
    + by eapply blocks_firsts.
    + rewrite join_app. change (mjoin ((msl ++ [left]) :: mssb)) with ((msl ++ [left]) ++ mjoin mssb). rewrite ap_empty0, app_nil_r. rewrite ap_pre0, ap_post0 in Hnd. by rewrite <- !app_assoc in *.
  - clear Hfirst. intros r [= <-] b' Hb' Ef. assert (Hs : ix_anchors ix !! right = Some (b_id b')) by (apply Han'; exists b'; split_and!; [set_solver|done|done]).
    assert (Hs' : ix_anchors ix !! right = Some (b_id rb)) by (apply Han'; exists rb; split_and!; [set_solver|done|apply Hrb]). rewrite Hs in Hs'. injection Hs' as Hid.
    pose proof (io_ids _ _ _ Hok) as Hids. unfold ids in Hids. rewrite (ap_blocks _ _ _ _ _ _ _ _ _ _ _ _ _ _ _ _ Ha) in Hids. rewrite app_comm_cons, app_assoc, fmap_app, fmap_cons, list.NoDup_app, list.NoDup_cons in Hids.
    destruct Hids as (_ & Hd1 & Hd2 & _). apply elem_of_app in Hb' as [Hb'|Hb'].
    + apply (Hd1 (b_id b')); [by apply list_elem_of_fmap_2|]. rewrite Hid. by left.
    + apply Hd2. rewrite <- Hid. by apply list_elem_of_fmap_2.
Qed.

Lemma merge_apart (h h' : heap) pre left right post ix bsa lb bsb rb bs2 mssa msl mssb ms2 mss2 f1 f2 : index_ok h (pre ++ left :: right :: post) ix -> linked h None (pre ++ left :: right :: post) -> merged h h' pre left right post ->
  apart h ix pre left right post bsa lb bsb rb bs2 mssa msl mssb ms2 mss2 -> f1 = add_sizes 0 (vis h right) 0 -> (forall b, f2 b = mkBlock (b_id b) (head ms2) (b_items b - 1) (b_visible b - vis h right) (b_liveFormats b)) ->
  let rest := base.delete right (ix_anchors ix) in
  index_ok h' (pre ++ left :: post)
    (mkIndex (refreshAt (b_id rb) (refreshAt (b_id lb) (updateNode (b_id rb) f2 (updateNode (b_id lb) f1 (ix_root ix)))))
       (match head ms2 with Some p => <[p := b_id rb]> rest | None => rest end)
       (match head ms2 with Some p => {[p]} ∪ (ix_bits ix ∖ {[right]}) | None => ix_bits ix ∖ {[right]} end)
       (ix_indexed ix ∖ {[right]}) (ix_items ix - 1) (ix_next ix)).
Proof.
  intros Hok Hl [Hfm Hvis Hleft Hright] Ha -> Hf2 rest. pose proof (linked_NoDup _ _ _ Hl) as Hnd. pose proof (io_ids _ _ _ Hok) as Hids. pose proof (ap_blocks _ _ _ _ _ _ _ _ _ _ _ _ _ _ _ _ Ha) as Ebs.
  assert (Hid2 : forall b, b_id (f2 b) = b_id b) by (intros b; by rewrite Hf2). assert (Hinl : b_id lb ∈ ids (ix_root ix)) by (unfold ids; rewrite Ebs, fmap_app, fmap_cons; set_solver).
  assert (Hinr : b_id rb ∈ ids (ix_root ix)) by (unfold ids; rewrite Ebs, fmap_app, fmap_cons, fmap_app, fmap_cons; set_solver).
  destruct (update2_refresh (b_id lb) (add_sizes 0 (vis h right) 0) (b_id rb) f2 (ix_root ix)) as [Havl Hio]; [apply Hok|done|done|done|done|done|]. unfold ids in Hids. rewrite Ebs in Hio, Hids.
  rewrite apart_assign in Hio by done. set (root := refreshAt (b_id rb) _) in *. assert (Hanc := apart_anchors _ _ _ _ _ _ _ _ _ _ _ _ _ _ _ _ (add_sizes 0 (vis h right) 0) f2 Hok Hnd Ha ltac:(done) ltac:(intros b; by rewrite Hf2)). cbn zeta in Hanc. fold rest in Hanc.
  assert (Hids' : ids root = ids (ix_root ix)) by (unfold ids; rewrite Hio, Ebs, !fmap_app, !fmap_cons, !fmap_app, !fmap_cons, Hid2; done).
  destruct Ha as [-> -> Hem _ HFa Hlb HFb Hrb HF2 Hhead].
  assert (Hne : forall q, q ∈ mjoin mssa \/ q ∈ msl \/ q ∈ ms2 \/ q ∈ mjoin mss2 -> vis h' q = vis h q /\ fmt h' q = fmt h q) by (intros q Hq; split; [apply Hvis; set_solver|apply Hfm; set_solver]).
  split; cbn [ix_root ix_anchors ix_bits ix_indexed ix_items ix_next].
  - done.
  - exists (mssa ++ (msl ++ [left]) :: mssb ++ ms2 :: mss2). split_and!.
    + rewrite Hio. apply Forall2_app; [eapply blocks_transport; [exact HFa|auto]|]. constructor; [|apply Forall2_app; [|constructor]].
      * destruct Hlb as [Hb1 Hb2 Hb3 Hb4 Hm]. split; cbn [add_sizes b_first b_items b_visible b_liveFormats]; [done|lia| | |done].
        -- rewrite Hb3, !sum_app, !sum_cons. rewrite (sum_ext (vis h') (vis h) msl) by (intros; apply Hne; auto). cbn. lia.
        -- rewrite Hb4, Z.add_0_r. apply sum_ext. intros q Hq. symmetry. apply Hfm. set_solver.
      * eapply blocks_transport; [exact HFb|]. rewrite Hem. intros q Hq. by apply not_elem_of_nil in Hq.
      * destruct Hrb as [Hb1 Hb2 Hb3 Hb4 Hm]. rewrite Hf2. cbn [length] in *. split; cbn [b_first b_items b_visible b_liveFormats]; [done|lia| | |lia].
        -- rewrite Hb3, sum_cons, (sum_ext (vis h') (vis h) ms2) by (intros; apply Hne; auto). lia.
        -- rewrite Hb4, sum_cons, (sum_ext (fmt h') (fmt h) ms2) by (intros; apply Hne; auto). lia.
      * eapply blocks_transport; [exact HF2|auto].
    + rewrite join_app. change (mjoin ((msl ++ [left]) :: mssb ++ ms2 :: mss2)) with ((msl ++ [left]) ++ mjoin (mssb ++ ms2 :: mss2)). rewrite join_app, Hem. cbn. app_norm.
    + destruct mssa; [by destruct msl|exact Hhead].
  - rewrite Hids'. apply Hok.
  - rewrite Hids'. apply Hok.
  - rewrite Hio. exact Hanc.
  - rewrite (io_bits _ _ _ Hok). unfold rest. destruct (head ms2) as [p|]; [rewrite dom_insert_L|]; by rewrite dom_delete_L.
  - rewrite (io_indexed _ _ _ Hok). rewrite !list.NoDup_app, !list.NoDup_cons in Hnd. rewrite !list_to_set_app_L. cbn [list_to_set]. set_solver.
  - rewrite (io_items _ _ _ Hok), !length_app. cbn [length]. lia.
Qed.

(** Where the two items are. *)
Lemma neighbours h ix pre left right post : index_ok h (pre ++ left :: right :: post) ix -> linked h None (pre ++ left :: right :: post) ->
  (exists bs1 b bs2 mss1 ms1 ms2 mss2, blockFor h ix (Some left) = Some b /\ blockFor h ix (Some right) = Some b /\
     pre = mjoin mss1 ++ ms1 /\ post = ms2 ++ mjoin mss2 /\ inorder (ix_root ix) = bs1 ++ b :: bs2 /\ Forall2 (block_ok h) bs1 mss1 /\ block_ok h b (ms1 ++ left :: right :: ms2) /\ Forall2 (block_ok h) bs2 mss2 /\
     head (mss1 ++ (ms1 ++ left :: right :: ms2) :: mss2) <> Some []) \/
  (exists bsa lb bsb rb bs2 mssa msl mssb ms2 mss2, blockFor h ix (Some left) = Some lb /\ blockFor h ix (Some right) = Some rb /\ b_id lb <> b_id rb /\
     apart h ix pre left right post bsa lb bsb rb bs2 mssa msl mssb ms2 mss2).
Proof.
  intros Hok Hl. pose proof (linked_NoDup _ _ _ Hl) as Hnd. destruct (io_blocks _ _ _ Hok) as (mss & HF & Emss & Hhead).
  assert (E : pre ++ left :: right :: post = (pre ++ [left]) ++ right :: post) by by rewrite <- app_assoc. pose proof Emss as Emss'. rewrite E in Emss'. pose proof Hl as Hl'. rewrite E in Hl'.
  destruct (around h _ _ HF _ _ _ Emss') as (bs1 & b & bs2 & mss1 & ms1 & ms2 & mss2 & Ha). pose proof (blockFor_spec h h _ ix _ _ _ _ _ _ _ _ _ _ _ post Hok Hnd Emss E Ha Hl') as Hbr.
  destruct Ha as [Ebs Em HF1 Hb HF2 Epre Epost]. destruct ms1 as [|m ms1 _] using rev_ind.
  - right. rewrite app_nil_r in Epre. symmetry in Epre. destruct (around h _ _ HF1 pre left [] Epre) as (bsa & lb & bsb & mssa & msl & msl2 & mssb & [Eb Ems HFa Hlb HFb Ep Eq]). symmetry in Eq. apply app_eq_nil in Eq as [-> Eq].
    cbn [app] in *. exists bsa, lb, bsb, b, bs2, mssa, msl, mssb, ms2, mss2. subst bs1 mss1. split_and!; [|done| |].
    + eapply (blockFor_spec h h _ ix pre left (right :: post) bsa lb (bsb ++ b :: bs2) mss mssa msl [] (mssb ++ (right :: ms2) :: mss2) (right :: post) Hok Hnd Emss eq_refl); [|done].
      split; [by rewrite Ebs, <- app_assoc|by rewrite Em, <- app_assoc|done|done|apply Forall2_app; [done|by constructor]|done|]. rewrite join_app, Eq, Epost. done.
    + pose proof (io_ids _ _ _ Hok) as Hids. unfold ids in Hids. rewrite Ebs, fmap_app, fmap_cons in Hids. intros Eid. rewrite list.NoDup_app in Hids. destruct Hids as (_ & Hd & _).
      apply (Hd (b_id lb)); [rewrite fmap_app, fmap_cons; set_solver|]. rewrite Eid. by left.
    + split; try done; [by rewrite Ebs, <- app_assoc|]. by rewrite Em, <- app_assoc in Hhead.
  - left. rewrite app_assoc in Epre. apply app_inj_tail in Epre as [-> ->]. exists bs1, b, bs2, mss1, ms1, ms2, mss2. rewrite <- app_assoc in Em, Hb. cbn [app] in Em, Hb. split_and!; try done.
    + eapply (blockFor_spec h h _ ix (mjoin mss1 ++ ms1) m (right :: post) bs1 b bs2 mss mss1 ms1 (right :: ms2) mss2 (right :: post) Hok Hnd Emss eq_refl); [|done]. split; try done. by rewrite Epost.
    + by rewrite Em in Hhead.
Qed.

Lemma removeMergedRight_spec (h h' : heap) pre left right post ix : index_ok h (pre ++ left :: right :: post) ix -> linked h None (pre ++ left :: right :: post) -> (forall q, q ∈ pre ++ left :: right :: post -> 0 <= vis h q) ->
  merged h h' pre left right post -> exists ix', removeMergedRight h left right ix = Some ix' /\ index_ok h' (pre ++ left :: post) ix'.
Proof.
  intros Hok Hl Hpos Hm. assert (Hr : exists ri, h !! right = Some ri /\ i_right ri = head post).
  { destruct (linked_suffix h (pre ++ [left]) None (right :: post)) as (prev & ri & E & _ & Er & _); [by rewrite <- app_assoc|]. by exists ri. }
  destruct Hr as (ri & Eri & Err). assert (Evis : itemVisibleLength ri = vis h right) by (unfold vis; by rewrite Eri).
  assert (Hcount : (ix_items ix =? 0) = false) by (apply Z.eqb_neq; rewrite (io_items _ _ _ Hok), length_app; cbn; lia).
  destruct (neighbours h ix pre left right post Hok Hl) as [(bs1 & b & bs2 & mss1 & ms1 & ms2 & mss2 & Hbl & Hbr & Epre & Epost & Ebs & HF1 & Hb & HF2 & Hhead)|(bsa & lb & bsb & rb & bs2 & mssa & msl & mssb & ms2 & mss2 & Hbl & Hbr & Hne & Ha)];
    unfold removeMergedRight; rewrite Hbl, Hbr, Eri; cbn [mbind option_bind]; rewrite Hcount, Evis.
  - assert (Hit : (b_items b =? 0) = false) by (apply Z.eqb_neq; rewrite (bo_items _ _ _ Hb), length_app; cbn; lia). rewrite Hit. cbn [orb]. rewrite bool_decide_eq_true_2 by done. cbn [negb andb].
    rewrite bool_decide_eq_false_2.
    + eexists. split; [reflexivity|]. unfold with_root. cbn [ix_root ix_anchors ix_bits ix_indexed ix_items ix_next]. by apply (merge_same h h' pre left right post ix bs1 b bs2 mss1 ms1 ms2 mss2).
    + rewrite (bo_first _ _ _ Hb). pose proof (linked_NoDup _ _ _ Hl) as Hnd. rewrite Epre, <- app_assoc in Hnd. intros Eh. rewrite !list.NoDup_app, !list.NoDup_cons in Hnd. destruct ms1 as [|m ms1]; injection Eh as ->; set_solver.
  - pose proof (ap_rb _ _ _ _ _ _ _ _ _ _ _ _ _ _ _ _ Ha) as Hrb. assert (Hit : (b_items rb =? 0) = false) by (apply Z.eqb_neq; rewrite (bo_items _ _ _ Hrb); cbn; lia). rewrite Hit. cbn [orb]. rewrite bool_decide_eq_false_2 by done. cbn [negb andb].
    destruct (Z.ltb_spec (b_visible rb) (vis h right)) as [Hlt|_].
    { exfalso. rewrite (bo_visible _ _ _ Hrb), sum_cons in Hlt. pose proof (sum_nonneg (vis h) ms2) as Hs. rewrite (ap_post _ _ _ _ _ _ _ _ _ _ _ _ _ _ _ _ Ha) in Hpos. specialize (Hs ltac:(intros q Hq; apply Hpos; set_solver)). lia. }
    rewrite bool_decide_eq_true_2 by apply Hrb. eexists. split; [reflexivity|]. unfold with_root, changeFirst. cbn [ix_root ix_anchors ix_bits ix_indexed ix_items ix_next]. rewrite (bo_first _ _ _ Hrb). cbn [head].
    assert (Efirst : (if 0 <? b_items rb - 1 then i_right ri else None) = head ms2).
    { rewrite (bo_items _ _ _ Hrb), Err, (ap_post _ _ _ _ _ _ _ _ _ _ _ _ _ _ _ _ Ha). cbn [length]. destruct ms2 as [|m ms2]; [done|]. destruct (Z.ltb_spec 0 (Z.of_nat (S (length (m :: ms2))) - 1)); [done|cbn in *; lia]. }
    rewrite Efirst, !updateNode_compose by done. eapply (merge_apart h h' pre left right post ix); [done|done|done|exact Ha|done|]. intros b. unfold set_first, add_sizes. cbn. f_equal; lia.
Qed.

(** *** Building *)
Lemma withItems_length (h : heap) l : (forall q, q ∈ l -> is_Some (h !! q)) -> length (withItems h l) = length l.
Proof. induction l as [|q l IH]; intros Hl; [done|]. destruct (Hl q) as [qi E]; [by left|]. rewrite (withItems_cons h q qi l E). cbn. f_equal. apply IH. intros p Hp. apply Hl. by right. Qed.

Lemma withItems_drop (h : heap) n : forall l, (forall q, q ∈ l -> is_Some (h !! q)) -> withItems h (drop n l) = drop n (withItems h l).
Proof.
  induction n as [|n IH]; intros [|q l] Hin; try done. destruct (Hin q) as [qi E]; [by left|]. cbn [drop]. rewrite (withItems_cons h q qi _ E). apply IH. intros p Hp. apply Hin. by right.
Qed.

Lemma buildBlocks_spec (h : heap) fuel : forall ps id, (length ps <= fuel)%nat -> (forall q, q ∈ ps -> is_Some (h !! q)) ->
  let bs := buildBlocks fuel id (withItems h ps) in
  exists mss, Forall2 (block_ok h) bs mss /\ mjoin mss = ps /\ Forall (fun ms => ms <> []) mss /\ b_id <$> bs = seq id (length bs).
Proof.
  induction fuel as [|fuel IH]; intros ps id Hf Hin; [destruct ps; [|cbn in Hf; lia]; exists []; by split_and!|]. destruct ps as [|p ps]; [exists []; by split_and!|].
  destruct (Hin p) as [it Ep]; [by left|]. cbn zeta. set (ps' := p :: ps) in *. assert (Hw : exists rest, withItems h ps' = (p, it) :: rest) by (exists (withItems h ps); by apply withItems_cons). destruct Hw as (rest & Hw).
  cbn [buildBlocks]. rewrite Hw, <- Hw. change (Z.to_nat listPositionBlockItems) with 8%nat. rewrite <- withItems_take, <- withItems_drop by done.
  assert (Hin8 : forall q, q ∈ take 8 ps' -> is_Some (h !! q)) by (intros q Hq; apply Hin; rewrite <- (take_drop 8 ps'); set_solver).
  destruct (IH (drop 8 ps') (S id)) as (mss & HF & Ej & Hne & Hids); [rewrite length_drop; unfold ps' in *; cbn in *; lia|intros q Hq; apply Hin; rewrite <- (take_drop 8 ps'); set_solver|].
  exists (take 8 ps' :: mss). split_and!; [|change (take 8 ps' ++ mjoin mss = ps'); by rewrite Ej, take_drop|by constructor|cbn [fmap list_fmap length seq b_id]; by rewrite Hids].
  constructor; [|done]. rewrite visibleOf_sum, formatsOf_sum, withItems_length by done. split; cbn [b_first b_items b_visible b_liveFormats]; [done|done|done|done|rewrite length_take; lia].
Qed.

Lemma firsts_NoDup bs : forall mss, firsts bs mss -> NoDup (mjoin mss) -> NoDup (omap anchorOf bs).*1.
Proof.
  intros mss HF. induction HF as [|b ms bs mss Hb HF IH]; intros Hnd; [constructor|]. change (mjoin (ms :: mss)) with (ms ++ mjoin mss) in Hnd. apply list.NoDup_app in Hnd as (_ & Hd & Hnd). specialize (IH Hnd).
  change (omap anchorOf (b :: bs)) with (match anchorOf b with Some a => a :: omap anchorOf bs | None => omap anchorOf bs end).
  assert (Ea : anchorOf b = match ms with [] => None | p :: _ => Some (p, b_id b) end) by (unfold anchorOf; rewrite Hb; by destruct ms). rewrite Ea. destruct ms as [|p ms]; [done|]. rewrite fmap_cons. constructor; [|done].
  intros Hp. apply (Hd p); [by left|]. apply list_elem_of_fmap in Hp as ([p' i] & E & Hp). cbn [fst] in E. subst p'. apply list_elem_of_omap in Hp as (b' & Hb' & E). unfold anchorOf in E. destruct (b_first b') as [q|] eqn:Ef; [|done]. injection E as -> _.
  apply list_elem_of_lookup in Hb' as (k & Hk). destruct (Forall2_lookup_l _ _ _ _ _ HF Hk) as (ms' & Hk' & E'). rewrite Ef in E'. destruct ms' as [|q' ms']; [done|]. injection E' as <-. apply (elem_join _ (p :: ms')); [by eapply list_elem_of_lookup_2|by left].
Qed.

Lemma anchors_build bs mss : firsts bs mss -> NoDup (mjoin mss) -> anchors_of bs (list_to_map (omap anchorOf bs)).
Proof.
  intros HF Hnd p i. rewrite <- elem_of_list_to_map by by eapply firsts_NoDup. rewrite list_elem_of_omap. unfold anchorOf. split.
  - intros (b & Hb & E). destruct (b_first b) as [q|] eqn:Ef; [|done]. injection E as -> <-. by exists b.
  - intros (b & Hb & <- & Ef). exists b. split; [done|]. by rewrite Ef.
Qed.

Lemma total_items h bs mss : Forall2 (block_ok h) bs mss -> total b_items bs = Z.of_nat (length (mjoin mss)).
Proof. induction 1 as [|b ms bs mss Hb HF IH]; [done|]. change (mjoin (ms :: mss)) with (ms ++ mjoin mss). rewrite total_block_cons, IH, (bo_items _ _ _ Hb), length_app. lia. Qed.

Lemma total_visible h bs mss : Forall2 (block_ok h) bs mss -> total b_visible bs = sum (vis h) (mjoin mss).
Proof. induction 1 as [|b ms bs mss Hb HF IH]; [done|]. change (mjoin (ms :: mss)) with (ms ++ mjoin mss). by rewrite total_block_cons, IH, (bo_visible _ _ _ Hb), sum_app. Qed.

Lemma build_index_ok (h : heap) ty ps : t_start ty = head ps -> linked h None ps -> index_ok h ps (buildListPositionIndex h ty).
Proof.
  intros Hstart Hl. assert (Hin : forall q, q ∈ ps -> is_Some (h !! q)) by (intros q Hq; by eapply linked_lookup). pose proof (linked_NoDup _ _ _ Hl) as Hnd.
  unfold buildListPositionIndex. rewrite Hstart, (rightItems_list h None ps Hl). set (items := withItems h ps). destruct (buildBlocks_spec h (length items) ps 0) as (mss & HF & Ej & Hne & Hids); [unfold items; by rewrite withItems_length|done|].
  cbn zeta in *. fold items in HF, Hids. set (bs := buildBlocks (length items) 0 items) in *. destruct (build_spec (length bs) bs) as (Havl & Hio & _); [done|]. cbn zeta in *.
  assert (Hids' : ids (buildBalancedListPositionNodes (length bs) bs) = seq 0 (length bs)) by (unfold ids; by rewrite Hio).
  split; cbn [ix_root ix_anchors ix_bits ix_indexed ix_items ix_next].
  - done.
  - exists mss. rewrite Hio. split_and!; [done|done|]. destruct Hne as [|ms mss Hms _]; [done|]. cbn. by intros [= ->].
  - rewrite Hids'. apply NoDup_seq.
  - rewrite Hids'. intros i [_ Hi]%elem_of_seq. done.
  - rewrite Hio. eapply anchors_build; [by eapply blocks_firsts|by rewrite Ej].
  - done.
  - f_equal. unfold items. clear -Hin. induction ps as [|p ps IH]; [done|]. destruct (Hin p) as [it E]; [by left|]. rewrite (withItems_cons h p it ps E). cbn. f_equal. apply IH. intros q Hq. apply Hin. by right.
  - by rewrite (total_items _ _ _ HF), Ej.
Qed.

(** *** Lookups *)

(** The item [q] starts at the visible position [start], and [target] is reached
    within a block from it; the end of the list belongs to the last block with
    visible content. *)
Definition answers (h : heap) (ps : list nat) (target : Z) (q : nat) (start : Z) : Prop :=
  exists pre mid post, ps = pre ++ (q :: mid) ++ post /\ (length (q :: mid) <= 16)%nat /\ start = vlen (withItems h pre) /\ start <= target /\
    (target < start + vlen (withItems h (q :: mid)) \/ target = start + vlen (withItems h (q :: mid)) /\ vlen (withItems h post) = 0).

Lemma blocks_cut h bs1 b bs2 mss : Forall2 (block_ok h) (bs1 ++ b :: bs2) mss ->
  exists mss1 ms mss2, mss = mss1 ++ ms :: mss2 /\ Forall2 (block_ok h) bs1 mss1 /\ block_ok h b ms /\ Forall2 (block_ok h) bs2 mss2.
Proof. intros (mss1 & mss' & HF1 & HF2 & ->)%list.Forall2_app_inv_l. apply list.Forall2_cons_inv_l in HF2 as (ms & mss2 & Hb & HF2 & ->). by exists mss1, ms, mss2. Qed.

Lemma fmt_nonneg (h : heap) q : 0 <= fmt h q.
Proof. unfold fmt, itemFormatCount. destruct (h !! q) as [it|]; [|done]. cbn. destruct (negb _); [|done]. by destruct (i_content it). Qed.

Lemma vis_nonneg (h : heap) ps : cells_ok (withItems h ps) -> (forall q, q ∈ ps -> is_Some (h !! q)) -> forall q, q ∈ ps -> 0 <= vis h q.
Proof.
  intros Hc Hin q Hq. destruct (Hin q Hq) as [it E]. assert (Hcell : cell_ok it).
  { unfold cells_ok in Hc. rewrite list.Forall_forall in Hc. apply (Hc (q, it)). unfold withItems. apply list_elem_of_omap. exists q. split; [done|]. by rewrite E. }
  unfold vis. rewrite E. cbn. unfold itemVisibleLength. destruct Hcell as [Hl _]. destruct (_ && _); lia.
Qed.

Lemma blocks_sizes h bs mss : Forall2 (block_ok h) bs mss -> (forall q, q ∈ mjoin mss -> 0 <= vis h q) -> sizes_ok bs.
Proof.
  induction 1 as [|b ms bs mss Hb HF IH]; intros Hpos; [constructor|]. change (mjoin (ms :: mss)) with (ms ++ mjoin mss) in Hpos. constructor; [|apply IH; set_solver].
  rewrite (bo_visible _ _ _ Hb), (bo_formats _ _ _ Hb). split; apply sum_nonneg; intros q Hq; [apply Hpos; set_solver|apply fmt_nonneg].
Qed.

(** What a covering block says of the list. *)
Lemma block_answers h bs1 b bs2 mss target : Forall2 (block_ok h) (bs1 ++ b :: bs2) mss -> 0 < b_visible b -> total b_visible bs1 <= target -> covers_target target (total b_visible bs1) b bs2 ->
  exists q, b_first b = Some q /\ answers h (mjoin mss) target q (total b_visible bs1).
Proof.
  intros HF Hb Hlo Hcov. destruct (blocks_cut h bs1 b bs2 mss HF) as (mss1 & ms & mss2 & -> & HF1 & Hok & HF2). pose proof (bo_visible _ _ _ Hok) as Hv. destruct ms as [|q mid]; [cbn in Hv; lia|]. exists q. split; [apply Hok|].
  exists (mjoin mss1), mid, (mjoin mss2). rewrite join_app. unfold covers_target in Hcov. rewrite <- !sum_vlen, <- (total_visible h _ _ HF1), <- (total_visible h _ _ HF2), <- Hv. split_and!; [done|apply Hok|done|done|].
  destruct Hcov as [?|[? ?]]; [left; lia|by right].
Qed.

Lemma findPosition_answers h ps ix target : index_ok h ps ix -> (forall q, q ∈ ps -> 0 <= vis h q) -> 0 <= target <= vlen (withItems h ps) -> 0 < vlen (withItems h ps) ->
  exists q start, findPosition (ix_root ix) target = Some (Some q, start) /\ answers h ps target q start.
Proof.
  intros Hok Hpos Ht Hp. destruct (io_blocks _ _ _ Hok) as (mss & HF & Ej & _). rewrite <- Ej in *. rewrite <- sum_vlen, <- (total_visible h _ _ HF) in Ht, Hp.
  destruct (findPosition_spec (ix_root ix) target (proj1 (io_avl _ _ _ Hok)) (blocks_sizes h _ _ HF Hpos) Ht Hp) as (first & start & Ef & (bs1 & b & bs2 & E & -> & -> & Hb & Hcov)).
  rewrite E in HF. destruct (block_answers h bs1 b bs2 mss target HF Hb) as (q & Eq & Ha); [destruct Hcov; lia|by rewrite Z.add_0_l in Hcov|]. exists q, (total b_visible bs1). by rewrite Ef, Eq.
Qed.

Lemma pathVisible_total path : forall hh, path_ok path hh -> pathVisible path = total b_visible (pathLeft path).
Proof.
  induction path as [|[b a r|l b a] path IH]; intros hh Hp; [done|..]; destruct Hp as (Hs & _ & Hp); cbn [pathVisible pathLeft side] in *; [by eapply IH|].
  rewrite (IH _ Hp), !total_block_app, total_block_cons. destruct (cached_totals l (proj1 Hs)) as (_ & -> & _). cbn. lia.
Qed.

Lemma visibleBefore_spec (h : heap) ms1 p ms2 : forall v, p ∉ ms1 -> (forall q, q ∈ ms1 ++ p :: ms2 -> is_Some (h !! q)) -> visibleBefore p v (withItems h (ms1 ++ p :: ms2)) = Some (v + sum (vis h) ms1).
Proof.
  induction ms1 as [|m ms1 IH]; intros v Hp Hin; cbn [app].
  - destruct (Hin p) as [it E]; [by left|]. rewrite (withItems_cons h p it ms2 E). cbn. rewrite decide_True by done. f_equal. lia.
  - destruct (Hin m) as [it E]; [by left|]. rewrite (withItems_cons h m it _ E). cbn [visibleBefore]. rewrite decide_False by set_solver. rewrite IH; [|set_solver|intros q Hq; apply Hin; by right]. rewrite sum_cons. unfold vis at 2. rewrite E. cbn. f_equal. lia.
Qed.

Lemma indexedVisibleStart_spec h ty pre p post ix : type_list h ty (pre ++ p :: post) -> t_itemCount ty = Z.of_nat (length (pre ++ p :: post)) -> index_ok h (pre ++ p :: post) ix ->
  indexedVisibleStart h ty (Some ix) p = Some (vlen (withItems h pre)).
Proof.
  intros Ht Hc Hok. pose proof (tl_linked _ _ _ Ht) as Hl. pose proof (linked_NoDup _ _ _ Hl) as Hnd. destruct (io_blocks _ _ _ Hok) as (mss & HF & Emss & _). pose proof (cached_totals _ (proj1 (io_avl _ _ _ Hok))) as (_ & Ev & _).
  destruct (around h _ _ HF _ _ _ Emss) as (bs1 & b & bs2 & mss1 & ms1 & ms2 & mss2 & Ha). pose proof (blockFor_spec h h _ ix _ _ _ _ _ _ _ _ _ _ _ post Hok Hnd Emss eq_refl Ha Hl) as Hbf.
  assert (Hu : usable ty ix = true).
  { unfold usable. rewrite (total_visible h _ _ HF), Emss, sum_vlen in Ev. destruct (ix_root ix) eqn:Er; [destruct Ha as [Ebs]; by destruct bs1|]. rewrite <- Er in *. rewrite (io_items _ _ _ Hok), Hc, Ev, (tl_length _ _ _ Ht), !Z.eqb_refl. done. }
  unfold indexedVisibleStart. cbn [mbind option_bind]. rewrite Hu, Hbf. cbn [mbind option_bind].
  destruct Ha as [Ebs -> HF1 Hb HF2 -> ->]. destruct (locate_block (ix_root ix) bs1 b bs2 (io_avl _ _ _ Hok) Ebs (io_ids _ _ _ Hok)) as (l & a & r & path & -> & Hal & _ & _ & Hp & Epl & _).
  rewrite (bo_first _ _ _ Hb). rewrite (members_walk h (mjoin mss1) (ms1 ++ p :: ms2) (mjoin mss2)); [|rewrite <- !app_assoc in *; exact Hl|rewrite (bo_items _ _ _ Hb); lia|by destruct ms1].
  rewrite visibleBefore_spec; [|rewrite !list.NoDup_app in Hnd; set_solver|intros q Hq; eapply linked_lookup; [exact Hl|set_solver]]. f_equal. rewrite (pathVisible_total _ _ Hp). destruct (cached_totals l (proj1 Hal)) as (_ & -> & _).
  rewrite <- sum_vlen, sum_app, <- (total_visible h _ _ HF1), <- Epl, total_block_app. lia.
Qed.

(** *** Formats *)
Section Attributes.
Context (nil : V) (isNullAttr : V -> bool).

(** The attributes after the formats of some items, in order. *)
Definition formatsAfter (x : @Object V) (l : list (nat * item)) : @Object V := foldl (fun at_ p => applyFormat nil isNullAttr at_ p.2) x l.

Lemma formats_none (h : heap) ms : forall x, (forall q, q ∈ ms -> is_Some (h !! q)) -> sum (fmt h) ms = 0 -> formatsAfter x (withItems h ms) = x.
Proof.
  induction ms as [|q ms IH]; intros x Hin Hs; [done|]. destruct (Hin q) as [it E]; [by left|]. rewrite sum_cons in Hs. pose proof (sum_nonneg (fmt h) ms ltac:(intros; apply fmt_nonneg)). pose proof (fmt_nonneg h q).
  assert (Hq : fmt h q = 0) by lia. rewrite (withItems_cons h q it ms E). unfold formatsAfter. cbn [foldl snd]. assert (Ha : applyFormat nil isNullAttr x it = x).
  { unfold fmt in Hq. rewrite E in Hq. cbn in Hq. unfold itemFormatCount in Hq. unfold applyFormat. destruct (i_content it); try done. by destruct (i_deleted it). }
  rewrite Ha. apply IH; [set_solver|lia].
Qed.

Lemma applyBlock_formats (h : heap) ps1 b ms ps2 x : linked h None (ps1 ++ ms ++ ps2) -> block_ok h b ms -> applyLiveFormatsInBlock nil isNullAttr h b x = formatsAfter x (withItems h ms).
Proof.
  intros Hl Hb. unfold applyLiveFormatsInBlock. destruct (Z.eqb_spec (b_liveFormats b) 0) as [E|_].
  - rewrite formats_none; [done|intros q Hq; eapply linked_lookup; [exact Hl|set_solver]|]. by rewrite <- (bo_formats _ _ _ Hb).
  - rewrite (bo_items _ _ _ Hb), (bo_first _ _ _ Hb). destruct ms as [|q ms]; [done|]. rewrite (members_walk h ps1 (q :: ms) ps2); [done|done|lia|done].
Qed.

Lemma applyBlocks_formats (h : heap) bs mss : Forall2 (block_ok h) bs mss -> forall ps1 ps2 x, linked h None (ps1 ++ mjoin mss ++ ps2) ->
  applyBlocks (applyLiveFormatsInBlock nil isNullAttr h) bs x = formatsAfter x (withItems h (mjoin mss)).
Proof.
  induction 1 as [|b ms bs mss Hb HF IH]; intros ps1 ps2 x Hl; [done|]. change (mjoin (ms :: mss)) with (ms ++ mjoin mss) in *. rewrite <- app_assoc in Hl. unfold applyBlocks. cbn [foldl]. rewrite (applyBlock_formats h ps1 b ms _ x Hl Hb).
  rewrite withItems_app. unfold formatsAfter. rewrite foldl_app. apply (IH (ps1 ++ ms) ps2). by rewrite <- app_assoc.
Qed.

(** The attributes are those of a walk over all items before the answer. *)
Lemma findFormatted_answers h ps ix target x : index_ok h ps ix -> linked h None ps -> (forall q, q ∈ ps -> 0 <= vis h q) -> 0 <= target <= vlen (withItems h ps) -> 0 < vlen (withItems h ps) ->
  exists q pre post, findFormattedPosition (applyLiveFormatsInBlock nil isNullAttr h) (ix_root ix) target x = (Some (Some q, vlen (withItems h pre)), formatsAfter x (withItems h pre)) /\
    ps = pre ++ q :: post /\ answers h ps target q (vlen (withItems h pre)).
Proof.
  intros Hok Hl Hpos Ht Hp. destruct (io_blocks _ _ _ Hok) as (mss & HF & Ej & _). rewrite <- Ej in *. rewrite <- sum_vlen, <- (total_visible h _ _ HF) in Ht, Hp.
  destruct (findFormattedPosition_spec (applyLiveFormatsInBlock nil isNullAttr h) ltac:(intros b y E; unfold applyLiveFormatsInBlock; by rewrite E) (ix_root ix) target x (proj1 (io_avl _ _ _ Hok)) (blocks_sizes h _ _ HF Hpos) Ht Hp) as (bs1 & b & bs2 & E & Ef & Hb & Hcov).
  rewrite E in HF. destruct (blocks_cut h bs1 b bs2 mss HF) as (mss1 & ms & mss2 & Em & HF1 & Hbo & HF2). destruct (block_answers h bs1 b bs2 mss target HF Hb) as (q & Eq & Ha); [destruct Hcov; lia|done|].
  pose proof (bo_first _ _ _ Hbo) as Eh. rewrite Eq in Eh. destruct ms as [|q' mid]; [done|]. injection Eh as <-. exists q, (mjoin mss1), (mid ++ mjoin mss2).
  rewrite <- sum_vlen, <- (total_visible h _ _ HF1), Ef, Eq. rewrite Em, join_app in Hl. rewrite (applyBlocks_formats h bs1 mss1 HF1 [] (mjoin ((q :: mid) :: mss2)) x Hl). split_and!; [done|by rewrite Em, join_app|done].
Qed.
End Attributes.

(** *** Edits of the list

    A document edits a list and calls the hook of the index. The rules leave out
    what makes the code give the index up: the deletion of a format, and a merge
    below the activation count. *)
Definition list_ok (h : heap) (ps : list nat) : Prop := linked h None ps /\ forall q, q ∈ ps -> 0 <= vis h q.

Definition list_state : Type := heap * list nat * option listPositionIndex.

Inductive list_edit : list_state -> list_state -> Prop :=
| edit_integrate h h' pre post p o :
    inserted h h' pre post p (vis h' p) -> list_ok h' (pre ++ p :: post) ->
    list_edit (h, pre ++ post, o) (h', pre ++ p :: post, updateListPositionIndexAfterIntegrate h' p o)
| edit_split h h' pre left post right o :
    inserted h h' (pre ++ [left]) post right 0 -> list_ok h' ((pre ++ [left]) ++ right :: post) ->
    list_edit (h, (pre ++ [left]) ++ post, o) (h', (pre ++ [left]) ++ right :: post, updateListPositionIndexAfterSplit h' right o)
| edit_delete h h' ps p o :
    p ∈ ps -> fmt h p = 0 -> resized h h' ps p (- vis h p) -> list_ok h' ps ->
    list_edit (h, ps, o) (h', ps, indexAfterDelete h' p false (vis h p) o)
| edit_grow h h' ps p it d o :
    p ∈ ps -> 0 < d -> h' !! p = Some it -> i_deleted it = false -> i_countable it = true -> resized h h' ps p d -> list_ok h' ps ->
    list_edit (h, ps, o) (h', ps, updateListPositionIndexAfterTailGrowth h' p d o)
| edit_merge h h' ty markers pre left right post o :
    merged h h' pre left right post -> listPositionIndexActivationItems markers <= t_itemCount ty -> list_ok h' (pre ++ left :: post) ->
    list_edit (h, pre ++ left :: right :: post, o) (h', pre ++ left :: post, updateListPositionIndexBeforeMerge h ty markers left right o).

Lemma inserted_item h h' pre post p d : inserted h h' pre post p d -> exists it, h' !! p = Some it.
Proof. intros [Hl _ _ _]. destruct (linked_suffix _ pre None _ Hl) as (prev & it & E & _). by exists it. Qed.

Lemma edit_ok h ps ix s : list_ok h ps -> index_ok h ps ix -> list_edit (h, ps, Some ix) s ->
  list_ok s.1.1 s.1.2 /\ exists ix', s.2 = Some ix' /\ index_ok s.1.1 s.1.2 ix'.
Proof.
  intros [Hl Hpos] Hok He. inversion He as [h0 h' pre post p o Hi Hok'|h0 h' pre left post right o Hi Hok'|h0 h' ps0 p o Hp Hf Hr Hok'|h0 h' ps0 p it d o Hp Hd Ep Hdel Hcnt Hr Hok'|h0 h' ty markers pre left right post o Hm Hc Hok']; subst; cbn [fst snd]; (split; [done|]).
  - destruct (inserted_item _ _ _ _ _ _ Hi) as [it Ep]. unfold updateListPositionIndexAfterIntegrate. cbn [mbind option_bind]. rewrite Ep. cbn [mbind option_bind].
    assert (itemVisibleLength it = vis h' p) as -> by (unfold vis; by rewrite Ep). by apply (insertItem_spec h h').
  - by apply (insertItem_spec h h').
  - unfold indexAfterDelete. destruct (Z.ltb_spec 0 (vis h p)) as [Hlt|Hge]; [by apply (deleteItem_spec h h')|]. exists ix. split; [done|]. assert (Hz : vis h p = 0) by (specialize (Hpos p Hp); lia).
    assert (Hsame : forall q, q ∈ ps -> vis h' q = vis h q) by (intros q Hq; destruct (decide (q = p)) as [->|Hne]; [rewrite (rs_delta _ _ _ _ _ Hr); lia|by apply Hr]).
    destruct (io_blocks _ _ _ Hok) as (mss & HF & Ej & Hh). destruct Hok. split; try done. exists mss. split_and!; [|done|done]. eapply blocks_transport; [exact HF|]. rewrite Ej. intros q Hq. split; [by apply Hsame|by apply Hr].
  - destruct (resize_spec h h' ps p d ix Hok Hl Hp Hpos Hr) as (b & Hbf & _ & Hok1). unfold updateListPositionIndexAfterTailGrowth. cbn [mbind option_bind]. rewrite Hbf. cbn [mbind option_bind]. rewrite Ep. cbn [mbind option_bind].
    rewrite Hdel, Hcnt. destruct (Z.leb_spec d 0); [lia|]. by eexists.
  - destruct (removeMergedRight_spec h h' pre left right post ix Hok Hl Hpos Hm) as (ix' & E & Hok1). unfold updateListPositionIndexBeforeMerge. cbn [mbind option_bind]. rewrite E. cbn [mbind option_bind].
    destruct (Z.ltb_spec (t_itemCount ty) (listPositionIndexActivationItems markers)); [lia|]. by eexists.
Qed.

Lemma edits_ok s s' : rtc list_edit s s' -> forall ix, s.2 = Some ix -> list_ok s.1.1 s.1.2 -> index_ok s.1.1 s.1.2 ix -> list_ok s'.1.1 s'.1.2 /\ exists ix', s'.2 = Some ix' /\ index_ok s'.1.1 s'.1.2 ix'.
Proof.
  induction 1 as [s|s s1 s2 He _ IH]; intros ix E Hl Hok; [by split; [|exists ix]|]. destruct s as [[h ps] o]. cbn [fst snd] in *. subst o. destruct (edit_ok h ps ix s1 Hl Hok He) as (Hl1 & ix1 & E1 & Hok1). by apply (IH ix1).
Qed.

(** *** The position of a mutation *)
Definition owned_ok (h : heap) (ps : list nat) (o : option listPositionIndex) : Prop := match o with Some ix => index_ok h ps ix | None => True end.

(** An item of the list, not behind the target, and where it starts. *)
Definition starts_at (h : heap) (ps : list nat) (target : Z) (r : option nat * Z) : Prop :=
  exists p pre post, r.1 = Some p /\ ps = pre ++ p :: post /\ r.2 = vlen (withItems h pre) /\ r.2 <= target.

Lemma active_ok h ty ps itemCount req markers o r : type_list h ty ps -> owned_ok h ps o -> markers_ok h ps (mjoin markers) -> activeListPositionIndex h ty itemCount req markers o = r ->
  owned_ok h ps r.1.1 /\ owned_ok h ps r.1.2 /\ markers_ok h ps (mjoin r.2) /\ (markers = None <-> r.2 = None) /\ (mjoin markers = None <-> mjoin r.2 = None).
Proof.
  intros Ht Ho Hm <-. unfold activeListPositionIndex. destruct (_ && _); [by split_and!|].
  assert (Hb : index_ok h ps (buildListPositionIndex h ty)) by (apply build_index_ok; apply Ht).
  assert (Hclear : markers_ok h ps (mjoin (clearMutableListMarkers markers)) /\ (markers = None <-> clearMutableListMarkers markers = None) /\ (mjoin markers = None <-> mjoin (clearMutableListMarkers markers) = None))
    by (destruct markers as [[st|]|]; cbn; split_and!; (done || constructor)).
  destruct o as [ix|]; (destruct (_ || _ || _); cbn [fst snd owned_ok]; split_and!; (done || apply Hclear)).
Qed.

Lemma findPosition_starts h ps ix target r : index_ok h ps ix -> (forall q, q ∈ ps -> 0 <= vis h q) -> findPosition (ix_root ix) target = Some r -> starts_at h ps target r.
Proof.
  intros Hok Hpos E. destruct (io_blocks _ _ _ Hok) as (mss & HF & Ej & _). pose proof (proj1 (io_avl _ _ _ Hok)) as Hc. assert (Hr : 0 <= target <= vlen (withItems h ps)).
  { destruct (Z.lt_ge_cases target 0) as [?|?]; [rewrite findPosition_out in E by (done || (left; lia)); done|]. destruct (Z.lt_ge_cases (vlen (withItems h ps)) target) as [?|?]; [|lia].
    rewrite findPosition_out in E; [done|done|]. right. by rewrite (total_visible h _ _ HF), Ej, sum_vlen. }
  destruct (decide (vlen (withItems h ps) = 0)) as [E0|Hne].
  - exfalso. unfold findPosition in E. destruct (ix_root ix) as [|l b a r0] eqn:Er; [done|]. rewrite <- Er in *. destruct (cached_totals _ Hc) as (_ & Ev & _). rewrite (total_visible h _ _ HF), Ej, sum_vlen, E0 in Ev. rewrite Ev in E.
    assert (target = 0) as -> by lia. cbn [Z.ltb Z.compare orb Z.eqb] in E.
    rewrite findEnd_none in E; [done|done|eapply blocks_sizes; [exact HF|by rewrite Ej]|]. by rewrite (total_visible h _ _ HF), Ej, sum_vlen.
  - destruct (findPosition_answers h ps ix target Hok Hpos Hr ltac:(lia)) as (q & start & E' & (pre & mid & post & -> & _ & -> & ? & _)). rewrite E in E'. injection E' as ->. exists q, pre, (mid ++ post). split_and!; (done || app_norm).
Qed.

Lemma findMutation_ok h ty ps target markers o : type_list h ty ps -> t_itemCount ty = Z.of_nat (length ps) -> t_itemCount ty < 2 ^ 63 -> owned_ok h ps o -> markers_ok h ps (mjoin markers) -> 0 <= target ->
  exists r o' markers', findMutationPosition h ty target markers o = Ok (r, o', markers') /\ owned_ok h ps o' /\ markers_ok h ps (mjoin markers') /\ (forall x, r = Some x -> starts_at h ps target x) /\ (r = None -> ps = [] \/ mjoin markers = None \/ target = 0).
Proof.
  intros Ht Hc Hlt Ho Hm Hpos. unfold findMutationPosition. assert (Hin : forall q, q ∈ ps -> is_Some (h !! q)) by (intros q Hq; eapply linked_lookup; [apply Ht|done]). pose proof (vis_nonneg h ps (tl_cells _ _ _ Ht) Hin) as Hv.
  set (z := if buildListPositionIndexItems <=? t_itemCount ty then _ else _).
  assert (Hz : owned_ok h ps z.1.2 /\ markers_ok h ps (mjoin z.2) /\ (forall x, z.1.1 = Some x -> starts_at h ps target x) /\ (markers = None <-> z.2 = None) /\ (mjoin markers = None <-> mjoin z.2 = None)).
  { unfold z. destruct (_ <=? _); [|by split_and!]. unfold indexedMutationPosition. destruct (activeListPositionIndex h ty (t_itemCount ty) true markers o) as [[ix o'] m'] eqn:Ea. destruct (active_ok h ty ps _ _ _ _ _ Ht Ho Hm Ea) as (H1 & H2 & H3 & H4 & H5). cbn [fst snd] in *.
    destruct ix as [ix|]; [|by split_and!]. destruct (findPosition (ix_root ix) target) as [x|] eqn:Ef; cbn [fst snd]; split_and!; try done. intros ? [= <-]. by eapply findPosition_starts. }
  destruct z as [[found o1] m1]. cbn [fst snd] in Hz. destruct Hz as (Ho1 & Hm1 & Hf & Hn & Hj). destruct found as [x|]; [eexists _, _, _; split_and!; [reflexivity|done|done|auto|done]|].
  destruct (findMarker_spec h ty ps target (t_itemCount ty) (mjoin m1) Ht Hm1 Hpos Hlt) as (i & ms & -> & Hms & Hnone & Hsome). eexists _, _, _. split; [reflexivity|]. split_and!; [done| | |].
  - destruct m1 as [ref|]; [exact Hms|done].
  - intros x Ex. destruct i as [i|]; [|done]. destruct (Hsome i eq_refl) as (st & -> & (m & pre & post & it & E1 & E2 & E3 & _ & E4 & _)). cbn [mbind option_bind] in Ex. rewrite E1 in Ex. injection Ex as <-. exists (m_p m), pre, post. by split_and!.
  - intros Ex. destruct i as [i|]; [|destruct (proj1 Hnone eq_refl) as [?|[?|?]]; [by left|right; left; by apply Hj|by right; right]]. destruct (Hsome i eq_refl) as (st & -> & (m & _ & _ & _ & E1 & _)). cbn [mbind option_bind] in Ex. rewrite E1 in Ex. done.
Qed.
End Theory.

(** ** Properties *)


(** C33. Refinement: the lookups of an index agree with a walk over the list.
    [findPosition] returns the first item of a block with its exact visible start,
    from which the target is at most 16 items away; [findFormattedPosition] returns
    with it the attributes that a walk from the start of the list would have
    collected there; [indexedVisibleStart] is the visible length of all items before
    the item. *)
Theorem index_lookups_agree {V : Type} (nil : V) (isNullAttr : V -> bool) (h : gmap nat (itemStruct V)) (ty : ytype) (ps : list nat) (ix : listPositionIndex) (attributes : @Object V) :
  type_list h ty ps -> t_itemCount ty = Z.of_nat (length ps) -> index_ok h ps ix ->
  (forall target, 0 <= target <= t_length ty -> 0 < t_length ty ->
     (exists q start, findPosition (ix_root ix) target = Some (Some q, start) /\ answers h ps target q start) /\
     (exists q pre post, findFormattedPosition (applyLiveFormatsInBlock nil isNullAttr h) (ix_root ix) target attributes =
        (Some (Some q, vlen (withItems h pre)), formatsAfter nil isNullAttr attributes (withItems h pre)) /\ ps = pre ++ q :: post /\ answers h ps target q (vlen (withItems h pre)))) /\
  (forall target, target < 0 \/ t_length ty < target -> findPosition (ix_root ix) target = None) /\
  (forall pre p post, ps = pre ++ p :: post -> indexedVisibleStart h ty (Some ix) p = Some (vlen (withItems h pre))).
Proof.
  intros Ht Hc Hok. assert (Hv := vis_nonneg h ps (tl_cells _ _ _ Ht) ltac:(intros q Hq; eapply linked_lookup; [apply Ht|done])). pose proof (tl_length _ _ _ Ht) as Hlen. split_and!.
  - intros target H1 H2. rewrite Hlen in H1, H2. split; [by apply findPosition_answers|apply findFormatted_answers; [done|apply Ht|done|done|done]].
  - intros target Htg. destruct (io_blocks _ _ _ Hok) as (mss & HF & Ej & _). apply findPosition_out; [apply Hok|]. by rewrite (total_visible h _ _ HF), Ej, sum_vlen, <- Hlen.
  - intros pre p post ->. by eapply indexedVisibleStart_spec.
Qed.

(** Functional: [findMutationPosition] answers with an item of the list and the
    exact visible position at which it starts, never behind the target, whether the
    answer comes from the index (built on the way for large lists) or from the search
    markers; the index and the markers that it leaves are right again. It has no
    answer only for an empty list, a type without markers, or position 0. *)
Theorem mutation_position_right {V : Type} (h : gmap nat (itemStruct V)) (ty : ytype) (ps : list nat) (target : Z) (markers : option (option markerState)) (o : option listPositionIndex) :
  type_list h ty ps -> t_itemCount ty = Z.of_nat (length ps) -> t_itemCount ty < 2 ^ 63 -> owned_ok h ps o -> markers_ok h ps (mjoin markers) -> 0 <= target ->
  exists r o' markers', findMutationPosition h ty target markers o = Ok (r, o', markers') /\ owned_ok h ps o' /\ markers_ok h ps (mjoin markers') /\
    (forall x, r = Some x -> starts_at h ps target x) /\ (r = None -> ps = [] \/ mjoin markers = None \/ target = 0).
Proof. intros. by apply findMutation_ok. Qed.

(** The first item of the sample list is deleted, and an item is appended. *)
Definition index_heap1 : gmap nat (itemStruct unit) := <[1%nat := read_item 0 3 None (Some 2%nat) (contentString [97; 98; 99]) true true]> read_heap.
Definition index_heap2 : gmap nat (itemStruct unit) :=
  <[7%nat := read_item 20 2 (Some 6%nat) None (contentString [120; 121]) true false]> (alter (with_right (Some 7%nat)) 6%nat index_heap1).

Ltac each_item H := repeat (apply elem_of_cons in H as [->|H]; [|try each_item H]); try (by apply not_elem_of_nil in H).

Lemma index_edits : rtc list_edit (read_heap, read_list, Some (buildListPositionIndex read_heap read_type))
  (index_heap2, read_list ++ [7%nat], updateListPositionIndexAfterIntegrate index_heap2 7 (indexAfterDelete index_heap1 1 false 3 (Some (buildListPositionIndex read_heap read_type)))).
Proof.
  assert (Hl1 : linked index_heap1 None read_list) by (cbn [linked read_list]; repeat (eexists; split_and!; [reflexivity|reflexivity|reflexivity|]); exact I).
  assert (Hl2 : linked index_heap2 None (read_list ++ [7%nat])) by (cbn [linked read_list app]; repeat (eexists; split_and!; [reflexivity|reflexivity|reflexivity|]); exact I).
  eapply rtc_l; [|eapply rtc_l; [|reflexivity]].
  - change 3 with (vis read_heap 1). apply edit_delete; [by left|done| |].
    + split; [done|..|done]; intros q Hq; each_item Hq; done.
    + split; [done|]. intros q Hq. each_item Hq; done.
  - apply (edit_integrate index_heap1 index_heap2 read_list [] 7).
    + split; [done|..|done]; intros q Hq; each_item Hq; done.
    + split; [done|]. intros q Hq. each_item Hq; done.
Qed.


Lemma index_lookups_agree_witness : indexedVisibleStart read_heap read_type (Some (buildListPositionIndex read_heap read_type)) 4 = Some 3 /\
  exists q start, findPosition (ix_root (buildListPositionIndex read_heap read_type)) 5 = Some (Some q, start) /\ answers read_heap read_list 5 q start.
Proof.
  assert (Hok : index_ok read_heap read_list (buildListPositionIndex read_heap read_type)) by (apply build_index_ok; apply read_type_list).
  destruct (index_lookups_agree tt (fun _ => false) read_heap read_type read_list _ None read_type_list eq_refl Hok) as (H1 & _ & H3). split; [exact (H3 [1; 2; 3]%nat 4%nat [5; 6]%nat eq_refl)|].
  by apply H1.
Defined.

Lemma mutation_position_right_witness :
  exists r o' markers', findMutationPosition read_heap read_type 5 (Some (Some (mkMarkers [] ∅ 0))) None = Ok (r, o', markers') /\ forall x, r = Some x -> starts_at read_heap read_list 5 x.
Proof.
  destruct (mutation_position_right read_heap read_type read_list 5 (Some (Some (mkMarkers [] ∅ 0))) None read_type_list) as (r & o' & m' & E & _ & _ & H & _); [done|done|done|constructor|lia|].
  by exists r, o', m'.
Defined.
