(* ===== verification/TypeList.v ===== *)
(** * Writing a list type

    Models the writers of list and map types (crdt/abstract.go):
    [typeListInsertGenerics], [typeListInsertGenericsAfter] with its compact
    append, [typeListPushGenerics], [typeListDelete], and [typeMapSet],
    [typeMapGet], [typeMapHas], [typeMapDelete] on the heap of Item.v.

    The state is the document and the search markers of the type. The position
    lookup is a parameter of the list operations; [findMutationPosition] of
    PositionIndex.v is its instance, and what the operations need of it is the
    record [lookup_ok]. The hooks of the position index are those of
    PositionIndex.v and not repeated here. *)
From stdpp Require Import gmap sets list.
From Stdlib Require Import ZArith Lia.
From S2P Require Import Prelude Lib0 StructStore Text DeleteSet Object Content Item ItemList ItemSplit TypeRead SearchMarker PositionTree PositionIndex.
Open Scope Z_scope.
Open Scope go_scope.

(** ** Values to insert *)

(** The classes that [isAnyEncodable] and the type switch tell apart. *)
Inductive insertable (V : Type) : Type :=
| InAny (v : V)
| InBytes (value : list Z)
| InDoc (doc : nat * bool)
| InType (t : nat)
| InOther.
Arguments InAny {V} v. Arguments InBytes {V} value. Arguments InDoc {V} doc. Arguments InType {V} t. Arguments InOther {V}.

Section List.
Context {V : Type} (interpolate : Z -> Z -> Z -> Z).
(** The client of the document. *)
Context (own : Z).
Abbreviation item := (itemStruct V).
Abbreviation doc := (docState V).
Abbreviation M := (@Item.M V).

Definition isAnyEncodable (c : insertable V) : option V := match c with InAny v => Some v | _ => None end.

(** ** Inserting behind an item *)
Definition getItemLastID (o : option nat) : M (option ID) :=
  match o with Some p => it <-- getItem p;;; rret (Some (lastID it)) | None => rret None end.
Definition getItemID (o : option nat) : M (option ID) :=
  match o with Some p => it <-- getItem p;;; rret (Some (i_id it)) | None => rret None end.

(** A new item between [left] and [right], integrated. *)
Definition insertOne (t : nat) (left right : option nat) (content : docContent V) : M nat :=
  clock <-- getStateM own;;;
  origin <-- getItemLastID left;;;
  rightOrigin <-- getItemID right;;;
  p <-- alloc (newItemWithLength (GenID own clock) left origin right rightOrigin (ParentType t) [] content (contentLength content));;;
  _ <-- integrateWithScratch interpolate p 0;;;
  rret p.

(** [packJSONContent]. *)
Definition packJSONContent (t : nat) (left right : option nat) (jsonContent : list V) : M (option nat) :=
  match jsonContent with
  | [] => rret left
  | _ => p <-- insertOne t left right (contentAny jsonContent);;; rret (Some p)
  end.

(** The content of a value that is not batched; [None] is the error. *)
Definition ownContent (c : insertable V) : option (docContent V) :=
  match c with
  | InBytes value => Some (contentBinary value)
  | InDoc d => Some (contentDoc d)
  | InType t => Some (contentType t)
  | InAny _ | InOther => None
  end.

Fixpoint insertLoop (t : nat) (left right : option nat) (jsonContent : list V) (content : list (insertable V)) : M unit :=
  match content with
  | [] => _ <-- packJSONContent t left right jsonContent;;; rret tt
  | InAny v :: content' => insertLoop t left right (jsonContent ++ [v]) content'
  | c :: content' =>
      left <-- packJSONContent t left right jsonContent;;;
      match ownContent c with
      | Some k => p <-- insertOne t left right k;;; insertLoop t (Some p) right [] content'
      | None => rfail ErrUnexpectedContent
      end
  end.

(** The guards of the compact append, up to the content. *)
Definition compactGuards (d : doc) (t : nat) (ty : ytype) (l : nat) (li : item) : bool :=
  match tr_compact (d_trans d) with Some _ => true | None => false end && negb (tr_trackChanges (d_trans d)) &&
  bool_decide (i_right li = None) && bool_decide (i_parentSub li = []) && negb (i_deleted li) && i_countable li &&
  bool_decide (i_redone li = None) && bool_decide (i_rightOrigin li = None) && (Client (i_id li) =? own) &&
  match i_parent li with ParentType t' => bool_decide (t' = t) | _ => false end &&
  match t_item ty with None => true | Some q => match d_items d !! q with Some qi => negb (i_deleted qi) | None => false end end &&
  negb (t_observed ty) &&
  match clientStructs (d_store d) own with
  | Some ss => match list.last ss with
               | Some s => @struct_end _ (refStruct (d_items d)) s =? Clock (i_id li) + i_length li
               | None => false
               end
  | None => false
  end.

(** The compact append: the item grows in place. *)
Definition compactAppend (t l : nat) (li : item) (vs : list V) : M unit :=
  match i_content li with
  | contentAny arr =>
      _ <-- setItem l (fun it => with_body (i_id it) (i_length it + Z.of_nat (length vs)) (contentAny (arr ++ vs)) it);;;
      setType t (updateLength (Z.of_nat (length vs)))
  | _ => rret tt
  end.

Definition compactValues (li : item) (content : list (insertable V)) : option (list V) :=
  match i_content li, content with
  | contentAny _, _ :: _ => mapM isAnyEncodable content
  | _, _ => None
  end.

Definition typeListInsertGenericsAfter (t : nat) (referenceItem : option nat) (content : list (insertable V)) : M unit :=
  ty <-- getType t;;;
  right <-- (match referenceItem with Some p => it <-- getItem p;;; rret (i_right it) | None => rret (t_start ty) end);;;
  compact <-- (match referenceItem with
               | Some l => li <-- getItem l;;; d <-- get (fun d => d);;;
                   rret (if compactGuards d t ty l li then (fun vs => (l, li, vs)) <$> compactValues li content else None)
               | None => rret None
               end);;;
  match compact, content with
  | Some (l, li, vs), _ => compactAppend t l li vs
  | None, [InType n] => _ <-- insertOne t referenceItem right (contentType n);;; rret tt
  | None, [InAny v] => _ <-- insertOne t referenceItem right (contentAny [v]);;; rret tt
  | None, _ => insertLoop t referenceItem right [] content
  end.

(** ** Inserting at an index *)

(** The state of a list operation, and the operations of the document in it. *)
Definition listM (A : Type) : Type := step (doc * option (option markerState)) A.
Definition onDoc {A} (m : M A) : listM A := fun s => let '(r, d) := m s.1 in (r, (d, s.2)).

(** [if *parent.getSearchMarker() != nil { updateMarkerChanges(...) }]. *)
Definition markersChanged (index length : Z) : listM unit :=
  fun s => match s.2 with
           | None => (Err ErrPanic, s)
           | Some None => (Ok tt, s)
           | Some (Some st) => match updateMarkerChanges (d_items s.1) index length st with Ok st => (Ok tt, (s.1, Some (Some st))) | Err e => (Err e, s) end
           end.

(** [prevItem]. *)
Fixpoint prevLoop (fuel : nat) (o : option nat) : M (option nat) :=
  match fuel, o with
  | S fuel', Some p => it <-- getItem p;;; if i_deleted it then prevLoop fuel' (i_left it) else rret o
  | _, _ => rret None
  end.
Definition prevItem (p : nat) : M (option nat) :=
  it <-- getItem p;;; n <-- get (fun d => size (d_items d));;; prevLoop n (i_left it).

(** The loop of [typeListInsertGenerics]: the item to insert behind. *)
Fixpoint insertWalk (fuel : nat) (o : option nat) (index : Z) : M (option nat) :=
  match fuel, o with
  | S fuel', Some n =>
      it <-- getItem n;;;
      if negb (i_deleted it) && i_countable it then
        if index <=? i_length it then
          _ <-- (if index <? i_length it then _ <-- getItemCleanStart interpolate (GenID (Client (i_id it)) (Clock (i_id it) + index));;; rret tt else rret tt);;;
          rret (Some n)
        else insertWalk fuel' (i_right it) (index - i_length it)
      else insertWalk fuel' (i_right it) index
  | _, _ => rret None
  end.

Section Lookup.
(** [findMutationPosition] for the type: an item and its visible start. *)
Context (position : nat -> Z -> listM (option (nat * Z))).

(** The sole live item of the list, which ends at the index. *)
Definition soleItem (ty : ytype) (index : Z) : M bool :=
  match t_start ty with
  | Some p => it <-- getItem p;;; rret ((index =? t_length ty) && bool_decide (i_right it = None) && negb (i_deleted it) && i_countable it && (i_length it =? index))
  | None => rret false
  end.

(** Where the search for the place starts: a position that begins at the index
    itself is moved to the live item before it. *)
Definition insertStart (found : option (nat * Z)) (ty : ytype) (index : Z) : listM (option nat * Z) :=
  match found with
  | None => rret (t_start ty, index)
  | Some (p, s) =>
      if index - s =? 0 then
        n <-- onDoc (prevItem p);;;
        match n with
        | Some q => qi <-- onDoc (getItem q);;; rret (n, if i_countable qi && negb (i_deleted qi) then i_length qi else 0)
        | None => rret (None, 0)
        end
      else rret (Some p, index - s)
  end.

Definition typeListInsertGenerics (t : nat) (index : Z) (content : list (insertable V)) : listM unit :=
  ty <-- onDoc (getType t);;;
  if t_length ty <? index then rfail ErrLengthExceeded
  else if index =? 0 then
    _ <-- markersChanged index (Z.of_nat (length content));;;
    onDoc (typeListInsertGenericsAfter t None content)
  else
    sole <-- onDoc (soleItem ty index);;;
    if (sole : bool) then onDoc (typeListInsertGenericsAfter t (t_start ty) content)
    else
      found <-- position t index;;;
      start <-- insertStart found ty index;;;
      fuel <-- onDoc (get (fun d => size (d_items d)));;;
      n <-- onDoc (insertWalk fuel start.1 start.2);;;
      _ <-- markersChanged index (Z.of_nat (length content));;;
      onDoc (typeListInsertGenericsAfter t n content).

(** ** Deleting *)

(** The first item to be deleted. *)
Fixpoint deleteStart (fuel : nat) (o : option nat) (index : Z) : M (option nat) :=
  match fuel, o with
  | S fuel', Some n =>
      if 0 <? index then
        it <-- getItem n;;;
        if negb (i_deleted it) && i_countable it then
          _ <-- (if index <? i_length it then _ <-- getItemCleanStart interpolate (GenID (Client (i_id it)) (Clock (i_id it) + index));;; rret tt else rret tt);;;
          it <-- getItem n;;;
          deleteStart fuel' (i_right it) (index - i_length it)
        else deleteStart fuel' (i_right it) index
      else rret o
  | _, _ => rret o
  end.

(** All items until done; what remains of the length. *)
Fixpoint deleteLoop (fuel : nat) (o : option nat) (length : Z) : M Z :=
  match fuel, o with
  | S fuel', Some n =>
      if 0 <? length then
        it <-- getItem n;;;
        length <-- (if i_deleted it then rret length
                    else
                      _ <-- (if length <? i_length it then _ <-- getItemCleanStart interpolate (GenID (Client (i_id it)) (Clock (i_id it) + length));;; rret tt else rret tt);;;
                      _ <-- delete n;;;
                      it <-- getItem n;;;
                      rret (length - i_length it));;;
        it <-- getItem n;;;
        deleteLoop fuel' (i_right it) length
      else rret length
  | _, _ => rret length
  end.

Definition typeListDelete (t : nat) (index length : Z) : listM unit :=
  if length =? 0 then rret tt
  else
    ty <-- onDoc (getType t);;;
    found <-- position t index;;;
    let start := match found with Some (p, s) => (Some p, index - s) | None => (t_start ty, index) end in
    fuel <-- onDoc (get (fun d => size (d_items d)));;;
    n <-- onDoc (deleteStart fuel start.1 start.2);;;
    fuel <-- onDoc (get (fun d => size (d_items d)));;;
    rest <-- onDoc (deleteLoop fuel n length);;;
    if 0 <? rest then rfail ErrLengthExceeded
    else markersChanged index (- length + rest).
End Lookup.

(** ** Appending *)

(** The marker with the highest index, the first of them. *)
Fixpoint highest (best : option nat) (bestIndex : Z) (i : nat) (l : list arraySearchMarker) : option nat :=
  match l with
  | [] => best
  | m :: l' => if bestIndex <? m_index m then highest (Some i) (m_index m) (S i) l' else highest best bestIndex (S i) l'
  end.

(** To the last item, with its visible start. *)
Fixpoint lastWalk (fuel : nat) (n : nat) (nIndex : Z) : M (nat * Z) :=
  match fuel with
  | O => rret (n, nIndex)
  | S fuel' =>
      it <-- getItem n;;;
      match i_right it with
      | None => rret (n, nIndex)
      | Some r => lastWalk fuel' r (if negb (i_deleted it) && i_countable it then nIndex + i_length it else nIndex)
      end
  end.

(** The marker that the search starts from. *)
Definition bestMarker (markers : option (option markerState)) : option (nat * arraySearchMarker) :=
  match markers with Some (Some st) => i ← highest None (-1) 0 (sm_list st); m ← sm_list st !! i; Some (i, m) | _ => None end.

(** The tail reached is kept in the marker, or in a new one. *)
Definition persistTail (best : option (nat * arraySearchMarker)) (n : nat) (nIndex : Z) : listM unit :=
  fun s => match s.2 with
           | Some (Some st) =>
               match best with
               | Some (i, _) => (Ok tt, (s.1, Some (Some (overwriteMarker i n nIndex st))))
               | None => match markPositionWithLimit n nIndex maxSearchMarker (mkMarkers (sm_list st) ({[n]} ∪ sm_marked st) (sm_clock st)) with
                         | Ok (_, st) => (Ok tt, (s.1, Some (Some st)))
                         | Err e => (Err e, s)
                         end
               end
           | _ => (Ok tt, s)
           end.

Definition typeListPushGenerics (t : nat) (content : list (insertable V)) : listM unit :=
  ty <-- onDoc (getType t);;;
  markers <-- (fun s => (Ok s.2, s));;;
  let best := bestMarker markers in
  match (match best with Some (_, m) => Some (m_p m, m_index m) | None => (fun p => (p, 0)) <$> t_start ty end) with
  | None => onDoc (typeListInsertGenericsAfter t None content)
  | Some (n, nIndex) =>
      fuel <-- onDoc (get (fun d => size (d_items d)));;;
      last <-- onDoc (lastWalk fuel n nIndex);;;
      _ <-- persistTail best last.1 last.2;;;
      onDoc (typeListInsertGenericsAfter t (Some last.1) content)
  end.
End List.

(** ** Lists of values *)
Section Theory.
Context {V : Type} (interpolate : Z -> Z -> Z -> Z) (own : Z).
Context (Hinterp : forall clock span end_, 0 < span -> 0 <= clock <= span -> 0 <= end_ -> 0 <= interpolate clock span end_ <= end_).
Abbreviation item := (itemStruct V).
Abbreviation doc := (docState V).
Abbreviation heap := (gmap nat (itemStruct V)).

(** What the value of an item depends on. *)
Definition same_cell (a b : item) : Prop := i_content a = i_content b /\ i_length a = i_length b /\ i_deleted a = i_deleted b /\ i_countable a = i_countable b.

Definition same_cells (h h' : heap) (ps : list nat) : Prop := forall q, q ∈ ps -> match h !! q, h' !! q with Some a, Some b => same_cell a b | None, None => True | _, _ => False end.

Lemma same_cells_cons h h' p ps : same_cells h h' (p :: ps) -> match h !! p, h' !! p with Some a, Some b => same_cell a b | None, None => True | _, _ => False end /\ same_cells h h' ps.
Proof. intros Hs. split; [apply Hs; by left|]. intros q Hq. apply Hs. by right. Qed.

Lemma cells_same h h' ps : same_cells h h' ps -> vlen (withItems h' ps) = vlen (withItems h ps) /\ valuesOf (withItems h' ps) = valuesOf (withItems h ps) /\ (cells_ok (withItems h ps) -> cells_ok (withItems h' ps)).
Proof.
  induction ps as [|p ps IH]; intros Hs; [done|]. apply same_cells_cons in Hs as [Hp Hs]. destruct (IH Hs) as (I1 & I2 & I3). unfold withItems in *. cbn [omap list_omap]. destruct (h !! p) as [a|], (h' !! p) as [b|]; try done.
  destruct Hp as (E1 & E2 & E3 & E4). cbn [fmap option_fmap option_map vlen valuesOf]. unfold live in *. rewrite <- E1, <- E2, <- E3, <- E4. rewrite I1, I2. split_and!; [done|done|]. intros [Hc Hcs]%list.Forall_cons. constructor; [|by apply I3].
  destruct Hc as [Hl Hv]. split; cbn [snd] in *; [lia|]. unfold live in *. rewrite <- E1, <- E2, <- E3, <- E4. exact Hv.
Qed.

(** The items of an array: what is not deleted holds values, and no text. *)
Definition array_item (it : item) : Prop :=
  i_countable it = isCountable (i_content it) /\
  match i_content it with contentString _ | contentFormat _ _ => False | contentDeleted _ => i_deleted it = true | _ => True end.

(** The list of an array type in a well-formed document. *)
Record array_doc (d : doc) (t : nat) (ty : ytype) (ps : list nat) : Prop := {
  ad_doc : exists og ro, list_doc og ro d t ps;
  ad_type : d_types d !! t = Some ty;
  ad_list : type_list (d_items d) ty ps;
  ad_count : t_itemCount ty = Z.of_nat (length ps);
  ad_parent : forall q, t_item ty = Some q -> (q ∉ ps) /\ exists qi, d_items d !! q = Some qi /\ i_deleted qi = false;
  ad_items : forall q qi, q ∈ ps -> d_items d !! q = Some qi -> array_item qi
}.

Lemma agrees_ext (og ro og' ro' : ID -> option ID) (it : item) : (forall q, q ∈ chars it -> og' q = og q /\ ro' q = ro q) -> agrees og ro it -> agrees og' ro' it.
Proof.
  intros He [H1 H2 H3 H4]. pose proof (first_char it H3) as Hf. destruct (He _ Hf) as [E1 E2]. split; [by rewrite E1|by rewrite E2|done|].
  intros q Hq Hne. destruct (He q Hq) as [-> ->]. rewrite E2. by apply H4.
Qed.

(** The origins with those of a new item. *)
Definition og_with (og : ID -> option ID) (it : item) (q : ID) : option ID :=
  if bool_decide (q ∈ chars it) then if bool_decide (q = i_id it) then i_origin it else Some (GenID (Client q) (Clock q - 1)) else og q.
Definition ro_with (ro : ID -> option ID) (it : item) (q : ID) : option ID := if bool_decide (q ∈ chars it) then i_rightOrigin it else ro q.

Lemma agrees_new og ro (it : item) : 0 < i_length it -> agrees (og_with og it) (ro_with ro it) it.
Proof.
  intros Hl. pose proof (first_char it Hl) as Hf. split; [| |done|].
  - unfold og_with. by rewrite !bool_decide_eq_true_2.
  - unfold ro_with. by rewrite bool_decide_eq_true_2.
  - intros q Hq Hne. unfold og_with, ro_with. rewrite !(bool_decide_eq_true_2 (_ ∈ chars it)), bool_decide_eq_false_2 by done. done.
Qed.

Lemma agrees_old og ro (it qi : item) : (forall q, q ∈ chars qi -> q ∉ chars it) -> agrees og ro qi -> agrees (og_with og it) (ro_with ro it) qi.
Proof. intros Hd. apply agrees_ext. intros q Hq. unfold og_with, ro_with. by rewrite !bool_decide_eq_false_2 by by apply Hd. Qed.

(** The clock of the document's client is what the store accepts next. *)
Lemma state_next (d : doc) : store_repr d -> exists clock, getStateM own d = (Ok clock, d) /\
  forall p it, d_items d !! p = None -> i_id it = GenID own clock -> exists st', @addStruct _ (refStruct (<[p := it]> (d_items d))) (d_store d) (RItem p) = Ok st'.
Proof.
  intros [Hok Hin]. unfold getStateM, getState, clientStructs. destruct (clients (d_store d) !! own) as [ss|] eqn:Ess.
  - destruct Hok as (Hok & _). destruct (Hok _ _ Ess) as (Hne & _). destruct (list.last ss) as [l|] eqn:El; [|by apply last_None in El]. eexists. split; [reflexivity|].
    intros p it Ep Eid. unfold addStruct, clientStructs. cbn [getID refStruct]. rewrite lookup_insert_eq. cbn [from_option]. rewrite Eid. cbn [Client Clock]. rewrite Ess, El.
    assert (Hl : @getID _ (refStruct (<[p := it]> (d_items d))) l = @getID _ (refStruct (d_items d)) l /\ @structLength _ (refStruct (<[p := it]> (d_items d))) l = @structLength _ (refStruct (d_items d)) l).
    { destruct l as [q|gc]; [|done]. assert (Hq : RItem q ∈ ss) by by apply last_Some_elem_of. specialize (Hin _ _ _ Ess Hq) as [qi Eqi]. cbn [getID structLength refStruct]. rewrite lookup_insert_ne by congruence. done. }
    destruct Hl as [E1 E2]. cbn [getID structLength refStruct] in E1, E2. unfold struct_end. cbn [getID structLength refStruct]. rewrite E1, E2, Z.eqb_refl. by eexists.
  - exists 0. split; [done|]. intros p it Ep Eid. unfold addStruct, clientStructs. cbn [getID refStruct]. rewrite lookup_insert_eq. cbn [from_option]. rewrite Eid. cbn [Client]. rewrite Ess. by eexists.
Qed.

(** *** A new item in the heap *)
Definition allocated (d : doc) (it : item) : doc := set_next (d_next d + 1) (set_items (<[d_next d := it]> (d_items d)) d).

Lemma alloc_store (d : doc) it : store_repr d -> heap_fresh d -> store_repr (allocated d it) /\ heap_fresh (allocated d it) /\ forall q, is_Some (d_items d !! q) -> d_items (allocated d it) !! q = d_items d !! q.
Proof.
  intros [(Hok & Hnd & Hord) Hit] Hf. assert (Hfr : d_items d !! d_next d = None) by by apply Hf.
  assert (Hsame : forall q, is_Some (d_items d !! q) -> d_items (allocated d it) !! q = d_items d !! q) by (intros q [qi Eq]; cbn; apply lookup_insert_ne; congruence).
  assert (Href : forall k ss s, clients (d_store d) !! k = Some ss -> s ∈ ss -> @getID _ (refStruct (d_items d)) s = @getID _ (refStruct (d_items (allocated d it))) s /\ @structLength _ (refStruct (d_items d)) s = @structLength _ (refStruct (d_items (allocated d it))) s).
  { intros k ss [q|gc] Hk Hs; [|done]. simpl. pose proof (Hsame q (Hit _ _ _ Hk Hs)) as E. cbn in E. by rewrite E. }
  split_and!; [split; [split_and!; [|done|done]|]| |done].
  - intros k ss Hk. destruct (Hok k ss Hk) as (H1 & (c & Hc) & H3). split_and!; [done| |].
    + exists c. eapply contiguous_ext; [|exact Hc]. intros s Hs. by eapply Href.
    + apply list.Forall_forall. rewrite list.Forall_forall in H3. intros s Hs. destruct (Href k ss s Hk Hs) as [<- _]. by apply H3.
  - intros k ss q Hk Hq. rewrite Hsame; by eapply Hit.
  - intros q Hq. cbn in *. rewrite lookup_insert_ne by lia. apply Hf. lia.
Qed.

Lemma alloc_doc og ro (d : doc) t ps it : list_doc og ro d t ps -> list_doc og ro (allocated d it) t ps /\ (d_next d ∉ ps) /\ d_items d !! d_next d = None.
Proof.
  intros [Hst [Ls Ll La Lst] Hb Hf Hn]. destruct (alloc_store d it Hst Hf) as (Hst' & Hf' & Hsame). assert (Hfr : d_items d !! d_next d = None) by by apply Hf. assert (Hp : d_next d ∉ ps) by (intros Hp; destruct (linked_lookup _ _ _ _ Ll Hp) as [? E]; congruence).
  assert (Hps : forall q, q ∈ ps -> d_items (allocated d it) !! q = d_items d !! q) by (intros q Hq; apply Hsame; by eapply linked_lookup).
  split; [|done]. split; [done| | |done|done].
  - split; [done| |intros q qi Hq; rewrite Hps by done; by apply La|intros q qi Hq; rewrite Hps by done; by apply Lst].
    apply linked_lseg. eapply lseg_ext; [exact Hps|]. by apply linked_lseg.
  - intros q qi Hq. rewrite Hps by done. by apply Hb.
Qed.

(** No conflict between adjacent neighbours. *)
Lemma resolveLeft_adjacent (d : doc) t ty ps1 ps2 p it : d_types d !! t = Some ty -> t_start ty = head (ps1 ++ ps2) -> linked (d_items d) None (ps1 ++ ps2) -> d_items d !! p = Some it ->
  i_left it = list.last ps1 -> i_right it = head ps2 -> i_parentSub it = [] -> resolveLeft interpolate p t d = (Ok tt, d).
Proof.
  intros Et Est Hl Ep El Er Es. unfold resolveLeft. unfold rbind at 1. rewrite (getItem_eq _ _ _ Ep), El, Er. apply linked_lseg, lseg_app in Hl as [H1 H2]. rewrite last_or_None in H2.
  destruct (list.last ps1) as [l|] eqn:Elast.
  - apply last_Some in Elast as [p1 ->]. apply lseg_app in H1 as [_ (li & Eli & _ & Eri & _)]. unfold rbind at 1, rbind at 1. rewrite (getItem_eq _ _ _ Eli). unfold rret at 1. cbn [head_or] in Eri.
    rewrite bool_decide_eq_false_2; [done|]. intros Hne. apply Hne. rewrite Eri. by destruct ps2.
  - apply last_None in Elast as ->. cbn [app] in *. destruct ps2 as [|r ps2]; cbn [head] in *.
    + unfold rbind at 1, rret at 1. unfold rbind at 1, firstItem. unfold rbind at 1. rewrite (getType_eq _ _ _ Et), Es. rewrite bool_decide_eq_false_2 by (intros ?; done). unfold rret at 1. rewrite Est.
      unfold rbind at 1, get. unfold rbind at 1. assert (Hscan : forall n b c, conflictScan interpolate (n + 1) it None b c None d = (Ok None, d)) by (intros n b c; by rewrite Nat.add_1_r). rewrite Hscan.
      rewrite (setItem_eq _ p it) by done. assert (with_left None it = it) as -> by (destruct it; cbn in *; by subst). rewrite insert_id by done. by destruct d.
    + destruct H2 as (ri & Eri & Hleft & _). unfold rbind at 1, rbind at 1. rewrite (getItem_eq _ _ _ Eri). unfold rret at 1. rewrite bool_decide_eq_false_2; [done|]. intros Hne. by apply Hne.
Qed.

(** What may be inserted into the list of [t]. *)
Definition insert_content (d : doc) (t : nat) (c : docContent V) : Prop :=
  0 < contentLength c /\ content_ok c /\ match c with contentString _ | contentFormat _ _ | contentDeleted _ => False | contentType t' => t' <> t /\ is_Some (d_types d !! t') | _ => True end.

Lemma values_content (c : docContent V) : content_ok c -> match c with contentString _ | contentFormat _ _ | contentDeleted _ => False | _ => True end -> isCountable c = true /\ Z.of_nat (length (contentValues c)) = contentLength c.
Proof. destruct c; intros Hok Hc; cbn in *; try done; split; try done; by rewrite ?length_fmap. Qed.

Lemma ids_found (d : doc) (ps1 ps2 : list nat) : linked (d_items d) None (ps1 ++ ps2) -> exists origin rightOrigin, getItemLastID (list.last ps1) d = (Ok origin, d) /\ @getItemID V (head ps2) d = (Ok rightOrigin, d).
Proof.
  intros Hl. assert (Hin : forall q, q ∈ ps1 ++ ps2 -> is_Some (d_items d !! q)) by (intros q Hq; by eapply linked_lookup).
  assert (H1 : exists origin, getItemLastID (list.last ps1) d = (Ok origin, d)).
  { unfold getItemLastID. destruct (list.last ps1) as [l|] eqn:El; [|by eexists]. destruct (Hin l) as [li E]; [apply last_Some_elem_of in El; set_solver|]. unfold rbind. rewrite (getItem_eq _ _ _ E). by eexists. }
  assert (H2 : exists rightOrigin, @getItemID V (head ps2) d = (Ok rightOrigin, d)).
  { unfold getItemID. destruct ps2 as [|r ps2]; [by eexists|]. cbn [head]. destruct (Hin r) as [ri E]; [set_solver|]. unfold rbind. rewrite (getItem_eq _ _ _ E). by eexists. }
  destruct H1 as [o ?], H2 as [ro ?]. by exists o, ro.
Qed.

Lemma relinked_cells (h h' : heap) ps : relinked h h' -> same_cells h h' ps.
Proof. intros Hr q _. specialize (Hr q). destruct (h !! q), (h' !! q); try done. destruct Hr as (l & r & ->). done. Qed.

(** Linking and registering an allocated item between its neighbours. *)
Lemma integrate_between og ro d t ty ps1 ps2 p it st' : list_doc og ro d t (ps1 ++ ps2) -> d_types d !! t = Some ty -> t_start ty = head (ps1 ++ ps2) -> p ∉ ps1 ++ ps2 -> d_items d !! p = Some it ->
  i_parent it = ParentType t -> i_parentSub it = [] -> i_left it = list.last ps1 -> i_right it = head ps2 -> i_deleted it = false -> i_countable it = true ->
  insert_content d t (i_content it) -> i_length it = contentLength (i_content it) ->
  @addStruct _ (refStruct (d_items d)) (d_store d) (RItem p) = Ok st' ->
  (forall q, t_item ty = Some q -> q <> p /\ exists qi, d_items d !! q = Some qi /\ i_deleted qi = false) ->
  exists d' ty', integrateWithScratch interpolate p 0 d = (Ok tt, d') /\ relinked (d_items d) (d_items d') /\ d_store d' = st' /\ d_next d' = d_next d /\
    d_types d' !! t = Some ty' /\ t_start ty' = head_or None (ps1 ++ p :: ps2) /\ linked (d_items d') None (ps1 ++ p :: ps2) /\ dom (d_types d') = dom (d_types d) /\
    t_item ty' = t_item ty /\ t_itemCount ty' = t_itemCount ty + 1 /\ t_length ty' = t_length ty + i_length it.
Proof.
  intros Hd Et Est Hp Ep Epar Esub El Er Edel Ecnt (Hlen & Hcok & Hcont) Eln Hadd Hpar. assert (Hl := lr_linked _ _ _ _ _ (ld_list _ _ _ _ _ Hd)). assert (Hnd := ld_nodup _ _ _ _ _ Hd).
  assert (Hnec : forall k ss, clients st' !! k = Some ss -> ss <> []).
  { assert (Hl0 : 0 < @structLength _ (refStruct (d_items d)) (RItem p)) by (simpl; rewrite Ep; cbn; lia).
    destruct (@addStruct_ok _ (refStruct (d_items d)) _ _ _ (sr_ok _ (ld_store _ _ _ _ _ Hd)) Hl0 Hadd) as ((Hok' & _) & _). intros k ss Hk. by destruct (Hok' k ss Hk). }
  assert (Est' : t_start ty = head_or None (ps1 ++ ps2)) by (rewrite Est; by destruct (ps1 ++ ps2)).
  destruct (linkItem_spec interpolate Hinterp d t ty p it ps1 ps2 Et Est' Hl Hp Hnd Ep Esub El) as (h2 & ty2 & E2 & Hl2 & Hrel & Est2 & Eit2 & Elen2 & Ecnt2).
  pose proof (Hrel p) as Hp2. rewrite Ep in Hp2. destruct (h2 !! p) as [it2|] eqn:Ep2; [|done]. destruct Hp2 as (l2 & r2 & ->). set (d2 := set_items h2 (set_types (<[t := ty2]> (d_types d)) d)) in *.
  destruct (registerItem_spec interpolate Hinterp d2 t ty2 p (with_links l2 r2 it) st') as (d3 & it3 & ty3 & E3 & Es3 & Hit3 & Ei3 & Et3 & Est3 & En3 & Eitem3 & Ecnt3 & Elen3 & Edom3); [done|done|apply lookup_insert_eq| | | |exact Hnec|].
  { intros t' Ec. cbn [with_links i_content] in Ec. rewrite Ec in Hcont. destruct Hcont as [Hne ?]. split; [done|]. cbn. by rewrite lookup_insert_ne. }
  { intros q Eq. rewrite Eit2 in Eq. destruct (Hpar q Eq) as (Hne & qi & Eqi & Hdel). split; [done|]. specialize (Hrel q). rewrite Eqi in Hrel. cbn. destruct (h2 !! q) as [qi2|]; [|done]. destruct Hrel as (? & ? & ->). by eexists. }
  { cbn. rewrite <- Hadd. symmetry. by apply addStruct_body, relinked_bodies. }
  assert (it3 = with_links l2 r2 it) as -> by (destruct Hit3 as [->|[_ [n En]]]; [done|]; cbn in En; by rewrite En in Hcont). cbn [d_items d2 set_items] in Ei3. rewrite insert_id in Ei3 by done.
  exists d3, ty3. cbn [with_links i_countable i_deleted i_length] in Elen3. rewrite Edel, Ecnt in Elen3. cbn [andb negb] in Elen3. split_and!.
  - unfold integrateWithScratch, shiftItem. cbn [Z.ltb Z.compare]. unfold rbind at 1, rret at 1. unfold rbind at 1. rewrite (getItem_eq _ _ _ Ep), Epar. unfold rbind at 1, parentType. rewrite Epar. unfold rret at 1.
    unfold rbind at 1. rewrite (resolveLeft_adjacent d t ty ps1 ps2 p it Et Est Hl Ep El Er Esub). unfold rbind at 1. rewrite E2. exact E3.
  - by rewrite Ei3.
  - done.
  - by rewrite En3.
  - done.
  - by rewrite Est3.
  - by rewrite Ei3.
  - rewrite Edom3. cbn. rewrite dom_insert_L. apply elem_of_dom_2 in Et. set_solver.
  - congruence.
  - congruence.
  - congruence.
Qed.

Lemma insertOne_spec d t ty ps1 ps2 c : array_doc d t ty (ps1 ++ ps2) -> insert_content d t c ->
  exists d' p ty', insertOne interpolate own t (list.last ps1) (head ps2) c d = (Ok p, d') /\ array_doc d' t ty' (ps1 ++ p :: ps2) /\ dom (d_types d') = dom (d_types d) /\
    same_cells (d_items d) (d_items d') (ps1 ++ ps2) /\ listValues (d_items d') [p] = contentValues c.
Proof.
  intros [(og & ro & Hd) Et Htl Hcnt Hpar Hitems] Hc. pose proof Hc as (Hlen & Hcok & Hcont).
  assert (Hcont' : match c with contentString _ | contentFormat _ _ | contentDeleted _ => False | _ => True end) by (by destruct c). destruct (values_content c Hcok Hcont') as [Hcc Hcv].
  pose proof (lr_linked _ _ _ _ _ (ld_list _ _ _ _ _ Hd)) as Hl. destruct (ids_found d ps1 ps2 Hl) as (origin & rightOrigin & Eo & Er). destruct (state_next d (ld_store _ _ _ _ _ Hd)) as (clock & Eclock & Hnext).
  set (it := newItemWithLength (GenID own clock) (list.last ps1) origin (head ps2) rightOrigin (ParentType t) [] c (contentLength c)). set (p := d_next d). set (d1 := allocated d it).
  destruct (alloc_doc og ro d t (ps1 ++ ps2) it Hd) as (Hd1 & Hp & Hfr). fold d1 p in Hd1, Hp, Hfr. destruct (Hnext p it Hfr eq_refl) as (st' & Hadd).
  assert (Ep : d_items d1 !! p = Some it) by apply lookup_insert_eq.
  assert (Hpar1 : forall q, t_item ty = Some q -> q <> p /\ exists qi, d_items d1 !! q = Some qi /\ i_deleted qi = false).
  { intros q Eq. destruct (Hpar q Eq) as (_ & qi & Eqi & Hdel). assert (q <> p) by congruence. split; [done|]. exists qi. split; [cbn; by rewrite lookup_insert_ne|done]. }
  destruct (integrate_between og ro d1 t ty ps1 ps2 p it st') as (d2 & ty2 & E2 & Hrel & Es2 & En2 & Et2 & Est2 & Hl2 & Edom2 & Eitem2 & Ecnt2 & Elen2); try done; [apply Htl|]. cbn [it newItemWithLength i_length] in Elen2.
  pose proof (relinked_bodies _ _ Hrel) as Hb.
  assert (Hold : forall q, q ∈ ps1 ++ ps2 -> exists qi l r, d_items d !! q = Some qi /\ d_items d2 !! q = Some (with_links l r qi)).
  { intros q Hq. destruct (linked_lookup _ _ _ _ Hl Hq) as [qi Eq]. specialize (Hrel q). assert (Hqp : p <> q) by congruence. assert (Eq1 : d_items d1 !! q = d_items d !! q) by (apply lookup_insert_ne; exact Hqp). rewrite Eq1 in Hrel. rewrite Eq in Hrel. destruct (d_items d2 !! q) as [b|]; [|done]. destruct Hrel as (l & r & ->). by exists qi, l, r. }
  assert (Hsame : same_cells (d_items d) (d_items d2) (ps1 ++ ps2)) by (intros q Hq; destruct (Hold q Hq) as (qi & l & r & -> & ->); done).
  assert (Hnew : exists l r, d_items d2 !! p = Some (with_links l r it)) by (specialize (Hrel p); rewrite Ep in Hrel; destruct (d_items d2 !! p) as [b|]; [|done]; destruct Hrel as (l & r & ->); by exists l, r).
  destruct Hnew as (pl & pr & Ep2). destruct (cells_same _ _ _ Hsame) as (Hvl & _ & Hcells).
  assert (Hdoc2 : list_doc (og_with og it) (ro_with ro it) d2 t (ps1 ++ p :: ps2)).
  { assert (Hag : agrees (og_with og it) (ro_with ro it) it) by (apply agrees_new; exact Hlen).
    assert (Hlr1 : list_repr (og_with og it) (ro_with ro it) d1 t (ps1 ++ ps2)).
    { destruct (ld_list _ _ _ _ _ Hd1) as [H1 H2 H3 H4] eqn:E. split; [done|done| |done]. intros q qi Hq Eq. apply agrees_old; [|by apply (H3 q)]. intros x Hx Hx'.
      apply (next_fresh og ro d1 t (ps1 ++ ps2) p it st' x (ld_store _ _ _ _ _ Hd1) (ld_list _ _ _ _ _ Hd1) Ep Hadd Hx'). apply elem_elems. by exists q, qi. }
    split.
    - by eapply (store_repr_add d1 d2 p it st'); [apply Hd1| | | | |].
    - by eapply (list_repr_add _ _ interpolate Hinterp d1 d2 t ps1 ps2 p it st' ty2).
    - intros q qi Hq Eq. rewrite elem_of_app, elem_of_cons in Hq. destruct (decide (q = p)) as [->|Hne]; [rewrite Ep2 in Eq; injection Eq as <-; by split|].
      destruct (Hold q) as (q0 & l & r & E0 & E1); [set_solver|]. rewrite Eq in E1. injection E1 as ->. destruct (ld_bodies _ _ _ _ _ Hd q q0) as [B1 B2 B3 B4]; [set_solver|done|]. by split.
    - intros q Hq. rewrite En2 in Hq. specialize (Hb q). rewrite (ld_fresh _ _ _ _ _ Hd1 q Hq) in Hb. by destruct (d_items d2 !! q).
    - pose proof (ld_nodup _ _ _ _ _ Hd) as Hnd. rewrite <- Permutation_middle. by apply list.NoDup_cons. }
  assert (Hwi : withItems (d_items d2) [p] = [(p, with_links pl pr it)]) by (by rewrite (withItems_cons _ p (with_links pl pr it) [])).
  assert (Hlive : live (with_links pl pr it) = true) by (unfold live; cbn; by rewrite Hcc).
  exists d2, p, ty2. split_and!; [|split|done|done|].
  - unfold insertOne. unfold rbind at 1. rewrite Eclock. unfold rbind at 1. rewrite Eo. unfold rbind at 1. rewrite Er. unfold rbind at 1. assert (Ealloc : alloc it d = (Ok p, d1)) by done. fold it. rewrite Ealloc. unfold rbind. by rewrite E2.
  - by eexists _, _.
  - done.
  - assert (Hsplit : withItems (d_items d2) (ps1 ++ p :: ps2) = withItems (d_items d2) ps1 ++ (p, with_links pl pr it) :: withItems (d_items d2) ps2) by (rewrite withItems_app, (withItems_cons _ p _ ps2 Ep2); done).
    specialize (Hcells (tl_cells _ _ _ Htl)). rewrite withItems_app in Hcells. apply list.Forall_app in Hcells as [Hc1 Hc2]. rewrite withItems_app, vlen_app in Hvl. split; [rewrite Est2; by destruct ps1|done|rewrite Hsplit..].
    + apply Forall_app_2; [done|]. constructor; [|done]. split; cbn; [lia|]. intros _. exact Hcv.
    + rewrite Elen2, (tl_length _ _ _ Htl), vlen_app, <- Hvl. cbn [vlen]. rewrite Hlive. cbn. lia.
  - rewrite Ecnt2, Hcnt, !length_app. cbn [length]. lia.
  - intros q Eq. rewrite Eitem2 in Eq. destruct (Hpar q Eq) as (Hq & qi & Eqi & Hdel). destruct (Hpar1 q Eq) as (Hne & _). split; [set_solver|].
    specialize (Hrel q). assert (Hqp : p <> q) by congruence. assert (Eq1 : d_items d1 !! q = d_items d !! q) by (apply lookup_insert_ne; exact Hqp). rewrite Eq1 in Hrel. rewrite Eqi in Hrel. destruct (d_items d2 !! q) as [b|]; [|done]. destruct Hrel as (l & r & ->). by eexists.
  - intros q qi Hq Eq. rewrite elem_of_app, elem_of_cons in Hq. destruct (decide (q = p)) as [->|Hne]; [rewrite Ep2 in Eq; injection Eq as <-; split; [done|]; cbn; by destruct c|].
    destruct (Hold q) as (q0 & l & r & E0 & E1); [set_solver|]. rewrite Eq in E1. injection E1 as ->. apply (Hitems q q0); [set_solver|done].
  - unfold listValues. rewrite Hwi. cbn [valuesOf]. rewrite live_flags, Hlive. cbn. by rewrite app_nil_r.
Qed.

(** *** Inserting values *)

(** The values that an insertion takes. *)
Definition insert_ok (d : doc) (t : nat) (c : insertable V) : Prop :=
  match c with InOther => False | InType t' => t' <> t /\ is_Some (d_types d !! t') | _ => True end.

Definition toElement (c : insertable V) : @element V :=
  match c with InAny v => EAny v | InBytes value => EBytes value | InDoc doc => EDoc doc | InType t => EType t | InOther => EUnit 0 end.

(** The outcome of an insertion of the items [qs] between [ps1] and [ps2]. *)
Record grown_by (d d' : doc) (t : nat) (ty' : ytype) (ps1 qs ps2 : list nat) (vs : list (@element V)) : Prop := {
  gb_doc : array_doc d' t ty' (ps1 ++ qs ++ ps2);
  gb_types : dom (d_types d') = dom (d_types d);
  gb_cells : same_cells (d_items d) (d_items d') (ps1 ++ ps2);
  gb_values : listValues (d_items d') qs = vs
}.

Lemma same_cells_trans h1 h2 h3 ps : same_cells h1 h2 ps -> same_cells h2 h3 ps -> same_cells h1 h3 ps.
Proof.
  intros H1 H2 q Hq. specialize (H1 q Hq). specialize (H2 q Hq). destruct (h1 !! q), (h2 !! q), (h3 !! q); try done. unfold same_cell in *. intuition congruence.
Qed.

Lemma same_cells_sub h1 h2 ps ps' : (forall q, q ∈ ps' -> q ∈ ps) -> same_cells h1 h2 ps -> same_cells h1 h2 ps'.
Proof. intros Hs H q Hq. apply H. by apply Hs. Qed.

Lemma grown_nil d t ty ps1 ps2 : array_doc d t ty (ps1 ++ ps2) -> grown_by d d t ty ps1 [] ps2 [].
Proof. intros Ha. split; [done|done| |done]. intros q _. by destruct (d_items d !! q). Qed.

(** One insertion, and more behind it. *)
Lemma grown_cons d d1 d2 t ty2 ps1 p qs ps2 vs1 vs2 : dom (d_types d1) = dom (d_types d) -> same_cells (d_items d) (d_items d1) (ps1 ++ ps2) -> listValues (d_items d1) [p] = vs1 ->
  grown_by d1 d2 t ty2 (ps1 ++ [p]) qs ps2 vs2 -> grown_by d d2 t ty2 ps1 (p :: qs) ps2 (vs1 ++ vs2).
Proof.
  intros E1 Hs1 Hv1 [G1 G2 G3 G4]. split.
  - rewrite <- app_assoc in G1. exact G1.
  - congruence.
  - eapply same_cells_trans; [exact Hs1|]. eapply same_cells_sub; [|exact G3]. set_solver.
  - unfold listValues in *. change (p :: qs) with ([p] ++ qs). rewrite withItems_app, values_app, G4. f_equal. rewrite <- Hv1. destruct (cells_same (d_items d1) (d_items d2) [p]) as (_ & E & _); [|exact E]. eapply same_cells_sub; [|exact G3]. set_solver.
Qed.

Lemma insert_ok_dom (d d' : doc) t c : dom (d_types d') = dom (d_types d) -> insert_ok d t c -> insert_ok d' t c.
Proof. intros E. destruct c; cbn; try done. intros [? ?]. split; [done|]. apply elem_of_dom. rewrite E. by apply elem_of_dom. Qed.

Lemma own_content d t c k : insert_ok d t c -> ownContent c = Some k -> insert_content d t k /\ contentValues k = [toElement c].
Proof. destruct c; cbn; intros Hok E; try done; injection E as <-; (split; [split; [cbn; lia|split; [done|exact Hok]]|done]). Qed.

Lemma pack_spec d t ty ps1 ps2 (vs : list V) : array_doc d t ty (ps1 ++ ps2) ->
  exists d' ty' qs, packJSONContent interpolate own t (list.last ps1) (head ps2) vs d = (Ok (list.last (ps1 ++ qs)), d') /\ grown_by d d' t ty' ps1 qs ps2 (EAny <$> vs).
Proof.
  intros Ha. destruct vs as [|v vs]; [exists d, ty, []; rewrite app_nil_r; split; [done|by apply grown_nil]|].
  destruct (insertOne_spec d t ty ps1 ps2 (contentAny (v :: vs)) Ha) as (d' & p & ty' & E & Ha' & Ed & Hs & Hv); [split_and!; (done || (cbn; lia))|].
  exists d', ty', [p]. split; [unfold packJSONContent, rbind; rewrite E; by rewrite last_snoc|]. split; [done|done|done|exact Hv].
Qed.

Lemma insertLoop_spec t content : forall d ty ps1 ps2 (json : list V), array_doc d t ty (ps1 ++ ps2) -> Forall (insert_ok d t) content ->
  exists d' ty' qs, insertLoop interpolate own t (list.last ps1) (head ps2) json content d = (Ok tt, d') /\ grown_by d d' t ty' ps1 qs ps2 ((EAny <$> json) ++ (toElement <$> content)).
Proof.
  induction content as [|c content IH]; intros d ty ps1 ps2 json Ha Hc.
  - destruct (pack_spec d t ty ps1 ps2 json Ha) as (d' & ty' & qs & E & Hg). exists d', ty', qs. split; [cbn [insertLoop]; unfold rbind; by rewrite E|]. by rewrite app_nil_r.
  - apply list.Forall_cons in Hc as [Hc Hcs]. assert (Hcase : (exists v, c = InAny v) \/ isAnyEncodable c = None) by (destruct c; [left; by eexists|by right..]). destruct Hcase as [(v & ->)|Hn].
    + destruct (IH d ty ps1 ps2 (json ++ [v]) Ha Hcs) as (d' & ty' & qs & E & Hg). exists d', ty', qs. split; [exact E|]. rewrite fmap_app, <- app_assoc in Hg. exact Hg.
    + destruct (pack_spec d t ty ps1 ps2 json Ha) as (d1 & ty1 & qs1 & E1 & Hg1). assert (Hk : exists k, ownContent c = Some k) by (destruct c; [done|by eexists..|done]). destruct Hk as (k & Ek).
      destruct (own_content d1 t c k) as [Hic Hv]; [by eapply insert_ok_dom; [apply Hg1|]|done|]. pose proof (gb_doc _ _ _ _ _ _ _ _ Hg1) as Ha1. rewrite app_assoc in Ha1.
      destruct (insertOne_spec d1 t ty1 (ps1 ++ qs1) ps2 k Ha1 Hic) as (d2 & p & ty2 & E2 & Ha2 & Ed2 & Hs2 & Hv2).
      destruct (IH d2 ty2 ((ps1 ++ qs1) ++ [p]) ps2 []) as (d3 & ty3 & qs3 & E3 & Hg3); [by rewrite <- app_assoc|eapply list.Forall_impl; [exact Hcs|]; intros c'; apply insert_ok_dom; rewrite Ed2; apply Hg1|].
      exists d3, ty3, (qs1 ++ p :: qs3). split.
      * assert (Eloop : insertLoop interpolate own t (list.last ps1) (head ps2) json (c :: content) d =
          (left <-- packJSONContent interpolate own t (list.last ps1) (head ps2) json;;; match ownContent c with Some k => p <-- insertOne interpolate own t left (head ps2) k;;; insertLoop interpolate own t (Some p) (head ps2) [] content | None => rfail ErrUnexpectedContent end) d) by (destruct c; done).
        rewrite Eloop. unfold rbind at 1. rewrite E1, Ek. unfold rbind at 1. rewrite E2. rewrite last_snoc in E3. exact E3.
      * pose proof (grown_cons d1 d2 d3 t ty3 (ps1 ++ qs1) p qs3 ps2 _ _ Ed2 Hs2 Hv2 Hg3) as [F1 F2 F3 F4]. destruct Hg1 as [G1 G2 G3 G4]. split.
        -- rewrite <- !app_assoc in *. exact F1.
        -- congruence.
        -- eapply same_cells_trans; [exact G3|]. eapply same_cells_sub; [|exact F3]. set_solver.
        -- unfold listValues in *. rewrite withItems_app, values_app, F4, Hv. cbn [app]. rewrite fmap_cons. f_equal. rewrite <- G4. destruct (cells_same (d_items d1) (d_items d3) qs1) as (_ & E & _); [|exact E]. eapply same_cells_sub; [|exact F3]. set_solver.
Qed.
End Theory.
