(* ===== verification/ListInsert.v ===== *)
(** * What an insertion into a list does

    Theory of the writers of TypeList.v: behind an item the new values follow
    it, at an index they follow the first [index] values, and the search markers
    stay right; for the compact append of a transaction without observers as for
    the items that are integrated. *)
From stdpp Require Import gmap sets list.
From Stdlib Require Import ZArith Lia.
From S2P Require Import Prelude Lib0 StructStore Text DeleteSet Object Content Item ItemList ItemSplit TypeRead SearchMarker PositionTree PositionIndex TypeList.
Open Scope Z_scope.
Open Scope go_scope.

Section Theory.
Context {V : Type} (interpolate : Z -> Z -> Z -> Z) (own : Z).
Context (Hinterp : forall clock span end_, 0 < span -> 0 <= clock <= span -> 0 <= end_ -> 0 <= interpolate clock span end_ <= end_).
Abbreviation item := (itemStruct V).
Abbreviation doc := (docState V).
Abbreviation heap := (gmap nat (itemStruct V)).

(** ** The elements of distinct items *)
Lemma item_unique (d : doc) ss p q pi qi x : store_repr d -> clients (d_store d) !! Client (i_id pi) = Some ss -> RItem p ∈ ss -> RItem q ∈ ss ->
  d_items d !! p = Some pi -> d_items d !! q = Some qi -> x ∈ chars pi -> x ∈ chars qi -> p = q.
Proof.
  intros [(Hok & _) _] Hss Hp Hq Ep Eq Hxp Hxq. destruct (Hok _ _ Hss) as (_ & (c & Hc) & _). apply elem_chars in Hxp as [Hx1 Hx2], Hxq as [Hx3 Hx4].
  assert (E : RItem p = RItem q); [|by injection E]. eapply (@covers_unique _ (refStruct (d_items d)) c ss _ _ (Clock x) Hc Hp Hq); unfold covers, struct_end; cbn; rewrite ?Ep, ?Eq; cbn; lia.
Qed.

Lemma list_unique og ro (d : doc) t ps p q pi qi x : list_doc og ro d t ps -> p ∈ ps -> q ∈ ps -> d_items d !! p = Some pi -> d_items d !! q = Some qi -> x ∈ chars pi -> x ∈ chars qi -> p = q.
Proof.
  intros Hd Hp Hq Ep Eq Hxp Hxq. destruct (lr_store _ _ _ _ _ (ld_list _ _ _ _ _ Hd) p pi Hp Ep) as (ss & Hss & Hin). destruct (lr_store _ _ _ _ _ (ld_list _ _ _ _ _ Hd) q qi Hq Eq) as (ss' & Hss' & Hin').
  pose proof (proj1 (elem_chars _ _) Hxp) as [E1 _]. pose proof (proj1 (elem_chars _ _) Hxq) as [E2 _]. rewrite <- E2, E1, Hss in Hss'. injection Hss' as <-. by eapply item_unique; [apply Hd|..].
Qed.

(** ** The compact append *)

(** The last struct of a client, by its end. *)
Lemma last_by_end (d : doc) ss l li s : store_repr d -> clients (d_store d) !! Client (i_id li) = Some ss -> RItem l ∈ ss -> d_items d !! l = Some li -> 0 < i_length li ->
  list.last ss = Some s -> @struct_end _ (refStruct (d_items d)) s = Clock (i_id li) + i_length li -> exists ss1, ss = ss1 ++ [RItem l].
Proof.
  intros [(Hok & _) _] Hss Hin El Hlen Hlast Hend. destruct (Hok _ _ Hss) as (_ & (c & Hc) & _). apply last_Some in Hlast as [ss1 ->]. exists ss1. do 2 f_equal. symmetry.
  eapply (@covers_unique _ (refStruct (d_items d)) c _ _ _ (Clock (i_id li) + i_length li - 1) Hc Hin); [apply elem_of_app; right; apply list_elem_of_singleton; reflexivity|unfold covers, struct_end; cbn; rewrite El; cbn; lia|].
  apply (@contiguous_app _ (refStruct (d_items d))) in Hc as (_ & _ & Hpos). unfold covers. rewrite Hend. split; [|lia]. unfold struct_end in Hend. lia.
Qed.

Definition grown (li : item) (arr vs : list V) : item := with_body (i_id li) (i_length li + Z.of_nat (length vs)) (contentAny (arr ++ vs)) li.

Lemma store_grown (d : doc) ss1 l li arr vs : store_repr d -> clients (d_store d) !! Client (i_id li) = Some (ss1 ++ [RItem l]) -> d_items d !! l = Some li ->
  store_repr (set_items (<[l := grown li arr vs]> (d_items d)) d).
Proof.
  intros [(Hok & Hnd & Hord) Hin] Hss El. set (h' := <[l := grown li arr vs]> (d_items d)).
  assert (Hid : forall s, @getID _ (refStruct h') s = @getID _ (refStruct (d_items d)) s) by (intros [q|g]; [|done]; cbn; unfold h'; destruct (decide (q = l)) as [->|]; [by rewrite lookup_insert_eq, El|by rewrite lookup_insert_ne]).
  assert (Hlen : forall s, s <> RItem l -> @structLength _ (refStruct h') s = @structLength _ (refStruct (d_items d)) s) by (intros [q|g] Hne; [|done]; cbn; unfold h'; rewrite lookup_insert_ne by congruence; done).
  split; [split_and!; [|done|done]|intros k ss q Hk Hq; cbn; apply lookup_insert_is_Some'; right; by eapply Hin].
  intros k ss Hk. destruct (Hok k ss Hk) as (H1 & (c & Hc) & H3). split_and!; [done| |eapply list.Forall_impl; [exact H3|]; intros s Hs; etrans; [|exact Hs]; exact (f_equal Client (Hid s))]. exists c.
  destruct (decide (k = Client (i_id li))) as [->|Hk'].
  - cbn in Hk. rewrite Hss in Hk. injection Hk as <-.
    pose proof (contiguous_NoDup _ _ Hc) as Hnds. apply list.NoDup_app in Hnds as (_ & Hd1 & _). apply contiguous_app in Hc as (Hc1 & Hc2 & Hc3).
    apply (@contiguous_app _ (refStruct h')). assert (Hc' : @contiguous_from _ (refStruct h') c ss1) by (eapply contiguous_ext; [|exact Hc1]; intros s Hs; split; [by rewrite Hid|symmetry; apply Hlen; intros ->; apply (Hd1 _ Hs); by left]).
    assert (He : @list_end _ (refStruct h') c ss1 = @list_end _ (refStruct (d_items d)) c ss1).
    { destruct (list.last ss1) as [s|] eqn:Es; [|apply last_None in Es as ->; done]. rewrite !(@list_end_last _ _ _ _ s) by done. unfold struct_end. rewrite Hid, Hlen; [done|]. intros ->. apply last_Some_elem_of in Es. apply (Hd1 _ Es). by left. }
    split_and!; [done|rewrite He, <- Hc2; exact (f_equal Clock (Hid (RItem l)))|]. cbn in Hc3 |- *. fold h'. assert (Eh : h' !! l = Some (grown li arr vs)) by apply lookup_insert_eq. rewrite El in Hc3. rewrite Eh. cbn in *. lia.
  - assert (Hl : RItem l ∉ ss) by (intros Hl; rewrite list.Forall_forall in H3; apply Hk'; rewrite <- (H3 _ Hl); cbn; by rewrite El).
    eapply contiguous_ext; [|exact Hc]. intros s Hs. split; [by rewrite Hid|symmetry; apply Hlen; by intros ->].
Qed.

Lemma compact_guards (d : doc) t ty l li : compactGuards own d t ty l li = true -> i_deleted li = false /\ i_countable li = true /\ i_right li = None /\ Client (i_id li) = own /\
  exists ss s, clients (d_store d) !! own = Some ss /\ list.last ss = Some s /\ @struct_end _ (refStruct (d_items d)) s = Clock (i_id li) + i_length li.
Proof.
  unfold compactGuards. rewrite !andb_true_iff. intros ((((((((((((_ & _) & H3) & _) & H5) & H6) & _) & _) & H9) & _) & _) & _) & H13). split_and!; [by destruct (i_deleted li)|done|by apply bool_decide_eq_true in H3|lia|].
  unfold clientStructs in H13. destruct (clients (d_store d) !! own) as [ss|]; [|done]. destruct (list.last ss) as [s|] eqn:Es; [|done]. exists ss, s. split_and!; [done|done|lia].
Qed.

(** No other item of the list has an element of the grown item. *)
Lemma grown_fresh og ro (d : doc) t ps ss1 l li arr vs q qi x : list_doc og ro d t ps -> l ∈ ps -> d_items d !! l = Some li -> clients (d_store d) !! Client (i_id li) = Some (ss1 ++ [RItem l]) ->
  q ∈ ps -> q <> l -> d_items d !! q = Some qi -> x ∈ chars qi -> x ∉ chars (grown li arr vs).
Proof.
  intros Hd Hl El Hss Hq Hne Eq Hx Hxg. pose proof (proj1 (elem_chars _ _) Hx) as [Hx1 Hx2]. apply elem_chars in Hxg as [Hg1 Hg2]. cbn in Hg1, Hg2.
  destruct (decide (Clock x < Clock (i_id li) + i_length li)) as [Hlt|Hge]; [apply Hne; eapply (list_unique og ro d t ps q l qi li x); try done; apply elem_chars; lia|].
  destruct (lr_store _ _ _ _ _ (ld_list _ _ _ _ _ Hd) q qi Hq Eq) as (ss & Hs & Hin). rewrite <- Hx1, Hg1, Hss in Hs. injection Hs as <-.
  destruct (sr_ok _ (ld_store _ _ _ _ _ Hd)) as (Hok & _). destruct (Hok _ _ Hss) as (_ & (c & Hc) & _). pose proof (@contiguous_end _ (refStruct (d_items d)) c _ _ Hc Hin) as He. rewrite list_end_app in He. unfold struct_end in He. cbn in He. rewrite Eq, El in He. cbn in He. lia.
Qed.

Lemma compact_spec (d : doc) t ty ps1 l li arr vs : array_doc d t ty (ps1 ++ [l]) -> d_items d !! l = Some li -> i_content li = contentAny arr -> compactGuards own d t ty l li = true ->
  exists d' ty', compactAppend t l li vs d = (Ok tt, d') /\ array_doc d' t ty' (ps1 ++ [l]) /\ dom (d_types d') = dom (d_types d) /\ same_cells (d_items d) (d_items d') ps1 /\
    listValues (d_items d') [l] = listValues (d_items d) [l] ++ (EAny <$> vs).
Proof.
  intros [(og & ro & Hd) Et Htl Hcnt Hpar Hitems] El Ec Hg. apply compact_guards in Hg as (Edel & Ecount & Eright & Ecl & ss & s & Hss & Hlast & Hend). assert (Hl : l ∈ ps1 ++ [l]) by set_solver.
  destruct (lr_store _ _ _ _ _ (ld_list _ _ _ _ _ Hd) l li Hl El) as (ss' & Hss' & Hin). pose proof Hss' as Hss2. rewrite Ecl, Hss in Hss2. injection Hss2 as <-. pose proof (ag_length _ _ _ (lr_agrees _ _ _ _ _ (ld_list _ _ _ _ _ Hd) l li Hl El)) as Hlen.
  destruct (last_by_end d ss l li s (ld_store _ _ _ _ _ Hd) Hss' Hin El Hlen Hlast Hend) as (ss1 & ->). destruct (ld_bodies _ _ _ _ _ Hd l li Hl El) as [B1 B2 B3 B4]. rewrite Ec in B4. cbn in B4.
  set (g := grown li arr vs). set (d1 := set_items (<[l := g]> (d_items d)) d). set (ty' := updateLength (Z.of_nat (length vs)) ty). set (d' := set_types (<[t := ty']> (d_types d)) d1).
  assert (Hg : d_items d' !! l = Some g) by apply lookup_insert_eq. assert (Hother : forall q, q <> l -> d_items d' !! q = d_items d !! q) by (intros q Hq; cbn; by rewrite lookup_insert_ne).
  assert (Hnl : l ∉ ps1) by (intros Hn; pose proof (ld_nodup _ _ _ _ _ Hd) as Hnd; apply list.NoDup_app in Hnd as (_ & Hnd & _); apply (Hnd l Hn); by left).
  assert (Hlive : live li = true) by (unfold live; by rewrite Edel, Ecount). assert (Hliveg : live g = true) by exact Hlive.
  assert (Hlk : linked (d_items d') None (ps1 ++ [l])) by (apply (linked_replace (d_items d) l li g); [done|done|done|apply Hd]).
  assert (Hsame : same_cells (d_items d) (d_items d') ps1) by (intros q Hq; rewrite Hother by (by intros ->); destruct (d_items d !! q); [done|done]). destruct (cells_same _ _ _ Hsame) as (Hvl & _ & Hcells).
  assert (Hw : withItems (d_items d') [l] = [(l, g)]) by (by rewrite (withItems_cons _ l g [])). assert (Hw0 : withItems (d_items d) [l] = [(l, li)]) by (by rewrite (withItems_cons _ l li [])).
  exists d', ty'. split_and!; [|split| |exact Hsame|].
  - unfold compactAppend. rewrite Ec. unfold rbind. rewrite (setItem_eq d l li _ El). exact (setType_eq d1 t ty _ Et).
  - exists (og_with og g), (ro_with ro g). pose proof (store_grown d ss1 l li arr vs (ld_store _ _ _ _ _ Hd) Hss' El) as Hst. split; [split; apply Hst| | | |apply Hd].
    + split; [exists ty'; split; [apply lookup_insert_eq|cbn; destruct (lr_start _ _ _ _ _ (ld_list _ _ _ _ _ Hd)) as (ty0 & E0 & Es0); rewrite Et in E0; by injection E0 as <-]|exact Hlk| |].
      * intros q qi Hq Eq. destruct (decide (q = l)) as [->|Hne]; [rewrite Hg in Eq; injection Eq as <-; apply agrees_new; cbn; lia|]. rewrite Hother in Eq by done.
        apply agrees_old; [|by apply (lr_agrees _ _ _ _ _ (ld_list _ _ _ _ _ Hd) q)]. intros x Hx. by eapply (grown_fresh og ro d t _ ss1 l li arr vs q qi x Hd).
      * intros q qi Hq Eq. destruct (decide (q = l)) as [->|Hne]; [rewrite Hg in Eq; injection Eq as <-; by eexists|]. rewrite Hother in Eq by done. by apply (lr_store _ _ _ _ _ (ld_list _ _ _ _ _ Hd) q qi).
    + intros q qi Hq Eq. destruct (decide (q = l)) as [->|Hne]; [rewrite Hg in Eq; injection Eq as <-; split; cbn; try done; rewrite length_app; lia|]. rewrite Hother in Eq by done. by apply (ld_bodies _ _ _ _ _ Hd q qi).
    + intros q Hq. cbn in Hq. rewrite Hother; [by apply Hd|]. intros ->. rewrite (ld_fresh _ _ _ _ _ Hd l Hq) in El. done.
  - apply lookup_insert_eq.
  - pose proof (tl_cells _ _ _ Htl) as Hc. pose proof (tl_length _ _ _ Htl) as Hlen0. rewrite withItems_app, Hw0 in Hc, Hlen0. apply list.Forall_app in Hc as [Hc1 Hc2]. rewrite vlen_app in Hlen0. cbn [vlen] in Hlen0. rewrite Hlive in Hlen0.
    split; [apply Htl|done| |]; rewrite withItems_app, Hw; [apply Forall_app_2; [by apply Hcells|]; constructor; [|done]; split; cbn; [lia|intros _; rewrite length_fmap, length_app; lia]|].
    rewrite vlen_app, Hvl. cbn [vlen]. rewrite Hliveg. cbn. lia.
  - exact Hcnt.
  - intros q Eq. destruct (Hpar q Eq) as (Hq & qi & Eqi & Hdel). split; [done|]. exists qi. rewrite Hother; [done|]. intros ->. set_solver.
  - intros q qi Hq Eq. destruct (decide (q = l)) as [->|Hne]; [rewrite Hg in Eq; injection Eq as <-; by split|]. rewrite Hother in Eq by done. by apply (Hitems q).
  - cbn. rewrite dom_insert_L. apply elem_of_dom_2 in Et. set_solver.
  - unfold listValues. rewrite Hw, Hw0. cbn [valuesOf]. rewrite !live_flags, Hlive, Hliveg, !app_nil_r. cbn. by rewrite Ec, fmap_app.
Qed.

(** ** Inserting behind an item *)

(** New items between [ps1] and [ps2], or the last item of the list has grown. *)
Definition inserted (d d' : doc) (t : nat) (ty' : ytype) (ps1 ps2 : list nat) (vs : list (@element V)) : Prop :=
  (exists qs, grown_by d d' t ty' ps1 qs ps2 vs) \/
  (exists ps0 l, ps1 = ps0 ++ [l] /\ ps2 = [] /\ array_doc d' t ty' (ps0 ++ [l]) /\ dom (d_types d') = dom (d_types d) /\ same_cells (d_items d) (d_items d') ps0 /\
     listValues (d_items d') [l] = listValues (d_items d) [l] ++ vs).

Lemma compact_values (li : item) content vs : compactValues li content = Some vs -> (exists arr, i_content li = contentAny arr) /\ toElement <$> content = EAny <$> vs.
Proof.
  unfold compactValues. destruct (i_content li) as [arr| | | | | | | |]; try done. destruct content as [|c content]; [done|]. intros E. split; [by eexists|]. revert vs E. generalize (c :: content). clear.
  induction l as [|c l IH]; intros vs E; [by injection E as <-|]. cbn in E. destruct c as [v| | | |]; cbn in E; try done. destruct (mapM isAnyEncodable l) as [vs'|] eqn:Em; [|done]. injection E as <-. cbn. f_equal. by apply IH.
Qed.

Lemma one_inserted (d : doc) t ty ps1 ps2 c k : array_doc d t ty (ps1 ++ ps2) -> insert_content d t k -> contentValues k = [toElement c] ->
  exists d' p ty', insertOne interpolate own t (list.last ps1) (head ps2) k d = (Ok p, d') /\ grown_by d d' t ty' ps1 [p] ps2 [toElement c].
Proof.
  intros Ha Hk Hv. destruct (insertOne_spec interpolate own Hinterp d t ty ps1 ps2 k Ha Hk) as (d' & p & ty' & E & Ha' & Ed & Hs & Hv'). exists d', p, ty'. split; [done|]. split; [done|done|done|]. by rewrite Hv', Hv.
Qed.

(** The reference item, its right neighbour and the compact append. *)
Definition compactChoice (d : doc) (t : nat) (ty : ytype) (o : option nat) (content : list (insertable V)) : option (nat * item * list V) :=
  l ← o; li ← d_items d !! l; if compactGuards own d t ty l li then (fun vs => (l, li, vs)) <$> compactValues li content else None.

Lemma insertAfter_eq (d : doc) t ty ps1 ps2 content : array_doc d t ty (ps1 ++ ps2) ->
  typeListInsertGenericsAfter interpolate own t (list.last ps1) content d =
    match compactChoice d t ty (list.last ps1) content, content with
    | Some (l, li, vs), _ => compactAppend t l li vs
    | None, [InType n] => _ <-- insertOne interpolate own t (list.last ps1) (head ps2) (contentType n);;; rret tt
    | None, [InAny v] => _ <-- insertOne interpolate own t (list.last ps1) (head ps2) (contentAny [v]);;; rret tt
    | None, _ => insertLoop interpolate own t (list.last ps1) (head ps2) [] content
    end d.
Proof.
  intros [(og & ro & Hd) Et Htl _ _ _]. unfold typeListInsertGenericsAfter. unfold rbind at 1. rewrite (getType_eq _ _ _ Et). pose proof (tl_linked _ _ _ Htl) as Hl. apply linked_lseg, lseg_app in Hl as [H1 _].
  destruct (list.last ps1) as [l|] eqn:Elast.
  - apply last_Some in Elast as [p1 ->]. apply lseg_app in H1 as [_ (li & Eli & _ & Eri & _)]. cbn [head_or] in Eri. unfold rbind at 1, rbind at 1. rewrite (getItem_eq _ _ _ Eli). unfold rret at 1. unfold rbind at 1, rbind at 1. rewrite (getItem_eq _ _ _ Eli). unfold rbind at 1, get, rret at 1.
    unfold compactChoice. cbn [mbind option_bind]. rewrite Eli. cbn [mbind option_bind]. replace (i_right li) with (head ps2) by (rewrite Eri; by destruct ps2). done.
  - apply last_None in Elast as ->. unfold rbind at 1, rret at 1. unfold rbind at 1, rret at 1. rewrite (tl_start _ _ _ Htl). done.
Qed.

Lemma insertAfter_spec (d : doc) t ty ps1 ps2 content : array_doc d t ty (ps1 ++ ps2) -> Forall (insert_ok d t) content ->
  exists d' ty', typeListInsertGenericsAfter interpolate own t (list.last ps1) content d = (Ok tt, d') /\ inserted d d' t ty' ps1 ps2 (toElement <$> content).
Proof.
  intros Ha Hc. rewrite (insertAfter_eq d t ty ps1 ps2 content Ha). destruct (compactChoice d t ty (list.last ps1) content) as [[[l li] vs]|] eqn:Ech.
  - unfold compactChoice in Ech. destruct (list.last ps1) as [l'|] eqn:Elast; [|done]. cbn in Ech. destruct (d_items d !! l') as [li'|] eqn:Eli; [|done]. cbn in Ech. destruct (compactGuards own d t ty l' li') eqn:Eg; [|done].
    destruct (compactValues li' content) as [vs'|] eqn:Ev; [|done]. cbn in Ech. injection Ech as -> -> ->. apply compact_values in Ev as [(arr & Earr) Evs]. apply last_Some in Elast as [ps0 ->].
    assert (ps2 = []) as ->. { pose proof (compact_guards _ _ _ _ _ Eg) as (_ & _ & Er & _). pose proof (tl_linked _ _ _ (ad_list _ _ _ _ Ha)) as Hl. rewrite <- app_assoc in Hl. apply linked_lseg, lseg_app in Hl as [_ (li' & E' & _ & Er' & _)]. rewrite Eli in E'. injection E' as <-. destruct ps2; [done|]. cbn in Er'. congruence. }
    rewrite app_nil_r in Ha. destruct (compact_spec d t ty ps0 l li arr vs Ha Eli Earr Eg) as (d' & ty' & E & Ha' & Ed & Hs & Hv). exists d', ty'. split; [done|]. right. exists ps0, l. rewrite Evs. by split_and!.
  - clear Ech. assert (Hloop : exists d' ty', insertLoop interpolate own t (list.last ps1) (head ps2) [] content d = (Ok tt, d') /\ inserted d d' t ty' ps1 ps2 (toElement <$> content)).
    { destruct (insertLoop_spec interpolate own Hinterp t content d ty ps1 ps2 [] Ha Hc) as (d' & ty' & qs & E & Hg). exists d', ty'. split; [done|]. left. by exists qs. }
    assert (Hone : forall c k, content = [c] -> insert_content d t k -> contentValues k = [toElement c] -> exists d' ty', (_ <-- insertOne interpolate own t (list.last ps1) (head ps2) k;;; rret tt) d = (Ok tt, d') /\ inserted d d' t ty' ps1 ps2 (toElement <$> content)).
    { intros c k -> Hk Hv. destruct (one_inserted d t ty ps1 ps2 c k Ha Hk Hv) as (d' & p & ty' & E & Hg). exists d', ty'. unfold rbind. rewrite E. split; [done|]. left. by exists [p]. }
    destruct content as [|[v|b|dd|n|] [|c2 content]]; try exact Hloop.
    + apply (Hone (InAny v)); [done|split; [cbn; lia|done]|done].
Qed.

(** ** The markers *)
Lemma vlen_sub (h h' : heap) ps qs : same_cells h h' ps -> (forall q, q ∈ qs -> q ∈ ps) -> vlen (withItems h' qs) = vlen (withItems h qs).
Proof. intros Hs Hsub. destruct (cells_same h h' qs) as (E & _); [|done]. by eapply same_cells_sub. Qed.

Lemma values_sub (h h' : heap) ps qs : same_cells h h' ps -> (forall q, q ∈ qs -> q ∈ ps) -> listValues h' qs = listValues h qs.
Proof. intros Hs Hsub. destruct (cells_same h h' qs) as (_ & E & _); [|done]. by eapply same_cells_sub. Qed.

Lemma prefix_of_snoc (ps0 q1 q2 : list nat) l m : ps0 ++ [l] = q1 ++ m :: q2 -> forall q, q ∈ q1 -> q ∈ ps0.
Proof.
  intros E. destruct q2 as [|x q2 _] using rev_ind; [apply app_inj_tail in E as [-> _]; done|]. rewrite app_comm_cons, app_assoc in E. apply app_inj_tail in E as [-> _]. intros q Hq. apply elem_of_app. by left.
Qed.

(** What is appended leaves the markers right. *)
Lemma markers_append (d d' : doc) t ty' ps1 vs o : inserted d d' t ty' ps1 [] vs -> markers_ok (d_items d) ps1 o -> exists ps', array_doc d' t ty' ps' /\ listValues (d_items d') ps' = listValues (d_items d) ps1 ++ vs /\ markers_ok (d_items d') ps' o.
Proof.
  intros [(qs & [G1 G2 G3 G4])|(ps0 & l & -> & _ & Ha' & _ & Hs & Hv)] Hm.
  - exists (ps1 ++ qs). rewrite app_nil_r in *. split_and!; [done|unfold listValues in *; rewrite withItems_app, values_app, G4; f_equal; by apply (values_sub _ _ ps1)|]. destruct o as [st|]; [|done]. eapply list.Forall_impl; [exact Hm|].
    intros m (q1 & q2 & -> & Em). exists q1, (q2 ++ qs). rewrite <- app_assoc. split; [done|]. rewrite Em. symmetry. apply (vlen_sub _ _ (q1 ++ m_p m :: q2)); [done|]. intros q Hq. apply elem_of_app. by left.
  - exists (ps0 ++ [l]). split_and!; [done|unfold listValues in *; rewrite !withItems_app, !values_app, Hv, app_assoc; do 2 f_equal; by apply (values_sub _ _ ps0)|]. destruct o as [st|]; [|done]. eapply list.Forall_impl; [exact Hm|].
    intros m (q1 & q2 & E & Em). exists q1, q2. split; [done|]. rewrite Em. symmetry. apply (vlen_sub _ _ ps0); [done|]. by eapply prefix_of_snoc.
Qed.

(** A change behind the whole list leaves the markers of live items. *)
Lemma markers_behind (h : heap) ps n st : linked h None ps -> cells_ok (withItems h ps) -> 0 < n -> markers_ok h ps (Some st) ->
  exists st', updateMarkerChanges h (vlen (withItems h ps)) n st = Ok st' /\ markers_ok h ps (Some st').
Proof.
  intros Hl Hc Hn Hm. unfold updateMarkerChanges. destruct (_ && _); [by exists st|]. destruct (updateLoop_insert h ps (vlen (withItems h ps)) n (sm_list st) Hl Hn Hm (sm_marked st)) as (l' & marked' & -> & Hl'). eexists. split; [reflexivity|].
  eapply list.Forall_impl; [exact Hl'|]. cbv beta. intros m' (s & Hq & Ei). assert (Hin : forall r, r ∈ ps ++ [] -> is_Some (h !! r)) by (intros r Hr; rewrite app_nil_r in Hr; by eapply linked_lookup).
  pose proof Hq as Hq'. rewrite <- (app_nil_r ps) in Hc, Hq. destruct (split_side h ps [] (m_p m') s Hin Hc Hq) as [(a1 & a2 & E1 & E2 & Hlt)|(b1 & b2 & E & _)]; [|by destruct b1].
  exists a1, a2. split; [done|]. rewrite Ei, <- E2. unfold adjustIndex. destruct (Z.ltb_spec (vlen (withItems h ps)) s); [lia|]. destruct (Z.eqb_spec (vlen (withItems h ps)) s); [lia|]. by rewrite andb_false_r.
Qed.

Lemma same_cells_weaken (h h' : heap) ps : same_cells h h' ps -> SearchMarker.same_cells h h' ps.
Proof. intros Hs q it Hq E. specialize (Hs q Hq). rewrite E in Hs. destruct (h' !! q) as [it'|]; [|done]. destruct Hs as (_ & E2 & E3 & E4). exists it'. unfold live. by rewrite E2, E3, E4. Qed.

(** The list, the values and the markers after an insertion at [ps1]. *)
Lemma inserted_all (d d' : doc) t ty ty' ps1 ps2 vs o : array_doc d t ty (ps1 ++ ps2) -> inserted d d' t ty' ps1 ps2 vs -> vs <> [] -> markers_ok (d_items d) (ps1 ++ ps2) o ->
  exists ps' o', array_doc d' t ty' ps' /\ listValues (d_items d') ps' = listValues (d_items d) ps1 ++ vs ++ listValues (d_items d) ps2 /\ markers_ok (d_items d') ps' o' /\
    match o with
    | Some st => exists st', updateMarkerChanges (d_items d) (vlen (withItems (d_items d) ps1)) (Z.of_nat (length vs)) st = Ok st' /\ o' = Some st'
    | None => o' = None
    end.
Proof.
  intros Ha Hins Hne Hm. pose proof (ad_list _ _ _ _ Ha) as Htl. assert (Hpos : 0 < Z.of_nat (length vs)) by (destruct vs; [done|cbn; lia]). destruct Hins as [(qs & Hg)|Hcompact].
  - pose proof Hg as [G1 G2 G3 G4]. assert (Hvals : listValues (d_items d') (ps1 ++ qs ++ ps2) = listValues (d_items d) ps1 ++ vs ++ listValues (d_items d) ps2).
    { unfold listValues in *. rewrite !withItems_app, !values_app, G4. f_equal; [|f_equal]; apply (values_sub _ _ (ps1 ++ ps2)); [done|set_solver|done|set_solver]. }
    assert (Hn : vlen (withItems (d_items d') qs) = Z.of_nat (length vs)).
    { rewrite <- G4. unfold listValues. symmetry. apply values_length. pose proof (tl_cells _ _ _ (ad_list _ _ _ _ G1)) as Hc. rewrite !withItems_app in Hc. apply list.Forall_app in Hc as [_ Hc]. apply list.Forall_app in Hc as [Hc _]. exact Hc. }
    destruct o as [st|]; [|exists (ps1 ++ qs ++ ps2), None; by split_and!]. destruct (markers_insert (d_items d) (d_items d') ps1 ps2 qs st) as (st' & E & Hm'); [apply Htl|apply Htl|by apply same_cells_weaken|lia|done|].
    rewrite Hn in E. exists (ps1 ++ qs ++ ps2), (Some st'). split_and!; [done..|]. by exists st'.
  - assert (ps2 = []) as -> by (by destruct Hcompact as (? & ? & _ & ? & _)). rewrite app_nil_r in *.
    destruct o as [st|]; [|destruct (markers_append d d' t ty' ps1 vs None (or_intror Hcompact) I) as (ps' & H1 & H2 & H3); exists ps', None; by split_and!].
    destruct (markers_behind (d_items d) ps1 (Z.of_nat (length vs)) st) as (st' & E & Hm'); [apply Htl|apply Htl|done|done|]. destruct (markers_append d d' t ty' ps1 vs (Some st') (or_intror Hcompact) Hm') as (ps' & H1 & H2 & H3).
    exists ps', (Some st'). split_and!; [done..|]. by exists st'.
Qed.

(** ** Splitting an item of the list *)

(** The values of the halves. *)
Lemma splice_values (c : docContent V) diff lc rc : 0 <= diff -> match c with contentString _ | contentDeleted _ => False | _ => True end -> spliceContent c diff = Some (lc, rc) ->
  isCountable lc = isCountable c /\ isCountable rc = isCountable c /\ contentValues lc = take (Z.to_nat diff) (contentValues c) /\ contentValues rc = drop (Z.to_nat diff) (contentValues c) /\
  match lc with contentString _ | contentFormat _ _ | contentDeleted _ => False | _ => True end /\ match rc with contentString _ | contentFormat _ _ | contentDeleted _ => False | _ => True end /\ (forall t', lc <> contentType t') /\ (forall t', rc <> contentType t').
Proof.
  intros Hd Hc. destruct c as [arr| | | | | |arr| |]; cbn; try done; unfold spliceAny, spliceJSON, spliceArrayAny; destruct (_ && _); try done; intros [= <- <-]; cbn; by rewrite fmap_take, fmap_drop.
Qed.

Record cut_at (d d' : doc) (t : nat) (ty' : ytype) (ps1 : list nat) (p r : nat) (ps2 : list nat) (diff : Z) : Prop := {
  ca_doc : array_doc d' t ty' (ps1 ++ p :: r :: ps2);
  ca_types : dom (d_types d') = dom (d_types d);
  ca_same : same_cells (d_items d) (d_items d') (ps1 ++ ps2);
  ca_left : exists pi, d_items d' !! p = Some pi /\ i_length pi = diff /\ live pi = true /\ i_right pi = Some r;
  ca_values : listValues (d_items d') [p; r] = listValues (d_items d) [p];
  ca_fresh : d_items d !! r = None;
  ca_flat : forall q qi, q ∈ [p; r] -> d_items d' !! q = Some qi -> forall t', i_content qi <> contentType t'
}.

Lemma array_cut (d : doc) t ty ps1 p ps2 it diff : array_doc d t ty (ps1 ++ p :: ps2) -> d_items d !! p = Some it -> live it = true -> 0 < diff < i_length it ->
  exists d' ty' r, getItemCleanStart interpolate (GenID (Client (i_id it)) (Clock (i_id it) + diff)) d = (Ok (Some r), d') /\ cut_at d d' t ty' ps1 p r ps2 diff.
Proof.
  intros [(og & ro & Hd) Et Htl Hcnt Hpar Hitems] Ep Hlive Hdiff. set (q := GenID (Client (i_id it)) (Clock (i_id it) + diff)). assert (Hp : p ∈ ps1 ++ p :: ps2) by set_solver. assert (Hqc : q ∈ chars it) by (apply elem_chars; cbn; lia).
  destruct (findIndexM_found og ro interpolate Hinterp d t _ q Hd) as (p' & it' & a & b & ss1 & ss2 & Eps & Ep' & Hqc' & Hss & Ef); [apply elem_elems; by exists p, it|].
  assert (p' = p) as -> by (eapply (list_unique og ro d t _ p' p it' it q Hd); [rewrite Eps; set_solver|done..]). rewrite Ep in Ep'. injection Ep' as <-. pose proof (ld_nodup _ _ _ _ _ Hd) as Hnd. destruct (nodup_split p ps2 b ps1 a Hnd Eps) as [<- <-]. clear Eps.
  destruct (cut_item og ro interpolate Hinterp d t ps1 p ps2 it diff ss1 ss2 q Hd Ep Hdiff Hqc Hss) as (d1 & d2 & r & lc & rc & E1 & E2 & Hcut & El & Er & Esp & Hsh & Hfr & Hty). specialize (Hty ty Et).
  destruct (Hitems p it Hp Ep) as [Hcountable Hkind]. destruct (ld_bodies _ _ _ _ _ Hd p it Hp Ep) as [B1 B2 B3 B4].
  assert (Hndel : i_deleted it = false) by (unfold live in Hlive; by destruct (i_deleted it)). assert (Hic : i_countable it = true) by (unfold live in Hlive; by destruct (i_deleted it)).
  destruct (splice_values (i_content it) diff lc rc ltac:(lia)) as (Cl & Cr & Vl & Vr & Kl & Kr & Tl & Tr); [destruct (i_content it); try done; congruence|done|].
  pose proof (tl_cells _ _ _ Htl) as Hcells. rewrite withItems_app, (withItems_cons _ p it ps2 Ep) in Hcells. apply list.Forall_app in Hcells as [Hc1 Hc2]. apply list.Forall_cons in Hc2 as [[_ Hval] Hc2]. specialize (Hval Hlive). cbn [snd] in Hval.
  assert (Hsame : same_cells (d_items d) (d_items d2) (ps1 ++ ps2)).
  { intros x Hx. assert (x <> p) by (intros ->; rewrite <- Permutation_middle in Hnd; by apply list.NoDup_cons in Hnd as [? _]). assert (x <> r) by (intros ->; destruct (linked_lookup _ _ _ r (tl_linked _ _ _ Htl)) as [? ?]; [set_solver|congruence]).
    pose proof (split_other _ _ _ _ _ _ _ _ x Hsh ltac:(done) ltac:(done)) as Ho. destruct (linked_lookup _ _ _ x (tl_linked _ _ _ Htl)) as [xi Exi]; [set_solver|]. rewrite Exi in Ho |- *. destruct (d_items d2 !! x); [by destruct Ho as [l ->]|done]. }
  assert (Hwp : withItems (d_items d2) [p; r] = [(p, split_left it diff lc r); (r, split_right it diff rc p)]) by (rewrite (withItems_cons _ p _ _ El), (withItems_cons _ r _ _ Er); done).
  assert (Ll : live (split_left it diff lc r) = true) by exact Hlive. assert (Lr : live (split_right it diff rc p) = true) by (unfold live; cbn; rewrite Hndel, Cr, <- Hcountable; exact Hic).
  destruct (cells_same _ _ ps1 (same_cells_sub _ _ (ps1 ++ ps2) ps1 ltac:(set_solver) Hsame)) as (V1 & _ & Cs1). destruct (cells_same _ _ ps2 (same_cells_sub _ _ (ps1 ++ ps2) ps2 ltac:(set_solver) Hsame)) as (V2 & _ & Cs2).
  exists d2, (updateListItemCount 1 ty), r. split.
  { unfold getItemCleanStart. unfold rbind at 1. rewrite Ef. unfold rbind at 1. rewrite (getItem_eq _ _ _ Ep). cbn [Clock q]. destruct (Z.ltb_spec (Clock (i_id it)) (Clock (i_id it) + diff)); [|lia].
    replace (Clock (i_id it) + diff - Clock (i_id it)) with diff by lia. unfold rbind at 1. rewrite E1. unfold rbind at 1. cbn [Client q]. rewrite E2. done. }
  split; [split| |exact Hsame| | |exact Hfr|].
  - exists og, ro. apply Hcut.
  - rewrite Hty. apply lookup_insert_eq.
  - assert (Hw : withItems (d_items d2) (ps1 ++ p :: r :: ps2) = withItems (d_items d2) ps1 ++ (p, split_left it diff lc r) :: (r, split_right it diff rc p) :: withItems (d_items d2) ps2) by (rewrite withItems_app, (withItems_cons _ p _ _ El), (withItems_cons _ r _ _ Er); done).
    split; [cbn; rewrite (tl_start _ _ _ Htl); by destruct ps1|apply (lr_linked _ _ _ _ _ (ld_list _ _ _ _ _ (cs_doc _ _ _ _ _ _ _ _ Hcut)))|rewrite Hw|rewrite Hw].
    + apply Forall_app_2; [by apply Cs1|]. constructor; [split; cbn; [lia|intros _; rewrite Vl, length_take; lia]|]. constructor; [split; cbn; [lia|intros _; rewrite Vr, length_drop; lia]|by apply Cs2].
    + cbn [t_length updateListItemCount with_counts]. rewrite (tl_length _ _ _ Htl), withItems_app, (withItems_cons _ p it ps2 Ep), !vlen_app. cbn [vlen]. rewrite Hlive, Ll, Lr, V1, V2. cbn. lia.
  - cbn. rewrite Hcnt, !length_app. cbn. lia.
  - intros x Ex. cbn in Ex. destruct (Hpar x Ex) as (Hx & xi & Exi & Hdel). split; [assert (x <> r) by congruence; set_solver|]. destruct (cs_deleted _ _ _ _ _ _ _ _ Hcut x xi Exi) as (xi' & E' & D'). exists xi'. split; [done|congruence].
  - intros x xi Hx Exi. destruct (decide (x = p)) as [->|Hxp]; [rewrite El in Exi; injection Exi as <-; split; [cbn; by rewrite Cl|cbn; by destruct lc]|]. destruct (decide (x = r)) as [->|Hxr]; [rewrite Er in Exi; injection Exi as <-; split; [done|cbn; by destruct rc]|].
    pose proof (split_other _ _ _ _ _ _ _ _ x Hsh Hxp Hxr) as Ho. rewrite Exi in Ho. destruct (linked_lookup _ _ _ x (tl_linked _ _ _ Htl)) as [x0 E0]; [set_solver|]. rewrite E0 in Ho. destruct Ho as [l ->]. apply (Hitems x x0); [set_solver|done].
  - rewrite Hty, dom_insert_L. apply elem_of_dom_2 in Et. set_solver.
  - exists (split_left it diff lc r). by split_and!.
  - unfold listValues. rewrite Hwp, (withItems_cons _ p it [] Ep). cbn [valuesOf withItems omap list_omap]. rewrite !live_flags, Hlive, Ll, Lr. cbn. rewrite !app_nil_r, Vl, Vr. apply take_drop.
  - intros x xi Hx Exi. apply elem_of_cons in Hx as [->|Hx]; [rewrite El in Exi; by injection Exi as <-|]. apply list_elem_of_singleton in Hx as ->. rewrite Er in Exi. by injection Exi as <-.
Qed.

(** ** Finding the place *)

(** The list has been cut, its values and the markers are as they were. *)
Record relisted (d d' : doc) (ps ps' : list nat) : Prop := {
  rl_types : dom (d_types d') = dom (d_types d);
  rl_values : listValues (d_items d') ps' = listValues (d_items d) ps;
  rl_markers : forall o, markers_ok (d_items d) ps o -> markers_ok (d_items d') ps' o
}.

Lemma relisted_refl d ps : relisted d d ps ps.
Proof. by split. Qed.

Lemma cut_relisted (d d' : doc) t ty ty' ps1 p r ps2 diff : array_doc d t ty (ps1 ++ p :: ps2) -> cut_at d d' t ty' ps1 p r ps2 diff -> relisted d d' (ps1 ++ p :: ps2) (ps1 ++ p :: r :: ps2).
Proof.
  intros Ha [C1 C2 C3 _ C5 _ _]. assert (Hv : forall qs, (forall q, q ∈ qs -> q ∈ ps1 ++ ps2) -> vlen (withItems (d_items d') qs) = vlen (withItems (d_items d) qs)) by (intros qs; by apply vlen_sub).
  assert (Hpr : vlen (withItems (d_items d') [p; r]) = vlen (withItems (d_items d) [p])).
  { unfold listValues in C5. rewrite <- !values_length, C5; [done| |].
    - pose proof (tl_cells _ _ _ (ad_list _ _ _ _ Ha)) as Hc. change (p :: ps2) with ([p] ++ ps2) in Hc. rewrite !withItems_app in Hc. apply list.Forall_app in Hc as [_ Hc]. by apply list.Forall_app in Hc as [Hc _].
    - pose proof (tl_cells _ _ _ (ad_list _ _ _ _ C1)) as Hc. change (p :: r :: ps2) with ([p; r] ++ ps2) in Hc. rewrite !withItems_app in Hc. apply list.Forall_app in Hc as [_ Hc]. by apply list.Forall_app in Hc as [Hc _]. }
  split; [done| |].
  - change (p :: r :: ps2) with ([p; r] ++ ps2). change (p :: ps2) with ([p] ++ ps2). unfold listValues in *. rewrite !withItems_app, !values_app, C5. f_equal; [|f_equal]; apply (values_sub _ _ (ps1 ++ ps2)); [done|set_solver|done|set_solver].
  - intros [st|]; [|done]. intros Hm. eapply list.Forall_impl; [exact Hm|]. intros m (q1 & q2 & E & Em). unfold marker_ok. rewrite Em. apply app_eq_inv in E as [(k & -> & E)|(k & -> & E)].
    + destruct k as [|x k]; cbn in E.
      * injection E as E ->. exists q1, (r :: ps2). rewrite app_nil_r, E. split; [done|]. symmetry. apply Hv. set_solver.
      * injection E as <- ->. exists q1, (k ++ p :: r :: ps2). rewrite <- app_assoc. split; [done|]. symmetry. apply Hv. set_solver.
    + destruct k as [|x k]; cbn in E; injection E as E1 E2; [exists ps1, (r :: ps2); rewrite app_nil_r, E1; split; [done|]; symmetry; apply Hv; set_solver|]. subst x ps2.
      exists (ps1 ++ p :: r :: k), q2. rewrite <- app_assoc. split; [done|]. change (p :: r :: k) with ([p; r] ++ k). change (p :: k) with ([p] ++ k). rewrite !withItems_app, !vlen_app, Hpr, (Hv ps1), (Hv k) by set_solver. done.
Qed.

Lemma insertWalk_spec t rest : forall fuel (d : doc) ty pre index, array_doc d t ty (pre ++ rest) -> 0 < index <= vlen (withItems (d_items d) rest) -> (length rest <= fuel)%nat ->
  exists d' ty' ps1 ps2, insertWalk interpolate fuel (head rest) index d = (Ok (list.last ps1), d') /\ array_doc d' t ty' (ps1 ++ ps2) /\ relisted d d' (pre ++ rest) (ps1 ++ ps2) /\ vlen (withItems (d_items d') ps1) = vlen (withItems (d_items d) pre) + index.
Proof.
  induction rest as [|p rest IH]; intros fuel d ty pre index Ha Hi Hf; [cbn in Hi; lia|]. destruct fuel as [|fuel]; [cbn in Hf; lia|]. cbn [head insertWalk]. pose proof (tl_linked _ _ _ (ad_list _ _ _ _ Ha)) as Hl.
  apply linked_lseg, lseg_app in Hl as [_ (it & Eit & _ & Eright & _)]. unfold rbind at 1. rewrite (getItem_eq _ _ _ Eit). fold (live it). rewrite (withItems_cons _ p it rest Eit) in Hi. cbn [vlen] in Hi. replace (i_right it) with (head rest) by (rewrite Eright; by destruct rest).
  assert (Hnext : forall k, vlen (withItems (d_items d) (pre ++ [p])) = vlen (withItems (d_items d) pre) + k -> 0 < index - k <= vlen (withItems (d_items d) rest) -> exists d' ty' ps1 ps2, insertWalk interpolate fuel (head rest) (index - k) d = (Ok (list.last ps1), d') /\ array_doc d' t ty' (ps1 ++ ps2) /\ relisted d d' (pre ++ p :: rest) (ps1 ++ ps2) /\ vlen (withItems (d_items d') ps1) = vlen (withItems (d_items d) pre) + index).
  { intros k Ek Hk. destruct (IH fuel d ty (pre ++ [p]) (index - k)) as (d' & ty' & ps1 & ps2 & E & H1 & H2 & H3); [by rewrite <- app_assoc|done|cbn in Hf; lia|]. exists d', ty', ps1, ps2. rewrite <- app_assoc in H2. split_and!; [done|done|done|lia]. }
  rewrite withItems_app, vlen_app, (withItems_cons _ p it [] Eit) in Hnext. cbn [vlen withItems omap list_omap] in Hnext. destruct (live it) eqn:Elive.
  - destruct (Z.leb_spec index (i_length it)) as [Hle|Hgt]; [|apply (Hnext (i_length it)); lia]. destruct (Z.ltb_spec index (i_length it)) as [Hlt|Hge].
    + destruct (array_cut d t ty pre p rest it index Ha Eit Elive ltac:(lia)) as (d' & ty' & r & E & Hcut). exists d', ty', (pre ++ [p]), (r :: rest). pose proof Hcut as [C1 _ C3 (pi & Epi & Elen & Hlp & _) _ _ _]. split_and!.
      * unfold rbind. rewrite E, last_snoc. done.
      * by rewrite <- app_assoc.
      * rewrite <- app_assoc. by eapply cut_relisted.
      * rewrite withItems_app, vlen_app, (withItems_cons _ p pi [] Epi), (vlen_sub _ _ _ pre C3) by set_solver. cbn. rewrite Hlp. lia.
    + exists d, ty, (pre ++ [p]), rest. rewrite <- app_assoc, last_snoc. split_and!; [done|done|apply relisted_refl|]. rewrite withItems_app, vlen_app, (withItems_cons _ p it [] Eit). cbn. rewrite Elive. lia.
  - specialize (Hnext 0 ltac:(lia) ltac:(lia)). by rewrite Z.sub_0_r in Hnext.
Qed.

Lemma prevItem_spec (d : doc) t ty pre p post : array_doc d t ty (pre ++ p :: post) -> 0 < vlen (withItems (d_items d) pre) ->
  exists a q qi b, pre = a ++ q :: b /\ d_items d !! q = Some qi /\ live qi = true /\ prevItem p d = (Ok (Some q), d) /\ vlen (withItems (d_items d) pre) = vlen (withItems (d_items d) a) + i_length qi.
Proof.
  intros Ha Hpos. pose proof (tl_linked _ _ _ (ad_list _ _ _ _ Ha)) as Hl. pose proof (linked_size _ _ _ Hl) as Hsz. apply linked_lseg, lseg_app in Hl as [Hl (it & Eit & Eleft & _)]. rewrite last_or_None in Eleft.
  unfold prevItem. unfold rbind at 1. rewrite (getItem_eq _ _ _ Eit). unfold rbind at 1, get. rewrite Eleft. rewrite length_app in Hsz. assert (Hsz' : (length pre <= size (d_items d))%nat) by lia.
  assert (Hitems : forall q qi, q ∈ pre -> d_items d !! q = Some qi -> array_item qi) by (intros q qi Hq; apply (ad_items _ _ _ _ Ha); set_solver). clear Ha Eleft Hsz. remember (size (d_items d)) as n eqn:En. clear En. remember (head_or None (p :: post)) as o eqn:Eo. clear Eo Eit. revert o n Hsz' Hl.
  induction pre as [|q pre IH] using rev_ind; intros o n Hn Hl; [cbn in Hpos; lia|]. rewrite last_snoc. rewrite length_app in Hn. cbn in Hn. destruct n as [|n]; [lia|]. cbn [prevLoop]. apply lseg_app in Hl as [Hl1 (qi & Eqi & Eql & _)]. rewrite last_or_None in Eql. unfold rbind at 1. rewrite (getItem_eq _ _ _ Eqi).
  rewrite withItems_app, vlen_app, (withItems_cons _ q qi [] Eqi) in Hpos. cbn [vlen] in Hpos.
  destruct (i_deleted qi) eqn:Ed.
  - assert (Hdead : live qi = false) by (unfold live; by rewrite Ed). rewrite Hdead in Hpos. cbn in Hpos. rewrite Eql. destruct (IH ltac:(lia)) with (o := head_or o [q]) (n := n) as (a & x & xi & b & -> & H1 & H2 & H3 & H4); [intros y yi Hy; apply Hitems; set_solver|lia|done|].
    exists a, x, xi, (b ++ [q]). split_and!; [by rewrite <- app_assoc|done|done|done|]. rewrite withItems_app, vlen_app, (withItems_cons _ q qi [] Eqi). cbn. rewrite Hdead. lia.
  - exists pre, q, qi, []. destruct (Hitems q qi ltac:(set_solver) Eqi) as [Hc Hk]. assert (Hlive : live qi = true) by (unfold live; rewrite Ed, Hc; destruct (i_content qi); try done; congruence). split_and!; [done|done|done|done|]. rewrite withItems_app, vlen_app, (withItems_cons _ q qi [] Eqi). cbn. rewrite Hlive. lia.
Qed.

(** ** Inserting at an index *)

Lemma markers_zero (h : heap) ps index st : markers_ok h ps (Some st) -> exists st', updateMarkerChanges h index 0 st = Ok st' /\ markers_ok h ps (Some st').
Proof.
  intros Hm. unfold updateMarkerChanges. cbn [Z.ltb Z.compare andb]. assert (Hloop : forall l marked, Forall (marker_ok h ps) l -> exists l' marked', updateLoop h index 0 l marked = Ok (l', marked') /\ Forall (marker_ok h ps) l').
  { intros l marked Hl. induction Hl as [|m l (q1 & q2 & E & Em) _ (l' & marked' & E' & Hl')]; cbn [updateLoop]; [by eexists _, _|]. rewrite E'. unfold updateMarker. cbn [Z.ltb Z.compare]. eexists _, _. split; [reflexivity|]. constructor; [|done]. exists q1, q2. split; [done|].
    cbn [m_index m_p]. rewrite <- Em. unfold adjustIndex. destruct (Z.ltb_spec index (m_index m)); cbn [orb]; [lia|]. done. }
  destruct (Hloop (sm_list st) (sm_marked st) Hm) as (l' & marked' & -> & Hl'). by eexists.
Qed.

Lemma insertAfter_nil (d : doc) t ty ps1 ps2 : array_doc d t ty (ps1 ++ ps2) -> typeListInsertGenericsAfter interpolate own t (list.last ps1) [] d = (Ok tt, d).
Proof.
  intros Ha. rewrite (insertAfter_eq d t ty ps1 ps2 [] Ha). assert (compactChoice d t ty (list.last ps1) [] = None) as ->; [|done].
  unfold compactChoice. destruct (list.last ps1) as [l|]; [|done]. cbn. destruct (d_items d !! l) as [li|]; [|done]. cbn. destruct (compactGuards own d t ty l li); [|done]. unfold compactValues. by destruct (i_content li).
Qed.

(** The markers are brought up to date and the values inserted behind [ps1]. *)
Lemma insert_here (d : doc) t ty ps1 ps2 m content : array_doc d t ty (ps1 ++ ps2) -> markers_ok (d_items d) (ps1 ++ ps2) m -> Forall (insert_ok d t) content ->
  exists d' m' ty' ps', (_ <-- markersChanged (vlen (withItems (d_items d) ps1)) (Z.of_nat (length content));;; onDoc (typeListInsertGenericsAfter interpolate own t (list.last ps1) content)) (d, Some m) = (Ok tt, (d', Some m')) /\
    array_doc d' t ty' ps' /\ markers_ok (d_items d') ps' m' /\ listValues (d_items d') ps' = listValues (d_items d) ps1 ++ (toElement <$> content) ++ listValues (d_items d) ps2.
Proof.
  intros Ha Hm Hc. destruct content as [|c content].
  - pose proof (insertAfter_nil d t ty ps1 ps2 Ha) as En. assert (Hm' : exists m', markersChanged (vlen (withItems (d_items d) ps1)) 0 (d, Some m) = (Ok tt, (d, Some m')) /\ markers_ok (d_items d) (ps1 ++ ps2) m').
    { destruct m as [st|]; [|by exists None]. destruct (markers_zero (d_items d) (ps1 ++ ps2) (vlen (withItems (d_items d) ps1)) st Hm) as (st' & E & H'). exists (Some st'). unfold markersChanged. cbn [fst snd]. by rewrite E. }
    destruct Hm' as (m' & E & Hm'). exists d, m', ty, (ps1 ++ ps2). split_and!; [|done|done|unfold listValues; by rewrite withItems_app, values_app]. change (Z.of_nat (length (@nil (insertable V)))) with 0. unfold rbind. rewrite E. unfold onDoc. cbn [fst snd]. by rewrite En.
  - set (vs := c :: content) in *. destruct (insertAfter_spec d t ty ps1 ps2 vs Ha Hc) as (d' & ty' & E & Hins). destruct (inserted_all d d' t ty ty' ps1 ps2 (toElement <$> vs) m Ha Hins) as (ps' & m' & H1 & H2 & H3 & H4); [done|done|].
    exists d', m', ty', ps'. split_and!; [|done..]. unfold rbind, markersChanged. cbn [fst snd]. rewrite length_fmap in H4. destruct m as [st|].
    + destruct H4 as (st' & -> & ->). unfold onDoc. cbn [fst snd]. by rewrite E.
    + subst m'. unfold onDoc. cbn [fst snd]. by rewrite E.
Qed.

(** What the operations need of the position lookup. *)
Class ListLookup (position : nat -> Z -> @listM V (option (nat * Z))) : Prop := {
  lookup_right : forall (d : doc) t ty ps m index, d_types d !! t = Some ty -> type_list (d_items d) ty ps -> t_itemCount ty = Z.of_nat (length ps) -> t_itemCount ty < 2 ^ 63 ->
    markers_ok (d_items d) ps m -> 0 <= index ->
    exists r m', position t index (d, Some m) = (Ok r, (d, Some m')) /\ markers_ok (d_items d) ps m' /\
      forall p s, r = Some (p, s) -> exists pre post, ps = pre ++ p :: post /\ s = vlen (withItems (d_items d) pre) /\ s <= index
}.

Lemma values_at (h : heap) ps1 ps2 index : cells_ok (withItems h ps1) -> vlen (withItems h ps1) = index -> 0 <= index ->
  listValues h ps1 = take (Z.to_nat index) (listValues h (ps1 ++ ps2)) /\ listValues h ps2 = drop (Z.to_nat index) (listValues h (ps1 ++ ps2)).
Proof.
  intros Hc E Hi. unfold listValues. rewrite withItems_app, values_app. pose proof (values_length _ Hc) as Hl. replace (Z.to_nat index) with (length (valuesOf (withItems h ps1))) by lia. by rewrite take_app_length, drop_app_length.
Qed.

(** From a place found, to the list with the values in it. *)
Lemma insert_at_place (d d1 : doc) t ty1 ps ps1 ps2 m index content : array_doc d1 t ty1 (ps1 ++ ps2) -> relisted d d1 ps (ps1 ++ ps2) -> vlen (withItems (d_items d1) ps1) = index -> 0 <= index ->
  markers_ok (d_items d) ps m -> Forall (insert_ok d t) content ->
  exists d' m' ty' ps', (_ <-- markersChanged index (Z.of_nat (length content));;; onDoc (typeListInsertGenericsAfter interpolate own t (list.last ps1) content)) (d1, Some m) = (Ok tt, (d', Some m')) /\
    array_doc d' t ty' ps' /\ markers_ok (d_items d') ps' m' /\ listValues (d_items d') ps' = take (Z.to_nat index) (listValues (d_items d) ps) ++ (toElement <$> content) ++ drop (Z.to_nat index) (listValues (d_items d) ps).
Proof.
  intros Ha [R1 R2 R3] Hv Hi Hm Hc. destruct (insert_here d1 t ty1 ps1 ps2 m content Ha) as (d' & m' & ty' & ps' & E & H1 & H2 & H3); [by apply R3|eapply list.Forall_impl; [exact Hc|]; intros c; by apply insert_ok_dom|].
  pose proof (tl_cells _ _ _ (ad_list _ _ _ _ Ha)) as Hcells. rewrite withItems_app in Hcells. apply list.Forall_app in Hcells as [Hc1 _]. destruct (values_at (d_items d1) ps1 ps2 index Hc1 Hv Hi) as [E1 E2]. rewrite R2 in E1, E2.
  exists d', m', ty', ps'. rewrite <- E1, <- E2. split_and!; try done. by rewrite <- Hv.
Qed.

Section Insert.
Context (position : nat -> Z -> @listM V (option (nat * Z))) {HL : ListLookup position}.

Lemma insertStart_spec (d : doc) t ty ps m found index : array_doc d t ty ps -> 0 < index <= t_length ty ->
  (forall p s, found = Some (p, s) -> exists pre post, ps = pre ++ p :: post /\ s = vlen (withItems (d_items d) pre) /\ s <= index) ->
  exists pre rest k, insertStart found ty index (d, m) = (Ok (head rest, k), (d, m)) /\ ps = pre ++ rest /\ 0 < k <= vlen (withItems (d_items d) rest) /\ vlen (withItems (d_items d) pre) + k = index.
Proof.
  intros Ha Hi Hf. pose proof (tl_length _ _ _ (ad_list _ _ _ _ Ha)) as Hlen. unfold insertStart. destruct found as [[p s]|].
  - destruct (Hf p s eq_refl) as (pre & post & -> & -> & Hs). rewrite withItems_app, vlen_app in Hlen. destruct (Z.eqb_spec (index - vlen (withItems (d_items d) pre)) 0) as [E|E].
    + destruct (prevItem_spec d t ty pre p post Ha) as (a & q & qi & b & -> & Eqi & Hlive & Ep & Ev); [lia|]. unfold rbind at 1, onDoc at 1. cbn [fst snd]. rewrite Ep. unfold rbind, onDoc. cbn [fst snd]. rewrite (getItem_eq _ _ _ Eqi), live_flags, Hlive.
      pose proof (tl_cells _ _ _ (ad_list _ _ _ _ Ha)) as Hc. rewrite <- app_assoc in Hc |- *. cbn [app] in Hc |- *. rewrite withItems_app, (withItems_cons _ q qi _ Eqi) in Hc. apply list.Forall_app in Hc as [_ Hc]. apply list.Forall_cons in Hc as [[Hpos _] Hc]. pose proof (vlen_nonneg _ Hc) as Hnn.
      exists a, (q :: b ++ p :: post), (i_length qi). split_and!; [done|done|cbn in Hpos; lia| |lia]. rewrite (withItems_cons _ q qi _ Eqi). cbn [vlen]. rewrite Hlive. lia.
    + exists pre, (p :: post), (index - vlen (withItems (d_items d) pre)). split_and!; [done|done|lia|lia|lia].
  - exists [], ps, index. rewrite (tl_start _ _ _ (ad_list _ _ _ _ Ha)). split_and!; [done|done|lia|lia|cbn; lia].
Qed.

Lemma insertGenerics_spec (d : doc) t ty ps m index content : array_doc d t ty ps -> markers_ok (d_items d) ps m -> t_itemCount ty < 2 ^ 63 -> 0 <= index <= t_length ty -> Forall (insert_ok d t) content ->
  exists d' m' ty' ps', typeListInsertGenerics interpolate own position t index content (d, Some m) = (Ok tt, (d', Some m')) /\ array_doc d' t ty' ps' /\ markers_ok (d_items d') ps' m' /\
    listValues (d_items d') ps' = take (Z.to_nat index) (listValues (d_items d) ps) ++ (toElement <$> content) ++ drop (Z.to_nat index) (listValues (d_items d) ps).
Proof.
  intros Ha Hm Hcount Hi Hc. pose proof (ad_list _ _ _ _ Ha) as Htl. unfold typeListInsertGenerics. unfold rbind at 1, onDoc at 1. cbn [fst snd]. rewrite (getType_eq _ _ _ (ad_type _ _ _ _ Ha)). destruct (Z.ltb_spec (t_length ty) index); [lia|].
  destruct (Z.eqb_spec index 0) as [->|Hne]; [by apply (insert_at_place d d t ty ps [] ps m 0 content Ha (relisted_refl d ps))|].
  unfold rbind at 1. destruct (onDoc (soleItem ty index) (d, Some m)) as [sole s1] eqn:Esole.
  assert (Hsole : s1 = (d, Some m) /\ (exists b, sole = Ok b /\ (b = true -> exists p it, ps = [p] /\ d_items d !! p = Some it /\ live it = true /\ i_length it = index))).
  { revert Esole. unfold onDoc, soleItem. cbn [fst snd]. rewrite (tl_start _ _ _ Htl). destruct ps as [|p ps]; [intros [= <- <-]; split; [done|by exists false]|]. cbn [head]. pose proof (tl_linked _ _ _ Htl) as (it & Eit & _ & Er & _). unfold rbind. rewrite (getItem_eq _ _ _ Eit). intros [= <- <-]. split; [done|].
    eexists. split; [reflexivity|]. rewrite !andb_true_iff. intros ((((_ & H2) & H3) & H4) & H5). apply bool_decide_eq_true in H2. exists p, it. destruct ps; [|rewrite H2 in Er; done]. split_and!; [done|done|unfold live; by rewrite H3, H4|lia]. }
  destruct Hsole as (-> & b & -> & Hb). destruct b.
  - destruct (Hb eq_refl) as (p & it & -> & Eit & Hlive & Elen). rewrite (tl_start _ _ _ Htl). cbn [head]. destruct (insertAfter_spec d t ty [p] [] content) as (d' & ty' & E & Hins); [done|done|].
    destruct (markers_append d d' t ty' [p] _ m Hins Hm) as (ps' & H1 & H2 & H3). exists d', m, ty', ps'. cbn [list.last] in E. unfold onDoc. cbn [fst snd]. rewrite E. split_and!; [done|done|done|]. rewrite H2.
    pose proof (values_length _ (tl_cells _ _ _ Htl)) as Hvl. rewrite (withItems_cons _ p it [] Eit) in Hvl. cbn [vlen] in Hvl. rewrite Hlive in Hvl. unfold listValues. rewrite (withItems_cons _ p it [] Eit). cbn [withItems omap list_omap vlen] in Hvl. rewrite take_ge, drop_ge by (cbn [withItems omap list_omap] in *; lia). by rewrite app_nil_r.
  - destruct (lookup_right d t ty ps m index (ad_type _ _ _ _ Ha) Htl (ad_count _ _ _ _ Ha) Hcount Hm ltac:(lia)) as (r & m1 & Epos & Hm1 & Hr). unfold rbind at 1. rewrite Epos. unfold rbind at 1.
    destruct (insertStart_spec d t ty ps (Some m1) r index Ha ltac:(lia) Hr) as (pre & rest & k & Es & -> & Hk & Ek). rewrite Es. unfold rbind at 1, onDoc at 1, get. cbn [fst snd].
    destruct (insertWalk_spec t rest (size (d_items d)) d ty pre k Ha Hk) as (d1 & ty1 & ps1 & ps2 & Ew & Ha1 & Hr1 & Hv1); [pose proof (linked_size _ _ _ (tl_linked _ _ _ Htl)) as Hsz; rewrite length_app in Hsz; lia|].
    unfold rbind at 1, onDoc at 1. cbn [fst snd]. rewrite Ew. by apply (insert_at_place d d1 t ty1 (pre ++ rest) ps1 ps2 m1 index content Ha1 Hr1); [lia|lia|..].
Qed.
End Insert.

(** ** Appending *)
Lemma highest_range l : forall best v i j n, (forall b, best = Some b -> (b < n)%nat) -> (i + length l = n)%nat -> highest best v i l = Some j -> (j < n)%nat.
Proof.
  induction l as [|m l IH]; intros best v i j n Hb Hn; cbn [highest]; [intros ->; by apply Hb|]. cbn in Hn. destruct (v <? m_index m); [apply IH; [intros b [= <-]; lia|lia]|apply IH; [done|lia]].
Qed.

Lemma bestMarker_spec (h : heap) ps ms i m : markers_ok h ps (mjoin ms) -> bestMarker ms = Some (i, m) -> exists st, ms = Some (Some st) /\ (i < length (sm_list st))%nat /\ marker_ok h ps m.
Proof.
  intros Hm. unfold bestMarker. destruct ms as [[st|]|]; [|done..]. destruct (highest None (-1) 0 (sm_list st)) as [j|] eqn:Eh; [|done]. cbn. destruct (sm_list st !! j) as [m'|] eqn:Em; [|done]. intros [= <- <-]. exists st. split_and!; [done|by eapply lookup_lt_Some|].
  cbn in Hm. rewrite list.Forall_forall in Hm. apply Hm. by eapply list_elem_of_lookup_2.
Qed.

Lemma lastWalk_spec (d : doc) ps post : forall fuel pre n, linked (d_items d) None ps -> ps = pre ++ n :: post -> (length post < fuel)%nat ->
  exists pre' q, lastWalk fuel n (vlen (withItems (d_items d) pre)) d = (Ok (q, vlen (withItems (d_items d) pre')), d) /\ ps = pre' ++ [q].
Proof.
  induction post as [|r post IH]; intros fuel pre n Hl E Hf; (destruct fuel as [|fuel]; [lia|]); cbn [lastWalk]; pose proof Hl as Hl'; rewrite E in Hl'; apply linked_lseg, lseg_app in Hl' as [_ (it & Eit & _ & Er & _)]; unfold rbind at 1; rewrite (getItem_eq _ _ _ Eit), Er; cbn [head_or].
  - by exists pre, n.
  - fold (live it). destruct (IH fuel (pre ++ [n]) r Hl) as (pre' & q & Ew & Eq); [by rewrite <- app_assoc|cbn in Hf; lia|]. exists pre', q. split; [|done]. rewrite <- Ew. rewrite withItems_app, vlen_app, (withItems_cons _ n it [] Eit). cbn [vlen withItems omap list_omap].
    destruct (live it); [by rewrite Z.add_0_r|by rewrite !Z.add_0_r].
Qed.

Lemma persistTail_spec (d : doc) ps ms n nIndex : markers_ok (d_items d) ps (mjoin ms) -> (forall ts, marker_ok (d_items d) ps (newArraySearchMarker n nIndex ts)) ->
  exists ms', persistTail (bestMarker ms) n nIndex (d, ms) = (Ok tt, (d, ms')) /\ markers_ok (d_items d) ps (mjoin ms').
Proof.
  intros Hm Hn. unfold persistTail. cbn [fst snd]. destruct (bestMarker ms) as [[i m]|] eqn:Eb.
  - destruct (bestMarker_spec _ _ _ _ _ Hm Eb) as (st & -> & Hi & _). eexists. split; [reflexivity|]. by apply overwrite_ok.
  - destruct ms as [[st|]|]; [|by eexists..]. destruct (markPosition_ok (d_items d) ps n nIndex maxSearchMarker (mkMarkers (sm_list st) ({[n]} ∪ sm_marked st) (sm_clock st)) Hm Hn) as (i & st' & -> & Hm' & _); [done|]. by eexists.
Qed.

Lemma push_spec (d : doc) t ty ps ms content : array_doc d t ty ps -> markers_ok (d_items d) ps (mjoin ms) -> Forall (insert_ok d t) content ->
  exists d' ms' ty' ps', typeListPushGenerics interpolate own t content (d, ms) = (Ok tt, (d', ms')) /\ array_doc d' t ty' ps' /\ markers_ok (d_items d') ps' (mjoin ms') /\
    listValues (d_items d') ps' = listValues (d_items d) ps ++ (toElement <$> content).
Proof.
  intros Ha Hm Hc. pose proof (ad_list _ _ _ _ Ha) as Htl. unfold typeListPushGenerics. unfold rbind at 1, onDoc at 1. cbn [fst snd]. rewrite (getType_eq _ _ _ (ad_type _ _ _ _ Ha)). unfold rbind at 1. cbn [fst snd].
  assert (Hend : forall ms, markers_ok (d_items d) ps (mjoin ms) -> exists d' ms' ty' ps', onDoc (typeListInsertGenericsAfter interpolate own t (list.last ps) content) (d, ms) = (Ok tt, (d', ms')) /\ array_doc d' t ty' ps' /\ markers_ok (d_items d') ps' (mjoin ms') /\ listValues (d_items d') ps' = listValues (d_items d) ps ++ (toElement <$> content)).
  { intros ms1 Hm1. destruct (insertAfter_spec d t ty ps [] content) as (d' & ty' & E & Hins); [by rewrite app_nil_r|done|]. destruct (markers_append d d' t ty' ps _ (mjoin ms1) Hins Hm1) as (ps' & H1 & H2 & H3). exists d', ms1, ty', ps'. unfold onDoc. cbn [fst snd]. rewrite E. by split_and!. }
  set (from := match bestMarker ms with Some (_, m) => Some (m_p m, m_index m) | None => (fun p => (p, 0)) <$> t_start ty end).
  assert (Hfrom : (from = None /\ ps = []) \/ exists pre n post, from = Some (n, vlen (withItems (d_items d) pre)) /\ ps = pre ++ n :: post).
  { unfold from. destruct (bestMarker ms) as [[i m]|] eqn:Eb; [destruct (bestMarker_spec _ _ _ _ _ Hm Eb) as (st & _ & _ & (q1 & q2 & -> & ->)); right; by exists q1, (m_p m), q2|]. rewrite (tl_start _ _ _ Htl). destruct ps as [|n post]; [by left|]. right. by exists [], n, post. }
  destruct Hfrom as [[-> ->]|(pre & n & post & -> & Eps)]; [by apply Hend|]. unfold rbind at 1, onDoc at 1, get. cbn [fst snd]. pose proof (linked_size _ _ _ (tl_linked _ _ _ Htl)) as Hsz. rewrite Eps, length_app in Hsz. cbn in Hsz.
  destruct (lastWalk_spec d ps post (size (d_items d)) pre n (tl_linked _ _ _ Htl) Eps ltac:(lia)) as (pre' & q & Ew & Eq). unfold rbind at 1, onDoc at 1. cbn [fst snd]. rewrite Ew. cbn [fst snd].
  destruct (persistTail_spec d ps ms q (vlen (withItems (d_items d) pre')) Hm) as (ms' & Ep & Hm'); [intros ts; by exists pre', []|]. unfold rbind. rewrite Ep. specialize (Hend ms' Hm'). by rewrite Eq, last_snoc, <- Eq in Hend.
Qed.
End Theory.

(** ** The lookup of the code *)
Section Instance.
Context {V : Type}.

(** [findMutationPosition] of a document without position indexes yet; an index
    that it builds is not kept. *)
Definition mutationLookup (t : nat) (index : Z) : @listM V (option (nat * Z)) :=
  fun s => match d_types s.1 !! t with
           | None => (Err ErrPanic, s)
           | Some ty => match findMutationPosition (d_items s.1) ty index s.2 None with
                        | Ok (r, _, ms) => (Ok (match r with Some (Some p, start) => Some (p, start) | _ => None end), (s.1, ms))
                        | Err e => (Err e, s)
                        end
           end.

Lemma findMutation_markers (h : gmap nat (itemStruct V)) ty ps target m r o' ms' : type_list h ty ps -> markers_ok h ps m -> findMutationPosition h ty target (Some m) None = Ok (r, o', ms') -> is_Some ms'.
Proof.
  intros Ht Hm. unfold findMutationPosition. set (z := if buildListPositionIndexItems <=? t_itemCount ty then _ else _).
  assert (Hz : is_Some z.2).
  { unfold z. destruct (_ <=? _); [|by eexists]. unfold indexedMutationPosition. destruct (activeListPositionIndex h ty (t_itemCount ty) true (Some m) None) as [[ix o1] m1] eqn:Ea. destruct (active_ok h ty ps (t_itemCount ty) true (Some m) None _ Ht I Hm Ea) as (_ & _ & _ & H4 & _). cbn [snd] in H4.
    assert (is_Some m1) by (destruct m1; [by eexists|by destruct (proj2 H4 eq_refl)]). destruct ix as [ix|]; [|done]. by destruct (findPosition (ix_root ix) target). }
  destruct z as [[found o1] m1]. cbn [snd] in Hz. destruct Hz as [m2 ->]. destruct found; [intros [= _ _ <-]; by eexists|]. destruct (findMarkerWithItemCount h ty target (t_itemCount ty) (mjoin (Some m2))) as [[i ms]|]; [|done]. intros [= _ _ <-]. by eexists.
Qed.

#[export] Instance mutationLookup_right : ListLookup mutationLookup.
Proof.
  split. intros d t ty ps m index Et Ht Hc Hlt Hm Hi. destruct (findMutation_ok (d_items d) ty ps index (Some m) None Ht Hc Hlt I Hm Hi) as (r & o' & ms' & E & _ & Hm' & Hr & _). destruct (findMutation_markers _ _ _ _ _ _ _ _ Ht Hm E) as [m' ->].
  unfold mutationLookup. cbn [fst snd]. rewrite Et, E. eexists _, m'. split; [reflexivity|]. split; [done|]. intros p s Ep. destruct r as [[[q|] s']|]; [|done..]. injection Ep as -> ->. destruct (Hr _ eq_refl) as (p' & pre & post & E1 & E2 & E3 & E4). injection E1 as <-. cbn in *. by exists pre, post.
Qed.
End Instance.

(** ** Properties *)

(** C5. Inserting into an array type: at an index within the list
    [typeListInsertGenerics] succeeds, and the array of the type is then the first
    [index] values, the inserted ones, and the others; behind the end it fails with
    the length error and changes nothing. [typeListPushGenerics] always appends.
    The list stays well formed, with the exact length, and the search markers stay
    right, whichever path is taken: the front, the sole item, a position lookup with
    the split of an item, the compact append of an unobserved transaction. *)
Theorem list_insert_exact {V : Type} (interpolate : Z -> Z -> Z -> Z) (own : Z) (position : nat -> Z -> @listM V (option (nat * Z))) `{!ListLookup position}
  (d : docState V) (t : nat) (ty : ytype) (ps : list nat) (m : option markerState) (index : Z) (content : list (insertable V)) :
  (forall clock span end_, 0 < span -> 0 <= clock <= span -> 0 <= end_ -> 0 <= interpolate clock span end_ <= end_) ->
  array_doc d t ty ps -> markers_ok (d_items d) ps m -> t_itemCount ty < 2 ^ 63 -> 0 <= index -> Forall (insert_ok d t) content ->
  let before := typeListToArray (d_items d) ty in
  (t_length ty < index -> typeListInsertGenerics interpolate own position t index content (d, Some m) = (Err ErrLengthExceeded, (d, Some m))) /\
  (index <= t_length ty -> exists d' m' ty' ps', typeListInsertGenerics interpolate own position t index content (d, Some m) = (Ok tt, (d', Some m')) /\
     array_doc d' t ty' ps' /\ markers_ok (d_items d') ps' m' /\ typeListToArray (d_items d') ty' = take (Z.to_nat index) before ++ (toElement <$> content) ++ drop (Z.to_nat index) before) /\
  (exists d' m' ty' ps', typeListPushGenerics interpolate own t content (d, Some m) = (Ok tt, (d', m')) /\
     array_doc d' t ty' ps' /\ markers_ok (d_items d') ps' (mjoin m') /\ typeListToArray (d_items d') ty' = before ++ (toElement <$> content)).
Proof.
  intros Hinterp Ha Hm Hcount Hi Hc before. assert (Eb : before = listValues (d_items d) ps) by (apply typeListToArray_values; apply Ha). rewrite Eb. split_and!.
  - intros Hout. unfold typeListInsertGenerics, rbind, onDoc. cbn [fst snd]. rewrite (getType_eq _ _ _ (ad_type _ _ _ _ Ha)). destruct (Z.ltb_spec (t_length ty) index); [done|lia].
  - intros Hin. destruct (insertGenerics_spec interpolate own Hinterp position d t ty ps m index content Ha Hm Hcount ltac:(lia) Hc) as (d' & m' & ty' & ps' & E & H1 & H2 & H3). exists d', m', ty', ps'. split_and!; [done..|]. rewrite (typeListToArray_values _ _ ps'); [done|apply H1].
  - destruct (push_spec interpolate own Hinterp d t ty ps (Some m) content Ha Hm Hc) as (d' & m' & ty' & ps' & E & H1 & H2 & H3). exists d', m', ty', ps'. split_and!; [done..|]. rewrite (typeListToArray_values _ _ ps'); [done|apply H1].
Qed.

(** A document with an array of two items. *)
Definition array1 : itemStruct Z := mkItem (GenID 1 0) 3 None None (Some 2%nat) None (ParentType 0) [] None (contentAny [10; 20; 30]) false true false.
Definition array2 : itemStruct Z := mkItem (GenID 1 3) 2 (Some (GenID 1 2)) (Some 1%nat) None None (ParentType 0) [] None (contentAny [40; 50]) false true false.
Definition array_type : ytype := mkType (Some 1%nat) ∅ 5 None 2 false 0 false.
Definition array_sample : docState Z :=
  mkDoc {[ 1%nat := array1; 2%nat := array2 ]} {[ 0%nat := array_type ]} (mkStore {[ 1 := [RItem 1; RItem 2] ]} None None [1]) 3 (mkTrans newDeleteSet [] [] false None (Some (1, 5)) ∅ ∅ ∅).

Lemma array_sample_ok : array_doc array_sample 0 array_type [1; 2]%nat.
Proof.
  assert (Hcase : forall q qi, q ∈ [1; 2]%nat -> d_items array_sample !! q = Some qi -> (q = 1%nat /\ qi = array1) \/ (q = 2%nat /\ qi = array2)).
  { intros q qi Hq E. assert (q = 1%nat \/ q = 2%nat) as [-> | ->] by set_solver; vm_compute in E; injection E as <-; tauto. }
  assert (Hl : linked (d_items array_sample) None [1; 2]%nat) by (repeat (eexists; split_and!; [reflexivity..|]); done).
  split; [|done| |done|done|intros q qi Hq E; destruct (Hcase q qi Hq E) as [[-> ->]|[-> ->]]; done].
  - exists (og_with (og_with (fun _ => None) array1) array2), (ro_with (ro_with (fun _ => None) array1) array2). split.
    + split.
      * split_and!; simpl.
        -- intros c ss Hc. apply lookup_singleton_Some in Hc as [<- <-]. split_and!; [done| |repeat constructor]. exists 0. vm_compute. repeat split; discriminate.
        -- apply NoDup_singleton.
        -- intros c. rewrite list_elem_of_singleton. split; [intros ->; rewrite lookup_singleton_eq; eauto|intros [? Hc]; by apply lookup_singleton_Some in Hc as [<- _]].
      * intros k ss q Hk Hq. simpl in Hk. apply lookup_singleton_Some in Hk as [<- <-]. assert (q = 1%nat \/ q = 2%nat) as [-> | ->] by set_solver; vm_compute; eauto.
    + split; [by eexists|done| |].
      * intros q qi Hq E. destruct (Hcase q qi Hq E) as [[-> ->]|[-> ->]]; [|by apply agrees_new]. apply agrees_old; [|by apply agrees_new]. intros x Hx Hx'. apply elem_chars in Hx, Hx'. cbn in Hx, Hx'. lia.
      * intros q qi Hq E. destruct (Hcase q qi Hq E) as [[-> ->]|[-> ->]]; eexists; (split; [reflexivity|set_solver]).
    + intros q qi Hq E. destruct (Hcase q qi Hq E) as [[-> ->]|[-> ->]]; by split.
    + intros q Hq. cbn in Hq |- *. rewrite lookup_insert_ne, lookup_singleton_ne by lia. done.
    + by vm_compute; repeat constructor; set_solver.
  - split; [done|done| |done]. repeat constructor; cbn; lia.
Qed.

Lemma list_insert_exact_witness :
  exists d' m' ty' ps', typeListInsertGenerics int_pivot 1 mutationLookup 0 4 [InAny 7; InBytes [1; 2]; InAny 8] (array_sample, Some (Some (mkMarkers [newArraySearchMarker 2 3 0] ∅ 0))) = (Ok tt, (d', Some m')) /\
    array_doc d' 0 ty' ps' /\ markers_ok (d_items d') ps' m' /\
    typeListToArray (d_items d') ty' = [EAny 10; EAny 20; EAny 30; EAny 40; EAny 7; EBytes [1; 2]; EAny 8; EAny 50].
Proof.
  destruct (list_insert_exact int_pivot 1 mutationLookup array_sample 0 array_type [1; 2]%nat (Some (mkMarkers [newArraySearchMarker 2 3 0] ∅ 0)) 4 [InAny 7; InBytes [1; 2]; InAny 8] int_pivot_range array_sample_ok) as (_ & H & _);
    [repeat constructor; exists [1]%nat, []; by vm_compute|done|done|repeat constructor|]. apply H. done.
Defined.
