(* ===== verification/ListDelete.v ===== *)
(** * What a deletion from a list does

    Theory of [typeListDelete] (TypeList.v) on lists without nested types: the
    values of the range are gone, the others stay in their order, a range that
    leaves the list is an error after the deletion of what there is, and the
    search markers are right for the list that is left. *)
From stdpp Require Import gmap sets list.
From Stdlib Require Import ZArith Lia.
From S2P Require Import Prelude Lib0 StructStore Text DeleteSet Object Content Item ItemList ItemSplit TypeRead SearchMarker PositionTree PositionIndex TypeList ListInsert.
Open Scope Z_scope.
Open Scope go_scope.

Section Theory.
Context {V : Type} (interpolate : Z -> Z -> Z -> Z) (own : Z).
Context (Hinterp : forall clock span end_, 0 < span -> 0 <= clock <= span -> 0 <= end_ -> 0 <= interpolate clock span end_ <= end_).
Abbreviation item := (itemStruct V).
Abbreviation doc := (docState V).
Abbreviation heap := (gmap nat (itemStruct V)).

(** No item of the list holds a nested type. *)
Definition flat (h : heap) (ps : list nat) : Prop := forall q qi, q ∈ ps -> h !! q = Some qi -> forall t, i_content qi <> contentType t.

(** [length] values from [index] on have been taken out of the list. *)
Record shrunk (d d' : doc) (ps ps' : list nat) (index length : Z) : Prop := {
  sk_values : listValues (d_items d') ps' = take (Z.to_nat index) (listValues (d_items d) ps) ++ drop (Z.to_nat (index + length)) (listValues (d_items d) ps);
  sk_moves : forall m, marker_ok (d_items d) ps m -> marker_ok (d_items d') ps' (newArraySearchMarker (m_p m) (withoutRange index length (m_index m)) (m_timestamp m))
}.

Lemma shrunk_refl d ps index : 0 <= index -> shrunk d d ps ps index 0.
Proof.
  intros Hi. split; [by rewrite Z.add_0_r, take_drop|]. intros m (q1 & q2 & -> & Em). exists q1, q2. split; [done|]. cbn. rewrite <- Em. unfold withoutRange. lia.
Qed.

Lemma shrunk_trans d1 d2 d3 ps1 ps2 ps3 index k1 k2 : 0 <= index -> 0 <= k1 -> 0 <= k2 -> index <= Z.of_nat (length (listValues (d_items d1) ps1)) -> shrunk d1 d2 ps1 ps2 index k1 -> shrunk d2 d3 ps2 ps3 index k2 -> shrunk d1 d3 ps1 ps3 index (k1 + k2).
Proof.
  intros Hi H1 H2 Hlen [A1 A2] [B1 B2]. split.
  - rewrite B1, A1. set (l := listValues (d_items d1) ps1) in *. assert (Ht : length (take (Z.to_nat index) l) = Z.to_nat index) by (rewrite length_take; lia). f_equal.
    + rewrite take_app_le by lia. by rewrite take_take, Nat.min_id.
    + rewrite drop_app_ge by lia. rewrite Ht, drop_drop. f_equal. lia.
  - intros m Hm. specialize (B2 _ (A2 m Hm)). cbn in B2. replace (withoutRange index (k1 + k2) (m_index m)) with (withoutRange index k2 (withoutRange index k1 (m_index m))); [done|]. unfold withoutRange. lia.
Qed.

Lemma relisted_shrunk d1 d2 d3 ps1 ps2 ps3 index k : relisted d1 d2 ps1 ps2 -> shrunk d2 d3 ps2 ps3 index k -> shrunk d1 d3 ps1 ps3 index k.
Proof.
  intros [_ R2 R3] [S1 S2]. split; [by rewrite S1, R2|]. intros m Hm. apply S2. assert (Hf : markers_ok (d_items d2) ps2 (Some (mkMarkers [m] ∅ 0))) by (apply R3; apply list.Forall_singleton; exact Hm). exact (proj1 (list.Forall_singleton _ _) Hf).
Qed.

Lemma shrunk_relisted d1 d2 d3 ps1 ps2 ps3 index k : shrunk d1 d2 ps1 ps2 index k -> relisted d2 d3 ps2 ps3 -> shrunk d1 d3 ps1 ps3 index k.
Proof.
  intros [S1 S2] [_ R2 R3]. split; [by rewrite R2, S1|]. intros m Hm. specialize (S2 m Hm). set (m' := newArraySearchMarker _ _ _) in *. assert (Hf : markers_ok (d_items d3) ps3 (Some (mkMarkers [m'] ∅ 0))) by (apply R3; apply list.Forall_singleton; exact S2). exact (proj1 (list.Forall_singleton _ _) Hf).
Qed.

(** ** Deleting one item *)
Lemma delete_flat (d : doc) t ty ps p it : array_doc d t ty ps -> p ∈ ps -> d_items d !! p = Some it -> live it = true -> (forall t', i_content it <> contentType t') ->
  exists d', Item.delete p d = (Ok tt, d') /\ d_items d' = <[p := markDeleted it]> (d_items d) /\ d_types d' = <[t := updateLength (- i_length it) ty]> (d_types d) /\ d_store d' = d_store d /\ d_next d' = d_next d.
Proof.
  intros [(og & ro & Hd) Et Htl Hcnt Hpar Hitems] Hp Ep Hlive Hnt. destruct (ld_bodies _ _ _ _ _ Hd p it Hp Ep) as [B1 B2 _ _]. assert (Edel : i_deleted it = false) by (unfold live in Hlive; by destruct (i_deleted it)). assert (Ecnt : i_countable it = true) by (unfold live in Hlive; by destruct (i_deleted it)).
  unfold Item.delete. unfold rbind at 1, get. rewrite Nat.add_1_r. cbn [deleteItemStruct]. unfold rbind at 1. rewrite (getItem_eq _ _ _ Ep), Edel. unfold rbind at 1, parentType. rewrite B1. unfold rret at 1. unfold rbind at 1. rewrite (getType_eq _ _ _ Et), Ecnt, B2. rewrite bool_decide_eq_true_2 by done. cbn [andb].
  unfold rbind at 1. rewrite (setType_eq _ _ _ _ Et). unfold rbind at 1. set (d1 := set_types _ d). rewrite (setItem_eq d1 p it _ Ep). unfold rbind at 1, addToDeleteSetT, modifyTrans, modify. set (d2 := set_trans _ _).
  destruct (addChangedType_spec d2 t (updateLength (- i_length it) ty) []) as (d3 & E3 & I3 & T3 & S3 & N3).
  - apply lookup_insert_eq.
  - intros q Eq. destruct (Hpar q Eq) as (Hq & qi & Eqi & _). cbn. apply lookup_insert_is_Some'. right. by eexists.
  - intros k ss Hk. destruct (sr_ok _ (ld_store _ _ _ _ _ Hd)) as (Hok & _). by destruct (Hok k ss Hk).
  - unfold rbind at 1. rewrite E3. destruct (i_content it) as [| | |[dd ?]| | | | |t'] eqn:Ec; cbn [deleteContent]; try (eexists; split; [reflexivity|]; by rewrite I3, T3, S3, N3); [|by destruct (Hnt t')].
    eexists. split; [reflexivity|]. cbn. by rewrite I3, T3, S3, N3.
Qed.

(** The cells of [pre] and [post] are as they were, [p] is dead. *)
Record buried (d d' : doc) (t : nat) (ty' : ytype) (pre : list nat) (p : nat) (post : list nat) (it : item) : Prop := {
  bu_doc : array_doc d' t ty' (pre ++ p :: post);
  bu_item : d_items d' !! p = Some (markDeleted it);
  bu_other : forall q, q <> p -> d_items d' !! q = d_items d !! q
}.

Lemma delete_buries (d : doc) t ty pre p post it : array_doc d t ty (pre ++ p :: post) -> d_items d !! p = Some it -> live it = true -> (forall t', i_content it <> contentType t') ->
  exists d' ty', Item.delete p d = (Ok tt, d') /\ buried d d' t ty' pre p post it.
Proof.
  intros Ha Ep Hlive Hnt. assert (Hp : p ∈ pre ++ p :: post) by set_solver. destruct (delete_flat d t ty _ p it Ha Hp Ep Hlive Hnt) as (d' & E & Ei & Et' & Es & En). exists d', (updateLength (- i_length it) ty). split; [done|].
  destruct Ha as [(og & ro & Hd) Et Htl Hcnt Hpar Hitems]. assert (Hit : d_items d' !! p = Some (markDeleted it)) by (rewrite Ei; apply lookup_insert_eq). assert (Hother : forall q, q <> p -> d_items d' !! q = d_items d !! q) by (intros q Hq; rewrite Ei; by apply lookup_insert_ne).
  assert (Hb : same_bodies (d_items d) (d_items d')) by (rewrite Ei; eapply same_bodies_insert; [apply same_bodies_refl|exact Ep|done]). pose proof (ld_nodup _ _ _ _ _ Hd) as Hnd. rewrite <- Permutation_middle in Hnd. apply list.NoDup_cons in Hnd as [Hnp _].
  assert (Hl : linked (d_items d') None (pre ++ p :: post)) by (rewrite Ei; apply (linked_replace (d_items d) p it); [done|done|done|apply Hd]).
  assert (Hdead : live (markDeleted it) = false) by done.
  split; [split|done|done].
  - exists og, ro. split.
    + destruct (ld_store _ _ _ _ _ Hd) as [S1 S2]. split; rewrite Es; [by eapply store_ok_body|]. intros k ss q Hk Hq. specialize (S2 k ss q Hk Hq). specialize (Hb q). destruct S2 as [qi Eq]. rewrite Eq in Hb. by destruct (d_items d' !! q).
    + split; [|exact Hl| |].
      * exists (updateLength (- i_length it) ty). split; [rewrite Et'; apply lookup_insert_eq|]. cbn. rewrite (tl_start _ _ _ Htl). by destruct pre.
      * intros q qi Hq Eq. destruct (decide (q = p)) as [->|Hne]; [|rewrite Hother in Eq by done; by apply (lr_agrees _ _ _ _ _ (ld_list _ _ _ _ _ Hd) q)]. rewrite Hit in Eq. injection Eq as <-. eapply agrees_body; [|apply (lr_agrees _ _ _ _ _ (ld_list _ _ _ _ _ Hd) p it Hp Ep)]. done.
      * intros q qi Hq Eq. rewrite Es. destruct (decide (q = p)) as [->|Hne]; [|rewrite Hother in Eq by done; by apply (lr_store _ _ _ _ _ (ld_list _ _ _ _ _ Hd) q)]. rewrite Hit in Eq. injection Eq as <-. apply (lr_store _ _ _ _ _ (ld_list _ _ _ _ _ Hd) p it Hp Ep).
    + intros q qi Hq Eq. destruct (decide (q = p)) as [->|Hne]; [|rewrite Hother in Eq by done; by apply (ld_bodies _ _ _ _ _ Hd q)]. rewrite Hit in Eq. injection Eq as <-. destruct (ld_bodies _ _ _ _ _ Hd p it Hp Ep). by split.
    + intros q Hq. rewrite En in Hq. rewrite Hother; [by apply Hd|]. intros ->. rewrite (ld_fresh _ _ _ _ _ Hd p Hq) in Ep. done.
    + apply Hd.
  - rewrite Et'. apply lookup_insert_eq.
  - assert (Hs : forall qs, p ∉ qs -> withItems (d_items d') qs = withItems (d_items d) qs).
    { intros qs Hq. unfold withItems. apply list_omap_ext. apply list.Forall2_same_length_lookup_2; [done|]. intros i x y Ex Ey. rewrite Ex in Ey. injection Ey as <-. rewrite Hother; [done|]. intros ->. apply Hq. by eapply list_elem_of_lookup_2. }
    assert (Hw : withItems (d_items d') (pre ++ p :: post) = withItems (d_items d) pre ++ (p, markDeleted it) :: withItems (d_items d) post) by (rewrite withItems_app, (withItems_cons _ p _ _ Hit), !Hs by set_solver; done).
    pose proof (tl_cells _ _ _ Htl) as Hc. pose proof (tl_length _ _ _ Htl) as Hlen. rewrite withItems_app, (withItems_cons _ p it post Ep) in Hc, Hlen. apply list.Forall_app in Hc as [Hc1 Hc2]. apply list.Forall_cons in Hc2 as [[Hpos _] Hc2].
    split; [cbn; apply Htl|exact Hl|rewrite Hw; apply Forall_app_2; [done|]; constructor; [by split|done]|]. rewrite Hw. cbn [t_length updateLength with_counts]. rewrite Hlen, !vlen_app. cbn [vlen]. rewrite Hlive, Hdead. lia.
  - exact Hcnt.
  - intros q Eq. destruct (Hpar q Eq) as (Hq & qi & Eqi & Hdel). split; [done|]. exists qi. rewrite Hother; [done|]. intros ->. by apply Hq.
  - intros q qi Hq Eq. destruct (decide (q = p)) as [->|Hne]; [|rewrite Hother in Eq by done; by apply (Hitems q)]. rewrite Hit in Eq. injection Eq as <-. destruct (Hitems p it Hp Ep) as [H1 H2]. split; [done|]. cbn. by destruct (i_content it).
Qed.

Lemma withItems_ext (h h' : heap) qs : (forall q, q ∈ qs -> h' !! q = h !! q) -> withItems h' qs = withItems h qs.
Proof. intros Hs. induction qs as [|q qs IH]; [done|]. unfold withItems in *. cbn [omap list_omap]. rewrite Hs by (by left). rewrite IH; [done|]. intros x Hx. apply Hs. by right. Qed.

Lemma buried_cells (d d' : doc) t ty ty' pre p post it : array_doc d t ty (pre ++ p :: post) -> buried d d' t ty' pre p post it -> forall qs, (forall q, q ∈ qs -> q ∈ pre ++ post) -> withItems (d_items d') qs = withItems (d_items d) qs.
Proof.
  intros [(og & ro & Hd) _ _ _ _ _] [_ _ B3] qs Hqs. apply withItems_ext. intros q Hq. apply B3. intros ->. specialize (Hqs _ Hq). pose proof (ld_nodup _ _ _ _ _ Hd) as Hnd. rewrite <- Permutation_middle in Hnd. by apply list.NoDup_cons in Hnd as [Hn _].
Qed.

Lemma vlen_prefix (h : heap) a b : cells_ok (withItems h (a ++ b)) -> 0 <= vlen (withItems h a) /\ 0 <= vlen (withItems h b).
Proof. rewrite withItems_app. intros [H1 H2]%list.Forall_app. split; by apply vlen_nonneg. Qed.

Lemma buried_shrunk (d d' : doc) t ty ty' pre p post it : array_doc d t ty (pre ++ p :: post) -> d_items d !! p = Some it -> live it = true -> buried d d' t ty' pre p post it ->
  shrunk d d' (pre ++ p :: post) (pre ++ p :: post) (vlen (withItems (d_items d) pre)) (i_length it).
Proof.
  intros Ha Ep Hlive Hb. pose proof (buried_cells _ _ _ _ _ _ _ _ _ Ha Hb) as Hs. destruct Hb as [B1 B2 _]. pose proof (tl_cells _ _ _ (ad_list _ _ _ _ Ha)) as Hc. pose proof Hc as Hc0. rewrite withItems_app, (withItems_cons _ p it post Ep) in Hc. apply list.Forall_app in Hc as [Hc1 Hc2]. apply list.Forall_cons in Hc2 as [[Hpos Hval] Hc2]. specialize (Hval Hlive). cbn [snd] in *.
  pose proof (vlen_nonneg _ Hc1) as Hn1. pose proof (values_length _ Hc1) as Hv1. split.
  - unfold listValues. rewrite !withItems_app, (withItems_cons _ p _ _ B2), (withItems_cons _ p _ _ Ep), (Hs pre), (Hs post) by set_solver. rewrite !values_app. cbn [valuesOf]. rewrite !live_flags, Hlive. change (live (markDeleted it)) with false. cbn match.
    set (A := valuesOf (withItems (d_items d) pre)) in *. set (B := contentValues (i_content it)) in *. replace (Z.to_nat (vlen (withItems (d_items d) pre))) with (length A) by lia. rewrite take_app_length. f_equal.
    replace (Z.to_nat (vlen (withItems (d_items d) pre) + i_length it)) with (length (A ++ B)) by (rewrite length_app; lia). by rewrite app_assoc, drop_app_length.
  - intros m (q1 & q2 & E & Em). exists q1, q2. split; [done|]. cbn. rewrite Em. unfold withoutRange. apply app_eq_inv in E as [(k & -> & E)|(k & -> & E)].
    + rewrite (Hs q1) by set_solver. rewrite withItems_app, vlen_app in *. apply list.Forall_app in Hc1 as [H1 H2]. pose proof (vlen_nonneg _ H2). lia.
    + destruct k as [|x k]; cbn in E; injection E as E1 E2; [rewrite app_nil_r in *; rewrite (Hs pre) by set_solver; lia|]. subst x post. rewrite !withItems_app, (withItems_cons _ p _ _ B2), (withItems_cons _ p _ _ Ep), (Hs pre), (Hs k) by set_solver. rewrite !vlen_app. cbn [vlen]. rewrite Hlive. change (live (markDeleted it)) with false. cbn match.
      rewrite withItems_app in Hc2. apply list.Forall_app in Hc2 as [H1 H2]. pose proof (vlen_nonneg _ H1). lia.
Qed.

Lemma buried_flat (d d' : doc) t ty' pre p post it ps : d_items d !! p = Some it -> buried d d' t ty' pre p post it -> flat (d_items d) ps -> flat (d_items d') ps.
Proof. intros Ep [_ B2 B3] Hf q qi Hq Eq. destruct (decide (q = p)) as [->|Hne]; [rewrite B2 in Eq; injection Eq as <-; by apply (Hf p it)|]. rewrite B3 in Eq by done. by apply (Hf q). Qed.

Lemma cut_flat (d d' : doc) t ty ty' pre p r post diff : array_doc d t ty (pre ++ p :: post) -> cut_at d d' t ty' pre p r post diff -> flat (d_items d) (pre ++ p :: post) -> flat (d_items d') (pre ++ p :: r :: post).
Proof.
  intros Ha [_ _ C3 _ _ _ C7] Hf q qi Hq Eq t'. destruct (decide (q ∈ [p; r])) as [H|H]; [by apply (C7 q qi)|]. assert (Hq' : q ∈ pre ++ post) by set_solver. specialize (C3 q Hq'). rewrite Eq in C3. destruct (d_items d !! q) as [q0|] eqn:E0; [|done]. destruct C3 as (<- & _). apply (Hf q q0); [set_solver|done].
Qed.

(** ** The loops *)
Lemma deleteStart_step (d : doc) fuel p it index : d_items d !! p = Some it -> 0 < index -> deleteStart interpolate (S fuel) (Some p) index d =
  if live it then
    (if index <? i_length it then _ <-- getItemCleanStart interpolate (GenID (Client (i_id it)) (Clock (i_id it) + index));;; it <-- getItem p;;; deleteStart interpolate fuel (i_right it) (index - i_length it)
     else deleteStart interpolate fuel (i_right it) (index - i_length it)) d
  else deleteStart interpolate fuel (i_right it) index d.
Proof.
  intros Eit Hpos. cbn [deleteStart]. destruct (Z.ltb_spec 0 index); [|lia]. unfold rbind at 1. rewrite (getItem_eq _ _ _ Eit). fold (live it). destruct (live it); [|done]. destruct (index <? i_length it).
  - unfold rbind. by destruct (getItemCleanStart interpolate _ d) as [[?|?] ?].
  - unfold rbind at 1, rret at 1. unfold rbind at 1. by rewrite (getItem_eq _ _ _ Eit).
Qed.

Lemma deleteStart_spec t rest : forall fuel (d : doc) ty pre index, array_doc d t ty (pre ++ rest) -> flat (d_items d) (pre ++ rest) -> 0 <= index -> (length rest <= fuel)%nat ->
  (vlen (withItems (d_items d) rest) < index /\ deleteStart interpolate fuel (head rest) index d = (Ok None, d)) \/
  exists d' ty' ps1 ps2, deleteStart interpolate fuel (head rest) index d = (Ok (head ps2), d') /\ array_doc d' t ty' (ps1 ++ ps2) /\ relisted d d' (pre ++ rest) (ps1 ++ ps2) /\ flat (d_items d') (ps1 ++ ps2) /\ vlen (withItems (d_items d') ps1) = vlen (withItems (d_items d) pre) + index.
Proof.
  induction rest as [|p rest IH]; intros fuel d ty pre index Ha Hfl Hi Hf.
  - destruct (decide (index = 0)) as [->|Hne]; [|left; split; [cbn; lia|by destruct fuel]]. right. exists d, ty, pre, []. split_and!; [by destruct fuel|done|apply relisted_refl|done|lia].
  - destruct fuel as [|fuel]; [cbn in Hf; lia|]. destruct (decide (0 < index)) as [Hpos|Hz]; [|assert (index = 0) as -> by lia; right; exists d, ty, pre, (p :: rest); split_and!; [done|done|apply relisted_refl|done|lia]].
    pose proof (tl_linked _ _ _ (ad_list _ _ _ _ Ha)) as Hl. apply linked_lseg, lseg_app in Hl as [_ (it & Eit & _ & Eright & _)]. cbn [head]. rewrite (deleteStart_step d fuel p it index Eit Hpos).
    assert (Er : i_right it = head rest) by (rewrite Eright; by destruct rest).
    assert (Hnext : forall k, vlen (withItems (d_items d) [p]) = k -> k <= index -> (vlen (withItems (d_items d) (p :: rest)) < index /\ deleteStart interpolate fuel (head rest) (index - k) d = (Ok None, d)) \/
      exists d' ty' ps1 ps2, deleteStart interpolate fuel (head rest) (index - k) d = (Ok (head ps2), d') /\ array_doc d' t ty' (ps1 ++ ps2) /\ relisted d d' (pre ++ p :: rest) (ps1 ++ ps2) /\ flat (d_items d') (ps1 ++ ps2) /\ vlen (withItems (d_items d') ps1) = vlen (withItems (d_items d) pre) + index).
    { intros k Ek Hk. destruct (IH fuel d ty (pre ++ [p]) (index - k)) as [[H1 H2]|(d' & ty' & ps1 & ps2 & H1 & H2 & H3 & H4 & H5)]; [by rewrite <- app_assoc|by rewrite <- app_assoc|lia|cbn in Hf; lia|left|right].
      - split; [|done]. change (p :: rest) with ([p] ++ rest). rewrite withItems_app, vlen_app. lia.
      - exists d', ty', ps1, ps2. rewrite <- app_assoc in H3. rewrite withItems_app, vlen_app in H5. split_and!; [done|done|done|done|lia]. }
    rewrite (withItems_cons _ p it [] Eit) in Hnext. cbn [vlen withItems omap list_omap] in Hnext. destruct (live it) eqn:Elive.
    + destruct (Z.ltb_spec index (i_length it)) as [Hlt|Hge].
      * destruct (array_cut interpolate Hinterp d t ty pre p rest it index Ha Eit Elive ltac:(lia)) as (d' & ty' & r & E & Hcut). right. exists d', ty', (pre ++ [p]), (r :: rest). pose proof Hcut as [C1 _ C3 (pi & Epi & Elen & Hlp & Epr) _ _ _]. rewrite <- app_assoc. split_and!.
        -- unfold rbind at 1. rewrite E. unfold rbind at 1. rewrite (getItem_eq _ _ _ Epi), Elen, Epr, Z.sub_diag. by destruct fuel.
        -- done.
        -- by eapply cut_relisted.
        -- by eapply cut_flat.
        -- rewrite withItems_app, vlen_app, (withItems_cons _ p pi [] Epi), (vlen_sub _ _ _ pre C3) by set_solver. cbn. rewrite Hlp. lia.
      * rewrite Er. apply Hnext; lia.
    + rewrite Er. specialize (Hnext 0 ltac:(lia) ltac:(lia)). by rewrite Z.sub_0_r in Hnext.
Qed.

Lemma deleteLoop_step (d : doc) fuel p it length : d_items d !! p = Some it -> 0 < length -> deleteLoop interpolate (S fuel) (Some p) length d =
  if i_deleted it then deleteLoop interpolate fuel (i_right it) length d
  else (_ <-- (if length <? i_length it then _ <-- getItemCleanStart interpolate (GenID (Client (i_id it)) (Clock (i_id it) + length));;; rret tt else rret tt);;;
        _ <-- Item.delete p;;; it <-- getItem p;;; deleteLoop interpolate fuel (i_right it) (length - i_length it)) d.
Proof.
  intros Eit Hpos. cbn [deleteLoop]. destruct (Z.ltb_spec 0 length); [|lia]. unfold rbind at 1. rewrite (getItem_eq _ _ _ Eit). destruct (i_deleted it).
  - unfold rbind at 1, rret at 1. unfold rbind at 1. by rewrite (getItem_eq _ _ _ Eit).
  - set (c := if length <? i_length it then _ else _). clearbody c. unfold rbind. destruct (c d) as [[?|?] d1]; [|done]. destruct (Item.delete p d1) as [[?|?] d2]; [|done]. destruct (getItem p d2) as [[i2|?] d3] eqn:E2; [|done].
    assert (d3 = d2) as -> by (unfold getItem in E2; destruct (d_items d2 !! p); by injection E2). unfold rret. by rewrite E2.
Qed.

Lemma deleteLoop_spec t rest : forall fuel (d : doc) ty pre length, array_doc d t ty (pre ++ rest) -> flat (d_items d) (pre ++ rest) -> 0 <= length -> (base.length rest <= fuel)%nat ->
  exists d' ty' ps', deleteLoop interpolate fuel (head rest) length d = (Ok (Z.max 0 (length - vlen (withItems (d_items d) rest))), d') /\ array_doc d' t ty' ps' /\
    shrunk d d' (pre ++ rest) ps' (vlen (withItems (d_items d) pre)) (Z.min length (vlen (withItems (d_items d) rest))).
Proof.
  induction rest as [|p rest IH]; intros fuel d ty pre length Ha Hfl Hi Hf; pose proof (vlen_prefix _ _ _ (tl_cells _ _ _ (ad_list _ _ _ _ Ha))) as [Hn1 Hn2].
  - exists d, ty, pre. rewrite app_nil_r in *. cbn [vlen withItems omap list_omap]. rewrite Z.min_r by lia. split_and!; [cbn [head]; destruct fuel; cbn; unfold rret; do 2 f_equal; lia|done|by apply shrunk_refl].
  - destruct fuel as [|fuel]; [cbn in Hf; lia|]. cbn [head]. destruct (decide (0 < length)) as [Hpos|Hz].
    2:{ assert (length = 0) as -> by lia. exists d, ty, (pre ++ p :: rest). rewrite Z.min_l, Z.max_l by lia. split_and!; [done|done|by apply shrunk_refl]. }
    pose proof (tl_linked _ _ _ (ad_list _ _ _ _ Ha)) as Hl. apply linked_lseg, lseg_app in Hl as [_ (it & Eit & _ & Eright & _)]. assert (Er : i_right it = head rest) by (rewrite Eright; by destruct rest).
    pose proof (tl_cells _ _ _ (ad_list _ _ _ _ Ha)) as Hc. rewrite withItems_app, (withItems_cons _ p it rest Eit) in Hc. apply list.Forall_app in Hc as [Hc1 Hc2]. apply list.Forall_cons in Hc2 as [_ Hc2]. pose proof (vlen_nonneg _ Hc2) as Hnr.
    rewrite (deleteLoop_step d fuel p it length Eit Hpos). rewrite (withItems_cons _ p it rest Eit). cbn [vlen]. destruct (i_deleted it) eqn:Edel.
    + assert (Hdead : live it = false) by (unfold live; by rewrite Edel). rewrite Hdead, Er, Z.add_0_l. destruct (IH fuel d ty (pre ++ [p]) length) as (d' & ty' & ps' & H1 & H2 & H3); [by rewrite <- app_assoc|by rewrite <- app_assoc|done|cbn in Hf; lia|]. exists d', ty', ps'. rewrite <- app_assoc in H3.
      rewrite withItems_app, vlen_app, (withItems_cons _ p it [] Eit) in H3. cbn [vlen withItems omap list_omap] in H3. rewrite Hdead, !Z.add_0_r in H3. by split_and!.
    + destruct (ad_items _ _ _ _ Ha p it ltac:(set_solver) Eit) as [Hcount Hkind]. assert (Hlive : live it = true) by (unfold live; rewrite Edel, Hcount; destruct (i_content it); try done; congruence). rewrite Hlive.
      destruct (Z.ltb_spec length (i_length it)) as [Hlt|Hge].
      * destruct (array_cut interpolate Hinterp d t ty pre p rest it length Ha Eit Hlive ltac:(lia)) as (d1 & ty1 & r & E1 & Hcut). pose proof Hcut as [C1 _ C3 (pi & Epi & Elen & Hlp & Epr) _ _ C7].
        destruct (delete_buries d1 t ty1 pre p (r :: rest) pi C1 Epi Hlp) as (d2 & ty2 & E2 & Hb); [by apply (C7 p pi ltac:(set_solver) Epi)|]. exists d2, ty2, (pre ++ p :: r :: rest). rewrite Z.min_l, Z.max_l by lia. split_and!.
        -- unfold rbind at 1. unfold rbind at 1. rewrite E1. unfold rret at 1. unfold rbind at 1. rewrite E2. unfold rbind at 1. rewrite (getItem_eq _ _ _ (bu_item _ _ _ _ _ _ _ _ Hb)). cbn [markDeleted with_flags i_right i_length]. rewrite Elen, Epr, Z.sub_diag. by destruct fuel.
        -- apply Hb.
        -- eapply relisted_shrunk; [by eapply cut_relisted|]. rewrite <- (vlen_sub _ _ _ pre C3) by set_solver. rewrite <- Elen. by eapply buried_shrunk.
      * destruct (delete_buries d t ty pre p rest it Ha Eit Hlive) as (d1 & ty1 & E1 & Hb); [by apply (Hfl p it ltac:(set_solver) Eit)|]. pose proof (buried_cells _ _ _ _ _ _ _ _ _ Ha Hb) as Hs.
        destruct (IH fuel d1 ty1 (pre ++ [p]) (length - i_length it)) as (d2 & ty2 & ps' & H1 & H2 & H3); [rewrite <- app_assoc; apply Hb|rewrite <- app_assoc; by eapply buried_flat|lia|cbn in Hf; lia|].
        rewrite <- app_assoc in H3. rewrite withItems_app, vlen_app, (withItems_cons _ p _ [] (bu_item _ _ _ _ _ _ _ _ Hb)), (Hs pre), (Hs rest) in H3 by set_solver. cbn [vlen withItems omap list_omap] in H3. change (live (markDeleted it)) with false in H3. cbn match in H3. rewrite !Z.add_0_r in H3. rewrite (Hs rest) in H1 by set_solver.
        exists d2, ty2, ps'. split_and!.
        -- unfold rbind at 1, rret at 1. unfold rbind at 1. rewrite E1. unfold rbind at 1. rewrite (getItem_eq _ _ _ (bu_item _ _ _ _ _ _ _ _ Hb)). cbn [markDeleted with_flags i_right i_length]. rewrite Er, H1. do 3 f_equal. lia.
        -- done.
        -- replace (Z.min length (i_length it + vlen (withItems (d_items d) rest))) with (i_length it + Z.min (length - i_length it) (vlen (withItems (d_items d) rest))) by lia. eapply shrunk_trans; [done| |lia| |by eapply buried_shrunk|exact H3].
           ++ pose proof (tl_cells _ _ _ (ad_list _ _ _ _ Ha)) as Hc. rewrite withItems_app, (withItems_cons _ p it rest Eit) in Hc. apply list.Forall_app in Hc as [_ Hc]. apply list.Forall_cons in Hc as [[Hp0 _] _]. cbn in Hp0. lia.
           ++ unfold listValues. rewrite (values_length _ (tl_cells _ _ _ (ad_list _ _ _ _ Ha))), withItems_app, vlen_app. lia.
Qed.

Lemma shrunk_markers (d d' : doc) ps ps' index n m : 0 < n -> shrunk d d' ps ps' index n -> markers_ok (d_items d) ps m ->
  exists m', markersChanged index (- n) (d', Some m) = (Ok tt, (d', Some m')) /\ markers_ok (d_items d') ps' m'.
Proof.
  intros Hn [_ Hmv] Hm. destruct m as [st|]; [|by exists None]. unfold markersChanged. cbn [fst snd]. unfold updateMarkerChanges. destruct (Z.ltb_spec 0 (- n)); [lia|]. cbn [andb].
  assert (Hloop : forall l marked, Forall (marker_ok (d_items d) ps) l -> exists l' marked', updateLoop (d_items d') index (- n) l marked = Ok (l', marked') /\ Forall (marker_ok (d_items d') ps') l').
  { intros l marked Hl. induction Hl as [|x l Hx _ (l' & marked' & E & Hl')]; cbn [updateLoop]; [by eexists _, _|]. rewrite E. unfold updateMarker. destruct (Z.ltb_spec 0 (- n)); [lia|]. eexists _, _. split; [reflexivity|]. constructor; [|done].
    replace (adjustIndex index (- n) (m_index x)) with (withoutRange index n (m_index x)); [by apply Hmv|]. unfold adjustIndex, withoutRange. destruct (Z.ltb_spec index (m_index x)); cbn [orb]; [lia|]. destruct (Z.ltb_spec 0 (- n)); [lia|]. cbn [andb]. lia. }
  destruct (Hloop (sm_list st) (sm_marked st) Hm) as (l' & marked' & -> & Hl'). eexists (Some _). split; [reflexivity|done].
Qed.

Section Delete.
Context (position : nat -> Z -> @listM V (option (nat * Z))) {HL : ListLookup position}.

Lemma delete_spec (d : doc) t ty ps m index length : array_doc d t ty ps -> flat (d_items d) ps -> markers_ok (d_items d) ps m -> t_itemCount ty < 2 ^ 63 -> 0 <= index -> 0 < length ->
  exists d' m' ty' ps', typeListDelete interpolate position t index length (d, Some m) = (if t_length ty <? index + length then Err ErrLengthExceeded else Ok tt, (d', Some m')) /\ array_doc d' t ty' ps' /\
    listValues (d_items d') ps' = take (Z.to_nat index) (listValues (d_items d) ps) ++ drop (Z.to_nat (index + length)) (listValues (d_items d) ps) /\ (index + length <= t_length ty -> markers_ok (d_items d') ps' m').
Proof.
  intros Ha Hfl Hm Hcount Hi Hpos. pose proof (ad_list _ _ _ _ Ha) as Htl. pose proof (tl_length _ _ _ Htl) as Hlen. pose proof (values_length _ (tl_cells _ _ _ Htl)) as Hvl. fold (listValues (d_items d) ps) in Hvl. unfold typeListDelete. destruct (Z.eqb_spec length 0); [lia|].
  unfold rbind at 1, onDoc at 1. cbn [fst snd]. rewrite (getType_eq _ _ _ (ad_type _ _ _ _ Ha)). destruct (lookup_right d t ty ps m index (ad_type _ _ _ _ Ha) Htl (ad_count _ _ _ _ Ha) Hcount Hm Hi) as (r & m1 & Epos & Hm1 & Hr). unfold rbind at 1. rewrite Epos.
  set (start := match r with Some (p, s) => (Some p, index - s) | None => (t_start ty, index) end).
  assert (Hstart : exists pre rest k, start = (head rest, k) /\ ps = pre ++ rest /\ 0 <= k /\ vlen (withItems (d_items d) pre) + k = index).
  { unfold start. destruct r as [[p s]|]; [destruct (Hr p s eq_refl) as (pre & post & -> & -> & ?); exists pre, (p :: post), (index - vlen (withItems (d_items d) pre)); split_and!; [done|done|lia|lia]|]. exists [], ps, index. rewrite (tl_start _ _ _ Htl). split_and!; [done|done|lia|cbn; lia]. }
  destruct Hstart as (pre & rest & k & -> & -> & Hk & Ek). cbn [fst snd]. pose proof (linked_size _ _ _ (tl_linked _ _ _ Htl)) as Hsz. rewrite length_app in Hsz. unfold rbind at 1, onDoc at 1, get. cbn [fst snd]. rewrite withItems_app, vlen_app in Hlen, Hvl.
  unfold rbind at 1, onDoc at 1. cbn [fst snd]. destruct (deleteStart_spec t rest (size (d_items d)) d ty pre k Ha Hfl Hk ltac:(lia)) as [[Hout ->]|(d1 & ty1 & ps1 & ps2 & -> & Ha1 & Hr1 & Hfl1 & Hv1)].
  - exists d, m1, ty, (pre ++ rest). unfold rbind at 1, onDoc at 1. cbn [fst snd]. unfold rbind, onDoc. cbn [fst snd]. assert (Eloop : deleteLoop interpolate (size (d_items d)) None length d = (Ok length, d)) by (by destruct (size (d_items d))). rewrite Eloop. destruct (Z.ltb_spec 0 length); [|lia]. destruct (Z.ltb_spec (t_length ty) (index + length)); [|lia].
    split_and!; [done|done| |lia]. rewrite take_ge, drop_ge by lia. by rewrite app_nil_r.
  - unfold rbind at 1, onDoc at 1. cbn [fst snd]. pose proof (linked_size _ _ _ (tl_linked _ _ _ (ad_list _ _ _ _ Ha1))) as Hsz1. rewrite length_app in Hsz1.
    destruct (deleteLoop_spec t ps2 (size (d_items d1)) d1 ty1 ps1 length Ha1 Hfl1 ltac:(lia) ltac:(lia)) as (d2 & ty2 & ps' & E2 & Ha2 & Hs2). unfold rbind, onDoc. cbn [fst snd]. rewrite E2. rewrite Hv1, Ek in Hs2.
    assert (Ev2 : vlen (withItems (d_items d1) ps2) = t_length ty - index). { pose proof (values_length _ (tl_cells _ _ _ (ad_list _ _ _ _ Ha1))) as Hvl1. pose proof (rl_values _ _ _ _ Hr1) as Ev. unfold listValues in Ev. rewrite Ev in Hvl1. unfold listValues in Hvl. rewrite (withItems_app (d_items d1)), vlen_app in Hvl1. lia. }
    rewrite Ev2 in *. pose proof (relisted_shrunk _ _ _ _ _ _ _ _ Hr1 Hs2) as Hs. destruct (Z.ltb_spec (t_length ty) (index + length)) as [Hover|Hin].
    + exists d2, m1, ty2, ps'. destruct (Z.ltb_spec 0 (Z.max 0 (length - (t_length ty - index)))); [|lia]. split_and!; [done|done| |lia]. rewrite (sk_values _ _ _ _ _ _ Hs). f_equal. rewrite !drop_ge by lia. done.
    + rewrite Z.min_l in Hs by lia. replace (Z.max 0 (length - (t_length ty - index))) with 0 by lia. cbn [Z.ltb Z.compare]. rewrite Z.add_0_r. destruct (shrunk_markers d d2 (pre ++ rest) ps' index length m1 Hpos Hs Hm1) as (m' & -> & Hm'). exists d2, m', ty2, ps'. split_and!; [done|done|apply Hs|done].
Qed.
End Delete.
End Theory.

(** ** Properties *)


