(* ===== verification/MapType.v ===== *)
(** * Map types

    Models the operations of map types (crdt/abstract.go: [typeMapSet],
    [typeMapGet], [typeMapGetAll], [typeMapHas], [typeMapDelete]), the three
    integrations that skip the conflict scan for a map key (crdt/item.go:
    [integrateNewMapKey], [integrateNewPrimitiveMapKey],
    [integratePrimitiveMapOverwrite]) and the entry points of [YMap]
    (crdt/y_map.go: [Set], [setFreshPrimitive], [Delete], [GetSize], [Keys],
    [Values]) on the heap of Item.v.

    The read caches of [YMap] are not part of the state. Go iterates over a map
    in no fixed order; the readers of all keys follow [map_to_list]. *)
From stdpp Require Import gmap sets list.
From Stdlib Require Import ZArith Lia.
From S2P Require Import Prelude Lib0 StructStore Text DeleteSet Object Content Item ItemList ItemSplit TypeRead TypeList.
Open Scope Z_scope.
Open Scope go_scope.

Section Map.
Context {V : Type} (interpolate : Z -> Z -> Z -> Z).
(** The client of the document, and the nil interface as a value. *)
Context (own : Z) (nil : V).
Abbreviation item := (itemStruct V).
Abbreviation doc := (docState V).
Abbreviation M := (@Item.M V).

(** ** Integration without a scan *)

(** [appendClientStruct], which for a client with structs is [appendValue]. *)
Definition appendStructM (p : nat) : M unit :=
  it <-- getItem p;;; modify (fun d => set_store (appendClientStruct (d_store d) (Client (i_id it)) (RItem p)) d).

(** [parentMap[item.parentSub] = item]. *)
Definition enterKey (t : nat) (key : gostring) (p : nat) : M unit := setType t (fun ty => with_map (<[key := p]> (t_map ty)) ty).

(** An item under a deleted parent is deleted at once. *)
Definition deleteUnderDeleted (p t : nat) : M unit :=
  ty <-- getType t;;;
  parentDeleted <-- (match t_item ty with Some q => qi <-- getItem q;;; rret (i_deleted qi) | None => rret false end);;;
  if (parentDeleted : bool) then delete p else rret tt.

Definition integrateNewMapKey (p t : nat) : M unit :=
  it <-- getItem p;;;
  _ <-- enterKey t (i_parentSub it) p;;;
  _ <-- setType t (adjustYMapSize 1);;;
  _ <-- appendStructM p;;;
  _ <-- integrateContent p;;;
  _ <-- addChangedType t (i_parentSub it);;;
  deleteUnderDeleted p t.

Definition integrateNewPrimitiveMapKey (p t : nat) : M unit :=
  it <-- getItem p;;;
  _ <-- enterKey t (i_parentSub it) p;;;
  _ <-- setType t (adjustYMapSize 1);;;
  _ <-- appendStructM p;;;
  _ <-- addChangedType t (i_parentSub it);;;
  deleteUnderDeleted p t.

Definition integratePrimitiveMapOverwrite (p t : nat) : M unit :=
  it <-- getItem p;;;
  l <-- deref (i_left it);;;
  _ <-- setItem l (with_right (Some p));;;
  _ <-- enterKey t (i_parentSub it) p;;;
  li <-- getItem l;;;
  _ <-- (if i_deleted li then setType t (adjustYMapSize 1) else rret tt);;;
  _ <-- delete l;;;
  _ <-- appendStructM p;;;
  _ <-- addChangedType t (i_parentSub it);;;
  deleteUnderDeleted p t.

(** ** Writing *)

(** A new item of the own client for a key; [left] is the current one. *)
Definition newMapItem (t : nat) (key : gostring) (left : option nat) (content : docContent V) : M nat :=
  clock <-- getStateM own;;;
  origin <-- getItemLastID left;;;
  alloc (newItemWithLength (GenID own clock) left origin None None (ParentType t) key content 1).

Definition setFreshPrimitiveKnown (t : nat) (key : gostring) (v : V) : M unit :=
  p <-- newMapItem t key None (contentAny [v]);;;
  _ <-- enterKey t key p;;;
  _ <-- setType t (adjustYMapSize 1);;;
  _ <-- appendStructM p;;;
  _ <-- addChangedType t key;;;
  deleteUnderDeleted p t.

(** What [value == nil || isAnyEncodable(value)] lets through. *)
Definition primitiveValue (value : option (insertable V)) : option V := match value with None => Some nil | Some c => isAnyEncodable c end.

Definition typeMapSet (t : nat) (key : gostring) (value : option (insertable V)) : M unit :=
  ty <-- getType t;;;
  let left := t_map ty !! key in
  match primitiveValue value with
  | Some v =>
      match left with
      | None =>
          if t_isMap ty then setFreshPrimitiveKnown t key v
          else p <-- newMapItem t key None (contentAny [v]);;; integrateNewPrimitiveMapKey p t
      | Some l =>
          p <-- newMapItem t key left (contentAny [v]);;;
          li <-- getItem l;;;
          if bool_decide (i_right li = None) then integratePrimitiveMapOverwrite p t else integrateWithScratch interpolate p 0
      end
  | None =>
      match value ≫= ownContent with
      | Some content =>
          p <-- newMapItem t key left content;;;
          if bool_decide (left = None) then integrateNewMapKey p t else integrateWithScratch interpolate p 0
      | None => rfail ErrUnexpectedContent
      end
  end.

Definition typeMapDelete (t : nat) (key : gostring) : M unit :=
  ty <-- getType t;;; match t_map ty !! key with Some c => delete c | None => rret tt end.

(** [YMap.setFreshPrimitive] and [YMap.Set] of an integrated map. *)
Definition setFreshPrimitive (t : nat) (key : gostring) (value : option (insertable V)) : M bool :=
  ty <-- getType t;;;
  match t_map ty !! key, primitiveValue value with
  | None, Some v => _ <-- setFreshPrimitiveKnown t key v;;; rret true
  | _, _ => rret false
  end.

Definition YMapSet (t : nat) (key : gostring) (value : option (insertable V)) : M unit :=
  done <-- setFreshPrimitive t key value;;;
  if (done : bool) then rret tt else typeMapSet t key value.

(** ** Reading *)

(** [val.content.contentValues()[val.length-1]]. *)
Definition typeMapGet (h : gmap nat item) (ty : ytype) (key : gostring) : result (option (@element V)) :=
  match t_map ty !! key with
  | None => Ok None
  | Some p =>
      match h !! p with
      | None => Err ErrPanic
      | Some it => if i_deleted it then Ok None else match zlookup (contentValues (i_content it)) (i_length it - 1) with Some v => Ok (Some v) | None => Err ErrPanic end
      end
  end.

Definition entryLive (h : gmap nat item) (p : nat) : bool := match h !! p with Some it => negb (i_deleted it) | None => false end.

Definition typeMapHas (h : gmap nat item) (ty : ytype) (key : gostring) : bool := match t_map ty !! key with Some p => entryLive h p | None => false end.

Definition mapItemValue (it : item) : option (@element V) := list.last (contentValues (i_content it)).

(** [typeMapGetAll] and [YMap.Keys], [YMap.Values], [YMap.GetSize]. *)
Definition typeMapGetAll (h : gmap nat item) (ty : ytype) : list (gostring * option (@element V)) :=
  omap (fun e => it ← h !! e.2; if i_deleted it then None else Some (e.1, mapItemValue it)) (map_to_list (t_map ty)).
Definition Keys (h : gmap nat item) (ty : ytype) : list gostring := (filter (fun e => entryLive h e.2 = true) (map_to_list (t_map ty))).*1.
Definition Values (h : gmap nat item) (ty : ytype) : list (option (@element V)) := (typeMapGetAll h ty).*2.
Definition GetSize (ty : ytype) : Z := t_size ty.

(** [YMap.recountSize]. *)
Definition recountSize (h : gmap nat item) (ty : ytype) : Z := Z.of_nat (size (filter (fun e => entryLive h e.2 = true) (t_map ty))).
End Map.

(** ** What a deletion leaves alone *)
Create HintDb keeps.
Section Frame.
Context {V : Type}.
Abbreviation item := (itemStruct V).
Abbreviation doc := (docState V).
Abbreviation M := (@Item.M V).

(** Only marks of deletion, lengths, sizes and the log of the transaction change. *)
Record deletes (d d' : doc) : Prop := {
  dl_store : d_store d' = d_store d;
  dl_next : d_next d' = d_next d;
  dl_items : forall q, match d_items d !! q, d_items d' !! q with Some a, Some b => b = a \/ b = markDeleted a | None, None => True | _, _ => False end;
  dl_types : forall t, match d_types d !! t, d_types d' !! t with
                       | Some a, Some b => t_start b = t_start a /\ t_map b = t_map a /\ t_item b = t_item a /\ t_itemCount b = t_itemCount a /\ t_isMap b = t_isMap a /\ t_observed b = t_observed a
                       | None, None => True | _, _ => False end
}.

Lemma deletes_refl d : deletes d d.
Proof. split; [done|done|intros q; destruct (d_items d !! q); [by left|done]|intros t; by destruct (d_types d !! t)]. Qed.

Lemma deletes_trans d1 d2 d3 : deletes d1 d2 -> deletes d2 d3 -> deletes d1 d3.
Proof.
  intros [A1 A2 A3 A4] [B1 B2 B3 B4]. split; [congruence|congruence| |].
  - intros q. specialize (A3 q). specialize (B3 q). destruct (d_items d1 !! q) as [a|], (d_items d2 !! q) as [b|], (d_items d3 !! q) as [c|]; try done. destruct A3 as [->| ->], B3 as [->| ->]; auto.
  - intros t. specialize (A4 t). specialize (B4 t). destruct (d_types d1 !! t), (d_types d2 !! t), (d_types d3 !! t); try done. intuition congruence.
Qed.

Definition keeps {A} (m : M A) : Prop := forall d r d', m d = (r, d') -> deletes d d'.

Lemma keeps_pure {A} (m : M A) : (forall d, exists r, m d = (r, d)) -> keeps m.
Proof. intros Hm d r d' E. destruct (Hm d) as [r' Hr]. rewrite Hr in E. injection E as _ <-. apply deletes_refl. Qed.

Lemma deletes_bind {A B} (m : M A) (f : A -> M B) : keeps m -> (forall a, keeps (f a)) -> keeps (a <-- m;;; f a).
Proof.
  intros Hm Hf d r d' E. unfold rbind in E. destruct (m d) as [[a|e] d1] eqn:Em; [|injection E as _ <-; by eapply Hm]. eapply deletes_trans; [by eapply Hm|by eapply Hf].
Qed.

Lemma keeps_ret {A} (a : A) : keeps (rret a).
Proof. apply keeps_pure. by eexists. Qed.
Lemma keeps_fail {A} e : keeps (@rfail _ A e).
Proof. apply keeps_pure. by eexists. Qed.
Lemma keeps_get {A} (f : doc -> A) : keeps (get f).
Proof. apply keeps_pure. by eexists. Qed.
Lemma keeps_getItem p : keeps (@getItem V p).
Proof. apply keeps_pure. intros d. unfold getItem, deref. destruct (d_items d !! p); by eexists. Qed.
Lemma keeps_getType t : keeps (@getType V t).
Proof. apply keeps_pure. intros d. unfold getType, deref. destruct (d_types d !! t); by eexists. Qed.
Lemma keeps_getStateM c : keeps (@getStateM V c).
Proof. apply keeps_pure. intros d. unfold getStateM. by eexists. Qed.

Lemma keeps_trans f : keeps (@modifyTrans V f).
Proof. intros d r d' [= _ <-]. split; [done|done|intros q; cbn; destruct (d_items d !! q); [by left|done]|intros t; cbn; by destruct (d_types d !! t)]. Qed.

Lemma keeps_setType t f : (forall ty, t_start (f ty) = t_start ty /\ t_map (f ty) = t_map ty /\ t_item (f ty) = t_item ty /\ t_itemCount (f ty) = t_itemCount ty /\ t_isMap (f ty) = t_isMap ty /\ t_observed (f ty) = t_observed ty) -> keeps (@setType V t f).
Proof.
  intros Hf d r d' E. unfold setType, rbind, getType, deref in E. destruct (d_types d !! t) as [ty|] eqn:Et; [|injection E as _ <-; apply deletes_refl]. cbn in E. injection E as _ <-. split; [done|done|intros q; cbn; destruct (d_items d !! q); [by left|done]|].
  intros t'. cbn. destruct (decide (t = t')) as [<-|Hne]; [rewrite Et, lookup_insert_eq; apply Hf|]. rewrite lookup_insert_ne by done. by destruct (d_types d !! t').
Qed.

Lemma keeps_mark p : keeps (@setItem V p markDeleted).
Proof.
  intros d r d' E. unfold setItem, rbind, getItem, deref in E. destruct (d_items d !! p) as [it|] eqn:Ei; [|injection E as _ <-; apply deletes_refl]. cbn in E. injection E as _ <-. split; [done|done| |intros t; cbn; by destruct (d_types d !! t)].
  intros q. cbn. destruct (decide (p = q)) as [<-|Hne]; [rewrite Ei, lookup_insert_eq; by right|]. rewrite lookup_insert_ne by done. destruct (d_items d !! q); [by left|done].
Qed.

#[local] Hint Resolve keeps_ret keeps_fail keeps_get keeps_getItem keeps_getType keeps_getStateM keeps_trans keeps_mark : keeps.
Ltac keeps_step := apply deletes_bind; [|intros ?].

Lemma keeps_beforeClock c : keeps (@beforeClock V c).
Proof. unfold beforeClock. keeps_step; [eauto with keeps|]. destruct (tr_beforeState _); [eauto with keeps|]. destruct (tr_compact _) as [[o k]|]; [destruct (c =? o)|]; eauto with keeps. Qed.
#[local] Hint Resolve keeps_beforeClock : keeps.

Lemma keeps_addChangedType t sub : keeps (@addChangedType V t sub).
Proof.
  unfold addChangedType, recordChangedType. keeps_step; [eauto with keeps|]. keeps_step.
  - destruct (t_item _); [|eauto with keeps]. keeps_step; [eauto with keeps|]. keeps_step; eauto with keeps.
  - keeps_step; [eauto with keeps|]. destruct (_ && _); eauto with keeps.
Qed.
#[local] Hint Resolve keeps_addChangedType : keeps.

Lemma keeps_forEach {A} (f : A -> M unit) l : (forall a, keeps (f a)) -> keeps (forEach f l).
Proof. intros Hf. induction l as [|a l IH]; cbn [forEach]; [eauto with keeps|]. by apply deletes_bind. Qed.

Lemma keeps_forEachRight n (f : nat -> M unit) : (forall p, keeps (f p)) -> forall o, keeps (forEachRight n f o).
Proof. intros Hf. induction n as [|n IH]; intros [p|]; cbn [forEachRight]; eauto with keeps. apply deletes_bind; [done|]. intros _. apply deletes_bind; [eauto with keeps|]. intros it. apply IH. Qed.

Lemma keeps_deleteChild (del : nat -> M unit) p : (forall q, keeps (del q)) -> keeps (deleteChild del p).
Proof. intros Hd. unfold deleteChild, addMergeStruct. keeps_step; [eauto with keeps|]. destruct (negb _); [done|]. keeps_step; [eauto with keeps|]. destruct (_ <? _); eauto with keeps. Qed.

Lemma keeps_deleteContent (del : nat -> M unit) c : (forall q, keeps (del q)) -> keeps (deleteContent del c).
Proof.
  intros Hd. destruct c as [| | |[dd b]| | | | |t]; cbn [deleteContent]; eauto with keeps. keeps_step; [eauto with keeps|]. keeps_step; [eauto with keeps|]. keeps_step; [apply keeps_forEachRight; intros p; by apply keeps_deleteChild|].
  keeps_step; [eauto with keeps|]. keeps_step; [apply keeps_forEach; intros p; by apply keeps_deleteChild|]. unfold deleteChangedType. eauto with keeps.
Qed.

Lemma keeps_deleteItemStruct fuel : forall p, keeps (@deleteItemStruct V fuel p).
Proof.
  induction fuel as [|fuel IH]; intros p; cbn [deleteItemStruct]; [eauto with keeps|]. keeps_step; [eauto with keeps|]. destruct (i_deleted _); [eauto with keeps|].
  keeps_step; [unfold parentType; destruct (i_parent _); unfold panic; eauto with keeps|]. keeps_step; [eauto with keeps|]. keeps_step.
  - destruct (_ && _); [by apply keeps_setType|]. destruct (_ && _); [by apply keeps_setType|]. eauto with keeps.
  - keeps_step; [eauto with keeps|]. keeps_step; [unfold addToDeleteSetT; eauto with keeps|]. keeps_step; [eauto with keeps|]. by apply keeps_deleteContent.
Qed.

Lemma delete_keeps p (d : doc) r d' : Item.delete p d = (r, d') -> deletes d d'.
Proof. unfold Item.delete. intros E. eapply (deletes_bind (get (fun d => size (d_items d)))); [apply keeps_get| |exact E]. intros n. apply keeps_deleteItemStruct. Qed.
End Frame.

(** ** The short integrations are the integration *)
Section Agree.
Context {V : Type} (interpolate : Z -> Z -> Z -> Z).
Abbreviation item := (itemStruct V).
Abbreviation doc := (docState V).

(** A new item for a map key: behind the current item of the key, or alone. *)
Record map_slot (d : doc) (t : nat) (ty : ytype) (p : nat) (it : item) (key : gostring) : Prop := {
  ms_item : d_items d !! p = Some it;
  ms_parent : i_parent it = ParentType t;
  ms_sub : i_parentSub it = key;
  ms_key : key <> [];
  ms_type : d_types d !! t = Some ty;
  ms_left : i_left it = t_map ty !! key;
  ms_right : i_right it = None;
  ms_next : exists st', @addStruct _ (refStruct (d_items d)) (d_store d) (RItem p) = Ok st'
}.

Lemma addStruct_append {A} `{AbstractStruct A} (st st' : structStore A) s : addStruct st s = Ok st' -> st' = appendClientStruct st (Client (getID s)) s.
Proof. unfold addStruct, appendClientStruct. destruct (clientStructs st (Client (getID s))) as [ss|]; [|by intros [= <-]]. destruct (list.last ss); [|done]. destruct (negb _); [done|by intros [= <-]]. Qed.

Lemma append_agrees (d : doc) p it st' : d_items d !! p = Some it -> @addStruct _ (refStruct (d_items d)) (d_store d) (RItem p) = Ok st' -> appendStructM p d = addStructM (RItem p) d.
Proof.
  intros Ep Ha. unfold appendStructM, addStructM, rbind. rewrite (getItem_eq _ _ _ Ep). rewrite Ha. rewrite (@addStruct_append _ (refStruct (d_items d)) _ _ _ Ha). cbn. by rewrite Ep.
Qed.

Lemma step_ext {S A B} (m m' : step S A) (f g : A -> step S B) s : m s = m' s -> (forall a s1, m' s = (Ok a, s1) -> f a s1 = g a s1) -> rbind m f s = rbind m' g s.
Proof. intros E Hf. unfold rbind. rewrite E. destruct (m' s) as [[a|e] s1] eqn:Em; [|done]. by apply Hf. Qed.

(** What follows the linking, for a map item. *)
Definition settle (p t : nat) (key : gostring) : @Item.M V unit :=
  _ <-- appendStructM p;;; _ <-- integrateContent p;;; _ <-- addChangedType t key;;; deleteUnderDeleted p t.

Lemma register_map (d : doc) p t it st' : d_items d !! p = Some it -> i_parentSub it <> [] -> i_right it = None -> @addStruct _ (refStruct (d_items d)) (d_store d) (RItem p) = Ok st' ->
  registerItem p t d = settle p t (i_parentSub it) d.
Proof.
  intros Ep Hs Hr Ha. unfold registerItem, settle. unfold rbind at 1. rewrite (getItem_eq _ _ _ Ep). rewrite !(bool_decide_eq_false_2 (i_parentSub it = [])) by done. cbn [andb]. unfold rbind at 1, rret at 1. unfold rbind at 1, rret at 1.
  apply step_ext; [by rewrite (append_agrees d p it st' Ep Ha)|]. intros _ d1 _. apply step_ext; [done|]. intros _ d2 _. apply step_ext; [done|]. intros _ d3 _. unfold deleteUnderDeleted. apply step_ext; [done|]. intros ty d4 _. apply step_ext; [done|]. intros b d5 _.
  rewrite (bool_decide_eq_false_2 (i_right it <> None)) by (intros Hn; by apply Hn). by rewrite andb_false_r, orb_false_r.
Qed.

(** The rest of the integration, of a fresh key and behind the item [l]. *)
Definition freshForm (p t : nat) (key : gostring) : @Item.M V unit := _ <-- enterKey t key p;;; _ <-- setType t (adjustYMapSize 1);;; settle p t key.
Definition overwriteForm (p l t : nat) (li : item) (key : gostring) : @Item.M V unit :=
  _ <-- setItem l (with_right (Some p));;; _ <-- enterKey t key p;;; _ <-- (if i_deleted li then setType t (adjustYMapSize 1) else rret tt);;; _ <-- delete l;;; settle p t key.

(** A fresh key. *)
Lemma integrate_fresh (d : doc) t ty p it key : map_slot d t ty p it key -> t_map ty !! key = None ->
  integrateWithScratch interpolate p 0 d = freshForm p t key d.
Proof.
  unfold freshForm.
  intros [Ep Hpar Hsub Hkey Et Hl Hr [st' Hst]] Hm. rewrite Hm in Hl. unfold integrateWithScratch, shiftItem. cbn [Z.ltb Z.compare]. unfold rbind at 1, rret at 1. unfold rbind at 1. rewrite (getItem_eq _ _ _ Ep), Hpar. unfold rbind at 1, parentType. rewrite Hpar. unfold rret at 1.
  assert (Hfirst : firstItem t key d = (Ok None, d)).
  { unfold firstItem. unfold rbind at 1. rewrite (getType_eq _ _ _ Et), bool_decide_eq_true_2 by done. unfold rbind, get. rewrite Hm, Nat.add_1_r. done. }
  assert (Hid : forall f : item -> item, f it = it -> setItem p f d = (Ok tt, d)) by (intros f Hf; rewrite (setItem_eq _ _ _ _ Ep), Hf, insert_id by done; by destruct d).
  assert (Hres : resolveLeft interpolate p t d = (Ok tt, d)).
  { unfold resolveLeft. unfold rbind at 1. rewrite (getItem_eq _ _ _ Ep), Hl, Hr. unfold rbind at 1, rret at 1. unfold rbind at 1. rewrite Hsub, Hfirst. unfold rbind at 1, get. rewrite Nat.add_1_r. unfold rbind at 1. cbn [conflictScan]. unfold rret at 1. apply Hid. destruct it; cbn in *; by subst. }
  unfold rbind at 1. rewrite Hres. unfold linkItem. unfold rbind at 1, rbind at 1. rewrite (getItem_eq _ _ _ Ep), Hl. unfold rbind at 1, rbind at 1. rewrite Hsub, Hfirst. rewrite (bool_decide_eq_false_2 (key = [])) by done. unfold rbind at 1, rret at 1. rewrite Hid by (destruct it; cbn in *; by subst).
  unfold rbind at 1. rewrite (getItem_eq _ _ _ Ep), Hr. rewrite bool_decide_eq_true_2 by by rewrite Hsub. unfold rbind at 1. rewrite (getType_eq _ _ _ Et), Hsub, Hm. unfold enterKey. unfold rbind at 1. rewrite (setType_eq _ _ _ _ Et). set (d1 := set_types _ d). unfold rbind at 1.
  pose (ty1 := with_map (<[key := p]> (t_map ty)) ty). assert (Et1 : d_types d1 !! t = Some ty1) by apply lookup_insert_eq. rewrite (setType_eq _ _ _ _ Et1). set (d2 := set_types _ d1). rewrite Hl. unfold rret at 1. rewrite (register_map d2 p t it st') by (done || congruence). rewrite Hsub.
  unfold rbind at 1. rewrite (setType_eq _ _ _ _ Et). fold d1. unfold rbind at 1. rewrite (setType_eq _ _ _ _ Et1). done.
Qed.

(** The current item of the key is the last of its chain. *)
Lemma integrate_overwrite (d : doc) t ty p it key l li : map_slot d t ty p it key -> t_map ty !! key = Some l -> d_items d !! l = Some li -> l <> p -> i_right li = None ->
  integrateWithScratch interpolate p 0 d = overwriteForm p l t li key d.
Proof.
  unfold overwriteForm.
  intros [Ep Hpar Hsub Hkey Et Hl Hr [st' Hst]] Hm El Hne Hlr. rewrite Hm in Hl. unfold integrateWithScratch, shiftItem. cbn [Z.ltb Z.compare]. unfold rbind at 1, rret at 1. unfold rbind at 1. rewrite (getItem_eq _ _ _ Ep), Hpar. unfold rbind at 1, parentType. rewrite Hpar. unfold rret at 1.
  assert (Hid : setItem p (with_right (i_right li)) d = (Ok tt, d)) by (rewrite (setItem_eq _ _ _ _ Ep); assert (with_right (i_right li) it = it) as -> by (rewrite Hlr; destruct it; cbn in *; by subst); rewrite insert_id by done; by destruct d).
  assert (Hres : resolveLeft interpolate p t d = (Ok tt, d)) by (unfold resolveLeft; unfold rbind at 1; rewrite (getItem_eq _ _ _ Ep), Hl; unfold rbind at 1, rbind at 1; rewrite (getItem_eq _ _ _ El); unfold rret at 1; rewrite bool_decide_eq_false_2; [done|]; intros Hn; apply Hn; by rewrite Hr).
  unfold rbind at 1. rewrite Hres. unfold linkItem. unfold rbind at 1, rbind at 1. rewrite (getItem_eq _ _ _ Ep), Hl. unfold rbind at 1, rbind at 1. rewrite (getItem_eq _ _ _ El). unfold rbind at 1. rewrite Hid. rewrite (setItem_eq _ _ _ _ El). set (d1 := set_items _ d).
  assert (Ep1 : d_items d1 !! p = Some it) by (cbn; by rewrite lookup_insert_ne). assert (El1 : d_items d1 !! l = Some (with_right (Some p) li)) by apply lookup_insert_eq. assert (Et1 : d_types d1 !! t = Some ty) by done.
  unfold rbind at 1. rewrite (getItem_eq _ _ _ Ep1), Hr. rewrite bool_decide_eq_true_2 by by rewrite Hsub. unfold rbind at 1. rewrite (getType_eq _ _ _ Et1), Hsub, Hm. unfold rbind at 1. rewrite (setType_eq _ _ _ _ Et1). set (d2 := set_types _ d1).
  assert (Ep2 : d_items d2 !! p = Some it) by done. assert (El2 : d_items d2 !! l = Some (with_right (Some p) li)) by done. unfold rbind at 1, rbind at 1. rewrite (getItem_eq _ _ _ El2), Hl. change (i_deleted (with_right (Some p) li)) with (i_deleted li).
  assert (HR : forall K : @Item.M V unit, (_ <-- setItem l (with_right (Some p));;; _ <-- enterKey t key p;;; K) d = K d2) by (intros K; unfold rbind at 1; rewrite (setItem_eq _ _ _ _ El); fold d1; unfold rbind, enterKey; by rewrite (setType_eq _ _ _ _ Et1)). etransitivity; [|symmetry; apply HR].
  assert (Htail : forall d3, deletes d2 d3 -> (_ <-- delete l;;; registerItem p t) d3 = (_ <-- delete l;;; settle p t key) d3).
  { intros d3 Hgrow. apply step_ext; [done|]. intros u d4 Ed. pose proof (deletes_trans _ _ _ Hgrow (delete_keeps _ _ _ _ Ed)) as Hdel. pose proof (dl_items _ _ Hdel p) as Hp4. rewrite Ep2 in Hp4. destruct (d_items d4 !! p) as [it4|] eqn:Ep4; [|done].
    assert (Hsub4 : i_parentSub it4 = key) by (destruct Hp4 as [->| ->]; done). rewrite <- Hsub4. apply (register_map d4 p t it4 st'); [done|congruence|destruct Hp4 as [->| ->]; done|]. rewrite (dl_store _ _ Hdel). cbn [d_store d2 d1 set_types set_items]. rewrite <- Hst. symmetry. apply addStruct_body.
    intros q. pose proof (dl_items _ _ Hdel q) as Hq. cbn [d_items d2 d1 set_types set_items] in Hq. destruct (decide (q = l)) as [->|Hql]; [rewrite lookup_insert_eq in Hq; rewrite El; destruct (d_items d4 !! l); [|done]; by destruct Hq as [->| ->]|]. rewrite lookup_insert_ne in Hq by done. destruct (d_items d !! q), (d_items d4 !! q); try done. by destruct Hq as [->| ->]. }
  unfold rbind in *. destruct (i_deleted li).
  - assert (Et2 : d_types d2 !! t = Some (with_map (<[key := p]> (t_map ty)) ty)) by apply lookup_insert_eq. rewrite (setType_eq _ _ _ _ Et2). apply Htail. eapply (keeps_setType t (adjustYMapSize 1)); [done|]. apply (setType_eq _ _ _ _ Et2).
  - apply Htail. apply deletes_refl.
Qed.

(** Values have nothing to integrate. *)
Lemma settle_any (d : doc) p t it key arr : d_items d !! p = Some it -> i_content it = contentAny arr -> settle p t key d = (_ <-- appendStructM p;;; _ <-- addChangedType t key;;; deleteUnderDeleted p t) d.
Proof.
  intros Ep Ec. unfold settle. apply step_ext; [done|]. intros u d1 E1. assert (Ep1 : d_items d1 !! p = Some it) by (unfold appendStructM, rbind in E1; rewrite (getItem_eq _ _ _ Ep) in E1; by injection E1 as _ <-).
  unfold rbind at 1, integrateContent. unfold rbind at 1. rewrite (getItem_eq _ _ _ Ep1), Ec. done.
Qed.

Lemma freshForm_any (d : doc) p t ty it key arr : d_items d !! p = Some it -> i_content it = contentAny arr -> d_types d !! t = Some ty ->
  freshForm p t key d = (_ <-- enterKey t key p;;; _ <-- setType t (adjustYMapSize 1);;; _ <-- appendStructM p;;; _ <-- addChangedType t key;;; deleteUnderDeleted p t) d.
Proof.
  intros Ep Ec Et. unfold freshForm. apply step_ext; [done|]. intros u d1 E1. apply step_ext; [done|]. intros u2 d2 E2. eapply settle_any; [|exact Ec]. unfold enterKey in E1. rewrite (setType_eq _ _ _ _ Et) in E1. injection E1 as _ <-. erewrite setType_eq in E2 by apply lookup_insert_eq. by injection E2 as _ <-.
Qed.

Lemma newKey_form (d : doc) p t it key : d_items d !! p = Some it -> i_parentSub it = key -> integrateNewMapKey p t d = freshForm p t key d.
Proof. intros Ep <-. unfold integrateNewMapKey. unfold rbind at 1. by rewrite (getItem_eq _ _ _ Ep). Qed.

Lemma newPrimitive_form (d : doc) p t ty it key arr : d_items d !! p = Some it -> i_parentSub it = key -> i_content it = contentAny arr -> d_types d !! t = Some ty -> integrateNewPrimitiveMapKey p t d = freshForm p t key d.
Proof. intros Ep <- Ec Et. rewrite (freshForm_any d p t ty it _ arr Ep Ec Et). unfold integrateNewPrimitiveMapKey. unfold rbind at 1. by rewrite (getItem_eq _ _ _ Ep). Qed.

Lemma primitiveOverwrite_form (d : doc) p l t ty it li key arr : d_items d !! p = Some it -> d_items d !! l = Some li -> l <> p -> i_left it = Some l -> i_parentSub it = key -> i_content it = contentAny arr -> d_types d !! t = Some ty ->
  integratePrimitiveMapOverwrite p t d = overwriteForm p l t li key d.
Proof.
  intros Ep El Hne Hl <- Ec Et. unfold integratePrimitiveMapOverwrite, overwriteForm. unfold rbind at 1. rewrite (getItem_eq _ _ _ Ep), Hl. unfold rbind at 1, deref, rret at 1. unfold rbind at 1. rewrite (setItem_eq _ _ _ _ El). set (d1 := set_items _ d). symmetry. unfold rbind at 1. rewrite (setItem_eq _ _ _ _ El). fold d1. symmetry.
  apply step_ext; [done|]. intros u d2 E2. unfold enterKey in E2. assert (Et1 : d_types d1 !! t = Some ty) by done. rewrite (setType_eq _ _ _ _ Et1) in E2. injection E2 as <- <-. unfold rbind at 1. erewrite getItem_eq by apply lookup_insert_eq. change (i_deleted (with_right (Some p) li)) with (i_deleted li).
  apply step_ext; [done|]. intros u2 d3 E3. apply step_ext; [done|]. intros u3 d4 E4. set (d2 := set_types _ d1) in *. assert (H23 : deletes d2 d3) by (destruct (i_deleted li); [by eapply (keeps_setType t (adjustYMapSize 1))|by eapply (keeps_ret tt)]).
  pose proof (dl_items _ _ (deletes_trans _ _ _ H23 (delete_keeps _ _ _ _ E4)) p) as Hp. assert (Ep2 : d_items d2 !! p = Some it) by (cbn; by rewrite lookup_insert_ne). rewrite Ep2 in Hp. destruct (d_items d4 !! p) as [it4|] eqn:Ep4; [|done]. symmetry. eapply settle_any; [exact Ep4|]. by destruct Hp as [->| ->].
Qed.
End Agree.

(** ** What the operations do *)
Section Theory.
Context {V : Type} (interpolate : Z -> Z -> Z -> Z) (own : Z) (nil : V).
Context (Hinterp : forall clock span end_, 0 < span -> 0 <= clock <= span -> 0 <= end_ -> 0 <= interpolate clock span end_ <= end_).
Abbreviation item := (itemStruct V).
Abbreviation doc := (docState V).

(** The map of a well-formed document: the item of a key is the last of its
    chain, what is not deleted has its value, and the size counts those keys. *)
Record map_doc (d : doc) (t : nat) (ty : ytype) : Prop := {
  md_store : store_repr d;
  md_fresh : heap_fresh d;
  md_type : d_types d !! t = Some ty;
  md_entries : forall key p, t_map ty !! key = Some p -> key <> [] /\ exists it, d_items d !! p = Some it /\ i_parent it = ParentType t /\ i_parentSub it = key /\ i_right it = None /\
    (i_deleted it = false -> 0 < i_length it /\ Z.of_nat (length (contentValues (i_content it))) = i_length it);
  md_parent : forall q, t_item ty = Some q -> (exists qi, d_items d !! q = Some qi /\ i_deleted qi = false) /\ forall key, t_map ty !! key <> Some q;
  md_map : t_isMap ty = true;
  md_size : t_size ty = recountSize (d_items d) ty
}.

Lemma entry_key (d : doc) t ty k1 k2 p : map_doc d t ty -> t_map ty !! k1 = Some p -> t_map ty !! k2 = Some p -> k1 = k2.
Proof. intros Hd H1 H2. destruct (md_entries _ _ _ Hd _ _ H1) as (_ & i1 & E1 & _ & S1 & _). destruct (md_entries _ _ _ Hd _ _ H2) as (_ & i2 & E2 & _ & S2 & _). congruence. Qed.

Lemma no_empty (d : doc) : store_repr d -> no_empty_client d.
Proof. intros [(Hok & _) _] k ss Hk. by destruct (Hok k ss Hk). Qed.

(** Deleting an item of a map. *)
Lemma delete_entry (d : doc) t ty l li : d_items d !! l = Some li -> i_parent li = ParentType t -> i_parentSub li <> [] -> d_types d !! t = Some ty -> (forall t', i_content li <> contentType t') ->
  (forall q, t_item ty = Some q -> is_Some (d_items d !! q)) -> no_empty_client d ->
  exists d', delete l d = (Ok tt, d') /\ d_items d' = <[l := markDeleted li]> (d_items d) /\
    d_types d' = (if negb (i_deleted li) && bool_decide (t_map ty !! i_parentSub li = Some l) then <[t := adjustYMapSize (-1) ty]> (d_types d) else d_types d) /\ d_store d' = d_store d /\ d_next d' = d_next d.
Proof.
  intros El Hp Hs Et Hnt Hq Hne. unfold delete. unfold rbind at 1, get. rewrite Nat.add_1_r. cbn [deleteItemStruct]. unfold rbind at 1. rewrite (getItem_eq _ _ _ El). destruct (i_deleted li) eqn:Ed.
  { exists d. split_and!; [done| |done|done|done]. assert (markDeleted li = li) as -> by (destruct li; cbn in *; by subst). by rewrite insert_id. }
  unfold rbind at 1, parentType. rewrite Hp. unfold rret at 1. unfold rbind at 1. rewrite (getType_eq _ _ _ Et). rewrite (bool_decide_eq_false_2 (i_parentSub li = [])), andb_false_r by done. rewrite bool_decide_eq_true_2 by done. cbn [andb negb].
  assert (Htail : forall types1 ty1 n, types1 !! t = Some ty1 -> t_item ty1 = t_item ty -> exists d', (_ <-- setItem l markDeleted;;; _ <-- addToDeleteSetT (Client (i_id li)) (Clock (i_id li)) (i_length li);;; _ <-- addChangedType t (i_parentSub li);;; deleteContent (deleteItemStruct n) (i_content li)) (set_types types1 d) = (Ok tt, d') /\
    d_items d' = <[l := markDeleted li]> (d_items d) /\ d_types d' = types1 /\ d_store d' = d_store d /\ d_next d' = d_next d).
  { intros types1 ty1 n Et1 Eit. set (d1 := set_types types1 d). unfold rbind at 1. rewrite (setItem_eq d1 l li _ El). unfold rbind at 1, addToDeleteSetT, modifyTrans, modify. set (d2 := set_trans _ _).
    destruct (addChangedType_spec d2 t ty1 (i_parentSub li)) as (d3 & E3 & I3 & T3 & S3 & N3); [done|intros q Eq; cbn; apply lookup_insert_is_Some'; right; apply Hq; congruence|done|].
    unfold rbind at 1. rewrite E3. destruct (i_content li) as [| | |[dd ?]| | | | |t'] eqn:Ec; cbn [deleteContent]; try (eexists; split; [reflexivity|]; by rewrite I3, T3, S3, N3); [|by destruct (Hnt t')].
    eexists. split; [reflexivity|]. cbn. by rewrite I3, T3, S3, N3. }
  case_bool_decide.
  - destruct (Htail (<[t := adjustYMapSize (-1) ty]> (d_types d)) (adjustYMapSize (-1) ty) (size (d_items d)) (lookup_insert_eq _ _ _) eq_refl) as (d' & E & H'). exists d'. split; [|exact H']. unfold rbind at 1. rewrite (setType_eq _ _ _ _ Et). exact E.
  - destruct (Htail (d_types d) ty (size (d_items d)) Et eq_refl) as (d' & E & H'). exists d'. split; [|exact H']. replace (set_types (d_types d) d) with d in E by (by destruct d). exact E.
Qed.

(** The struct goes into the store, its content is integrated and the change logged. *)
Lemma settle_spec (d : doc) t ty p it st' key : d_items d !! p = Some it -> d_types d !! t = Some ty -> insert_content d t (i_content it) -> store_repr d -> 0 < i_length it ->
  @addStruct _ (refStruct (d_items d)) (d_store d) (RItem p) = Ok st' -> (forall q, t_item ty = Some q -> exists qi, d_items d !! q = Some qi /\ i_deleted qi = false) ->
  exists d', settle p t key d = (Ok tt, d') /\ d_items d' = d_items d /\ d_types d' !! t = Some ty /\ d_store d' = st' /\ d_next d' = d_next d /\ store_repr d'.
Proof.
  intros Ep Et (_ & _ & Hc) Hst Hlen Ha Hq. unfold settle. unfold rbind at 1. rewrite (append_agrees d p it st' Ep Ha). unfold addStructM. rewrite Ha. set (d1 := set_store st' d).
  assert (Hst1 : store_repr d1) by (eapply (store_repr_add d d1 p it st'); [done|apply same_bodies_refl|done|done|done|done]).
  destruct (integrateContent_spec interpolate Hinterp d1 p it t ty Ep Et) as (d2 & it2 & E2 & S2 & T2 & Hit & I2 & N2 & _); [intros t' Ec; by rewrite Ec in Hc|]. assert (it2 = it) as -> by (destruct Hit as [->|[_ [n En]]]; [done|]; by rewrite En in Hc). rewrite insert_id in I2 by done.
  unfold rbind at 1. rewrite E2. destruct (addChangedType_spec d2 t ty key T2) as (d3 & E3 & I3 & T3 & S3 & N3); [intros q Eq; rewrite I2; destruct (Hq q Eq) as (qi & ? & _); by exists qi|intros k ss Hk; rewrite S2 in Hk; by apply (no_empty d1 Hst1 k ss)|].
  unfold rbind at 1. rewrite E3. exists d3. unfold deleteUnderDeleted. unfold rbind at 1. assert (Et3 : d_types d3 !! t = Some ty) by (by rewrite T3). rewrite (getType_eq _ _ _ Et3). assert (Ei3 : d_items d3 = d_items d) by (by rewrite I3, I2). split_and!; [|done|done|by rewrite S3, S2|by rewrite N3, N2|].
  - destruct (t_item ty) as [q|]; [|done]. destruct (Hq q eq_refl) as (qi & Eq & Hd). unfold rbind at 1. unfold rbind at 1. rewrite <- Ei3 in Eq. rewrite (getItem_eq _ _ _ Eq). unfold rret at 1. by rewrite Hd.
  - destruct Hst1 as [H1 H2]. split; rewrite S3, S2, Ei3; [exact H1|exact H2].
Qed.

(** The state after a key has got a value. *)
Record map_set (d d' : doc) (t : nat) (ty ty' : ytype) (key : gostring) (e : @element V) : Prop := {
  se_doc : map_doc d' t ty';
  se_get : typeMapGet (d_items d') ty' key = Ok (Some e);
  se_other : forall k, k <> key -> typeMapGet (d_items d') ty' k = typeMapGet (d_items d) ty k
}.

Lemma map_set_intro (d d' : doc) t ty ty' key p it' e : map_doc d t ty -> key <> [] -> store_repr d' -> heap_fresh d' -> d_types d' !! t = Some ty' -> t_map ty' = <[key := p]> (t_map ty) -> t_item ty' = t_item ty -> t_isMap ty' = true ->
  t_size ty' = t_size ty + (if typeMapHas (d_items d) ty key then 0 else 1) -> d_items d !! p = None -> d_items d' !! p = Some it' -> i_parent it' = ParentType t -> i_parentSub it' = key -> i_right it' = None -> i_deleted it' = false -> i_length it' = 1 -> contentValues (i_content it') = [e] ->
  (forall k q, k <> key -> t_map ty !! k = Some q -> d_items d' !! q = d_items d !! q) -> (forall q, t_item ty = Some q -> d_items d' !! q = d_items d !! q) -> map_set d d' t ty ty' key e.
Proof.
  intros Hd Hkey Hst Hf Et Hmap Hit Him Hsz Hfr Ep H1 H2 H3 H4 H5 H6 Hoth Hpar. split.
  - split; [done|done|done| | |done|].
    + intros k q. rewrite Hmap. destruct (decide (k = key)) as [->|Hne]; [rewrite lookup_insert_eq; intros [= <-]; split; [done|]; exists it'; rewrite H5, H6; by split_and!|]. rewrite lookup_insert_ne by done. intros Hk. destruct (md_entries _ _ _ Hd k q Hk) as (Hk0 & it & Eit & Hrest). split; [done|]. exists it. by rewrite (Hoth k q).
    + intros q Eq. rewrite Hit in Eq. destruct (md_parent _ _ _ Hd q Eq) as ((qi & Eqi & Hdel) & Hno). split; [exists qi; by rewrite Hpar|]. intros k. rewrite Hmap. destruct (decide (k = key)) as [->|Hne]; [rewrite lookup_insert_eq; intros [= ->]; congruence|by rewrite lookup_insert_ne].
    + rewrite Hsz, (md_size _ _ _ Hd). unfold recountSize. rewrite Hmap.
      assert (Hfil : filter (fun e => entryLive (d_items d') e.2 = true) (<[key := p]> (t_map ty)) = <[key := p]> (filter (fun e => entryLive (d_items d) e.2 = true) (t_map ty))).
      { apply map_eq. intros k. destruct (decide (k = key)) as [->|Hne].
        - rewrite lookup_insert_eq. apply map_lookup_filter_Some_2; [apply lookup_insert_eq|]. cbn. unfold entryLive. by rewrite Ep, H4.
        - rewrite lookup_insert_ne by done. apply option_eq. intros q. rewrite !map_lookup_filter_Some. rewrite lookup_insert_ne by done. cbn. split; intros [Hk Hl]; (split; [done|]); unfold entryLive in *; [rewrite <- (Hoth k q) by done|rewrite (Hoth k q) by done]; done. }
      rewrite Hfil. rewrite map_size_insert. unfold typeMapHas. destruct (t_map ty !! key) as [q|] eqn:Eq.
      * destruct (entryLive (d_items d) q) eqn:El.
        -- rewrite (map_lookup_filter_Some_2 _ _ key q) by done. unfold id; lia.
        -- rewrite (map_lookup_filter_None_2 _ _ key); [unfold id; lia|]. right. intros q' Hq'. rewrite Eq in Hq'. injection Hq' as <-. cbn. by rewrite El.
      * rewrite (map_lookup_filter_None_2 _ _ key) by (by left). unfold id; lia.
  - unfold typeMapGet. rewrite Hmap, lookup_insert_eq, Ep, H4, H5, H6. done.
  - intros k Hne. unfold typeMapGet. rewrite Hmap, lookup_insert_ne by done. destruct (t_map ty !! k) as [q|] eqn:Eq; [|done]. by rewrite (Hoth k q).
Qed.

(** The new item of a key. *)
Lemma newMapItem_spec (d : doc) t ty key c : map_doc d t ty -> key <> [] -> exists it, newMapItem own t key (t_map ty !! key) c d = (Ok (d_next d), allocated d it) /\ map_slot (allocated d it) t ty (d_next d) it key /\ store_repr (allocated d it) /\ heap_fresh (allocated d it) /\
  i_content it = c /\ i_length it = 1 /\ i_deleted it = false /\ d_items d !! d_next d = None /\ (forall q, is_Some (d_items d !! q) -> d_items (allocated d it) !! q = d_items d !! q).
Proof.
  intros Hd Hkey. destruct (state_next own d (md_store _ _ _ Hd)) as (clock & Eclock & Hnext). assert (Hfr : d_items d !! d_next d = None) by by apply (md_fresh _ _ _ Hd).
  assert (Ho : exists origin, getItemLastID (t_map ty !! key) d = (Ok origin, d)).
  { unfold getItemLastID. destruct (t_map ty !! key) as [l|] eqn:El; [|by eexists]. destruct (md_entries _ _ _ Hd key l El) as (_ & li & Eli & _). unfold rbind. rewrite (getItem_eq _ _ _ Eli). by eexists. }
  destruct Ho as [origin Eo]. set (it := newItemWithLength (GenID own clock) (t_map ty !! key) origin None None (ParentType t) key c 1). exists it. destruct (alloc_store d it (md_store _ _ _ Hd) (md_fresh _ _ _ Hd)) as (H1 & H2 & H3). split_and!; try done.
  - unfold newMapItem. unfold rbind at 1. rewrite Eclock. unfold rbind at 1. rewrite Eo. done.
  - destruct (Hnext (d_next d) it Hfr eq_refl) as [st' Hst]. split; try done; [apply lookup_insert_eq|apply Hd|by exists st'].
Qed.

Lemma fresh_sets (d : doc) t ty key it e : map_doc d t ty -> t_map ty !! key = None -> map_slot (allocated d it) t ty (d_next d) it key -> store_repr (allocated d it) -> heap_fresh (allocated d it) -> insert_content d t (i_content it) -> contentValues (i_content it) = [e] -> i_length it = 1 -> i_deleted it = false -> d_items d !! d_next d = None ->
  (forall q, is_Some (d_items d !! q) -> d_items (allocated d it) !! q = d_items d !! q) -> exists d' ty', freshForm (d_next d) t key (allocated d it) = (Ok tt, d') /\ map_set d d' t ty ty' key e.
Proof.
  intros Hd Hm [Ep Hpar Hsub Hkey Et Hl Hr [st' Hadd]] Hst Hf Hc He Hlen Hdel Hfr Hsame. set (d1 := allocated d it) in *. set (p := d_next d) in *. unfold freshForm, enterKey. unfold rbind at 1. rewrite (setType_eq _ _ _ _ Et). set (d2 := set_types _ d1). pose (ty1 := with_map (<[key := p]> (t_map ty)) ty). assert (Et2 : d_types d2 !! t = Some ty1) by apply lookup_insert_eq.
  unfold rbind at 1. rewrite (setType_eq _ _ _ _ Et2). set (d3 := set_types _ d2). set (ty2 := adjustYMapSize 1 ty1). assert (Et3 : d_types d3 !! t = Some ty2) by apply lookup_insert_eq.
  assert (Hparent : forall q, t_item ty = Some q -> exists qi, d_items d3 !! q = Some qi /\ i_deleted qi = false) by (intros q Eq; destruct (md_parent _ _ _ Hd q Eq) as ((qi & Eqi & Hqd) & _); exists qi; split; [|done]; etransitivity; [apply (Hsame q); by eexists|done]).
  assert (Hc3 : insert_content d3 t (i_content it)) by (destruct Hc as (C1 & C2 & C3); split_and!; [done|done|]; destruct (i_content it) as [| | | | | | | |t']; try done; destruct C3 as [Hn Hs]; split; [done|]; cbn; by rewrite !lookup_insert_ne).
  destruct (settle_spec d3 t ty2 p it st' key Ep Et3 Hc3) as (d' & E & I' & T' & S' & N' & St'); [split; apply Hst|lia|done|done|]. exists d', ty2. split; [done|].
  assert (Hitems : d_items d' = d_items d1) by done. eapply (map_set_intro d d' t ty ty2 key p it e Hd Hkey St'); try done.
  - intros q Hq. rewrite N' in Hq. rewrite Hitems. by apply Hf.
  - cbn. apply (md_map _ _ _ Hd).
  - cbn. rewrite (md_map _ _ _ Hd). unfold typeMapHas. by rewrite Hm.
  - by rewrite Hitems.
  - intros k q Hne Hk. rewrite Hitems. apply Hsame. destruct (md_entries _ _ _ Hd k q Hk) as (_ & qi & Eq & _). by exists qi.
  - intros q Eq. rewrite Hitems. apply Hsame. destruct (md_parent _ _ _ Hd q Eq) as ((qi & Eqi & _) & _). by exists qi.
Qed.

Lemma overwrite_sets (d : doc) t ty key it e l li : map_doc d t ty -> t_map ty !! key = Some l -> d_items d !! l = Some li -> (forall t', i_content li <> contentType t') -> map_slot (allocated d it) t ty (d_next d) it key -> store_repr (allocated d it) -> heap_fresh (allocated d it) -> insert_content d t (i_content it) -> contentValues (i_content it) = [e] -> i_length it = 1 -> i_deleted it = false -> d_items d !! d_next d = None ->
  (forall q, is_Some (d_items d !! q) -> d_items (allocated d it) !! q = d_items d !! q) -> exists d' ty', overwriteForm (d_next d) l t li key (allocated d it) = (Ok tt, d') /\ map_set d d' t ty ty' key e.
Proof.
  intros Hd Hm El Hnt [Ep Hpar Hsub Hkey Et Hl Hr [st' Hadd]] Hst Hf Hc He Hlen Hdel Hfr Hsame. set (d1 := allocated d it) in *. set (p := d_next d) in *. destruct (md_entries _ _ _ Hd key l Hm) as (_ & li0 & E0 & Hlp & Hls & Hlr & _). rewrite El in E0. injection E0 as <-.
  assert (El1 : d_items d1 !! l = Some li) by (rewrite Hsame; [done|by eexists]). assert (Hne : l <> p) by congruence. unfold overwriteForm, enterKey. unfold rbind at 1. rewrite (setItem_eq _ _ _ _ El1). set (d2 := set_items _ d1). unfold rbind at 1. assert (Et2 : d_types d2 !! t = Some ty) by done. rewrite (setType_eq _ _ _ _ Et2). set (d3 := set_types _ d2).
  pose (ty1 := with_map (<[key := p]> (t_map ty)) ty). assert (Et3 : d_types d3 !! t = Some ty1) by apply lookup_insert_eq. set (li2 := with_right (Some p) li). assert (El3 : d_items d3 !! l = Some li2) by apply lookup_insert_eq. assert (Ep3 : d_items d3 !! p = Some it) by (cbn; by rewrite lookup_insert_ne).
  pose (ty2 := if i_deleted li then adjustYMapSize 1 ty1 else ty1). pose (d4 := if i_deleted li then set_types (<[t := adjustYMapSize 1 ty1]> (d_types d3)) d3 else d3).
  assert (Hgrow : forall K : @Item.M V unit, (_ <-- (if i_deleted li then setType t (adjustYMapSize 1) else rret tt);;; K) d3 = K d4) by (intros K; unfold rbind, d4; destruct (i_deleted li); [by rewrite (setType_eq _ _ _ _ Et3)|done]).
  assert (Hall : forall q, q <> l -> d_items d3 !! q = d_items d1 !! q) by (intros q Hq; cbn; by rewrite lookup_insert_ne).
  assert (Hpar3 : forall q, t_item ty = Some q -> q <> l /\ d_items d3 !! q = d_items d !! q). { intros q Eq. destruct (md_parent _ _ _ Hd q Eq) as ((qi & Eqi & _) & Hno). assert (q <> l) by (intros ->; by apply (Hno key)). split; [done|]. rewrite Hall by done. apply Hsame. by exists qi. }
  assert (Ei4 : d_items d4 = d_items d3) by (unfold d4; by destruct (i_deleted li)). assert (Es4 : d_store d4 = d_store d1) by (unfold d4; by destruct (i_deleted li)). assert (En4 : d_next d4 = d_next d1) by (unfold d4; by destruct (i_deleted li)). assert (Et4 : d_types d4 !! t = Some ty2) by (unfold d4, ty2; destruct (i_deleted li); [apply lookup_insert_eq|done]). assert (Hty2 : t_map ty2 = <[key := p]> (t_map ty) /\ t_item ty2 = t_item ty) by (unfold ty2; by destruct (i_deleted li)). destruct Hty2 as [Hmap2 Hitem2].
  assert (El4 : d_items d4 !! l = Some li2) by (by rewrite Ei4).
  destruct (delete_entry d4 t ty2 l li2 El4 Hlp) as (d5 & E5 & I5 & T5 & S5 & N5); [change (i_parentSub li <> []); congruence|done|done| |intros k ss Hk; rewrite Es4 in Hk; by apply (no_empty d1 Hst k ss)|].
  { intros q Eq. rewrite Hitem2 in Eq. rewrite Ei4. destruct (Hpar3 q Eq) as [_ ->]. destruct (md_parent _ _ _ Hd q Eq) as ((qi & Eqi & _) & _). by exists qi. }
  assert (bool_decide (t_map ty2 !! i_parentSub li2 = Some l) = false) as Hb. { apply bool_decide_eq_false_2. change (i_parentSub li2) with (i_parentSub li). rewrite Hls, Hmap2, lookup_insert_eq. congruence. } rewrite Hb, andb_false_r in T5.
  assert (Hother5 : forall q, q <> l -> d_items d5 !! q = d_items d1 !! q) by (intros q Hq; rewrite I5, lookup_insert_ne by done; rewrite Ei4; by apply Hall).
  assert (Hb5 : same_bodies (d_items d1) (d_items d5)). { intros q. destruct (decide (q = l)) as [->|Hq]; [rewrite El1, I5, lookup_insert_eq; done|]. rewrite Hother5 by done. destruct (d_items d1 !! q); done. }
  assert (Et5 : d_types d5 !! t = Some ty2) by (by rewrite T5). assert (Ep5 : d_items d5 !! p = Some it) by (rewrite Hother5 by congruence; done).
  assert (Hst5 : store_repr d5). { destruct Hst as [H1 H2]. split; rewrite S5, Es4; [by eapply store_ok_body|]. intros k ss q Hk Hq. specialize (H2 k ss q Hk Hq). specialize (Hb5 q). destruct H2 as [qi Eq]. rewrite Eq in Hb5. by destruct (d_items d5 !! q). }
  assert (Hadd5 : @addStruct _ (refStruct (d_items d5)) (d_store d5) (RItem p) = Ok st') by (rewrite S5, Es4, <- Hadd; symmetry; by apply addStruct_body).
  assert (Hc5 : insert_content d5 t (i_content it)). { destruct Hc as (C1 & C2 & C3). split_and!; [done|done|]. destruct (i_content it) as [| | | | | | | |t']; try done. destruct C3 as [Hn Hs]. split; [done|]. rewrite T5. unfold d4. destruct (i_deleted li); cbn; by rewrite !lookup_insert_ne. }
  destruct (settle_spec d5 t ty2 p it st' key Ep5 Et5 Hc5 Hst5 ltac:(lia) Hadd5) as (d' & E & I' & T' & S' & N' & St').
  { intros q Eq. rewrite Hitem2 in Eq. destruct (Hpar3 q Eq) as [Hql Hq3]. destruct (md_parent _ _ _ Hd q Eq) as ((qi & Eqi & Hqd) & _). exists qi. split; [|done]. rewrite Hother5 by done. rewrite <- Hall by done. by rewrite Hq3. }
  exists d', ty2. split; [etransitivity; [apply Hgrow|]; unfold rbind; rewrite E5; exact E|]. eapply (map_set_intro d d' t ty ty2 key p it e Hd Hkey St'); try done.
  - intros q Hq. rewrite N', N5, En4 in Hq. rewrite I'. rewrite Hother5; [by apply Hf|]. intros ->. rewrite (Hf l Hq) in El1. done.
  - unfold ty2. destruct (i_deleted li); apply (md_map _ _ _ Hd).
  - unfold typeMapHas, entryLive, ty2. rewrite Hm, El. destruct (i_deleted li); cbn; rewrite ?(md_map _ _ _ Hd); lia.
  - by rewrite I'.
  - intros k q Hk Hq. rewrite I'. assert (q <> l) by (intros ->; apply Hk; by eapply entry_key). rewrite Hother5 by done. apply Hsame. destruct (md_entries _ _ _ Hd k q Hq) as (_ & qi & Eqi & _). by exists qi.
  - intros q Eq. rewrite I'. destruct (Hpar3 q Eq) as [Hql Hq3]. rewrite Hother5 by done. rewrite <- Hall by done. exact Hq3.
Qed.

(** The values that a map takes, and how it hands them out. *)
Definition map_value_ok (d : doc) (t : nat) (value : option (insertable V)) : Prop := match value with None => True | Some c => insert_ok d t c end.
Definition valueElement (value : option (insertable V)) : @element V := match value with None => EAny nil | Some c => toElement c end.

(** The current value of the key is not a nested type. *)
Definition plain_entry (d : doc) (ty : ytype) (key : gostring) : Prop := forall p it, t_map ty !! key = Some p -> d_items d !! p = Some it -> forall t', i_content it <> contentType t'.

Lemma value_cases (d : doc) t value : map_value_ok d t value ->
  (exists v, primitiveValue nil value = Some v /\ valueElement value = EAny v) \/ (primitiveValue nil value = None /\ exists c k, value = Some c /\ ownContent c = Some k /\ insert_content d t k /\ contentValues k = [valueElement value]).
Proof.
  destruct value as [c|]; [|left; by exists nil]. cbn. destruct c as [v| | | |]; intros Hok; [left; by exists v|right; split; [done|]..|done]; eexists _, _; (split; [reflexivity|]); (split; [reflexivity|]); by apply own_content.
Qed.

Lemma typeMapSet_sets (d : doc) t ty key value : map_doc d t ty -> key <> [] -> map_value_ok d t value -> plain_entry d ty key ->
  exists d' ty', typeMapSet interpolate own nil t key value d = (Ok tt, d') /\ map_set d d' t ty ty' key (valueElement value).
Proof.
  intros Hd Hkey Hv Hp. pose proof (md_type _ _ _ Hd) as Et. unfold typeMapSet. unfold rbind at 1. rewrite (getType_eq _ _ _ Et). destruct (value_cases d t value Hv) as [(v & Ev & Ee)|(Ev & c & k & -> & Ek & Hk & Hval)]; rewrite Ev.
  - assert (Hk : insert_content d t (contentAny [v])) by (split; [cbn; lia|done]). destruct (newMapItem_spec d t ty key (contentAny [v]) Hd Hkey) as (it & En & Hslot & Hst & Hf & Hc & Hl & Hdel & Hfr & Hsame). rewrite <- Hc in Hk. assert (Hval : contentValues (i_content it) = [valueElement value]) by (by rewrite Hc, Ee). destruct (t_map ty !! key) as [l|] eqn:Em.
    + destruct (md_entries _ _ _ Hd key l Em) as (_ & li & El & _ & _ & Hr & _). unfold rbind at 1. rewrite En. assert (El1 : d_items (allocated d it) !! l = Some li) by (rewrite Hsame; [done|by eexists]). unfold rbind at 1. rewrite (getItem_eq _ _ _ El1), bool_decide_eq_true_2 by done. assert (l <> d_next d) by congruence.
      rewrite (primitiveOverwrite_form (allocated d it) (d_next d) l t ty it li key [v]); [|apply Hslot|done|done|rewrite (ms_left _ _ _ _ _ _ Hslot); exact Em|apply Hslot|done|apply Hslot]. eapply overwrite_sets; try done. by apply (Hp l).
    + rewrite (md_map _ _ _ Hd). unfold setFreshPrimitiveKnown. unfold rbind at 1. rewrite En. rewrite <- (freshForm_any (allocated d it) (d_next d) t ty it key [v]); [|apply Hslot|done|apply Hslot]. by eapply fresh_sets.
  - cbn [mbind option_bind]. rewrite Ek. destruct (newMapItem_spec d t ty key k Hd Hkey) as (it & En & Hslot & Hst & Hf & Hc & Hl & Hdel & Hfr & Hsame). rewrite <- Hc in Hk, Hval. unfold rbind at 1. rewrite En. destruct (t_map ty !! key) as [l|] eqn:Em.
    + rewrite bool_decide_eq_false_2 by done. destruct (md_entries _ _ _ Hd key l Em) as (_ & li & El & _ & _ & Hr & _). assert (El1 : d_items (allocated d it) !! l = Some li) by (rewrite Hsame; [done|by eexists]). assert (l <> d_next d) by congruence.
      rewrite (integrate_overwrite interpolate (allocated d it) t ty (d_next d) it key l li Hslot Em El1) by done. eapply overwrite_sets; try done. by apply (Hp l).
    + rewrite bool_decide_eq_true_2 by done. rewrite (newKey_form (allocated d it) (d_next d) t it key); [|apply Hslot|apply Hslot]. by eapply fresh_sets.
Qed.

Lemma YMapSet_sets (d : doc) t ty key value : map_doc d t ty -> key <> [] -> map_value_ok d t value -> plain_entry d ty key ->
  exists d' ty', YMapSet interpolate own nil t key value d = (Ok tt, d') /\ map_set d d' t ty ty' key (valueElement value).
Proof.
  intros Hd Hkey Hv Hp. destruct (typeMapSet_sets d t ty key value Hd Hkey Hv Hp) as (d' & ty' & E & Hs). exists d', ty'. split; [|done]. pose proof (md_type _ _ _ Hd) as Et. unfold YMapSet, setFreshPrimitive. unfold rbind at 1, rbind at 1. rewrite (getType_eq _ _ _ Et).
  destruct (t_map ty !! key) eqn:Em; [exact E|]. destruct (primitiveValue nil value) as [v|] eqn:Ev; [|exact E]. unfold typeMapSet in E. unfold rbind at 1 in E. rewrite (getType_eq _ _ _ Et), Ev, Em, (md_map _ _ _ Hd) in E. unfold rbind. rewrite E. done.
Qed.

Lemma typeMapDelete_deletes (d : doc) t ty key : map_doc d t ty -> plain_entry d ty key ->
  exists d' ty', typeMapDelete t key d = (Ok tt, d') /\ map_doc d' t ty' /\ typeMapGet (d_items d') ty' key = Ok None /\ (forall k, k <> key -> typeMapGet (d_items d') ty' k = typeMapGet (d_items d) ty k).
Proof.
  intros Hd Hp. pose proof (md_type _ _ _ Hd) as Et. unfold typeMapDelete. unfold rbind at 1. rewrite (getType_eq _ _ _ Et). destruct (t_map ty !! key) as [l|] eqn:Em; [|exists d, ty; split_and!; [done|done|unfold typeMapGet; by rewrite Em|done]].
  destruct (md_entries _ _ _ Hd key l Em) as (Hkey & li & El & Hpar & Hsub & Hr & Hval). destruct (delete_entry d t ty l li El Hpar) as (d' & E & I' & T' & S' & N'); [congruence|done|by apply (Hp l)|intros q Eq; destruct (md_parent _ _ _ Hd q Eq) as ((qi & ? & _) & _); by exists qi|by apply no_empty, Hd|].
  rewrite Hsub, bool_decide_eq_true_2, andb_true_r in T' by done. assert (Hother : forall q, q <> l -> d_items d' !! q = d_items d !! q) by (intros q Hq; rewrite I'; by apply lookup_insert_ne). assert (El' : d_items d' !! l = Some (markDeleted li)) by (rewrite I'; apply lookup_insert_eq).
  set (ty' := if negb (i_deleted li) then adjustYMapSize (-1) ty else ty). assert (Et' : d_types d' !! t = Some ty') by (rewrite T'; unfold ty'; destruct (negb _); [apply lookup_insert_eq|done]). assert (Hmap : t_map ty' = t_map ty /\ t_item ty' = t_item ty /\ t_isMap ty' = t_isMap ty) by (unfold ty'; by destruct (negb _)). destruct Hmap as (Hmap & Hitem & Him).
  assert (Hk : forall k q, k <> key -> t_map ty !! k = Some q -> q <> l) by (intros k q Hne Hq ->; apply Hne; by eapply entry_key).
  exists d', ty'. split_and!; [done| |unfold typeMapGet; by rewrite Hmap, Em, El'|].
  - split; [| |done| | |by rewrite Him; apply (md_map _ _ _ Hd)|].
    + destruct (md_store _ _ _ Hd) as [H1 H2]. assert (Hb : same_bodies (d_items d) (d_items d')) by (rewrite I'; eapply same_bodies_insert; [apply same_bodies_refl|exact El|done]). split; rewrite S'; [by eapply store_ok_body|]. intros k ss q Hk' Hq. specialize (H2 k ss q Hk' Hq). specialize (Hb q). destruct H2 as [qi Eq]. rewrite Eq in Hb. by destruct (d_items d' !! q).
    + intros q Hq. rewrite N' in Hq. rewrite Hother; [by apply (md_fresh _ _ _ Hd)|]. intros ->. by rewrite (md_fresh _ _ _ Hd l Hq) in El.
    + intros k q. rewrite Hmap. intros Hq. destruct (md_entries _ _ _ Hd k q Hq) as (Hk0 & it & Eit & Hrest). split; [done|]. destruct (decide (k = key)) as [->|Hne]; [|exists it; rewrite Hother by (by eapply Hk); done]. rewrite Em in Hq. injection Hq as <-. exists (markDeleted li). by split_and!.
    + intros q Eq. rewrite Hitem in Eq. destruct (md_parent _ _ _ Hd q Eq) as ((qi & Eqi & Hqd) & Hno). split; [|intros k; rewrite Hmap; apply Hno]. exists qi. split; [|done]. rewrite Hother; [done|]. intros ->. by apply (Hno key).
    + unfold recountSize. rewrite Hmap. assert (Hfil : filter (fun e => entryLive (d_items d') e.2 = true) (t_map ty) = base.delete key (filter (fun e => entryLive (d_items d) e.2 = true) (t_map ty))).
      { apply map_eq. intros k. destruct (decide (k = key)) as [->|Hne].
        - rewrite lookup_delete_eq. apply map_lookup_filter_None_2. right. intros q Hq. rewrite Em in Hq. injection Hq as <-. cbn. unfold entryLive. by rewrite El'.
        - rewrite lookup_delete_ne by done. apply option_eq. intros q. rewrite !map_lookup_filter_Some. cbn. split; intros [Hq Hl]; (split; [done|]); unfold entryLive in *; [rewrite <- Hother by (by eapply Hk)|rewrite Hother by (by eapply Hk)]; done. }
      rewrite Hfil, map_size_delete. unfold ty'. destruct (i_deleted li) eqn:Ed; cbn [negb].
      * rewrite (map_lookup_filter_None_2 _ _ key); [apply (md_size _ _ _ Hd)|]. right. intros q Hq. rewrite Em in Hq. injection Hq as <-. cbn. unfold entryLive. by rewrite El, Ed.
      * assert (Hin : filter (fun e => entryLive (d_items d) e.2 = true) (t_map ty) !! key = Some l) by (apply map_lookup_filter_Some_2; [done|]; cbn; unfold entryLive; by rewrite El, Ed). rewrite Hin. cbn [adjustYMapSize t_size]. rewrite (md_map _ _ _ Hd), (md_size _ _ _ Hd). unfold recountSize.
        assert (size (filter (fun e => entryLive (d_items d) e.2 = true) (t_map ty)) <> 0%nat) by (intros H0; apply map_size_empty_inv in H0; rewrite H0 in Hin; by rewrite lookup_empty in Hin). lia.
  - intros k Hne. unfold typeMapGet. rewrite Hmap. destruct (t_map ty !! k) as [q|] eqn:Eq; [|done]. by rewrite Hother by (by eapply Hk).
Qed.
End Theory.

(** ** Properties *)



(** A map with the key "k". *)
Definition entry_item : itemStruct Z := mkItem (GenID 1 0) 1 None None None None (ParentType 0) [107] None (contentAny [5]) false true false.
Definition map_type : ytype := mkType None {[ [107] := 1%nat ]} 0 None 0 true 1 false.
Definition map_sample : docState Z :=
  mkDoc {[ 1%nat := entry_item ]} {[ 0%nat := map_type ]} (mkStore {[ 1 := [RItem 1] ]} None None [1]) 2 (mkTrans newDeleteSet [] [] true (Some ∅) None ∅ ∅ ∅).

Lemma map_sample_ok : map_doc map_sample 0 map_type.
Proof.
  split; [split| |done| |done|done|by vm_compute].
  - split_and!; simpl.
    + intros c ss Hc. apply lookup_singleton_Some in Hc as [<- <-]. split_and!; [done| |repeat constructor]. exists 0. vm_compute. by repeat split.
    + apply NoDup_singleton.
    + intros c. rewrite list_elem_of_singleton. split; [intros ->; rewrite lookup_singleton_eq; eauto|intros [? Hc]; by apply lookup_singleton_Some in Hc as [<- _]].
  - intros k ss q Hk Hq. simpl in Hk. apply lookup_singleton_Some in Hk as [<- <-]. apply list_elem_of_singleton in Hq. injection Hq as ->. vm_compute. eauto.
  - intros q Hq. cbn in Hq |- *. rewrite lookup_singleton_ne by lia. done.
  - intros k p Hk. cbn in Hk. apply lookup_singleton_Some in Hk as [<- <-]. split; [done|]. exists entry_item. by split_and!.
Qed.

Lemma map_sample_plain : plain_entry map_sample map_type [107].
Proof. intros p it Hp Ei t'. cbn in Hp. rewrite lookup_singleton_eq in Hp. injection Hp as <-. vm_compute in Ei. by injection Ei as <-. Qed.


Definition second_item : itemStruct Z := mkItem (GenID 1 1) 1 (Some (GenID 1 0)) (Some 1%nat) None None (ParentType 0) [107] None (contentAny [6]) false true false.
Definition map_ready : docState Z := set_next 3 (set_items (<[2%nat := second_item]> (d_items map_sample)) map_sample).


(** The empty key is the mark of a list item, so a map entry with the empty key is
    counted as a list element when it is deleted: the length of the map type becomes
    negative, and the size still counts the key that is gone. *)
Lemma empty_key_miscounted : exists d1 d2 ty,
  YMapSet int_pivot 1 0 0 [] (Some (InAny 6)) map_sample = (Ok tt, d1) /\ typeMapDelete 0 [] d1 = (Ok tt, d2) /\ d_types d2 !! 0%nat = Some ty /\
  typeMapHas (d_items d2) ty [] = false /\ GetSize ty = 2 /\ recountSize (d_items d2) ty = 1 /\ t_length ty = -1.
Proof. eexists _, _, _. split_and!; vm_compute; reflexivity. Qed.
