(* ===== verification/Merge.v ===== *)
(** * Merging structs at the end of a transaction

    Models the compaction that [cleanupTransactions] runs over the store
    (crdt/transaction.go, crdt/client_struct_list.go, crdt/item.go):
    [mergeStructWith] of items and of GC structs, [tryMergeWithLeft],
    [tryMergeDeleteItems], [mergeTransactionRange] with the bulk coalescing of
    runs of [contentAny] and [contentString], [mergeAround], and their
    composition over the delete set, the changed clients and [mergeStructs].

    The state is the document with the search markers of its types; a type
    without an entry has none. A client's list is the flat slice. The hooks of
    the position index are those of PositionIndex.v, the read caches are dropped
    by the code and not part of the state. *)
From stdpp Require Import gmap sets list.
From Stdlib Require Import ZArith Lia.
From S2P Require Import Prelude Lib0 StructStore Text Yata DeleteSet Content Item ItemList ItemSplit TypeRead SearchMarker TypeList.
Open Scope Z_scope.
Open Scope go_scope.

#[global] Instance gcStruct_eq_dec : EqDecision gcStruct.
Proof. solve_decision. Defined.
#[global] Instance structRef_eq_dec : EqDecision structRef.
Proof. solve_decision. Defined.

Section Merge.
Context {V : Type} (interpolate : Z -> Z -> Z -> Z).
Abbreviation item := (itemStruct V).
Abbreviation doc := (docState V).
Abbreviation heap := (gmap nat item).

Record cleanState := mkClean { c_doc : doc; c_markers : gmap nat markerState }.
Abbreviation MC := (step cleanState).

Definition onDoc {A} (m : @Item.M V A) : MC A := fun s => let '(r, d) := m (c_doc s) in (r, mkClean d (c_markers s)).
Definition set_doc (d : doc) (s : cleanState) : cleanState := mkClean d (c_markers s).

(** ** Two items *)

(** The conditions that do not look at the contents. *)
Definition adjacentItems (it : item) (right : nat) (r : item) : bool :=
  match i_origin r with
  | None => false
  | Some o => (Client o =? Client (i_id it)) && (Clock o =? Clock (i_id it) + i_length it - 1)
  end &&
  bool_decide (i_right it = Some right) && CompareIDs (i_rightOrigin it) (i_rightOrigin r) &&
  (Client (i_id it) =? Client (i_id r)) && (Clock (i_id it) + i_length it =? Clock (i_id r)) &&
  Bool.eqb (i_deleted it) (i_deleted r) && bool_decide (i_redone it = None) && bool_decide (i_redone r = None).

Definition canMergeWith (it : item) (right : nat) (r : item) : bool := adjacentItems it right r && isSameType (i_content it) (i_content r).

(** A marker at the right item moves to the left one, before it has grown. *)
Definition moveMarker (p q : nat) (it : item) (m : arraySearchMarker) : arraySearchMarker :=
  if bool_decide (m_p m = q) then newArraySearchMarker p (if live it then m_index m - i_length it else m_index m) (m_timestamp m) else m.

Definition moveMarkers (p q : nat) (it : item) (st : markerState) : markerState := mkMarkers (moveMarker p q it <$> sm_list st) (sm_marked st) (sm_clock st).

(** The list surgery, after the contents have been combined. *)
Definition completeMergeWith (p q : nat) : MC unit :=
  it <-- onDoc (getItem p);;;
  r <-- onDoc (getItem q);;;
  _ <-- (match i_parent it with
         | ParentType t => fun s => (Ok tt, mkClean (c_doc s) (alter (moveMarkers p q it) t (c_markers s)))
         | _ => rret tt
         end);;;
  _ <-- (if i_keep r then onDoc (setItem p (fun it => with_flags true (i_deleted it) it)) else rret tt);;;
  _ <-- onDoc (setItem p (with_right (i_right r)));;;
  _ <-- (match i_right r with Some n => onDoc (setItem n (with_left (Some p))) | None => rret tt end);;;
  _ <-- onDoc (setItem p (fun it => with_body (i_id it) (i_length it + i_length r) (i_content it) it));;;
  match i_parent it with
  | ParentType t => if bool_decide (i_parentSub it = []) then onDoc (setType t (updateListItemCount (-1))) else rret tt
  | _ => rret tt
  end.

Definition mergeWithWithoutReadIndexInvalidation (p q : nat) : MC bool :=
  it <-- onDoc (getItem p);;;
  r <-- onDoc (getItem q);;;
  if canMergeWith it q r then
    match mergeContentWith (i_content it) (i_content r) with
    | Some c =>
        _ <-- onDoc (setItem p (fun it => with_body (i_id it) (i_length it) c it));;;
        _ <-- completeMergeWith p q;;; rret true
    | None => rret false
    end
  else rret false.

Definition mergeStructWith (p q : nat) : MC bool := mergeWithWithoutReadIndexInvalidation p q.

(** ** A client's list *)
Definition structsOf (client : Z) : MC (list structRef) :=
  fun s => match clientStructs (d_store (c_doc s)) client with Some ss => (Ok ss, s) | None => (Err ErrPanic, s) end.
Definition setStructs (client : Z) (ss : list structRef) : MC unit :=
  onDoc (modify (fun d => set_store (with_clients (d_store d) (<[client := ss]> (clients (d_store d)))) d)).

(** [spliceStruct] of [count] structs at [start], replaced by none. *)
Definition removePositions (client : Z) (start count : nat) : MC unit :=
  ss <-- structsOf client;;;
  if (count =? 0)%nat then rret tt else setStructs client (take start ss ++ drop (start + count) ss).

Definition at_ (ss : list structRef) (i : Z) : MC structRef := match zlookup ss i with Some s => rret s | None => rfail ErrPanic end.

Definition tryMergeWithLeft (client position : Z) : MC unit :=
  ss <-- structsOf client;;;
  left <-- at_ ss (position - 1);;;
  right <-- at_ ss position;;;
  s <-- (fun s => (Ok s, s));;;
  if negb (Bool.eqb (@structDeleted _ (refStruct (d_items (c_doc s))) left) (@structDeleted _ (refStruct (d_items (c_doc s))) right)) then rret tt
  else
    match left, right with
    | RItem p, RItem q =>
        merged <-- mergeStructWith p q;;;
        if (merged : bool) then
          _ <-- removePositions client (Z.to_nat position) 1;;;
          r <-- onDoc (getItem q);;;
          if bool_decide (i_parentSub r <> []) then
            t <-- onDoc (parentType r);;;
            ty <-- onDoc (getType t);;;
            if bool_decide (t_map ty !! i_parentSub r = Some q) then onDoc (setType t (fun ty => with_map (<[i_parentSub r := p]> (t_map ty)) ty))
            else rret tt
          else rret tt
        else rret tt
    | RGC g, RGC r =>
        let (merged, g) := gcMergeStructWith g (Some r) in
        if merged then
          _ <-- setStructs client (<[Z.to_nat (position - 1) := RGC g]> ss);;;
          removePositions client (Z.to_nat position) 1
        else rret tt
    | _, _ => rret tt
    end.

Definition findOrZero (h : heap) (ss : list structRef) (clock : Z) : Z :=
  match @findIndexSS _ (refStruct h) interpolate ss clock with Ok i => i | Err _ => 0 end.

(** The loop of [tryMergeDeleteItems] over the positions of one range; [fuel] is
    at least the position. *)
Fixpoint mergeDeleteItem (fuel : nat) (client clock position : Z) : MC unit :=
  ss <-- structsOf client;;;
  right <-- at_ ss position;;;
  s <-- (fun s => (Ok s, s));;;
  match fuel with
  | S fuel' =>
      if (0 <? position) && (clock <=? Clock (@getID _ (refStruct (d_items (c_doc s))) right)) then
        _ <-- tryMergeWithLeft client position;;; mergeDeleteItem fuel' client clock (position - 1)
      else rret tt
  | O => rret tt
  end.

Fixpoint tryMergeDeleteItems (client : Z) (deleteItems : list deleteItem) : MC unit :=
  match deleteItems with
  | [] => rret tt
  | di :: deleteItems' =>
      _ <-- tryMergeDeleteItems client deleteItems';;;
      ss <-- structsOf client;;;
      s <-- (fun s => (Ok s, s));;;
      let n := findOrZero (d_items (c_doc s)) ss (di_clock di + di_length di - 1) in
      let position := Z.min (Z.of_nat (length ss) - 1) (1 + n) in
      mergeDeleteItem (length ss) client (di_clock di) position
  end.

Definition mergeAround (client clock : Z) : MC unit :=
  ss <-- structsOf client;;;
  s <-- (fun s => (Ok s, s));;;
  match @findIndexSS _ (refStruct (d_items (c_doc s))) interpolate ss clock with
  | Err _ => rret tt
  | Ok position =>
      _ <-- (if position + 1 <? Z.of_nat (length ss) then tryMergeWithLeft client (position + 1) else rret tt);;;
      if 0 <? position then tryMergeWithLeft client position else rret tt
  end.

(** ** Coalescing runs *)
Definition isAny (c : docContent V) : bool := match c with contentAny _ => true | _ => false end.
Definition isString (c : docContent V) : bool := match c with contentString _ => true | _ => false end.

Definition canMergeContentAnyPair (left : item) (q : nat) (right : item) : bool :=
  isAny (i_content left) && isAny (i_content right) && adjacentItems left q right.
Definition canMergeContentStringPair (left : item) (q : nat) (right : item) : bool :=
  isString (i_content left) && isString (i_content right) && canMergeWith left q right.

(** How many of the structs continue the run that ends in [previous]. *)
Fixpoint runLength (pair : item -> nat -> item -> bool) (h : heap) (previous : item) (rest : list structRef) : nat :=
  match rest with
  | RItem q :: rest' => match h !! q with Some next => if pair previous q next then S (runLength pair h next rest') else 0 | None => 0 end
  | _ => 0
  end.

(** [Some (p, n)]: the structs behind position [start] continue the item [p] at
    it, [n] of them, at least two. *)
Definition runAt (pair : item -> nat -> item -> bool) (h : heap) (ss : list structRef) (start : nat) : option (nat * nat) :=
  match ss !! start with
  | Some (RItem p) =>
      it ← h !! p;
      let n := runLength pair h it (drop (start + 1) ss) in
      if (n <? 2)%nat then None else Some (p, n)
  | _ => None
  end.

Fixpoint mergeAnyRun (p : nat) (l : list structRef) : MC nat :=
  match l with
  | RItem q :: l' =>
      merged <-- mergeWithWithoutReadIndexInvalidation p q;;;
      if (merged : bool) then n <-- mergeAnyRun p l';;; rret (S n) else rret 0%nat
  | _ => rret 0%nat
  end.

Fixpoint coalesceContentAnyRuns (fuel : nat) (client : Z) (start : nat) : MC unit :=
  match fuel with
  | O => rret tt
  | S fuel' =>
      ss <-- structsOf client;;;
      s <-- (fun s => (Ok s, s));;;
      if (start + 1 <? length ss)%nat then
        _ <-- (match runAt canMergeContentAnyPair (d_items (c_doc s)) ss start with
               | None => rret tt
               | Some (p, n) =>
                   merged <-- mergeAnyRun p (take n (drop (start + 1) ss));;;
                   removePositions client (start + 1) merged
               end);;;
        coalesceContentAnyRuns fuel' client (start + 1)
      else rret tt
  end.

Definition stringOf (c : docContent V) : list Z := match c with contentString value => value | _ => [] end.

(** The metadata of the run first; the combined string is stored at the end. *)
Fixpoint mergeStringRun (p : nat) (l : list structRef) (combined : list Z) : MC (nat * list Z) :=
  match l with
  | RItem q :: l' =>
      it <-- onDoc (getItem p);;;
      next <-- onDoc (getItem q);;;
      if canMergeWith it q next then
        _ <-- completeMergeWith p q;;;
        r <-- mergeStringRun p l' (combined ++ stringOf (i_content next));;; rret (S r.1, r.2)
      else rret (0%nat, combined)
  | _ => rret (0%nat, combined)
  end.

Definition coalesceContentStringRun (client : Z) (start p n : nat) (ss : list structRef) : MC unit :=
  it <-- onDoc (getItem p);;;
  r <-- mergeStringRun p (take n (drop (start + 1) ss)) (stringOf (i_content it));;;
  _ <-- onDoc (setItem p (fun it => with_body (i_id it) (i_length it) (contentString r.2) it));;;
  removePositions client (start + 1) r.1.

Fixpoint coalesceContentStringRuns (fuel : nat) (client : Z) (start : nat) : MC unit :=
  match fuel with
  | O => rret tt
  | S fuel' =>
      ss <-- structsOf client;;;
      s <-- (fun s => (Ok s, s));;;
      if (start + 1 <? length ss)%nat then
        _ <-- (match runAt canMergeContentStringPair (d_items (c_doc s)) ss start with
               | None => rret tt
               | Some (p, n) => coalesceContentStringRun client start p n ss
               end);;;
        coalesceContentStringRuns fuel' client (start + 1)
      else rret tt
  end.

(** ** The structs of a transaction *)

(** [for i := position; i >= first; i--]. *)
Fixpoint mergeDown (fuel : nat) (client first position : Z) : MC unit :=
  match fuel with
  | O => rret tt
  | S fuel' =>
      if first <=? position then _ <-- tryMergeWithLeft client position;;; mergeDown fuel' client first (position - 1)
      else rret tt
  end.

Definition stringTail (h : heap) (r : option structRef) : bool :=
  match r with Some (RItem p) => match h !! p with Some it => isString (i_content it) | None => false end | _ => false end.

Definition mergeTransactionRange (client beforeClock clock : Z) : MC unit :=
  if beforeClock =? clock then rret tt
  else
    ss <-- structsOf client;;;
    s <-- (fun s => (Ok s, s));;;
    let firstChangePos := Z.max (findOrZero (d_items (c_doc s)) ss beforeClock) 1 in
    _ <-- (if 64 <=? clock - beforeClock
           then if stringTail (d_items (c_doc s)) (list.last ss) then coalesceContentStringRuns (length ss) client (Z.to_nat (firstChangePos - 1)) else rret tt
           else rret tt);;;
    _ <-- coalesceContentAnyRuns (length ss) client (Z.to_nat (firstChangePos - 1));;;
    ss <-- structsOf client;;;
    mergeDown (length ss) client firstChangePos (Z.of_nat (length ss) - 1).

Fixpoint forEachC {A} (f : A -> MC unit) (l : list A) : MC unit :=
  match l with [] => rret tt | a :: l' => _ <-- f a;;; forEachC f l' end.

(** [if structs, ok := store.clientStructs(client); ok { ... }] *)
Definition ifClient (client : Z) (m : MC unit) : MC unit :=
  fun s => match clientStructs (d_store (c_doc s)) client with Some _ => m s | None => (Ok tt, s) end.

(** The order in which Go iterates over a map is the order of the list. *)
Definition tryMergeDeleteSet (order : list (Z * list deleteItem)) : MC unit :=
  forEachC (fun '(client, deleteItems) => ifClient client (tryMergeDeleteItems client deleteItems)) order.

Definition mergeTransactionClientStructs (client beforeClock clock : Z) : MC unit :=
  if beforeClock =? clock then rret tt else ifClient client (mergeTransactionRange client beforeClock clock).

(** The part of [cleanupTransactions] between garbage collection and the events:
    the delete set, the clients of the state after the transaction with their
    clocks before and after, and the structs noted for merging. *)
Definition cleanupMerge (order : list (Z * list deleteItem)) (states : list (Z * (Z * Z))) (mergeStructs : list nat) : MC unit :=
  _ <-- tryMergeDeleteSet order;;;
  _ <-- forEachC (fun '(client, (beforeClock, clock)) => mergeTransactionClientStructs client beforeClock clock) states;;;
  forEachC (fun p => it <-- onDoc (getItem p);;; ifClient (Client (i_id it)) (mergeAround (Client (i_id it)) (Clock (i_id it)))) mergeStructs.

End Merge.
Arguments cleanState V : clear implicits.

Section Step.
Context {V : Type}.
Abbreviation item := (itemStruct V).
Abbreviation doc := (docState V).
Abbreviation heap := (gmap nat item).

(** ** What one merge does *)

(** The left item with the right one taken in. *)
Definition fuse (pi qi : item) (c : docContent V) : item :=
  mkItem (i_id pi) (i_length pi + i_length qi) (i_origin pi) (i_left pi) (i_right qi) (i_rightOrigin pi) (i_parent pi) (i_parentSub pi)
    (i_redone pi) c (i_keep pi || i_keep qi) (i_countable pi) (i_deleted pi).

Record fused_heap (h h' : heap) (p q : nat) (pi qi : item) (c : docContent V) : Prop := {
  fh_left : h' !! p = Some (fuse pi qi c);
  fh_next : forall n ni, i_right qi = Some n -> h !! n = Some ni -> h' !! n = Some (with_left (Some p) ni);
  fh_other : forall x, x <> p -> i_right qi <> Some x -> h' !! x = h !! x
}.

(** The items [p], [q] and the one behind them are linked to each other. *)
Record tied (h : heap) (p q : nat) (pi qi : item) : Prop := {
  ti_left : h !! p = Some pi;
  ti_right : h !! q = Some qi;
  ti_next : i_right pi = Some q;
  ti_prev : i_left qi = Some p;
  ti_ne : p <> q;
  ti_beyond : forall n, i_right qi = Some n -> n <> p /\ n <> q /\ exists ni, h !! n = Some ni /\ i_left ni = Some q
}.

Lemma adjacent_inv (pi qi : item) q : adjacentItems pi q qi = true ->
  i_origin qi = Some (GenID (Client (i_id pi)) (Clock (i_id pi) + i_length pi - 1)) /\ i_right pi = Some q /\ i_rightOrigin pi = i_rightOrigin qi /\
  i_id qi = GenID (Client (i_id pi)) (Clock (i_id pi) + i_length pi) /\ i_deleted pi = i_deleted qi /\ i_redone pi = None /\ i_redone qi = None.
Proof.
  unfold adjacentItems. rewrite !andb_true_iff, !bool_decide_eq_true, CompareIDs_eq, !Z.eqb_eq, Bool.eqb_true_iff. intros [[[[[[[H1 H2] H3] H4] H5] H6] H7] H8].
  destruct (i_origin qi) as [[oc ok]|]; [|done]. apply andb_true_iff in H1 as [Ha%Z.eqb_eq Hb%Z.eqb_eq]. cbn in *. split_and!; try done; [by subst|].
  destruct (i_id qi) as [qc qk]. cbn in *. by subst.
Qed.

(** *** The heap *)
Lemma fused_other (h h' : heap) p q pi qi c x : fused_heap h h' p q pi qi c -> tied h p q pi qi -> x <> p ->
  match h !! x, h' !! x with Some a, Some b => exists l, b = with_left l a | None, None => True | _, _ => False end.
Proof.
  intros Hf Ht Hx. destruct (decide (i_right qi = Some x)) as [E|E].
  - destruct (ti_beyond _ _ _ _ _ Ht x E) as (_ & _ & ni & En & _). rewrite (fh_next _ _ _ _ _ _ _ Hf x ni E En), En. by eexists.
  - rewrite (fh_other _ _ _ _ _ _ _ Hf x Hx E). destruct (h !! x) as [a|]; [|done]. exists (i_left a). by destruct a.
Qed.

Lemma fused_ref (h h' : heap) p q pi qi c s : fused_heap h h' p q pi qi c -> tied h p q pi qi -> s <> RItem p ->
  @getID _ (refStruct h) s = @getID _ (refStruct h') s /\ @structLength _ (refStruct h) s = @structLength _ (refStruct h') s.
Proof.
  intros Hf Ht Hs. destruct s as [x|g]; [|done]. assert (Hx : x <> p) by congruence. pose proof (fused_other h h' p q pi qi c x Hf Ht Hx) as Ho. simpl.
  destruct (h !! x), (h' !! x); try done. by destruct Ho as [l ->].
Qed.

Lemma contiguous_fuse (h h' : heap) p q pi qi c ss1 ss2 : fused_heap h h' p q pi qi c -> tied h p q pi qi -> RItem p ∉ ss1 ++ ss2 -> forall k,
  @contiguous_from _ (refStruct h) k (ss1 ++ RItem p :: RItem q :: ss2) -> @contiguous_from _ (refStruct h') k (ss1 ++ RItem p :: ss2) /\
  @list_end _ (refStruct h') k (ss1 ++ RItem p :: ss2) = @list_end _ (refStruct h) k (ss1 ++ RItem p :: RItem q :: ss2).
Proof.
  intros Hf Ht. assert (Hend : forall ss, RItem p ∉ ss -> forall k, @list_end _ (refStruct h') k ss = @list_end _ (refStruct h) k ss).
  { induction ss as [|s ss IH]; intros Hp k; [done|]. cbn. rewrite IH by set_solver. destruct (fused_ref h h' p q pi qi c s Hf Ht) as [E1 E2]; [set_solver|]. unfold struct_end. by rewrite E1, E2. }
  induction ss1 as [|s ss1 IH]; intros Hp k; cbn [app contiguous_from list_end].
  - unfold struct_end. simpl. rewrite (ti_left _ _ _ _ _ Ht), (ti_right _ _ _ _ _ Ht), (fh_left _ _ _ _ _ _ _ Hf). simpl. intros (? & ? & E & ? & Hc). simpl in Hp. rewrite Hend by done.
    replace (Clock (i_id pi) + (i_length pi + i_length qi)) with (Clock (i_id qi) + i_length qi) by lia. split_and!; [done|lia| |done].
    eapply contiguous_ext; [|exact Hc]. intros s Hs. apply (fused_ref h h' p q pi qi c s Hf Ht). set_solver.
  - destruct (fused_ref h h' p q pi qi c s Hf Ht) as [E1 E2]; [set_solver|]. unfold struct_end. rewrite E1, E2. intros (? & ? & Hc). destruct (IH ltac:(set_solver) _ Hc) as [I1 I2]. by split_and!.
Qed.

(** A list that holds the left item loses the right one, another one is as it
    was. *)
Lemma linked_next (h : heap) ps p it : linked h None ps -> p ∈ ps -> h !! p = Some it -> exists ps1 ps2, ps = ps1 ++ p :: ps2 /\ i_right it = head ps2 /\ i_left it = list.last ps1.
Proof.
  intros Hl (ps1 & ps2 & ->)%list_elem_of_split E. exists ps1, ps2. apply linked_lseg, lseg_app in Hl as [_ (it' & E' & H1 & H2 & _)]. simplify_eq. split_and!; [done|by destruct ps2|by rewrite <- last_or_None].
Qed.

Lemma linked_fuse (h h' : heap) p q pi qi c ps1 ps2 : fused_heap h h' p q pi qi c -> tied h p q pi qi -> NoDup (ps1 ++ p :: q :: ps2) ->
  linked h None (ps1 ++ p :: q :: ps2) -> linked h' None (ps1 ++ p :: ps2).
Proof.
  intros Hf Ht Hnd Hl. apply linked_lseg, lseg_app in Hl as [H1 (it' & E' & El & Er & (qi' & Eq & Eql & Eqr & H2))]. rewrite (ti_left _ _ _ _ _ Ht) in E'. rewrite (ti_right _ _ _ _ _ Ht) in Eq. simplify_eq.
  apply list.NoDup_app in Hnd as (_ & Hd & Hnd). apply list.NoDup_cons in Hnd as [Hp Hnd]. apply list.NoDup_cons in Hnd as [Hq Hnd].
  assert (Hsame : forall x, x ∈ ps1 \/ x ∈ tail ps2 -> h' !! x = h !! x).
  { intros x Hx. apply (fh_other _ _ _ _ _ _ _ Hf).
    - intros ->. destruct Hx as [Hx|Hx]; [apply (Hd p Hx); by left|]. apply Hp. destruct ps2; [by apply not_elem_of_nil in Hx|by do 2 right].
    - rewrite Eqr. destruct ps2 as [|n ps2]; [done|]. simpl. intros [= ->]. destruct Hx as [Hx|Hx]; [apply (Hd x Hx); do 2 right; left|simpl in Hx; by apply list.NoDup_cons in Hnd as [? _]]. }
  apply linked_lseg, lseg_app. split; [eapply lseg_ext; [|exact H1]; intros; apply Hsame; by left|].
  exists (fuse it' qi' c). rewrite (fh_left _ _ _ _ _ _ _ Hf). split_and!; [done|done|by rewrite <- Eqr|].
  destruct ps2 as [|n ps2]; [done|]. destruct H2 as (ni & En & ? & ? & H2). exists (with_left (Some p) ni).
  rewrite (fh_next _ _ _ _ _ _ _ Hf n ni) by done. split_and!; [done|done|done|]. eapply lseg_ext; [|exact H2]. intros. apply Hsame. by right.
Qed.

Lemma fuse_cases (h h' : heap) p q pi qi c ps : fused_heap h h' p q pi qi c -> tied h p q pi qi -> NoDup ps -> linked h None ps ->
  (exists ps1 ps2, ps = ps1 ++ p :: q :: ps2 /\ linked h' None (ps1 ++ p :: ps2)) \/
  ((p ∉ ps) /\ (q ∉ ps) /\ (forall x, x ∈ ps -> h' !! x = h !! x) /\ linked h' None ps).
Proof.
  intros Hf Ht Hnd Hl. destruct (decide (p ∈ ps)) as [Hp|Hp].
  - left. destruct (linked_next h ps p pi Hl Hp (ti_left _ _ _ _ _ Ht)) as (ps1 & [|q' ps2] & -> & Er & _); rewrite (ti_next _ _ _ _ _ Ht) in Er; [done|]. injection Er as <-.
    exists ps1, ps2. split; [done|]. by eapply linked_fuse.
  - right. assert (Hq : q ∉ ps).
    { intros Hq. destruct (linked_next h ps q qi Hl Hq (ti_right _ _ _ _ _ Ht)) as (ps1 & ps2 & -> & _ & El). rewrite (ti_prev _ _ _ _ _ Ht) in El. symmetry in El. apply last_Some_elem_of in El. set_solver. }
    assert (Hs : forall x, x ∈ ps -> h' !! x = h !! x).
    { intros x Hx. apply (fh_other _ _ _ _ _ _ _ Hf); [by intros ->|]. intros E. destruct (ti_beyond _ _ _ _ _ Ht x E) as (_ & _ & ni & En & Hln).
      destruct (linked_next h ps x ni Hl Hx En) as (ps1 & ps2 & -> & _ & El). rewrite Hln in El. symmetry in El. apply last_Some_elem_of in El. set_solver. }
    split_and!; [done|done|done|]. apply linked_lseg. eapply lseg_ext; [exact Hs|]. by apply linked_lseg.
Qed.

(** *** The store *)
Lemma store_replaced (d d' : doc) k ss ss' : store_repr d -> clients (d_store d) !! k = Some ss -> d_store d' = with_clients (d_store d) (<[k := ss']> (clients (d_store d))) -> ss' <> [] ->
  (forall c, @contiguous_from _ (refStruct (d_items d)) c ss -> @contiguous_from _ (refStruct (d_items d')) c ss' /\ @list_end _ (refStruct (d_items d')) c ss' = @list_end _ (refStruct (d_items d)) c ss) ->
  Forall (fun s => Client (@getID _ (refStruct (d_items d')) s) = k) ss' ->
  (forall k' ss0 s, k' <> k -> clients (d_store d) !! k' = Some ss0 -> s ∈ ss0 ->
    @getID _ (refStruct (d_items d)) s = @getID _ (refStruct (d_items d')) s /\ @structLength _ (refStruct (d_items d)) s = @structLength _ (refStruct (d_items d')) s) ->
  (forall x, is_Some (d_items d !! x) -> is_Some (d_items d' !! x)) -> (forall x, RItem x ∈ ss' -> RItem x ∈ ss) ->
  store_repr d' /\ forall k', @getState _ (refStruct (d_items d')) (d_store d') k' = @getState _ (refStruct (d_items d)) (d_store d) k'.
Proof.
  intros [(Hok & Hnd & Hord) Hit] Hk Est Hne Hc Hcl Hoth Hsome Hin. destruct (Hok _ _ Hk) as (Hne0 & (c & Hc0) & _). destruct (Hc c Hc0) as [Hc1 Hend]. split; [split|].
  - rewrite Est. split_and!; cbn [with_clients clients clientOrder]; [|done|].
    + intros k' ss0. destruct (decide (k' = k)) as [->|Hk']; [rewrite lookup_insert_eq; intros [= <-]; split_and!; [done|by exists c|done]|]. rewrite lookup_insert_ne by done. intros E0.
      destruct (Hok _ _ E0) as (? & (c' & Hc') & Hf). split_and!; [done|exists c'; eapply contiguous_ext; [|exact Hc']; intros s Hs; by apply (Hoth k' ss0)|].
      apply list.Forall_forall. intros s Hs. rewrite list.Forall_forall in Hf. destruct (Hoth k' ss0 s Hk' E0 Hs) as [<- _]. by apply Hf.
    + intros k'. rewrite Hord. destruct (decide (k' = k)) as [->|Hk']; [rewrite lookup_insert_eq, Hk; split; eauto|by rewrite lookup_insert_ne].
  - intros k' ss0 x. rewrite Est. cbn [with_clients clients]. destruct (decide (k' = k)) as [->|Hk']; [rewrite lookup_insert_eq; intros [= <-] Hx; apply Hsome, (Hit k ss); auto|].
    rewrite lookup_insert_ne by done. intros E0 Hx. by apply Hsome, (Hit k' ss0).
  - intros k'. unfold getState, clientStructs. rewrite Est. cbn [with_clients clients]. destruct (decide (k' = k)) as [->|Hk'].
    + rewrite lookup_insert_eq, Hk. destruct (list.last ss') as [l'|] eqn:El'; [|by apply last_None in El']. destruct (list.last ss) as [l|] eqn:El; [|by apply last_None in El].
      rewrite (@list_end_last _ (refStruct (d_items d')) c ss' l' El'), (@list_end_last _ (refStruct (d_items d)) c ss l El) in Hend. unfold struct_end in Hend. by rewrite Hend.
    + rewrite lookup_insert_ne by done. destruct (clients (d_store d) !! k') as [ss0|] eqn:E0; [|done]. destruct (list.last ss0) as [l|] eqn:El; [|done].
      destruct (Hoth k' ss0 l Hk' E0 (last_Some_elem_of _ _ El)) as [-> ->]. done.
Qed.

(** *** Documents whose structs are linked *)

(** The item that holds the type is deleted. *)
Definition dead (d : doc) (t : nat) : Prop := exists ty p it, d_types d !! t = Some ty /\ t_item ty = Some p /\ d_items d !! p = Some it /\ i_deleted it = true.

Record chain (d : doc) (t : nat) (sub : gostring) (ps : list nat) : Prop := {
  ch_linked : linked (d_items d) None ps;
  ch_nodup : NoDup ps;
  ch_members : forall q qi, q ∈ ps -> d_items d !! q = Some qi -> i_parent qi = ParentType t /\ i_parentSub qi = sub;
  ch_type : exists ty, d_types d !! t = Some ty /\ (sub = [] -> t_start ty = head ps \/ dead d t)
}.

(** Every item of the store is in the list of its type, or in the chain of its
    map key; a type that is dead may have lost its list. *)
Record clean_doc (d : doc) : Prop := {
  cl_store : store_repr d;
  cl_fresh : heap_fresh d;
  cl_chain : forall k ss q, clients (d_store d) !! k = Some ss -> RItem q ∈ ss -> exists t sub ps, chain d t sub ps /\ q ∈ ps
}.

(** One merge: two neighbours of a client's list become one struct. *)
Inductive merge_step (s s' : cleanState V) : Prop :=
| step_items k ss1 p q ss2 pi qi c t ty m :
    clients (d_store (c_doc s)) !! k = Some (ss1 ++ RItem p :: RItem q :: ss2) ->
    tied (d_items (c_doc s)) p q pi qi -> canMergeWith pi q qi = true -> mergeContentWith (i_content pi) (i_content qi) = Some c ->
    i_parent pi = ParentType t -> d_types (c_doc s) !! t = Some ty ->
    fused_heap (d_items (c_doc s)) (d_items (c_doc s')) p q pi qi c ->
    d_store (c_doc s') = with_clients (d_store (c_doc s)) (<[k := ss1 ++ RItem p :: ss2]> (clients (d_store (c_doc s)))) ->
    d_types (c_doc s') = <[t := with_map m (if bool_decide (i_parentSub pi = []) then updateListItemCount (-1) ty else ty)]> (d_types (c_doc s)) ->
    (m = t_map ty \/ (t_map ty !! i_parentSub qi = Some q /\ m = <[i_parentSub qi := p]> (t_map ty))) ->
    d_next (c_doc s') = d_next (c_doc s) -> c_markers s' = alter (moveMarkers p q pi) t (c_markers s) -> merge_step s s'
| step_gc k ss1 g r ss2 :
    clients (d_store (c_doc s)) !! k = Some (ss1 ++ RGC g :: RGC r :: ss2) ->
    s' = set_doc (set_store (with_clients (d_store (c_doc s)) (<[k := ss1 ++ RGC (newGC (gc_id g) (gc_length g + gc_length r)) :: ss2]> (clients (d_store (c_doc s))))) (c_doc s)) s ->
    merge_step s s'.

Lemma store_head (d : doc) k ss1 p pi ss2 : store_repr d -> clients (d_store d) !! k = Some (ss1 ++ RItem p :: ss2) -> d_items d !! p = Some pi ->
  Client (i_id pi) = k /\ (RItem p ∉ ss1 ++ ss2) /\ NoDup (ss1 ++ RItem p :: ss2).
Proof.
  intros [(Hok & _ & _) _] Hk Ep. destruct (Hok _ _ Hk) as (_ & (c & Hc) & Hf). pose proof (@contiguous_NoDup _ (refStruct (d_items d)) c _ Hc) as Hnd. split_and!; [| |done].
  - rewrite list.Forall_forall in Hf. specialize (Hf (RItem p) ltac:(set_solver)). simpl in Hf. by rewrite Ep in Hf.
  - rewrite list.NoDup_app, list.NoDup_cons in Hnd. set_solver.
Qed.

Lemma step_store s s' : store_repr (c_doc s) -> merge_step s s' ->
  store_repr (c_doc s') /\ forall k, @getState _ (refStruct (d_items (c_doc s'))) (d_store (c_doc s')) k = @getState _ (refStruct (d_items (c_doc s))) (d_store (c_doc s)) k.
Proof.
  intros Hst [k ss1 p q ss2 pi qi c t ty m Hk Ht Hm Hc Hpar Ety Hf Est Ety' Hm' Hn Hmk|k ss1 g r ss2 Hk ->].
  - destruct (store_head _ k ss1 p pi (RItem q :: ss2) Hst Hk (ti_left _ _ _ _ _ Ht)) as (Hcl & Hp & _). destruct Hst as [(Hok & ? & ?) Hit]. pose proof (Hok _ _ Hk) as (_ & _ & Hfc).
    assert (Hrest : forall s0, s0 <> RItem p -> @getID _ (refStruct (d_items (c_doc s))) s0 = @getID _ (refStruct (d_items (c_doc s'))) s0 /\ @structLength _ (refStruct (d_items (c_doc s))) s0 = @structLength _ (refStruct (d_items (c_doc s'))) s0).
    { intros s0 Hs0. by apply (fused_ref _ _ p q pi qi c s0 Hf Ht). }
    eapply (store_replaced (c_doc s) (c_doc s') k); [by split|exact Hk|exact Est|by destruct ss1| | | | |set_solver].
    + intros c0 Hc0. apply (contiguous_fuse _ _ p q pi qi c ss1 ss2 Hf Ht); [set_solver|done].
    + apply list.Forall_forall. intros s0 Hs0. destruct (decide (s0 = RItem p)) as [->|Hne]; [simpl; by rewrite (fh_left _ _ _ _ _ _ _ Hf)|].
      rewrite list.Forall_forall in Hfc. destruct (Hrest s0 Hne) as [<- _]. apply Hfc. set_solver.
    + intros k' ss0 s0 Hk' E0 Hs0. apply Hrest. intros ->. destruct (Hok _ _ E0) as (_ & _ & Hf0). rewrite list.Forall_forall in Hf0. specialize (Hf0 _ Hs0). simpl in Hf0. rewrite (ti_left _ _ _ _ _ Ht) in Hf0. simpl in Hf0. congruence.
    + intros x Hx. destruct (decide (x = p)) as [->|Hne]; [rewrite (fh_left _ _ _ _ _ _ _ Hf); eauto|]. pose proof (fused_other _ _ p q pi qi c x Hf Ht Hne) as Ho. destruct Hx as [a Ea]. rewrite Ea in Ho. by destruct (d_items (c_doc s') !! x).
  - pose proof Hst as [(Hok & _ & _) _]. destruct (Hok _ _ Hk) as (_ & _ & Hfc). eapply (store_replaced (c_doc s) _ k); [done|exact Hk|done|by destruct ss1| | |done|done|set_solver].
    + clear. induction ss1 as [|s0 ss1 IH]; intros c; cbn [app contiguous_from list_end]; cbn [c_doc set_doc d_items set_store].
      * unfold struct_end. simpl. intros (? & ? & ? & ? & Hc). replace (Clock (gc_id g) + (gc_length g + gc_length r)) with (Clock (gc_id r) + gc_length r) by lia. split_and!; [done|lia|done|done].
      * intros (? & ? & Hc). destruct (IH _ Hc) as [I1 I2]. by split_and!.
    + rewrite list.Forall_app, !list.Forall_cons in Hfc. rewrite list.Forall_app, list.Forall_cons. destruct Hfc as (? & ? & ? & ?). split_and!; done.
Qed.

End Step.
