(* ===== verification/Compaction.v ===== *)
(** * Compaction keeps the document

    Theory of the merging of Merge.v. Every routine is a sequence of
    [merge_step]s; a step keeps the store contiguous, the states of the clients,
    and of every list its elements, its values, its counters and the positions of
    its search markers. [mergeTransactionRange] leaves no two neighbours that
    could still be merged. *)
From stdpp Require Import gmap sets list relations.
From Stdlib Require Import ZArith Lia.
From S2P Require Import Prelude Lib0 StructStore Text Yata Replicas DeleteSet Content Item ItemList ItemSplit TypeRead SearchMarker TypeList ListInsert MapType Merge.
Open Scope Z_scope.
Open Scope go_scope.

Section Keeps.
Context {V : Type}.
Abbreviation item := (itemStruct V).
Abbreviation doc := (docState V).
Abbreviation heap := (gmap nat item).
Abbreviation state := (cleanState V).

(** ** Chains *)
Lemma linked_by_head (h : heap) ps ps' prev : linked h prev ps -> linked h prev ps' -> head ps = head ps' -> ps = ps'.
Proof. destruct ps as [|p ps], ps' as [|p' ps']; intros Hl Hl' Hh; try done. cbn in Hh. injection Hh as <-. f_equal. by eapply linked_same. Qed.

Lemma chain_tied (d : doc) t sub ps p q pi : chain d t sub ps -> p ∈ ps -> d_items d !! p = Some pi -> i_right pi = Some q -> exists qi, tied (d_items d) p q pi qi.
Proof.
  intros [Hl Hnd _ _] Hp Ep Er. destruct (linked_next _ ps p pi Hl Hp Ep) as (ps1 & [|q' ps2] & -> & Eh & _); rewrite Er in Eh; [done|]. injection Eh as <-.
  apply linked_lseg, lseg_app in Hl as [_ (it' & E' & El & Er' & (qi & Eq & Eql & Eqr & H2))]. simplify_eq. apply list.NoDup_app in Hnd as (_ & _ & Hnd). apply list.NoDup_cons in Hnd as [Hnp Hnd]. apply list.NoDup_cons in Hnd as [Hnq _].
  exists qi. split; [done|done|done|done|set_solver|]. intros n En. rewrite Eqr in En. destruct ps2 as [|n' ps2]; [done|]. cbn in En. injection En as <-. destruct H2 as (ni & Eni & Hleft & _). split_and!; [set_solver|set_solver|by exists ni].
Qed.

(** The deleted items, and with them the dead types, stay the same. *)
Lemma fused_dead (d d' : doc) p q pi qi c t0 ty m t : fused_heap (d_items d) (d_items d') p q pi qi c -> tied (d_items d) p q pi qi ->
  d_types d !! t0 = Some ty -> d_types d' = <[t0 := with_map m (if bool_decide (i_parentSub pi = []) then updateListItemCount (-1) ty else ty)]> (d_types d) -> dead d' t <-> dead d t.
Proof.
  intros Hf Ht Ety Ety'. assert (Htypes : match d_types d !! t, d_types d' !! t with Some a, Some b => t_item a = t_item b | None, None => True | _, _ => False end).
  { rewrite Ety'. destruct (decide (t = t0)) as [->|Hne]; [rewrite lookup_insert_eq, Ety; by destruct (bool_decide _)|rewrite lookup_insert_ne by done; by destruct (d_types d !! t)]. }
  assert (Hitems : forall x, match d_items d !! x, d_items d' !! x with Some a, Some b => i_deleted a = i_deleted b | None, None => True | _, _ => False end).
  { intros x. destruct (decide (x = p)) as [->|Hne]; [by rewrite (fh_left _ _ _ _ _ _ _ Hf), (ti_left _ _ _ _ _ Ht)|]. pose proof (fused_other _ _ p q pi qi c x Hf Ht Hne) as Ho. destruct (d_items d !! x), (d_items d' !! x); try done. by destruct Ho as [l ->]. }
  unfold dead. split; intros (ty1 & x & xi & E1 & E2 & E3 & E4); specialize (Hitems x); rewrite E1, E3 in *.
  - destruct (d_types d !! t) as [ty2|]; [|done]. destruct (d_items d !! x) as [xi2|] eqn:Ex; [|done]. exists ty2, x, xi2. split_and!; congruence.
  - destruct (d_types d' !! t) as [ty2|]; [|done]. destruct (d_items d' !! x) as [xi2|] eqn:Ex; [|done]. exists ty2, x, xi2. split_and!; congruence.
Qed.

Lemma step_dead (s s' : state) t : merge_step s s' -> dead (c_doc s') t <-> dead (c_doc s) t.
Proof. intros [k ss1 p q ss2 pi qi c t0 ty m Hk Ht Hm Hmc Hpar Ety Hf Est Ety' Hm' Hn Hmk|k ss1 g r ss2 Hk ->]; [by eapply fused_dead|done]. Qed.

Lemma step_chain (d d' : doc) p q pi qi c t0 ty m t sub ps : fused_heap (d_items d) (d_items d') p q pi qi c -> tied (d_items d) p q pi qi ->
  d_types d !! t0 = Some ty -> d_types d' = <[t0 := with_map m (if bool_decide (i_parentSub pi = []) then updateListItemCount (-1) ty else ty)]> (d_types d) ->
  chain d t sub ps -> exists ps', chain d' t sub ps' /\ forall x, x ∈ ps -> x <> q -> x ∈ ps'.
Proof.
  intros Hf Ht Ety Ety' [Hl Hnd Hm (ty1 & Et1 & Hs)]. assert (Htype : forall ps', head ps' = head ps -> exists ty', d_types d' !! t = Some ty' /\ (sub = [] -> t_start ty' = head ps' \/ dead d' t)).
  { intros ps' Eh. rewrite Ety'. destruct (decide (t = t0)) as [->|Hne]; [rewrite lookup_insert_eq|rewrite lookup_insert_ne by done].
    - simplify_eq. eexists. split; [done|]. intros Esub. rewrite Eh. destruct (Hs Esub) as [<-|Hdead]; [left; by destruct (bool_decide _)|right]. by apply (fused_dead d d' p q pi qi c t0 ty m).
    - exists ty1. split; [done|]. intros Esub. rewrite Eh. destruct (Hs Esub) as [<-|Hdead]; [by left|right]. by apply (fused_dead d d' p q pi qi c t0 ty m). }
  destruct (fuse_cases _ _ p q pi qi c ps Hf Ht Hnd Hl) as [(ps1 & ps2 & -> & Hl')|(Hp & Hq & Hsame & Hl')].
  - exists (ps1 ++ p :: ps2). split; [split; [done| | |apply Htype; by destruct ps1]|set_solver].
    + rewrite !list.NoDup_app, !list.NoDup_cons in *. set_solver.
    + intros x xi Hx Ex. destruct (decide (x = p)) as [->|Hne].
      * rewrite (fh_left _ _ _ _ _ _ _ Hf) in Ex. injection Ex as <-. apply (Hm p pi); [set_solver|apply Ht].
      * pose proof (fused_other _ _ p q pi qi c x Hf Ht Hne) as Ho. rewrite Ex in Ho. destruct (d_items d !! x) as [a|] eqn:Ea; [|done]. destruct Ho as [l ->]. apply (Hm x a); [set_solver|done].
  - exists ps. split; [split; [done|done| |by apply Htype]|done]. intros x xi Hx Ex. rewrite Hsame in Ex by done. by apply (Hm x).
Qed.

Lemma step_clean (s s' : state) : clean_doc (c_doc s) -> merge_step s s' -> clean_doc (c_doc s').
Proof.
  intros Hc Hs. split; [by apply (step_store s s'); [apply Hc|]| |].
  - destruct Hs as [k ss1 p q ss2 pi qi c t ty m Hk Ht Hm Hmc Hpar Ety Hf Est Ety' Hm' Hn Hmk|k ss1 g r ss2 Hk ->]; [|apply Hc]. intros x Hx. rewrite Hn in Hx. pose proof (cl_fresh _ Hc x Hx) as Ex.
    assert (Hne : x <> p) by (intros ->; pose proof (ti_left _ _ _ _ _ Ht); congruence). pose proof (fused_other _ _ p q pi qi c x Hf Ht Hne) as Ho. rewrite Ex in Ho. by destruct (d_items (c_doc s') !! x).
  - destruct Hs as [k ss1 p q ss2 pi qi c t ty m Hk Ht Hm Hmc Hpar Ety Hf Est Ety' Hm' Hn Hmk|k ss1 g r ss2 Hk ->].
    + intros k' ss x. rewrite Est. cbn [with_clients clients]. intros Hx Hin. assert (Hold : exists ss0, clients (d_store (c_doc s)) !! k' = Some ss0 /\ RItem x ∈ ss0 /\ x <> q).
      { destruct (store_head _ k ss1 p pi (RItem q :: ss2) (cl_store _ Hc) Hk (ti_left _ _ _ _ _ Ht)) as (Hcl & _ & _). replace (ss1 ++ RItem p :: RItem q :: ss2) with ((ss1 ++ [RItem p]) ++ RItem q :: ss2) in Hk by by rewrite <- (assoc_L (++)).
        destruct (store_head _ k (ss1 ++ [RItem p]) q qi ss2 (cl_store _ Hc) Hk (ti_right _ _ _ _ _ Ht)) as (Hclq & Hq & _).
        destruct (decide (k' = k)) as [->|Hne]; [rewrite lookup_insert_eq in Hx; injection Hx as <-; eexists; split_and!; [exact Hk|set_solver|intros ->; set_solver]|].
        rewrite lookup_insert_ne in Hx by done. exists ss. split_and!; [done|done|]. intros ->. destruct (cl_store _ Hc) as [(Hok & _) _]. destruct (Hok _ _ Hx) as (_ & _ & Hfc). rewrite list.Forall_forall in Hfc.
        specialize (Hfc _ Hin). simpl in Hfc. rewrite (ti_right _ _ _ _ _ Ht) in Hfc. simpl in Hfc. congruence. }
      destruct Hold as (ss0 & E0 & Hin0 & Hxq). destruct (cl_chain _ Hc _ _ _ E0 Hin0) as (t1 & sub & ps & Hch & Hps). destruct (step_chain _ _ p q pi qi c t ty m t1 sub ps Hf Ht Ety Ety' Hch) as (ps' & Hch' & Hmem). exists t1, sub, ps'. split; [done|by apply Hmem].
    + intros k' ss x. cbn [c_doc set_doc d_store set_store with_clients clients]. intros Hx Hin. assert (Hold : exists ss0, clients (d_store (c_doc s)) !! k' = Some ss0 /\ RItem x ∈ ss0).
      { destruct (decide (k' = k)) as [->|Hne]; [rewrite lookup_insert_eq in Hx; injection Hx as <-; eexists; split; [exact Hk|set_solver]|]. rewrite lookup_insert_ne in Hx by done. eauto. }
      destruct Hold as (ss0 & E0 & Hin0). destruct (cl_chain _ Hc _ _ _ E0 Hin0) as (t1 & sub & ps & [C1 C2 C3 C4] & Hps). exists t1, sub, ps. split; [by split|done].
Qed.

(** ** Lists *)
Lemma merge_values (l r c : docContent V) : content_ok l -> content_ok r -> mergeContentWith l r = Some c -> contentValues c = contentValues l ++ contentValues r.
Proof.
  destruct l, r; simpl; intros Hl Hr E; simplify_eq/=; rewrite ?fmap_app; try done. unfold mergeString. destruct Hl as (r1 & H1 & ->), Hr as (r2 & H2 & ->).
  by rewrite <- utf8_app, !utf16_utf8, units_app, fmap_app by (try apply list.Forall_app; done).
Qed.

Lemma same_kind_countable (l r : docContent V) : isSameType l r = true -> isCountable l = isCountable r.
Proof. unfold isSameType. rewrite Z.eqb_eq. by destruct l, r. Qed.

Variables og ro : ID -> option ID.

(** The list of a type, with what the readers rely on. *)
Record seq_doc (d : doc) (t : nat) (ty : ytype) (ps : list nat) : Prop := {
  sq_doc : list_doc og ro d t ps;
  sq_type : d_types d !! t = Some ty;
  sq_list : type_list (d_items d) ty ps;
  sq_count : t_itemCount ty = Z.of_nat (length ps);
  sq_flags : forall q qi, q ∈ ps -> d_items d !! q = Some qi -> i_deleted qi = false -> i_countable qi = isCountable (i_content qi)
}.

(** Nothing a reader of the list can see has changed. *)
Record same_list (s s' : state) (t : nat) (ty ty' : ytype) (ps ps' : list nat) : Prop := {
  sl_elems : elems (d_items (c_doc s')) ps' = elems (d_items (c_doc s)) ps;
  sl_values : listValues (d_items (c_doc s')) ps' = listValues (d_items (c_doc s)) ps;
  sl_length : t_length ty' = t_length ty;
  sl_item : t_item ty' = t_item ty;
  sl_markers : markers_ok (d_items (c_doc s)) ps (c_markers s !! t) -> markers_ok (d_items (c_doc s')) ps' (c_markers s' !! t)
}.

Lemma same_list_refl s t ty ps : same_list s s t ty ty ps ps.
Proof. by split. Qed.

Lemma same_list_trans s1 s2 s3 t ty1 ty2 ty3 ps1 ps2 ps3 : same_list s1 s2 t ty1 ty2 ps1 ps2 -> same_list s2 s3 t ty2 ty3 ps2 ps3 -> same_list s1 s3 t ty1 ty3 ps1 ps3.
Proof. intros [A1 A2 A3 A4 A5] [B1 B2 B3 B4 B5]. split; [congruence..|auto]. Qed.

Lemma chars_fuse (pi qi : item) c : 0 <= i_length pi -> 0 <= i_length qi -> i_id qi = GenID (Client (i_id pi)) (Clock (i_id pi) + i_length pi) -> chars (fuse pi qi c) = chars pi ++ chars qi.
Proof. intros H1 H2 E. unfold chars. cbn. rewrite E, Z2Nat.inj_add, run_app by done. cbn. do 2 f_equal. lia. Qed.

Lemma agrees_fuse (pi qi : item) q c : adjacentItems pi q qi = true -> agrees og ro pi -> agrees og ro qi -> agrees og ro (fuse pi qi c).
Proof.
  intros (Eo & _ & Er & Eid & _)%adjacent_inv [P1 P2 P3 P4] [Q1 Q2 Q3 Q4]. split; [done|done|cbn; lia|]. intros x Hx Hne. rewrite chars_fuse in Hx by (done || lia). apply elem_of_app in Hx as [Hx|Hx]; [by apply P4|]. cbn [i_id fuse].
  assert (Eroi : ro (i_id qi) = ro (i_id pi)) by congruence. destruct (decide (x = i_id qi)) as [->|Hxq]; [split; [rewrite <- Q1, Eo, Eid; cbn; done|done]|]. destruct (Q4 x Hx Hxq) as [-> ->]. by split.
Qed.

Lemma fused_cells (h h' : heap) p q pi qi c ps : fused_heap h h' p q pi qi c -> tied h p q pi qi -> p ∉ ps -> same_cells h h' ps.
Proof.
  intros Hf Ht Hp x Hx. pose proof (fused_other h h' p q pi qi c x Hf Ht ltac:(by intros ->)) as Ho. destruct (h !! x), (h' !! x); try done. by destruct Ho as [l ->].
Qed.

Lemma fused_elems (h h' : heap) p q pi qi c ps : fused_heap h h' p q pi qi c -> tied h p q pi qi -> p ∉ ps -> elems h' ps = elems h ps.
Proof.
  intros Hf Ht. induction ps as [|x ps IH]; intros Hp; [done|]. rewrite !elems_cons, IH by set_solver. f_equal. pose proof (fused_other h h' p q pi qi c x Hf Ht ltac:(set_solver)) as Ho. unfold block.
  destruct (h !! x), (h' !! x); try done. by destruct Ho as [l ->].
Qed.

(** The two cells and the one that takes their place. *)
Lemma fuse_cell (d : doc) t ty ps1 p q ps2 pi qi c : seq_doc d t ty (ps1 ++ p :: q :: ps2) -> tied (d_items d) p q pi qi -> canMergeWith pi q qi = true -> mergeContentWith (i_content pi) (i_content qi) = Some c ->
  live qi = live pi /\ cell_ok (fuse pi qi c) /\ item_body t (fuse pi qi c) /\ agrees og ro (fuse pi qi c) /\ chars (fuse pi qi c) = chars pi ++ chars qi /\
  contentValues c = contentValues (i_content pi) ++ contentValues (i_content qi) /\ (i_deleted pi = false -> i_countable pi = isCountable c).
Proof.
  intros Hs [Ep Eq _ _ _ _] [Hadj Hty]%andb_true_iff Hc. pose proof (sq_doc _ _ _ _ Hs) as Hd. assert (Hp : p ∈ ps1 ++ p :: q :: ps2) by set_solver. assert (Hq : q ∈ ps1 ++ p :: q :: ps2) by set_solver.
  pose proof (ld_bodies _ _ _ _ _ Hd p pi Hp Ep) as [P1 P2 P3 P4]. pose proof (ld_bodies _ _ _ _ _ Hd q qi Hq Eq) as [Q1 Q2 Q3 Q4]. pose proof (lr_agrees _ _ _ _ _ (ld_list _ _ _ _ _ Hd) p pi Hp Ep) as Ap. pose proof (lr_agrees _ _ _ _ _ (ld_list _ _ _ _ _ Hd) q qi Hq Eq) as Aq.
  destruct (merge_lengths _ _ _ P3 Q3 Hc) as (Hok & Hlen & Hcnt & _). pose proof (merge_values _ _ _ P3 Q3 Hc) as Hv. pose proof (adjacent_inv _ _ _ Hadj) as (_ & _ & _ & Eid & Edel & _ & _). pose proof (ag_length _ _ _ Ap) as Lp. pose proof (ag_length _ _ _ Aq) as Lq.
  assert (Hlive : live qi = live pi). { unfold live. rewrite Edel. destruct (i_deleted qi) eqn:Edq; [done|]. cbn. rewrite (sq_flags _ _ _ _ Hs q qi Hq Eq Edq), (sq_flags _ _ _ _ Hs p pi Hp Ep) by congruence. symmetry. by apply same_kind_countable. }
  assert (Hcells : cell_ok pi /\ cell_ok qi). { pose proof (tl_cells _ _ _ (sq_list _ _ _ _ Hs)) as Hcs. unfold cells_ok in Hcs. rewrite withItems_app, (withItems_cons _ p pi), (withItems_cons _ q qi), list.Forall_app, !list.Forall_cons in Hcs by done. tauto. }
  split_and!; [done| | |by eapply agrees_fuse|apply chars_fuse; (done || lia)|done|].
  - split; [cbn; lia|]. intros Hl. cbn [i_content i_length fuse]. change (live pi = true) in Hl. rewrite Hv, length_app, Nat2Z.inj_add. destruct Hcells as [[_ Cp] [_ Cq]]. rewrite Cp, Cq by congruence. done.
  - split; [done|done|done|]. cbn. lia.
  - intros Hdel. rewrite Hcnt. by apply (sq_flags _ _ _ _ Hs p).
Qed.

(** The values and the markers of the shorter list. *)
Lemma fuse_reads (h h' : heap) p q pi qi c ps1 ps2 : fused_heap h h' p q pi qi c -> tied h p q pi qi -> NoDup (ps1 ++ p :: q :: ps2) -> live qi = live pi -> cell_ok (fuse pi qi c) ->
  contentValues c = contentValues (i_content pi) ++ contentValues (i_content qi) -> cells_ok (withItems h (ps1 ++ p :: q :: ps2)) ->
  cells_ok (withItems h' (ps1 ++ p :: ps2)) /\ vlen (withItems h' (ps1 ++ p :: ps2)) = vlen (withItems h (ps1 ++ p :: q :: ps2)) /\
  listValues h' (ps1 ++ p :: ps2) = listValues h (ps1 ++ p :: q :: ps2) /\
  forall m, marker_ok h (ps1 ++ p :: q :: ps2) m -> marker_ok h' (ps1 ++ p :: ps2) (moveMarker p q pi m).
Proof.
  intros Hf Ht Hnd Hlive Hcell Hv Hcs. pose proof Hnd as Hnd0. rewrite list.NoDup_app, !list.NoDup_cons in Hnd. destruct Hnd as (_ & Hd1 & Hp & Hq & _).
  pose proof (ti_left _ _ _ _ _ Ht) as Ep. pose proof (ti_right _ _ _ _ _ Ht) as Eq. pose proof (fh_left _ _ _ _ _ _ _ Hf) as Ep'.
  assert (S1 : forall qs, (forall x, x ∈ qs -> x ∈ ps1 ++ ps2) -> same_cells h h' qs). { intros qs Hqs. apply (fused_cells h h' p q pi qi c qs Hf Ht). set_solver. }
  assert (Hvl : forall qs, (forall x, x ∈ qs -> x ∈ ps1 ++ ps2) -> vlen (withItems h' qs) = vlen (withItems h qs)) by (intros qs Hqs; apply (cells_same h h' qs), S1, Hqs).
  destruct (cells_same h h' ps1 (S1 ps1 ltac:(set_solver))) as (V1 & W1 & C1). destruct (cells_same h h' ps2 (S1 ps2 ltac:(set_solver))) as (V2 & W2 & C2).
  assert (Hfl : live (fuse pi qi c) = live pi) by done.
  assert (Hw : forall qs, withItems h (p :: q :: qs) = (p, pi) :: (q, qi) :: withItems h qs) by (intros; by rewrite (withItems_cons h p pi), (withItems_cons h q qi)).
  assert (Hw' : forall qs, withItems h' (p :: qs) = (p, fuse pi qi c) :: withItems h' qs) by (intros; by rewrite (withItems_cons h' p (fuse pi qi c))).
  unfold cells_ok in Hcs. rewrite withItems_app, Hw, list.Forall_app, !list.Forall_cons in Hcs. destruct Hcs as (K1 & _ & _ & K2). split_and!.
  - unfold cells_ok. rewrite withItems_app, Hw'. apply list.Forall_app. split; [by apply C1|]. constructor; [done|by apply C2].
  - rewrite !withItems_app, Hw, Hw', !vlen_app. cbn [vlen]. rewrite V1, V2, Hfl, Hlive. cbn [i_length fuse]. destruct (live pi); lia.
  - unfold listValues. rewrite !withItems_app, Hw, Hw', !values_app. cbn [valuesOf]. rewrite W1, W2, !live_flags, Hfl, Hlive. cbn [i_content fuse]. destruct (live pi); [by rewrite Hv, <- (assoc_L (++))|done].
  - intros m (qs1 & qs2 & E & Em). assert (Hin : m_p m ∈ ps1 ++ p :: q :: ps2) by (rewrite E; set_solver). unfold moveMarker. destruct (bool_decide_reflect (m_p m = q)) as [Eq'|Hne].
    + exists ps1, ps2. cbn. split; [done|]. rewrite Em. rewrite Eq' in E. replace (ps1 ++ p :: q :: ps2) with ((ps1 ++ [p]) ++ q :: ps2) in E, Hnd0 by by rewrite <- (assoc_L (++)).
      destruct (nodup_split q ps2 qs2 (ps1 ++ [p]) qs1 Hnd0 E) as [<- _]. rewrite Hvl by set_solver. rewrite withItems_app, (withItems_cons h p pi [] Ep), vlen_app. cbn. destruct (live pi); lia.
    + apply elem_of_app in Hin as [Hin|[Hmp|[?|Hin]%elem_of_cons]%elem_of_cons]; [| |done|].
      * apply list_elem_of_split in Hin as (a & b & ->). rewrite <- (assoc_L (++)) in E, Hnd0. destruct (nodup_split _ _ _ _ _ Hnd0 E) as [<- _]. exists a, (b ++ p :: ps2). split; [by rewrite <- (assoc_L (++))|]. rewrite Hvl; [done|set_solver].
      * rewrite Hmp in E. destruct (nodup_split p (q :: ps2) qs2 ps1 qs1 Hnd0 E) as [<- _]. exists ps1, ps2. rewrite Hmp. split; [done|]. by rewrite Hvl by set_solver.
      * apply list_elem_of_split in Hin as (a & b & ->). replace (ps1 ++ p :: q :: a ++ m_p m :: b) with ((ps1 ++ p :: q :: a) ++ m_p m :: b) in E, Hnd0 by by rewrite <- (assoc_L (++)).
        destruct (nodup_split _ _ _ _ _ Hnd0 E) as [<- _]. exists (ps1 ++ p :: a), b. split; [by rewrite <- (assoc_L (++))|]. rewrite Em, !withItems_app, Hw, Hw', !vlen_app. cbn [vlen]. rewrite V1, Hfl, Hlive, (Hvl a) by set_solver. cbn [i_length fuse]. destruct (live pi); lia.
Qed.

Lemma body_left t l (it : item) : item_body t it -> item_body t (with_left l it).
Proof. by intros [? ? ? ?]. Qed.

(** *** The step on the list that holds both items *)
Lemma step_inside (s s' : state) k ss1 p q ss2 pi qi c t ty m ps1 ps2 : seq_doc (c_doc s) t ty (ps1 ++ p :: q :: ps2) -> store_repr (c_doc s') -> heap_fresh (c_doc s') ->
  clients (d_store (c_doc s)) !! k = Some (ss1 ++ RItem p :: RItem q :: ss2) -> tied (d_items (c_doc s)) p q pi qi -> canMergeWith pi q qi = true -> mergeContentWith (i_content pi) (i_content qi) = Some c ->
  fused_heap (d_items (c_doc s)) (d_items (c_doc s')) p q pi qi c -> d_store (c_doc s') = with_clients (d_store (c_doc s)) (<[k := ss1 ++ RItem p :: ss2]> (clients (d_store (c_doc s)))) ->
  d_types (c_doc s') !! t = Some (with_map m (updateListItemCount (-1) ty)) -> c_markers s' = alter (moveMarkers p q pi) t (c_markers s) -> linked (d_items (c_doc s')) None (ps1 ++ p :: ps2) ->
  seq_doc (c_doc s') t (with_map m (updateListItemCount (-1) ty)) (ps1 ++ p :: ps2) /\ same_list s s' t ty (with_map m (updateListItemCount (-1) ty)) (ps1 ++ p :: q :: ps2) (ps1 ++ p :: ps2).
Proof.
  intros Hs Hst Hfr Hk Ht Hm Hc Hf Est Ety' Hmk Hl'. pose proof (sq_doc _ _ _ _ Hs) as Hd. pose proof (ld_nodup _ _ _ _ _ Hd) as Hnd. destruct (fuse_cell _ t ty ps1 p q ps2 pi qi c Hs Ht Hm Hc) as (Hlive & Hcell & Hbody & Hag & Hch & Hv & Hflag).
  destruct (fuse_reads _ _ p q pi qi c ps1 ps2 Hf Ht Hnd Hlive Hcell Hv (tl_cells _ _ _ (sq_list _ _ _ _ Hs))) as (R1 & R2 & R3 & R4).
  assert (Hnd' : NoDup (ps1 ++ p :: ps2) /\ (p ∉ ps1 ++ ps2) /\ (q ∉ ps1 ++ p :: ps2)). { rewrite !list.NoDup_app, !list.NoDup_cons in *. set_solver. } destruct Hnd' as (Hnd' & Hp & Hq).
  assert (Hback : forall x xi, x ∈ ps1 ++ p :: ps2 -> d_items (c_doc s') !! x = Some xi -> (x = p /\ xi = fuse pi qi c) \/ (x ∈ ps1 ++ p :: q :: ps2 /\ exists a l, d_items (c_doc s) !! x = Some a /\ xi = with_left l a)).
  { intros x xi Hx Ex. destruct (decide (x = p)) as [->|Hne]; [left; rewrite (fh_left _ _ _ _ _ _ _ Hf) in Ex; by injection Ex as <-|]. right. split; [set_solver|].
    pose proof (fused_other _ _ p q pi qi c x Hf Ht Hne) as Ho. rewrite Ex in Ho. destruct (d_items (c_doc s) !! x) as [a|]; [|done]. destruct Ho as [l ->]. by exists a, l. }
  split; [split; [split; [done|split|..]|done|..]|split].
  - eexists. split; [exact Ety'|]. cbn. destruct (lr_start _ _ _ _ _ (ld_list _ _ _ _ _ Hd)) as (ty0 & E0 & Hst0). rewrite (sq_type _ _ _ _ Hs) in E0. injection E0 as <-. rewrite Hst0. by destruct ps1.
  - done.
  - intros x xi Hx Ex. destruct (Hback x xi Hx Ex) as [[-> ->]|(Hx0 & a & l & Ea & ->)]; [done|]. apply (agrees_body og ro a); [done|]. by apply (lr_agrees _ _ _ _ _ (ld_list _ _ _ _ _ Hd) x).
  - intros x xi Hx Ex. destruct (store_head _ k ss1 p pi (RItem q :: ss2) (ld_store _ _ _ _ _ Hd) Hk (ti_left _ _ _ _ _ Ht)) as (Hcl & _ & _). rewrite Est. cbn [with_clients clients].
    destruct (Hback x xi Hx Ex) as [[-> ->]|(Hx0 & a & l & Ea & ->)]; [cbn; rewrite Hcl, lookup_insert_eq; eexists; split; [done|set_solver]|].
    destruct (lr_store _ _ _ _ _ (ld_list _ _ _ _ _ Hd) x a Hx0 Ea) as (ss & E0 & Hin). cbn. destruct (decide (Client (i_id a) = k)) as [E|E]; [|rewrite lookup_insert_ne by done; eauto].
    rewrite E in *. rewrite lookup_insert_eq. eexists. split; [done|]. assert (x <> q) by (intros ->; done). simplify_eq. set_solver.
  - intros x xi Hx Ex. destruct (Hback x xi Hx Ex) as [[-> ->]|(Hx0 & a & l & Ea & ->)]; [done|]. by apply body_left, (ld_bodies _ _ _ _ _ Hd x).
  - done.
  - done.
  - split; [|done|done|].
    + cbn. rewrite (tl_start _ _ _ (sq_list _ _ _ _ Hs)). by destruct ps1.
    + cbn. rewrite R2. apply (tl_length _ _ _ (sq_list _ _ _ _ Hs)).
  - cbn. rewrite (sq_count _ _ _ _ Hs), !length_app. cbn. lia.
  - intros x xi Hx Ex. destruct (Hback x xi Hx Ex) as [[-> ->]|(Hx0 & a & l & Ea & ->)]; [exact Hflag|]. exact (sq_flags _ _ _ _ Hs x a Hx0 Ea).
  - rewrite !elems_app, !elems_cons, !(fused_elems _ _ p q pi qi c _ Hf Ht) by set_solver. rewrite (block_Some _ _ _ (fh_left _ _ _ _ _ _ _ Hf)), (block_Some _ _ _ (ti_left _ _ _ _ _ Ht)), (block_Some _ _ _ (ti_right _ _ _ _ _ Ht)), Hch. by rewrite <- (assoc_L (++)).
  - done.
  - done.
  - done.
  - rewrite Hmk, lookup_alter_eq. destruct (c_markers s !! t) as [st|]; [|done]. cbn. intros Hms. apply list.Forall_fmap. eapply list.Forall_impl; [exact Hms|]. apply R4.
Qed.

(** *** The step on any other list *)
Lemma list_kept (s s' : state) t ty ty' ps : seq_doc (c_doc s) t ty ps -> store_repr (c_doc s') -> heap_fresh (c_doc s') ->
  (forall x, x ∈ ps -> d_items (c_doc s') !! x = d_items (c_doc s) !! x) ->
  (forall x k ss, x ∈ ps -> clients (d_store (c_doc s)) !! k = Some ss -> RItem x ∈ ss -> exists ss', clients (d_store (c_doc s')) !! k = Some ss' /\ RItem x ∈ ss') ->
  d_types (c_doc s') !! t = Some ty' -> t_start ty' = t_start ty -> t_length ty' = t_length ty -> t_itemCount ty' = t_itemCount ty -> t_item ty' = t_item ty ->
  (c_markers s' !! t = c_markers s !! t \/ exists p q (pi : item), (q ∉ ps) /\ c_markers s' !! t = moveMarkers p q pi <$> c_markers s !! t) ->
  seq_doc (c_doc s') t ty' ps /\ same_list s s' t ty ty' ps ps.
Proof.
  intros Hs Hst Hfr Hsame Hin Et' E1 E2 E3 E4 Hmk. pose proof (sq_doc _ _ _ _ Hs) as Hd. pose proof (ld_list _ _ _ _ _ Hd) as Hl.
  assert (Hcells : forall qs, (forall x, x ∈ qs -> x ∈ ps) -> same_cells (d_items (c_doc s)) (d_items (c_doc s')) qs). { intros qs Hqs x Hx. rewrite Hsame by auto. by destruct (d_items (c_doc s) !! x). }
  destruct (cells_same _ _ ps (Hcells ps ltac:(done))) as (V1 & W1 & C1).
  assert (Hmoved : forall m, marker_ok (d_items (c_doc s)) ps m -> marker_ok (d_items (c_doc s')) ps m).
  { intros m (qs1 & qs2 & E & Em). exists qs1, qs2. split; [done|]. rewrite Em. symmetry. apply (cells_same _ _ qs1), Hcells. intros x Hx. rewrite E. set_solver. }
  assert (Hlinked : linked (d_items (c_doc s')) None ps). { apply linked_lseg. eapply lseg_ext; [exact Hsame|]. apply linked_lseg, Hl. }
  split; [split; [split; [done|split|..]|done|..]|split].
  - exists ty'. split; [done|]. rewrite E1. destruct (lr_start _ _ _ _ _ Hl) as (ty0 & E0 & Hst0). rewrite (sq_type _ _ _ _ Hs) in E0. by injection E0 as <-.
  - done.
  - intros x xi Hx Ex. rewrite Hsame in Ex by done. by apply (lr_agrees _ _ _ _ _ Hl x).
  - intros x xi Hx Ex. rewrite Hsame in Ex by done. destruct (lr_store _ _ _ _ _ Hl x xi Hx Ex) as (ss & E0 & Hx0). by eapply Hin.
  - intros x xi Hx Ex. rewrite Hsame in Ex by done. by apply (ld_bodies _ _ _ _ _ Hd x).
  - done.
  - apply Hd.
  - destruct (sq_list _ _ _ _ Hs) as [T1 T2 T3 T4]. split; [congruence|done|by apply C1|congruence].
  - rewrite E3. apply Hs.
  - intros x xi Hx Ex. rewrite Hsame in Ex by done. by apply (sq_flags _ _ _ _ Hs x).
  - clear -Hsame. induction ps as [|x ps IH]; [done|]. rewrite !elems_cons, IH by (intros; apply Hsame; by right). f_equal. unfold block. by rewrite Hsame by left.
  - exact W1.
  - done.
  - done.
  - destruct (c_markers s !! t) as [st|] eqn:Em; cbn [markers_ok]; last first. { intros _. by destruct Hmk as [->|(p & q & pi & _ & ->)]. }
    intros Hms. destruct Hmk as [->|(p & q & pi & Hq & ->)]; cbn [fmap option_fmap option_map markers_ok moveMarkers sm_list]; [by eapply list.Forall_impl; [exact Hms|]|].
    apply list.Forall_fmap. eapply list.Forall_impl; [exact Hms|]. intros m Hm. cbn. unfold moveMarker. rewrite bool_decide_false; [by apply Hmoved|]. intros <-. apply Hq. destruct Hm as (? & ? & -> & _). set_solver.
Qed.

(** ** A step keeps every list *)
Lemma step_list (s s' : state) t ty ps : clean_doc (c_doc s) -> ~ dead (c_doc s) t -> merge_step s s' -> seq_doc (c_doc s) t ty ps -> exists ty' ps', seq_doc (c_doc s') t ty' ps' /\ same_list s s' t ty ty' ps ps'.
Proof.
  intros Hcd Halive Hstep Hs. pose proof (step_clean s s' Hcd Hstep) as Hcd'. pose proof (sq_doc _ _ _ _ Hs) as Hd. pose proof (ld_list _ _ _ _ _ Hd) as Hlr.
  destruct Hstep as [k ss1 p q ss2 pi qi c t0 ty0 m Hk Ht Hm Hmc Hpar Ety Hf Est Ety' Hm' Hn Hmk|k ss1 g r ss2 Hk ->]; last first.
  { exists ty, ps. apply list_kept; try done; [apply Hcd'|apply Hcd'| |apply Hs|by left]. intros x k' ss Hx E0 Hin. cbn [c_doc set_doc d_store set_store with_clients clients].
    destruct (decide (k' = k)) as [->|Hne]; [rewrite lookup_insert_eq; eexists; split; [done|simplify_eq; set_solver]|rewrite lookup_insert_ne by done; eauto]. }
  destruct (fuse_cases _ _ p q pi qi c ps Hf Ht (ld_nodup _ _ _ _ _ Hd) (lr_linked _ _ _ _ _ Hlr)) as [(ps1 & ps2 & -> & Hl')|(Hp & Hq & Hsame & Hl')].
  - pose proof (ld_bodies _ _ _ _ _ Hd p pi ltac:(set_solver) (ti_left _ _ _ _ _ Ht)) as [Epar Esub _ _]. rewrite Hpar in Epar. injection Epar as ->. rewrite (sq_type _ _ _ _ Hs) in Ety. injection Ety as <-. rewrite bool_decide_true in Ety' by done.
    eexists _, (ps1 ++ p :: ps2). eapply (step_inside s s' k ss1 p q ss2); try done; [apply Hcd'|apply Hcd'|by rewrite Ety', lookup_insert_eq].
  - assert (Hkeep : forall x k' ss, x ∈ ps -> clients (d_store (c_doc s)) !! k' = Some ss -> RItem x ∈ ss -> exists ss', clients (d_store (c_doc s')) !! k' = Some ss' /\ RItem x ∈ ss').
    { intros x k' ss Hx E0 Hin. rewrite Est. cbn [with_clients clients]. destruct (decide (k' = k)) as [->|Hne]; [|rewrite lookup_insert_ne by done; eauto]. rewrite lookup_insert_eq. eexists. split; [done|].
      assert (x <> q) by (by intros ->). simplify_eq. set_solver. }
    destruct (decide (t = t0)) as [->|Hne].
    + rewrite (sq_type _ _ _ _ Hs) in Ety. injection Ety as <-. assert (Hsub : i_parentSub pi <> []).
      { intros Esub. apply Hp. destruct (cl_chain _ Hcd k _ p Hk ltac:(set_solver)) as (t1 & sub & ps' & [Cl _ Cm (ty1 & Et1 & Cs)] & Hin). destruct (Cm p pi Hin (ti_left _ _ _ _ _ Ht)) as [Epar Es]. rewrite Hpar in Epar. injection Epar as <-.
        rewrite (sq_type _ _ _ _ Hs) in Et1. injection Et1 as <-. rewrite (linked_by_head _ ps ps' None (lr_linked _ _ _ _ _ Hlr) Cl); [done|]. destruct Cs as [<-|Hdead]; [congruence| |done]. symmetry. apply (tl_start _ _ _ (sq_list _ _ _ _ Hs)). }
      rewrite bool_decide_false in Ety' by done. eexists _, ps. apply (list_kept s s' t0 ty (with_map m ty) ps); try done; [apply Hcd'|apply Hcd'|by rewrite Ety', lookup_insert_eq|]. right. exists p, q, pi. split; [done|]. by rewrite Hmk, lookup_alter_eq.
    + exists ty, ps. apply list_kept; try done; [apply Hcd'|apply Hcd'|rewrite Ety', lookup_insert_ne by done; apply Hs|]. left. by rewrite Hmk, lookup_alter_ne.
Qed.

Lemma steps_list (s s' : state) t ty ps : clean_doc (c_doc s) -> ~ dead (c_doc s) t -> rtc merge_step s s' -> seq_doc (c_doc s) t ty ps ->
  exists ty' ps', seq_doc (c_doc s') t ty' ps' /\ same_list s s' t ty ty' ps ps'.
Proof.
  intros Hc Hal Hr. revert ty ps. induction Hr as [s|s1 s2 s3 Hstep Hr IH]; intros ty ps Hs; [exists ty, ps; split; [done|apply same_list_refl]|].
  destruct (step_list s1 s2 t ty ps Hc Hal Hstep Hs) as (ty2 & ps2 & Hs2 & H12). destruct (IH (step_clean _ _ Hc Hstep) ltac:(by rewrite (step_dead s1 s2 t Hstep)) ty2 ps2 Hs2) as (ty3 & ps3 & Hs3 & H23). exists ty3, ps3. split; [done|by eapply same_list_trans].
Qed.

Lemma steps_clean (s s' : state) : clean_doc (c_doc s) -> rtc merge_step s s' ->
  clean_doc (c_doc s') /\ forall k, @getState _ (refStruct (d_items (c_doc s'))) (d_store (c_doc s')) k = @getState _ (refStruct (d_items (c_doc s))) (d_store (c_doc s)) k.
Proof.
  intros Hc Hr. induction Hr as [s|s1 s2 s3 Hstep Hr IH]; [done|]. destruct (IH (step_clean _ _ Hc Hstep)) as [I1 I2]. split; [done|]. intros k. rewrite I2. by apply step_store; [apply Hc|].
Qed.

End Keeps.

(** ** The routines are sequences of steps *)
Section Routines.
Context {V : Type} (interpolate : Z -> Z -> Z -> Z).
Context (Hinterp : forall clock span end_, 0 < span -> 0 <= clock <= span -> 0 <= end_ -> 0 <= interpolate clock span end_ <= end_).
Abbreviation item := (itemStruct V).
Abbreviation doc := (docState V).
Abbreviation heap := (gmap nat item).
Abbreviation state := (cleanState V).

Lemma onDoc_ok {A} (m : @Item.M V A) (s : state) a d : m (c_doc s) = (Ok a, d) -> onDoc m s = (Ok a, mkClean d (c_markers s)).
Proof. intros E. unfold onDoc. by rewrite E. Qed.

Lemma onDoc_getItem (s : state) p it : d_items (c_doc s) !! p = Some it -> onDoc (getItem p) s = (Ok it, s).
Proof. intros E. rewrite (onDoc_ok _ _ it (c_doc s)); [by destruct s|]. by apply getItem_eq. Qed.

Lemma onDoc_setItem (s : state) p it f : d_items (c_doc s) !! p = Some it -> onDoc (setItem p f) s = (Ok tt, set_doc (set_items (<[p := f it]> (d_items (c_doc s))) (c_doc s)) s).
Proof. intros E. erewrite onDoc_ok; [reflexivity|]. by apply setItem_eq. Qed.

Lemma onDoc_setType (s : state) t ty f : d_types (c_doc s) !! t = Some ty -> onDoc (setType t f) s = (Ok tt, set_doc (set_types (<[t := f ty]> (d_types (c_doc s))) (c_doc s)) s).
Proof. intros E. erewrite onDoc_ok; [reflexivity|]. by apply setType_eq. Qed.

(** What [mergeStructWith] does; the store is changed by its caller. *)
Record surgery (s s' : state) (p q : nat) (pi qi : item) (c : docContent V) (t : nat) (ty : ytype) : Prop := {
  su_heap : fused_heap (d_items (c_doc s)) (d_items (c_doc s')) p q pi qi c;
  su_store : d_store (c_doc s') = d_store (c_doc s);
  su_types : d_types (c_doc s') = <[t := if bool_decide (i_parentSub pi = []) then updateListItemCount (-1) ty else ty]> (d_types (c_doc s));
  su_next : d_next (c_doc s') = d_next (c_doc s);
  su_markers : c_markers s' = alter (moveMarkers p q pi) t (c_markers s)
}.

Lemma completeMergeWith_spec (s : state) p q pi qi t ty : tied (d_items (c_doc s)) p q pi qi -> i_parent pi = ParentType t -> d_types (c_doc s) !! t = Some ty ->
  exists s', completeMergeWith p q s = (Ok tt, s') /\ surgery s s' p q pi qi (i_content pi) t ty.
Proof.
  intros Ht Epar Ety. pose proof (ti_left _ _ _ _ _ Ht) as Ep. pose proof (ti_right _ _ _ _ _ Ht) as Eq. pose proof (ti_beyond _ _ _ _ _ Ht) as Hn. destruct s as [d ms]. cbn [c_doc c_markers] in *.
  set (h0 := if i_keep qi then <[p := with_flags true (i_deleted pi) pi]> (d_items d) else d_items d). set (pi0 := if i_keep qi then with_flags true (i_deleted pi) pi else pi).
  assert (E0 : h0 !! p = Some pi0) by (subst h0 pi0; destruct (i_keep qi); [apply lookup_insert_eq|done]).
  set (h1 := <[p := with_right (i_right qi) pi0]> h0). set (pi1 := with_right (i_right qi) pi0).
  set (h2 := match i_right qi with Some n => alter (with_left (Some p)) n h1 | None => h1 end).
  assert (E2 : h2 !! p = Some pi1). { subst h2. destruct (i_right qi) as [n|]; [|by apply lookup_insert_eq]. destruct (Hn n eq_refl) as (Hnp & _). rewrite lookup_alter_ne by done. apply lookup_insert_eq. }
  set (pi2 := with_body (i_id pi1) (i_length pi1 + i_length qi) (i_content pi1) pi1). set (h3 := <[p := pi2]> h2).
  exists (mkClean (set_types (<[t := if bool_decide (i_parentSub pi = []) then updateListItemCount (-1) ty else ty]> (d_types d)) (set_items h3 d)) (alter (moveMarkers p q pi) t ms)). split.
  - unfold completeMergeWith. erewrite rbind_ok; [|by apply onDoc_getItem]. erewrite rbind_ok; [|by apply onDoc_getItem]. rewrite Epar. erewrite rbind_ok; [|reflexivity]. cbn [c_doc c_markers].
    rewrite (rbind_ok _ _ _ tt (mkClean (set_items h0 d) (alter (moveMarkers p q pi) t ms))); last first.
    { subst h0. destruct (i_keep qi); [erewrite onDoc_setItem; [reflexivity|exact Ep]|by destruct d]. }
    erewrite rbind_ok; [|erewrite onDoc_setItem; [reflexivity|exact E0]]. cbn [c_doc c_markers set_doc set_items d_items].
    rewrite (rbind_ok _ _ _ tt (mkClean (set_items h2 d) (alter (moveMarkers p q pi) t ms))); last first.
    { subst h2. destruct (i_right qi) as [n|] eqn:En; [|done]. destruct (Hn n eq_refl) as (Hnp & Hnq & ni & Eni & _).
      assert (E1n : h1 !! n = Some ni) by (subst h1 h0; rewrite lookup_insert_ne by done; destruct (i_keep qi); rewrite ?lookup_insert_ne by done; done).
      erewrite onDoc_setItem; [|exact E1n]. unfold set_doc. cbn [c_doc c_markers d_items set_items]. replace (<[n := with_left (Some p) ni]> h1) with (alter (with_left (Some p)) n h1); [done|]. apply map_eq. intros x. destruct (decide (x = n)) as [->|Hx]; [by rewrite lookup_insert_eq, lookup_alter_eq, E1n|by rewrite lookup_insert_ne, lookup_alter_ne]. }
    erewrite rbind_ok; [|erewrite onDoc_setItem; [reflexivity|exact E2]]. cbn [c_doc c_markers set_doc set_items d_items].
    destruct (bool_decide _); [erewrite onDoc_setType; [reflexivity|exact Ety]|]. unfold rret. rewrite (insert_id (d_types d) t ty) by done. by destruct d.
  - split; cbn [c_doc c_markers set_types set_items d_items d_store d_types d_next]; try done. split.
    + subst h3. rewrite lookup_insert_eq. f_equal. subst pi2 pi1 pi0. unfold fuse. destruct (i_keep qi); cbn; by rewrite ?orb_true_r, ?orb_false_r.
    + intros n ni En Eni. destruct (Hn n En) as (Hnp & _). subst h3 h2. rewrite En. rewrite lookup_insert_ne, lookup_alter_eq by done. subst h1 h0. rewrite lookup_insert_ne by done. destruct (i_keep qi); rewrite ?lookup_insert_ne by done; by rewrite Eni.
    + intros x Hxp Hxn. subst h3. rewrite lookup_insert_ne by done. subst h2. assert (E1 : h1 !! x = d_items d !! x) by (subst h1 h0; rewrite lookup_insert_ne by done; destruct (i_keep qi); rewrite ?lookup_insert_ne by done; done).
      destruct (i_right qi) as [n|]; [|done]. rewrite lookup_alter_ne by congruence. done.
Qed.

(** Whether two items merge. *)
Definition mergesWith (pi : item) (q : nat) (qi : item) : bool := canMergeWith pi q qi && match mergeContentWith (i_content pi) (i_content qi) with Some _ => true | None => false end.

Definition mergeable (h : heap) (left right : structRef) : bool :=
  match left, right with
  | RItem p, RItem q => match h !! p, h !! q with Some pi, Some qi => mergesWith pi q qi | _, _ => false end
  | RGC _, RGC _ => true
  | _, _ => false
  end.

Lemma store_item (d : doc) k ss p : clean_doc d -> clients (d_store d) !! k = Some ss -> RItem p ∈ ss ->
  exists pi t ty, d_items d !! p = Some pi /\ i_parent pi = ParentType t /\ d_types d !! t = Some ty /\ forall q, i_right pi = Some q -> exists qi, tied (d_items d) p q pi qi.
Proof.
  intros Hc Hk Hp. destruct (sr_items _ (cl_store _ Hc) _ _ _ Hk Hp) as [pi Ep]. destruct (cl_chain _ Hc _ _ _ Hk Hp) as (t & sub & ps & Hch & Hin). destruct (ch_members _ _ _ _ Hch p pi Hin Ep) as [Epar _]. destruct (ch_type _ _ _ _ Hch) as (ty & Et & _).
  exists pi, t, ty. split_and!; [done|done|done|]. intros q Eq. by eapply chain_tied.
Qed.

Lemma merges_tied (d : doc) k ss p q pi qi : clean_doc d -> clients (d_store d) !! k = Some ss -> RItem p ∈ ss -> d_items d !! p = Some pi -> d_items d !! q = Some qi -> adjacentItems pi q qi = true -> tied (d_items d) p q pi qi.
Proof.
  intros Hc Hk Hp Ep Eq (_ & Er & _)%adjacent_inv. destruct (store_item d k ss p Hc Hk Hp) as (pi' & _ & _ & E & _ & _ & Ht). simplify_eq. destruct (Ht q Er) as (qi' & Ht'). pose proof (ti_right _ _ _ _ _ Ht'). by simplify_eq.
Qed.

(** Setting the contents first. *)
Lemma tied_content (h : heap) p q pi qi (c : docContent V) n : tied h p q pi qi -> tied (<[p := with_body (i_id pi) n c pi]> h) p q (with_body (i_id pi) n c pi) qi.
Proof.
  intros [T1 T2 T3 T4 T5 T6]. split; [apply lookup_insert_eq|by rewrite lookup_insert_ne|done|done|done|]. intros x Ex. destruct (T6 x Ex) as (N1 & N2 & xi & Exi & El). split_and!; [done|done|]. exists xi. by rewrite lookup_insert_ne.
Qed.

Lemma mergeWith_spec (s : state) p q pi qi t ty : (adjacentItems pi q qi = true -> tied (d_items (c_doc s)) p q pi qi) -> d_items (c_doc s) !! p = Some pi -> d_items (c_doc s) !! q = Some qi ->
  i_parent pi = ParentType t -> d_types (c_doc s) !! t = Some ty ->
  if mergesWith pi q qi then exists s' c, mergeWithWithoutReadIndexInvalidation p q s = (Ok true, s') /\ mergeContentWith (i_content pi) (i_content qi) = Some c /\ canMergeWith pi q qi = true /\
    tied (d_items (c_doc s)) p q pi qi /\ surgery s s' p q pi qi c t ty
  else mergeWithWithoutReadIndexInvalidation p q s = (Ok false, s).
Proof.
  intros Hti Ep Eq Epar Ety. unfold mergesWith, mergeWithWithoutReadIndexInvalidation. erewrite rbind_ok; [|by apply onDoc_getItem]. erewrite rbind_ok; [|by apply onDoc_getItem].
  destruct (canMergeWith pi q qi) eqn:Ecan; [|done]. destruct (mergeContentWith (i_content pi) (i_content qi)) as [c|]; [|done]. cbn [andb].
  pose proof Ecan as [Hadj _]%andb_true_iff. pose proof (Hti Hadj) as Ht. set (pi1 := with_body (i_id pi) (i_length pi) c pi). set (s1 := set_doc (set_items (<[p := pi1]> (d_items (c_doc s))) (c_doc s)) s).
  destruct (completeMergeWith_spec s1 p q pi1 qi t ty) as (s' & E & Hs); [by apply tied_content|done|done|]. exists s', c. split_and!; [|done|done|done|].
  - erewrite rbind_ok; [|erewrite onDoc_setItem; [reflexivity|exact Ep]]. erewrite rbind_ok; [|exact E]. done.
  - destruct Hs as [[F1 F2 F3] S2 S3 S4 S5]. split; try done. split; [exact F1| |].
    + intros n ni En Eni. apply (F2 n ni En). cbn. destruct (ti_beyond _ _ _ _ _ Ht n En) as (Hnp & _). by rewrite lookup_insert_ne.
    + intros x Hx Hn. rewrite (F3 x Hx Hn). cbn. by rewrite lookup_insert_ne.
Qed.

(** The store may be set before or after. *)
Definition with_store (st : structStore structRef) (s : state) : state := set_doc (set_store st (c_doc s)) s.

Lemma with_store_id (s : state) : with_store (d_store (c_doc s)) s = s.
Proof. by destruct s as [[? ? ? ? ?] ?]. Qed.

Lemma surgery_step (s s' : state) st k ss1 p q ss2 pi qi c t ty : surgery s s' p q pi qi c t ty -> tied (d_items (c_doc s)) p q pi qi -> canMergeWith pi q qi = true -> mergeContentWith (i_content pi) (i_content qi) = Some c ->
  i_parent pi = ParentType t -> d_types (c_doc s) !! t = Some ty -> clients st !! k = Some (ss1 ++ RItem p :: RItem q :: ss2) ->
  merge_step (with_store st s) (with_store (with_clients st (<[k := ss1 ++ RItem p :: ss2]> (clients st))) s').
Proof.
  intros [S1 S2 S3 S4 S5] Ht Hcan Hc Hpar Ety Hk. eapply (step_items _ _ k ss1 p q ss2 pi qi c t ty (t_map ty)); cbn [with_store set_doc c_doc c_markers set_store d_store d_items d_types d_next]; try done; [|by left].
  rewrite S3. f_equal. destruct (bool_decide _); by destruct ty.
Qed.

(** *** Which pairs merge after a merge *)
Lemma merge_ref (l r c : docContent V) : mergeContentWith l r = Some c -> contentRef c = contentRef l /\ contentRef l = contentRef r.
Proof. destruct l, r; simpl; intros E; by simplify_eq/=. Qed.

Lemma merges_ref (c c' x : docContent V) : contentRef c = contentRef c' -> is_Some (mergeContentWith c x) <-> is_Some (mergeContentWith c' x).
Proof. destruct c, c'; simpl; intros E; try done; destruct x; simpl; split; (done || by eexists). Qed.

Lemma fuse_merges (pi qi : item) q c y (b : item) : canMergeWith pi q qi = true -> mergeContentWith (i_content pi) (i_content qi) = Some c -> mergesWith (fuse pi qi c) y b = mergesWith qi y b.
Proof.
  intros [Hadj _]%andb_true_iff Hc. apply adjacent_inv in Hadj as (_ & _ & Er & Eid & Ed & Erp & Erq). destruct (merge_ref _ _ _ Hc) as [R1 R2]. unfold mergesWith, canMergeWith. f_equal; [f_equal|].
  - unfold adjacentItems. cbn [fuse i_id i_length i_right i_rightOrigin i_deleted i_redone]. rewrite Er, Ed, Erp, Erq, Eid. cbn [Client Clock]. by rewrite !Z.add_assoc.
  - unfold isSameType. cbn. congruence.
  - cbn. pose proof (merges_ref c (i_content qi) (i_content b) ltac:(congruence)) as Hm. destruct (mergeContentWith c (i_content b)), (mergeContentWith (i_content qi) (i_content b)); try done; [destruct (proj1 Hm ltac:(by eexists)) as [? ?]|destruct (proj2 Hm ltac:(by eexists)) as [? ?]]; done.
Qed.

Lemma fused_pairs (h h' : heap) p q pi qi c : fused_heap h h' p q pi qi c -> tied h p q pi qi -> canMergeWith pi q qi = true -> mergeContentWith (i_content pi) (i_content qi) = Some c ->
  (forall a b, a <> RItem p -> b <> RItem p -> mergeable h' a b = mergeable h a b) /\ (forall b, b <> RItem p -> mergeable h' (RItem p) b = mergeable h (RItem q) b).
Proof.
  intros Hf Ht Hcan Hc. assert (Ho : forall x, RItem x <> RItem p -> match h !! x, h' !! x with Some a, Some b => exists l, b = with_left l a | None, None => True | _, _ => False end).
  { intros x Hx. apply (fused_other h h' p q pi qi c x Hf Ht). congruence. } split.
  - intros [x|g] [y|g'] Hx Hy; try done. cbn. specialize (Ho x Hx) as Hox. specialize (Ho y Hy) as Hoy. destruct (h !! x), (h' !! x), (h !! y), (h' !! y); try done. destruct Hox as [l ->], Hoy as [l' ->]. done.
  - intros [y|g'] Hy; [|done]. cbn. rewrite (fh_left _ _ _ _ _ _ _ Hf), (ti_right _ _ _ _ _ Ht). specialize (Ho y Hy) as Hoy. destruct (h !! y), (h' !! y); try done. destruct Hoy as [l ->]. by rewrite (fuse_merges pi qi q c).
Qed.

(** *** One position *)
Lemma structsOf_ok (s : state) k ss : clients (d_store (c_doc s)) !! k = Some ss -> structsOf k s = (Ok ss, s).
Proof. intros E. unfold structsOf, clientStructs. by rewrite E. Qed.

Lemma at_middle (ss1 ss2 : list structRef) r (s : state) i : i = Z.of_nat (length ss1) -> at_ (ss1 ++ r :: ss2) i s = (Ok r, s).
Proof. intros ->. unfold at_. rewrite zlookup_nat, list_lookup_middle by done. done. Qed.

Lemma removePositions_ok (s : state) k ss1 l ss2 start count : clients (d_store (c_doc s)) !! k = Some (ss1 ++ l ++ ss2) -> start = length ss1 -> count = length l ->
  removePositions k start count s = (Ok tt, with_store (with_clients (d_store (c_doc s)) (<[k := ss1 ++ ss2]> (clients (d_store (c_doc s))))) s).
Proof.
  intros E -> ->. unfold removePositions. erewrite rbind_ok; [|by apply structsOf_ok]. destruct (Nat.eqb_spec (length l) 0) as [El|El].
  - apply nil_length_inv in El as ->. cbn [app] in E. rewrite insert_id by done. unfold rret. f_equal. by destruct s as [[? ? [? ? ? ?] ? ?] ?].
  - rewrite take_app_length. replace (length ss1 + length l)%nat with (length (ss1 ++ l)) by apply length_app. rewrite (assoc_L (++)), drop_app_length. done.
Qed.

(** Which of the two it is, and what the new struct merges with. *)
Record merged_at (s s' : state) (k : Z) (ss1 : list structRef) (l r : structRef) (ss2 : list structRef) : Prop := {
  ma_step : merge_step s s';
  ma_list : exists l', clients (d_store (c_doc s')) !! k = Some (ss1 ++ l' :: ss2) /\ forall b, b ∈ ss2 -> mergeable (d_items (c_doc s')) l' b = mergeable (d_items (c_doc s)) r b;
  ma_pairs : forall a b, a ∈ ss2 -> b ∈ ss2 -> mergeable (d_items (c_doc s')) a b = mergeable (d_items (c_doc s)) a b
}.

Lemma deleted_eq (h : heap) l r : mergeable h l r = true -> @structDeleted _ (refStruct h) l = @structDeleted _ (refStruct h) r.
Proof.
  destruct l as [p|g], r as [q|g']; try done. cbn. destruct (h !! p) as [pi|], (h !! q) as [qi|]; try done. intros [[Hadj _]%andb_true_iff _]%andb_true_iff. cbn. by apply adjacent_inv in Hadj as (_ & _ & _ & _ & -> & _).
Qed.

Lemma tryMergeWithLeft_items (s : state) k ss1 p q ss2 position : clean_doc (c_doc s) -> clients (d_store (c_doc s)) !! k = Some (ss1 ++ RItem p :: RItem q :: ss2) -> position = Z.of_nat (S (length ss1)) ->
  if mergeable (d_items (c_doc s)) (RItem p) (RItem q) then exists s', tryMergeWithLeft k position s = (Ok tt, s') /\ merged_at s s' k ss1 (RItem p) (RItem q) ss2
  else tryMergeWithLeft k position s = (Ok tt, s).
Proof.
  intros Hc Hk Hpos. destruct (store_item _ k _ p Hc Hk ltac:(set_solver)) as (pi & t & ty & Ep & Epar & Ety & _). destruct (store_item _ k _ q Hc Hk ltac:(set_solver)) as (qi & t' & ty' & Eq & Eparq & Etyq & _).
  pose proof (mergeWith_spec s p q pi qi t ty ltac:(by apply (merges_tied _ k _ p q pi qi Hc Hk ltac:(set_solver) Ep Eq)) Ep Eq Epar Ety) as Hm.
  assert (Hpre : tryMergeWithLeft k position s = (if negb (Bool.eqb (i_deleted pi) (i_deleted qi)) then rret tt else
    (merged <-- mergeStructWith p q;;; if (merged : bool) then
          _ <-- removePositions k (Z.to_nat position) 1;;;
          r <-- onDoc (getItem q);;;
          if bool_decide (i_parentSub r <> []) then
            t <-- onDoc (parentType r);;;
            ty <-- onDoc (getType t);;;
            if bool_decide (t_map ty !! i_parentSub r = Some q) then onDoc (setType t (fun ty => with_map (<[i_parentSub r := p]> (t_map ty)) ty))
            else rret tt
          else rret tt
        else rret tt)) s).
  { unfold tryMergeWithLeft. erewrite rbind_ok; [|by apply structsOf_ok]. erewrite rbind_ok; [|apply at_middle; lia]. replace (ss1 ++ RItem p :: RItem q :: ss2) with ((ss1 ++ [RItem p]) ++ RItem q :: ss2) by by rewrite <- (assoc_L (++)).
    erewrite rbind_ok; [|apply at_middle; rewrite length_app; cbn; lia]. erewrite rbind_ok; [|reflexivity]. cbn [structDeleted refStruct]. rewrite Ep, Eq. cbn [from_option]. by destruct (negb _). }
  rewrite Hpre. cbn [mergeable]. rewrite Ep, Eq. destruct (mergesWith pi q qi) eqn:Emw; last first. { destruct (negb _); [done|]. unfold mergeStructWith. erewrite rbind_ok; [|exact Hm]. done. }
  destruct Hm as (s1 & c & E1 & Ec & Hcan & Ht & Hsu). pose proof Hcan as [Hadj _]%andb_true_iff. pose proof (adjacent_inv _ _ _ Hadj) as (_ & Er & _ & _ & Ed & _ & _). rewrite Ed, Bool.eqb_reflx. cbn [negb]. unfold mergeStructWith. erewrite rbind_ok; [|exact E1]. cbv beta iota.
  pose proof (surgery_step s s1 (d_store (c_doc s)) k ss1 p q ss2 pi qi c t ty Hsu Ht Hcan Ec Epar Ety Hk) as Hstep. rewrite with_store_id in Hstep. set (s2 := with_store _ s1) in Hstep.
  assert (Erm : removePositions k (Z.to_nat position) 1 s1 = (Ok tt, s2)).
  { replace (ss1 ++ RItem p :: RItem q :: ss2) with ((ss1 ++ [RItem p]) ++ [RItem q] ++ ss2) in Hk by by rewrite <- !(assoc_L (++)). rewrite (removePositions_ok s1 k (ss1 ++ [RItem p]) [RItem q] ss2); [|by rewrite (su_store _ _ _ _ _ _ _ _ _ Hsu)|rewrite length_app; cbn; lia|done].
    subst s2. by rewrite (su_store _ _ _ _ _ _ _ _ _ Hsu), <- (assoc_L (++)). }
  erewrite rbind_ok; [|exact Erm]. pose proof (ti_ne _ _ _ _ _ Ht) as Hne. assert (Eq1 : d_items (c_doc s2) !! q = Some qi).
  { cbn. rewrite (fh_other _ _ _ _ _ _ _ (su_heap _ _ _ _ _ _ _ _ _ Hsu)); [done|done|]. intros E. by destruct (ti_beyond _ _ _ _ _ Ht q E) as (_ & ? & _). }
  erewrite rbind_ok; [|by apply onDoc_getItem].
  assert (Hnd : (RItem p ∉ ss2)). { destruct (store_head _ k ss1 p pi (RItem q :: ss2) (cl_store _ Hc) Hk Ep) as (_ & Hn & _). set_solver. }
  destruct (fused_pairs _ _ p q pi qi c (su_heap _ _ _ _ _ _ _ _ _ Hsu) Ht Hcan Ec) as [P1 P2].
  assert (Hdone : forall s', merge_step s s' -> d_items (c_doc s') = d_items (c_doc s1) -> d_store (c_doc s') = d_store (c_doc s2) -> merged_at s s' k ss1 (RItem p) (RItem q) ss2).
  { intros s' Hs' Ei Es. split; [done| |].
    - exists (RItem p). rewrite Es, Ei. cbn. rewrite lookup_insert_eq. split; [done|]. intros b Hb. apply P2. by intros ->.
    - intros a b Ha Hb. rewrite Ei. apply P1; by intros ->. }
  destruct (bool_decide_reflect (i_parentSub qi <> [])) as [Hsub|Hsub]; [|exists s2; split; [done|by apply Hdone]].
  destruct (cl_chain _ Hc k _ p Hk ltac:(set_solver)) as (t1 & sub & ps & [Cl Cn Cm _] & Hin). destruct (Cm p pi Hin Ep) as [Ep1 Es1]. assert (Hq : q ∈ ps). { destruct (linked_next _ ps p pi Cl Hin Ep) as (a & [|q' b] & -> & Eh & _); rewrite Er in Eh; [done|injection Eh as <-; set_solver]. }
  destruct (Cm q qi Hq Eq) as [Eq2 Es2]. assert (t' = t) as -> by congruence. assert (Esub : i_parentSub pi = i_parentSub qi) by congruence. unfold parentType. rewrite Eparq. erewrite rbind_ok; [|reflexivity].
  pose proof (su_types _ _ _ _ _ _ _ _ _ Hsu) as Est. rewrite bool_decide_false in Est by congruence. assert (Et2 : d_types (c_doc s2) !! t = Some ty) by (cbn; rewrite Est, lookup_insert_eq; done).
  assert (E2' : onDoc (getType t) s2 = (Ok ty, s2)) by (rewrite (onDoc_ok _ _ ty (c_doc s2)); [by destruct s2|by apply getType_eq]). replace (mkClean (c_doc s2) (c_markers s2)) with s2 by by destruct s2. erewrite rbind_ok; [|exact E2'].
  destruct (bool_decide_reflect (t_map ty !! i_parentSub qi = Some q)) as [Hmap|Hmap]; [|exists s2; split; [done|by apply Hdone]].
  eexists. split; [erewrite onDoc_setType; [reflexivity|exact Et2]|]. apply Hdone; [|done|done]. eapply (step_items _ _ k ss1 p q ss2 pi qi c t ty (<[i_parentSub qi := p]> (t_map ty))); try done; cbn [set_doc c_doc c_markers d_items set_types d_store d_types d_next].
  - apply Hsu.
  - rewrite bool_decide_false by congruence. cbn. rewrite Est, insert_insert_eq. done.
  - by right.
  - apply Hsu.
  - apply Hsu.
Qed.

Lemma tryMergeWithLeft_spec (s : state) k ss1 l r ss2 position : clean_doc (c_doc s) -> clients (d_store (c_doc s)) !! k = Some (ss1 ++ l :: r :: ss2) -> position = Z.of_nat (S (length ss1)) ->
  if mergeable (d_items (c_doc s)) l r then exists s', tryMergeWithLeft k position s = (Ok tt, s') /\ merged_at s s' k ss1 l r ss2 else tryMergeWithLeft k position s = (Ok tt, s).
Proof.
  intros Hc Hk Hpos. destruct l as [p|g], r as [q|g']; [by apply tryMergeWithLeft_items|..]; unfold tryMergeWithLeft; (erewrite rbind_ok; [|by apply structsOf_ok]); (erewrite rbind_ok; [|apply at_middle; lia]).
  all: match goal with |- context [?x ++ ?a :: ?b :: ?y] => replace (x ++ a :: b :: y) with ((x ++ [a]) ++ b :: y) by by rewrite <- (assoc_L (++)) end.
  all: (erewrite rbind_ok; [|apply at_middle; rewrite length_app; cbn; lia]); (erewrite rbind_ok; [|reflexivity]).
  - destruct (negb _); done.
  - destruct (negb _); done.
  - cbn [structDeleted refStruct mergeable]. cbn [Bool.eqb negb gcMergeStructWith]. set (st := with_clients (d_store (c_doc s)) (<[k := ss1 ++ RGC (newGC (gc_id g) (gc_length g + gc_length g')) :: ss2]> (clients (d_store (c_doc s))))). exists (with_store st s).
    assert (Hstep : merge_step s (with_store st s)) by (eapply step_gc; [exact Hk|done]). split.
    + replace (Z.to_nat (position - 1)) with (length ss1) by lia. rewrite <- (assoc_L (++)). cbn [app]. rewrite insert_app_r_alt, Nat.sub_diag by lia. cbn [list_insert insert]. set (ss' := ss1 ++ RGC (newGC (gc_id g) (gc_length g + gc_length g')) :: RGC g' :: ss2).
      assert (E1 : setStructs k ss' s = (Ok tt, with_store (with_clients (d_store (c_doc s)) (<[k := ss']> (clients (d_store (c_doc s))))) s)) by done. erewrite rbind_ok; [|exact E1].
      erewrite (removePositions_ok _ k (ss1 ++ [RGC (newGC (gc_id g) (gc_length g + gc_length g'))]) [RGC g'] ss2); [|cbn; rewrite lookup_insert_eq; subst ss'; by rewrite <- (assoc_L (++))|rewrite length_app; cbn; lia|done].
      cbn [with_store set_doc c_doc c_markers d_store set_store with_clients clients]. rewrite insert_insert_eq, <- (assoc_L (++)). done.
    + split; [done| |done]. exists (RGC (newGC (gc_id g) (gc_length g + gc_length g'))). cbn. by rewrite lookup_insert_eq.
Qed.

(** *** Downwards over a range *)
Definition compact_from (h : heap) (n : nat) (ss : list structRef) : Prop := forall i a b, (n <= i)%nat -> ss !! i = Some a -> ss !! S i = Some b -> mergeable h a b = false.

Lemma last_two {A} (ss : list A) n : (S n < length ss)%nat -> exists ss1 l r ss2, ss = ss1 ++ l :: r :: ss2 /\ length ss1 = n.
Proof.
  intros Hn. destruct (lookup_lt_is_Some_2 ss n) as [l El]; [lia|]. destruct (lookup_lt_is_Some_2 ss (S n)) as [r Er]; [lia|]. exists (take n ss), l, r, (drop (S (S n)) ss). split; [|rewrite length_take; lia].
  rewrite <- (take_drop n ss) at 1. f_equal. rewrite (drop_S ss l n El). f_equal. by apply drop_S.
Qed.

Lemma compact_merged (s s' : state) k ss1 l r ss2 : merged_at s s' k ss1 l r ss2 -> compact_from (d_items (c_doc s)) (S (length ss1)) (ss1 ++ l :: r :: ss2) ->
  exists l', clients (d_store (c_doc s')) !! k = Some (ss1 ++ l' :: ss2) /\ compact_from (d_items (c_doc s')) (length ss1) (ss1 ++ l' :: ss2).
Proof.
  intros [_ (l' & E & Hl) Hp] Hcf. exists l'. split; [done|]. intros i a b Hi Ha Hb. rewrite lookup_app_r in Ha by lia. rewrite lookup_app_r in Hb by lia. replace (S i - length ss1)%nat with (S (i - length ss1)) in Hb by lia. cbn in Hb.
  destruct (i - length ss1)%nat as [|j] eqn:Ej.
  - cbn in Ha. injection Ha as <-. rewrite Hl by (by eapply list_elem_of_lookup_2). apply (Hcf (S (length ss1))); [done| |].
    + rewrite lookup_app_r by lia. by replace (S (length ss1) - length ss1)%nat with 1%nat by lia.
    + rewrite lookup_app_r by lia. by replace (S (S (length ss1)) - length ss1)%nat with 2%nat by lia.
  - cbn in Ha. rewrite Hp by (by eapply list_elem_of_lookup_2). apply (Hcf (S i)); [lia| |].
    + rewrite lookup_app_r by lia. by replace (S i - length ss1)%nat with (S (S j)) by lia.
    + rewrite lookup_app_r by lia. by replace (S (S i) - length ss1)%nat with (S (S (S j))) by lia.
Qed.

(** What a routine guarantees. *)
Definition keeps_store (s : state) (m : step state unit) : Prop := exists s', m s = (Ok tt, s') /\ rtc merge_step s s'.

Lemma mergeDown_spec fuel : forall (s : state) k first j ss, clean_doc (c_doc s) -> clients (d_store (c_doc s)) !! k = Some ss -> (j < length ss)%nat -> 1 <= first -> (j < fuel)%nat -> compact_from (d_items (c_doc s)) j ss ->
  exists s' ss', mergeDown fuel k first (Z.of_nat j) s = (Ok tt, s') /\ rtc merge_step s s' /\ clients (d_store (c_doc s')) !! k = Some ss' /\ compact_from (d_items (c_doc s')) (Nat.min j (Z.to_nat (first - 1))) ss'.
Proof.
  induction fuel as [|fuel IH]; intros s k first j ss Hc Hk Hj Hf Hfuel Hcf; [lia|]. cbn [mergeDown]. destruct (Z.leb_spec first (Z.of_nat j)) as [Hle|Hgt]; last first.
  { exists s, ss. split_and!; [done|done|done|]. by rewrite Nat.min_l by lia. }
  destruct j as [|j]; [lia|]. destruct (last_two ss j Hj) as (ss1 & l & r & ss2 & -> & <-). pose proof (tryMergeWithLeft_spec s k ss1 l r ss2 (Z.of_nat (S (length ss1))) Hc Hk eq_refl) as Hm. rewrite Nat.min_r by lia.
  replace (Z.of_nat (S (length ss1)) - 1) with (Z.of_nat (length ss1)) by lia. destruct (mergeable (d_items (c_doc s)) l r) eqn:Em.
  - destruct Hm as (s1 & E1 & Hma). erewrite rbind_ok; [|exact E1]. destruct (compact_merged s s1 k ss1 l r ss2 Hma Hcf) as (l' & Hk1 & Hcf1).
    destruct (IH s1 k first (length ss1) (ss1 ++ l' :: ss2)) as (s2 & ss' & E2 & Hr & Hk2 & Hcf2); [by eapply step_clean; [|apply Hma]|done|rewrite length_app; cbn; lia|done|lia|done|].
    exists s2, ss'. split_and!; [done|eapply rtc_l; [apply Hma|done]|done|]. by rewrite Nat.min_r in Hcf2 by lia.
  - erewrite rbind_ok; [|exact Hm]. destruct (IH s k first (length ss1) (ss1 ++ l :: r :: ss2)) as (s2 & ss' & E2 & Hr & Hk2 & Hcf2); [done|done|lia|done|lia| |].
    + intros i a b Hi Ha Hb. destruct (decide (i = length ss1)) as [->|Hne]; [|apply (Hcf i); (done || lia)]. rewrite list_lookup_middle in Ha by done. rewrite lookup_app_r in Hb by lia.
      replace (S (length ss1) - length ss1)%nat with 1%nat in Hb by lia. cbn in Hb. by simplify_eq.
    + exists s2, ss'. split_and!; [done|done|done|]. by rewrite Nat.min_r in Hcf2 by lia.
Qed.

Lemma keeps_clean (s : state) m : clean_doc (c_doc s) -> keeps_store s m -> exists s', m s = (Ok tt, s') /\ rtc merge_step s s' /\ clean_doc (c_doc s').
Proof. intros Hc (s' & E & Hr). exists s'. split_and!; [done|done|]. by apply (steps_clean s s'). Qed.

Lemma pass_bind (s : state) (m k : step state unit) : clean_doc (c_doc s) -> keeps_store s m -> (forall s', rtc merge_step s s' -> clean_doc (c_doc s') -> keeps_store s' k) -> keeps_store s (_ <-- m;;; k).
Proof.
  intros Hc Hm Hk. destruct (keeps_clean s m Hc Hm) as (s1 & E1 & H1 & Hc1). destruct (Hk s1 H1 Hc1) as (s2 & E2 & H2). exists s2. split; [|by etrans]. erewrite rbind_ok; [|exact E1]. exact E2.
Qed.

Lemma pass_ret (s : state) : keeps_store s (rret tt).
Proof. by exists s. Qed.

(** A step keeps a client's list, and leaves it no struct it did not have. *)
Lemma step_clients (s s' : state) k : merge_step s s' -> is_Some (clients (d_store (c_doc s)) !! k) -> is_Some (clients (d_store (c_doc s')) !! k).
Proof.
  intros [k0 ss1 p q ss2 pi qi c t ty m _ _ _ _ _ _ _ Est _ _ _ _|k0 ss1 g r ss2 _ ->] Hk; [rewrite Est|]; cbn; destruct (decide (k = k0)) as [->|Hne]; [rewrite lookup_insert_eq; eauto|by rewrite lookup_insert_ne|rewrite lookup_insert_eq; eauto|by rewrite lookup_insert_ne].
Qed.

Lemma steps_clients (s s' : state) k : rtc merge_step s s' -> is_Some (clients (d_store (c_doc s)) !! k) -> is_Some (clients (d_store (c_doc s')) !! k).
Proof. induction 1 as [|s1 s2 s3 Hs _ IH]; [done|]. intros Hk. apply IH. by eapply step_clients. Qed.

Lemma tryMerge_keeps (s : state) k ss j : clean_doc (c_doc s) -> clients (d_store (c_doc s)) !! k = Some ss -> (S j < length ss)%nat ->
  exists s' ss', tryMergeWithLeft k (Z.of_nat (S j)) s = (Ok tt, s') /\ rtc merge_step s s' /\ clean_doc (c_doc s') /\ clients (d_store (c_doc s')) !! k = Some ss' /\ (j < length ss')%nat.
Proof.
  intros Hc Hk Hj. destruct (last_two ss j Hj) as (ss1 & l & r & ss2 & -> & <-). pose proof (tryMergeWithLeft_spec s k ss1 l r ss2 _ Hc Hk eq_refl) as Hm. destruct (mergeable _ l r).
  - destruct Hm as (s' & E & Hma). destruct (ma_list _ _ _ _ _ _ _ Hma) as (l' & Hk' & _). exists s', (ss1 ++ l' :: ss2). split_and!; [done|apply rtc_once, Hma|by eapply step_clean; [|apply Hma]|done|rewrite length_app; cbn; lia].
  - exists s, (ss1 ++ l :: r :: ss2). split_and!; [done|done|done|done|lia].
Qed.

Lemma mergeDeleteItem_keeps fuel : forall (s : state) k clock j ss, clean_doc (c_doc s) -> clients (d_store (c_doc s)) !! k = Some ss -> (j < length ss)%nat -> keeps_store s (mergeDeleteItem fuel k clock (Z.of_nat j)).
Proof.
  induction fuel as [|fuel IH]; intros s k clock j ss Hc Hk Hj; unfold keeps_store; cbn [mergeDeleteItem]; destruct (lookup_lt_is_Some_2 ss j Hj) as [r Er].
  all: assert (Eat : at_ ss (Z.of_nat j) s = (Ok r, s)) by (unfold at_; by rewrite zlookup_nat, Er).
  all: (erewrite rbind_ok; [|by apply structsOf_ok]); (erewrite rbind_ok; [|exact Eat]); (erewrite rbind_ok; [|reflexivity]).
  1: by exists s.
  destruct j as [|j]; [by exists s|]. destruct (_ && _); [|by exists s]. destruct (tryMerge_keeps s k ss j Hc Hk Hj) as (s1 & ss1 & E1 & H1 & Hc1 & Hk1 & Hj1).
  erewrite rbind_ok; [|exact E1]. replace (Z.of_nat (S j) - 1) with (Z.of_nat j) by lia. destruct (IH s1 k clock j ss1 Hc1 Hk1 Hj1) as (s2 & E2 & H2). exists s2. split; [done|by etrans].
Qed.

Lemma findIndex_range (d : doc) k ss clock i : store_repr d -> clients (d_store d) !! k = Some ss -> @findIndexSS _ (refStruct (d_items d)) interpolate ss clock = Ok i -> 0 <= i < Z.of_nat (length ss).
Proof.
  intros [(Hok & _) _] Hk E. destruct (Hok _ _ Hk) as (_ & (c & Hc) & _). pose proof (@findIndexSS_spec _ (refStruct (d_items d)) interpolate Hinterp ss clock (@contiguous_nonempty _ (refStruct (d_items d)) c ss Hc)) as Hs. rewrite E in Hs. destruct Hs as (x & Hx & _). by apply zlookup_Some in Hx.
Qed.

Lemma client_nonempty (d : doc) k ss : store_repr d -> clients (d_store d) !! k = Some ss -> (0 < length ss)%nat.
Proof. intros [(Hok & _) _] Hk. destruct (Hok _ _ Hk) as (Hne & _). destruct ss; [done|cbn; lia]. Qed.

Lemma findOrZero_range (d : doc) k ss clock : store_repr d -> clients (d_store d) !! k = Some ss -> 0 <= findOrZero interpolate (d_items d) ss clock < Z.of_nat (length ss).
Proof.
  intros Hs Hk. unfold findOrZero. destruct (findIndexSS _ ss clock) as [i|] eqn:E; [by eapply findIndex_range|]. pose proof (client_nonempty d k ss Hs Hk). lia.
Qed.

Lemma tryMergeDeleteItems_keeps k dis : forall s : state, clean_doc (c_doc s) -> is_Some (clients (d_store (c_doc s)) !! k) -> keeps_store s (tryMergeDeleteItems interpolate k dis).
Proof.
  induction dis as [|di dis IH]; intros s Hc Hk; [apply pass_ret|]. cbn [tryMergeDeleteItems]. apply pass_bind; [done|by apply IH|]. intros s1 H1 Hc1. destruct (steps_clients s s1 k H1 Hk) as [ss Hss]. unfold keeps_store.
  erewrite rbind_ok; [|by apply structsOf_ok]. erewrite rbind_ok; [|reflexivity]. pose proof (findOrZero_range _ k ss (di_clock di + di_length di - 1) (cl_store _ Hc1) Hss) as Hr. set (n := findOrZero _ _ _ _) in *.
  set (position := Z.min (Z.of_nat (length ss) - 1) (1 + n)). assert (Hpos : 0 <= position < Z.of_nat (length ss)) by (subst position; lia). rewrite <- (Z2Nat.id position) by lia. apply (mergeDeleteItem_keeps _ s1 k _ _ ss); (done || lia).
Qed.

Lemma mergeAround_keeps k clock (s : state) : clean_doc (c_doc s) -> is_Some (clients (d_store (c_doc s)) !! k) -> keeps_store s (mergeAround interpolate k clock).
Proof.
  intros Hc [ss Hk]. unfold keeps_store, mergeAround. erewrite rbind_ok; [|by apply structsOf_ok]. erewrite rbind_ok; [|reflexivity]. destruct (findIndexSS _ ss clock) as [i|] eqn:E; [|by exists s].
  pose proof (findIndex_range _ k ss clock i (cl_store _ Hc) Hk E) as Hi. rewrite <- (Z2Nat.id i) by lia. set (j := Z.to_nat i) in *.
  assert (H1 : exists s1 ss1, (if Z.of_nat j + 1 <? Z.of_nat (length ss) then tryMergeWithLeft k (Z.of_nat j + 1) else rret tt) s = (Ok tt, s1) /\ rtc merge_step s s1 /\ clean_doc (c_doc s1) /\ clients (d_store (c_doc s1)) !! k = Some ss1 /\ (j < length ss1)%nat).
  { destruct (Z.ltb_spec (Z.of_nat j + 1) (Z.of_nat (length ss))) as [Hlt|Hge]; [|exists s, ss; split_and!; (done || lia)]. replace (Z.of_nat j + 1) with (Z.of_nat (S j)) by lia. apply (tryMerge_keeps s k ss j); (done || lia). }
  destruct H1 as (s1 & ss1 & E1 & H1 & Hc1 & Hk1 & Hj1). erewrite rbind_ok; [|exact E1]. destruct (Z.ltb_spec 0 (Z.of_nat j)) as [Hlt|Hge]; [|by exists s1]. destruct j as [|j]; [lia|].
  destruct (tryMerge_keeps s1 k ss1 j Hc1 Hk1 Hj1) as (s2 & ss2 & E2 & H2 & _). exists s2. split; [done|by etrans].
Qed.

(** *** Runs *)
Lemma mergeAnyRun_spec p l : forall (s : state) st k ss1 ss2, clean_doc (c_doc (with_store st s)) -> clients st !! k = Some (ss1 ++ RItem p :: l ++ ss2) ->
  exists n s', mergeAnyRun p l s = (Ok n, s') /\ (n <= length l)%nat /\ d_store (c_doc s') = d_store (c_doc s) /\
    rtc merge_step (with_store st s) (with_store (with_clients st (<[k := ss1 ++ RItem p :: drop n l ++ ss2]> (clients st))) s').
Proof.
  induction l as [|r l IH]; intros s st k ss1 ss2 Hc Hk; cbn [mergeAnyRun].
  { exists 0%nat, s. split_and!; [done|cbn; lia|done|]. cbn [app drop] in *. rewrite insert_id by done. by destruct st. }
  assert (Hstop : exists n s', (rret 0%nat : step state nat) s = (Ok n, s') /\ (n <= length (r :: l))%nat /\ d_store (c_doc s') = d_store (c_doc s) /\ rtc merge_step (with_store st s) (with_store (with_clients st (<[k := ss1 ++ RItem p :: drop n (r :: l) ++ ss2]> (clients st))) s')).
  { exists 0%nat, s. split_and!; [done|lia|done|]. rewrite drop_0, insert_id by done. by destruct st. }
  destruct r as [q|g]; [|exact Hstop]. set (v := with_store st s) in *.
  destruct (store_item _ k _ p Hc Hk ltac:(set_solver)) as (pi & t & ty & Ep & Epar & Ety & _). destruct (store_item _ k _ q Hc Hk ltac:(set_solver)) as (qi & _ & _ & Eq & _).
  pose proof (mergeWith_spec s p q pi qi t ty ltac:(by apply (merges_tied _ k _ p q pi qi Hc Hk ltac:(set_solver) Ep Eq)) Ep Eq Epar Ety) as Hm. destruct (mergesWith pi q qi); [|by erewrite rbind_ok; [|exact Hm]].
  destruct Hm as (s1 & c & E1 & Ec & Hcan & Ht & Hsu). erewrite rbind_ok; [|exact E1]. cbv beta iota.
  pose proof (surgery_step s s1 st k ss1 p q (l ++ ss2) pi qi c t ty Hsu Ht Hcan Ec Epar Ety Hk) as Hstep. set (st1 := with_clients st _) in Hstep.
  destruct (IH s1 st1 k ss1 ss2) as (n & s2 & E2 & Hn & Es & Hr); [by eapply step_clean|subst st1; cbn; by rewrite lookup_insert_eq|]. exists (S n), s2. split_and!.
  - erewrite rbind_ok; [|exact E2]. done.
  - cbn. lia.
  - by rewrite Es, (su_store _ _ _ _ _ _ _ _ _ Hsu).
  - eapply rtc_l; [exact Hstep|]. subst st1. cbn [with_clients clients drop] in *. by rewrite insert_insert_eq in Hr.
Qed.

Lemma runLength_le pair (h : heap) previous rest : (runLength pair h previous rest <= length rest)%nat.
Proof. revert previous. induction rest as [|[q|g] rest IH]; intros previous; cbn; [lia| |lia]. destruct (h !! q) as [next|]; [|lia]. destruct (pair _ _ _); [specialize (IH next); lia|lia]. Qed.

Lemma runAt_split pair (h : heap) ss start p n : runAt pair h ss start = Some (p, n) -> exists ss1 l ss2, ss = ss1 ++ RItem p :: l ++ ss2 /\ length ss1 = start /\ length l = n /\ l = take n (drop (start + 1) ss).
Proof.
  unfold runAt. destruct (ss !! start) as [[p'|]|] eqn:Es; try done. destruct (h !! p') as [it|]; [|done]. cbn [mbind option_bind]. pose proof (runLength_le pair h it (drop (start + 1) ss)) as Hl. set (m := runLength _ _ _ _) in *.
  destruct (_ <? 2)%nat; [done|]. intros [= -> ->]. exists (take start ss), (take n (drop (start + 1) ss)), (drop n (drop (start + 1) ss)). split_and!; [|rewrite length_take; apply lookup_lt_Some in Es; lia|rewrite length_take; lia|done].
  rewrite take_drop. rewrite <- (take_drop start ss) at 1. f_equal. rewrite (drop_S ss (RItem p) start Es). do 2 f_equal. lia.
Qed.

Lemma coalesceAny_run (s : state) k ss start p n : clean_doc (c_doc s) -> clients (d_store (c_doc s)) !! k = Some ss -> runAt canMergeContentAnyPair (d_items (c_doc s)) ss start = Some (p, n) ->
  keeps_store s (merged <-- mergeAnyRun p (take n (drop (start + 1) ss));;; removePositions k (start + 1) merged).
Proof.
  intros Hc Hk Hrun. destruct (runAt_split _ _ _ _ _ _ Hrun) as (ss1 & l & ss2 & E & Hs & Hl & El). rewrite <- El. rewrite E in Hk.
  destruct (mergeAnyRun_spec p l s (d_store (c_doc s)) k ss1 ss2) as (m & s' & E1 & Hm & Est & Hr); [by rewrite with_store_id|done|]. rewrite with_store_id in Hr. unfold keeps_store.
  erewrite rbind_ok; [|exact E1]. rewrite <- (take_drop m l) in Hk. rewrite <- (assoc_L (++)) in Hk. eexists. split; [|exact Hr].
  rewrite (removePositions_ok s' k (ss1 ++ [RItem p]) (take m l) (drop m l ++ ss2)); [by rewrite Est, <- (assoc_L (++))|rewrite Est, <- (assoc_L (++)); done|rewrite length_app; cbn; lia|rewrite length_take; lia].
Qed.

Lemma coalesceAny_keeps fuel k : forall (s : state) start, clean_doc (c_doc s) -> is_Some (clients (d_store (c_doc s)) !! k) -> keeps_store s (coalesceContentAnyRuns fuel k start).
Proof.
  induction fuel as [|fuel IH]; intros s start Hc [ss Hk]; [apply pass_ret|]. unfold keeps_store. cbn [coalesceContentAnyRuns]. erewrite rbind_ok; [|by apply structsOf_ok]. erewrite rbind_ok; [|reflexivity]. destruct (_ <? _)%nat; [|apply pass_ret].
  apply pass_bind; [done| |intros s1 H1 Hc1; apply IH; [done|by eapply steps_clients; [exact H1|]]]. destruct (runAt _ _ _ _) as [[p n]|] eqn:Er; [by apply coalesceAny_run|apply pass_ret].
Qed.

(** The combined string is stored at the end of a run: the document as if it
    were stored at once. *)
Definition with_text (cs : list Z) (it : item) : item := with_body (i_id it) (i_length it) (contentString cs) it.
Definition with_string (p : nat) (cs : list Z) (st : structStore structRef) (s : state) : state :=
  with_store st (set_doc (set_items (alter (with_text cs) p (d_items (c_doc s))) (c_doc s)) s).

Lemma tied_ext (h : heap) p q pi pi' qi : tied h p q pi qi -> i_right pi' = i_right pi -> tied (<[p := pi']> h) p q pi' qi.
Proof.
  intros [T1 T2 T3 T4 T5 T6] Er. split; [apply lookup_insert_eq|by rewrite lookup_insert_ne|congruence|done|done|]. intros x Ex. destruct (T6 x Ex) as (N1 & N2 & xi & Exi & El). split_and!; [done|done|]. exists xi. by rewrite lookup_insert_ne.
Qed.

Lemma string_step (s s1 : state) st k ss1 p q ss2 pi qi cs t ty : surgery s s1 p q pi qi (i_content pi) t ty -> tied (d_items (c_doc s)) p q pi qi -> canMergeWith pi q qi = true -> isString (i_content pi) = true ->
  i_parent pi = ParentType t -> d_types (c_doc s) !! t = Some ty -> clients st !! k = Some (ss1 ++ RItem p :: RItem q :: ss2) ->
  merge_step (with_string p cs st s) (with_string p (cs ++ stringOf (i_content qi)) (with_clients st (<[k := ss1 ++ RItem p :: ss2]> (clients st))) s1).
Proof.
  intros [S1 S2 S3 S4 S5] Ht Hcan Hstr Hpar Ety Hk. pose proof Hcan as [Hadj Hty]%andb_true_iff. assert (Hq : exists v, i_content qi = contentString v) by (destruct (i_content pi), (i_content qi); try done; by eexists). destruct Hq as [v Ev]. rewrite Ev. cbn [stringOf].
  pose proof (ti_left _ _ _ _ _ Ht) as Ep. assert (Ht' : tied (alter (with_text cs) p (d_items (c_doc s))) p q (with_text cs pi) qi).
  { replace (alter (with_text cs) p (d_items (c_doc s))) with (<[p := with_text cs pi]> (d_items (c_doc s))); [by eapply tied_ext|]. apply map_eq. intros x. destruct (decide (x = p)) as [->|Hne]; [by rewrite lookup_insert_eq, lookup_alter_eq, Ep|by rewrite lookup_insert_ne, lookup_alter_ne]. }
  eapply (step_items _ _ k ss1 p q ss2 (with_text cs pi) qi (contentString (cs ++ v)) t ty (t_map ty)); cbn [with_string with_store set_doc c_doc c_markers set_store set_items d_store d_items d_types d_next]; try done.
  - unfold canMergeWith. rewrite andb_true_iff. split; [exact Hadj|]. by rewrite Ev.
  - rewrite Ev. done.
  - destruct S1 as [F1 F2 F3]. split.
    + by rewrite lookup_alter_eq, F1.
    + intros n ni En Eni. destruct (ti_beyond _ _ _ _ _ Ht n En) as (Hnp & _). rewrite lookup_alter_ne in Eni |- * by done. by apply F2.
    + intros x Hx Hn. rewrite !lookup_alter_ne by done. by apply F3.
  - rewrite S3. f_equal. cbn [i_parentSub with_text with_body]. destruct (bool_decide _); by destruct ty.
  - by left.
Qed.

Lemma mergeStringRun_spec p l : forall (s : state) st k ss1 ss2 pi cs, d_items (c_doc s) !! p = Some pi -> isString (i_content pi) = true -> clean_doc (c_doc (with_string p cs st s)) -> clients st !! k = Some (ss1 ++ RItem p :: l ++ ss2) ->
  exists n cs' s' pi', mergeStringRun p l cs s = (Ok (n, cs'), s') /\ (n <= length l)%nat /\ d_store (c_doc s') = d_store (c_doc s) /\ d_items (c_doc s') !! p = Some pi' /\
    rtc merge_step (with_string p cs st s) (with_string p cs' (with_clients st (<[k := ss1 ++ RItem p :: drop n l ++ ss2]> (clients st))) s').
Proof.
  induction l as [|r l IH]; intros s st k ss1 ss2 pi cs Ep Hstr Hc Hk; cbn [mergeStringRun].
  { exists 0%nat, cs, s, pi. split_and!; [done|cbn; lia|done|done|]. cbn [app drop] in *. rewrite insert_id by done. by destruct st. }
  assert (Hstop : exists n cs' s' pi', (rret (0%nat, cs) : step state _) s = (Ok (n, cs'), s') /\ (n <= length (r :: l))%nat /\ d_store (c_doc s') = d_store (c_doc s) /\ d_items (c_doc s') !! p = Some pi' /\
    rtc merge_step (with_string p cs st s) (with_string p cs' (with_clients st (<[k := ss1 ++ RItem p :: drop n (r :: l) ++ ss2]> (clients st))) s')).
  { exists 0%nat, cs, s, pi. split_and!; [done|lia|done|done|]. rewrite drop_0, insert_id by done. by destruct st. }
  destruct r as [q|g]; [|exact Hstop]. set (v := with_string p cs st s) in *.
  assert (Epv : d_items (c_doc v) !! p = Some (with_text cs pi)) by (cbn; by rewrite lookup_alter_eq, Ep).
  destruct (store_item _ k _ p Hc Hk ltac:(set_solver)) as (pi' & t & ty & Ep' & Epar & Ety & _). rewrite Epv in Ep'. injection Ep' as <-. destruct (store_item _ k _ q Hc Hk ltac:(set_solver)) as (qi & _ & _ & Eqv & _).
  assert (Hqp : q <> p). { intros ->. destruct (store_head _ k ss1 p (with_text cs pi) (RItem p :: l ++ ss2) (cl_store _ Hc) Hk Epv) as (_ & Hn & _). set_solver. }
  assert (Eq : d_items (c_doc s) !! q = Some qi) by (cbn in Eqv; by rewrite lookup_alter_ne in Eqv). erewrite rbind_ok; [|by apply onDoc_getItem]. erewrite rbind_ok; [|by apply onDoc_getItem].
  destruct (canMergeWith pi q qi) eqn:Hcan; [|exact Hstop]. pose proof Hcan as [Hadj _]%andb_true_iff. assert (Ht : tied (d_items (c_doc s)) p q pi qi).
  { pose proof (merges_tied _ k _ p q (with_text cs pi) qi Hc Hk ltac:(set_solver) Epv Eqv Hadj) as Htv. apply (tied_ext _ _ _ _ pi) in Htv; [|done]. replace (d_items (c_doc s)) with (<[p := pi]> (d_items (c_doc v))); [done|].
    cbn. apply map_eq. intros x. destruct (decide (x = p)) as [->|Hne]; [by rewrite lookup_insert_eq, Ep|by rewrite lookup_insert_ne, lookup_alter_ne]. }
  destruct (completeMergeWith_spec s p q pi qi t ty Ht Epar Ety) as (s1 & E1 & Hsu). erewrite rbind_ok; [|exact E1].
  pose proof (string_step s s1 st k ss1 p q (l ++ ss2) pi qi cs t ty Hsu Ht Hcan Hstr Epar Ety Hk) as Hstep. set (st1 := with_clients st _) in Hstep.
  destruct (IH s1 st1 k ss1 ss2 (fuse pi qi (i_content pi)) (cs ++ stringOf (i_content qi))) as (n & cs' & s2 & pi2 & E2 & Hn & Es & Ep2 & Hr); [apply Hsu|done|by eapply step_clean|subst st1; cbn; by rewrite lookup_insert_eq|].
  exists (S n), cs', s2, pi2. split_and!.
  - erewrite rbind_ok; [|exact E2]. done.
  - cbn. lia.
  - by rewrite Es, (su_store _ _ _ _ _ _ _ _ _ Hsu).
  - done.
  - eapply rtc_l; [exact Hstep|]. subst st1. cbn [with_clients clients drop] in *. by rewrite insert_insert_eq in Hr.
Qed.

Lemma runAt_string (h : heap) ss start p n : runAt canMergeContentStringPair h ss start = Some (p, n) -> exists pi value, h !! p = Some pi /\ i_content pi = contentString value.
Proof.
  unfold runAt. destruct (ss !! start) as [[p'|]|]; try done. destruct (h !! p') as [it|] eqn:Ep; [|done]. cbn [mbind option_bind]. destruct (_ <? 2)%nat eqn:Hl; [done|]. intros [= -> _]. apply Nat.ltb_ge in Hl. exists it.
  destruct (drop (start + 1) ss) as [|[q|g] rest]; cbn in Hl; try lia. destruct (h !! q) as [next|]; [|lia]. destruct (canMergeContentStringPair it q next) eqn:Hp; [|lia]. unfold canMergeContentStringPair in Hp. destruct (i_content it) as [| | | | | | |value|] eqn:Ec; try done. by exists value.
Qed.

Lemma coalesceString_run (s : state) k ss start p n : clean_doc (c_doc s) -> clients (d_store (c_doc s)) !! k = Some ss -> runAt canMergeContentStringPair (d_items (c_doc s)) ss start = Some (p, n) ->
  keeps_store s (coalesceContentStringRun k start p n ss).
Proof.
  intros Hc Hk Hrun. destruct (runAt_string _ _ _ _ _ Hrun) as (pi & value & Ep & Ec). destruct (runAt_split _ _ _ _ _ _ Hrun) as (ss1 & l & ss2 & E & Hs & Hl & El). unfold keeps_store, coalesceContentStringRun. rewrite <- El. rewrite E in Hk.
  erewrite rbind_ok; [|by apply onDoc_getItem]. rewrite Ec. cbn [stringOf]. assert (Hid : with_string p value (d_store (c_doc s)) s = s).
  { unfold with_string. transitivity (with_store (d_store (c_doc s)) s); [|apply with_store_id]. unfold with_store, set_doc. cbn. f_equal. replace (alter (with_text value) p (d_items (c_doc s))) with (d_items (c_doc s)); [by destruct (c_doc s)|].
    apply map_eq. intros x. destruct (decide (x = p)) as [->|Hne]; [|by rewrite lookup_alter_ne]. rewrite lookup_alter_eq, Ep. cbn. f_equal. unfold with_text, with_body. rewrite <- Ec. by destruct pi. }
  destruct (mergeStringRun_spec p l s (d_store (c_doc s)) k ss1 ss2 pi value) as (m & cs' & s' & pi' & E1 & Hm & Est & Ep' & Hr); [done|by rewrite Ec|by rewrite Hid|done|]. rewrite Hid in Hr.
  erewrite rbind_ok; [|exact E1]. cbn [fst snd]. erewrite rbind_ok; [|by apply onDoc_setItem]. rewrite <- (take_drop m l) in Hk. rewrite <- (assoc_L (++)) in Hk. eexists. split; [|exact Hr].
  rewrite (removePositions_ok _ k (ss1 ++ [RItem p]) (take m l) (drop m l ++ ss2)); [|cbn; rewrite Est, <- (assoc_L (++)); done|rewrite length_app; cbn; lia|rewrite length_take; lia].
  cbn [set_doc c_doc c_markers set_items d_store]. rewrite Est, <- (assoc_L (++)). unfold with_string. do 2 f_equal. unfold set_doc. f_equal. f_equal. apply map_eq. intros x. destruct (decide (x = p)) as [->|Hne]; [by rewrite lookup_insert_eq, lookup_alter_eq, Ep'|by rewrite lookup_insert_ne, lookup_alter_ne].
Qed.

Lemma coalesceString_keeps fuel k : forall (s : state) start, clean_doc (c_doc s) -> is_Some (clients (d_store (c_doc s)) !! k) -> keeps_store s (coalesceContentStringRuns fuel k start).
Proof.
  induction fuel as [|fuel IH]; intros s start Hc [ss Hk]; [apply pass_ret|]. unfold keeps_store. cbn [coalesceContentStringRuns]. erewrite rbind_ok; [|by apply structsOf_ok]. erewrite rbind_ok; [|reflexivity]. destruct (_ <? _)%nat; [|apply pass_ret].
  apply pass_bind; [done| |intros s1 H1 Hc1; apply IH; [done|by eapply steps_clients; [exact H1|]]]. destruct (runAt _ _ _ _) as [[p n]|] eqn:Er; [by apply coalesceString_run|apply pass_ret].
Qed.

(** *** The whole pass *)
Lemma keeps_state (s s' : state) k : rtc merge_step s s' -> clean_doc (c_doc s) -> forall ss, clients (d_store (c_doc s)) !! k = Some ss -> exists ss', clients (d_store (c_doc s')) !! k = Some ss' /\ (0 < length ss')%nat.
Proof.
  intros Hr Hc ss Hk. destruct (steps_clients s s' k Hr ltac:(eauto)) as [ss' Hk']. exists ss'. split; [done|]. apply (client_nonempty (c_doc s') k); [|done]. by apply (steps_clean s s').
Qed.

Lemma range_spec (s : state) k before clock ss : clean_doc (c_doc s) -> clients (d_store (c_doc s)) !! k = Some ss -> before <> clock ->
  exists s' ss', mergeTransactionRange interpolate k before clock s = (Ok tt, s') /\ rtc merge_step s s' /\ clients (d_store (c_doc s')) !! k = Some ss' /\
    compact_from (d_items (c_doc s')) (Z.to_nat (Z.max (findOrZero interpolate (d_items (c_doc s)) ss before) 1 - 1)) ss'.
Proof.
  intros Hc Hk Hne. unfold mergeTransactionRange. rewrite (proj2 (Z.eqb_neq before clock) Hne). erewrite rbind_ok; [|by apply structsOf_ok]. erewrite rbind_ok; [|reflexivity]. set (first := Z.max _ 1).
  assert (H1 : keeps_store s (if 64 <=? clock - before then if stringTail (d_items (c_doc s)) (list.last ss) then coalesceContentStringRuns (length ss) k (Z.to_nat (first - 1)) else rret tt else rret tt)).
  { destruct (_ <=? _); [|apply pass_ret]. destruct (stringTail _ _); [|apply pass_ret]. apply coalesceString_keeps; [done|eauto]. }
  destruct (keeps_clean s _ Hc H1) as (s1 & E1 & R1 & Hc1). erewrite rbind_ok; [|exact E1]. destruct (keeps_clean s1 _ Hc1 (coalesceAny_keeps (length ss) k s1 (Z.to_nat (first - 1)) Hc1 (steps_clients s s1 k R1 ltac:(eauto)))) as (s2 & E2 & R2 & Hc2).
  erewrite rbind_ok; [|exact E2]. destruct (keeps_state s s2 k ltac:(by etrans) Hc ss Hk) as (ss2 & Hk2 & Hl2). erewrite rbind_ok; [|by apply structsOf_ok].
  replace (Z.of_nat (length ss2) - 1) with (Z.of_nat (length ss2 - 1)) by lia. destruct (mergeDown_spec (length ss2) s2 k first (length ss2 - 1) ss2) as (s3 & ss3 & E3 & R3 & Hk3 & Hcf); [done|done|lia|lia|lia| |].
  { intros i a b Hi _ Hb%lookup_lt_Some. lia. }
  exists s3, ss3. split_and!; [done|by do 2 (etrans; [done|])|done|]. intros i a b Hi. apply Hcf. lia.
Qed.

Lemma step_heap (s s' : state) x : merge_step s s' -> is_Some (d_items (c_doc s) !! x) -> is_Some (d_items (c_doc s') !! x).
Proof.
  intros [k0 ss1 p q ss2 pi qi c t ty m _ Ht _ _ _ _ Hf _ _ _ _ _|k0 ss1 g r ss2 _ ->] Hx; [|done]. destruct (decide (x = p)) as [->|Hne]; [rewrite (fh_left _ _ _ _ _ _ _ Hf); eauto|].
  pose proof (fused_other _ _ p q pi qi c x Hf Ht Hne) as Ho. destruct Hx as [a Ea]. rewrite Ea in Ho. by destruct (d_items (c_doc s') !! x).
Qed.

Lemma forEachC_keeps {A} (f : A -> step state unit) l : forall s : state, clean_doc (c_doc s) -> (forall a s', a ∈ l -> rtc merge_step s s' -> clean_doc (c_doc s') -> keeps_store s' (f a)) -> keeps_store s (forEachC f l).
Proof.
  induction l as [|a l IH]; intros s Hc Hf; [apply pass_ret|]. cbn [forEachC]. apply pass_bind; [done|apply Hf; [by left|done|done]|]. intros s1 R1 Hc1. apply IH; [done|]. intros b s2 Hb R2 Hc2. apply Hf; [by right|by etrans|done].
Qed.

Lemma ifClient_keeps (s : state) k m : (is_Some (clients (d_store (c_doc s)) !! k) -> keeps_store s m) -> keeps_store s (ifClient k m).
Proof. intros Hm. unfold keeps_store, ifClient, clientStructs. destruct (clients (d_store (c_doc s)) !! k) eqn:E; [apply Hm; eauto|by exists s]. Qed.

Lemma cleanupMerge_keeps order states ms (s : state) : clean_doc (c_doc s) -> (forall p, p ∈ ms -> is_Some (d_items (c_doc s) !! p)) -> keeps_store s (cleanupMerge interpolate order states ms).
Proof.
  intros Hc Hms. unfold cleanupMerge. apply pass_bind; [done| |intros s1 R1 Hc1; apply pass_bind; [done| |intros s2 R2 Hc2]].
  - apply forEachC_keeps; [done|]. intros [client dis] s' _ _ Hc'. apply ifClient_keeps. by apply tryMergeDeleteItems_keeps.
  - apply forEachC_keeps; [done|]. intros [client [before clock]] s' _ _ Hc'. unfold mergeTransactionClientStructs. destruct (Z.eqb_spec before clock) as [E|Hne]; [apply pass_ret|]. apply ifClient_keeps. intros [ss Hk].
    destruct (range_spec s' client before clock ss Hc' Hk Hne) as (s3 & _ & E3 & R3 & _). by exists s3.
  - apply forEachC_keeps; [done|]. intros p s' Hp R3 Hc'. assert (Hx : is_Some (d_items (c_doc s') !! p)).
    { assert (Hall : rtc merge_step s s') by (by do 2 (etrans; [done|])). clear -Hall Hms Hp. specialize (Hms p Hp). induction Hall as [|a b c Hs _ IH]; [done|]. apply IH. by eapply step_heap. }
    destruct Hx as [it Ep]. unfold keeps_store. erewrite rbind_ok; [|by apply onDoc_getItem]. apply ifClient_keeps. by apply mergeAround_keeps.
Qed.

End Routines.

(** ** The pass *)

(** The compaction keeps the document, whatever delete set, state changes and
    structs are to be merged. *)
Lemma compaction_keeps {V : Type} (interpolate : Z -> Z -> Z -> Z) (s : cleanState V) (order : list (Z * list deleteItem)) (states : list (Z * (Z * Z))) (mergeStructs : list nat) :
  (forall clock span end_, 0 < span -> 0 <= clock <= span -> 0 <= end_ -> 0 <= interpolate clock span end_ <= end_) ->
  clean_doc (c_doc s) -> (forall p, p ∈ mergeStructs -> is_Some (d_items (c_doc s) !! p)) ->
  exists s', cleanupMerge interpolate order states mergeStructs s = (Ok tt, s') /\ clean_doc (c_doc s') /\
    (forall k, @getState _ (refStruct (d_items (c_doc s'))) (d_store (c_doc s')) k = @getState _ (refStruct (d_items (c_doc s))) (d_store (c_doc s)) k) /\
    forall og ro t ty ps, ~ dead (c_doc s) t -> seq_doc og ro (c_doc s) t ty ps -> exists ty' ps', seq_doc og ro (c_doc s') t ty' ps' /\ same_list s s' t ty ty' ps ps'.
Proof.
  intros Hi Hc Hms. destruct (cleanupMerge_keeps interpolate Hi order states mergeStructs s Hc Hms) as (s' & E & Hr). destruct (steps_clean s s' Hc Hr) as [Hc' Hst]. exists s'. split_and!; [done|done|done|].
  intros og ro t ty ps Hal Hs. by apply (steps_list og ro s s').
Qed.

(** ** Properties *)

(** C12. [mergeTransactionRange] is exhaustive: after it no two neighbours from
    the first changed struct of the client on can be merged. *)
Theorem merge_range_exhaustive {V : Type} (interpolate : Z -> Z -> Z -> Z) (s : cleanState V) (client beforeClock clock : Z) (ss : list structRef) :
  (forall clock span end_, 0 < span -> 0 <= clock <= span -> 0 <= end_ -> 0 <= interpolate clock span end_ <= end_) ->
  clean_doc (c_doc s) -> clients (d_store (c_doc s)) !! client = Some ss -> beforeClock <> clock ->
  exists s' ss', mergeTransactionRange interpolate client beforeClock clock s = (Ok tt, s') /\ clients (d_store (c_doc s')) !! client = Some ss' /\
    compact_from (d_items (c_doc s')) (Z.to_nat (Z.max (findOrZero interpolate (d_items (c_doc s)) ss beforeClock) 1 - 1)) ss'.
Proof. intros Hi Hc Hk Hne. destruct (range_spec interpolate Hi s client beforeClock clock ss Hc Hk Hne) as (s' & ss' & E & _ & Hk' & Hcf). by exists s', ss'. Qed.

Lemma array_seq {V} (d : docState V) t ty ps : array_doc d t ty ps -> exists og ro, seq_doc og ro d t ty ps.
Proof. intros [(og & ro & Hd) Et Htl Hcnt _ Hitems]. exists og, ro. split; try done. intros q qi Hq Eq _. by apply (Hitems q qi Hq Eq). Qed.

Lemma array_sample_clean : clean_doc array_sample.
Proof.
  pose proof array_sample_ok as Ha. destruct (ad_doc _ _ _ _ Ha) as (og & ro & Hd). split; [apply Hd|apply Hd|]. intros k ss q Hk Hq. cbn in Hk. apply lookup_singleton_Some in Hk as [<- <-]. exists 0%nat, [], [1; 2]%nat. split; [|set_solver].
  split; [apply Hd|apply Hd| |exists array_type; split; [done|by left]]. intros x xi Hx Ex. destruct (ld_bodies _ _ _ _ _ Hd x xi Hx Ex). done.
Qed.

Lemma merge_range_exhaustive_witness :
  exists s' ss', mergeTransactionRange int_pivot 1 0 5 (mkClean array_sample ∅) = (Ok tt, s') /\ clients (d_store (c_doc s')) !! 1 = Some ss' /\ compact_from (d_items (c_doc s')) 0 ss'.
Proof. exact (merge_range_exhaustive int_pivot (mkClean array_sample ∅) 1 0 5 [RItem 1; RItem 2] int_pivot_range array_sample_clean eq_refl ltac:(done)). Defined.

(** ** The map key that is left behind

    [coalesceContentAnyRuns] removes items from the store without moving the map
    entry that points to the last of them, which [tryMergeWithLeft] does. It meets
    such items when an observer of the first transaction sets the key again, twice,
    and deletes it: those deletions are not in the delete set of the transaction
    that is being cleaned up. *)
Definition coalesced_key : gostring := [97].
Definition empty_map : docState Z :=
  mkDoc ∅ {[ 0%nat := mkType None ∅ 0 None 0 true 0 false ]} (mkStore ∅ None None []) 1 (mkTrans newDeleteSet [] [] false None (Some (1, 0)) ∅ ∅ ∅).

(** [Set(1)] in the transaction, [Set(2)], [Set(3)] and [Delete] in its observer. *)
Definition set_thrice : @Item.M Z unit :=
  _ <-- YMapSet int_pivot 1 0 0 coalesced_key (Some (InAny 1));;;
  _ <-- YMapSet int_pivot 1 0 0 coalesced_key (Some (InAny 2));;;
  _ <-- YMapSet int_pivot 1 0 0 coalesced_key (Some (InAny 3));;; typeMapDelete 0 coalesced_key.

(** Then the key is set to 4, and an item of client 0 arrives that sets it to 9
    concurrently: it knows the three values that are gone, not the new one. *)
Definition set_concurrently : @Item.M Z unit :=
  _ <-- YMapSet int_pivot 1 0 0 coalesced_key (Some (InAny 4));;;
  p <-- alloc (newItemWithLength (GenID 0 0) None (Some (GenID 1 2)) None None (ParentType 0) coalesced_key (contentAny [9]) 1);;;
  _ <-- missingClient int_pivot p;;; integrateWithScratch int_pivot p 0.

Definition read_key (d : docState Z) : result (option element) := from_option (fun ty => typeMapGet (d_items d) ty coalesced_key) (Err ErrPanic) (d_types d !! 0%nat).

