(* ===== verification/Collect.v ===== *)
(** * Garbage collection at the end of a transaction

    Models the collection of deleted content that [cleanupTransactions] runs
    before it merges structs (crdt/transaction.go: [tryGcDeleteSet];
    crdt/client_struct_list.go: [tryGcDeleteItems]; crdt/item.go: [gcItem];
    crdt/content_types.go: [gcContent]): a deleted item keeps its place and loses
    its content, the items of a deleted nested type are replaced by GC structs and
    the type forgets them. *)
From stdpp Require Import gmap sets list relations.
From Stdlib Require Import ZArith Lia.
From S2P Require Import Prelude Lib0 StructStore Text Yata Replicas DeleteSet Content Item ItemList ItemSplit TypeRead SearchMarker TypeList ListInsert MapType Merge Compaction.
Open Scope Z_scope.
Open Scope go_scope.

Section Collect.
Context {V : Type} (interpolate : Z -> Z -> Z -> Z).
(** [doc.gcFilter]. *)
Context (gcFilter : itemStruct V -> bool).
Abbreviation item := (itemStruct V).
Abbreviation doc := (docState V).
Abbreviation M := (@Item.M V).

(** The error of [replaceStruct] is dropped. *)
Definition replaceWithGC (p : nat) (gc : gcStruct) : M unit :=
  modify (fun d => match @replaceStruct _ (refStruct (d_items d)) interpolate (d_store d) (RItem p) (RGC gc) with Ok st => set_store st d | Err _ => d end).

(** [for item != nil { ...; item = item.left }]. *)
Fixpoint forEachLeft (n : nat) (f : nat -> M unit) (o : option nat) : M unit :=
  match n, o with
  | _, None => rret tt
  | O, Some _ => rfail ErrMalformed
  | S n', Some p => _ <-- f p;;; it <-- getItem p;;; forEachLeft n' f (i_left it)
  end.

(** [gcContent] of the kinds; only a nested type has something to do. *)
Definition gcContent (gc : nat -> M unit) (c : docContent V) : M unit :=
  match c with
  | contentType t =>
      ty <-- getType t;;;
      n <-- get (fun d => size (d_items d));;;
      _ <-- forEachRight n gc (t_start ty);;;
      _ <-- setType t (with_start None);;;
      ty <-- getType t;;;
      _ <-- forEach (fun e => forEachLeft n gc (Some e)) (map_to_list (t_map ty)).*2;;;
      setType t (with_map ∅)
  | _ => rret tt
  end.

Definition emptied (it : item) : item := with_body (i_id it) (i_length it) (contentDeleted (i_length it)) it.

Fixpoint gcItem (fuel : nat) (parentGCd : bool) (p : nat) : M unit :=
  match fuel with
  | O => rfail ErrDepth
  | S fuel' =>
      it <-- getItem p;;;
      if negb (i_deleted it) then rret tt
      else
        _ <-- gcContent (gcItem fuel' true) (i_content it);;;
        if parentGCd then replaceWithGC p (newGC (i_id it) (i_length it)) else setItem p emptied
  end.

(** With a level of fuel for every type. *)
Definition gc (p : nat) : M unit := n <-- get (fun d => size (d_types d));;; gcItem (n + 1) false p.

Definition clientList (client : Z) : M (list structRef) := fun d => deref (clientStructs (d_store d) client) d.
Definition structClock (s : structRef) : M Z := get (fun d => Clock (@getID _ (refStruct (d_items d)) s)).

(** What the loop does with one struct. *)
Definition gcStructAt (s : structRef) : M unit :=
  match s with
  | RItem p => it <-- getItem p;;; if i_deleted it && negb (i_keep it) && gcFilter it then gc p else rret tt
  | RGC _ => rret tt
  end.

(** The loop over one range; [s] is the struct of the previous round. *)
Fixpoint gcLoop (fuel : nat) (client endClock : Z) (si : nat) (s : structRef) : M unit :=
  match fuel with
  | O => rret tt
  | S fuel' =>
      ss <-- clientList client;;;
      clock <-- structClock s;;;
      match ss !! si with
      | Some s =>
          if clock <? endClock then
            clock <-- structClock s;;;
            if endClock <=? clock then rret tt
            else _ <-- gcStructAt s;;; gcLoop fuel' client endClock (S si) s
          else rret tt
      | None => rret tt
      end
  end.

Fixpoint tryGcDeleteItems (client : Z) (deleteItems : list deleteItem) : M unit :=
  match deleteItems with
  | [] => rret tt
  | di :: deleteItems' =>
      _ <-- tryGcDeleteItems client deleteItems';;;
      ss <-- clientList client;;;
      h <-- get d_items;;;
      let si := findOrZero interpolate h ss (di_clock di) in
      s <-- deref (zlookup ss si);;;
      gcLoop (length ss) client (di_clock di + di_length di) (Z.to_nat si) s
  end.

Definition tryGcDeleteSet (order : list (Z * list deleteItem)) : M unit :=
  forEach (fun '(client, deleteItems) d => match clientStructs (d_store d) client with Some _ => tryGcDeleteItems client deleteItems d | None => (Ok tt, d) end) order.

(** [cleanupTransactions] from the collection to the merging of structs. *)
Definition cleanupStore (collect : bool) (order : list (Z * list deleteItem)) (states : list (Z * (Z * Z))) (mergeStructs : list nat) : step (cleanState V) unit :=
  _ <-- (if collect then onDoc (tryGcDeleteSet order) else rret tt);;; cleanupMerge interpolate order states mergeStructs.

End Collect.

(** ** Steps of the collection *)
Section Theory.
Context {V : Type}.
Abbreviation item := (itemStruct V).
Abbreviation doc := (docState V).
Abbreviation M := (@Item.M V).

Inductive gc_step (d d' : doc) : Prop :=
| gc_empty p it : d_items d !! p = Some it -> i_deleted it = true -> d' = set_items (<[p := emptied it]> (d_items d)) d -> gc_step d d'
| gc_replace p it t k ss1 ss2 : d_items d !! p = Some it -> i_parent it = ParentType t -> dead d t -> clients (d_store d) !! k = Some (ss1 ++ RItem p :: ss2) ->
    d' = set_store (with_clients (d_store d) (<[k := ss1 ++ RGC (newGC (i_id it) (i_length it)) :: ss2]> (clients (d_store d)))) d -> gc_step d d'
| gc_start t ty : d_types d !! t = Some ty -> dead d t -> d' = set_types (<[t := with_start None ty]> (d_types d)) d -> gc_step d d'
| gc_keys t ty : d_types d !! t = Some ty -> dead d t -> d' = set_types (<[t := with_map ∅ ty]> (d_types d)) d -> gc_step d d'.

(** What every step leaves alone. *)
Record gc_frame (d d' : doc) : Prop := {
  gf_items : forall x, match d_items d !! x, d_items d' !! x with Some a, Some b => b = a \/ (i_deleted a = true /\ b = emptied a) | None, None => True | _, _ => False end;
  gf_types : forall t, match d_types d !! t, d_types d' !! t with
                       | Some a, Some b => t_item a = t_item b /\ t_length a = t_length b /\ t_itemCount a = t_itemCount b /\ (b = a \/ dead d t)
                       | None, None => True | _, _ => False end;
  gf_next : d_next d' = d_next d
}.

Lemma step_frame (d d' : doc) : gc_step d d' -> gc_frame d d'.
Proof.
  intros Hs. assert (Hi : forall x, match d_items d !! x with Some a => a = a \/ (i_deleted a = true /\ a = emptied a) | None => True end) by (intros x; destruct (d_items d !! x); [by left|done]).
  assert (Ht : forall t, match d_types d !! t with Some a => t_item a = t_item a /\ t_length a = t_length a /\ t_itemCount a = t_itemCount a /\ (a = a \/ dead d t) | None => True end) by (intros t; destruct (d_types d !! t); [split_and!; try done; by left|done]).
  destruct Hs as [p it Ep Hd ->|p it t k ss1 ss2 Ep Hpar Hdead Hk ->|t ty Et Hdead ->|t ty Et Hdead ->]; split; cbn [set_items set_types set_store d_items d_types d_next]; try done.
  - intros x. destruct (decide (x = p)) as [->|Hne]; [rewrite lookup_insert_eq, Ep; by right|rewrite lookup_insert_ne by done; specialize (Hi x); by destruct (d_items d !! x)].
  - intros t. specialize (Ht t). by destruct (d_types d !! t).
  - intros x. specialize (Hi x). by destruct (d_items d !! x).
  - intros t'. specialize (Ht t'). by destruct (d_types d !! t').
  - intros x. specialize (Hi x). by destruct (d_items d !! x).
  - intros t'. destruct (decide (t' = t)) as [->|Hne]; [rewrite lookup_insert_eq, Et; split_and!; try done; by right|rewrite lookup_insert_ne by done; specialize (Ht t'); by destruct (d_types d !! t')].
  - intros x. specialize (Hi x). by destruct (d_items d !! x).
  - intros t'. destruct (decide (t' = t)) as [->|Hne]; [rewrite lookup_insert_eq, Et; split_and!; try done; by right|rewrite lookup_insert_ne by done; specialize (Ht t'); by destruct (d_types d !! t')].
Qed.

Lemma frame_dead (d d' : doc) t : gc_frame d d' -> dead d' t <-> dead d t.
Proof.
  intros [Fi Ft _]. unfold dead. split; intros (ty & p & it & E1 & E2 & E3 & E4); specialize (Fi p); specialize (Ft t); rewrite E1, E3 in *.
  - destruct (d_types d !! t) as [ty'|]; [|done]. destruct (d_items d !! p) as [it'|] eqn:Ep; [|done]. exists ty', p, it'. destruct Ft as (? & _). split_and!; [done|congruence|done|]. destruct Fi as [<-|[? ->]]; done.
  - destruct (d_types d' !! t) as [ty'|]; [|done]. destruct (d_items d' !! p) as [it'|] eqn:Ep; [|done]. exists ty', p, it'. destruct Ft as (? & _). split_and!; [done|congruence|done|]. destruct Fi as [->|[? ->]]; done.
Qed.

Lemma frame_body (d d' : doc) : gc_frame d d' -> forall s, @getID _ (refStruct (d_items d)) s = @getID _ (refStruct (d_items d')) s /\ @structLength _ (refStruct (d_items d)) s = @structLength _ (refStruct (d_items d')) s.
Proof. intros [Fi _ _] [x|g]; [|done]. specialize (Fi x). cbn. destruct (d_items d !! x), (d_items d' !! x); try done. by destruct Fi as [->|[_ ->]]. Qed.

Lemma frame_linked (d d' : doc) ps : gc_frame d d' -> forall prev, linked (d_items d) prev ps -> linked (d_items d') prev ps.
Proof.
  intros [Fi _ _]. induction ps as [|p ps IH]; intros prev; [done|]. intros (it & E & H1 & H2 & H3). specialize (Fi p). rewrite E in Fi. destruct (d_items d' !! p) as [it'|] eqn:Ep; [|done]. exists it'. destruct Fi as [->|[_ ->]]; split_and!; try done; by apply IH.
Qed.

(** *** The document *)
Lemma gc_store (d d' : doc) : store_repr d -> gc_step d d' ->
  store_repr d' /\ forall k, @getState _ (refStruct (d_items d')) (d_store d') k = @getState _ (refStruct (d_items d)) (d_store d) k.
Proof.
  intros Hst Hs. pose proof (step_frame d d' Hs) as Hfr. pose proof (frame_body d d' Hfr) as Hb.
  assert (Hsame : d_store d' = d_store d -> store_repr d' /\ forall k, @getState _ (refStruct (d_items d')) (d_store d') k = @getState _ (refStruct (d_items d)) (d_store d) k).
  { intros Es. destruct Hst as [(Hok & Hnd & Hord) Hit]. split; [split|].
    - rewrite Es. split_and!; [|done|done]. intros k ss Hk. destruct (Hok k ss Hk) as (? & (c & Hc) & Hf). split_and!; [done|exists c; eapply contiguous_ext; [|exact Hc]; intros; apply Hb|]. apply list.Forall_forall. intros s Hs0. rewrite list.Forall_forall in Hf. destruct (Hb s) as [<- _]. by apply Hf.
    - rewrite Es. intros k ss q Hk Hq. destruct (Hit k ss q Hk Hq) as [a Ea]. pose proof (gf_items _ _ Hfr q) as Fi. rewrite Ea in Fi. by destruct (d_items d' !! q).
    - intros k. rewrite Es. unfold getState. destruct (clientStructs (d_store d) k) as [ss|]; [|done]. destruct (list.last ss) as [l|]; [|done]. destruct (Hb l) as [-> ->]. done. }
  destruct Hs as [p it Ep Hd E|p it t k ss1 ss2 Ep Hpar Hdead Hk E|t ty Et Hdead E|t ty Et Hdead E]; try (apply Hsame; by rewrite E). clear Hsame.
  destruct (store_head d k ss1 p it ss2 Hst Hk Ep) as (Hcl & _ & _). rewrite E. eapply (store_replaced d _ k); [done|exact Hk|done|by destruct ss1| | |done|done|set_solver].
  - intros c. cbn [d_items set_store]. clear -Ep. revert c. induction ss1 as [|s0 ss1 IH]; intros c; cbn [app contiguous_from list_end].
    + unfold struct_end. simpl. rewrite Ep. simpl. done.
    + intros (? & ? & Hc). destruct (IH _ Hc) as [I1 I2]. by split_and!.
  - destruct Hst as [(Hok & _ & _) _]. destruct (Hok _ _ Hk) as (_ & _ & Hfc). cbn [d_items set_store]. rewrite list.Forall_app, list.Forall_cons in Hfc. rewrite list.Forall_app, list.Forall_cons. destruct Hfc as (? & ? & ?). by split_and!.
Qed.

Lemma gc_clients (d d' : doc) x k ss : gc_step d d' -> clients (d_store d) !! k = Some ss -> RItem x ∈ ss ->
  (exists ss', clients (d_store d') !! k = Some ss' /\ RItem x ∈ ss') \/ (exists it t, d_items d !! x = Some it /\ i_parent it = ParentType t /\ dead d t).
Proof.
  intros [p it Ep Hd ->|p it t k0 ss1 ss2 Ep Hpar Hdead Hk0 ->|t ty Et Hdead ->|t ty Et Hdead ->] Hk Hx; try (left; by exists ss). destruct (decide (x = p)) as [->|Hne]; [right; by exists it, t|left]. cbn. destruct (decide (k = k0)) as [->|Hkk].
  - rewrite lookup_insert_eq. eexists. split; [done|]. simplify_eq. set_solver.
  - rewrite lookup_insert_ne by done. by exists ss.
Qed.

Lemma gc_clients_back (d d' : doc) x k ss : gc_step d d' -> clients (d_store d') !! k = Some ss -> RItem x ∈ ss -> exists ss0, clients (d_store d) !! k = Some ss0 /\ RItem x ∈ ss0.
Proof.
  intros [p it Ep Hd ->|p it t k0 ss1 ss2 Ep Hpar Hdead Hk0 ->|t ty Et Hdead ->|t ty Et Hdead ->] Hk Hx; try by exists ss. cbn in Hk. destruct (decide (k = k0)) as [->|Hkk].
  - rewrite lookup_insert_eq in Hk. eexists. split; [done|]. simplify_eq. set_solver.
  - rewrite lookup_insert_ne in Hk by done. by exists ss.
Qed.

Lemma frame_chain (d d' : doc) t sub ps : gc_frame d d' -> chain d t sub ps -> chain d' t sub ps.
Proof.
  intros Hf [Hl Hnd Hm (ty & Et & Hs)]. pose proof (frame_dead d d' t Hf) as Hdead. split; [by apply (frame_linked d d')|done| |].
  - intros q qi Hq Eq. pose proof (gf_items _ _ Hf q) as Fi. rewrite Eq in Fi. destruct (d_items d !! q) as [a|] eqn:Ea; [|done]. destruct (Hm q a Hq Ea) as [? ?]. destruct Fi as [->|[_ ->]]; done.
  - pose proof (gf_types _ _ Hf t) as Ft. rewrite Et in Ft. destruct (d_types d' !! t) as [ty'|]; [|done]. exists ty'. split; [done|]. intros Esub. destruct Ft as (_ & _ & _ & [->|Hd]); [|right; by apply Hdead]. destruct (Hs Esub) as [?|?]; [by left|right; by apply Hdead].
Qed.

Lemma gc_clean (d d' : doc) : clean_doc d -> gc_step d d' -> clean_doc d'.
Proof.
  intros Hc Hs. pose proof (step_frame d d' Hs) as Hf. split; [by apply (gc_store d d'); [apply Hc|]| |].
  - intros x. rewrite (gf_next _ _ Hf). intros Hx. pose proof (gf_items _ _ Hf x) as Fi. rewrite (cl_fresh _ Hc x Hx) in Fi. by destruct (d_items d' !! x).
  - intros k ss q Hk Hq. destruct (gc_clients_back d d' q k ss Hs Hk Hq) as (ss0 & E0 & Hin). destruct (cl_chain _ Hc _ _ _ E0 Hin) as (t & sub & ps & Hch & Hps). exists t, sub, ps. split; [by apply (frame_chain d d')|done].
Qed.

(** *** A list that is not part of a deleted type *)
Lemma gc_list og ro (d d' : doc) t ty ps : gc_step d d' -> clean_doc d -> ~ dead d t -> seq_doc og ro d t ty ps -> seq_doc og ro d' t ty ps /\
  forall ms, same_list (mkClean d ms) (mkClean d' ms) t ty ty ps ps.
Proof.
  intros Hs Hc Hal Hsq. pose proof (step_frame d d' Hs) as Hf. pose proof (gc_clean d d' Hc Hs) as Hc'. pose proof (sq_doc _ _ _ _ _ _ Hsq) as Hd. pose proof (ld_list _ _ _ _ _ Hd) as Hl.
  assert (Hback : forall x xi, x ∈ ps -> d_items d' !! x = Some xi -> exists a, d_items d !! x = Some a /\ (xi = a \/ (i_deleted a = true /\ xi = emptied a))).
  { intros x xi Hx Ex. pose proof (gf_items _ _ Hf x) as Fi. rewrite Ex in Fi. destruct (d_items d !! x) as [a|]; [|done]. by exists a. }
  assert (Ety : d_types d' !! t = Some ty). { pose proof (gf_types _ _ Hf t) as Ft. rewrite (sq_type _ _ _ _ _ _ Hsq) in Ft. destruct (d_types d' !! t) as [ty'|]; [|done]. destruct Ft as (_ & _ & _ & [->|?]); done. }
  assert (Hvals : forall qs, (forall x, x ∈ qs -> x ∈ ps) -> cells_ok (withItems (d_items d) qs) -> vlen (withItems (d_items d') qs) = vlen (withItems (d_items d) qs) /\ valuesOf (withItems (d_items d') qs) = valuesOf (withItems (d_items d) qs) /\ cells_ok (withItems (d_items d') qs) /\ elems (d_items d') qs = elems (d_items d) qs).
  { induction qs as [|x qs IH]; intros Hsub Hcs; [done|]. destruct (linked_lookup _ _ _ x (lr_linked _ _ _ _ _ Hl) (Hsub x ltac:(by left))) as [a Ea]. pose proof (gf_items _ _ Hf x) as Fi. rewrite Ea in Fi. destruct (d_items d' !! x) as [b|] eqn:Eb; [|done].
    rewrite (withItems_cons _ x a qs Ea) in Hcs. unfold cells_ok in Hcs. apply list.Forall_cons in Hcs as [Hca Hcs]. destruct (IH ltac:(intros y Hy; apply Hsub; by right) Hcs) as (I1 & I2 & I3 & I4).
    rewrite (withItems_cons _ x a qs Ea), (withItems_cons _ x b qs Eb), !elems_cons, I4, (block_Some _ _ _ Ea), (block_Some _ _ _ Eb). cbn [vlen valuesOf]. rewrite I1, I2, !live_flags. unfold cells_ok. rewrite list.Forall_cons. cbn [snd] in *.
    destruct Fi as [->|[Hdel ->]]; [done|]. assert (La : live a = false) by (unfold live; by rewrite Hdel). assert (Lb : live (emptied a) = false) by exact La. rewrite La, Lb. split_and!; [done|done| |done|done]. split; [apply Hca|by rewrite Lb]. }
  destruct (Hvals ps ltac:(done) (tl_cells _ _ _ (sq_list _ _ _ _ _ _ Hsq))) as (V1 & V2 & V3 & V4).
  split; [split; [split; [apply Hc'|split|..]|done|..]|intros ms; split; cbn [c_doc c_markers]; try done].
  - exists ty. split; [done|]. destruct (lr_start _ _ _ _ _ Hl) as (ty0 & E0 & Hst0). rewrite (sq_type _ _ _ _ _ _ Hsq) in E0. by injection E0 as <-.
  - apply (frame_linked d d'); [done|apply Hl].
  - intros x xi Hx Ex. destruct (Hback x xi Hx Ex) as (a & Ea & [->|[_ ->]]); [by apply (lr_agrees _ _ _ _ _ Hl x)|]. destruct (lr_agrees _ _ _ _ _ Hl x a Hx Ea) as [A1 A2 A3 A4]. by split.
  - intros x xi Hx Ex. destruct (Hback x xi Hx Ex) as (a & Ea & Hxa). destruct (lr_store _ _ _ _ _ Hl x a Hx Ea) as (ss & E0 & Hin). replace (i_id xi) with (i_id a) by (destruct Hxa as [->|[_ ->]]; done).
    destruct (gc_clients d d' x _ ss Hs E0 Hin) as [?|(a' & t' & Ea' & Hpar & Hdead)]; [done|]. exfalso. pose proof (ib_parent _ _ (ld_bodies _ _ _ _ _ Hd x a Hx Ea)) as Hp. apply Hal. simplify_eq. by rewrite Hp in Hpar; injection Hpar as ->.
  - intros x xi Hx Ex. destruct (Hback x xi Hx Ex) as (a & Ea & Hxa). pose proof (ld_bodies _ _ _ _ _ Hd x a Hx Ea) as [B1 B2 B3 B4]. destruct Hxa as [->|[_ ->]]; [by split|]. split; [done|done| |done]. cbn. pose proof (ag_length _ _ _ (lr_agrees _ _ _ _ _ Hl x a Hx Ea)). lia.
  - apply Hc'.
  - apply Hd.
  - destruct (sq_list _ _ _ _ _ _ Hsq) as [T1 T2 T3 T4]. split; [done|by apply (frame_linked d d')|done|congruence].
  - apply Hsq.
  - intros x xi Hx Ex. destruct (Hback x xi Hx Ex) as (a & Ea & [->|[Hdel ->]]); [by apply (sq_flags _ _ _ _ _ _ Hsq x)|cbn; congruence].
  - destruct (ms !! t) as [st|]; [|done]. cbn [markers_ok]. intros Hms. eapply list.Forall_impl; [exact Hms|]. intros m (qs1 & qs2 & E & Em). exists qs1, qs2. split; [done|]. rewrite Em. symmetry. apply Hvals; [intros x Hx; rewrite E; set_solver|].
    pose proof (tl_cells _ _ _ (sq_list _ _ _ _ _ _ Hsq)) as Hcs. rewrite E, withItems_app in Hcs. by apply list.Forall_app in Hcs as [? _].
Qed.

(** ** The collection returns *)

(** The struct of an item is in the store, or the GC struct that replaced it. *)
Definition placed (d : doc) (p : nat) (it : item) : Prop :=
  exists ss, clients (d_store d) !! Client (i_id it) = Some ss /\ (RItem p ∈ ss \/ RGC (newGC (i_id it) (i_length it)) ∈ ss).
Definition child (d : doc) (t p : nat) : Prop := exists it, d_items d !! p = Some it /\ i_parent it = ParentType t /\ placed d p it.

(** What the walk over the types relies on: lists and key chains of the types,
    the item of a nested type, and nesting that ends ([rk]). *)
Record families (rk : nat -> nat) (d : doc) : Prop := {
  fa_list : forall t ty, d_types d !! t = Some ty -> exists ps, linked (d_items d) None ps /\ NoDup ps /\ t_start ty = head ps /\ forall p, p ∈ ps -> child d t p;
  fa_map : forall t ty key p, d_types d !! t = Some ty -> t_map ty !! key = Some p -> exists ps, linked (d_items d) None (ps ++ [p]) /\ NoDup (ps ++ [p]) /\ forall q, q ∈ ps ++ [p] -> child d t q;
  fa_nested : forall p it t', d_items d !! p = Some it -> i_content it = contentType t' -> exists ty', d_types d !! t' = Some ty' /\ t_item ty' = Some p;
  fa_rank : forall p it t t', d_items d !! p = Some it -> i_parent it = ParentType t -> i_content it = contentType t' -> (rk t' < rk t)%nat
}.

Lemma gc_placed (d d' : doc) p it it' : store_repr d -> gc_step d d' -> d_items d !! p = Some it -> i_id it' = i_id it -> i_length it' = i_length it -> placed d p it -> placed d' p it'.
Proof.
  intros Hst Hs Ep Eid Elen (ss & Hk & Hin). unfold placed. rewrite Eid, Elen. destruct Hs as [q qi Eq Hd ->|q qi t k ss1 ss2 Eq Hpar Hdead Hk0 ->|t ty Et Hdead ->|t ty Et Hdead ->]; cbn; try by exists ss.
  destruct (decide (Client (i_id it) = k)) as [E|E]; [|rewrite lookup_insert_ne by done; by exists ss]. rewrite E in *. rewrite lookup_insert_eq. eexists. split; [done|]. rewrite Hk in Hk0. injection Hk0 as ->.
  destruct Hin as [Hin|Hin]; [|right; set_solver]. destruct (decide (p = q)) as [->|Hne]; [right; simplify_eq; set_solver|left; set_solver].
Qed.

Lemma gc_child (d d' : doc) t p : store_repr d -> gc_step d d' -> child d t p -> child d' t p.
Proof.
  intros Hst Hs (it & Ep & Hpar & Hpl). pose proof (gf_items _ _ (step_frame d d' Hs) p) as Fi. rewrite Ep in Fi. destruct (d_items d' !! p) as [it'|] eqn:Ep'; [|done]. exists it'. split; [done|].
  assert (Hb : i_parent it' = i_parent it /\ i_id it' = i_id it /\ i_length it' = i_length it) by (destruct Fi as [->|[_ ->]]; done). destruct Hb as (B1 & B2 & B3). split; [congruence|]. by eapply gc_placed.
Qed.

Lemma gc_families rk (d d' : doc) : store_repr d -> gc_step d d' -> families rk d -> families rk d'.
Proof.
  intros Hst Hs [F1 F2 F3 F4]. pose proof (step_frame d d' Hs) as Hf.
  assert (Hty : forall t ty', d_types d' !! t = Some ty' -> exists ty, d_types d !! t = Some ty /\ t_item ty' = t_item ty /\ (t_start ty' = t_start ty \/ t_start ty' = None) /\ (t_map ty' = t_map ty \/ t_map ty' = ∅)).
  { intros t ty' Et. clear F1 F2 F3 F4. destruct Hs as [q qi Eq Hd ->|q qi t0 k ss1 ss2 Eq Hpar Hdead Hk0 ->|t0 ty0 Et0 Hdead ->|t0 ty0 Et0 Hdead ->]; cbn in Et; try (exists ty'; split_and!; try done; by left).
    - destruct (decide (t = t0)) as [->|Hne]; [rewrite lookup_insert_eq in Et; injection Et as <-; exists ty0; split_and!; try done; [by right|by left]|rewrite lookup_insert_ne in Et by done; exists ty'; split_and!; try done; by left].
    - destruct (decide (t = t0)) as [->|Hne]; [rewrite lookup_insert_eq in Et; injection Et as <-; exists ty0; split_and!; try done; [by left|by right]|rewrite lookup_insert_ne in Et by done; exists ty'; split_and!; try done; by left]. }
  assert (Hback : forall p it', d_items d' !! p = Some it' -> forall t', i_content it' = contentType t' -> d_items d !! p = Some it').
  { intros p it' Ep t' Ec. pose proof (gf_items _ _ Hf p) as Fi. rewrite Ep in Fi. destruct (d_items d !! p) as [a|]; [|done]. destruct Fi as [->|[_ ->]]; done. }
  split.
  - intros t ty' Et. destruct (Hty t ty' Et) as (ty & Et0 & _ & [->| ->] & _); [|exists []; split_and!; [done|constructor|done|set_solver]]. destruct (F1 t ty Et0) as (ps & L1 & L2 & L3 & L4). exists ps. split_and!; [by apply (frame_linked d d')|done|done|]. intros p Hp. apply (gc_child d d'); auto.
  - intros t ty' key p Et Em. destruct (Hty t ty' Et) as (ty & Et0 & _ & _ & [E|E]); rewrite E in Em; [|by rewrite lookup_empty in Em]. destruct (F2 t ty key p Et0 Em) as (ps & L1 & L2 & L3). exists ps. split_and!; [by apply (frame_linked d d')|done|]. intros q Hq. apply (gc_child d d'); auto.
  - intros p it' t' Ep Ec. destruct (F3 p it' t' (Hback p it' Ep t' Ec) Ec) as (ty & Et & Ei). pose proof (gf_types _ _ Hf t') as Ft. rewrite Et in Ft. destruct (d_types d' !! t') as [ty'|]; [|done]. exists ty'. split; [done|]. destruct Ft as (<- & _). done.
  - intros p it' t t' Ep Hpar Ec. exact (F4 p it' t t' (Hback p it' Ep t' Ec) Hpar Ec).
Qed.

Record gc_doc (rk : nat -> nat) (d : doc) : Prop := { gd_clean : clean_doc d; gd_families : families rk d }.

Lemma gc_doc_step rk (d d' : doc) : rtc gc_step d d' -> gc_doc rk d -> gc_doc rk d'.
Proof. induction 1 as [|d1 d2 d3 Hs _ IH]; [done|]. intros [Hc Hf]. apply IH. split; [by eapply gc_clean|by eapply gc_families; [apply Hc|..]]. Qed.

Lemma gc_frame_steps (d d' : doc) : rtc gc_step d d' -> gc_frame d d'.
Proof.
  induction 1 as [d|d1 d2 d3 Hs _ IH].
  - split; [intros x; destruct (d_items d !! x); [by left|done]|intros t; destruct (d_types d !! t); [split_and!; try done; by left|done]|done].
  - pose proof (step_frame d1 d2 Hs) as Hf. pose proof (frame_dead d1 d2) as Hd. destruct Hf as [A1 A2 A3], IH as [B1 B2 B3]. split; [| |congruence].
    + intros x. specialize (A1 x). specialize (B1 x). destruct (d_items d1 !! x), (d_items d2 !! x), (d_items d3 !! x); try done. destruct A1 as [->|[? ->]]; [done|]. right. destruct B1 as [->|[? ->]]; done.
    + intros t. specialize (A2 t). specialize (B2 t). destruct (d_types d1 !! t), (d_types d2 !! t), (d_types d3 !! t); try done. destruct A2 as (? & ? & ? & HA), B2 as (? & ? & ? & HB). split_and!; try congruence.
      destruct HA as [->|?]; [|by right]. destruct HB as [->|HB]; [by left|right]. apply (frame_dead d1 d2 t); [by apply step_frame|done].
Qed.

Lemma child_steps rk (d d' : doc) t p : rtc gc_step d d' -> gc_doc rk d -> child d t p -> child d' t p.
Proof.
  induction 1 as [|d1 d2 d3 Hs _ IH]; [done|]. intros Hd Hch. apply IH; [eapply gc_doc_step; [by apply rtc_once|done]|]. by eapply gc_child; [apply (gd_clean _ _ Hd)|..].
Qed.

End Theory.

Section Total.
Context {V : Type} (interpolate : Z -> Z -> Z -> Z) (gcFilter : itemStruct V -> bool).
Context (Hinterp : forall clock span end_, 0 < span -> 0 <= clock <= span -> 0 <= end_ -> 0 <= interpolate clock span end_ <= end_).
Context (rk : nat -> nat).
Abbreviation item := (itemStruct V).
Abbreviation doc := (docState V).
Abbreviation M := (@Item.M V).

(** The action returns and is a sequence of steps. *)
Definition collects (d : doc) (m : M unit) : Prop := exists d', m d = (Ok tt, d') /\ rtc gc_step d d'.

Lemma collects_ret d : collects d (rret tt).
Proof. by exists d. Qed.

Lemma collects_bind d (m k : M unit) : collects d m -> (forall d', rtc gc_step d d' -> collects d' k) -> collects d (_ <-- m;;; k).
Proof. intros (d1 & E1 & R1) Hk. destruct (Hk d1 R1) as (d2 & E2 & R2). exists d2. split; [|by etrans]. erewrite rbind_ok; [|exact E1]. exact E2. Qed.

Lemma steps_linked (d d' : doc) ps prev : rtc gc_step d d' -> linked (d_items d) prev ps -> linked (d_items d') prev ps.
Proof. intros Hr. apply frame_linked, gc_frame_steps, Hr. Qed.

Lemma forEachRight_collects (f : nat -> M unit) ps : forall d prev n, linked (d_items d) prev ps -> (length ps <= n)%nat -> (forall p d', p ∈ ps -> rtc gc_step d d' -> collects d' (f p)) -> collects d (forEachRight n f (head ps)).
Proof.
  induction ps as [|p ps IH]; intros d prev n Hl Hn Hf; [destruct n; apply collects_ret|]. destruct n as [|n]; [cbn in Hn; lia|]. cbn [head forEachRight]. apply collects_bind; [apply Hf; [by left|done]|]. intros d1 R1.
  destruct (steps_linked d d1 _ _ R1 Hl) as (it & E & _ & Er & Hl1). unfold collects. erewrite rbind_ok; [|by apply getItem_eq]. rewrite Er. apply (IH d1 (Some p)); [done|cbn in Hn; lia|]. intros q d2 Hq R2. apply Hf; [by right|by etrans].
Qed.

Lemma forEachLeft_collects (f : nat -> M unit) ps : forall d next n, lseg (d_items d) None ps next -> (length ps <= n)%nat -> (forall p d', p ∈ ps -> rtc gc_step d d' -> collects d' (f p)) -> collects d (forEachLeft n f (list.last ps)).
Proof.
  induction ps as [|p ps IH] using rev_ind; intros d next n Hl Hn Hf; [destruct n; apply collects_ret|]. rewrite length_app in Hn. destruct n as [|n]; [cbn in Hn; lia|]. rewrite last_snoc. cbn [forEachLeft]. apply lseg_app in Hl as [Hl (it & E & El & _)].
  apply collects_bind; [apply Hf; [set_solver|done]|]. intros d1 R1. pose proof (gf_items _ _ (gc_frame_steps d d1 R1) p) as Fi. rewrite E in Fi. destruct (d_items d1 !! p) as [it1|] eqn:E1; [|done]. unfold collects. erewrite rbind_ok; [|by apply getItem_eq].
  assert (Ei : i_left it1 = list.last ps) by (rewrite <- last_or_None; destruct Fi as [->|[_ ->]]; done). rewrite Ei. apply (IH d1 (Some p)); [|cbn in Hn; lia|intros q d2 Hq R2; apply Hf; [set_solver|by etrans]].
  assert (Hlseg : forall qs prev nx, lseg (d_items d) prev qs nx -> lseg (d_items d1) prev qs nx).
  { clear -R1. induction qs as [|q qs IHq]; intros prev nx; [done|]. intros (qi & Eq & Q1 & Q2 & Q3). pose proof (gf_items _ _ (gc_frame_steps d d1 R1) q) as Fi. rewrite Eq in Fi. destruct (d_items d1 !! q) as [qi'|] eqn:Eq'; [|done]. exists qi'. destruct Fi as [->|[_ ->]]; split_and!; try done; by apply IHq. }
  by apply Hlseg.
Qed.

Lemma forEach_collects {A} (f : A -> M unit) l : forall d, (forall a d', a ∈ l -> rtc gc_step d d' -> collects d' (f a)) -> collects d (forEach f l).
Proof. induction l as [|a l IH]; intros d Hf; [apply collects_ret|]. cbn [forEach]. apply collects_bind; [apply Hf; [by left|done]|]. intros d1 R1. apply IH. intros b d2 Hb R2. apply Hf; [by right|by etrans]. Qed.

Lemma replaceWithGC_collects d t p it : clean_doc d -> d_items d !! p = Some it -> i_parent it = ParentType t -> placed d p it -> 0 < i_length it -> dead d t -> collects d (replaceWithGC interpolate p (newGC (i_id it) (i_length it))).
Proof.
  intros Hc Ep Hpar (ss & Hk & Hin) Hlen Hdead. unfold collects, replaceWithGC, modify, replaceStruct, clientStructs. cbn [getID refStruct]. rewrite Ep. cbn [from_option gc_id]. rewrite Z.eqb_refl, Hk. cbn [negb].
  destruct (cl_store _ Hc) as [(Hok & _) _]. destruct (Hok _ _ Hk) as (_ & (c & Hcn) & _). assert (Hs : exists s, s ∈ ss /\ @covers _ (refStruct (d_items d)) s (Clock (i_id it)) /\ (s = RItem p \/ s = RGC (newGC (i_id it) (i_length it)))).
  { destruct Hin as [Hin|Hin]; eexists; (split; [exact Hin|split; [unfold covers, struct_end; simpl; rewrite ?Ep; simpl; lia|tauto]]). }
  destruct Hs as (s & Hs & Hcov & Hkind). destruct (@findIndexSS_covers _ (refStruct (d_items d)) interpolate Hinterp c ss (Clock (i_id it)) s Hcn Hs Hcov) as (i & -> & Hz). pose proof (zlookup_Some _ _ _ Hz) as Hi. unfold zlookup in Hz. destruct (Z.ltb_spec i 0); [lia|].
  destruct (list_elem_of_split_length _ _ _ Hz) as (ss1 & ss2 & -> & Hl1). rewrite Hl1, insert_app_r_alt, Nat.sub_diag by lia. cbn [list_insert insert]. destruct Hkind as [-> | ->].
  - eexists. split; [reflexivity|]. apply rtc_once. by eapply gc_replace.
  - eexists. split; [reflexivity|]. rewrite insert_id by done. by destruct d as [? ? [? ? ? ?] ? ?].
Qed.

Lemma placed_length (d : doc) p it : store_repr d -> d_items d !! p = Some it -> placed d p it -> 0 < i_length it.
Proof.
  intros [(Hok & _) _] Ep (ss & Hk & Hin). destruct (Hok _ _ Hk) as (_ & (c & Hc) & _). pose proof (@contiguous_nonempty _ (refStruct (d_items d)) c ss Hc) as Hne. unfold nonempty_structs in Hne. rewrite list.Forall_forall in Hne.
  destruct Hin as [Hin|Hin]; specialize (Hne _ Hin); simpl in Hne; rewrite ?Ep in Hne; done.
Qed.

(** *** Nested types *)
Lemma gcContent_collects fuel d p it : gc_doc rk d -> d_items d !! p = Some it -> i_deleted it = true -> (forall t', i_content it = contentType t' -> (rk t' < fuel)%nat) ->
  (forall t q d', gc_doc rk d' -> child d' t q -> dead d' t -> (rk t < fuel)%nat -> collects d' (gcItem interpolate fuel true q)) ->
  collects d (gcContent (gcItem interpolate fuel true) (i_content it)).
Proof.
  intros Hd Ep Hdel Hrk Hrec. destruct (i_content it) as [| | | | | | | |t] eqn:Ec; try apply collects_ret. specialize (Hrk t eq_refl). destruct (fa_nested _ _ (gd_families _ _ Hd) p it t Ep Ec) as (ty & Et & Ei). assert (Hdead : dead d t) by (by exists ty, p, it).
  assert (Hdead' : forall d', rtc gc_step d d' -> dead d' t) by (intros d' R; apply (frame_dead d d' t); [by apply gc_frame_steps|done]).
  assert (Hsz : forall ps, linked (d_items d) None ps -> NoDup ps -> (length ps <= size (d_items d))%nat) by (intros ps L1 L2; apply length_size; [done|intros q Hq; by eapply linked_lookup]).
  assert (Hgo : forall d' q, rtc gc_step d d' -> child d' t q -> collects d' (gcItem interpolate fuel true q)) by (intros d' q R Hq; apply (Hrec t); [by eapply gc_doc_step|done|by apply Hdead'|done]).
  unfold collects, gcContent. erewrite rbind_ok; [|by apply getType_eq]. erewrite rbind_ok; [|reflexivity].
  apply collects_bind.
  - destruct (fa_list _ _ (gd_families _ _ Hd) t ty Et) as (ps & L1 & L2 & -> & L4). apply (forEachRight_collects _ ps d None); [done|by apply Hsz|]. intros q d' Hq R. apply Hgo; [done|]. apply (child_steps rk d d' t q R Hd). by apply L4.
  - intros d1 R1. pose proof (gc_doc_step rk d d1 R1 Hd) as Hd1. pose proof (gf_types _ _ (gc_frame_steps d d1 R1) t) as Ft. rewrite Et in Ft. destruct (d_types d1 !! t) as [ty1|] eqn:Et1; [|done].
    apply collects_bind; [exists (set_types (<[t := with_start None ty1]> (d_types d1)) d1); split; [by apply setType_eq|apply rtc_once; eapply gc_start; [exact Et1|by apply Hdead'|done]]|]. intros d2 R2. pose proof (gc_doc_step rk d1 d2 R2 Hd1) as Hd2.
    pose proof (gf_types _ _ (gc_frame_steps d1 d2 R2) t) as Ft2. rewrite Et1 in Ft2. destruct (d_types d2 !! t) as [ty2|] eqn:Et2; [|done]. unfold collects. erewrite rbind_ok; [|by apply getType_eq].
    apply collects_bind.
    + apply forEach_collects. intros q d3 Hq R3. apply list_elem_of_fmap in Hq as ((key & q') & -> & Hkq). apply elem_of_map_to_list in Hkq. cbn [snd]. destruct (fa_map _ _ (gd_families _ _ Hd2) t ty2 key q' Et2 Hkq) as (ps & L1 & L2 & L3).
      assert (Hl3 : linked (d_items d3) None (ps ++ [q'])) by (by apply (steps_linked d2 d3)). assert (Hszs : (length (ps ++ [q']) <= size (d_items d))%nat).
      { apply length_size; [done|]. intros x Hx. destruct (linked_lookup _ _ _ _ L1 Hx) as [a Ea]. pose proof (gf_items _ _ (gc_frame_steps d d2 ltac:(by etrans)) x) as Fi. rewrite Ea in Fi. destruct (d_items d !! x); [eauto|done]. }
      rewrite <- (last_snoc q' ps). apply (forEachLeft_collects _ (ps ++ [q']) d3 None); [by apply linked_lseg|done|]. intros x d4 Hx R4. apply Hgo; [by do 3 (etrans; [eassumption|])|].
      apply (child_steps rk d2 d4); [by etrans|done|by apply L3].
    + intros d3 R3. pose proof (gf_types _ _ (gc_frame_steps d2 d3 R3) t) as Ft3. rewrite Et2 in Ft3. destruct (d_types d3 !! t) as [ty3|] eqn:Et3; [|done].
      exists (set_types (<[t := with_map ∅ ty3]> (d_types d3)) d3). split; [by apply setType_eq|apply rtc_once; eapply gc_keys; [exact Et3|apply Hdead'; by do 2 (etrans; [eassumption|])|done]].
Qed.

Lemma gcItem_collects fuel : forall flag p (d : doc) (it : item), gc_doc rk d -> d_items d !! p = Some it -> (0 < fuel)%nat -> (forall t', i_content it = contentType t' -> (S (rk t') < fuel)%nat) ->
  (flag = true -> exists t, child d t p /\ dead d t) -> exists d', gcItem interpolate fuel flag p d = (Ok tt, d') /\ rtc gc_step d d' /\ (flag = false -> i_deleted it = true -> d_items d' !! p = Some (emptied it)).
Proof.
  induction fuel as [|fuel IH]; intros flag p d it Hd Ep Hfuel Hrk Hflag; [lia|]. cbn [gcItem]. erewrite rbind_ok; [|by apply getItem_eq]. destruct (i_deleted it) eqn:Hdel; [|exists d; split_and!; done]. cbn [negb].
  destruct (gcContent_collects fuel d p it Hd Ep Hdel) as (d1 & E1 & R1).
  { intros t' Ec. specialize (Hrk t' Ec). lia. }
  { intros t q d' Hd' Hq Hdead Hlt. destruct Hq as (qi & Eq & Hpar & Hpl). destruct (IH true q d' qi Hd' Eq) as (d2 & E2 & R2 & _); [lia| |by intros _; exists t; split; [exists qi|]|by exists d2].
    intros t' Ec. pose proof (fa_rank _ _ (gd_families _ _ Hd') q qi t t' Eq Hpar Ec). lia. }
  erewrite rbind_ok; [|exact E1]. pose proof (gc_doc_step rk d d1 R1 Hd) as Hd1. pose proof (gf_items _ _ (gc_frame_steps d d1 R1) p) as Fi. rewrite Ep in Fi. destruct (d_items d1 !! p) as [it1|] eqn:Ep1; [|done].
  assert (Hb : i_parent it1 = i_parent it /\ i_id it1 = i_id it /\ i_length it1 = i_length it /\ emptied it1 = emptied it /\ i_deleted it1 = true) by (destruct Fi as [->|[_ ->]]; done). destruct Hb as (B1 & B2 & B3 & B4 & B5). destruct flag.
  - destruct (Hflag eq_refl) as (t & Hch & Hdead). destruct (child_steps rk d d1 t p R1 Hd Hch) as (it1' & Ep1' & Hpar & Hpl). rewrite Ep1 in Ep1'. injection Ep1' as <-. pose proof (proj2 (frame_dead d d1 t (gc_frame_steps d d1 R1)) Hdead) as Hdead1.
    destruct (replaceWithGC_collects d1 t p it1 (gd_clean _ _ Hd1) Ep1 Hpar Hpl (placed_length d1 p it1 (cl_store _ (gd_clean _ _ Hd1)) Ep1 Hpl) Hdead1) as (d2 & E2 & R2). rewrite <- B2, <- B3. exists d2. split_and!; [done|by etrans|done].
  - exists (set_items (<[p := emptied it1]> (d_items d1)) d1). split_and!; [by apply setItem_eq|etrans; [exact R1|]; apply rtc_once; by eapply gc_empty|]. intros _ _. cbn. by rewrite lookup_insert_eq, B4.
Qed.

(** *** The lists keep their positions *)
Definition same_slot (d d' : doc) (a b : structRef) : Prop :=
  @getID _ (refStruct (d_items d')) b = @getID _ (refStruct (d_items d)) a /\ (b = a \/ exists g, b = RGC g).

Lemma gc_slots d d' k ss : rtc gc_step d d' -> clients (d_store d) !! k = Some ss -> exists ss', clients (d_store d') !! k = Some ss' /\ Forall2 (same_slot d d') ss ss'.
Proof.
  intros Hr. revert ss. induction Hr as [d|d1 d2 d3 Hs _ IH]; intros ss Hk; [exists ss; split; [done|]; apply Forall_Forall2_diag, list.Forall_forall; intros x _; split; [done|by left]|].
  assert (H1 : exists ss', clients (d_store d2) !! k = Some ss' /\ Forall2 (same_slot d1 d2) ss ss').
  { pose proof (frame_body d1 d2 (step_frame d1 d2 Hs)) as Hb. assert (Hrefl : forall l, Forall2 (same_slot d1 d2) l l) by (intros l; apply Forall_Forall2_diag, list.Forall_forall; intros x _; split; [symmetry; apply Hb|by left]).
    destruct Hs as [q qi Eq Hd ->|q qi t k0 ss1 ss2 Eq Hpar Hdead Hk0 ->|t ty Et Hdead ->|t ty Et Hdead ->]; try (exists ss; by split). cbn. destruct (decide (k = k0)) as [->|Hne]; [|rewrite lookup_insert_ne by done; by exists ss].
    rewrite lookup_insert_eq. eexists. split; [done|]. rewrite Hk in Hk0. injection Hk0 as ->. apply Forall2_app; [apply Hrefl|]. constructor; [|apply Hrefl]. split; [simpl; by rewrite Eq|right; eauto]. }
  destruct H1 as (ss2 & Hk2 & H12). destruct (IH ss2 Hk2) as (ss3 & Hk3 & H23). exists ss3. split; [done|]. eapply Forall2_trans; [|exact H12|exact H23]. intros a b c [E1 O1] [E2 O2]. split; [congruence|]. destruct O2 as [->|?]; [done|by right].
Qed.

(** The struct at position [i] has been collected. *)
Definition collected (d' : doc) (k : Z) (i p : nat) (it : item) : Prop :=
  d_items d' !! p = Some (emptied it) \/ exists ss' g, clients (d_store d') !! k = Some ss' /\ ss' !! i = Some (RGC g).

Lemma collected_steps (d d' : doc) k i p it : rtc gc_step d d' -> collected d k i p it -> collected d' k i p it.
Proof.
  intros Hr [Ep|(ss & g & Hk & Hi)].
  - left. pose proof (gf_items _ _ (gc_frame_steps d d' Hr) p) as Fi. rewrite Ep in Fi. destruct (d_items d' !! p) as [b|]; [|done]. by destruct Fi as [->|[_ ->]].
  - right. destruct (gc_slots d d' k ss Hr Hk) as (ss' & Hk' & H2). destruct (list.Forall2_lookup_l _ _ _ _ _ H2 Hi) as (b & Hb & _ & [->|[g' ->]]); eauto.
Qed.

Lemma gc_collects (d : doc) p (it : item) : gc_doc rk d -> d_items d !! p = Some it -> (forall t, is_Some (d_types d !! t) -> (rk t < size (d_types d))%nat) ->
  exists d', gc interpolate p d = (Ok tt, d') /\ rtc gc_step d d' /\ (i_deleted it = true -> d_items d' !! p = Some (emptied it)).
Proof.
  intros Hd Ep Hb. unfold gc. erewrite rbind_ok; [|reflexivity]. destruct (gcItem_collects (size (d_types d) + 1) false p d it Hd Ep) as (d' & E & R & H); [lia| |done|by exists d'; split_and!; [| |auto]].
  intros t' Ec. destruct (fa_nested _ _ (gd_families _ _ Hd) p it t' Ep Ec) as (ty & Et & _). specialize (Hb t' ltac:(eauto)). lia.
Qed.

(** The nesting is bounded by the number of types, which does not change. *)
Definition bounded (d : doc) : Prop := forall t, is_Some (d_types d !! t) -> (rk t < size (d_types d))%nat.

Lemma bounded_steps d d' : rtc gc_step d d' -> bounded d -> bounded d'.
Proof.
  intros Hr Hb t [ty' Et]. assert (Edom : dom (d_types d') = dom (d_types d)).
  { apply set_eq. intros x. rewrite !elem_of_dom. pose proof (gf_types _ _ (gc_frame_steps d d' Hr) x) as Ft. destruct (d_types d !! x), (d_types d' !! x); try done; split; eauto. }
  rewrite <- size_dom, Edom, size_dom. apply Hb. apply elem_of_dom. rewrite <- Edom. apply elem_of_dom. eauto.
Qed.

Lemma gcStructAt_collects (d : doc) k ss i s : gc_doc rk d -> bounded d -> clients (d_store d) !! k = Some ss -> ss !! i = Some s ->
  exists d', gcStructAt interpolate gcFilter s d = (Ok tt, d') /\ rtc gc_step d d' /\
    forall p it, s = RItem p -> d_items d !! p = Some it -> i_deleted it = true -> i_keep it = false -> gcFilter it = true -> collected d' k i p it.
Proof.
  intros Hd Hb Hk Hi. destruct s as [p|g]; [|exists d; split_and!; [done|done|naive_solver]]. destruct (sr_items _ (cl_store _ (gd_clean _ _ Hd)) k ss p Hk (list_elem_of_lookup_2 _ _ _ Hi)) as [it Ep]. cbn [gcStructAt]. erewrite rbind_ok; [|by apply getItem_eq].
  destruct (_ && _) eqn:Hc.
  - destruct (gc_collects d p it Hd Ep Hb) as (d' & E & R & H). exists d'. split_and!; [done|done|]. intros p' it' [= <-] Ep' Hdel _ _. simplify_eq. left. by apply H.
  - exists d. split_and!; [done|done|]. intros p' it' [= <-] Ep' Hdel Hkeep Hf. simplify_eq. by rewrite Hdel, Hkeep, Hf in Hc.
Qed.

Lemma clientList_ok (d : doc) k ss : clients (d_store d) !! k = Some ss -> clientList k d = (Ok ss, d).
Proof. intros Hk. unfold clientList, clientStructs. by rewrite Hk. Qed.

Lemma gcLoop_collects fuel : forall (d : doc) k ss endClock si s, gc_doc rk d -> bounded d -> clients (d_store d) !! k = Some ss -> (length ss <= si + fuel)%nat ->
  (forall i x, (si <= i)%nat -> ss !! i = Some x -> Clock (@getID _ (refStruct (d_items d)) x) < endClock -> Clock (@getID _ (refStruct (d_items d)) s) < endClock) ->
  exists d', gcLoop interpolate gcFilter fuel k endClock si s d = (Ok tt, d') /\ rtc gc_step d d' /\
    forall i p it, (si <= i)%nat -> ss !! i = Some (RItem p) -> d_items d !! p = Some it -> Clock (i_id it) < endClock -> i_deleted it = true -> i_keep it = false -> gcFilter it = true -> collected d' k i p it.
Proof.
  induction fuel as [|fuel IH]; intros d k ss endClock si s Hd Hb Hk Hfuel Hs; cbn [gcLoop].
  { exists d. split_and!; [done|done|]. intros i p it Hi Ei%lookup_lt_Some. lia. }
  erewrite rbind_ok; [|by apply clientList_ok]. erewrite rbind_ok; [|reflexivity]. destruct (ss !! si) as [s'|] eqn:Esi; last first.
  { exists d. split_and!; [done|done|]. intros i p it Hi Ei%lookup_lt_Some. apply lookup_ge_None in Esi. lia. }
  assert (Hclock : forall i p it, ss !! i = Some (RItem p) -> d_items d !! p = Some it -> Clock (@getID _ (refStruct (d_items d)) (RItem p)) = Clock (i_id it)) by (intros i p it _ E; simpl; by rewrite E).
  destruct (Z.ltb_spec (Clock (@getID _ (refStruct (d_items d)) s)) endClock) as [Hlt|Hge]; last first.
  { exists d. split_and!; [done|done|]. intros i p it Hi Ei Ep Hc. pose proof (Hs i _ Hi Ei ltac:(by rewrite (Hclock i p it))). lia. }
  erewrite rbind_ok; [|reflexivity]. pose proof (cl_store _ (gd_clean _ _ Hd)) as [(Hok & _) _]. destruct (Hok _ _ Hk) as (_ & (c & Hcn) & _). pose proof (@contiguous_ordered _ (refStruct (d_items d)) c ss Hcn) as Ho. pose proof (@contiguous_nonempty _ (refStruct (d_items d)) c ss Hcn) as Hne.
  destruct (Z.leb_spec endClock (Clock (@getID _ (refStruct (d_items d)) s'))) as [Hle|Hgt].
  { exists d. split_and!; [done|done|]. intros i p it Hi Ei Ep Hc. exfalso. destruct (decide (i = si)) as [->|Hisi]; [simplify_eq; simpl in Hle; rewrite Ep in Hle; simpl in Hle; lia|].
    specialize (Ho si i s' (RItem p) ltac:(lia) Esi Ei). rewrite (Hclock i p it Ei Ep) in Ho. unfold nonempty_structs in Hne. rewrite list.Forall_forall in Hne. specialize (Hne s' (list_elem_of_lookup_2 _ _ _ Esi)). unfold struct_end in Ho. lia. }
  destruct (gcStructAt_collects d k ss si s' Hd Hb Hk Esi) as (d1 & E1 & R1 & H1). erewrite rbind_ok; [|exact E1]. destruct (gc_slots d d1 k ss R1 Hk) as (ss1 & Hk1 & H2). pose proof (Forall2_length H2) as Hlen.
  destruct (IH d1 k ss1 endClock (S si) s') as (d2 & E2 & R2 & Hcol); [by eapply gc_doc_step|by eapply bounded_steps|done|lia| |].
  { intros i x Hi Ei Hx. pose proof (frame_body d d1 (gc_frame_steps d d1 R1) s') as [E _]. by rewrite <- E. }
  exists d2. split_and!; [done|by etrans|]. intros i p it Hi Ei Ep Hc Hdel Hkeep Hf. destruct (decide (i = si)) as [->|Hisi]; [simplify_eq; eapply collected_steps; [exact R2|by apply H1]|].
  destruct (list.Forall2_lookup_l _ _ _ _ _ H2 Ei) as (b & Hb1 & _ & [->|[g ->]]); [|eapply collected_steps; [exact R2|right; eauto]].
  pose proof (gf_items _ _ (gc_frame_steps d d1 R1) p) as Fi. rewrite Ep in Fi. destruct (d_items d1 !! p) as [it1|] eqn:Ep1; [|done]. destruct Fi as [->|[_ ->]]; [apply (Hcol i p it); (done || lia)|eapply collected_steps; [exact R2|by left]].
Qed.

(** Every item that overlaps one of the ranges is collected. *)
Lemma tryGcDeleteItems_collects dis k : forall (d : doc) ss, gc_doc rk d -> bounded d -> clients (d_store d) !! k = Some ss ->
  exists d', tryGcDeleteItems interpolate gcFilter k dis d = (Ok tt, d') /\ rtc gc_step d d' /\
    forall di i p it, di ∈ dis -> ss !! i = Some (RItem p) -> d_items d !! p = Some it -> di_clock di < Clock (i_id it) + i_length it -> Clock (i_id it) < di_clock di + di_length di ->
      i_deleted it = true -> i_keep it = false -> gcFilter it = true -> collected d' k i p it.
Proof.
  induction dis as [|di dis IH]; intros d ss Hd Hb Hk; cbn [tryGcDeleteItems]; [exists d; split_and!; [done|done|set_solver]|]. destruct (IH d ss Hd Hb Hk) as (d1 & E1 & R1 & H1). erewrite rbind_ok; [|exact E1]. pose proof (gc_doc_step rk d d1 R1 Hd) as Hd1.
  destruct (gc_slots d d1 k ss R1 Hk) as (ss1 & Hk1 & H2). erewrite rbind_ok; [|by apply clientList_ok]. erewrite rbind_ok; [|reflexivity]. pose proof (cl_store _ (gd_clean _ _ Hd1)) as Hst1. pose proof (findOrZero_range interpolate Hinterp d1 k ss1 (di_clock di) Hst1 Hk1) as Hr. set (si := findOrZero _ _ _ _) in *.
  destruct (zlookup_is_Some ss1 si Hr) as [s Es]. erewrite rbind_ok; [|rewrite Es; reflexivity]. pose proof Hst1 as [(Hok & _) _]. destruct (Hok _ _ Hk1) as (_ & (c & Hcn) & _). pose proof (@contiguous_ordered _ (refStruct (d_items d1)) c ss1 Hcn) as Ho. pose proof (@contiguous_nonempty _ (refStruct (d_items d1)) c ss1 Hcn) as Hne.
  assert (Esn : ss1 !! Z.to_nat si = Some s) by (unfold zlookup in Es; destruct (Z.ltb_spec si 0); [lia|done]).
  assert (Hmono : forall i x, (Z.to_nat si <= i)%nat -> ss1 !! i = Some x -> Clock (@getID _ (refStruct (d_items d1)) s) <= Clock (@getID _ (refStruct (d_items d1)) x)).
  { intros i x Hi Ei. destruct (decide (i = Z.to_nat si)) as [->|Hne']; [by simplify_eq|]. specialize (Ho (Z.to_nat si) i s x ltac:(lia) Esn Ei). unfold nonempty_structs in Hne. rewrite list.Forall_forall in Hne. specialize (Hne s (list_elem_of_lookup_2 _ _ _ Esn)). unfold struct_end in Ho. lia. }
  destruct (gcLoop_collects (length ss1) d1 k ss1 (di_clock di + di_length di) (Z.to_nat si) s) as (d2 & E2 & R2 & Hcol); [done|by eapply bounded_steps|done|lia|intros i x Hi Ei Hx; specialize (Hmono i x Hi Ei); lia|].
  exists d2. split_and!; [done|by etrans|]. intros di' i p it Hin Ei Ep Hlo Hhi Hdel Hkeep Hf. apply elem_of_cons in Hin as [->|Hin]; [|eapply collected_steps; [exact R2|by eapply H1]].
  destruct (list.Forall2_lookup_l _ _ _ _ _ H2 Ei) as (b & Hb1 & _ & [->|[g ->]]); [|eapply collected_steps; [exact R2|right; eauto]].
  pose proof (gf_items _ _ (gc_frame_steps d d1 R1) p) as Fi. rewrite Ep in Fi. destruct (d_items d1 !! p) as [it1|] eqn:Ep1; [|done]. destruct Fi as [->|[_ ->]]; [|eapply collected_steps; [exact R2|by left]].
  apply (Hcol i p it); try done. destruct (decide (Z.to_nat si <= i)%nat) as [Hle|Hgt]; [done|exfalso]. specialize (Ho i (Z.to_nat si) (RItem p) s ltac:(lia) Hb1 Esn). assert (Eend : @struct_end _ (refStruct (d_items d1)) (RItem p) = Clock (i_id it) + i_length it) by (unfold struct_end; simpl; by rewrite Ep1). rewrite Eend in Ho.
  pose proof (@findIndexSS_spec _ (refStruct (d_items d1)) interpolate Hinterp ss1 (di_clock di) Hne) as Hfs. assert (Hsi : si = 0 \/ @findIndexSS _ (refStruct (d_items d1)) interpolate ss1 (di_clock di) = Ok si) by (subst si; unfold findOrZero; destruct (findIndexSS _ ss1 (di_clock di)); auto).
  destruct Hsi as [Hz|Ej]; [rewrite Hz in Hgt; lia|]. rewrite Ej in Hfs. destruct Hfs as (x & Hx & Hxc). unfold zlookup in Hx. destruct (si <? 0); [done|]. rewrite Esn in Hx. injection Hx as <-. unfold covers in Hxc. lia.
Qed.

Lemma tryGcDeleteSet_collects order : forall (d : doc), gc_doc rk d -> bounded d ->
  exists d', tryGcDeleteSet interpolate gcFilter order d = (Ok tt, d') /\ rtc gc_step d d' /\
    forall client dis di ss i p it, (client, dis) ∈ order -> di ∈ dis -> clients (d_store d) !! client = Some ss -> ss !! i = Some (RItem p) -> d_items d !! p = Some it ->
      di_clock di < Clock (i_id it) + i_length it -> Clock (i_id it) < di_clock di + di_length di -> i_deleted it = true -> i_keep it = false -> gcFilter it = true -> collected d' client i p it.
Proof.
  unfold tryGcDeleteSet. induction order as [|[client dis] order IH]; intros d Hd Hb; cbn [forEach]; [exists d; split_and!; [done|done|set_solver]|].
  assert (H1 : exists d1, (match clientStructs (d_store d) client with Some _ => tryGcDeleteItems interpolate gcFilter client dis d | None => (Ok tt, d) end) = (Ok tt, d1) /\ rtc gc_step d d1 /\
    forall di ss i p it, di ∈ dis -> clients (d_store d) !! client = Some ss -> ss !! i = Some (RItem p) -> d_items d !! p = Some it -> di_clock di < Clock (i_id it) + i_length it -> Clock (i_id it) < di_clock di + di_length di ->
      i_deleted it = true -> i_keep it = false -> gcFilter it = true -> collected d1 client i p it).
  { unfold clientStructs. destruct (clients (d_store d) !! client) as [ss|] eqn:Hk; [|exists d; split_and!; [done|done|naive_solver]]. destruct (tryGcDeleteItems_collects dis client d ss Hd Hb Hk) as (d1 & E1 & R1 & H1). exists d1. split_and!; [done|done|]. intros di ss' i p it Hin Hk'. simplify_eq. by apply H1. }
  destruct H1 as (d1 & E1 & R1 & H1). erewrite rbind_ok; [|exact E1]. destruct (IH d1) as (d2 & E2 & R2 & H2); [by eapply gc_doc_step|by eapply bounded_steps|]. exists d2. split_and!; [done|by etrans|].
  intros cl dis' di ss i p it Hin Hdi Hk Ei Ep Hlo Hhi Hdel Hkeep Hf. apply elem_of_cons in Hin as [[= -> ->]|Hin]; [eapply collected_steps; [exact R2|by eapply H1]|].
  destruct (gc_slots d d1 cl ss R1 Hk) as (ss1 & Hk1 & Hsl). destruct (list.Forall2_lookup_l _ _ _ _ _ Hsl Ei) as (b & Hb1 & _ & [->|[g ->]]); [|eapply collected_steps; [exact R2|right; eauto]].
  pose proof (gf_items _ _ (gc_frame_steps d d1 R1) p) as Fi. rewrite Ep in Fi. destruct (d_items d1 !! p) as [it1|] eqn:Ep1; [|done]. destruct Fi as [->|[_ ->]]; [by eapply H2|eapply collected_steps; [exact R2|by left]].
Qed.

End Total.

Section Steps.
Context {V : Type}.

Lemma gc_steps_list og ro (d d' : docState V) t ty ps : rtc gc_step d d' -> clean_doc d -> ~ dead d t -> seq_doc og ro d t ty ps -> clean_doc d' /\ seq_doc og ro d' t ty ps /\ forall ms, same_list (mkClean d ms) (mkClean d' ms) t ty ty ps ps.
Proof.
  induction 1 as [d|d1 d2 d3 Hs _ IH]; intros Hc Hal Hsq; [split_and!; [done|done|intros; apply same_list_refl]|]. destruct (gc_list og ro d1 d2 t ty ps Hs Hc Hal Hsq) as [Hsq2 H12].
  destruct (IH (gc_clean _ _ Hc Hs) ltac:(by rewrite (frame_dead d1 d2 t (step_frame _ _ Hs))) Hsq2) as (Hc3 & Hsq3 & H23). split_and!; [done|done|]. intros ms. by eapply same_list_trans.
Qed.

Lemma gc_steps_store (d d' : docState V) : rtc gc_step d d' -> clean_doc d ->
  clean_doc d' /\ forall k, @getState _ (refStruct (d_items d')) (d_store d') k = @getState _ (refStruct (d_items d)) (d_store d) k.
Proof.
  induction 1 as [d|d1 d2 d3 Hs _ IH]; intros Hc; [done|]. destruct (IH (gc_clean _ _ Hc Hs)) as [I1 I2]. split; [done|]. intros k. rewrite I2. by apply gc_store; [apply Hc|].
Qed.
End Steps.

(** ** Properties *)

(** C11. The cleanup at the end of a transaction keeps the document: whether
    garbage collection is on or off, whatever delete set, state changes and structs
    are to be merged, in whatever order the clients are visited, the pass returns
    without a panic and leaves a document whose store is contiguous and whose
    structs are linked, with the same state for every client; and every list of a
    type that is not itself deleted keeps its elements, with their origins, its
    values, its length and its item count, and its search markers stay where they
    point. *)
Theorem cleanup_keeps_document {V : Type} (interpolate : Z -> Z -> Z -> Z) (gcFilter : itemStruct V -> bool) (s : cleanState V) (collect : bool)
    (order : list (Z * list deleteItem)) (states : list (Z * (Z * Z))) (mergeStructs : list nat) :
  (forall clock span end_, 0 < span -> 0 <= clock <= span -> 0 <= end_ -> 0 <= interpolate clock span end_ <= end_) ->
  clean_doc (c_doc s) -> (collect = true -> exists rk, families rk (c_doc s) /\ bounded rk (c_doc s)) -> (forall p, p ∈ mergeStructs -> is_Some (d_items (c_doc s) !! p)) ->
  exists s', cleanupStore interpolate gcFilter collect order states mergeStructs s = (Ok tt, s') /\ clean_doc (c_doc s') /\
    (forall k, @getState _ (refStruct (d_items (c_doc s'))) (d_store (c_doc s')) k = @getState _ (refStruct (d_items (c_doc s))) (d_store (c_doc s)) k) /\
    forall og ro t ty ps, ~ dead (c_doc s) t -> seq_doc og ro (c_doc s) t ty ps -> exists ty' ps', seq_doc og ro (c_doc s') t ty' ps' /\ same_list s s' t ty ty' ps ps'.
Proof.
  intros Hi Hc Hrk Hms. destruct s as [d ms]. cbn [c_doc] in *. assert (H1 : exists d1, (if collect then onDoc (tryGcDeleteSet interpolate gcFilter order) else rret tt) (mkClean d ms) = (Ok tt, mkClean d1 ms) /\ rtc gc_step d d1).
  { destruct collect; [|by exists d]. destruct (Hrk eq_refl) as (rk & Hf & Hb). destruct (tryGcDeleteSet_collects interpolate gcFilter Hi rk order d ltac:(by split) Hb) as (d1 & E1 & R1 & _). exists d1. split; [by apply (onDoc_ok _ (mkClean d ms))|done]. }
  destruct H1 as (d1 & E1 & R1). destruct (gc_steps_store d d1 R1 Hc) as [Hc1 Hst1]. unfold cleanupStore. erewrite rbind_ok; [|exact E1].
  destruct (compaction_keeps interpolate (mkClean d1 ms) order states mergeStructs Hi Hc1) as (s' & E' & Hc' & Hst' & Hl').
  { intros p Hp. destruct (Hms p Hp) as [a Ea]. pose proof (gf_items _ _ (gc_frame_steps d d1 R1) p) as Fi. cbn. rewrite Ea in Fi. destruct (d_items d1 !! p); [eauto|done]. }
  exists s'. split_and!; [done|done|intros k; rewrite Hst'; apply Hst1|]. intros og ro t ty ps Hal Hsq. destruct (gc_steps_list og ro d d1 t ty ps R1 Hc Hal Hsq) as (_ & Hsq1 & H01).
  destruct (Hl' og ro t ty ps ltac:(cbn; by rewrite (frame_dead d d1 t (gc_frame_steps d d1 R1))) Hsq1) as (ty' & ps' & Hsq' & H1'). exists ty', ps'. split; [done|]. eapply same_list_trans; [apply H01|exact H1'].
Qed.

(** C13. Garbage collection is exhaustive: after [tryGcDeleteSet] every item of the
    store that overlaps a range of the delete set and is deleted, not kept and let
    through by the filter has lost its content, or a GC struct stands in its
    place. *)
Theorem collection_exhaustive {V : Type} (interpolate : Z -> Z -> Z -> Z) (gcFilter : itemStruct V -> bool) (rk : nat -> nat) (d : docState V) (order : list (Z * list deleteItem)) :
  (forall clock span end_, 0 < span -> 0 <= clock <= span -> 0 <= end_ -> 0 <= interpolate clock span end_ <= end_) ->
  clean_doc d -> families rk d -> bounded rk d ->
  exists d', tryGcDeleteSet interpolate gcFilter order d = (Ok tt, d') /\
    forall client dis di ss i p it, (client, dis) ∈ order -> di ∈ dis -> clients (d_store d) !! client = Some ss -> ss !! i = Some (RItem p) -> d_items d !! p = Some it ->
      di_clock di < Clock (i_id it) + i_length it -> Clock (i_id it) < di_clock di + di_length di -> i_deleted it = true -> i_keep it = false -> gcFilter it = true ->
      d_items d' !! p = Some (with_body (i_id it) (i_length it) (contentDeleted (i_length it)) it) \/ exists ss' g, clients (d_store d') !! client = Some ss' /\ ss' !! i = Some (RGC g).
Proof. intros Hi Hc Hf Hb. destruct (tryGcDeleteSet_collects interpolate gcFilter Hi rk order d ltac:(by split) Hb) as (d' & E & _ & H). by exists d'. Qed.

(** ** A document with a deleted nested type

    The list of type 0 holds two values, the deleted item of type 1 and one more
    value; type 1 had one element. *)
Definition gc1 : itemStruct Z := mkItem (GenID 1 0) 2 None None (Some 2%nat) None (ParentType 0) [] None (contentAny [10; 20]) false true false.
Definition gc2 : itemStruct Z := mkItem (GenID 1 2) 1 (Some (GenID 1 1)) (Some 1%nat) (Some 4%nat) None (ParentType 0) [] None (contentType 1%nat) false true true.
Definition gc3 : itemStruct Z := mkItem (GenID 1 3) 1 None None None None (ParentType 1) [] None (contentAny [5]) false true true.
Definition gc4 : itemStruct Z := mkItem (GenID 1 4) 1 (Some (GenID 1 2)) (Some 2%nat) None None (ParentType 0) [] None (contentAny [30]) false true false.
Definition gc_type0 : ytype := mkType (Some 1%nat) ∅ 3 None 3 false 0 false.
Definition gc_type1 : ytype := mkType (Some 3%nat) ∅ 0 (Some 2%nat) 1 false 0 false.
Definition gc_sample : docState Z :=
  mkDoc {[ 1%nat := gc1; 2%nat := gc2; 3%nat := gc3; 4%nat := gc4 ]} {[ 0%nat := gc_type0; 1%nat := gc_type1 ]} (mkStore {[ 1 := [RItem 1; RItem 2; RItem 3; RItem 4] ]} None None [1]) 5 (mkTrans newDeleteSet [] [] true (Some ∅) None ∅ ∅ ∅).

Lemma gc_sample_item q it : d_items gc_sample !! q = Some it -> (q = 1%nat /\ it = gc1) \/ (q = 2%nat /\ it = gc2) \/ (q = 3%nat /\ it = gc3) \/ (q = 4%nat /\ it = gc4).
Proof.
  cbn. rewrite !lookup_insert_Some, lookup_singleton_Some. naive_solver.
Qed.

Lemma gc_sample_store : store_repr gc_sample.
Proof.
  split.
  - split_and!; simpl.
    + intros c ss Hc. apply lookup_singleton_Some in Hc as [<- <-]. split_and!; [done| |repeat constructor]. exists 0. vm_compute. repeat split; discriminate.
    + apply NoDup_singleton.
    + intros c. rewrite list_elem_of_singleton. split; [intros ->; rewrite lookup_singleton_eq; eauto|intros [? Hc]; by apply lookup_singleton_Some in Hc as [<- _]].
  - intros k ss q Hk Hq. simpl in Hk. apply lookup_singleton_Some in Hk as [<- <-]. assert (q = 1%nat \/ q = 2%nat \/ q = 3%nat \/ q = 4%nat) as [-> | [-> | [-> | ->]]] by set_solver; vm_compute; eauto.
Qed.

Lemma gc_sample_links : linked (d_items gc_sample) None [1; 2; 4]%nat /\ linked (d_items gc_sample) None [3]%nat.
Proof. split; repeat (eexists; split_and!; [reflexivity..|]); done. Qed.

Lemma gc_sample_fresh : heap_fresh gc_sample.
Proof. intros q Hq. cbn in Hq |- *. rewrite !lookup_insert_ne, lookup_singleton_ne by lia. done. Qed.

Lemma gc_sample_clean : clean_doc gc_sample.
Proof.
  destruct gc_sample_links as [L0 L1]. split; [apply gc_sample_store|apply gc_sample_fresh|]. intros k ss q Hk Hq. cbn in Hk. apply lookup_singleton_Some in Hk as [<- <-].
  assert (Hlist : forall t ty ps, linked (d_items gc_sample) None ps -> NoDup ps -> d_types gc_sample !! t = Some ty -> t_start ty = head ps -> (forall x xi, x ∈ ps -> d_items gc_sample !! x = Some xi -> i_parent xi = ParentType t /\ i_parentSub xi = []) -> chain gc_sample t [] ps).
  { intros t ty ps H1 H2 H3 H4 H5. split; [done|done|done|]. exists ty. split; [done|]. intros _. by left. }
  destruct (decide (q = 3%nat)) as [->|Hne].
  - exists 1%nat, [], [3]%nat. split; [|set_solver]. apply (Hlist 1%nat gc_type1); [done|apply NoDup_singleton|done|done|]. intros x xi Hx%list_elem_of_singleton Ex. subst x. vm_compute in Ex. by injection Ex as <-.
  - exists 0%nat, [], [1; 2; 4]%nat. split; [|set_solver]. apply (Hlist 0%nat gc_type0); [done|repeat constructor; set_solver|done|done|]. intros x xi Hx Ex. apply gc_sample_item in Ex as [[-> ->]|[[-> ->]|[[-> ->]|[-> ->]]]]; try done. set_solver.
Qed.

Definition gc_rank (t : nat) : nat := 1 - t.

Lemma gc_sample_families : families gc_rank gc_sample.
Proof.
  destruct gc_sample_links as [L0 L1]. assert (Hty : forall t ty, d_types gc_sample !! t = Some ty -> (t = 0%nat /\ ty = gc_type0) \/ (t = 1%nat /\ ty = gc_type1)) by (intros t ty; cbn; rewrite lookup_insert_Some, lookup_singleton_Some; naive_solver).
  assert (Hch : forall t q it, d_items gc_sample !! q = Some it -> i_parent it = ParentType t -> child gc_sample t q).
  { intros t q it Eq Hpar. exists it. split_and!; [done|done|]. exists [RItem 1; RItem 2; RItem 3; RItem 4]. apply gc_sample_item in Eq as [[-> ->]|[[-> ->]|[[-> ->]|[-> ->]]]]; (split; [done|left; set_solver]). }
  split.
  - intros t ty Et. destruct (Hty t ty Et) as [[-> ->]|[-> ->]].
    + exists [1; 2; 4]%nat. split_and!; [done|repeat constructor; set_solver|done|]. intros p Hp. assert (p = 1%nat \/ p = 2%nat \/ p = 4%nat) as [-> | [-> | ->]] by set_solver; by eapply Hch.
    + exists [3]%nat. split_and!; [done|apply NoDup_singleton|done|]. intros p ->%list_elem_of_singleton. by eapply Hch.
  - intros t ty key p Et. destruct (Hty t ty Et) as [[-> ->]|[-> ->]]; done.
  - intros p it t' Ep Ec. apply gc_sample_item in Ep as [[-> ->]|[[-> ->]|[[-> ->]|[-> ->]]]]; cbn in Ec; try done. injection Ec as <-. by exists gc_type1.
  - intros p it t t' Ep Hpar Ec. apply gc_sample_item in Ep as [[-> ->]|[[-> ->]|[[-> ->]|[-> ->]]]]; cbn in Ec; try done. injection Ec as <-. injection Hpar as <-. cbn. lia.
Qed.

Lemma gc_sample_bounded : bounded gc_rank gc_sample.
Proof. intros t [ty Et]. cbn in Et |- *. unfold gc_rank. change (1 - t < 2)%nat. lia. Qed.

Lemma gc_sample_list : exists og ro, seq_doc og ro gc_sample 0 gc_type0 [1; 2; 4]%nat.
Proof.
  destruct gc_sample_links as [L0 _]. exists (og_with (og_with (og_with (fun _ => None) gc1) gc2) gc4), (ro_with (ro_with (ro_with (fun _ => None) gc1) gc2) gc4).
  assert (Hcase : forall q qi, q ∈ [1; 2; 4]%nat -> d_items gc_sample !! q = Some qi -> qi = gc1 \/ qi = gc2 \/ qi = gc4) by (intros q qi Hq E; apply gc_sample_item in E as [[-> ->]|[[-> ->]|[[-> ->]|[-> ->]]]]; try tauto; set_solver).
  split; [split; [apply gc_sample_store|split|..]|done|split; [done|done|repeat constructor; cbn; lia|done]|done|].
  - by eexists.
  - done.
  - intros q qi Hq E. destruct (Hcase q qi Hq E) as [->|[->| ->]]; repeat (apply agrees_old; [intros x Hx Hx'; apply elem_chars in Hx, Hx'; cbn in Hx, Hx'; lia|]); by apply agrees_new.
  - intros q qi Hq E. exists [RItem 1; RItem 2; RItem 3; RItem 4]. split; [by destruct (Hcase q qi Hq E) as [->|[->| ->]]|set_solver].
  - intros q qi Hq E. destruct (Hcase q qi Hq E) as [->|[->| ->]]; by split.
  - apply gc_sample_fresh.
  - repeat constructor; set_solver.
  - intros q qi Hq E. destruct (Hcase q qi Hq E) as [->|[->| ->]]; done.
Qed.

Lemma gc_sample_alive : ~ dead gc_sample 0.
Proof. intros (ty & p & it & E1 & E2 & _). vm_compute in E1. injection E1 as <-. done. Qed.

Lemma cleanup_keeps_document_witness :
  exists s' ty' ps', cleanupStore int_pivot (fun _ => true) true [(1, [newDeleteItem 2 2])] [(1, (0, 5))] [4%nat] (mkClean gc_sample {[ 0%nat := mkMarkers [newArraySearchMarker 4 2 0] ∅ 0 ]}) = (Ok tt, s') /\
    listValues (d_items (c_doc s')) ps' = EAny <$> [10; 20; 30] /\ t_length ty' = 3 /\ markers_ok (d_items (c_doc s')) ps' (c_markers s' !! 0%nat).
Proof.
  destruct gc_sample_list as (og & ro & Hs). set (s := mkClean gc_sample _).
  destruct (cleanup_keeps_document int_pivot (fun _ => true) s true [(1, [newDeleteItem 2 2])] [(1, (0, 5))] [4%nat] int_pivot_range gc_sample_clean) as (s' & E & _ & _ & Hl);
    [intros _; exists gc_rank; split; [apply gc_sample_families|apply gc_sample_bounded]|intros p ->%list_elem_of_singleton; vm_compute; eauto|].
  destruct (Hl og ro 0%nat gc_type0 [1; 2; 4]%nat gc_sample_alive Hs) as (ty' & ps' & _ & [_ Hv Hlen _ Hm]). exists s', ty', ps'. split_and!; [exact E|by rewrite Hv|by rewrite Hlen|]. apply Hm. repeat constructor. exists [1; 2]%nat, []. by vm_compute.
Defined.

(** Both the item of the nested type and the element in it are gone. *)
Lemma collection_exhaustive_witness :
  exists d', tryGcDeleteSet int_pivot (fun _ => true) [(1, [newDeleteItem 2 2])] gc_sample = (Ok tt, d') /\
    (d_items d' !! 2%nat = Some (with_body (GenID 1 2) 1 (contentDeleted 1) gc2) \/ exists ss' g, clients (d_store d') !! 1 = Some ss' /\ ss' !! 1%nat = Some (RGC g)).
Proof.
  destruct (collection_exhaustive int_pivot (fun _ => true) gc_rank gc_sample [(1, [newDeleteItem 2 2])] int_pivot_range gc_sample_clean gc_sample_families gc_sample_bounded) as (d' & E & H).
  exists d'. split; [exact E|]. apply (H 1 [newDeleteItem 2 2] (newDeleteItem 2 2) [RItem 1; RItem 2; RItem 3; RItem 4] 1%nat 2%nat gc2); (set_solver || done || (cbn; lia)).
Defined.
