(* ===== verification/Transact.v ===== *)
(** * The queue of transactions

    Models how transactions nest and how their cleanups are ordered
    (crdt/transaction.go: [newTransaction], [beginTransact], [finishTransact],
    [transact], [cleanupTransactions]). A transaction that is opened inside the
    body of another one joins it; one that an observer opens during a cleanup is
    appended to the queue [doc.transCleanup], and the cleanup that is running picks
    it up behind its own.

    What the callbacks do is a tree: a transaction with the transactions that its
    body and its observers open. What a cleanup does to the store is the subject of
    Collect.v. *)
From stdpp Require Import list.
From Stdlib Require Import ZArith Lia.
From S2P Require Import Prelude.
Open Scope nat_scope.

(** A call of [Transact], with the transactions that the callbacks open: the
    observers of beforeAllTransactions and beforeTransaction, the body, the
    observers that run during the cleanup, in their order, and those of
    afterAllTransactions. [t_lean] is a package-owned mutation, [t_dispatch] the
    answer of [needsChangedTypeDispatch] for a document without observers, [t_subdocs]
    says whether it adds, removes or loads subdocuments. *)
Inductive txn : Type := Txn
  (t_lean t_dispatch t_subdocs : bool) (t_beforeAll t_before t_body t_observers t_afterAll : list txn).

Definition t_lean (t : txn) : bool := let 'Txn a _ _ _ _ _ _ _ := t in a.
Definition t_dispatch (t : txn) : bool := let 'Txn _ b _ _ _ _ _ _ := t in b.
Definition t_subdocs (t : txn) : bool := let 'Txn _ _ b _ _ _ _ _ := t in b.
Definition t_beforeAll (t : txn) : list txn := let 'Txn _ _ _ l _ _ _ _ := t in l.
Definition t_before (t : txn) : list txn := let 'Txn _ _ _ _ l _ _ _ := t in l.
Definition t_body (t : txn) : list txn := let 'Txn _ _ _ _ _ l _ _ := t in l.
Definition t_observers (t : txn) : list txn := let 'Txn _ _ _ _ _ _ l _ := t in l.
Definition t_afterAll (t : txn) : list txn := let 'Txn _ _ _ _ _ _ _ l := t in l.

(** The events of the document; a transaction is named by its number in the order
    of creation. *)
Inductive event : Type :=
| BeforeAllTransactions
| BeforeTransaction (n : nat)
| CleanupStarted (n : nat)
| CleanupDone (n : nat)
| AfterAllTransactions.

(** An entry of [doc.transCleanup]: the address of the transaction, its number and
    what it is. *)
Record entry := mkEntry { e_ptr : nat; e_num : nat; e_reusable : bool; e_txn : txn }.

Record queue := mkQueue {
  q_trans : option nat;             (* doc.trans *)
  q_cleanup : list entry;           (* doc.transCleanup *)
  q_scratch : option nat;           (* doc.mutationTransaction *)
  q_heap : nat;                     (* the next fresh address *)
  q_count : nat;                    (* transactions created *)
  q_log : list event
}.

Section Transact.
(** [doc.HasObservers()] and [doc.GC]. *)
Context (observed collect : bool).

Definition emit (e : event) (q : queue) : queue := mkQueue (q_trans q) (q_cleanup q) (q_scratch q) (q_heap q) (q_count q) (q_log q ++ [e]).
Definition set_transaction (o : option nat) (q : queue) : queue := mkQueue o (q_cleanup q) (q_scratch q) (q_heap q) (q_count q) (q_log q).

(** [newTransaction] and the append of [beginTransact]. A completed lean
    transaction is used again for the next one. *)
Definition newTransaction (t : txn) (q : queue) : queue :=
  let materialize := negb (t_lean t) || observed in
  let reusable := negb materialize && negb collect in
  match (if reusable then q_scratch q else None) with
  | Some p => mkQueue (Some p) (q_cleanup q ++ [mkEntry p (q_count q) reusable t]) None (q_heap q) (q_count q + 1) (q_log q)
  | None => mkQueue (Some (q_heap q)) (q_cleanup q ++ [mkEntry (q_heap q) (q_count q) reusable t]) (q_scratch q) (q_heap q + 1) (q_count q + 1) (q_log q)
  end.

(** The callbacks of the document's events and of a dispatch; without an observer
    there is none. The destruction of a removed subdocument opens a transaction,
    too. *)
Definition fired (present : bool) (ts : list txn) : list txn := if present then ts else [].
Definition dispatches (t : txn) : bool := observed || t_dispatch t || t_subdocs t.

Fixpoint runAll (run : txn -> queue -> option queue) (ts : list txn) (q : queue) : option queue :=
  match ts with [] => Some q | t :: ts' => q ← run t q; runAll run ts' q end.

(** [cleanupTransactions]; [run] is what a callback does. [materializeObservableFields]
    is called when there is something to dispatch, and it makes the transaction unfit
    for reuse, as do changes of the subdocuments. *)
Fixpoint cleanupTransactions (fuel : nat) (run : txn -> queue -> option queue) (i : nat) (q : queue) : option queue :=
  match fuel with
  | O => None
  | S fuel' =>
      match q_cleanup q !! i with
      | None => Some q
      | Some e =>
          let q := emit (CleanupStarted (e_num e)) (set_transaction None q) in
          q ← runAll run (fired (dispatches (e_txn e)) (t_observers (e_txn e))) q;
          let q := emit (CleanupDone (e_num e)) q in
          let pending := q_cleanup q in
          if (length pending <=? i + 1)%nat then
            let reusable := e_reusable e && negb (dispatches (e_txn e)) in
            let q := mkQueue (q_trans q) [] (if reusable then Some (e_ptr e) else q_scratch q) (q_heap q) (q_count q) (q_log q) in
            runAll run (fired observed (t_afterAll (e_txn e))) (emit AfterAllTransactions q)
          else cleanupTransactions fuel' run (i + 1) q
      end
  end.

Fixpoint transact (fuel : nat) (t : txn) (q : queue) : option queue :=
  match fuel with
  | O => None
  | S fuel' =>
      match q_trans q with
      | Some _ => runAll (transact fuel') (t_body t) q
      | None =>
          let q := newTransaction t q in
          let num := q_count q - 1 in
          q ← (if (length (q_cleanup q) =? 1)%nat then runAll (transact fuel') (fired observed (t_beforeAll t)) (emit BeforeAllTransactions q) else Some q);
          q ← runAll (transact fuel') (fired observed (t_before t)) (emit (BeforeTransaction num) q);
          q ← runAll (transact fuel') (t_body t) q;
          let finishCleanup := match q_cleanup q with e :: _ => bool_decide (Some (e_ptr e) = q_trans q) | [] => false end in
          let q := set_transaction None q in
          if finishCleanup then cleanupTransactions fuel' (transact fuel') 0 q else Some q
      end
  end.

(** ** The contract: one cleanup at a time, in the order of the transactions *)

(** What an observer of the document's events can rely on. [w_waiting] are the
    transactions that began and were not cleaned up. *)
Record watch := mkWatch { w_open : bool; w_waiting : list nat; w_cleaning : option nat; w_next : nat }.

Definition observe (e : event) (w : watch) : option watch :=
  match e with
  | BeforeAllTransactions => if negb (w_open w) then Some (mkWatch true [] None (w_next w)) else None
  | BeforeTransaction n => if w_open w && (n =? w_next w)%nat then Some (mkWatch true (w_waiting w ++ [n]) (w_cleaning w) (n + 1)) else None
  | CleanupStarted n =>
      match w_waiting w, w_cleaning w with
      | m :: ms, None => if (n =? m)%nat then Some (mkWatch (w_open w) ms (Some n) (w_next w)) else None
      | _, _ => None
      end
  | CleanupDone n => if bool_decide (w_cleaning w = Some n) then Some (mkWatch (w_open w) (w_waiting w) None (w_next w)) else None
  | AfterAllTransactions =>
      match w_waiting w, w_cleaning w with
      | [], None => if w_open w then Some (mkWatch false [] None (w_next w)) else None
      | _, _ => None
      end
  end.

Fixpoint observeAll (l : list event) (w : watch) : option watch := match l with [] => Some w | e :: l' => w ← observe e w; observeAll l' w end.

Lemma observeAll_app l l' w : observeAll (l ++ l') w = (w ← observeAll l w; observeAll l' w).
Proof. revert w. induction l as [|e l IH]; intros w; [done|]. cbn. destruct (observe e w); [apply IH|done]. Qed.

(** ** Size of a tree *)
Fixpoint sz (t : txn) : nat :=
  let 'Txn _ _ _ a b c d e := t in
  2 + sum_list_with sz a + sum_list_with sz b + sum_list_with sz c + sum_list_with sz d + sum_list_with sz e.

Lemma sz_eq t : sz t = 2 + sum_list_with sz (t_beforeAll t) + sum_list_with sz (t_before t) + sum_list_with sz (t_body t) + sum_list_with sz (t_observers t) + sum_list_with sz (t_afterAll t).
Proof. by destruct t. Qed.

Lemma sz_in t ts : t ∈ ts -> sz t <= sum_list_with sz ts.
Proof. induction 1; cbn; lia. Qed.

Lemma sz_fired b ts : sum_list_with sz (fired b ts) <= sum_list_with sz ts.
Proof. destruct b; cbn; lia. Qed.

(** *** Joined transactions change nothing *)
Lemma joined fuel : forall t q p, q_trans q = Some p -> sz t <= fuel -> transact fuel t q = Some q.
Proof.
  induction fuel as [|fuel IH]; intros t q p Hq Hf; [pose proof (sz_eq t); lia|]. cbn [transact]. rewrite Hq. assert (Hb : forall ts, sum_list_with sz ts <= fuel -> runAll (transact fuel) ts q = Some q).
  { induction ts as [|x ts IHts]; intros Hs; [done|]. cbn in Hs |- *. rewrite (IH x q p Hq) by lia. cbn. apply IHts. lia. }
  apply Hb. pose proof (sz_eq t). lia.
Qed.

Lemma joined_all fuel ts q p : q_trans q = Some p -> sum_list_with sz ts <= fuel -> runAll (transact fuel) ts q = Some q.
Proof. intros Hq. induction ts as [|x ts IH]; intros Hs; [done|]. cbn in Hs |- *. rewrite (joined fuel x q p Hq) by lia. cbn. apply IH. lia. Qed.

(** *** The queue *)

(** Addresses in the queue are distinct, and the one kept for reuse is not among
    them. *)
Record wf (q : queue) : Prop := {
  wf_nodup : NoDup (e_ptr <$> q_cleanup q);
  wf_heap : forall e, e ∈ q_cleanup q -> e_ptr e < q_heap q;
  wf_scratch : forall p, q_scratch q = Some p -> p < q_heap q /\ p ∉ e_ptr <$> q_cleanup q
}.

Lemma newTransaction_wf t q : wf q -> exists e, q_cleanup (newTransaction t q) = q_cleanup q ++ [e] /\ q_trans (newTransaction t q) = Some (e_ptr e) /\ (e_ptr e ∉ e_ptr <$> q_cleanup q) /\
  e_num e = q_count q /\ e_txn e = t /\ q_count (newTransaction t q) = q_count q + 1 /\ q_log (newTransaction t q) = q_log q /\ wf (newTransaction t q).
Proof.
  intros [W1 W2 W3]. unfold newTransaction. set (reusable := _ && _). destruct (if reusable then q_scratch q else None) as [p|] eqn:Es.
  - assert (Esc : q_scratch q = Some p) by (by destruct reusable). destruct (W3 p Esc) as [Hp Hn]. eexists. cbn. split_and!; try done. split; cbn.
    + rewrite fmap_app. apply list.NoDup_app. split_and!; [done| |apply NoDup_singleton]. intros x Hx Hx'%list_elem_of_singleton. by subst.
    + intros e [He|He%list_elem_of_singleton]%elem_of_app; [by apply W2|by subst].
    + done.
  - assert (Hfresh : q_heap q ∉ e_ptr <$> q_cleanup q) by (intros (e & E & He)%list_elem_of_fmap; specialize (W2 e He); lia). eexists. cbn. split_and!; try done. split; cbn.
    + rewrite fmap_app. apply list.NoDup_app. split_and!; [done| |apply NoDup_singleton]. intros x Hx Hx'%list_elem_of_singleton. by subst.
    + intros e [He|He%list_elem_of_singleton]%elem_of_app; [specialize (W2 e He); lia|subst; cbn; lia].
    + intros p Hp. destruct (W3 p Hp) as [H1 H2]. split; [lia|]. rewrite fmap_app. cbn. rewrite not_elem_of_app, list_elem_of_singleton. split; [done|lia].
Qed.

(** Opening a transaction runs its body inside it and leaves it in the queue. *)
Definition opened (q q' : queue) (t : txn) : Prop := exists e, e_txn e = t /\ e_num e = q_count q /\ q_cleanup q' = q_cleanup q ++ [e] /\ q_trans q' = None /\ q_count q' = q_count q + 1 /\
  q_log q' = q_log q ++ (if (length (q_cleanup q) =? 0)%nat then [BeforeAllTransactions] else []) ++ [BeforeTransaction (q_count q)] /\ wf q'.

Lemma wf_emit e q : wf q -> wf (emit e q).
Proof. by intros [? ? ?]. Qed.
Lemma wf_set o q : wf q -> wf (set_transaction o q).
Proof. by intros [? ? ?]. Qed.

Lemma transact_opens fuel t q : wf q -> q_trans q = None -> sz t <= S fuel ->
  exists q', opened q q' t /\ transact (S fuel) t q = if (length (q_cleanup q) =? 0)%nat then cleanupTransactions fuel (transact fuel) 0 q' else Some q'.
Proof.
  intros Hwf Hq Hf. cbn [transact]. rewrite Hq. destruct (newTransaction_wf t q Hwf) as (e & Ec & Et & Hn & En & Etx & Ecnt & El & Hwf1). set (q1 := newTransaction t q) in *. pose proof (sz_eq t) as Hsz. pose proof (sz_fired observed (t_beforeAll t)) as Hf1. pose proof (sz_fired observed (t_before t)) as Hf2.
  assert (Elen : (length (q_cleanup q1) =? 1)%nat = (length (q_cleanup q) =? 0)%nat) by (rewrite Ec, length_app; cbn; destruct (length (q_cleanup q)); [done|]; destruct n; done). rewrite Elen.
  set (q2 := if (length (q_cleanup q) =? 0)%nat then emit BeforeAllTransactions q1 else q1).
  assert (E2 : (if (length (q_cleanup q) =? 0)%nat then runAll (transact fuel) (fired observed (t_beforeAll t)) (emit BeforeAllTransactions q1) else Some q1) = Some q2).
  { subst q2. destruct (_ =? 0)%nat; [|done]. apply (joined_all fuel _ _ (e_ptr e)); [done|lia]. }
  rewrite E2. cbn [mbind option_bind]. assert (Et2 : q_trans q2 = Some (e_ptr e)) by (subst q2; by destruct (_ =? 0)%nat). set (q3 := emit (BeforeTransaction (q_count q1 - 1)) q2). assert (Et3 : q_trans q3 = Some (e_ptr e)) by done.
  rewrite (joined_all fuel _ q3 (e_ptr e) Et3) by lia. cbn [mbind option_bind]. rewrite (joined_all fuel _ q3 (e_ptr e) Et3) by lia. cbn [mbind option_bind].
  assert (Ec3 : q_cleanup q3 = q_cleanup q ++ [e]) by (subst q3 q2; cbn; by destruct (_ =? 0)%nat). exists (set_transaction None q3). split.
  - exists e. split_and!; try done; [subst q3 q2; cbn; by destruct (_ =? 0)%nat| |apply wf_set, wf_emit; subst q2; destruct (_ =? 0)%nat; [by apply wf_emit|done]].
    subst q3 q2. cbn. rewrite Ecnt. replace (q_count q + 1 - 1) with (q_count q) by lia. destruct (_ =? 0)%nat; cbn; rewrite El; [by rewrite <- (assoc_L (++))|done].
  - rewrite Ec3, Et3. destruct (q_cleanup q) as [|e0 es] eqn:Eq0; cbn [app length Nat.eqb]; [by rewrite bool_decide_true|]. rewrite bool_decide_false; [done|]. intros [= E]. apply Hn. rewrite <- E. cbn. left.
Qed.

(** During a cleanup every transaction that is opened waits. *)
Lemma runs_queued fuel ts : forall q, wf q -> q_trans q = None -> q_cleanup q <> [] -> sum_list_with sz ts <= fuel ->
  exists q' es, runAll (transact fuel) ts q = Some q' /\ q_cleanup q' = q_cleanup q ++ es /\ e_txn <$> es = ts /\ e_num <$> es = seq (q_count q) (length ts) /\
    q_count q' = q_count q + length ts /\ q_log q' = q_log q ++ (BeforeTransaction <$> seq (q_count q) (length ts)) /\ q_trans q' = None /\ wf q'.
Proof.
  induction ts as [|t ts IH]; intros q Hwf Hq Hne Hf.
  { exists q, []. cbn. rewrite !app_nil_r. by split_and!; try lia. }
  cbn in Hf. destruct fuel as [|fuel]; [pose proof (sz_eq t); lia|]. destruct (transact_opens fuel t q Hwf Hq ltac:(lia)) as (q1 & (e & Etx & En & Ec & Et & Ecnt & El & Hwf1) & E1).
  assert (Elen : (length (q_cleanup q) =? 0)%nat = false) by (destruct (q_cleanup q); done). rewrite Elen in E1, El.
  destruct (IH q1 Hwf1 Et) as (q2 & es & E2 & Ec2 & Etx2 & En2 & Ecnt2 & El2 & Et2 & Hwf2); [by rewrite Ec; destruct (q_cleanup q)|lia|]. exists q2, (e :: es). cbn [runAll]. rewrite E1. cbn [mbind option_bind]. split_and!; [done| | | | | |done|done].
  - by rewrite Ec2, Ec, <- (assoc_L (++)).
  - cbn. by rewrite Etx, Etx2.
  - cbn. rewrite En, En2, Ecnt. by replace (q_count q + 1) with (S (q_count q)) by lia.
  - rewrite Ecnt2, Ecnt. cbn. lia.
  - rewrite El2, El, Ecnt, <- !(assoc_L (++)). cbn. by replace (q_count q + 1) with (S (q_count q)) by lia.
Qed.

Lemma observe_begins n : forall w, w_open w = true ->
  observeAll (BeforeTransaction <$> seq (w_next w) n) w = Some (mkWatch true (w_waiting w ++ seq (w_next w) n) (w_cleaning w) (w_next w + n)).
Proof.
  induction n as [|n IH]; intros [o wt cl nx] Ho; cbn in Ho; subst o; [cbn; by rewrite app_nil_r, Nat.add_0_r|]. cbn [seq fmap list_fmap observeAll observe w_open w_next andb]. rewrite Nat.eqb_refl. cbn [mbind option_bind w_waiting w_cleaning].
  replace (nx + 1) with (S nx) by lia. specialize (IH (mkWatch true (wt ++ [nx]) cl (S nx)) eq_refl). cbn [w_next w_waiting w_cleaning] in IH. rewrite IH. f_equal. f_equal; [by rewrite <- (assoc_L (++))|lia].
Qed.

Definition start : watch := mkWatch false [] None 0.

(** Between the drains. *)
Record idle (q : queue) : Prop := {
  id_trans : q_trans q = None;
  id_cleanup : q_cleanup q = [];
  id_wf : wf q;
  id_log : observeAll (q_log q) start = Some (mkWatch false [] None (q_count q))
}.

(** In a drain, at position [i]. *)
Record draining (q : queue) (i : nat) : Prop := {
  dr_trans : q_trans q = None;
  dr_wf : wf q;
  dr_log : observeAll (q_log q) start = Some (mkWatch true (e_num <$> drop i (q_cleanup q)) None (q_count q))
}.

Definition load (q : queue) (i : nat) : nat := sum_list_with sz (e_txn <$> drop i (q_cleanup q)).

Lemma sz_app l l' : sum_list_with sz (l ++ l') = sum_list_with sz l + sum_list_with sz l'.
Proof. induction l as [|t l IH]; [done|]. cbn. rewrite IH. lia. Qed.

Lemma drain_step fuel0 q i e : draining q i -> q_cleanup q !! i = Some e -> load q i <= fuel0 ->
  exists q', runAll (transact fuel0) (fired (dispatches (e_txn e)) (t_observers (e_txn e))) (emit (CleanupStarted (e_num e)) (set_transaction None q)) = Some q' /\
    draining (emit (CleanupDone (e_num e)) q') (i + 1) /\ load (emit (CleanupDone (e_num e)) q') (i + 1) + 2 + sum_list_with sz (t_afterAll (e_txn e)) <= load q i /\ e ∈ q_cleanup q'.
Proof.
  intros [D1 D2 D3] Ee Hload. set (q1 := emit _ _). unfold load in *. pose proof (drop_S _ _ _ Ee) as Ed. rewrite Ed in D3, Hload |- *. cbn [fmap list_fmap sum_list_with] in D3, Hload |- *. pose proof (sz_eq (e_txn e)) as Hsz. set (obs := fired (dispatches (e_txn e)) (t_observers (e_txn e))). assert (Hfo : sum_list_with sz obs <= sum_list_with sz (t_observers (e_txn e))) by apply sz_fired.
  destruct (runs_queued fuel0 obs q1) as (q2 & es & E2 & Ec & Etx & En & Ecnt & El & Et & Hwf); [by apply wf_emit, wf_set|done|intros E; cbn in E; by rewrite E in Ee|lia|].
  exists q2. split; [done|]. cbn in Ec, En, Ecnt, El. assert (Edrop : drop (i + 1) (q_cleanup q2) = drop (S i) (q_cleanup q) ++ es).
  { rewrite Ec. replace (i + 1) with (S i) by lia. apply lookup_lt_Some in Ee. rewrite drop_app_le by lia. done. } split_and!; [| |rewrite Ec; apply elem_of_app; left; by eapply list_elem_of_lookup_2].
  - split; [done|by apply wf_emit|]. cbn. rewrite El, !observeAll_app, D3. cbn [mbind option_bind observeAll observe w_waiting w_cleaning]. rewrite Nat.eqb_refl. cbn [mbind option_bind w_open w_next].
    rewrite (observe_begins (length obs) (mkWatch true (e_num <$> drop (S i) (q_cleanup q)) (Some (e_num e)) (q_count q)) eq_refl). cbn [mbind option_bind observeAll observe w_cleaning w_waiting w_next w_open].
    rewrite bool_decide_true by done. cbn [mbind option_bind]. rewrite Edrop, fmap_app, En, Ecnt. done.
  - cbn [q_cleanup emit]. rewrite Edrop, fmap_app, sz_app, Etx. lia.
Qed.

Lemma drain_returns fuel0 (Hidle : forall t q, idle q -> sz t + 1 <= fuel0 -> exists q', transact fuel0 t q = Some q' /\ idle q') fuel : forall q i, draining q i -> i < length (q_cleanup q) -> load q i <= fuel -> load q i <= fuel0 ->
  exists q', cleanupTransactions fuel (transact fuel0) i q = Some q' /\ idle q'.
Proof.
  induction fuel as [|fuel IH]; intros q i Hd Hi Hl Hl0; destruct (lookup_lt_is_Some_2 _ _ Hi) as [e Ee].
  { unfold load in Hl. rewrite (drop_S _ _ _ Ee) in Hl. cbn in Hl. pose proof (sz_eq (e_txn e)). lia. }
  cbn [cleanupTransactions]. rewrite Ee. destruct (drain_step fuel0 q i e Hd Ee Hl0) as (q2 & E2 & Hd2 & Hl2 & Hin). rewrite E2. cbn [mbind option_bind]. set (q3 := emit (CleanupDone (e_num e)) q2) in *.
  destruct (Nat.leb_spec (length (q_cleanup q3)) (i + 1)) as [Hle|Hgt]; [|apply IH; (done || lia)].
  set (q4 := emit AfterAllTransactions _). assert (Hidle4 : idle q4).
  { destruct Hd2 as [D1 [W1 W2 W3] D3]. split; [done|done| |].
    - split; cbn; [constructor|set_solver|]. intros p Hp. split; [|set_solver]. destruct (e_reusable e && negb (dispatches (e_txn e))); [injection Hp as <-|by apply W3]. by apply W2.
    - cbn. cbn in D3. rewrite observeAll_app. cbn in Hle. rewrite (drop_ge (q_cleanup q2)) in D3 by done. rewrite D3. done. }
  assert (Hall : forall ts q, idle q -> (forall t, t ∈ ts -> sz t + 1 <= fuel0) -> exists q', runAll (transact fuel0) ts q = Some q' /\ idle q').
  { induction ts as [|t ts IHts]; intros q' Hq' Hts; [by exists q'|]. cbn. destruct (Hidle t q' Hq' (Hts t ltac:(by left))) as (q1 & -> & H1). cbn. apply IHts; [done|]. intros x Hx. apply Hts. by right. }
  apply Hall; [done|]. intros t Ht. pose proof (sz_in t _ Ht). pose proof (sz_fired observed (t_afterAll (e_txn e))). lia.
Qed.

Lemma transact_drains fuel : forall t q, idle q -> sz t + 1 <= fuel -> exists q', transact fuel t q = Some q' /\ idle q'.
Proof.
  induction fuel as [|fuel IH]; intros t q [I1 I2 I3 I4] Hf; [lia|]. destruct (transact_opens fuel t q I3 I1 ltac:(lia)) as (q1 & (e & Etx & En & Ec & Et & Ecnt & El & Hwf1) & ->).
  rewrite I2 in Ec, El |- *. cbn in Ec, El |- *. apply drain_returns; [exact IH| |by rewrite Ec; cbn; lia|unfold load; rewrite Ec; cbn; rewrite Etx; lia|unfold load; rewrite Ec; cbn; rewrite Etx; lia].
  split; [done|done|]. rewrite El, observeAll_app, I4, Ec, Ecnt. cbn. rewrite Nat.eqb_refl. cbn. by rewrite En.
Qed.

End Transact.

(** C15. Observers that open transactions do not nest the cleanups. From a document
    at rest a call of Transact, whatever tree of transactions its body, its
    observers and the observers of those open, returns to rest; and the events of
    the document are then: every drain is bracketed by beforeAllTransactions and
    afterAllTransactions, every transaction that began was cleaned up exactly once,
    in the order in which they began, and no cleanup started before the one ahead of
    it was over. The reuse of the address of a completed transaction never makes a
    queued transaction look like the one that owns the drain. *)
Theorem transactions_drain_in_order observed collect t q fuel : idle q -> sz t + 1 <= fuel ->
  exists q', transact observed collect fuel t q = Some q' /\ q_trans q' = None /\ q_cleanup q' = [] /\
    observeAll (q_log q') start = Some (mkWatch false [] None (q_count q')) /\ idle q'.
Proof. intros Hq Hf. destruct (transact_drains observed collect fuel t q Hq Hf) as (q' & E & Hi). exists q'. destruct Hi as [I1 I2 I3 I4]. by split_and!. Qed.

(** Two edits of an observer in a transaction of an unobserved document, with a
    nested call in the body; a second drain starts from the listener of
    afterAllTransactions where the document is observed. *)
Definition leaf : txn := Txn true false false [] [] [] [] [].
Definition nested : txn := Txn true true false [] [] [leaf] [Txn true true false [leaf] [leaf] [] [leaf] []; leaf] [leaf].
Definition at_rest : queue := mkQueue None [] None 0 0 [].

Lemma at_rest_idle : idle at_rest.
Proof. split; [done|done| |done]. split; cbn; [constructor|set_solver|done]. Qed.

Example nested_log : q_log <$> transact false false 30 nested at_rest = Some [BeforeAllTransactions; BeforeTransaction 0; CleanupStarted 0; BeforeTransaction 1; BeforeTransaction 2; CleanupDone 0;
    CleanupStarted 1; BeforeTransaction 3; CleanupDone 1; CleanupStarted 2; CleanupDone 2; CleanupStarted 3; CleanupDone 3; AfterAllTransactions].
Proof. vm_compute. reflexivity. Qed.

(** The completed transaction is kept and the next one uses its address. *)
Example nested_reuse : (fun q => (q_scratch q, q_heap q)) <$> (q ← transact false false 30 leaf at_rest; transact false false 30 leaf q) = Some (Some 0, 1).
Proof. vm_compute. reflexivity. Qed.

Lemma transactions_drain_in_order_witness : exists q', transact true false 30 nested at_rest = Some q' /\ q_trans q' = None /\ q_cleanup q' = [] /\
    observeAll (q_log q') start = Some (mkWatch false [] None (q_count q')) /\ idle q'.
Proof. apply (transactions_drain_in_order true false nested at_rest 30); [exact at_rest_idle|vm_compute; lia]. Defined.
