(* ===== verification/RelativePosition.v ===== *)
(** * Relative positions

    Models crdt/relative_position.go: a position in a list that names the
    character it is attached to instead of an index
    ([newRelativePositionFromTypeIndex]), its resolution against a document
    ([CreateAbsolutePositionFromRelativePosition], with [followRedone] of item.go),
    and its two exchange forms, the bytes ([writeRelativePosition],
    [readRelativePosition]) and the JSON object.

    Both directions take the position index of the type where it has one, through
    the lookups that PositionIndex.v proves to agree with the list. *)
From stdpp Require Import gmap sets list.
From Stdlib Require Import ZArith Lia.
From S2P Require Import Prelude Lib0 StructStore Text DeleteSet Content Object Any DeleteSetCodec UpdateCodec Item ItemList ItemSplit TypeRead PositionTree PositionIndex.
Open Scope Z_scope.
Open Scope go_scope.

(** ** The positions *)
Record relativePosition := mkRelative { rel_type : option ID; rel_tname : gostring; rel_item : option ID; rel_assoc : Z }.
Record absolutePosition := mkAbsolute { abs_type : nat; abs_index : Z; abs_assoc : Z }.

#[global] Instance relativePosition_eq_dec : EqDecision relativePosition.
Proof. solve_decision. Defined.

(** Nil pointers are equal to each other only; equal pointers have equal fields. *)
Definition CompareRelativePositions (a b : option relativePosition) : bool :=
  match a, b with
  | None, None => true
  | Some a, Some b => bool_decide (rel_tname a = rel_tname b) && bool_decide (rel_item a = rel_item b) && bool_decide (rel_type a = rel_type b) && (rel_assoc a =? rel_assoc b)
  | _, _ => false
  end.

(** ** JSON *)

(** The values of the object: the two forms of an id, a string, a number. *)
Inductive jsonField : Type :=
| JPtr (id : option ID)
| JID (id : ID)
| JString (s : gostring)
| JNumber (n : Z)
| JOther.

Definition key_type : gostring := [116; 121; 112; 101].
Definition key_tname : gostring := [116; 110; 97; 109; 101].
Definition key_item : gostring := [105; 116; 101; 109].
Definition key_assoc : gostring := [97; 115; 115; 111; 99].

Abbreviation jsonObject := (@Object jsonField).

Definition RelativePositionToJSON (rpos : relativePosition) : jsonObject :=
  let json := newObject JOther in
  let json := match rel_type rpos with Some id => Set_ JOther json key_type (JPtr (Some id)) | None => json end in
  let json := if decide (rel_tname rpos = []) then json else Set_ JOther json key_tname (JString (rel_tname rpos)) in
  let json := match rel_item rpos with Some id => Set_ JOther json key_item (JPtr (Some id)) | None => json end in
  Set_ JOther json key_assoc (JNumber (rel_assoc rpos)).

Definition relPosJSONID (v : jsonField) : result ID :=
  match v with JPtr (Some id) | JID id => Ok id | _ => Err ErrMalformed end.

(** One field: absent, of the right type, or an error. *)
Definition jsonGet {A} (json : jsonObject) (key : gostring) (zero : A) (f : jsonField -> result A) : result A :=
  match Get json key with Some v => f v | None => Ok zero end.

Definition CreateRelativePositionFromJSON (json : jsonObject) : result relativePosition :=
  match jsonGet json key_type None (fun v => match relPosJSONID v with Ok id => Ok (Some id) | Err e => Err e end) with
  | Err e => Err e
  | Ok type =>
      match jsonGet json key_tname [] (fun v => match v with JString s => Ok s | _ => Err ErrMalformed end) with
      | Err e => Err e
      | Ok tname =>
          match jsonGet json key_item None (fun v => match relPosJSONID v with Ok id => Ok (Some id) | Err e => Err e end) with
          | Err e => Err e
          | Ok item =>
              match jsonGet json key_assoc 0 (fun v => match v with JNumber n => Ok n | _ => Err ErrMalformed end) with
              | Err e => Err e
              | Ok assoc => Ok (mkRelative type tname item assoc)
              end
          end
      end
  end.

(** ** Bytes *)
Definition writeRelativePosition (rpos : relativePosition) : step V1.dsEncoderV1 unit :=
  _ <-- (match rel_item rpos, rel_type rpos with
         | Some item, _ => _ <-- UV1.varUint 0;;; UV1.writeID item
         | None, t =>
             if decide (rel_tname rpos = []) then
               match t with
               | Some t => _ <-- UV1.on_buf (fun buf => writeByte buf 2);;; UV1.writeID t
               | None => rfail ErrUnexpectedCase
               end
             else _ <-- UV1.on_buf (fun buf => writeByte buf 1);;; UV1.writeStringV (rel_tname rpos)
         end);;;
  UV1.on_buf (fun buf => writeVarInt buf (rel_assoc rpos)).

(** The error of the writer is dropped. *)
Definition EncodeRelativePosition (rpos : relativePosition) : list Z := V1.rest (writeRelativePosition rpos (V1.mkEnc [])).2.

(** An old encoding ends before the association. *)
Definition readAssoc : step V1.updateDecoderV1 Z :=
  fun d => match V1.d_rest d with [] => (Ok 0, d) | _ => V1.on_rest readVarInt d end.

Definition readRelativePosition : step V1.updateDecoderV1 relativePosition :=
  tag <-- V1.on_rest ReadVarUint;;;
  anchor <-- (if tag =? 0 then id <-- UV1.readID;;; rret (None, [], Some id)
              else if tag =? 1 then name <-- UV1.readStringV;;; rret (None, name, None)
              else if tag =? 2 then id <-- UV1.readID;;; rret (Some id, [], None)
              else rfail ErrTag);;;
  assoc <-- readAssoc;;;
  rret (mkRelative anchor.1.1 anchor.1.2 anchor.2 assoc).

Definition DecodeRelativePosition (bytes : list Z) : result relativePosition := (readRelativePosition (V1.mkDec bytes)).1.

Section Positions.
Context {V : Type} (interpolate : Z -> Z -> Z -> Z).
Abbreviation item := (itemStruct V).

(** The document with the table of its root types and the position indexes of the
    types that have one. *)
Record shared := mkShared { sh_doc : docState V; sh_share : gmap gostring nat; sh_indexes : gmap nat listPositionIndex }.
Abbreviation heap_of s := (d_items (sh_doc s)).

(** ** Creation *)
Definition findRootTypeKey (s : shared) (t : nat) : gostring :=
  from_option fst [] (head (filter (fun e => e.2 = t) (map_to_list (sh_share s)))).

(** How a position names its type: the id of its item, or the name of the root. *)
Definition typeRef (s : shared) (t : nat) : result (option ID * gostring) :=
  match d_types (sh_doc s) !! t with
  | None => Err ErrPanic
  | Some ty =>
      match t_item ty with
      | None => Ok (None, findRootTypeKey s t)
      | Some p => match heap_of s !! p with Some it => Ok (Some (i_id it), []) | None => Err ErrPanic end
      end
  end.

Definition newRelativePosition (s : shared) (t : nat) (item : option ID) (assoc : Z) : result relativePosition :=
  match typeRef s t with Ok (type, tname) => Ok (mkRelative type tname item assoc) | Err e => Err e end.

(** The loop over the items: the id that the position is attached to. *)
Fixpoint anchorLoop (index assoc : Z) (l : list (nat * item)) : option ID :=
  match l with
  | [] => None
  | (_, t) :: l' =>
      if live t && (index <? i_length t) then Some (GenID (Client (i_id t)) (Clock (i_id t) + index))
      else if bool_decide (i_right t = None) && (assoc <? 0) then Some (lastID t)
      else anchorLoop (if live t then index - i_length t else index) assoc l'
  end.

(** Where the loop starts: the index is asked for a list of several items. *)
Definition anchorStart (s : shared) (t : nat) (ty : ytype) (index : Z) : option nat * Z :=
  match t_start ty ≫= fun p => heap_of s !! p ≫= i_right with
  | Some _ =>
      match indexedReadPosition ty (sh_indexes s !! t) index with
      | Some (indexedItem, indexedStart) => (indexedItem, index - indexedStart)
      | None => (t_start ty, index)
      end
  | None => (t_start ty, index)
  end.

Definition newRelativePositionFromTypeIndex (s : shared) (t : nat) (index assoc : Z) : result relativePosition :=
  match d_types (sh_doc s) !! t with
  | None => Err ErrPanic
  | Some ty =>
      if (assoc <? 0) && (index =? 0) then newRelativePosition s t None assoc
      else
        let index := if assoc <? 0 then index - 1 else index in
        let '(start, index) := anchorStart s t ty index in
        newRelativePosition s t (anchorLoop index assoc (rightItems (heap_of s) start)) assoc
  end.

(** ** Resolution *)

(** [followRedone] from an id: an item that was undone and redone lives on in the
    item that [redone] names. The item, if the last id is one, and the offset in it;
    [None] when the fuel is not enough. *)
Fixpoint followRedone (fuel : nat) (s : shared) (nextID : ID) (diff : Z) (item : option nat) : option (option nat * Z) :=
  match fuel with
  | O => None
  | S fuel' =>
      let nextID := if 0 <? diff then GenID (Client nextID) (Clock nextID + diff) else nextID in
      match @getStruct _ (refStruct (heap_of s)) interpolate (d_store (sh_doc s)) nextID with
      | Some (RItem p) =>
          match heap_of s !! p with
          | Some it =>
              let diff := Clock nextID - Clock (i_id it) in
              match i_redone it with
              | None => Some (Some p, diff)
              | Some redone => followRedone fuel' s redone diff (Some p)
              end
          | None => Some (item, diff)
          end
      | _ => Some (item, diff)
      end
  end.

(** [doc.getGeneric]: an unknown name is registered as an empty type. *)
Definition getGeneric (s : shared) (name : gostring) : nat * shared :=
  match sh_share s !! name with
  | Some t => (t, s)
  | None =>
      let d := sh_doc s in
      let t := d_next d in
      (t, mkShared (set_next (t + 1) (set_types (<[t := mkType None ∅ 0 None 0 false 0 false]> (d_types d)) d)) (<[name := t]> (sh_share s)) (sh_indexes s))
  end.

(** [t.getItem() == nil || !t.getItem().isDeleted()]. *)
Definition typeAlive (s : shared) (ty : ytype) : bool :=
  match t_item ty with None => true | Some p => match heap_of s !! p with Some it => negb (i_deleted it) | None => true end end.

Definition knows (s : shared) (id : ID) : result bool :=
  match @getState _ (refStruct (heap_of s)) (d_store (sh_doc s)) (Client id) with Ok state => Ok (Clock id <? state) | Err e => Err e end.

(** The visible start of the anchor: from the index, or by the walk to the left. *)
Definition anchorIndex (s : shared) (t : nat) (ty : ytype) (right : nat) (it : item) : Z :=
  match (if bool_decide (i_left it <> None) || bool_decide (i_right it <> None) then indexedVisibleStart (heap_of s) ty (sh_indexes s !! t) right else None) with
  | Some start => start
  | None => foldr (fun n index => (if live n.2 then i_length n.2 else 0) + index) 0 (leftItems (heap_of s) (i_left it))
  end.

(** The position of an element of an item. *)
Definition positionOf (s : shared) (right : nat) (diff assoc : Z) : result (option absolutePosition) :=
  match heap_of s !! right with
  | None => Err ErrPanic
  | Some it =>
      match i_parent it with
      | ParentType t =>
          match d_types (sh_doc s) !! t with
          | None => Err ErrPanic
          | Some ty =>
              let index := if typeAlive s ty then anchorIndex s t ty right it + (if live it then (if 0 <=? assoc then diff else diff + 1) else 0) else 0 in
              Ok (Some (mkAbsolute t index assoc))
          end
      | _ => Err ErrPanic
      end
  end.

Definition resolveItem (fuel : nat) (s : shared) (rightID : ID) (assoc : Z) : option (result (option absolutePosition)) :=
  match knows s rightID with
  | Err e => Some (Err e)
  | Ok false => Some (Ok None)
  | Ok true =>
      r ← followRedone fuel s rightID 0 None;
      Some match r with
           | (None, _) => Ok None
           | (Some anchor, diff) => positionOf s anchor diff assoc
           end
  end.

Definition resolveTypeID (fuel : nat) (s : shared) (typeID : ID) : option (result (option nat)) :=
  match knows s typeID with
  | Err e => Some (Err e)
  | Ok false => Some (Ok None)
  | Ok true =>
      r ← followRedone fuel s typeID 0 None;
      Some (Ok (p ← r.1; it ← heap_of s !! p; match i_content it with contentType t => Some t | _ => None end))
  end.

(** The end of a type, or its beginning. *)
Definition resolveEnd (s : shared) (t : nat) (assoc : Z) : result (option absolutePosition) :=
  match d_types (sh_doc s) !! t with
  | Some ty => Ok (Some (mkAbsolute t (if 0 <=? assoc then t_length ty else 0) assoc))
  | None => Err ErrPanic
  end.

(** The outer [None] is a lack of fuel; the document can gain a root type. *)
Definition CreateAbsolutePositionFromRelativePosition (fuel : nat) (rpos : relativePosition) (s : shared) : option (result (option absolutePosition) * shared) :=
  match rel_item rpos with
  | Some rightID => r ← resolveItem fuel s rightID (rel_assoc rpos); Some (r, s)
  | None =>
      if decide (rel_tname rpos = []) then
        match rel_type rpos with
        | Some typeID => o ← resolveTypeID fuel s typeID; Some (match o with Ok (Some t) => resolveEnd s t (rel_assoc rpos) | Ok None => Ok None | Err e => Err e end, s)
        | None => Some (Ok None, s)
        end
      else let '(t, s') := getGeneric s (rel_tname rpos) in Some (resolveEnd s' t (rel_assoc rpos), s')
  end.

End Positions.

(** ** What a position means *)
Section Theory.
Context {V : Type} (interpolate : Z -> Z -> Z -> Z).
Context (Hinterp : forall clock span end_, 0 < span -> 0 <= clock <= span -> 0 <= end_ -> 0 <= interpolate clock span end_ <= end_).
Abbreviation item := (itemStruct V).
Abbreviation heap := (gmap nat (itemStruct V)).
Abbreviation heap_of s := (d_items (sh_doc s)).
Implicit Types (h : heap) (it : item) (s : @shared V).

(** The characters of a list, with their visibility. *)
Definition marked h (ps : list nat) : list (ID * bool) := withItems h ps ≫= fun x => (fun c => (c, live x.2)) <$> chars x.2.
Definition visible (l : list (ID * bool)) : list ID := fst <$> filter (fun x => x.2 = true) l.

(** The visible characters before [c]. *)
Fixpoint rank (c : ID) (l : list (ID * bool)) : Z :=
  match l with [] => 0 | (c', v) :: l' => if decide (c' = c) then 0 else (if v : bool then 1 else 0) + rank c l' end.

(** Where a position that is attached to [c] stands: before [c], or behind it when
    it is attached to the character on the left; where [c] has been deleted, in its
    place. *)
Definition stands (assoc : Z) (c : ID) (l : list (ID * bool)) : Z :=
  rank c l + (if (assoc <? 0) && bool_decide ((c, true) ∈ l) then 1 else 0).

Lemma marked_app h ps ps' : marked h (ps ++ ps') = marked h ps ++ marked h ps'.
Proof. unfold marked. by rewrite withItems_app, bind_app. Qed.

Lemma marked_cons h p it ps : h !! p = Some it -> marked h (p :: ps) = ((fun c => (c, live it)) <$> chars it) ++ marked h ps.
Proof. intros E. unfold marked. by rewrite (withItems_cons h p it ps E). Qed.

Lemma visible_app l l' : visible (l ++ l') = visible l ++ visible l'.
Proof. unfold visible. by rewrite list.filter_app, fmap_app. Qed.

Lemma visible_block (b : bool) (cs : list ID) : visible ((fun c => (c, b)) <$> cs) = if b then cs else [].
Proof.
  induction cs as [|c cs IH]; [by destruct b|]. change ((fun c => (c, b)) <$> c :: cs) with ([(c, b)] ++ ((fun c => (c, b)) <$> cs)). rewrite visible_app, IH. by destruct b.
Qed.

Lemma visible_cons h p it ps : h !! p = Some it -> visible (marked h (p :: ps)) = (if live it then chars it else []) ++ visible (marked h ps).
Proof. intros E. by rewrite (marked_cons h p it ps E), visible_app, visible_block. Qed.

Lemma length_chars it : 0 < i_length it -> Z.of_nat (length (chars it)) = i_length it.
Proof. intros Hl. unfold chars. rewrite length_run. lia. Qed.

Lemma visible_length h ps : cells_ok (withItems h ps) -> (forall p, p ∈ ps -> is_Some (h !! p)) -> Z.of_nat (length (visible (marked h ps))) = vlen (withItems h ps).
Proof.
  induction ps as [|p ps IH]; intros Hc Hin; [done|]. destruct (Hin p) as [it E]; [by left|]. rewrite (visible_cons h p it ps E), (withItems_cons h p it ps E) in *. apply list.Forall_cons in Hc as [[Hl _] Hc]. cbn [snd vlen] in *. rewrite length_app, Nat2Z.inj_add, IH; [|done|intros q Hq; apply Hin; by right].
  destruct (live it); [by rewrite length_chars|done].
Qed.

Lemma lookup_run c k n i : (i < n)%nat -> run c k n !! i = Some (GenID c (k + Z.of_nat i)).
Proof.
  revert k i. induction n as [|n IH]; intros k i Hi; [lia|]. destruct i as [|i]; cbn [run lookup list_lookup]; [by rewrite Z.add_0_r|]. rewrite IH by lia. do 2 f_equal. lia.
Qed.

Lemma lookup_chars it i : 0 <= i < i_length it -> chars it !! Z.to_nat i = Some (GenID (Client (i_id it)) (Clock (i_id it) + i)).
Proof. intros Hi. unfold chars. rewrite lookup_run by lia. by rewrite Z2Nat.id by lia. Qed.

(** *** The anchor *)

(** The loop finds the visible character with the index. *)
Lemma anchorLoop_spec h ps : forall prev index assoc, linked h prev ps -> cells_ok (withItems h ps) -> 0 <= index ->
  anchorLoop index assoc (withItems h ps) =
  match visible (marked h ps) !! Z.to_nat index with
  | Some c => Some c
  | None => if assoc <? 0 then (q ← list.last ps; lastID <$> h !! q) else None
  end.
Proof.
  induction ps as [|p ps IH]; intros prev index assoc Hl Hc Hi; [by destruct (assoc <? 0)|]. destruct Hl as (it & E & _ & Er & Hl). rewrite (withItems_cons h p it ps E) in *. apply list.Forall_cons in Hc as [[Hlen _] Hc]. cbn [snd] in Hlen.
  rewrite (visible_cons h p it ps E). cbn [anchorLoop]. destruct (live it) eqn:El; cbn [andb].
  - destruct (Z.ltb_spec index (i_length it)) as [Hlt|Hge].
    + rewrite lookup_app_l by (pose proof (length_chars it Hlen); lia). by rewrite lookup_chars by lia.
    + rewrite lookup_app_r by (pose proof (length_chars it Hlen); lia). replace (Z.to_nat index - length (chars it))%nat with (Z.to_nat (index - i_length it)) by (pose proof (length_chars it Hlen); lia).
      rewrite Er. destruct ps as [|q ps]; cbn [head_or].
      * rewrite bool_decide_true by done. cbn. rewrite E. by destruct (assoc <? 0).
      * rewrite bool_decide_false by done. cbn [andb]. rewrite (IH (Some p)) by (done || lia). done.
  - rewrite Er. destruct ps as [|q ps]; cbn [head_or app].
    + rewrite bool_decide_true by done. cbn. rewrite E. by destruct (assoc <? 0).
    + rewrite bool_decide_false by done. cbn [andb]. rewrite (IH (Some p)) by done. done.
Qed.

(** A type with its list, as the operations keep it. *)
Record list_state s (t : nat) (ty : ytype) (ps : list nat) : Prop := {
  ls_type : d_types (sh_doc s) !! t = Some ty;
  ls_list : type_list (heap_of s) ty ps;
  ls_count : t_itemCount ty = Z.of_nat (length ps);
  ls_index : owned_ok (heap_of s) ps (sh_indexes s !! t);
  ls_store : store_repr (sh_doc s);
  ls_stored : forall p it, p ∈ ps -> heap_of s !! p = Some it -> exists ss, clients (d_store (sh_doc s)) !! Client (i_id it) = Some ss /\ RItem p ∈ ss;
  ls_parent : forall p it, p ∈ ps -> heap_of s !! p = Some it -> i_parent it = ParentType t;
  ls_alive : typeAlive s ty = true
}.

Lemma ls_lookup s t ty ps p : list_state s t ty ps -> p ∈ ps -> is_Some (heap_of s !! p).
Proof. intros Hs Hp. eapply linked_lookup; [apply (ls_list _ _ _ _ Hs)|done]. Qed.

(** The character that a position at the index is attached to. *)
Definition attached (assoc index : Z) h (ps : list nat) : option ID :=
  if assoc <? 0 then
    if index =? 0 then None
    else match visible (marked h ps) !! Z.to_nat (index - 1) with Some c => Some c | None => q ← list.last ps; lastID <$> h !! q end
  else visible (marked h ps) !! Z.to_nat index.

Lemma anchor_from s t ty ps pre q post index assoc : list_state s t ty ps -> ps = pre ++ q :: post -> vlen (withItems (heap_of s) pre) <= index ->
  anchorLoop (index - vlen (withItems (heap_of s) pre)) assoc (rightItems (heap_of s) (Some q)) =
  match visible (marked (heap_of s) ps) !! Z.to_nat index with Some c => Some c | None => if assoc <? 0 then (q ← list.last ps; lastID <$> heap_of s !! q) else None end.
Proof.
  intros Hs -> Hle. pose proof (ls_list _ _ _ _ Hs) as Ht. pose proof (tl_linked _ _ _ Ht) as Hl. pose proof (tl_cells _ _ _ Ht) as Hc. rewrite withItems_app in Hc. apply list.Forall_app in Hc as [Hc1 Hc2].
  assert (Hv : Z.of_nat (length (visible (marked (heap_of s) pre))) = vlen (withItems (heap_of s) pre)) by (apply visible_length; [done|]; intros p Hp; apply (ls_lookup _ _ _ _ _ Hs); apply elem_of_app; by left).
  apply linked_lseg in Hl. apply lseg_app in Hl as [_ Hl]. apply linked_lseg in Hl. change (Some q) with (head (q :: post)). rewrite (rightItems_list _ _ _ Hl), (anchorLoop_spec _ _ _ _ _ Hl Hc2) by lia.
  rewrite marked_app, visible_app, lookup_app_r by lia. replace (Z.to_nat index - length (visible (marked (heap_of s) pre)))%nat with (Z.to_nat (index - vlen (withItems (heap_of s) pre))) by lia. by rewrite last_app_cons.
Qed.

Lemma anchorStart_spec s t ty ps index : list_state s t ty ps -> 0 <= index ->
  (anchorStart s t ty index = (None, index) /\ ps = []) \/ exists pre q post, ps = pre ++ q :: post /\ anchorStart s t ty index = (Some q, index - vlen (withItems (heap_of s) pre)) /\ vlen (withItems (heap_of s) pre) <= index.
Proof.
  intros Hs Hi. pose proof (ls_list _ _ _ _ Hs) as Ht. assert (H0 : (t_start ty, index) = (None, index) /\ ps = [] \/ exists pre q post, ps = pre ++ q :: post /\ (t_start ty, index) = (Some q, index - vlen (withItems (heap_of s) pre)) /\ vlen (withItems (heap_of s) pre) <= index).
  { rewrite (tl_start _ _ _ Ht). destruct ps as [|q ps]; [by left|right]. exists [], q, ps. cbn. split_and!; [done|f_equal; lia|lia]. }
  unfold anchorStart. destruct (t_start ty ≫= _) as [r|] eqn:Er; [|done]. unfold indexedReadPosition. pose proof (ls_index _ _ _ _ Hs) as Ho. destruct (sh_indexes s !! t) as [ix|]; [|done]. cbn [mbind option_bind].
  destruct (usable ty ix); [|done]. destruct (findPosition (ix_root ix) index) as [[o start]|] eqn:Ef; [|done]. right.
  destruct (findPosition_starts (heap_of s) ps ix index (o, start) Ho (vis_nonneg _ ps (tl_cells _ _ _ Ht) (fun p => ls_lookup _ _ _ _ p Hs)) Ef) as (q & pre & post & E1 & E2 & E3 & E4). cbn [fst snd] in *. subst o start. by exists pre, q, post.
Qed.

Lemma create_attached s t ty ps index assoc : list_state s t ty ps -> 0 <= index ->
  newRelativePositionFromTypeIndex s t index assoc = newRelativePosition s t (attached assoc index (heap_of s) ps) assoc.
Proof.
  intros Hs Hi. unfold newRelativePositionFromTypeIndex, attached. rewrite (ls_type _ _ _ _ Hs). assert (Hgo : forall index, 0 <= index ->
    (let '(start, index) := anchorStart s t ty index in newRelativePosition s t (anchorLoop index assoc (rightItems (heap_of s) start)) assoc) =
    newRelativePosition s t (match visible (marked (heap_of s) ps) !! Z.to_nat index with Some c => Some c | None => if assoc <? 0 then (q ← list.last ps; lastID <$> heap_of s !! q) else None end) assoc).
  { clear index Hi. intros index Hi. destruct (anchorStart_spec s t ty ps index Hs Hi) as [[-> ->]|(pre & q & post & E & -> & Hle)]; [unfold rightItems; by destruct (size (heap_of s)), (assoc <? 0)|]. by rewrite (anchor_from s t ty ps pre q post index assoc Hs E Hle). }
  destruct (assoc <? 0) eqn:Ea; cbn [andb]; [|rewrite (Hgo index Hi); by destruct (visible _ !! _)]. destruct (Z.eqb_spec index 0); [done|]. apply Hgo. lia.
Qed.

(** *** The place of a character *)
Lemma rank_app c l l' : c ∉ l.*1 -> rank c (l ++ l') = Z.of_nat (length (visible l)) + rank c l'.
Proof.
  induction l as [|[c' v] l IH]; intros Hn; [done|]. cbn in Hn. apply not_elem_of_cons in Hn as [H1 H2]. cbn [app rank]. rewrite decide_False by done. rewrite (IH H2). change ((c', v) :: l) with (((fun c => (c, v)) <$> [c']) ++ l). rewrite visible_app, length_app, visible_block. destruct v; cbn; lia.
Qed.

Lemma rank_run c client (b : bool) l n : forall k, c ∈ run client k n -> rank c (((fun c => (c, b)) <$> run client k n) ++ l) = if b then Clock c - k else 0.
Proof.
  induction n as [|n IH]; intros k Hc; [by apply not_elem_of_nil in Hc|]. cbn [run fmap list_fmap app rank] in *. case_decide as Ec; [subst c; cbn; destruct b; lia|]. apply elem_of_cons in Hc as [Hc|Hc]; [by subst|]. rewrite IH by done. destruct b; lia.
Qed.

Lemma rank_chars c it (b : bool) l : c ∈ chars it -> rank c (((fun c => (c, b)) <$> chars it) ++ l) = if b then Clock c - Clock (i_id it) else 0.
Proof. intros Hc. by apply rank_run. Qed.

Lemma marked_elem h ps c b : (c, b) ∈ marked h ps <-> exists q qi, q ∈ ps /\ h !! q = Some qi /\ c ∈ chars qi /\ b = live qi.
Proof.
  unfold marked, withItems. rewrite list_elem_of_bind. split.
  - intros ([q qi] & Hc & Hq). apply list_elem_of_fmap in Hc as (c' & [= -> ->] & Hc). apply list_elem_of_omap in Hq as (q' & Hq & E). destruct (h !! q') as [x|] eqn:Ex; [|done]. injection E as <- <-. by exists q', x.
  - intros (q & qi & Hq & E & Hc & ->). exists (q, qi). split; [apply list_elem_of_fmap; by exists c|]. apply list_elem_of_omap. exists q. by rewrite E.
Qed.

Lemma ls_found s t ty ps p it c : list_state s t ty ps -> p ∈ ps -> heap_of s !! p = Some it -> c ∈ chars it ->
  @getStruct _ (refStruct (heap_of s)) interpolate (d_store (sh_doc s)) c = Some (RItem p).
Proof.
  intros Hs Hp E Hc. destruct (ls_stored _ _ _ _ Hs p it Hp E) as (ss & Hss & Hr). assert (Ec : Client c = Client (i_id it)) by (apply elem_chars in Hc; tauto).
  apply (@getStruct_covers _ (refStruct (heap_of s)) interpolate Hinterp _ c ss); [apply (ls_store _ _ _ _ Hs)|by rewrite Ec|done|]. by apply (covers_chars (heap_of s) p it).
Qed.

(** A character of an item of the list, with the items before it. *)
Lemma rank_place s t ty ps pre p post it c : list_state s t ty ps -> ps = pre ++ p :: post -> heap_of s !! p = Some it -> c ∈ chars it ->
  rank c (marked (heap_of s) ps) = vlen (withItems (heap_of s) pre) + (if live it then Clock c - Clock (i_id it) else 0) /\ ((c, true) ∈ marked (heap_of s) ps <-> live it = true).
Proof.
  intros Hs -> E Hc. pose proof (ls_list _ _ _ _ Hs) as Ht. pose proof (tl_cells _ _ _ Ht) as Hcells. pose proof (linked_NoDup _ _ _ (tl_linked _ _ _ Ht)) as Hnd. rewrite withItems_app in Hcells. apply list.Forall_app in Hcells as [Hc1 _].
  assert (Hp : p ∈ pre ++ p :: post) by (apply elem_of_app; right; by left).
  assert (Huniq : forall q qi, q ∈ pre ++ p :: post -> heap_of s !! q = Some qi -> c ∈ chars qi -> q = p).
  { intros q qi Hq Eq Hcq. pose proof (ls_found _ _ _ _ q qi c Hs Hq Eq Hcq) as G1. rewrite (ls_found _ _ _ _ p it c Hs Hp E Hc) in G1. by injection G1. }
  split.
  - rewrite marked_app, (marked_cons _ p it post E), rank_app.
    + rewrite (visible_length _ _ Hc1) by (intros q Hq; apply (ls_lookup _ _ _ _ _ Hs); apply elem_of_app; by left). by rewrite (rank_chars c it _ _ Hc).
    + intros ([c' b] & E' & (q & qi & Hq & Eq & Hcq & _)%marked_elem)%list_elem_of_fmap. cbn in E'. subst c'. assert (q = p) as -> by (apply (Huniq q qi); [apply elem_of_app; by left|done|done]).
      apply list.NoDup_app in Hnd as (_ & Hd & _). apply (Hd p Hq). by left.
  - rewrite marked_elem. split; [|intros El; by exists p, it]. intros (q & qi & Hq & Eq & Hcq & El). assert (q = p) as -> by (by eapply Huniq). congruence.
Qed.

Lemma leftFold_vlen (l : list (nat * item)) : foldr (fun n index => (if live n.2 then i_length n.2 else 0) + index) 0 l = vlen l.
Proof. induction l as [|[p it] l IH]; [done|]. cbn. by rewrite IH. Qed.

Lemma anchorIndex_spec s t ty ps pre p post it : list_state s t ty ps -> ps = pre ++ p :: post -> heap_of s !! p = Some it -> anchorIndex s t ty p it = vlen (withItems (heap_of s) pre).
Proof.
  intros Hs -> E. pose proof (ls_list _ _ _ _ Hs) as Ht. assert (Hwalk : foldr (fun n index => (if live n.2 then i_length n.2 else 0) + index) 0 (leftItems (heap_of s) (i_left it)) = vlen (withItems (heap_of s) pre)).
  { rewrite leftFold_vlen. destruct (zipperAt_list _ _ _ _ (tl_linked _ _ _ Ht)) as [(_ & Hz & _) _]. unfold zipperAt in Hz. rewrite E in Hz. done. }
  unfold anchorIndex. rewrite Hwalk. destruct (_ || _); [|done]. destruct (indexedVisibleStart _ _ _ _) as [v|] eqn:Ev; [|done]. pose proof (ls_index _ _ _ _ Hs) as Ho. destruct (sh_indexes s !! t) as [ix|]; [|done].
  rewrite (indexedVisibleStart_spec _ _ _ _ _ ix Ht (ls_count _ _ _ _ Hs) Ho) in Ev. by injection Ev.
Qed.

Lemma positionOf_spec s t ty ps p it c assoc : list_state s t ty ps -> p ∈ ps -> heap_of s !! p = Some it -> c ∈ chars it ->
  positionOf s p (Clock c - Clock (i_id it)) assoc = Ok (Some (mkAbsolute t (stands assoc c (marked (heap_of s) ps)) assoc)).
Proof.
  intros Hs Hp E Hc. destruct (list_elem_of_split _ _ Hp) as (pre & post & Eps). destruct (rank_place s t ty ps pre p post it c Hs Eps E Hc) as [Hr Hv]. unfold positionOf. rewrite E, (ls_parent _ _ _ _ Hs p it Hp E), (ls_type _ _ _ _ Hs), (ls_alive _ _ _ _ Hs), (anchorIndex_spec s t ty ps pre p post it Hs Eps E).
  do 3 f_equal. unfold stands. rewrite Hr. destruct (live it).
  - rewrite bool_decide_true by by apply Hv. destruct (Z.leb_spec 0 assoc), (Z.ltb_spec assoc 0); cbn; lia.
  - rewrite bool_decide_false by (intros H; by apply Hv in H). rewrite andb_false_r. lia.
Qed.

Lemma block_ids (b : bool) (cs : list ID) : ((fun c => (c, b)) <$> cs).*1 = cs.
Proof. induction cs as [|c cs IH]; [done|]. cbn. by rewrite IH. Qed.

Lemma marked_NoDup s t ty ps : list_state s t ty ps -> NoDup (marked (heap_of s) ps).*1.
Proof.
  intros Hs. pose proof (linked_NoDup _ _ _ (tl_linked _ _ _ (ls_list _ _ _ _ Hs))) as Hnd. assert (Hsub : forall p, p ∈ ps -> p ∈ ps) by done. revert Hnd Hsub. generalize ps at 1 2 4 as qs. induction qs as [|q qs IH]; intros Hnd Hsub; [constructor|].
  apply list.NoDup_cons in Hnd as [Hq Hnd]. destruct (ls_lookup _ _ _ _ q Hs) as [qi E]; [apply Hsub; by left|]. rewrite (marked_cons _ q qi qs E), fmap_app, block_ids. apply list.NoDup_app. split_and!.
  - apply NoDup_run.
  - intros c Hc Hc'. apply list_elem_of_fmap in Hc' as ([c' b] & E' & (r & ri & Hr & Er & Hcr & _)%marked_elem). cbn in E'. subst c'.
    pose proof (ls_found _ _ _ _ r ri c Hs (Hsub r (list_elem_of_further _ _ _ Hr)) Er Hcr) as G. rewrite (ls_found _ _ _ _ q qi c Hs (Hsub q (list_elem_of_here _ _)) E Hc) in G. injection G as ->. done.
  - apply IH; [done|]. intros p Hp. apply Hsub. by right.
Qed.

Lemma rank_visible c l : forall i, NoDup l.*1 -> visible l !! i = Some c -> rank c l = Z.of_nat i.
Proof.
  induction l as [|[c' v] l IH]; intros i Hn Hi; [done|]. cbn in Hn. apply list.NoDup_cons in Hn as [Hc Hn]. change ((c', v) :: l) with (((fun c => (c, v)) <$> [c']) ++ l) in Hi. rewrite visible_app, visible_block in Hi.
  assert (Hin : forall j, visible l !! j = Some c -> c <> c').
  { intros j Hj ->. apply Hc. apply list_elem_of_lookup_2 in Hj. unfold visible in Hj. apply list_elem_of_fmap in Hj as (x & -> & [_ Hx]%list_elem_of_filter). apply list_elem_of_fmap. by exists x. }
  cbn [rank]. destruct v; cbn [app] in Hi.
  - destruct i as [|i]; cbn in Hi; [injection Hi as ->; by rewrite decide_True|]. rewrite decide_False by (intros ->; by eapply Hin). rewrite (IH i Hn Hi). lia.
  - rewrite decide_False by (intros ->; by eapply Hin). rewrite (IH i Hn Hi). lia.
Qed.

Lemma visible_rank c l : NoDup l.*1 -> (c, true) ∈ l -> visible l !! Z.to_nat (rank c l) = Some c.
Proof.
  intros Hn Hc. assert (Hv : c ∈ visible l) by (unfold visible; apply list_elem_of_fmap; exists (c, true); split; [done|]; by apply list_elem_of_filter). apply list_elem_of_lookup in Hv as [i Hi]. rewrite (rank_visible c l i Hn Hi). by rewrite Nat2Z.id.
Qed.

(** *** Redone items *)

(** Following [redone] from an element: the item and the element it lives on as,
    with the number of lookups. *)
Inductive redone_as s : ID -> nat -> ID -> nat -> Prop :=
| redone_end c p it : @getStruct _ (refStruct (heap_of s)) interpolate (d_store (sh_doc s)) c = Some (RItem p) -> heap_of s !! p = Some it -> i_redone it = None -> redone_as s c p c 1
| redone_step c p it r c' p' n : @getStruct _ (refStruct (heap_of s)) interpolate (d_store (sh_doc s)) c = Some (RItem p) -> heap_of s !! p = Some it -> i_redone it = Some r ->
    redone_as s (GenID (Client r) (Clock r + (Clock c - Clock (i_id it)))) p' c' n -> redone_as s c p' c' (S n).

Lemma get_chars s c p it : store_repr (sh_doc s) -> @getStruct _ (refStruct (heap_of s)) interpolate (d_store (sh_doc s)) c = Some (RItem p) -> heap_of s !! p = Some it -> c ∈ chars it.
Proof.
  intros [Hok _] Hg E. apply (@getStruct_inv _ (refStruct (heap_of s)) interpolate Hinterp) in Hg as (ss & Hss & Hr & Hk); [|done]. apply (covers_chars (heap_of s) p it); [done| |done].
  destruct Hok as (Hok & _). destruct (Hok _ _ Hss) as (_ & _ & Hf). rewrite list.Forall_forall in Hf. specialize (Hf _ Hr). simpl in Hf. by rewrite E in Hf.
Qed.

Lemma redone_item s c p c' n : store_repr (sh_doc s) -> redone_as s c p c' n -> exists it, heap_of s !! p = Some it /\ c' ∈ chars it.
Proof. intros Hst. induction 1 as [c p it Hg E _|]; [exists it; split; [done|by eapply get_chars]|done]. Qed.

Lemma followRedone_spec s c p c' n : store_repr (sh_doc s) -> redone_as s c p c' n -> forall fuel id diff o it, 0 <= diff -> c = GenID (Client id) (Clock id + diff) -> (n <= fuel)%nat -> heap_of s !! p = Some it ->
  followRedone interpolate fuel s id diff o = Some (Some p, Clock c' - Clock (i_id it)).
Proof.
  intros Hst Hr. induction Hr as [c p it0 Hg E Hn|c p it0 r c' p' n Hg E Hn _ IH]; intros fuel id diff o it Hd Ec Hf Ep; (destruct fuel as [|fuel]; [lia|]); cbn [followRedone];
    replace (if 0 <? diff then GenID (Client id) (Clock id + diff) else id) with c by (subst c; destruct id; cbn; destruct (Z.ltb_spec 0 diff); [done|f_equal; lia]); rewrite Hg, E, Hn.
  - assert (it = it0) as -> by congruence. done.
  - apply IH; [|done|lia|done]. pose proof (get_chars s c p it0 Hst Hg E) as Hc. apply elem_chars in Hc. lia.
Qed.

Lemma redone_known s c p c' n : store_repr (sh_doc s) -> redone_as s c p c' n -> knows s c = Ok true.
Proof.
  intros Hst Hr. assert (Hg : exists q, @getStruct _ (refStruct (heap_of s)) interpolate (d_store (sh_doc s)) c = Some (RItem q)) by (destruct Hr; by eexists). destruct Hg as [q Hg]. destruct (state_beyond interpolate Hinterp _ _ _ Hst Hg) as (v & Ev & Hv). unfold knows. rewrite Ev. by destruct (Z.ltb_spec (Clock c) v); [|lia].
Qed.

Lemma resolveItem_spec s t ty ps c p c' n assoc fuel : list_state s t ty ps -> redone_as s c p c' n -> p ∈ ps -> (n <= fuel)%nat ->
  resolveItem interpolate fuel s c assoc = Some (Ok (Some (mkAbsolute t (stands assoc c' (marked (heap_of s) ps)) assoc))).
Proof.
  intros Hs Hr Hp Hf. pose proof (ls_store _ _ _ _ Hs) as Hst. destruct (redone_item _ _ _ _ _ Hst Hr) as (it & E & Hc). unfold resolveItem. rewrite (redone_known _ _ _ _ _ Hst Hr), (followRedone_spec _ _ _ _ _ Hst Hr fuel c 0 None it); [|lia|destruct c; cbn; f_equal; lia|done|done].
  cbn [mbind option_bind]. by rewrite (positionOf_spec s t ty ps p it c' assoc Hs Hp E Hc).
Qed.

(** The name of a type leads to it. *)
Definition resolvable s (t : nat) (fuel : nat) : Prop :=
  match typeRef s t with
  | Ok (Some id, _) => exists p it c n, redone_as s id p c n /\ (n <= fuel)%nat /\ heap_of s !! p = Some it /\ i_content it = contentType t
  | Ok (None, name) => name <> [] /\ sh_share s !! name = Some t
  | Err _ => False
  end.

Lemma resolve_end s t ty ps type tname assoc fuel : list_state s t ty ps -> typeRef s t = Ok (type, tname) -> resolvable s t fuel ->
  CreateAbsolutePositionFromRelativePosition interpolate fuel (mkRelative type tname None assoc) s = Some (Ok (Some (mkAbsolute t (if 0 <=? assoc then t_length ty else 0) assoc)), s).
Proof.
  intros Hs Et Hres. unfold resolvable in Hres. assert (He : resolveEnd s t assoc = Ok (Some (mkAbsolute t (if 0 <=? assoc then t_length ty else 0) assoc))) by (unfold resolveEnd; by rewrite (ls_type _ _ _ _ Hs)).
  rewrite Et in Hres. unfold CreateAbsolutePositionFromRelativePosition. cbn [rel_item rel_tname rel_type rel_assoc]. destruct type as [id|].
  - assert (tname = []) as -> by (unfold typeRef in Et; rewrite (ls_type _ _ _ _ Hs) in Et; destruct (t_item ty) as [p|]; [|by injection Et]; destruct (heap_of s !! p); [by injection Et|done]). rewrite decide_True by done. destruct Hres as (p & it & c & n & Hr & Hf & E & Ec). pose proof (ls_store _ _ _ _ Hs) as Hst.
    unfold resolveTypeID. rewrite (redone_known _ _ _ _ _ Hst Hr), (followRedone_spec _ _ _ _ _ Hst Hr fuel id 0 None it); [|lia|destruct id; cbn; f_equal; lia|done|done]. cbn [mbind option_bind fst]. rewrite E. cbn [mbind option_bind]. rewrite Ec. by rewrite He.
  - destruct Hres as [Hn Hsh]. rewrite decide_False by done. unfold getGeneric. rewrite Hsh. by rewrite He.
Qed.

(** *** In the same document *)
Lemma attached_stands s t ty ps index assoc c : list_state s t ty ps -> 0 <= index -> attached assoc index (heap_of s) ps = Some c ->
  c ∈ (marked (heap_of s) ps).*1 /\ stands assoc c (marked (heap_of s) ps) = Z.min index (t_length ty).
Proof.
  intros Hs Hi Ha. pose proof (ls_list _ _ _ _ Hs) as Ht. pose proof (marked_NoDup _ _ _ _ Hs) as Hn. pose proof (visible_length _ _ (tl_cells _ _ _ Ht) (fun p => ls_lookup _ _ _ _ p Hs)) as Hlen. rewrite <- (tl_length _ _ _ Ht) in Hlen.
  assert (Hvis : forall i, visible (marked (heap_of s) ps) !! i = Some c -> (c, true) ∈ marked (heap_of s) ps /\ Z.of_nat i < t_length ty).
  { intros i Hv. split; [|apply lookup_lt_Some in Hv; lia]. apply list_elem_of_lookup_2 in Hv. unfold visible in Hv. apply list_elem_of_fmap in Hv as ([c0 b] & E & [Eb Hx]%list_elem_of_filter). cbn in *. by subst. }
  unfold attached in Ha. unfold stands. destruct (Z.ltb_spec assoc 0) as [Hneg|Hpos]; cbn [andb].
  - destruct (Z.eqb_spec index 0) as [|H0]; [done|]. destruct (visible (marked (heap_of s) ps) !! Z.to_nat (index - 1)) as [c0|] eqn:Ev.
    + injection Ha as ->. destruct (Hvis _ Ev) as [Hc Hlt]. split; [apply list_elem_of_fmap; by exists (c, true)|]. rewrite (rank_visible c _ _ Hn Ev), bool_decide_true by done. lia.
    + apply lookup_ge_None in Ev. destruct (list.last ps) as [q|] eqn:El; [|done]. cbn in Ha. destruct (heap_of s !! q) as [qi|] eqn:Eq; [|done]. injection Ha as <-. apply last_Some in El as [pre El].
      pose proof (tl_cells _ _ _ Ht) as Hc. rewrite El, withItems_app, (withItems_cons _ q qi [] Eq) in Hc. apply list.Forall_app in Hc as [_ Hc]. apply list.Forall_cons in Hc as [[Hql _] _]. cbn [snd] in Hql. pose proof (lastID_char qi Hql) as Hlc.
      destruct (rank_place s t ty ps pre q [] qi (lastID qi) Hs El Eq Hlc) as [Hr Hv]. split.
      * apply list_elem_of_fmap. exists (lastID qi, live qi). split; [done|]. apply marked_elem. exists q, qi. split_and!; [rewrite El; apply elem_of_app; right; by left|done|done|done].
      * assert (Htot : t_length ty = vlen (withItems (heap_of s) pre) + (if live qi then i_length qi else 0)) by (rewrite (tl_length _ _ _ Ht), El, withItems_app, vlen_app, (withItems_cons _ q qi [] Eq); cbn; lia).
        assert (Hlk : Clock (lastID qi) = Clock (i_id qi) + i_length qi - 1) by (unfold lastID; destruct (Z.eqb_spec (i_length qi) 1); cbn; lia).
        rewrite Hr. destruct (live qi) eqn:Elq; [rewrite bool_decide_true by (by apply Hv)|rewrite bool_decide_false by (intros H; by apply Hv in H)]; lia.
  - destruct (Hvis _ Ha) as [Hc Hlt]. split; [apply list_elem_of_fmap; by exists (c, true)|]. rewrite (rank_visible c _ _ Hn Ha). lia.
Qed.

End Theory.

(** ** Properties *)

(** C9. A relative position points to its character. A position that is created at
    an index of a list is attached to the visible character at the index, or before
    it when the association is negative. Resolved in any later state of the type, in
    which that character may have moved, been split off, deleted, or been redone as
    another one, it stands immediately before that character, respectively behind
    it; where the character is not visible, where it was. A position without a
    character stands at the end of the list, or at its beginning. The position
    indexes of the two states are used where there are any. *)
Theorem relative_position_tracks {V : Type} (interpolate : Z -> Z -> Z -> Z) (s1 s2 : @shared V) (t : nat) (ty1 ty2 : ytype) (ps1 ps2 : list nat) (index assoc : Z) (rel : relativePosition) (fuel : nat) :
  (forall clock span end_, 0 < span -> 0 <= clock <= span -> 0 <= end_ -> 0 <= interpolate clock span end_ <= end_) ->
  list_state s1 t ty1 ps1 -> list_state s2 t ty2 ps2 -> 0 <= index ->
  newRelativePositionFromTypeIndex s1 t index assoc = Ok rel ->
  let l2 := marked (d_items (sh_doc s2)) ps2 in
  match attached assoc index (d_items (sh_doc s1)) ps1 with
  | Some c => forall c' p n, redone_as interpolate s2 c p c' n -> (n <= fuel)%nat -> p ∈ ps2 ->
      CreateAbsolutePositionFromRelativePosition interpolate fuel rel s2 = Some (Ok (Some (mkAbsolute t (stands assoc c' l2) assoc)), s2) /\
      ((c', true) ∈ l2 -> visible l2 !! Z.to_nat (rank c' l2) = Some c')
  | None => typeRef s2 t = typeRef s1 t -> resolvable interpolate s2 t fuel ->
      CreateAbsolutePositionFromRelativePosition interpolate fuel rel s2 = Some (Ok (Some (mkAbsolute t (if 0 <=? assoc then Z.of_nat (length (visible l2)) else 0) assoc)), s2)
  end.
Proof.
  intros Hinterp H1 H2 Hi Hrel l2. rewrite (create_attached s1 t ty1 ps1 index assoc H1 Hi) in Hrel. unfold newRelativePosition in Hrel. destruct (typeRef s1 t) as [[type tname]|] eqn:Et; [|done]. injection Hrel as <-. destruct (attached assoc index _ ps1) as [c|].
  - intros c' p n Hr Hf Hp. split; [|apply visible_rank; by eapply marked_NoDup]. unfold CreateAbsolutePositionFromRelativePosition. cbn [rel_item rel_assoc]. by rewrite (resolveItem_spec interpolate Hinterp s2 t ty2 ps2 c p c' n assoc fuel H2 Hr Hp Hf).
  - intros Et2 Hres. rewrite (resolve_end interpolate Hinterp s2 t ty2 ps2 type tname assoc fuel H2 Et2 Hres). unfold l2. by rewrite (visible_length _ _ (tl_cells _ _ _ (ls_list _ _ _ _ H2)) (fun p => ls_lookup _ _ _ _ p H2)), <- (tl_length _ _ _ (ls_list _ _ _ _ H2)).
Qed.

(** In the document in which it was made a position resolves to the index it was
    made for, on both sides of a character, and to the end of the list for an index
    behind it. *)
Theorem relative_position_same_document {V : Type} (interpolate : Z -> Z -> Z -> Z) (s : @shared V) (t : nat) (ty : ytype) (ps : list nat) (index assoc : Z) (fuel : nat) :
  (forall clock span end_, 0 < span -> 0 <= clock <= span -> 0 <= end_ -> 0 <= interpolate clock span end_ <= end_) ->
  list_state s t ty ps -> (forall p it, p ∈ ps -> d_items (sh_doc s) !! p = Some it -> i_redone it = None) -> resolvable interpolate s t fuel -> (0 < fuel)%nat -> 0 <= index ->
  exists rel, newRelativePositionFromTypeIndex s t index assoc = Ok rel /\
    CreateAbsolutePositionFromRelativePosition interpolate fuel rel s = Some (Ok (Some (mkAbsolute t (Z.min index (t_length ty)) assoc)), s).
Proof.
  intros Hinterp Hs Hred Hres Hf Hi. rewrite (create_attached s t ty ps index assoc Hs Hi). unfold newRelativePosition. destruct (typeRef s t) as [[type tname]|e] eqn:Et; [|unfold resolvable in Hres; by rewrite Et in Hres]. eexists. split; [reflexivity|].
  pose proof (ls_list _ _ _ _ Hs) as Ht. pose proof (visible_length _ _ (tl_cells _ _ _ Ht) (fun p => ls_lookup _ _ _ _ p Hs)) as Hlen. rewrite <- (tl_length _ _ _ Ht) in Hlen. destruct (attached assoc index _ ps) as [c|] eqn:Ea.
  - destruct (attached_stands interpolate Hinterp s t ty ps index assoc c Hs Hi Ea) as [Hc Est]. apply list_elem_of_fmap in Hc as ([c0 b] & E & (p & it & Hp & Ep & Hcp & _)%marked_elem). cbn in E. subst c0. unfold CreateAbsolutePositionFromRelativePosition. cbn [rel_item rel_assoc].
    rewrite (resolveItem_spec interpolate Hinterp s t ty ps c p c 1 assoc fuel Hs); [by rewrite Est| |done|lia]. eapply redone_end; [by eapply ls_found|done|by eapply Hred].
  - rewrite (resolve_end interpolate Hinterp s t ty ps type tname assoc fuel Hs Et Hres). do 5 f_equal. unfold attached in Ea. destruct (Z.ltb_spec assoc 0) as [Hneg|Hpos], (Z.leb_spec 0 assoc); try lia.
    + destruct (Z.eqb_spec index 0) as [->|H0]; [lia|]. destruct (visible _ !! _) eqn:Ev; [done|]. destruct (list.last ps) as [q|] eqn:El; cbn in Ea.
      * destruct (ls_lookup _ _ _ _ q Hs) as [qi Eq]; [by eapply last_Some_elem_of|]. by rewrite Eq in Ea.
      * apply last_None in El. subst ps. rewrite (tl_length _ _ _ Ht). cbn. lia.
    + apply lookup_ge_None in Ea. lia.
Qed.

(** What survives the encoding: the most specific of the three names. *)
Definition wireForm (rel : relativePosition) : relativePosition :=
  match rel_item rel with
  | Some id => mkRelative None [] (Some id) (rel_assoc rel)
  | None => if decide (rel_tname rel = []) then mkRelative (rel_type rel) [] None (rel_assoc rel) else mkRelative None (rel_tname rel) None (rel_assoc rel)
  end.

Definition relative_ok (rel : relativePosition) : Prop :=
  minInt < rel_assoc rel <= maxInt /\ (forall id, rel_item rel = Some id \/ rel_type rel = Some id -> id_ok id) /\ Z.of_nat (length (rel_tname rel)) < 2 ^ 64 /\
  (rel_item rel <> None \/ rel_tname rel <> [] \/ rel_type rel <> None).

Lemma writeID_bytes id e : id_ok id -> UV1.writeID id e = (Ok tt, V1.mkEnc (V1.rest e ++ number_bytes (Client id) ++ number_bytes (Clock id))).
Proof.
  intros [Hc Hk]. unfold UV1.writeID, UV1.varUint, UV1.on_buf, put, rbind. cbn [V1.rest]. rewrite !safe_u64, !WriteVarUint_bytes by (unfold is_safe in *; (done || lia)). unfold number_bytes. by rewrite <- (assoc_L (++)).
Qed.

Lemma readID_bytes id rest : id_ok id -> UV1.readID (V1.mkDec (number_bytes (Client id) ++ number_bytes (Clock id) ++ rest)) = (Ok id, V1.mkDec rest).
Proof. intros [Hc Hk]. unfold UV1.readID. rstep v1_readNumber by done. rstep v1_readNumber by done. by destruct id. Qed.

Lemma readAssoc_bytes assoc : minInt < assoc <= maxInt -> readAssoc (V1.mkDec (writeVarInt [] assoc)) = (Ok assoc, V1.mkDec []).
Proof.
  intros Ha. pose proof (readVarInt_roundtrip assoc [] ltac:(lia)) as Hr. rewrite app_nil_r in Hr. destruct (Z.eqb_spec assoc minInt); [lia|]. unfold readAssoc, V1.on_rest. cbn [V1.d_rest]. destruct (writeVarInt [] assoc) as [|b bs] eqn:E; [|by rewrite Hr].
  exfalso. rewrite (writeVarInt_bytes [] assoc Ha) in E. unfold varint_bytes in E. destruct (_ ++ _) in E; done.
Qed.

(** The bytes of a position. *)
Definition anchorBytes (rel : relativePosition) : list Z :=
  match rel_item rel, rel_type rel with
  | Some id, _ => number_bytes 0 ++ number_bytes (Client id) ++ number_bytes (Clock id)
  | None, t =>
      if decide (rel_tname rel = []) then match t with Some id => [2] ++ number_bytes (Client id) ++ number_bytes (Clock id) | None => [] end
      else [1] ++ WriteString [] (rel_tname rel)
  end.

Lemma encode_bytes rel : relative_ok rel -> EncodeRelativePosition rel = anchorBytes rel ++ writeVarInt [] (rel_assoc rel).
Proof.
  intros (Ha & Hid & _ & Hany). unfold EncodeRelativePosition, writeRelativePosition. rewrite (writeVarInt_bytes [] _ Ha). erewrite (rbind_ok _ _ _ tt (V1.mkEnc (anchorBytes rel))); [unfold UV1.on_buf, put; cbn [V1.rest snd]; by rewrite (writeVarInt_bytes _ _ Ha)|].
  unfold anchorBytes. destruct (rel_item rel) as [id|].
  - unfold UV1.varUint, UV1.on_buf, put. unfold rbind at 1. cbn [V1.rest]. rewrite WriteVarUint_bytes by lia. rewrite writeID_bytes by (apply Hid; by left). done.
  - destruct (decide (rel_tname rel = [])) as [E|E]; [|unfold UV1.writeStringV, UV1.on_buf, put, rbind; cbn [V1.rest]; by rewrite WriteString_app].
    destruct (rel_type rel) as [id|]; [|naive_solver]. unfold UV1.on_buf, put. unfold rbind at 1. cbn [V1.rest]. rewrite writeID_bytes by (apply Hid; by right). done.
Qed.

Lemma decode_bytes rel : relative_ok rel -> DecodeRelativePosition (anchorBytes rel ++ writeVarInt [] (rel_assoc rel)) = Ok (wireForm rel).
Proof.
  intros (Ha & Hid & Hlen & Hany). assert (Htag : forall n bs, 0 <= n < 3 -> V1.on_rest ReadVarUint (V1.mkDec (number_bytes n ++ bs)) = (Ok n, V1.mkDec bs)).
  { intros n bs Hn. unfold V1.on_rest, ReadVarUint, number_bytes. cbn [V1.d_rest]. by rewrite uvarint_roundtrip by (unfold is_u64; lia). }
  unfold DecodeRelativePosition, readRelativePosition, anchorBytes, wireForm. destruct (rel_item rel) as [id|].
  - rewrite <- !(assoc_L (++)). rstep Htag by lia. cbv beta. cbn [Z.eqb Pos.eqb]. erewrite rbind_ok; [|rstep readID_bytes by (apply Hid; by left); reflexivity]. by rstep readAssoc_bytes by done.
  - destruct (decide (rel_tname rel = [])) as [E|E].
    + destruct (rel_type rel) as [id|]; [|naive_solver]. change [2] with (number_bytes 2). rewrite <- !(assoc_L (++)). rstep Htag by lia. cbv beta. cbn [Z.eqb Pos.eqb]. erewrite rbind_ok; [|rstep readID_bytes by (apply Hid; by right); reflexivity]. by rstep readAssoc_bytes by done.
    + change [1] with (number_bytes 1). rewrite <- !(assoc_L (++)). rstep Htag by lia. cbv beta. cbn [Z.eqb Pos.eqb]. unfold UV1.readStringV. erewrite rbind_ok; [|erewrite rbind_ok; [|unfold V1.on_rest; cbn [V1.d_rest]; rewrite string_roundtrip by done; reflexivity]; reflexivity]. by rstep readAssoc_bytes by done.
Qed.

(** C10. The exchange forms of a position. The JSON object is read back as the position
    itself. The bytes keep the character if there is one, and otherwise the name of
    the type or its id: the position that is read back resolves in every document as
    the one that was written, and it compares equal to it exactly when the position
    carries one of the three only. The position at the end of a root type with the
    empty name carries none of them: its encoding is empty, and is rejected. *)
Theorem relative_position_exchange (rel : relativePosition) :
  CreateRelativePositionFromJSON (RelativePositionToJSON rel) = Ok rel /\
  (relative_ok rel ->
    DecodeRelativePosition (EncodeRelativePosition rel) = Ok (wireForm rel) /\
    (forall (V : Type) interpolate fuel (s : @shared V), CreateAbsolutePositionFromRelativePosition interpolate fuel (wireForm rel) s = CreateAbsolutePositionFromRelativePosition interpolate fuel rel s) /\
    (CompareRelativePositions (Some (wireForm rel)) (Some rel) = true <->
       match rel_item rel with Some _ => rel_tname rel = [] /\ rel_type rel = None | None => rel_tname rel = [] \/ rel_type rel = None end)) /\
  (forall assoc, EncodeRelativePosition (mkRelative None [] None assoc) = [] /\ DecodeRelativePosition [] = Err ErrEOF).
Proof.
  split_and!; [| |done].
  - destruct rel as [[ty|] tname [it|] assoc]; unfold RelativePositionToJSON, CreateRelativePositionFromJSON; cbn [rel_type rel_tname rel_item rel_assoc]; destruct (decide (tname = [])) as [->|Hn]; vm_compute; reflexivity.
  - intros (Ha & Hid & Hlen & Hany). split_and!.
    + rewrite (encode_bytes rel (conj Ha (conj Hid (conj Hlen Hany)))). by apply decode_bytes.
    + destruct rel as [type tname [item|] assoc]; [done|]. intros. unfold wireForm, CreateAbsolutePositionFromRelativePosition. cbn. destruct (decide (tname = [])) as [->|Hn]; cbn; [done|]. by rewrite decide_False.
    + destruct rel as [type tname [item|] assoc]; unfold wireForm, CompareRelativePositions; cbn [rel_type rel_tname rel_item rel_assoc]; [|destruct (decide (tname = [])) as [->|Hn]; cbn [rel_type rel_tname rel_item rel_assoc]]; rewrite !andb_true_iff, !bool_decide_eq_true, Z.eqb_eq; naive_solver.
Qed.

(** The list of TypeRead.v in a document, and the document after the deletion of its
    first item. *)
Definition position_doc (h : gmap nat (itemStruct unit)) (ty : ytype) : docState unit :=
  mkDoc h {[ 0%nat := ty ]} (mkStore {[ 1 := RItem <$> read_list ]} None None [1]) 8 (mkTrans newDeleteSet [] [] true (Some ∅) None ∅ ∅ ∅).
Definition position_before : @shared unit := mkShared (position_doc read_heap read_type) {[ [97] := 0%nat ]} {[ 0%nat := buildListPositionIndex read_heap read_type ]}.
Definition deleted_type : ytype := mkType (Some 1%nat) ∅ 4 None 6 false 0 false.
Definition position_after : @shared unit := mkShared (position_doc index_heap1 deleted_type) {[ [97] := 0%nat ]} ∅.

Lemma read_members q : q ∈ read_list -> q = 1%nat \/ q = 2%nat \/ q = 3%nat \/ q = 4%nat \/ q = 5%nat \/ q = 6%nat.
Proof. unfold read_list. rewrite !elem_of_cons, elem_of_nil. naive_solver. Qed.

Lemma position_store h ty : (forall q, q ∈ read_list -> is_Some (h !! q)) -> (exists c, @contiguous_from _ (refStruct h) c (RItem <$> read_list)) -> Forall (fun r => Client (@getID _ (refStruct h) r) = 1) (RItem <$> read_list) -> store_repr (position_doc h ty).
Proof.
  intros Hin Hc Hf. split.
  - split_and!; cbn.
    + intros c ss E. apply lookup_singleton_Some in E as [<- <-]. by split_and!.
    + apply NoDup_singleton.
    + intros c. rewrite list_elem_of_singleton. split; [intros ->; rewrite lookup_singleton_eq; eauto|]. intros [? E]. by apply lookup_singleton_Some in E as [<- _].
  - intros k ss q E Hq. cbn [position_doc d_store clients] in E. apply lookup_singleton_Some in E as [<- <-]. apply list_elem_of_fmap in Hq as (q' & [= ->] & Hq). by apply Hin.
Qed.

Lemma before_state : list_state position_before 0 read_type read_list.
Proof.
  split; [done|exact read_type_list|done| | | | |done].
  - cbn. apply build_index_ok; apply read_type_list.
  - apply position_store; [intros q Hq; destruct (read_members q Hq) as [->|[->|[->|[->|[->| ->]]]]]; by eexists|exists 0; by vm_compute|repeat constructor].
  - intros p it Hp E. exists (RItem <$> read_list). split; [|apply list_elem_of_fmap; by exists p]. destruct (read_members p Hp) as [->|[->|[->|[->|[->| ->]]]]]; vm_compute in E; injection E as <-; done.
  - intros p it Hp E. destruct (read_members p Hp) as [->|[->|[->|[->|[->| ->]]]]]; vm_compute in E; injection E as <-; done.
Qed.

Lemma after_state : list_state position_after 0 deleted_type read_list.
Proof.
  split; [done| |done|done| | | |done].
  - split; [done| | |by vm_compute].
    + repeat (eexists; split; [vm_compute; reflexivity|]; split; [done|]; split; [done|]). done.
    + unfold cells_ok, withItems. vm_compute omap. repeat apply Forall_cons_2; [..|apply Forall_nil_2]; (split; [cbn; lia|by vm_compute]).
  - apply position_store; [intros q Hq; destruct (read_members q Hq) as [->|[->|[->|[->|[->| ->]]]]]; by eexists|exists 0; by vm_compute|repeat constructor].
  - intros p it Hp E. exists (RItem <$> read_list). split; [|apply list_elem_of_fmap; by exists p]. destruct (read_members p Hp) as [->|[->|[->|[->|[->| ->]]]]]; vm_compute in E; injection E as <-; done.
  - intros p it Hp E. destruct (read_members p Hp) as [->|[->|[->|[->|[->| ->]]]]]; vm_compute in E; injection E as <-; done.
Qed.

(** The position behind the nested type moves to the front with it. *)
Lemma relative_position_tracks_witness :
  newRelativePositionFromTypeIndex position_before 0 4 0 = Ok (mkRelative None [97] (Some (GenID 1 7)) 0) /\
  CreateAbsolutePositionFromRelativePosition int_pivot 1 (mkRelative None [97] (Some (GenID 1 7)) 0) position_after =
    Some (Ok (Some (mkAbsolute 0 (stands 0 (GenID 1 7) (marked (d_items (sh_doc position_after)) read_list)) 0)), position_after) /\
  stands 0 (GenID 1 7) (marked (d_items (sh_doc position_after)) read_list) = 1.
Proof.
  assert (Hnew : newRelativePositionFromTypeIndex position_before 0 4 0 = Ok (mkRelative None [97] (Some (GenID 1 7)) 0)) by (vm_compute; reflexivity). split; [done|].
  pose proof (relative_position_tracks int_pivot position_before position_after 0 read_type deleted_type read_list read_list 4 0 _ 1 int_pivot_range before_state after_state ltac:(lia) Hnew) as H. cbv zeta in H.
  replace (attached 0 4 (d_items (sh_doc position_before)) read_list) with (Some (GenID 1 7)) in H by (vm_compute; reflexivity). split; [|vm_compute; reflexivity].
  apply (H (GenID 1 7) 5%nat 1%nat); [|lia|cbn; set_solver]. eapply redone_end; vm_compute; reflexivity.
Defined.

Lemma relative_position_same_document_witness : exists rel, newRelativePositionFromTypeIndex position_before 0 9 (-1) = Ok rel /\
    CreateAbsolutePositionFromRelativePosition int_pivot 1 rel position_before = Some (Ok (Some (mkAbsolute 0 7 (-1))), position_before).
Proof.
  apply (relative_position_same_document int_pivot position_before 0 read_type read_list 9 (-1) 1 int_pivot_range before_state); [|split; done|lia|lia].
  intros p it Hp E. destruct (read_members p Hp) as [->|[->|[->|[->|[->| ->]]]]]; vm_compute in E; injection E as <-; done.
Defined.

Lemma relative_position_exchange_witness : DecodeRelativePosition (EncodeRelativePosition (mkRelative None [97] (Some (GenID 1 7)) (-1))) = Ok (mkRelative None [] (Some (GenID 1 7)) (-1)).
Proof.
  apply relative_position_exchange. split_and!; [by vm_compute|by vm_compute| |by vm_compute|by left].
  intros id [[= <-]|?]; [|done]. by split; vm_compute.
Defined.
