(* ===== verification/Snapshot.v ===== *)
(** * Snapshots

    Models crdt/snapshot.go: a snapshot is the state vector of a document with the
    delete set of that moment. Comparison, the two encodings, visibility of an item
    at the time of a snapshot, and the test whether a snapshot contains an update.
    [splitSnapshotAffectedStructs] and [CreateDocFromSnapshot] are not modelled. *)
From S2P Require Import Prelude Lib0 Rle Object Any Text StringColumn StructStore DeleteSet DeleteSetCodec UpdateCodec Content StructCodec Consume UpdateStream UpdateMerge LazyUpdate EncodedUpdates Item.
From S2P Require Import DeleteSet.

Record snapshot := mkSnapshot { sn_deleteSet : option deleteSet; sn_stateVector : gmap Z Z }.

Definition newSnapshot (ds : deleteSet) (sv : gmap Z Z) : snapshot := mkSnapshot (Some ds) sv.
Definition EmptySnapshot : snapshot := newSnapshot newDeleteSet ∅.

(** A nil delete set has no clients. *)
Definition dsClients (s : snapshot) : gmap Z (list deleteItem) := from_option ds_clients ∅ (sn_deleteSet s).

Definition equalItems (items1 items2 : list deleteItem) : bool :=
  (length items1 =? length items2)%nat && forallb (fun '(a, b) => (di_clock a =? di_clock b) && (di_length a =? di_length b)) (zip items1 items2).

(** A client that the other snapshot does not have reads 0, respectively nil. *)
Definition EqualSnapshots (snap1 snap2 : snapshot) : bool :=
  (size (sn_stateVector snap1) =? size (sn_stateVector snap2))%nat && (size (dsClients snap1) =? size (dsClients snap2))%nat &&
  forallb (fun '(key, value) => default 0 (sn_stateVector snap2 !! key) =? value) (map_to_list (sn_stateVector snap1)) &&
  forallb (fun '(client, items1) => equalItems items1 (default [] (dsClients snap2 !! client))) (map_to_list (dsClients snap1)).

(** ** Encoding *)
Section Codec.
Context {E D : Type} `{DSEncoder E} `{DSDecoder D}.

(** The encoders of delete sets report no deferred error. *)
Definition encodeSnapshot (s : snapshot) (encoder : E) : result (list Z) :=
  match writeDeleteSet encoder (sn_deleteSet s) with
  | Ok e => Ok (enc_rest (writeStateVector e (sn_stateVector s)))
  | Err e => Err e
  end.

Definition decodeSnapshot : step D snapshot := ds <-- readDeleteSet;;; sv <-- readStateVector;;; rret (newSnapshot ds sv).
End Codec.

Definition EncodeSnapshotV1 (s : snapshot) : result (list Z) := encodeSnapshot s (V1.mkEnc []).
Definition EncodeSnapshotV2 (s : snapshot) : result (list Z) := encodeSnapshot s (V2.mkEnc [] 0).
Definition EncodeSnapshot (s : snapshot) : result (list Z) := EncodeSnapshotV1 s.
Definition DecodeSnapshotV1 (buf : list Z) : result snapshot := (decodeSnapshot (V1.mkDec buf)).1.
Definition DecodeSnapshotV2 (buf : list Z) : result snapshot := (decodeSnapshot (V2.mkDec buf 0)).1.
Definition DecodeSnapshot (buf : list Z) : result snapshot := DecodeSnapshotV1 buf.

(** ** Snapshots of a document *)
Definition stateVectorOf {A} `{AbstractStruct A} (store : structStore A) : result (gmap Z Z) :=
  let sv := getStateVector store in
  if decide (map_Forall (fun _ r => r <> Err ErrPanic) sv) then Ok ((fun r => match r with Ok v => v | Err _ => 0 end) <$> sv) else Err ErrPanic.

Definition NewSnapshotByDoc {A} `{AbstractStruct A} (store : structStore A) : result snapshot :=
  match stateVectorOf store with Ok sv => Ok (newSnapshot (newDeleteSetFromStructStore store) sv) | Err e => Err e end.

Definition isVisible {V} (item : itemStruct V) (s : option snapshot) : bool :=
  match s with
  | None => negb (i_deleted item)
  | Some s => (Clock (i_id item) <? default 0 (sn_stateVector s !! Client (i_id item))) && negb (isDeleted (sn_deleteSet s) (i_id item))
  end.

(** ** Updates *)

(** The loop stops at the first struct that the snapshot does not have, before the
    rest of the update is looked at. *)
Definition snapshotContainsUpdateWith {D} `{JSONText} `{UpdateDecoder D} (newD : list Z -> D) (s : option snapshot) (update : list Z) : result bool :=
  match s with
  | None => Err ErrMalformed
  | Some s =>
      let '(structs, err, decoder) := lazyStructs (newD update) false in
      if forallb (fun curr => negb (default 0 (sn_stateVector s !! Client (getID curr)) <? Clock (getID curr) + structLength curr)) structs then
        match err with
        | Some e => Err e
        | None =>
            match readDeleteSet decoder with
            | (Ok ds, _) => Ok (equalDeleteSets (sn_deleteSet s) (Some (mergeDeleteSets [sn_deleteSet s; Some ds])))
            | (Err e, _) => Err e
            end
        end
      else Ok false
  end.

(** ** Comparison *)
Lemma equalItems_spec l l' : equalItems l l' = true <-> l = l'.
Proof.
  unfold equalItems. rewrite andb_true_iff, Nat.eqb_eq. revert l'. induction l as [|a l IH]; intros [|b l']; cbn [length zip zip_with forallb]; try (split; [by intros [? ?]|done]).
  rewrite !andb_true_iff, !Z.eqb_eq. specialize (IH l'). split.
  - intros (Hl & (H1 & H2) & Hf). f_equal; [destruct a, b; cbn in *; by subst|]. apply IH. split; [lia|done].
  - intros [= -> ->]. destruct (proj2 IH eq_refl) as [_ ?]. by split_and!.
Qed.

(** A map that is a part of another one of its size is that map. *)
Lemma map_same_size {A} (m1 m2 : gmap Z A) : m1 ⊆ m2 -> size m1 = size m2 -> m1 = m2.
Proof.
  intros Hs Hn. apply map_eq. intros k. destruct (m2 !! k) as [v|] eqn:E2; [|destruct (m1 !! k) as [v|] eqn:E1; [|done]; pose proof (lookup_weaken _ _ _ _ E1 Hs); congruence].
  destruct (m1 !! k) as [w|] eqn:E1; [pose proof (lookup_weaken _ _ _ _ E1 Hs); congruence|]. exfalso.
  assert (Hd : dom m1 ⊂ dom m2).
  { split; [by apply subseteq_dom|]. intros H. assert (k ∈ dom m2) as Hk by (apply elem_of_dom; by exists v). apply H, elem_of_dom in Hk as [? ?]. congruence. }
  apply subset_size in Hd. rewrite !size_dom in Hd. lia.
Qed.

Lemma forallb_sub {A} (m1 m2 : gmap Z A) (f : A -> A -> bool) (d : A) : (forall a b, f a b = true <-> a = b) -> map_Forall (fun _ a => a <> d) m1 ->
  forallb (fun '(k, a) => f a (default d (m2 !! k))) (map_to_list m1) = true <-> m1 ⊆ m2.
Proof.
  intros Hf Hd. rewrite forallb_forall. split.
  - intros Hall. apply map_subseteq_spec. intros k a E. specialize (Hall (k, a)). cbn in Hall. rewrite Hf in Hall. specialize (Hall ltac:(by apply list_elem_of_In, elem_of_map_to_list)). destruct (m2 !! k); cbn in Hall; [by subst|]. exfalso. by apply (Hd k a E).
  - intros Hs [k a] Hin%list_elem_of_In%elem_of_map_to_list. apply Hf. by rewrite (lookup_weaken _ _ _ _ Hin Hs).
Qed.

(** No client with clock 0, and none with an empty list of ranges. *)
Definition snapshot_ok (s : snapshot) : Prop := map_Forall (fun _ clock => clock <> 0) (sn_stateVector s) /\ map_Forall (fun _ items => items <> []) (dsClients s).

Lemma EqualSnapshots_spec s1 s2 : snapshot_ok s1 -> EqualSnapshots s1 s2 = true <-> sn_stateVector s1 = sn_stateVector s2 /\ dsClients s1 = dsClients s2.
Proof.
  intros [H1 H2]. unfold EqualSnapshots. rewrite !andb_true_iff, !Nat.eqb_eq, (forallb_sub (dsClients s1) (dsClients s2) equalItems [] equalItems_spec H2).
  assert (Hsv : forallb (fun '(key, value) => default 0 (sn_stateVector s2 !! key) =? value) (map_to_list (sn_stateVector s1)) = true <-> sn_stateVector s1 ⊆ sn_stateVector s2).
  { rewrite <- (forallb_sub _ _ (fun a b => b =? a) 0) by (done || (intros a b; rewrite Z.eqb_eq; split; congruence)). done. }
  rewrite Hsv. split; [intros (((Hn1 & Hn2) & Hs1) & Hs2); split; by apply map_same_size|]. intros [-> ->]. by split_and!.
Qed.

(** ** The encodings *)
Section Roundtrip.
Context {E D : Type} `{DSCodec E D}.

Lemma number_law (e : E) v : is_safe v -> exists bs, enc_rest (writeRestVarUint e (u64 v)) = enc_rest e ++ bs /\ forall rest c, readRestNumber (mk (D := D) (bs ++ rest) c) = (Ok v, mk rest c).
Proof.
  intros Hv. destruct (rest_law e (u64 v)) as (bs & E1 & _ & _ & Hr); [apply u64_range|]. exists bs. split; [done|]. intros rest c. unfold readRestNumber, rbind. rewrite Hr, safe_u64 by done. unfold rlift. by rewrite toNumber_safe.
Qed.

Lemma entries_law (L : list (Z * Z)) : forall e : E, Forall (fun p => is_safe p.1 /\ is_safe p.2) L ->
  exists bs, enc_rest (fold_left (fun e '(client, clock) => writeRestVarUint (writeRestVarUint e (u64 client)) (u64 clock)) L e) = enc_rest e ++ bs /\
    forall rest c, rtimes (length L) (client <-- readRestNumber;;; clock <-- readRestNumber;;; rret (client, clock)) (mk (D := D) (bs ++ rest) c) = (Ok L, mk rest c).
Proof.
  induction L as [|[client clock] L IH]; intros e HL; [exists []; split; [by rewrite app_nil_r|done]|]. apply list.Forall_cons in HL as [[Hc Hk] HL]. cbn [fst snd] in *. cbn [fold_left].
  destruct (number_law e client Hc) as (b1 & E1 & R1). destruct (number_law (writeRestVarUint e (u64 client)) clock Hk) as (b2 & E2 & R2). destruct (IH (writeRestVarUint (writeRestVarUint e (u64 client)) (u64 clock)) HL) as (b3 & E3 & R3).
  exists (b1 ++ b2 ++ b3). split; [by rewrite E3, E2, E1, <- !(assoc_L (++))|]. intros rest c. cbn [length]. eapply rtimes_cons; [|apply R3]. rewrite <- !(assoc_L (++)). rewrite (rbind_ok _ _ _ _ _ (R1 _ c)), (rbind_ok _ _ _ _ _ (R2 _ c)). done.
Qed.

Lemma stateVector_law (e : E) sv : vector_ok sv -> exists bs, enc_rest (writeStateVector e sv) = enc_rest e ++ bs /\ forall rest c, readStateVector (mk (D := D) (bs ++ rest) c) = (Ok sv, mk rest c).
Proof.
  intros [Hall Hsz]. set (L := mapSortedRange sv). assert (HL : Forall (fun p => is_safe p.1 /\ is_safe p.2) L).
  { apply list.Forall_forall. intros [c k] Hp. apply mapSortedRange_elem in Hp. by apply (Hall c k). }
  destruct (number_law e (Z.of_nat (size sv)) Hsz) as (b1 & E1 & R1). rewrite safe_u64 in E1 by done. destruct (entries_law L (writeRestVarUint e (Z.of_nat (size sv))) HL) as (b2 & E2 & R2). exists (b1 ++ b2). split; [unfold writeStateVector; fold L; by rewrite E2, E1, <- (assoc_L (++))|].
  intros rest c. rewrite <- (assoc_L (++)). unfold readStateVector. rewrite (rbind_ok _ _ _ _ _ (R1 _ c)), Nat2Z.id, <- size_mapSortedRange. fold L. rewrite (rbind_ok _ _ _ _ _ (R2 _ c)). unfold rret. do 2 f_equal. apply map_eq. intros k.
  rewrite (fold_insert_lookup (fun p => p.2)) by apply mapSortedRange_NoDup. destruct (list_find (fun p => p.1 = k) L) as [[i p]|] eqn:Ef.
  - apply list_find_Some in Ef as (Ei & <- & _). symmetry. apply mapSortedRange_elem. by eapply list_elem_of_lookup_2.
  - rewrite lookup_empty. symmetry. apply eq_None_not_Some. intros [v Hv]. apply list_find_None in Ef. rewrite list.Forall_forall in Ef. apply (Ef (k, v)); [|done]. by apply mapSortedRange_elem.
Qed.

Lemma snapshot_law (e : E) ds sv c : enc_rest e = [] -> ds_fits ds -> vector_ok sv ->
  exists bs, encodeSnapshot (newSnapshot ds sv) e = Ok bs /\ (decodeSnapshot (mk (D := D) bs c)).1 = Ok (newSnapshot (decoded ds) sv).
Proof.
  intros He Hds Hsv. destruct (deleteSet_roundtrip (D := D) ds e Hds) as (b1 & e1 & Hw & Hr & Hrd). destruct (stateVector_law e1 sv Hsv) as (b2 & E2 & R2). exists (b1 ++ b2). unfold encodeSnapshot, newSnapshot. cbn [sn_deleteSet sn_stateVector]. rewrite Hw, E2, Hr, He. split; [done|].
  destruct (Hrd b2 c) as (c' & R1 & _). unfold decodeSnapshot. rewrite (rbind_ok _ _ _ _ _ R1). specialize (R2 [] c'). rewrite app_nil_r in R2. by rewrite (rbind_ok _ _ _ _ _ R2).
Qed.
End Roundtrip.

(** ** Canonical ranges *)

(** A range with elements, whose end is a clock. *)
Definition proper (it : deleteItem) : Prop := 0 <= di_clock it /\ 0 < di_length it /\ di_clock it + di_length it <= maxInt.

Lemma proper_ok it : proper it -> item_ok it /\ item_end it = di_clock it + di_length it.
Proof. intros (? & ? & ?). assert (item_ok it) by (split; lia). split; [done|]. rewrite item_end_ok by done. lia. Qed.

Lemma mergePass_proper dels : forall lft, proper lft -> Forall proper dels -> StronglySorted clock_le (lft :: dels) -> Forall proper (mergePass lft dels).
Proof.
  induction dels as [|rgt dels IH]; intros lft Hl Hd Hs; cbn [mergePass]; [by constructor|]. apply list.Forall_cons in Hd as [Hr Hd]. apply StronglySorted_inv in Hs as [Hs Hf]. apply list.Forall_cons in Hf as [Hle Hf]. unfold clock_le in Hle.
  destruct (proper_ok _ Hl) as [_ El]. destruct (proper_ok _ Hr) as [_ Er]. unfold item_end in *. rewrite El, Er. destruct (Z.leb_spec (di_clock rgt) (di_clock lft + di_length lft)).
  - apply IH; [|done|]. { unfold proper in *. cbn. lia. } apply StronglySorted_inv in Hs as [Hs _]. constructor; [done|exact Hf].
  - constructor; [done|]. by apply IH.
Qed.

Lemma sortAndMerge_proper dels : Forall proper dels -> Forall proper (sortAndMerge dels).
Proof.
  intros Hd. unfold sortAndMerge. destruct (_ <? _)%nat; [done|]. destruct (sort_step_spec dels) as [Hs Hp]. set (l := if (length dels <=? 16)%nat then insertionSort dels else sortSlice dels) in *. clearbody l. rewrite <- Hp in Hd. destruct l as [|lft l]; [done|]. apply list.Forall_cons in Hd as [? ?]. by apply mergePass_proper.
Qed.

Lemma covered_first a l c : Forall proper (a :: l) -> separated (a :: l) -> covered (a :: l) c -> di_clock a <= c.
Proof.
  intros Hp Hs [Hc|Hc]%covered_cons; [apply Hc|]. apply StronglySorted_inv in Hs as [_ Hf]. apply list.Exists_exists in Hc as (it & Hin & [Hit _]). rewrite list.Forall_forall in Hf. specialize (Hf it Hin). apply list.Forall_cons in Hp as [Ha _]. destruct (proper_ok _ Ha) as [_ Ea]. unfold proper in Ha. cbv beta in Hf. lia.
Qed.

(** The ranges are determined by what they cover. *)
Lemma canonical_unique l1 : forall l2, Forall proper l1 -> Forall proper l2 -> separated l1 -> separated l2 -> (forall c, covered l1 c <-> covered l2 c) -> l1 = l2.
Proof.
  assert (Hhead : forall a l, Forall proper (a :: l) -> covered (a :: l) (di_clock a)).
  { intros a l [Ha _]%list.Forall_cons. apply covered_cons. left. destruct (proper_ok _ Ha) as [_ Ea]. unfold item_covers. rewrite Ea. unfold proper in Ha. lia. }
  assert (Hend : forall a l, Forall proper (a :: l) -> separated (a :: l) -> ~ covered (a :: l) (item_end a)).
  { intros a l Hp Hs [Hc|Hc]%covered_cons; [destruct Hc; lia|]. apply StronglySorted_inv in Hs as [_ Hf]. apply list.Exists_exists in Hc as (it & Hin & [Hit _]). rewrite list.Forall_forall in Hf. specialize (Hf it Hin). cbv beta in Hf. lia. }
  assert (Hin : forall a l c, Forall proper (a :: l) -> di_clock a <= c < item_end a -> covered (a :: l) c) by (intros a l c _ Hc; apply covered_cons; by left).
  induction l1 as [|a l1 IH]; intros [|b l2] H1 H2 S1 S2 Heq; [done|exfalso; apply (proj2 (Heq _)) in Hhead as Hc; [by inversion Hc|exact H2]|exfalso; apply (proj1 (Heq _)) in Hhead as Hc; [by inversion Hc|exact H1]|].
  assert (Eclk : di_clock a = di_clock b).
  { pose proof (covered_first b l2 _ H2 S2 (proj1 (Heq _) (Hhead a l1 H1))). pose proof (covered_first a l1 _ H1 S1 (proj2 (Heq _) (Hhead b l2 H2))). lia. }
  pose proof H1 as [Pa _]%list.Forall_cons. pose proof H2 as [Pb _]%list.Forall_cons. destruct (proper_ok _ Pa) as [_ Ea], (proper_ok _ Pb) as [_ Eb]. unfold proper in Pa, Pb.
  assert (Eend : item_end a = item_end b).
  { destruct (Z.lt_trichotomy (item_end a) (item_end b)) as [Hlt|[?|Hlt]]; [exfalso|done|exfalso].
    - apply (Hend a l1 H1 S1), Heq, Hin; [done|lia].
    - apply (Hend b l2 H2 S2), Heq, Hin; [done|lia]. }
  assert (a = b) as -> by (destruct a, b; cbn in *; f_equal; lia). f_equal. apply list.Forall_cons in H1 as [_ H1], H2 as [_ H2]. apply StronglySorted_inv in S1 as [S1 F1], S2 as [S2 F2].
  assert (Hlate : forall l c, Forall (fun x => item_end b < di_clock x) l -> covered l c -> item_end b < c) by (intros l c Hf (it & Hi & [Hc _])%list.Exists_exists; rewrite list.Forall_forall in Hf; specialize (Hf it Hi); cbv beta in Hf; lia).
  apply IH; [done..|]. intros c. specialize (Heq c). rewrite !covered_cons in Heq. split; intros Hc.
  - destruct (proj1 Heq (or_intror Hc)) as [[_ Hb]|?]; [|done]. pose proof (Hlate _ _ F1 Hc). lia.
  - destruct (proj2 Heq (or_intror Hc)) as [[_ Hb]|?]; [|done]. pose proof (Hlate _ _ F2 Hc). lia.
Qed.

(** ** Merging into a snapshot *)
Lemma mergeClients_dom ds cs k : forall merged, is_Some (ds_clients (fold_left (mergeClient ds) cs merged) !! k) <-> is_Some (ds_clients merged !! k) \/ k ∈ cs.
Proof.
  induction cs as [|c cs IH]; intros merged; cbn [fold_left]; [set_solver|]. rewrite IH. unfold mergeClient. cbn [ds_clients]. rewrite dsNoteClient_clients, lookup_insert, elem_of_cons. case_decide; naive_solver.
Qed.

Lemma merged_lookup a b k : ds_clients (mergeDeleteSets [Some a; Some b]) !! k =
  match ds_clients a !! k, ds_clients b !! k with None, None => None | _, _ => Some (sortAndMerge (ds_items a k ++ ds_items b k)) end.
Proof.
  pose proof (mergeDeleteSets_items [Some a; Some b] k) as Hi. unfold all_items in Hi. cbn [map concat] in Hi. rewrite app_nil_r in Hi. assert (Hd : is_Some (ds_clients (mergeDeleteSets [Some a; Some b]) !! k) <-> is_Some (ds_clients a !! k) \/ is_Some (ds_clients b !! k)).
  { unfold mergeDeleteSets, sortAndMergeDeleteSet. cbn [ds_clients fold_left]. rewrite lookup_fmap, fmap_is_Some, !mergeClients_dom. cbn [newDeleteSet ds_clients]. rewrite lookup_empty, !dsOrderedClients_perm, !elem_of_elements, !elem_of_dom. split; [intros [[?|?]|?]; [by apply is_Some_None in H|by left|by right]|intros [?|?]; [left; by right|by right]]. }
  unfold ds_items at 1 in Hi. destruct (ds_clients (mergeDeleteSets _) !! k) as [l|].
  - cbn in Hi. subst l. destruct (proj1 Hd ltac:(by eexists)) as [[x Ex]|[x Ex]]; rewrite Ex; [done|]. by destruct (ds_clients a !! k).
  - destruct (ds_clients a !! k); [exfalso; apply (is_Some_None (A := list deleteItem)), Hd; left; by eexists|]. destruct (ds_clients b !! k); [exfalso; apply (is_Some_None (A := list deleteItem)), Hd; right; by eexists|done].
Qed.

Lemma equalDeleteSets_spec a b : equalDeleteSets (Some a) (Some b) = true <-> ds_clients a = ds_clients b.
Proof.
  unfold equalDeleteSets. rewrite andb_true_iff, Nat.eqb_eq, forallb_forall. split.
  - intros [Hn Hall]. apply map_same_size; [|done]. apply map_subseteq_spec. intros k l E. specialize (Hall (k, l) ltac:(by apply list_elem_of_In, elem_of_map_to_list)). cbn in Hall. destruct (ds_clients b !! k); [|done]. by apply bool_decide_eq_true in Hall as ->.
  - intros ->. split; [done|]. intros [k l] Hin%list_elem_of_In%elem_of_map_to_list. rewrite Hin. by apply bool_decide_eq_true.
Qed.

(** Every client has ranges, all with elements. *)
Definition set_proper (ds : deleteSet) : Prop := map_Forall (fun _ l => l <> [] /\ Forall proper l) (ds_clients ds).

Lemma items_proper ds k : set_proper ds -> Forall proper (ds_items ds k).
Proof. intros Hp. unfold ds_items. destruct (ds_clients ds !! k) as [l|] eqn:E; [by apply (Hp k l E)|constructor]. Qed.

Lemma proper_items_ok l : Forall proper l -> Forall item_ok l.
Proof. intros Hl. eapply list.Forall_impl; [exact Hl|]. intros it Hit. by apply proper_ok. Qed.

(** Merging a set into a canonical one changes nothing exactly when the set deletes
    nothing new. *)
Lemma merge_unchanged a b : set_proper a -> (forall k, separated (ds_items a k)) -> set_proper b ->
  ds_clients a = ds_clients (mergeDeleteSets [Some a; Some b]) <-> forall id, ds_deletes b id -> ds_deletes a id.
Proof.
  intros Ha Hsep Hb. assert (Hcov : forall l l' c, covered (l ++ l') c <-> covered l c \/ covered l' c) by (intros; unfold covered; apply Exists_app).
  assert (Hsm : forall k, _) by (intros k; exact (sortAndMerge_spec (ds_items a k ++ ds_items b k) ltac:(apply list.Forall_app; split; apply proper_items_ok; by apply items_proper))). split.
  - intros Heq id Hid. unfold ds_deletes in *. destruct (Hsm (Client id)) as (Hc & _). assert (Hk : ds_items a (Client id) = sortAndMerge (ds_items a (Client id) ++ ds_items b (Client id))).
    { pose proof (mergeDeleteSets_items [Some a; Some b] (Client id)) as Hi. unfold all_items in Hi. cbn [map concat] in Hi. rewrite app_nil_r in Hi. rewrite <- Hi. unfold ds_items at 1 2. by rewrite <- Heq. }
    rewrite Hk, Hc, Hcov. by right.
  - intros Hsub. apply map_eq. intros k. rewrite merged_lookup. assert (Hk : ds_items a k = sortAndMerge (ds_items a k ++ ds_items b k)).
    { destruct (Hsm k) as (Hc & Hs & _). apply canonical_unique; [by apply items_proper|apply sortAndMerge_proper; apply list.Forall_app; split; by apply items_proper|apply Hsep|done|]. intros c. rewrite Hc, Hcov. split; [by left|]. intros [?|Hbc]; [done|]. exact (Hsub (GenID k c) Hbc). }
    rewrite <- Hk. unfold ds_items. destruct (ds_clients a !! k) as [l|] eqn:Ea; [done|]. destruct (ds_clients b !! k) as [l|] eqn:Eb; [|done]. exfalso. destruct (Hb k l Eb) as [Hne Hp]. destruct l as [|it l]; [done|]. apply list.Forall_cons in Hp as [Hit _].
    assert (Hd : ds_deletes b (GenID k (di_clock it))) by (unfold ds_deletes, ds_items; cbn [Client Clock]; rewrite Eb; apply covered_cons; left; unfold item_covers; destruct (proper_ok _ Hit) as [_ ->]; unfold proper in Hit; cbn; lia).
    specialize (Hsub _ Hd). unfold ds_deletes, ds_items in Hsub. cbn [Client] in Hsub. rewrite Ea in Hsub. by inversion Hsub.
Qed.

(** ** The snapshot of a store *)
Section Document.
Context {A : Type} `{AbstractStruct A}.

Lemma ranges_proper fuel : forall c ss, contiguous_from c ss -> 0 <= c -> list_end c ss <= maxInt -> Forall proper (deletedRanges_loop fuel [] ss).
Proof.
  induction fuel as [|fuel IH]; intros c ss Hc H0 Hmax; [constructor|]. destruct ss as [|t ss]; [constructor|]. destruct Hc as (<- & Hl & Hc). cbn [deletedRanges_loop list_end] in *. assert (Hend : struct_end t = Clock (getID t) + structLength t) by done.
  destruct (structDeleted t); cbn [negb]; [|apply (IH (struct_end t)); [done|lia|done]]. destruct (absorb (structLength t) ss) as [l rest] eqn:Eab. destruct (absorb_spec _ _ _ _ _ Hc Eab) as (pre & -> & _ & -> & Hc' & _ & _ & Hge).
  rewrite deletedRanges_loop_app. rewrite list_end_app' in Hmax. pose proof (list_end_ge _ _ Hc'). constructor; [unfold proper; cbn; lia|]. apply (IH (list_end (struct_end t) pre)); [done|lia|done].
Qed.

(** The lists of the clients start at clock 0. *)
Definition from_start (store : structStore A) : Prop := forall client l, clients store !! client = Some l -> contiguous_from 0 l /\ list_end 0 l <= maxInt.

Lemma from_start_clocks store : from_start store -> clocks_ok store.
Proof. intros Hs client l E. destruct (Hs client l E) as [? ?]. exists 0. by split_and!. Qed.

Lemma stateVectorOf_spec (store : structStore A) : store_ok store -> from_start store ->
  exists sv, stateVectorOf store = Ok sv /\ forall k, default 0 (sv !! k) = list_end 0 (default [] (clients store !! k)).
Proof.
  intros (Hok & _) Hst. unfold stateVectorOf. rewrite decide_True; last first.
  { intros k r E. unfold getStateVector in E. rewrite lookup_fmap in E. destruct (clients store !! k) as [l|] eqn:El; [|done]. cbn in E. injection E as <-. destruct (Hok k l El) as (Hne & _). destruct (list.last l) eqn:Ela; [done|]. by apply last_None in Ela. }
  eexists. split; [reflexivity|]. intros k. rewrite lookup_fmap. unfold getStateVector. rewrite lookup_fmap. destruct (clients store !! k) as [l|] eqn:El; [|done]. cbn. destruct (Hok k l El) as (Hne & _). destruct (list.last l) as [t|] eqn:Ela; [|by apply last_None in Ela]. cbn. by rewrite (list_end_last 0 l t Ela).
Qed.
End Document.

(** ** Properties *)

(** Encoded snapshots. In both formats a snapshot with encodable ranges and clocks
    is written without an error and read back with the same state vector and the
    same ranges, so that it equals the original. Two snapshots that have no client
    with clock 0 or without ranges compare equal exactly when they have the same
    state vector and the same ranges. *)
Theorem snapshot_roundtrip (ds : deleteSet) (sv : gmap Z Z) :
  ds_fits ds -> vector_ok sv -> map_Forall (fun _ clock => clock <> 0) sv ->
  let s := newSnapshot ds sv in
  let s' := newSnapshot (decoded ds) sv in
  (exists bs, EncodeSnapshotV1 s = Ok bs /\ DecodeSnapshotV1 bs = Ok s') /\
  (exists bs, EncodeSnapshotV2 s = Ok bs /\ DecodeSnapshotV2 bs = Ok s') /\
  EqualSnapshots s s' = true /\
  (forall s2, EqualSnapshots s s2 = true <-> sv = sn_stateVector s2 /\ ds_clients ds = dsClients s2).
Proof.
  intros Hds Hsv H0 s s'. assert (Hok : snapshot_ok s) by (split; [done|]; intros k l E; by apply (proj2 Hds k l E)). split_and!.
  - exact (snapshot_law (E := V1.dsEncoderV1) (D := V1.updateDecoderV1) (V1.mkEnc []) ds sv 0 eq_refl Hds Hsv).
  - exact (snapshot_law (E := V2.dsEncoderV2) (D := V2.dsDecoderV2) (V2.mkEnc [] 0) ds sv 0 eq_refl Hds Hsv).
  - by apply EqualSnapshots_spec.
  - intros s2. by apply EqualSnapshots_spec.
Qed.

(** C29. [SnapshotContainsUpdate] answers true exactly when the snapshot has everything
    of the update: every struct ends at or before the clock that the state vector has
    for its client, and every element that the update deletes is deleted in the
    snapshot. It holds for every snapshot in canonical form, in particular those of
    documents, and for both formats. *)
Theorem snapshot_contains_update {D : Type} `{JSONText} `{UpdateDecoder D} (newD : list Z -> D) (u : list Z) (structs : list wireStruct) (ds sds : deleteSet) (sv : gmap Z Z) :
  decodeUpdateWith newD u = Ok (structs, ds) -> set_proper ds -> set_proper sds -> (forall k, separated (ds_items sds k)) ->
  exists b, snapshotContainsUpdateWith newD (Some (newSnapshot sds sv)) u = Ok b /\
    (b = true <-> Forall (fun t => struct_end t <= default 0 (sv !! Client (getID t))) structs /\ forall id, ds_deletes ds id -> ds_deletes sds id).
Proof.
  intros (d & d' & El & Ed)%decoded_inv Hds Hs Hsep. unfold snapshotContainsUpdateWith. cbn [sn_stateVector sn_deleteSet newSnapshot]. rewrite El. set (f := fun curr => negb _).
  assert (Hf : forallb f structs = true <-> Forall (fun t => struct_end t <= default 0 (sv !! Client (getID t))) structs).
  { rewrite forallb_forall, list.Forall_forall. split; intros Hall t Ht; specialize (Hall t); [rewrite <- list_elem_of_In in Hall; specialize (Hall Ht)|rewrite <- list_elem_of_In in Ht; specialize (Hall Ht)]; unfold f, struct_end in *; [apply negb_true_iff, Z.ltb_ge in Hall|apply negb_true_iff, Z.ltb_ge]; lia. }
  destruct (forallb f structs) eqn:Ef; [|exists false; split; [done|]; split; [done|]; intros [Hall _]; by apply Hf in Hall].
  rewrite Ed. eexists. split; [reflexivity|]. rewrite equalDeleteSets_spec, (merge_unchanged sds ds Hs Hsep Hds). split; [intros Hsub; split; [by apply Hf|done]|by intros [_ ?]].
Qed.

(** A snapshot of a document shows the document as it was: whatever happens to
    the items later, [isVisible] holds of an item at the snapshot exactly when, at
    the time of the snapshot, the store had a struct over its first element that was
    not deleted. The delete set of the snapshot is in canonical form. *)
Theorem snapshot_shows_past {A V : Type} `{AbstractStruct A} (store : structStore A) :
  store_ok store -> from_start store ->
  exists s ds, NewSnapshotByDoc store = Ok s /\ sn_deleteSet s = Some ds /\ set_proper ds /\ (forall k, separated (ds_items ds k)) /\
    forall item : itemStruct V, 0 <= Clock (i_id item) ->
      isVisible item (Some s) = true <->
      exists l t, clients store !! Client (i_id item) = Some l /\ t ∈ l /\ covers t (Clock (i_id item)) /\ structDeleted t = false.
Proof.
  intros Hok Hst. destruct (stateVectorOf_spec store Hok Hst) as (sv & Esv & Hsv). unfold NewSnapshotByDoc. rewrite Esv. eexists _, _. split; [reflexivity|]. split; [reflexivity|]. pose proof (from_start_clocks store Hst) as Hcl. split_and!.
  - intros k l E. rewrite (fromStore_lookup store k Hok) in E. unfold store_ranges in E. destruct (appendDeletedRanges [] (default [] (clients store !! k))) as [|r rs] eqn:Er; [done|]. injection E as <-. split; [done|]. rewrite <- Er. unfold appendDeletedRanges. destruct (clients store !! k) as [l|] eqn:El; [|done]. cbn. destruct (Hst k l El) as [Hc Hm]. by apply (ranges_proper _ 0).
  - intros k. rewrite (fromStore_items store k Hok). by apply store_ranges_spec.
  - intros item Hi. unfold isVisible. cbn [sn_stateVector sn_deleteSet newSnapshot]. rewrite andb_true_iff, Z.ltb_lt, negb_true_iff, Hsv.
    assert (Hdel : isDeleted (Some (newDeleteSetFromStructStore store)) (i_id item) = true <-> deleted_at (default [] (clients store !! Client (i_id item))) (Clock (i_id item))).
    { rewrite isDeleted_spec; [unfold ds_deletes; rewrite (fromStore_items store _ Hok); by apply store_ranges_spec|intros k; rewrite (fromStore_items store _ Hok); by apply store_ranges_spec|rewrite (fromStore_items store _ Hok); by apply store_ranges_spec]. }
    rewrite <- not_true_iff_false, Hdel. destruct (clients store !! Client (i_id item)) as [l|] eqn:El.
    + change (default [] (Some l)) with l. destruct (Hst _ _ El) as [Hc _]. split.
      * intros [Hk Hnd]. destruct (contiguous_covered 0 l (Clock (i_id item)) Hc ltac:(done)) as (j & t & Ht & Hcov). apply zlookup_elem in Ht. exists l, t. split_and!; [done|done|done|]. destruct (structDeleted t) eqn:Ed; [|done]. exfalso. apply Hnd. apply list.Exists_exists. by exists t.
      * intros (l' & t & [= <-] & Ht & Hcov & Hd). split; [pose proof (contiguous_end 0 l t Hc Ht); unfold covers in Hcov; lia|]. intros (t' & Ht' & Hd' & Hcov')%list.Exists_exists. assert (t' = t) as -> by (by eapply covers_unique). congruence.
    + split; [intros [Hk _]; cbn in Hk; lia|]. by intros (l & t & ? & _).
Qed.

(** A client with clock 0 counts for the size, and a missing one reads 0: the
    comparison is not symmetric, and equates different state vectors. *)
Example equal_with_zero_clock :
  EqualSnapshots (newSnapshot newDeleteSet {[ 1 := 0 ]}) (newSnapshot newDeleteSet {[ 2 := 5 ]}) = true /\
  EqualSnapshots (newSnapshot newDeleteSet {[ 2 := 5 ]}) (newSnapshot newDeleteSet {[ 1 := 0 ]}) = false.
Proof. split; vm_compute; reflexivity. Qed.

Definition snapshot_sv : gmap Z Z := {[ 4 := 7; 7 := 9; 9 := 9 ]}.

Lemma snapshot_sv_ok : vector_ok snapshot_sv /\ map_Forall (fun _ clock => clock <> 0) snapshot_sv.
Proof.
  assert (Hall : forall (P : Z -> Z -> Prop), P 4 7 -> P 7 9 -> P 9 9 -> map_Forall P snapshot_sv).
  { intros P H1 H2 H3 k v Hk. unfold snapshot_sv in Hk. rewrite !lookup_insert_Some, lookup_singleton_Some in Hk. naive_solver. }
  split; [split; [apply Hall; by split; vm_compute|by vm_compute]|by apply Hall].
Qed.

Lemma snapshot_roundtrip_witness :
  (exists bs, EncodeSnapshotV2 (newSnapshot sample_wire_ds snapshot_sv) = Ok bs /\ DecodeSnapshotV2 bs = Ok (newSnapshot (decoded sample_wire_ds) snapshot_sv)) /\
  EqualSnapshots (newSnapshot sample_wire_ds snapshot_sv) (newSnapshot (decoded sample_wire_ds) snapshot_sv) = true.
Proof. destruct (snapshot_roundtrip sample_wire_ds snapshot_sv sample_wire_ds_fits (proj1 snapshot_sv_ok) (proj2 snapshot_sv_ok)) as (_ & H2 & H3 & _). by split. Defined.

Lemma sample_wire_proper : set_proper (decoded sample_wire_ds) /\ forall k, separated (ds_items (decoded sample_wire_ds) k).
Proof.
  split.
  - apply map_Forall_singleton. split; [done|]. repeat (apply Forall_cons_2; [unfold proper, maxInt; cbn; lia|]). constructor.
  - intros k. unfold ds_items, decoded, sample_wire_ds. cbn [ds_clients]. destruct (decide (k = 7)) as [->|Hk]; [|rewrite lookup_singleton_ne by done; apply SSorted_nil]. rewrite lookup_singleton_eq. repeat (apply SSorted_cons; [|repeat (apply Forall_cons_2; [vm_compute; reflexivity|]); constructor]). apply SSorted_nil.
Qed.

(** The sample update of EncodedUpdates.v against a snapshot that has it. *)
Lemma snapshot_contains_update_witness :
  let J := noJSON in
  snapshotContainsUpdateWith UV1.newDecoder (Some (newSnapshot (decoded sample_wire_ds) snapshot_sv)) sample_update = Ok true.
Proof.
  intros J. destruct sample_wire_proper as [Hp Hs]. destruct (snapshot_contains_update UV1.newDecoder sample_update sample_structs (decoded sample_wire_ds) (decoded sample_wire_ds) snapshot_sv sample_update_decodes Hp Hp Hs) as (b & E & Hb). etrans; [exact E|]. f_equal. apply Hb. split; [|done].
  repeat (apply Forall_cons_2; [by vm_compute|]). constructor.
Defined.

Lemma snapshot_shows_past_witness : exists s ds, NewSnapshotByDoc sample_store = Ok s /\ sn_deleteSet s = Some ds /\ set_proper ds /\ (forall k, separated (ds_items ds k)) /\
    forall item : itemStruct unit, 0 <= Clock (i_id item) -> isVisible item (Some s) = true <->
      exists l t, clients sample_store !! Client (i_id item) = Some l /\ t ∈ l /\ covers t (Clock (i_id item)) /\ structDeleted t = false.
Proof.
  apply (snapshot_shows_past sample_store (proj1 sample_store_ok)). intros client l E. unfold sample_store in E. cbn [clients] in E. apply lookup_singleton_Some in E as [<- <-]. vm_compute. intuition discriminate.
Defined.
