(* ===== verification/StructTree.v ===== *)
(** * The tree of a large client

    Models crdt/client_struct_tree.go: the B+ tree that replaces the slice of the
    structs of a client once it is large. This file has the nodes and the operations
    that work along a path to the root: lookup, the insertion of a sibling with the
    splitting of branches, the rebalancing of leaves and branches.

    A leaf has an address, its items, and the cached count and end clock; a branch has
    its children. The parent pointers of the code are the path from a leaf to the root,
    one frame of left and right siblings per branch. *)
From stdpp Require Import list.
From Stdlib Require Import ZArith Lia.
From S2P Require Import Prelude.
Open Scope nat_scope.

Section Tree.
Context {A : Type}.
(** The exclusive end clock of a struct. *)
Context (fin : A -> Z).
(** [t.leafLimit] and [t.branchLimit]. *)
Context (leafLimit branchLimit : nat).

(** ** Nodes *)
Record aggregate := mkAgg { g_structs : nat; g_endClock : Z }.

Inductive node : Type :=
| Leaf (id : nat) (items : list A) (g : aggregate)
| Branch (children : list node) (g : aggregate).

Definition nodeAgg (t : node) : aggregate := match t with Leaf _ _ g | Branch _ g => g end.

(** [refreshLeaf] and [refreshBranch]. *)
Definition leafAgg (items : list A) : aggregate := mkAgg (length items) (fold_left (fun m a => if (m <? fin a)%Z then fin a else m) items 0%Z).
Definition branchAgg (children : list node) : aggregate :=
  fold_left (fun g c => mkAgg (g_structs g + g_structs (nodeAgg c)) (if (g_endClock g <? g_endClock (nodeAgg c))%Z then g_endClock (nodeAgg c) else g_endClock g)) children (mkAgg 0 0%Z).
Definition mkLeaf (id : nat) (items : list A) : node := Leaf id items (leafAgg items).
Definition mkBranch (children : list node) : node := Branch children (branchAgg children).

Definition minLeaf : nat := (leafLimit + 1) / 2.
Definition minBranch : nat := (branchLimit + 1) / 2.

(** The leaves in order, and the structs. *)
Fixpoint leaves (t : node) : list (nat * list A) :=
  match t with Leaf id items _ => [(id, items)] | Branch cs _ => concat (map leaves cs) end.
Definition flat (ls : list (nat * list A)) : list A := concat ls.*2.

(** ** Paths *)
Definition frame : Type := list node * list node.

Fixpoint locate (id : nat) (t : node) (path : list frame) : option (list A * list frame) :=
  match t with
  | Leaf i items _ => if (i =? id)%nat then Some (items, path) else None
  | Branch cs _ =>
      (fix among (ls rs : list node) : option (list A * list frame) :=
         match rs with
         | [] => None
         | c :: rs' => match locate id c ((ls, rs') :: path) with Some r => Some r | None => among (ls ++ [c]) rs' end
         end) [] cs
  end.

(** [refreshUp] from a node that takes its place under the path. *)
Fixpoint plug (t : node) (path : list frame) : node :=
  match path with [] => t | (ls, rs) :: path' => plug (mkBranch (ls ++ t :: rs)) path' end.

(** [insertSiblingAfter] with [splitBranch]. *)
Fixpoint insertSiblingAfter (left right : node) (path : list frame) : node :=
  match path with
  | [] => mkBranch [left; right]
  | (ls, rs) :: path' =>
      let children := ls ++ left :: right :: rs in
      if length children <=? branchLimit then plug (mkBranch children) path'
      else let split := length children / 2 in insertSiblingAfter (mkBranch (take split children)) (mkBranch (drop split children)) path'
  end.

(** ** Rebalancing *)

(** The left sibling, with those before it. *)
Definition splitLast {B} (l : list B) : option (list B * B) := match reverse l with [] => None | x :: r => Some (reverse r, x) end.

Definition branchChildren (t : node) : option (list node) := match t with Branch cs _ => Some cs | Leaf _ _ _ => None end.
Definition leafParts (t : node) : option (nat * list A) := match t with Leaf id items _ => Some (id, items) | Branch _ _ => None end.

(** [rebalanceBranch] of a branch that has these children, with [removeBranchChild] of
    its parent after a merge. A branch without a sibling is a panic. *)
Fixpoint rebalanceBranch (children : list node) (path : list frame) : result node :=
  match path with
  | [] => match children with [child] => Ok child | _ => Ok (mkBranch children) end
  | (ls, rs) :: path' =>
      if minBranch <=? length children then Ok (plug (mkBranch children) path)
      else
        let left := '(ls', t) ← splitLast ls; cs ← branchChildren t; Some (ls', cs) in
        let right := match rs with t :: rs' => cs ← branchChildren t; Some (cs, rs') | [] => None end in
        match left, right with
        | Some (ls', lcs), _ =>
            match (if minBranch <? length lcs then splitLast lcs else None) with
            | Some (lcs', child) => Ok (plug (mkBranch (ls' ++ mkBranch lcs' :: mkBranch (child :: children) :: rs)) path')
            | None =>
                match right with
                | Some (child :: rcs, rs') =>
                    if minBranch <? length (child :: rcs) then Ok (plug (mkBranch (ls ++ mkBranch (children ++ [child]) :: mkBranch rcs :: rs')) path')
                    else rebalanceBranch (ls' ++ mkBranch (lcs ++ children) :: rs) path'
                | _ => rebalanceBranch (ls' ++ mkBranch (lcs ++ children) :: rs) path'
                end
            end
        | None, Some (child :: rcs, rs') =>
            if minBranch <? length (child :: rcs) then Ok (plug (mkBranch (ls ++ mkBranch (children ++ [child]) :: mkBranch rcs :: rs')) path')
            else rebalanceBranch (ls ++ mkBranch (children ++ child :: rcs) :: rs') path'
        | None, Some ([], rs') => rebalanceBranch (ls ++ mkBranch children :: rs') path'
        | None, None => Err ErrPanic
        end
  end.

(** [rebalanceLeaf]: the tree, the leaf that survives and the leaf that was unlinked. *)
Definition rebalanceLeaf (id : nat) (items : list A) (path : list frame) : result (node * nat * option nat) :=
  match path with
  | [] => Ok (mkLeaf id items, id, None)
  | (ls, rs) :: path' =>
      let left := '(ls', t) ← splitLast ls; l ← leafParts t; Some (ls', l) in
      let right := match rs with t :: rs' => l ← leafParts t; Some (l, rs') | [] => None end in
      let merged (r : result node) (survivor gone : nat) : result (node * nat * option nat) := match r with Ok t => Ok (t, survivor, Some gone) | Err e => Err e end in
      let mergeLeft ls' lid litems := merged (rebalanceBranch (ls' ++ mkLeaf lid (litems ++ items) :: rs) path') lid id in
      match left, right with
      | Some (ls', (lid, litems)), _ =>
          match (if minLeaf <? length litems then splitLast litems else None) with
          | Some (litems', last) => Ok (plug (mkBranch (ls' ++ mkLeaf lid litems' :: mkLeaf id (last :: items) :: rs)) path', id, None)
          | None =>
              match right with
              | Some ((rid, first :: ritems), rs') =>
                  if minLeaf <? length (first :: ritems) then Ok (plug (mkBranch (ls ++ mkLeaf id (items ++ [first]) :: mkLeaf rid ritems :: rs')) path', id, None)
                  else mergeLeft ls' lid litems
              | _ => mergeLeft ls' lid litems
              end
          end
      | None, Some ((rid, first :: ritems), rs') =>
          if minLeaf <? length (first :: ritems) then Ok (plug (mkBranch (ls ++ mkLeaf id (items ++ [first]) :: mkLeaf rid ritems :: rs')) path', id, None)
          else merged (rebalanceBranch (ls ++ mkLeaf id (items ++ first :: ritems) :: rs') path') id rid
      | None, Some ((rid, []), rs') => merged (rebalanceBranch (ls ++ mkLeaf id items :: rs') path') id rid
      | None, None => Err ErrPanic
      end
  end.

(** ** The shape of a tree *)

(** A node of height [n] below the root: exact aggregates, and branches between half
    full and full. *)
Fixpoint shaped (n : nat) (t : node) : Prop :=
  match n, t with
  | 0, Leaf _ items g => g = leafAgg items
  | S n', Branch cs g => minBranch <= length cs <= branchLimit /\ g = branchAgg cs /\ Forall (shaped n') cs
  | _, _ => False
  end.

(** The root may have two children. *)
Definition root_shaped (n : nat) (t : node) : Prop :=
  match n, t with
  | 0, Leaf _ items g => g = leafAgg items
  | S n', Branch cs g => 2 <= length cs <= branchLimit /\ g = branchAgg cs /\ Forall (shaped n') cs
  | _, _ => False
  end.

Definition in_place (n : nat) (t : node) (path : list frame) : Prop := match path with [] => root_shaped n t | _ => shaped n t end.

(** The surroundings of a node of height [n]. *)
Fixpoint path_shaped (n : nat) (path : list frame) : Prop :=
  match path with
  | [] => True
  | (ls, rs) :: path' =>
      Forall (shaped n) ls /\ Forall (shaped n) rs /\ match path' with [] => 2 | _ => minBranch end <= length ls + 1 + length rs <= branchLimit /\ path_shaped (S n) path'
  end.

Fixpoint leftLeaves (path : list frame) : list (nat * list A) :=
  match path with [] => [] | (ls, _) :: path' => leftLeaves path' ++ concat (map leaves ls) end.
Fixpoint rightLeaves (path : list frame) : list (nat * list A) :=
  match path with [] => [] | (_, rs) :: path' => concat (map leaves rs) ++ rightLeaves path' end.
Definition around (path : list frame) (l : list (nat * list A)) : list (nat * list A) := leftLeaves path ++ l ++ rightLeaves path.

Context (Hleaf : 2 <= leafLimit) (Hbranch : 3 <= branchLimit).

Lemma minBranch_bounds : 2 <= minBranch /\ 2 * minBranch <= branchLimit + 1.
Proof. unfold minBranch. pose proof (Nat.div_mod (branchLimit + 1) 2 ltac:(lia)). pose proof (Nat.mod_upper_bound (branchLimit + 1) 2 ltac:(lia)). lia. Qed.

Lemma minLeaf_bounds : 1 <= minLeaf /\ 2 * minLeaf <= leafLimit + 1.
Proof. unfold minLeaf. pose proof (Nat.div_mod (leafLimit + 1) 2 ltac:(lia)). pose proof (Nat.mod_upper_bound (leafLimit + 1) 2 ltac:(lia)). lia. Qed.

Lemma shaped_root n t : shaped n t -> root_shaped n t.
Proof. pose proof minBranch_bounds. destruct n, t; cbn [shaped root_shaped]; try done. intros (? & ? & ?). split_and!; (done || lia). Qed.

Lemma shaped_in n t path : shaped n t -> in_place n t path.
Proof. destruct path; [apply shaped_root|done]. Qed.

Lemma leaves_mkBranch cs : leaves (mkBranch cs) = concat (map leaves cs).
Proof. done. Qed.

Lemma around_frame ls rs path l : around ((ls, rs) :: path) l = around path (concat (map leaves ls) ++ l ++ concat (map leaves rs)).
Proof. unfold around. cbn [leftLeaves rightLeaves]. by rewrite <- !(assoc_L (++)). Qed.

Lemma children_one ls t rs : concat (map leaves (ls ++ t :: rs)) = concat (map leaves ls) ++ leaves t ++ concat (map leaves rs).
Proof. by rewrite map_app, concat_app. Qed.

Lemma children_two ls t u rs : concat (map leaves (ls ++ t :: u :: rs)) = concat (map leaves ls) ++ (leaves t ++ leaves u) ++ concat (map leaves rs).
Proof. rewrite children_one. cbn. by rewrite <- !(assoc_L (++)). Qed.

(** *** Plugging *)
Lemma plug_spec path : forall n t, in_place n t path -> path_shaped n path -> exists m, root_shaped m (plug t path) /\ leaves (plug t path) = around path (leaves t).
Proof.
  induction path as [|[ls rs] path IH]; intros n t Ht Hp; cbn [plug]; [exists n; split; [done|]; unfold around; cbn; by rewrite app_nil_r|]. destruct Hp as (Hl & Hr & Hn & Hp).
  destruct (IH (S n) (mkBranch (ls ++ t :: rs))) as (m & Hm & El); [|done|].
  - assert (Hf : Forall (shaped n) (ls ++ t :: rs)) by (apply list.Forall_app; split; [done|]; by constructor). assert (Hlen : length (ls ++ t :: rs) = length ls + 1 + length rs) by (rewrite length_app; cbn; lia). destruct path; cbn [in_place root_shaped shaped mkBranch]; cbv beta iota in Hn; (split_and!; [rewrite Hlen; lia|rewrite Hlen; lia|done|done]).
  - exists m. split; [done|]. rewrite El, leaves_mkBranch, around_frame. f_equal. by rewrite children_one.
Qed.

(** A branch of the right size under the path. *)
Lemma plug_children n cs path : Forall (shaped n) cs -> match path with [] => 2 | _ => minBranch end <= length cs <= branchLimit -> path_shaped (S n) path ->
  exists m, root_shaped m (plug (mkBranch cs) path) /\ leaves (plug (mkBranch cs) path) = around path (concat (map leaves cs)).
Proof. intros Hc [Hl1 Hl2] Hp. apply (plug_spec path (S n)); [|done]. destruct path; by split_and!. Qed.

(** *** Insertion of a sibling *)
Lemma insertSibling_spec path : forall n left right, shaped n left -> shaped n right -> path_shaped n path ->
  exists m, root_shaped m (insertSiblingAfter left right path) /\ leaves (insertSiblingAfter left right path) = around path (leaves left ++ leaves right).
Proof.
  induction path as [|[ls rs] path IH]; intros n left right Hl Hr Hp; cbn [insertSiblingAfter].
  - exists (S n). split; [|unfold around; cbn; by rewrite !app_nil_r]. cbn. split_and!; [lia|lia|done|]. by repeat constructor.
  - destruct Hp as (Hls & Hrs & Hn & Hp). set (children := ls ++ left :: right :: rs). assert (Hc : Forall (shaped n) children) by (apply list.Forall_app; split; [done|]; by repeat constructor). assert (Hlen : length children = length ls + 1 + length rs + 1) by (unfold children; rewrite length_app; cbn; lia).
    assert (Ech : concat (map leaves children) = concat (map leaves ls) ++ (leaves left ++ leaves right) ++ concat (map leaves rs)) by apply children_two.
    destruct (Nat.leb_spec (length children) branchLimit) as [Hle|Hgt].
    + destruct (plug_children n children path Hc) as (m & Hm & El); [destruct path; lia|done|]. exists m. split; [done|]. by rewrite El, around_frame, Ech.
    + pose proof minBranch_bounds as [Hm1 Hm2]. assert (Hh : length children / 2 = minBranch) by (unfold minBranch; f_equal; lia). rewrite Hh. assert (Hhalf : branchLimit + 1 <= 2 * minBranch + 1) by (unfold minBranch; pose proof (Nat.div_mod (branchLimit + 1) 2 ltac:(lia)); pose proof (Nat.mod_upper_bound (branchLimit + 1) 2 ltac:(lia)); lia).
      destruct (IH (S n) (mkBranch (take minBranch children)) (mkBranch (drop minBranch children))) as (m & Hm & El).
      * cbn [shaped mkBranch]. split_and!; [rewrite length_take; lia|rewrite length_take; lia|done|by apply Forall_take].
      * cbn [shaped mkBranch]. split_and!; [rewrite length_drop; lia|rewrite length_drop; lia|done|by apply Forall_drop].
      * done.
      * exists m. split; [done|]. rewrite El, !leaves_mkBranch, around_frame, <- Ech. f_equal. rewrite <- concat_app, <- map_app, take_drop. done.
Qed.

(** *** Rebalancing *)
Lemma splitLast_snoc {B} (l : list B) x : splitLast (l ++ [x]) = Some (l, x).
Proof. unfold splitLast. rewrite reverse_snoc. cbv iota beta. by rewrite reverse_involutive. Qed.

Lemma splitLast_cases {B} (l : list B) : l = [] \/ exists l' x, l = l' ++ [x].
Proof. induction l as [|x l _] using rev_ind; [by left|right; by exists l, x]. Qed.

(** The children of a branch that lost one. *)
Definition lean (path : list frame) (k : nat) : Prop := match path with [] => 1 | _ => minBranch - 1 end <= k <= branchLimit.

Lemma shaped_children n t : shaped (S n) t -> exists cs, branchChildren t = Some cs /\ t = mkBranch cs /\ Forall (shaped n) cs /\ minBranch <= length cs <= branchLimit.
Proof. destruct t as [|cs g]; [done|]. cbn [shaped]. intros (Hl & -> & Hf). by exists cs. Qed.

Lemma shaped_leaf t : shaped 0 t -> exists id items, leafParts t = Some (id, items) /\ t = mkLeaf id items.
Proof. destruct t as [id items g|]; [|done]. cbn. intros ->. by exists id, items. Qed.

Lemma shaped_mkBranch n cs : Forall (shaped n) cs -> minBranch <= length cs <= branchLimit -> shaped (S n) (mkBranch cs).
Proof. by intros ? [? ?]. Qed.

Lemma rebalanceBranch_spec path : forall n cs, Forall (shaped n) cs -> lean path (length cs) -> path_shaped (S n) path ->
  exists t m, rebalanceBranch cs path = Ok t /\ root_shaped m t /\ leaves t = around path (concat (map leaves cs)).
Proof.
  pose proof minBranch_bounds as [Hm1 Hm2]. induction path as [|[ls rs] path IH]; intros n cs Hc Hl Hp; cbn [rebalanceBranch].
  - unfold lean in Hl. unfold around. cbn [leftLeaves rightLeaves app]. destruct cs as [|c [|c' cs]]; cbn [length] in Hl; [lia|..].
    + apply list.Forall_cons in Hc as [Hc _]. exists c, n. split_and!; [done|by apply shaped_root|]. cbn. by rewrite !app_nil_r.
    + exists (mkBranch (c :: c' :: cs)), (S n). split_and!; [done| |by rewrite app_nil_r]. cbn [root_shaped mkBranch]. split_and!; [cbn [length]; lia|cbn [length]; lia|done|done].
  - unfold lean in Hl. pose proof Hp as (Hls & Hrs & Hn & Hp'). destruct (Nat.leb_spec minBranch (length cs)) as [Hge|Hlt].
    { destruct (plug_spec ((ls, rs) :: path) (S n) (mkBranch cs)) as (m & Hm & El); [apply shaped_mkBranch; [done|lia]|done|]. exists (plug (mkBranch cs) ((ls, rs) :: path)), m. split_and!; [done|done|]. by rewrite El, leaves_mkBranch. }
    rewrite around_frame.
    (** the parent with one child less *)
    assert (Hrec : forall cs', Forall (shaped (S n)) cs' -> length cs' = length ls + length rs -> concat (map leaves cs') = concat (map leaves ls) ++ concat (map leaves cs) ++ concat (map leaves rs) ->
      exists t m, rebalanceBranch cs' path = Ok t /\ root_shaped m t /\ leaves t = around path (concat (map leaves ls) ++ concat (map leaves cs) ++ concat (map leaves rs))).
    { intros cs' Hf Hlen El. destruct (IH (S n) cs' Hf) as (t & m & E & Hm & Et); [unfold lean; destruct path; lia|done|]. exists t, m. split_and!; [done|done|]. by rewrite Et, El. }
    (** the parent with the same number of children *)
    assert (Hsame : forall cs', Forall (shaped (S n)) cs' -> length cs' = length ls + 1 + length rs -> concat (map leaves cs') = concat (map leaves ls) ++ concat (map leaves cs) ++ concat (map leaves rs) ->
      exists t m, Ok (plug (mkBranch cs') path) = Ok t /\ root_shaped m t /\ leaves t = around path (concat (map leaves ls) ++ concat (map leaves cs) ++ concat (map leaves rs))).
    { intros cs' Hf Hlen El. destruct (plug_children (S n) cs' path Hf) as (m & Hm & Et); [destruct path; lia|done|]. eexists _, m. split_and!; [done|done|]. by rewrite Et, El. }
    assert (Hright : forall c rcs rs', rs = mkBranch (c :: rcs) :: rs' -> minBranch < length (c :: rcs) -> exists t m, Ok (plug (mkBranch (ls ++ mkBranch (cs ++ [c]) :: mkBranch rcs :: rs')) path) = Ok t /\ root_shaped m t /\ leaves t = around path (concat (map leaves ls) ++ concat (map leaves cs) ++ concat (map leaves rs))).
    { intros c rcs rs' -> Hlr. apply list.Forall_cons in Hrs as [(Hr1 & _ & Hr2) Hrs']. apply list.Forall_cons in Hr2 as [Hcc Hr2]. cbn [length] in Hlr, Hr1. apply Hsame; [|rewrite length_app; cbn [length]; lia|rewrite children_two; cbn [map concat]; rewrite !leaves_mkBranch, map_app, concat_app; cbn; by rewrite app_nil_r, <- !(assoc_L (++))].
      apply list.Forall_app. split; [done|]. constructor; [apply shaped_mkBranch; [apply list.Forall_app; split; [done|by constructor]|rewrite length_app; cbn [length]; lia]|]. constructor; [apply shaped_mkBranch; [done|lia]|done]. }
    destruct (splitLast_cases ls) as [->|(ls' & lt & ->)].
    + cbn [splitLast reverse]. destruct rs as [|rt rs']; [cbn [length] in Hn; destruct path; lia|]. pose proof Hrs as [Hrt Hrs']%list.Forall_cons. destruct (shaped_children n rt Hrt) as (rcs & Er & -> & Hrc & Hrl). cbn [mbind option_bind app]. rewrite Er. cbn [mbind option_bind]. destruct rcs as [|c rcs]; [cbn [length] in Hrl; lia|].
      destruct (Nat.ltb_spec minBranch (length (c :: rcs))) as [Hlt'|Hge']; [by apply (Hright c rcs rs')|]. apply Hrec; [|done|cbn [map concat app]; by rewrite !leaves_mkBranch, map_app, concat_app, <- !(assoc_L (++))].
      constructor; [apply shaped_mkBranch; [by apply list.Forall_app|rewrite length_app; cbn [length] in *; lia]|done].
    + apply list.Forall_app in Hls as [Hls' Hlt2]. apply list.Forall_cons in Hlt2 as [Hlt2 _]. destruct (shaped_children n lt Hlt2) as (lcs & El & -> & Hlc & Hll). rewrite splitLast_snoc. cbn [mbind option_bind]. rewrite El. cbn [mbind option_bind].
      assert (Hmerge : exists t m, rebalanceBranch (ls' ++ mkBranch (lcs ++ cs) :: rs) path = Ok t /\ root_shaped m t /\ leaves t = around path (concat (map leaves (ls' ++ [mkBranch lcs])) ++ concat (map leaves cs) ++ concat (map leaves rs)) \/ minBranch < length lcs).
      { destruct (Nat.lt_ge_cases minBranch (length lcs)) as [?|Hle]; [exists (mkBranch []), 0; by right|]. destruct (Hrec (ls' ++ mkBranch (lcs ++ cs) :: rs)) as (t & m & H1 & H2 & H3); [|rewrite !length_app; cbn [length]; lia|rewrite children_one, leaves_mkBranch, !map_app, !concat_app; cbn; by rewrite app_nil_r, <- !(assoc_L (++))|exists t, m; left; by split_and!].
        apply list.Forall_app. split; [done|]. constructor; [|done]. apply shaped_mkBranch; [by apply list.Forall_app|rewrite length_app; lia]. }
      destruct (Nat.ltb_spec minBranch (length lcs)) as [Hbig|Hsmall].
      * destruct (splitLast_cases lcs) as [->|(lcs' & c & ->)]; [cbn [length] in Hll; lia|]. rewrite splitLast_snoc. rewrite length_app in Hbig, Hll. cbn [length] in Hbig, Hll. apply list.Forall_app in Hlc as [Hlc Hcc]. apply list.Forall_cons in Hcc as [Hcc _].
        apply Hsame; [|rewrite !length_app; cbn [length]; lia|rewrite children_two, !leaves_mkBranch, !map_app, !concat_app; cbn; rewrite !app_nil_r, map_app, concat_app; cbn; by rewrite app_nil_r, <- !(assoc_L (++))].
        apply list.Forall_app. split; [done|]. constructor; [apply shaped_mkBranch; [done|lia]|]. constructor; [apply shaped_mkBranch; [by constructor|cbn [length]; lia]|done].
      * destruct Hmerge as (t & m & [Hmerge|?]); [|lia]. destruct rs as [|rt rs']; [by exists t, m|]. pose proof Hrs as [Hrt Hrs']%list.Forall_cons. destruct (shaped_children n rt Hrt) as (rcs & Er & -> & Hrc & Hrl). rewrite Er. cbn [mbind option_bind]. destruct rcs as [|c rcs]; [by exists t, m|].
        destruct (Nat.ltb_spec minBranch (length (c :: rcs))) as [Hlt'|Hge']; [by apply (Hright c rcs rs')|by exists t, m].
Qed.

(** What the rebalancing of a leaf does to the sequence of leaves. *)
Inductive leaf_step (id : nat) (items : list A) : list (nat * list A) -> list (nat * list A) -> nat -> option nat -> Prop :=
| borrow_left L lid litems x R : minLeaf <= length litems ->
    leaf_step id items (L ++ (lid, litems ++ [x]) :: (id, items) :: R) (L ++ (lid, litems) :: (id, x :: items) :: R) id None
| borrow_right L rid x ritems R : minLeaf <= length ritems ->
    leaf_step id items (L ++ (id, items) :: (rid, x :: ritems) :: R) (L ++ (id, items ++ [x]) :: (rid, ritems) :: R) id None
| merge_left L lid litems R : length litems <= minLeaf ->
    leaf_step id items (L ++ (lid, litems) :: (id, items) :: R) (L ++ (lid, litems ++ items) :: R) lid (Some id)
| merge_right L rid ritems R : length ritems <= minLeaf ->
    leaf_step id items (L ++ (id, items) :: (rid, ritems) :: R) (L ++ (id, items ++ ritems) :: R) id (Some rid).

Lemma shaped_mkLeaf id items : shaped 0 (mkLeaf id items).
Proof. done. Qed.

Lemma rebalanceLeaf_spec id items ls rs path : path_shaped 0 ((ls, rs) :: path) ->
  exists t m s g, rebalanceLeaf id items ((ls, rs) :: path) = Ok (t, s, g) /\ root_shaped m t /\ leaf_step id items (around ((ls, rs) :: path) [(id, items)]) (leaves t) s g.
Proof.
  intros (Hls & Hrs & Hn & Hp). pose proof minBranch_bounds as [Hm1 Hm2]. cbn [rebalanceLeaf]. rewrite around_frame.
  (** borrowing keeps the number of children, merging takes one *)
  assert (Hsame : forall cs s, Forall (shaped 0) cs -> length cs = length ls + 1 + length rs -> leaf_step id items (around path (concat (map leaves ls) ++ [(id, items)] ++ concat (map leaves rs))) (around path (concat (map leaves cs))) s None ->
    exists t m s' g, Ok (plug (mkBranch cs) path, s, None) = Ok (t, s', g) /\ root_shaped m t /\ leaf_step id items (around path (concat (map leaves ls) ++ [(id, items)] ++ concat (map leaves rs))) (leaves t) s' g).
  { intros cs s Hf Hlen Hstep. destruct (plug_children 0 cs path Hf) as (m & Hm & El); [destruct path; lia|done|]. eexists _, m, s, None. split_and!; [reflexivity|done|by rewrite El]. }
  assert (Hless : forall cs s g, Forall (shaped 0) cs -> length cs = length ls + length rs -> leaf_step id items (around path (concat (map leaves ls) ++ [(id, items)] ++ concat (map leaves rs))) (around path (concat (map leaves cs))) s (Some g) ->
    exists t m s' g', match rebalanceBranch cs path with Ok t => Ok (t, s, Some g) | Err e => Err e end = Ok (t, s', g') /\ root_shaped m t /\ leaf_step id items (around path (concat (map leaves ls) ++ [(id, items)] ++ concat (map leaves rs))) (leaves t) s' g').
  { intros cs s g Hf Hlen Hstep. destruct (rebalanceBranch_spec path 0 cs Hf) as (t & m & -> & Hm & El); [unfold lean; destruct path; lia|done|]. exists t, m, s, (Some g). split_and!; [done|done|by rewrite El]. }
  assert (Ea : forall L M R, around path (L ++ M ++ R) = (leftLeaves path ++ L) ++ M ++ R ++ rightLeaves path) by (intros; unfold around; by rewrite <- !(assoc_L (++))).
  assert (Hright : forall rid x r rs', rs = mkLeaf rid (x :: r) :: rs' -> minLeaf < length (x :: r) ->
    exists t m s' g', Ok (plug (mkBranch (ls ++ mkLeaf id (items ++ [x]) :: mkLeaf rid r :: rs')) path, id, None) = Ok (t, s', g') /\ root_shaped m t /\ leaf_step id items (around path (concat (map leaves ls) ++ [(id, items)] ++ concat (map leaves rs))) (leaves t) s' g').
  { intros rid x r rs' -> Hlr. apply list.Forall_cons in Hrs as [_ Hrs']. apply Hsame; [apply list.Forall_app; split; [done|]; repeat (constructor; [apply shaped_mkLeaf|]); done|rewrite length_app; cbn [length]; lia|]. rewrite children_two, !Ea. cbn [concat map leaves app mkLeaf]. apply borrow_right. cbn [length] in Hlr. lia. }
  destruct (splitLast_cases ls) as [->|(ls' & lt & ->)].
  - cbn [splitLast reverse mbind option_bind]. destruct rs as [|rt rs']; [cbn [length] in Hn; destruct path; lia|]. pose proof Hrs as [Hrt Hrs']%list.Forall_cons. destruct (shaped_leaf rt Hrt) as (rid & ritems & Er & ->). cbn [mbind option_bind app]. rewrite Er. cbn [mbind option_bind].
    assert (Hmr : exists t m s' g', match rebalanceBranch (mkLeaf id (items ++ ritems) :: rs') path with Ok t => Ok (t, id, Some rid) | Err e => Err e end = Ok (t, s', g') /\ root_shaped m t /\ leaf_step id items (around path (concat (map leaves ([] : list node)) ++ [(id, items)] ++ concat (map leaves (mkLeaf rid ritems :: rs')))) (leaves t) s' g' \/ minLeaf < length ritems).
    { destruct (Nat.lt_ge_cases minLeaf (length ritems)) as [?|Hle]; [exists (mkBranch []), 0, 0, None; by right|]. destruct (Hless (mkLeaf id (items ++ ritems) :: rs') id rid) as (t & m & s & g & Ht); [constructor; [apply shaped_mkLeaf|done]|done| |exists t, m, s, g; by left]. rewrite !Ea. unfold around. cbn. rewrite app_nil_r. by apply merge_right. }
    destruct ritems as [|x r]; [destruct Hmr as (t & m & s & g & [Hmr|Hx]); [rewrite app_nil_r in Hmr; by exists t, m, s, g|cbn [length] in Hx; lia]|]. destruct (Nat.ltb_spec minLeaf (length (x :: r))) as [Hlt|Hge]; [by apply (Hright rid x r rs')|]. destruct Hmr as (t & m & s & g & [Hmr|?]); [by exists t, m, s, g|lia].
  - apply list.Forall_app in Hls as [Hls' Hlt]. apply list.Forall_cons in Hlt as [Hlt _]. destruct (shaped_leaf lt Hlt) as (lid & litems & El & ->). rewrite splitLast_snoc. cbn [mbind option_bind]. rewrite El. cbn [mbind option_bind].
    assert (El2 : concat (map leaves (ls' ++ [mkLeaf lid litems])) = concat (map leaves ls') ++ [(lid, litems)]) by (rewrite map_app, concat_app; done).
    assert (Hml : exists t m s' g', match rebalanceBranch (ls' ++ mkLeaf lid (litems ++ items) :: rs) path with Ok t => Ok (t, lid, Some id) | Err e => Err e end = Ok (t, s', g') /\ root_shaped m t /\ leaf_step id items (around path (concat (map leaves (ls' ++ [mkLeaf lid litems])) ++ [(id, items)] ++ concat (map leaves rs))) (leaves t) s' g' \/ minLeaf < length litems).
    { destruct (Nat.lt_ge_cases minLeaf (length litems)) as [?|Hle]; [exists (mkBranch []), 0, 0, None; by right|]. destruct (Hless (ls' ++ mkLeaf lid (litems ++ items) :: rs) lid id) as (t & m & s & g & Ht); [apply list.Forall_app; split; [done|]; constructor; [apply shaped_mkLeaf|done]|rewrite !length_app; cbn [length]; lia| |exists t, m, s, g; by left].
      rewrite El2, children_one, !Ea. rewrite <- !(assoc_L (++)). cbn [leaves app mkLeaf]. rewrite !(assoc_L (++)). by apply merge_left. }
    destruct (Nat.ltb_spec minLeaf (length litems)) as [Hbig|Hsmall].
    + destruct (splitLast_cases litems) as [->|(l' & x & ->)]; [cbn [length] in Hbig; lia|]. rewrite splitLast_snoc. rewrite length_app in Hbig. cbn [length] in Hbig. apply Hsame; [apply list.Forall_app; split; [done|]; repeat (constructor; [apply shaped_mkLeaf|]); done|rewrite !length_app; cbn [length]; lia|].
      rewrite El2, children_two, !Ea. rewrite <- !(assoc_L (++)). cbn [leaves app mkLeaf]. rewrite !(assoc_L (++)). apply borrow_left. lia.
    + destruct Hml as (t & m & s & g & [Hml|?]); [|lia]. destruct rs as [|rt rs']; [by exists t, m, s, g|]. pose proof Hrs as [Hrt Hrs']%list.Forall_cons. destruct (shaped_leaf rt Hrt) as (rid & ritems & Er & ->). rewrite Er. cbn [mbind option_bind]. destruct ritems as [|x r]; [by exists t, m, s, g|].
      destruct (Nat.ltb_spec minLeaf (length (x :: r))) as [Hlt'|Hge']; [by apply (Hright rid x r rs')|by exists t, m, s, g].
Qed.

(** *** The path to a leaf *)
Fixpoint among (id : nat) (path : list frame) (ls rs : list node) : option (list A * list frame) :=
  match rs with [] => None | c :: rs' => match locate id c ((ls, rs') :: path) with Some r => Some r | None => among id path (ls ++ [c]) rs' end end.

Lemma locate_branch id cs g path : locate id (Branch cs g) path = among id path [] cs.
Proof.
  cbn [locate]. match goal with |- ?F [] cs = _ => assert (Hf : forall ls, F ls cs = among id path ls cs) end; [|apply Hf].
  induction cs as [|c cs IH]; intros ls; [done|]. cbn [among]. destruct (locate id c ((ls, cs) :: path)); [done|apply IH].
Qed.

Lemma among_sound id path n : (forall t path its p, in_place n t path -> path_shaped n path -> locate id t path = Some (its, p) -> path_shaped 0 p /\ around p [(id, its)] = around path (leaves t)) ->
  path_shaped (S n) path -> forall rs ls its p, Forall (shaped n) ls -> Forall (shaped n) rs -> match path with [] => 2 | _ => minBranch end <= length ls + length rs <= branchLimit ->
  among id path ls rs = Some (its, p) -> path_shaped 0 p /\ around p [(id, its)] = around path (concat (map leaves (ls ++ rs))).
Proof.
  intros IHn Hp. induction rs as [|c rs IH]; intros ls its p Hl Hr Hn; [done|]. cbn [among]. apply list.Forall_cons in Hr as [Hc Hr]. cbn [length] in Hn. destruct (locate id c ((ls, rs) :: path)) as [[its' p']|] eqn:E.
  - intros [= -> ->]. apply (IHn c ((ls, rs) :: path)) in E as [E1 E2]; [|done|cbn [path_shaped]; split_and!; (done || lia)]. split; [done|]. rewrite E2, around_frame, children_one. done.
  - intros Ha. apply IH in Ha; [|apply list.Forall_app; split; [done|by constructor]|done|rewrite length_app; cbn [length]; lia]. by rewrite <- (assoc_L (++)) in Ha.
Qed.

Lemma locate_sound id n : forall t path its p, in_place n t path -> path_shaped n path -> locate id t path = Some (its, p) -> path_shaped 0 p /\ around p [(id, its)] = around path (leaves t).
Proof.
  induction n as [|n IH]; intros t path its p Ht Hp E.
  - destruct t as [i items g|cs g]; [|by destruct path]. cbn in E. destruct (Nat.eqb_spec i id) as [->|]; [|done]. by injection E as <- <-.
  - destruct t as [|cs g]; [by destruct path|]. rewrite locate_branch in E. assert (Hc : match path with [] => 2 | _ => minBranch end <= length cs <= branchLimit /\ Forall (shaped n) cs) by (destruct path; cbn [in_place root_shaped shaped] in Ht; naive_solver). destruct Hc as [Hc1 Hc2].
    apply (among_sound id path n IH Hp) in E; [done|constructor|done|done].
Qed.

Lemma locate_complete id n : forall t path, in_place n t path -> id ∈ (leaves t).*1 -> is_Some (locate id t path).
Proof.
  induction n as [|n IH]; intros t path Ht Hid.
  - destruct t as [i items g|cs g]; [|by destruct path]. cbn in Hid. apply list_elem_of_singleton in Hid as ->. cbn. rewrite Nat.eqb_refl. by eexists.
  - destruct t as [|cs g]; [by destruct path|]. rewrite locate_branch. assert (Hc : Forall (shaped n) cs) by (destruct path; cbn [in_place root_shaped shaped] in Ht; naive_solver). clear Ht. cbn [leaves] in Hid. generalize (@nil node) as ls. induction cs as [|c cs IHc]; intros ls; [by apply not_elem_of_nil in Hid|]. cbn [among]. apply list.Forall_cons in Hc as [Hc Hcs]. cbn in Hid. rewrite fmap_app, elem_of_app in Hid.
    destruct (locate id c ((ls, cs) :: path)) as [r|] eqn:E; [by eexists|]. apply IHc; [|done]. destruct Hid as [Hid|?]; [|done]. destruct (IH c ((ls, cs) :: path) Hc Hid) as [? ?]. congruence.
Qed.

Lemma locate_none id n : forall t path, in_place n t path -> id ∉ (leaves t).*1 -> locate id t path = None.
Proof.
  induction n as [|n IH]; intros t path Ht Hid.
  - destruct t as [i items g|cs g]; [|by destruct path]. cbn in *. destruct (Nat.eqb_spec i id) as [->|]; [|done]. exfalso. apply Hid. by left.
  - destruct t as [|cs g]; [by destruct path|]. rewrite locate_branch. assert (Hc : Forall (shaped n) cs) by (destruct path; cbn [in_place root_shaped shaped] in Ht; naive_solver). clear Ht. cbn [leaves] in Hid. generalize (@nil node) as ls. induction cs as [|c cs IHc]; intros ls; [done|]. cbn [among]. apply list.Forall_cons in Hc as [Hc Hcs]. cbn in Hid. rewrite fmap_app, elem_of_app in Hid.
    rewrite (IH c ((ls, cs) :: path) Hc) by tauto. apply IHc; [tauto|done].
Qed.

End Tree.
