(* ===== verification/StructTreeOps.v ===== *)
(** * The operations of the tree of a large client

    Models the operations of crdt/client_struct_tree.go on the nodes of StructTree.v:
    construction from a slice, appending, insertion, replacement and removal, the
    cursors and the lookups by clock and by position. The list of leaves that the code
    links with [prev] and [next] is the list of their addresses. *)
From stdpp Require Import list.
From Stdlib Require Import ZArith Lia.
From S2P Require Import Prelude StructStore StructTree.
Open Scope nat_scope.

Section Operations.
Context {A : Type} `{AbstractStruct A} `{EqDecision A}.
Context (leafLimit branchLimit : nat) (interpolate : Z -> Z -> Z -> Z).
Abbreviation tnode := (@node A).
Abbreviation minLeaf := (minLeaf leafLimit).

Definition clockOf (a : A) : Z := Clock (getID a).

Record clientStructTree := mkTree {
  ct_root : option tnode;
  ct_chain : list nat;              (* first ... last *)
  ct_structs : nat;
  ct_generation : nat;
  ct_next : nat                     (* the next fresh address *)
}.

(** The address of a leaf, a slot in it, and the generation of the tree. *)
Record treeCursor := mkTreeCursor { tc_leaf : nat; tc_slot : nat; tc_generation : nat }.

Definition emptyTree : clientStructTree := mkTree None [] 0 0 0.

(** The limits that the fixed storage of the nodes allows. *)
Definition newClientStructTree : result clientStructTree :=
  if (leafLimit <? 2) || (65 <=? leafLimit) || (branchLimit <? 3) || (33 <=? branchLimit) then Err ErrPanic else Ok emptyTree.

Definition cursorAt (t : clientStructTree) (leaf slot : nat) : treeCursor := mkTreeCursor leaf slot (ct_generation t).

(** A leaf of the tree with the path to the root; a leaf that was unlinked has none. *)
Definition leafPath (t : clientStructTree) (id : nat) : option (list A * list frame) := r ← ct_root t; locate id r [].
Definition leafItems (t : clientStructTree) (id : nat) : list A := from_option fst [] (leafPath t id).

(** The leaf of a cursor with its path, if the cursor is valid. *)
Definition atCursor (t : clientStructTree) (c : treeCursor) : option (list A * list frame) :=
  r ← leafPath t (tc_leaf c);
  if (tc_generation c =? ct_generation t) && (tc_slot c <? length r.1) then Some r else None.

Definition Valid (t : clientStructTree) (c : treeCursor) : bool := match atCursor t c with Some _ => true | None => false end.

Definition Value (t : clientStructTree) (c : treeCursor) : result A :=
  match atCursor t c with Some (items, _) => match items !! tc_slot c with Some a => Ok a | None => Err ErrPanic end | None => Err ErrPanic end.

(** ** The list of leaves *)
Definition position (id : nat) (chain : list nat) : option nat := fst <$> list_find (fun x => x = id) chain.
Definition nextLeaf (chain : list nat) (id : nat) : option nat := i ← position id chain; chain !! S i.
Definition prevLeaf (chain : list nat) (id : nat) : option nat := i ← position id chain; match i with O => None | S j => chain !! j end.

Fixpoint linkAfter (id new : nat) (chain : list nat) : list nat :=
  match chain with [] => [] | x :: chain' => if (x =? id)%nat then x :: new :: chain' else x :: linkAfter id new chain' end.
Definition unlinkLeaf (id : nat) (chain : list nat) : list nat := filter (fun x => x <> id) chain.

Definition Next (t : clientStructTree) (c : treeCursor) : result (option treeCursor) :=
  match atCursor t c with
  | None => Err ErrPanic
  | Some (items, _) =>
      if tc_slot c + 1 <? length items then Ok (Some (cursorAt t (tc_leaf c) (tc_slot c + 1)))
      else Ok ((fun id => cursorAt t id 0) <$> nextLeaf (ct_chain t) (tc_leaf c))
  end.

Definition Prev (t : clientStructTree) (c : treeCursor) : result (option treeCursor) :=
  match atCursor t c with
  | None => Err ErrPanic
  | Some _ =>
      match tc_slot c with
      | S slot => Ok (Some (cursorAt t (tc_leaf c) slot))
      | O => Ok ((fun id => cursorAt t id (length (leafItems t id) - 1)) <$> prevLeaf (ct_chain t) (tc_leaf c))
      end
  end.

Definition First (t : clientStructTree) : option treeCursor := (fun id => cursorAt t id 0) <$> head (ct_chain t).
Definition Last (t : clientStructTree) : option treeCursor := (fun id => cursorAt t id (length (leafItems t id) - 1)) <$> list.last (ct_chain t).
Definition Len (t : clientStructTree) : nat := ct_structs t.
Definition TreeSnapshot (t : clientStructTree) : list A := concat (leafItems t <$> ct_chain t).

(** ** Construction *)

(** [clientStructTreePartition]. *)
Definition partition (total maximum : nat) : list nat :=
  if total =? 0 then []
  else
    let groups := (total + maximum - 1) / maximum in
    let base := total / groups in
    let extra := total mod groups in
    (fun i => if i <? extra then base + 1 else base) <$> seq 0 groups.

Fixpoint chunks {B} (sizes : list nat) (l : list B) : list (list B) :=
  match sizes with [] => [] | n :: sizes' => take n l :: chunks sizes' (drop n l) end.

(** One level of branches after the other, until there is a root. *)
Fixpoint levels (fuel : nat) (nodes : list tnode) : option tnode :=
  match nodes with
  | [] => None
  | [root] => Some root
  | _ => match fuel with O => None | S fuel' => levels fuel' (mkBranch <$> chunks (partition (length nodes) branchLimit) nodes) end
  end.

Definition newClientStructTreeFromFlat (values : list A) : clientStructTree :=
  let groups := chunks (partition (length values) leafLimit) values in
  let nodes := imap (fun id items => mkLeaf struct_end id items) groups in
  mkTree (levels (length nodes) nodes) (seq 0 (length groups)) (length values) 0 (length groups).

(** ** Appending, insertion, replacement *)
Definition Append (value : A) (t : clientStructTree) : result (treeCursor * clientStructTree) :=
  match ct_root t, list.last (ct_chain t) with
  | None, _ => Ok (cursorAt t (ct_next t) 0, mkTree (Some (mkLeaf struct_end (ct_next t) [value])) [ct_next t] 1 (ct_generation t) (ct_next t + 1))
  | Some _, Some last =>
      match leafPath t last with
      | None => Err ErrPanic
      | Some (items, path) =>
          if length items <? leafLimit then
            Ok (cursorAt t last (length items), mkTree (Some (plug (mkLeaf struct_end last (items ++ [value])) path)) (ct_chain t) (ct_structs t + 1) (ct_generation t) (ct_next t))
          else
            let right := ct_next t in
            Ok (cursorAt t right 0,
                mkTree (Some (insertSiblingAfter branchLimit (mkLeaf struct_end last items) (mkLeaf struct_end right [value]) path)) (ct_chain t ++ [right]) (ct_structs t + 1) (ct_generation t) (right + 1))
      end
  | Some _, None => Err ErrPanic
  end.

Definition InsertAfter (c : treeCursor) (value : A) (t : clientStructTree) : result (treeCursor * clientStructTree) :=
  match atCursor t c with
  | None => Err ErrPanic
  | Some (items, path) =>
      let leaf := tc_leaf c in
      let slot := tc_slot c + 1 in
      let items := take slot items ++ value :: drop slot items in
      let generation := ct_generation t + 1 in
      if length items <=? leafLimit then
        Ok (mkTreeCursor leaf slot generation, mkTree (Some (plug (mkLeaf struct_end leaf items) path)) (ct_chain t) (ct_structs t + 1) generation (ct_next t))
      else
        let split := length items / 2 in
        let right := ct_next t in
        Ok ((if slot <? split then mkTreeCursor leaf slot generation else mkTreeCursor right (slot - split) generation),
            mkTree (Some (insertSiblingAfter branchLimit (mkLeaf struct_end leaf (take split items)) (mkLeaf struct_end right (drop split items)) path))
              (linkAfter leaf right (ct_chain t)) (ct_structs t + 1) generation (right + 1))
  end.

Definition Replace (c : treeCursor) (value : A) (t : clientStructTree) : result clientStructTree :=
  match atCursor t c with
  | None => Err ErrPanic
  | Some (items, path) => Ok (mkTree (Some (plug (mkLeaf struct_end (tc_leaf c) (<[tc_slot c := value]> items)) path)) (ct_chain t) (ct_structs t) (ct_generation t) (ct_next t))
  end.

(** ** Lookups *)

(** [sort.Search]. *)
Fixpoint sortSearch (fuel : nat) (f : nat -> bool) (i j : nat) : nat :=
  match fuel with
  | O => i
  | S fuel' => if i <? j then let h := (i + j) / 2 in if f h then sortSearch fuel' f i h else sortSearch fuel' f (h + 1) j else i
  end.

Fixpoint findLeafIn (fuel : nat) (clock : Z) (t : tnode) : option nat :=
  match fuel with
  | O => None
  | S fuel' =>
      match t with
      | Leaf id _ _ => Some id
      | Branch cs _ =>
          let index := sortSearch (S (length cs)) (fun i => match cs !! i with Some c => (clock <? g_endClock (nodeAgg c))%Z | None => false end) 0 (length cs) in
          c ← cs !! index; findLeafIn fuel' clock c
      end
  end.

(** The depth of the tree along the first children. *)
Fixpoint depth (t : tnode) : nat := match t with Leaf _ _ _ => 1 | Branch cs _ => match cs with [] => 1 | c :: _ => S (depth c) end end.

Definition findLeaf (clock : Z) (t : clientStructTree) : option nat := r ← ct_root t; findLeafIn (depth r) clock r.

(** The leaves from a leaf on. *)
Definition leavesFrom (id : nat) (chain : list nat) : list nat := match position id chain with Some i => drop i chain | None => [] end.

Fixpoint findLoop (t : clientStructTree) (clock : Z) (ids : list nat) : result treeCursor :=
  match ids with
  | [] => Err ErrNotFound
  | id :: ids' =>
      match findIndexSS interpolate (leafItems t id) clock with
      | Ok index => Ok (cursorAt t id (Z.to_nat index))
      | Err _ =>
          match ids' with
          | next :: _ => match leafItems t next with a :: _ => if (clock <? clockOf a)%Z then Err ErrNotFound else findLoop t clock ids' | [] => Err ErrNotFound end
          | [] => Err ErrNotFound
          end
      end
  end.

Definition Find (clock : Z) (t : clientStructTree) : result treeCursor :=
  match findLeaf clock t with Some id => findLoop t clock (leavesFrom id (ct_chain t)) | None => Err ErrNotFound end.

(** The slots of one leaf: found, given up, or not here. *)
Fixpoint findSlot (value : A) (slot : nat) (items : list A) : option (option nat) :=
  match items with
  | [] => None
  | candidate :: items' => if (clockOf value <? clockOf candidate)%Z then Some None else if decide (candidate = value) then Some (Some slot) else findSlot value (slot + 1) items'
  end.

Fixpoint findValueLoop (t : clientStructTree) (value : A) (ids : list nat) : option treeCursor :=
  match ids with
  | [] => None
  | id :: ids' => match findSlot value 0 (leafItems t id) with Some (Some slot) => Some (cursorAt t id slot) | Some None => None | None => findValueLoop t value ids' end
  end.

Definition findValue (value : A) (t : clientStructTree) : option treeCursor :=
  id ← findLeaf (clockOf value) t; findValueLoop t value (leavesFrom id (ct_chain t)).

Fixpoint childAt (cs : list tnode) (pos : nat) : option (tnode * nat) :=
  match cs with [] => None | c :: cs' => if pos <? g_structs (nodeAgg c) then Some (c, pos) else childAt cs' (pos - g_structs (nodeAgg c)) end.

Fixpoint atIn (fuel : nat) (t : tnode) (pos : nat) : option (nat * nat) :=
  match fuel with
  | O => None
  | S fuel' => match t with Leaf id _ _ => Some (id, pos) | Branch cs _ => '(c, pos) ← childAt cs pos; atIn fuel' c pos end
  end.

Definition At (pos : nat) (t : clientStructTree) : option treeCursor :=
  if ct_structs t <=? pos then None else r ← ct_root t; '(id, slot) ← atIn (depth r) r pos; Some (cursorAt t id slot).

(** [Index] adds up the siblings to the left along the path. *)
Fixpoint pathStructs (path : list (@frame A)) : nat :=
  match path with [] => 0 | (ls, _) :: path' => foldr (fun c n => g_structs (nodeAgg c) + n) 0 ls + pathStructs path' end.

Definition Index (c : treeCursor) (t : clientStructTree) : result nat :=
  match atCursor t c with None => Err ErrPanic | Some (_, path) => Ok (tc_slot c + pathStructs path) end.

(** ** Removal *)

(** [rangeLengthAndSuccessor]: the answer false is [None]. *)
Fixpoint rangeLoop (fuel : nat) (t : clientStructTree) (len : nat) (c last : treeCursor) : result (option (nat * option A)) :=
  match fuel with
  | O => Err ErrPanic
  | S fuel' =>
      match Next t c with
      | Err e => Err e
      | Ok next =>
          if (tc_leaf c =? tc_leaf last) && (tc_slot c =? tc_slot last) then
            match next with
            | None => Ok (Some (len + 1, None))
            | Some n => match Value t n with Ok a => Ok (Some (len + 1, Some a)) | Err e => Err e end
            end
          else match next with None => Ok None | Some n => rangeLoop fuel' t (len + 1) n last end
      end
  end.

(** The compaction of the leaves between the cursors; the items of each of them. *)
Fixpoint compactLoop (t : clientStructTree) (first last : treeCursor) (ids : list nat) : option (list (nat * list A)) :=
  match ids with
  | [] => None
  | id :: ids' =>
      let items := leafItems t id in
      let start := if (id =? tc_leaf first)%nat then tc_slot first else 0 in
      let end_ := if (id =? tc_leaf last)%nat then tc_slot last + 1 else length items in
      let items' := take start items ++ drop end_ items in
      if (id =? tc_leaf last)%nat then Some [(id, items')] else rest ← compactLoop t first last ids'; Some ((id, items') :: rest)
  end.

Definition newItems (m : list (nat * list A)) (id : nat) : option (list A) := snd <$> (snd <$> list_find (fun x => x.1 = id) m).

(** The leaves get their items; nothing is refreshed. *)
Fixpoint setLeaves (m : list (nat * list A)) (t : tnode) : tnode :=
  match t with
  | Leaf id items g => Leaf id (default items (newItems m id)) g
  | Branch cs g => Branch (map (setLeaves m) cs) g
  end.

Fixpoint hasLeaf (ids : list nat) (t : tnode) : bool :=
  match t with Leaf id _ _ => bool_decide (id ∈ ids) | Branch cs _ => existsb (hasLeaf ids) cs end.

(** [refreshTouchedLeaves]: these leaves and every branch above one of them. *)
Fixpoint refreshTouched (ids : list nat) (t : tnode) : tnode :=
  match t with
  | Leaf id items g => if bool_decide (id ∈ ids) then mkLeaf struct_end id items else t
  | Branch cs g => if existsb (hasLeaf ids) cs then mkBranch (map (refreshTouched ids) cs) else t
  end.

Definition neighbours (chain : list nat) (id : nat) : list (option nat) := [prevLeaf chain id; Some id; nextLeaf chain id].

(** The queue of leaves to look at. [None] is a lack of fuel. *)
Fixpoint rebalanceLoop (fuel : nat) (queue : list (option nat)) (root : tnode) (chain : list nat) : option (result (tnode * list nat)) :=
  match queue with
  | [] => Some (Ok (root, chain))
  | candidate :: queue' =>
      match fuel with
      | O => None
      | S fuel' =>
          match candidate with
          | None => rebalanceLoop fuel' queue' root chain
          | Some id =>
              match locate id root [] with
              | Some (items, (_ :: _) as path) =>
                  if minLeaf <=? length items then rebalanceLoop fuel' queue' root chain
                  else
                    match rebalanceLeaf struct_end leafLimit branchLimit id items path with
                    | Err e => Some (Err e)
                    | Ok (root', survivor, gone) =>
                        let chain' := match gone with Some g => unlinkLeaf g chain | None => chain end in
                        rebalanceLoop fuel' (queue' ++ neighbours chain' survivor) root' chain'
                    end
              | _ => rebalanceLoop fuel' queue' root chain
              end
          end
      end
  end.

(** Rebalancing ends: a step borrows an item for a leaf that lacks some, or takes a
    leaf away. *)
Definition rebalanceFuel (queue : list (option nat)) (chain : list nat) : nat := length queue + 4 * (length chain * (minLeaf + 1)).

Definition Remove (first last : treeCursor) (t : clientStructTree) : option (result (option treeCursor * clientStructTree)) :=
  match atCursor t first, atCursor t last, ct_root t with
  | Some _, Some _, Some root =>
      match rangeLoop (ct_structs t) t 0 first last with
      | Err e => Some (Err e)
      | Ok None => Some (Err ErrPanic)
      | Ok (Some (removed, successor)) =>
          match compactLoop t first last (leavesFrom (tc_leaf first) (ct_chain t)) with
          | None => Some (Err ErrPanic)
          | Some m =>
              let before := match tc_slot first, prevLeaf (ct_chain t) (tc_leaf first) with O, Some p => [p] | _, _ => [] end in
              let touched := before ++ m.*1 in
              let structs := ct_structs t - removed in
              let generation := ct_generation t + 1 in
              if structs =? 0 then Some (Ok (None, mkTree None [] 0 generation (ct_next t)))
              else
                let root := refreshTouched touched (setLeaves m root) in
                let queue := touched ≫= neighbours (ct_chain t) in
                r ← rebalanceLoop (rebalanceFuel queue (ct_chain t)) queue root (ct_chain t);
                match r with
                | Err e => Some (Err e)
                | Ok (root, chain) =>
                    let t' := mkTree (Some root) chain structs generation (ct_next t) in
                    match successor with
                    | None => Some (Ok (None, t'))
                    | Some a => match findValue a t' with Some c => Some (Ok (Some c, t')) | None => Some (Err ErrPanic) end
                    end
                end
          end
      end
  | _, _, _ => Some (Err ErrPanic)
  end.

(** ** Deleted ranges *)

(** The loop with its open run. *)
Fixpoint runsLoop (run : option (Z * Z)) (dst : list (Z * Z)) (l : list A) : list (Z * Z) :=
  match l with
  | [] => match run with Some r => dst ++ [r] | None => dst end
  | value :: l' =>
      if structDeleted value then runsLoop (Some match run with Some (clock, len) => (clock, len + structLength value)%Z | None => (clockOf value, structLength value) end) dst l'
      else runsLoop None (match run with Some r => dst ++ [r] | None => dst end) l'
  end.

Definition treeDeletedRanges (t : clientStructTree) : list (Z * Z) := runsLoop None [] (TreeSnapshot t).

Definition treeDeletedRangeCount (t : clientStructTree) : nat :=
  (fold_left (fun '(ranges, inRun) value => let deleted := structDeleted value in (if deleted && negb inRun then ranges + 1 else ranges, deleted)) (TreeSnapshot t) (0, false)).1.

End Operations.
