(* ===== verification/Registry.v ===== *)
(** * The document registry

    Models [backend/memory/registry.go]: the in-process registry that hands out
    one live document per id. The registry is shared by goroutines that
    synchronise on [r.mu] and on channels, so it is modelled as a heap of
    generations ([entry], one per cache miss, addressed by a number in place of
    the Go pointer) together with a list of goroutines, each at a program point
    between two critical sections. One critical section is one function on the
    registry ([dropWaiterLocked], [finalizeLocked], ...), and [step]
    interleaves them in any order. A channel is the boolean "is closed";
    closing a closed channel, calling a method of a nil document and releasing
    without a reference are Go panics, modelled as [None] and made visible in
    the [panicked] flag of the world.

    The theorems say that no interleaving panics, that the document under an
    outstanding handle has never been destroyed, that a document is destroyed
    at most once, that two handles of one id that have not been invalidated
    share their generation, and that a quiescent registry leaks nothing. *)
From stdpp Require Import strings.
From S2P Require Import Prelude.

(** ** State *)
Inductive regError : Type :=
| ErrCtx                (* ctx.Err() of the caller *)
| ErrClosed
| ErrInUse
| ErrInvalidDocument
| ErrOpen (code : Z).   (* an error of the OpenFunc *)

(** A generation. [destroys] counts the calls of [doc.Destroy()] and is not
    read by the code; [e_id] is the id it was created for. *)
Record entry := mkEntry {
  e_id : string;
  ready : bool;
  invalidated : bool;
  done : bool;
  openCancelled : bool;
  waiters : Z;
  claimed : bool;
  e_doc : option Z;
  e_err : option regError;
  refs : Z;
  closing : bool;
  poisoned : bool;
  destroying : bool;
  destroys : Z;
}.

Definition set_ready (v : bool) (e : entry) : entry :=
  mkEntry (e_id e) v (invalidated e) (done e) (openCancelled e) (waiters e) (claimed e) (e_doc e) (e_err e) (refs e) (closing e) (poisoned e) (destroying e) (destroys e).
Definition set_invalidated (v : bool) (e : entry) : entry :=
  mkEntry (e_id e) (ready e) v (done e) (openCancelled e) (waiters e) (claimed e) (e_doc e) (e_err e) (refs e) (closing e) (poisoned e) (destroying e) (destroys e).
Definition set_done (v : bool) (e : entry) : entry :=
  mkEntry (e_id e) (ready e) (invalidated e) v (openCancelled e) (waiters e) (claimed e) (e_doc e) (e_err e) (refs e) (closing e) (poisoned e) (destroying e) (destroys e).
Definition set_openCancelled (v : bool) (e : entry) : entry :=
  mkEntry (e_id e) (ready e) (invalidated e) (done e) v (waiters e) (claimed e) (e_doc e) (e_err e) (refs e) (closing e) (poisoned e) (destroying e) (destroys e).
Definition set_waiters (v : Z) (e : entry) : entry :=
  mkEntry (e_id e) (ready e) (invalidated e) (done e) (openCancelled e) v (claimed e) (e_doc e) (e_err e) (refs e) (closing e) (poisoned e) (destroying e) (destroys e).
Definition set_claimed (v : bool) (e : entry) : entry :=
  mkEntry (e_id e) (ready e) (invalidated e) (done e) (openCancelled e) (waiters e) v (e_doc e) (e_err e) (refs e) (closing e) (poisoned e) (destroying e) (destroys e).
Definition set_doc (v : option Z) (e : entry) : entry :=
  mkEntry (e_id e) (ready e) (invalidated e) (done e) (openCancelled e) (waiters e) (claimed e) v (e_err e) (refs e) (closing e) (poisoned e) (destroying e) (destroys e).
Definition set_err (v : option regError) (e : entry) : entry :=
  mkEntry (e_id e) (ready e) (invalidated e) (done e) (openCancelled e) (waiters e) (claimed e) (e_doc e) v (refs e) (closing e) (poisoned e) (destroying e) (destroys e).
Definition set_refs (v : Z) (e : entry) : entry :=
  mkEntry (e_id e) (ready e) (invalidated e) (done e) (openCancelled e) (waiters e) (claimed e) (e_doc e) (e_err e) v (closing e) (poisoned e) (destroying e) (destroys e).
Definition set_closing (v : bool) (e : entry) : entry :=
  mkEntry (e_id e) (ready e) (invalidated e) (done e) (openCancelled e) (waiters e) (claimed e) (e_doc e) (e_err e) (refs e) v (poisoned e) (destroying e) (destroys e).
Definition set_poisoned (v : bool) (e : entry) : entry :=
  mkEntry (e_id e) (ready e) (invalidated e) (done e) (openCancelled e) (waiters e) (claimed e) (e_doc e) (e_err e) (refs e) (closing e) v (destroying e) (destroys e).
Definition set_destroying (v : bool) (e : entry) : entry :=
  mkEntry (e_id e) (ready e) (invalidated e) (done e) (openCancelled e) (waiters e) (claimed e) (e_doc e) (e_err e) (refs e) (closing e) (poisoned e) v (destroys e).
Definition set_destroys (v : Z) (e : entry) : entry :=
  mkEntry (e_id e) (ready e) (invalidated e) (done e) (openCancelled e) (waiters e) (claimed e) (e_doc e) (e_err e) (refs e) (closing e) (poisoned e) (destroying e) v.

Record registry := mkReg {
  closed : bool;
  entries : gmap string nat;
  draining : gset nat;
  heap : list entry;
}.

Definition NewRegistry : registry := mkReg false ∅ ∅ [].

Definition put (i : nat) (e : entry) (r : registry) : registry :=
  mkReg (closed r) (entries r) (draining r) (<[i := e]> (heap r)).

(** [close(ch)]. *)
Definition close_chan (ch : bool) : option bool := if ch then None else Some true.

(** [if r.entries[id] == e { delete(r.entries, id) }]. *)
Definition detach (id : string) (i : nat) (r : registry) : registry :=
  if decide (entries r !! id = Some i)
  then mkReg (closed r) (delete id (entries r)) (draining r) (heap r) else r.

Definition set_draining (d : gset nat) (r : registry) : registry :=
  mkReg (closed r) (entries r) d (heap r).

(** ** Critical sections *)

(** Decides, under the lock, whether this goroutine must destroy a poisoned
    generation; [Some doc] is the Go pair [(doc, true)]. *)
Definition takePoisonedDestroyLocked (r : registry) (i : nat) : option (registry * option (option Z)) :=
  e ← heap r !! i;
  if negb (poisoned e) || destroying e || negb (refs e =? 0) then Some (r, None)
  else if negb (ready e) then Some (r, None)
  else Some (put i (set_destroying true e) r, Some (e_doc e)).

Definition dropWaiterLocked (r : registry) (id : string) (i : nat) : option registry :=
  e ← heap r !! i;
  if waiters e =? 0 then Some r
  else
    let e := set_waiters (waiters e - 1) e in
    if negb (waiters e =? 0) || negb (refs e =? 0) || claimed e || closing e then Some (put i e r)
    else
      let e := set_openCancelled true (set_poisoned true (set_closing true e)) in
      let r := detach id i (put i e r) in
      Some (set_draining ({[i]} ∪ draining r) r).

(** The outcome of one waiter. *)
Inductive fin : Type :=
| FHandle
| FErr (e : regError)
| FRetry.

Definition finalizeLocked (ctxErr : bool) (r : registry) (id : string) (i : nat) : option (registry * fin) :=
  e ← heap r !! i;
  if ctxErr then r ← dropWaiterLocked r id i; Some (r, FErr ErrCtx)
  else if poisoned e then r ← dropWaiterLocked r id i; Some (r, FRetry)
  else match e_err e with
  | Some err => r ← dropWaiterLocked r id i; Some (r, FErr err)
  | None =>
      if closing e then r ← dropWaiterLocked r id i; Some (r, FRetry)
      else
        let e := set_refs (refs e + 1) (set_claimed true e) in
        r ← dropWaiterLocked (put i e r) id i; Some (r, FHandle)
  end.

(** *** Goroutines *)

(** How a call ends. *)
Inductive outcome : Type :=
| RetErr (e : regError)
| RetNil.

(** What a goroutine does after [finishPoisoned]. *)
Inductive kont : Type :=
| KAcquire (c : nat) (id : string)
| KHeld (i : nat)
| KInvWait (c : nat) (i : nat)
| KRet (o : outcome).

(** The program points, each in front of a critical section, a call of
    [Destroy] or a channel wait; [c] is the context of the caller. *)
Inductive pc : Type :=
| PAcquire (c : nat) (id : string)         (* the head of the loop of Acquire *)
| PAcquireL (c : nat) (id : string)        (* Acquire: in front of the lock *)
| PWaitDone (c : nat) (id : string) (i : nat) (* Acquire: a closing generation *)
| PAwait (c : nat) (id : string) (i : nat) (* awaitEntry *)
| POpen (id : string) (i : nat)            (* runOpen: open is running *)
| PHeld (i : nat)                          (* a handle, not yet released *)
| PFinish (i : nat) (doc : option Z) (k : kont)  (* finishPoisoned: Destroy *)
| PFinish2 (i : nat) (k : kont)            (* finishPoisoned: critical section *)
| PInvalidate (c : nat) (id : string)
| PInvalidateL (c : nat) (id : string)     (* Invalidate: in front of the lock *)
| PInvWait (c : nat) (i : nat)
| PEvict (id : string)
| PEvict1 (id : string) (i : nat)          (* Evict: Destroy *)
| PEvict2 (id : string) (i : nat)          (* Evict: second critical section *)
| PClose
| PClose1 (todo all : list (string * nat)) (* Close: Destroy, one by one *)
| PClose2 (all : list (string * nat))      (* Close: second critical section *)
| PRet (o : outcome).

Definition resume (k : kont) : pc :=
  match k with
  | KAcquire c id => PAcquire c id
  | KHeld i => PHeld i
  | KInvWait c i => PInvWait c i
  | KRet o => PRet o
  end.

(** Continue with [finishPoisoned] if the destruction was taken. *)
Definition finish_then (i : nat) (t : option (option Z)) (k : kont) : pc :=
  match t with
  | Some d => PFinish i d k
  | None => resume k
  end.

(** A section of a goroutine: the registry and program point after it, and the
    goroutines it starts. *)
Definition section : Type := option (registry * pc * list pc).

Definition newEntry (id : string) : entry :=
  mkEntry id false false false false 1 false None None 0 false false false 0.

(** The critical section at the head of the loop of [Acquire]. *)
Definition acquireLocked (r : registry) (c : nat) (id : string) : section :=
  if closed r then Some (r, PRet (RetErr ErrClosed), [])
  else match entries r !! id with
  | Some i =>
      e ← heap r !! i;
      if closing e then Some (r, PWaitDone c id i, [])
      else Some (put i (set_waiters (waiters e + 1) e) r, PAwait c id i, [])
  | None =>
      let i := length (heap r) in
      Some (mkReg (closed r) (<[id := i]> (entries r)) (draining r) (heap r ++ [newEntry id]),
            PAwait c id i, [POpen id i])
  end.

Definition fin_kont (c : nat) (id : string) (i : nat) (f : fin) : kont :=
  match f with
  | FHandle => KHeld i
  | FErr e => KRet (RetErr e)
  | FRetry => KAcquire c id
  end.

(** [awaitEntry], the case of [e.ready]. *)
Definition awaitReady (ctxErr : bool) (r : registry) (c : nat) (id : string) (i : nat) : section :=
  '(r, f) ← finalizeLocked ctxErr r id i;
  '(r, t) ← takePoisonedDestroyLocked r i;
  Some (r, finish_then i t (fin_kont c id i f), []).

(** [awaitEntry], the case of [ctx.Done()]. *)
Definition awaitCancelled (r : registry) (id : string) (i : nat) : section :=
  r ← dropWaiterLocked r id i;
  '(r, t) ← takePoisonedDestroyLocked r i;
  Some (r, finish_then i t (KRet (RetErr ErrCtx)), []).

(** [runOpen] after [open] has returned [doc, err]. *)
Definition runOpenLocked (r : registry) (id : string) (i : nat) (doc : option Z) (err : option regError) : section :=
  let err := match err, doc with None, None => Some ErrInvalidDocument | _, _ => err end in
  e ← heap r !! i;
  rdy ← close_chan (ready e);
  let e := set_ready rdy (set_err err (set_doc doc e)) in
  if poisoned e then
    '(r, t) ← takePoisonedDestroyLocked (put i e r) i;
    Some (r, finish_then i t (KRet RetNil), [])
  else match err with
  | None => Some (put i e r, PRet RetNil, [])
  | Some _ =>
      d ← close_chan (done e);
      let e := set_done d (set_closing true e) in
      Some (detach id i (put i e r), PRet RetNil, [])
  end.

(** The critical section of [Release]. *)
Definition releaseLocked (r : registry) (i : nat) : section :=
  e ← heap r !! i;
  if refs e <=? 0 then None
  else
    let r := put i (set_refs (refs e - 1) e) r in
    '(r, t) ← takePoisonedDestroyLocked r i;
    Some (r, finish_then i t (KRet RetNil), []).

(** [doc.Destroy()]; nil has no such method. *)
Definition destroyDoc (r : registry) (i : nat) : option registry :=
  e ← heap r !! i;
  match e_doc e with
  | None => None
  | Some _ => Some (put i (set_destroys (destroys e + 1) e) r)
  end.

Definition finishDestroy (r : registry) (i : nat) (doc : option Z) (k : kont) : section :=
  match doc with
  | None => Some (r, PFinish2 i k, [])
  | Some _ => r ← destroyDoc r i; Some (r, PFinish2 i k, [])
  end.

Definition finishLocked (r : registry) (i : nat) (k : kont) : section :=
  e ← heap r !! i;
  d ← close_chan (done e);
  Some (set_draining (draining r ∖ {[i]}) (put i (set_done d e) r), resume k, []).

(** The critical section of [Invalidate]. *)
Definition invalidateLocked (r : registry) (c : nat) (id : string) : section :=
  if closed r then Some (r, PRet (RetErr ErrClosed), [])
  else match entries r !! id with
  | None => Some (r, PRet RetNil, [])
  | Some i =>
      e ← heap r !! i;
      if closing e then Some (r, PRet RetNil, [])
      else
        inv ← close_chan (invalidated e);
        let e := set_invalidated inv (set_openCancelled true (set_poisoned true (set_closing true e))) in
        let r := mkReg (closed r) (delete id (entries r)) ({[i]} ∪ draining r) (<[i := e]> (heap r)) in
        '(r, t) ← takePoisonedDestroyLocked r i;
        Some (r, finish_then i t (KInvWait c i), [])
  end.

(** The two critical sections of [Evict], around the call of [Destroy]. *)
Definition evictLocked (r : registry) (id : string) : section :=
  match entries r !! id with
  | None => Some (r, PRet RetNil, [])
  | Some i =>
      e ← heap r !! i;
      if negb (ready e) then Some (r, PRet (RetErr ErrInUse), [])
      else if negb (refs e =? 0) || closing e then Some (r, PRet (RetErr ErrInUse), [])
      else Some (put i (set_closing true e) r, PEvict1 id i, [])
  end.

Definition evictDestroy (r : registry) (id : string) (i : nat) : section :=
  r ← destroyDoc r i; Some (r, PEvict2 id i, []).

Definition evictLocked2 (r : registry) (id : string) (i : nat) : section :=
  let r := detach id i r in
  e ← heap r !! i;
  d ← close_chan (done e);
  Some (put i (set_done d e) r, PRet RetNil, []).

(** The first critical section of [Close]: all entries are idle, or nothing
    changes. *)
Definition idle (r : registry) (i : nat) : bool :=
  match heap r !! i with
  | Some e => ready e && (refs e =? 0) && negb (closing e)
  | None => false
  end.

Definition closeLocked (r : registry) : section :=
  if closed r then Some (r, PRet RetNil, [])
  else if negb (size (draining r) =? 0)%nat then Some (r, PRet (RetErr ErrInUse), [])
  else
    let all := map_to_list (entries r) in
    if forallb (fun p => idle r (snd p)) all then
      Some (mkReg true (entries r) (draining r)
              (fold_left (fun h p => alter (set_closing true) (snd p) h) all (heap r)),
            PClose1 all all, [])
    else Some (r, PRet (RetErr ErrInUse), []).

Definition closeDestroy (r : registry) (i : nat) (todo all : list (string * nat)) : section :=
  r ← destroyDoc r i; Some (r, PClose1 todo all, []).

Fixpoint closeEntries (r : registry) (all : list (string * nat)) : option registry :=
  match all with
  | [] => Some r
  | (id, i) :: all' =>
      e ← heap r !! i;
      d ← close_chan (done e);
      closeEntries (mkReg (closed r) (delete id (entries r)) (draining r) (<[i := set_done d e]> (heap r))) all'
  end.

Definition closeLocked2 (r : registry) (all : list (string * nat)) : section :=
  r ← closeEntries r all; Some (r, PRet RetNil, []).

(** ** Interleavings *)
Record world := mkWorld {
  reg : registry;
  threads : list pc;
  cancelled : gset nat;
  panicked : bool;
}.

Definition init : world := mkWorld NewRegistry [] ∅ false.

(** Goroutine [t] has run a section; a panic is recorded. *)
Definition commit (w : world) (t : nat) (s : section) : world :=
  match s with
  | Some (r, p, new) => mkWorld r (<[t := p]> (threads w) ++ new) (cancelled w) (panicked w)
  | None => mkWorld (reg w) (threads w) (cancelled w) true
  end.

(** Goroutine [t] moves without touching the registry. *)
Definition goto (w : world) (t : nat) (p : pc) : world :=
  mkWorld (reg w) (<[t := p]> (threads w)) (cancelled w) (panicked w).

Definition is_done (r : registry) (i : nat) : Prop := exists e, heap r !! i = Some e /\ done e = true.
Definition is_ready (r : registry) (i : nat) : Prop := exists e, heap r !! i = Some e /\ ready e = true.
Definition ctx_err (w : world) (c : nat) : bool := bool_decide (c ∈ cancelled w).

(** Callers may start an operation at any time. *)
Definition call (p : pc) : Prop :=
  match p with
  | PAcquire _ id => id <> ""
  | PInvalidate _ _ | PEvict _ | PClose => True
  | _ => False
  end.

Inductive step : world -> world -> Prop :=
| step_call w p : call p ->
    step w (mkWorld (reg w) (threads w ++ [p]) (cancelled w) (panicked w))
| step_cancel w c : step w (mkWorld (reg w) (threads w) ({[c]} ∪ cancelled w) (panicked w))
| step_acquire_ctx w t c id : threads w !! t = Some (PAcquire c id) -> c ∈ cancelled w ->
    step w (goto w t (PRet (RetErr ErrCtx)))
| step_acquire_ok w t c id : threads w !! t = Some (PAcquire c id) -> c ∉ cancelled w ->
    step w (goto w t (PAcquireL c id))
| step_acquire w t c id : threads w !! t = Some (PAcquireL c id) ->
    step w (commit w t (acquireLocked (reg w) c id))
| step_waitdone w t c id i : threads w !! t = Some (PWaitDone c id i) -> is_done (reg w) i ->
    step w (goto w t (PAcquire c id))
| step_waitdone_ctx w t c id i : threads w !! t = Some (PWaitDone c id i) -> c ∈ cancelled w ->
    step w (goto w t (PRet (RetErr ErrCtx)))
| step_await_ready w t c id i : threads w !! t = Some (PAwait c id i) -> is_ready (reg w) i ->
    step w (commit w t (awaitReady (ctx_err w c) (reg w) c id i))
| step_await_ctx w t c id i : threads w !! t = Some (PAwait c id i) -> c ∈ cancelled w ->
    step w (commit w t (awaitCancelled (reg w) id i))
| step_open w t id i doc err : threads w !! t = Some (POpen id i) ->
    step w (commit w t (runOpenLocked (reg w) id i doc err))
| step_release w t i : threads w !! t = Some (PHeld i) ->
    step w (commit w t (releaseLocked (reg w) i))
| step_finish w t i d k : threads w !! t = Some (PFinish i d k) ->
    step w (commit w t (finishDestroy (reg w) i d k))
| step_finish2 w t i k : threads w !! t = Some (PFinish2 i k) ->
    step w (commit w t (finishLocked (reg w) i k))
| step_invalidate_ctx w t c id : threads w !! t = Some (PInvalidate c id) -> c ∈ cancelled w ->
    step w (goto w t (PRet (RetErr ErrCtx)))
| step_invalidate_ok w t c id : threads w !! t = Some (PInvalidate c id) -> c ∉ cancelled w ->
    step w (goto w t (PInvalidateL c id))
| step_invalidate w t c id : threads w !! t = Some (PInvalidateL c id) ->
    step w (commit w t (invalidateLocked (reg w) c id))
| step_invwait w t c i : threads w !! t = Some (PInvWait c i) -> is_done (reg w) i ->
    step w (goto w t (PRet RetNil))
| step_invwait_ctx w t c i : threads w !! t = Some (PInvWait c i) -> c ∈ cancelled w ->
    step w (goto w t (PRet (RetErr ErrCtx)))
| step_evict w t id : threads w !! t = Some (PEvict id) ->
    step w (commit w t (evictLocked (reg w) id))
| step_evict1 w t id i : threads w !! t = Some (PEvict1 id i) ->
    step w (commit w t (evictDestroy (reg w) id i))
| step_evict2 w t id i : threads w !! t = Some (PEvict2 id i) ->
    step w (commit w t (evictLocked2 (reg w) id i))
| step_close w t : threads w !! t = Some PClose ->
    step w (commit w t (closeLocked (reg w)))
| step_close1 w t id i todo all : threads w !! t = Some (PClose1 ((id, i) :: todo) all) ->
    step w (commit w t (closeDestroy (reg w) i todo all))
| step_close1_end w t all : threads w !! t = Some (PClose1 [] all) ->
    step w (goto w t (PClose2 all))
| step_close2 w t all : threads w !! t = Some (PClose2 all) ->
    step w (commit w t (closeLocked2 (reg w) all)).

(** The worlds an interleaving can reach. *)
Definition reachable (w : world) : Prop := rtc step init w.

(** ** The invariant *)

(** What a goroutine at a program point owns of a generation: a place among
    its waiters, its running [open], a handle, the duty to call [Destroy], or
    the duty to close [done] after that call. *)
Inductive kind : Type := Waiter | Opener | Holder | Destroyer | Closer.

Definition b2z (b : bool) : Z := if b then 1 else 0.
Definition same (i j : nat) : Z := b2z (bool_decide (i = j)).
Definition occurs (i : nat) (l : list (string * nat)) : Z := foldr (fun p n => same i (snd p) + n) 0 l.

Definition holds_k (k : kont) (i : nat) : Z :=
  match k with KHeld j => same i j | _ => 0 end.

Definition tok (kd : kind) (i : nat) (p : pc) : Z :=
  match kd, p with
  | Waiter, PAwait _ _ j => same i j
  | Opener, POpen _ j => same i j
  | Holder, PHeld j => same i j
  | Holder, (PFinish _ _ k | PFinish2 _ k) => holds_k k i
  | Destroyer, (PFinish j _ _ | PEvict1 _ j) => same i j
  | Destroyer, PClose1 todo _ => occurs i todo
  | Closer, (PFinish2 j _ | PEvict2 _ j) => same i j
  | Closer, PClose1 todo all => occurs i all - occurs i todo
  | Closer, PClose2 all => occurs i all
  | _, _ => 0
  end.

Definition total (kd : kind) (i : nat) (ts : list pc) : Z := foldr (fun p n => tok kd i p + n) 0 ts.

(** Some goroutine is to destroy the document, or has done so. *)
Definition owned (e : entry) : bool :=
  destroying e || (closing e && negb (poisoned e) && bool_decide (e_err e = None)).

(** The invariant of a generation, given whether the map and [draining] hold
    it and how many goroutines own each share of it. *)
Record einv0 (e : entry) (inmap drain : bool) (T : kind -> Z) : Prop := {
  ei_waiters : waiters e = T Waiter;
  ei_refs : refs e = T Holder;
  ei_open : T Opener = if ready e then 0 else 1;
  ei_pc : poisoned e = true -> closing e = true;
  ei_destroying : destroying e = true -> poisoned e = true /\ ready e = true /\ refs e = 0;
  ei_owned : if owned e then T Destroyer + T Closer + b2z (done e) = 1 /\
                 destroys e = match e_doc e with Some _ => T Closer + b2z (done e) | None => 0 end
             else T Destroyer = 0 /\ T Closer = 0 /\ destroys e = 0 /\ done e = closing e && negb (poisoned e);
  ei_map : inmap = negb (poisoned e) && negb (done e);
  ei_drain : drain = poisoned e && negb (done e);
  ei_retired : closing e = true -> poisoned e = false -> ready e = true /\ refs e = 0;
  ei_doc : ready e = true -> e_err e = None -> e_doc e <> None;
  ei_claimed : claimed e = true -> ready e = true /\ e_err e = None;
  ei_noerr : ready e = false -> e_err e = None;
  ei_wanted : closing e = false -> claimed e = true \/ waiters e > 0;
  ei_invalid : invalidated e = true -> poisoned e = true;
  ei_signal : poisoned e = true -> refs e <> 0 -> invalidated e = true;
  ei_refs_claimed : refs e <> 0 -> claimed e = true;
  ei_failed : e_err e <> None -> closing e = true;
}.

(** A poisoned generation that is ready and has no handle has a destroyer; this
    part is restored by [takePoisonedDestroyLocked] at the end of a section. *)
Definition einv (e : entry) (inmap drain : bool) (T : kind -> Z) : Prop :=
  einv0 e inmap drain T /\ (poisoned e = true -> ready e = true -> refs e = 0 -> destroying e = true).

Definition known (r : registry) (id : string) (i : nat) : Prop :=
  exists e, heap r !! i = Some e /\ e_id e = id.

(** A generation retired by poisoning ([pz]) or by [Evict] / [Close]. *)
Definition retired (r : registry) (pz : bool) (id : string) (i : nat) : Prop :=
  exists e, heap r !! i = Some e /\ e_id e = id /\ closing e = true /\ poisoned e = pz.

(** What a program point says of the registry. *)
Definition pc_ok (r : registry) (p : pc) : Prop :=
  match p with
  | PAwait _ id i | POpen id i => known r id i
  | PEvict1 id i | PEvict2 id i => retired r false id i
  | PHeld i => exists id, known r id i
  | PFinish i d k => (exists e, heap r !! i = Some e /\ ready e = true /\ d = e_doc e) /\ (exists id, retired r true id i) /\
                     (forall j, k = KHeld j -> exists id, known r id j)
  | PFinish2 i k => (exists id, retired r true id i) /\ (forall j, k = KHeld j -> exists id, known r id j)
  | PClose1 todo all => (forall id i, (id, i) ∈ all -> retired r false id i) /\ exists pre, all = pre ++ todo
  | PClose2 all => forall id i, (id, i) ∈ all -> retired r false id i
  | _ => True
  end.

Definition inmap (r : registry) (i : nat) (e : entry) : bool := bool_decide (entries r !! e_id e = Some i).
Definition indrain (r : registry) (i : nat) : bool := bool_decide (i ∈ draining r).

Record reg_inv (r : registry) (ts : list pc) : Prop := {
  ri_entry i e : heap r !! i = Some e -> einv e (inmap r i e) (indrain r i) (fun kd => total kd i ts);
  ri_map id i : entries r !! id = Some i -> known r id i;
  ri_drain i : i ∈ draining r -> (i < length (heap r))%nat;
  ri_pc : Forall (pc_ok r) ts;
  ri_closed : closed r = true -> forall i e, heap r !! i = Some e -> closing e = true;
  ri_drained : closed r = true -> draining r = ∅;
}.

Definition winv (w : world) : Prop := panicked w = false /\ reg_inv (reg w) (threads w).

(** *** Counting shares *)
Lemma same_refl i : same i i = 1.
Proof. unfold same. by rewrite bool_decide_true. Qed.
Lemma same_ne i j : i <> j -> same i j = 0.
Proof. intros. unfold same. by rewrite bool_decide_false. Qed.
Lemma same_range i j : 0 <= same i j <= 1.
Proof. unfold same, b2z. case_match; lia. Qed.

Lemma occurs_app i l1 l2 : occurs i (l1 ++ l2) = occurs i l1 + occurs i l2.
Proof. induction l1 as [|p l1 IH]; simpl; [done|]. rewrite IH. lia. Qed.
Lemma occurs_nonneg i l : 0 <= occurs i l.
Proof. induction l as [|p l IH]; simpl; [done|]. pose proof (same_range i (snd p)). lia. Qed.
Lemma occurs_0 i l : (forall id, (id, i) ∉ l) -> occurs i l = 0.
Proof.
  induction l as [|[id j] l IH]; intros Hn; simpl; [done|]. rewrite IH, same_ne; [done| |].
  - intros ->. apply (Hn id). by left.
  - intros id' Hin. apply (Hn id'). by right.
Qed.

Lemma total_app kd i ts ts' : total kd i (ts ++ ts') = total kd i ts + total kd i ts'.
Proof. induction ts as [|p ts IH]; simpl; [done|]. rewrite IH. lia. Qed.

Lemma total_insert kd i ts t p p' :
  ts !! t = Some p -> total kd i (<[t := p']> ts) = total kd i ts - tok kd i p + tok kd i p'.
Proof.
  revert t. induction ts as [|q ts IH]; intros [|t]; simpl; intros Hl; [done|done| |].
  - injection Hl as ->. lia.
  - rewrite (IH t Hl). lia.
Qed.

(** Shares are never negative. *)
Lemma tok_nonneg r kd i p : pc_ok r p -> 0 <= tok kd i p.
Proof.
  intros Hp. pose proof (occurs_nonneg i) as Ho. pose proof (same_range i) as Hs.
  assert (Hk : forall k, 0 <= holds_k k i) by (intros []; simpl; try lia; apply Hs).
  destruct kd, p; simpl; try lia; try apply Hs; try apply Hk; try apply Ho.
  destruct Hp as (_ & pre & ->). rewrite occurs_app. specialize (Ho pre). lia.
Qed.

Lemma total_ge r kd i ts t p :
  Forall (pc_ok r) ts -> ts !! t = Some p -> tok kd i p <= total kd i ts.
Proof.
  intros Hok. revert t. induction Hok as [|q ts Hq Hts IH]; intros [|t]; simpl; intros Hl; try done.
  - injection Hl as ->. assert (0 <= total kd i ts); [|lia].
    clear -Hts. induction Hts as [|q ts Hq Hts IH]; simpl; [done|]. pose proof (tok_nonneg r kd i q Hq). lia.
  - pose proof (tok_nonneg r kd i q Hq). specialize (IH t Hl). lia.
Qed.

Lemma total_nonneg r kd i ts : Forall (pc_ok r) ts -> 0 <= total kd i ts.
Proof.
  induction 1 as [|q ts Hq Hts IH]; simpl; [done|]. pose proof (tok_nonneg r kd i q Hq). lia.
Qed.

(** *** Frames *)

(** [e'] can follow [e]: a generation keeps its id, once ready its document,
    once retired the way it was retired, and stays done. *)
Definition follows (e e' : entry) : Prop :=
  e_id e' = e_id e /\ (ready e = true -> ready e' = true /\ e_doc e' = e_doc e) /\
  (closing e = true -> closing e' = true /\ poisoned e' = poisoned e) /\
  (done e = true -> done e' = true).

Definition extends (r r' : registry) : Prop :=
  forall i e, heap r !! i = Some e -> exists e', heap r' !! i = Some e' /\ follows e e'.

Lemma extends_known r r' id i : extends r r' -> known r id i -> known r' id i.
Proof. intros Hx (e & He & Hid). destruct (Hx i e He) as (e' & He' & Hid' & _). exists e'. by rewrite Hid'. Qed.

Lemma extends_retired r r' pz id i : extends r r' -> retired r pz id i -> retired r' pz id i.
Proof.
  intros Hx (e & He & Hid & Hc & Hp). destruct (Hx i e He) as (e' & He' & Hid' & _ & Hcp & _).
  destruct (Hcp Hc). exists e'. split_and!; congruence.
Qed.

Lemma retired_known r pz id i : retired r pz id i -> known r id i.
Proof. intros (e & He & Hid & _). by exists e. Qed.

Lemma pc_ok_extends r r' p : extends r r' -> pc_ok r p -> pc_ok r' p.
Proof.
  intros Hx. pose proof (fun id i => extends_known r r' id i Hx) as Hk.
  pose proof (fun pz id i => extends_retired r r' pz id i Hx) as Hr.
  destruct p; simpl; auto.
  - intros (id & H). eauto.
  - intros ((e & He & Hrd & Hd) & (id & H1) & H2). destruct (Hx i e He) as (e' & He' & _ & Hrd' & _ & _).
    destruct (Hrd' Hrd) as [? ?]. split_and!; [exists e'; split_and!; congruence|eauto|].
    intros j ->. destruct (H2 j eq_refl) as [id' Hid]. eauto.
  - intros [(id & H1) H2]. split; [eauto|]. intros j ->. destruct (H2 j eq_refl) as [id' Hid]. eauto.
  - intros [H1 H2]. split; [|done]. eauto.
Qed.

Lemma follows_done e : follows e (set_done true e).
Proof. done. Qed.
Lemma follows_trans e1 e2 e3 : follows e1 e2 -> follows e2 e3 -> follows e1 e3.
Proof.
  intros (H1 & H2 & H3 & H7) (H4 & H5 & H6 & H8). split_and!; [congruence| | |auto].
  - intros Hr. destruct (H2 Hr) as [Hr2 ?]. destruct (H5 Hr2). split; congruence.
  - intros Hc. destruct (H3 Hc) as [Hc2 ?]. destruct (H6 Hc2). split; congruence.
Qed.

Lemma extends_put r i e e' : heap r !! i = Some e -> follows e e' -> extends r (put i e' r).
Proof.
  intros He Hf j ej Hj. simpl. destruct (decide (i = j)) as [<-|Hne].
  - exists e'. rewrite list_lookup_insert_eq by by eapply lookup_lt_Some. split; [done|]. congruence.
  - exists ej. by rewrite list_lookup_insert_ne.
Qed.

(** A goroutine owns nothing of a generation that does not exist. *)
Lemma tok_fresh r kd i p : pc_ok r p -> heap r !! i = None -> tok kd i p = 0.
Proof.
  intros Hp Hn.
  assert (Hk : forall id j, known r id j -> same i j = 0).
  { intros id j (e & He & _). apply same_ne. intros ->. congruence. }
  assert (Ho : forall l, (forall id j, (id, j) ∈ l -> known r id j) -> occurs i l = 0).
  { intros l Hl. apply occurs_0. intros id (e & He & _)%Hl. congruence. }
  pose proof (retired_known r) as Hrk.
  assert (Hh : forall k, (forall j, k = KHeld j -> exists id, known r id j) -> holds_k k i = 0).
  { intros [] Hkk; try done. simpl. destruct (Hkk _ eq_refl). eauto. }
  destruct p; simpl in Hp; destruct kd; simpl; try done; try (by eauto); try (by destruct Hp; eauto).
  - destruct Hp as (_ & _ & Hp). eauto.
  - destruct Hp as ((e & He & _) & _). apply same_ne. congruence.
  - destruct Hp as [[id H1] H2]. eauto.
  - destruct Hp as (Hall & pre & ->). apply Ho. intros id j Hin. eapply Hrk, Hall. set_solver.
  - destruct Hp as (Hall & pre & ->). rewrite occurs_app. rewrite (Ho pre); [lia|].
    intros id j Hin. eapply Hrk, Hall. set_solver.
Qed.

Lemma total_fresh r kd i ts : Forall (pc_ok r) ts -> heap r !! i = None -> total kd i ts = 0.
Proof.
  induction 1 as [|p ts Hp Hts IH]; intros Hn; simpl; [done|]. by rewrite (tok_fresh r), IH.
Qed.

(** A generation's invariant depends on the shares only pointwise. *)
Lemma einv_ext e m d T T' : (forall kd, T kd = T' kd) -> einv e m d T -> einv e m d T'.
Proof. intros Hx [[] ?]. split; [|done]. split; rewrite <- ?Hx; auto. Qed.
Lemma einv0_ext e m d T T' : (forall kd, T kd = T' kd) -> einv0 e m d T -> einv0 e m d T'.
Proof. intros Hx []. split; rewrite <- ?Hx; auto. Qed.

(** A section that changes one generation [i], and the map only by detaching
    [i]: the invariant holds after it if it holds of [i]. *)
Lemma local_step r ts t p i e r' p' e' :
  reg_inv r ts -> ts !! t = Some p -> heap r !! i = Some e ->
  heap r' = <[i := e']> (heap r) -> closed r' = closed r ->
  follows e e' ->
  (entries r' = entries r \/ entries r !! e_id e = Some i /\ entries r' = delete (e_id e) (entries r)) ->
  (forall j, j <> i -> j ∈ draining r' <-> j ∈ draining r) ->
  (forall kd j, j <> i -> tok kd j p' = tok kd j p) ->
  pc_ok r' p' -> (closed r = true -> closing e' = true) ->
  einv e' (inmap r' i e') (indrain r' i) (fun kd => total kd i ts - tok kd i p + tok kd i p') ->
  reg_inv r' (<[t := p']> ts).
Proof.
  intros [He1 He2 He3 He4 He5 He6] Ht Hi Hh Hc Hf Hmap Hdr Htok Hpc Hcl Hinv.
  assert (Hlt : (i < length (heap r))%nat) by by eapply lookup_lt_Some.
  assert (Hx : extends r r').
  { intros j ej Hj. destruct (extends_put r i e e' Hi Hf j ej Hj) as (e2 & H2 & Hr). exists e2. by rewrite Hh. }
  split.
  - intros j ej Hj. rewrite Hh in Hj. destruct (decide (i = j)) as [<-|Hne].
    + rewrite list_lookup_insert_eq in Hj by done. injection Hj as <-.
      eapply einv_ext, Hinv. intros kd. simpl. by rewrite (total_insert kd i ts t p p').
    + rewrite list_lookup_insert_ne in Hj by done. specialize (He1 j ej Hj).
      assert (Hm : inmap r' j ej = inmap r j ej).
      { unfold inmap. destruct Hmap as [->|[Hm ->]]; [done|]. destruct (decide (e_id ej = e_id e)) as [Heq|Hneq].
        - rewrite Heq, lookup_delete_eq, Hm. rewrite !bool_decide_false; [done| |done]. congruence.
        - by rewrite lookup_delete_ne. }
      assert (Hd : indrain r' j = indrain r j) by (apply bool_decide_ext; by apply Hdr).
      rewrite Hm, Hd. eapply einv_ext, He1. intros kd. simpl.
      rewrite (total_insert kd j ts t p p') by done. rewrite Htok by done. lia.
  - intros id j Hj. apply (extends_known r r' id j Hx). apply He2.
    destruct Hmap as [<-|[Hm Hd]]; [done|]. rewrite Hd in Hj. by apply lookup_delete_Some in Hj as [_ ?].
  - intros j Hj. rewrite Hh, length_insert. destruct (decide (j = i)) as [->|Hne]; [done|].
    apply He3. by apply Hdr.
  - apply list.Forall_insert; [|done]. eapply list.Forall_impl; [exact He4|].
    intros q Hq. by eapply pc_ok_extends.
  - intros Hcl' j ej Hj. rewrite Hc in Hcl'. rewrite Hh in Hj. destruct (decide (i = j)) as [<-|Hne].
    + rewrite list_lookup_insert_eq in Hj by done. injection Hj as <-. auto.
    + rewrite list_lookup_insert_ne in Hj by done. eauto.
  - intros Hcl'. rewrite Hc in Hcl'. specialize (He6 Hcl'). apply elem_of_equiv_empty_L. intros j Hj.
    destruct (decide (j = i)) as [->|Hne]; [|rewrite Hdr, He6 in Hj by done; set_solver].
    destruct Hinv as [[] _]. destruct (He1 i e Hi) as [Hinv' _]. pose proof (ei_drain _ _ _ _ Hinv') as Hdi.
    unfold indrain in Hdi, ei_drain0. rewrite bool_decide_true in ei_drain0 by done.
    rewrite He6, bool_decide_false in Hdi by set_solver.
    destruct Hf as (_ & _ & Hf1 & Hf2). destruct (Hf1 (He5 Hcl' _ _ Hi)) as [_ Hp]. rewrite Hp in ei_drain0.
    destruct (poisoned e), (done e); try done. by rewrite Hf2 in ei_drain0.
Qed.

(** A goroutine that moves without touching the registry and owns the same. *)
Lemma move_step r ts t p p' :
  reg_inv r ts -> ts !! t = Some p -> (forall kd j, tok kd j p' = tok kd j p) -> pc_ok r p' ->
  reg_inv r (<[t := p']> ts).
Proof.
  intros [He1 He2 He3 He4 He5 He6] Ht Htok Hpc. split; try done.
  - intros j ej Hj. eapply einv_ext, He1, Hj. intros kd. simpl.
    rewrite (total_insert kd j ts t p p') by done. rewrite Htok. lia.
  - by apply list.Forall_insert.
Qed.

(** *** One generation at a time *)

Definition keq (a b : kind) : Z :=
  match a, b with
  | Waiter, Waiter | Opener, Opener | Holder, Holder | Destroyer, Destroyer | Closer, Closer => 1
  | _, _ => 0
  end.

(** [r'] is [r] with the generation [i] changed from [e] to [e']. *)
Record changes (r r' : registry) (i : nat) (e e' : entry) : Prop := {
  ch_heap : heap r' = <[i := e']> (heap r);
  ch_closed : closed r' = closed r;
  ch_follows : follows e e';
  ch_map : entries r' = entries r \/ entries r !! e_id e = Some i /\ entries r' = delete (e_id e) (entries r);
  ch_drain j : j <> i -> j ∈ draining r' <-> j ∈ draining r;
}.

Lemma changes_trans r1 r2 r3 i e1 e2 e3 :
  changes r1 r2 i e1 e2 -> changes r2 r3 i e2 e3 -> changes r1 r3 i e1 e3.
Proof.
  intros [Hh Hc Hf Hm Hdr] [Hh' Hc' Hf' Hm' Hdr']. split.
  - by rewrite Hh', Hh, list_insert_insert_eq.
  - congruence.
  - by eapply follows_trans.
  - rewrite (proj1 Hf) in Hm'. destruct Hm as [Hm|[Hm1 Hm]].
    + rewrite Hm in Hm'. done.
    + right. split; [done|]. destruct Hm' as [->|[Hm2 Hm']]; [done|]. rewrite Hm, lookup_delete_eq in Hm2. done.
  - intros j Hj. rewrite Hdr', Hdr by done. done.
Qed.

Lemma changes_put r i e e' :
  heap r !! i = Some e -> follows e e' -> changes r (put i e' r) i e e'.
Proof. intros. split; simpl; auto. Qed.

(** The goroutine [t] leaves the section in a world that satisfies the
    invariant. *)
Definition section_ok (ts : list pc) (t : nat) (s : section) : Prop :=
  exists r' p' new, s = Some (r', p', new) /\ reg_inv r' (<[t := p']> ts ++ new).

Lemma change_ok r ts t p i e r' p' e' :
  reg_inv r ts -> ts !! t = Some p -> heap r !! i = Some e -> changes r r' i e e' ->
  (forall kd j, j <> i -> tok kd j p' = tok kd j p) -> pc_ok r' p' ->
  einv e' (inmap r' i e') (indrain r' i) (fun kd => total kd i ts - tok kd i p + tok kd i p') ->
  section_ok ts t (Some (r', p', [])).
Proof.
  intros Hri Ht Hi [Hh Hc Hf Hm Hdr] Htok Hpc Hinv. exists r', p', []. rewrite app_nil_r. split; [done|].
  eapply local_step; try done. intros Hclosed. destruct Hf as (_ & _ & Hf & _). apply Hf. by eapply ri_closed.
Qed.

Lemma move_ok r ts t p p' :
  reg_inv r ts -> ts !! t = Some p -> (forall kd j, tok kd j p' = tok kd j p) -> pc_ok r p' ->
  section_ok ts t (Some (r, p', [])).
Proof. intros. exists r, p', []. rewrite app_nil_r. split; [done|]. by eapply move_step. Qed.

(** Case analysis on the flags of a generation. *)
Ltac flags := intros; simpl in *; repeat case_match; simplify_eq/=; try done; try lia; try naive_solver lia.

(** The end of a section that calls [takePoisonedDestroyLocked]. *)
Definition takes (e : entry) : bool :=
  poisoned e && negb (destroying e) && (refs e =? 0) && ready e.

Lemma take_spec r i e :
  heap r !! i = Some e ->
  takePoisonedDestroyLocked r i =
  Some (if takes e then (put i (set_destroying true e) r, Some (e_doc e)) else (r, None)).
Proof.
  intros He. unfold takePoisonedDestroyLocked, takes. rewrite He. simpl.
  destruct (poisoned e), (destroying e), (refs e =? 0), (ready e); done.
Qed.

Lemma take_einv e m d T :
  einv0 e m d T -> takes e = true ->
  einv (set_destroying true e) m d (fun kd => T kd + keq kd Destroyer).
Proof.
  intros [] Ht. unfold takes in Ht. apply andb_prop in Ht as [Ht Hr]. apply andb_prop in Ht as [Ht Hz].
  apply andb_prop in Ht as [Hp Hd]. apply Z.eqb_eq in Hz. apply negb_true_iff in Hd.
  assert (Ho : owned e = false) by (unfold owned; by rewrite Hd, Hp, andb_false_r).
  rewrite Ho in *. destruct ei_owned0 as (H1 & H2 & H3 & H4). rewrite Hp, andb_false_r in H4.
  split; [|done]. split; simpl; rewrite ?Z.add_0_r; auto.
  rewrite H1, H2, H3, H4. unfold owned. simpl. destruct (e_doc e); simpl; lia.
Qed.

Lemma resume_tok kd j i d k : tok kd j (PFinish i d k) = tok kd j (resume k) + keq kd Destroyer * same j i.
Proof. destruct kd, k; simpl; lia. Qed.

Lemma take_ok r ts t p i e r1 e1 k :
  reg_inv r ts -> ts !! t = Some p -> heap r !! i = Some e -> changes r r1 i e e1 ->
  (forall kd j, j <> i -> tok kd j (resume k) = tok kd j p) -> (forall j, k = KHeld j -> j = i) ->
  einv0 e1 (inmap r1 i e1) (indrain r1 i) (fun kd => total kd i ts - tok kd i p + tok kd i (resume k)) ->
  section_ok ts t ('(r', tk) ← takePoisonedDestroyLocked r1 i; Some (r', finish_then i tk k, [])).
Proof.
  intros Hri Ht Hi Hch Htok Hk Hinv.
  assert (Hi1 : heap r1 !! i = Some e1).
  { rewrite (ch_heap _ _ _ _ _ Hch). apply list_lookup_insert_eq. by eapply lookup_lt_Some. }
  assert (Hkn : forall j, k = KHeld j -> exists id, known r1 id j).
  { intros j Hj. rewrite (Hk j Hj). by exists (e_id e1), e1. }
  rewrite (take_spec _ _ _ Hi1). destruct (takes e1) eqn:Htk; simpl.
  - assert (Hch' : changes r1 (put i (set_destroying true e1) r1) i e1 (set_destroying true e1)) by by apply changes_put.
    assert (Hr1 : ready e1 = true) by (unfold takes in Htk; by apply andb_prop in Htk as [_ ?]).
    eapply change_ok; [done..|by eapply changes_trans| | |].
    + intros kd j Hj. rewrite resume_tok, same_ne by done. rewrite Htok by done. lia.
    + assert (Hi2 : heap (put i (set_destroying true e1) r1) !! i = Some (set_destroying true e1))
        by (simpl; apply list_lookup_insert_eq; by eapply lookup_lt_Some).
      split_and!.
      * by exists (set_destroying true e1).
      * assert (Hp1 : poisoned e1 = true) by (unfold takes in Htk; by repeat apply andb_prop in Htk as [Htk _]).
        exists (e_id e1), (set_destroying true e1). split_and!; try done. by apply (ei_pc _ _ _ _ Hinv).
      * intros j Hj. rewrite (Hk j Hj). exists (e_id e1), (set_destroying true e1). simpl.
        rewrite list_lookup_insert_eq by by eapply lookup_lt_Some. done.
    + eapply einv_ext; [|apply (take_einv _ _ _ _ Hinv Htk)]. intros kd. simpl. rewrite resume_tok, same_refl. lia.
  - eapply change_ok; [done..| |].
    + destruct k; simpl; try done. by apply Hkn.
    + split; [done|]. intros Hp Hr Hz. unfold takes in Htk. rewrite Hp, Hr, Hz in Htk. simpl in Htk.
      by destruct (destroying e1).
Qed.

(** A flag that an invariant rules out. *)
Ltac refute :=
  match goal with
  | H : ?b = true -> _ |- ?b = false =>
      destruct b eqn:?; [exfalso; specialize (H eq_refl); destruct_and?; congruence|reflexivity]
  | H : ?b = true -> ?c = false -> _ |- ?b = false =>
      destruct b eqn:?; [exfalso; destruct (H eq_refl); congruence|reflexivity]
  end.

(** *** The sections keep the invariant *)

Lemma inmap_put r i e e' : e_id e' = e_id e -> inmap (put i e' r) i e' = inmap r i e.
Proof. unfold inmap. simpl. by intros ->. Qed.

Lemma drop_einv r i e T :
  heap r !! i = Some e -> einv0 e (inmap r i e) (indrain r i) T -> 1 <= T Waiter ->
  exists r1 e1, dropWaiterLocked r (e_id e) i = Some r1 /\ changes r r1 i e e1 /\
    einv0 e1 (inmap r1 i e1) (indrain r1 i) (fun kd => T kd - keq kd Waiter).
Proof.
  intros Hi Hinv Hw. pose proof Hinv as [].
  unfold dropWaiterLocked. rewrite Hi. simpl.
  destruct (Z.eqb_spec (waiters e) 0) as [Hz|Hnz]; [lia|].
  destruct (negb (waiters e - 1 =? 0) || negb (refs e =? 0) || claimed e || closing e) eqn:Hkeep.
  - eexists _, _. split; [done|]. split; [by apply changes_put|]. rewrite (inmap_put r i e) by done.
    split; simpl; rewrite ?Z.sub_0_r; auto; [lia|].
    intros Hc. destruct (ei_wanted0 Hc) as [?|?]; [by left|]. rewrite Hc, orb_false_r in Hkeep.
    destruct (claimed e) eqn:Ecl; [by left|]. rewrite orb_false_r in Hkeep. right.
    apply orb_prop in Hkeep as [Hk|Hk]; apply negb_true_iff, Z.eqb_neq in Hk; [lia|].
    specialize (ei_refs_claimed0 Hk). done.
  - apply orb_false_iff in Hkeep as [Hkeep Hcl]. apply orb_false_iff in Hkeep as [Hkeep Hclm].
    apply orb_false_iff in Hkeep as [_ Hrf]. apply negb_false_iff, Z.eqb_eq in Hrf.
    assert (Hnp : poisoned e = false) by refute.
    assert (Hnd : destroying e = false) by refute.
    assert (Ho : owned e = false) by (unfold owned; by rewrite Hnd, Hcl).
    rewrite Ho, Hcl in ei_owned0. simpl in ei_owned0. destruct ei_owned0 as (HP & HD & Hds & Hdn).
    assert (Hm : entries r !! e_id e = Some i).
    { rewrite Hnp, Hdn in ei_map0. by apply bool_decide_eq_true in ei_map0. }
    set (e1 := set_openCancelled true (set_poisoned true (set_closing true (set_waiters (waiters e - 1) e)))).
    unfold detach. simpl. rewrite decide_True by done.
    eexists _, e1. split; [done|]. split.
    + split; simpl; auto; [split_and!; simpl; auto; congruence|]. intros j Hj. set_solver.
    + assert (Hm1 : inmap (mkReg (closed r) (delete (e_id e) (entries r)) ({[i]} ∪ draining r)
                (<[i := e1]> (heap r))) i e1 = false)
        by (unfold inmap; simpl; rewrite lookup_delete_eq; by apply bool_decide_false).
      assert (Hd1 : indrain (mkReg (closed r) (delete (e_id e) (entries r)) ({[i]} ∪ draining r)
                (<[i := e1]> (heap r))) i = true)
        by (unfold indrain; simpl; apply bool_decide_true; set_solver).
      unfold set_draining. simpl. rewrite Hm1, Hd1.
      split; simpl; rewrite ?Z.sub_0_r; auto; try lia; try done.
      * intros. by destruct (destroying e).
      * unfold owned. simpl. rewrite Hnd. simpl. split_and!; auto; lia.
      * by rewrite Hdn.
Qed.

Section Sections.
Context (r : registry) (ts : list pc) (Hri : reg_inv r ts) (t : nat).

Lemma awaiting c id i :
  ts !! t = Some (PAwait c id i) ->
  exists e, heap r !! i = Some e /\ e_id e = id /\ 1 <= total Waiter i ts.
Proof using Hri.
  intros Ht. pose proof (list.Forall_lookup_1 _ _ _ _ (ri_pc _ _ Hri) Ht) as (e & He & Hid).
  exists e. split_and!; try done. pose proof (total_ge r Waiter i ts t _ (ri_pc _ _ Hri) Ht) as Hg.
  simpl in Hg. rewrite same_refl in Hg. lia.
Qed.

Lemma awaitCancelled_ok c id i :
  ts !! t = Some (PAwait c id i) -> section_ok ts t (awaitCancelled r id i).
Proof using Hri.
  intros Ht. destruct (awaiting c id i Ht) as (e & He & Hid & Hw). subst id.
  destruct (ri_entry _ _ Hri i e He) as [Hinv _].
  destruct (drop_einv r i e _ He Hinv Hw) as (r1 & e1 & Hd & Hch & Hinv1).
  unfold awaitCancelled. rewrite Hd. simpl. eapply take_ok; try done.
  - intros kd j Hj. destruct kd; simpl; try done. by rewrite same_ne.
  - eapply einv0_ext, Hinv1. intros []; simpl; rewrite ?same_refl; lia.
Qed.

Lemma awaitReady_ok ctxErr c id i :
  ts !! t = Some (PAwait c id i) -> is_ready r i -> section_ok ts t (awaitReady ctxErr r c id i).
Proof using Hri.
  intros Ht (e' & He' & Hrdy). destruct (awaiting c id i Ht) as (e & He & Hid & Hw).
  assert (e' = e) by congruence. subst e' id.
  destruct (ri_entry _ _ Hri i e He) as [Hinv Htk].
  assert (Hgive : forall f, f <> FHandle ->
    section_ok ts t ('(r, f) ← (r ← dropWaiterLocked r (e_id e) i; Some (r, f));
                     '(r, tk) ← takePoisonedDestroyLocked r i;
                     Some (r, finish_then i tk (fin_kont c (e_id e) i f), []))).
  { intros f Hf. destruct (drop_einv r i e _ He Hinv Hw) as (r1 & e1 & Hd & Hch & Hinv1). rewrite Hd. simpl.
    eapply take_ok; try done.
    - intros kd j Hj. destruct f; simpl; try done; destruct kd; simpl; try done; by rewrite same_ne.
    - destruct f; naive_solver.
    - eapply einv0_ext, Hinv1. intros kd. destruct f; try done; destruct kd; simpl; rewrite ?same_refl; lia. }
  unfold awaitReady, finalizeLocked. rewrite He. simpl.
  destruct ctxErr; [by apply Hgive|]. destruct (poisoned e) eqn:Hp; [by apply Hgive|].
  destruct (e_err e) as [err|] eqn:Herr; [by apply Hgive|]. destruct (closing e) eqn:Hc; [by apply Hgive|].
  set (e2 := set_refs (refs e + 1) (set_claimed true e)).
  assert (Hch2 : changes r (put i e2 r) i e e2) by by apply changes_put.
  assert (He2 : heap (put i e2 r) !! i = Some e2) by (apply list_lookup_insert_eq; by eapply lookup_lt_Some).
  pose proof (total_nonneg r Holder i ts (ri_pc _ _ Hri)) as Hh.
  destruct (drop_einv (put i e2 r) i e2 (fun kd => total kd i ts + keq kd Holder)) as (r1 & e1 & Hd & Hch & Hinv1).
  - done.
  - rewrite (inmap_put r i e) by done. destruct Hinv. split; simpl; rewrite ?Z.add_0_r; auto; try lia; try congruence.
    + intros Hdd. destruct (ei_destroying0 Hdd); congruence.
  - simpl. lia.
  - simpl in Hd. fold e2. rewrite Hd. simpl. eapply take_ok; try done.
    + by eapply changes_trans.
    + intros kd j Hj. destruct kd; simpl; rewrite ?same_ne by done; done.
    + naive_solver.
    + eapply einv0_ext, Hinv1. intros []; simpl; rewrite ?same_refl; lia.
Qed.

Lemma map_entry id i : entries r !! id = Some i -> exists e, heap r !! i = Some e /\ e_id e = id /\
  poisoned e = false /\ done e = false.
Proof using Hri.
  intros Hm. destruct (ri_map _ _ Hri id i Hm) as (e & He & Hid). exists e.
  destruct (ri_entry _ _ Hri i e He) as [[] _]. unfold inmap in ei_map0. rewrite Hid, bool_decide_true in ei_map0 by done.
  symmetry in ei_map0. apply andb_prop in ei_map0 as [?%negb_true_iff ?%negb_true_iff]. done.
Qed.

Lemma acquireLocked_ok c id :
  ts !! t = Some (PAcquireL c id) -> section_ok ts t (acquireLocked r c id).
Proof using Hri.
  intros Ht. unfold acquireLocked. destruct (closed r) eqn:Ecl; [by eapply move_ok|].
  destruct (entries r !! id) as [i|] eqn:Em.
  - destruct (map_entry id i Em) as (e & He & Hid & Hp & Hdn). rewrite He. simpl.
    destruct (ri_entry _ _ Hri i e He) as [Hinv Htk].
    destruct (closing e) eqn:Hc; [by eapply move_ok|].
    eapply change_ok; try done; [by apply changes_put| | |].
    + intros kd j Hj. destruct kd; simpl; rewrite ?same_ne by done; done.
    + exists (set_waiters (waiters e + 1) e). simpl. rewrite list_lookup_insert_eq by by eapply lookup_lt_Some. done.
    + rewrite (inmap_put r i e) by done. pose proof (total_nonneg r Waiter i ts (ri_pc _ _ Hri)).
      split; [|done]. eapply einv0_ext; [|instantiate (1 := fun kd => total kd i ts + keq kd Waiter)].
      { intros []; simpl; rewrite ?same_refl; lia. }
      destruct Hinv. split; simpl; rewrite ?Z.add_0_r; auto; try lia.
  - set (i := length (heap r)). set (r' := mkReg _ _ _ _).
    assert (Hf : heap r !! i = None) by (apply lookup_ge_None_2; done).
    assert (Hi' : heap r' !! i = Some (newEntry id)) by by apply list_lookup_middle.
    assert (Hx : extends r r').
    { intros j ej Hj. exists ej. simpl. rewrite lookup_app_l by by eapply lookup_lt_Some. done. }
    destruct Hri as [He1 He2 He3 He4 He5 He6].
    exists r', (PAwait c id i), [POpen id i]. split; [done|]. split.
    + intros j ej Hj. destruct (decide (j = i)) as [->|Hne].
      * assert (ej = newEntry id) as -> by congruence.
        assert (Hm : inmap r' i (newEntry id) = true) by (apply bool_decide_true; apply lookup_insert_eq).
        assert (Hd : indrain r' i = false).
        { apply bool_decide_false. simpl. intros Hin%He3. lia. }
        rewrite Hm, Hd. split; [|done].
        eapply einv0_ext; [|instantiate (1 := fun kd => keq kd Waiter + keq kd Opener); split; simpl; try done; by right].
        intros kd. simpl. rewrite total_app, (total_insert kd i ts t _ _ Ht), (total_fresh r kd i ts) by done.
        destruct kd; simpl; rewrite ?same_refl; lia.
      * assert (Hj' : heap r !! j = Some ej).
        { simpl in Hj. apply lookup_app_Some in Hj as [?|[Hge Hj]]; [done|].
          apply list_lookup_singleton_Some in Hj as [? _]. unfold i in Hne. lia. }
        assert (Hd : indrain r' j = indrain r j) by done.
        assert (Hm : inmap r' j ej = inmap r j ej).
        { unfold inmap. simpl. destruct (decide (e_id ej = id)) as [->|?].
          - rewrite lookup_insert_eq, Em. rewrite !bool_decide_false; [done|done|congruence].
          - by rewrite lookup_insert_ne. }
        rewrite Hm, Hd. eapply einv_ext, He1, Hj'. intros kd. simpl.
        rewrite total_app, (total_insert kd j ts t _ _ Ht). destruct kd; simpl; rewrite ?same_ne by done; lia.
    + intros id' j Hj. simpl in Hj. apply lookup_insert_Some in Hj as [[<- <-]|[_ Hj]].
      * by exists (newEntry id).
      * apply (extends_known r r' _ _ Hx). by apply He2.
    + intros j Hj. simpl. rewrite length_app. specialize (He3 j Hj). lia.
    + apply list.Forall_app. split; [|apply list.Forall_singleton; by exists (newEntry id)].
      apply list.Forall_insert; [|by exists (newEntry id)].
      eapply list.Forall_impl; [exact He4|]. intros q. by apply pc_ok_extends.
    + simpl. congruence.
    + simpl. congruence.
Qed.

Lemma runOpenLocked_ok id i d err :
  ts !! t = Some (POpen id i) -> section_ok ts t (runOpenLocked r id i d err).
Proof using Hri.
  intros Ht. pose proof (list.Forall_lookup_1 _ _ _ _ (ri_pc _ _ Hri) Ht) as (e & He & Hid).
  destruct (ri_entry _ _ Hri i e He) as [Hinv Htk].
  pose proof (total_ge r Opener i ts t _ (ri_pc _ _ Hri) Ht) as Hg. simpl in Hg. rewrite same_refl in Hg.
  unfold runOpenLocked. rewrite He. cbn [mbind option_bind].
  set (err' := match err with None => _ | _ => _ end).
  assert (Herr' : err' = None -> d <> None) by (unfold err'; by destruct err, d).
  assert (Hnr : ready e = false).
  { destruct Hinv. destruct (ready e); [|done]. lia. }
  rewrite Hnr. simpl. destruct Hinv.
  assert (Hncl : claimed e = false) by refute.
  assert (Hrf : refs e = 0) by (destruct (decide (refs e = 0)) as [|Hz]; [done|]; specialize (ei_refs_claimed0 Hz); congruence).
  assert (Hnd : destroying e = false) by refute.
  assert (Htok : forall kd j, j <> i -> tok kd j (PRet RetNil) = tok kd j (POpen id i))
    by (intros kd j Hj; destruct kd; simpl; rewrite ?same_ne by done; done).
  destruct (poisoned e) eqn:Hp.
  - eapply take_ok; try done; [apply changes_put; [done|split_and!; simpl; auto; congruence]|].
    rewrite (inmap_put r i e) by done.
    eapply einv0_ext; [|instantiate (1 := fun kd => total kd i ts - keq kd Opener)].
    { intros []; simpl; rewrite ?same_refl; lia. }
    assert (Ho : owned e = false) by (unfold owned; by rewrite Hnd, Hp, andb_false_r).
    rewrite Ho in ei_owned0. split; simpl; rewrite ?Z.sub_0_r; auto; try lia; try congruence.
    + rewrite ei_open0, Hnr. lia.
    + unfold owned. simpl. rewrite Hnd, Hp, andb_false_r. simpl. by rewrite andb_false_r in ei_owned0.
    + by rewrite Hp.
  - assert (Hc : closing e = false)
      by (destruct (closing e); [|done]; destruct (ei_retired0 eq_refl eq_refl); congruence).
    assert (Ho : owned e = false) by (unfold owned; by rewrite Hnd, Hc).
    rewrite Ho, Hc in ei_owned0. destruct ei_owned0 as (HP & HD & Hds & Hdn). simpl in Hdn.
    destruct err' as [er|] eqn:Eerr; cbn [mbind option_bind].
    + rewrite Hdn. simpl. set (e1 := set_done true _).
      assert (Hm : entries r !! id = Some i).
      { subst id. rewrite Hdn in ei_map0. by apply bool_decide_eq_true in ei_map0. }
      unfold detach. simpl. rewrite decide_True by done.
      eapply (change_ok r ts t _ i e _ _ e1); try done.
      * subst id. split; simpl; auto. split_and!; simpl; auto; congruence.
      * split; [|simpl; congruence].
        eapply einv0_ext; [|instantiate (1 := fun kd => total kd i ts - keq kd Opener)].
        { intros []; simpl; rewrite ?same_refl; lia. }
        unfold inmap. simpl. rewrite Hid, lookup_delete_eq.
        split; simpl; rewrite ?Z.sub_0_r; auto; try lia; try congruence.
        -- rewrite ei_open0, Hnr. lia.
        -- unfold owned. simpl. rewrite Hnd, Hp. simpl. by rewrite HP, HD, Hds.
        -- by rewrite Hp.
        -- by rewrite Hp in *.
    + eapply change_ok; try done; [apply changes_put; [done|split_and!; simpl; auto; congruence]|].
      rewrite (inmap_put r i e) by done. split; [|simpl; congruence].
      eapply einv0_ext; [|instantiate (1 := fun kd => total kd i ts - keq kd Opener)].
      { intros []; simpl; rewrite ?same_refl; lia. }
      split; simpl; rewrite ?Z.sub_0_r; auto; try lia; try congruence.
      * rewrite ei_open0, Hnr. lia.
      * unfold owned. simpl. rewrite Hnd, Hc. simpl. by rewrite HP, HD, Hds, Hdn.
      * by rewrite Hp in *.
      * by rewrite Hp in *.
Qed.

Lemma releaseLocked_ok i : ts !! t = Some (PHeld i) -> section_ok ts t (releaseLocked r i).
Proof using Hri.
  intros Ht. pose proof (list.Forall_lookup_1 _ _ _ _ (ri_pc _ _ Hri) Ht) as (id & e & He & Hid).
  destruct (ri_entry _ _ Hri i e He) as [Hinv Htk].
  pose proof (total_ge r Holder i ts t _ (ri_pc _ _ Hri) Ht) as Hg. simpl in Hg. rewrite same_refl in Hg.
  unfold releaseLocked. rewrite He. cbn [mbind option_bind]. destruct Hinv.
  destruct (Z.leb_spec (refs e) 0); [lia|].
  assert (Hclm : claimed e = true) by (apply ei_refs_claimed0; lia). destruct (ei_claimed0 Hclm) as [Hr He0].
  assert (Hnd : destroying e = false).
  { destruct (destroying e); [|done]. destruct (ei_destroying0 eq_refl) as (_ & _ & ?). lia. }
  eapply take_ok; try done; [by apply changes_put| |].
  - intros kd j Hj. destruct kd; simpl; rewrite ?same_ne by done; done.
  - rewrite (inmap_put r i e) by done.
    eapply einv0_ext; [|instantiate (1 := fun kd => total kd i ts - keq kd Holder)].
    { intros []; simpl; rewrite ?same_refl; lia. }
    split; simpl; rewrite ?Z.sub_0_r; auto; try lia; try congruence.
    + intros Hc Hp. destruct (ei_retired0 Hc Hp). lia.
    + intros Hp _. apply ei_signal0; [done|lia].
Qed.

(** A destroyer calls [Destroy] and becomes the closer of [done]. *)
Lemma destroy_ok i e p p' :
  ts !! t = Some p -> heap r !! i = Some e -> e_doc e <> None ->
  (forall kd j, tok kd j p' = tok kd j p - keq kd Destroyer * same j i + keq kd Closer * same j i) ->
  1 <= tok Destroyer i p ->
  pc_ok (put i (set_destroys (destroys e + 1) e) r) p' ->
  section_ok ts t (r' ← destroyDoc r i; Some (r', p', [])).
Proof using Hri.
  intros Ht He Hdoc Htok Hd Hpc. destruct (ri_entry _ _ Hri i e He) as [Hinv Htk].
  unfold destroyDoc. rewrite He. cbn [mbind option_bind]. destruct (e_doc e) as [dv|] eqn:Ed; [|done].
  cbn [mbind option_bind]. pose proof (total_ge r Destroyer i ts t _ (ri_pc _ _ Hri) Ht) as Hg.
  pose proof (total_nonneg r Closer i ts (ri_pc _ _ Hri)) as Hg2.
  eapply change_ok; try done; [by apply changes_put| |].
  - intros kd j Hj. rewrite Htok, same_ne by done. lia.
  - rewrite (inmap_put r i e) by done. split; [|done].
    eapply einv0_ext; [|instantiate (1 := fun kd => total kd i ts - keq kd Destroyer + keq kd Closer)].
    { intros kd. rewrite Htok, same_refl. lia. }
    destruct Hinv. split; simpl; rewrite ?Z.sub_0_r, ?Z.add_0_r; auto; try congruence.
    unfold owned in *. simpl. rewrite Ed in *. destruct (destroying e || _); [|lia].
    destruct ei_owned0 as [H1 H2]. split; lia.
Qed.

Lemma finishDestroy_ok i d k :
  ts !! t = Some (PFinish i d k) -> section_ok ts t (finishDestroy r i d k).
Proof using Hri.
  intros Ht. pose proof (list.Forall_lookup_1 _ _ _ _ (ri_pc _ _ Hri) Ht) as ((e & He & Hr & ->) & [id Hret] & Hk).
  assert (Htok : forall kd j, tok kd j (PFinish2 i k) =
    tok kd j (PFinish i (e_doc e) k) - keq kd Destroyer * same j i + keq kd Closer * same j i)
    by (intros [] j; simpl; lia).
  unfold finishDestroy. destruct (e_doc e) as [dv|] eqn:Ed.
  - eapply (destroy_ok i e); try done; [congruence|simpl; rewrite same_refl; lia|].
    assert (Hx : extends r (put i (set_destroys (destroys e + 1) e) r)) by by apply extends_put with e.
    split; [exists id; by apply (extends_retired r)|].
    intros j Hj. destruct (Hk j Hj) as [id' Hid]. exists id'. by apply (extends_known r).
  - destruct (ri_entry _ _ Hri i e He) as [Hinv Htk].
    eapply (change_ok r ts t _ i e r _ e); try done.
    + split; auto; try done. by rewrite list_insert_id.
    + intros kd j Hj. rewrite Htok, same_ne by done. lia.
    + split; [|done]. by exists id.
    + split; [|done]. eapply einv0_ext; [|instantiate (1 := fun kd => total kd i ts - keq kd Destroyer + keq kd Closer)].
      { intros kd. rewrite Htok, same_refl. lia. }
      destruct Hinv. split; simpl; rewrite ?Z.sub_0_r, ?Z.add_0_r; auto.
      pose proof (total_ge r Destroyer i ts t _ (ri_pc _ _ Hri) Ht) as Hg. simpl in Hg. rewrite same_refl in Hg.
      pose proof (total_nonneg r Closer i ts (ri_pc _ _ Hri)) as Hg2.
      rewrite Ed in *. destruct (owned e); [|lia]. destruct ei_owned0. split; lia.
Qed.

(** The closer closes [done]: the generation was not done. *)
Lemma closer_facts i e p :
  ts !! t = Some p -> heap r !! i = Some e -> 1 <= tok Closer i p ->
  done e = false /\ owned e = true /\ total Closer i ts = 1 /\ total Destroyer i ts = 0.
Proof using Hri.
  intros Ht He Hc. pose proof (total_ge r Closer i ts t p (ri_pc _ _ Hri) Ht).
  pose proof (total_nonneg r Destroyer i ts (ri_pc _ _ Hri)).
  destruct (ri_entry _ _ Hri i e He) as [[] _]. unfold b2z in *.
  destruct (owned e); [|lia]. destruct (done e); split_and!; try done; lia.
Qed.

(** [done] is closed on a retired generation that leaves the map and
    [draining]. *)
Lemma done_einv i e p m d m' d' :
  ts !! t = Some p -> heap r !! i = Some e -> 1 <= tok Closer i p ->
  einv e m d (fun kd => total kd i ts) -> m' = false -> d' = false ->
  einv (set_done true e) m' d' (fun kd => total kd i ts - keq kd Closer).
Proof using Hri.
  intros Ht He Hc [Hinv Htk] -> ->. destruct (closer_facts i e p Ht He Hc) as (Hdn & Ho & HC & HD).
  split; [|done]. destruct Hinv. rewrite Ho, Hdn, HC, HD in *.
  split; simpl; rewrite ?Z.sub_0_r, ?andb_false_r; auto.
  change (owned (set_done true e)) with (owned e). rewrite Ho, HD, HC. destruct (e_doc e); simpl in *; lia.
Qed.

Lemma finishLocked_ok i k : ts !! t = Some (PFinish2 i k) -> section_ok ts t (finishLocked r i k).
Proof using Hri.
  intros Ht. pose proof (list.Forall_lookup_1 _ _ _ _ (ri_pc _ _ Hri) Ht) as [(id & e & He & Hid & Hcl & Hp) Hk].
  assert (Hc : 1 <= tok Closer i (PFinish2 i k)) by (simpl; rewrite same_refl; lia).
  destruct (closer_facts i e _ Ht He Hc) as (Hdn & Ho & HC & HD).
  unfold finishLocked. rewrite He. cbn [mbind option_bind]. rewrite Hdn. cbn [close_chan mbind option_bind].
  pose proof (ri_entry _ _ Hri i e He) as Hinv.
  eapply (change_ok r ts t _ i e _ _ (set_done true e)); try done.
  - split; simpl; auto; [done|]. intros j Hj. set_solver.
  - intros kd j Hj. destruct kd, k; simpl; rewrite ?same_ne by done; done.
  - destruct k; simpl; try done. destruct (Hk _ eq_refl) as [id' Hid'].
    exists id'. eapply extends_known; [|exact Hid']. intros j ej Hj.
    by destruct (extends_put r i e (set_done true e) He (follows_done e) j ej Hj) as (e2 & ? & ?); exists e2.
  - eapply einv_ext; [|eapply (done_einv i e _ _ _ _ _ Ht He Hc Hinv)].
    + intros kd. destruct kd, k; simpl; rewrite ?same_refl; lia.
    + unfold inmap. simpl. destruct Hinv as [[] _]. rewrite Hp in ei_map0. done.
    + apply bool_decide_false. simpl. set_solver.
Qed.

Lemma invalidateLocked_ok c id :
  ts !! t = Some (PInvalidateL c id) -> section_ok ts t (invalidateLocked r c id).
Proof using Hri.
  intros Ht. unfold invalidateLocked. destruct (closed r) eqn:Ecl; [by eapply move_ok|].
  destruct (entries r !! id) as [i|] eqn:Em; [|by eapply move_ok].
  destruct (map_entry id i Em) as (e & He & Hid & Hp & Hdn). rewrite He. cbn [mbind option_bind].
  destruct (closing e) eqn:Hc; [by eapply move_ok|].
  destruct (ri_entry _ _ Hri i e He) as [Hinv Htk]. destruct Hinv.
  assert (Hni : invalidated e = false) by (destruct (invalidated e); [specialize (ei_invalid0 eq_refl); congruence|done]).
  rewrite Hni. cbn [close_chan mbind option_bind].
  assert (Hnd : destroying e = false) by refute.
  assert (Ho : owned e = false) by (unfold owned; by rewrite Hnd, Hc).
  rewrite Ho, Hc in ei_owned0. destruct ei_owned0 as (HP & HD & Hds & _).
  eapply (take_ok r ts t _ i e _
    (set_invalidated true (set_openCancelled true (set_poisoned true (set_closing true e))))); try done.
  - subst id. split; simpl; auto; [split_and!; simpl; auto; congruence|]. clear. intros j Hj. set_solver.
  - eapply einv0_ext; [|instantiate (1 := fun kd => total kd i ts)]; [intros []; simpl; lia|].
    unfold inmap, indrain. simpl. rewrite Hid, lookup_delete_eq, (bool_decide_true (i ∈ _)) by set_solver.
    split; simpl; auto; try done.
    + intros. congruence.
    + unfold owned. simpl. rewrite Hnd. simpl. by rewrite Hdn.
    + by rewrite Hdn.
Qed.

(** An idle generation is retired: its retirer is to destroy it. *)
Lemma retire_einv e m d T :
  einv e m d T -> ready e = true -> refs e = 0 -> closing e = false ->
  einv (set_closing true e) m d (fun kd => T kd + keq kd Destroyer).
Proof using.
  intros [[] Htk] Hr Hz Hc.
  assert (Hp : poisoned e = false) by refute.
  assert (Hnd : destroying e = false) by refute.
  assert (He : e_err e = None) by (destruct (e_err e); [|done]; by rewrite ei_failed0 in Hc).
  assert (Ho : owned e = false) by (unfold owned; by rewrite Hnd, Hc).
  rewrite Ho, Hc in ei_owned0. destruct ei_owned0 as (HP & HD & Hds & Hdn). simpl in Hdn.
  split; [|simpl; congruence]. split; simpl; rewrite ?Z.add_0_r; auto; try congruence.
  unfold owned. simpl. rewrite Hnd, Hp, bool_decide_true by done. simpl. rewrite HP, HD, Hds, Hdn.
  destruct (e_doc e); simpl; lia.
Qed.

Lemma evictLocked_ok id : ts !! t = Some (PEvict id) -> section_ok ts t (evictLocked r id).
Proof using Hri.
  intros Ht. unfold evictLocked. destruct (entries r !! id) as [i|] eqn:Em; [|by eapply move_ok].
  destruct (map_entry id i Em) as (e & He & Hid & Hp & Hdn). rewrite He. cbn [mbind option_bind].
  destruct (ready e) eqn:Hr; [|by eapply move_ok]. cbn [negb].
  destruct (Z.eqb_spec (refs e) 0) as [Hz|Hz]; [|by eapply move_ok]. cbn [negb orb].
  destruct (closing e) eqn:Hc; [by eapply move_ok|].
  pose proof (ri_entry _ _ Hri i e He) as Hinv.
  eapply change_ok; try done.
  - apply changes_put; [done|]. split_and!; simpl; auto; congruence.
  - intros kd j Hj. destruct kd; simpl; rewrite ?same_ne by done; done.
  - exists (set_closing true e). simpl. rewrite list_lookup_insert_eq by by eapply lookup_lt_Some. done.
  - rewrite (inmap_put r i e) by done. eapply einv_ext; [|by apply (retire_einv _ _ _ _ Hinv)].
    intros kd. destruct kd; simpl; rewrite ?same_refl; lia.
Qed.

(** The document of a generation retired without poison exists. *)
Lemma retired_doc i e p :
  ts !! t = Some p -> heap r !! i = Some e -> 1 <= tok Destroyer i p -> poisoned e = false -> e_doc e <> None.
Proof using Hri.
  intros Ht He Hd Hp. pose proof (total_ge r Destroyer i ts t p (ri_pc _ _ Hri) Ht).
  destruct (ri_entry _ _ Hri i e He) as [[] _]. unfold owned in *.
  assert (Hnd : destroying e = false) by refute.
  rewrite Hnd, Hp in ei_owned0. simpl in ei_owned0. rewrite andb_true_r in ei_owned0.
  destruct (closing e) eqn:Hc; simpl in ei_owned0; [|lia].
  case_bool_decide as Herr; [|lia]. destruct (ei_retired0 eq_refl Hp). auto.
Qed.

Lemma evictDestroy_ok id i : ts !! t = Some (PEvict1 id i) -> section_ok ts t (evictDestroy r id i).
Proof using Hri.
  intros Ht. pose proof (list.Forall_lookup_1 _ _ _ _ (ri_pc _ _ Hri) Ht) as (e & He & Hid & Hc & Hp).
  assert (Hd : 1 <= tok Destroyer i (PEvict1 id i)) by (simpl; rewrite same_refl; lia).
  eapply (destroy_ok i e); try done; [by eapply retired_doc|intros [] j; simpl; lia|].
  eapply (extends_retired r); [by apply extends_put with e|]. by exists e.
Qed.

(** A retired generation that is not done is still in the map. *)
Lemma retired_inmap i e p :
  ts !! t = Some p -> heap r !! i = Some e -> 1 <= tok Closer i p -> poisoned e = false ->
  entries r !! e_id e = Some i /\ i ∉ draining r.
Proof using Hri.
  intros Ht He Hc Hp. destruct (closer_facts i e p Ht He Hc) as (Hdn & _).
  destruct (ri_entry _ _ Hri i e He) as [[] _]. rewrite Hp, Hdn in *. unfold inmap, indrain in *.
  split; [by apply bool_decide_eq_true in ei_map0|by apply bool_decide_eq_false in ei_drain0].
Qed.

(** The last section of [Evict], and of [Close] for one generation. *)
Lemma done_changes id i e p p' :
  ts !! t = Some p -> heap r !! i = Some e -> e_id e = id -> 1 <= tok Closer i p -> poisoned e = false ->
  (forall kd j, tok kd j p' = tok kd j p - keq kd Closer * same j i) ->
  let r' := mkReg (closed r) (delete id (entries r)) (draining r) (<[i := set_done true e]> (heap r)) in
  pc_ok r' p' -> done e = false /\ entries r !! id = Some i /\ reg_inv r' (<[t := p']> ts).
Proof using Hri.
  intros Ht He Hid Hc Hp Htok r' Hpc. destruct (closer_facts i e p Ht He Hc) as (Hdn & _).
  destruct (retired_inmap i e p Ht He Hc Hp) as [Hm Hd]. subst id. split_and!; [done..|].
  pose proof (ri_entry _ _ Hri i e He) as Hinv.
  eapply (local_step r ts t p i e r' p' (set_done true e)); try done; [by right| | |].
  - intros kd j Hj. rewrite Htok, same_ne by done. lia.
  - intros. simpl. by eapply ri_closed.
  - eapply einv_ext; [|eapply (done_einv i e p _ _ _ _ Ht He Hc Hinv)].
    + intros kd. rewrite Htok, same_refl. lia.
    + unfold inmap. simpl. rewrite lookup_delete_eq. by apply bool_decide_false.
    + by apply bool_decide_false.
Qed.

Lemma evictLocked2_ok id i : ts !! t = Some (PEvict2 id i) -> section_ok ts t (evictLocked2 r id i).
Proof using Hri.
  intros Ht. pose proof (list.Forall_lookup_1 _ _ _ _ (ri_pc _ _ Hri) Ht) as (e & He & Hid & Hc & Hp).
  assert (Hcl : 1 <= tok Closer i (PEvict2 id i)) by (simpl; rewrite same_refl; lia).
  destruct (done_changes id i e _ (PRet RetNil) Ht He Hid Hcl Hp) as (Hdn & Hm & Hr); [|done|].
  { intros [] j; simpl; lia. }
  unfold evictLocked2, detach. rewrite decide_True by done. simpl. rewrite He. cbn [mbind option_bind].
  rewrite Hdn. cbn [close_chan mbind option_bind]. eexists _, _, []. rewrite app_nil_r. split; [done|]. exact Hr.
Qed.

Lemma closeDestroy_ok id i todo all :
  ts !! t = Some (PClose1 ((id, i) :: todo) all) -> section_ok ts t (closeDestroy r i todo all).
Proof using Hri.
  intros Ht. pose proof (list.Forall_lookup_1 _ _ _ _ (ri_pc _ _ Hri) Ht) as (Hall & pre & Hpre).
  destruct (Hall id i) as (e & He & Hid & Hc & Hp); [set_solver|].
  assert (Hd : 1 <= tok Destroyer i (PClose1 ((id, i) :: todo) all))
    by (simpl; rewrite same_refl; pose proof (occurs_nonneg i todo); lia).
  eapply (destroy_ok i e); try done; [by eapply retired_doc|intros [] j; simpl; lia|].
  split.
  - intros id' j Hin. eapply (extends_retired r); [by apply extends_put with e|]. by apply Hall.
  - exists (pre ++ [(id, i)]). by rewrite <- (assoc_L (++)).
Qed.

End Sections.

Lemma closeEntries_ok t all : forall r ts,
  reg_inv r ts -> ts !! t = Some (PClose2 all) ->
  exists r', closeEntries r all = Some r' /\ reg_inv r' (<[t := PRet RetNil]> ts).
Proof.
  induction all as [|[id i] all IH]; intros r ts Hri Ht.
  { exists r. split; [done|]. by eapply move_step; try done; intros []. }
  pose proof (list.Forall_lookup_1 _ _ _ _ (ri_pc _ _ Hri) Ht) as Hall.
  destruct (Hall id i) as (e & He & Hid & Hc & Hp); [set_solver|].
  assert (Hcl : 1 <= tok Closer i (PClose2 ((id, i) :: all)))
    by (simpl; rewrite same_refl; pose proof (occurs_nonneg i all); lia).
  destruct (done_changes r ts Hri t id i e _ (PClose2 all) Ht He Hid Hcl Hp) as (Hdn & Hm & Hr).
  - intros [] j; simpl; lia.
  - intros id' j Hin. eapply (extends_retired r); [|apply Hall; set_solver].
    intros k ek Hk. destruct (extends_put r i e (set_done true e) He (follows_done e) k ek Hk) as (e2 & ? & ?). by exists e2.
  - simpl. rewrite He. cbn [mbind option_bind]. rewrite Hdn. cbn [close_chan mbind option_bind].
    destruct (IH _ _ Hr) as (r' & Hr1 & Hr2).
    { apply list_lookup_insert_eq. by eapply lookup_lt_Some. }
    exists r'. rewrite list_insert_insert_eq in Hr2. done.
Qed.

(** A live generation is the one of its id. *)
Lemma live_inmap r ts (Hri : reg_inv r ts) i e :
  heap r !! i = Some e -> closing e = false -> entries r !! e_id e = Some i.
Proof.
  intros Hi Hc. destruct (ri_entry _ _ Hri i e Hi) as [[] _].
  assert (Hp : poisoned e = false) by refute.
  assert (Hnd : destroying e = false) by refute.
  unfold owned in ei_owned0. rewrite Hnd, Hc in ei_owned0. simpl in ei_owned0.
  destruct ei_owned0 as (_ & _ & _ & Hdn). rewrite Hp, Hdn in ei_map0. by apply bool_decide_eq_true in ei_map0.
Qed.

(** The first section of [Close] retires every generation of the map. *)
Lemma closing_lookup (all : list (string * nat)) (h : list entry) (i : nat) :
  fold_left (fun h p => alter (set_closing true) (snd p) h) all h !! i =
  (if decide (i ∈ all.*2) then set_closing true <$> h !! i else h !! i).
Proof.
  revert h. induction all as [|[id j] all IH]; intros h; [done|]. cbn [fold_left snd]. rewrite IH. cbn [fmap list_fmap snd].
  destruct (decide (i = j)) as [->|Hne].
  - rewrite list_lookup_alter_eq, (decide_True (P := j ∈ j :: _)) by by left.
    case_decide; [|done]. by destruct (h !! j).
  - rewrite list_lookup_alter_ne by done. destruct (decide (i ∈ all.*2)) as [Hin|Hin].
    + by rewrite decide_True by by right.
    + by rewrite decide_False by (inversion 1; by simplify_eq).
Qed.

Lemma closing_length (all : list (string * nat)) (h : list entry) :
  length (fold_left (fun h p => alter (set_closing true) (snd p) h) all h) = length h.
Proof. revert h. induction all as [|p all IH]; intros h; [done|]. simpl. by rewrite IH, length_alter. Qed.

Lemma occurs_1 i l : NoDup l.*2 -> i ∈ l.*2 -> occurs i l = 1.
Proof.
  induction l as [|[id j] l IH]; simpl; [by inversion 2|].
  intros [Hj Hl]%list.NoDup_cons [->|Hin]%elem_of_cons.
  - rewrite same_refl, occurs_0; [done|]. intros id' Hin. apply Hj. apply list_elem_of_fmap. by exists (id', j).
  - rewrite same_ne by (intros ->; done). by rewrite IH.
Qed.

Lemma closeLocked_ok r ts t :
  reg_inv r ts -> ts !! t = Some PClose -> section_ok ts t (closeLocked r).
Proof.
  intros Hri Ht. unfold closeLocked. destruct (closed r) eqn:Ecl; [by eapply move_ok|].
  destruct (size (draining r) =? 0)%nat eqn:Hdr; [|by eapply move_ok]. cbn [negb].
  set (all := map_to_list (entries r)). destruct (forallb _ all) eqn:Hall; [|by eapply move_ok].
  set (r' := mkReg true _ _ _).
  assert (Hin : forall i, i ∈ all.*2 <-> exists id, entries r !! id = Some i).
  { intros i. rewrite list_elem_of_fmap. split.
    - intros ([id j] & -> & H%elem_of_map_to_list). by exists id.
    - intros [id H]. exists (id, i). split; [done|]. by apply elem_of_map_to_list. }
  assert (Hidle : forall id i, entries r !! id = Some i -> exists e, heap r !! i = Some e /\ e_id e = id /\
     ready e = true /\ refs e = 0 /\ closing e = false).
  { intros id i Hm. destruct (map_entry r ts Hri id i Hm) as (e & He & Hid & _). exists e.
    rewrite forallb_forall in Hall. specialize (Hall (id, i)). unfold idle in Hall. simpl in Hall. rewrite He in Hall.
    assert (Hx : ready e && (refs e =? 0) && negb (closing e) = true)
      by (apply Hall, list_elem_of_In, elem_of_map_to_list, Hm).
    apply andb_prop in Hx as [Hx ?%negb_true_iff]. apply andb_prop in Hx as [? ?%Z.eqb_eq]. done. }
  assert (Hnd : NoDup all.*2).
  { apply NoDup_fmap_2_strong; [|apply NoDup_map_to_list]. intros [id1 i1] [id2 i2] H1%elem_of_map_to_list H2%elem_of_map_to_list Heq.
    simpl in Heq. subst i2. destruct (Hidle _ _ H1) as (e1 & ? & ? & _). destruct (Hidle _ _ H2) as (e2 & ? & ? & _). congruence. }
  assert (Hlk : forall i, heap r' !! i = if decide (i ∈ all.*2) then set_closing true <$> heap r !! i else heap r !! i)
    by (intros i; apply closing_lookup).
  assert (Hx : extends r r').
  { intros i e He. rewrite Hlk, He. case_decide as Hi; [|by exists e]. exists (set_closing true e). split; [done|].
    apply Hin in Hi as [id Hm]. destruct (Hidle _ _ Hm) as (e1 & He1 & _ & _ & _ & Hc).
    assert (e1 = e) as -> by congruence. split_and!; simpl; auto; congruence. }
  assert (Hpc' : forall id i, (id, i) ∈ all -> retired r' false id i).
  { intros id i Hm%elem_of_map_to_list. destruct (map_entry r ts Hri id i Hm) as (e & He & Hid & Hp & _).
    exists (set_closing true e). rewrite Hlk, He, decide_True by (apply Hin; eauto). done. }
  exists r', (PClose1 all all), []. rewrite app_nil_r. split; [done|].
  pose proof Hri as [He1 He2 He3 He4 He5 He6]. split.
  - intros i e Hi. rewrite Hlk in Hi.
    assert (Htot : forall kd, total kd i (<[t := PClose1 all all]> ts) =
      total kd i ts + (if decide (i ∈ all.*2) then keq kd Destroyer else 0)).
    { intros kd. rewrite (total_insert kd i ts t _ _ Ht). case_decide as Hi'.
      - destruct kd; simpl; rewrite ?(occurs_1 i all Hnd Hi'); lia.
      - assert (Ho : occurs i all = 0) by (apply occurs_0; intros id Hii; apply Hi'; apply list_elem_of_fmap; by exists (id, i)).
        destruct kd; simpl; rewrite ?Ho; lia. }
    eapply einv_ext; [intros kd; symmetry; apply Htot|]. case_decide as Hi'.
    + destruct (heap r !! i) as [e0|] eqn:He0; [|done]. injection Hi as <-.
      apply Hin in Hi' as [id Hm]. destruct (Hidle _ _ Hm) as (e2 & He2' & _ & Hr & Hz & Hc).
      assert (e2 = e0) as -> by congruence. by apply (retire_einv _ _ _ _ (He1 i e0 He0)).
    + eapply einv_ext, (He1 i e Hi). intros kd. simpl. lia.
  - intros id i Hm. apply (extends_known r); [done|]. by apply He2.
  - intros i Hi. simpl. rewrite closing_length. by apply He3.
  - apply list.Forall_insert; [|split; [done|by exists []]].
    eapply list.Forall_impl; [exact He4|]. intros q. by apply pc_ok_extends.
  - intros _ i e Hi. rewrite Hlk in Hi. case_decide as Hi'.
    + destruct (heap r !! i); [|done]. by injection Hi as <-.
    + destruct (closing e) eqn:Hc; [done|]. exfalso. apply Hi', Hin. exists (e_id e).
      by apply (live_inmap r ts Hri).
  - intros _. simpl. apply Nat.eqb_eq, size_empty_inv in Hdr. by apply leibniz_equiv.
Qed.

(** *** Reachable worlds *)
Lemma commit_inv w t s : winv w -> section_ok (threads w) t s -> winv (commit w t s).
Proof. intros [Hp Hri] (r' & p' & new & -> & Hr'). by split. Qed.

Lemma goto_inv w t p p' :
  winv w -> threads w !! t = Some p -> (forall kd j, tok kd j p' = tok kd j p) -> pc_ok (reg w) p' ->
  winv (goto w t p').
Proof. intros [Hp Hri] Ht Htok Hpc. split; [done|]. by eapply move_step. Qed.

Lemma call_inv w p : winv w -> call p -> winv (mkWorld (reg w) (threads w ++ [p]) (cancelled w) (panicked w)).
Proof.
  intros [Hp [He1 He2 He3 He4 He5 He6]] Hc. split; [done|]. simpl. split; try done.
  - intros i e Hi. eapply einv_ext, He1, Hi. intros kd. simpl. rewrite total_app.
    destruct p; try done; destruct kd; simpl; lia.
  - apply list.Forall_app. split; [done|]. apply list.Forall_singleton. by destruct p.
Qed.

Lemma step_inv w w' : step w w' -> winv w -> winv w'.
Proof.
  destruct 1; intros Hw; pose proof Hw as [Hpn Hri];
    try (apply commit_inv; [done|]); try (by eapply goto_inv; [done..|intros []|]).
  - by apply call_inv.
  - by split.
  - by apply acquireLocked_ok.
  - by apply awaitReady_ok.
  - by eapply awaitCancelled_ok.
  - by apply runOpenLocked_ok.
  - by apply releaseLocked_ok.
  - by apply finishDestroy_ok.
  - by apply finishLocked_ok.
  - by apply invalidateLocked_ok.
  - by apply evictLocked_ok.
  - by apply evictDestroy_ok.
  - by apply evictLocked2_ok.
  - by apply closeLocked_ok.
  - by eapply closeDestroy_ok.
  - eapply goto_inv; [done..| |].
    + intros [] j; simpl; lia.
    + by destruct (list.Forall_lookup_1 _ _ _ _ (ri_pc _ _ Hri) H) as [Hall _].
  - unfold closeLocked2. destruct (closeEntries_ok t all (reg w) (threads w) Hri H) as (r' & -> & Hr').
    eexists _, _, []. rewrite app_nil_r. split; [done|]. exact Hr'.
Qed.

Lemma init_inv : winv init.
Proof. split; [done|]. split; simpl; try done; set_solver. Qed.

Lemma reachable_inv w : reachable w -> winv w.
Proof.
  intros Hr. assert (Hg : forall w1, rtc step w1 w -> winv w1 -> winv w).
  { clear. induction 1; [done|]. eauto using step_inv. }
  apply (Hg init Hr init_inv).
Qed.

(** A held generation is alive: claimed, not owned by a destroyer. *)
Lemma held_facts w t i :
  reachable w -> threads w !! t = Some (PHeld i) ->
  exists e, heap (reg w) !! i = Some e /\ einv0 e (inmap (reg w) i e) (indrain (reg w) i) (fun kd => total kd i (threads w)) /\
    refs e <> 0 /\ ready e = true /\ e_err e = None /\ owned e = false /\ (closing e = true -> poisoned e = true).
Proof.
  intros Hr Ht. destruct (reachable_inv w Hr) as [_ Hri].
  destruct (list.Forall_lookup_1 _ _ _ _ (ri_pc _ _ Hri) Ht) as (id & e & He & _).
  pose proof (total_ge _ Holder i _ t _ (ri_pc _ _ Hri) Ht) as Hg. simpl in Hg. rewrite same_refl in Hg.
  destruct (ri_entry _ _ Hri i e He) as [Hinv _]. exists e. pose proof Hinv as [].
  assert (Hz : refs e <> 0) by lia. destruct (ei_claimed0 (ei_refs_claimed0 Hz)) as [Hrd Herr].
  assert (Hcp : closing e = true -> poisoned e = true).
  { intros Hc. destruct (poisoned e) eqn:Hp; [done|]. by destruct (ei_retired0 Hc eq_refl). }
  split_and!; try done. unfold owned.
  destruct (destroying e); [by destruct (ei_destroying0 eq_refl) as (_ & _ & ?)|].
  destruct (closing e); [|done]. by rewrite (Hcp eq_refl).
Qed.

(** ** Properties *)

(** C26. No interleaving of the operations of the registry panics: no channel
    is closed twice, no handle is released without a reference, and [Destroy]
    is never called on a nil document. *)
Theorem registry_never_panics (w : world) : reachable w -> panicked w = false.
Proof. intros Hr. by destruct (reachable_inv w Hr). Qed.

(** While a caller holds a handle, its document exists and the registry
    has not destroyed it, whatever the other goroutines do; and as long as
    the handle has not been invalidated, its generation is the registry's
    current one for the id. *)
Theorem handle_keeps_document (w : world) (t i : nat) :
  reachable w -> threads w !! t = Some (PHeld i) ->
  exists e, heap (reg w) !! i = Some e /\ e_doc e <> None /\ destroys e = 0 /\
    (invalidated e = false -> entries (reg w) !! e_id e = Some i).
Proof.
  intros Hr Ht. destruct (held_facts w t i Hr Ht) as (e & He & [] & Hz & Hrd & Herr & Ho & Hcp).
  rewrite Ho in ei_owned0. destruct ei_owned0 as (_ & _ & Hds & _). exists e. split_and!; auto.
  intros Hni. destruct (reachable_inv w Hr) as [_ Hri]. apply (live_inmap _ _ Hri); [done|].
  destruct (closing e) eqn:Hc; [|done]. specialize (ei_signal0 (Hcp eq_refl) Hz). congruence.
Qed.

(** C27. Two handles of one document id that have not been invalidated share
    one generation, so their holders mutate the same document. *)
Theorem one_live_document (w : world) (t1 t2 i1 i2 : nat) (e1 e2 : entry) :
  reachable w -> threads w !! t1 = Some (PHeld i1) -> threads w !! t2 = Some (PHeld i2) ->
  heap (reg w) !! i1 = Some e1 -> heap (reg w) !! i2 = Some e2 -> e_id e1 = e_id e2 ->
  invalidated e1 = false -> invalidated e2 = false -> i1 = i2.
Proof.
  intros Hr Ht1 Ht2 He1 He2 Hid Hn1 Hn2. destruct (reachable_inv w Hr) as [_ Hri].
  assert (Hlive : forall t i e, threads w !! t = Some (PHeld i) -> heap (reg w) !! i = Some e ->
    invalidated e = false -> entries (reg w) !! e_id e = Some i).
  { intros t i e Ht He Hn. destruct (held_facts w t i Hr Ht) as (e' & He' & [] & Hz & _ & _ & _ & Hcp).
    assert (e' = e) as -> by congruence. apply (live_inmap _ _ Hri); [done|].
    destruct (closing e) eqn:Hc; [|done]. specialize (ei_signal0 (Hcp eq_refl) Hz). congruence. }
  pose proof (Hlive _ _ _ Ht1 He1 Hn1) as H1. pose proof (Hlive _ _ _ Ht2 He2 Hn2) as H2.
  rewrite Hid in H1. congruence.
Qed.

(** The document of a generation is destroyed at most once, and only
    after the generation has been retired. *)
Theorem destroyed_at_most_once (w : world) (i : nat) (e : entry) :
  reachable w -> heap (reg w) !! i = Some e -> 0 <= destroys e <= 1 /\ (destroys e <> 0 -> closing e = true).
Proof.
  intros Hr He. destruct (reachable_inv w Hr) as [_ Hri]. destruct (ri_entry _ _ Hri i e He) as [[] _].
  pose proof (total_nonneg _ Destroyer i _ (ri_pc _ _ Hri)). pose proof (total_nonneg _ Closer i _ (ri_pc _ _ Hri)).
  unfold owned in ei_owned0. destruct (destroying e) eqn:Hd; simpl in ei_owned0.
  - destruct (ei_destroying0 eq_refl) as [Hp _]. rewrite (ei_pc0 Hp). destruct ei_owned0 as [H1 ->].
    unfold b2z in *. destruct (e_doc e), (done e); split; (done || lia).
  - destruct (closing e && negb (poisoned e) && bool_decide (e_err e = None)) eqn:Ho.
    + apply andb_prop in Ho as [[Hc _]%andb_prop _]. destruct ei_owned0 as [H1 ->].
      unfold b2z in *. destruct (e_doc e), (done e); split; (done || lia).
    + destruct ei_owned0 as (_ & _ & -> & _). split; [lia|done].
Qed.

(** C28. Nothing leaks: when every call has returned, every handle has been
    released and no open is running, nothing is draining, and every generation
    is either the cached one of its id or done, with its document destroyed
    exactly once if its open succeeded. *)
Theorem quiescent_registry_leaks_nothing (w : world) (i : nat) (e : entry) :
  reachable w -> Forall (fun p => exists o, p = PRet o) (threads w) -> heap (reg w) !! i = Some e ->
  (i ∉ draining (reg w)) /\
  (if closing e then done e = true /\ (e_err e = None -> destroys e = 1)
   else entries (reg w) !! e_id e = Some i /\ destroys e = 0).
Proof.
  intros Hr Hq He. destruct (reachable_inv w Hr) as [_ Hri].
  assert (Hz : forall kd, total kd i (threads w) = 0).
  { intros kd. clear -Hq. induction Hq as [|p ts [o ->] Hq IH]; simpl; [done|]. rewrite IH. by destruct kd. }
  pose proof (fun H => live_inmap _ _ Hri i e He H) as Hlive.
  destruct (ri_entry _ _ Hri i e He) as [[] Htk]. rewrite !Hz in *.
  assert (Hrd : ready e = true) by (destruct (ready e); [done|lia]).
  assert (Hdone : closing e = true -> done e = true /\ (e_err e = None -> destroys e = 1)).
  { intros Hc. unfold owned in ei_owned0. rewrite Hc in ei_owned0. simpl in ei_owned0.
    destruct (poisoned e) eqn:Hp.
    - rewrite (Htk eq_refl Hrd ei_refs0) in ei_owned0. simpl in ei_owned0. destruct ei_owned0 as [H1 H2].
      assert (Hd : done e = true) by (destruct (done e); simpl in *; lia). split; [done|]. intros Herr.
      rewrite H2, Hd. specialize (ei_doc0 Hrd Herr). by destruct (e_doc e).
    - assert (Hnd : destroying e = false) by refute.
      rewrite Hnd in ei_owned0. simpl in ei_owned0. case_bool_decide as Herr.
      + destruct ei_owned0 as [H1 H2]. assert (Hd : done e = true) by (destruct (done e); simpl in *; lia).
        split; [done|]. intros _. rewrite H2, Hd. specialize (ei_doc0 Hrd Herr). by destruct (e_doc e).
      + destruct ei_owned0 as (_ & _ & _ & Hd). done. }
  split.
  - unfold indrain in ei_drain0. intros Hin. rewrite bool_decide_true in ei_drain0 by done.
    destruct (poisoned e); [|done]. by destruct (Hdone (ei_pc0 eq_refl)) as [Hd _]; rewrite Hd in ei_drain0.
  - destruct (closing e) eqn:Hc; [auto|]. split; [auto|]. unfold owned in ei_owned0. rewrite Hc in ei_owned0.
    destruct (destroying e); simpl in *; [naive_solver|]. by destruct ei_owned0 as (_ & _ & ? & _).
Qed.

(** [Close] never invalidates a handed-out document: once the registry is
    closed no handle is outstanding, and nothing is draining. *)
Theorem closed_registry_has_no_handle (w : world) (t i : nat) :
  reachable w -> closed (reg w) = true -> draining (reg w) = ∅ /\ threads w !! t <> Some (PHeld i).
Proof.
  intros Hr Hcl. destruct (reachable_inv w Hr) as [_ Hri]. pose proof (ri_drained _ _ Hri Hcl) as Hd.
  split; [done|]. intros Ht. destruct (held_facts w t i Hr Ht) as (e & He & [] & Hz & Hrd & Herr & Ho & Hcp).
  pose proof (ri_closed _ _ Hri Hcl i e He) as Hc. rewrite Ho, Hc, (Hcp Hc) in ei_owned0.
  destruct ei_owned0 as (_ & _ & _ & Hdn). unfold indrain in ei_drain0. rewrite Hd in ei_drain0.
  rewrite (Hcp Hc), Hdn in ei_drain0. by rewrite bool_decide_false in ei_drain0 by set_solver.
Qed.

(** *** Sample executions *)

(** Goroutine 0 acquires "doc", goroutine 1 opens it; goroutine 2 joins. *)
Definition run1 : world := mkWorld NewRegistry [PAcquire 0 "doc"] ∅ false.
Definition run2 : world := goto run1 0 (PAcquireL 0 "doc").
Definition run3 : world := commit run2 0 (acquireLocked (reg run2) 0 "doc").
Definition run4 : world := commit run3 1 (runOpenLocked (reg run3) "doc" 0 (Some 42) None).
Definition run5 : world := commit run4 0 (awaitReady (ctx_err run4 0) (reg run4) 0 "doc" 0).
Definition run6 : world := mkWorld (reg run5) (threads run5 ++ [PAcquire 0 "doc"]) ∅ false.
Definition run7 : world := goto run6 2 (PAcquireL 0 "doc").
Definition run8 : world := commit run7 2 (acquireLocked (reg run7) 0 "doc").
Definition run9 : world := commit run8 2 (awaitReady (ctx_err run8 0) (reg run8) 0 "doc" 0).

Lemma run5_reachable : reachable run5.
Proof.
  apply (rtc_l _ _ run1); [by apply (step_call init (PAcquire 0 "doc"))|]. apply (rtc_l _ _ run2).
  { apply (step_acquire_ok run1 0 0 "doc"); [done|]. apply not_elem_of_empty. }
  apply (rtc_l _ _ run3); [by apply (step_acquire run2 0 0 "doc")|]. apply (rtc_l _ _ run4); [by apply (step_open run3 1 "doc" 0 (Some 42) None)|].
  apply rtc_once. apply (step_await_ready run4 0 0 "doc" 0); [done|]. by eexists.
Qed.

Lemma run9_reachable : reachable run9.
Proof.
  unfold reachable. transitivity run5; [exact run5_reachable|].
  apply (rtc_l _ _ run6); [by apply (step_call run5 (PAcquire 0 "doc"))|]. apply (rtc_l _ _ run7).
  { apply (step_acquire_ok run6 2 0 "doc"); [done|]. apply not_elem_of_empty. }
  apply (rtc_l _ _ run8); [by apply (step_acquire run7 2 0 "doc")|].
  apply rtc_once. apply (step_await_ready run8 2 0 "doc" 0); [done|]. by eexists.
Qed.

(** Goroutine 0 releases; goroutine 2 closes the registry. *)
Definition end1 : world := commit run5 0 (releaseLocked (reg run5) 0).
Definition end2 : world := mkWorld (reg end1) (threads end1 ++ [PClose]) ∅ false.
Definition end3 : world := commit end2 2 (closeLocked (reg end2)).
Definition end4 : world := commit end3 2 (closeDestroy (reg end3) 0 [] [("doc", 0%nat)]).
Definition end5 : world := goto end4 2 (PClose2 [("doc", 0%nat)]).
Definition end6 : world := commit end5 2 (closeLocked2 (reg end5) [("doc", 0%nat)]).

Lemma end6_reachable : reachable end6.
Proof.
  unfold reachable. transitivity run5; [exact run5_reachable|].
  apply (rtc_l _ _ end1); [by apply (step_release run5 0 0)|]. apply (rtc_l _ _ end2); [by apply (step_call end1 PClose)|].
  apply (rtc_l _ _ end3); [by apply (step_close end2 2)|].
  apply (rtc_l _ _ end4); [by apply (step_close1 end3 2 "doc" 0 [] [("doc", 0%nat)])|].
  apply (rtc_l _ _ end5); [by apply (step_close1_end end4 2)|]. apply rtc_once. by apply (step_close2 end5 2).
Qed.

Lemma registry_never_panics_witness : panicked end6 = false.
Proof. exact (registry_never_panics end6 end6_reachable). Defined.

Lemma run5_held : threads run5 !! 0%nat = Some (PHeld 0).
Proof. vm_compute. reflexivity. Qed.

Lemma handle_keeps_document_witness :
  exists e, heap (reg run5) !! 0%nat = Some e /\ e_doc e <> None /\ destroys e = 0 /\
    (invalidated e = false -> entries (reg run5) !! e_id e = Some 0%nat).
Proof. exact (handle_keeps_document run5 0 0 run5_reachable run5_held). Defined.

Definition run9_entry : entry :=
  mkEntry "doc" true false false false 0 true (Some 42) None 2 false false false 0.

Lemma run9_shape : heap (reg run9) !! 0%nat = Some run9_entry /\ threads run9 !! 0%nat = Some (PHeld 0) /\
  threads run9 !! 2%nat = Some (PHeld 0).
Proof. split_and!; vm_compute; reflexivity. Qed.

Lemma one_live_document_witness : threads run9 !! 0%nat = Some (PHeld 0) /\
  threads run9 !! 2%nat = Some (PHeld 0) /\ 0%nat = 0%nat.
Proof.
  destruct run9_shape as (He & H0 & H2). split; [exact H0|]. split; [exact H2|].
  exact (one_live_document run9 0 2 0 0 run9_entry run9_entry run9_reachable H0 H2 He He eq_refl eq_refl eq_refl).
Defined.

Definition end6_entry : entry :=
  mkEntry "doc" true false true false 0 true (Some 42) None 0 true false false 1.

Lemma end6_shape : heap (reg end6) !! 0%nat = Some end6_entry /\
  threads end6 = [PRet RetNil; PRet RetNil; PRet RetNil] /\ closed (reg end6) = true.
Proof. split_and!; vm_compute; reflexivity. Qed.

(** [Close] does not cancel the context of a generation that was acquired: the
    document was opened, acquired, released and destroyed by [Close], and its
    open context was never cancelled. *)
Lemma close_leaves_open_context : reachable end6 /\ closed (reg end6) = true /\
  exists e, heap (reg end6) !! 0%nat = Some e /\ closing e = true /\ openCancelled e = false.
Proof.
  destruct end6_shape as (He & _ & Hc). split; [exact end6_reachable|]. split; [exact Hc|].
  exists end6_entry. split; [exact He|]. split; reflexivity.
Qed.

Lemma end6_quiet : Forall (fun p => exists o, p = PRet o) (threads end6).
Proof. rewrite (proj1 (proj2 end6_shape)). repeat constructor; by eexists. Qed.

Lemma destroyed_at_most_once_witness :
  0 <= destroys end6_entry <= 1 /\ (destroys end6_entry <> 0 -> closing end6_entry = true).
Proof. exact (destroyed_at_most_once end6 0 end6_entry end6_reachable (proj1 end6_shape)). Defined.

Lemma quiescent_registry_leaks_nothing_witness :
  (0%nat ∉ draining (reg end6)) /\ done end6_entry = true /\ (e_err end6_entry = None -> destroys end6_entry = 1).
Proof.
  exact (quiescent_registry_leaks_nothing end6 0 end6_entry end6_reachable end6_quiet (proj1 end6_shape)).
Defined.

Lemma closed_registry_has_no_handle_witness :
  draining (reg end6) = ∅ /\ threads end6 !! 0%nat <> Some (PHeld 0).
Proof. exact (closed_registry_has_no_handle end6 0 0 end6_reachable (proj2 (proj2 end6_shape))). Defined.
