(* ===== verification/Hub.v ===== *)
(** * The in-process hub

    Models [backend/hub/hub.go]: fan-out of messages to the subscribers of a
    document. The state is the two-level map of the code (document to
    subscription id to subscription); a subscription is its record, and the
    [sync.Once] of its [Close] is the flag [s_closed] of the caller's handle.
    A handler is a number that names the callback; what it returns is the
    parameter [run] of [Publish]. The abstract specification [active] is one
    flat map from subscription ids to subscriptions. *)
From stdpp Require Import strings.
From S2P Require Import Prelude.

Inductive MessageKind : Type :=
| DocumentUpdate
| AwarenessUpdate
| OtherKind (k : Z). (* any other uint8 *)

Record Message := mkMessage {
  DocumentID : string;
  SourceID : string;
  Kind : MessageKind;
  Payload : list Z;
}.

Inductive hubError : Type :=
| HubClosed
| ErrInvalidMessage
| CtxErr
| HandlerErr (code : Z).

Record subscription := mkSub {
  s_id : Z;
  s_document : string;
  s_source : string;
  s_handler : Z;
}.

Record InProcess := mkHub {
  h_closed : bool;
  nextID : Z;
  subs : gmap string (gmap Z subscription);
}.

Definition NewInProcess : InProcess := mkHub false 0 ∅.

(** A subscription as its caller holds it: [s_closed] is its [sync.Once]. *)
Record handle := mkHandle { h_sub : subscription; s_closed : bool }.

(** [inProcessSubscription.Close]. *)
Definition closeSubscription (h : InProcess) (s : handle) : InProcess * handle :=
  if s_closed s then (h, s)
  else
    let document := s_document (h_sub s) in
    let h' :=
      match subs h !! document with
      | Some subscriptions =>
          let subscriptions := delete (s_id (h_sub s)) subscriptions in
          mkHub (h_closed h) (nextID h)
            (if (size subscriptions =? 0)%nat then delete document (subs h)
             else <[document := subscriptions]> (subs h))
      | None => h
      end in
    (h', mkHandle (h_sub s) true).

(** [Subscribe]; [handler = None] is a nil handler, [ctxErr] is [ctx.Err()]. *)
Definition Subscribe (h : InProcess) (ctxErr : bool) (document source : string) (handler : option Z)
    : (handle + hubError) * InProcess :=
  match handler with
  | None => (inr ErrInvalidMessage, h)
  | Some handler =>
      if decide (document = "") then (inr ErrInvalidMessage, h)
      else if ctxErr then (inr CtxErr, h)
      else if h_closed h then (inr HubClosed, h)
      else
        let id := u64 (nextID h + 1) in
        let subscription := mkSub id document source handler in
        let inner := default ∅ (subs h !! document) in
        (inl (mkHandle subscription false),
         mkHub (h_closed h) id (<[document := <[id := subscription]> inner]> (subs h)))
  end.

(** The subscriptions that [Publish] snapshots under the lock. *)
Definition recipients (h : InProcess) (message : Message) : list subscription :=
  filter (fun s => ~ (SourceID message <> "" /\ s_source s = SourceID message))
    (snd <$> map_to_list (default ∅ (subs h !! DocumentID message))).

(** The delivery loop: the deliveries made and the errors joined; [ctx i] is
    [ctx.Err() != nil] before the [i]-th delivery. *)
Fixpoint deliver (ctx : nat -> bool) (run : Z -> Message -> option Z) (message : Message) (i : nat)
    (todo : list subscription) : list subscription * list hubError :=
  match todo with
  | [] => ([], [])
  | s :: todo' =>
      if ctx i then ([], [CtxErr])
      else
        let '(out, errs) := deliver ctx run message (S i) todo' in
        (s :: out, match run (s_handler s) message with Some e => HandlerErr e :: errs | None => errs end)
  end.

Definition valid (message : Message) : bool :=
  negb (bool_decide (DocumentID message = "")) &&
  match Kind message with OtherKind _ => false | _ => true end.

(** [Publish]: the deliveries made and the errors; no error is nil. *)
Definition Publish (h : InProcess) (ctxErr : bool) (ctx : nat -> bool) (run : Z -> Message -> option Z)
    (message : Message) : list subscription * list hubError :=
  if negb (valid message) then ([], [ErrInvalidMessage])
  else if ctxErr then ([], [CtxErr])
  else if h_closed h then ([], [HubClosed])
  else deliver ctx run message 0 (recipients h message).

(** [InProcess.Close]. *)
Definition Close (h : InProcess) : InProcess :=
  if h_closed h then h else mkHub true (nextID h) ∅.

(** ** The abstract hub *)

(** The well-formed states: a subscription is filed under its own document and
    id, ids are at most [nextID], and no document has an empty map. *)
Record hub_ok (h : InProcess) : Prop := {
  ho_filed d m i s : subs h !! d = Some m -> m !! i = Some s -> s_document s = d /\ s_id s = i;
  ho_bound d m i s : subs h !! d = Some m -> m !! i = Some s -> 0 < i <= nextID h;
  ho_nonempty d m : subs h !! d = Some m -> m <> ∅;
  ho_next : 0 <= nextID h < 2 ^ 64;
  ho_closed : h_closed h = true -> subs h = ∅;
}.

(** [s] is registered. *)
Definition active (h : InProcess) (s : subscription) : Prop :=
  exists m, subs h !! s_document s = Some m /\ m !! s_id s = Some s.

Lemma new_ok : hub_ok NewInProcess.
Proof. split; simpl; try done; lia. Qed.

Lemma Subscribe_spec h c d src hd s h' :
  hub_ok h -> nextID h < 2 ^ 64 - 1 -> Subscribe h c d src hd = (inl s, h') ->
  hub_ok h' /\ s_closed s = false /\ s_document (h_sub s) = d /\ s_source (h_sub s) = src /\
  hd = Some (s_handler (h_sub s)) /\ ~ active h (h_sub s) /\
  forall x, active h' x <-> active h x \/ x = h_sub s.
Proof.
  intros Hok Hn. unfold Subscribe. destruct hd as [hd|]; [|done]. case_decide as Hd; [done|].
  destruct c; [done|]. destruct (h_closed h) eqn:Hc; [done|]. intros [= <- <-]. pose proof Hok as [Hf Hb Hne Hx Hcl].
  rewrite u64_small by (unfold is_u64; lia). simpl. set (id := nextID h + 1). set (new := mkSub id d src hd).
  assert (Hfresh : forall m i, subs h !! d = Some m -> is_Some (m !! i) -> i <> id).
  { intros m i Hm [s Hs]. specialize (Hb _ _ _ _ Hm Hs). unfold id. lia. }
  assert (Hlk : forall d' m, <[d := <[id := new]> (default ∅ (subs h !! d))]> (subs h) !! d' = Some m ->
     d' = d /\ m = <[id := new]> (default ∅ (subs h !! d)) \/ d' <> d /\ subs h !! d' = Some m).
  { intros d' m [[<- <-]|[? ?]]%lookup_insert_Some; auto. }
  assert (Hin : forall m i s, m = <[id := new]> (default ∅ (subs h !! d)) -> m !! i = Some s ->
     i = id /\ s = new \/ i <> id /\ exists m0, subs h !! d = Some m0 /\ m0 !! i = Some s).
  { intros m i s -> [[<- <-]|[Hi Hs]]%lookup_insert_Some; [auto|]. right. split; [done|].
    destruct (subs h !! d) as [m0|]; [by exists m0|]. simpl in Hs. by rewrite lookup_empty in Hs. }
  split_and!; try done.
  - split; simpl.
    + intros d' m i s Hm Hs. destruct (Hlk _ _ Hm) as [[-> ->]|[_ Hm']]; [|by eapply Hf].
      destruct (Hin _ _ _ eq_refl Hs) as [[-> ->]|(_ & m0 & Hm0 & Hs0)]; [done|by eapply Hf].
    + intros d' m i s Hm Hs. destruct (Hlk _ _ Hm) as [[-> ->]|[_ Hm']]; [|specialize (Hb _ _ _ _ Hm' Hs); lia].
      destruct (Hin _ _ _ eq_refl Hs) as [[-> ->]|(_ & m0 & Hm0 & Hs0)]; [unfold id; lia|].
      specialize (Hb _ _ _ _ Hm0 Hs0). lia.
    + intros d' m Hm. destruct (Hlk _ _ Hm) as [[-> ->]|[_ Hm']]; [apply insert_non_empty|by eapply Hne].
    + unfold id. lia.
    + congruence.
  - intros (m & Hm & Hs). simpl in Hm, Hs. by eapply (Hfresh m id Hm).
  - intros x. unfold active. simpl. split.
    + intros (m & Hm & Hs). destruct (Hlk _ _ Hm) as [[Hd' ->]|[_ Hm']]; [|left; by exists m].
      destruct (Hin _ _ _ eq_refl Hs) as [[_ ->]|(_ & m0 & Hm0 & Hs0)]; [by right|]. left. exists m0. by rewrite Hd'.
    + intros [(m & Hm & Hs)| ->].
      * destruct (decide (s_document x = d)) as [<-|Hd'].
        -- rewrite lookup_insert_eq, Hm. simpl. eexists. split; [done|].
           rewrite lookup_insert_ne; [done|]. intros Heq. eapply (Hfresh m _ Hm); [by eexists|done].
        -- exists m. by rewrite lookup_insert_ne.
      * simpl. rewrite lookup_insert_eq. eexists. split; [done|]. by rewrite lookup_insert_eq.
Qed.

Lemma closeSubscription_spec h s h' s' :
  hub_ok h -> closeSubscription h s = (h', s') ->
  hub_ok h' /\ s_closed s' = true /\ h_sub s' = h_sub s /\
  forall x, active h' x <-> active h x /\
    (s_closed s = true \/ s_document x <> s_document (h_sub s) \/ s_id x <> s_id (h_sub s)).
Proof.
  intros Hok. unfold closeSubscription. destruct (s_closed s) eqn:Hc.
  { intros [= <- <-]. split_and!; try done. intros x. split; [by auto|by intros [? _]]. }
  pose proof Hok as [Hf Hb Hne Hx Hcl]. set (d := s_document (h_sub s)). set (i0 := s_id (h_sub s)).
  destruct (subs h !! d) as [m|] eqn:Hm; intros [= <- <-].
  - set (m' := delete i0 m).
    set (S' := if (size m' =? 0)%nat then delete d (subs h) else <[d := m']> (subs h)).
    assert (HS : forall d', S' !! d' = if decide (d' = d) then (if (size m' =? 0)%nat then None else Some m') else subs h !! d').
    { intros d'. unfold S'. destruct (size m' =? 0)%nat; case_decide as Hd; subst;
        by rewrite ?lookup_delete_eq, ?lookup_insert_eq, ?lookup_delete_ne, ?lookup_insert_ne by done. }
    assert (Hsub : forall d' m1 i x, S' !! d' = Some m1 -> m1 !! i = Some x ->
      exists m2, subs h !! d' = Some m2 /\ m2 !! i = Some x /\ (d' <> d \/ i <> i0)).
    { intros d' m1 i x H1 H2. rewrite HS in H1. case_decide as Hd; [subst d'|exists m1; by auto].
      destruct (size m' =? 0)%nat; [done|]. injection H1 as <-. exists m.
      apply lookup_delete_Some in H2 as [H2 H3]. by auto. }
    split_and!; try done.
    + split; simpl; try done.
      * intros d' m1 i x H1 H2. destruct (Hsub _ _ _ _ H1 H2) as (m2 & ? & ? & _). by eapply Hf.
      * intros d' m1 i x H1 H2. destruct (Hsub _ _ _ _ H1 H2) as (m2 & ? & ? & _). by eapply Hb.
      * intros d' m1 H1. rewrite HS in H1. case_decide; [|by eapply Hne].
        destruct (size m' =? 0)%nat eqn:Hsz; [done|]. injection H1 as <-. intros ->. by rewrite map_size_empty in Hsz.
      * intros Hc'. rewrite (Hcl Hc'), lookup_empty in Hm. done.
    + intros x. unfold active. simpl. split.
      * intros (m1 & H1 & H2). destruct (Hsub _ _ _ _ H1 H2) as (m2 & H3 & H4 & H5). split; [by exists m2|by auto].
      * intros [(m1 & H1 & H2) [?|Hne']]; [done|]. rewrite HS. case_decide as Hd; [|by exists m1].
        rewrite Hd, Hm in H1. injection H1 as <-. destruct Hne' as [?|Hi]; [done|].
        assert (Hx' : m' !! s_id x = Some x) by by apply lookup_delete_Some.
        destruct (size m' =? 0)%nat eqn:Hsz; [|by exists m'].
        apply Nat.eqb_eq, map_size_empty_inv in Hsz. by rewrite Hsz, lookup_empty in Hx'.
  - split_and!; try done. intros x. split; [|by intros [? _]].
    intros Ha. split; [done|]. right. left. intros Heq. destruct Ha as (m1 & H1 & _). rewrite Heq in H1.
    fold d in H1. congruence.
Qed.

Lemma Close_spec h : hub_ok h -> hub_ok (Close h) /\ h_closed (Close h) = true /\ forall x, ~ active (Close h) x.
Proof.
  intros Hok. pose proof Hok as [Hf Hb Hne Hx Hcl]. unfold Close. destruct (h_closed h) eqn:Hc.
  - split_and!; try done. intros x (m & Hm & _). rewrite (Hcl eq_refl) in Hm. by rewrite lookup_empty in Hm.
  - split_and!; [|done|].
    + split; simpl; try done.
    + intros x (m & Hm & _). simpl in Hm. by rewrite lookup_empty in Hm.
Qed.

Lemma recipients_spec h message :
  hub_ok h -> NoDup (recipients h message) /\
  forall s, s ∈ recipients h message <->
    active h s /\ s_document s = DocumentID message /\ (SourceID message = "" \/ s_source s <> SourceID message).
Proof.
  intros Hok. unfold recipients. set (m := default ∅ _).
  assert (Hm : forall i s, m !! i = Some s -> subs h !! DocumentID message = Some m /\ s_id s = i /\
     s_document s = DocumentID message).
  { intros i s Hi. unfold m in *. destruct (subs h !! DocumentID message) as [m0|] eqn:E; simpl in *.
    - destruct (ho_filed _ Hok _ _ _ _ E Hi). done.
    - by rewrite lookup_empty in Hi. }
  split.
  - apply list.NoDup_filter. apply NoDup_fmap_2_strong; [|apply NoDup_map_to_list].
    intros [i1 s1] [i2 s2] H1%elem_of_map_to_list H2%elem_of_map_to_list Heq. simpl in Heq. subst s2.
    destruct (Hm _ _ H1) as (_ & <- & _). destruct (Hm _ _ H2) as (_ & <- & _). done.
  - intros s. rewrite list_elem_of_filter, list_elem_of_fmap. split.
    + intros [Hs ([i s'] & -> & Hi%elem_of_map_to_list)]. simpl in *. destruct (Hm _ _ Hi) as (H1 & H2 & H3).
      split_and!; [|done|].
      * exists m. by rewrite H3, H2.
      * destruct (decide (SourceID message = "")); [by left|]. right. intros Heq. by apply Hs.
    + intros ((m1 & H1 & H2) & Hd & Hsrc). rewrite Hd in H1. split; [naive_solver|].
      exists (s_id s, s). split; [done|]. apply elem_of_map_to_list. unfold m. by rewrite H1.
Qed.

(** Without cancellation every recipient is delivered to. *)
Lemma deliver_all run message i todo : fst (deliver (fun _ => false) run message i todo) = todo.
Proof.
  revert i. induction todo as [|s todo IH]; intros i; simpl; [done|].
  specialize (IH (S i)). destruct (deliver _ _ _ _ _) as [out errs]. simpl in *. by rewrite IH.
Qed.

(** ** Histories *)
Inductive hub_step : InProcess -> InProcess -> Prop :=
| hs_subscribe h c d src hd s h' : nextID h < 2 ^ 64 - 1 -> Subscribe h c d src hd = (inl s, h') -> hub_step h h'
| hs_unsubscribe h s h' s' : closeSubscription h s = (h', s') -> hub_step h h'
| hs_close h : hub_step h (Close h).

Lemma hub_reachable_ok h : rtc hub_step NewInProcess h -> hub_ok h.
Proof.
  assert (Hs : forall h1 h2, hub_step h1 h2 -> hub_ok h1 -> hub_ok h2).
  { intros h1 h2 [] Hok; [by eapply Subscribe_spec|by eapply closeSubscription_spec|by apply Close_spec]. }
  intros Hr. remember NewInProcess as h0 eqn:E. assert (Hok : hub_ok h0) by (rewrite E; apply new_ok). clear E.
  induction Hr; eauto.
Qed.

(** ** Properties *)

(** In every reachable hub, a publication that is not cancelled delivers
    exactly once to every active subscription of its document, except those
    with the same non-empty source (echo suppression), and to nothing else. *)
Theorem publish_delivers (h : InProcess) (run : Z -> Message -> option Z) (message : Message) :
  rtc hub_step NewInProcess h -> valid message = true -> h_closed h = false ->
  let out := fst (Publish h false (fun _ => false) run message) in
  NoDup out /\
  forall s, s ∈ out <->
    active h s /\ s_document s = DocumentID message /\ (SourceID message = "" \/ s_source s <> SourceID message).
Proof.
  intros Hr Hv Hc. cbv zeta. unfold Publish. rewrite Hv, Hc. simpl. rewrite deliver_all.
  apply recipients_spec, hub_reachable_ok, Hr.
Qed.


Definition sample_sub : handle := mkHandle (mkSub 1 "d" "a" 0) false.
Definition sample_hub : InProcess := mkHub false 1 {[ "d" := {[ 1 := h_sub sample_sub ]} ]}.

Lemma sample_subscribe : Subscribe NewInProcess false "d" "a" (Some 0) = (inl sample_sub, sample_hub).
Proof. vm_compute. reflexivity. Qed.

Lemma sample_hub_reachable : rtc hub_step NewInProcess sample_hub.
Proof. apply rtc_once. eapply hs_subscribe; [|exact sample_subscribe]. done. Qed.

Lemma publish_delivers_witness :
  NoDup [h_sub sample_sub] /\ forall s, s ∈ [h_sub sample_sub] <->
    active sample_hub s /\ s_document s = "d" /\ ("b" = "" \/ s_source s <> "b").
Proof.
  exact (publish_delivers sample_hub (fun _ _ => None) (mkMessage "d" "b" DocumentUpdate [])
           sample_hub_reachable eq_refl eq_refl).
Defined.

