(* ===== verification/Awareness.v ===== *)
(** * Awareness

    Models [crdt/awareness.go]: the presence states of the clients with their
    clocks, the update frames, the timer of [ManagedAwareness], and the
    helpers of [protocol/awareness.go]. The maps of the code are [gmap]s; a
    client's state is an [Object] whose zero value is [None], and no [None]
    ever enters the map. Events are returned in the order of their emission;
    what observers do with them is not modelled. The current time is an
    argument, in milliseconds.

    The contents of a state object are a type [S] with the operations the code
    uses on it ([StateOps]): structural equality ([equalAttrsDeep]), the deep
    copy ([cloneDataObject]) and the JSON printer and parser. *)
From stdpp Require Import strings.
From S2P Require Import Prelude Lib0.

(** What [unmarshalJSONOrdered] can return, as the code classifies it. *)
Inductive json (S : Type) : Type :=
| JNull
| JObject (s : S)
| JOther.
Arguments JNull {S}.
Arguments JObject {S} s.
Arguments JOther {S}.

Class StateOps (S : Type) := {
  equalAttrsDeep : option S -> option S -> bool;
  cloneDataObject : S -> result S;
  emptyObject : S;
  setField : S -> string -> Z -> S;
  jsonString : S -> list Z;
  unmarshalJSONOrdered : list Z -> result (json S);
}.

(** The laws of the JSON boundary that the frames rely on: a printed state
    parses back to itself, and is neither empty nor beyond a buffer. *)
Class StateLaws (S : Type) `{StateOps S} := {
  json_roundtrip s : unmarshalJSONOrdered (jsonString s) = Ok (JObject s);
  json_size s : 0 < Z.of_nat (length (jsonString s)) < 2 ^ 64;
  json_null : unmarshalJSONOrdered [110; 117; 108; 108] = Ok (JNull (S := S));
}.

(** "null". *)
Definition nullJSON : list Z := [110; 117; 108; 108].

Definition OutdatedTimeout : Z := 30000.

Record metaData := mkMeta { clock : Z; lastUpdated : Z }.

Inductive origin : Type :=
| OLocal
| OTimeout
| OCaller (o : Z).

Inductive event : Type :=
| EvChange (added updated removed : list Z) (o : origin)
| EvUpdate (added updated removed : list Z) (o : origin)
| EvDestroy.

Section Awareness.
Context {S : Type} `{StateOps S}.

Record Awareness := mkAw {
  ClientID : Z;
  states : gmap Z S;
  meta : gmap Z metaData;
  destroyed : bool;
}.

(** The three lists an emission carries; an empty [change] is not emitted. *)
Definition emit_change (added updated removed : list Z) (o : origin) : list event :=
  match added, updated, removed with
  | [], [], [] => []
  | _, _, _ => [EvChange added updated removed o]
  end.

Definition emit_update (added updated removed : list Z) (o : origin) : list event :=
  match added, updated, removed with
  | [], [], [] => []
  | _, _, _ => [EvUpdate added updated removed o]
  end.

(** ** Local state *)
Definition GetLocalState (a : Awareness) : option S := states a !! ClientID a.

(** The deep copy on entry; the zero object is its own copy. *)
Definition cloneState (state : option S) : result (option S) :=
  match state with
  | None => Ok None
  | Some s => match cloneDataObject s with Ok s' => Ok (Some s') | Err e => Err e end
  end.

Definition setLocalState (now : Z) (state : option S) (force : bool) (a : Awareness)
    : result unit * Awareness * list event :=
  let clientID := ClientID a in
  if destroyed a && negb force then (Ok tt, a, [])
  else match cloneState state with
  | Err e => (Err e, a, [])
  | Ok ownedState =>
      let clk := match meta a !! clientID with None => 0 | Some m => i64 (clock m + 1) end in
      let prevState := states a !! clientID in
      let states' := match ownedState with None => delete clientID (states a) | Some s => <[clientID := s]> (states a) end in
      let a' := mkAw clientID states' (<[clientID := mkMeta clk now]> (meta a)) (destroyed a) in
      let '(added, updated, filteredUpdated, removed) :=
        match ownedState, prevState with
        | None, _ => ([], [], [], [clientID])
        | Some _, None => ([clientID], [], [], [])
        | Some s, Some p => ([], [clientID], if equalAttrsDeep (Some p) (Some s) then [] else [clientID], [])
        end in
      (Ok tt, a', emit_change added filteredUpdated removed OLocal ++ [EvUpdate added updated removed OLocal])
  end.

Definition SetLocalState (now : Z) (state : option S) (a : Awareness) := setLocalState now state false a.

Definition SetLocalStateField (now : Z) (field : string) (value : Z) (a : Awareness)
    : result unit * Awareness * list event :=
  match GetLocalState a with
  | Some s => SetLocalState now (Some (setField s field value)) a
  | None => (Ok tt, a, [])
  end.

Definition NewAwareness (now clientID : Z) : Awareness :=
  let '(_, a, _) := SetLocalState now (Some emptyObject) (mkAw clientID ∅ ∅ false) in a.

Definition Destroy (now : Z) (a : Awareness) : Awareness * list event :=
  if destroyed a then (a, [])
  else
    let a := mkAw (ClientID a) (states a) (meta a) true in
    let '(_, a, evs) := setLocalState now None true a in
    (a, EvDestroy :: evs).

(** ** Reading *)

(** A remote client past the timeout is not present. *)
Definition expired (now : Z) (a : Awareness) (client : Z) : bool :=
  negb (client =? ClientID a) &&
  match meta a !! client with
  | Some m => OutdatedTimeout <=? i64 (now - lastUpdated m)
  | None => false
  end.

Definition GetStates (now : Z) (a : Awareness) : gmap Z S :=
  filter (fun p => expired now a (fst p) = false) (states a).

(** ** Removal *)

(** The loop of [RemoveAwarenessStates]; [None] is the panic of the clock
    assertion on absent metadata. *)
Fixpoint removeLoop (now : Z) (a : Awareness) (clients : list Z) (removed : list Z) : option (Awareness * list Z) :=
  match clients with
  | [] => Some (a, removed)
  | clientID :: clients' =>
      match states a !! clientID with
      | None => removeLoop now a clients' removed
      | Some _ =>
          let states' := delete clientID (states a) in
          if clientID =? ClientID a then
            m ← meta a !! clientID;
            removeLoop now
              (mkAw (ClientID a) states' (<[clientID := mkMeta (i64 (clock m + 1)) now]> (meta a)) (destroyed a))
              clients' (removed ++ [clientID])
          else removeLoop now (mkAw (ClientID a) states' (meta a) (destroyed a)) clients' (removed ++ [clientID])
      end
  end.

Definition RemoveAwarenessStates (now : Z) (clients : list Z) (o : origin) (a : Awareness)
    : option (Awareness * list event) :=
  if destroyed a then Some (a, [])
  else
    '(a', removed) ← removeLoop now a clients [];
    Some (a', emit_change [] [] removed o ++ emit_update [] [] removed o).

(** ** Frames *)
Definition AwarenessStateJSON (state : option S) : list Z :=
  match state with
  | None => nullJSON
  | Some s => jsonString s
  end.

Record awarenessEntry := mkEntry { e_client : Z; e_clock : Z; e_state : option S }.

Definition writeEntry (encoder : list Z) (e : awarenessEntry) : list Z :=
  let encoder := WriteVarUint encoder (u64 (e_client e)) in
  let encoder := WriteVarUint encoder (u64 (e_clock e)) in
  WriteString encoder (AwarenessStateJSON (e_state e)).

(** The entries of the clients that have metadata; [sts] is the caller's map
    of states, [None] selects the awareness's own. *)
Definition validEntries (a : Awareness) (clients : list Z) (sts : option (gmap Z S)) : list awarenessEntry :=
  omap (fun clientID =>
    m ← meta a !! clientID;
    Some (mkEntry clientID (clock m) (default (states a) sts !! clientID))) clients.

Definition EncodeAwarenessUpdate (a : Awareness) (clients : list Z) (sts : option (gmap Z S)) : list Z :=
  let valid := validEntries a clients sts in
  fold_left writeEntry valid (WriteVarUint [] (Z.of_nat (length valid))).

Definition ParseAwarenessStateJSON (data : list Z) : result (option S) :=
  match data with
  | [] => Ok None
  | _ =>
      match unmarshalJSONOrdered data with
      | Err e => Err e
      | Ok JNull => Ok None
      | Ok (JObject s) => Ok (Some s)
      | Ok JOther => Err ErrMalformedAwarenessState
      end
  end.

(** An error of [m] is reported as a truncated frame. *)
Definition truncated {A} (m : reader A) : reader A := fun buf =>
  match m buf with
  | (Err _, rest) => (Err ErrTruncatedAwarenessFrame, rest)
  | r => r
  end.

Definition readVarUintAsNumber : reader Z := n <-- ReadVarUint;;; rlift (toNumber n).

Definition malformed {A} (r : result A) : result A :=
  match r with
  | Err _ => Err ErrMalformedAwarenessState
  | Ok x => Ok x
  end.

Definition readEntry : reader awarenessEntry :=
  clientID <-- truncated readVarUintAsNumber;;;
  clk <-- truncated readVarUintAsNumber;;;
  data <-- truncated ReadString;;;
  state <-- rlift (malformed (ParseAwarenessStateJSON data));;;
  rret (mkEntry clientID clk state).

Definition boundGuard (count minBytes : Z) : reader unit := fun buf =>
  if boundExceeded count (Z.of_nat (length buf)) minBytes then (Err ErrTruncatedAwarenessFrame, buf) else (Ok tt, buf).

Definition decodeAwarenessEntries (update : list Z) : result (list awarenessEntry) :=
  fst ((length <-- truncated ReadVarUint;;;
        _ <-- boundGuard length 3;;;
        rtimes (Z.to_nat length) readEntry) update).

(** The four lists an application collects. *)
Record changes := mkChanges { c_added : list Z; c_updated : list Z; c_filtered : list Z; c_removed : list Z }.

Definition clockOf (a : Awareness) (client : Z) : Z :=
  match meta a !! client with None => 0 | Some m => clock m end.

(** One iteration of [applyAwarenessEntries]. *)
Definition applyEntry (timestamp : Z) (ac : Awareness * changes) (e : awarenessEntry) : Awareness * changes :=
  let '(a, c) := ac in
  let clientID := e_client e in
  let clientMeta := meta a !! clientID in
  let prevState := states a !! clientID in
  let currClock := clockOf a clientID in
  let isNil := match e_state e with None => true | Some _ => false end in
  if (currClock <? e_clock e) ||
     ((currClock =? e_clock e) && isNil && match prevState with Some _ => true | None => false end) then
    let '(clk, states') :=
      match e_state e with
      | None =>
          if (clientID =? ClientID a) && match states a !! ClientID a with Some _ => true | None => false end
          then (i64 (e_clock e + 1), states a)
          else (e_clock e, delete clientID (states a))
      | Some s => (e_clock e, <[clientID := s]> (states a))
      end in
    let a' := mkAw (ClientID a) states' (<[clientID := mkMeta clk timestamp]> (meta a)) (destroyed a) in
    let c' :=
      match clientMeta, e_state e with
      | None, Some _ => mkChanges (c_added c ++ [clientID]) (c_updated c) (c_filtered c) (c_removed c)
      | Some _, None => mkChanges (c_added c) (c_updated c) (c_filtered c) (c_removed c ++ [clientID])
      | Some _, Some s =>
          mkChanges (c_added c) (c_updated c ++ [clientID])
            (if equalAttrsDeep (Some s) prevState then c_filtered c else c_filtered c ++ [clientID]) (c_removed c)
      | None, None => c
      end in
    (a', c')
  else (a, c).

Definition noChanges : changes := mkChanges [] [] [] [].

Definition applyAwarenessEntries (timestamp : Z) (a : Awareness) (entries : list awarenessEntry) : Awareness * changes :=
  if destroyed a then (a, noChanges) else fold_left (applyEntry timestamp) entries (a, noChanges).

Definition ApplyAwarenessUpdate (now : Z) (update : list Z) (o : origin) (a : Awareness)
    : result unit * Awareness * list event :=
  match decodeAwarenessEntries update with
  | Err e => (Err e, a, [])
  | Ok entries =>
      let '(a', c) := applyAwarenessEntries now a entries in
      (Ok tt, a', emit_change (c_added c) (c_filtered c) (c_removed c) o
               ++ emit_update (c_added c) (c_updated c) (c_removed c) o)
  end.

Definition applyAwarenessUpdateWithoutEvents (now : Z) (update : list Z) (a : Awareness) : result unit * Awareness :=
  match decodeAwarenessEntries update with
  | Err e => (Err e, a)
  | Ok entries => (Ok tt, fst (applyAwarenessEntries now a entries))
  end.

(** ** The timer of [ManagedAwareness] *)

(** [sortNumbers]: an insertion sort. *)
Fixpoint insertNumber (x : Z) (l : list Z) : list Z :=
  match l with
  | [] => [x]
  | y :: l' => if x <? y then x :: l else y :: insertNumber x l'
  end.

Definition sortNumbers (v : list Z) : list Z := fold_left (fun l x => insertNumber x l) v [].

(** The decision of [tick], under the lock: renew the local state, and the
    clients to remove, sorted. *)
Definition tickDecide (now : Z) (a : Awareness) : bool * list Z :=
  if destroyed a then (false, [])
  else
    let renewLocal :=
      match states a !! ClientID a, meta a !! ClientID a with
      | Some _, Some m => OutdatedTimeout / 2 <=? i64 (now - lastUpdated m)
      | _, _ => false
      end in
    let removed := filter (fun client => expired now a client = true /\ is_Some (states a !! client))
      (elements (dom (meta a))) in
    (renewLocal, sortNumbers removed).

(** The actions of [tick], after the lock is released. *)
Definition tickApply (now : Z) (decision : bool * list Z) (a : Awareness) : option (Awareness * list event) :=
  let '(renewLocal, removed) := decision in
  let '(a, evs) :=
    match renewLocal, GetLocalState a with
    | true, Some s => let '(_, a', evs) := SetLocalState now (Some s) a in (a', evs)
    | _, _ => (a, [])
    end in
  match removed with
  | [] => Some (a, evs)
  | _ => '(a', evs') ← RemoveAwarenessStates now removed OTimeout a; Some (a', evs ++ evs')
  end.

Definition tick (now : Z) (a : Awareness) : option (Awareness * list event) :=
  tickApply now (tickDecide now a) a.

(** ** Lemmas on one entry *)

(** The condition under which an entry is applied. *)
Definition accepts (a : Awareness) (e : awarenessEntry) : bool :=
  (clockOf a (e_client e) <? e_clock e) ||
  ((clockOf a (e_client e) =? e_clock e) && match e_state e with None => true | Some _ => false end
     && match states a !! e_client e with Some _ => true | None => false end).

(** A removal of the local state while it is present is refused. *)
Definition refuses (a : Awareness) (e : awarenessEntry) : bool :=
  match e_state e with
  | Some _ => false
  | None => (e_client e =? ClientID a) && match states a !! ClientID a with Some _ => true | None => false end
  end.

Definition newClock (a : Awareness) (e : awarenessEntry) : Z :=
  if refuses a e then i64 (e_clock e + 1) else e_clock e.

Definition newState (a : Awareness) (e : awarenessEntry) : option S :=
  if refuses a e then states a !! e_client e else e_state e.

Lemma applyEntry_skip t a c e : accepts a e = false -> applyEntry t (a, c) e = (a, c).
Proof. intros Ha. unfold applyEntry. unfold accepts in Ha. by rewrite Ha. Qed.

Lemma applyEntry_fst t a c e :
  let a' := fst (applyEntry t (a, c) e) in
  ClientID a' = ClientID a /\ destroyed a' = destroyed a /\
  (forall k, k <> e_client e -> states a' !! k = states a !! k /\ meta a' !! k = meta a !! k) /\
  (if accepts a e
   then states a' !! e_client e = newState a e /\ meta a' !! e_client e = Some (mkMeta (newClock a e) t)
   else a' = a).
Proof.
  cbv zeta. destruct (accepts a e) eqn:Ha; [|rewrite applyEntry_skip by done; by split_and!].
  unfold applyEntry. unfold accepts in Ha. rewrite Ha. unfold newState, newClock, refuses.
  destruct (e_state e) as [s|].
  - simpl. split_and!; try done.
    + intros k Hk. by rewrite !lookup_insert_ne.
    + by rewrite lookup_insert_eq.
    + by rewrite lookup_insert_eq.
  - destruct ((e_client e =? ClientID a) && match states a !! ClientID a with Some _ => true | None => false end) eqn:Hl;
      simpl; split_and!; try done.
    + intros k Hk. by rewrite lookup_insert_ne.
    + by rewrite lookup_insert_eq.
    + intros k Hk. by rewrite lookup_insert_ne, lookup_delete_ne.
    + by rewrite lookup_delete_eq.
    + by rewrite lookup_insert_eq.
Qed.

(** The invariant: every state has metadata, and clocks are non-negative. *)
Definition aw_ok (a : Awareness) : Prop :=
  (forall k, is_Some (states a !! k) -> is_Some (meta a !! k)) /\
  (forall k m, meta a !! k = Some m -> 0 <= clock m <= maxInt).

(** Entries as a decoder returns them. *)
Definition entry_ok (e : awarenessEntry) : Prop := is_safe (e_client e) /\ is_safe (e_clock e).

Lemma clockOf_nonneg a k : aw_ok a -> 0 <= clockOf a k.
Proof. intros [_ Hc]. unfold clockOf. destruct (meta a !! k) eqn:E; [|lia]. specialize (Hc _ _ E). lia. Qed.

Lemma newClock_ge a e : entry_ok e -> e_clock e <= newClock a e <= maxSafeInteger + 1 /\ (refuses a e = true -> e_clock e < newClock a e).
Proof.
  intros [_ Hs]. unfold newClock. unfold is_safe, maxSafeInteger in *.
  case_match; [|lia]. rewrite i64_small by (unfold is_i64; lia). lia.
Qed.

Lemma accepts_ge a e : accepts a e = true -> clockOf a (e_client e) <= e_clock e.
Proof. unfold accepts. intros Ha. apply orb_prop in Ha as [?%Z.ltb_lt|Ha]; [lia|]. repeat apply andb_prop in Ha as [Ha ?]. lia. Qed.

Lemma applyEntry_ok t a c e : aw_ok a -> entry_ok e -> aw_ok (fst (applyEntry t (a, c) e)).
Proof.
  intros [H1 H2] He. destruct (applyEntry_fst t a c e) as (_ & _ & Hne & Hif).
  destruct (accepts a e) eqn:Ha; [|by rewrite Hif]. destruct Hif as [Hst Hm]. split.
  - intros k Hk. destruct (decide (k = e_client e)) as [->|Hn]; [rewrite Hm; by eexists|].
    destruct (Hne k Hn) as [Hs1 Hs2]. rewrite Hs1 in Hk. rewrite Hs2. by apply H1.
  - intros k m Hk. destruct (decide (k = e_client e)) as [->|Hn].
    + rewrite Hm in Hk. injection Hk as <-. simpl. destruct (newClock_ge a e He) as [Hc _].
      destruct He as [_ He]. unfold is_safe, maxSafeInteger, maxInt in *. lia.
    + destruct (Hne k Hn) as [_ Hs2]. rewrite Hs2 in Hk. by eapply H2.
Qed.

Lemma applyEntry_mono t a c e k : entry_ok e -> clockOf a k <= clockOf (fst (applyEntry t (a, c) e)) k.
Proof.
  intros He. destruct (applyEntry_fst t a c e) as (_ & _ & Hne & Hif).
  destruct (decide (k = e_client e)) as [->|Hn].
  - destruct (accepts a e) eqn:Ha; [|by rewrite Hif]. destruct Hif as [_ Hm]. unfold clockOf at 2. rewrite Hm. cbn [clock].
    pose proof (accepts_ge a e Ha). destruct (newClock_ge a e He) as [? _]. lia.
  - destruct (Hne k Hn) as [_ Hs2]. unfold clockOf. by rewrite Hs2.
Qed.

(** [e] has been seen: it cannot be applied again. *)
Definition seen (a : Awareness) (e : awarenessEntry) : Prop :=
  e_clock e < clockOf a (e_client e) \/
  (e_clock e = clockOf a (e_client e) /\ (e_state e = None -> states a !! e_client e = None)).

Lemma seen_accepts a e : seen a e <-> accepts a e = false.
Proof.
  unfold seen, accepts. rewrite orb_false_iff, Z.ltb_ge. destruct (Z.eqb_spec (clockOf a (e_client e)) (e_clock e)) as [Heq|Hne].
  - destruct (e_state e), (states a !! e_client e); simpl; split; try (by intros; split; [lia|done]);
      try (intros; right; split; [lia|done]); try (by intros [? ?]).
    intros [?|[_ Hn]]; [lia|]. specialize (Hn eq_refl). done.
  - simpl. split; [intros [?|[? _]]; [split; [lia|done]|lia]|]. intros [? _]. left. lia.
Qed.

Lemma applyEntry_seen t a c e : entry_ok e -> seen (fst (applyEntry t (a, c) e)) e.
Proof.
  intros He. destruct (applyEntry_fst t a c e) as (_ & _ & _ & Hif).
  destruct (accepts a e) eqn:Ha; [|rewrite Hif; by apply seen_accepts].
  destruct Hif as [Hst Hm]. unfold seen. unfold clockOf. rewrite Hm. cbn [clock]. destruct (newClock_ge a e He) as [Hc Hr].
  destruct (refuses a e) eqn:Er; [left; auto|]. unfold newClock, newState in *. rewrite Er in *.
  right. split; [done|]. intros Hn. by rewrite Hst.
Qed.

Lemma applyEntry_keeps_seen t a c e e' : entry_ok e -> seen a e' -> seen (fst (applyEntry t (a, c) e)) e'.
Proof.
  intros He Hs. pose proof (applyEntry_mono t a c e (e_client e') He) as Hmono.
  destruct (applyEntry_fst t a c e) as (_ & _ & Hne & Hif).
  destruct (decide (e_client e' = e_client e)) as [Heq|Hn].
  - destruct (accepts a e) eqn:Ha; [|by rewrite Hif]. destruct Hif as [Hst Hm].
    destruct Hs as [Hs|[Hs1 Hs2]]; [left; lia|].
    destruct (decide (clockOf a (e_client e') < clockOf (fst (applyEntry t (a, c) e)) (e_client e'))); [left; lia|].
    right. split; [lia|]. intros Hnil. rewrite Heq, Hst.
    assert (Hce : clockOf (fst (applyEntry t (a, c) e)) (e_client e') = newClock a e) by (unfold clockOf; by rewrite Heq, Hm).
    pose proof (accepts_ge a e Ha) as Hge. rewrite <- Heq in Hge. destruct (newClock_ge a e He) as [Hc Hr].
    assert (Er : refuses a e = false) by (destruct (refuses a e); [specialize (Hr eq_refl); lia|done]).
    unfold newState. rewrite Er. unfold accepts in Ha. rewrite <- Heq in Ha.
    apply orb_prop in Ha as [?%Z.ltb_lt|Ha]; [lia|]. apply andb_prop in Ha as [Ha _]. apply andb_prop in Ha as [_ Ha].
    by destruct (e_state e).
  - destruct (Hne _ Hn) as [Hs1 Hs2]. unfold seen, clockOf in *. by rewrite Hs1, Hs2.
Qed.

Lemma applyEntries_ind (P : Awareness -> Prop) t es : forall a c,
  P a -> Forall entry_ok es -> (forall a c e, entry_ok e -> P a -> P (fst (applyEntry t (a, c) e))) ->
  P (fst (fold_left (applyEntry t) es (a, c))).
Proof.
  induction es as [|e es IH]; intros a c Ha Hes Hstep; [done|]. inversion Hes as [|? ? He Hes']; subst. cbn [fold_left].
  specialize (Hstep a c e He Ha) as Hx. destruct (applyEntry t (a, c) e) as [a1 c1]. by apply IH.
Qed.

Lemma applyEntries_seen t es : forall a c,
  Forall entry_ok es -> Forall (seen (fst (fold_left (applyEntry t) es (a, c)))) es.
Proof.
  induction es as [|e es IH]; intros a c Hes; [constructor|]. inversion Hes as [|? ? He Hes']; subst. cbn [fold_left].
  pose proof (applyEntry_seen t a c e He) as Hs. destruct (applyEntry t (a, c) e) as [a1 c1]. constructor; [|by apply IH].
  apply (applyEntries_ind (fun a => seen a e) t es a1 c1); [done|done|]. intros. by apply applyEntry_keeps_seen.
Qed.

Lemma applyEntries_all_seen t es a c : Forall (seen a) es -> fold_left (applyEntry t) es (a, c) = (a, c).
Proof.
  induction 1 as [|e es He Hes IH]; [done|]. cbn [fold_left]. rewrite applyEntry_skip; [done|]. by apply seen_accepts.
Qed.

(** A decoded entry is in range. *)
Lemma readVarUintAsNumber_safe buf n rest : readVarUintAsNumber buf = (Ok n, rest) -> is_safe n.
Proof.
  unfold readVarUintAsNumber. intros (v & mid & Hv & Hn)%rbind_inv. unfold rlift in Hn. injection Hn as Hn _.
  apply binaryReadUvarint_range in Hv. by apply (toNumber_ok v n Hv) in Hn as [-> ?].
Qed.

Lemma truncated_ok {A} (m : reader A) buf x rest : truncated m buf = (Ok x, rest) -> m buf = (Ok x, rest).
Proof. unfold truncated. destruct (m buf) as [[?|?] ?]; naive_solver. Qed.

Lemma readEntry_ok buf e rest : readEntry buf = (Ok e, rest) -> entry_ok e.
Proof.
  unfold readEntry. intros (c & b1 & H1%truncated_ok%readVarUintAsNumber_safe & Hr)%rbind_inv.
  apply rbind_inv in Hr as (k & b2 & H2%truncated_ok%readVarUintAsNumber_safe & Hr).
  apply rbind_inv in Hr as (d & b3 & _ & Hr). apply rbind_inv in Hr as (st & b4 & _ & Hr).
  unfold rret in Hr. injection Hr as <- _. done.
Qed.

Lemma rtimes_Forall {A} (m : reader A) (P : A -> Prop) n : forall buf l rest,
  (forall buf x rest, m buf = (Ok x, rest) -> P x) -> rtimes n m buf = (Ok l, rest) -> Forall P l.
Proof.
  induction n as [|n IH]; intros buf l rest Hm; simpl; [intros [= <- _]; constructor|].
  intros (x & b1 & Hx & Hr)%rbind_inv. apply rbind_inv in Hr as (xs & b2 & Hxs & Hr).
  unfold rret in Hr. injection Hr as <- _. constructor; [by eapply Hm|by eapply IH].
Qed.

Lemma decode_ok update es : decodeAwarenessEntries update = Ok es -> Forall entry_ok es.
Proof.
  unfold decodeAwarenessEntries. destruct (rbind _ _ update) as [r rest] eqn:E. simpl. intros ->.
  apply rbind_inv in E as (n & b1 & _ & E). apply rbind_inv in E as (? & b2 & _ & E).
  eapply rtimes_Forall, E. apply readEntry_ok.
Qed.

(** ** The specification: last writer wins per client *)

(** What is known of a client: the clock and the state. *)
Definition view (a : Awareness) (k : Z) : Z * option S := (clockOf a k, states a !! k).

(** The newer clock wins; at equal clocks a removal wins. *)
Definition join (v : Z * option S) (e : awarenessEntry) : Z * option S :=
  if fst v <? e_clock e then (e_clock e, e_state e)
  else if fst v =? e_clock e then (match e_state e with None => (fst v, None) | Some _ => v end)
  else v.

(** Every state of a client was published by it under one clock. *)
Definition published (hist : Z -> S) (v : Z * option S) : Prop :=
  match snd v with None => True | Some s => s = hist (fst v) end.

Definition entry_view (e : awarenessEntry) : Z * option S := (e_clock e, e_state e).

Lemma join_published hist v e : published hist v -> published hist (entry_view e) -> published hist (join v e).
Proof.
  intros Hv He. unfold join. destruct (fst v <? e_clock e); [done|]. destruct (fst v =? e_clock e); [|done].
  by destruct (e_state e).
Qed.

Lemma join_comm hist v e1 e2 :
  published hist v -> published hist (entry_view e1) -> published hist (entry_view e2) ->
  join (join v e1) e2 = join (join v e2) e1.
Proof.
  destruct v as [k st]. unfold published, entry_view, join. simpl. intros Hv H1 H2.
  destruct (Z.ltb_spec k (e_clock e1)), (Z.ltb_spec k (e_clock e2)); simpl;
    destruct (Z.ltb_spec (e_clock e1) (e_clock e2)), (Z.ltb_spec (e_clock e2) (e_clock e1));
    repeat match goal with |- context [?a =? ?b] => destruct (Z.eqb_spec a b); subst; simpl end;
    try lia; try done; destruct (e_state e1), (e_state e2); simpl; subst; try done; try lia;
    repeat match goal with
      | |- context [?a <? ?b] => destruct (Z.ltb_spec a b); simpl
      | |- context [?a =? ?b] => destruct (Z.eqb_spec a b); simpl end; try lia; congruence.
Qed.

Lemma join_idem v e : join (join v e) e = join v e.
Proof.
  destruct v as [k st]. unfold join. simpl. destruct (Z.ltb_spec k (e_clock e)); simpl.
  - rewrite Z.ltb_irrefl, Z.eqb_refl. by destruct (e_state e).
  - destruct (Z.eqb_spec k (e_clock e)) as [->|Hne]; [|simpl].
    + destruct (e_state e); simpl; rewrite Z.ltb_irrefl, Z.eqb_refl; done.
    + destruct (Z.ltb_spec k (e_clock e)); [lia|]. by destruct (Z.eqb_spec k (e_clock e)).
Qed.

Section Joins.
Context (hist : Z -> S).
Let pub (es : list awarenessEntry) : Prop := Forall (fun e => published hist (entry_view e)) es.

Lemma joins_published es v : published hist v -> pub es -> published hist (fold_left join es v).
Proof.
  intros Hv Hes. revert v Hv. induction Hes as [|e es He Hes IH]; intros v Hv; [done|].
  simpl. apply IH. by apply join_published.
Qed.

Lemma joins_perm es es' v : es ≡ₚ es' -> published hist v -> pub es -> fold_left join es v = fold_left join es' v.
Proof.
  intros Hp. revert v. induction Hp as [|e es es' Hp IH|e1 e2 es|es1 es2 es3 Hp1 IH1 Hp2 IH2]; intros v Hv Hes.
  - done.
  - inversion Hes; subst. simpl. apply IH; [by apply join_published|done].
  - inversion Hes as [|? ? He1 Hes1]; subst. inversion Hes1 as [|? ? He2 Hes2]; subst. simpl.
    f_equal. by eapply join_comm.
  - rewrite IH1 by done. apply IH2; [done|]. unfold pub. by rewrite <- Hp1.
Qed.

Lemma joins_absorb es e v : published hist v -> pub es -> e ∈ es -> join (fold_left join es v) e = fold_left join es v.
Proof.
  intros Hv Hes (l1 & l2 & ->)%list_elem_of_split.
  assert (Hp : l1 ++ e :: l2 ≡ₚ (l1 ++ l2) ++ [e]) by (rewrite <- Permutation_middle; apply Permutation_cons_append).
  rewrite (joins_perm _ _ v Hp Hv Hes), fold_left_app. simpl. apply join_idem.
Qed.

Lemma joins_absorb_all es es' v :
  published hist v -> pub es -> (forall e, e ∈ es' -> e ∈ es) -> fold_left join (es ++ es') v = fold_left join es v.
Proof.
  intros Hv Hes Hin. rewrite fold_left_app. induction es' as [|e es' IH]; [done|]. simpl.
  rewrite joins_absorb by (done || apply Hin; by left). apply IH. intros e' He'. apply Hin. by right.
Qed.

(** The joined value depends only on the set of the entries. *)
Lemma joins_set es es' v :
  published hist v -> pub es -> pub es' -> (forall e, e ∈ es <-> e ∈ es') -> fold_left join es v = fold_left join es' v.
Proof.
  intros Hv H1 H2 Hin.
  rewrite <- (joins_absorb_all es es' v), <- (joins_absorb_all es' es v) by (try done; intros e; apply Hin).
  apply joins_perm; [apply Permutation_app_comm|done|]. by apply list.Forall_app.
Qed.
End Joins.

(** The code refines the specification for the clients that are not local. *)
Lemma applyEntry_join t a c e k :
  k <> ClientID a ->
  view (fst (applyEntry t (a, c) e)) k = if decide (e_client e = k) then join (view a k) e else view a k.
Proof.
  intros Hk. destruct (applyEntry_fst t a c e) as (_ & _ & Hne & Hif). unfold view at 1, clockOf.
  case_decide as Hek; [|destruct (Hne k) as [-> ->]; [congruence|done]]. subst k.
  unfold join, view. cbn [fst].
  destruct (accepts a e) eqn:Ha.
  - destruct Hif as [-> ->]. cbn [clock].
    assert (Er : refuses a e = false).
    { unfold refuses. destruct (e_state e); [done|]. by destruct (Z.eqb_spec (e_client e) (ClientID a)). }
    unfold newClock, newState. rewrite Er. unfold accepts in Ha.
    destruct (Z.ltb_spec (clockOf a (e_client e)) (e_clock e)); [done|].
    destruct (Z.eqb_spec (clockOf a (e_client e)) (e_clock e)) as [Heq|]; [|done].
    rewrite Heq. by destruct (e_state e).
  - rewrite Hif. change (match meta a !! e_client e with Some m => clock m | None => 0 end) with (clockOf a (e_client e)).
    unfold accepts in Ha. apply orb_false_iff in Ha as [H1 H2]. rewrite H1.
    destruct (clockOf a (e_client e) =? e_clock e); [|done]. destruct (e_state e); [done|].
    simpl in H2. by destruct (states a !! e_client e).
Qed.

Lemma applyEntries_join t k es : forall a c,
  k <> ClientID a ->
  view (fst (fold_left (applyEntry t) es (a, c))) k = fold_left join (filter (fun e => e_client e = k) es) (view a k).
Proof.
  induction es as [|e es IH]; intros a c Hk; [done|]. cbn [fold_left]. rewrite filter_cons.
  pose proof (applyEntry_join t a c e k Hk) as Hj. destruct (applyEntry_fst t a c e) as (Hid & _).
  destruct (applyEntry t (a, c) e) as [a1 c1]. simpl in Hid, Hj. rewrite IH by congruence. rewrite Hj.
  by case_decide.
Qed.

(** A history of batches of entries, each applied at its time. *)
Definition applyBatches (batches : list (Z * list awarenessEntry)) (a : Awareness) : Awareness :=
  fold_left (fun a b => fst (applyAwarenessEntries (fst b) a (snd b))) batches a.

Lemma applyEntries_id t es a c :
  ClientID (fst (fold_left (applyEntry t) es (a, c))) = ClientID a /\
  destroyed (fst (fold_left (applyEntry t) es (a, c))) = destroyed a.
Proof.
  revert a c. induction es as [|e es IH]; intros a c; [done|]. cbn [fold_left].
  destruct (applyEntry_fst t a c e) as (H1 & H2 & _). destruct (applyEntry t (a, c) e) as [a1 c1]. simpl in *.
  destruct (IH a1 c1) as [H3 H4]. split; congruence.
Qed.

Lemma batches_join k batches : forall a,
  k <> ClientID a -> destroyed a = false ->
  view (applyBatches batches a) k =
  fold_left join (filter (fun e => e_client e = k) (concat (map snd batches))) (view a k).
Proof.
  induction batches as [|[t es] batches IH]; intros a Hk Hd; [done|]. cbn [applyBatches fold_left map concat fst snd].
  unfold applyAwarenessEntries. rewrite Hd. destruct (applyEntries_id t es a noChanges) as [H1 H2].
  pose proof (applyEntries_join t k es a noChanges Hk) as Hj.
  fold (applyBatches batches (fst (fold_left (applyEntry t) es (a, noChanges)))).
  rewrite IH by congruence. rewrite Hj, list.filter_app, fold_left_app. done.
Qed.

(** ** The other operations *)

(** [a'] may follow [a]: same client, and no clock goes back. *)
Definition advances (a a' : Awareness) : Prop :=
  ClientID a' = ClientID a /\ forall k, clockOf a k <= clockOf a' k.

Lemma advances_refl a : advances a a.
Proof. split; [done|]. intros k. lia. Qed.

Lemma advances_trans a1 a2 a3 : advances a1 a2 -> advances a2 a3 -> advances a1 a3.
Proof. intros [H1 H2] [H3 H4]. split; [congruence|]. intros k. specialize (H2 k). specialize (H4 k). lia. Qed.

(** Raising the clock of one client. *)
Lemma raise_ok a sts k clk t d :
  aw_ok a -> clockOf a k <= clk <= maxInt -> (forall j, j <> k -> is_Some (sts !! j) -> is_Some (states a !! j)) ->
  let a' := mkAw (ClientID a) sts (<[k := mkMeta clk t]> (meta a)) d in aw_ok a' /\ advances a a'.
Proof.
  intros Hok Hc Hs a'. pose proof (clockOf_nonneg a k Hok). destruct Hok as [H1 H2]. split; [split|split]; simpl.
  - intros j Hj. destruct (decide (j = k)) as [->|Hn]; [rewrite lookup_insert_eq; by eexists|].
    rewrite lookup_insert_ne by done. apply H1. by apply Hs.
  - intros j m. destruct (decide (j = k)) as [->|Hn]; [rewrite lookup_insert_eq; intros [= <-]; simpl; lia|].
    rewrite lookup_insert_ne by done. by apply H2.
  - done.
  - intros j. unfold clockOf. simpl. destruct (decide (j = k)) as [->|Hn]; [rewrite lookup_insert_eq|by rewrite lookup_insert_ne].
    unfold clockOf in Hc. simpl. lia.
Qed.

(** The next clock of the local client, below the limit of the type. *)
Lemma next_clock a k :
  aw_ok a -> clockOf a k < maxInt ->
  clockOf a k <= match meta a !! k with None => 0 | Some m => i64 (clock m + 1) end <= clockOf a k + 1.
Proof.
  intros Hok Hc. pose proof (clockOf_nonneg a k Hok). unfold clockOf in *. destruct (meta a !! k) as [m|]; [|lia].
  unfold maxInt in *. rewrite i64_small by (unfold is_i64; lia). lia.
Qed.

Lemma setLocalState_ok now st force a r a' evs :
  aw_ok a -> clockOf a (ClientID a) < maxInt -> setLocalState now st force a = (r, a', evs) ->
  aw_ok a' /\ advances a a' /\ clockOf a' (ClientID a) <= clockOf a (ClientID a) + 1.
Proof.
  intros Hok Hc. unfold setLocalState.
  destruct (destroyed a && negb force); [intros [= _ <- _]; split_and!; [done|apply advances_refl|lia]|].
  destruct (cloneState st) as [owned|e]; [|intros [= _ <- _]; split_and!; [done|apply advances_refl|lia]].
  pose proof (next_clock a (ClientID a) Hok Hc) as Hn.
  set (clk := match meta a !! ClientID a with None => 0 | Some m => i64 (clock m + 1) end) in *.
  set (sts := match owned with None => delete (ClientID a) (states a) | Some s => <[ClientID a := s]> (states a) end).
  destruct (raise_ok a sts (ClientID a) clk now (destroyed a) Hok) as [H1 H2]; [lia| |].
  { intros j Hj. unfold sts. destruct owned; by rewrite ?lookup_insert_ne, ?lookup_delete_ne by done. }
  intros Heq.
  assert (a' = mkAw (ClientID a) sts (<[ClientID a := mkMeta clk now]> (meta a)) (destroyed a)) as ->.
  { destruct owned, (states a !! ClientID a); by injection Heq. }
  split_and!; [done|done|]. unfold clockOf at 1. simpl. rewrite lookup_insert_eq. simpl. lia.
Qed.

Lemma removeLoop_ok now clients : forall a removed,
  aw_ok a -> (is_Some (states a !! ClientID a) -> clockOf a (ClientID a) < maxInt) ->
  exists a' removed', removeLoop now a clients removed = Some (a', removed') /\ aw_ok a' /\ advances a a'.
Proof.
  induction clients as [|c clients IH]; intros a removed Hok Hb; simpl; [exists a, removed; split_and!; [done|done|apply advances_refl]|].
  destruct (states a !! c) as [s|] eqn:Hs; [|by apply IH].
  destruct (Z.eqb_spec c (ClientID a)) as [->|Hn].
  - destruct (proj1 Hok (ClientID a)) as [m Hm]; [by eexists|]. rewrite Hm. simpl. specialize (Hb (ex_intro _ s Hs)). pose proof (next_clock a (ClientID a) Hok Hb) as Hn.
    rewrite Hm in Hn.
    destruct (raise_ok a (delete (ClientID a) (states a)) (ClientID a) (i64 (clock m + 1)) now (destroyed a) Hok) as [H3 H4];
      [lia| |].
    { intros j Hj. by rewrite lookup_delete_ne. }
    destruct (IH _ (removed ++ [ClientID a]) H3) as (a' & rm' & Hr & Hok' & Hadv).
    { simpl. rewrite lookup_delete_eq. by intros [? ?]. }
    exists a', rm'. split_and!; [done|done|]. by eapply advances_trans.
  - set (a1 := mkAw (ClientID a) (delete c (states a)) (meta a) (destroyed a)).
    assert (Hok1 : aw_ok a1).
    { destruct Hok as [H1 H2]. split; [|done]. simpl. intros k Hk. apply H1.
      destruct (decide (c = k)) as [->|?]; [by rewrite lookup_delete_eq in Hk; destruct Hk|by rewrite lookup_delete_ne in Hk]. }
    destruct (IH a1 (removed ++ [c]) Hok1) as (a' & rm' & Hr & Hok' & Hadv).
    { simpl. rewrite lookup_delete_ne by done. apply Hb. }
    exists a', rm'. split_and!; [done|done|]. by eapply advances_trans; [|exact Hadv].
Qed.

Lemma RemoveAwarenessStates_ok now clients o a :
  aw_ok a -> clockOf a (ClientID a) < maxInt ->
  exists a' evs, RemoveAwarenessStates now clients o a = Some (a', evs) /\ aw_ok a' /\ advances a a'.
Proof.
  intros Hok Hb. unfold RemoveAwarenessStates.
  destruct (destroyed a); [exists a, []; split_and!; [done|done|apply advances_refl]|].
  destruct (removeLoop_ok now clients a [] Hok) as (a' & rm & -> & Hok' & Hadv); [done|].
  simpl. by eexists _, _.
Qed.

Lemma applyAwarenessEntries_ok t a es :
  aw_ok a -> Forall entry_ok es ->
  aw_ok (fst (applyAwarenessEntries t a es)) /\ advances a (fst (applyAwarenessEntries t a es)).
Proof.
  intros Hok Hes. unfold applyAwarenessEntries. destruct (destroyed a); [split; [done|apply advances_refl]|].
  apply (applyEntries_ind (fun a' => aw_ok a' /\ advances a a')); [split; [done|apply advances_refl]|done|].
  intros a1 c1 e He [Hok1 Hadv]. split; [by apply applyEntry_ok|]. eapply advances_trans; [exact Hadv|].
  split; [by destruct (applyEntry_fst t a1 c1 e)|]. intros k. by apply applyEntry_mono.
Qed.

Lemma tickApply_ok now d a :
  aw_ok a -> clockOf a (ClientID a) < maxInt - 1 ->
  exists a' evs, tickApply now d a = Some (a', evs) /\ aw_ok a' /\ advances a a'.
Proof.
  intros Hok Hb. destruct d as [renew removed]. unfold tickApply.
  assert (Hs : exists a1 evs1, (match renew, GetLocalState a with
      | true, Some s => let '(_, a', evs) := SetLocalState now (Some s) a in (a', evs)
      | _, _ => (a, []) end) = (a1, evs1) /\ aw_ok a1 /\ advances a a1 /\ clockOf a1 (ClientID a) <= clockOf a (ClientID a) + 1).
  { assert (Hid : exists a1 evs1, (a, []) = (a1, evs1) /\ aw_ok a1 /\ advances a a1 /\
      clockOf a1 (ClientID a) <= clockOf a (ClientID a) + 1)
      by (exists a, (@nil event); split_and!; [done|done|apply advances_refl|lia]).
    destruct renew; [|done]. destruct (GetLocalState a) as [s|]; [|done].
    destruct (SetLocalState now (Some s) a) as [[r a1] evs1] eqn:E. exists a1, evs1. split; [done|].
    by eapply setLocalState_ok; [done|lia|exact E]. }
  destruct Hs as (a1 & evs1 & -> & Hok1 & Hadv & Hc). destruct removed as [|c removed]; [by exists a1, evs1|].
  destruct (RemoveAwarenessStates_ok now (c :: removed) OTimeout a1 Hok1) as (a' & evs & -> & Hok' & Hadv').
  { destruct Hadv as [Hid _]. rewrite Hid. lia. }
  simpl. eexists _, _. split_and!; [done|done|]. by eapply advances_trans.
Qed.

(** Every operation that changes an awareness value, and the two halves of the
    timer's tick as separate steps: [d] is any earlier decision. *)
Inductive aw_step : Awareness -> Awareness -> Prop :=
| aw_set now st force a r a' evs : setLocalState now st force a = (r, a', evs) -> aw_step a a'
| aw_field now f v a r a' evs : SetLocalStateField now f v a = (r, a', evs) -> aw_step a a'
| aw_destroy now a a' evs : Destroy now a = (a', evs) -> aw_step a a'
| aw_remove now clients o a a' evs : RemoveAwarenessStates now clients o a = Some (a', evs) -> aw_step a a'
| aw_apply now update o a r a' evs : ApplyAwarenessUpdate now update o a = (r, a', evs) -> aw_step a a'
| aw_apply_quiet now update a r a' : applyAwarenessUpdateWithoutEvents now update a = (r, a') -> aw_step a a'
| aw_tick now d a a' evs : tickApply now d a = Some (a', evs) -> aw_step a a'.

Lemma aw_step_ok a a' :
  aw_ok a -> clockOf a (ClientID a) < maxInt - 1 -> aw_step a a' -> aw_ok a' /\ advances a a'.
Proof.
  intros Hok Hb. assert (Hb' : clockOf a (ClientID a) < maxInt) by lia. destruct 1 as
    [now st force a r a' evs E|now f v a r a' evs E|now a a' evs E|now cs o a a' evs E|now u o a r a' evs E|now u a r a' E|now d a a' evs E].
  - destruct (setLocalState_ok _ _ _ _ _ _ _ Hok Hb' E) as (? & ? & _). done.
  - unfold SetLocalStateField in E. destruct (GetLocalState a); [|injection E as _ <- _; split; [done|apply advances_refl]].
    destruct (setLocalState_ok _ _ _ _ _ _ _ Hok Hb' E) as (? & ? & _). done.
  - unfold Destroy in E. destruct (destroyed a); [injection E as <- _; split; [done|apply advances_refl]|].
    set (a0 := mkAw (ClientID a) (states a) (meta a) true) in *.
    destruct (setLocalState now None true a0) as [[r a1] evs1] eqn:E1. injection E as <- _.
    destruct (setLocalState_ok now None true a0 r a1 evs1) as (? & ? & _); [done..|]. done.
  - destruct (RemoveAwarenessStates_ok now cs o a Hok Hb') as (a1 & evs1 & E1 & ? & ?). rewrite E1 in E. by injection E as <- _.
  - unfold ApplyAwarenessUpdate in E. destruct (decodeAwarenessEntries u) as [es|] eqn:Ed; [|injection E as _ <- _; split; [done|apply advances_refl]].
    pose proof (applyAwarenessEntries_ok now a es Hok (decode_ok _ _ Ed)) as Hx.
    destruct (applyAwarenessEntries now a es) as [a1 c1]. by injection E as _ <- _.
  - unfold applyAwarenessUpdateWithoutEvents in E. destruct (decodeAwarenessEntries u) as [es|] eqn:Ed; [|injection E as _ <-; split; [done|apply advances_refl]].
    injection E as _ <-. apply applyAwarenessEntries_ok; [done|by eapply decode_ok].
  - destruct (tickApply_ok now d a Hok Hb) as (a1 & evs1 & E1 & ? & ?). rewrite E1 in E. by injection E as <- _.
Qed.

(** Histories in which the local clock stays below the limit of the type. *)
Inductive aw_reachable (a0 : Awareness) : Awareness -> Prop :=
| ar_refl : aw_reachable a0 a0
| ar_step a a' : aw_reachable a0 a -> clockOf a (ClientID a) < maxInt - 1 -> aw_step a a' -> aw_reachable a0 a'.

Lemma aw_reachable_ok a0 a : aw_ok a0 -> aw_reachable a0 a -> aw_ok a /\ advances a0 a.
Proof.
  intros H0. induction 1 as [|a a' Hr [IH1 IH2] Hb Hs]; [split; [done|apply advances_refl]|].
  destruct (aw_step_ok a a' IH1 Hb Hs). split; [done|]. by eapply advances_trans.
Qed.

Lemma NewAwareness_ok now clientID : aw_ok (NewAwareness now clientID).
Proof.
  unfold NewAwareness. destruct (SetLocalState _ _ _) as [[r a] evs] eqn:E.
  destruct (setLocalState_ok now (Some emptyObject) false (mkAw clientID ∅ ∅ false) r a evs) as (Hok & _); try done.
  split; [by intros k [? ?]|by intros k m]. 
Qed.

(** ** Frames read back *)
Definition entry_bytes (e : awarenessEntry) : list Z :=
  uvarint_bytes 10 (e_client e) ++ uvarint_bytes 10 (e_clock e) ++ WriteString [] (AwarenessStateJSON (e_state e)).

Lemma writeEntry_bytes enc e : entry_ok e -> writeEntry enc e = enc ++ entry_bytes e.
Proof.
  intros [H1 H2]. apply safe_is_u64 in H1 as H1', H2 as H2'. unfold writeEntry. rewrite !u64_small by done.
  unfold is_u64 in *. rewrite WriteString_app, !WriteVarUint_bytes by lia. unfold entry_bytes. by rewrite <- !(assoc_L (++)).
Qed.

Lemma writeEntries_bytes es enc : Forall entry_ok es -> fold_left writeEntry es enc = enc ++ concat (map entry_bytes es).
Proof.
  intros Hes. revert enc. induction Hes as [|e es He Hes IH]; intros enc; simpl; [by rewrite app_nil_r|].
  rewrite IH, writeEntry_bytes by done. by rewrite <- (assoc_L (++)).
Qed.

Lemma uvarint_length v : (1 <= length (uvarint_bytes 10 v))%nat.
Proof. rewrite uvarint_bytes_S. case_match; simpl; lia. Qed.

Lemma entry_bytes_length e : (3 <= length (entry_bytes e))%nat.
Proof.
  unfold entry_bytes, WriteString. rewrite WriteVarUint_bytes by lia. rewrite !length_app.
  pose proof (uvarint_length (e_client e)). pose proof (uvarint_length (e_clock e)).
  pose proof (uvarint_length (Z.of_nat (length (AwarenessStateJSON (e_state e))))). cbn [length]. lia.
Qed.

Lemma readNumber_bytes v rest : is_safe v -> truncated readVarUintAsNumber (uvarint_bytes 10 v ++ rest) = (Ok v, rest).
Proof.
  intros Hv. unfold truncated, readVarUintAsNumber, ReadVarUint, rbind. rewrite uvarint_roundtrip by by apply safe_is_u64.
  unfold rlift. by rewrite toNumber_safe.
Qed.

Context `{!StateLaws S}.

Lemma parse_state st : ParseAwarenessStateJSON (AwarenessStateJSON st) = Ok st.
Proof.
  destruct st as [s|]; simpl.
  - pose proof (json_size s). unfold ParseAwarenessStateJSON. destruct (jsonString s) eqn:E; [simpl in *; lia|].
    by rewrite <- E, json_roundtrip.
  - by rewrite json_null.
Qed.

Lemma state_size st : Z.of_nat (length (AwarenessStateJSON st)) < 2 ^ 64.
Proof. destruct st as [s|]; simpl; [|lia]. pose proof (json_size s). lia. Qed.

Lemma readEntry_bytes e rest : entry_ok e -> readEntry (entry_bytes e ++ rest) = (Ok e, rest).
Proof.
  intros [H1 H2]. unfold readEntry, entry_bytes. rewrite <- !(assoc_L (++)).
  rstep readNumber_bytes by done. rstep readNumber_bytes by done.
  unfold rbind at 1. unfold truncated. rewrite string_roundtrip by apply state_size.
  rewrite parse_state. unfold rbind, rlift, malformed, rret. by destruct e.
Qed.

Lemma readEntries_bytes es rest :
  Forall entry_ok es -> rtimes (length es) readEntry (concat (map entry_bytes es) ++ rest) = (Ok es, rest).
Proof.
  intros Hes. induction Hes as [|e es He Hes IH]; [done|]. cbn [length map concat]. rewrite <- (assoc_L (++)).
  eapply rtimes_cons; [by apply readEntry_bytes|done].
Qed.

Lemma decode_encode es :
  Forall entry_ok es -> Z.of_nat (length es) < 2 ^ 64 ->
  decodeAwarenessEntries (fold_left writeEntry es (WriteVarUint [] (Z.of_nat (length es)))) = Ok es.
Proof.
  intros Hes Hn. unfold decodeAwarenessEntries.
  rewrite writeEntries_bytes, WriteVarUint_bytes by (done || lia). rewrite app_nil_l.
  unfold rbind at 1. unfold truncated, ReadVarUint. rewrite uvarint_roundtrip by (unfold is_u64; lia).
  unfold rbind at 1. unfold boundGuard, boundExceeded.
  assert (Hlen : (3 * length es <= length (concat (map entry_bytes es)))%nat).
  { clear. induction es as [|e es IH]; simpl; [lia|]. rewrite length_app. pose proof (entry_bytes_length e). lia. }
  destruct (Z.ltb_spec 3 1); [lia|]. destruct (Z.ltb_spec (Z.of_nat (length (concat (map entry_bytes es)))) 0); [lia|].
  destruct (Z.ltb_spec (Z.quot (Z.of_nat (length (concat (map entry_bytes es)))) 3) (Z.of_nat (length es))).
  { Z.quot_rem_to_equations. lia. }
  rewrite Nat2Z.id. rewrite <- (app_nil_r (concat _)). by rewrite readEntries_bytes.
Qed.

End Awareness.
Arguments Awareness : clear implicits.
Arguments awarenessEntry : clear implicits.

(** ** Properties *)
Section Properties.
Context {S : Type} `{StateOps S}.

(** C36. Replicas converge: two awareness values that agree on a remote client
    agree on it again after receiving the same set of entries, in any order,
    with any duplication and in any batches, provided that the client published
    one state per clock. The clock and the state of the client are then the
    last-writer-wins join of the entries. *)
Theorem awareness_converges (hist : Z -> S) (k : Z) (a b : Awareness S)
    (batches batches' : list (Z * list (awarenessEntry S))) :
  k <> ClientID a -> k <> ClientID b -> destroyed a = false -> destroyed b = false ->
  view a k = view b k -> published hist (view a k) ->
  Forall (fun e => e_client e = k -> published hist (entry_view e)) (concat (map snd batches)) ->
  (forall e, e ∈ concat (map snd batches) <-> e ∈ concat (map snd batches')) ->
  view (applyBatches batches a) k = view (applyBatches batches' b) k.
Proof.
  intros Hka Hkb Hda Hdb Hv Hp Hes Hin. rewrite !batches_join by done. rewrite <- Hv.
  assert (Hpub : forall l, (forall e, e ∈ l -> e ∈ concat (map snd batches)) ->
    Forall (fun e => published hist (entry_view e)) (filter (fun e => e_client e = k) l)).
  { intros l Hl. apply list.Forall_forall. intros e [He Hel]%list_elem_of_filter.
    rewrite list.Forall_forall in Hes. by apply Hes; [apply Hl|]. }
  apply (joins_set hist); [done|by apply Hpub|apply Hpub; intros e; apply Hin|].
  intros e. rewrite !list_elem_of_filter, Hin. done.
Qed.

(** Applying an update is idempotent: a second delivery of a frame that
    was applied changes nothing, not even the time stamps, and emits no
    event. *)
Theorem apply_update_idempotent (now now' : Z) (update : list Z) (o o' : origin) (a a' : Awareness S) (evs : list event) :
  ApplyAwarenessUpdate now update o a = (Ok tt, a', evs) ->
  ApplyAwarenessUpdate now' update o' a' = (Ok tt, a', []).
Proof.
  unfold ApplyAwarenessUpdate. destruct (decodeAwarenessEntries update) as [es|] eqn:Ed; [|done].
  unfold applyAwarenessEntries. destruct (destroyed a) eqn:Hd.
  - intros [= <- _]. by rewrite Hd.
  - pose proof (applyEntries_seen now es a noChanges (decode_ok _ _ Ed)) as Hs.
    pose proof (applyEntries_id now es a noChanges) as [_ Hd'].
    destruct (fold_left (applyEntry now) es (a, noChanges)) as [a1 c1]. intros [= <- _]. simpl in *.
    rewrite Hd', Hd. by rewrite applyEntries_all_seen.
Qed.

(** In every history of operations from a new awareness value (with the
    two halves of the timer's tick interleaved arbitrarily with the others), no
    client's clock ever goes back, every state has its metadata, and so
    neither removal nor the timer hits the failing clock assertion. *)
Theorem awareness_clocks_advance (now clientID : Z) (a : Awareness S) :
  aw_reachable (NewAwareness now clientID) a -> clockOf a (ClientID a) < maxInt - 1 ->
  (forall k, clockOf (NewAwareness now clientID) k <= clockOf a k) /\
  (forall k, is_Some (states a !! k) -> is_Some (meta a !! k)) /\
  (forall t clients o, RemoveAwarenessStates t clients o a <> None) /\
  (forall t d, tickApply t d a <> None) /\
  (forall a' k, aw_step a a' -> clockOf a k <= clockOf a' k).
Proof.
  intros Hr Hb. destruct (aw_reachable_ok _ _ (NewAwareness_ok now clientID) Hr) as [Hok [_ Hadv]].
  assert (Hb' : clockOf a (ClientID a) < maxInt) by lia. split_and!; [done|apply Hok| | |].
  - intros t cs o. by destruct (RemoveAwarenessStates_ok t cs o a Hok Hb') as (? & ? & -> & _).
  - intros t d. by destruct (tickApply_ok t d a Hok Hb) as (? & ? & -> & _).
  - intros a' k Hs. by destruct (aw_step_ok a a' Hok Hb Hs) as [_ [_ ?]].
Qed.

(** No update removes the local state: if the client has a state it still
    has one after any frame, and a frame that tries to remove it leaves the
    local clock above the clock of the attempt, so that the next broadcast
    restores the state at the peers. *)
Theorem local_state_survives (now : Z) (update : list Z) (o : origin) (a a' : Awareness S) (r : result unit) (evs : list event) :
  ApplyAwarenessUpdate now update o a = (r, a', evs) -> is_Some (states a !! ClientID a) ->
  is_Some (states a' !! ClientID a) /\
  forall es e, decodeAwarenessEntries update = Ok es -> destroyed a = false ->
    e ∈ es -> e_client e = ClientID a -> e_state e = None -> e_clock e < clockOf a' (ClientID a).
Proof.
  intros E Hs. unfold ApplyAwarenessUpdate in E.
  destruct (decodeAwarenessEntries update) as [es|] eqn:Ed; [|injection E as _ <- _; split; [done|by intros ? ? [=]]].
  unfold applyAwarenessEntries in E. pose proof (decode_ok _ _ Ed) as Hok.
  destruct (destroyed a) eqn:Hd; [injection E as _ <- _; split; [done|by intros]|].
  pose proof (applyEntries_seen now es a noChanges Hok) as Hseen.
  pose proof (applyEntries_ind (fun a1 => ClientID a1 = ClientID a /\ is_Some (states a1 !! ClientID a)) now es a noChanges) as Hind.
  destruct (fold_left (applyEntry now) es (a, noChanges)) as [a1 c1]. injection E as _ <- _. cbn [fst] in *.
  assert (Hloc : ClientID a1 = ClientID a /\ is_Some (states a1 !! ClientID a)).
  { apply Hind; [done|done|]. intros a2 c2 e He [Hid Hl].
    destruct (applyEntry_fst now a2 c2 e) as (Hid' & _ & Hne & Hif). split; [by rewrite Hid'|].
    destruct (decide (ClientID a = e_client e)) as [Heq|Hn]; [|by destruct (Hne _ Hn) as [-> _]].
    destruct (accepts a2 e); [|by rewrite Hif]. destruct Hif as [Hst _]. rewrite Heq, Hst. unfold newState, refuses.
    destruct (e_state e); [by eexists|]. rewrite Hid, <- Heq, Z.eqb_refl. destruct Hl as [s ->]. simpl. by eexists. }
  split; [apply Hloc|]. intros es' e [= <-] _ He Hc Hn. rewrite list.Forall_forall in Hseen.
  destruct (Hseen e He) as [Hlt|[_ Hnone]]; [by rewrite Hc in Hlt|]. specialize (Hnone Hn). rewrite Hc in Hnone.
  destruct Hloc as [_ [? ?]]. congruence.
Qed.

(** C37. A frame that does not decode changes nothing and emits nothing, and a
    destroyed awareness value ignores every operation but the reads. *)
Theorem awareness_all_or_nothing (now : Z) (update : list Z) (o : origin) (a : Awareness S) :
  (forall e, decodeAwarenessEntries (S := S) update = Err e -> ApplyAwarenessUpdate now update o a = (Err e, a, [])) /\
  (destroyed a = true ->
     (forall st, SetLocalState now st a = (Ok tt, a, [])) /\ Destroy now a = (a, []) /\
     (forall clients, RemoveAwarenessStates now clients o a = Some (a, [])) /\
     tick now a = Some (a, []) /\
     exists r, ApplyAwarenessUpdate now update o a = (r, a, [])).
Proof.
  split; [intros e He; unfold ApplyAwarenessUpdate; by rewrite He|]. intros Hd.
  unfold SetLocalState, setLocalState, Destroy, RemoveAwarenessStates, tick, tickDecide, tickApply,
    ApplyAwarenessUpdate, applyAwarenessEntries. rewrite Hd. split_and!; try done.
  destruct (decodeAwarenessEntries update); by eexists.
Qed.

(** An encoded update decodes to the entries of the clients it was made
    for, cleared states included: every client with metadata, with its clock
    and its state. *)
Theorem awareness_frame_roundtrip `{!StateLaws S} (a : Awareness S) (clients : list Z) (sts : option (gmap Z S)) :
  Forall entry_ok (validEntries a clients sts) -> Z.of_nat (length (validEntries a clients sts)) < 2 ^ 64 ->
  decodeAwarenessEntries (EncodeAwarenessUpdate a clients sts) = Ok (validEntries a clients sts).
Proof. apply decode_encode. Qed.

End Properties.

(** *** A concrete state type: a state is a number, printed as [{n]. *)
#[global] Instance zStateOps : StateOps Z := {|
  equalAttrsDeep a b := bool_decide (a = b);
  cloneDataObject s := Ok s;
  emptyObject := 0;
  setField s _ v := s + v;
  jsonString s := [123; s];
  unmarshalJSONOrdered data :=
    match data with
    | [123; s] => Ok (JObject s)
    | [110; 117; 108; 108] => Ok JNull
    | _ => Err ErrMalformed
    end |}.

#[global] Instance zStateLaws : StateLaws Z.
Proof. split; try done. Qed.

Definition sample_a : Awareness Z := NewAwareness 0 1.
Definition sample_b : Awareness Z := NewAwareness 0 2.
Definition sample_hist (c : Z) : Z := 100 + c.

Lemma awareness_converges_witness :
  view (applyBatches [(5, [mkEntry 7 1 (Some 101)]); (6, [mkEntry 7 1 None])] sample_a) 7 =
  view (applyBatches [(9, [mkEntry 7 1 None; mkEntry 7 1 (Some 101); mkEntry 7 1 None])] sample_b) 7.
Proof.
  apply (awareness_converges sample_hist 7 sample_a sample_b); try done.
  - repeat (constructor; [done|]). constructor.
  - intros e. simpl. set_solver.
Defined.

Definition sample_update : list Z := [1; 7; 3; 2; 123; 42].

Lemma apply_update_idempotent_witness :
  ApplyAwarenessUpdate 9 sample_update OLocal
    (snd (fst (ApplyAwarenessUpdate 5 sample_update OTimeout sample_a))) =
  (Ok tt, snd (fst (ApplyAwarenessUpdate 5 sample_update OTimeout sample_a)), []).
Proof.
  apply (apply_update_idempotent 5 9 sample_update OTimeout OLocal sample_a
    (snd (fst (ApplyAwarenessUpdate 5 sample_update OTimeout sample_a)))
    (snd (ApplyAwarenessUpdate 5 sample_update OTimeout sample_a))).
  vm_compute. reflexivity.
Defined.

Lemma awareness_clocks_advance_witness :
  (forall k, clockOf (NewAwareness (S := Z) 0 1) k <= clockOf sample_a k) /\
  (forall k, is_Some (states sample_a !! k) -> is_Some (meta sample_a !! k)) /\
  (forall t clients o, RemoveAwarenessStates t clients o sample_a <> None) /\
  (forall t d, tickApply t d sample_a <> None) /\
  (forall a' k, aw_step sample_a a' -> clockOf sample_a k <= clockOf a' k).
Proof. apply (awareness_clocks_advance 0 1 sample_a); [apply ar_refl|reflexivity]. Defined.

(** A frame that removes client 1, sent to client 1. *)
Definition removal : list Z := [1; 1; 4; 4; 110; 117; 108; 108].

Lemma local_state_survives_witness :
  is_Some (states (snd (fst (ApplyAwarenessUpdate 5 removal OTimeout sample_a))) !! 1) /\
  4 < clockOf (snd (fst (ApplyAwarenessUpdate 5 removal OTimeout sample_a))) 1.
Proof.
  destruct (local_state_survives 5 removal OTimeout sample_a
    (snd (fst (ApplyAwarenessUpdate 5 removal OTimeout sample_a))) (Ok tt)
    (snd (ApplyAwarenessUpdate 5 removal OTimeout sample_a))) as [H1 H2];
    [vm_compute; reflexivity|by eexists|].
  split; [exact H1|]. apply (H2 [mkEntry 1 4 None] (mkEntry 1 4 None)); try reflexivity. by left.
Defined.

Lemma awareness_all_or_nothing_witness :
  ApplyAwarenessUpdate 5 [2; 7] OLocal sample_a = (Err ErrTruncatedAwarenessFrame, sample_a, []) /\
  tick 99 (fst (Destroy 5 sample_a)) = Some (fst (Destroy 5 sample_a), []).
Proof.
  split.
  - apply (proj1 (awareness_all_or_nothing 5 [2; 7] OLocal sample_a)). vm_compute. reflexivity.
  - apply (proj2 (awareness_all_or_nothing 99 [2; 7] OLocal (fst (Destroy 5 sample_a))) eq_refl).
Defined.

Lemma sample_valid : validEntries sample_a [1; 5] None = [mkEntry 1 0 (Some 0)].
Proof. reflexivity. Qed.

Lemma awareness_frame_roundtrip_witness :
  decodeAwarenessEntries (EncodeAwarenessUpdate sample_a [1; 5] None) = Ok [mkEntry 1 0 (Some 0)].
Proof.
  apply (awareness_frame_roundtrip sample_a [1; 5] None).
  - rewrite sample_valid. apply list.Forall_singleton. split; split; discriminate.
  - reflexivity.
Defined.

(** [tick] decides under the lock but removes after releasing it: client 7,
    refreshed between the two, is removed all the same. *)
Definition stale7 : Awareness Z := snd (fst (ApplyAwarenessUpdate 0 sample_update OLocal sample_a)).
Definition refresh7 : list Z := [1; 7; 4; 2; 123; 43].
Definition fresh7 : Awareness Z := snd (fst (ApplyAwarenessUpdate 30000 refresh7 OLocal stale7)).

Lemma tick_reaps_refreshed_client :
  GetStates 30000 fresh7 !! 7 = Some 43 /\
  exists a evs, tickApply 30000 (tickDecide 30000 stale7) fresh7 = Some (a, evs) /\ states a !! 7 = None.
Proof.
  split; [vm_compute; reflexivity|].
  destruct (tickApply 30000 (tickDecide 30000 stale7) fresh7) as [[a evs]|] eqn:E; [|by vm_compute in E].
  exists a, evs. split; [done|].
  assert (Hs : (fst <$> tickApply 30000 (tickDecide 30000 stale7) fresh7) ≫= (fun a => Some (states a !! 7)) = Some None)
    by (vm_compute; reflexivity).
  rewrite E in Hs. by injection Hs.
Qed.
