(* ===== verification/Protocol.v ===== *)
(** * The message protocol

    Models the package [protocol]: the outer envelope ([protocol.go]), the
    inspection of a frame without copying it ([message_info.go]), the sync
    state machine and dispatch ([sync.go]), authentication messages
    ([auth.go]) and the awareness helpers ([awareness.go]). The document is
    used through [DocOps], the three functions of the crdt package that the
    handler calls; awareness is the model of Awareness.v. Registered handlers
    are functions on an application state [W]. A panic is the error
    [ErrPanic]; the handler's deferred [recover] turns it into an error of the
    call. *)
From S2P Require Import Prelude Lib0 Awareness.

Definition MessageSync : Z := 0.
Definition MessageAwareness : Z := 1.

(** ** The envelope *)
Definition WriteMessage (buf : list Z) (msgType : Z) (payload : list Z) : list Z :=
  WriteVarUint buf msgType ++ payload.

(** The payload is the rest of the buffer, which stays in it. *)
Definition ReadMessage (buf : list Z) : result (Z * list Z) * list Z :=
  match buf with
  | [] => (Err ErrShortMessage, [])
  | _ =>
      match ReadVarUint buf with
      | (Err e, rest) =>
          if decide (e = ErrEOF \/ e = ErrUnexpectedEOF) then (Err ErrShortMessage, rest)
          else (Err ErrInvalidMessageType, rest)
      | (Ok t, rest) => if 255 <? t then (Err ErrInvalidMessageType, rest) else (Ok (t, rest), rest)
      end
  end.

(** ** Views into a frame *)

(** [encoding/binary.Uvarint]: the value and the number of bytes read; 0 when
    the buffer is too small, negative on overflow. *)
Fixpoint uvarint_loop (i x s : Z) (buf : list Z) : Z * Z :=
  match buf with
  | [] => (0, 0)
  | b :: buf' =>
      if i =? 10 then (0, - (i + 1))
      else if b <? 128 then
        if (i =? 9) && (1 <? b) then (0, - (i + 1)) else (Z.lor x (u64 (Z.shiftl b s)), i + 1)
      else uvarint_loop (i + 1) (Z.lor x (u64 (Z.shiftl (Z.land b 127) s))) (s + 7) buf'
  end.

Definition Uvarint (buf : list Z) : Z * Z := uvarint_loop 0 0 0 buf.

(** The value and the offset after it. *)
Definition readVarUintView (data : list Z) (offset : Z) : result (Z * Z) :=
  let '(value, n) := Uvarint (drop (Z.to_nat offset) data) in
  if n =? 0 then Err ErrUnexpectedEOF
  else if n <? 0 then Err ErrOverflow
  else Ok (value, offset + n).

Definition readVarUint8ArrayView (data : list Z) (offset : Z) : result (list Z * Z) :=
  match readVarUintView data offset with
  | Err e => Err e
  | Ok (size, offset) =>
      let remaining := Z.of_nat (length data) - offset in
      if remaining <? size then Err ErrUnexpectedEOF
      else Ok (take (Z.to_nat size) (drop (Z.to_nat offset) data), offset + size)
  end.

Definition readMessageView (frame : list Z) : result (Z * list Z) :=
  match frame with
  | [] => Err ErrShortMessage
  | _ =>
      match readVarUintView frame 0 with
      | Err e => if decide (e = ErrUnexpectedEOF) then Err ErrShortMessage else Err ErrInvalidMessageType
      | Ok (msgType, offset) =>
          if 255 <? msgType then Err ErrInvalidMessageType
          else Ok (msgType, drop (Z.to_nat offset) frame)
      end
  end.

Definition SyncMessageNone : Z := -1.
Definition SyncMessageStep1 : Z := 0.
Definition SyncMessageStep2 : Z := 1.
Definition SyncMessageUpdate : Z := 2.

Record MessageInfo := mkInfo {
  Type_ : Z;
  SyncType : Z;
  FrameLength : Z;
  BodyLength : Z;
  Body : list Z;
}.

Definition mk_info (msgType syncType frameLength : Z) (body : list Z) : MessageInfo :=
  mkInfo msgType syncType frameLength (Z.of_nat (length body)) body.

Definition inspectPayload (msgType : Z) (payload : list Z) (frameLength : Z) : result MessageInfo :=
  if msgType =? MessageSync then
    match readVarUintView payload 0 with
    | Err e => if decide (e = ErrOverflow) then Err ErrInvalidSyncMessageType else Err e
    | Ok (subType, offset) =>
        if maxInt32 <? subType then Err ErrInvalidSyncMessageType
        else if (subType =? SyncMessageStep1) || (subType =? SyncMessageStep2) || (subType =? SyncMessageUpdate) then
          match readVarUint8ArrayView payload offset with
          | Err e => Err e
          | Ok (body, _) => Ok (mk_info msgType subType frameLength body)
          end
        else Ok (mk_info msgType subType frameLength (drop (Z.to_nat offset) payload))
    end
  else if msgType =? MessageAwareness then
    match readVarUint8ArrayView payload 0 with
    | Err e => Err e
    | Ok (body, _) => Ok (mk_info msgType SyncMessageNone frameLength body)
    end
  else Ok (mk_info msgType SyncMessageNone frameLength payload).

Definition InspectMessage (frame : list Z) : result MessageInfo :=
  match readMessageView frame with
  | Err e => Err e
  | Ok (msgType, payload) => inspectPayload msgType payload (Z.of_nat (length frame))
  end.

(** ** Building messages *)
Definition encodeSyncMessage (messageType : Z) (body : list Z) : list Z :=
  let payload := WriteVarUint8Array (WriteVarUint [] messageType) body in
  WriteMessage [] MessageSync payload.

Definition EncodeUpdate (update : list Z) : list Z := encodeSyncMessage SyncMessageUpdate update.

Definition EncodeAwarenessUpdateMessage (payload : list Z) : list Z :=
  WriteVarUint8Array (WriteVarUint [] MessageAwareness) payload.

(** ** The sync handler *)

(** What the handler calls on a document. *)
Class DocOps (Doc : Type) := {
  EncodeStateVector : Doc -> list Z;
  EncodeStateAsUpdate : Doc -> list Z -> result (list Z);
  ApplyUpdate : list Z -> origin -> Doc -> result unit * Doc;
}.

Section Handler.
Context {Doc S W : Type} `{DocOps Doc} `{StateOps S}.

Definition MessageHandler : Type := list Z -> W -> result unit * W.

Record SyncHandler := mkHandler {
  doc : Doc;
  awareness : option (Awareness S);
  handlers : gmap Z MessageHandler;
  app : W;
}.

Definition NewSyncHandler (d : Doc) (w : W) : SyncHandler := mkHandler d None ∅ w.
Definition SetAwareness (a : option (Awareness S)) (h : SyncHandler) : SyncHandler :=
  mkHandler (doc h) a (handlers h) (app h).
Definition RegisterHandler (msgType : Z) (f : MessageHandler) (h : SyncHandler) : SyncHandler :=
  mkHandler (doc h) (awareness h) (<[msgType := f]> (handlers h)) (app h).

Definition EncodeSyncStep1 (d : Doc) : list Z := encodeSyncMessage SyncMessageStep1 (EncodeStateVector d).

Definition EncodeSyncStep2 (d : Doc) (encodedStateVector : list Z) : result (list Z) :=
  match EncodeStateAsUpdate d encodedStateVector with
  | Err e => Err e
  | Ok update => Ok (encodeSyncMessage SyncMessageStep2 update)
  end.

(** The deferred [recover]. *)
Definition recovered {A} (r : result A) : result A :=
  match r with
  | Err ErrPanic => Err ErrMalformed
  | _ => r
  end.

(** Calling a registered handler. *)
Definition callHandler (f : MessageHandler) (payload : list Z) (h : SyncHandler) : result unit * SyncHandler :=
  let '(r, w) := f payload (app h) in
  (recovered r, mkHandler (doc h) (awareness h) (handlers h) w).

(** [HandleMessageWithOrigin]: the type, the error, the handler and the reply
    buffer after it; [encoder] is [None] for a nil buffer. *)
Definition HandleMessageWithOrigin (now : Z) (msg : list Z) (encoder : option (list Z)) (o : origin) (h : SyncHandler)
    : Z * result unit * SyncHandler * option (list Z) :=
  match readMessageView msg with
  | Err e => (0, Err e, h, encoder)
  | Ok (msgType, payload) =>
      match (if msgType =? MessageSync then handlers h !! MessageSync else None) with
      | Some hdlr => let '(r, h') := callHandler hdlr payload h in (MessageSync, r, h', encoder)
      | None =>
          match inspectPayload msgType payload (Z.of_nat (length msg)) with
          | Err e => (msgType, Err e, h, encoder)
          | Ok info =>
              if msgType =? MessageSync then
                if SyncType info =? SyncMessageStep1 then
                  match encoder with
                  | None => (MessageSync, Err ErrNilEncoder, h, encoder)
                  | Some buf =>
                      match EncodeSyncStep2 (doc h) (Body info) with
                      | Err e => (MessageSync, recovered (Err e), h, encoder)
                      | Ok reply => (MessageSync, Ok tt, h, Some (buf ++ reply))
                      end
                  end
                else if (SyncType info =? SyncMessageStep2) || (SyncType info =? SyncMessageUpdate) then
                  let '(r, d) := ApplyUpdate (Body info) o (doc h) in
                  (MessageSync, recovered r, mkHandler d (awareness h) (handlers h) (app h), encoder)
                else (MessageSync, Ok tt, h, encoder)
              else if msgType =? MessageAwareness then
                match handlers h !! MessageAwareness with
                | Some hdlr => let '(r, h') := callHandler hdlr (Body info) h in (MessageAwareness, r, h', encoder)
                | None =>
                    match awareness h with
                    | None => (MessageAwareness, Ok tt, h, encoder)
                    | Some a =>
                        let '(r, a', _) := ApplyAwarenessUpdate now (Body info) o a in
                        (MessageAwareness, r, mkHandler (doc h) (Some a') (handlers h) (app h), encoder)
                    end
                end
              else
                match handlers h !! msgType with
                | Some hdlr => let '(r, h') := callHandler hdlr (Body info) h in (msgType, r, h', encoder)
                | None => (msgType, Ok tt, h, encoder)
                end
          end
      end
  end.

End Handler.
Arguments SyncHandler : clear implicits.

(** ** Authentication messages *)
Definition MessagePermissionDenied : Z := 0.

Definition WritePermissionDenied (encoder reason : list Z) : list Z :=
  WriteString (WriteVarUint encoder MessagePermissionDenied) reason.

(** The reason passed to the permission-denied handler, or [None] when it is
    not called. *)
Definition ReadAuthMessage : reader (option (list Z)) :=
  messageType <-- ReadVarUint;;;
  if negb (messageType =? MessagePermissionDenied) then rret None
  else reason <-- ReadString;;; rret (Some reason).

(** ** Single-client awareness broadcasts *)

Section Broadcast.
Context {S : Type} `{StateOps S}.

(** The package-level map of clocks, under its mutex. *)
Definition nextAwarenessClock (clientID : Z) (m : gmap Z Z) : Z * (gmap Z Z) :=
  let clk := match m !! clientID with Some c => u64 (c + 1) | None => 1 end in
  (clk, <[clientID := clk]> m).

Definition ResetAwarenessClock (clientID : Z) (m : gmap Z Z) : gmap Z Z := delete clientID m.
Definition ResetAllAwarenessClocks (m : gmap Z Z) : gmap Z Z := ∅.

Definition EncodeAwarenessMessage (clientID : Z) (state : option S) (m : gmap Z Z) : list Z * (gmap Z Z) :=
  let enc := WriteVarUint [] 1 in
  let enc := WriteVarUint enc (u64 clientID) in
  let '(clk, m') := nextAwarenessClock clientID m in
  let enc := WriteVarUint enc clk in
  (WriteString enc (AwarenessStateJSON state), m').

Definition DecodeAwarenessMessage (data : list Z) : result (Z * option S) :=
  fst ((count <-- ReadVarUint;;;
        if count =? 0 then rfail ErrEmptyAwareness
        else
          cid <-- ReadVarUint;;;
          _ <-- ReadVarUint;;;
          js <-- ReadString;;;
          state <-- rlift (ParseAwarenessStateJSON js);;;
          rret (i64 cid, state)) data).

End Broadcast.

(** ** Lemmas on views *)

(** Only continuation bytes, exactly as many as a varuint may have. *)
Definition all_continuation (n : nat) (buf : list Z) : Prop := length buf = n /\ Forall (fun b => 128 <= b) buf.

Lemma uvarint_loop_agrees n i x s buf :
  Z.of_nat n + i = 10 -> 0 <= i ->
  let '(v, k) := uvarint_loop i x s buf in
  let '(r, rest) := readUvarint_loop n i x s buf in
  (0 < k /\ i < k <= i + Z.of_nat (length buf) /\ ~ all_continuation n buf /\ r = Ok v /\ rest = drop (Z.to_nat (k - i)) buf) \/
  (k < 0 /\ ~ all_continuation n buf /\ r = Err ErrOverflow) \/
  (k = 0 /\ all_continuation n buf /\ r = Err ErrOverflow) \/
  (k = 0 /\ ~ all_continuation n buf /\ r = Err (if 0 <? i + Z.of_nat (length buf) then ErrUnexpectedEOF else ErrEOF)).
Proof.
  revert i x s buf. induction n as [|n IH]; intros i x s buf Hn Hi; simpl.
  - assert (i = 10) as -> by lia. destruct buf as [|b buf]; simpl.
    + right. right. left. split_and!; done.
    + right. left. split_and!; try done. by intros [? _].
  - destruct buf as [|b buf]; simpl.
    + right. right. right. split_and!; try done; [by intros [? _]|]. by rewrite Z.add_0_r.
    + destruct (Z.eqb_spec i 10); [lia|]. destruct (Z.ltb_spec b 128) as [Hb|Hb].
      * assert (Hnc : ~ all_continuation (Datatypes.S n) (b :: buf)) by (intros [_ Hf]; inversion Hf; lia).
        destruct ((i =? 9) && (1 <? b)); [right; left; split_and!; [lia|done..]|].
        left. split_and!; try (simpl; lia); [done..|]. by replace (Z.to_nat (i + 1 - i)) with 1%nat by lia.
      * assert (Hcont : all_continuation (Datatypes.S n) (b :: buf) <-> all_continuation n buf).
        { unfold all_continuation. simpl. split; [intros [Hl Hf]; inversion Hf; subst; split; [lia|done]|].
          intros [Hl Hf]. split; [lia|by constructor]. }
        specialize (IH (i + 1) (Z.lor x (u64 (Z.shiftl (Z.land b 127) s))) (s + 7) buf ltac:(lia) ltac:(lia)).
        destruct (uvarint_loop _ _ _ _) as [v k]. destruct (readUvarint_loop _ _ _ _ _) as [r rest].
        rewrite <- Hcont in IH. destruct IH as [(Hk & Hk2 & Hnc & -> & ->)|[?|[?|(-> & Hnc & ->)]]]; [|by auto..|].
        -- left. split_and!; try done; [lia|simpl; lia|].
           by replace (Z.to_nat (k - i)) with (Datatypes.S (Z.to_nat (k - (i + 1)))) by lia.
        -- right. right. right. split_and!; try done.
           destruct (Z.ltb_spec 0 (i + 1 + Z.of_nat (length buf))); [|lia].
           destruct (Z.ltb_spec 0 (i + Z.of_nat (Datatypes.S (length buf)))); [done|lia].
Qed.

(** A view read of what a buffer read consumes. *)
Lemma readVarUintView_bytes v pre rest :
  is_u64 v ->
  readVarUintView (pre ++ uvarint_bytes 10 v ++ rest) (Z.of_nat (length pre)) =
  Ok (v, Z.of_nat (length (pre ++ uvarint_bytes 10 v))).
Proof.
  intros Hv. unfold readVarUintView, Uvarint. rewrite Nat2Z.id, drop_app_length.
  pose proof (uvarint_loop_agrees 10 0 0 0 (uvarint_bytes 10 v ++ rest) ltac:(done) ltac:(done)) as Ha.
  pose proof (uvarint_roundtrip v rest Hv) as Hr. unfold binaryReadUvarint in Hr. rewrite Hr in Ha.
  destruct (uvarint_loop 0 0 0 _) as [v' k]. destruct Ha as [(Hk & Hk2 & _ & [= <-] & Hd)|[(_ & _ & ?)|[(_ & _ & ?)|(_ & _ & ?)]]]; try done.
  destruct (Z.eqb_spec k 0); [lia|]. destruct (Z.ltb_spec k 0); [lia|]. rewrite Z.sub_0_r in Hd. do 2 f_equal.
  rewrite length_app. pose proof (f_equal length Hd) as Hlen. rewrite length_drop, length_app in Hlen.
  rewrite length_app in Hk2. lia.
Qed.

Lemma readVarUint8ArrayView_bytes pre body rest :
  Z.of_nat (length body) < 2 ^ 64 ->
  exists off, readVarUint8ArrayView (pre ++ WriteVarUint8Array [] body ++ rest) (Z.of_nat (length pre)) = Ok (body, off).
Proof.
  intros Hl. unfold readVarUint8ArrayView, WriteVarUint8Array. rewrite WriteVarUint_bytes by lia. rewrite app_nil_l.
  rewrite <- (assoc_L (++)). rewrite readVarUintView_bytes by (unfold is_u64; lia).
  set (n := uvarint_bytes 10 (Z.of_nat (length body))). rewrite (assoc_L (++) pre n), !length_app.
  destruct (Z.ltb_spec (Z.of_nat (length pre + length n + (length body + length rest)) - Z.of_nat (length pre + length n))
    (Z.of_nat (length body))); [lia|].
  rewrite !Nat2Z.id, <- length_app, drop_app_length, take_app_length. by eexists.
Qed.

Lemma readMessageView_bytes t payload :
  0 <= t <= 255 -> readMessageView (uvarint_bytes 10 t ++ payload) = Ok (t, payload).
Proof.
  intros Ht. unfold readMessageView.
  pose proof (readVarUintView_bytes t [] payload ltac:(unfold is_u64; lia)) as Hv. rewrite !app_nil_l in Hv.
  change (Z.of_nat (length [])) with 0 in Hv.
  destruct (uvarint_bytes 10 t ++ payload) as [|b l] eqn:E.
  { apply app_eq_nil in E as [E _]. by apply uvarint_bytes_nonempty in E. }
  rewrite Hv. destruct (Z.ltb_spec 255 t); [lia|]. by rewrite Nat2Z.id, <- E, drop_app_length.
Qed.

Lemma encodeSync_bytes t body :
  0 <= t -> encodeSyncMessage t body =
  uvarint_bytes 10 MessageSync ++ uvarint_bytes 10 t ++ WriteVarUint8Array [] body.
Proof.
  intros Ht. unfold encodeSyncMessage, WriteMessage, WriteVarUint8Array.
  rewrite !WriteVarUint_bytes by (unfold MessageSync; lia). rewrite !app_nil_l. by rewrite <- !(assoc_L (++)).
Qed.

(** The three sync sub-messages. *)
Definition is_sync_type (t : Z) : Prop := t = SyncMessageStep1 \/ t = SyncMessageStep2 \/ t = SyncMessageUpdate.

Lemma inspect_sync t body n :
  is_sync_type t -> Z.of_nat (length body) < 2 ^ 64 ->
  inspectPayload MessageSync (uvarint_bytes 10 t ++ WriteVarUint8Array [] body) n = Ok (mk_info MessageSync t n body).
Proof.
  intros Ht Hl. unfold inspectPayload. change (MessageSync =? MessageSync) with true. cbv iota.
  assert (Hr : 0 <= t <= 2) by (unfold is_sync_type, SyncMessageStep1, SyncMessageStep2, SyncMessageUpdate in Ht; lia).
  pose proof (readVarUintView_bytes t [] (WriteVarUint8Array [] body) ltac:(unfold is_u64; lia)) as Hv.
  rewrite !app_nil_l in Hv. change (Z.of_nat (length [])) with 0 in Hv. rewrite Hv.
  destruct (Z.ltb_spec maxInt32 t); [unfold maxInt32 in *; lia|].
  assert (Hc : (t =? SyncMessageStep1) || (t =? SyncMessageStep2) || (t =? SyncMessageUpdate) = true).
  { destruct Ht as [->|[-> | ->]]; done. }
  rewrite Hc. destruct (readVarUint8ArrayView_bytes (uvarint_bytes 10 t) body [] Hl) as [off Ho].
  rewrite app_nil_r in Ho. by rewrite Ho.
Qed.

(** A sync frame reaches [inspectPayload] as its sub-message. *)
Lemma view_sync t body :
  is_sync_type t ->
  readMessageView (encodeSyncMessage t body) = Ok (MessageSync, uvarint_bytes 10 t ++ WriteVarUint8Array [] body).
Proof.
  intros Ht. rewrite encodeSync_bytes by (destruct Ht as [->|[-> | ->]]; done).
  apply readMessageView_bytes. unfold MessageSync. lia.
Qed.

(** ** Properties *)

(** A framed message reads back through both readers: [ReadMessage] on a
    buffer and [InspectMessage] on a view; the sync and awareness builders
    produce frames whose inspection returns the type, the sub-type and the
    body they were built from. *)
Theorem message_roundtrip (msgType t : Z) (payload body : list Z) :
  0 <= msgType <= 255 -> is_sync_type t -> Z.of_nat (length body) < 2 ^ 64 ->
  ReadMessage (WriteMessage [] msgType payload) = (Ok (msgType, payload), payload) /\
  readMessageView (WriteMessage [] msgType payload) = Ok (msgType, payload) /\
  InspectMessage (encodeSyncMessage t body) =
    Ok (mk_info MessageSync t (Z.of_nat (length (encodeSyncMessage t body))) body) /\
  InspectMessage (EncodeAwarenessUpdateMessage body) =
    Ok (mk_info MessageAwareness SyncMessageNone (Z.of_nat (length (EncodeAwarenessUpdateMessage body))) body).
Proof.
  intros Hm Ht Hl. split_and!.
  - unfold WriteMessage, ReadMessage. rewrite WriteVarUint_bytes by lia. rewrite app_nil_l.
    destruct (uvarint_bytes 10 msgType ++ payload) as [|b l] eqn:E.
    { apply app_eq_nil in E as [E _]. by apply uvarint_bytes_nonempty in E. }
    rewrite <- E. unfold ReadVarUint. rewrite uvarint_roundtrip by (unfold is_u64; lia).
    by destruct (Z.ltb_spec 255 msgType); [lia|].
  - unfold WriteMessage. rewrite WriteVarUint_bytes by lia. rewrite app_nil_l. by apply readMessageView_bytes.
  - unfold InspectMessage. rewrite view_sync by done. by apply inspect_sync.
  - unfold InspectMessage. set (n := Z.of_nat (length (EncodeAwarenessUpdateMessage body))).
    assert (Hb : EncodeAwarenessUpdateMessage body = uvarint_bytes 10 MessageAwareness ++ WriteVarUint8Array [] body).
    { unfold EncodeAwarenessUpdateMessage, WriteVarUint8Array. rewrite !WriteVarUint_bytes by (unfold MessageAwareness; lia).
      rewrite !app_nil_l. by rewrite <- (assoc_L (++)). }
    rewrite Hb, readMessageView_bytes by (unfold MessageAwareness; lia).
    destruct (readVarUint8ArrayView_bytes [] body [] Hl) as [off Ho]. rewrite app_nil_r, app_nil_l in Ho.
    unfold inspectPayload. change (MessageAwareness =? MessageSync) with false. change (MessageAwareness =? MessageAwareness) with true.
    cbv iota. change (Z.of_nat (length [])) with 0 in Ho. by rewrite Ho.
Qed.

Lemma message_roundtrip_witness :
  ReadMessage (WriteMessage [] 200 [1; 2]) = (Ok (200, [1; 2]), [1; 2]) /\
  readMessageView (WriteMessage [] 200 [1; 2]) = Ok (200, [1; 2]) /\
  InspectMessage (encodeSyncMessage 2 [9]) = Ok (mk_info 0 2 4 [9]) /\
  InspectMessage (EncodeAwarenessUpdateMessage [9]) = Ok (mk_info 1 (-1) 3 [9]).
Proof. apply (message_roundtrip 200 2 [1; 2] [9]); [lia|right; right; reflexivity|reflexivity]. Defined.

(** The view reader accepts exactly the frames the buffer reader accepts,
    with the same type and payload, and rejects with the same error class,
    except for one shape: a frame of exactly ten continuation bytes is
    [ErrShortMessage] for the view and [ErrInvalidMessageType] for the
    buffer. *)
Theorem view_agrees_with_buffer (frame : list Z) :
  (all_continuation 10 frame ->
     readMessageView frame = Err ErrShortMessage /\ fst (ReadMessage frame) = Err ErrInvalidMessageType) /\
  (~ all_continuation 10 frame -> readMessageView frame = fst (ReadMessage frame)).
Proof.
  destruct frame as [|b l]; [split; [by intros [? _]|done]|].
  set (frame := b :: l). pose proof (uvarint_loop_agrees 10 0 0 0 frame ltac:(done) ltac:(done)) as Ha.
  assert (Hv : readMessageView frame =
    match readVarUintView frame 0 with
    | Err e => if decide (e = ErrUnexpectedEOF) then Err ErrShortMessage else Err ErrInvalidMessageType
    | Ok (msgType, offset) => if 255 <? msgType then Err ErrInvalidMessageType else Ok (msgType, drop (Z.to_nat offset) frame)
    end) by done.
  assert (Hr : ReadMessage frame =
    match readUvarint_loop 10 0 0 0 frame with
    | (Err e, rest) => if decide (e = ErrEOF \/ e = ErrUnexpectedEOF) then (Err ErrShortMessage, rest) else (Err ErrInvalidMessageType, rest)
    | (Ok t, rest) => if 255 <? t then (Err ErrInvalidMessageType, rest) else (Ok (t, rest), rest)
    end) by done.
  rewrite Hv, Hr. unfold readVarUintView, Uvarint. rewrite Z2Nat.inj_0, drop_0.
  destruct (uvarint_loop 0 0 0 frame) as [v k]. destruct (readUvarint_loop 10 0 0 0 frame) as [r rest].
  destruct Ha as [(Hk & Hk2 & Hnc & -> & ->)|[(Hk & Hnc & ->)|[(-> & Hc & ->)|(-> & Hnc & ->)]]];
    (split; [intros Hc'|intros Hc']; try done).
  - destruct (Z.eqb_spec k 0); [lia|]. destruct (Z.ltb_spec k 0); [lia|].
    destruct (255 <? v); [done|]. cbn [fst]. by rewrite Z.sub_0_r.
  - destruct (Z.eqb_spec k 0); [lia|]. by destruct (Z.ltb_spec k 0); [|lia].
Qed.

Lemma view_agrees_with_buffer_witness :
  readMessageView (repeat 255 10) = Err ErrShortMessage /\ fst (ReadMessage (repeat 255 10)) = Err ErrInvalidMessageType.
Proof.
  apply (proj1 (view_agrees_with_buffer (repeat 255 10))). split; [reflexivity|].
  simpl. repeat (constructor; [lia|]). constructor.
Defined.

(** A frame that does not inspect is rejected without any effect: no
    document, awareness or application state changes and no reply is written,
    unless a whole-sync override owns the frame. *)
Theorem malformed_frame_is_inert {Doc S W : Type} `{DocOps Doc} `{StateOps S}
    (now : Z) (msg : list Z) (encoder : option (list Z)) (o : origin) (h : SyncHandler Doc S W) (e : go_error) :
  InspectMessage msg = Err e -> handlers h !! MessageSync = None ->
  exists t, HandleMessageWithOrigin now msg encoder o h = (t, Err e, h, encoder).
Proof.
  intros Hi Hn. unfold InspectMessage in Hi. unfold HandleMessageWithOrigin.
  destruct (readMessageView msg) as [[t payload]|e']; [|injection Hi as ->; by eexists].
  rewrite Hn. replace (if t =? MessageSync then None else None) with (@None (@MessageHandler W)) by by case_match.
  rewrite Hi. by eexists.
Qed.

(** C38. The sync handshake transfers exactly the missing state: handling the
    peer's SyncStep1 writes a SyncStep2 and leaves the handler unchanged, and
    handling that reply applies to the peer's document precisely the update
    that the first document encodes against the peer's state vector. *)
Theorem sync_handshake {Doc S W : Type} `{DocOps Doc} `{StateOps S}
    (now : Z) (o : origin) (server client : SyncHandler Doc S W) (update : list Z) :
  handlers server !! MessageSync = None -> handlers client !! MessageSync = None ->
  EncodeStateAsUpdate (doc server) (EncodeStateVector (doc client)) = Ok update ->
  Z.of_nat (length (EncodeStateVector (doc client))) < 2 ^ 64 -> Z.of_nat (length update) < 2 ^ 64 ->
  exists reply,
    HandleMessageWithOrigin now (EncodeSyncStep1 (doc client)) (Some []) o server = (MessageSync, Ok tt, server, Some reply) /\
    HandleMessageWithOrigin now reply None o client =
      (let '(r, d) := ApplyUpdate update o (doc client) in
       (MessageSync, recovered r, mkHandler d (awareness client) (handlers client) (app client), None)).
Proof.
  intros Hs Hc Hu Hl1 Hl2. exists (encodeSyncMessage SyncMessageStep2 update).
  unfold HandleMessageWithOrigin, EncodeSyncStep1. rewrite !view_sync by (unfold is_sync_type; auto).
  change (MessageSync =? MessageSync) with true. cbv iota. rewrite Hs, Hc.
  rewrite !inspect_sync by (done || unfold is_sync_type; auto). cbn [SyncType Body mk_info].
  change (SyncMessageStep1 =? SyncMessageStep1) with true. change (SyncMessageStep2 =? SyncMessageStep1) with false.
  change ((SyncMessageStep2 =? SyncMessageStep2) || _) with true. cbv iota.
  unfold EncodeSyncStep2. rewrite Hu. split; [done|]. by destruct (ApplyUpdate update o (doc client)).
Qed.

(** Dispatch: an override registered for sync receives the raw payload in
    preference to the built-in grammar, an awareness frame goes to its override
    or to the attached awareness value, and a type without handler is
    ignored. *)
Theorem dispatch_by_type {Doc S W : Type} `{DocOps Doc} `{StateOps S}
    (now : Z) (payload body : list Z) (t : Z) (encoder : option (list Z)) (o : origin) (h : SyncHandler Doc S W) :
  2 <= t <= 255 -> Z.of_nat (length body) < 2 ^ 64 ->
  (forall f, handlers h !! MessageSync = Some f ->
     HandleMessageWithOrigin now (WriteMessage [] MessageSync payload) encoder o h =
     (let '(r, h') := callHandler f payload h in (MessageSync, r, h', encoder))) /\
  (forall f, handlers h !! MessageAwareness = Some f ->
     HandleMessageWithOrigin now (EncodeAwarenessUpdateMessage body) encoder o h =
     (let '(r, h') := callHandler f body h in (MessageAwareness, r, h', encoder))) /\
  (forall a, handlers h !! MessageAwareness = None -> awareness h = Some a ->
     HandleMessageWithOrigin now (EncodeAwarenessUpdateMessage body) encoder o h =
     (let '(r, a', _) := ApplyAwarenessUpdate now body o a in
      (MessageAwareness, r, mkHandler (doc h) (Some a') (handlers h) (app h), encoder))) /\
  (handlers h !! t = None ->
     HandleMessageWithOrigin now (WriteMessage [] t payload) encoder o h = (t, Ok tt, h, encoder)).
Proof.
  intros Ht Hl.
  assert (Hw : forall k, 0 <= k <= 255 -> readMessageView (WriteMessage [] k payload) = Ok (k, payload)).
  { intros k Hk. unfold WriteMessage. rewrite WriteVarUint_bytes by lia. rewrite app_nil_l. by apply readMessageView_bytes. }
  assert (Ha : exists p, readMessageView (EncodeAwarenessUpdateMessage body) = Ok (MessageAwareness, p) /\
    forall n, inspectPayload MessageAwareness p n = Ok (mk_info MessageAwareness SyncMessageNone n body)).
  { exists (WriteVarUint8Array [] body). split.
    - unfold EncodeAwarenessUpdateMessage, WriteVarUint8Array. rewrite !WriteVarUint_bytes by (unfold MessageAwareness; lia).
      rewrite !app_nil_l, <- (assoc_L (++)). apply readMessageView_bytes. unfold MessageAwareness. lia.
    - intros n. destruct (readVarUint8ArrayView_bytes [] body [] Hl) as [off Ho]. rewrite app_nil_r, app_nil_l in Ho.
      change (Z.of_nat (length [])) with 0 in Ho. unfold inspectPayload.
      change (MessageAwareness =? MessageSync) with false. change (MessageAwareness =? MessageAwareness) with true.
      cbv iota. by rewrite Ho. }
  destruct Ha as (p & Hp & Hip). unfold HandleMessageWithOrigin. split_and!.
  - intros f Hf. rewrite Hw by (unfold MessageSync; lia). change (MessageSync =? MessageSync) with true. cbv iota. by rewrite Hf.
  - intros f Hf. rewrite Hp, Hip. change (MessageAwareness =? MessageSync) with false.
    change (MessageAwareness =? MessageAwareness) with true. cbv iota. by rewrite Hf.
  - intros a Hf Hh. rewrite Hp, Hip. change (MessageAwareness =? MessageSync) with false.
    change (MessageAwareness =? MessageAwareness) with true. cbv iota. by rewrite Hf, Hh.
  - intros Hn. rewrite Hw by lia. destruct (Z.eqb_spec t MessageSync) as [E|]; [unfold MessageSync in E; lia|].
    unfold inspectPayload. destruct (Z.eqb_spec t MessageSync) as [E|]; [unfold MessageSync in E; lia|].
    destruct (Z.eqb_spec t MessageAwareness) as [E|]; [unfold MessageAwareness in E; lia|]. by rewrite Hn.
Qed.

(** *** Single-client broadcasts *)
Section BroadcastLemmas.
Context {S : Type} `{StateOps S} `{!StateLaws S}.

Lemma broadcast_entry clientID (state : option S) m :
  is_safe clientID -> is_safe (fst (nextAwarenessClock clientID m)) ->
  decodeAwarenessEntries (fst (EncodeAwarenessMessage clientID state m)) =
  Ok [mkEntry clientID (fst (nextAwarenessClock clientID m)) state].
Proof.
  intros Hc Hk. set (e := mkEntry clientID (fst (nextAwarenessClock clientID m)) state).
  assert (Hw : fst (EncodeAwarenessMessage clientID state m) = fold_left writeEntry [e] (WriteVarUint [] (Z.of_nat (length [e])))).
  { unfold EncodeAwarenessMessage. destruct (nextAwarenessClock clientID m) as [clk m']. simpl in Hk |- *. unfold writeEntry. simpl.
    rewrite (u64_small clk); [done|]. unfold is_safe, maxSafeInteger, is_u64 in *. lia. }
  rewrite Hw. apply decode_encode; [|done]. by repeat constructor; apply Hc || apply Hk.
Qed.

Lemma apply_one now o (a : Awareness S) update e :
  decodeAwarenessEntries update = Ok [e] -> destroyed a = false -> e_client e <> ClientID a ->
  clockOf a (e_client e) < e_clock e ->
  let a' := snd (fst (ApplyAwarenessUpdate now update o a)) in
  view a' (e_client e) = (e_clock e, e_state e) /\ destroyed a' = false /\ ClientID a' = ClientID a.
Proof.
  intros Hd Hdd Hn Hlt. cbv zeta. unfold ApplyAwarenessUpdate, applyAwarenessEntries. rewrite Hd, Hdd. cbn [fold_left].
  pose proof (applyEntry_join now a noChanges e (e_client e) Hn) as Hj.
  destruct (applyEntry_fst now a noChanges e) as (Hid & Hde & _).
  destruct (applyEntry now (a, noChanges) e) as [a1 c1]. cbn [fst snd] in *. split_and!; [|congruence|done].
  rewrite Hj, decide_True by done. unfold join, view. cbn [fst]. by destruct (Z.ltb_spec (clockOf a (e_client e)) (e_clock e)); [|lia].
Qed.

End BroadcastLemmas.

(** Successive broadcasts of one client are all applied by a receiver
    that has seen no later clock: the clocks of the package-level counter
    increase, so after two broadcasts the receiver holds the second state; and
    a broadcast decodes to the client and the state it was made from. *)
Theorem broadcasts_are_applied {S : Type} `{StateOps S} `{!StateLaws S}
    (now now' : Z) (o : origin) (a : Awareness S) (k c : Z) (s1 s2 : option S) (m : gmap Z Z) :
  m !! k = Some c -> 0 <= c < maxSafeInteger - 1 -> is_safe k -> k <> ClientID a -> destroyed a = false -> clockOf a k <= c ->
  let '(b1, m1) := EncodeAwarenessMessage k s1 m in
  let '(b2, m2) := EncodeAwarenessMessage k s2 m1 in
  let a1 := snd (fst (ApplyAwarenessUpdate now b1 o a)) in
  let a2 := snd (fst (ApplyAwarenessUpdate now' b2 o a1)) in
  view a1 k = (c + 1, s1) /\ view a2 k = (c + 2, s2) /\ m2 !! k = Some (c + 2) /\
  DecodeAwarenessMessage b1 = Ok (k, s1).
Proof.
  intros Hm Hc Hk Hka Hd Hle.
  assert (Hn1 : nextAwarenessClock k m = (c + 1, <[k := c + 1]> m)).
  { unfold nextAwarenessClock. rewrite Hm, u64_small; [done|]. unfold is_u64, maxSafeInteger in *. lia. }
  assert (Hn2 : nextAwarenessClock k (<[k := c + 1]> m) = (c + 2, <[k := c + 2]> m)).
  { unfold nextAwarenessClock. rewrite lookup_insert_eq, u64_small, insert_insert_eq by (unfold is_u64, maxSafeInteger in *; lia).
    by replace (c + 1 + 1) with (c + 2) by lia. }
  assert (Hs1 : is_safe (c + 1)) by (unfold is_safe in *; lia). assert (Hs2 : is_safe (c + 2)) by (unfold is_safe in *; lia).
  pose proof (broadcast_entry k s1 m Hk) as Hd1. rewrite Hn1 in Hd1. specialize (Hd1 Hs1).
  pose proof (broadcast_entry k s2 (<[k := c + 1]> m) Hk) as Hd2. rewrite Hn2 in Hd2. specialize (Hd2 Hs2).
  assert (Hb1 : snd (EncodeAwarenessMessage k s1 m) = <[k := c + 1]> m) by (unfold EncodeAwarenessMessage; by rewrite Hn1).
  assert (Hb2 : snd (EncodeAwarenessMessage k s2 (<[k := c + 1]> m)) = <[k := c + 2]> m)
    by (unfold EncodeAwarenessMessage; by rewrite Hn2).
  assert (Hdec : DecodeAwarenessMessage (fst (EncodeAwarenessMessage k s1 m)) = Ok (k, s1)).
  { unfold EncodeAwarenessMessage. rewrite Hn1. cbn [fst]. unfold is_safe, maxSafeInteger in *.
    rewrite (u64_small k) by (unfold is_u64; lia). rewrite WriteString_app, !WriteVarUint_bytes by lia.
    rewrite app_nil_l, <- !(assoc_L (++)), <- (app_nil_r (WriteString [] _)). unfold DecodeAwarenessMessage, ReadVarUint, rbind.
    rewrite uvarint_roundtrip by (unfold is_u64; lia). change (1 =? 0) with false. cbv beta iota.
    rewrite uvarint_roundtrip by (unfold is_u64; lia). cbv beta iota.
    rewrite uvarint_roundtrip by (unfold is_u64; lia). cbv beta iota. rewrite string_roundtrip by apply state_size.
    unfold rlift. rewrite parse_state. unfold rret. cbn [fst]. by rewrite i64_small by (unfold is_i64; lia). }
  destruct (EncodeAwarenessMessage k s1 m) as [b1 m1]. cbn [fst snd] in *. subst m1.
  destruct (EncodeAwarenessMessage k s2 (<[k := c + 1]> m)) as [b2 m2]. cbn [fst snd] in *. subst m2.
  destruct (apply_one now o a b1 _ Hd1 Hd Hka) as (Hv1 & Hde1 & Hid1); [simpl; lia|]. simpl in Hv1.
  destruct (apply_one now' o (snd (fst (ApplyAwarenessUpdate now b1 o a))) b2 _ Hd2 Hde1) as (Hv2 & _).
  - simpl. congruence.
  - simpl. injection Hv1 as Hck _. rewrite Hck. lia.
  - split_and!; [done|done|by rewrite lookup_insert_eq|done].
Qed.

(** *** Witnesses: a document is the log of the bytes applied to it. *)
#[global] Instance logDoc : DocOps (list Z) := {|
  EncodeStateVector d := [Z.of_nat (length d)];
  EncodeStateAsUpdate d sv := match sv with [n] => Ok (drop (Z.to_nat n) d) | _ => Err ErrMalformed end;
  ApplyUpdate update _ d := (Ok tt, d ++ update) |}.

Definition sample_server : SyncHandler (list Z) Z Z := NewSyncHandler [5; 6; 7] 0.
Definition sample_client : SyncHandler (list Z) Z Z := NewSyncHandler [5] 0.

Lemma malformed_frame_is_inert_witness :
  exists t, HandleMessageWithOrigin 0 [0; 2; 9] (Some []) OLocal sample_server = (t, Err ErrUnexpectedEOF, sample_server, Some []).
Proof. apply (malformed_frame_is_inert 0 [0; 2; 9] (Some []) OLocal sample_server ErrUnexpectedEOF); reflexivity. Defined.

Lemma sync_handshake_witness : exists reply,
  HandleMessageWithOrigin 0 (EncodeSyncStep1 [5]) (Some []) OLocal sample_server = (MessageSync, Ok tt, sample_server, Some reply) /\
  HandleMessageWithOrigin 0 reply None OLocal sample_client = (MessageSync, Ok tt, NewSyncHandler [5; 6; 7] 0, None).
Proof. exact (sync_handshake 0 OLocal sample_server sample_client [6; 7] eq_refl eq_refl eq_refl eq_refl eq_refl). Defined.

Lemma dispatch_by_type_witness :
  HandleMessageWithOrigin 0 (WriteMessage [] 9 [1; 2]) None OLocal sample_server = (9, Ok tt, sample_server, None).
Proof.
  apply (proj2 (proj2 (proj2 (dispatch_by_type 0 [1; 2] [] 9 None OLocal sample_server ltac:(lia) ltac:(reflexivity))))).
  reflexivity.
Defined.

Lemma broadcasts_are_applied_witness :
  let '(b1, m1) := EncodeAwarenessMessage 7 (Some 11) {[ 7 := 4 ]} in
  let '(b2, m2) := EncodeAwarenessMessage 7 None m1 in
  let a1 := snd (fst (ApplyAwarenessUpdate 0 b1 OLocal sample_a)) in
  let a2 := snd (fst (ApplyAwarenessUpdate 1 b2 OLocal a1)) in
  view a1 7 = (5, Some 11) /\ view a2 7 = (6, None) /\ m2 !! 7 = Some 6 /\ DecodeAwarenessMessage b1 = Ok (7, Some 11).
Proof.
  apply (broadcasts_are_applied 0 1 OLocal sample_a 7 4 (Some 11) None {[ 7 := 4 ]}).
  - reflexivity.
  - split; [discriminate|reflexivity].
  - split; discriminate.
  - discriminate.
  - reflexivity.
  - discriminate.
Defined.
